(* ===== verification/_CoqProject ===== *)
-Q . S2P
Prelude.v
GoText.v
Program.v
Cluster.v
Selectors.v
Names.v
Status.v
Api.v
Exposer.v
RestoreExposer.v
RepoQueue.v
MoverResult.v
Restic.v
VolumeMachine.v
Backup.v
Hooks.v
Calendar.v
Schedule.v
Abandonment.v
Manifests.v
Reaper.v
MaintenanceJob.v
Location.v
BackupPass.v
BackupSafety.v
ScheduleController.v
RestoreEngine.v
ManifestSelection.v
Unstructured.v
Sanitize.v
SanitizeFacts.v
ManifestApply.v
ManifestDump.v
RestoreController.v
RestoreSafety.v
ClusterRestore.v
Maintenance.v
Erasure.v
ClusterBackup.v
ClusterSchedule.v
Discovery.v
DiscoveryLister.v
Keys.v
RepositoryInit.v
ClusterLocation.v
ExternalSync.v
MoverJob.v
