(* ===== verification/Prelude.v ===== *)
(** * CrystalBackup: a verification development

    CrystalBackup is a Kubernetes operator that backs namespaces up into restic
    repositories: a controller advances each claim of a Backup through a CSI
    snapshot, an exposure and a mover Job, captures the namespace's manifests,
    quiesces applications with hooks around the snapshots, and serialises the
    operations that need a repository to themselves on a queue.  This library
    translates that controller, function by function, and proves what makes it
    correct.

    ** Conventions

    Go functions become Coq functions of the same name.  A Go error is [gerr], a
    fallible value [result]; everything the API server, a mover or a clock tells a
    function is a field of a record of answers ([answers], [hook_answers],
    [pass_answers], ...), so that a theorem that quantifies over the answers holds
    for every behaviour of the outside.  A reconcile is a [pass]: a function of the
    object in memory that returns a value, the object it leaves and the list of the
    calls it made, in their order.  Code outside the repository (JSON, label
    selectors, regular expressions, strconv.Quote, time.ParseDuration) is a
    parameter of the section that uses it.

    ** The files

    - [Prelude], [GoText], [Cluster], [Selectors]: machine integers; Go's strings
      (Itoa, TrimSpace, path.Match, FNV-1a, UTF-8 cuts) with their fuels; Kubernetes
      objects, errors and the condition store, an interface whose laws every client
      uses and one instance discharges; namespace and claim selectors
      (nsselector/nsselector.go, api/v1alpha1/common_types.go).
    - [Names] (controller/backup_controller.go): DNS names, labels, the mapping from
      a Job back to its Backup.
    - [Status] (status/): roll-ups, tallies and records.
    - [RepoQueue] (repo/queue/): the per-repository operation queue as an
      interleaving of its goroutines' shared accesses; workers are objects of a heap,
      which the map of the Manager reaches by key, so that a second goroutine for one
      key can be said, and excluded.
    - [MoverResult] (mover/result.go), [Restic] (restic/): the mover's termination
      message, restic's argument lists, identities and tags.
    - [VolumeMachine] (controller/backup_controller.go, 1498 on): one volume's step.
    - [Backup], [Hooks] (hooks/hooks.go, controller/hooks_phase.go), [Manifests]
      (controller/manifests_phase.go, manifest_rbac.go), [Location]
      (controller/location_binding.go, backuplocation_controller.go), [BackupPass]
      (controller/backup_controller.go 673 on, backup_maintenance.go): the object and
      the monad, the freeze window, the manifest capture, the locations, and the
      reconcile that composes them.
    - [BackupSafety]: the theorems about whole passes and sequences of passes.
    - [Program], [Api]: programs over an interface and their executions, which pair
      every request with any answer; the API server as such an interface.
    - [Exposer] (exposer/), [RestoreExposer] (rexposer/), [Reaper]
      (controller/reaper.go): the snapshot of a claim and its re-binding, the volume
      a restore writes into, and the sweep of what teardowns left behind, as programs
      over [Api].
    - [Calendar], [Schedule] (schedule/schedule.go), [Abandonment]
      (controller/runname.go, schedule_abandonment.go), [ScheduleController]
      (controller/backupschedule_controller.go): the civil calendar behind run names,
      the tick that is due, who owns a run's coordinate and when a run is given up,
      and the reconcile of a BackupSchedule.  The cron library is a parameter, the
      class [CronLaws] its documented contract.
    - [MaintenanceJob] (controller/backup_maintenance.go), [Maintenance]
      (controller/maintenance_controller.go, maintenance_tracker.go): one operation
      on a repository, from the drain of the movers to the deletion of its Job, and
      the reconcile that decides on prune, check and unlock, interleaved with the
      goroutines that wait for them.

    - [ClusterBackup] (controller/clusterbackup_controller.go,
      cluster_manifests_phase.go): one run over the namespaces of a cluster, its
      fan-out, its capture of the cluster-scoped objects and its ledger.
    - [ClusterSchedule] (controller/clusterbackupschedule_controller.go, the cluster
      plane of schedule_abandonment.go): the reconcile of a ClusterBackupSchedule, the
      end of an abandoned run and the history of the run records.
    - [Discovery] (discovery/derive.go, controller/discovery_controller.go,
      discovery_inventory.go), [DiscoveryLister] (controller/discovery_lister.go): the
      repository seen as Backups, and the Job that lists it.
    - [Keys] (keys/): the passwords of repositories, minted once.
    - [RepositoryInit] (controller/backuprepository_controller.go): the initialisation
      of a repository, its Job and its reconcile, over the passes of any number of them.
    - [ClusterLocation] (controller/clusterbackuplocation_controller.go,
      clusterbackuplocation_escrow.go, escrow/escrow.go): the reconcile of a cluster
      location and the escrow of its key in the bucket, over the sum of [keyI] and [locI].
    - [ExternalSync] (controller/external_sync.go, clusterbackupexternalsync_controller.go,
      backupexternalsync_controller.go): the copy of one repository into another, on
      both planes, with its Job, its counts and the removals of Mirror mode.
    - [MoverJob] (mover/job.go, profiles.go, placement.go): the Job of a mover from its
      request, with its sizing and its placement; quantities are the class [Quantities]
      and Go's float64 is Stdlib's SpecFloat.
    - [Erasure] (controller/clustererasure_controller.go): the reconcile of a
      ClusterErasure, and the life of one through its passes, restarts and lost writes.
    - [RestoreEngine] (controller/restore_engine.go), [RestoreController]
      (controller/restore_controller.go, restore_resources.go), [RestoreSafety],
      [ClusterRestore] (controller/clusterrestore_controller.go,
      cluster_restore_resources.go, cluster_manifest_rbac.go): the drive over the
      volumes of a restore and its step, with the memory it keeps between passes;
      the two reconciles that resolve a source, plan, apply manifests and drive; the
      theorems about a namespaced restore.  Their requests are [engineI] and
      [restoreI] on top of [Api]; [sumI] joins interfaces and [inject] lifts a
      program into a larger one.
    - [ManifestSelection] (manifests/selection.go, clusterscope.go, phases.go,
      index.go): which captured objects a restore or a capture selects, in which
      phase they are applied and where they are stored.
    - [Unstructured], [Sanitize] (sanitize/), [SanitizeFacts]: the tree an object
      is, with the accessors of apimachinery as the class [Accessors] and their
      documented laws as [AccessorLaws]; the ruleset, rules.yaml as [embedded], the
      sanitiser and the exclusions; the theorems about them.
    - [ManifestDump] (manifests/dump.go, cluster_dump.go, index.go), [ManifestApply]
      (manifests/apply.go, diff.go): the two dumpers with their paging and index,
      and the planner and applier, as programs over [dumpI] and [dynI].

    ** What the theorems show

    - whole runs ([BackupSafety]): nothing is torn down before its verdict is
      stored, even when the answer of the status write is lost, but for the mover that
      an admission undoes in its own pass; over any sequence of
      passes, crashes and lost writes no volume is forgotten or moves backwards and
      a terminal status is final; a terminal phase is earned; a Backup is declared
      clean only after its exposures were swept and read back as gone.
    - one volume ([VolumeMachine]): the lifecycle relation, when a teardown is asked
      for, admission while an exclusive operation is pending, what Completed means,
      the bound of every wait, which volume is picked.
    - the freeze window ([Hooks]): no snapshot before a quiesce is recorded whose failures
      were all tolerated, a pass that runs the chain records every hook of it, the release is attempted a bounded number of times and settles, the verdict on
      consistency.
    - the queue ([RepoQueue]): exclusion, FIFO order, the soundness of the
      quiescence flag, one resolution per handle, the liveness of Stop.
    - storage ([Exposer], [RestoreExposer], [Reaper]), for every execution: what an
      exposer creates its cleanup deletes, the storage snapshot is guarded before it
      is aliased and let go last, a teardown stays within its run; a transplant never
      loses the user's volume and an exposure is restartable; the reaper deletes on
      evidence read in the same sweep, spares live volumes, says "reaped" only of
      what it did not find again, and looks up the owner of every Job, claim, Secret and
      twin volume old enough, deleting it next when the owner is done.
    - schedules ([ScheduleController], [Abandonment], [Schedule]): overlap, never
      the activation just fired again, only new activations; a run is given up on
      evidence and its termination destroys no data; what is due, and the deadline's
      wrap-around.
    - maintenance: what an operation leaves behind and when it may call itself a
      success, that it returns, one operation in flight per repository over every
      interleaving, what a pass may submit, that no instant is attempted twice, the
      pacing of the unlocks.
    - cluster runs: the ledger accounts for every namespace once; a run ends only with
      an answer for each and, when a namespace matched in that pass, with its capture
      settled; the fan-out writes only what is
      the run's; the capture outlives the status that records it; a schedule ends a run only
      on evidence that nothing works on it, stamps the next one only after every
      previous one has ended, and its history keeps the newest records.
    - discovery: a pass projects and deletes on evidence it read, keeps what an execution
      reported, and calls itself a success only when every group is settled; a listing is
      what a finished Job of its own argv printed, and returns.
    - keys: every call that returns the key of a location returns the one key its Secret
      holds, over every interleaving.
    - repositories and locations: a repository is initialised only on a Job that finished
      or a mark that was read, one initialisation of it is queued at a time, and its
      body returns; a location provisions only with its key escrowed or its escrow
      settled, and the escrow never loses the key that is in use.
    - external syncs: a copy starts only when it is due, between two repositories that
      are ready and differ; the numbers of a sync are those of two listings after a copy
      that is done; Mirror forgets by ID, and only copies whose original was not found
      at the source; a copy starts right after the tracker said that none is in flight; the loop over Go's map counts the same in any order; the accounts
      of the two ends are kept apart.
    - mover Jobs: the pods of a copy and of a maintenance operation find in the Secret
      written for them every key and file they name; a table of profiles is the built-in
      one with its overrides, whatever order Go visits them in, and keeps requests under
      limits; a placement that is loaded can be scheduled.
    - erasures: nothing is queued without a confirmation that names the target and a
      recorded scope that was counted before, nor on an immutable location, and what is
      queued is the one forget and the one prune of that scope; the record attests no destruction
      that was not observed.
    - restores: an unconfirmed one touches nothing; a terminal status is earned by
      both halves; no Job is deleted before the status that supersedes it; every
      volume and manifest comes from one listing of the restore's own namespace and
      run, taken in the pass or remembered by the engine from an earlier one; the source, once chosen, sticks; a mover starts only for an exposure that
      is ready and outside an unlock, under its mount; cluster-scoped resources come
      before volumes; the run of a coordinate is the newest in any order of visits.
    - manifest selection: what a selection covers, that a parsed pattern cannot fail
      later, that a capture never takes the control plane's own roles.
    - manifests: a capture misses nothing it could see and says what it could not,
      its index agrees with the disk, renders the same in any order, and holds no
      secret data that was to be left out; sanitising takes only what a matching rule
      names, leaves nothing the server owns, keeps keys unique and is idempotent; an
      apply takes turns in the order of the
      phases, deletes only in a Recreate and never data, and returns.
    - data: round trips of identities and PVC metadata, the scope of an erasure, the
      message budget, selectors, names and roll-ups.

    ** Fuel and bounds

    The fuels are structural: [pathMatch] and the cutting loops take the length of
    their input plus one, which no iteration can exceed since each consumes a
    character; [drain_steps] bounds the worker's exit by the length of the queue it
    drains; [DueTick]'s loop has the code's own bound, [maxCatchupTicks], which is the
    fuel; the three loops of a maintenance operation end with its context, and
    [runRepoMaintenance_returns] gives the fuel in terms of it; the paging of a dump
    takes a page per step ([Dump_returns]) and the wait for a deletion sixty-one polls
    at most ([Apply_returns]); the wait for a listing ends with its context
    ([listing_returns]), as the initialisation of a repository does ([runInit_returns]);
    the copy of an external sync waits as a maintenance operation does.  The loops over lists are structural recursions.

    ** Not modelled

    Event and log texts, metrics and trace spans, which nothing reads back.  The
    clock is read once per pass and the object is the one the pass was given: a
    stale read or a conflict shows as an error of the write, whose outcome the model
    leaves open.  The mover binary and the webhooks are not modelled, nor are the labels
    handed to the exposer's teardown, the bytes a sync has copied (which restic does not
    report), cryptography, rclone and the S3 statistics, nor the soak, self-check,
    documentation and alerting tools beside the operator, which keep no state of the
    program. *)

From stdpp Require Export base tactics gmap strings list fin_maps.
From Stdlib Require Export ZArith Lia.

(** ** Machine integers

    Go's [int32] and [int64] are represented by [Z] in two's complement range;
    every arithmetic operation of the source that could leave the range is
    followed by the wrap written out here. *)

Declare Scope go_scope.
Delimit Scope go_scope with go.

Definition wrap (w : Z) (z : Z) : Z := ((z + 2 ^ (w - 1)) mod 2 ^ w - 2 ^ (w - 1))%Z.

Definition int32 (z : Z) : Z := wrap 32 z.
Definition int64 (z : Z) : Z := wrap 64 z.
Definition uint32 (z : Z) : Z := (z mod 2 ^ 32)%Z.
Definition uint64 (z : Z) : Z := (z mod 2 ^ 64)%Z.

Definition in_int32 (z : Z) : Prop := (- 2 ^ 31 <= z < 2 ^ 31)%Z.
Definition in_int64 (z : Z) : Prop := (- 2 ^ 63 <= z < 2 ^ 63)%Z.

Notation "a '+32' b" := (int32 (a + b)) (at level 50, left associativity) : go_scope.
Notation "a '-32' b" := (int32 (a - b)) (at level 50, left associativity) : go_scope.
Notation "a '+64' b" := (int64 (a + b)) (at level 50, left associativity) : go_scope.

Lemma int32_id z : in_int32 z -> int32 z = z.
Proof.
  unfold in_int32, int32, wrap. change (2 ^ (32 - 1))%Z with (2 ^ 31)%Z. intros H.
  rewrite Z.mod_small; lia.
Qed.

Lemma int64_id z : in_int64 z -> int64 z = z.
Proof.
  unfold in_int64, int64, wrap. change (2 ^ (64 - 1))%Z with (2 ^ 63)%Z. intros H.
  rewrite Z.mod_small; lia.
Qed.

Lemma int32_range z : in_int32 (int32 z).
Proof.
  unfold in_int32, int32, wrap. change (2 ^ (32 - 1))%Z with (2 ^ 31)%Z.
  pose proof (Z.mod_pos_bound (z + 2 ^ 31) (2 ^ 32) ltac:(lia)). lia.
Qed.

Lemma int64_range z : in_int64 (int64 z).
Proof.
  unfold in_int64, int64, wrap. change (2 ^ (64 - 1))%Z with (2 ^ 63)%Z.
  pose proof (Z.mod_pos_bound (z + 2 ^ 63) (2 ^ 64) ltac:(lia)). lia.
Qed.

(** Two values with the same wrap are congruent, and congruent values wrap alike. *)
Lemma int32_congr a b k : (a = b + k * 2 ^ 32)%Z -> int32 a = int32 b.
Proof.
  intros ->. unfold int32, wrap. f_equal.
  replace (b + k * 2 ^ 32 + 2 ^ (32 - 1))%Z with (b + 2 ^ (32 - 1) + k * 2 ^ 32)%Z by lia.
  by rewrite Z_mod_plus_full.
Qed.

Lemma int32_decomp z : exists k, (int32 z = z + k * 2 ^ 32)%Z.
Proof.
  unfold int32, wrap. exists (- ((z + 2 ^ (32 - 1)) / 2 ^ 32))%Z.
  pose proof (Z.div_mod (z + 2 ^ (32 - 1)) (2 ^ 32) ltac:(lia)). lia.
Qed.

Lemma int32_add_l a b : int32 (int32 a + b) = int32 (a + b).
Proof.
  destruct (int32_decomp a) as [k Hk]. apply (int32_congr _ _ k). lia.
Qed.

Lemma int32_add_r a b : int32 (a + int32 b) = int32 (a + b).
Proof.
  destruct (int32_decomp b) as [k Hk]. apply (int32_congr _ _ k). lia.
Qed.

Lemma int32_add_ll a b c : int32 (int32 a + b + c) = int32 (a + b + c).
Proof. rewrite <-Z.add_assoc, int32_add_l. f_equal. lia. Qed.

Lemma int32_sub_l a b : int32 (int32 a - b) = int32 (a - b).
Proof. destruct (int32_decomp a) as [k Hk]. apply (int32_congr _ _ k). lia. Qed.

Lemma int32_sub_r a b : int32 (a - int32 b) = int32 (a - b).
Proof. destruct (int32_decomp b) as [k Hk]. apply (int32_congr _ _ (- k)). lia. Qed.

Lemma int32_idem a : int32 (int32 a) = int32 a.
Proof. apply int32_id, int32_range. Qed.

Lemma int64_idem a : int64 (int64 a) = int64 a.
Proof. apply int64_id, int64_range. Qed.

Lemma int64_add_l a b : int64 (int64 a + b) = int64 (a + b).
Proof.
  unfold int64, wrap. f_equal.
  replace ((a + 2 ^ (64 - 1)) mod 2 ^ 64 - 2 ^ (64 - 1) + b + 2 ^ (64 - 1))%Z
    with ((a + 2 ^ (64 - 1)) mod 2 ^ 64 + b)%Z by lia.
  rewrite Zplus_mod_idemp_l. f_equal. lia.
Qed.

(** ** Time

    An instant is a number of nanoseconds since the Unix epoch; [zero_time] is
    Go's zero [time.Time] (the first of January of year 1), the value
    [IsZero] recognises.  [time.Time.Sub] saturates at the bounds of
    [time.Duration], a signed 64-bit count of nanoseconds. *)

Definition zero_time : Z := (- 62135596800 * 10 ^ 9)%Z.
Definition time_is_zero (t : Z) : bool := (t =? zero_time)%Z.
Definition time_after (t u : Z) : bool := (u <? t)%Z.
Definition time_before (t u : Z) : bool := (t <? u)%Z.
Definition time_sub (t u : Z) : Z := Z.max (- 2 ^ 63) (Z.min (2 ^ 63 - 1) (t - u)).

Definition second : Z := (10 ^ 9)%Z.
Definition minute : Z := (60 * second)%Z.
Definition hour : Z := (60 * minute)%Z.

Lemma time_sub_gt t u d : (0 <= d < 2 ^ 63 - 1)%Z -> (d < time_sub t u <-> d < t - u)%Z.
Proof. unfold time_sub. lia. Qed.

Lemma time_sub_le t u d : (0 <= d < 2 ^ 63 - 1)%Z -> (time_sub t u <= d <-> t - u <= d)%Z.
Proof. unfold time_sub. lia. Qed.

(** ** Counting *)

Fixpoint countb {A} (p : A -> bool) (l : list A) : nat :=
  match l with
  | [] => 0
  | x :: l => (if p x then 1 else 0) + countb p l
  end.

Section countb.
Context {A : Type}.
Implicit Types (p q : A -> bool) (l : list A).

Lemma countb_le_length p l : countb p l <= length l.
Proof. induction l; simpl; [lia|]. destruct (p a); simpl; lia. Qed.

Lemma countb_zero p l : countb p l = 0 <-> forall x, x ∈ l -> p x = false.
Proof.
  induction l as [|a l IH]; simpl; [split; [inversion 2|done]|].
  destruct (p a) eqn:E; split.
  - lia.
  - intros H. specialize (H a (list_elem_of_here _ _)). congruence.
  - intros Hc x [->|Hx]%elem_of_cons; [done|]. by apply IH.
  - intros H. apply IH. intros x Hx. apply H. by right.
Qed.

Lemma countb_pos p l : 0 < countb p l <-> exists x, x ∈ l /\ p x = true.
Proof.
  split.
  - intros Hc. induction l as [|a l IH]; simpl in *; [lia|].
    destruct (p a) eqn:E; [exists a; split; [left|done]|].
    destruct (IH Hc) as (x & Hx & Hp). exists x; split; [by right|done].
  - intros (x & Hx & Hp). destruct (countb p l) eqn:E; [|lia].
    rewrite countb_zero in E. specialize (E x Hx). congruence.
Qed.

Lemma countb_app p l1 l2 : countb p (l1 ++ l2) = countb p l1 + countb p l2.
Proof. induction l1; simpl; [done|]. rewrite IHl1. lia. Qed.

Lemma countb_ext p q l : (forall x, x ∈ l -> p x = q x) -> countb p l = countb q l.
Proof.
  induction l as [|a l IH]; simpl; intros H; [done|].
  rewrite (H a (list_elem_of_here _ _)), IH; [done|]. intros x Hx. apply H. by right.
Qed.

Lemma countb_existsb p l : (0 <? countb p l)%nat = existsb p l.
Proof.
  induction l as [|a l IH]; simpl; [done|].
  destruct (p a); simpl; [done|]. apply IH.
Qed.

Global Instance countb_Permutation p : Proper ((≡ₚ) ==> eq) (countb p).
Proof. induction 1; simpl; lia. Qed.
End countb.

Lemma existsb_elem {A} (p : A -> bool) l : existsb p l = true <-> exists x, x ∈ l /\ p x = true.
Proof.
  rewrite existsb_exists. split; intros (x & Hx & Hp); exists x; by rewrite ?list_elem_of_In in *.
Qed.

Lemma existsb_none {A} (p : A -> bool) l : existsb p l = false <-> forall x, x ∈ l -> p x = false.
Proof.
  rewrite <-not_true_iff_false, existsb_elem. split.
  - intros H x Hx. destruct (p x) eqn:E; [|done]. destruct H. by exists x.
  - intros H (x & Hx & Hp). rewrite H in Hp; done.
Qed.

Lemma forallb_elem {A} (p : A -> bool) l : forallb p l = true <-> forall x, x ∈ l -> p x = true.
Proof. rewrite forallb_forall. by setoid_rewrite list_elem_of_In. Qed.

Global Instance existsb_Permutation {A} (p : A -> bool) : Proper ((≡ₚ) ==> eq) (existsb p).
Proof. intros l1 l2 H. rewrite <-!countb_existsb. by rewrite H. Qed.

(** ** Hint database and tactics of the development

    [cb] collects the arithmetic side conditions the components share;
    [int_simpl] removes the wraps of in-range values; [str_cases] splits on
    every string comparison of the goal. *)

Create HintDb cb discriminated.
#[export] Hint Resolve int32_range int64_range countb_le_length : cb.
Create Rewrite HintDb cb_int.
#[export] Hint Rewrite int32_add_l int32_add_r int32_add_ll int32_sub_l int32_sub_r int32_idem int64_idem int64_add_l : cb_int.

Ltac int_simpl := autorewrite with cb_int in *.

Ltac str_cases :=
  repeat match goal with
  | H : context [String.eqb ?a ?b] |- _ =>
      destruct (String.eqb_spec a b); simpl in *; try done
  | |- context [String.eqb ?a ?b] =>
      destruct (String.eqb_spec a b); simpl in *; try done
  end.
