(* ===== verification/GoText.v ===== *)
(** * GoText: what the program uses of Go's strings, utf8, path, sort, hash/fnv

    Go strings are byte sequences; here they are [string], one [ascii] per
    byte.  A rune is an [N].  The functions follow the algorithms of the Go
    standard library, so that the components that call them can be evaluated. *)

From S2P Require Import Prelude.
From Stdlib Require Import Sorted OrdersEx.
From stdpp Require Import sorting.
From Stdlib Require Import Ascii String.

#[local] Open Scope N_scope.

(** ** Bytes *)

Definition code (a : ascii) : N := N_of_ascii a.
Definition chr (n : N) : ascii := ascii_of_N n.

Definition slen (s : string) : nat := String.length s.
Definition sdrop (n : nat) (s : string) : string := substring n (slen s - n) s.
Definition stake (n : nat) (s : string) : string := substring 0 n s.

Fixpoint of_bytes (l : list N) : string :=
  match l with
  | [] => EmptyString
  | b :: l => String (chr b) (of_bytes l)
  end.

Fixpoint to_bytes (s : string) : list N :=
  match s with
  | EmptyString => []
  | String a s => code a :: to_bytes s
  end.

Definition HasPrefix (s p : string) : bool := String.prefix p s.
Definition HasSuffix (s p : string) : bool :=
  (slen p <=? slen s)%nat && String.eqb (sdrop (slen s - slen p) s) p.

(** ** UTF-8 *)

Definition RuneError : N := 65533.

Definition in_range (lo hi b : N) : bool := (lo <=? b) && (b <=? hi).
Definition cont (b : N) : bool := in_range 128 191 b.

(** Second bytes a three- and a four-byte sequence accepts after its lead. *)
Definition accept3 (b0 b1 : N) : bool :=
  if b0 =? 224 then in_range 160 191 b1
  else if b0 =? 237 then in_range 128 159 b1 else cont b1.

Definition accept4 (b0 b1 : N) : bool :=
  if b0 =? 240 then in_range 144 191 b1
  else if b0 =? 244 then in_range 128 143 b1 else cont b1.

(** [utf8.DecodeRuneInString]: the first rune and its width; [RuneError] of
    width one on an invalid encoding, of width zero on the empty string. *)
Definition DecodeRune (s : string) : N * nat :=
  match to_bytes (stake 4 s) with
  | [] => (RuneError, 0%nat)
  | b0 :: r =>
      if b0 <? 128 then (b0, 1%nat)
      else match r with
      | b1 :: r =>
          if in_range 194 223 b0 then
            if cont b1 then ((b0 - 192) * 64 + (b1 - 128), 2%nat) else (RuneError, 1%nat)
          else match r with
          | b2 :: r =>
              if in_range 224 239 b0 then
                if accept3 b0 b1 && cont b2
                then ((b0 - 224) * 4096 + (b1 - 128) * 64 + (b2 - 128), 3%nat)
                else (RuneError, 1%nat)
              else match r with
              | b3 :: _ =>
                  if in_range 240 244 b0 && accept4 b0 b1 && cont b2 && cont b3
                  then ((b0 - 240) * 262144 + (b1 - 128) * 4096 + (b2 - 128) * 64 + (b3 - 128), 4%nat)
                  else (RuneError, 1%nat)
              | [] => (RuneError, 1%nat)
              end
          | [] => (RuneError, 1%nat)
          end
      | [] => (RuneError, 1%nat)
      end
  end.

Definition valid_rune (r : N) : bool := (r <? 55296) || in_range 57344 1114111 r.

(** [utf8.EncodeRune]; an invalid rune is encoded as [RuneError]. *)
Definition EncodeRune (r : N) : string :=
  if r <? 128 then of_bytes [r]
  else if r <? 2048 then of_bytes [192 + r / 64; 128 + r mod 64]
  else if negb (valid_rune r) then of_bytes [239; 191; 189]
  else if r <? 65536 then of_bytes [224 + r / 4096; 128 + (r / 64) mod 64; 128 + r mod 64]
  else of_bytes [240 + r / 262144; 128 + (r / 4096) mod 64; 128 + (r / 64) mod 64; 128 + r mod 64].

(** [[]rune(s)], also the runes a [for range s] loop visits: [skip] bytes of the
    rune already decoded are passed over first. *)
Fixpoint runes_from (skip : nat) (s : string) : list N :=
  match s with
  | EmptyString => []
  | String _ rest =>
      match skip with
      | S k => runes_from k rest
      | O => let '(r, w) := DecodeRune s in r :: runes_from (w - 1) rest
      end
  end.

Definition runes (s : string) : list N := runes_from 0 s.

(** [string(rs)] of a rune slice. *)
Definition string_of_runes (rs : list N) : string := String.concat "" (map EncodeRune rs).

(** ** Trimming *)

(** The encodings of the runes [unicode.IsSpace] accepts. *)
Definition space_encodings : list string :=
  map EncodeRune
    ([9; 10; 11; 12; 13; 32; 133; 160; 5760] ++ map (fun k => 8192 + N.of_nat k) (seq 0 11)
     ++ [8232; 8233; 8239; 8287; 12288]).

Definition strip_first (s : string) : option string :=
  match find (HasPrefix s) space_encodings with
  | Some p => Some (sdrop (slen p) s)
  | None => None
  end.

Definition strip_last (s : string) : option string :=
  match find (HasSuffix s) space_encodings with
  | Some p => Some (stake (slen s - slen p) s)
  | None => None
  end.

Fixpoint strip_all (strip : string -> option string) (fuel : nat) (s : string) : string :=
  match fuel with
  | O => s
  | S n => match strip s with Some s' => strip_all strip n s' | None => s end
  end.

(** [strings.TrimSpace]; every stripped rune removes at least a byte, so the
    length of the string is enough fuel. *)
Definition TrimSpace (s : string) : string :=
  let s := strip_all strip_first (slen s) s in
  strip_all strip_last (slen s) s.

(** [strings.TrimRight(s, cutset)] and [strings.Trim] for a one-byte cutset. *)
Fixpoint TrimLeftByte (c : ascii) (s : string) : string :=
  match s with
  | EmptyString => EmptyString
  | String a r => if Ascii.eqb a c then TrimLeftByte c r else s
  end.

Fixpoint TrimRightByte (c : ascii) (s : string) : string :=
  match s with
  | EmptyString => EmptyString
  | String a r =>
      match TrimRightByte c r with
      | EmptyString => if Ascii.eqb a c then EmptyString else String a EmptyString
      | r' => String a r'
      end
  end.

Definition TrimByte (c : ascii) (s : string) : string := TrimRightByte c (TrimLeftByte c s).

(** ** Case *)

(** [unicode.ToLower] as far as it produces ASCII: the ASCII letters, and the two
    other runes whose lower case is ASCII (U+0130 and the Kelvin sign).  Every
    other rune's lower case is not ASCII, which is all the callers look at. *)
Definition lower_rune (r : N) : N :=
  if in_range 65 90 r then r + 32
  else if r =? 304 then 105
  else if r =? 8490 then 107
  else r.

(** ** Hashes *)

Definition fnv32a (s : string) : Z :=
  fold_left (fun h b => ((Z.lxor h (Z.of_N b) * 16777619) mod 2 ^ 32)%Z) (to_bytes s) 2166136261%Z.

Definition fnv64a (s : string) : Z :=
  fold_left (fun h b => ((Z.lxor h (Z.of_N b) * 1099511628211) mod 2 ^ 64)%Z) (to_bytes s)
    14695981039346656037%Z.

Definition hex_digit (d : Z) : ascii :=
  chr (Z.to_N (if (d <? 10)%Z then 48 + d else 87 + d)%Z).

(** [%0<n>x] of a value below [16^n]. *)
Fixpoint hex_fixed (n : nat) (z : Z) : string :=
  match n with
  | O => EmptyString
  | S n => (hex_fixed n (z / 16) ++ String (hex_digit (z mod 16)) EmptyString)%string
  end.

(** Decimal digits of [n] ([strconv.Itoa], [%d]); a value below [10^20] has at
    most twenty digits. *)
Fixpoint dec_digits (fuel : nat) (z : Z) (acc : string) : string :=
  match fuel with
  | O => acc
  | S n =>
      let acc := String (chr (Z.to_N (48 + z mod 10))) acc in
      if (z <? 10)%Z then acc else dec_digits n (z / 10) acc
  end.

Definition Itoa (z : Z) : string :=
  if (z <? 0)%Z then String "-"%char (dec_digits 20 (- z) EmptyString)
  else dec_digits 20 z EmptyString.

(** ** Sorting *)

Fixpoint insert_string (x : string) (l : list string) : list string :=
  match l with
  | [] => [x]
  | y :: l' => if String.leb x y then x :: l else y :: insert_string x l'
  end.

(** [slices.Sort], [sort.Strings]. *)
Definition sort_strings (l : list string) : list string := foldr insert_string [] l.

Lemma insert_string_perm x l : insert_string x l ≡ₚ x :: l.
Proof.
  induction l as [|y l IH]; simpl; [done|]. destruct (String.leb x y); [done|].
  rewrite IH. constructor.
Qed.

Lemma sort_strings_perm l : sort_strings l ≡ₚ l.
Proof. induction l as [|x l IH]; simpl; [done|]. by rewrite insert_string_perm, IH. Qed.

Definition string_le (x y : string) : Prop := String.leb x y = true.

Lemma string_le_spec x y : string_le x y <-> String_as_OT.lt x y \/ x = y.
Proof.
  unfold string_le, String.leb. change String.compare with String_as_OT.compare.
  destruct (String_as_OT.compare_spec x y) as [H|H|H]; [naive_solver|naive_solver|]. split; [done|].
  intros [Hl| ->]; [|exfalso; exact (irreflexivity String_as_OT.lt _ H)]. exfalso. apply (irreflexivity String_as_OT.lt x). by transitivity y.
Qed.

#[export] Instance string_le_preorder : PreOrder string_le.
Proof.
  split; [intros x; apply string_le_spec; by right|]. intros x y z. rewrite !string_le_spec.
  intros [Hxy| ->] [Hyz| ->]; auto. left. by transitivity y.
Qed.

Lemma sort_strings_sorted l : Sorted string_le (sort_strings l).
Proof.
  induction l as [|x l IH]; simpl; [constructor|]. revert IH. generalize (sort_strings l).
  clear l. induction l as [|y l IH]; simpl; intros Hs; [by repeat constructor|].
  destruct (String.leb x y) eqn:E; [by constructor; [|constructor]|].
  assert (string_le y x) as Hyx by (destruct (String.leb_total x y); [congruence|done]).
  apply Sorted_inv in Hs as [Hs Hhd]. constructor; [by apply IH|].
  destruct l as [|z l]; simpl; [by constructor|].
  apply HdRel_inv in Hhd. destruct (String.leb x z); by constructor.
Qed.

#[export] Instance string_le_antisymm : AntiSymm eq string_le.
Proof.
  intros x y Hxy%string_le_spec Hyx%string_le_spec. destruct Hxy as [Hxy| ->]; [|done]. destruct Hyx as [Hyx|Hyx]; [|done].
  exfalso. apply (irreflexivity String_as_OT.lt x). by transitivity y.
Qed.

(** Sorting forgets the order. *)
#[export] Instance sort_strings_proper : Proper ((≡ₚ) ==> (=)) sort_strings.
Proof.
  intros l k Hp. apply (Sorted_unique string_le); [apply sort_strings_sorted..|]. by rewrite !sort_strings_perm.
Qed.

(** The order of [strings.Compare]. *)
Lemma string_compare_OT x y : String.compare x y = String_as_OT.compare x y.
Proof.
  revert y. induction x as [|a x IH]; intros [|b y]; [done..|]. cbn.
  change (Ascii_as_OT.compare a b) with (Ascii.compare a b). by rewrite IH.
Qed.

Lemma string_ltb_lt x y : String.ltb x y = true <-> String_as_OT.lt x y.
Proof.
  unfold String.ltb, String_as_OT.lt. rewrite string_compare_OT.
  by destruct (String_as_OT.compare x y).
Qed.

Lemma string_ltb_trans x y z :
  String.ltb x y = true -> String.ltb y z = true -> String.ltb x z = true.
Proof. rewrite !string_ltb_lt. by intros; transitivity y. Qed.

Lemma string_ltb_antisym x y : String.ltb x y = false -> String.ltb y x = false -> x = y.
Proof.
  unfold String.ltb. rewrite (String.compare_antisym y x).
  destruct (String.compare x y) eqn:E; simpl; intros; [by apply String.compare_eq_iff|done..].
Qed.

Lemma string_ltb_irrefl x : String.ltb x x = false.
Proof. apply not_true_is_false. rewrite string_ltb_lt. apply (irreflexivity String_as_OT.lt). Qed.

(** ** path.Match *)

Inductive match_result := MOk (b : bool) | MBadPattern.

Fixpoint skip_stars (p : string) : bool * string :=
  match p with
  | String "*" r => (true, snd (skip_stars r))
  | _ => (false, p)
  end.

(** The length of the chunk [scanChunk] returns: up to the first [*] outside a
    class; a backslash skips the byte after it. *)
Fixpoint chunk_len (inrange : bool) (p : string) : nat :=
  match p with
  | EmptyString => 0
  | String "\" r =>
      match r with
      | EmptyString => 1
      | String _ r' => S (S (chunk_len inrange r'))
      end
  | String "[" r => S (chunk_len true r)
  | String "]" r => S (chunk_len false r)
  | String "*" r => if inrange then S (chunk_len inrange r) else 0%nat
  | String _ r => S (chunk_len inrange r)
  end.

Definition scanChunk (p : string) : bool * string * string :=
  let '(star, p) := skip_stars p in
  let n := chunk_len false p in
  (star, stake n p, sdrop n p).

Definition head_is (c : ascii) (s : string) : bool :=
  match s with String a _ => Ascii.eqb a c | EmptyString => false end.

(** [getEsc]: one rune of a class, [None] for a malformed pattern. *)
Definition getEsc (chunk : string) : option (N * string) :=
  if String.eqb chunk "" || head_is "-" chunk || head_is "]" chunk then None
  else
    let chunk := if head_is "\" chunk then sdrop 1 chunk else chunk in
    if String.eqb chunk "" then None
    else
      let '(r, n) := DecodeRune chunk in
      if (r =? RuneError) && (n =? 1)%nat then None
      else
        let rest := sdrop n chunk in
        if String.eqb rest "" then None else Some (r, rest).

(** The ranges of a class: whether one contains [r], and the chunk after the
    closing bracket.  Each range consumes at least a byte of the chunk. *)
Fixpoint scan_ranges (fuel : nat) (r : N) (nrange : nat) (hit : bool) (chunk : string)
    : option (bool * string) :=
  match fuel with
  | O => None
  | S fuel =>
      if head_is "]" chunk && (0 <? nrange)%nat then Some (hit, sdrop 1 chunk)
      else
        match getEsc chunk with
        | None => None
        | Some (lo, chunk) =>
            if head_is "-" chunk then
              match getEsc (sdrop 1 chunk) with
              | None => None
              | Some (hi, chunk) =>
                  scan_ranges fuel r (S nrange) (hit || in_range lo hi r) chunk
              end
            else scan_ranges fuel r (S nrange) (hit || in_range lo lo r) chunk
        end
  end.

(** [matchChunk]: [Some (Some rest)] on a match, [Some None] on a mismatch,
    [None] for a malformed pattern.  After a mismatch the chunk is only checked
    for well-formedness.  A class reached after a mismatch is scanned for the
    zero rune, as in the source. *)
Fixpoint matchChunk (fuel : nat) (failed : bool) (chunk s : string) : option (option string) :=
  match fuel with
  | O => None
  | S fuel =>
      match chunk with
      | EmptyString => Some (if failed then None else Some s)
      | String c ctl =>
          let failed := failed || String.eqb s "" in
          if Ascii.eqb c "[" then
            let '(r, n) := if failed then (0, 0%nat) else DecodeRune s in
            let s := sdrop n s in
            let negated := head_is "^" ctl in
            let ctl := if negated then sdrop 1 ctl else ctl in
            match scan_ranges (S (slen ctl)) r 0 false ctl with
            | None => None
            | Some (hit, ctl) => matchChunk fuel (failed || Bool.eqb hit negated) ctl s
            end
          else if Ascii.eqb c "?" then
            if failed then matchChunk fuel true ctl s
            else matchChunk fuel (head_is "/" s) ctl (sdrop (snd (DecodeRune s)) s)
          else
            match (if Ascii.eqb c "\" then ctl else chunk) with
            | EmptyString => None
            | String c' ctl' =>
                if failed then matchChunk fuel true ctl' s
                else matchChunk fuel (negb (head_is c' s)) ctl' (sdrop 1 s)
            end
      end
  end.

Definition match_chunk (chunk s : string) : option (option string) :=
  matchChunk (S (slen chunk)) false chunk s.

(** The retries of a starred chunk: skip one more byte, never a slash. *)
Fixpoint star_scan (chunk : string) (last : bool) (name : string) : option (option string) :=
  match name with
  | EmptyString => Some None
  | String a rest =>
      if Ascii.eqb a "/" then Some None
      else
        match match_chunk chunk rest with
        | None => None
        | Some (Some t) =>
            if last && negb (String.eqb t "") then star_scan chunk last rest else Some (Some t)
        | Some None => star_scan chunk last rest
        end
  end.

(** Well-formedness of the rest of a pattern after a mismatch. *)
Fixpoint pattern_ok (fuel : nat) (p : string) : bool :=
  match fuel with
  | O => true
  | S fuel =>
      if String.eqb p "" then true
      else let '(_, chunk, rest) := scanChunk p in
           match match_chunk chunk "" with
           | None => false
           | Some _ => pattern_ok fuel rest
           end
  end.

Definition contains_slash (s : string) : bool := existsb (N.eqb 47) (to_bytes s).

Fixpoint pathMatch (fuel : nat) (pattern name : string) : match_result :=
  match fuel with
  | O => MOk false
  | S fuel =>
      if String.eqb pattern "" then MOk (String.eqb name "")
      else
        let '(star, chunk, rest) := scanChunk pattern in
        if star && String.eqb chunk "" then MOk (negb (contains_slash name))
        else
          let mismatch :=
            if pattern_ok (S (slen rest)) rest then MOk false else MBadPattern in
          let retry :=
            if star then
              match star_scan chunk (String.eqb rest "") name with
              | None => MBadPattern
              | Some (Some t) => pathMatch fuel rest t
              | Some None => mismatch
              end
            else mismatch in
          match match_chunk chunk name with
          | None => MBadPattern
          | Some (Some t) =>
              if String.eqb t "" || negb (String.eqb rest "") then pathMatch fuel rest t else retry
          | Some None => retry
          end
  end.

(** [path.Match]; every chunk consumes at least a byte of the pattern. *)
Definition Match (pattern name : string) : match_result :=
  pathMatch (S (slen pattern)) pattern name.

Definition matches (pattern name : string) : bool :=
  match Match pattern name with MOk b => b | MBadPattern => false end.

(** [slices.SortFunc] of records by a text of theirs. *)
Section sort_by.
Context {A : Type} (key : A -> string).

Fixpoint insert_by (e : A) (l : list A) : list A :=
  match l with
  | [] => [e]
  | x :: l' => if String.leb (key e) (key x) then e :: l else x :: insert_by e l'
  end.

Definition sort_by (l : list A) : list A := foldr insert_by [] l.

Lemma insert_by_perm e l : insert_by e l ≡ₚ e :: l.
Proof.
  induction l as [|x l IH]; simpl; [done|]. destruct (String.leb (key e) (key x)); [done|].
  rewrite IH. constructor.
Qed.

Lemma sort_by_perm l : sort_by l ≡ₚ l.
Proof. induction l as [|e l IH]; simpl; [done|]. by rewrite insert_by_perm, IH. Qed.

Lemma sort_by_keys l : map key (sort_by l) = sort_strings (map key l).
Proof.
  induction l as [|e l IH]; simpl; [done|]. rewrite <-IH. clear IH. generalize (sort_by l). intros s.
  induction s as [|x s IH]; simpl; [done|]. destruct (String.leb (key e) (key x)); simpl; [done|]. by rewrite IH.
Qed.
End sort_by.

(** [%q] of a text with nothing to escape: the name of a Kubernetes object, the
    value of a label. *)
Definition quoted (name : string) : string := String (ascii_of_nat 34) (name ++ String (ascii_of_nat 34) EmptyString).

(** ** Prefixes *)

Lemma prefix_append (p s : string) : String.prefix p (p ++ s)%string = true.
Proof.
  induction p as [|a p IH]; [by destruct s|]. change (String a p ++ s)%string with (String a (p ++ s)%string).
  cbn. destruct (ascii_dec a a) as [_|Hn]; [exact IH|done].
Qed.

Lemma substring_all (s : string) : substring 0 (String.length s) s = s.
Proof. induction s as [|b s IH]; [done|]. exact (f_equal (String b) IH). Qed.

Lemma slen_append (p s : string) : slen (p ++ s)%string = (slen p + slen s)%nat.
Proof. induction p as [|a p IH]; [done|]. exact (f_equal S IH). Qed.

Lemma sdrop_append (p s : string) : sdrop (slen p) (p ++ s)%string = s.
Proof.
  unfold sdrop. rewrite slen_append. replace (slen p + slen s - slen p)%nat with (slen s) by lia.
  induction p as [|a p IH]; [apply substring_all|exact IH].
Qed.

Lemma HasPrefix_append (p s : string) : HasPrefix (p ++ s)%string p = true.
Proof. apply prefix_append. Qed.

(** ** Orders *)

(** A comparison function that [slices.SortFunc] may be given: any order, total and
    transitive. *)
Definition ordering {T} (c : T -> T -> comparison) : Prop :=
  (forall x y, c y x = CompOpp (c x y)) /\ Transitive (fun x y => c x y <> Gt).

Lemma ordering_string : ordering String.compare.
Proof.
  split; [intros x y; apply String.compare_antisym|]. intros x y z.
  assert (forall a b, String.compare a b <> Gt <-> string_le a b) as Hle.
  { intros a b. unfold string_le, String.leb. by destruct (String.compare a b). }
  rewrite !Hle. apply transitivity.
Qed.

Lemma ordering_on {T U} (f : T -> U) c : ordering c -> ordering (fun x y => c (f x) (f y)).
Proof. intros [H1 H2]. split; [intros; apply H1|intros x y z; apply H2]. Qed.

Lemma ordering_lex {T} (c d : T -> T -> comparison) :
  ordering c -> ordering d -> ordering (fun x y => match c x y with Eq => d x y | r => r end).
Proof.
  intros [Hc Tc] [Hd Td]. split.
  - intros x y. rewrite (Hc x y). destruct (c x y); cbn; [apply Hd|done|done].
  - intros x y z Hxy Hyz.
    pose proof (Tc x y z) as H1. pose proof (Tc y z x) as H2. pose proof (Tc z x y) as H3. pose proof (Td x y z) as H4.
    cbv beta in *. rewrite (Hc x z), (Hc x y) in H2. rewrite (Hc x z), (Hc y z) in H3.
    destruct (c x y), (c y z), (c x z); cbn in *; try done; try (by apply H4); exfalso;
      first [by apply H1|by apply H2|by apply H3].
Qed.

(** The same, among the elements of a list, and what such a sort promises. *)
Definition orderingIn {T} (l : list T) (c : T -> T -> comparison) : Prop :=
  (forall x y, x ∈ l -> y ∈ l -> c y x = CompOpp (c x y))
  /\ (forall x y z, x ∈ l -> y ∈ l -> z ∈ l -> c x y <> Gt -> c y z <> Gt -> c x z <> Gt).

Lemma ordering_in {T} (l : list T) c d : ordering d -> (forall x y, x ∈ l -> y ∈ l -> c x y = d x y) -> orderingIn l c.
Proof.
  intros [H1 H2] He. split.
  - intros x y Hx Hy. rewrite !He by done. apply H1.
  - intros x y z Hx Hy Hz. rewrite !He by done. apply (H2 x y z).
Qed.

Lemma ordering_flip {T} (c : T -> T -> comparison) : ordering c -> ordering (fun x y => c y x).
Proof. intros [H1 H2]. split; [intros; apply H1|]. intros x y z Hxy Hyz. exact (H2 z y x Hyz Hxy). Qed.

Lemma ordering_Z : ordering Z.compare.
Proof. split; [intros x y; apply Z.compare_antisym|]. intros x y z. change (x <= y -> y <= z -> x <= z)%Z. lia. Qed.

(** A sort by such a function. *)
Fixpoint insert_cmp {T} (cmp : T -> T -> comparison) (x : T) (l : list T) : list T :=
  match l with
  | [] => [x]
  | y :: l' => match cmp x y with Gt => y :: insert_cmp cmp x l' | _ => x :: l end
  end.
Definition isort (T : Type) (cmp : T -> T -> comparison) (l : list T) : list T := foldr (insert_cmp cmp) [] l.

Lemma isort_perm T cmp l : isort T cmp l ≡ₚ l.
Proof.
  assert (forall x l, insert_cmp cmp x l ≡ₚ x :: l) as Hi.
  { intros x. induction l0 as [|y l0 IH]; [done|]. cbn. destruct (cmp x y); try done. rewrite IH. constructor. }
  induction l as [|x l IH]; [done|]. cbn. by rewrite Hi, IH.
Qed.

Lemma isort_sorted T cmp l : ordering cmp -> Sorted (fun x y => cmp x y <> Gt) (isort T cmp l).
Proof.
  intros [Hc _]. induction l as [|x l IH]; [constructor|]. cbn. fold (isort T cmp l). revert IH. generalize (isort T cmp l). clear l.
  induction l as [|y l IH]; intros Hs; cbn; [by repeat constructor|].
  destruct (cmp x y) eqn:E; [by constructor; [done|constructor; rewrite E]..|].
  apply Sorted_inv in Hs as [Hs Hh]. constructor; [by apply IH|]. assert (cmp y x <> Gt) as Hyx by (by rewrite (Hc x y), E).
  destruct l as [|z l]; cbn; [by constructor|]. apply HdRel_inv in Hh. by destruct (cmp x z); constructor.
Qed.

Lemma isort_sorted_in T cmp l : orderingIn l cmp -> StronglySorted (fun x y => cmp x y <> Gt) (isort T cmp l).
Proof.
  induction l as [|x l IH]; [constructor|]. intros [Ha Ht].
  assert (StronglySorted (fun x y => cmp x y <> Gt) (isort T cmp l)) as Hs.
  { apply IH. split; [intros a b Hx Hy; apply Ha; by right|]. intros a b c Hx Hy Hz. apply Ht; by right. }
  clear IH. cbn. fold (isort T cmp l). assert (forall y, y ∈ isort T cmp l -> y ∈ l) as Hin by (intros y; by rewrite isort_perm).
  revert Hs Hin. generalize (isort T cmp l). induction l0 as [|y l0 IH]; intros Hs Hin; cbn; [by repeat constructor|].
  apply StronglySorted_inv in Hs as [Hs Hy]. assert (y ∈ l) as Hyl by (apply Hin; left).
  assert (forall z, z ∈ l0 -> z ∈ l) as Hin0 by (intros z Hz; apply Hin; by right). rewrite Forall_forall in Hy.
  destruct (cmp x y) eqn:E.
  1, 2: constructor; [constructor; [done|by apply Forall_forall]|]; apply Forall_forall; intros z [->|Hz]%elem_of_cons; [by rewrite E|];
    apply (Ht x y z); [left|by right|right; by apply Hin0|by rewrite E|by apply Hy].
  constructor; [by apply IH|]. apply Forall_forall. intros z Hz.
  assert (z ∈ x :: l0) as [->|Hz']%elem_of_cons.
  { clear -Hz. induction l0 as [|u l0 IH]; cbn in *; [done|]. destruct (cmp x u); [done|done|]. apply elem_of_cons in Hz as [->|Hz]; [right; left|].
    apply IH, elem_of_cons in Hz as [->|Hz]; [left|right; by right]. }
  - rewrite (Ha x y); [by rewrite E|left|by right].
  - by apply Hy.
Qed.
