(* ===== verification/Program.v ===== *)
(** * Program: code that talks to a server, and all its executions

    A controller is a function that calls the API server and goes on with what the
    server answered.  [prog I A] is such a program over the requests of the
    interface [I]; its executions, [runs p tr a], pair every request with an answer
    the server may have given, without any assumption on the answers: a trace
    covers errors, stale reads and whatever other actors did between two calls.
    What a theorem assumes of the server is stated on the trace. *)

From S2P Require Import Prelude.

(** ** Interfaces and programs *)

Record interface := mkInterface { action : Type; answer : action -> Type }.

Inductive prog (I : interface) (A : Type) : Type :=
| Done (a : A)
| Do (o : action I) (k : answer I o -> prog I A).
Arguments Done {I A} a.
Arguments Do {I A} o k.

Fixpoint prog_bind {I A B} (p : prog I A) (f : A -> prog I B) : prog I B :=
  match p with
  | Done a => f a
  | Do o k => Do o (fun x => prog_bind (k x) f)
  end.

Notation "'let!' x ':=' p 'in' q" := (prog_bind p (fun x => q))
  (at level 200, x name, p at level 200, q at level 200, right associativity).

Definition call {I} (o : action I) : prog I (answer I o) := Do o Done.

(** [for _, x := range l { body }] with a body that may return. *)
Fixpoint loop {I A B} (body : A -> prog I (option B)) (l : list A) : prog I (option B) :=
  match l with
  | [] => Done None
  | x :: l => let! r := body x in match r with Some b => Done (Some b) | None => loop body l end
  end.

(** A loop that threads a state and never returns early. *)
Fixpoint foldM {I A S} (body : S -> A -> prog I S) (s : S) (l : list A) : prog I S :=
  match l with
  | [] => Done s
  | x :: l => let! s := body s x in foldM body s l
  end.

(** ** Executions *)

Record event (I : interface) := Ev { ev_action : action I; ev_answer : answer I ev_action }.
Arguments Ev {I} ev_action ev_answer.
Arguments ev_action {I} e.
Arguments ev_answer {I} e.

Fixpoint runs {I A} (p : prog I A) (tr : list (event I)) (a : A) : Prop :=
  match p with
  | Done b => tr = [] /\ a = b
  | Do o k => exists x tr', tr = Ev o x :: tr' /\ runs (k x) tr' a
  end.

(** A server answers from what it was asked before; [exec] is the execution
    against it, for evaluating a program on a concrete server. *)
Definition server (I : interface) : Type := list (event I) -> forall o : action I, answer I o.

Fixpoint exec {I A} (s : server I) (p : prog I A) (past : list (event I)) : list (event I) * A :=
  match p with
  | Done a => ([], a)
  | Do o k =>
      let x := s past o in
      let '(tr, a) := exec s (k x) (past ++ [Ev o x]) in
      (Ev o x :: tr, a)
  end.

Section laws.
Context {I : interface}.
Implicit Types tr : list (event I).

Lemma runs_done {A} (a b : A) tr : runs (I := I) (Done a) tr b <-> tr = [] /\ b = a.
Proof. done. Qed.

Lemma runs_bind {A B} (p : prog I A) (f : A -> prog I B) tr b :
  runs (prog_bind p f) tr b <-> exists tr1 tr2 a, tr = tr1 ++ tr2 /\ runs p tr1 a /\ runs (f a) tr2 b.
Proof.
  revert tr. induction p as [a|o k IH]; intros tr; cbn.
  - split; [intros H; by exists [], tr, a|]. by intros (tr1 & tr2 & a' & -> & (-> & ->) & H).
  - split.
    + intros (x & tr' & -> & (tr1 & tr2 & a & -> & H1 & H2)%IH). exists (Ev o x :: tr1), tr2, a.
      split_and!; [done| |done]. by exists x, tr1.
    + intros (tr1 & tr2 & a & -> & (x & tr' & -> & H1) & H2). exists x, (tr' ++ tr2).
      split; [done|]. apply IH. by exists tr', tr2, a.
Qed.

Lemma runs_call (o : action I) tr x : runs (call o) tr x <-> tr = [Ev o x].
Proof.
  unfold call. cbn. split.
  - by intros (y & tr' & -> & -> & ->).
  - intros ->. by exists x, [].
Qed.

Lemma exec_runs {A} (s : server I) (p : prog I A) past :
  runs p (fst (exec s p past)) (snd (exec s p past)).
Proof.
  revert past. induction p as [a|o k IH]; intros past; cbn; [done|].
  specialize (IH (s past o) (past ++ [Ev o (s past o)])).
  destruct (exec s (k (s past o)) _) as [tr a]. by exists (s past o), tr.
Qed.

(** A program has an execution against every server: it always ends. *)
Lemma runs_total {A} (s : server I) (p : prog I A) : exists tr a, runs p tr a.
Proof. eexists _, _. apply (exec_runs s p []). Qed.

Lemma runs_loop_nil {A B} (body : A -> prog I (option B)) tr r :
  runs (loop body []) tr r <-> tr = [] /\ r = None.
Proof. done. Qed.

Lemma runs_loop_cons {A B} (body : A -> prog I (option B)) x l tr r :
  runs (loop body (x :: l)) tr r <->
  exists tr1 tr2 rx, tr = tr1 ++ tr2 /\ runs (body x) tr1 rx
    /\ match rx with Some b => tr2 = [] /\ r = Some b | None => runs (loop body l) tr2 r end.
Proof.
  cbn [loop]. rewrite runs_bind. split; intros (tr1 & tr2 & rx & -> & H1 & H2); exists tr1, tr2, rx; by destruct rx.
Qed.

(** What every iteration guarantees, a loop guarantees. *)
Lemma loop_inv {A B} (body : A -> prog I (option B)) (P : event I -> Prop) l tr r :
  (forall x tr rx, x ∈ l -> runs (body x) tr rx -> Forall P tr) -> runs (loop body l) tr r -> Forall P tr.
Proof.
  revert tr. induction l as [|x l IH]; intros tr Hb.
  - intros [-> _]. constructor.
  - intros (tr1 & tr2 & rx & -> & H1 & H2)%runs_loop_cons. apply Forall_app. split.
    + eapply Hb; [left|done].
    + destruct rx; [by destruct H2 as [-> _]|]. apply (IH tr2); [|done]. intros y tr' ry Hy. apply Hb. by right.
Qed.

(** A loop that was not cut short ran every iteration to its end. *)
Lemma loop_complete {A B} (body : A -> prog I (option B)) l tr x :
  runs (loop body l) tr None -> x ∈ l ->
  exists tr1 trx tr2, tr = tr1 ++ trx ++ tr2 /\ runs (body x) trx None.
Proof.
  revert tr. induction l as [|y l IH]; intros tr; [inversion 2|].
  intros (tr1 & tr2 & rx & -> & H1 & H2)%runs_loop_cons. destruct rx; [by destruct H2|].
  intros [->|Hx]%elem_of_cons.
  - exists [], tr1, tr2. by split.
  - destruct (IH tr2 H2 Hx) as (t1 & tx & t2 & -> & Hb). exists (tr1 ++ t1), tx, t2. by rewrite <-!app_assoc.
Qed.

Lemma foldM_cons {A S} (body : S -> A -> prog I S) s x l tr s' :
  runs (foldM body s (x :: l)) tr s' <->
  exists tr1 tr2 s1, tr = tr1 ++ tr2 /\ runs (body s x) tr1 s1 /\ runs (foldM body s1 l) tr2 s'.
Proof. cbn [foldM]. apply runs_bind. Qed.

(** An invariant of the state and the events of every iteration. *)
Lemma foldM_inv {A S} (body : S -> A -> prog I S) (P : event I -> Prop) l s tr s' :
  (forall s x tr s', x ∈ l -> runs (body s x) tr s' -> Forall P tr) ->
  runs (foldM body s l) tr s' -> Forall P tr.
Proof.
  revert s tr. induction l as [|x l IH]; intros s tr Hb.
  - intros [-> _]. constructor.
  - intros (tr1 & tr2 & s1 & -> & H1 & H2)%foldM_cons. apply Forall_app. split.
    + eapply Hb; [left|done].
    + eapply IH; [|done]. intros s2 y tr' s2' Hy. apply Hb. by right.
Qed.

Lemma foldM_complete {A S} (body : S -> A -> prog I S) l s tr s' x :
  runs (foldM body s l) tr s' -> x ∈ l ->
  exists tr1 trx tr2 s1 s2, tr = tr1 ++ trx ++ tr2 /\ runs (body s1 x) trx s2.
Proof.
  revert s tr. induction l as [|y l IH]; intros s tr; [inversion 2|].
  intros (tr1 & tr2 & s1 & -> & H1 & H2)%foldM_cons [->|Hx]%elem_of_cons.
  - exists [], tr1, tr2, s, s1. by split.
  - destruct (IH s1 tr2 H2 Hx) as (t1 & tx & t2 & a & b & -> & Hb). exists (tr1 ++ t1), tx, t2, a, b.
    by rewrite <-!app_assoc.
Qed.
End laws.

(** ** Sums of interfaces *)

(** Requests of either of two interfaces. *)
Definition sumI (I J : interface) : interface :=
  mkInterface (action I + action J) (fun o => match o with inl o => answer I o | inr o => answer J o end).

(** A program over the first interface, as one over the sum. *)
Fixpoint inject {I J A} (p : prog I A) : prog (sumI I J) A :=
  match p with
  | Done a => Done a
  | Do o k => Do (I := sumI I J) (inl o) (fun x => inject (k x))
  end.

Definition evL {I} J (e : event I) : event (sumI I J) := Ev (I := sumI I J) (inl (ev_action e)) (ev_answer e).

Definition callR {I J} (o : action J) : prog (sumI I J) (answer J o) := call (I := sumI I J) (inr o).

(** The events of the first interface in a trace. *)
Definition leftOf {I J} (e : event (sumI I J)) : option (event I) :=
  match e with Ev (inl o) x => Some (Ev o x) | Ev (inr _) _ => None end.

Section sums.
Context {I J : interface}.

Lemma runs_inject {A} (p : prog I A) (tr : list (event (sumI I J))) a :
  runs (inject p) tr a <-> exists tr', tr = map (evL J) tr' /\ runs p tr' a.
Proof.
  revert tr. induction p as [b|o k IH]; intros tr; cbn.
  - split; [intros [-> ->]; by exists []|]. intros (tr' & -> & -> & ->). done.
  - split.
    + intros (x & tr' & -> & (tr1 & -> & H)%IH). exists (Ev o x :: tr1). split; [done|]. by exists x, tr1.
    + intros (tr' & -> & x & tr1 & -> & H). exists x, (map (evL J) tr1). split; [done|]. apply IH. by exists tr1.
Qed.

Lemma inject_bind {A B} (p : prog I A) (f : A -> prog I B) tr b :
  runs (inject (J := J) (prog_bind p f)) tr b <-> runs (let! x := inject p in inject (f x)) tr b.
Proof.
  rewrite runs_inject, runs_bind. split.
  - intros (tr' & -> & (tr1 & tr2 & a & -> & H1 & H2)%runs_bind). exists (map (evL J) tr1), (map (evL J) tr2), a.
    rewrite map_app. split_and!; [done|apply runs_inject; by exists tr1|apply runs_inject; by exists tr2].
  - intros (tr1 & tr2 & a & -> & (t1 & -> & H1)%runs_inject & (t2 & -> & H2)%runs_inject).
    exists (t1 ++ t2). rewrite map_app. split; [done|]. apply runs_bind. by exists t1, t2, a.
Qed.

Lemma leftOf_evL (tr : list (event I)) : omap leftOf (map (evL J) tr) = tr.
Proof. induction tr as [|[o x] tr IH]; cbn; [done|]. by rewrite IH. Qed.

Lemma leftOf_inl (e : event (sumI I J)) e' : leftOf e = Some e' -> e = evL J e'.
Proof. destruct e as [[o|o] x]; cbn; [|done]. by intros [= <-]. Qed.

Lemma runs_callR (o : action J) tr x : runs (callR (I := I) o) tr x <-> tr = [Ev (I := sumI I J) (inr o) x].
Proof. apply (runs_call (I := sumI I J)). Qed.
End sums.

(** ** What a program may ask *)

(** Every request of the program, whatever is answered, satisfies [P]. *)
Fixpoint only {I A} (P : action I -> Prop) (p : prog I A) : Prop :=
  match p with
  | Done _ => True
  | Do o k => P o /\ forall x, only P (k x)
  end.

Section only_laws.
Context {I : interface}.
Implicit Types P : action I -> Prop.

Lemma only_runs {A} P (p : prog I A) tr a : only P p -> runs p tr a -> Forall (fun e => P (ev_action e)) tr.
Proof.
  revert tr. induction p as [b|o k IH]; intros tr; cbn; [by intros _ [-> _]|].
  intros [Ho Hk] (x & tr' & -> & H). constructor; [done|]. by eapply IH.
Qed.

Lemma only_bind {A B} P (p : prog I A) (f : A -> prog I B) :
  only P p -> (forall a, only P (f a)) -> only P (prog_bind p f).
Proof. intros Hp Hf. induction p as [a|o k IH]; cbn; [apply Hf|]. destruct Hp as [Ho Hk]. split; [done|]. intros x. by apply IH. Qed.

Lemma only_call P (o : action I) : P o -> only P (call o).
Proof. intros H. by split. Qed.

Lemma only_impl {A} P (Q : action I -> Prop) (p : prog I A) : (forall o, P o -> Q o) -> only P p -> only Q p.
Proof. intros H. induction p as [a|o k IH]; cbn; [done|]. intros [Ho Hk]. split; [by apply H|]. intros x. by apply IH. Qed.

Lemma only_foldM {A S} P (body : S -> A -> prog I S) l s :
  (forall s x, x ∈ l -> only P (body s x)) -> only P (foldM body s l).
Proof.
  revert s. induction l as [|x l IH]; intros s Hb; [done|]. cbn [foldM].
  apply only_bind; [apply Hb; left|]. intros s2. apply IH. intros s3 y Hy. apply Hb. by right.
Qed.
End only_laws.

Lemma only_inject {I J : interface} {A} (P : action (sumI I J) -> Prop) (p : prog I A) :
  only (fun o => P (inl o)) p -> only P (inject (J := J) p).
Proof. induction p as [a|o k IH]; cbn; [done|]. intros [Ho Hk]. split; [done|]. intros x. by apply IH. Qed.

(** Peels a program, request by request; [hook] is for the sub-programs there are
    lemmas of. *)
Ltac asks_only hook :=
  repeat first
    [ exact I
    | hook
    | match goal with
      | |- only _ (Done _) => exact I
      | |- only _ (prog_bind _ _) => apply only_bind; [|intros ?]
      | |- only _ (inject _) => apply only_inject
      | |- only _ (foldM _ _ _) => apply only_foldM; intros ? ? _
      | |- only _ (call _) => apply only_call
      | |- only _ (callR _) => apply only_call
      | |- only _ (match ?x with _ => _ end) => destruct x
      | |- only _ (let '_ := ?x in _) => destruct x
      end
    | progress cbn beta iota zeta ].

(** One step of an execution in the hypothesis [H]: what a request of the first half of a
    bind left, by the lemma [answered] applies, and the answer in a variable of its own. *)
Ltac walk_with answered H :=
  lazymatch type of H with
  | runs (prog_bind _ _) _ _ =>
      let t1 := fresh "t" in let t2 := fresh "tr" in let a := fresh "x" in let H1 := fresh "R" in
      apply runs_bind in H as (t1 & t2 & a & -> & H1 & H); cbv beta in H;
      first [ answered H1; subst t1 | idtac ]
  | runs (Done _) _ _ => destruct H as [-> H]; try simplify_eq
  end.

(** ** Order in a trace *)

(** Every event of [Q] has one of [P] before it; [seen]: one was before the trace. *)
Fixpoint onlyAfter {E} (P Q : E -> bool) (seen : bool) (tr : list E) : bool :=
  match tr with
  | [] => true
  | e :: tr => (negb (Q e) || seen) && onlyAfter P Q (seen || P e) tr
  end.

Lemma onlyAfter_seen {E} (P Q : E -> bool) tr : onlyAfter P Q true tr = true.
Proof. induction tr as [|e tr IH]; cbn; [done|]. by rewrite orb_true_r, IH. Qed.

Lemma onlyAfter_app {E} (P Q : E -> bool) seen tr1 tr2 :
  onlyAfter P Q seen (tr1 ++ tr2) = onlyAfter P Q seen tr1 && onlyAfter P Q (seen || existsb P tr1) tr2.
Proof.
  revert seen. induction tr1 as [|e tr1 IH]; intros seen; cbn; [by rewrite orb_false_r|].
  by rewrite IH, orb_assoc, andb_assoc.
Qed.

Lemma onlyAfter_none {E} (P Q : E -> bool) seen tr :
  Forall (fun e => Q e = false) tr -> onlyAfter P Q seen tr = true.
Proof. intros H. revert seen. induction H as [|e tr He _ IH]; intros seen; cbn; [done|]. by rewrite He, IH. Qed.

Lemma onlyAfter_spec {E} (P Q : E -> bool) tr :
  onlyAfter P Q false tr = true <->
  forall pre e post, tr = pre ++ e :: post -> Q e = true -> exists p, p ∈ pre /\ P p = true.
Proof.
  assert (forall seen, onlyAfter P Q seen tr = true <->
    forall pre e post, tr = pre ++ e :: post -> Q e = true -> seen = true \/ exists p, p ∈ pre /\ P p = true) as H.
  { induction tr as [|e tr IH]; intros seen; cbn.
    - split; [|done]. intros _ [] ? ? [=].
    - rewrite andb_true_iff, IH. split.
      + intros [He Ht] [|x pre] f post [= <- Heq] Hf.
        * rewrite Hf in He. by left.
        * destruct (Ht pre f post Heq Hf) as [[|Hp]%orb_true_iff|(p & Hp & Hq)]; [by left| |].
          -- right. exists e. split; [left|done].
          -- right. exists p. split; [by right|done].
      + intros Ht. split.
        * destruct (Q e) eqn:Hq; [|done]. destruct (Ht [] e tr eq_refl Hq) as [|(p & Hp & _)]; [done|inversion Hp].
        * intros pre f post -> Hf. destruct (Ht (e :: pre) f post eq_refl Hf) as [->|(p & [->|Hp]%elem_of_cons & Hq)].
          -- by left.
          -- left. by rewrite Hq, orb_true_r.
          -- right. by exists p. }
  rewrite H. split; intros Ht pre e post Heq Hq; specialize (Ht pre e post Heq Hq); naive_solver.
Qed.

(** Every event of the trace is good for what went before it. *)
Fixpoint safe {E} (good : list E -> E -> Prop) (past tr : list E) : Prop :=
  match tr with
  | [] => True
  | e :: tr => good past e /\ safe good (past ++ [e]) tr
  end.

Lemma safe_app {E} (good : list E -> E -> Prop) past tr1 tr2 :
  safe good past (tr1 ++ tr2) <-> safe good past tr1 /\ safe good (past ++ tr1) tr2.
Proof.
  revert past. induction tr1 as [|e tr1 IH]; intros past; cbn; [rewrite app_nil_r; tauto|].
  rewrite IH, <-app_assoc. cbn. tauto.
Qed.

Lemma safe_spec {E} (good : list E -> E -> Prop) past tr :
  safe good past tr <-> forall pre e post, tr = pre ++ e :: post -> good (past ++ pre) e.
Proof.
  revert past. induction tr as [|e tr IH]; intros past; cbn.
  - split; [|done]. intros _ [] ? ? [=].
  - rewrite IH. split.
    + intros [He Ht] [|x pre] f post [= <- ->]; [by rewrite app_nil_r|].
      replace (past ++ e :: pre) with ((past ++ [e]) ++ pre) by (by rewrite <-app_assoc). by eapply Ht.
    + intros Ht. split; [rewrite <-(app_nil_r past); by eapply (Ht [])|].
      intros pre f post ->. rewrite <-app_assoc. by eapply (Ht (e :: pre)).
Qed.

(** A loop is safe when its body is, at any point that comes after [base]. *)
Lemma foldM_safe {I A S} (body : S -> A -> prog I S) good (base : list (event I)) l s past tr s' :
  (forall s x past tr s', x ∈ l -> base ⊆ past -> runs (body s x) tr s' -> safe good past tr) ->
  base ⊆ past -> runs (foldM body s l) tr s' -> safe good past tr.
Proof.
  revert s past tr. induction l as [|x l IH]; intros s past tr Hb Hp; [by intros [-> _]|].
  intros (tr1 & tr2 & s1 & -> & H1 & H2)%foldM_cons. apply safe_app. split; [by eapply Hb; [left| |]|].
  eapply IH; [| |exact H2]; [|set_solver]. intros s2 y past2 tr' s2' Hy. apply Hb. by right.
Qed.

(** ** Automation *)

(** Cases on the value a program waits for. *)
Ltac prog_case p :=
  lazymatch p with
  | prog_bind ?q _ => prog_case q
  | match ?x with _ => _ end => let E := fresh "E" in destruct x eqn:E; try subst x
  end.

(** Runs the program of a hypothesis to its end, by cases on the answers. *)
Ltac run_all H :=
  repeat first
    [ lazymatch type of H with
      | exists _ _, _ => let x := fresh "x" in let tr := fresh "tr" in destruct H as (x & tr & -> & H)
      | _ /\ _ => destruct H as [-> H]; try match type of H with ?r = _ => is_var r; subst r end
      | runs ?p _ _ => prog_case p
      end
    | progress cbn [prog_bind call runs] in H ].
