(* ===== verification/Cluster.v ===== *)
(** * Cluster: the Kubernetes objects and errors the controllers read

    The API server is not part of the program: its objects are records of the
    fields the program reads, and its answers are values of [result]. *)

From S2P Require Import Prelude.
From Stdlib Require Import Ascii String.

#[local] Open Scope string_scope.

(** ** Errors *)

(** What [errors.Is] and the [apierrors.Is*] predicates can tell of an error. *)
Inductive err_class :=
| ENotFound | EAlreadyExists | EConflict | ENoMatch
| EUnsupported        (* exposer.ErrUnsupported *)
| EPrecheckFailed     (* exposer.ErrPrecheckFailed *)
| EKilled             (* *moverKilledError *)
| EOther.

#[global] Instance err_class_eq_dec : EqDecision err_class.
Proof. solve_decision. Defined.

Record gerr := mkErr { err_is : err_class; err_text : string }.

#[global] Instance gerr_eq_dec : EqDecision gerr.
Proof. solve_decision. Defined.

Definition is_class (c : err_class) (e : gerr) : bool := bool_decide (err_is e = c).
Definition IsNotFound : gerr -> bool := is_class ENotFound.
Definition IsAlreadyExists : gerr -> bool := is_class EAlreadyExists.
Definition IsConflict : gerr -> bool := is_class EConflict.
Definition IsNoMatchError : gerr -> bool := is_class ENoMatch.

(** [fmt.Errorf("<prefix>: %w", err)]: the text is prefixed, the class kept. *)
Definition wrap_err (prefix : string) (e : gerr) : gerr :=
  mkErr (err_is e) (prefix ++ ": " ++ err_text e).
Definition errorf (text : string) : gerr := mkErr EOther text.

Inductive result (A : Type) := Ok (a : A) | Err (e : gerr).
Arguments Ok {A} a.
Arguments Err {A} e.

Definition rbind {A B} (r : result A) (f : A -> result B) : result B :=
  match r with Ok a => f a | Err e => Err e end.

Declare Scope result_scope.
Delimit Scope result_scope with result.
Notation "'let?' x := r 'in' k" := (rbind r (fun x => k))
  (at level 200, x name, r at level 100, k at level 200, right associativity) : result_scope.

(** [errors.Join]: [None] when every error is nil. *)
Definition join_errors (es : list gerr) : option gerr :=
  match es with
  | [] => None
  | [e] => Some e
  | e :: _ => Some (mkErr (err_is e) (String.concat (String (ascii_of_nat 10) "") (map err_text es)))
  end.

(** ** Labels and annotations: a missing key reads as the empty string *)

Notation labels := (gmap string string).
Definition lget (m : labels) (k : string) : string := default "" (m !! k).

Definition LabelManagedBy : string := "app.kubernetes.io/managed-by".
Definition ManagedByValue : string := "crystal-backup".
Definition LabelClusterBackup : string := "crystalbackup.io/cluster-backup".
Definition LabelBackup : string := "crystalbackup.io/backup".
Definition LabelOrigin : string := "crystalbackup.io/origin".
Definition LabelSchedule : string := "crystalbackup.io/schedule".
Definition LabelNamespace : string := "crystalbackup.io/namespace".
Definition LabelTenant : string := "crystalbackup.io/tenant".
Definition LabelPVC : string := "crystalbackup.io/pvc".
Definition LabelRestore : string := "crystalbackup.io/restore".
Definition LabelClusterRestore : string := "crystalbackup.io/cluster-restore".
Definition LabelPVRole : string := "crystalbackup.io/pv-role".
Definition AnnotationProjected : string := "crystalbackup.io/projected".
Definition AnnotationProjectedValue : string := "true".
Definition AnnotationExposuresCleaned : string := "crystalbackup.io/exposures-cleaned".
Definition AnnotationExposuresCleanedValue : string := "true".
Definition FinalizerBackup : string := "crystalbackup.io/backup".

(** ** Jobs *)

Definition JobComplete : string := "Complete".
Definition JobFailed : string := "Failed".

(** A Job condition: its type, and whether its status is "True". *)
Record JobCondition := mkJobCondition { jc_type : string; jc_true : bool }.

Record Job := mkJob {
  j_name : string;
  j_labels : labels;
  j_created : Z;               (* CreationTimestamp; [zero_time] when absent *)
  j_deletion : option Z;
  j_succeeded : Z;
  j_failed : Z;
  j_conditions : list JobCondition
}.

Definition jobConditionTrue (job : Job) (condType : string) : bool :=
  existsb (fun c => (jc_type c =? condType) && jc_true c) (j_conditions job).

(** ** Pods *)

Record Terminated := mkTerminated { t_exit : Z; t_reason : string; t_message : string }.

Record ContainerStatus := mkContainerStatus {
  cs_running : bool;
  cs_terminated : option Terminated;
  cs_lastTerminated : bool
}.

Record Pod := mkPod {
  p_name : string;
  p_node : string;
  p_phase : string;
  p_reason : string;
  p_message : string;
  p_created : Z;                       (* CreationTimestamp *)
  p_containers : list ContainerStatus
}.

(** ** Persistent volume claims *)

Record PVC := mkPVC {
  pvc_namespace : string;
  pvc_name : string;
  pvc_labels : labels;
  pvc_storageClass : option string;
  pvc_accessModes : list string;
  pvc_capacity : Z
}.

(** ** Events; an absent timestamp is [zero_time] *)

Definition EventTypeWarning : string := "Warning".

Record Event := mkEvent {
  ev_type : string;
  ev_reason : string;
  ev_message : string;
  ev_last : Z;
  ev_series : option Z;
  ev_time : Z;
  ev_created : Z
}.

(** ** Conditions *)

(** A [metav1.Condition]; a caller that sets one leaves the transition time zero,
    and apimachinery fills it in. *)
Record Condition := mkCondition {
  c_type : string;
  c_status : string;
  c_reason : string;
  c_message : string;
  c_generation : Z;
  c_transition : Z
}.

Definition with_transition (t : Z) (c : Condition) : Condition :=
  mkCondition (c_type c) (c_status c) (c_reason c) (c_message c) (c_generation c) t.

Definition ConditionTrue : string := "True".
Definition ConditionFalse : string := "False".
Definition ConditionReady : string := "Ready".

(** What the program uses of apimachinery's [meta] package, which is not part of
    the source: a store of conditions, one per type. *)
Class ConditionStore := {
  conditions : Type;
  SetStatusCondition : conditions -> Condition -> conditions;
  FindStatusCondition : conditions -> string -> option Condition
}.

(** The documented behaviour of the two functions. *)
Class ConditionStoreLaws (S : ConditionStore) : Prop := {
  find_set : forall cs c, exists t,
    FindStatusCondition (SetStatusCondition cs c) (c_type c) = Some (with_transition t c);
  find_set_ne : forall cs c t, t <> c_type c ->
    FindStatusCondition (SetStatusCondition cs c) t = FindStatusCondition cs t
}.

Section conditions.
Context `{ConditionStore}.

Definition SetCondition (cs : conditions) (condType status reason message : string)
    (observedGeneration : Z) : conditions :=
  SetStatusCondition cs (mkCondition condType status reason message observedGeneration zero_time).

Definition IsConditionTrue (cs : conditions) (condType : string) : bool :=
  match FindStatusCondition cs condType with
  | Some c => c_status c =? ConditionTrue
  | None => false
  end.

Definition FindCondition (cs : conditions) (condType : string) : option Condition :=
  FindStatusCondition cs condType.
End conditions.

(** The plainest store that has the laws: a finite map keyed by type. *)
Definition MapConditionStore : ConditionStore := {|
  conditions := gmap string Condition;
  SetStatusCondition cs c := <[c_type c := c]> cs;
  FindStatusCondition cs t := cs !! t
|}.

#[global] Instance MapConditionStore_laws : ConditionStoreLaws MapConditionStore.
Proof.
  split; intros cs c; simpl; [exists (c_transition c); rewrite lookup_insert_eq; by destruct c|].
  intros t Ht. by apply lookup_insert_ne.
Qed.

(** ** Laws *)

Lemma FindCondition_SetCondition `{ConditionStoreLaws} cs typ st reason message gen :
  exists t, FindCondition (SetCondition cs typ st reason message gen) typ
            = Some (mkCondition typ st reason message gen t).
Proof. apply (find_set cs (mkCondition typ st reason message gen zero_time)). Qed.

Lemma FindCondition_SetCondition_ne `{ConditionStoreLaws} cs typ typ' st reason message gen :
  typ' <> typ -> FindCondition (SetCondition cs typ st reason message gen) typ' = FindCondition cs typ'.
Proof. apply (find_set_ne cs (mkCondition typ st reason message gen zero_time)). Qed.

Lemma IsConditionTrue_SetCondition `{ConditionStoreLaws} cs typ st reason message gen :
  IsConditionTrue (SetCondition cs typ st reason message gen) typ = (st =? ConditionTrue).
Proof.
  destruct (FindCondition_SetCondition cs typ st reason message gen) as [t Ht].
  unfold IsConditionTrue. unfold FindCondition in Ht. by rewrite Ht.
Qed.

Lemma is_class_spec c e : is_class c e = true <-> err_is e = c.
Proof. apply bool_decide_eq_true. Qed.

Lemma is_class_wrap c p e : is_class c (wrap_err p e) = is_class c e.
Proof. done. Qed.

Lemma join_errors_None es : join_errors es = None <-> es = [].
Proof. destruct es as [|e [|e' es]]; simpl; split; congruence. Qed.

#[export] Hint Rewrite is_class_wrap : cb_int.
