(* ===== verification/Selectors.v ===== *)
(** * Selectors: which claims and which namespaces a backup covers
    (api/v1alpha1/common_types.go, internal/nsselector/nsselector.go)

    [PVCSelector_Matches] selects claims inside one namespace and never fails;
    [nsselector.Match] resolves the namespaces of a cluster-wide run and fails
    rather than guess. *)

From S2P Require Import Prelude GoText Cluster.
From Stdlib Require Import Ascii String Sorted.

#[local] Open Scope string_scope.

Record LabelSelector := mkLabelSelector {
  MatchLabels : labels;
  MatchExpressions : list (string * string * list string)
}.

(** ** Claims *)

Record PVCSelector := mkPVCSelector {
  ps_MatchLabels : labels;
  ps_Include : list string;
  ps_Exclude : list string
}.

Definition matchesAnyGlob (name : string) (globs : list string) : bool :=
  existsb (fun g => matches g name) globs.

Definition PVCSelector_Matches (s : PVCSelector) (name : string) (ls : labels) : bool :=
  if negb (forallb (fun kv => lget ls (fst kv) =? snd kv) (map_to_list (ps_MatchLabels s))) then false
  else if (0 <? List.length (ps_Include s))%nat && negb (matchesAnyGlob name (ps_Include s)) then false
  else negb (matchesAnyGlob name (ps_Exclude s)).

Definition matchPVC (pvc : PVC) (sel : PVCSelector) : bool :=
  PVCSelector_Matches sel (pvc_name pvc) (pvc_labels pvc).

(** ** Namespaces *)

Module nsselector.

Record NamespaceSelector := mkNamespaceSelector {
  MatchNames : list string;
  ns_MatchLabels : labels;
  ns_MatchExpressions : list (string * string * list string);
  Regexp : string;
  Exclude : list string
}.

Record Namespace := mkNamespace { ns_Name : string; ns_Labels : labels }.

Fixpoint anyGlobMatches (patterns : list string) (name : string) : result bool :=
  match patterns with
  | [] => Ok false
  | p :: patterns =>
      match GoText.Match p name with
      | MBadPattern => Err (errorf ("invalid glob pattern " ++ p ++ ": syntax error in pattern"))
      | MOk true => Ok true
      | MOk false => anyGlobMatches patterns name
      end
  end.

Section Matching.

(** Outside the source: apimachinery's compilation of a label selector, and the
    standard library's regular expressions. *)
Variable LabelSelectorAsSelector : LabelSelector -> result (labels -> bool).
Variable CompileRegexp : string -> result (string -> bool).

Definition forms (sel : NamespaceSelector) : nat :=
  (if (0 <? List.length (MatchNames sel))%nat then 1 else 0)
  + (if bool_decide (ns_MatchLabels sel = ∅) then 0 else 1)
  + (if (0 <? List.length (ns_MatchExpressions sel))%nat then 1 else 0)
  + (if Regexp sel =? "" then 0 else 1).

Definition labelMatcher (selector : labels -> bool) (ns : Namespace) : result bool :=
  Ok (selector (ns_Labels ns)).

Definition positiveMatcher (sel : NamespaceSelector) : result (Namespace -> result bool) :=
  match forms sel with
  | 0 => Err (errorf ("namespace selector sets no positive form "
                ++ "(rule 8: exactly one of matchNames/matchLabels/matchExpressions/regexp is required)"))
  | 1 =>
      if (0 <? List.length (MatchNames sel))%nat then
        Ok (fun ns => anyGlobMatches (MatchNames sel) (ns_Name ns))
      else if negb (bool_decide (ns_MatchLabels sel = ∅)) then
        match LabelSelectorAsSelector (mkLabelSelector (ns_MatchLabels sel) []) with
        | Err e => Err (wrap_err "namespace selector matchLabels" e)
        | Ok selector => Ok (labelMatcher selector)
        end
      else if (0 <? List.length (ns_MatchExpressions sel))%nat then
        match LabelSelectorAsSelector (mkLabelSelector ∅ (ns_MatchExpressions sel)) with
        | Err e => Err (wrap_err "namespace selector matchExpressions" e)
        | Ok selector => Ok (labelMatcher selector)
        end
      else
        match CompileRegexp (Regexp sel) with
        | Err e => Err (wrap_err ("namespace selector regexp " ++ Regexp sel) e)
        | Ok re => Ok (fun ns => Ok (re (ns_Name ns)))
        end
  | n => Err (errorf ("namespace selector sets " ++ Itoa (Z.of_nat n) ++ " positive forms "
                ++ "(rule 8: exactly one of matchNames/matchLabels/matchExpressions/regexp is allowed)"))
  end.

(** The loop over the namespaces: the names selected, or the first error. *)
Fixpoint selectNames (match_ : Namespace -> result bool) (exclude : list string)
    (namespaces : list Namespace) : result (list string) :=
  match namespaces with
  | [] => Ok []
  | ns :: namespaces =>
      match match_ ns with
      | Err e => Err e
      | Ok false => selectNames match_ exclude namespaces
      | Ok true =>
          match anyGlobMatches exclude (ns_Name ns) with
          | Err e => Err (wrap_err "namespace selector exclude" e)
          | Ok true => selectNames match_ exclude namespaces
          | Ok false =>
              match selectNames match_ exclude namespaces with
              | Err e => Err e
              | Ok out => Ok (ns_Name ns :: out)
              end
          end
      end
  end.

Definition Match (namespaces : list Namespace) (sel : NamespaceSelector) : result (list string) :=
  match positiveMatcher sel with
  | Err e => Err e
  | Ok match_ =>
      match selectNames match_ (Exclude sel) namespaces with
      | Err e => Err e
      | Ok out => Ok (sort_strings out)
      end
  end.

(** *** What a selector asks for *)

(** Whether the one positive form of a selector wants a namespace. *)
Definition wanted (sel : NamespaceSelector) (ns : Namespace) : bool :=
  existsb (fun p => matches p (ns_Name ns)) (MatchNames sel)
  || negb (bool_decide (ns_MatchLabels sel = ∅))
     && match LabelSelectorAsSelector (mkLabelSelector (ns_MatchLabels sel) []) with
        | Ok s => s (ns_Labels ns) | Err _ => false end
  || (0 <? List.length (ns_MatchExpressions sel))%nat
     && match LabelSelectorAsSelector (mkLabelSelector ∅ (ns_MatchExpressions sel)) with
        | Ok s => s (ns_Labels ns) | Err _ => false end
  || negb (Regexp sel =? "")
     && match CompileRegexp (Regexp sel) with Ok re => re (ns_Name ns) | Err _ => false end.

Definition dropped (sel : NamespaceSelector) (ns : Namespace) : bool :=
  existsb (fun p => matches p (ns_Name ns)) (Exclude sel).

(** A glob that [path.Match] rejects, or a selector that does not compile. *)
Definition malformed (sel : NamespaceSelector) : Prop :=
  (exists p name, p ∈ (MatchNames sel ++ Exclude sel)%list /\ GoText.Match p name = MBadPattern)
  \/ (exists e, LabelSelectorAsSelector (mkLabelSelector (ns_MatchLabels sel) []) = Err e
        \/ LabelSelectorAsSelector (mkLabelSelector ∅ (ns_MatchExpressions sel)) = Err e)
  \/ (exists e, CompileRegexp (Regexp sel) = Err e).

Lemma anyGlobMatches_spec patterns name :
  match anyGlobMatches patterns name with
  | Ok b => b = existsb (fun p => matches p name) patterns
  | Err _ => exists p, p ∈ patterns /\ GoText.Match p name = MBadPattern
  end.
Proof.
  induction patterns as [|p patterns IH]; [done|]. cbn [anyGlobMatches existsb]. unfold matches at 1.
  destruct (GoText.Match p name) as [[]|] eqn:E; [done| |exists p; split; [left|done]].
  destruct (anyGlobMatches patterns name) as [b|e]; [done|].
  destruct IH as (q & Hq & Hm). exists q. split; [by right|done].
Qed.

(** A matcher that answers [wanted], and errs only on a malformed selector. *)
Definition implements (sel : NamespaceSelector) (m : Namespace -> result bool) : Prop :=
  forall ns, match m ns with Ok b => b = wanted sel ns | Err _ => malformed sel end.

Lemma positiveMatcher_spec sel :
  match positiveMatcher sel with
  | Ok m => forms sel = 1 /\ implements sel m
  | Err _ => forms sel <> 1 \/ malformed sel
  end.
Proof.
  unfold positiveMatcher. destruct (forms sel) as [|[|n]] eqn:Ef; [by left| |by left].
  revert Ef. unfold forms, implements, wanted.
  destruct (MatchNames sel) as [|g gs] eqn:En;
    destruct (bool_decide_reflect (ns_MatchLabels sel = ∅)) as [El|El];
    destruct (ns_MatchExpressions sel) as [|x xs] eqn:Ex;
    destruct (String.eqb_spec (Regexp sel) "") as [Er|Er]; try done; intros _;
    cbn [List.length Nat.ltb Nat.leb existsb orb andb negb].
  - destruct (CompileRegexp (Regexp sel)) as [re|e] eqn:Ec; [by split|]. right. right. right. by exists e.
  - destruct (LabelSelectorAsSelector _) as [s|e] eqn:Es.
    + split; [done|]. intros ns. cbn. by rewrite orb_false_r.
    + right. right. left. exists e. right. by rewrite Ex.
  - destruct (LabelSelectorAsSelector _) as [s|e] eqn:Es.
    + split; [done|]. intros ns. cbn. by rewrite !orb_false_r.
    + right. right. left. exists e. by left.
  - split; [done|]. intros ns. pose proof (anyGlobMatches_spec (g :: gs) (ns_Name ns)) as Hg.
    destruct (anyGlobMatches (g :: gs) (ns_Name ns)); [by rewrite !orb_false_r|].
    destruct Hg as (p & Hp & Hm). left. exists p, (ns_Name ns). split; [|done].
    rewrite En. apply elem_of_app. by left.
Qed.

Lemma selectNames_spec sel m namespaces :
  implements sel m ->
  match selectNames m (Exclude sel) namespaces with
  | Ok out => out = map ns_Name (List.filter (fun ns => wanted sel ns && negb (dropped sel ns)) namespaces)
  | Err _ => malformed sel
  end.
Proof.
  intros Hm. induction namespaces as [|ns namespaces IH]; [done|]. cbn [selectNames List.filter]. specialize (Hm ns).
  destruct (m ns) as [[]|e]; [|by rewrite <-Hm|done]. rewrite <-Hm. cbn.
  pose proof (anyGlobMatches_spec (Exclude sel) (ns_Name ns)) as Hx. unfold dropped at 1.
  destruct (anyGlobMatches (Exclude sel) (ns_Name ns)) as [[]|e]; [by rewrite <-Hx| |].
  - rewrite <-Hx. cbn. destruct (selectNames _ _ _); [by rewrite IH|done].
  - destruct Hx as (p & Hp & Hb). left. exists p, (ns_Name ns). split; [|done].
    apply elem_of_app. by right.
Qed.

(** A namespace selector never guesses: a resolution that succeeds had exactly
    one positive form and returns, sorted, exactly the namespaces that form wants
    and no exclude glob matches; one that fails had another number of forms or a
    pattern that does not compile. *)
Theorem Match_spec (namespaces : list Namespace) (sel : NamespaceSelector) :
  match Match namespaces sel with
  | Ok out =>
      forms sel = 1 /\ Sorted string_le out
      /\ out ≡ₚ map ns_Name (List.filter (fun ns => wanted sel ns && negb (dropped sel ns)) namespaces)
  | Err _ => forms sel <> 1 \/ malformed sel
  end.
Proof.
  unfold Match. pose proof (positiveMatcher_spec sel) as Hp.
  destruct (positiveMatcher sel) as [m|e]; [|done]. destruct Hp as [Hf Hi].
  pose proof (selectNames_spec sel m namespaces Hi) as Hs.
  destruct (selectNames m (Exclude sel) namespaces) as [out|e]; [|by right].
  split; [done|]. split; [apply sort_strings_sorted|]. by rewrite sort_strings_perm, Hs.
Qed.
End Matching.
End nsselector.
