(* ===== verification/Names.v ===== *)
(** * Names: the names, labels and bounded messages of backup_controller.go

    The object names an exposure of a volume uses, the labels that lead back to
    its Backup, and the functions that bound the texts written into a status. *)

From S2P Require Import Prelude GoText Cluster.
From Stdlib Require Import Ascii String.

#[local] Open Scope string_scope.

(** ** Object names *)

Definition moverNamePrefixMax : nat := 56.

(** One rune of the loop of [sanitizeDNSName]: the builder's content (reversed)
    and [prevHyphen]. *)
Definition dns_rune (r : N) : bool := in_range 97 122 r || in_range 48 57 r.

Definition dns_step (st : list N * bool) (r : N) : list N * bool :=
  let '(b, prevHyphen) := st in
  if dns_rune r then (r :: b, false)
  else if prevHyphen then (b, true) else (45%N :: b, true).

Definition dns_build (raw : string) : string :=
  of_bytes (rev (fst (fold_left dns_step (map lower_rune (runes raw)) ([], false)))).

Definition sanitizeDNSName (raw : string) (max : nat) : string :=
  let s := TrimByte "-" (dns_build raw) in
  let s := if s =? "" then "x" else s in
  if (slen s <=? max)%nat then s
  else
    let suffix := hex_fixed 8 (fnv32a raw) in
    let keep := Z.max 1 (Z.of_nat max - Z.of_nat (slen suffix) - 1) in
    TrimRightByte "-" (stake (Z.to_nat keep) s) ++ "-" ++ suffix.

Definition moverNamePrefix (namespace backupName pvcName : string) : string :=
  sanitizeDNSName (namespace ++ "-" ++ backupName ++ "-" ++ pvcName) moverNamePrefixMax.

Definition maintenanceResourceName (backupName op : string) : string := backupName ++ "-" ++ op.

Definition truncate (s : string) (limit : nat) : string :=
  if (slen s <=? limit)%nat then s
  else if (limit <=? 3)%nat then stake limit s
  else stake (limit - 3) s ++ "...".

(** ** Labels *)

Definition exposureLabels (namespace name : string) (backupLabels : labels) (pvcName : string)
    : labels :=
  let ls : labels :=
    <[LabelManagedBy := ManagedByValue]> (<[LabelBackup := name]>
      (<[LabelNamespace := namespace]> (<[LabelPVC := pvcName]> ∅))) in
  let run := lget backupLabels LabelClusterBackup in
  if run =? "" then ls else <[LabelClusterBackup := run]> ls.

Definition ownerBackupNameFromLabels (ls : labels) : string :=
  let name := lget ls LabelBackup in
  if name =? "" then lget ls LabelClusterBackup else name.

(** The reconcile requests a Job maps to: at most one (namespace, name). *)
Definition mapJobToBackup (ls : labels) : option (string * string) :=
  if negb (lget ls LabelManagedBy =? ManagedByValue) then None
  else
    let name := ownerBackupNameFromLabels ls in
    let namespace := lget ls LabelNamespace in
    if (name =? "") || (namespace =? "") then None else Some (namespace, name).

(** ** Bounded messages *)

Definition clusterBackupMessageCap : nat := 384.

Definition clampMessage (s : string) : string :=
  let r := runes s in
  if (List.length r <=? clusterBackupMessageCap)%nat then s
  else string_of_runes (take (clusterBackupMessageCap - 1) r) ++ "…".

Definition shortReason (msg : string) : string :=
  let msg := TrimSpace msg in
  if msg =? "" then "MoverJobFailed"
  else if (200 <? slen msg)%nat then stake 200 msg else msg.

Definition deadlineReason (reason detail : string) : string :=
  if detail =? "" then reason else shortReason (reason ++ ": " ++ detail).

Definition eventSuffix (detail : string) : string :=
  if detail =? "" then "" else " — the most recent Warning was: " ++ detail.

(** ** Laws of the object names *)

(** The bytes of an RFC 1123 label, and the label itself. *)
Definition dns_byte (a : ascii) : bool := dns_rune (code a) || (code a =? 45)%N.

Fixpoint all_bytes (p : ascii -> bool) (s : string) : bool :=
  match s with EmptyString => true | String a r => p a && all_bytes p r end.

Fixpoint last_is (c : ascii) (s : string) : bool :=
  match s with
  | EmptyString => false
  | String a EmptyString => Ascii.eqb a c
  | String _ r => last_is c r
  end.

Definition dns_label (s : string) : bool :=
  negb (s =? "") && all_bytes dns_byte s && negb (head_is "-" s) && negb (last_is "-" s).

Lemma all_bytes_app p a b : all_bytes p (a ++ b) = all_bytes p a && all_bytes p b.
Proof. induction a as [|c a IH]; simpl; [done|]. by rewrite IH, andb_assoc. Qed.

Lemma all_bytes_TrimLeft p c s : all_bytes p s = true -> all_bytes p (TrimLeftByte c s) = true.
Proof.
  induction s as [|a s IH]; simpl; [done|]. intros [Ha Hs]%andb_prop.
  destruct (Ascii.eqb a c); [by apply IH|]. simpl. by rewrite Ha.
Qed.

Lemma all_bytes_TrimRight p c s : all_bytes p s = true -> all_bytes p (TrimRightByte c s) = true.
Proof.
  induction s as [|a s IH]; simpl; [done|]. intros [Ha Hs]%andb_prop. specialize (IH Hs).
  destruct (TrimRightByte c s); [destruct (Ascii.eqb a c)|]; simpl in *; by rewrite ?Ha.
Qed.

Lemma all_bytes_stake p n s : all_bytes p s = true -> all_bytes p (stake n s) = true.
Proof.
  unfold stake. revert n. induction s as [|a s IH]; intros [|n]; simpl; try done.
  intros [Ha Hs]%andb_prop. by rewrite Ha, IH.
Qed.

Lemma slen_stake n s : slen (stake n s) = n `min` slen s.
Proof.
  unfold stake, slen. revert n. induction s as [|a s IH]; intros [|n]; simpl; try done.
  by rewrite IH.
Qed.

Lemma slen_app a b : slen (a ++ b) = slen a + slen b.
Proof. unfold slen. induction a; simpl; [done|]. by rewrite IHa. Qed.

Lemma slen_TrimRight c s : slen (TrimRightByte c s) <= slen s.
Proof.
  unfold slen. induction s as [|a s IH]; simpl; [done|].
  destruct (TrimRightByte c s); [destruct (Ascii.eqb a c)|]; simpl in *; lia.
Qed.

Lemma TrimLeft_head c s : head_is c (TrimLeftByte c s) = false.
Proof.
  induction s as [|a s IH]; simpl; [done|]. destruct (Ascii.eqb a c) eqn:E; [done|]. by simpl.
Qed.

Lemma TrimRight_last c s : last_is c (TrimRightByte c s) = false.
Proof.
  induction s as [|a s IH]; simpl; [done|].
  destruct (TrimRightByte c s) as [|b r] eqn:Hr.
  - destruct (Ascii.eqb a c) eqn:E; [done|]. by simpl.
  - by destruct r.
Qed.

(** Trimming on the right keeps a first byte other than the trimmed one. *)
Lemma TrimRight_head c a r :
  a <> c -> exists r', TrimRightByte c (String a r) = String a r'.
Proof.
  intros Hne. simpl. destruct (TrimRightByte c r) as [|b r']; [|by eexists].
  destruct (Ascii.eqb_spec a c); [done|by eexists].
Qed.

Lemma head_is_TrimRight c d s :
  head_is d s = false -> head_is d (TrimRightByte c s) = false.
Proof.
  destruct s as [|a r]; simpl; [done|]. intros Hd.
  destruct (TrimRightByte c r); [destruct (Ascii.eqb a c)|]; by simpl.
Qed.

Lemma hex_digit_spec (P : Z -> bool) z :
  forallb P (seqZ 0 16) = true -> P (z mod 16)%Z = true.
Proof.
  rewrite forallb_elem. intros H. apply H, elem_of_seqZ.
  pose proof (Z.mod_pos_bound z 16). lia.
Qed.

Lemma hex_digit_not_hyphen z : Ascii.eqb (hex_digit (z mod 16)) "-" = false.
Proof. apply negb_true_iff. by apply (hex_digit_spec (fun d => negb (Ascii.eqb (hex_digit d) "-"))). Qed.

Lemma all_bytes_hex n z : all_bytes dns_byte (hex_fixed n z) = true.
Proof.
  revert z. induction n as [|n IH]; intros z; simpl; [done|].
  rewrite all_bytes_app, IH. simpl. rewrite andb_true_r.
  by apply (hex_digit_spec (fun d => dns_byte (hex_digit d))).
Qed.

Lemma slen_hex n z : slen (hex_fixed n z) = n.
Proof. revert z. induction n as [|n IH]; intros z; simpl; [done|]. rewrite slen_app, IH. simpl. lia. Qed.

Lemma last_is_hex c n z : last_is c (hex_fixed (S n) z) = Ascii.eqb (hex_digit (z mod 16)) c.
Proof.
  simpl. generalize (hex_fixed n (z / 16)). intros s. induction s as [|a s IH]; simpl; [done|].
  destruct s; done.
Qed.

Lemma last_is_app c a b : b <> "" -> last_is c (a ++ b) = last_is c b.
Proof.
  intros Hb. induction a as [|x a IH]; simpl; [done|]. rewrite IH.
  destruct a; simpl; [by destruct b|done].
Qed.

Lemma of_bytes_all l :
  (forall b, b ∈ l -> dns_rune b = true \/ b = 45%N) -> all_bytes dns_byte (of_bytes l) = true.
Proof.
  induction l as [|b l IH]; intros H; simpl; [done|].
  rewrite IH by (intros; apply H; by right). rewrite andb_true_r.
  unfold dns_byte, code, chr.
  destruct (H b (list_elem_of_here _ _)) as [Hb| ->]; [|done].
  rewrite N_ascii_embedding; [by rewrite Hb|].
  unfold dns_rune, in_range in Hb. rewrite orb_true_iff, !andb_true_iff, !N.leb_le in Hb. lia.
Qed.

Lemma dns_fold_bytes rs st :
  (forall b, b ∈ fst st -> dns_rune b = true \/ b = 45%N) ->
  forall b, b ∈ fst (fold_left dns_step rs st) -> dns_rune b = true \/ b = 45%N.
Proof.
  revert st. induction rs as [|r rs IH]; intros [bs p] H; simpl; [done|].
  apply IH. destruct (dns_rune r) eqn:Hr; [|destruct p]; simpl; try done.
  - intros b [->|Hb]%elem_of_cons; [by left|auto].
  - intros b [->|Hb]%elem_of_cons; [by right|auto].
Qed.

Lemma dns_build_bytes raw : all_bytes dns_byte (dns_build raw) = true.
Proof.
  apply of_bytes_all. intros b Hb. rewrite list_elem_of_In, <-in_rev, <-list_elem_of_In in Hb.
  eapply dns_fold_bytes; [|exact Hb]. intros x Hx. by apply elem_of_nil in Hx.
Qed.

Lemma dns_trimmed raw :
  let s := TrimByte "-" (dns_build raw) in
  all_bytes dns_byte s = true /\ head_is "-" s = false /\ last_is "-" s = false.
Proof.
  split_and!.
  - apply all_bytes_TrimRight, all_bytes_TrimLeft, dns_build_bytes.
  - apply head_is_TrimRight, TrimLeft_head.
  - apply TrimRight_last.
Qed.

Lemma dns_label_truncated s n z :
  dns_label s = true -> 0 < n ->
  dns_label (TrimRightByte "-" (stake n s) ++ "-" ++ hex_fixed 8 z) = true.
Proof.
  unfold dns_label. rewrite !andb_true_iff, !negb_true_iff. intros [[[Hne Hb] Hh] Hl] Hn.
  destruct s as [|a r]; [done|]. destruct n as [|n]; [lia|]. simpl in Hh.
  assert (stake (S n) (String a r) = String a (stake n r)) as -> by done.
  destruct (TrimRight_head "-" a (stake n r)) as [r' Hr'].
  { intros ->. by rewrite Ascii.eqb_refl in Hh. }
  assert (all_bytes dns_byte (TrimRightByte "-" (String a (stake n r))) = true) as Hb'.
  { apply all_bytes_TrimRight. simpl in Hb |- *. apply andb_true_iff in Hb as [-> Hb].
    by apply all_bytes_stake. }
  split_and!.
  - by rewrite Hr'.
  - rewrite !all_bytes_app, Hb', all_bytes_hex. done.
  - rewrite Hr'. simpl. done.
  - rewrite !last_is_app; [|by intros E; apply (f_equal slen) in E; rewrite slen_hex in E|done].
    rewrite last_is_hex. apply hex_digit_not_hyphen.
Qed.

Lemma sanitizeDNSName_label raw max : dns_label (sanitizeDNSName raw max) = true.
Proof.
  unfold sanitizeDNSName. destruct (dns_trimmed raw) as (Hb & Hh & Hl).
  set (s0 := TrimByte "-" (dns_build raw)) in *.
  assert (dns_label (if s0 =? "" then "x" else s0) = true) as Hs.
  { destruct (s0 =? "") eqn:E; [done|]. unfold dns_label. by rewrite E, Hb, Hh, Hl. }
  set (s := if s0 =? "" then "x" else s0) in *.
  destruct (slen s <=? max)%nat; [done|]. apply dns_label_truncated; [done|lia].
Qed.

Lemma sanitizeDNSName_nonempty raw max : sanitizeDNSName raw max <> "".
Proof. pose proof (sanitizeDNSName_label raw max) as H. intros E. by rewrite E in H. Qed.

(** Every name [sanitizeDNSName] returns with a bound of at least ten is a
    valid DNS-1123 label within the bound, whatever the bytes of the raw name. *)
Theorem sanitizeDNSName_valid (raw : string) (max : nat) (Hmax : 10 <= max) :
  dns_label (sanitizeDNSName raw max) = true /\ slen (sanitizeDNSName raw max) <= max.
Proof.
  split; [apply sanitizeDNSName_label|]. unfold sanitizeDNSName.
  set (s := if TrimByte "-" (dns_build raw) =? "" then "x" else TrimByte "-" (dns_build raw)).
  destruct (slen s <=? max)%nat eqn:Hlen; [by apply Nat.leb_le|].
  rewrite slen_hex, !slen_app, slen_hex.
  pose proof (slen_TrimRight "-" (stake (Z.to_nat (Z.max 1 (Z.of_nat max - Z.of_nat 8 - 1))) s)) as Ht.
  rewrite slen_stake in Ht. simpl. lia.
Qed.

(** Two volumes of two Backups can share their object names: the names are
    joined with a hyphen, which is also a character of each of them, and only a
    name that is truncated carries a hash. *)
Theorem moverNamePrefix_collision :
  exists ns1 b1 p1 ns2 b2 p2,
    forallb dns_label [ns1; b1; p1; ns2; b2; p2] = true /\ ns1 <> ns2
    /\ moverNamePrefix ns1 b1 p1 = moverNamePrefix ns2 b2 p2.
Proof.
  exists "team", "nightly", "db-data", "team-nightly", "db", "data".
  split; [by vm_compute|]. split; [done|]. by vm_compute.
Qed.

(** A mover Job leads back to the Backup whose exposure it serves, and only
    to it: [mapJobToBackup] inverts [exposureLabels] on both planes. *)
Theorem mapJobToBackup_exposureLabels (namespace name : string) (backupLabels : labels)
    (pvcName : string) (Hns : namespace <> "") (Hname : name <> "") :
  mapJobToBackup (exposureLabels namespace name backupLabels pvcName) = Some (namespace, name).
Proof.
  apply String.eqb_neq in Hns, Hname.
  unfold mapJobToBackup, ownerBackupNameFromLabels, exposureLabels, lget.
  destruct (default "" (backupLabels !! LabelClusterBackup) =? "");
    repeat (rewrite lookup_insert_eq || (rewrite lookup_insert_ne by done)); simpl;
    rewrite ?Hname; simpl; by rewrite ?Hname, ?Hns.
Qed.

Lemma stake_all n s : slen s <= n -> stake n s = s.
Proof.
  unfold stake, slen. revert n. induction s as [|a s IH]; intros [|n] H; simpl in *; try done; [lia|].
  rewrite IH by lia. done.
Qed.

Lemma shortReason_bounds msg : 0 < slen (shortReason msg) <= 200.
Proof.
  unfold shortReason. destruct (TrimSpace msg =? "") eqn:E; [simpl; lia|].
  apply String.eqb_neq in E.
  destruct (200 <? slen (TrimSpace msg))%nat eqn:L.
  - apply Nat.ltb_lt in L. rewrite slen_stake. lia.
  - apply Nat.ltb_ge in L. destruct (TrimSpace msg); [done|]. unfold slen in *. simpl in *. lia.
Qed.

Lemma deadlineReason_nonempty reason detail : reason <> "" -> deadlineReason reason detail <> "".
Proof.
  intros Hr. unfold deadlineReason. destruct (detail =? ""); [done|].
  pose proof (shortReason_bounds (reason ++ ": " ++ detail)) as Hb.
  intros E. rewrite E in Hb. simpl in Hb. lia.
Qed.

(** ** Witnesses *)

Lemma sanitizeDNSName_valid_witness :
  10 <= 56 /\ (dns_label (sanitizeDNSName "Team_A--x" 56) = true
               /\ slen (sanitizeDNSName "Team_A--x" 56) <= 56).
Proof. split; [lia|]. apply (sanitizeDNSName_valid "Team_A--x" 56). lia. Defined.

Lemma mapJobToBackup_exposureLabels_witness :
  mapJobToBackup (exposureLabels "team" "nightly" ∅ "data") = Some ("team", "nightly").
Proof. apply (mapJobToBackup_exposureLabels "team" "nightly" ∅ "data"); discriminate. Defined.
