(* ===== verification/Status.v ===== *)
(** * Phases, tallies and roll-ups ([internal/status])

    The phase vocabulary of a Backup, a ClusterBackup and a Restore, the
    roll-up of per-volume phases into a Backup's phase, of per-namespace
    outcomes into a ClusterBackup's phase, and the counters published beside
    them (all of Go type [int32], kept at that width). *)

From S2P Require Import Prelude.

#[local] Open Scope string_scope.
#[local] Open Scope Z_scope.

(** ** Data: the status structs of [api/v1alpha1] the roll-ups read *)

Definition VolumePhase := string.

Definition VolumePhasePending : VolumePhase := "Pending".
Definition VolumePhaseSnapshotting : VolumePhase := "Snapshotting".
Definition VolumePhaseUploading : VolumePhase := "Uploading".
Definition VolumePhaseCompleted : VolumePhase := "Completed".
Definition VolumePhaseSkipped : VolumePhase := "Skipped".
Definition VolumePhaseFailed : VolumePhase := "Failed".

Record VolumeStatus := mkVolumeStatus {
  Pvc : string;
  SnapshotID : string;
  SizeBytes : Z;
  AddedBytes : Z;
  Phase : VolumePhase;
  Node : string;
  Reason : string;
  FirstAttemptAt : option Z;
  PhaseEnteredAt : option Z
}.

#[global] Instance VolumeStatus_eq_dec : EqDecision VolumeStatus.
Proof. solve_decision. Defined.

(** The zero [VolumeStatus] with a claim name and a phase, the composite
    literals the controllers append. *)
Definition newVolume (pvc : string) (phase : VolumePhase) : VolumeStatus :=
  mkVolumeStatus pvc "" 0 0 phase "" "" None None.

Definition BackupPhasePending : string := "Pending".
Definition BackupPhaseSnapshottingHooks : string := "SnapshottingHooks".
Definition BackupPhaseSnapshotting : string := "Snapshotting".
Definition BackupPhaseUploading : string := "Uploading".
Definition BackupPhaseCompleted : string := "Completed".
Definition BackupPhasePartiallyCompleted : string := "PartiallyCompleted".
Definition BackupPhasePartiallyFailed : string := "PartiallyFailed".
Definition BackupPhaseFailed : string := "Failed".

Definition ClusterBackupPhasePending : string := "Pending".
Definition ClusterBackupPhaseRunning : string := "Running".
Definition ClusterBackupPhaseCompleted : string := "Completed".
Definition ClusterBackupPhasePartiallyFailed : string := "PartiallyFailed".
Definition ClusterBackupPhaseFailed : string := "Failed".

Definition RestorePhaseCompleted : string := "Completed".
Definition RestorePhasePartiallyFailed : string := "PartiallyFailed".
Definition RestorePhaseFailed : string := "Failed".

(** ** Phase predicates *)

Definition IsTerminalRestorePhase (phase : string) : bool :=
  (phase =? RestorePhaseCompleted)%string || (phase =? RestorePhasePartiallyFailed)%string
  || (phase =? RestorePhaseFailed)%string.

Definition RollUpRestoreOutcomes (completed failed : Z) : string :=
  if failed =? 0 then RestorePhaseCompleted
  else if 0 <? completed then RestorePhasePartiallyFailed
  else RestorePhaseFailed.

Definition volumePhaseTerminal (phase : VolumePhase) : bool :=
  (phase =? VolumePhaseCompleted)%string || (phase =? VolumePhaseSkipped)%string
  || (phase =? VolumePhaseFailed)%string.

Definition isTerminalBackupPhase (phase : string) : bool :=
  (phase =? BackupPhaseCompleted)%string || (phase =? BackupPhasePartiallyCompleted)%string
  || (phase =? BackupPhasePartiallyFailed)%string || (phase =? BackupPhaseFailed)%string.

(** ** The volume roll-up *)

(** The accumulator of the loop of [RollUpVolumePhases]: the two counters and
    the three in-flight flags. *)
Record rollAcc := mkRollAcc {
  acc_c : Z; acc_f : Z;
  anyUploading : bool; anySnapshotting : bool; anyPending : bool
}.

(** One iteration: the [switch v.Phase] of the loop body; a skipped volume (and
    any phase the switch does not list) changes nothing. *)
Definition rollStep (a : rollAcc) (v : VolumeStatus) : rollAcc :=
  let p := Phase v in
  if (p =? VolumePhaseUploading)%string
  then mkRollAcc (acc_c a) (acc_f a) true (anySnapshotting a) (anyPending a)
  else if (p =? VolumePhaseSnapshotting)%string
  then mkRollAcc (acc_c a) (acc_f a) (anyUploading a) true (anyPending a)
  else if (p =? VolumePhasePending)%string || (p =? "")%string
  then mkRollAcc (acc_c a) (acc_f a) (anyUploading a) (anySnapshotting a) true
  else if (p =? VolumePhaseCompleted)%string
  then mkRollAcc (acc_c a + 1) (acc_f a) (anyUploading a) (anySnapshotting a) (anyPending a)
  else if (p =? VolumePhaseFailed)%string
  then mkRollAcc (acc_c a) (acc_f a + 1) (anyUploading a) (anySnapshotting a) (anyPending a)
  else a.

Definition RollUpVolumePhases (volumes : list VolumeStatus) : string :=
  let a := fold_left rollStep volumes (mkRollAcc 0 0 false false false) in
  if anyUploading a || anySnapshotting a || anyPending a then
    if anyUploading a then BackupPhaseUploading
    else if anySnapshotting a then BackupPhaseSnapshotting
    else BackupPhasePending
  else if (length volumes =? 0)%nat then BackupPhaseCompleted
  else if acc_f a =? 0 then BackupPhaseCompleted
  else if 0 <? acc_c a then BackupPhasePartiallyFailed
  else BackupPhaseFailed.

(** ** Cluster tallies *)

Inductive NamespaceOutcome :=
| NamespaceInFlight | NamespaceSucceeded | NamespaceFailed | NamespaceBlocked.

#[global] Instance NamespaceOutcome_eq_dec : EqDecision NamespaceOutcome.
Proof. solve_decision. Defined.

Definition NamespaceOutcome_String (o : NamespaceOutcome) : string :=
  match o with
  | NamespaceSucceeded => "Succeeded"
  | NamespaceFailed => "Failed"
  | NamespaceBlocked => "Blocked"
  | NamespaceInFlight => "InFlight"
  end.

Definition OutcomeForBackupPhase (phase : string) : NamespaceOutcome :=
  if (phase =? BackupPhaseCompleted)%string || (phase =? BackupPhasePartiallyCompleted)%string
  then NamespaceSucceeded
  else if (phase =? BackupPhaseFailed)%string || (phase =? BackupPhasePartiallyFailed)%string
  then NamespaceFailed
  else NamespaceInFlight.

Definition OutcomesForBackupPhases (childPhases : list string) : list NamespaceOutcome :=
  map OutcomeForBackupPhase childPhases.

Record ClusterTally := mkClusterTally {
  ct_Namespaces : Z; ct_Succeeded : Z; ct_Failed : Z; ct_Blocked : Z; ct_InFlight : Z
}.

Definition ClusterTally_Counted (t : ClusterTally) : Z :=
  (ct_Succeeded t +32 ct_Failed t +32 ct_Blocked t +32 ct_InFlight t)%go.

Definition ClusterTally_SumsUp (t : ClusterTally) : bool :=
  ClusterTally_Counted t =? ct_Namespaces t.

Definition tallyStep (t : ClusterTally) (o : NamespaceOutcome) : ClusterTally :=
  let '(mkClusterTally n s f b i) := t in
  match o with
  | NamespaceSucceeded => mkClusterTally n (s +32 1)%go f b i
  | NamespaceFailed => mkClusterTally n s (f +32 1)%go b i
  | NamespaceBlocked => mkClusterTally n s f (b +32 1)%go i
  | NamespaceInFlight => mkClusterTally n s f b (i +32 1)%go
  end.

Definition TallyNamespaceOutcomes (outcomes : list NamespaceOutcome) : ClusterTally :=
  fold_left tallyStep outcomes
    (mkClusterTally (int32 (Z.of_nat (length outcomes))) 0 0 0 0).

Definition RollUpNamespaceOutcomes (outcomes : list NamespaceOutcome) : string :=
  if (length outcomes =? 0)%nat then ClusterBackupPhasePending
  else
    let t := TallyNamespaceOutcomes outcomes in
    if 0 <? ct_InFlight t then ClusterBackupPhaseRunning
    else if (ct_Failed t +32 ct_Blocked t)%go =? 0 then ClusterBackupPhaseCompleted
    else if ct_Succeeded t =? 0 then ClusterBackupPhaseFailed
    else ClusterBackupPhasePartiallyFailed.

Definition RollUpBackupPhases (childPhases : list string) : string :=
  RollUpNamespaceOutcomes (OutcomesForBackupPhases childPhases).

(** ** Restore tallies *)

Inductive VolumeRestoreOutcome :=
| VolumeRestoreInFlight | VolumeRestoreRestored | VolumeRestoreFailed.

#[global] Instance VolumeRestoreOutcome_eq_dec : EqDecision VolumeRestoreOutcome.
Proof. solve_decision. Defined.

Definition VolumeRestoreOutcome_String (o : VolumeRestoreOutcome) : string :=
  match o with
  | VolumeRestoreRestored => "Restored"
  | VolumeRestoreFailed => "Failed"
  | VolumeRestoreInFlight => "InFlight"
  end.

Record RestoreTally := mkRestoreTally {
  rt_Planned : Z; rt_Restored : Z; rt_Failed : Z; rt_InFlight : Z
}.

Definition RestoreTally_Counted (t : RestoreTally) : Z :=
  (rt_Restored t +32 rt_Failed t +32 rt_InFlight t)%go.

Definition RestoreTally_SumsUp (t : RestoreTally) : bool :=
  RestoreTally_Counted t =? rt_Planned t.

Definition RestoreTally_Settled (t : RestoreTally) : Z := (rt_Restored t +32 rt_Failed t)%go.

Definition restoreTallyStep (t : RestoreTally) (o : VolumeRestoreOutcome) : RestoreTally :=
  let '(mkRestoreTally p r f i) := t in
  match o with
  | VolumeRestoreRestored => mkRestoreTally p (r +32 1)%go f i
  | VolumeRestoreFailed => mkRestoreTally p r (f +32 1)%go i
  | VolumeRestoreInFlight => mkRestoreTally p r f (i +32 1)%go
  end.

Definition TallyVolumeRestoreOutcomes (outcomes : list VolumeRestoreOutcome) : RestoreTally :=
  fold_left restoreTallyStep outcomes
    (mkRestoreTally (int32 (Z.of_nat (length outcomes))) 0 0 0).

(** ** Erasure records *)

Record ErasureRecord := mkErasureRecord {
  er_Targeted : Z; er_Forgotten : Z; er_Remaining : Z
}.

Definition ErasureRecord_Counted (r : ErasureRecord) : Z :=
  (er_Forgotten r +32 er_Remaining r)%go.

Definition ErasureRecord_SumsUp (r : ErasureRecord) : bool :=
  ErasureRecord_Counted r =? er_Targeted r.

Definition ErasureScopeMeasured (targeted : Z) : ErasureRecord :=
  mkErasureRecord targeted 0 targeted.

Definition ErasureFullyForgotten (targeted : Z) : ErasureRecord :=
  mkErasureRecord targeted targeted 0.

Definition ErasureResidueObserved (targeted remaining : Z) : ErasureRecord :=
  mkErasureRecord targeted (Z.max (targeted -32 remaining)%go 0) remaining.

Definition ErasureResidueUnverifiable (targeted : Z) : ErasureRecord :=
  mkErasureRecord targeted 0 targeted.

(** ** Capped failure lists *)

Record FailureRecord := mkFailureRecord {
  fr_Namespace : string; fr_Backup : string; fr_Message : string
}.

Definition DefaultFailureCap : Z := 10.

Definition AppendCappedFailure (failures : list FailureRecord) (rec : FailureRecord) (cap : Z)
    : list FailureRecord :=
  let cap := if cap <=? 0 then DefaultFailureCap else cap in
  if cap <=? Z.of_nat (length failures) then failures else failures ++ [rec].

(** ** Lemmas: the accumulator of the volume roll-up *)

Definition isPhase (p : string) (v : VolumeStatus) : bool := (Phase v =? p)%string.
Definition isPending (v : VolumeStatus) : bool :=
  isPhase VolumePhasePending v || isPhase "" v.

(** The case split of the loop's [switch]. *)
Lemma phase_dec (p : string) :
  p = VolumePhaseUploading \/ p = VolumePhaseSnapshotting \/ p = VolumePhasePending \/ p = ""
  \/ p = VolumePhaseCompleted \/ p = VolumePhaseFailed
  \/ (p <> VolumePhaseUploading /\ p <> VolumePhaseSnapshotting /\ p <> VolumePhasePending
      /\ p <> "" /\ p <> VolumePhaseCompleted /\ p <> VolumePhaseFailed).
Proof.
  repeat match goal with |- (p = ?x) \/ _ => destruct (decide (p = x)); [by left|right] end.
  done.
Qed.

(** What the loop has accumulated after [vs], started from [a]. *)
Lemma roll_fold vs a :
  fold_left rollStep vs a =
    mkRollAcc (acc_c a + Z.of_nat (countb (isPhase VolumePhaseCompleted) vs))
              (acc_f a + Z.of_nat (countb (isPhase VolumePhaseFailed) vs))
              (anyUploading a || existsb (isPhase VolumePhaseUploading) vs)
              (anySnapshotting a || existsb (isPhase VolumePhaseSnapshotting) vs)
              (anyPending a || existsb isPending vs).
Proof.
  revert a. induction vs as [|v vs IH]; intros a; simpl.
  - destruct a; simpl. rewrite !Z.add_0_r, !orb_false_r. done.
  - rewrite IH. unfold rollStep, isPending, isPhase. cbv zeta.
    destruct v as [? ? ? ? p ? ? ? ?]. cbn [Phase].
    destruct (phase_dec p) as [->|[->|[->|[->|[->|[->|H]]]]]];
      [..|destruct H as (HU & HS & HP & HE & HC & HF)];
      rewrite ?(proj2 (String.eqb_neq _ _)) by assumption;
      cbn -[Z.add]; f_equal; try lia; by rewrite ?orb_true_r.
Qed.

(** A volume the roll-up calls in flight. *)
Definition volumeInFlight (v : VolumeStatus) : bool :=
  isPhase VolumePhaseUploading v || isPhase VolumePhaseSnapshotting v || isPending v.

Lemma existsb_orb {A} (p q : A -> bool) l :
  existsb (fun x => p x || q x) l = existsb p l || existsb q l.
Proof. induction l; simpl; [done|]. rewrite IHl. by destruct (p a), (q a), (existsb p l). Qed.

Lemma rollUp_inFlight vs :
  existsb (isPhase VolumePhaseUploading) vs || existsb (isPhase VolumePhaseSnapshotting) vs
    || existsb isPending vs = existsb volumeInFlight vs.
Proof. unfold volumeInFlight. by rewrite !existsb_orb. Qed.

(** The roll-up as a function of what the volume list contains. *)
Lemma RollUpVolumePhases_eq vs :
  RollUpVolumePhases vs =
    if existsb (isPhase VolumePhaseUploading) vs then BackupPhaseUploading
    else if existsb (isPhase VolumePhaseSnapshotting) vs then BackupPhaseSnapshotting
    else if existsb isPending vs then BackupPhasePending
    else if negb (existsb (isPhase VolumePhaseFailed) vs) then BackupPhaseCompleted
    else if existsb (isPhase VolumePhaseCompleted) vs then BackupPhasePartiallyFailed
    else BackupPhaseFailed.
Proof.
  unfold RollUpVolumePhases. rewrite roll_fold. cbn [acc_c acc_f anyUploading anySnapshotting anyPending orb].
  destruct (existsb (isPhase VolumePhaseUploading) vs); [done|].
  destruct (existsb (isPhase VolumePhaseSnapshotting) vs); [done|].
  destruct (existsb isPending vs); [done|]. cbn [orb].
  destruct vs as [|v vs]; [done|].
  cbn [length Nat.eqb]. rewrite <-!countb_existsb.
  destruct (Nat.ltb_spec 0 (countb (isPhase VolumePhaseFailed) (v :: vs))),
    (Nat.ltb_spec 0 (countb (isPhase VolumePhaseCompleted) (v :: vs))); cbn [negb];
    repeat match goal with
    | |- context [Z.eqb ?a ?b] => destruct (Z.eqb_spec a b); try lia
    | |- context [Z.ltb ?a ?b] => destruct (Z.ltb_spec a b); try lia
    end; done.
Qed.

Lemma isTerminal_rollUp vs :
  isTerminalBackupPhase (RollUpVolumePhases vs) = negb (existsb volumeInFlight vs).
Proof.
  rewrite RollUpVolumePhases_eq, <-rollUp_inFlight.
  destruct (existsb (isPhase VolumePhaseUploading) vs); [done|].
  destruct (existsb (isPhase VolumePhaseSnapshotting) vs); [done|].
  destruct (existsb isPending vs); [done|].
  destruct (existsb (isPhase VolumePhaseFailed) vs); [|done].
  by destruct (existsb (isPhase VolumePhaseCompleted) vs).
Qed.

Lemma volumeInFlight_terminal v :
  volumeInFlight v = true -> volumePhaseTerminal (Phase v) = false.
Proof.
  unfold volumeInFlight, isPending, isPhase, volumePhaseTerminal.
  rewrite !orb_true_iff, !String.eqb_eq. by intros [[->| ->]|[->| ->]].
Qed.

Lemma has_phase p vs :
  existsb (isPhase p) vs = true -> exists v, v ∈ vs /\ Phase v = p.
Proof. rewrite existsb_elem. intros (v & Hv & Hp). exists v. by rewrite <-String.eqb_eq. Qed.

Lemma no_phase p vs :
  existsb (isPhase p) vs = false -> forall v, v ∈ vs -> Phase v <> p.
Proof. rewrite existsb_none. intros H v Hv. rewrite <-String.eqb_neq. by apply H. Qed.

(** ** Properties of the volume roll-up *)

(** The phase a Backup publishes is decided by its volumes as documented:
    in-flight phases win in the order Uploading, Snapshotting, Pending (the
    empty phase counts as Pending); when nothing is in flight, the absence of
    a failed volume gives Completed whatever was skipped, a failure beside a
    completed volume gives PartiallyFailed, and a failure with no completed
    volume gives Failed. *)
Theorem RollUpVolumePhases_spec (vs : list VolumeStatus) :
  match RollUpVolumePhases vs with
  | "Uploading" => exists v, v ∈ vs /\ Phase v = VolumePhaseUploading
  | "Snapshotting" =>
      (exists v, v ∈ vs /\ Phase v = VolumePhaseSnapshotting)
      /\ (forall v, v ∈ vs -> Phase v <> VolumePhaseUploading)
  | "Pending" =>
      (exists v, v ∈ vs /\ (Phase v = VolumePhasePending \/ Phase v = ""))
      /\ (forall v, v ∈ vs -> Phase v <> VolumePhaseUploading /\ Phase v <> VolumePhaseSnapshotting)
  | "Completed" =>
      forall v, v ∈ vs -> volumeInFlight v = false /\ Phase v <> VolumePhaseFailed
  | "PartiallyFailed" =>
      (forall v, v ∈ vs -> volumeInFlight v = false)
      /\ (exists v, v ∈ vs /\ Phase v = VolumePhaseFailed)
      /\ (exists v, v ∈ vs /\ Phase v = VolumePhaseCompleted)
  | "Failed" =>
      (forall v, v ∈ vs -> volumeInFlight v = false)
      /\ (exists v, v ∈ vs /\ Phase v = VolumePhaseFailed)
      /\ (forall v, v ∈ vs -> Phase v <> VolumePhaseCompleted)
  | _ => False
  end.
Proof.
  pose proof (rollUp_inFlight vs) as Hin. rewrite RollUpVolumePhases_eq.
  destruct (existsb (isPhase VolumePhaseUploading) vs) eqn:EU; [by apply has_phase|].
  destruct (existsb (isPhase VolumePhaseSnapshotting) vs) eqn:ES.
  { split; [by apply has_phase|by apply no_phase]. }
  destruct (existsb isPending vs) eqn:EP; simpl in *.
  { apply existsb_elem in EP as (v & Hv & [Hp|Hp]%orb_true_iff);
      apply String.eqb_eq in Hp; split; [by eauto 4| |by eauto 4|];
      intros w Hw; split; by eapply no_phase. }
  symmetry in Hin. rewrite existsb_none in Hin.
  destruct (existsb (isPhase VolumePhaseFailed) vs) eqn:EF; simpl.
  - destruct (existsb (isPhase VolumePhaseCompleted) vs) eqn:EC;
      (split; [done|]); (split; [by apply has_phase|]);
      [by apply has_phase|by apply no_phase].
  - intros v Hv. split; [by apply Hin|by eapply no_phase].
Qed.

(** A Backup's roll-up is terminal exactly when no volume is in flight, and
    it does not depend on the order in which the volumes are recorded. *)
Theorem RollUpVolumePhases_terminal (vs : list VolumeStatus) :
  (isTerminalBackupPhase (RollUpVolumePhases vs) = true
     <-> forall v, v ∈ vs -> volumeInFlight v = false)
  /\ (forall vs', vs ≡ₚ vs' -> RollUpVolumePhases vs' = RollUpVolumePhases vs).
Proof.
  split.
  - by rewrite isTerminal_rollUp, negb_true_iff, existsb_none.
  - intros vs' Hp. rewrite !RollUpVolumePhases_eq. by rewrite !Hp.
Qed.

(** ** Lemmas: tallies *)

Definition outcomeIs (o x : NamespaceOutcome) : bool := bool_decide (x = o).
Definition countOutcome (o : NamespaceOutcome) (l : list NamespaceOutcome) : Z :=
  Z.of_nat (countb (outcomeIs o) l).

Lemma countOutcome_cons o x l :
  countOutcome o (x :: l) = (if decide (x = o) then 1 else 0) + countOutcome o l.
Proof.
  unfold countOutcome, outcomeIs; simpl.
  destruct (decide (x = o)) as [->|Hne]; [rewrite bool_decide_true by done|rewrite bool_decide_false by done]; cbn; lia.
Qed.

Lemma tally_fold os n s f b i :
  fold_left tallyStep os (mkClusterTally n (int32 s) (int32 f) (int32 b) (int32 i)) =
    mkClusterTally n (int32 (s + countOutcome NamespaceSucceeded os))
      (int32 (f + countOutcome NamespaceFailed os))
      (int32 (b + countOutcome NamespaceBlocked os))
      (int32 (i + countOutcome NamespaceInFlight os)).
Proof.
  revert s f b i. induction os as [|o os IH]; intros s f b i.
  - cbn. by rewrite !Z.add_0_r.
  - rewrite !countOutcome_cons.
    destruct o; cbn -[Z.add countOutcome decide]; int_simpl; rewrite IH;
      repeat case_decide; try done; f_equal; f_equal; lia.
Qed.

Lemma TallyNamespaceOutcomes_eq os :
  TallyNamespaceOutcomes os =
    mkClusterTally (int32 (Z.of_nat (length os)))
      (int32 (countOutcome NamespaceSucceeded os)) (int32 (countOutcome NamespaceFailed os))
      (int32 (countOutcome NamespaceBlocked os)) (int32 (countOutcome NamespaceInFlight os)).
Proof. unfold TallyNamespaceOutcomes. change 0 with (int32 0) at 1 2 3 4. by rewrite tally_fold. Qed.

Lemma countOutcome_total os :
  countOutcome NamespaceSucceeded os + countOutcome NamespaceFailed os
    + countOutcome NamespaceBlocked os + countOutcome NamespaceInFlight os
  = Z.of_nat (length os).
Proof.
  induction os as [|o os IH]; [done|]. rewrite !countOutcome_cons.
  destruct o; repeat case_decide; try done; cbn [length]; lia.
Qed.

Lemma countOutcome_bound o os : 0 <= countOutcome o os <= Z.of_nat (length os).
Proof. unfold countOutcome. pose proof (countb_le_length (outcomeIs o) os). lia. Qed.

Lemma countOutcome_zero o os : countOutcome o os = 0 <-> forall x, x ∈ os -> x <> o.
Proof.
  unfold countOutcome. rewrite (Nat2Z.inj_iff _ 0), countb_zero.
  unfold outcomeIs. by setoid_rewrite bool_decide_eq_false.
Qed.

Lemma countOutcome_elem o os : o ∈ os <-> 0 < countOutcome o os.
Proof.
  unfold countOutcome. rewrite <-(Nat2Z.inj_lt 0), countb_pos. unfold outcomeIs.
  setoid_rewrite bool_decide_eq_true. naive_solver.
Qed.

Lemma countOutcome_only (os : list NamespaceOutcome) (P : NamespaceOutcome -> Prop) :
  (forall o, o ∈ os -> P o) <-> (forall o, 0 < countOutcome o os -> P o).
Proof. by setoid_rewrite countOutcome_elem. Qed.

Lemma all_outcomes os :
  (forall o, o ∈ os -> o = NamespaceSucceeded) <->
  countOutcome NamespaceInFlight os <= 0 /\ countOutcome NamespaceFailed os <= 0
  /\ countOutcome NamespaceBlocked os <= 0.
Proof.
  rewrite countOutcome_only. split.
  - intros H. split_and!; apply Z.le_ngt; intros Hc; by apply H in Hc.
  - intros (? & ? & ?) [] ?; [lia|done|lia|lia].
Qed.

Lemma all_bad os :
  (forall o, o ∈ os -> o = NamespaceFailed \/ o = NamespaceBlocked) <->
  countOutcome NamespaceInFlight os <= 0 /\ countOutcome NamespaceSucceeded os <= 0.
Proof.
  rewrite countOutcome_only. split.
  - intros H. split; apply Z.le_ngt; intros Hc; by apply H in Hc as [|].
  - intros (? & ?) [] ?; [lia|lia|by left|by right].
Qed.

Lemma some_bad os :
  (exists o, o ∈ os /\ (o = NamespaceFailed \/ o = NamespaceBlocked)) <->
  0 < countOutcome NamespaceFailed os \/ 0 < countOutcome NamespaceBlocked os.
Proof. setoid_rewrite countOutcome_elem. naive_solver. Qed.

(** Below 2^31 namespaces the published counters are the true counts. *)
Lemma tally_exact os (Hlen : Z.of_nat (length os) < 2 ^ 31) :
  TallyNamespaceOutcomes os =
    mkClusterTally (Z.of_nat (length os))
      (countOutcome NamespaceSucceeded os) (countOutcome NamespaceFailed os)
      (countOutcome NamespaceBlocked os) (countOutcome NamespaceInFlight os).
Proof.
  rewrite TallyNamespaceOutcomes_eq.
  rewrite !int32_id; [done|..]; unfold in_int32;
    try match goal with |- context [countOutcome ?o ?l] => pose proof (countOutcome_bound o l) end; lia.
Qed.

(** ** Properties of the tallies *)

(** The counters of a ClusterBackup always sum up to the number of
    namespaces, even where the int32 counters have wrapped around. *)
Theorem TallyNamespaceOutcomes_sums_up (os : list NamespaceOutcome) :
  ClusterTally_SumsUp (TallyNamespaceOutcomes os) = true.
Proof.
  rewrite TallyNamespaceOutcomes_eq. unfold ClusterTally_SumsUp, ClusterTally_Counted; cbn.
  int_simpl. apply Z.eqb_eq. rewrite <-countOutcome_total. f_equal; lia.
Qed.

(** The phase of a cluster run: Pending with no namespace, Running while any
    namespace is in flight, and otherwise Completed, Failed or PartiallyFailed
    according to whether nothing, everything or something failed or was
    blocked.  The bound is the range of the int32 counters. *)
Theorem RollUpNamespaceOutcomes_spec (os : list NamespaceOutcome)
    (Hlen : Z.of_nat (length os) < 2 ^ 31) :
  let bad o := o = NamespaceFailed \/ o = NamespaceBlocked in
  (RollUpNamespaceOutcomes os = ClusterBackupPhasePending <-> os = [])
  /\ (RollUpNamespaceOutcomes os = ClusterBackupPhaseRunning <-> NamespaceInFlight ∈ os)
  /\ (RollUpNamespaceOutcomes os = ClusterBackupPhaseCompleted
        <-> os <> [] /\ forall o, o ∈ os -> o = NamespaceSucceeded)
  /\ (RollUpNamespaceOutcomes os = ClusterBackupPhaseFailed
        <-> os <> [] /\ forall o, o ∈ os -> bad o)
  /\ (RollUpNamespaceOutcomes os = ClusterBackupPhasePartiallyFailed
        <-> (NamespaceInFlight ∉ os) /\ (NamespaceSucceeded ∈ os) /\ exists o, o ∈ os /\ bad o).
Proof.
  cbv zeta. unfold RollUpNamespaceOutcomes. rewrite (tally_exact _ Hlen).
  cbn [ct_Namespaces ct_Succeeded ct_Failed ct_Blocked ct_InFlight].
  pose proof (countOutcome_total os) as Htot.
  assert (forall o, 0 <= countOutcome o os) as Hpos by (intros o; apply countOutcome_bound).
  pose proof (Hpos NamespaceSucceeded). pose proof (Hpos NamespaceFailed).
  pose proof (Hpos NamespaceBlocked). pose proof (Hpos NamespaceInFlight).
  rewrite int32_id by (unfold in_int32; lia).
  rewrite (all_outcomes os), (all_bad os), (some_bad os), !countOutcome_elem.
  rewrite <-(length_zero_iff_nil os).
  destruct (Nat.eqb_spec (length os) 0) as [E|E];
    [rewrite E in *; split_and!; split; intros; destruct_and?; try done; lia|].
  destruct (Z.ltb_spec 0 (countOutcome NamespaceInFlight os));
    [split_and!; split; intros; destruct_and?; try done; lia|].
  destruct (Z.eqb_spec (countOutcome NamespaceFailed os + countOutcome NamespaceBlocked os) 0);
    [split_and!; split; intros; destruct_and?; try done; try split; try lia|].
  destruct (Z.eqb_spec (countOutcome NamespaceSucceeded os) 0);
    split_and!; split; intros; destruct_and?; try done; try split; try lia.
Qed.

Example RollUpNamespaceOutcomes_spec_witness :
  let os := [NamespaceSucceeded; NamespaceBlocked; NamespaceSucceeded] in
  Z.of_nat (length os) < 2 ^ 31
  /\ RollUpNamespaceOutcomes os = ClusterBackupPhasePartiallyFailed.
Proof.
  split; [reflexivity|].
  apply (RollUpNamespaceOutcomes_spec [NamespaceSucceeded; NamespaceBlocked; NamespaceSucceeded]).
  - reflexivity.
  - split_and!.
    + rewrite !not_elem_of_cons. split_and!; try discriminate. apply not_elem_of_nil.
    + left.
    + exists NamespaceBlocked. split; [right; left|by right].
Defined.

(** ** Lemmas and properties: restores, erasures, failures *)

Definition countRestore (o : VolumeRestoreOutcome) (l : list VolumeRestoreOutcome) : Z :=
  Z.of_nat (countb (fun x => bool_decide (x = o)) l).

Lemma countRestore_cons o x l :
  countRestore o (x :: l) = (if decide (x = o) then 1 else 0) + countRestore o l.
Proof.
  unfold countRestore; simpl.
  destruct (decide (x = o)) as [->|Hne];
    [rewrite bool_decide_true by done|rewrite bool_decide_false by done]; cbn; lia.
Qed.

Lemma restoreTally_fold os p r f i :
  fold_left restoreTallyStep os (mkRestoreTally p (int32 r) (int32 f) (int32 i)) =
    mkRestoreTally p (int32 (r + countRestore VolumeRestoreRestored os))
      (int32 (f + countRestore VolumeRestoreFailed os))
      (int32 (i + countRestore VolumeRestoreInFlight os)).
Proof.
  revert r f i. induction os as [|o os IH]; intros r f i.
  - cbn. by rewrite !Z.add_0_r.
  - rewrite !countRestore_cons.
    destruct o; cbn -[Z.add countRestore decide]; int_simpl; rewrite IH;
      repeat case_decide; try done; f_equal; f_equal; lia.
Qed.

Lemma countRestore_total os :
  countRestore VolumeRestoreRestored os + countRestore VolumeRestoreFailed os
    + countRestore VolumeRestoreInFlight os = Z.of_nat (length os).
Proof.
  induction os as [|o os IH]; [done|]. rewrite !countRestore_cons.
  destruct o; repeat case_decide; try done; cbn [length]; lia.
Qed.

Lemma TallyVolumeRestoreOutcomes_eq os :
  TallyVolumeRestoreOutcomes os =
    mkRestoreTally (int32 (Z.of_nat (length os)))
      (int32 (countRestore VolumeRestoreRestored os)) (int32 (countRestore VolumeRestoreFailed os))
      (int32 (countRestore VolumeRestoreInFlight os)).
Proof.
  unfold TallyVolumeRestoreOutcomes. change 0 with (int32 0) at 1 2 3. by rewrite restoreTally_fold.
Qed.

(** A restore's counters sum up to its plan, and the settled count is the
    plan less what is in flight: no volume is counted twice or dropped. *)
Theorem TallyVolumeRestoreOutcomes_sums_up (os : list VolumeRestoreOutcome) :
  let t := TallyVolumeRestoreOutcomes os in
  RestoreTally_SumsUp t = true
  /\ RestoreTally_Settled t = (rt_Planned t -32 rt_InFlight t)%go
  /\ (Z.of_nat (length os) < 2 ^ 31 ->
      RestoreTally_Settled t =
        countRestore VolumeRestoreRestored os + countRestore VolumeRestoreFailed os).
Proof.
  cbv zeta. rewrite TallyVolumeRestoreOutcomes_eq. unfold RestoreTally_SumsUp, RestoreTally_Counted, RestoreTally_Settled.
  cbn [rt_Planned rt_Restored rt_Failed rt_InFlight].
  pose proof (countRestore_total os) as Ht. int_simpl. split_and!.
  - rewrite Ht. apply Z.eqb_refl.
  - f_equal. lia.
  - intros Hl. apply int32_id. unfold in_int32.
    unfold countRestore in *. lia.
Qed.

(** No erasure record overstates what was destroyed: for every measured scope
    the four constructors give non-negative counts that never claim more than
    the scope as forgotten, together account for at least the scope, and sum up
    to it exactly except where the observed residue exceeds it. *)
Theorem ErasureRecords_never_overstate (targeted remaining : Z)
    (Ht : 0 <= targeted < 2 ^ 31) (Hr : 0 <= remaining < 2 ^ 31) :
  (forall r, r = ErasureScopeMeasured targeted \/ r = ErasureFullyForgotten targeted
             \/ r = ErasureResidueUnverifiable targeted -> ErasureRecord_SumsUp r = true)
  /\ (let r := ErasureResidueObserved targeted remaining in
      0 <= er_Forgotten r <= targeted
      /\ er_Forgotten r + er_Remaining r >= targeted
      /\ (ErasureRecord_SumsUp r = true <-> remaining <= targeted)).
Proof.
  split.
  - intros r [->|[->| ->]]; unfold ErasureRecord_SumsUp, ErasureRecord_Counted; cbn;
      rewrite ?Z.add_0_r, int32_id by (unfold in_int32; lia); apply Z.eqb_refl.
  - unfold ErasureRecord_SumsUp, ErasureRecord_Counted, ErasureResidueObserved; cbn.
    rewrite (int32_id (targeted - remaining)) by (unfold in_int32; lia).
    split_and!; [lia..|]. rewrite Z.eqb_eq.
    destruct (Z.le_gt_cases remaining targeted) as [Hle|Hgt].
    + rewrite Z.max_l, int32_id by (unfold in_int32; lia). lia.
    + rewrite Z.max_r, int32_id by (unfold in_int32; lia). lia.
Qed.

Example ErasureRecords_never_overstate_witness :
  er_Forgotten (ErasureResidueObserved 10 6) = 4 /\ 0 <= er_Forgotten (ErasureResidueObserved 10 6) <= 10.
Proof.
  split; [reflexivity|].
  destruct (ErasureRecords_never_overstate 10 6) as [_ [H _]]; [lia|lia|]. exact H.
Defined.

Lemma AppendCappedFailure_take failures recs cap :
  0 < cap -> Z.of_nat (length failures) <= cap ->
  fold_left (fun fs r => AppendCappedFailure fs r cap) recs failures
    = take (Z.to_nat cap) (failures ++ recs).
Proof.
  intros Hc. revert failures. induction recs as [|r recs IH]; intros failures Hl.
  - rewrite app_nil_r. simpl. by rewrite take_ge by lia.
  - simpl. unfold AppendCappedFailure at 2.
    destruct (Z.leb_spec cap 0); [lia|].
    destruct (Z.leb_spec cap (Z.of_nat (length failures))).
    + rewrite IH by done. rewrite !take_app_le by lia. done.
    + rewrite IH by (rewrite length_app; simpl; lia). by rewrite <-app_assoc.
Qed.

(** A capped failure list keeps the first failures reported, in order and
    without loss up to the cap, whatever is appended afterwards; a cap that is
    not positive means [DefaultFailureCap]. *)
Theorem AppendCappedFailure_keeps_first (recs : list FailureRecord) (cap : Z) :
  fold_left (fun fs r => AppendCappedFailure fs r cap) recs []
    = take (Z.to_nat (if cap <=? 0 then DefaultFailureCap else cap)) recs.
Proof.
  destruct (Z.leb_spec cap 0) as [Hc|Hc].
  - trans (fold_left (fun fs r => AppendCappedFailure fs r DefaultFailureCap) recs []);
      [|by apply AppendCappedFailure_take].
    generalize (@nil FailureRecord). induction recs as [|r recs IH]; intros fs; [done|].
    simpl. rewrite IH. f_equal. unfold AppendCappedFailure.
    destruct (Z.leb_spec cap 0); [done|lia].
  - by rewrite AppendCappedFailure_take by (simpl; lia).
Qed.
