(* ===== verification/Api.v ===== *)
(** * Api: the API server as the storage controllers use it

    Typed objects of the kinds the exposers, the restore exposer and the reaper
    handle, and the requests of controller-runtime's client as an [interface]: the
    answers are whatever the server says.  A [resource.Quantity] is a number of
    bytes.  Of an object only the fields the program reads or writes are here. *)

From S2P Require Import Prelude GoText Program Cluster Status.
From Stdlib Require Import Ascii String.

#[local] Open Scope string_scope.

(** ** Metadata *)

Record Meta := mkMeta {
  m_Namespace : string;
  m_Name : string;
  m_UID : string;
  m_Labels : labels;
  m_Annotations : labels;
  m_Created : Z;                (* CreationTimestamp; [zero_time] when absent *)
  m_Deleting : bool;            (* a non-zero DeletionTimestamp *)
  m_Finalizers : list string
}.

(** The metadata of an object that is about to be created. *)
Definition newMeta (ns name : string) (ls : labels) : Meta :=
  mkMeta ns name "" ls ∅ zero_time false [].

Definition set_m_labels (ls : labels) (m : Meta) : Meta :=
  mkMeta (m_Namespace m) (m_Name m) (m_UID m) ls (m_Annotations m) (m_Created m) (m_Deleting m) (m_Finalizers m).
Definition set_m_annotations (ls : labels) (m : Meta) : Meta :=
  mkMeta (m_Namespace m) (m_Name m) (m_UID m) (m_Labels m) ls (m_Created m) (m_Deleting m) (m_Finalizers m).

(** A field read with [unstructured.NestedX]: absent, there with the type asked
    for, or an error since some value along the path has another type. *)
Inductive nested (A : Type) := NAbsent | NFound (a : A) | NBad (e : string).
Arguments NAbsent {A}.
Arguments NFound {A} a.
Arguments NBad {A} e.

(** The value and the error; an absent string reads as "", an absent bool as false. *)
Definition NestedString (f : nested string) : result string :=
  match f with NAbsent => Ok "" | NFound s => Ok s | NBad e => Err (errorf e) end.
Definition NestedBool (f : nested bool) : result bool :=
  match f with NAbsent => Ok false | NFound b => Ok b | NBad e => Err (errorf e) end.

(** ** Bodies *)

Record VolumeSnapshot := mkVolumeSnapshot {
  vs_ClassName : option string;             (* spec.volumeSnapshotClassName *)
  vs_SourcePVC : option string;             (* spec.source.persistentVolumeClaimName *)
  vs_SourceContent : option string;         (* spec.source.volumeSnapshotContentName *)
  vs_readyToUse : nested bool;              (* status *)
  vs_boundContent : nested string;          (* status.boundVolumeSnapshotContentName *)
  vs_restoreSize : nested string;
  vs_error : nested unit;
  vs_creationTime : nested string
}.

Record VolumeSnapshotContent := mkVolumeSnapshotContent {
  vsc_deletionPolicy : nested string;
  vsc_driver : nested string;
  vsc_sourceHandle : nested string;         (* spec.source.snapshotHandle *)
  vsc_ref : option (string * string);       (* spec.volumeSnapshotRef: namespace, name *)
  vsc_snapshotHandle : nested string        (* status.snapshotHandle *)
}.

(** A parameter of a VolumeSnapshotClass: a string, null, or something else that
    [fmt] prints as a text. *)
Inductive parameter := PString (s : string) | PNull | POther (printed : string).

Record VolumeSnapshotClass := mkVolumeSnapshotClass {
  vc_driver : nested string;
  vc_parameters : nested (gmap string parameter)
}.

Record DataSource := mkDataSource { ds_APIGroup : option string; ds_Kind : string; ds_Name : string }.

Record PersistentVolumeClaim := mkPersistentVolumeClaim {
  pc_AccessModes : list string;
  pc_StorageClassName : option string;
  pc_Storage : Z;                           (* spec.resources.requests.storage *)
  pc_VolumeName : string;
  pc_VolumeMode : option string;
  pc_DataSource : option DataSource;
  pc_Phase : string                         (* status.phase *)
}.

(** The one volume source of a PersistentVolume. *)
Inductive PVSource :=
| SourceCSI (driver handle : string)
| SourceNFS | SourceHostPath | SourceLocal | SourceISCSI | SourceFC
| SourceOther (what : string).

Record PersistentVolume := mkPersistentVolume {
  pv_Source : PVSource;
  pv_Capacity : Z;                          (* spec.capacity.storage *)
  pv_AccessModes : list string;
  pv_ReclaimPolicy : string;
  pv_StorageClassName : string;
  pv_MountOptions : list string;
  pv_VolumeMode : option string;
  pv_NodeAffinity : option string;          (* opaque *)
  pv_ClaimRef : option (string * string);   (* namespace, name *)
  pv_Phase : string
}.

Record StorageClass := mkStorageClass { sc_Provisioner : string; sc_ReclaimPolicy : option string }.

Record JobStatus := mkJobStatus { js_Succeeded : Z; js_Failed : Z; js_Conditions : list JobCondition }.

(** What the storage code reads of a Backup, a Restore or a ClusterRestore. *)
Record BackupView := mkBackupView {
  bv_Phase : string;
  bv_Volumes : list VolumeStatus;
  bv_BackupTime : option Z;                 (* status.backupTime *)
  bv_Location : string * string             (* spec.locationRef: kind, name *)
}.
Record RestoreView := mkRestoreView { rv_Phase : string }.

Record VolumeAttachment := mkVolumeAttachment {
  va_PersistentVolumeName : option string;
  va_NodeName : string;
  va_Attached : bool
}.

(** The conditions of a Node: type and status. *)
Record Node := mkNode { nd_Conditions : list (string * string) }.

(** ** Kinds and objects *)

Inductive kind :=
| KVolumeSnapshot | KVolumeSnapshotContent | KVolumeSnapshotClass | KPVC | KPV | KStorageClass | KSecret | KJob
| KRoleBinding | KClusterRoleBinding | KBackup | KRestore | KClusterRestore | KVolumeAttachment | KNode.

#[global] Instance kind_eq_dec : EqDecision kind.
Proof. solve_decision. Defined.

Definition body (k : kind) : Type :=
  match k with
  | KVolumeSnapshot => VolumeSnapshot
  | KVolumeSnapshotContent => VolumeSnapshotContent
  | KVolumeSnapshotClass => VolumeSnapshotClass
  | KPVC => PersistentVolumeClaim
  | KPV => PersistentVolume
  | KStorageClass => StorageClass
  | KSecret | KRoleBinding | KClusterRoleBinding => unit
  | KJob => JobStatus
  | KBackup => BackupView
  | KRestore | KClusterRestore => RestoreView
  | KVolumeAttachment => VolumeAttachment
  | KNode => Node
  end.

Record Object (k : kind) := mkObject { o_meta : Meta; o_body : body k }.
Arguments mkObject {k} o_meta o_body.
Arguments o_meta {k} o.
Arguments o_body {k} o.

Definition o_name {k} (o : Object k) : string := m_Name (o_meta o).
Definition o_namespace {k} (o : Object k) : string := m_Namespace (o_meta o).
Definition o_labels {k} (o : Object k) : labels := m_Labels (o_meta o).

Definition set_o_labels {k} (ls : labels) (o : Object k) : Object k :=
  mkObject (set_m_labels ls (o_meta o)) (o_body o).

(** [ns/name], as the messages name an object. *)
Definition slash (ns name : string) : string := ns ++ "/" ++ name.

(** Values of the core API. *)
Definition ReadWriteOnce : string := "ReadWriteOnce".
Definition ReadOnlyMany : string := "ReadOnlyMany".
Definition ClaimBound : string := "Bound".
Definition VolumeBound : string := "Bound".
Definition ReclaimRetain : string := "Retain".
Definition ReclaimDelete : string := "Delete".
Definition VolumeModeBlock : string := "Block".

(** An object by kind, namespace ("" for a cluster-scoped kind) and name. *)
Record key := mkKey { k_kind : kind; k_namespace : string; k_name : string }.

#[global] Instance key_eq_dec : EqDecision key.
Proof. solve_decision. Defined.

Definition keyOf {k} (o : Object k) : key := mkKey k (o_namespace o) (o_name o).

(** ** List options *)

Record selector := mkSelector {
  sel_Namespace : option string;            (* client.InNamespace *)
  sel_Labels : labels;                      (* client.MatchingLabels *)
  sel_Has : list string                     (* client.HasLabels *)
}.

Definition everything : selector := mkSelector None ∅ [].

(** What the server lists: the objects a selector matches. *)
Definition selects (s : selector) (m : Meta) : bool :=
  match sel_Namespace s with Some ns => m_Namespace m =? ns | None => true end
  && bool_decide (sel_Labels s ⊆ m_Labels m)
  && forallb (fun k => bool_decide (is_Some (m_Labels m !! k))) (sel_Has s).

(** ** Requests *)

Inductive request :=
| AGet (k : kind) (ns name : string)
| AList (k : kind) (sel : selector)
| ACreate (k : kind) (o : Object k)
| APatch (k : kind) (base o : Object k)     (* client.MergeFrom(base) *)
| ADelete (k : kind) (ns name : string)
| ANow
| AEmit (k : kind) (ns name : string) (etype reason action note : string).

Definition response (r : request) : Type :=
  match r with
  | AGet k _ _ => result (Object k)
  | AList k _ => result (list (Object k))
  | ACreate k _ | APatch k _ _ => result (Object k)
  | ADelete _ _ _ => option gerr
  | ANow => Z
  | AEmit _ _ _ _ _ _ _ => unit
  end.

Definition kube : interface := mkInterface request response.
Notation api := (prog kube).
Notation happening := (event kube).

Definition get (k : kind) (ns name : string) : api (result (Object k)) := call (I := kube) (AGet k ns name).
Definition list_ (k : kind) (sel : selector) : api (result (list (Object k))) := call (I := kube) (AList k sel).
Definition create (k : kind) (o : Object k) : api (result (Object k)) := call (I := kube) (ACreate k o).
Definition patch (k : kind) (base o : Object k) : api (result (Object k)) := call (I := kube) (APatch k base o).
Definition delete (k : kind) (ns name : string) : api (option gerr) := call (I := kube) (ADelete k ns name).
Definition now : api Z := call (I := kube) ANow.

(** [apierrors.IsNotFound(err) || apimeta.IsNoMatchError(err)]. *)
Definition absentOK (e : gerr) : bool := IsNotFound e || IsNoMatchError e.

(** [if err := p; err != nil && !tolerate(err) { return fmt.Errorf(text, err) }; k]. *)
Definition must {A} (p : api (option gerr)) (tolerate : gerr -> bool) (text : string)
    (k : api (result A)) : api (result A) :=
  let! err := p in
  match err with
  | Some e => if tolerate e then k else Done (Err (wrap_err text e))
  | None => k
  end.

(** [if err := c.Create(obj); err != nil && !IsAlreadyExists(err) { ... }; k]. *)
Definition mustCreate {A} (k : kind) (o : Object k) (text : string) (rest : api (result A)) : api (result A) :=
  let! r := create k o in
  match r with
  | Err e => if IsAlreadyExists e then rest else Done (Err (wrap_err text e))
  | Ok _ => rest
  end.

(** [if err := c.Patch(obj, MergeFrom(base)); err != nil { ... }; rest]. *)
Definition mustPatch {A} (k : kind) (base o : Object k) (text : string) (rest : Object k -> api (result A))
    : api (result A) :=
  let! r := patch k base o in
  match r with
  | Err e => Done (Err (wrap_err text e))
  | Ok o => rest o
  end.

(** ** Events *)

(** A deletion of the object of a key was asked for and accepted, or the object
    was not there. *)
Definition deleted (tolerate : gerr -> bool) (x : key) (e : happening) : bool :=
  match e with
  | Ev (ADelete k ns name) err =>
      bool_decide (mkKey k ns name = x) && match err with None => true | Some e => tolerate e end
  | _ => false
  end.

Definition asksDelete (x : key) (e : happening) : bool :=
  match ev_action e with ADelete k ns name => bool_decide (mkKey k ns name = x) | _ => false end.

Definition isDelete (e : happening) : bool :=
  match ev_action e with ADelete _ _ _ => true | _ => false end.

(** The objects a trace creates. *)
Definition creation (e : happening) : option key :=
  match ev_action e with ACreate k o => Some (keyOf o) | _ => None end.

Definition createsIn (l : list key) (e : happening) : Prop :=
  match creation e with Some x => x ∈ l | None => True end.

Definition passive (e : happening) : bool :=
  match ev_action e with ACreate _ _ | ADelete _ _ _ => false | _ => true end.

Lemma passive_creates l tr : forallb passive tr = true -> Forall (createsIn l) tr.
Proof.
  rewrite forallb_elem, Forall_forall. intros H e He. specialize (H e He).
  unfold passive, createsIn, creation in *. by destruct (ev_action e).
Qed.

Lemma passive_deletes d tr : forallb passive tr = true -> Forall (fun e => asksDelete d e = false) tr.
Proof.
  rewrite forallb_elem, Forall_forall. intros H e He. specialize (H e He).
  unfold passive, asksDelete in *. by destruct (ev_action e).
Qed.

(** The server answered as Kubernetes documents: a listing holds matching objects
    only, a Get gives the object that was asked for. *)
Definition documentedb (e : happening) : bool :=
  match e with
  | Ev (AList k sel) (Ok items) => forallb (fun o => selects sel (o_meta o)) items
  | Ev (AGet k ns name) (Ok o) => (o_namespace o =? ns) && (o_name o =? name)
  | _ => true
  end.

Definition documented (e : happening) : Prop := documentedb e = true.

Lemma Forall_documented tr : forallb documentedb tr = true -> Forall documented tr.
Proof. rewrite forallb_elem, Forall_forall. done. Qed.

Lemma documented_list k sel items o :
  documented (Ev (I := kube) (AList k sel) (Ok items)) -> o ∈ items -> selects sel (o_meta o) = true.
Proof. unfold documented. cbn. rewrite forallb_elem. auto. Qed.

Lemma runs_get k ns name tr r : runs (get k ns name) tr r <-> tr = [Ev (I := kube) (AGet k ns name) r].
Proof. apply (runs_call (I := kube)). Qed.

Lemma runs_list k sel tr r : runs (list_ k sel) tr r <-> tr = [Ev (I := kube) (AList k sel) r].
Proof. apply (runs_call (I := kube)). Qed.

Lemma runs_delete k ns name tr r : runs (delete k ns name) tr r <-> tr = [Ev (I := kube) (ADelete k ns name) r].
Proof. apply (runs_call (I := kube)). Qed.

Lemma runs_must {A} p tolerate text (k : api (result A)) tr r :
  runs (must p tolerate text k) tr r <->
  exists tr1 tr2 err, tr = (tr1 ++ tr2)%list /\ runs p tr1 err
    /\ match err with
       | Some e => if tolerate e then runs k tr2 r else tr2 = [] /\ r = Err (wrap_err text e)
       | None => runs k tr2 r
       end.
Proof.
  unfold must. rewrite runs_bind. split; intros (tr1 & tr2 & err & -> & H1 & H2); exists tr1, tr2, err;
    split_and!; try done; destruct err as [e|]; try done; by destruct (tolerate e).
Qed.

(** A server that answers from two tables and accepts every write, at the time 0:
    for evaluating a program. *)
Definition plainServer (gets : forall k, string -> string -> result (Object k))
    (lists : forall k, selector -> result (list (Object k))) : server kube :=
  fun _ o =>
    match o return response o with
    | AGet k ns name => gets k ns name
    | AList k sel => lists k sel
    | ACreate k o => Ok o
    | APatch k _ o => Ok o
    | ADelete _ _ _ => None
    | ANow => 0%Z
    | AEmit _ _ _ _ _ _ _ => tt
    end.
