(* ===== verification/Exposer.v ===== *)
(** * Exposer: the snapshot of a claim, re-bound into the operator's namespace
    (internal/exposer/)

    An exposure takes a snapshot of a tenant's claim, makes its storage snapshot
    available in the operator's namespace through a static content and snapshot, and
    clones a claim from it for the mover.  [ready] drives the handover, [cleanup]
    takes it apart, the [Registry] chooses the implementation of a claim. *)

From Stdlib Require Import Ascii String Sorted.
From S2P Require Import Prelude GoText Program Cluster Status Api.

#[local] Open Scope string_scope.
#[local] Notation length := List.length.

(** ** Requests, exposures, names *)

Definition KindCSIGeneric : string := "csi-generic".
Definition KindCephFSShallow : string := "cephfs-shallow".

Record ExposeRequest := mkExposeRequest {
  er_Namespace : string;
  er_PVCName : string;
  er_StorageClass : string;
  er_Capacity : Z;
  er_NamePrefix : string;
  er_Labels : labels
}.

Record Exposure := mkExposure {
  ex_Kind : string;
  ex_OriginNamespace : string;
  ex_OperatorNamespace : string;
  ex_OriginVSName : string;
  ex_StaticVSCName : string;
  ex_StaticVSName : string;
  ex_TempPVCName : string;
  ex_ExposedPVCName : string;
  ex_StorageClass : string;
  ex_Capacity : Z;
  ex_Labels : labels
}.

Definition volumeSnapshotGroup : string := "snapshot.storage.k8s.io".
Definition dataSourceKindVolumeSnapshot : string := "VolumeSnapshot".
Definition deletionPolicyRetain : string := "Retain".
Definition deletionPolicyDelete : string := "Delete".

Definition volumeSnapshotName (prefix : string) : string := prefix ++ "-snap".
Definition staticVSCName (prefix : string) : string := prefix ++ "-vsc".
Definition staticVSName (prefix : string) : string := prefix ++ "-restore".
Definition tempPVCName (prefix : string) : string := prefix ++ "-clone".

(** ** Builders *)

Definition freshVolumeSnapshot (class sourcePVC sourceContent : option string) : VolumeSnapshot :=
  mkVolumeSnapshot class sourcePVC sourceContent NAbsent NAbsent NAbsent NAbsent NAbsent.

Definition buildVolumeSnapshot (req : ExposeRequest) (volumeSnapshotClass : string) : Object KVolumeSnapshot :=
  mkObject (k := KVolumeSnapshot) (newMeta (er_Namespace req) (volumeSnapshotName (er_NamePrefix req)) (er_Labels req))
    (freshVolumeSnapshot (Some volumeSnapshotClass) (Some (er_PVCName req)) None).

Definition newTempPVCFromSnapshot (ex : Exposure) (capacity : Z) (accessMode : string) : Object KPVC :=
  mkObject (k := KPVC) (newMeta (ex_OperatorNamespace ex) (ex_TempPVCName ex) (ex_Labels ex))
    (mkPersistentVolumeClaim [accessMode] (Some (ex_StorageClass ex)) capacity "" None
      (Some (mkDataSource (Some volumeSnapshotGroup) dataSourceKindVolumeSnapshot (ex_StaticVSName ex))) "").

Definition buildTempPVC (ex : Exposure) (capacity : Z) : Object KPVC :=
  newTempPVCFromSnapshot ex capacity ReadWriteOnce.

Definition buildShallowPVC (ex : Exposure) (capacity : Z) : Object KPVC :=
  newTempPVCFromSnapshot ex capacity ReadOnlyMany.

Definition buildStaticVolumeSnapshotContent (ex : Exposure) (driver snapshotHandle : string)
    : Object KVolumeSnapshotContent :=
  mkObject (k := KVolumeSnapshotContent) (newMeta "" (ex_StaticVSCName ex) (ex_Labels ex))
    (mkVolumeSnapshotContent (NFound deletionPolicyRetain) (NFound driver) (NFound snapshotHandle)
      (Some (ex_OperatorNamespace ex, ex_StaticVSName ex)) NAbsent).

Definition buildStaticVolumeSnapshot (ex : Exposure) : Object KVolumeSnapshot :=
  mkObject (k := KVolumeSnapshot) (newMeta (ex_OperatorNamespace ex) (ex_StaticVSName ex) (ex_Labels ex))
    (freshVolumeSnapshot None None (Some (ex_StaticVSCName ex))).

(** The labels with those of [add] that are missing or different set, and whether
    there was one. *)
Definition mergeLabels (ls add : labels) : labels * bool :=
  let new := filter (fun kv => lget ls kv.1 <> kv.2) add in
  (new ∪ ls, bool_decide (new <> ∅)).

(** [resource.ParseQuantity], of apimachinery, and [time.Parse] of an RFC 3339 text. *)
Record parsers := mkParsers {
  ParseQuantity : string -> option Z;
  parseRFC3339 : string -> option Z
}.

Definition set_deletionPolicy (p : string) (o : Object KVolumeSnapshotContent) : Object KVolumeSnapshotContent :=
  mkObject (k := KVolumeSnapshotContent) (o_meta o)
    (mkVolumeSnapshotContent (NFound p) (vsc_driver (o_body o)) (vsc_sourceHandle (o_body o)) (vsc_ref (o_body o))
      (vsc_snapshotHandle (o_body o))).

(** ** Expose *)

Definition expose (kind : string) (req : ExposeRequest) (operatorNamespace volumeSnapshotClass : string)
    : api (result Exposure) :=
  let snap := buildVolumeSnapshot req volumeSnapshotClass in
  mustCreate KVolumeSnapshot snap
    ("exposer(" ++ kind ++ "): create origin VolumeSnapshot " ++ slash (er_Namespace req) (o_name snap))
    (let prefix := er_NamePrefix req in
     Done (Ok (mkExposure kind (er_Namespace req) operatorNamespace (volumeSnapshotName prefix)
       (staticVSCName prefix) (staticVSName prefix) (tempPVCName prefix) (tempPVCName prefix)
       (er_StorageClass req) (er_Capacity req) (er_Labels req)))).

Definition deriveExposure (originNamespace operatorNamespace namePrefix : string) (ls : labels) : Exposure :=
  mkExposure "" originNamespace operatorNamespace (volumeSnapshotName namePrefix) (staticVSCName namePrefix)
    (staticVSName namePrefix) (tempPVCName namePrefix) (tempPVCName namePrefix) "" 0 ls.

(** ** Ready *)

Section Ready.
Variable P : parsers.

Definition readRestoreSize (originVS : VolumeSnapshot) : option Z :=
  match vs_restoreSize originVS with
  | NFound raw => if raw =? "" then None else ParseQuantity P raw
  | _ => None
  end.

Definition resolveTempPVCCapacity (requested : Z) (originVS : VolumeSnapshot) : Z :=
  match readRestoreSize originVS with
  | Some restore => if (requested <? restore)%Z then restore else requested
  | None => requested
  end.

Definition volumeSnapshotReady (namespace name : string) : api (result bool) :=
  let! r := get KVolumeSnapshot namespace name in
  match r with
  | Err e =>
      if IsNotFound e then Done (Ok false)
      else Done (Err (wrap_err ("get VolumeSnapshot " ++ slash namespace name) e))
  | Ok got =>
      match NestedBool (vs_readyToUse (o_body got)) with
      | Err e => Done (Err (wrap_err ("read status.readyToUse of VolumeSnapshot " ++ slash namespace name) e))
      | Ok ready => Done (Ok ready)
      end
  end.

(** The write of a handover, when one is needed. *)
Definition patchOriginVSCForHandover {A} (vsc : Object KVolumeSnapshotContent) (ls : labels)
    (rest : api (result A)) : api (result A) :=
  match NestedString (vsc_deletionPolicy (o_body vsc)) with
  | Err e => Done (Err (wrap_err ("read origin VolumeSnapshotContent " ++ o_name vsc ++ " spec.deletionPolicy") e))
  | Ok dp =>
      let retained := if dp =? deletionPolicyRetain then vsc else set_deletionPolicy deletionPolicyRetain vsc in
      let '(merged, labelled) := mergeLabels (o_labels vsc) ls in
      if negb (dp =? deletionPolicyRetain) || labelled then
        mustPatch KVolumeSnapshotContent vsc (set_o_labels merged retained)
          ("patch origin VolumeSnapshotContent " ++ o_name vsc ++ " to Retain for handover") (fun _ => rest)
      else rest
  end.

(** Steps 4 to 7, once the origin content is guarded. *)
Definition rebind (ex : Exposure) (build : Exposure -> Z -> Object KPVC) (originVS : VolumeSnapshot)
    (driver snapshotHandle : string) : api (result bool) :=
  mustCreate KVolumeSnapshotContent (buildStaticVolumeSnapshotContent ex driver snapshotHandle)
    ("create static VolumeSnapshotContent " ++ ex_StaticVSCName ex)
  (mustCreate KVolumeSnapshot (buildStaticVolumeSnapshot ex)
    ("create static VolumeSnapshot " ++ slash (ex_OperatorNamespace ex) (ex_StaticVSName ex))
  (mustCreate KPVC (build ex (resolveTempPVCCapacity (ex_Capacity ex) originVS))
    ("create temp PVC " ++ slash (ex_OperatorNamespace ex) (ex_TempPVCName ex))
  (let! staticReady := volumeSnapshotReady (ex_OperatorNamespace ex) (ex_StaticVSName ex) in
   match staticReady with
   | Err e => Done (Err e)
   | Ok false => Done (Ok false)
   | Ok true =>
       let! r := get KPVC (ex_OperatorNamespace ex) (ex_TempPVCName ex) in
       match r with
       | Err e =>
           if IsNotFound e then Done (Ok false)
           else Done (Err (wrap_err ("get temp PVC " ++ slash (ex_OperatorNamespace ex) (ex_TempPVCName ex)) e))
       | Ok pvc => Done (Ok (pc_Phase (o_body pvc) =? ClaimBound))
       end
   end))).

Definition ready (build : Exposure -> Z -> Object KPVC) (ex : Exposure) : api (result bool) :=
  let origin := slash (ex_OriginNamespace ex) (ex_OriginVSName ex) in
  let! r := get KVolumeSnapshot (ex_OriginNamespace ex) (ex_OriginVSName ex) in
  match r with
  | Err e =>
      if IsNotFound e then Done (Ok false)
      else Done (Err (wrap_err ("get origin VolumeSnapshot " ++ origin) e))
  | Ok originVS =>
      match NestedBool (vs_readyToUse (o_body originVS)) with
      | Err e => Done (Err (wrap_err ("read origin VolumeSnapshot " ++ origin ++ " status.readyToUse") e))
      | Ok false => Done (Ok false)
      | Ok true =>
          match NestedString (vs_boundContent (o_body originVS)) with
          | Err e => Done (Err (wrap_err ("read origin VolumeSnapshot " ++ origin ++ " boundVolumeSnapshotContentName") e))
          | Ok boundVSCName =>
              if boundVSCName =? "" then Done (Ok false)
              else
                let! r := get KVolumeSnapshotContent "" boundVSCName in
                match r with
                | Err e =>
                    if IsNotFound e then Done (Ok false)
                    else Done (Err (wrap_err ("get origin VolumeSnapshotContent " ++ boundVSCName) e))
                | Ok originVSC =>
                    match NestedString (vsc_driver (o_body originVSC)) with
                    | Err e => Done (Err (wrap_err ("read origin VolumeSnapshotContent " ++ boundVSCName ++ " spec.driver") e))
                    | Ok driver =>
                        match NestedString (vsc_snapshotHandle (o_body originVSC)) with
                        | Err e => Done (Err (wrap_err ("read origin VolumeSnapshotContent " ++ boundVSCName
                                     ++ " status.snapshotHandle") e))
                        | Ok snapshotHandle =>
                            if (driver =? "") || (snapshotHandle =? "") then Done (Ok false)
                            else
                              patchOriginVSCForHandover originVSC (ex_Labels ex)
                                (rebind ex build (o_body originVS) driver snapshotHandle)
                        end
                    end
                end
          end
      end
  end.

(** ** Progress *)

Record SnapshotProgress := mkSnapshotProgress { sp_StartedAt : Z; sp_Acknowledged : bool }.

Definition originProgress (ex : Exposure) : api (option SnapshotProgress) :=
  let! r := get KVolumeSnapshot (ex_OriginNamespace ex) (ex_OriginVSName ex) in
  match r with
  | Err _ => Done None
  | Ok vs =>
      if time_is_zero (m_Created (o_meta vs)) then Done None
      else
        match NestedString (vs_boundContent (o_body vs)) with
        | Err _ => Done None
        | Ok boundContent =>
            match vs_error (o_body vs) with
            | NBad _ => Done None
            | err =>
                let hasError := match err with NFound _ => true | _ => false end in
                Done (Some (mkSnapshotProgress (m_Created (o_meta vs)) (negb (boundContent =? "") || hasError)))
            end
        end
  end.

Definition StartedAt (ex : Exposure) : api (option Z) :=
  let! r := get KVolumeSnapshot (ex_OriginNamespace ex) (ex_OriginVSName ex) in
  match r with
  | Err _ => Done None
  | Ok vs => if time_is_zero (m_Created (o_meta vs)) then Done None else Done (Some (m_Created (o_meta vs)))
  end.

Definition CutAt (ex : Exposure) : api (option Z) :=
  let! r := get KVolumeSnapshot (ex_OriginNamespace ex) (ex_OriginVSName ex) in
  match r with
  | Err _ => Done None
  | Ok vs =>
      match vs_creationTime (o_body vs) with
      | NFound raw => if raw =? "" then Done None else Done (parseRFC3339 P raw)
      | _ => Done None
      end
  end.
End Ready.

(** ** Cleanup *)

Definition deletePVC {A} (namespace name : string) (rest : api (result A)) : api (result A) :=
  must (delete KPVC namespace name) IsNotFound ("delete temp PVC " ++ slash namespace name) rest.

Definition deleteVolumeSnapshot {A} (namespace name : string) (rest : api (result A)) : api (result A) :=
  must (delete KVolumeSnapshot namespace name) absentOK ("delete VolumeSnapshot " ++ slash namespace name) rest.

Definition deleteVolumeSnapshotContent {A} (name : string) (rest : api (result A)) : api (result A) :=
  must (delete KVolumeSnapshotContent "" name) absentOK ("delete VolumeSnapshotContent " ++ name) rest.

Definition setOriginVSCToDelete {A} (vsc : Object KVolumeSnapshotContent) (rest : api (result A)) : api (result A) :=
  match NestedString (vsc_deletionPolicy (o_body vsc)) with
  | Err e => Done (Err (wrap_err ("read origin VolumeSnapshotContent " ++ o_name vsc ++ " spec.deletionPolicy") e))
  | Ok dp =>
      if dp =? deletionPolicyDelete then rest
      else
        mustPatch KVolumeSnapshotContent vsc (set_deletionPolicy deletionPolicyDelete vsc)
          ("restore origin VolumeSnapshotContent " ++ o_name vsc ++ " deletionPolicy to Delete") (fun _ => rest)
  end.

Definition restoreOriginVSCByName {A} (name : string) (rest : api (result A)) : api (result A) :=
  let! r := get KVolumeSnapshotContent "" name in
  match r with
  | Err e => if IsNotFound e then rest else Done (Err (wrap_err ("get origin VolumeSnapshotContent " ++ name) e))
  | Ok vsc => setOriginVSCToDelete vsc rest
  end.

(** The loop over the contents with the exposure's labels. *)
Fixpoint reclaimEach (ex : Exposure) (items : list (Object KVolumeSnapshotContent)) : api (result unit) :=
  match items with
  | [] => Done (Ok tt)
  | item :: items =>
      if o_name item =? ex_StaticVSCName ex then reclaimEach ex items
      else
        setOriginVSCToDelete item
          (must (delete KVolumeSnapshotContent (o_namespace item) (o_name item)) IsNotFound
            ("delete orphaned origin VolumeSnapshotContent " ++ o_name item) (reclaimEach ex items))
  end.

Definition reclaimOrphanOriginVSC (ex : Exposure) : api (result unit) :=
  match map_to_list (ex_Labels ex) with
  | [] => Done (Ok tt)
  | kvs =>
      match List.find (fun kv => snd kv =? "") kvs with
      | Some (key, _) =>
          Done (Err (errorf ("exposure label " ++ quoted key ++ " has an empty value, so no selector built from these"
            ++ " labels can identify this exposure's origin VolumeSnapshotContent: refusing the"
            ++ " crash-window reclaim and leaving it to the orphan reaper")))
      | None =>
          let! r := list_ KVolumeSnapshotContent (mkSelector None (ex_Labels ex) []) in
          match r with
          | Err e =>
              if IsNoMatchError e then Done (Ok tt)
              else Done (Err (wrap_err "list origin VolumeSnapshotContents by exposure labels" e))
          | Ok items => reclaimEach ex items
          end
      end
  end.

Definition reclaimOrigin (ex : Exposure) : api (result unit) :=
  let origin := slash (ex_OriginNamespace ex) (ex_OriginVSName ex) in
  let! r := get KVolumeSnapshot (ex_OriginNamespace ex) (ex_OriginVSName ex) in
  match r with
  | Ok originVS =>
      match NestedString (vs_boundContent (o_body originVS)) with
      | Err e => Done (Err (wrap_err ("read origin VolumeSnapshot " ++ origin ++ " boundVolumeSnapshotContentName") e))
      | Ok boundVSCName =>
          let deleteOrigin := deleteVolumeSnapshot (ex_OriginNamespace ex) (ex_OriginVSName ex) (Done (Ok tt)) in
          if boundVSCName =? "" then deleteOrigin else restoreOriginVSCByName boundVSCName deleteOrigin
      end
  | Err e =>
      if IsNotFound e then reclaimOrphanOriginVSC ex
      else if IsNoMatchError e then Done (Ok tt)
      else Done (Err (wrap_err ("get origin VolumeSnapshot " ++ origin) e))
  end.

Definition cleanup (ex : Exposure) : api (result unit) :=
  deletePVC (ex_OperatorNamespace ex) (ex_TempPVCName ex)
  (deleteVolumeSnapshot (ex_OperatorNamespace ex) (ex_StaticVSName ex)
  (deleteVolumeSnapshotContent (ex_StaticVSCName ex)
  (reclaimOrigin ex))).

Definition TeardownExposure (originNamespace operatorNamespace namePrefix : string) (ls : labels)
    : api (result unit) :=
  cleanup (deriveExposure originNamespace operatorNamespace namePrefix ls).

(** ** Reaping one content *)

Definition IsPreProvisionedContent (vsc : Object KVolumeSnapshotContent) : bool :=
  match vsc_sourceHandle (o_body vsc) with NFound handle => negb (handle =? "") | _ => false end.

Definition PrepareOrphanVolumeSnapshotContentForReclaim (vsc : Object KVolumeSnapshotContent) : api (result unit) :=
  if IsPreProvisionedContent vsc then Done (Ok tt) else setOriginVSCToDelete vsc (Done (Ok tt)).

Definition ReapOrphanVolumeSnapshotContent (vsc : Object KVolumeSnapshotContent) : api (result unit) :=
  let! r := PrepareOrphanVolumeSnapshotContentForReclaim vsc in
  match r with
  | Err e => Done (Err e)
  | Ok tt =>
      must (delete KVolumeSnapshotContent (o_namespace vsc) (o_name vsc)) absentOK
        ("delete orphaned VolumeSnapshotContent " ++ o_name vsc) (Done (Ok tt))
  end.

(** ** Precheck *)

Definition snapshotterSecretNameParam : string := "csi.storage.k8s.io/snapshotter-secret-name".
Definition snapshotterSecretNamespaceParam : string := "csi.storage.k8s.io/snapshotter-secret-namespace".
Definition csiTemplateMarker : string := "${".
Definition checkSnapshotterSecret : string := "SnapshotterSecret".
Definition reasonSnapshotterSecretMissing : string := "SnapshotterSecretMissing".

Inductive CheckStatus := CheckOK | CheckFailed | CheckNotCheckable.

Record Check := mkCheck { ck_Name : string; ck_Status : CheckStatus; ck_Detail : string }.

Record PrecheckResult := mkPrecheckResult {
  pr_OK : bool;
  pr_Reason : string;
  pr_Message : string;
  pr_Checks : list Check
}.

(** [PrecheckResult.Err]: an error that wraps [ErrPrecheckFailed]. *)
Definition PrecheckResult_Err (r : PrecheckResult) : option gerr :=
  if pr_OK r then None
  else Some (mkErr EPrecheckFailed ("exposer: snapshot pre-check failed: " ++ pr_Message r)).

Definition okResult (name detail : string) : PrecheckResult :=
  mkPrecheckResult true "" "" [mkCheck name CheckOK detail].
Definition notCheckableResult (name detail : string) : PrecheckResult :=
  mkPrecheckResult true "" "" [mkCheck name CheckNotCheckable detail].
Definition failedResult (name reason detail : string) : PrecheckResult :=
  mkPrecheckResult false reason detail [mkCheck name CheckFailed detail].

Definition paramString (params : gmap string parameter) (k : string) : string * bool :=
  match params !! k with
  | None | Some PNull => ("", true)
  | Some (POther printed) => (printed, false)
  | Some (PString s) => (TrimSpace s, true)
  end.

(** [strings.Contains]. *)
Fixpoint Contains (s sub : string) : bool :=
  HasPrefix s sub || match s with EmptyString => false | String _ s => Contains s sub end.

(** The namespace and name of the Secret, and whether it cannot be resolved ahead. *)
Definition snapshotterSecretRef (vsc : Object KVolumeSnapshotClass) : string * string * bool :=
  match vc_parameters (o_body vsc) with
  | NFound params =>
      let '(namespace, nsOK) := paramString params snapshotterSecretNamespaceParam in
      let '(name, nameOK) := paramString params snapshotterSecretNameParam in
      (namespace, name, Contains namespace csiTemplateMarker || Contains name csiTemplateMarker
                        || (negb nsOK || negb nameOK))
  | _ => ("", "", false)
  end.

Definition Precheck (vsc : option (Object KVolumeSnapshotClass)) : api PrecheckResult :=
  match vsc with
  | None => Done (notCheckableResult checkSnapshotterSecret
              "no VolumeSnapshotClass was resolved, so its snapshotter Secret cannot be identified")
  | Some vsc =>
      let className := quoted (o_name vsc) in
      let '(namespace, name, templated) := snapshotterSecretRef vsc in
      let half := snapshotterSecretNamespaceParam ++ "=" ++ quoted namespace ++ ", "
                  ++ snapshotterSecretNameParam ++ "=" ++ quoted name in
      if templated then
        Done (notCheckableResult checkSnapshotterSecret ("VolumeSnapshotClass " ++ className
          ++ " names its snapshotter Secret in a form that cannot be resolved "
          ++ "ahead of time — CSI templating (a different Secret per snapshot), or a parameter "
          ++ "that is not a plain string: " ++ half))
      else if (namespace =? "") && (name =? "") then
        Done (okResult checkSnapshotterSecret ("VolumeSnapshotClass " ++ className ++ " declares no snapshotter Secret"))
      else if (namespace =? "") || (name =? "") then
        Done (notCheckableResult checkSnapshotterSecret ("VolumeSnapshotClass " ++ className
          ++ " specifies only half of its snapshotter Secret reference (" ++ half
          ++ "); no Secret key can be formed from it"))
      else
        let! r := get KSecret namespace name in
        Done match r with
        | Ok _ => okResult checkSnapshotterSecret
            ("snapshotter Secret " ++ slash namespace name ++ " for VolumeSnapshotClass " ++ className ++ " exists")
        | Err e =>
            if IsNotFound e then
              failedResult checkSnapshotterSecret reasonSnapshotterSecretMissing ("VolumeSnapshotClass " ++ className
                ++ " names snapshotter Secret " ++ slash namespace name ++ ", which does not exist; "
                ++ "the CSI snapshotter cannot authenticate and any VolumeSnapshot on this class "
                ++ "would never become ready")
            else
              notCheckableResult checkSnapshotterSecret ("snapshotter Secret " ++ slash namespace name
                ++ " for VolumeSnapshotClass " ++ className ++ " could not be read: " ++ err_text e)
        end
  end.

(** ** The implementations and the registry *)

(** The [SnapshotExposer] interface. *)
Record SnapshotExposer := mkSnapshotExposer {
  Kind : string;
  PrecheckOf : api (option gerr);
  Expose : ExposeRequest -> api (result Exposure);
  Ready : Exposure -> api (result bool);
  Progress : Exposure -> api (option SnapshotProgress);
  Cleanup : Exposure -> api (result unit)
}.

Definition vsClassName (vsc : option (Object KVolumeSnapshotClass)) : string :=
  match vsc with Some vsc => o_name vsc | None => "" end.

Section Registry.
Variable P : parsers.
Variable operatorNamespace : string.

Definition newCSIGenericExposer (vsClass : option (Object KVolumeSnapshotClass)) : SnapshotExposer :=
  mkSnapshotExposer KindCSIGeneric
    (let! r := Precheck vsClass in Done (PrecheckResult_Err r))
    (fun req => expose KindCSIGeneric req operatorNamespace (vsClassName vsClass))
    (ready P buildTempPVC) originProgress cleanup.

Definition newCephFSShallowExposer (vsClass : option (Object KVolumeSnapshotClass)) : SnapshotExposer :=
  mkSnapshotExposer KindCephFSShallow
    (let! r := Precheck vsClass in Done (PrecheckResult_Err r))
    (fun req => expose KindCephFSShallow req operatorNamespace (vsClassName vsClass))
    (ready P buildShallowPVC) originProgress cleanup.

Definition cephfsProvisionerMarker : string := ".cephfs.csi.".
Definition migratedToAnnotation : string := "pv.kubernetes.io/migrated-to".
Definition ErrUnsupported (text : string) : gerr :=
  mkErr EUnsupported ("exposer: storage class has no CSI snapshot support: " ++ text).

Definition persistentVolumeSourceName (pv : PersistentVolume) : string :=
  match pv_Source pv with
  | SourceNFS => "nfs" | SourceHostPath => "hostPath" | SourceLocal => "local"
  | SourceISCSI => "iscsi" | SourceFC => "fc"
  | _ => "non-CSI"
  end.

(** The driver, and where it was found. *)
Definition driverFor (pvc : Object KPVC) : api (result (string * string)) :=
  let claim := slash (o_namespace pvc) (o_name pvc) in
  if negb (pc_VolumeName (o_body pvc) =? "") then
    let volume := pc_VolumeName (o_body pvc) in
    let! r := get KPV "" volume in
    Done match r with
    | Err e => Err (wrap_err ("exposer: get PersistentVolume " ++ quoted volume ++ " bound to PVC " ++ claim) e)
    | Ok pv =>
        let driver := match pv_Source (o_body pv) with SourceCSI d _ => d | _ => "" end in
        if negb (driver =? "") then Ok (driver, "PersistentVolume " ++ quoted (o_name pv))
        else
          let migrated := lget (m_Annotations (o_meta pv)) migratedToAnnotation in
          if negb (migrated =? "") then Ok (migrated, "PersistentVolume " ++ quoted (o_name pv) ++ ", CSI-migrated")
          else Err (ErrUnsupported ("PersistentVolume " ++ quoted (o_name pv) ++ " bound to PVC " ++ claim ++ " is a "
                 ++ persistentVolumeSourceName (o_body pv) ++ " volume, not CSI"))
    end
  else
    match pc_StorageClassName (o_body pvc) with
    | None | Some EmptyString =>
        Done (Err (errorf ("exposer: PVC " ++ claim ++ " is bound to no volume and has no spec.storageClassName set")))
    | Some scName =>
        let! r := get KStorageClass "" scName in
        Done match r with
        | Err e => Err (wrap_err ("exposer: get StorageClass " ++ quoted scName ++ " for unbound PVC " ++ claim) e)
        | Ok sc =>
            let migrated := lget (m_Annotations (o_meta sc)) migratedToAnnotation in
            if negb (migrated =? "") then Ok (migrated, "StorageClass " ++ quoted scName ++ ", CSI-migrated")
            else Ok (sc_Provisioner (o_body sc), "StorageClass " ++ quoted scName)
        end
    end.

(** The classes of the driver, in the order of the list. *)
Fixpoint candidates (provisioner : string) (items : list (Object KVolumeSnapshotClass))
    : result (list (Object KVolumeSnapshotClass)) :=
  match items with
  | [] => Ok []
  | item :: items =>
      match NestedString (vc_driver (o_body item)) with
      | Err e => Err (wrap_err ("read .driver of VolumeSnapshotClass " ++ o_name item) e)
      | Ok driver =>
          match candidates provisioner items with
          | Err e => Err e
          | Ok cs => Ok (if driver =? provisioner then item :: cs else cs)
          end
      end
  end.

Definition findVolumeSnapshotClass (provisioner : string) : api (result (option (Object KVolumeSnapshotClass))) :=
  let! r := list_ KVolumeSnapshotClass everything in
  Done match r with
  | Err e => Err e
  | Ok items =>
      match candidates provisioner items with
      | Err e => Err e
      | Ok cs => Ok (head (sort_by o_name cs))
      end
  end.

Definition For (pvc : option (Object KPVC)) : api (result SnapshotExposer) :=
  match pvc with
  | None => Done (Err (errorf "exposer: nil PVC"))
  | Some pvc =>
      let! d := driverFor pvc in
      match d with
      | Err e => Done (Err e)
      | Ok (driver, origin) =>
          let! c := findVolumeSnapshotClass driver in
          Done match c with
          | Err e => Err (wrap_err ("exposer: list VolumeSnapshotClasses for driver " ++ quoted driver) e)
          | Ok None => Err (ErrUnsupported ("driver " ++ quoted driver ++ " (" ++ origin
                        ++ ") has no matching VolumeSnapshotClass"))
          | Ok (Some vsClass) =>
              if Contains driver cephfsProvisionerMarker then Ok (newCephFSShallowExposer (Some vsClass))
              else Ok (newCSIGenericExposer (Some vsClass))
          end
      end
  end.
End Registry.

(** ** What an exposure owns *)

Definition originVSKey (ex : Exposure) : key := mkKey KVolumeSnapshot (ex_OriginNamespace ex) (ex_OriginVSName ex).
Definition staticVSCKey (ex : Exposure) : key := mkKey KVolumeSnapshotContent "" (ex_StaticVSCName ex).
Definition staticVSKey (ex : Exposure) : key := mkKey KVolumeSnapshot (ex_OperatorNamespace ex) (ex_StaticVSName ex).
Definition tempPVCKey (ex : Exposure) : key := mkKey KPVC (ex_OperatorNamespace ex) (ex_TempPVCName ex).

Definition rebound (ex : Exposure) : list key := [tempPVCKey ex; staticVSKey ex; staticVSCKey ex].
Definition owned (ex : Exposure) : list key := originVSKey ex :: rebound ex.

(** Two exposures with the same objects and labels: what a restarted controller
    derives stands for what [Expose] returned. *)
Definition sameObjects (x y : Exposure) : Prop := owned x = owned y /\ ex_Labels x = ex_Labels y.

(** The content of a storage snapshot, known to be Retain. *)
Definition retains (handle : string) (o : Object KVolumeSnapshotContent) : bool :=
  match vsc_deletionPolicy (o_body o), vsc_snapshotHandle (o_body o) with
  | NFound p, NFound h => (p =? deletionPolicyRetain) && (h =? handle)
  | _, _ => false
  end.

(** It was read so, or patched. *)
Definition guards (handle : string) (e : happening) : bool :=
  match e with
  | Ev (AGet KVolumeSnapshotContent _ _) (Ok o) => retains handle o
  | Ev (APatch KVolumeSnapshotContent _ o) (Ok _) => retains handle o
  | _ => false
  end.

(** A static content of a storage snapshot is created. *)
Definition aliases (handle : string) (e : happening) : bool :=
  match ev_action e with
  | ACreate KVolumeSnapshotContent o =>
      match vsc_sourceHandle (o_body o) with NFound h => h =? handle | _ => false end
  | _ => false
  end.

(** A write that lets the storage snapshot go: a content back to Delete, the
    deletion of the origin snapshot, or of a content that is not the static one. *)
Definition reclaims (ex : Exposure) (e : happening) : bool :=
  match ev_action e with
  | APatch KVolumeSnapshotContent _ _ => true
  | ADelete KVolumeSnapshot ns name => bool_decide (mkKey KVolumeSnapshot ns name = originVSKey ex)
  | ADelete KVolumeSnapshotContent ns name => negb (bool_decide (mkKey KVolumeSnapshotContent ns name = staticVSCKey ex))
  | _ => false
  end.

(** The deletion of the object was accepted, or found nothing to delete. An object held by a
    finalizer may still be there. *)
Definition dismissed (x : key) (e : happening) : bool := deleted absentOK x e.

(** The origin snapshot was found absent, or its kind does not exist. *)
Definition readGone (x : key) (e : happening) : bool :=
  match e with
  | Ev (AGet k ns name) (Err err) => bool_decide (mkKey k ns name = x) && absentOK err
  | _ => false
  end.

Record exposer_contract (e : SnapshotExposer) : Prop := {
  ec_expose : forall req tr r, runs (Expose e req) tr r ->
    Forall (createsIn [mkKey KVolumeSnapshot (er_Namespace req) (volumeSnapshotName (er_NamePrefix req))]) tr
    /\ forall ex, r = Ok ex ->
         sameObjects ex (deriveExposure (er_Namespace req) (ex_OperatorNamespace ex) (er_NamePrefix req) (er_Labels req));
  ec_ready : forall ex tr r, runs (Ready e ex) tr r ->
    Forall (createsIn (rebound ex)) tr /\ (forall h, onlyAfter (guards h) (aliases h) false tr = true)
    /\ forall d, Forall (fun e => asksDelete d e = false) tr;
  ec_cleanup : forall ex ns operatorNamespace prefix ls tr r,
    sameObjects ex (deriveExposure ns operatorNamespace prefix ls) -> runs (Cleanup e ex) tr r ->
    Forall (createsIn []) tr
    /\ (forall x, x ∈ rebound ex -> onlyAfter (dismissed x) (reclaims ex) false tr = true)
    /\ (r = Ok tt -> (forall x, x ∈ rebound ex -> existsb (dismissed x) tr = true)
          /\ (existsb (dismissed (originVSKey ex)) tr = true \/ existsb (readGone (originVSKey ex)) tr = true))
}.

Lemma expose_spec kind req ns class tr r :
  runs (expose kind req ns class) tr r ->
  Forall (createsIn [mkKey KVolumeSnapshot (er_Namespace req) (volumeSnapshotName (er_NamePrefix req))]) tr
  /\ forall ex, r = Ok ex ->
       sameObjects ex (deriveExposure (er_Namespace req) (ex_OperatorNamespace ex) (er_NamePrefix req) (er_Labels req)).
Proof.
  unfold expose, mustCreate, create. intros H. run_all H.
  all: split; [repeat constructor|by intros ex [= <-]].
Qed.

Lemma rebind_spec P ex build vs driver handle tr r :
  (forall c, keyOf (build ex c) = tempPVCKey ex) ->
  runs (rebind P ex build vs driver handle) tr r ->
  Forall (createsIn (rebound ex)) tr /\ (forall d, Forall (fun e => asksDelete d e = false) tr)
  /\ forall h, h <> handle -> Forall (fun e => aliases h e = false) tr.
Proof.
  unfold rebind, mustCreate, create, volumeSnapshotReady, get. intros Hb H.
  specialize (Hb (resolveTempPVCCapacity P (ex_Capacity ex) vs)).
  assert (forall h, h <> handle -> (handle =? h) = false) as Hh by (intros h Hh; apply String.eqb_neq; congruence).
  run_all H; (split_and!; [|intros d; by repeat constructor|intros h Hn; repeat constructor; by apply Hh]).
  all: repeat (apply Forall_cons; split; [unfold createsIn, creation; cbn [ev_action]; try done|]); try by constructor.
  all: rewrite ?Hb; unfold rebound; set_solver.
Qed.

Lemma passive_content h tr : forallb passive tr = true -> Forall (fun e => aliases h e = false) tr.
Proof.
  rewrite forallb_elem, Forall_forall. intros H e He. specialize (H e He).
  unfold passive, aliases in *. by destruct (ev_action e).
Qed.

Lemma retains_retain handle (vsc : Object KVolumeSnapshotContent) dp :
  vsc_snapshotHandle (o_body vsc) = NFound handle -> NestedString (vsc_deletionPolicy (o_body vsc)) = Ok dp ->
  (dp =? deletionPolicyRetain) = true -> retains handle vsc = true.
Proof.
  intros Hh Hp Hd. unfold retains. rewrite Hh, String.eqb_refl.
  destruct (vsc_deletionPolicy (o_body vsc)); cbn in Hp; [by injection Hp as <-| |done].
  injection Hp as ->. by rewrite Hd.
Qed.

(** A handover either gives up, or goes on with the content known to be Retain. *)
Lemma handover_runs {A} (vsc : Object KVolumeSnapshotContent) handle ls (rest : api (result A)) tr r :
  vsc_snapshotHandle (o_body vsc) = NFound handle ->
  runs (patchOriginVSCForHandover vsc ls rest) tr r ->
  exists tr1 tr2, tr = (tr1 ++ tr2)%list /\ forallb passive tr1 = true
    /\ (tr2 = [] \/ ((retains handle vsc = true \/ existsb (guards handle) tr1 = true) /\ runs rest tr2 r)).
Proof.
  unfold patchOriginVSCForHandover, mustPatch, patch. destruct (mergeLabels (o_labels vsc) ls) as [merged labelled].
  intros Hh. destruct (NestedString _) as [dp|e] eqn:Ep; intros H.
  2: { destruct H as [-> ->]. exists [], []. split_and!; [done..|by left]. }
  set (retained := if dp =? deletionPolicyRetain then vsc else set_deletionPolicy deletionPolicyRetain vsc) in *.
  assert (retains handle (set_o_labels merged retained) = true) as Hr.
  { unfold retained. destruct (dp =? deletionPolicyRetain) eqn:Ed; [by apply (retains_retain _ _ dp)|].
    unfold retains. cbn. by rewrite Hh, String.eqb_refl. }
  destruct (negb (dp =? deletionPolicyRetain) || labelled) eqn:En.
  - cbn in H. destruct H as ([o|e] & tr' & -> & H); cbn in H.
    + eexists [_], tr'. split_and!; [done..|]. right. split; [right; cbn; by rewrite Hr|done].
    + destruct H as [-> ->]. eexists [_], []. split_and!; [done..|by left].
  - exists [], tr. split_and!; [done..|]. right. split; [left|done].
    apply orb_false_iff in En as [Ed%negb_false_iff _]. by apply (retains_retain _ _ dp).
Qed.

Lemma ready_spec P build ex tr r :
  (forall c, keyOf (build ex c) = tempPVCKey ex) ->
  runs (ready P build ex) tr r ->
  Forall (createsIn (rebound ex)) tr /\ (forall h, onlyAfter (guards h) (aliases h) false tr = true)
  /\ forall d, Forall (fun e => asksDelete d e = false) tr.
Proof.
  unfold ready, get. intros Hb H.
  assert (forall tr0, forallb passive tr0 = true ->
    Forall (createsIn (rebound ex)) tr0 /\ (forall h, onlyAfter (guards h) (aliases h) false tr0 = true)
    /\ forall d, Forall (fun e => asksDelete d e = false) tr0) as Hp.
  { intros tr0 Ht. split_and!; [by apply passive_creates|intros h; by apply onlyAfter_none, passive_content|].
    intros d. by apply passive_deletes. }
  cbn [prog_bind call runs] in H. destruct H as (x & tr' & -> & H). destruct x as [vs|e]; cbn [runs] in H.
  2: { destruct (IsNotFound e); destruct H as [-> ->]; by apply Hp. }
  destruct (NestedBool (vs_readyToUse (o_body vs))) as [[|]|e]; cbn [runs] in H; [|destruct H as [-> ->]; by apply Hp..].
  destruct (NestedString (vs_boundContent (o_body vs))) as [bound|e]; cbn [runs] in H; [|destruct H as [-> ->]; by apply Hp].
  destruct (bound =? "") eqn:Eb; [destruct H as [-> ->]; by apply Hp|].
  cbn [prog_bind call runs] in H. destruct H as (x & tr1 & -> & H). destruct x as [vsc|e]; cbn [runs] in H.
  2: { destruct (IsNotFound e); destruct H as [-> ->]; by apply Hp. }
  destruct (NestedString (vsc_driver (o_body vsc))) as [driver|e]; cbn [runs] in H; [|destruct H as [-> ->]; by apply Hp].
  destruct (NestedString (vsc_snapshotHandle (o_body vsc))) as [handle|e] eqn:Eh; cbn [runs] in H;
    [|destruct H as [-> ->]; by apply Hp].
  destruct ((driver =? "") || (handle =? "")) eqn:Ee; [destruct H as [-> ->]; by apply Hp|].
  assert (vsc_snapshotHandle (o_body vsc) = NFound handle) as Hh.
  { apply orb_false_iff in Ee as [_ Ee]. destruct (vsc_snapshotHandle (o_body vsc)); cbn in Eh; [|congruence|done].
    injection Eh as <-. done. }
  apply (handover_runs _ handle) in H as (t1 & t2 & -> & Ht1 & [->|[Hg H]]); [| |done].
  { rewrite app_nil_r. apply Hp. cbn. exact Ht1. }
  apply rebind_spec in H as (Hc & Hd & Ha); [|done].
  set (pre := Ev (I := kube) (AGet KVolumeSnapshot (ex_OriginNamespace ex) (ex_OriginVSName ex)) (Ok vs)
              :: Ev (I := kube) (AGet KVolumeSnapshotContent "" bound) (Ok vsc) :: t1).
  change (_ :: _ :: t1 ++ t2)%list with (pre ++ t2)%list. destruct (Hp pre Ht1) as (Hp1 & Hp2 & Hp3). split_and!.
  - by apply Forall_app.
  - intros h. rewrite onlyAfter_app, Hp2. cbn [andb orb].
    destruct (decide (h = handle)) as [->|Hn]; [|by apply onlyAfter_none, Ha].
    replace (existsb (guards handle) pre) with true; [apply onlyAfter_seen|]. symmetry. unfold pre. cbn.
    destruct Hg as [Hg|Hg]; rewrite Hg; [done|by rewrite orb_true_r].
  - intros d. by apply Forall_app.
Qed.

(** ** Cleanup *)

(** A run of [must] deletes, and goes on only when the object is dismissed. *)
Lemma runs_delete_then {A} k ns name tolerate text (rest : api (result A)) tr r :
  runs (must (delete k ns name) tolerate text rest) tr r ->
  exists err tr', tr = Ev (I := kube) (ADelete k ns name) err :: tr'
    /\ ((deleted tolerate (mkKey k ns name) (Ev (I := kube) (ADelete k ns name) err) = true /\ runs rest tr' r)
        \/ (tr' = [] /\ exists e, r = Err e)).
Proof.
  unfold must, delete. cbn. intros (err & tr' & -> & H). exists err, tr'. split; [done|].
  rewrite bool_decide_true by done. cbn. destruct err as [e|]; [|by left].
  destruct (tolerate e); [by left|]. right. destruct H as [-> ->]. split; [done|]. by eexists.
Qed.

Lemma runs_setOriginVSCToDelete {A} vsc (rest : api (result A)) tr r :
  runs (setOriginVSCToDelete vsc rest) tr r ->
  exists tr1 tr2, tr = (tr1 ++ tr2)%list /\ forallb passive tr1 = true
    /\ (runs rest tr2 r \/ (tr2 = [] /\ exists e, r = Err e)).
Proof.
  unfold setOriginVSCToDelete, mustPatch, patch. destruct (NestedString _) as [dp|e].
  2: { intros [-> ->]. exists [], []. split_and!; [done..|]. right. split; [done|]. by eexists. }
  destruct (dp =? deletionPolicyDelete); [intros H; exists [], tr; split_and!; [done..|by left]|].
  cbn. intros ([o|e] & tr' & -> & H); cbn in H.
  - eexists [_], tr'. split_and!; [done..|]. by left.
  - destruct H as [-> ->]. eexists [_], []. split_and!; [done..|]. right. split; [done|]. by eexists.
Qed.

Lemma reclaimEach_creates ex items tr r : runs (reclaimEach ex items) tr r -> Forall (createsIn []) tr.
Proof.
  revert tr. induction items as [|item items IH]; intros tr; cbn; [by intros [-> _]|].
  destruct (o_name item =? ex_StaticVSCName ex); [apply IH|].
  intros (tr1 & tr2 & -> & Hp & H)%runs_setOriginVSCToDelete. apply Forall_app. split; [by apply passive_creates|].
  destruct H as [H|[-> _]]; [|constructor].
  apply runs_delete_then in H as (err & tr' & -> & [[_ H]|[-> _]]); (constructor; [done|]); [by apply IH|constructor].
Qed.

Lemma reclaimOrigin_spec ex tr r :
  runs (reclaimOrigin ex) tr r ->
  Forall (createsIn []) tr
  /\ (r = Ok tt -> existsb (dismissed (originVSKey ex)) tr = true \/ existsb (readGone (originVSKey ex)) tr = true).
Proof.
  unfold reclaimOrigin, get. cbn [prog_bind call runs]. intros (x & tr' & -> & H). destruct x as [vs|e]; cbn [runs] in H.
  - destruct (NestedString (vs_boundContent (o_body vs))) as [bound|e]; cbn [runs] in H; [|by destruct H as [-> ->]; split; [repeat constructor|]].
    assert (forall tr0, runs (deleteVolumeSnapshot (ex_OriginNamespace ex) (ex_OriginVSName ex) (Done (Ok tt))) tr0 r ->
      Forall (createsIn []) tr0 /\ (r = Ok tt -> existsb (dismissed (originVSKey ex)) tr0 = true)) as Hd.
    { intros tr0 (err & tr1 & -> & [[Hg [-> ->]]|[-> [e ->]]])%runs_delete_then; (split; [by repeat constructor|]).
      - intros _. cbn [existsb]. unfold dismissed. unfold originVSKey. by rewrite Hg.
      - done. }
    destruct (bound =? ""); [apply Hd in H as [Hc Hg]; split; [by constructor|]; intros Hr; left; by rewrite <-(Hg Hr)|].
    unfold restoreOriginVSCByName, get in H. cbn [prog_bind call runs] in H. destruct H as (x & tr1 & -> & H).
    destruct x as [vsc|e]; cbn [runs] in H.
    + apply runs_setOriginVSCToDelete in H as (t1 & t2 & -> & Hp & [H|[-> [e ->]]]).
      * apply Hd in H as [Hc Hg]. split.
        { constructor; [done|]. constructor; [done|]. apply Forall_app. split; [by apply passive_creates|done]. }
        intros Hr. left. cbn. rewrite existsb_app, (Hg Hr). by rewrite orb_true_r.
      * split; [|done]. constructor; [done|]. constructor; [done|]. rewrite app_nil_r. by apply passive_creates.
    + destruct (IsNotFound e); [|by destruct H as [-> ->]; split; [repeat constructor|]].
      apply Hd in H as [Hc Hg]. split; [by repeat constructor|]. intros Hr. left. cbn. by rewrite (Hg Hr).
  - assert (forall b tr0, IsNotFound e = true \/ IsNoMatchError e = true -> existsb (dismissed (originVSKey ex)) tr0 = b ->
      existsb (readGone (originVSKey ex)) (Ev (I := kube) (AGet KVolumeSnapshot (ex_OriginNamespace ex) (ex_OriginVSName ex)) (Err e) :: tr0) = true) as Hg.
    { intros b tr0 He _. cbn. rewrite bool_decide_true by done. unfold absentOK. by destruct He as [-> | ->]; rewrite ?orb_true_r. }
    destruct (IsNotFound e) eqn:En.
    + unfold reclaimOrphanOriginVSC in H. split; [|intros _; right; eapply Hg; [by left|done]].
      constructor; [done|]. destruct (map_to_list (ex_Labels ex)) as [|kv kvs]; [by destruct H as [-> _]|].
      destruct (List.find _ _) as [[? ?]|]; [by destruct H as [-> _]|].
      unfold list_ in H. cbn [prog_bind call runs] in H. destruct H as (x & tr1 & -> & H).
      constructor; [done|]. destruct x as [items|e']; [by apply reclaimEach_creates in H|].
      destruct (IsNoMatchError e'); by destruct H as [-> _].
    + destruct (IsNoMatchError e) eqn:Em; destruct H as [-> ->].
      * split; [by repeat constructor|]. intros _. right. eapply Hg; [by right|done].
      * by split; [repeat constructor|].
Qed.

Lemma deleted_absentOK x e : deleted IsNotFound x e = true -> deleted absentOK x e = true.
Proof.
  destruct e as [o a]. unfold deleted. destruct o; try done. destruct (bool_decide _); [|done]. destruct a as [e|]; [|done].
  cbn. unfold absentOK. intros ->. done.
Qed.

Lemma cleanup_spec ex tr r :
  originVSKey ex <> staticVSKey ex -> runs (cleanup ex) tr r ->
  Forall (createsIn []) tr
  /\ (forall x, x ∈ rebound ex -> onlyAfter (dismissed x) (reclaims ex) false tr = true)
  /\ (r = Ok tt -> (forall x, x ∈ rebound ex -> existsb (dismissed x) tr = true)
        /\ (existsb (dismissed (originVSKey ex)) tr = true \/ existsb (readGone (originVSKey ex)) tr = true)).
Proof.
  intros Hne H. unfold cleanup, deletePVC, deleteVolumeSnapshot, deleteVolumeSnapshotContent in H.
  assert (forall tr0, Forall (fun e => reclaims ex e = false) tr0 ->
    forall x, x ∈ rebound ex -> onlyAfter (dismissed x) (reclaims ex) false tr0 = true) as Hno.
  { intros tr0 Ht x _. by apply onlyAfter_none. }
  assert (forall err, reclaims ex (Ev (I := kube) (ADelete KVolumeSnapshot (ex_OperatorNamespace ex) (ex_StaticVSName ex)) err) = false) as Hs.
  { intros err. cbn. apply bool_decide_false. intros Heq. by apply Hne. }
  assert (forall err, reclaims ex (Ev (I := kube) (ADelete KVolumeSnapshotContent "" (ex_StaticVSCName ex)) err) = false) as Hc.
  { intros err. cbn. by rewrite bool_decide_true. }
  apply runs_delete_then in H as (e1 & t1 & -> & [[Hg1 H]|[-> [e ->]]]).
  2: { split_and!; [by repeat constructor| |done]. apply Hno. by repeat constructor. }
  apply runs_delete_then in H as (e2 & t2 & -> & [[Hg2 H]|[-> [e ->]]]).
  2: { split_and!; [by repeat constructor| |done]. apply Hno. by repeat constructor. }
  apply runs_delete_then in H as (e3 & t3 & -> & [[Hg3 H]|[-> [e ->]]]).
  2: { split_and!; [by repeat constructor| |done]. apply Hno. by repeat constructor. }
  apply reclaimOrigin_spec in H as [Hc3 Hr3].
  set (pre := [Ev (I := kube) (ADelete KPVC (ex_OperatorNamespace ex) (ex_TempPVCName ex)) e1;
               Ev (I := kube) (ADelete KVolumeSnapshot (ex_OperatorNamespace ex) (ex_StaticVSName ex)) e2;
               Ev (I := kube) (ADelete KVolumeSnapshotContent "" (ex_StaticVSCName ex)) e3]).
  change (_ :: _ :: _ :: t3)%list with (pre ++ t3)%list.
  assert (forall x, x ∈ rebound ex -> existsb (dismissed x) pre = true) as Hpre.
  { unfold pre. intros x [->|[->|[->|Hx%elem_of_nil]%elem_of_cons]%elem_of_cons]%elem_of_cons; [| | |done].
    - cbn [existsb]. unfold dismissed at 1. unfold tempPVCKey. rewrite deleted_absentOK by exact Hg1. done.
    - cbn [existsb]. unfold staticVSKey. unfold dismissed at 2. rewrite Hg2. by rewrite orb_true_r.
    - cbn [existsb]. unfold staticVSCKey. unfold dismissed at 3. rewrite Hg3. by rewrite !orb_true_r. }
  split_and!.
  - apply Forall_app. split; [by repeat constructor|done].
  - intros x Hx. rewrite onlyAfter_app. apply andb_true_iff. split.
    + apply Hno; [|done]. by repeat constructor.
    + cbn [orb]. rewrite (Hpre x Hx). apply onlyAfter_seen.
  - intros Hr. split.
    + intros x Hx. by rewrite existsb_app, (Hpre x Hx).
    + rewrite !existsb_app. destruct (Hr3 Hr) as [-> | ->]; rewrite orb_true_r; by auto.
Qed.

Lemma append_cancel (p a b : string) : (p ++ a = p ++ b)%string -> a = b.
Proof. induction p as [|c p IH]; [done|]. intros H. apply IH. by injection H. Qed.

Lemma derived_keys ex ns opns prefix ls :
  sameObjects ex (deriveExposure ns opns prefix ls) -> originVSKey ex <> staticVSKey ex.
Proof.
  intros [Ho _]. unfold owned, rebound in Ho. injection Ho as H1 H2 H3 H4 H5 H6 H7. unfold originVSKey, staticVSKey.
  intros Hk. injection Hk as _ Hn. rewrite H2, H6 in Hn.
  by apply append_cancel in Hn.
Qed.

Lemma exposers_contract P opns class :
  exposer_contract (newCSIGenericExposer P opns class) /\ exposer_contract (newCephFSShallowExposer P opns class).
Proof.
  split; constructor; cbn.
  1, 4: intros req tr r; apply expose_spec.
  1, 3: intros ex tr r; apply ready_spec; done.
  all: intros ex ns opns' prefix ls tr r Hd; apply cleanup_spec; by eapply derived_keys.
Qed.

(** C32. Every exposer the registry hands out keeps the contract of the leak check. What it
    creates is what a cleanup that succeeds has had dismissed, each deletion being accepted by
    the API server or finding nothing; that also goes for the cleanup of the exposure a
    restarted controller derives from the names. A static alias of a storage snapshot is created
    only after the content that owns the snapshot was known to be Retain. A cleanup lets go of
    the storage snapshot only after the clone, the static snapshot and the static content have
    been dismissed; no cleanup waits until they are gone, so one held by a finalizer can still
    be there then. *)
Theorem registry_exposers_keep_contract (P : parsers) (operatorNamespace : string) (pvc : option (Object KPVC))
    (tr : list happening) (e : SnapshotExposer)
    (Hr : runs (For P operatorNamespace pvc) tr (Ok e)) :
  exposer_contract e.
Proof.
  unfold For, driverFor, findVolumeSnapshotClass, get, list_ in Hr. run_all Hr.
  all: repeat case_match; simplify_eq; apply exposers_contract.
Qed.

(** ** The crash window *)

(** A content that a trace deletes. *)
Definition deletesContent (name : string) (e : happening) : bool :=
  match ev_action e with ADelete KVolumeSnapshotContent _ n => n =? name | _ => false end.

(** The server listed the content in the trace. *)
Definition listed (o : Object KVolumeSnapshotContent) (e : happening) : Prop :=
  match e with
  | Ev (AList KVolumeSnapshotContent _) (Ok items) => o ∈ items
  | _ => False
  end.

Lemma passive_deletesContent name tr : forallb passive tr = true -> existsb (deletesContent name) tr = false.
Proof.
  rewrite forallb_elem. intros Hp. apply existsb_none. intros e He. specialize (Hp e He).
  unfold passive, deletesContent in *. by destruct (ev_action e).
Qed.

Lemma reclaimEach_listed ex items tr r name :
  runs (reclaimEach ex items) tr r -> existsb (deletesContent name) tr = true ->
  name <> ex_StaticVSCName ex /\ exists o, o ∈ items /\ o_name o = name.
Proof.
  revert tr. induction items as [|item items IH]; intros tr; cbn [reclaimEach]; [by intros [-> _]|].
  assert ((exists o, o ∈ items /\ o_name o = name) -> exists o, o ∈ item :: items /\ o_name o = name) as Hm.
  { intros (o & Ho & Hn). exists o. split; [by right|done]. }
  destruct (o_name item =? ex_StaticVSCName ex) eqn:Es; [intros H Hd; destruct (IH _ H Hd); by auto|].
  intros (tr1 & tr2 & -> & Hp & H)%runs_setOriginVSCToDelete Hd. rewrite existsb_app in Hd.
  rewrite (passive_deletesContent name tr1 Hp) in Hd. cbn [orb] in Hd. destruct H as [H|[-> _]]; [|done].
  apply runs_delete_then in H as (err & tr' & -> & H). cbn [existsb] in Hd. apply orb_true_iff in Hd as [Hd|Hd].
  - cbn in Hd. apply String.eqb_eq in Hd as <-. split; [by apply String.eqb_neq|]. exists item. split; [left|done].
  - destruct H as [[_ H]|[-> _]]; [|done]. destruct (IH _ H Hd). by auto.
Qed.

Lemma setOriginVSCToDelete_quiet {A} (vsc : Object KVolumeSnapshotContent) (rest : api (result A)) name tr r :
  runs (setOriginVSCToDelete vsc rest) tr r -> existsb (deletesContent name) tr = true ->
  exists tr', runs rest tr' r /\ existsb (deletesContent name) tr' = true.
Proof.
  intros (tr1 & tr2 & -> & Hp & H)%runs_setOriginVSCToDelete. rewrite existsb_app, (passive_deletesContent name tr1 Hp).
  destruct H as [H|[-> _]]; [by exists tr2|done].
Qed.

Lemma reclaimOrigin_labels ex tr r name :
  runs (reclaimOrigin ex) tr r -> Forall documented tr -> existsb (deletesContent name) tr = true ->
  exists o, Exists (listed o) tr /\ o_name o = name /\ ex_Labels ex ⊆ o_labels o /\ ex_Labels ex <> ∅
    /\ forall k v, ex_Labels ex !! k = Some v -> v <> "".
Proof.
  unfold reclaimOrigin, get. cbn [prog_bind call runs]. intros (x & tr' & -> & H) Hd Hx. apply Forall_inv_tail in Hd.
  destruct x as [vs|e]; cbn [runs existsb] in *.
  - exfalso. destruct (NestedString (vs_boundContent (o_body vs))) as [bound|e]; [|by destruct H as [-> _]].
    assert (forall tr0, runs (deleteVolumeSnapshot (ex_OriginNamespace ex) (ex_OriginVSName ex) (Done (Ok tt))) tr0 r ->
      existsb (deletesContent name) tr0 = false) as Hq.
    { intros tr0 (err & tr1 & -> & [[_ [-> _]]|[-> _]])%runs_delete_then; done. }
    cbn in Hx. destruct (bound =? ""); [apply Hq in H; congruence|].
    unfold restoreOriginVSCByName, get in H. cbn [prog_bind call runs] in H. destruct H as (x & tr1 & -> & H). cbn in Hx.
    destruct x as [vsc|e]; cbn [runs] in H.
    + destruct (setOriginVSCToDelete_quiet _ _ _ _ _ H Hx) as (tr2 & H2 & Hx2). apply Hq in H2. congruence.
    + destruct (IsNotFound e); [apply Hq in H; congruence|by destruct H as [-> _]].
  - cbn in Hx. destruct (IsNotFound e); [|by destruct (IsNoMatchError e); destruct H as [-> _]].
    unfold reclaimOrphanOriginVSC in H. destruct (map_to_list (ex_Labels ex)) as [|kv kvs] eqn:Em; [by destruct H as [-> _]|].
    destruct (List.find _ _) as [[? ?]|] eqn:Ef; [by destruct H as [-> _]|].
    unfold list_ in H. cbn [prog_bind call runs] in H. destruct H as (x & tr1 & -> & H). cbn in Hx.
    destruct x as [items|e']; [|by destruct (IsNoMatchError e'); destruct H as [-> _]].
    destruct (reclaimEach_listed _ _ _ _ _ H Hx) as (_ & o & Ho & Hn). exists o. split_and!; [right; by left|done| | |].
    + apply Forall_inv in Hd. apply (documented_list _ _ _ _ Hd) in Ho as Hs. unfold selects in Hs.
      apply andb_true_iff in Hs as [Hs _]. cbn in Hs. by apply bool_decide_eq_true in Hs.
    + intros H0. rewrite H0 in Em. by rewrite map_to_list_empty in Em.
    + intros k v Hk ->. apply elem_of_map_to_list in Hk. rewrite Em in Hk.
      apply list_elem_of_In in Hk. pose proof (List.find_none _ _ Ef _ Hk) as Hf. done.
Qed.

(** A teardown deletes no content but its own static one and, in the crash window,
    one that carries every label of the exposure, none of them empty: with the
    labels the controller stamps, a content of the same Backup, the same namespace
    and the same claim.  A concurrent run's content is out of its reach. *)
Theorem teardown_never_crosses_runs (ex : Exposure) (tr : list happening) (r : result unit) (name : string)
    (Hr : runs (cleanup ex) tr r) (Hd : Forall documented tr)
    (Hx : existsb (deletesContent name) tr = true) :
  name = ex_StaticVSCName ex
  \/ exists o, Exists (listed o) tr /\ o_name o = name /\ ex_Labels ex ⊆ o_labels o /\ ex_Labels ex <> ∅
       /\ forall k v, ex_Labels ex !! k = Some v -> v <> "".
Proof.
  unfold cleanup, deletePVC, deleteVolumeSnapshot, deleteVolumeSnapshotContent in Hr.
  apply runs_delete_then in Hr as (e1 & t1 & -> & [[_ Hr]|[-> _]]); [|done].
  apply runs_delete_then in Hr as (e2 & t2 & -> & [[_ Hr]|[-> _]]); [|done].
  apply runs_delete_then in Hr as (e3 & t3 & -> & Hr). cbn in Hx.
  destruct (ex_StaticVSCName ex =? name) eqn:En; [apply String.eqb_eq in En; by left|]. right.
  destruct Hr as [[_ Hr]|[-> _]]; [|done]. do 3 apply Forall_inv_tail in Hd.
  destruct (reclaimOrigin_labels _ _ _ _ Hr Hd Hx) as (o & Ho & Hrest). exists o. split; [by do 3 right|done].
Qed.

(** ** The handover settles *)

Lemma mergeLabels_settles ls add : mergeLabels (fst (mergeLabels ls add)) add = (fst (mergeLabels ls add), false).
Proof.
  unfold mergeLabels. cbn. set (new := filter (fun kv => lget ls kv.1 <> kv.2) add).
  assert (filter (fun kv : string * string => lget (new ∪ ls) kv.1 <> kv.2) add = ∅) as ->.
  { apply map_empty. intros k. apply map_lookup_filter_None. right. intros v Hk. cbn. intros Hn. apply Hn. unfold lget.
    destruct (decide (lget ls k = v)) as [<-|Hv].
    - rewrite lookup_union_r; [done|]. apply map_lookup_filter_None. right. intros v Hv. rewrite Hk in Hv.
      injection Hv as <-. cbn. by intros [].
    - rewrite (lookup_union_Some_l _ _ _ v); [done|]. apply map_lookup_filter_Some. by split. }
  by rewrite (left_id_L ∅ (∪)).
Qed.

(** Driving a ready exposure again writes nothing to the origin content: a second
    handover of what the first one stored goes straight on. *)
Lemma handover_settles {A} (vsc : Object KVolumeSnapshotContent) ls dp (rest : api (result A)) :
  NestedString (vsc_deletionPolicy (o_body vsc)) = Ok dp ->
  let retained := if dp =? deletionPolicyRetain then vsc else set_deletionPolicy deletionPolicyRetain vsc in
  patchOriginVSCForHandover (set_o_labels (fst (mergeLabels (o_labels vsc) ls)) retained) ls rest = rest.
Proof.
  intros Hp retained. unfold patchOriginVSCForHandover.
  assert (NestedString (vsc_deletionPolicy (o_body retained)) = Ok deletionPolicyRetain) as Hr.
  { unfold retained. destruct (dp =? deletionPolicyRetain) eqn:E; [apply String.eqb_eq in E; by rewrite Hp, E|done]. }
  cbn [o_body set_o_labels]. rewrite Hr. rewrite String.eqb_refl. cbn [negb orb].
  unfold o_labels at 1. cbn [o_meta set_o_labels set_m_labels m_Labels]. by rewrite mergeLabels_settles.
Qed.

(** ** Errors of a read *)

Definition failure (e : happening) : option gerr :=
  match e with
  | Ev (AGet _ _ _) (Err err) | Ev (AList _ _) (Err err) => Some err
  | _ => None
  end.

(** ** Precheck *)

(** The pre-check refuses a claim on evidence only: exactly when the class names a
    complete, literal Secret reference and the server says that Secret does not
    exist.  A template, half a reference, a Secret that could not be read let the
    exposure go on; and the check writes nothing. *)
Theorem Precheck_spec (vsc : option (Object KVolumeSnapshotClass)) (tr : list happening) (r : PrecheckResult)
    (Hr : runs (Precheck vsc) tr r) :
  (pr_OK r = false <->
     exists c ns name e, vsc = Some c /\ snapshotterSecretRef c = (ns, name, false) /\ ns <> "" /\ name <> ""
       /\ tr = [Ev (I := kube) (AGet KSecret ns name) (Err e)] /\ IsNotFound e = true)
  /\ forallb passive tr = true
  /\ (PrecheckResult_Err r = None <-> pr_OK r = true).
Proof.
  split; [|split; [|unfold PrecheckResult_Err; by destruct (pr_OK r)]].
  - unfold Precheck, get in Hr. destruct vsc as [c|]; [|destruct Hr as [-> ->]; split; [done|by intros (?&?&?&?&_&_&_&_&?&_)]].
    destruct (snapshotterSecretRef c) as [[ns name] templated] eqn:Er.
    destruct templated; [destruct Hr as [-> ->]; split; [done|by intros (?&?&?&?&_&_&_&_&?&_)]|].
    destruct (ns =? "") eqn:En; destruct (name =? "") eqn:Em; cbn [andb orb] in Hr;
      [destruct Hr as [-> ->]; split; [done|by intros (?&?&?&?&_&_&_&_&?&_)]..|].
    apply String.eqb_neq in En, Em. cbn [prog_bind call runs] in Hr. destruct Hr as (x & tr' & -> & -> & ->).
    destruct x as [s|e].
    { split; [done|]. intros (?&?&?&?&_&_&_&_&Htr&_). by apply (f_equal (map failure)) in Htr. }    destruct (IsNotFound e) eqn:Ee; cbn.
    + split; [|done]. intros _. by exists c, ns, name, e.
    + split; [done|]. intros (c' & ns' & name' & e' & [= <-] & Heq & _ & _ & Htr & He').
      apply (f_equal (map failure)) in Htr. cbn in Htr. congruence.
  - unfold Precheck, get in Hr. destruct vsc as [c|]; [|by destruct Hr as [-> _]].
    destruct (snapshotterSecretRef c) as [[ns name] templated].
    destruct templated; [by destruct Hr as [-> _]|].
    destruct ((ns =? "") && (name =? "")); [by destruct Hr as [-> _]|].
    destruct ((ns =? "") || (name =? "")); [by destruct Hr as [-> _]|].
    cbn [prog_bind call runs] in Hr. by destruct Hr as (x & tr' & -> & -> & _).
Qed.

(** ** The registry *)

Lemma candidates_spec provisioner items cs :
  candidates provisioner items = Ok cs ->
  forall c, c ∈ cs <-> c ∈ items /\ NestedString (vc_driver (o_body c)) = Ok provisioner.
Proof.
  revert cs. induction items as [|item items IH]; cbn; intros cs.
  { intros [= <-] c. split; [by intros ?%elem_of_nil|by intros [?%elem_of_nil _]]. }
  destruct (NestedString (vc_driver (o_body item))) as [driver|e] eqn:Ed; [|done].
  destruct (candidates provisioner items) as [cs'|]; [|done]. intros [= <-] c. specialize (IH cs' eq_refl c).
  rewrite elem_of_cons. destruct (driver =? provisioner) eqn:E.
  - apply String.eqb_eq in E as ->. rewrite elem_of_cons, IH. naive_solver.
  - apply String.eqb_neq in E. rewrite IH. naive_solver congruence.
Qed.

Lemma candidates_class provisioner items e : candidates provisioner items = Err e -> err_is e = EOther.
Proof.
  revert e. induction items as [|item items IH]; cbn; intros e; [done|].
  destruct (NestedString (vc_driver (o_body item))) as [driver|e'] eqn:Ed.
  - destruct (candidates provisioner items) as [cs'|e']; [done|]. intros [= <-]. by apply IH.
  - intros [= <-]. cbn. destruct (vc_driver (o_body item)); cbn in Ed; try done.
    by injection Ed as <-.
Qed.

Lemma sort_by_head {A} (k : A -> string) l x :
  head (sort_by k l) = Some x -> x ∈ l /\ forall y, y ∈ l -> string_le (k x) (k y).
Proof.
  pose proof (sort_by_perm k l) as Hp. intros Hh. destruct (sort_by k l) as [|z s] eqn:Es; [done|]. injection Hh as ->.
  assert (StronglySorted string_le (map k (x :: s))) as Hs.
  { rewrite <-Es, sort_by_keys. apply Sorted_StronglySorted; [|apply sort_strings_sorted].
    intros a b c. apply transitivity. }
  split; [rewrite <-Hp; left|]. intros y. rewrite <-Hp. intros [->|Hy]%elem_of_cons.
  - reflexivity.
  - apply StronglySorted_inv in Hs as [_ Hs]. rewrite Forall_forall in Hs. apply Hs. apply list_elem_of_fmap. by exists y.
Qed.

(** The class an exposer is built on. *)
Definition chosen (driver : string) (items : list (Object KVolumeSnapshotClass)) (c : Object KVolumeSnapshotClass) : Prop :=
  (c ∈ items /\ NestedString (vc_driver (o_body c)) = Ok driver)
  /\ forall c', c' ∈ items -> NestedString (vc_driver (o_body c')) = Ok driver -> string_le (o_name c) (o_name c').

Lemma findVolumeSnapshotClass_spec driver tr r :
  runs (findVolumeSnapshotClass driver) tr r ->
  (exists a, tr = [Ev (I := kube) (AList KVolumeSnapshotClass everything) a]
     /\ match r with
        | Ok (Some c) => exists items, a = Ok items /\ chosen driver items c
        | Ok None => exists items, a = Ok items
            /\ forall c, c ∈ items -> NestedString (vc_driver (o_body c)) <> Ok driver
        | Err e => a = Err e \/ (failure (Ev (I := kube) (AList KVolumeSnapshotClass everything) a) = None /\ err_is e = EOther)
        end).
Proof.
  unfold findVolumeSnapshotClass, list_. cbn [prog_bind call runs]. intros (a & tr' & -> & -> & ->). exists a. split; [done|].
  destruct a as [items|e]; [|by left]. destruct (candidates driver items) as [cs|e] eqn:Ec.
  2: { right. split; [done|]. by eapply candidates_class. }
  pose proof (candidates_spec _ _ _ Ec) as Hc. destruct (head (sort_by o_name cs)) as [c|] eqn:Eh.
  - exists items. split; [done|]. apply sort_by_head in Eh as [Hin Hle]. split; [by apply Hc|].
    intros c' H1 H2. apply Hle. by apply Hc.
  - exists items. split; [done|]. intros c H1 H2. assert (c ∈ cs) as Hin by (by apply Hc).
    rewrite <-(sort_by_perm o_name) in Hin. destruct (sort_by o_name cs); [by apply elem_of_nil in Hin|done].
Qed.

Lemma driverFor_spec pvc tr r :
  runs (driverFor pvc) tr r ->
  forall e, r = Err e -> err_is e = EUnsupported ->
  (exists ev err, ev ∈ tr /\ failure ev = Some err /\ err_is err = EUnsupported)
  \/ (pc_VolumeName (o_body pvc) <> ""
      /\ exists pv, tr = [Ev (I := kube) (AGet KPV "" (pc_VolumeName (o_body pvc))) (Ok pv)]
           /\ match pv_Source (o_body pv) with SourceCSI d _ => d = "" | _ => True end
           /\ lget (m_Annotations (o_meta pv)) migratedToAnnotation = "").
Proof.
  unfold driverFor, get. intros H e -> He. destruct (pc_VolumeName (o_body pvc) =? "") eqn:Ev; cbn [negb] in H.
  - destruct (pc_StorageClassName (o_body pvc)) as [[|c s]|]; [by destruct H as [_ [= ->]]| |by destruct H as [_ [= ->]]].
    cbn [prog_bind call runs] in H. destruct H as (x & tr' & -> & -> & H). left. destruct x as [sc|e'].
    + by destruct (negb _).
    + injection H as ->. eexists _, e'. by split; [left|].
  - cbn [prog_bind call runs] in H. destruct H as (x & tr' & -> & -> & H). destruct x as [pv|e'].
    + right. split; [by apply String.eqb_neq|]. exists pv. split; [done|].
      destruct (negb (match pv_Source (o_body pv) with SourceCSI d _ => d | _ => "" end =? "")) eqn:Ed; [done|].
      destruct (negb (lget (m_Annotations (o_meta pv)) migratedToAnnotation =? "")) eqn:Em; [done|].
      apply negb_false_iff, String.eqb_eq in Ed, Em. split; [|done]. by destruct (pv_Source (o_body pv)).
    + left. injection H as ->. eexists _, e'. by split; [left|].
Qed.

(** A claim is called unsupported, and so skipped, on evidence only: the volume it
    is bound to was read and is not CSI's, or the classes were listed and none is of
    its driver.  An error of the server is passed on as what it is.  And the exposer
    a claim gets is the shallow one exactly for a CephFS driver, on the class of
    that driver with the least name. *)
Theorem For_spec (P : parsers) (operatorNamespace : string) (pvc : Object KPVC) (tr : list happening)
    (r : result SnapshotExposer)
    (Hr : runs (For P operatorNamespace (Some pvc)) tr r)
    (Hs : forall ev err, ev ∈ tr -> failure ev = Some err -> err_is err <> EUnsupported) :
  match r with
  | Ok e =>
      exists driver origin before items c,
        tr = (before ++ [Ev (I := kube) (AList KVolumeSnapshotClass everything) (Ok items)])%list
        /\ runs (driverFor pvc) before (Ok (driver, origin)) /\ chosen driver items c
        /\ e = (if Contains driver cephfsProvisionerMarker then newCephFSShallowExposer P operatorNamespace (Some c)
                else newCSIGenericExposer P operatorNamespace (Some c))
  | Err e =>
      err_is e = EUnsupported ->
      (exists pv, Ev (I := kube) (AGet KPV "" (pc_VolumeName (o_body pvc))) (Ok pv) ∈ tr
         /\ match pv_Source (o_body pv) with SourceCSI d _ => d = "" | _ => True end)
      \/ exists driver origin before items,
           tr = (before ++ [Ev (I := kube) (AList KVolumeSnapshotClass everything) (Ok items)])%list
           /\ runs (driverFor pvc) before (Ok (driver, origin))
           /\ forall c, c ∈ items -> NestedString (vc_driver (o_body c)) <> Ok driver
  end.
Proof.
  unfold For in Hr. apply runs_bind in Hr as (tr1 & tr2 & d & -> & H1 & H2). destruct d as [[driver origin]|e].
  2: { destruct H2 as [-> ->]. intros He. destruct (driverFor_spec _ _ _ H1 e eq_refl He) as [(ev & err & Hin & Hf & Hu)|(_ & pv & -> & Hpv & _)].
       - destruct (Hs ev err); [|done|done]. by rewrite app_nil_r.
       - left. exists pv. split; [left|done]. }
  apply runs_bind in H2 as (tr2' & tr3 & c & -> & H2 & [-> ->]).
  apply findVolumeSnapshotClass_spec in H2 as (a & -> & Hc). destruct c as [[c|]|e].
  - destruct Hc as (items & -> & Hc). assert (forall X (x y : X) (b : bool), (if b then Ok x else Ok y) = Ok (if b then x else y)) as Hif by by intros ??? [].
    rewrite Hif. rewrite app_nil_r. by exists driver, origin, tr1, items, c.
  - intros _. right. destruct Hc as (items & -> & Hc). rewrite app_nil_r. by exists driver, origin, tr1, items.
  - intros He. exfalso. cbn in He. destruct Hc as [->|[_ Ho]]; [|congruence].
    eapply (Hs _ e); [apply elem_of_app; right; left|done|done].
Qed.

(** ** Witnesses *)

Definition wit_parsers : parsers := mkParsers (fun _ => None) (fun _ => None).
Definition wit_notFound : gerr := mkErr ENotFound "not found".

Definition wit_class (name : string) : Object KVolumeSnapshotClass :=
  mkObject (k := KVolumeSnapshotClass) (newMeta "" name ∅)
    (mkVolumeSnapshotClass (NFound "rbd.csi.ceph.com")
      (NFound {[ snapshotterSecretNameParam := PString "creds"; snapshotterSecretNamespaceParam := PString "rook" ]})).

Definition wit_claim : Object KPVC :=
  mkObject (k := KPVC) (newMeta "team" "data" ∅)
    (mkPersistentVolumeClaim [ReadWriteOnce] (Some "rbd") 10 "pv-1" None None ClaimBound).

Definition wit_volume : Object KPV :=
  mkObject (k := KPV) (newMeta "" "pv-1" ∅)
    (mkPersistentVolume (SourceCSI "rbd.csi.ceph.com" "h") 10 [ReadWriteOnce] "Delete" "rbd" [] None None
      (Some ("team", "data")) "Bound").

Definition wit_labels : labels := {[ LabelBackup := "nightly"; LabelNamespace := "team"; LabelPVC := "data" ]}.

(** The origin content that a crash left Retain. *)
Definition wit_content : Object KVolumeSnapshotContent :=
  mkObject (k := KVolumeSnapshotContent) (newMeta "" "snapcontent-1" wit_labels)
    (mkVolumeSnapshotContent (NFound deletionPolicyRetain) (NFound "rbd.csi.ceph.com") NAbsent None (NFound "snap-1")).

Definition wit_server : server kube :=
  plainServer
    (fun k _ _ => match k with KPV => Ok wit_volume | _ => Err wit_notFound end)
    (fun k _ => match k with
                | KVolumeSnapshotClass => Ok [wit_class "b"; wit_class "a"]
                | KVolumeSnapshotContent => Ok [wit_content]
                | _ => Ok []
                end).

Definition wit_exposure : Exposure := deriveExposure "team" "crystal" "p" wit_labels.

Lemma registry_exposers_keep_contract_witness :
  exposer_contract (newCSIGenericExposer wit_parsers "crystal" (Some (wit_class "a"))).
Proof.
  apply (registry_exposers_keep_contract wit_parsers "crystal" (Some wit_claim)
    (fst (exec wit_server (For wit_parsers "crystal" (Some wit_claim)) []))).
  apply (exec_runs wit_server (For wit_parsers "crystal" (Some wit_claim)) []).
Defined.

Lemma teardown_never_crosses_runs_witness :
  let tr := fst (exec wit_server (cleanup wit_exposure) []) in
  exists o, Exists (listed o) tr /\ o_name o = "snapcontent-1" /\ wit_labels ⊆ o_labels o.
Proof.
  cbv zeta. destruct (teardown_never_crosses_runs wit_exposure (fst (exec wit_server (cleanup wit_exposure) []))
    (snd (exec wit_server (cleanup wit_exposure) [])) "snapcontent-1") as [[=]|(o & Hl & Hn & Hs & _)].
  - apply exec_runs.
  - apply Forall_documented. by vm_compute.
  - by vm_compute.
  - exists o. split; [exact Hl|]. split; [exact Hn|exact Hs].
Defined.

Lemma Precheck_spec_witness :
  let run := exec wit_server (Precheck (Some (wit_class "a"))) [] in
  pr_OK (snd run) = false /\ forallb passive (fst run) = true.
Proof.
  cbv zeta. split; [by vm_compute|].
  apply (Precheck_spec (Some (wit_class "a")) _ _ (exec_runs wit_server (Precheck (Some (wit_class "a"))) [])).
Defined.

Lemma For_spec_witness :
  exists driver origin before items c,
    fst (exec wit_server (For wit_parsers "crystal" (Some wit_claim)) [])
    = (before ++ [Ev (I := kube) (AList KVolumeSnapshotClass everything) (Ok items)])%list
    /\ runs (driverFor wit_claim) before (Ok (driver, origin)) /\ chosen driver items c
    /\ newCSIGenericExposer wit_parsers "crystal" (Some (wit_class "a"))
       = (if Contains driver cephfsProvisionerMarker then newCephFSShallowExposer wit_parsers "crystal" (Some c)
          else newCSIGenericExposer wit_parsers "crystal" (Some c)).
Proof.
  apply (For_spec wit_parsers "crystal" wit_claim _ _ (exec_runs wit_server (For wit_parsers "crystal" (Some wit_claim)) [])).
  intros ev err Hin Hf.
  assert (forallb (fun ev => match failure ev with None => true | Some _ => false end)
    (fst (exec wit_server (For wit_parsers "crystal" (Some wit_claim)) [])) = true) as Hn by (by vm_compute).
  rewrite forallb_elem in Hn. specialize (Hn ev Hin). by rewrite Hf in Hn.
Defined.
