(* ===== verification/RestoreExposer.v ===== *)
(** * RestoreExposer: the volume a restore writes into (internal/rexposer/)

    A restore's mover runs in the operator's namespace and writes a claim of another
    one.  A bound target is aliased by a twin PersistentVolume; a missing or unbound
    one is provisioned as a staging claim, whose volume [Finalize] transplants to the
    final claim once the mover has succeeded. *)

From Stdlib Require Import Ascii String.
From S2P Require Import Prelude GoText Program Cluster Status Api.

#[local] Open Scope string_scope.

Definition KindTransplant : string := "pvc-transplant".
Definition KindTwin : string := "pv-twin".
Definition PVRoleTwin : string := "twin".
Definition PVRoleTransplant : string := "transplant".
Definition AnnotationRestoredFrom : string := "crystalbackup.io/restored-from".
Definition AnnotationExposureNode : string := "crystalbackup.io/exposure-node".
Definition NodeReady : string := "Ready".

Definition ErrBlockUnsupported : gerr := errorf "restore into a volumeMode: Block PVC is not supported".

Definition StagingPVCName (prefix : string) : string := prefix ++ "-target".
Definition TwinPVName (prefix : string) : string := prefix ++ "-twin".

Record TargetRequest := mkTargetRequest {
  tr_TargetNamespace : string;
  tr_PVCName : string;
  tr_StorageClass : string;
  tr_Capacity : Z;
  tr_AccessModes : list string;
  tr_NamePrefix : string;
  tr_Labels : labels;
  tr_RestoredFromRun : string
}.

Record TargetExposure := mkTargetExposure {
  tx_Kind : string;
  tx_TargetNamespace : string;
  tx_TargetPVCName : string;
  tx_OperatorNamespace : string;
  tx_StagingPVCName : string;
  tx_TwinPVName : string;
  tx_NodeName : string;
  tx_Labels : labels;
  tx_RestoredFromRun : string
}.

Section TargetExposer.
Variable OperatorNamespace : string.

(** ** Expose *)

Definition exposure (kind : string) (req : TargetRequest) (twinPV node : string) : TargetExposure :=
  mkTargetExposure kind (tr_TargetNamespace req) (tr_PVCName req) OperatorNamespace
    (StagingPVCName (tr_NamePrefix req)) twinPV node (tr_Labels req) (tr_RestoredFromRun req).

Definition stagingText (name : string) : string := "create staging PVC " ++ slash OperatorNamespace name.

Definition exposeTransplant (req : TargetRequest) : api (result TargetExposure) :=
  let modes := match tr_AccessModes req with [] => [ReadWriteOnce] | ms => ms end in
  let class := if tr_StorageClass req =? "" then None else Some (tr_StorageClass req) in
  let staging := mkObject (k := KPVC) (newMeta OperatorNamespace (StagingPVCName (tr_NamePrefix req)) (tr_Labels req))
    (mkPersistentVolumeClaim modes class (tr_Capacity req) "" None None "") in
  mustCreate KPVC staging (stagingText (o_name staging)) (Done (Ok (exposure KindTransplant req "" ""))).

(** The nodes the volume is attached to, without repetition. *)
Definition attachedNodes (pvName : string) (items : list (Object KVolumeAttachment)) : list string :=
  remove_dups (map (fun va : Object KVolumeAttachment => va_NodeName (o_body va))
    (List.filter (fun va : Object KVolumeAttachment => match va_PersistentVolumeName (o_body va) with
                            | Some n => (n =? pvName) && va_Attached (o_body va)
                            | None => false
                            end) items)).

(** The first Ready condition decides; a Node without one is taken as it is. *)
Definition nodeUsable (node : Node) : bool :=
  match List.find (fun c => fst c =? NodeReady) (nd_Conditions node) with
  | Some c => snd c =? ConditionTrue
  | None => true
  end.

Definition attachedNode (pvName : string) : api (result string) :=
  let! r := list_ KVolumeAttachment everything in
  match r with
  | Err e => Done (Err (wrap_err ("list VolumeAttachments for PV " ++ pvName) e))
  | Ok items =>
      match attachedNodes pvName items with
      | [name] =>
          let! r := get KNode "" name in
          Done match r with
          | Err e =>
              if IsNotFound e then Ok ""
              else Err (wrap_err ("get attached node " ++ name ++ " for PV " ++ pvName) e)
          | Ok node => Ok (if nodeUsable (o_body node) then name else "")
          end
      | _ => Done (Ok "")
      end
  end.

Definition isBlock (mode : option string) : bool :=
  match mode with Some m => m =? VolumeModeBlock | None => false end.

Definition twinOf (req : TargetRequest) (bound : PersistentVolume) : Object KPV :=
  mkObject (k := KPV) (newMeta "" (TwinPVName (tr_NamePrefix req)) (<[LabelPVRole := PVRoleTwin]> (tr_Labels req)))
    (mkPersistentVolume (pv_Source bound) (pv_Capacity bound) (pv_AccessModes bound) ReclaimRetain
      (pv_StorageClassName bound) (pv_MountOptions bound) (pv_VolumeMode bound) (pv_NodeAffinity bound)
      (Some (OperatorNamespace, StagingPVCName (tr_NamePrefix req))) "").

Definition exposeTwin (req : TargetRequest) (target : Object KPVC) : api (result TargetExposure) :=
  let volume := pc_VolumeName (o_body target) in
  let! r := get KPV "" volume in
  match r with
  | Err e => Done (Err (wrap_err ("get bound PV " ++ volume ++ " of target PVC "
               ++ slash (o_namespace target) (o_name target)) e))
  | Ok boundPV =>
      let bound := o_body boundPV in
      if isBlock (pv_VolumeMode bound) then Done (Err ErrBlockUnsupported)
      else
        let stagingName := StagingPVCName (tr_NamePrefix req) in
        let twinName := TwinPVName (tr_NamePrefix req) in
        mustCreate KPV (twinOf req bound) ("create twin PV " ++ twinName)
        (let! n := attachedNode (o_name boundPV) in
         match n with
         | Err e => Done (Err e)
         | Ok node =>
             let meta := newMeta OperatorNamespace stagingName (tr_Labels req) in
             let meta := if node =? "" then meta else set_m_annotations {[ AnnotationExposureNode := node ]} meta in
             let staging := mkObject (k := KPVC) meta
               (mkPersistentVolumeClaim (pv_AccessModes bound) (Some (pv_StorageClassName bound)) (pv_Capacity bound)
                 twinName None None "") in
             mustCreate KPVC staging (stagingText stagingName) (Done (Ok (exposure KindTwin req twinName node)))
         end)
  end.

Definition TargetExpose (req : TargetRequest) : api (result TargetExposure) :=
  let stagingName := StagingPVCName (tr_NamePrefix req) in
  let! r := get KPVC OperatorNamespace stagingName in
  match r with
  | Ok staging =>
      if pc_VolumeName (o_body staging) =? TwinPVName (tr_NamePrefix req) then
        Done (Ok (exposure KindTwin req (TwinPVName (tr_NamePrefix req))
          (lget (m_Annotations (o_meta staging)) AnnotationExposureNode)))
      else Done (Ok (exposure KindTransplant req "" ""))
  | Err e =>
      if negb (IsNotFound e) then
        Done (Err (wrap_err ("get staging PVC " ++ slash OperatorNamespace stagingName) e))
      else
        let! r := get KPVC (tr_TargetNamespace req) (tr_PVCName req) in
        match r with
        | Err e =>
            if IsNotFound e then exposeTransplant req
            else Done (Err (wrap_err ("get restore target PVC " ++ slash (tr_TargetNamespace req) (tr_PVCName req)) e))
        | Ok target =>
            if isBlock (pc_VolumeMode (o_body target)) then Done (Err ErrBlockUnsupported)
            else if negb (pc_Phase (o_body target) =? ClaimBound) || (pc_VolumeName (o_body target) =? "") then
              exposeTransplant req
            else exposeTwin req target
        end
  end.

Definition TargetReady (ex : TargetExposure) : api (result bool) :=
  let! r := get KPVC (tx_OperatorNamespace ex) (tx_StagingPVCName ex) in
  Done match r with
  | Err e => if IsNotFound e then Ok false else Err e
  | Ok staging => Ok (if tx_Kind ex =? KindTwin then pc_Phase (o_body staging) =? ClaimBound else true)
  end.

(** ** Finalize *)

Definition findTransplantPV (ex : TargetExposure) : api (result (option (Object KPV))) :=
  let sel := mkSelector None (<[LabelPVRole := PVRoleTransplant]> (tx_Labels ex)) [] in
  let! r := list_ KPV sel in
  Done match r with
  | Err e => Err (wrap_err ("list transplant PVs for " ++ slash (tx_TargetNamespace ex) (tx_TargetPVCName ex)) e)
  | Ok items => Ok (head items)
  end.

Definition storageClassReclaimPolicy (scName : string) : api string :=
  if scName =? "" then Done ReclaimDelete
  else
    let! r := get KStorageClass "" scName in
    Done match r with
    | Ok sc => default ReclaimDelete (sc_ReclaimPolicy (o_body sc))
    | Err _ => ReclaimDelete
    end.

Definition set_pv_policy (p : string) (b : PersistentVolume) : PersistentVolume :=
  mkPersistentVolume (pv_Source b) (pv_Capacity b) (pv_AccessModes b) p (pv_StorageClassName b) (pv_MountOptions b)
    (pv_VolumeMode b) (pv_NodeAffinity b) (pv_ClaimRef b) (pv_Phase b).
Definition set_pv_claimRef (r : option (string * string)) (b : PersistentVolume) : PersistentVolume :=
  mkPersistentVolume (pv_Source b) (pv_Capacity b) (pv_AccessModes b) (pv_ReclaimPolicy b) (pv_StorageClassName b)
    (pv_MountOptions b) (pv_VolumeMode b) (pv_NodeAffinity b) r (pv_Phase b).

Definition set_pv_body (f : PersistentVolume -> PersistentVolume) (o : Object KPV) : Object KPV :=
  mkObject (k := KPV) (o_meta o) (f (o_body o)).

Definition retainAndReleaseStaging (ex : TargetExposure) (staging : Object KPVC) : api (result unit) :=
  let volume := pc_VolumeName (o_body staging) in
  if volume =? "" then Done (Ok tt)
  else
    let! r := get KPV "" volume in
    match r with
    | Err e => Done (Err (wrap_err ("get transplant PV " ++ volume) e))
    | Ok pv =>
        let deleteStaging :=
          must (delete KPVC (o_namespace staging) (o_name staging)) IsNotFound
            ("delete staging PVC " ++ slash (o_namespace staging) (o_name staging)) (Done (Ok tt)) in
        if negb (lget (o_labels pv) LabelPVRole =? PVRoleTransplant)
           || negb (pv_ReclaimPolicy (o_body pv) =? ReclaimRetain) then
          mustPatch KPV pv
            (set_o_labels (<[LabelPVRole := PVRoleTransplant]> (tx_Labels ex ∪ o_labels pv))
              (set_pv_body (set_pv_policy ReclaimRetain) pv))
            ("label+retain transplant PV " ++ o_name pv) (fun _ => deleteStaging)
        else deleteStaging
    end.

Definition createFinalPVC (ex : TargetExposure) (pv : Object KPV) (rest : api (result bool)) : api (result bool) :=
  let meta := newMeta (tx_TargetNamespace ex) (tx_TargetPVCName ex) ∅ in
  let meta := if tx_RestoredFromRun ex =? "" then meta
              else set_m_annotations {[ AnnotationRestoredFrom := tx_RestoredFromRun ex ]} meta in
  let b := o_body pv in
  mustCreate KPVC (mkObject (k := KPVC) meta
      (mkPersistentVolumeClaim (pv_AccessModes b) (Some (pv_StorageClassName b)) (pv_Capacity b) (o_name pv) None None ""))
    ("create final PVC " ++ slash (tx_TargetNamespace ex) (tx_TargetPVCName ex)) rest.

(** The final claim, with the volume name and the provenance set. *)
Definition adoptFinal (ex : TargetExposure) (pv : Object KPV) (final : Object KPVC) : Object KPVC :=
  let c := o_body final in
  let meta := o_meta final in
  mkObject (k := KPVC)
    (if tx_RestoredFromRun ex =? "" then meta
     else set_m_annotations (<[AnnotationRestoredFrom := tx_RestoredFromRun ex]> (m_Annotations meta)) meta)
    (mkPersistentVolumeClaim (pc_AccessModes c) (pc_StorageClassName c) (pc_Storage c) (o_name pv) (pc_VolumeMode c)
      (pc_DataSource c) (pc_Phase c)).

(** The volume is released to its class and to the user. *)
Definition releaseVolume (ex : TargetExposure) (pv : Object KPV) : api (result bool) :=
  let! policy := storageClassReclaimPolicy (pv_StorageClassName (o_body pv)) in
  mustPatch KPV pv
    (set_o_labels (base.delete LabelPVRole (o_labels pv ∖ tx_Labels ex)) (set_pv_body (set_pv_policy policy) pv))
    ("release transplant PV " ++ o_name pv ++ " to its class policy") (fun _ => Done (Ok true)).

Definition bindFinal (ex : TargetExposure) (pv : Object KPV) : api (result bool) :=
  let claim := slash (tx_TargetNamespace ex) (tx_TargetPVCName ex) in
  let! r := get KPVC (tx_TargetNamespace ex) (tx_TargetPVCName ex) in
  match r with
  | Err e =>
      if IsNotFound e then createFinalPVC ex pv (Done (Ok false))
      else Done (Err (wrap_err ("get final PVC " ++ claim) e))
  | Ok final =>
      let volume := pc_VolumeName (o_body final) in
      if volume =? "" then
        mustPatch KPVC final (adoptFinal ex pv final)
          ("bind pre-existing final PVC " ++ claim ++ " to the transplant volume") (fun _ => Done (Ok false))
      else if negb (volume =? o_name pv) then
        Done (Err (errorf ("final PVC " ++ claim ++ " is bound to volume " ++ quoted volume
          ++ ", not the transplant volume " ++ quoted (o_name pv))))
      else if negb (pc_Phase (o_body final) =? ClaimBound) then Done (Ok false)
      else releaseVolume ex pv
  end.

Definition handOver (ex : TargetExposure) (pv : Object KPV) : api (result bool) :=
  let final := (tx_TargetNamespace ex, tx_TargetPVCName ex) in
  if bool_decide (pv_ClaimRef (o_body pv) = Some final) then bindFinal ex pv
  else if pv_Phase (o_body pv) =? VolumeBound then Done (Ok false)
  else
    mustPatch KPV pv (set_pv_body (set_pv_claimRef (Some final)) pv)
      ("re-point transplant PV " ++ o_name pv ++ " claimRef") (bindFinal ex).

Definition Finalize (ex : TargetExposure) : api (result bool) :=
  if negb (tx_Kind ex =? KindTransplant) then Done (Ok true)
  else
    let! r := get KPVC (tx_OperatorNamespace ex) (tx_StagingPVCName ex) in
    match r with
    | Ok staging =>
        if m_Deleting (o_meta staging) then Done (Ok false)
        else
          let! r := retainAndReleaseStaging ex staging in
          Done match r with Ok tt => Ok false | Err e => Err e end
    | Err e =>
        if negb (IsNotFound e) then
          Done (Err (wrap_err ("get staging PVC " ++ slash (tx_OperatorNamespace ex) (tx_StagingPVCName ex)) e))
        else
          let! r := findTransplantPV ex in
          match r with
          | Err e => Done (Err e)
          | Ok None =>
              let! r := get KPVC (tx_TargetNamespace ex) (tx_TargetPVCName ex) in
              let missing := Err (errorf ("transplant volume for " ++ slash (tx_TargetNamespace ex) (tx_TargetPVCName ex)
                ++ " not found: no staging PVC, no labeled PV, no bound final claim")) in
              Done match r with
              | Ok final => if negb (pc_VolumeName (o_body final) =? "") then Ok true else missing
              | Err _ => missing
              end
          | Ok (Some pv) => handOver ex pv
          end
    end.

(** ** Cleanup *)

Definition reclaimUnfinishedTransplant (ex : TargetExposure) : api (result unit) :=
  let! r := findTransplantPV ex in
  match r with
  | Err e => Done (Err e)
  | Ok None => Done (Ok tt)
  | Ok (Some pv) =>
      let! r := get KPVC (tx_TargetNamespace ex) (tx_TargetPVCName ex) in
      let delivered := match r with Ok final => pc_VolumeName (o_body final) =? o_name pv | Err _ => false end in
      if delivered then
        let! r := handOver ex pv in
        Done match r with Ok _ => Ok tt | Err e => Err e end
      else if negb (pv_ReclaimPolicy (o_body pv) =? ReclaimDelete) then
        mustPatch KPV pv (set_pv_body (set_pv_policy ReclaimDelete) pv)
          ("set reclaimPolicy Delete on failed transplant PV " ++ o_name pv) (fun _ => Done (Ok tt))
      else Done (Ok tt)
  end.

Definition TargetCleanup (ex : TargetExposure) : api (result unit) :=
  must (delete KPVC (tx_OperatorNamespace ex) (tx_StagingPVCName ex)) IsNotFound
    ("delete staging PVC " ++ slash (tx_OperatorNamespace ex) (tx_StagingPVCName ex))
  (if tx_Kind ex =? KindTwin then
     must (delete KPV "" (tx_TwinPVName ex)) IsNotFound ("delete twin PV " ++ tx_TwinPVName ex) (Done (Ok tt))
   else if tx_Kind ex =? KindTransplant then reclaimUnfinishedTransplant ex
   else Done (Ok tt)).
End TargetExposer.

(** ** What an exposure may touch *)

Definition stagingKey (ex : TargetExposure) : key := mkKey KPVC (tx_OperatorNamespace ex) (tx_StagingPVCName ex).
Definition twinKey (ex : TargetExposure) : key := mkKey KPV "" (tx_TwinPVName ex).
Definition finalKey (ex : TargetExposure) : key := mkKey KPVC (tx_TargetNamespace ex) (tx_TargetPVCName ex).

(** An event that deletes nothing. *)
Definition sparing (e : happening) : bool := negb (isDelete e).

(** The deletions of a trace are among [l]. *)
Definition deletesIn (l : list key) (e : happening) : Prop :=
  match ev_action e with ADelete k ns name => mkKey k ns name ∈ l | _ => True end.

(** The volume is findable and survives its claim: it was read labelled and Retain,
    or patched so. *)
Definition keeps (o : Object KPV) : bool :=
  (lget (o_labels o) LabelPVRole =? PVRoleTransplant) && (pv_ReclaimPolicy (o_body o) =? ReclaimRetain).

Definition kept (e : happening) : bool :=
  match e with
  | Ev (AGet KPV _ _) (Ok o) => keeps o
  | Ev (APatch KPV _ o) (Ok _) => keeps o
  | _ => false
  end.

(** What a read of the final claim said: it is bound to another volume or to none,
    it does not exist, or the read failed. *)
Definition notDelivered (ex : TargetExposure) (pv : string) (e : happening) : Prop :=
  match e with
  | Ev (AGet KPVC ns name) a =>
      mkKey KPVC ns name = finalKey ex
      /\ match a with Ok final => pc_VolumeName (o_body final) <> pv | Err _ => True end
  | _ => False
  end.

(** A write that gives the volume of a failed restore back to its provisioner: a
    transplant, still labelled so, whose policy becomes Delete. *)
Definition handsBack (volume : string) (e : happening) : Prop :=
  match ev_action e with
  | APatch KPV base o =>
      o_name base = volume /\ pv_ReclaimPolicy (o_body base) <> ReclaimDelete
      /\ pv_ReclaimPolicy (o_body o) = ReclaimDelete /\ lget (o_labels o) LabelPVRole = PVRoleTransplant
  | _ => False
  end.

Lemma handOver_quiet ex pv tr r : runs (handOver ex pv) tr r -> forallb sparing tr = true.
Proof.
  unfold handOver, bindFinal, createFinalPVC, releaseVolume, storageClassReclaimPolicy, mustPatch, mustCreate, patch, create, get.
  intros H. run_all H; done.
Qed.

Lemma sparing_deletesIn l tr : forallb sparing tr = true -> Forall (deletesIn l) tr.
Proof.
  rewrite forallb_elem, Forall_forall. intros H e He. specialize (H e He).
  unfold sparing, isDelete, deletesIn in *. by destruct (ev_action e).
Qed.

Lemma sparing_guard (P : happening -> bool) x seen tr :
  forallb sparing tr = true -> onlyAfter P (asksDelete x) seen tr = true.
Proof.
  rewrite forallb_elem. intros H. apply onlyAfter_none, Forall_forall. intros e He. specialize (H e He).
  unfold sparing, isDelete, asksDelete in *. by destruct (ev_action e).
Qed.

(** The final claim was read bound to the volume. *)
Definition finalBound (ex : TargetExposure) (volume : string) (e : happening) : Prop :=
  match e with
  | Ev (AGet KPVC ns name) (Ok final) =>
      mkKey KPVC ns name = finalKey ex /\ pc_VolumeName (o_body final) = volume /\ pc_Phase (o_body final) = ClaimBound
  | _ => False
  end.

(** A volume was patched so that nothing of the operator's selects it any more. *)
Definition releasedToUser (ex : TargetExposure) (volume : string) (e : happening) : Prop :=
  match e with
  | Ev (APatch KPV _ o) (Ok _) =>
      o_name o = volume /\ o_labels o !! LabelPVRole = None
      /\ forall k, is_Some (tx_Labels ex !! k) -> o_labels o !! k = None
  | _ => False
  end.

(** The claim names some volume, whichever. *)
Definition finalTaken (ex : TargetExposure) (e : happening) : Prop :=
  match e with
  | Ev (AGet KPVC ns name) (Ok final) => mkKey KPVC ns name = finalKey ex /\ pc_VolumeName (o_body final) <> ""
  | _ => False
  end.

(** A claim of the user's that is there already is changed only while it names no volume. *)
Definition adoptsUnbound (e : happening) : Prop :=
  match ev_action e with
  | APatch KPVC base _ => pc_VolumeName (o_body base) = ""
  | _ => True
  end.

Lemma releaseVolume_true ex pv tr :
  runs (releaseVolume ex pv) tr (Ok true) -> Exists (releasedToUser ex (o_name pv)) tr.
Proof.
  unfold releaseVolume, mustPatch, patch. intros (tr1 & tr2 & policy & -> & _ & H)%runs_bind.
  cbn [prog_bind call runs] in H. destruct H as ([o|e] & tr' & -> & H); cbn [runs] in H; destruct H as [-> H]; [|discriminate H].
  apply Exists_app. right. left. cbn. split_and!; [done|by rewrite lookup_delete_eq|].
  intros k Hk. apply lookup_delete_None. right. apply lookup_difference_None. by right.
Qed.

Lemma bindFinal_true ex pv tr :
  runs (bindFinal ex pv) tr (Ok true) -> Exists (finalBound ex (o_name pv)) tr /\ Exists (releasedToUser ex (o_name pv)) tr.
Proof.
  unfold bindFinal, get. cbn [prog_bind call runs]. intros (x & tr' & -> & H). destruct x as [final|e].
  - destruct (pc_VolumeName (o_body final) =? "") eqn:E1.
    { unfold mustPatch, patch in H. run_all H; discriminate H. }
    destruct (negb (pc_VolumeName (o_body final) =? o_name pv)) eqn:E2; [by destruct H as [_ H]|].
    destruct (negb (pc_Phase (o_body final) =? ClaimBound)) eqn:E3; [by destruct H as [_ H]|].
    apply negb_false_iff, String.eqb_eq in E2, E3. split; [left; by split_and!|right; by apply releaseVolume_true].
  - unfold createFinalPVC, mustCreate, create in H. run_all H; discriminate H.
Qed.

Lemma handOver_true ex pv tr :
  runs (handOver ex pv) tr (Ok true) ->
  exists volume, Exists (finalBound ex volume) tr /\ Exists (releasedToUser ex volume) tr.
Proof.
  unfold handOver, mustPatch, patch. destruct (bool_decide _); [intros H%bindFinal_true; by eexists|].
  destruct (_ =? VolumeBound); [by intros [_ H]|]. cbn [prog_bind call runs]. intros ([o|e] & tr' & -> & H).
  - apply bindFinal_true in H as [H1 H2]. exists (o_name o). split; by right.
  - by destruct H as [_ H].
Qed.

Lemma handOver_adopts ex pv tr r : runs (handOver ex pv) tr r -> Forall adoptsUnbound tr.
Proof.
  unfold handOver, bindFinal, createFinalPVC, releaseVolume, storageClassReclaimPolicy, mustPatch, mustCreate, patch, create, get.
  intros H. run_all H; repeat constructor; by apply String.eqb_eq.
Qed.

Lemma retainAndReleaseStaging_spec ex staging tr r :
  runs (retainAndReleaseStaging ex staging) tr r ->
  Forall (deletesIn [keyOf staging]) tr /\ onlyAfter kept (asksDelete (keyOf staging)) false tr = true
  /\ Forall adoptsUnbound tr.
Proof.
  unfold retainAndReleaseStaging, get. intros H. destruct (pc_VolumeName (o_body staging) =? "").
  { destruct H as [-> ->]. by split_and!. }
  cbn [prog_bind call runs] in H. destruct H as (x & tr1 & -> & H). destruct x as [pv|e]; [|by destruct H as [-> ->]; split_and!; repeat constructor].
  assert (forall tr0, runs (must (delete KPVC (o_namespace staging) (o_name staging)) IsNotFound
      ("delete staging PVC " ++ slash (o_namespace staging) (o_name staging)) (Done (Ok tt))) tr0 r ->
    Forall (deletesIn [keyOf staging]) tr0 /\ Forall adoptsUnbound tr0) as Hdel.
  { intros tr0 H0. unfold must, delete in H0. run_all H0; (split; repeat constructor; by apply list_elem_of_singleton). }
  destruct (negb _ || negb _) eqn:Ep.
  - unfold mustPatch, patch in H. cbn [prog_bind call runs] in H. destruct H as ([o|e] & tr2 & -> & H).
    + apply Hdel in H as [H1 H2]. split_and!; [by repeat (constructor; [done|])| |by repeat (constructor; [done|])].
      cbn. unfold keeps at 2. cbn. unfold lget. rewrite lookup_insert_eq. cbn. rewrite orb_true_r. apply onlyAfter_seen.
    + destruct H as [-> ->]. split_and!; repeat constructor.
  - apply Hdel in H as [H1 H2]. split_and!; [by constructor| |by constructor].
    cbn. apply orb_false_iff in Ep as [E1%negb_false_iff E2%negb_false_iff]. unfold keeps. rewrite E1, E2.
    apply onlyAfter_seen.
Qed.

(** A transplant is finished safely, whatever happens in between: only the staging
    claim is ever deleted, and only after the volume it was bound to was labelled
    and Retain; a claim of the user's is changed only while it names no volume; and
    a success means that the final claim was read bound to the volume and the volume
    released to its class, or else, when no volume bears the labels any more, that
    the final claim names a volume, whichever that is. *)
Theorem Finalize_spec (ex : TargetExposure) (tr : list happening) (r : result bool)
    (Hr : runs (Finalize ex) tr r) (Hd : Forall documented tr) :
  Forall (deletesIn [stagingKey ex]) tr
  /\ onlyAfter kept (asksDelete (stagingKey ex)) false tr = true
  /\ Forall adoptsUnbound tr
  /\ (r = Ok true -> tx_Kind ex = KindTransplant ->
        (exists volume, Exists (finalBound ex volume) tr /\ Exists (releasedToUser ex volume) tr)
        \/ Exists (finalTaken ex) tr).
Proof.
  unfold Finalize in Hr. destruct (negb (tx_Kind ex =? KindTransplant)) eqn:Ek.
  { destruct Hr as [-> ->]. split_and!; [constructor|done|constructor|]. intros _ Hk. rewrite Hk in Ek. done. }
  unfold get in Hr. cbn [prog_bind call runs] in Hr. destruct Hr as (x & tr1 & -> & Hr). destruct x as [staging|e].
  - apply Forall_cons in Hd as [Hst Hd]. unfold documented in Hst. cbn in Hst. apply andb_true_iff in Hst as [Hns Hn].
    apply String.eqb_eq in Hns, Hn.
    destruct (m_Deleting (o_meta staging)); [destruct Hr as [-> ->]; split_and!; [by repeat constructor|done|by repeat constructor|done]|].
    apply runs_bind in Hr as (tr2 & tr3 & x & -> & Hr & [-> ->]). rewrite app_nil_r.
    apply retainAndReleaseStaging_spec in Hr as (H1 & H2 & H3).
    assert (keyOf staging = stagingKey ex) as Hk by (unfold keyOf, stagingKey; by rewrite Hns, Hn).
    rewrite Hk in H1, H2. split_and!; [by constructor|done|by constructor|by destruct x as [[]|]].
  - destruct (negb (IsNotFound e)); [destruct Hr as [-> ->]; split_and!; [by repeat constructor|done|by repeat constructor|done]|].
    unfold findTransplantPV, list_ in Hr. cbn [prog_bind call runs] in Hr. destruct Hr as (x & tr2 & -> & Hr).
    assert (forall tr0, forallb sparing tr0 = true -> Forall adoptsUnbound tr0 ->
      Forall (deletesIn [stagingKey ex]) tr0 /\ onlyAfter kept (asksDelete (stagingKey ex)) false tr0 = true
      /\ Forall adoptsUnbound tr0) as Hq.
    { intros tr0 H1 H2. split_and!; [by apply sparing_deletesIn|by apply sparing_guard|done]. }
    destruct x as [items|e2]; [|destruct Hr as [-> ->]; edestruct Hq as (H1 & H2 & H3); [| |split_and!; [exact H1|exact H2|exact H3|done]]; [done|by repeat constructor]].
    destruct (head items) as [pv|]; cbn [prog_bind] in Hr.
    + pose proof (handOver_quiet _ _ _ _ Hr) as Hs. pose proof (handOver_adopts _ _ _ _ Hr) as Ha.
      edestruct Hq as (H1 & H2 & H3); [| |split_and!; [exact H1|exact H2|exact H3|]]; [exact Hs|by do 2 (constructor; [done|])|].
      intros -> _. left. apply handOver_true in Hr as (v & Hf & Hp). exists v. split; by do 2 right.
    + unfold get in Hr. cbn [prog_bind call runs] in Hr. destruct Hr as (y & tr3 & -> & -> & ->).
      edestruct Hq as (H1 & H2 & H3); [| |split_and!; [exact H1|exact H2|exact H3|]]; [done|by repeat constructor|].
      intros Ht _. right. do 2 right. left. destruct y as [final|e3]; [|discriminate Ht].
      cbn. split; [done|]. destruct (pc_VolumeName (o_body final) =? "") eqn:E; [discriminate Ht|by apply String.eqb_neq].
Qed.

Lemma handOver_keeps ex pv tr r volume : runs (handOver ex pv) tr r -> ~ Exists (handsBack volume) tr.
Proof.
  unfold handOver, bindFinal, createFinalPVC, releaseVolume, storageClassReclaimPolicy, mustPatch, mustCreate, patch, create, get.
  intros H Hx. apply Exists_exists in Hx as (e & Hin & He). run_all H.
  all: repeat (apply elem_of_cons in Hin as [->|Hin]; [by cbn in He; try tauto; destruct He as (_ & _ & _ & Hl);
    unfold lget in Hl; rewrite lookup_delete_eq in Hl|]).
  all: by apply elem_of_nil in Hin.
Qed.

Lemma reclaimUnfinishedTransplant_spec ex tr r :
  runs (reclaimUnfinishedTransplant ex) tr r ->
  forallb sparing tr = true /\ forall volume, Exists (handsBack volume) tr -> Exists (notDelivered ex volume) tr.
Proof.
  unfold reclaimUnfinishedTransplant, findTransplantPV, list_, get. cbn [prog_bind call runs].
  intros (x & tr1 & -> & H). assert (forall a volume, ~ handsBack volume (Ev (I := kube) (AList KPV (mkSelector None
    (<[LabelPVRole := PVRoleTransplant]> (tx_Labels ex)) [])) a)) as Hl by (by intros a volume []).
  assert (forall a volume, ~ handsBack volume (Ev (I := kube) (AGet KPVC (tx_TargetNamespace ex) (tx_TargetPVCName ex)) a)) as Hg
    by (by intros a volume []).
  destruct x as [items|e]; [|destruct H as [-> ->]; split; [done|]; by intros v [[]|H]%Exists_cons; inversion H].
  destruct (head items) as [pv|]; cbn [prog_bind call runs] in H;
    [|destruct H as [-> ->]; split; [done|]; by intros v [[]|H]%Exists_cons; inversion H].
  destruct H as (x & tr2 & -> & H).
  set (delivered := match x with Ok final => pc_VolumeName (o_body final) =? o_name pv | Err _ => false end) in H.
  destruct delivered eqn:Ed.
  - apply runs_bind in H as (t1 & t2 & y & -> & H & [-> ->]). rewrite app_nil_r.
    split; [by apply handOver_quiet in H|]. intros v [Hx|[Hx|Hx]%Exists_cons]%Exists_cons; [by apply Hl in Hx|by apply Hg in Hx|].
    by apply (handOver_keeps _ _ _ _ v H) in Hx.
  - unfold mustPatch, patch in H. assert (notDelivered ex (o_name pv) (Ev (I := kube) (AGet KPVC (tx_TargetNamespace ex) (tx_TargetPVCName ex)) x)) as Hn.
    { split; [done|]. destruct x as [final|]; [|done]. by apply String.eqb_neq. }
    destruct (negb _); [|destruct H as [-> ->]; split; [done|]; intros v [Hx|[Hx|Hx]%Exists_cons]%Exists_cons; [by apply Hl in Hx|by apply Hg in Hx|inversion Hx]].
    cbn [prog_bind call runs] in H. destruct H as (y & tr3 & -> & H).
    assert (tr3 = []) as -> by (destruct y; by destruct H as [-> _]). split; [done|].
    intros v [Hx|[Hx|[Hx|Hx]%Exists_cons]%Exists_cons]%Exists_cons; [by apply Hl in Hx|by apply Hg in Hx| |inversion Hx].
    destruct Hx as [<- _]. right. by left.
Qed.

(** A cleanup never takes a delivered volume for a failed one on a good read: it
    deletes the staging claim and, of a twin, the alias, nothing else; a volume is
    handed back to its provisioner only after the staging claim was gone and a read
    of the final claim did not say that it is bound to that volume. *)
Theorem TargetCleanup_spec (ex : TargetExposure) (tr : list happening) (r : result unit)
    (Hr : runs (TargetCleanup ex) tr r) :
  Forall (deletesIn (stagingKey ex :: if tx_Kind ex =? KindTwin then [twinKey ex] else [])) tr
  /\ (forall volume, Exists (handsBack volume) tr ->
        Exists (notDelivered ex volume) tr /\ Exists (fun e => deleted IsNotFound (stagingKey ex) e = true) tr)
  /\ (r = Ok tt -> Exists (fun e => deleted IsNotFound (stagingKey ex) e = true) tr).
Proof.
  unfold TargetCleanup, must at 1, delete in Hr. cbn [prog_bind call runs] in Hr. destruct Hr as (err & tr1 & -> & Hr).
  assert (match err with Some e => IsNotFound e | None => true end = true ->
    deleted IsNotFound (stagingKey ex) (Ev (I := kube) (ADelete KPVC (tx_OperatorNamespace ex) (tx_StagingPVCName ex)) err) = true) as Hdel.
  { intros He. cbn. rewrite bool_decide_true by done. by destruct err. }
  destruct (match err with Some e => IsNotFound e | None => true end) eqn:Ee.
  2: { destruct err as [e|]; [|done]. rewrite Ee in Hr. destruct Hr as [-> ->]. split_and!; [|by intros v [[]|H]%Exists_cons; inversion H|done].
       constructor; [left|constructor]. }
  specialize (Hdel eq_refl).
  assert (runs (if tx_Kind ex =? KindTwin
     then must (delete KPV "" (tx_TwinPVName ex)) IsNotFound ("delete twin PV " ++ tx_TwinPVName ex) (Done (Ok tt))
     else if tx_Kind ex =? KindTransplant then reclaimUnfinishedTransplant ex else Done (Ok tt)) tr1 r) as H1
    by (destruct err as [e|]; [by rewrite Ee in Hr|done]).
  clear Hr. split_and!; [| |by intros _; left].
  - constructor; [left|]. destruct (tx_Kind ex =? KindTwin).
    + unfold must, delete in H1. run_all H1; repeat constructor; by right; left.
    + destruct (tx_Kind ex =? KindTransplant); [|destruct H1 as [-> _]; constructor]. apply sparing_deletesIn.
      apply (reclaimUnfinishedTransplant_spec _ _ _ H1).
  - intros volume [[]|Hx]%Exists_cons. split; [|by left]. right. destruct (tx_Kind ex =? KindTwin).
    + exfalso. unfold must, delete in H1. run_all H1; apply Exists_cons in Hx as [[]|Hx]; inversion Hx.
    + destruct (tx_Kind ex =? KindTransplant); [|destruct H1 as [-> _]; inversion Hx].
      apply reclaimUnfinishedTransplant_spec in H1 as [_ H1]. by apply H1.
Qed.

(** ** Exposing again *)

(** A volume that is created is an alias: Retain, reserved for the staging claim, of
    the source of a volume that was read. *)
Definition aliasOf (opns : string) (req : TargetRequest) (tr : list happening) (e : happening) : Prop :=
  match ev_action e with
  | ACreate KPV o =>
      pv_ReclaimPolicy (o_body o) = ReclaimRetain
      /\ pv_ClaimRef (o_body o) = Some (opns, StagingPVCName (tr_NamePrefix req))
      /\ Exists (fun e : happening => match e with
                          | Ev (AGet KPV _ _) (Ok bound) => pv_Source (o_body o) = pv_Source (o_body bound)
                          | _ => False
                          end) tr
  | _ => True
  end.

(** The staging claim an exposure was created with. *)
Definition stagedAs (s : Object KPVC) (e : happening) : Prop :=
  match ev_action e with
  | ACreate KPVC o => o = s
  | _ => False
  end.

Lemma exposeTransplant_runs opns req tr r :
  runs (exposeTransplant opns req) tr r ->
  exists s a, tr = [Ev (I := kube) (ACreate KPVC s) a] /\ keyOf s = mkKey KPVC opns (StagingPVCName (tr_NamePrefix req))
    /\ pc_VolumeName (o_body s) = "" /\ forall ex, r = Ok ex -> ex = exposure opns KindTransplant req "" "".
Proof.
  unfold exposeTransplant, mustCreate, create. cbn [prog_bind call runs]. intros (a & tr' & -> & H).
  eexists _, a. split_and!; [|done|done|].
  - destruct a as [?|e]; [by destruct H as [-> _]|]. by destruct (IsAlreadyExists e); destruct H as [-> _].
  - intros ex ->. destruct a as [?|e]; [by destruct H as [_ [= ->]]|]. by destruct (IsAlreadyExists e); destruct H as [_ [= ->]].
Qed.

Lemma attachedNode_passive pv tr r : runs (attachedNode pv) tr r -> forallb passive tr = true.
Proof. unfold attachedNode, list_, get. intros H. run_all H; done. Qed.

(** What a twin exposure that succeeded created. *)
Lemma exposeTwin_runs opns req target tr r :
  runs (exposeTwin opns req target) tr r ->
  Forall (createsIn [mkKey KPVC opns (StagingPVCName (tr_NamePrefix req)); mkKey KPV "" (TwinPVName (tr_NamePrefix req))]) tr
  /\ Forall (aliasOf opns req tr) tr
  /\ forall ex, r = Ok ex -> exists s, (forall s', Exists (stagedAs s') tr -> s' = s)
       /\ pc_VolumeName (o_body s) = TwinPVName (tr_NamePrefix req)
       /\ ex = exposure opns KindTwin req (TwinPVName (tr_NamePrefix req)) (lget (m_Annotations (o_meta s)) AnnotationExposureNode).
Proof.
  unfold exposeTwin, get. cbn [prog_bind call runs]. intros (x & tr1 & -> & H).
  assert (forall l e, createsIn l (Ev (I := kube) (AGet KPV "" (pc_VolumeName (o_body target))) e)) as Hc0 by done.
  destruct x as [bound|e]; [|by destruct H as [-> ->]; split_and!; repeat constructor].
  destruct (isBlock _); [by destruct H as [-> ->]; split_and!; repeat constructor|].
  unfold mustCreate at 1, create in H. cbn [prog_bind call runs] in H. destruct H as (y & tr2 & -> & H).
  set (evs := Ev (I := kube) (AGet KPV "" (pc_VolumeName (o_body target))) (Ok bound)) in *.
  assert (forall tl, aliasOf opns req (evs :: tl) (Ev (I := kube) (ACreate KPV (twinOf opns req (o_body bound))) y)) as Hal
    by (intros tl; split_and!; [done..|by left]).
  assert (createsIn [mkKey KPVC opns (StagingPVCName (tr_NamePrefix req)); mkKey KPV "" (TwinPVName (tr_NamePrefix req))]
    (Ev (I := kube) (ACreate KPV (twinOf opns req (o_body bound))) y)) as Hcr by (right; left).
  assert (tr2 = [] /\ (exists e, r = Err e) \/ runs (let! n := attachedNode (o_name bound) in
         match n with
         | Err e => Done (Err e)
         | Ok node =>
             let meta := newMeta opns (StagingPVCName (tr_NamePrefix req)) (tr_Labels req) in
             let meta := if node =? "" then meta else set_m_annotations {[ AnnotationExposureNode := node ]} meta in
             let staging := mkObject (k := KPVC) meta
               (mkPersistentVolumeClaim (pv_AccessModes (o_body bound)) (Some (pv_StorageClassName (o_body bound)))
                 (pv_Capacity (o_body bound)) (TwinPVName (tr_NamePrefix req)) None None "") in
             mustCreate KPVC staging (stagingText opns (StagingPVCName (tr_NamePrefix req)))
               (Done (Ok (exposure opns KindTwin req (TwinPVName (tr_NamePrefix req)) node)))
         end) tr2 r) as [[-> [e ->]]|H1].
  { destruct y as [o|e]; [by right|]. destruct (IsAlreadyExists e); [by right|]. left. destruct H as [-> ->]. split; [done|]. by eexists. }
  { split_and!; [by repeat constructor|by repeat constructor|done]. }
  clear H. apply runs_bind in H1 as (t1 & t2 & n & -> & Hn%attachedNode_passive & H).
  assert (Forall (aliasOf opns req (evs :: Ev (I := kube) (ACreate KPV (twinOf opns req (o_body bound))) y :: t1 ++ t2)) t1) as Ht1.
  { apply Forall_forall. intros e He. rewrite forallb_elem in Hn. specialize (Hn e He). unfold passive, aliasOf in *.
    by destruct (ev_action e). }
  destruct n as [node|e].
  2: { destruct H as [-> ->]. split_and!; [constructor; [done|]; constructor; [done|]; apply Forall_app; split; [by apply passive_creates|constructor]| |done].
       constructor; [done|]. constructor; [apply Hal|]. by apply Forall_app. }
  cbv zeta in H. set (meta := if node =? "" then _ else _) in H. set (s := mkObject (k := KPVC) meta _) in H.
  assert (exists z, t2 = [Ev (I := kube) (ACreate KPVC s) z]) as [z ->].
  { unfold mustCreate, create in H. cbn [prog_bind call runs] in H. destruct H as (z & t3 & -> & H). exists z. f_equal.
    destruct z as [o|e]; [by destruct H|]. by destruct (IsAlreadyExists e); destruct H. }
  split_and!.
  - constructor; [done|]. constructor; [done|]. apply Forall_app. split; [by apply passive_creates|].
    constructor; [|constructor]. unfold createsIn, creation. cbn. unfold keyOf, o_namespace, o_name. unfold s, meta. cbn.
    destruct (node =? ""); left.
  - constructor; [done|]. constructor; [apply Hal|]. apply Forall_app. split; [done|]. by repeat constructor.
  - intros ex ->. exists s. split_and!; [|done|].
    + intros s' [[]|[[]|[Hx|Hx]%Exists_app]%Exists_cons]%Exists_cons.
      * exfalso. apply Exists_exists in Hx as (e & He & Hx). rewrite forallb_elem in Hn. specialize (Hn e He).
        unfold passive, stagedAs in *. by destruct (ev_action e).
      * apply Exists_cons in Hx as [Hx|Hx]; [done|inversion Hx].
    + unfold mustCreate, create in H. cbn [prog_bind call runs] in H. destruct H as (z' & t3 & _ & H).
      assert (lget (m_Annotations (o_meta s)) AnnotationExposureNode = node) as ->.
      { unfold s, meta. cbn [o_meta]. destruct (node =? "") eqn:En; [apply String.eqb_eq in En as ->; done|].
        change (lget {[ AnnotationExposureNode := node ]} AnnotationExposureNode = node).
        unfold lget. by rewrite lookup_singleton_eq. }
      destruct z' as [o|e]; [by destruct H as [_ [= ->]]|]. by destruct (IsAlreadyExists e); destruct H as [_ [= ->]].
Qed.

(** A read that answered the claim [s]. *)
Definition readAs (s : Object KPVC) (e : happening) : Prop :=
  match e with
  | Ev (AGet KPVC _ _) (Ok o) => o = s
  | _ => False
  end.

(** An exposure is restartable: what a first run that succeeded created is the
    staging claim and, for a bound target, its alias, which is Retain; and a later
    run that finds the staging claim creates nothing and returns the same exposure,
    the node included. *)
Theorem TargetExpose_restart (opns : string) (req : TargetRequest) (tr tr2 : list happening) (ex : TargetExposure)
    (r2 : result TargetExposure) (s s2 : Object KPVC)
    (Hr : runs (TargetExpose opns req) tr (Ok ex)) (Hs : Exists (stagedAs s) tr)
    (Hsame : m_Annotations (o_meta s2) = m_Annotations (o_meta s)
      /\ (pc_VolumeName (o_body s) = TwinPVName (tr_NamePrefix req) -> pc_VolumeName (o_body s2) = pc_VolumeName (o_body s))
      /\ (pc_VolumeName (o_body s) = "" -> pc_VolumeName (o_body s2) <> TwinPVName (tr_NamePrefix req)))
    (Hr2 : runs (TargetExpose opns req) tr2 r2)
    (Hfirst : match tr2 with e :: _ => readAs s2 e | [] => False end) :
  forallb passive tr2 = true /\ r2 = Ok ex
  /\ Forall (createsIn [mkKey KPVC opns (StagingPVCName (tr_NamePrefix req)); mkKey KPV "" (TwinPVName (tr_NamePrefix req))]) tr
  /\ Forall (aliasOf opns req tr) tr.
Proof.
  destruct Hsame as (Hann & Htwin & Hempty). unfold TargetExpose in Hr2. unfold get at 1 in Hr2. cbn [prog_bind call runs] in Hr2.
  destruct Hr2 as (y & tr' & -> & Hr2). destruct y as [s0|e]; [|done]. cbn in Hfirst. subst s0.
  unfold TargetExpose, get in Hr. cbn [prog_bind call runs] in Hr. destruct Hr as (x & tr1 & -> & Hr).
  apply Exists_cons in Hs as [[]|Hs]. destruct x as [s0|e].
  { exfalso. destruct (_ =? TwinPVName _) in Hr; destruct Hr as [-> _]; inversion Hs. }
  destruct (negb (IsNotFound e)); [by destruct Hr|].
  destruct Hr as (x & tr3 & -> & Hr). apply Exists_cons in Hs as [[]|Hs].
  assert (runs (exposeTransplant opns req) tr3 (Ok ex) \/ exists target, runs (exposeTwin opns req target) tr3 (Ok ex)) as [H|[target H]].
  { destruct x as [target|e']; [|destruct (IsNotFound e'); [by left|by destruct Hr]].
    destruct (isBlock _); [by destruct Hr|]. destruct (negb _ || _); [by left|]. right. by eexists. }
  - apply exposeTransplant_runs in H as (s0 & a & -> & Hk & Hv & Hex). apply Exists_cons in Hs as [Hs|Hs]; [|inversion Hs].
    cbn in Hs. subst s0. destruct (_ =? TwinPVName _) eqn:E in Hr2; [apply String.eqb_eq in E; by apply Hempty in E|].
    destruct Hr2 as [-> ->]. rewrite (Hex ex eq_refl). split_and!; [done|done| |by repeat constructor].
    constructor; [done|]. constructor; [done|]. constructor; [|constructor]. unfold createsIn, creation. cbn. rewrite Hk. left.
  - apply exposeTwin_runs in H as (Hc & Ha & Hex). destruct (Hex ex eq_refl) as (s0 & Hs0 & Hv & ->).
    apply Hs0 in Hs as <-.
    rewrite (Htwin Hv), Hv, String.eqb_refl in Hr2. destruct Hr2 as [-> ->]. rewrite Hann. split_and!; [done|done|by do 2 (constructor; [done|])|].
    do 2 (constructor; [done|]). eapply Forall_impl; [exact Ha|]. intros ev. unfold aliasOf. destruct (ev_action ev) as [| |[]| | | | ]; try done.
    intros (H1 & H2 & H3). split_and!; [done..|]. by do 2 right.
Qed.

(** ** Witnesses *)

Definition wit_target : TargetExposure :=
  mkTargetExposure KindTransplant "team" "data" "crystal" "p-target" "" "" {[ LabelRestore := "r1" ]} "nightly".

(** A volume whose handover is done but for its tail: the user's claim is bound to it. *)
Definition wit_pv : Object KPV :=
  mkObject (k := KPV) (newMeta "" "pvc-1" {[ LabelRestore := "r1"; LabelPVRole := PVRoleTransplant ]})
    (mkPersistentVolume (SourceCSI "d" "h") 10 [ReadWriteOnce] ReclaimRetain "keep" [] None None (Some ("team", "data")) VolumeBound).

Definition wit_final (volume : string) : Object KPVC :=
  mkObject (k := KPVC) (newMeta "team" "data" ∅)
    (mkPersistentVolumeClaim [ReadWriteOnce] (Some "keep") 10 volume None None ClaimBound).

Definition wit_target_server (final : result (Object KPVC)) (volumes : list (Object KPV)) : server kube :=
  plainServer (fun k _ name => match k return result (Object k) with
                               | KPVC => if name =? "data" then final else Err (mkErr ENotFound "not found")
                               | _ => Err (mkErr ENotFound "not found")
                               end)
    (fun k _ => match k return result (list (Object k)) with KPV => Ok volumes | _ => Ok [] end).

Lemma Finalize_spec_witness :
  let run := exec (wit_target_server (Ok (wit_final "pvc-1")) [wit_pv]) (Finalize wit_target) [] in
  snd run = Ok true /\ Forall adoptsUnbound (fst run)
  /\ ((exists volume, Exists (finalBound wit_target volume) (fst run) /\ Exists (releasedToUser wit_target volume) (fst run))
      \/ Exists (finalTaken wit_target) (fst run)).
Proof.
  cbv zeta. destruct (Finalize_spec wit_target _ _ (exec_runs (wit_target_server (Ok (wit_final "pvc-1")) [wit_pv]) (Finalize wit_target) []))
    as (_ & _ & Ha & Ht).
  - apply Forall_documented. by vm_compute.
  - split; [by vm_compute|]. split; [exact Ha|]. apply Ht; by vm_compute.
Defined.

Lemma TargetCleanup_spec_witness :
  let run := exec (wit_target_server (Err (mkErr ENotFound "not found")) [wit_pv]) (TargetCleanup wit_target) [] in
  snd run = Ok tt /\ Exists (fun e => deleted IsNotFound (stagingKey wit_target) e = true) (fst run).
Proof.
  cbv zeta. split; [by vm_compute|].
  apply (TargetCleanup_spec wit_target _ _ (exec_runs (wit_target_server (Err (mkErr ENotFound "not found")) [wit_pv]) (TargetCleanup wit_target) [])).
  by vm_compute.
Defined.

(** A read that fails is taken for "not delivered": while the API server does not
    answer for the final claim, a cleanup sets the volume of a delivered restore,
    bound to the user's claim, back to Delete and reports success.  And with no
    labelled volume left, [Finalize] takes a claim that is bound to any other volume
    for a delivered restore. *)
Theorem failed_read_hands_back :
  (exists tr, runs (TargetCleanup wit_target) tr (Ok tt) /\ Exists (handsBack "pvc-1") tr
     /\ pv_ClaimRef (o_body wit_pv) = Some (tx_TargetNamespace wit_target, tx_TargetPVCName wit_target)
     /\ pv_Phase (o_body wit_pv) = VolumeBound)
  /\ (exists tr, runs (Finalize wit_target) tr (Ok true) /\ Exists (finalTaken wit_target) tr
        /\ Forall (fun e => ~ finalBound wit_target "pvc-1" e) tr).
Proof.
  split.
  - exists (fst (exec (wit_target_server (Err (mkErr EOther "timeout")) [wit_pv]) (TargetCleanup wit_target) [])).
    split_and!; [apply (exec_runs (wit_target_server (Err (mkErr EOther "timeout")) [wit_pv]) (TargetCleanup wit_target) [])| |done|done].
    right. right. right. left. by split_and!.
  - exists (fst (exec (wit_target_server (Ok (wit_final "other")) []) (Finalize wit_target) [])).
    split_and!; [apply (exec_runs (wit_target_server (Ok (wit_final "other")) []) (Finalize wit_target) [])| |].
    + right. right. left. by split.
    + repeat constructor; cbn; tauto || (intros (_ & [=] & _)).
Qed.

Definition wit_request : TargetRequest :=
  mkTargetRequest "team" "data" "keep" 10 [ReadWriteOnce] "p" {[ LabelRestore := "r1" ]} "nightly".

Definition wit_expose_server (staging : result (Object KPVC)) : server kube :=
  plainServer
    (fun k _ name => match k return result (Object k) with
                     | KPVC => if name =? "data" then Ok (wit_final "pvc-1") else staging
                     | KPV => Ok wit_pv
                     | KNode => Ok (mkObject (k := KNode) (newMeta "" "n1" ∅) (mkNode [("Ready", "True")]))
                     | _ => Err (mkErr ENotFound "not found")
                     end)
    (fun k _ => match k return result (list (Object k)) with
                | KVolumeAttachment => Ok [mkObject (k := KVolumeAttachment) (newMeta "" "va" ∅) (mkVolumeAttachment (Some "pvc-1") "n1" true)]
                | _ => Ok []
                end).

Definition wit_staging : Object KPVC :=
  mkObject (k := KPVC) (set_m_annotations {[ AnnotationExposureNode := "n1" ]} (newMeta "crystal" "p-target" (tr_Labels wit_request)))
    (mkPersistentVolumeClaim [ReadWriteOnce] (Some "keep") 10 "p-twin" None None "").

Lemma TargetExpose_restart_witness :
  let first := exec (wit_expose_server (Err (mkErr ENotFound "not found"))) (TargetExpose "crystal" wit_request) [] in
  let again := exec (wit_expose_server (Ok wit_staging)) (TargetExpose "crystal" wit_request) [] in
  let ex := exposure "crystal" KindTwin wit_request "p-twin" "n1" in
  snd first = Ok ex /\ snd again = Ok ex /\ forallb passive (fst again) = true.
Proof.
  cbv zeta. assert (snd (exec (wit_expose_server (Err (mkErr ENotFound "not found"))) (TargetExpose "crystal" wit_request) [])
    = Ok (exposure "crystal" KindTwin wit_request "p-twin" "n1")) as H1 by (by vm_compute).
  destruct (TargetExpose_restart "crystal" wit_request
    (fst (exec (wit_expose_server (Err (mkErr ENotFound "not found"))) (TargetExpose "crystal" wit_request) []))
    (fst (exec (wit_expose_server (Ok wit_staging)) (TargetExpose "crystal" wit_request) []))
    (exposure "crystal" KindTwin wit_request "p-twin" "n1")
    (snd (exec (wit_expose_server (Ok wit_staging)) (TargetExpose "crystal" wit_request) []))
    wit_staging wit_staging) as (Hp & Hr & _).
  - rewrite <-H1. apply exec_runs.
  - do 6 right. left. by vm_compute.
  - by split_and!.
  - apply exec_runs.
  - reflexivity.
  - split; [exact H1|]. split; [exact Hr|exact Hp].
Defined.
