(* ===== verification/RepoQueue.v ===== *)
(** * The per-repository exclusive work queue ([internal/repo/queue])

    Worker objects live in a heap, [m_heap], each with the program counter of the
    goroutine started with it; the Manager's map, [m_workers], takes a repository
    key to the address of a worker.  A state may hold any number of workers of one
    key, whether the map reaches them or not: that there is never a second one is
    a theorem.  [Enqueue] runs under the Manager lock in the steps the source takes
    there (check for shutdown, look up or create the worker, append, signal); every
    worker goroutine moves one shared access at a time; [Stop] and the cancellation
    of the parent context are steps of their own.  [exec] is the executable
    transition function, [step] the relation it induces, and the theorems are about
    every interleaving. *)

From S2P Require Import Prelude.



(** ** Data *)

Inductive OpKind := OpInit | OpForget | OpPrune | OpCheck | OpErase | OpUnlock | OpSync.

#[global] Instance OpKind_eq_dec : EqDecision OpKind.
Proof. solve_decision. Defined.

Definition blocksMovers (kind : OpKind) : bool :=
  match kind with OpUnlock | OpPrune => true | _ => false end.

(** What a Handle is resolved with: the error [run] returned ([None] for nil), a
    recovered panic, or the base context's cancellation error. *)
Inductive outcome :=
| ORet (err : option string)
| OPanic (value : string)
| OCancelled.

#[global] Instance outcome_eq_dec : EqDecision outcome.
Proof. solve_decision. Defined.

(** A [Handle]: [h_run] is whether the run func is still held, [h_err] the
    outcome once [done] is closed.  [h_key] is the key it was enqueued under. *)
Record Handle := mkHandle {
  h_kind : OpKind;
  h_key : string;
  h_run : bool;
  h_err : option outcome
}.

#[global] Instance Handle_eq_dec : EqDecision Handle.
Proof. solve_decision. Defined.

Definition newHandle (kind : OpKind) (key : string) : Handle := mkHandle kind key true None.

(** [Handle.resolve]: the [once] keeps the first outcome. *)
Definition resolve (o : outcome) (h : Handle) : Handle :=
  match h_err h with
  | Some _ => h
  | None => mkHandle (h_kind h) (h_key h) (h_run h) (Some o)
  end.

(** [Handle.takeRun]: hand the body over and clear it. *)
Definition takeRun (h : Handle) : bool * Handle :=
  (h_run h, mkHandle (h_kind h) (h_key h) false (h_err h)).

(** Where a worker goroutine stands in [runWorker]. *)
Inductive wpc :=
| PTop                                     (* the shutdown check of the loop head *)
| PPop                                     (* w.pop() *)
| PWait                                    (* select on w.notify and Done *)
| PRecheck (h : nat)                       (* popped h, re-checking shutdown *)
| PRun (h : nat)                           (* runOne: inside run(opCtx) *)
| PAfter (h : nat)                         (* resolved h, afterResolve is next *)
| PCancelled (h : nat)                     (* resolved h as cancelled, afterResolve is next *)
| PDrain                                   (* drainCancelled: w.drain() *)
| PDrained (rest : list nat)               (* resolving the drained handles *)
| PDrainedAfter (h : nat) (rest : list nat) (* resolved h, afterResolve is next *)
| PExit.

#[global] Instance wpc_eq_dec : EqDecision wpc.
Proof. solve_decision. Defined.

(** A [worker] object and the goroutine [runWorker] started on it.  [w_enq] and [w_started] are history variables: the handles
    appended to this worker's queue and the handles whose run func was called,
    in order. *)
Record worker := mkWorker {
  w_key : string;
  w_queue : list nat;
  w_notify : bool;
  w_moverBlocking : Z;
  w_pc : wpc;
  w_enq : list nat;
  w_started : list nat
}.

Definition newWorker (key : string) : worker := mkWorker key [] false 0 PTop [] [].

(** The producer inside [Enqueue]'s critical section. *)
Inductive lockpc :=
| LFree
| LChecked (key : string) (h : nat)        (* not shut down; about to look the worker up *)
| LWorker (key : string) (h : nat)         (* the worker is in the map; about to append *)
| LAppended (key : string) (h : nat).      (* appended; about to signal notify *)

Record Manager := mkManager {
  m_done : bool;                           (* baseCtx is done *)
  m_stopped : bool;
  m_cancelPending : bool;                  (* Stop marked stopped, cancel() not called yet *)
  m_lock : lockpc;
  m_workers : gmap string nat;             (* the address of the worker of each key *)
  m_heap : gmap nat worker;                (* every worker object ever made *)
  m_nextw : nat;
  m_handles : gmap nat Handle;
  m_next : nat
}.

Definition NewManager : Manager := mkManager false false false LFree ∅ ∅ 0 ∅ 0.

(** ** Worker operations *)

Definition set_pc (p : wpc) (w : worker) : worker :=
  mkWorker (w_key w) (w_queue w) (w_notify w) (w_moverBlocking w) p (w_enq w) (w_started w).

(** [worker.enqueue] up to its unlock: append and count. *)
Definition enqueue_append (h : nat) (kind : OpKind) (w : worker) : worker :=
  mkWorker (w_key w) (w_queue w ++ [h]) (w_notify w)
    (if blocksMovers kind then w_moverBlocking w + 1 else w_moverBlocking w)%Z
    (w_pc w) (w_enq w ++ [h]) (w_started w).

(** The non-blocking send that ends [worker.enqueue]. *)
Definition enqueue_signal (w : worker) : worker :=
  mkWorker (w_key w) (w_queue w) true (w_moverBlocking w) (w_pc w) (w_enq w) (w_started w).

Definition afterResolve (kind : OpKind) (w : worker) : worker :=
  if blocksMovers kind
  then mkWorker (w_key w) (w_queue w) (w_notify w) (w_moverBlocking w - 1)%Z (w_pc w) (w_enq w) (w_started w)
  else w.

Definition moverBlockingActive (w : worker) : bool := (0 <? w_moverBlocking w)%Z.

Definition pop (w : worker) : option nat * worker :=
  match w_queue w with
  | [] => (None, w)
  | h :: q => (Some h, mkWorker (w_key w) q (w_notify w) (w_moverBlocking w) (w_pc w) (w_enq w) (w_started w))
  end.

Definition drain (w : worker) : list nat * worker :=
  (w_queue w, mkWorker (w_key w) [] (w_notify w) (w_moverBlocking w) (w_pc w) (w_enq w) (w_started w)).

Definition mark_started (h : nat) (w : worker) : worker :=
  mkWorker (w_key w) (w_queue w) (w_notify w) (w_moverBlocking w) (w_pc w) (w_enq w) (w_started w ++ [h]).

Definition clear_notify (w : worker) : worker :=
  mkWorker (w_key w) (w_queue w) false (w_moverBlocking w) (w_pc w) (w_enq w) (w_started w).

(** ** Manager operations *)

Definition set_worker (i : nat) (w : worker) (m : Manager) : Manager :=
  mkManager (m_done m) (m_stopped m) (m_cancelPending m) (m_lock m)
    (m_workers m) (<[i := w]> (m_heap m)) (m_nextw m) (m_handles m) (m_next m).

(** [w = newWorker(repoKey); m.workers[repoKey] = w; go m.runWorker(w)]: a fresh object,
    whose goroutine is about to run; a worker the map held before is not reached by it any
    more, and its goroutine lives on. *)
Definition start_worker (k : string) (m : Manager) : Manager :=
  mkManager (m_done m) (m_stopped m) (m_cancelPending m) (m_lock m)
    (<[k := m_nextw m]> (m_workers m)) (<[m_nextw m := newWorker k]> (m_heap m)) (S (m_nextw m))
    (m_handles m) (m_next m).

(** The worker the map holds for [k]. *)
Definition worker_of (m : Manager) (k : string) : option worker :=
  i ← m_workers m !! k; m_heap m !! i.

Definition set_lock (l : lockpc) (m : Manager) : Manager :=
  mkManager (m_done m) (m_stopped m) (m_cancelPending m) l
    (m_workers m) (m_heap m) (m_nextw m) (m_handles m) (m_next m).

Definition upd_handle (h : nat) (f : Handle -> Handle) (m : Manager) : Manager :=
  mkManager (m_done m) (m_stopped m) (m_cancelPending m) (m_lock m)
    (m_workers m) (m_heap m) (m_nextw m) (alter f h (m_handles m)) (m_next m).

Definition kind_of (m : Manager) (h : nat) : OpKind :=
  match m_handles m !! h with Some hd => h_kind hd | None => OpInit end.

(** The result of the entry of [Enqueue]: the early returns, or the critical
    section entered with a fresh handle. *)
Inductive enqueue_entry :=
| EnqErrNilRun
| EnqErrStopped
| EnqHandle (h : nat) (m : Manager).

(** [Enqueue] up to the shutdown check, taken with the Manager lock free. *)
Definition Enqueue_begin (key : string) (kind : OpKind) (nilRun : bool) (m : Manager)
    : enqueue_entry :=
  if nilRun then EnqErrNilRun
  else if m_stopped m || m_done m then EnqErrStopped
  else
    let h := m_next m in
    EnqHandle h
      (mkManager (m_done m) (m_stopped m) (m_cancelPending m) (LChecked key h)
         (m_workers m) (m_heap m) (m_nextw m) (<[h := newHandle kind key]> (m_handles m)) (S h)).

(** The next access of the producer inside the critical section. *)
Definition Enqueue_advance (m : Manager) : option Manager :=
  match m_lock m with
  | LFree => None
  | LChecked key h =>
      let m := match m_workers m !! key with
               | Some _ => m
               | None => start_worker key m
               end in
      Some (set_lock (LWorker key h) m)
  | LWorker key h =>
      i ← m_workers m !! key;
      w ← m_heap m !! i;
      Some (set_lock (LAppended key h)
              (set_worker i (enqueue_append h (kind_of m h) w) m))
  | LAppended key h =>
      i ← m_workers m !! key;
      w ← m_heap m !! i;
      Some (set_lock LFree (set_worker i (enqueue_signal w) m))
  end.

Definition Len (m : Manager) (repoKey : string) : nat :=
  match worker_of m repoKey with
  | None => 0
  | Some w => length (w_queue w)
  end.

Definition QuiescenceRequired (m : Manager) (repoKey : string) : bool :=
  match worker_of m repoKey with
  | None => false
  | Some w => moverBlockingActive w
  end.

(** [Stop] up to the unlock: mark stopped; the first caller goes on to cancel. *)
Definition Stop_mark (m : Manager) : Manager :=
  mkManager (m_done m) true (m_cancelPending m || negb (m_stopped m)) (m_lock m)
    (m_workers m) (m_heap m) (m_nextw m) (m_handles m) (m_next m).

Definition cancel_base (m : Manager) : Manager :=
  mkManager true (m_stopped m) false (m_lock m)
    (m_workers m) (m_heap m) (m_nextw m) (m_handles m) (m_next m).

(** What the environment decides in a worker step: which ready case a [select]
    takes, and how a run func ends. *)
Inductive choice := ChNotify | ChDone | ChOutcome (o : outcome).

(** One shared access of the worker object at [i]: [runWorker], [drainCancelled],
    [runOne] and [safeRun], in the order the source makes them. *)
Definition worker_step (i : nat) (c : choice) (m : Manager) : option Manager :=
  w ← m_heap m !! i;
  match w_pc w with
  | PTop =>
      Some (set_worker i (set_pc (if m_done m then PDrain else PPop) w) m)
  | PPop =>
      let '(oh, w') := pop w in
      Some (set_worker i (set_pc (match oh with Some h => PRecheck h | None => PWait end) w') m)
  | PWait =>
      match c with
      | ChNotify =>
          if w_notify w then Some (set_worker i (set_pc PTop (clear_notify w)) m) else None
      | ChDone =>
          if m_done m then Some (set_worker i (set_pc PDrain w) m) else None
      | ChOutcome _ => None
      end
  | PRecheck h =>
      if m_done m
      then Some (set_worker i (set_pc (PCancelled h) w) (upd_handle h (resolve OCancelled) m))
      else Some (set_worker i (set_pc (PRun h) (mark_started h w))
                   (upd_handle h (fun hd => snd (takeRun hd)) m))
  | PRun h =>
      match c with
      | ChOutcome o => Some (set_worker i (set_pc (PAfter h) w) (upd_handle h (resolve o) m))
      | _ => None
      end
  | PAfter h => Some (set_worker i (set_pc PTop (afterResolve (kind_of m h) w)) m)
  | PCancelled h => Some (set_worker i (set_pc PDrain (afterResolve (kind_of m h) w)) m)
  | PDrain =>
      let '(rest, w') := drain w in Some (set_worker i (set_pc (PDrained rest) w') m)
  | PDrained [] => Some (set_worker i (set_pc PExit w) m)
  | PDrained (h :: rest) =>
      Some (set_worker i (set_pc (PDrainedAfter h rest) w) (upd_handle h (resolve OCancelled) m))
  | PDrainedAfter h rest =>
      Some (set_worker i (set_pc (PDrained rest) (afterResolve (kind_of m h) w)) m)
  | PExit => None
  end.

Inductive event :=
| EvEnqueue (key : string) (kind : OpKind)     (* a goroutine enters Enqueue *)
| EvProducer                                   (* ... and makes its next access *)
| EvStop                                       (* a goroutine enters Stop *)
| EvCancel                                     (* ... and calls cancel() *)
| EvParentCancel                               (* the context given to NewManager is cancelled *)
| EvWorker (i : nat) (c : choice).             (* the goroutine of a worker *)

Definition lock_free (m : Manager) : bool :=
  match m_lock m with LFree => true | _ => false end.

Definition exec (e : event) (m : Manager) : option Manager :=
  match e with
  | EvEnqueue key kind =>
      if lock_free m then
        match Enqueue_begin key kind false m with
        | EnqHandle _ m' => Some m'
        | _ => None
        end
      else None
  | EvProducer => Enqueue_advance m
  | EvStop => if lock_free m then Some (Stop_mark m) else None
  | EvCancel => if m_cancelPending m then Some (cancel_base m) else None
  | EvParentCancel =>
      Some (mkManager true (m_stopped m) (m_cancelPending m) (m_lock m)
              (m_workers m) (m_heap m) (m_nextw m) (m_handles m) (m_next m))
  | EvWorker i c => worker_step i c m
  end.

Inductive step (P : event -> Prop) : Manager -> Manager -> Prop :=
| step_exec e m m' : P e -> exec e m = Some m' -> step P m m'.

(** Every interleaving, and the interleavings in which the Manager is only shut
    down by [Stop]. *)
Definition any_event (e : event) : Prop := True.
Definition stop_only (e : event) : Prop := e <> EvParentCancel.

Definition reachable (P : event -> Prop) (m : Manager) : Prop := rtc (step P) NewManager m.

Fixpoint exec_all (es : list event) (m : Manager) : option Manager :=
  match es with
  | [] => Some m
  | e :: es => m' ← exec e m; exec_all es m'
  end.

(** ** Invariant *)

(** The workers the map reaches, by key. *)
Definition table (m : Manager) : gmap string worker := omap (fun i => m_heap m !! i) (m_workers m).
#[local] Arguments table : simpl never.

Lemma table_lookup m k : table m !! k = worker_of m k.
Proof. unfold table, worker_of. by rewrite lookup_omap. Qed.

(** The map and the heap: a name reaches a worker of its key, every worker object is
    reached, and the next address is fresh. *)
Record Shape (m : Manager) : Prop := {
  sh_index : forall k i, m_workers m !! k = Some i -> exists w, m_heap m !! i = Some w /\ w_key w = k;
  sh_reached : forall i w, m_heap m !! i = Some w -> m_workers m !! (w_key w) = Some i;
  sh_fresh : forall i, is_Some (m_heap m !! i) -> i < m_nextw m
}.

Lemma table_heap m i w : Shape m -> m_heap m !! i = Some w -> table m !! (w_key w) = Some w.
Proof.
  intros HS Hi. rewrite table_lookup. unfold worker_of. by rewrite (sh_reached _ HS _ _ Hi).
Qed.

Lemma table_inv m k w :
  Shape m -> table m !! k = Some w -> exists i, m_workers m !! k = Some i /\ m_heap m !! i = Some w /\ w_key w = k.
Proof.
  intros HS. rewrite table_lookup. unfold worker_of.
  destruct (m_workers m !! k) as [i|] eqn:Hk; [|done]. cbn. intros Hi.
  destruct (sh_index _ HS _ _ Hk) as (w' & Hw' & <-). exists i. by simplify_eq.
Qed.

Lemma table_same m m' : m_heap m' = m_heap m -> m_workers m' = m_workers m -> table m' = table m.
Proof. unfold table. by intros -> ->. Qed.

Lemma Shape_same m m' :
  m_heap m' = m_heap m -> m_workers m' = m_workers m -> m_nextw m' = m_nextw m -> Shape m -> Shape m'.
Proof. intros Hh Hw Hn [? ? ?]. split; by rewrite ?Hh, ?Hw, ?Hn. Qed.

Lemma Shape_set_worker m i w w' :
  Shape m -> m_heap m !! i = Some w -> w_key w' = w_key w -> Shape (set_worker i w' m).
Proof.
  intros [Hx Hr Hf] Hi Hk. split; cbn.
  - intros k j Hj. destruct (Hx _ _ Hj) as (w0 & Hw0 & <-).
    destruct (decide (i = j)) as [<-|Hne].
    + exists w'. rewrite lookup_insert_eq. split; [done|]. by simplify_eq.
    + exists w0. by rewrite lookup_insert_ne.
  - intros j w0. destruct (decide (i = j)) as [<-|Hne].
    + rewrite lookup_insert_eq. intros [= <-]. rewrite Hk. by apply Hr.
    + rewrite lookup_insert_ne by done. apply Hr.
  - intros j. destruct (decide (i = j)) as [<-|Hne].
    + intros _. apply Hf. by eexists.
    + rewrite lookup_insert_ne by done. apply Hf.
Qed.

Lemma table_set_worker m i w w' :
  Shape m -> m_heap m !! i = Some w -> w_key w' = w_key w ->
  table (set_worker i w' m) = <[w_key w := w']> (table m).
Proof.
  intros HS Hi Hk. apply map_eq. intros k. rewrite lookup_insert, !table_lookup. unfold worker_of. cbn.
  case_decide as Hd.
  - rewrite <-Hd, (sh_reached _ HS _ _ Hi). cbn. apply lookup_insert_eq.
  - destruct (m_workers m !! k) as [j|] eqn:Hj; [|done]. cbn.
    destruct (sh_index _ HS _ _ Hj) as (w0 & Hw0 & <-).
    apply lookup_insert_ne. intros <-. by simplify_eq.
Qed.

Lemma Shape_start m k : Shape m -> m_workers m !! k = None -> Shape (start_worker k m).
Proof.
  intros [Hx Hr Hf] Hk. split; cbn.
  - intros k' j. destruct (decide (k = k')) as [<-|Hne].
    + rewrite lookup_insert_eq. intros [= <-]. exists (newWorker k). by rewrite lookup_insert_eq.
    + rewrite lookup_insert_ne by done. intros Hj. destruct (Hx _ _ Hj) as (w0 & Hw0 & <-).
      exists w0. rewrite lookup_insert_ne; [done|]. intros <-.
      specialize (Hf (m_nextw m) (ex_intro _ _ Hw0)). lia.
  - intros j w0. destruct (decide (m_nextw m = j)) as [<-|Hne].
    + rewrite lookup_insert_eq. intros [= <-]. cbn. by rewrite lookup_insert_eq.
    + rewrite lookup_insert_ne by done. intros Hj. specialize (Hr _ _ Hj).
      rewrite lookup_insert_ne; [done|]. intros Heq. by rewrite <-Heq, Hk in Hr.
  - intros j. destruct (decide (m_nextw m = j)) as [<-|Hne]; [lia|].
    rewrite lookup_insert_ne by done. intros Hj%Hf. lia.
Qed.

Lemma table_start m k :
  Shape m -> table (start_worker k m) = <[k := newWorker k]> (table m).
Proof.
  intros HS. apply map_eq. intros k'. rewrite lookup_insert, !table_lookup. unfold worker_of. cbn.
  case_decide as Hd.
  - rewrite <-Hd, lookup_insert_eq. cbn. apply lookup_insert_eq.
  - rewrite lookup_insert_ne by done. destruct (m_workers m !! k') as [j|] eqn:Hj; [|done]. cbn.
    apply lookup_insert_ne. intros <-. destruct (sh_index _ HS _ _ Hj) as (w0 & Hw0 & _).
    pose proof (sh_fresh _ HS (m_nextw m) (ex_intro _ _ Hw0)). lia.
Qed.

(** The unresolved handles a worker goroutine holds outside its queue, and the
    handles still counted in [moverBlocking]. *)
Definition pc_pending (p : wpc) : list nat :=
  match p with
  | PRecheck h | PRun h => [h]
  | PDrained rest | PDrainedAfter _ rest => rest
  | _ => []
  end.

Definition pc_counted (p : wpc) : list nat :=
  match p with
  | PRecheck h | PRun h | PAfter h | PCancelled h => [h]
  | PDrained rest => rest
  | PDrainedAfter h rest => h :: rest
  | _ => []
  end.

Definition pending (w : worker) : list nat := pc_pending (w_pc w) ++ w_queue w.
Definition counted (w : worker) : list nat := pc_counted (w_pc w) ++ w_queue w.

(** The handle of a producer that has not appended it yet. *)
Definition held (m : Manager) : option nat :=
  match m_lock m with LChecked _ h | LWorker _ h => Some h | _ => None end.

Definition blocking_handle (m : Manager) (h : nat) : bool := blocksMovers (kind_of m h).

(** What the history variables record at each program counter. *)
Definition fifo_ok (m : Manager) (w : worker) : Prop :=
  match w_pc w with
  | PTop | PPop | PWait | PRun _ | PAfter _ => w_enq w = w_started w ++ w_queue w
  | PRecheck h => w_enq w = w_started w ++ h :: w_queue w
  | _ => m_done m = true /\ w_started w `prefix_of` w_enq w
  end.

(** The handle [h] is live in [m]: enqueued under [k], unresolved, and with its
    run func still held where [r] is set. *)
Definition live (m : Manager) (k : string) (r : bool) (h : nat) : Prop :=
  exists hd, m_handles m !! h = Some hd /\ h_key hd = k /\ h_err hd = None
             /\ (r = true -> h_run hd = true).

Definition keyed (m : Manager) (k : string) (h : nat) : Prop :=
  exists hd, m_handles m !! h = Some hd /\ h_key hd = k.

Definition running_pc (p : wpc) : bool := match p with PRun _ => true | _ => false end.

Record worker_ok (m : Manager) (k : string) (w : worker) : Prop := {
  ok_nodup : NoDup (counted w);
  ok_sub : forall h, h ∈ pending w -> h ∈ counted w;
  ok_enq : forall h, h ∈ counted w -> h ∈ w_enq w;
  ok_enq_nodup : NoDup (w_enq w);
  ok_keyed : forall h, h ∈ w_enq w -> keyed m k h;
  ok_pc : forall h, h ∈ pc_pending (w_pc w) -> live m k (negb (running_pc (w_pc w))) h;
  ok_queue : forall h, h ∈ w_queue w -> live m k true h;
  ok_count : w_moverBlocking w = Z.of_nat (countb (blocking_handle m) (counted w));
  ok_wake : w_pc w = PWait -> w_queue w <> [] ->
            w_notify w = true \/ exists h, m_lock m = LAppended k h;
  ok_fifo : fifo_ok m w
}.

Record Inv (m : Manager) : Prop := {
  inv_shape : Shape m;
  inv_workers : forall k w, table m !! k = Some w -> worker_ok m k w;
  inv_fresh : forall h, is_Some (m_handles m !! h) -> h < m_next m;
  inv_lock : match m_lock m with
             | LFree => True
             | LChecked k h | LWorker k h =>
                 live m k true h
                 /\ forall k' w, table m !! k' = Some w -> h ∉ w_enq w
             | LAppended k h => True
             end;
  inv_lock_worker : match m_lock m with
                    | LWorker k h | LAppended k h => is_Some (table m !! k)
                    | _ => True
                    end;
  inv_placed : forall h hd, m_handles m !! h = Some hd -> h_err hd = None ->
      held m = Some h
      \/ exists w, table m !! (h_key hd) = Some w /\ h ∈ pending w
}.

(** ** Frame lemmas *)

(** Two Managers agree on what [worker_ok] reads of them about [w]. *)
Definition frames (m m' : Manager) (k : string) (w : worker) : Prop :=
  (forall h, h ∈ w_enq w -> m_handles m' !! h = m_handles m !! h)
  /\ (m_done m = true -> m_done m' = true)
  /\ (forall h, m_lock m = LAppended k h -> w_notify w = true \/ m_lock m' = LAppended k h).

Lemma live_frame m m' k r h : m_handles m' !! h = m_handles m !! h -> live m k r h -> live m' k r h.
Proof. unfold live. by intros ->. Qed.

Lemma keyed_frame m m' k h : m_handles m' !! h = m_handles m !! h -> keyed m k h -> keyed m' k h.
Proof. unfold keyed. by intros ->. Qed.

Lemma blocking_frame m m' h :
  m_handles m' !! h = m_handles m !! h -> blocking_handle m' h = blocking_handle m h.
Proof. unfold blocking_handle, kind_of. by intros ->. Qed.

Lemma worker_ok_frame m m' k w : frames m m' k w -> worker_ok m k w -> worker_ok m' k w.
Proof.
  intros (Hh & Hd & Hl) [? Hsub Henq ? ? Hpc Hq Hc Hw Hf].
  assert (forall h, h ∈ pending w -> m_handles m' !! h = m_handles m !! h) as Hp by auto.
  split; try done.
  - intros h Hin. eapply keyed_frame; [|by auto]. by apply Hh.
  - intros h Hin. eapply live_frame; [|by auto]. apply Hp. unfold pending. set_solver.
  - intros h Hin. eapply live_frame; [|by auto]. apply Hp. unfold pending. set_solver.
  - rewrite Hc. f_equal. apply countb_ext. intros h Hin. symmetry. apply blocking_frame. auto.
  - intros Hpw Hne. destruct (Hw Hpw Hne) as [|[h Hlk]]; [by left|].
    destruct (Hl _ Hlk); [by left|by right; exists h].
  - unfold fifo_ok in *. destruct (w_pc w); intuition.
Qed.

(** A step that changes only the worker of [k] and handles keyed [k] keeps the
    other workers. *)
Lemma workers_frame m m' k w' :
  Inv m ->
  table m' = <[k := w']> (table m) ->
  (forall h k', m_handles m' !! h <> m_handles m !! h -> keyed m k' h -> k' = k) ->
  (m_done m = true -> m_done m' = true) ->
  m_lock m' = m_lock m \/ (exists h, m_lock m = LAppended k h) \/ (forall k' h, m_lock m <> LAppended k' h) ->
  worker_ok m' k w' ->
  forall k' w, table m' !! k' = Some w -> worker_ok m' k' w.
Proof.
  intros HI Hws Hh Hd Hl Hok k' w Hw. rewrite Hws in Hw.
  destruct (decide (k = k')) as [<-|Hne].
  { rewrite lookup_insert_eq in Hw. by injection Hw as <-. }
  rewrite lookup_insert_ne in Hw by done.
  pose proof (inv_workers _ HI _ _ Hw) as Hk'. eapply worker_ok_frame; [|done].
  split_and!; [|done|].
  - intros h Hin. destruct (decide (m_handles m' !! h = m_handles m !! h)) as [|Hch]; [done|].
    destruct Hne. symmetry. apply (Hh h k' Hch), (ok_keyed _ _ _ Hk'). done.
  - intros h Hlk. right. destruct Hl as [->|[[h' Hl]|Hl]]; [done| |by destruct (Hl k' h)].
    congruence.
Qed.

(** Flags that only shutdown changes leave every worker as it is. *)
Lemma worker_ok_flags m m' k w :
  m_handles m' = m_handles m -> m_lock m' = m_lock m -> (m_done m = true -> m_done m' = true) ->
  worker_ok m k w -> worker_ok m' k w.
Proof.
  intros Hh Hl Hd. apply worker_ok_frame. split_and!; [by rewrite Hh|done|].
  intros h Hlk. right. congruence.
Qed.

Lemma Inv_flags m m' :
  m_handles m' = m_handles m -> m_lock m' = m_lock m -> m_workers m' = m_workers m ->
  m_heap m' = m_heap m -> m_nextw m' = m_nextw m ->
  m_next m' = m_next m -> (m_done m = true -> m_done m' = true) -> Inv m -> Inv m'.
Proof.
  intros Hh Hl Hw0 Hhp Hnw Hn Hd [HS Hws Hf Hlk Hlw Hp].
  assert (table m' = table m) as Hw by by apply table_same.
  split; [by apply (Shape_same m)|..].
  - rewrite Hw. intros k w Hkw. eapply worker_ok_flags; [..|by apply Hws]; done.
  - by rewrite Hh, Hn.
  - rewrite Hl, Hw. destruct (m_lock m); try done;
      (destruct Hlk as [Hlive ?]; split; [|done]; eapply live_frame; [|done]; by rewrite Hh).
  - by rewrite Hl, Hw.
  - intros h hd. rewrite Hh. unfold held. rewrite Hl, Hw. apply Hp.
Qed.

Lemma Inv_initial : Inv NewManager.
Proof.
  split; try done; [split; try done; intros i [w Hi]; done|].
  intros h [hd Hh]. done.
Qed.

Lemma Inv_Enqueue_begin m key kind h m' :
  m_lock m = LFree -> Enqueue_begin key kind false m = EnqHandle h m' -> Inv m -> Inv m'.
Proof.
  unfold Enqueue_begin. intros Hl. destruct (m_stopped m || m_done m); [done|].
  intros [= <- <-] HI. pose proof HI as [HS Hws Hf Hlk Hlw Hp].
  assert (forall k w h', table m !! k = Some w -> h' ∈ w_enq w -> h' <> m_next m) as Hne.
  { intros k w h' Hkw Hin ->. destruct (ok_keyed _ _ _ (Hws _ _ Hkw) _ Hin) as (hd & Hhd & _).
    specialize (Hf (m_next m)). rewrite Hhd in Hf. specialize (Hf (ex_intro _ _ eq_refl)). lia. }
  split; cbn; [by apply (Shape_same m)|..].
  - intros k w Hkw. eapply worker_ok_frame; [|by apply Hws]. split_and!; cbn; [|done|congruence].
    intros h' Hin. by rewrite lookup_insert_ne by (apply not_eq_sym; eauto).
  - intros h'. destruct (decide (m_next m = h')) as [<-|Hn]; [lia|].
    rewrite lookup_insert_ne by done. intros Hs. apply Hf in Hs. lia.
  - split; [|intros k' w Hkw Hin; by eapply Hne].
    exists (newHandle kind key). split_and!; [apply lookup_insert_eq|done..].
  - done.
  - intros h' hd. destruct (decide (m_next m = h')) as [<-|Hn]; [by left|].
    rewrite lookup_insert_ne by done. intros Hhd He. right.
    destruct (Hp _ _ Hhd He) as [Hheld|Hq]; [|done]. unfold held in Hheld. by rewrite Hl in Hheld.
Qed.

Lemma worker_ok_new m k : worker_ok m k (newWorker k).
Proof.
  split; cbn; try done; try apply NoDup_nil_2; intros h; by rewrite elem_of_nil.
Qed.

(** The producer's three accesses. *)
Lemma Inv_LChecked m k h m' :
  m_lock m = LChecked k h -> Enqueue_advance m = Some m' -> Inv m -> Inv m'.
Proof.
  unfold Enqueue_advance. intros Hl HE HI. rewrite Hl in HE. injection HE as <-.
  pose proof HI as [HS Hws Hf Hlk Hlw Hp]. rewrite Hl in Hlk. destruct Hlk as [Hlive Hnot].
  assert (forall m0 k' w, m_handles m0 = m_handles m -> m_done m0 = m_done m ->
    table m !! k' = Some w -> worker_ok m0 k' w) as Hws'.
  { intros m0 k' w Hh0 Hd0 Hkw. eapply worker_ok_frame; [|by apply Hws]. split_and!; congruence. }
  destruct (m_workers m !! k) as [i|] eqn:Hi.
  - destruct (sh_index _ HS _ _ Hi) as (w & Hw & Hk0).
    split; cbn; [by apply (Shape_same m)|by intros; apply Hws'|done|done| |].
    + exists w. rewrite <-Hk0. by apply (table_heap m i).
    + intros h' hd Hhd He. destruct (Hp _ _ Hhd He) as [Hh|Hq]; [left|by right].
      unfold held in *. by rewrite Hl in Hh.
  - assert (forall k', table (set_lock (LWorker k h) (start_worker k m)) !! k'
      = if decide (k = k') then Some (newWorker k) else table m !! k') as Ht.
    { intros k'. rewrite <-lookup_insert. f_equal. by apply table_start. }
    split.
    + apply (Shape_same (start_worker k m)); try done. by apply Shape_start.
    + intros k' w. rewrite Ht. case_decide as Hd; [|by intros; apply Hws'].
      subst k'. intros [= <-]. apply worker_ok_new.
    + done.
    + split; [done|]. intros k' w. rewrite Ht. case_decide; [|apply Hnot].
      intros [= <-]. apply not_elem_of_nil.
    + cbn [m_lock set_lock]. rewrite Ht, decide_True by done. by eexists.
    + intros h' hd Hhd He. destruct (Hp _ _ Hhd He) as [Hh|(w & Hkw & Hin)].
      * left. unfold held in *. by rewrite Hl in Hh.
      * right. exists w. split; [|done]. rewrite Ht, decide_False; [done|].
        intros ->. destruct (table_inv _ _ _ HS Hkw) as (i & Hi' & _). congruence.
Qed.

Lemma pending_append h kind w : pending (enqueue_append h kind w) = pending w ++ [h].
Proof. unfold pending. cbn. by rewrite app_assoc. Qed.

Lemma counted_append h kind w : counted (enqueue_append h kind w) = counted w ++ [h].
Proof. unfold counted. cbn. by rewrite app_assoc. Qed.

Lemma NoDup_snoc {A} (l : list A) x : NoDup l -> x ∉ l -> NoDup (l ++ [x]).
Proof. intros ??. apply NoDup_app. split_and!; [done|set_solver|apply NoDup_singleton]. Qed.

(** Appending a live handle that is in no queue keeps the worker well formed
    (the wake-up it owes is the producer's next access). *)
Lemma worker_ok_append m m' k h w :
  worker_ok m k w -> live m k true h -> h ∉ w_enq w ->
  m_handles m' = m_handles m -> (m_done m = true -> m_done m' = true) ->
  m_lock m' = LAppended k h ->
  worker_ok m' k (enqueue_append h (kind_of m h) w).
Proof.
  intros [Hnd Hsub Henq Hend Hk Hpc Hq Hc Hw Hf] Hlive Hnew Hh Hd Hl.
  assert (forall x r, live m k r x -> live m' k r x) as Hlm.
  { intros x r. apply live_frame. by rewrite Hh. }
  split; rewrite ?pending_append, ?counted_append; cbn [w_pc w_enq w_queue w_moverBlocking enqueue_append].
  - apply NoDup_snoc; [done|]. intros Hin. by apply Hnew, Henq.
  - intros x. rewrite !elem_of_app. naive_solver.
  - intros x. rewrite !elem_of_app. naive_solver.
  - by apply NoDup_snoc.
  - intros x [Hx| ->%list_elem_of_singleton]%elem_of_app.
    + eapply keyed_frame; [|by apply Hk]. by rewrite Hh.
    + destruct Hlive as (hd & ? & ? & _). exists hd. by rewrite Hh.
  - intros x Hx. by apply Hlm, Hpc.
  - intros x [Hx| ->%list_elem_of_singleton]%elem_of_app; [by apply Hlm, Hq|by apply Hlm].
  - rewrite countb_app, Nat2Z.inj_add. rewrite (countb_ext _ (blocking_handle m)), <-Hc.
    2:{ intros x _. apply blocking_frame. by rewrite Hh. }
    cbn. rewrite (blocking_frame m m') by (by rewrite Hh). unfold blocking_handle.
    destruct (blocksMovers (kind_of m h)); lia.
  - intros _ _. right. by exists h.
  - unfold fifo_ok in *. cbn. destruct (w_pc w); try (rewrite Hf, <-?app_assoc; done);
      destruct Hf as [? [l ->]]; (split; [by auto|]); exists (l ++ [h]); by rewrite app_assoc.
Qed.

(** The worker the producer appends to. *)
Lemma lock_worker m k i : Shape m -> m_workers m !! k = Some i ->
  exists w, m_heap m !! i = Some w /\ w_key w = k /\ table m !! k = Some w.
Proof.
  intros HS Hi. destruct (sh_index _ HS _ _ Hi) as (w & Hw & <-). exists w.
  split_and!; [done|done|by apply (table_heap m i)].
Qed.

Lemma Inv_LWorker m k h m' :
  m_lock m = LWorker k h -> Enqueue_advance m = Some m' -> Inv m -> Inv m'.
Proof.
  unfold Enqueue_advance. intros Hl HE HI. rewrite Hl in HE.
  pose proof HI as [HS Hws Hf Hlk Hlw Hp]. rewrite Hl in Hlk. destruct Hlk as [Hlive Hnot].
  destruct (m_workers m !! k) as [i|] eqn:Hi; [|done]. cbn in HE.
  destruct (lock_worker _ _ _ HS Hi) as (w & Hwi & Hkw0 & Hw). rewrite Hwi in HE. cbn in HE.
  injection HE as <-.
  set (m' := set_lock _ _).
  assert (table m' = <[k := enqueue_append h (kind_of m h) w]> (table m)) as Ht.
  { rewrite <-Hkw0. by apply table_set_worker. }
  split; try done.
  - apply (Shape_same (set_worker i (enqueue_append h (kind_of m h) w) m)); try done.
    by apply (Shape_set_worker _ _ w).
  - apply (workers_frame m _ k (enqueue_append h (kind_of m h) w)); try done.
    + right; right. congruence.
    + eapply worker_ok_append; try done; [by apply Hws|by eapply Hnot].
  - cbn [m_lock m' set_lock]. rewrite Ht, lookup_insert_eq. by eexists.
  - intros h' hd Hhd He. cbn in Hhd. right. rewrite Ht. destruct (Hp _ _ Hhd He) as [Hh|(w' & Hkw & Hin)].
    + unfold held in Hh. rewrite Hl in Hh. injection Hh as ->.
      destruct Hlive as (hd' & Hhd' & <- & _). rewrite Hhd in Hhd'. injection Hhd' as <-.
      eexists. split; [apply lookup_insert_eq|]. rewrite pending_append. set_solver.
    + destruct (decide (k = h_key hd)) as [Hd|Hne].
      * rewrite <-Hd in *. eexists. split; [apply lookup_insert_eq|]. rewrite pending_append.
        rewrite Hw in Hkw. injection Hkw as ->. set_solver.
      * exists w'. by rewrite lookup_insert_ne.
Qed.

Lemma worker_ok_signal m m' k w :
  worker_ok m k w -> m_handles m' = m_handles m -> (m_done m = true -> m_done m' = true) ->
  worker_ok m' k (enqueue_signal w).
Proof.
  intros Hok Hh Hd. apply (worker_ok_frame m).
  - split_and!; cbn; [by rewrite Hh|done|by left].
  - destruct Hok. split; try done. cbn. by left.
Qed.

Lemma Inv_LAppended m k h m' :
  m_lock m = LAppended k h -> Enqueue_advance m = Some m' -> Inv m -> Inv m'.
Proof.
  unfold Enqueue_advance. intros Hl HE HI. rewrite Hl in HE.
  pose proof HI as [HS Hws Hf Hlk Hlw Hp].
  destruct (m_workers m !! k) as [i|] eqn:Hi; [|done]. cbn in HE.
  destruct (lock_worker _ _ _ HS Hi) as (w & Hwi & Hkw0 & Hw). rewrite Hwi in HE. cbn in HE.
  injection HE as <-.
  set (m' := set_lock _ _).
  assert (table m' = <[k := enqueue_signal w]> (table m)) as Ht.
  { rewrite <-Hkw0. by apply table_set_worker. }
  split; try done.
  - apply (Shape_same (set_worker i (enqueue_signal w) m)); try done.
    by apply (Shape_set_worker _ _ w).
  - apply (workers_frame m _ k (enqueue_signal w)); try done.
    + right; left. by exists h.
    + eapply worker_ok_signal; [by apply Hws|done|done].
  - intros h' hd Hhd He. cbn in Hhd. right. rewrite Ht. destruct (Hp _ _ Hhd He) as [Hh|(w' & Hkw & Hin)].
    { unfold held in Hh. by rewrite Hl in Hh. }
    destruct (decide (k = h_key hd)) as [Hd|Hne].
    + rewrite <-Hd in *. eexists. split; [apply lookup_insert_eq|]. rewrite Hw in Hkw. by injection Hkw as ->.
    + exists w'. by rewrite lookup_insert_ne.
Qed.

(** The worker's accesses.  An update of one handle by its worker keeps kinds and keys. *)
Definition keeps_id (f : Handle -> Handle) : Prop :=
  forall hd, h_kind (f hd) = h_kind hd /\ h_key (f hd) = h_key hd.

Lemma keeps_id_resolve o : keeps_id (resolve o).
Proof. intros hd. unfold resolve. by destruct (h_err hd). Qed.

Lemma keeps_id_takeRun : keeps_id (fun hd => snd (takeRun hd)).
Proof. done. Qed.

Lemma upd_lookup_ne m h f x : x <> h -> m_handles (upd_handle h f m) !! x = m_handles m !! x.
Proof. intros Hne. cbn. by apply lookup_alter_ne. Qed.

Lemma upd_kind m h f x : keeps_id f -> kind_of (upd_handle h f m) x = kind_of m x.
Proof.
  intros Hf. unfold kind_of. destruct (decide (x = h)) as [->|Hne]; [|by rewrite upd_lookup_ne].
  cbn. rewrite lookup_alter_eq. destruct (m_handles m !! h); [|done]. cbn. apply Hf.
Qed.

Lemma upd_keyed m h f k x : keeps_id f -> keyed m k x -> keyed (upd_handle h f m) k x.
Proof.
  intros Hf (hd & Hhd & Hk). destruct (decide (x = h)) as [->|Hne].
  - exists (f hd). cbn. rewrite lookup_alter_eq, Hhd. split; [done|]. by rewrite (proj2 (Hf hd)).
  - exists hd. by rewrite upd_lookup_ne.
Qed.

(** The worker at [i] moves: its lists change to [w'], and at most the handle
    [h] it was holding is updated. *)
Lemma Inv_worker m i k w w' h f :
  Inv m -> m_heap m !! i = Some w -> w_key w = k -> w_key w' = k -> keeps_id f -> h ∈ counted w ->
  worker_ok (set_worker i w' (upd_handle h f m)) k w' ->
  (forall x, x ∈ pending w -> x ∈ pending w' \/
     (x = h /\ forall hd, m_handles m !! h = Some hd -> h_err (f hd) <> None)) ->
  w_enq w' = w_enq w ->
  (forall hd, h_err (f hd) = None -> h_err hd = None) ->
  Inv (set_worker i w' (upd_handle h f m)).
Proof.
  intros HI Hi Hki Hki' Hf Hc Hok Hpend Henq Herr. pose proof HI as [HS Hws Hfr Hlk Hlw Hp].
  assert (table m !! k = Some w) as Hw by (rewrite <-Hki; by apply (table_heap m i)).
  set (m' := set_worker i w' (upd_handle h f m)) in *.
  assert (table m' = <[k := w']> (table m)) as Ht.
  { rewrite <-Hki. apply (table_set_worker (upd_handle h f m) i w w'); try (done || congruence).
    by apply (Shape_same m). }
  assert (h ∈ w_enq w) as Hh by by apply (ok_enq _ _ _ (Hws _ _ Hw)).
  assert (keyed m k h) as Hkh by by apply (ok_keyed _ _ _ (Hws _ _ Hw)).
  assert (forall x, m_handles (upd_handle h f m) !! x <> m_handles m !! x -> x = h) as Hch.
  { intros x Hx. destruct (decide (x = h)); [done|]. by rewrite upd_lookup_ne in Hx. }
  split.
  - apply (Shape_set_worker (upd_handle h f m) i w); try (done || congruence). by apply (Shape_same m).
  - apply (workers_frame m _ k w'); try done; [|by left].
    intros x k' Hx (hd & Hhd & <-). apply Hch in Hx as ->.
    destruct Hkh as (hd' & Hhd' & <-). by simplify_eq.
  - intros x. cbn. rewrite lookup_alter. case_decide; subst; [|apply Hfr].
    rewrite fmap_is_Some. apply Hfr.
  - cbn [m_lock m' set_worker upd_handle]. destruct (m_lock m) as [|k' x|k' x|k' x]; try done.
    all: destruct Hlk as [Hlive Hnot]; split.
    all: try (assert (x <> h) by (intros ->; by eapply Hnot);
              eapply live_frame; [|done]; by apply upd_lookup_ne).
    all: intros k'' w''; destruct (decide (k = k'')) as [<-|Hne];
      [rewrite Ht, lookup_insert_eq; intros [= <-]; rewrite Henq; by eapply Hnot
      |rewrite Ht, lookup_insert_ne by done; apply Hnot].
  - cbn [m_lock m' set_worker upd_handle]. destruct (m_lock m) as [|k' x|k' x|k' x]; try done;
      rewrite Ht; (destruct (decide (k = k')) as [<-|Hne];
       [rewrite lookup_insert_eq; by eexists|by rewrite lookup_insert_ne]).
  - intros x hd Hhd He. cbn in Hhd.
    assert (exists hd0, m_handles m !! x = Some hd0 /\ h_err hd0 = None /\ h_key hd = h_key hd0
              /\ (x = h -> h_err (f hd0) = None)) as (hd0 & Hhd0 & He0 & -> & Hx).
    { destruct (decide (x = h)) as [->|Hne].
      - rewrite lookup_alter_eq in Hhd. destruct (m_handles m !! h) as [hd0|]; [|done].
        injection Hhd as <-. exists hd0. split_and!; [done|by apply Herr|apply Hf|done].
      - rewrite lookup_alter_ne in Hhd by done. by exists hd. }
    destruct (Hp _ _ Hhd0 He0) as [?|(w0 & Hkw & Hin)]; [by left|right; rewrite Ht].
    destruct (decide (k = h_key hd0)) as [Hd|Hne].
    + rewrite <-Hd in *. rewrite Hw in Hkw. injection Hkw as <-. exists w'. split; [apply lookup_insert_eq|].
      destruct (Hpend _ Hin) as [|[-> Hres]]; [done|]. by destruct (Hres _ Hhd0); auto.
    + exists w0. by rewrite lookup_insert_ne.
Qed.

Lemma Inv_worker_plain m i k w w' :
  Inv m -> m_heap m !! i = Some w -> w_key w = k -> w_key w' = k -> worker_ok (set_worker i w' m) k w' ->
  (forall x, x ∈ pending w -> x ∈ pending w') -> w_enq w' = w_enq w ->
  Inv (set_worker i w' m).
Proof.
  intros HI Hi Hki Hki' Hok Hpend Henq. pose proof HI as [HS Hws Hfr Hlk Hlw Hp].
  assert (table m !! k = Some w) as Hw by (rewrite <-Hki; by apply (table_heap m i)).
  set (m' := set_worker i w' m) in *.
  assert (table m' = <[k := w']> (table m)) as Ht.
  { rewrite <-Hki. apply (table_set_worker m i w w'); congruence. }
  split.
  - apply (Shape_set_worker m i w); congruence.
  - apply (workers_frame m _ k w'); try done. by left.
  - done.
  - cbn [m_lock m' set_worker]. destruct (m_lock m) as [|k' x|k' x|k' x]; try done;
      (destruct Hlk as [Hlive Hnot]; split; [done|]; intros k'' w'';
       destruct (decide (k = k'')) as [<-|Hne];
       [rewrite Ht, lookup_insert_eq; intros [= <-]; rewrite Henq; by eapply Hnot
       |rewrite Ht, lookup_insert_ne by done; apply Hnot]).
  - cbn [m_lock m' set_worker upd_handle]. destruct (m_lock m) as [|k' x|k' x|k' x]; try done;
      rewrite Ht; (destruct (decide (k = k')) as [<-|Hne];
       [rewrite lookup_insert_eq; by eexists|by rewrite lookup_insert_ne]).
  - intros x hd Hhd He. destruct (Hp _ _ Hhd He) as [?|(w0 & Hkw & Hin)]; [by left|right; rewrite Ht].
    destruct (decide (k = h_key hd)) as [Hd|Hne].
    + rewrite <-Hd in *. rewrite Hw in Hkw. injection Hkw as <-. exists w'. split; [apply lookup_insert_eq|auto].
    + exists w0. by rewrite lookup_insert_ne.
Qed.

(** What is left to show when a worker moves: its new lists are carved out of
    the old ones. *)
Lemma worker_ok_move m m' k w w' :
  worker_ok m k w ->
  m_lock m' = m_lock m ->
  (forall x, keyed m k x -> keyed m' k x) ->
  (forall x, kind_of m' x = kind_of m x) ->
  w_enq w' = w_enq w ->
  counted w' `sublist_of` counted w ->
  (forall x, x ∈ pending w' -> x ∈ counted w') ->
  (forall x, x ∈ pc_pending (w_pc w') -> live m' k (negb (running_pc (w_pc w'))) x) ->
  (forall x, x ∈ w_queue w' -> live m' k true x) ->
  w_moverBlocking w' = Z.of_nat (countb (blocking_handle m) (counted w')) ->
  (w_pc w' = PWait -> w_queue w' = []) ->
  fifo_ok m' w' ->
  worker_ok m' k w'.
Proof.
  intros [Hnd Hsub Henq Hend Hk Hpc Hq Hc Hw Hf] Hl Hkk Hkind Heq Hsl Hps Hpc' Hq' Hc' Hw' Hf'.
  split; rewrite ?Heq; try done.
  - by apply (sublist_NoDup _ (counted w)).
  - intros x Hx. apply Henq. by apply (elem_of_sublist (counted w')).
  - intros x Hx. by apply Hkk, Hk.
  - rewrite Hc'. f_equal. apply countb_ext. intros x _. unfold blocking_handle. by rewrite Hkind.
  - intros Hp Hne. by destruct Hne; apply Hw'.
Qed.

Lemma inv_worker_at m i k w :
  Inv m -> m_heap m !! i = Some w -> w_key w = k -> worker_ok m k w.
Proof. intros HI Hi <-. apply (inv_workers _ HI), (table_heap m i); [apply HI|done]. Qed.

Lemma live_set_worker m i w k' r x : live m k' r x -> live (set_worker i w m) k' r x.
Proof. apply live_frame. done. Qed.

Lemma live_upd_ne m k h f r x : x <> h -> live m k r x -> live (upd_handle h f m) k r x.
Proof. intros Hne. apply live_frame. by apply upd_lookup_ne. Qed.

(** The plain moves, which update no handle. *)
Lemma Inv_step_plain m i k w w' :
  Inv m -> m_heap m !! i = Some w -> w_key w = k ->
  w_key w' = k -> w_enq w' = w_enq w -> w_moverBlocking w' = w_moverBlocking w ->
  counted w' = counted w -> (forall x, x ∈ pending w <-> x ∈ pending w') ->
  running_pc (w_pc w) = running_pc (w_pc w') ->
  (forall x, x ∈ pending w -> live m k true x) ->
  (w_pc w' = PWait -> w_queue w' = []) -> fifo_ok m w' ->
  Inv (set_worker i w' m).
Proof.
  intros HI Hw Hk0 Hk1 Henq Hb Hc Hp Hr Hlive Hwait Hf. pose proof (inv_worker_at _ _ _ _ HI Hw Hk0) as Hok.
  eapply Inv_worker_plain; [done|done|done|done| |by apply Hp|done].
  eapply (worker_ok_move m); try done.
  - by rewrite Hc.
  - intros x Hx. rewrite Hc. apply (ok_sub _ _ _ Hok). by apply Hp.
  - intros x Hx. apply live_set_worker.
    destruct (Hlive x) as (hd & ? & ? & ? & ?); [apply Hp; unfold pending; set_solver|].
    by exists hd; split_and!; try done; intros; auto.
  - intros x Hx. apply live_set_worker, Hlive, Hp. unfold pending. set_solver.
  - rewrite Hb, Hc. by apply (ok_count _ _ _ Hok).
Qed.

Lemma live_pending m k w :
  worker_ok m k w -> running_pc (w_pc w) = false -> forall x, x ∈ pending w -> live m k true x.
Proof.
  intros Hok Hr x [Hx|Hx]%elem_of_app; [|by apply (ok_queue _ _ _ Hok)].
  pose proof (ok_pc _ _ _ Hok _ Hx) as H. by rewrite Hr in H.
Qed.

Lemma prefix_refl_app {A} (l1 l2 l : list A) : l = l1 ++ l2 -> l1 `prefix_of` l.
Proof. intros ->. by eexists. Qed.

Lemma Inv_resolving m i k w h o w' :
  Inv m -> m_heap m !! i = Some w -> w_key w = k ->
  h ∈ counted w -> h ∉ pending w' ->
  (forall x, x ∈ pending w <-> x = h \/ x ∈ pending w') ->
  w_key w' = k -> w_enq w' = w_enq w -> counted w' = counted w -> w_moverBlocking w' = w_moverBlocking w ->
  w_pc w' <> PWait -> running_pc (w_pc w') = false ->
  (forall x, x ∈ pending w' -> live m k true x) ->
  (forall m', m_done m' = m_done m -> fifo_ok m' w') ->
  Inv (set_worker i w' (upd_handle h (resolve o) m)).
Proof.
  intros HI Hw Hk0 Hc Hnp Hp Hk1 Henq Hcc Hb Hwait Hr Hlive Hf.
  pose proof (inv_worker_at _ _ _ _ HI Hw Hk0) as Hok.
  eapply Inv_worker; try done; [apply keeps_id_resolve| | |].
  - eapply (worker_ok_move m); try done.
    + intros x Hx. apply (upd_keyed m h (resolve o)) in Hx; [done|apply keeps_id_resolve].
    + intros x. apply (upd_kind m h (resolve o)), keeps_id_resolve.
    + by rewrite Hcc.
    + intros x Hx. rewrite Hcc. apply (ok_sub _ _ _ Hok), Hp. by right.
    + intros x Hx. rewrite Hr. assert (x ∈ pending w') as Hx' by (unfold pending; set_solver).
      apply live_set_worker, live_upd_ne; [by intros ->|auto].
    + intros x Hx. assert (x ∈ pending w') as Hx' by (unfold pending; set_solver).
      apply live_set_worker, live_upd_ne; [by intros ->|auto].
    + rewrite Hb, Hcc. apply (ok_count _ _ _ Hok).
    + by apply Hf.
  - intros x [->|?]%Hp; [right|by left]. split; [done|].
    intros hd _. unfold resolve. by destruct (h_err hd) eqn:E; rewrite ?E.
  - intros hd. unfold resolve. by destruct (h_err hd) eqn:E; rewrite ?E.
Qed.

(** Dropping a resolved handle from the count, in [afterResolve]. *)
Lemma Inv_afterResolve m i k w h p :
  Inv m -> m_heap m !! i = Some w -> w_key w = k ->
  pc_counted (w_pc w) = h :: pc_counted p -> pc_pending (w_pc w) = pc_pending p ->
  running_pc (w_pc w) = false -> running_pc p = false -> p <> PWait ->
  fifo_ok m (set_pc p w) ->
  Inv (set_worker i (set_pc p (afterResolve (kind_of m h) w)) m).
Proof.
  intros HI Hw Hk0 Hpc Hpp Hr Hrp Hwait Hf. pose proof (inv_worker_at _ _ _ _ HI Hw Hk0) as Hok.
  set (w' := set_pc p (afterResolve (kind_of m h) w)).
  assert (w_queue w' = w_queue w /\ w_enq w' = w_enq w /\ w_started w' = w_started w /\ w_pc w' = p)
    as (Hq & He & Hs & Hp').
  { unfold w', afterResolve. by destruct (blocksMovers _). }
  assert (w_moverBlocking w' = if blocksMovers (kind_of m h)
            then w_moverBlocking w - 1 else w_moverBlocking w)%Z as Hb.
  { unfold w', afterResolve. by destruct (blocksMovers _). }
  assert (counted w = h :: counted w') as Hc by (unfold counted; by rewrite Hq, Hp', Hpc).
  assert (pending w' = pending w) as Hpd by (unfold pending; by rewrite Hq, Hp', Hpp).
  assert (forall x, x ∈ pending w -> live m k true x) as Hlive by by apply live_pending.
  assert (w_key w' = k) as Hk1 by (unfold w', afterResolve; by destruct (blocksMovers _)).
  eapply Inv_worker_plain; [done|done|done|done| |by rewrite Hpd|done].
  apply (worker_ok_move m _ k w); try done.
  - rewrite Hc. by apply sublist_cons.
  - intros x. rewrite Hpd. intros Hx. pose proof (ok_sub _ _ _ Hok _ Hx) as Hin.
    rewrite Hc in Hin. apply elem_of_cons in Hin as [->|]; [|done]. exfalso.
    pose proof (ok_nodup _ _ _ Hok) as Hnd. rewrite Hc in Hnd. apply NoDup_cons_1_1 in Hnd.
    apply Hnd. unfold counted. rewrite Hq, Hp'. unfold pending in Hx. rewrite Hpp in Hx.
    apply elem_of_app in Hx as [Hx|Hx]; apply elem_of_app; [left|by right].
    by destruct p; cbn in *; set_solver.
  - intros x. rewrite Hp', Hrp, <-Hpp. intros Hx. apply live_set_worker, Hlive. unfold pending. set_solver.
  - intros x. rewrite Hq. intros Hx. apply live_set_worker, Hlive. unfold pending. set_solver.
  - pose proof (ok_count _ _ _ Hok) as Hcnt. rewrite Hc in Hcnt. cbn in Hcnt.
    unfold blocking_handle in Hcnt at 1. rewrite Hb.
    destruct (blocksMovers (kind_of m h)); lia.
  - unfold fifo_ok in *. cbn in Hf. by rewrite Hp', Hq, He, Hs.
Qed.

Lemma Inv_start m i k w h :
  Inv m -> m_heap m !! i = Some w -> w_key w = k -> w_pc w = PRecheck h ->
  Inv (set_worker i (set_pc (PRun h) (mark_started h w))
         (upd_handle h (fun hd => snd (takeRun hd)) m)).
Proof.
  intros HI Hw Hk0 Hpc. pose proof (inv_worker_at _ _ _ _ HI Hw Hk0) as Hok.
  assert (pending w = h :: w_queue w) as Hp by (unfold pending; by rewrite Hpc).
  assert (counted w = h :: w_queue w) as Hc by (unfold counted; by rewrite Hpc).
  assert (h ∉ w_queue w) as Hnq.
  { pose proof (ok_nodup _ _ _ Hok) as Hnd. rewrite Hc in Hnd. by apply NoDup_cons in Hnd as [??]. }
  eapply Inv_worker; try done.
  - rewrite Hc. left.
  - eapply (worker_ok_move m _ k w); try done.
    + intros x. apply (upd_keyed m h (fun hd => snd (takeRun hd))), keeps_id_takeRun.
    + intros x. apply (upd_kind m h (fun hd => snd (takeRun hd))), keeps_id_takeRun.
    + by rewrite Hc.
    + intros x. cbn. intros ->%list_elem_of_singleton. apply live_set_worker.
      destruct (ok_pc _ _ _ Hok h) as (hd & Hhd & Hk & He & _); [rewrite Hpc; left|].
      exists (snd (takeRun hd)). cbn. by rewrite lookup_alter_eq, Hhd.
    + intros x. cbn. intros Hx. apply live_set_worker, live_upd_ne; [by intros ->|].
      by apply (ok_queue _ _ _ Hok).
    + etrans; [apply (ok_count _ _ _ Hok)|]. by rewrite Hc.
    + unfold fifo_ok. cbn. pose proof (ok_fifo _ _ _ Hok) as Hf. unfold fifo_ok in Hf.
      rewrite Hpc in Hf. by rewrite <-app_assoc.
  - intros x. rewrite Hp. by left.
Qed.

Lemma Inv_pc m i k w p :
  Inv m -> m_heap m !! i = Some w -> w_key w = k ->
  pc_counted p = pc_counted (w_pc w) -> pc_pending p = pc_pending (w_pc w) ->
  running_pc p = false -> running_pc (w_pc w) = false ->
  (p = PWait -> w_queue w = []) -> fifo_ok m (set_pc p w) ->
  Inv (set_worker i (set_pc p w) m).
Proof.
  intros HI Hw Hk0 Hc Hp Hr Hr' Hwait Hf. pose proof (inv_worker_at _ _ _ _ HI Hw Hk0) as Hok.
  apply (Inv_step_plain _ _ k w); try done.
  - unfold counted. cbn. by rewrite Hc.
  - intros x. unfold pending. cbn. by rewrite Hp.
  - by rewrite Hr'.
  - by apply live_pending.
Qed.

Lemma Inv_worker_step i c m m' : worker_step i c m = Some m' -> Inv m -> Inv m'.
Proof.
  unfold worker_step. intros HE HI. destruct (m_heap m !! i) as [w|] eqn:Hw; [|done].
  cbn in HE. pose proof (inv_worker_at _ _ _ _ HI Hw eq_refl) as Hok.
  pose proof (ok_fifo _ _ _ Hok) as Hf. unfold fifo_ok in Hf.
  pose proof (ok_nodup _ _ _ Hok) as Hnd. unfold counted in Hnd.
  destruct (w_pc w) as [| | |h|h|h|h| |rest|h rest|] eqn:Hpc; cbn in HE, Hnd.
  - injection HE as <-. apply (Inv_pc _ _ (w_key w) w); rewrite ?Hpc; try done; destruct (m_done m) eqn:Hd; try done.
    unfold fifo_ok. cbn. split; [done|]. by eapply prefix_refl_app.
  - unfold pop in HE. destruct (w_queue w) as [|h q] eqn:Hq; injection HE as <-.
    + apply (Inv_pc _ _ (w_key w) w); rewrite ?Hpc; try done. unfold fifo_ok. cbn. by rewrite Hq.
    + eapply Inv_step_plain; rewrite ?Hpc; try done; cbn.
      * unfold counted. cbn. by rewrite Hpc, Hq.
      * intros x. unfold pending. cbn. by rewrite Hpc, Hq.
      * apply live_pending; [done|by rewrite Hpc].
  - destruct c; [|destruct (m_done m) eqn:Hd; [|done]|done].
    + destruct (w_notify w); [|done]. injection HE as <-.
      eapply Inv_step_plain; rewrite ?Hpc; try done; cbn.
      * unfold counted. cbn. by rewrite Hpc.
      * intros x. unfold pending. cbn. by rewrite Hpc.
      * apply live_pending; [done|by rewrite Hpc].
    + injection HE as <-. apply (Inv_pc _ _ (w_key w) w); rewrite ?Hpc; try done.
      unfold fifo_ok. cbn. split; [done|]. by eapply prefix_refl_app.
  - destruct (m_done m) eqn:Hd; injection HE as <-; [|by apply (Inv_start _ _ (w_key w))].
    apply NoDup_cons in Hnd as [Hnh _].
    apply (Inv_resolving _ _ (w_key w) w); try done; unfold counted, pending; cbn; rewrite ?Hpc; try done.
    + left.
    + intros x. cbn. by rewrite elem_of_cons.
    + apply (ok_queue _ _ _ Hok).
    + intros m' Hd'. unfold fifo_ok. cbn. rewrite Hd'. split; [done|]. by eapply prefix_refl_app.
  - destruct c as [| |o]; [done..|]. injection HE as <-. apply NoDup_cons in Hnd as [Hnh _].
    apply (Inv_resolving _ _ (w_key w) w); try done; unfold counted, pending; cbn; rewrite ?Hpc; try done.
    + left.
    + intros x. cbn. by rewrite elem_of_cons.
    + apply (ok_queue _ _ _ Hok).
  - injection HE as <-. apply (Inv_afterResolve _ _ (w_key w)); rewrite ?Hpc; done.
  - injection HE as <-. apply (Inv_afterResolve _ _ (w_key w)); rewrite ?Hpc; done.
  - injection HE as <-. eapply Inv_step_plain; rewrite ?Hpc; try done; cbn.
    + unfold counted. cbn. by rewrite Hpc, app_nil_r.
    + intros x. unfold pending. cbn. by rewrite Hpc, app_nil_r.
    + apply live_pending; [done|by rewrite Hpc].
  - destruct rest as [|h rest]; injection HE as <-.
    + apply (Inv_pc _ _ (w_key w) w); rewrite ?Hpc; done.
    + cbn in Hnd. apply NoDup_cons in Hnd as [Hnh _].
      apply (Inv_resolving _ _ (w_key w) w); try done; unfold counted, pending; cbn; rewrite ?Hpc; try done.
      * left.
      * intros x. cbn. by rewrite elem_of_cons.
      * intros x Hx. apply (live_pending _ _ _ Hok); [by rewrite Hpc|].
        unfold pending. rewrite Hpc. cbn. by right.
      * intros m' Hd'. unfold fifo_ok. cbn. by rewrite Hd'.
  - injection HE as <-. apply (Inv_afterResolve _ _ (w_key w)); rewrite ?Hpc; done.
  - done.
Qed.

Lemma Inv_exec e m m' : exec e m = Some m' -> Inv m -> Inv m'.
Proof.
  destruct e as [key kind| | | | |key c]; unfold exec; intros HE HI.
  - unfold lock_free in HE. destruct (m_lock m) eqn:Hl; try done.
    destruct (Enqueue_begin key kind false m) eqn:HB; try done. injection HE as <-.
    by eapply Inv_Enqueue_begin.
  - destruct (m_lock m) as [|k h|k h|k h] eqn:Hl.
    + unfold Enqueue_advance in HE. by rewrite Hl in HE.
    + by eapply Inv_LChecked.
    + by eapply Inv_LWorker.
    + by eapply Inv_LAppended.
  - destruct (lock_free m); [|done]. injection HE as <-. by apply (Inv_flags m).
  - destruct (m_cancelPending m); [|done]. injection HE as <-. by apply (Inv_flags m).
  - injection HE as <-. by apply (Inv_flags m).
  - by eapply Inv_worker_step.
Qed.

Lemma reachable_Inv P m : reachable P m -> Inv m.
Proof.
  unfold reachable. intros H.
  refine (rtc_ind_r (R := step P) Inv NewManager Inv_initial _ m H).
  intros m1 m2 _ [e ? ? _ HE]. by apply (Inv_exec e).
Qed.

Lemma exec_all_reachable (P : event -> Prop) es m m' :
  Forall P es -> reachable P m -> exec_all es m = Some m' -> reachable P m'.
Proof.
  intros Hes. revert m. induction Hes as [|e es He Hes IH]; intros m Hm HE; cbn in HE.
  - by injection HE as <-.
  - destruct (exec e m) as [m1|] eqn:E; [|done]. cbn in HE.
    apply (IH m1); [|done]. eapply rtc_r; [exact Hm|]. by econstructor.
Qed.

(** ** Mutual exclusion and order *)

(** The goroutine of the worker object at [i] is executing the run func of [h]. *)
Definition running (m : Manager) (i h : nat) : Prop :=
  exists w, m_heap m !! i = Some w /\ w_pc w = PRun h.

Lemma running_live m i h hd :
  Inv m -> running m i h -> m_handles m !! h = Some hd ->
  h_err hd = None /\ exists w, m_heap m !! i = Some w /\ w_pc w = PRun h /\ w_key w = h_key hd.
Proof.
  intros HI (w & Hi & Hp) Hh.
  destruct (ok_pc _ _ _ (inv_worker_at _ _ _ _ HI Hi eq_refl) h) as (hd' & Hhd & Hk & He & _);
    [rewrite Hp; left|]. simplify_eq. split; [done|by exists w].
Qed.

(** C38. At most one operation per repository key runs at any instant, whatever the interleaving
    of producers, worker goroutines, [Stop] and the parent context's cancellation: no key ever
    gets a second worker object, not even one the Manager's map has lost, and two worker
    goroutines that execute the run funcs of two handles of one key are one goroutine and one
    handle, which is not resolved yet. *)
Theorem queue_exclusive (m : Manager) (Hm : reachable any_event m) :
  (forall i j w1 w2, m_heap m !! i = Some w1 -> m_heap m !! j = Some w2 -> w_key w1 = w_key w2 ->
     i = j /\ m_workers m !! w_key w1 = Some i)
  /\ (forall i j h1 h2 hd1 hd2, running m i h1 -> running m j h2 ->
       m_handles m !! h1 = Some hd1 -> m_handles m !! h2 = Some hd2 -> h_key hd1 = h_key hd2 ->
       i = j /\ h1 = h2 /\ h_err hd1 = None).
Proof.
  apply reachable_Inv in Hm. pose proof (inv_shape _ Hm) as HS.
  assert (forall i j w1 w2, m_heap m !! i = Some w1 -> m_heap m !! j = Some w2 ->
    w_key w1 = w_key w2 -> i = j /\ m_workers m !! w_key w1 = Some i) as Hone.
  { intros i j w1 w2 H1%(sh_reached _ HS) H2%(sh_reached _ HS) Hk. rewrite Hk in *. by simplify_eq. }
  split; [done|]. intros i j h1 h2 hd1 hd2 H1 H2 Hh1 Hh2 Hkey.
  destruct (running_live _ _ _ _ Hm H1 Hh1) as (He & w1 & Hw1 & Hp1 & Hk1).
  destruct (running_live _ _ _ _ Hm H2 Hh2) as (_ & w2 & Hw2 & Hp2 & Hk2).
  destruct (Hone i j w1 w2) as [<- _]; [done|done|congruence|].
  simplify_eq. rewrite Hp1 in Hp2. by simplify_eq.
Qed.

(** First in, first out, at most once: the operations started for a key are
    always a prefix, without repetition, of the operations appended to its
    queue in the order their [Enqueue] calls held the Manager lock. *)
Theorem queue_fifo (m : Manager) (k : string) (w : worker)
    (Hm : reachable any_event m) (Hw : worker_of m k = Some w) :
  w_started w `prefix_of` w_enq w /\ NoDup (w_started w).
Proof.
  apply reachable_Inv in Hm. rewrite <-table_lookup in Hw. pose proof (inv_workers _ Hm _ _ Hw) as Hok.
  assert (w_started w `prefix_of` w_enq w) as Hp.
  { pose proof (ok_fifo _ _ _ Hok) as Hf. unfold fifo_ok in Hf.
    destruct (w_pc w); try (by destruct Hf); by eapply prefix_refl_app. }
  split; [done|]. destruct Hp as [l Hl]. pose proof (ok_enq_nodup _ _ _ Hok) as Hnd.
  rewrite Hl in Hnd. by apply NoDup_app in Hnd as [? _].
Qed.

(** ** The mover gate *)

(** The mover gate never opens early: while an unlock or a prune whose
    [Enqueue] call has appended it is unresolved, whether queued or running,
    [QuiescenceRequired] answers true for its repository; and it answers true
    only while such an operation is counted. *)
Theorem quiescence_sound (m : Manager) (k : string) (Hm : reachable any_event m) :
  (forall h hd, m_handles m !! h = Some hd -> h_key hd = k -> h_err hd = None ->
     held m <> Some h -> blocksMovers (h_kind hd) = true -> QuiescenceRequired m k = true)
  /\ (QuiescenceRequired m k = true ->
      exists w h, worker_of m k = Some w /\ h ∈ counted w /\ blocksMovers (kind_of m h) = true).
Proof.
  apply reachable_Inv in Hm. unfold QuiescenceRequired. rewrite <-table_lookup. split.
  - intros h hd Hhd <- He Hheld Hb.
    destruct (inv_placed _ Hm _ _ Hhd He) as [|(w & Hw & Hin)]; [done|]. rewrite Hw.
    pose proof (inv_workers _ Hm _ _ Hw) as Hok. apply (ok_sub _ _ _ Hok) in Hin.
    unfold moverBlockingActive. rewrite (ok_count _ _ _ Hok). apply Z.ltb_lt.
    apply (Nat2Z.inj_lt 0). apply countb_pos. exists h. split; [done|].
    unfold blocking_handle, kind_of. by rewrite Hhd.
  - destruct (table m !! k) as [w|] eqn:Hw; [|done]. unfold moverBlockingActive.
    rewrite (ok_count _ _ _ (inv_workers _ Hm _ _ Hw)). intros Hc%Z.ltb_lt.
    apply (Nat2Z.inj_lt 0), countb_pos in Hc as (h & Hin & Hb). by exists w, h.
Qed.

(** ** Resolution *)

Lemma resolved_upd m h f x hd :
  (forall hd o, h_err hd = Some o -> h_err (f hd) = Some o) ->
  m_handles m !! x = Some hd -> forall o, h_err hd = Some o ->
  exists hd', m_handles (upd_handle h f m) !! x = Some hd' /\ h_err hd' = Some o.
Proof.
  intros Hf Hx o Ho. destruct (decide (x = h)) as [->|Hne].
  - exists (f hd). cbn. rewrite lookup_alter_eq, Hx. split; [done|by apply Hf].
  - exists hd. by rewrite upd_lookup_ne.
Qed.

Lemma resolve_keeps o hd o' : h_err hd = Some o' -> h_err (resolve o hd) = Some o'.
Proof. unfold resolve. intros Hh. by rewrite Hh. Qed.

Lemma Enqueue_advance_handles m m' : Enqueue_advance m = Some m' -> m_handles m' = m_handles m.
Proof.
  unfold Enqueue_advance.
  destruct (m_lock m) as [|k h|k h|k h]; [done|..]; destruct (m_workers m !! k) as [i|]; cbn;
    try (destruct (m_heap m !! i)); cbn; intros; by simplify_eq.
Qed.

(** A handle is resolved exactly once: from the step that resolves it on,
    no step of any goroutine changes its outcome. *)
Theorem queue_resolved_once (e : event) (m m' : Manager) (h : nat) (hd : Handle) (o : outcome)
    (Hm : reachable any_event m) (He : exec e m = Some m')
    (Hh : m_handles m !! h = Some hd) (Ho : h_err hd = Some o) :
  exists hd', m_handles m' !! h = Some hd' /\ h_err hd' = Some o.
Proof.
  apply reachable_Inv in Hm.
  destruct e as [key kind| | | | |key c]; unfold exec in He.
  - destruct (lock_free m); [|done].
    unfold Enqueue_begin in He. destruct (m_stopped m || m_done m); [done|].
    injection He as <-. exists hd. cbn. rewrite lookup_insert_ne; [done|].
    pose proof (inv_fresh _ Hm h (ex_intro _ hd Hh)). lia.
  - exists hd. by rewrite (Enqueue_advance_handles _ _ He).
  - destruct (lock_free m); [|done]. injection He as <-. by exists hd.
  - destruct (m_cancelPending m); [|done]. injection He as <-. by exists hd.
  - injection He as <-. by exists hd.
  - unfold worker_step in He. destruct (m_heap m !! key) as [w|]; [|done]. cbn in He.
    destruct (w_pc w) as [| | |x|x|x|x| |[|x rest]|x rest|]; try (destruct c); cbn in He;
      repeat case_match; simplify_eq; try (by exists hd);
      by apply (resolved_upd _ _ _ _ hd); [first [apply resolve_keeps|done]|..].
Qed.

(** ** Shutdown *)

Definition draining (p : wpc) : bool :=
  match p with PDrained _ | PDrainedAfter _ _ | PExit => true | _ => false end.

(** What holds as long as only [Stop] shuts the Manager down. *)
Record InvStop (m : Manager) : Prop := {
  is_inv : Inv m;
  is_cancel : m_cancelPending m || m_done m = true -> m_stopped m = true;
  is_lock : m_stopped m = true -> m_lock m = LFree;
  is_drained : forall i w, m_heap m !! i = Some w -> draining (w_pc w) = true -> w_queue w = []
}.

Lemma draining_done m i w :
  Inv m -> m_heap m !! i = Some w -> draining (w_pc w) = true -> m_done m = true.
Proof.
  intros HI Hw Hd. pose proof (ok_fifo _ _ _ (inv_worker_at _ _ _ _ HI Hw eq_refl)) as Hf.
  unfold fifo_ok in Hf. by destruct (w_pc w); try done; destruct Hf.
Qed.

Lemma worker_step_shape i c m m' :
  worker_step i c m = Some m' ->
  exists w w', m_heap m !! i = Some w /\ m_heap m' = <[i := w']> (m_heap m)
    /\ m_workers m' = m_workers m
    /\ m_done m' = m_done m /\ m_stopped m' = m_stopped m /\ m_lock m' = m_lock m
    /\ m_cancelPending m' = m_cancelPending m
    /\ (draining (w_pc w') = true -> draining (w_pc w) = true /\ w_queue w' = w_queue w \/ w_queue w' = []).
Proof.
  unfold worker_step. destruct (m_heap m !! i) as [w|]; [|done]. cbn. intros He. exists w.
  destruct (w_pc w) as [| | |x|x|x|x| |[|x rest]|x rest|]; try (destruct c); cbn in He;
    unfold pop in He; repeat case_match; simplify_eq;
    eexists; (split; [done|]); (split; [done|]); (repeat split; try done);
    unfold afterResolve; repeat case_match; cbn; auto; try done.
Qed.

(** Before [Stop], no worker can be draining. *)
Lemma InvStop_running m :
  Inv m -> m_stopped m = false -> m_cancelPending m || m_done m = false -> InvStop m.
Proof.
  intros HI Hs Hc. split; [done|congruence|congruence|].
  intros k w Hw Hd. pose proof (draining_done _ _ _ HI Hw Hd) as Hdn.
  by rewrite Hdn, orb_true_r in Hc.
Qed.

Lemma Enqueue_advance_flags m m' :
  Enqueue_advance m = Some m' ->
  m_stopped m' = m_stopped m /\ m_cancelPending m' = m_cancelPending m /\ m_done m' = m_done m
  /\ m_lock m <> LFree.
Proof.
  unfold Enqueue_advance. destruct (m_lock m) as [|k h|k h|k h]; [done|..];
    destruct (m_workers m !! k) as [i|]; cbn; try (destruct (m_heap m !! i)); cbn; intros; by simplify_eq.
Qed.

Lemma InvStop_exec e m m' : stop_only e -> exec e m = Some m' -> InvStop m -> InvStop m'.
Proof.
  intros Hs He [HI Hc Hl Hd]. pose proof (Inv_exec _ _ _ He HI) as HI'.
  destruct e as [key kind| | | | |key c]; unfold exec in He; try by destruct Hs.
  - destruct (lock_free m); [|done]. unfold Enqueue_begin in He.
    destruct (m_stopped m) eqn:Hst, (m_done m) eqn:Hdn; try done. injection He as <-.
    apply InvStop_running; cbn; rewrite ?Hst, ?Hdn; try done.
    destruct (m_cancelPending m); [|done]. cbn in Hc. by specialize (Hc eq_refl).
  - destruct (Enqueue_advance_flags _ _ He) as (Es & Ec & Ed & Hne).
    apply InvStop_running; [done|rewrite Es|rewrite Ec, Ed].
    + destruct (m_stopped m); [|done]. by destruct Hne; apply Hl.
    + apply not_true_iff_false. intros Hx. by destruct Hne; apply Hl, Hc.
  - unfold lock_free in He. destruct (m_lock m) eqn:Hlk; try done. injection He as <-. by split.
  - destruct (m_cancelPending m) eqn:Hcp; [|done]. injection He as <-. cbn in Hc.
    split; cbn; auto; try done.
  - destruct (worker_step_shape _ _ _ _ He) as (w & w' & Hw & Hws & _ & Hdn & Hst & Hlk & Hcp & Hdr).
    split; rewrite ?Hdn, ?Hst, ?Hlk, ?Hcp; try done.
    intros k' w0. rewrite Hws. destruct (decide (key = k')) as [<-|Hne].
    + rewrite lookup_insert_eq. intros [= <-] Hdw.
      destruct (Hdr Hdw) as [[Hdw' ->]|]; [by apply (Hd key)|done].
    + rewrite lookup_insert_ne by done. apply Hd.
Qed.

Lemma reachable_InvStop m : reachable stop_only m -> InvStop m.
Proof.
  unfold reachable. intros H.
  refine (rtc_ind_r (R := step stop_only) InvStop NewManager _ _ m H).
  - apply InvStop_running; [apply Inv_initial|done|done].
  - intros m1 m2 _ [e ? ? Hs HE]. by apply (InvStop_exec e).
Qed.

(** When [Stop] is the only way the Manager is shut down, no caller is left
    waiting: once [Stop]'s join is over (every worker goroutine has exited),
    every handle [Enqueue] ever returned is resolved. *)
Theorem Stop_resolves_every_handle (m : Manager) (Hm : reachable stop_only m)
    (Hstop : m_stopped m = true)
    (Hjoin : forall i w, m_heap m !! i = Some w -> w_pc w = PExit) :
  forall h hd, m_handles m !! h = Some hd -> exists o, h_err hd = Some o.
Proof.
  apply reachable_InvStop in Hm as [HI _ Hl Hd]. intros h hd Hh.
  destruct (h_err hd) as [o|] eqn:He; [by exists o|exfalso].
  destruct (inv_placed _ HI _ _ Hh He) as [Hheld|(w & Hw & Hin)].
  - unfold held in Hheld. by rewrite Hl in Hheld.
  - destruct (table_inv _ _ _ (inv_shape _ HI) Hw) as (i & _ & Hi & _).
    pose proof (Hjoin _ _ Hi) as Hp. unfold pending in Hin. rewrite Hp, (Hd _ _ Hi) in Hin.
    + by apply elem_of_nil in Hin.
    + by rewrite Hp.
Qed.

(** The steps left to a worker that only drains: two per handle, and what the
    program counter still has ahead of it. *)
Definition drain_steps (w : worker) : nat :=
  2 * length (w_queue w) +
  match w_pc w with
  | PExit => 0
  | PDrained rest => 2 * length rest + 1
  | PDrainedAfter _ rest => 2 * length rest + 2
  | PDrain => 2
  | PTop | PWait | PCancelled _ => 3
  | PAfter _ | PPop | PRecheck _ => 4
  | PRun _ => 5
  end.

(** Drive the worker at [k] for [n] accesses: a waiting worker takes the Done
    case, and a running func returns [o]. *)
Definition drain_choice (w : worker) (o : outcome) : choice :=
  match w_pc w with PRun _ => ChOutcome o | _ => ChDone end.

Fixpoint drive (n : nat) (k : nat) (o : outcome) (m : Manager) : option Manager :=
  match n with
  | O => Some m
  | S n =>
      w ← m_heap m !! k;
      m' ← worker_step k (drain_choice w o) m;
      drive n k o m'
  end.

Lemma drain_progress k w o m :
  m_done m = true -> m_heap m !! k = Some w -> w_pc w <> PExit ->
  exists m' w', worker_step k (drain_choice w o) m = Some m' /\ m_done m' = true
    /\ m_heap m' !! k = Some w' /\ drain_steps w' < drain_steps w.
Proof.
  intros Hd Hw Hp. unfold worker_step, drain_choice. rewrite Hw. cbn.
  unfold drain_steps, pop.
  destruct (w_pc w) as [| | |x|x|x|x| |[|x rest]|x rest|] eqn:Hpc; rewrite ?Hd; try done;
    try (destruct (w_queue w) as [|y q] eqn:Hq);
    (eexists; eexists; split; [done|]; split; [done|];
     split; [apply lookup_insert_eq|]);
    unfold afterResolve; cbn;
    try (destruct (blocksMovers (kind_of m x)));
    cbn; rewrite ?Hq, ?Hpc; cbn; lia.
Qed.

(** Shutdown terminates: once the base context is done, a worker goroutine
    exits after at most [drain_steps] of its own accesses, provided only that
    the run func it may be executing returns (or panics). *)
Theorem worker_exits_after_shutdown (m : Manager) (k : nat) (w : worker) (o : outcome)
    (Hd : m_done m = true) (Hw : m_heap m !! k = Some w) :
  exists n m' w', n <= drain_steps w /\ drive n k o m = Some m'
    /\ m_heap m' !! k = Some w' /\ w_pc w' = PExit.
Proof.
  remember (drain_steps w) as b eqn:Hb. assert (drain_steps w <= b) as Hle by lia. clear Hb.
  revert m w Hd Hw Hle. induction b as [|b IH]; intros m w Hd Hw Hle.
  - exists 0, m, w. cbn. split_and!; try done.
    unfold drain_steps in Hle. destruct (w_pc w); try done; lia.
  - destruct (decide (w_pc w = PExit)) as [Hp|Hp]; [exists 0, m, w; by split_and!; try lia|].
    destruct (drain_progress k w o m Hd Hw Hp) as (m1 & w1 & Hs & Hd1 & Hw1 & Hlt).
    destruct (IH m1 w1 Hd1 Hw1 ltac:(lia)) as (n & m' & w' & Hn & Hdr & Hw' & Hx).
    exists (S n), m', w'. cbn. rewrite Hw. cbn. rewrite Hs. split_and!; try done. lia.
Qed.

(** ** A handle lost to the cancellation of the parent context

    [Stop] takes the Manager lock before it cancels, so an [Enqueue] that passed
    its shutdown check has appended its handle by then.  The context given to
    [NewManager] can be cancelled by anyone at any time, and then a worker may
    exit between the check and the append. *)

Record lost (k : string) (h : nat) (m : Manager) : Prop := {
  lost_inv : Inv m;
  lost_worker : exists w, worker_of m k = Some w /\ w_pc w = PExit;
  lost_handle : exists hd, m_handles m !! h = Some hd /\ h_key hd = k /\ h_err hd = None
}.

(** A worker that has exited makes no access, and the accesses of another key's worker leave
    it and the handles of its key alone. *)
Lemma worker_step_other k i c m m' hd h w0 :
  Inv m -> worker_step i c m = Some m' ->
  m_handles m !! h = Some hd -> h_key hd = k -> worker_of m k = Some w0 -> w_pc w0 = PExit ->
  m_handles m' !! h = Some hd /\ worker_of m' k = Some w0.
Proof.
  intros HI He Hh Hk Hw0 Hx0. pose proof (inv_shape _ HI) as HS.
  destruct (worker_step_shape _ _ _ _ He) as (w & w' & Hw & Hws & Hwk & _).
  assert (w_key w <> k) as Hne.
  { intros Hk'. pose proof (table_heap _ _ _ HS Hw) as Ht. rewrite table_lookup, Hk' in Ht. simplify_eq.
    unfold worker_step in He. rewrite Hw in He. cbn in He. by rewrite Hx0 in He. }
  split; cycle 1.
  { unfold worker_of in *. rewrite Hwk, Hws. destruct (m_workers m !! k) as [j|] eqn:Hj; [|done].
    cbn in *. rewrite lookup_insert_ne; [done|]. intros <-.
    destruct (sh_index _ HS _ _ Hj) as (w1 & Hw1 & Hk1). congruence. }
  pose proof (inv_worker_at _ _ _ _ HI Hw eq_refl) as Hok.
  assert (forall x, x ∈ pc_pending (w_pc w) -> x <> h) as Hp.
  { intros x Hx ->. destruct (ok_pc _ _ _ Hok h Hx) as (hd' & ? & ? & _). congruence. }
  unfold worker_step in He. rewrite Hw in He. cbn in He.
  destruct (w_pc w) as [| | |x|x|x|x| |[|x rest]|x rest|]; try (destruct c); cbn in He, Hp;
    unfold pop in He; repeat case_match; simplify_eq; cbn; try done;
    rewrite lookup_alter_ne; auto using list_elem_of_here.
Qed.

Lemma Enqueue_advance_keeps m m' k w :
  Inv m -> Enqueue_advance m = Some m' -> worker_of m k = Some w ->
  m_handles m' = m_handles m /\ exists w', worker_of m' k = Some w' /\ w_pc w' = w_pc w.
Proof.
  intros HI He Hw. pose proof (inv_shape _ HI) as HS. rewrite <-table_lookup in Hw.
  assert (forall k' j w1 w1', m_workers m !! k' = Some j -> m_heap m !! j = Some w1 ->
    w_key w1' = w_key w1 -> w_pc w1' = w_pc w1 ->
    exists w', table (set_worker j w1' m) !! k = Some w' /\ w_pc w' = w_pc w) as Hset.
  { intros k' j w1 w1' Hj Hw1 Hk1 Hp1. rewrite (table_set_worker m j w1 w1') by done.
    rewrite lookup_insert. case_decide as Hd; [|by exists w].
    pose proof (table_heap _ _ _ HS Hw1) as Ht. rewrite Hd in Ht. simplify_eq. by exists w1'. }
  unfold Enqueue_advance in He.
  destruct (m_lock m) as [|key x|key x|key x]; [done|..];
    destruct (m_workers m !! key) as [j|] eqn:Hj; cbn in He; try done.
  - injection He as <-. split; [done|]. exists w. split; [|done]. by rewrite <-table_lookup.
  - injection He as <-. split; [done|]. exists w. rewrite <-table_lookup. split; [|done].
    etrans; [exact (f_equal (fun t => t !! k) (table_start m key HS))|].
    rewrite lookup_insert_ne; [done|]. intros ->.
    destruct (table_inv _ _ _ HS Hw) as (i & Hi & _). congruence.
  - destruct (m_heap m !! j) as [w1|] eqn:Hw1; [|done]. cbn in He. injection He as <-.
    split; [done|]. rewrite <-table_lookup. by apply (Hset key j w1).
  - destruct (m_heap m !! j) as [w1|] eqn:Hw1; [|done]. cbn in He. injection He as <-.
    split; [done|]. rewrite <-table_lookup. by apply (Hset key j w1).
Qed.

Lemma lost_exec k h e m m' : exec e m = Some m' -> lost k h m -> lost k h m'.
Proof.
  intros He [HI (w & Hw & Hp) (hd & Hh & Hk & Herr)].
  pose proof (Inv_exec _ _ _ He HI) as HI'.
  destruct e as [key kind| | | | |key c]; unfold exec in He.
  - destruct (lock_free m); [|done]. unfold Enqueue_begin in He.
    destruct (m_stopped m || m_done m); [done|]. injection He as <-.
    assert (h < m_next m) as Hlt by (apply (inv_fresh _ HI); by exists hd).
    split; [done|by exists w|]. exists hd. cbn. rewrite lookup_insert_ne by lia. done.
  - destruct (Enqueue_advance_keeps _ _ _ _ HI He Hw) as (Hhs & w' & Hw' & Hp').
    split; [done|exists w'; by rewrite Hp'|exists hd; by rewrite Hhs].
  - destruct (lock_free m); [|done]. injection He as <-. split; [done|by exists w|by exists hd].
  - destruct (m_cancelPending m); [|done]. injection He as <-. split; [done|by exists w|by exists hd].
  - injection He as <-. split; [done|by exists w|by exists hd].
  - destruct (worker_step_other k key c m m' hd h w HI He Hh Hk Hw Hp) as [Hh' Hw'].
    split; [done|by exists w|by exists hd].
Qed.

Definition lost_trace : list event :=
  [EvEnqueue "s3:repo" OpUnlock; EvProducer; EvParentCancel;
   EvWorker 0 ChDone; EvWorker 0 ChDone; EvWorker 0 ChDone;
   EvProducer; EvProducer].

Definition run_trace (es : list event) : Manager := default NewManager (exec_all es NewManager).

Lemma run_trace_reachable P es :
  Forall P es -> is_Some (exec_all es NewManager) -> reachable P (run_trace es).
Proof.
  intros HP [m Hm]. unfold run_trace. rewrite Hm. cbn. eapply exec_all_reachable; eauto. apply rtc_refl.
Qed.

Lemma any_event_all es : Forall any_event es.
Proof. by apply Forall_true. Qed.

Ltac trace P := apply (run_trace_reachable P); [first [apply any_event_all|repeat constructor; done]|by eexists; vm_compute].

(** The context given to [NewManager] can be cancelled after [Enqueue]'s
    shutdown check and before its append: the call returns a handle, and no step
    the Manager can ever make afterwards resolves it. *)
Theorem parent_cancel_loses_handle :
  exists m h, reachable any_event m /\ m_lock m = LFree /\ is_Some (m_handles m !! h)
    /\ forall m', rtc (step any_event) m m' ->
         exists hd, m_handles m' !! h = Some hd /\ h_err hd = None.
Proof.
  assert (reachable any_event (run_trace lost_trace)) as Hr by trace any_event.
  exists (run_trace lost_trace), 0. split; [done|]. split; [by vm_compute|].
  split; [by eexists; vm_compute|]. intros m' Hm'.
  assert (lost "s3:repo" 0 m') as [_ _ (hd & ? & _ & ?)]; [|by exists hd].
  refine (rtc_ind_r (R := step any_event) (lost "s3:repo" 0) _ _ _ m' Hm').
  - split; [by apply (reachable_Inv any_event)|by eexists; vm_compute|by eexists; vm_compute].
  - intros m1 m2 _ [e ? ? _ HE]. by apply (lost_exec _ _ e).
Qed.

(** ** Witnesses *)

(** An unlock and a prune of one repository: the first one is running. *)
Definition busy_trace : list event :=
  [EvEnqueue "s3:repo" OpUnlock; EvProducer; EvProducer; EvProducer;
   EvEnqueue "s3:repo" OpPrune; EvProducer; EvProducer; EvProducer;
   EvWorker 0 ChNotify; EvWorker 0 ChNotify; EvWorker 0 ChNotify].

(** The same, the first one done, and the Manager stopped and joined. *)
Definition stopped_trace : list event :=
  busy_trace ++
  [EvWorker 0 (ChOutcome (ORet None)); EvStop; EvCancel;
   EvWorker 0 ChDone; EvWorker 0 ChDone; EvWorker 0 ChDone;
   EvWorker 0 ChDone; EvWorker 0 ChDone; EvWorker 0 ChDone].

Lemma queue_exclusive_witness :
  exists hd, running (run_trace busy_trace) 0 0 /\ m_handles (run_trace busy_trace) !! 0 = Some hd
    /\ h_key hd = "s3:repo" /\ (0 = 0 /\ 0 = 0 /\ h_err hd = None).
Proof.
  assert (running (run_trace busy_trace) 0 0) as Hr by (eexists; split; vm_compute; done).
  eexists. split; [done|]. split; [vm_compute; done|]. split; [done|].
  destruct (queue_exclusive (run_trace busy_trace) ltac:(trace any_event)) as [_ H].
  eapply (H 0 0 0 0); [done|done|vm_compute; done|vm_compute; done|done].
Defined.

Lemma queue_fifo_witness :
  exists w, worker_of (run_trace busy_trace) "s3:repo" = Some w
    /\ w_started w = [0] /\ w_enq w = [0; 1]
    /\ (w_started w `prefix_of` w_enq w /\ NoDup (w_started w)).
Proof.
  eexists. split; [vm_compute; reflexivity|]. split; [done|]. split; [done|].
  apply (queue_fifo (run_trace busy_trace) "s3:repo"); [trace any_event|vm_compute; reflexivity].
Defined.

Lemma quiescence_sound_witness :
  QuiescenceRequired (run_trace busy_trace) "s3:repo" = true
  /\ exists w h, worker_of (run_trace busy_trace) "s3:repo" = Some w
       /\ h ∈ counted w /\ blocksMovers (kind_of (run_trace busy_trace) h) = true.
Proof.
  split; [by vm_compute|].
  apply (quiescence_sound (run_trace busy_trace) "s3:repo"); [trace any_event|by vm_compute].
Defined.

Lemma queue_resolved_once_witness :
  exists hd', m_handles (run_trace stopped_trace) !! 1 = Some hd' /\ h_err hd' = Some OCancelled.
Proof.
  eapply (queue_resolved_once EvParentCancel (run_trace stopped_trace) _ 1);
    [trace any_event|by vm_compute|by vm_compute|done].
Defined.

Lemma Stop_resolves_every_handle_witness :
  exists o, m_handles (run_trace stopped_trace) !! 1
            = Some (mkHandle OpPrune "s3:repo" true (Some o)).
Proof.
  destruct (Stop_resolves_every_handle (run_trace stopped_trace) ltac:(trace stop_only)
              ltac:(by vm_compute)) with (h := 1) (hd := mkHandle OpPrune "s3:repo" true (Some OCancelled))
    as [o Ho].
  - intros k w Hw. vm_compute in Hw.
    destruct k as [|k]; simpl in *; [by injection Hw as <-|].
    repeat match goal with
    | H : context [match ?x with _ => _ end] |- _ => destruct x; try done
    end; by injection Hw as <-.
  - by vm_compute.
  - exists o. simpl in Ho. injection Ho as <-. by vm_compute.
Defined.

Lemma worker_exits_after_shutdown_witness :
  exists m w, m_done m = true /\ m_heap m !! 0 = Some w /\ w_queue w = [1]
    /\ exists n m' w', n <= drain_steps w /\ drive n 0 (ORet None) m = Some m'
        /\ m_heap m' !! 0 = Some w' /\ w_pc w' = PExit.
Proof.
  exists (run_trace (busy_trace ++ [EvParentCancel])). eexists.
  split; [by vm_compute|]. split; [by vm_compute|]. split; [done|].
  apply (worker_exits_after_shutdown _ 0); by vm_compute.
Defined.
