(* ===== verification/MoverResult.v ===== *)
(** * MoverResult: the mover's termination message (internal/mover/result.go)

    The payload a mover reports through its termination message, how it is
    trimmed to the kubelet's cap, and how restic's output is read.  The JSON
    codec is a parameter of the model. *)

From S2P Require Import Prelude GoText Cluster.
From Stdlib Require Import Ascii String.

#[local] Open Scope string_scope.
#[local] Notation length := List.length.

Record ResourceEntry := mkResourceEntry {
  re_Group : string;
  re_Kind : string;
  re_Name : string;
  re_Outcome : string;
  re_Reason : string;
  re_Changed : list string
}.

Record MoverResult := mkMoverResult {
  mr_OK : bool;
  mr_Operation : string;
  mr_SnapshotID : string;
  mr_SizeBytes : Z;
  mr_AddedBytes : Z;
  mr_RestoredBytes : Z;
  mr_ResourceCount : Z;
  mr_IncompleteManifests : bool;
  mr_RestoredResources : Z;
  mr_FailedResources : Z;
  mr_SkippedResources : Z;
  mr_ResourceEntries : list ResourceEntry;
  mr_ResourcesTruncated : bool;
  mr_Error : string;
  mr_Memory : list Z * string     (* the memory figures, which nothing here reads *)
}.

Definition zeroResult : MoverResult :=
  mkMoverResult false "" "" 0 0 0 0 false 0 0 0 [] false "" ([], "").

Definition with_entries (es : list ResourceEntry) (trunc : bool) (r : MoverResult) : MoverResult :=
  mkMoverResult (mr_OK r) (mr_Operation r) (mr_SnapshotID r) (mr_SizeBytes r) (mr_AddedBytes r)
    (mr_RestoredBytes r) (mr_ResourceCount r) (mr_IncompleteManifests r) (mr_RestoredResources r)
    (mr_FailedResources r) (mr_SkippedResources r) es trunc (mr_Error r) (mr_Memory r).

Definition TerminationMessageLimit : nat := 4096.
Definition resultSizeMargin : nat := 256.
Definition maxReasonLength : nat := 180.
Definition OutcomeFailedWire : string := "Failed".

Definition shortenEntry (e : ResourceEntry) : ResourceEntry :=
  if (maxReasonLength <? slen (re_Reason e))%nat
  then mkResourceEntry (re_Group e) (re_Kind e) (re_Name e) (re_Outcome e)
         (stake maxReasonLength (re_Reason e) ++ "…") (re_Changed e)
  else e.

Definition entryFailed (e : ResourceEntry) : bool := re_Outcome e =? OutcomeFailedWire.

Section Codec.

(** [json.Marshal] and [json.Unmarshal] at these types, [None] on an error, and
    [fmt]'s [%q]. *)
Variable Encode : MoverResult -> option string.
Variable Unmarshal : string -> result MoverResult.
Variable Quote : string -> string.

Definition encodedLen (r : MoverResult) : nat :=
  match Encode r with
  | Some encoded => slen encoded
  | None => S TerminationMessageLimit
  end.

Definition fits (r : MoverResult) : bool :=
  (encodedLen r <=? TerminationMessageLimit - resultSizeMargin)%nat.

(** The trimming loop: [n] bounds the entries left. *)
Fixpoint dropTail (n : nat) (r : MoverResult) : MoverResult :=
  match n with
  | O => r
  | S n =>
      match mr_ResourceEntries r with
      | [] => r
      | es => if fits r then r else dropTail n (with_entries (take (length es - 1) es) true r)
      end
  end.

Definition Fit (r : MoverResult) : MoverResult :=
  let r := with_entries (map shortenEntry (mr_ResourceEntries r)) (mr_ResourcesTruncated r) r in
  if fits r then r
  else
    let es := mr_ResourceEntries r in
    let ordered := (List.filter entryFailed es ++ List.filter (fun e => negb (entryFailed e)) es)%list in
    dropTail (length es) (with_entries ordered (mr_ResourcesTruncated r) r).

Definition emptyMessage : string :=
  "empty mover termination message: the container terminated without writing a result " ++
  "(e.g. OOMKilled, SIGKILL or eviction); treat as failure".

Definition ParseMoverResult (msg : string) : result MoverResult :=
  if TrimSpace msg =? "" then Err (errorf emptyMessage)
  else
    match Unmarshal msg with
    | Ok r => Ok r
    | Err e => Err (wrap_err ("decode mover termination message " ++ Quote msg) e)
    end.
End Codec.

(** ** restic's --json stream *)

Definition messageTypeSummary : string := "summary".

Definition dquote : string := String (ascii_of_nat 34) EmptyString.

Definition newline : ascii := ascii_of_nat 10.

(** The segments [ReadBytes('\n')] yields, without their newline. *)
Fixpoint lines_of (s : string) : list string :=
  match s with
  | EmptyString => [""]
  | String a r =>
      if Ascii.eqb a newline then "" :: lines_of r
      else match lines_of r with
           | l :: ls => String a l :: ls
           | [] => [String a ""]
           end
  end.

(** The lines handed to [tryDecode]. *)
Definition candidates (out : string) : list string :=
  List.filter (head_is "{") (map TrimSpace (lines_of out)).

(** [scanSummaryLines] with a closure that keeps the last decoded value. *)
Definition scanSummaryLines {S} (decode : string -> option S) (out : string) : option S :=
  fold_left (fun acc l => match decode l with Some s => Some s | None => acc end)
    (candidates out) None.

Record ResticBackupSummary := mkBackupSummary {
  rb_MessageType : string;
  rb_SnapshotID : string;
  rb_TotalBytesProcessed : Z;
  rb_DataAdded : Z
}.

Record ResticRestoreSummary := mkRestoreSummary {
  rr_MessageType : string;
  rr_TotalBytes : Z;
  rr_BytesRestored : Z;
  rr_FilesRestored : Z
}.

Section Summaries.

(** [json.Unmarshal] into the two summary types. *)
Variable UnmarshalBackup : string -> option ResticBackupSummary.
Variable UnmarshalRestore : string -> option ResticRestoreSummary.

Definition ParseBackupSummary (resticStdout : string) : result ResticBackupSummary :=
  match scanSummaryLines
          (fun line => match UnmarshalBackup line with
                       | Some c => if rb_MessageType c =? messageTypeSummary then Some c else None
                       | None => None
                       end) resticStdout with
  | Some s => Ok s
  | None => Err (errorf ("no restic backup summary (message_type=" ++ dquote ++ messageTypeSummary ++ dquote ++ ") in "
                         ++ Itoa (Z.of_nat (slen resticStdout)) ++ " bytes of --json output"))
  end.

Definition ParseRestoreSummary (resticStdout : string) : result ResticRestoreSummary :=
  match scanSummaryLines
          (fun line => match UnmarshalRestore line with
                       | Some c => if rr_MessageType c =? messageTypeSummary then Some c else None
                       | None => None
                       end) resticStdout with
  | Some s => Ok s
  | None => Err (errorf ("no restic restore summary (message_type=" ++ dquote ++ messageTypeSummary ++ dquote ++ ") in "
                         ++ Itoa (Z.of_nat (slen resticStdout)) ++ " bytes of --json output"))
  end.
End Summaries.

Definition SummaryToResult (op : string) (s : ResticBackupSummary) : MoverResult :=
  mkMoverResult true op (rb_SnapshotID s) (rb_TotalBytesProcessed s) (rb_DataAdded s)
    0 0 false 0 0 0 [] false "" ([], "").

Definition RestoreSummaryToResult (s : ResticRestoreSummary) : MoverResult :=
  mkMoverResult true "restore" "" (rr_TotalBytes s) 0 (rr_BytesRestored s)
    0 false 0 0 0 [] false "" ([], "").

(** ** Laws *)

(** [r'] is [r] up to its entries. *)
Definition same_counts (r r' : MoverResult) : Prop :=
  r' = with_entries (mr_ResourceEntries r') (mr_ResourcesTruncated r') r.

Lemma same_counts_with es t r : same_counts r (with_entries es t r).
Proof. done. Qed.

Lemma same_counts_trans r1 r2 r3 : same_counts r1 r2 -> same_counts r2 r3 -> same_counts r1 r3.
Proof. unfold same_counts. intros -> ->. done. Qed.

Section Codec_laws.
Variable Encode : MoverResult -> option string.
Notation fits := (fits Encode).
Notation dropTail := (dropTail Encode).

Record trimmed (r r' : MoverResult) : Prop := {
  tr_counts : same_counts r r';
  tr_prefix : mr_ResourceEntries r' `prefix_of` mr_ResourceEntries r;
  tr_flag : mr_ResourceEntries r' <> mr_ResourceEntries r -> mr_ResourcesTruncated r' = true;
  tr_monotone : mr_ResourcesTruncated r = true -> mr_ResourcesTruncated r' = true
}.

Lemma trimmed_refl r : trimmed r r.
Proof. split; [by destruct r|done|done|done]. Qed.

Lemma dropTail_spec n r :
  length (mr_ResourceEntries r) <= n ->
  trimmed r (dropTail n r)
  /\ (fits (dropTail n r) = true \/ mr_ResourceEntries (dropTail n r) = []).
Proof.
  revert r. induction n as [|n IH]; intros r Hn; simpl.
  - destruct (mr_ResourceEntries r) eqn:E; [|simpl in Hn; lia].
    split; [apply trimmed_refl|by right].
  - destruct (mr_ResourceEntries r) as [|e es] eqn:E.
    { split; [apply trimmed_refl|by right]. }
    destruct (fits r) eqn:F; [split; [apply trimmed_refl|by left]|].
    set (r1 := with_entries (take (length (e :: es) - 1) (e :: es)) true r).
    destruct (IH r1) as [[Hc Hp Hf Hm] Hd].
    { unfold r1. cbn [mr_ResourceEntries with_entries]. rewrite length_take. simpl in *. lia. }
    split; [|done]. split.
    + eapply same_counts_trans; [|exact Hc]. done.
    + rewrite E. etrans; [exact Hp|]. unfold r1. cbn [mr_ResourceEntries with_entries].
      apply prefix_take.
    + intros _. by apply Hm.
    + intros _. by apply Hm.
Qed.

(** [Fit] never touches the accounting, keeps the failed entries before any
    other, flags what it dropped, and ends within the budget or without entries. *)
Theorem Fit_spec (r : MoverResult) :
  let r' := Fit Encode r in
  let es := map shortenEntry (mr_ResourceEntries r) in
  same_counts r r'
  /\ (fits r' = true \/ mr_ResourceEntries r' = [])
  /\ (mr_ResourceEntries r' = es
      \/ mr_ResourceEntries r' `prefix_of`
           (List.filter entryFailed es ++ List.filter (fun e => negb (entryFailed e)) es)%list)
  /\ (length (mr_ResourceEntries r') < length (mr_ResourceEntries r) ->
      mr_ResourcesTruncated r' = true).
Proof.
  cbv zeta. unfold Fit. cbv zeta. cbn [mr_ResourceEntries with_entries mr_ResourcesTruncated].
  set (es := map shortenEntry (mr_ResourceEntries r)).
  destruct (fits (with_entries es (mr_ResourcesTruncated r) r)) eqn:F.
  - split; [done|]. split; [by left|]. split; [by left|].
    cbn [mr_ResourceEntries with_entries]. unfold es. rewrite length_map. lia.
  - set (ordered := (List.filter entryFailed es ++ List.filter (fun e => negb (entryFailed e)) es)%list).
    assert (length ordered = length es) as Hlen.
    { unfold ordered. rewrite length_app.
      assert (forall l : list ResourceEntry, length (List.filter entryFailed l)
        + length (List.filter (fun e => negb (entryFailed e)) l) = length l) as Hf; [|apply Hf].
      induction l as [|x l IH]; simpl; [done|]. destruct (entryFailed x); simpl; lia. }
    destruct (dropTail_spec (length es)
      (with_entries ordered (mr_ResourcesTruncated r)
         (with_entries es (mr_ResourcesTruncated r) r))) as [[Hc Hp Hf _] Hd].
    { cbn [mr_ResourceEntries with_entries]. lia. }
    split; [|split; [exact Hd|split; [by right|]]].
    + eapply same_counts_trans; [|exact Hc]. done.
    + intros Hlt. apply Hf. intros E. rewrite E in Hlt.
      cbn [mr_ResourceEntries with_entries] in Hlt. rewrite Hlen in Hlt. unfold es in Hlt.
      rewrite length_map in Hlt. lia.
Qed.
End Codec_laws.

(** ** The scan keeps the last line that decodes *)

Lemma fold_last {A B} (f : A -> option B) (l : list A) (acc : option B) :
  fold_left (fun acc x => match f x with Some s => Some s | None => acc end) l acc
  = match last (omap f l) with Some s => Some s | None => acc end.
Proof.
  revert acc. induction l as [|x l IH]; intros acc; simpl; [done|].
  rewrite IH. destruct (f x) as [s|]; simpl; [|done].
  change (list_omap A B f l) with (omap f l).
  rewrite last_cons. by destruct (last (omap f l)).
Qed.

Lemma lines_of_app s t :
  lines_of (s ++ String newline t) = (lines_of s ++ lines_of t)%list.
Proof.
  induction s as [|a s IH]; simpl; [done|].
  destruct (Ascii.eqb a newline); [by rewrite IH|]. rewrite IH.
  destruct (lines_of s) eqn:E; [|done].
  destruct s as [|b s]; simpl in E; [done|]. destruct (Ascii.eqb b newline); [done|].
  by destruct (lines_of s).
Qed.

(** The summary is the last line of the stream that decodes as one: lines
    that do not, before it or after it, change nothing, and a stream without such
    a line is an error, never a zero summary. *)
Theorem ParseBackupSummary_spec (dec : string -> option ResticBackupSummary) (out : string) :
  let ok := fun line => match dec line with
                        | Some c => rb_MessageType c =? messageTypeSummary
                        | None => false end in
  match ParseBackupSummary dec out with
  | Ok s => exists before line after, candidates out = (before ++ line :: after)%list
              /\ dec line = Some s /\ ok line = true /\ (forall l, l ∈ after -> ok l = false)
  | Err _ => forall l, l ∈ candidates out -> ok l = false
  end.
Proof.
  cbv zeta. unfold ParseBackupSummary, scanSummaryLines. rewrite fold_last.
  set (f := fun line : string => _). generalize (candidates out). intros ls.
  assert (forall l, match f l with
                    | Some s => dec l = Some s /\ (rb_MessageType s =? messageTypeSummary) = true
                    | None => match dec l with Some c => rb_MessageType c =? messageTypeSummary
                                             | None => false end = false end) as Hf.
  { intros l. unfold f. destruct (dec l) as [c|]; [|done].
    by destruct (rb_MessageType c =? messageTypeSummary) eqn:E. }
  induction ls as [|l ls IH] using rev_ind; simpl.
  - intros l Hl. by apply elem_of_nil in Hl.
  - specialize (Hf l). rewrite omap_app. simpl. destruct (f l) as [s|] eqn:E; simpl.
    + rewrite last_snoc. destruct Hf as [Hd Hk]. exists ls, l, []. rewrite Hd, Hk.
      split_and!; try done. intros x Hx. by apply elem_of_nil in Hx.
    + rewrite app_nil_r. destruct (last (omap f ls)) as [s|] eqn:El.
      * destruct IH as (b & line & a & -> & Hd & Hk & Ha).
        exists b, line, (a ++ [l])%list. rewrite <-app_assoc. split_and!; try done.
        intros x [Hx|Hx%list_elem_of_singleton]%elem_of_app; [by apply Ha|by subst].
      * intros x [Hx|Hx%list_elem_of_singleton]%elem_of_app; [by apply IH|by subst].
Qed.
