(* ===== verification/Restic.v ===== *)
(** * Restic: snapshot identity, argv builders and tag round trips (internal/restic)

    The tags that carry tenancy, the repository location, and the command lines
    the movers run.  restic itself is not part of the source. *)

From S2P Require Import Prelude GoText Cluster.
From Stdlib Require Import Ascii String.

#[local] Open Scope string_scope.
#[local] Notation length := List.length.

(** ** Tags *)

Definition TagBase : string := "crystalbackup".
Definition TagKeyTenant : string := "tenant".
Definition TagKeyNamespace : string := "namespace".
Definition TagKeyPVC : string := "pvc".
Definition TagKeyKind : string := "kind".
Definition TagKeySchedule : string := "schedule".
Definition TagKeyRun : string := "run".
Definition TagKeyPVCSize : string := "pvcsize".
Definition TagKeyPVCClass : string := "pvcclass".
Definition TagKeyPVCModes : string := "pvcmodes".
Definition KindData : string := "data".
Definition KindManifests : string := "manifests".
Definition KindClusterManifests : string := "cluster-manifests".

Definition Tag (key value : string) : string := key ++ "=" ++ value.

Fixpoint TagValue (tags : list string) (key : string) : option string :=
  match tags with
  | [] => None
  | t :: tags =>
      let prefix := key ++ "=" in
      if HasPrefix t prefix then Some (sdrop (slen prefix) t) else TagValue tags key
  end.

(** ** Identities *)

Record Identity := mkIdentity { id_Host : string; id_Path : string; id_Tags : list string }.

Definition scheduleRunTags (tags : list string) (schedule run : string) : list string :=
  ((if schedule =? "" then tags else tags ++ [Tag TagKeySchedule schedule])
   ++ [Tag TagKeyRun run])%list.

Definition DataIdentity (clusterID tenant namespace pvc schedule run : string) : Identity :=
  mkIdentity clusterID ("/data/" ++ namespace ++ "/" ++ pvc)
    (scheduleRunTags
       [TagBase; Tag TagKeyKind KindData; Tag TagKeyTenant tenant;
        Tag TagKeyNamespace namespace; Tag TagKeyPVC pvc] schedule run).

Definition ManifestsIdentity (clusterID tenant namespace schedule run : string) : Identity :=
  mkIdentity clusterID ("/manifests/" ++ namespace)
    (scheduleRunTags
       [TagBase; Tag TagKeyKind KindManifests; Tag TagKeyTenant tenant;
        Tag TagKeyNamespace namespace] schedule run).

Definition clusterManifestsPath : string := "/cluster-manifests".

Definition ClusterManifestsIdentity (clusterID schedule run : string) : Identity :=
  mkIdentity clusterID clusterManifestsPath
    (scheduleRunTags [TagBase; Tag TagKeyKind KindClusterManifests] schedule run).

(** ** Repository location *)

Definition schemes : list string := ["https://"; "http://"].
Definition SchemeS3 : string := "s3:".

Definition RepoObjectPrefix (prefix clusterID : string) : string :=
  let segments := List.filter (fun s => negb (s =? ""))
                    (map (TrimByte "/") [prefix; clusterID]) in
  match segments with
  | [] => ""
  | _ => String.concat "/" segments ++ "/"
  end.

(** [strings.ReplaceAll(path, "//", "/")]. *)
Fixpoint replaceSlashes (s : string) : string :=
  match s with
  | String "/" (String "/" r) => String "/" (replaceSlashes r)
  | String a r => String a (replaceSlashes r)
  | EmptyString => EmptyString
  end.

Fixpoint containsSlashes (s : string) : bool :=
  match s with
  | EmptyString => false
  | String a r => (Ascii.eqb a "/" && head_is "/" r) || containsSlashes r
  end.

(** The collapse loop; every turn that changes the path shortens it. *)
Fixpoint collapse (fuel : nat) (path : string) : string :=
  match fuel with
  | O => path
  | S n => if containsSlashes path then collapse n (replaceSlashes path) else path
  end.

Definition splitScheme (endpoint : string) : string * string :=
  match find (HasPrefix endpoint) schemes with
  | Some s => (s, sdrop (slen s) endpoint)
  | None => ("", endpoint)
  end.

Definition RepoURL (endpoint bucket prefix clusterID : string) : string :=
  let '(scheme, host) := splitScheme endpoint in
  let segments := ([host; bucket] ++ (if prefix =? "" then [] else [prefix]) ++ [clusterID])%list in
  let path := String.concat "/" segments in
  SchemeS3 ++ scheme ++ TrimRightByte "/" (collapse (slen path) path).

(** ** Retention, erasure, sync, maintenance argv *)

Record RetentionSpec := mkRetention {
  KeepLast : Z; KeepHourly : Z; KeepDaily : Z; KeepWeekly : Z; KeepMonthly : Z; KeepYearly : Z
}.

Definition flagRetryLock : string := "--retry-lock".
Definition retryLockFor : string := "5m".

Definition keep (bucket : string) (n : Z) : list string :=
  if (0 <? n)%Z then ["--keep-" ++ bucket; Itoa n] else [].

Definition ForgetArgs (r : RetentionSpec) : list string :=
  let args := (["--tag"; TagBase; "--group-by"; "host,paths"]
    ++ keep "last" (KeepLast r) ++ keep "hourly" (KeepHourly r) ++ keep "daily" (KeepDaily r)
    ++ keep "weekly" (KeepWeekly r) ++ keep "monthly" (KeepMonthly r)
    ++ keep "yearly" (KeepYearly r))%list in
  if (4 <? length args)%nat then (args ++ [flagRetryLock; retryLockFor])%list else args.

Definition ForgetCommand (r : RetentionSpec) : option (list string) :=
  let flags := ForgetArgs r in
  if (length flags <=? 4)%nat then None else Some ("forget" :: flags).

Record ErasureTarget := mkErasureTarget { et_Tenant : string; et_Namespace : string; et_PVC : string }.

Definition ErasureFilterTags (t : ErasureTarget) : option (list string) :=
  if negb (et_Namespace t =? "") && negb (et_PVC t =? "")
  then Some [Tag TagKeyNamespace (et_Namespace t); Tag TagKeyPVC (et_PVC t)]
  else if negb (et_Namespace t =? "") then Some [Tag TagKeyNamespace (et_Namespace t)]
  else if negb (et_Tenant t =? "") then Some [Tag TagKeyTenant (et_Tenant t)]
  else None.

Definition ErasureTagFilter (t : ErasureTarget) : option string :=
  match ErasureFilterTags t with
  | None => None
  | Some tags => Some (String.concat "," (TagBase :: tags))
  end.

Definition ErasureForgetArgs (t : ErasureTarget) : result (list string) :=
  match ErasureTagFilter t with
  | None => Err (errorf "restic: erasure target selects nothing (set tenant, namespace, or namespace+pvc)")
  | Some filter =>
      Ok ["forget"; "--unsafe-allow-remove-all"; "--tag"; filter; flagRetryLock; retryLockFor]
  end.

Definition SnapshotsArgs : list string := ["snapshots"; "--json"; "--tag"; TagBase; "--no-lock"].

Definition SnapshotsFilterArgs (filterTags : list string) : list string :=
  ["snapshots"; "--json"; "--tag"; String.concat "," (TagBase :: filterTags); "--no-lock"].

Definition SyncArgs (namespaces : list string) : list string :=
  match namespaces with
  | [] => ["copy"; "--tag"; TagBase]
  | _ => "copy" :: flat_map (fun ns =>
           ["--tag"; String.concat "," [TagBase; Tag TagKeyNamespace ns]]) namespaces
  end.

Definition UnlockArgs : list string := ["unlock"; "--remove-all"].

(** The two regular expressions, as recognisers. *)
Definition isDigit (a : ascii) : bool := in_range 48 57 (code a).
Definition isSizeSuffix (a : ascii) : bool := existsb (Ascii.eqb a) (list_ascii_of_string "kKmMgGtT").

Fixpoint skipDigits (s : string) : nat * string :=
  match s with
  | String a r => if isDigit a then let '(n, r) := skipDigits r in (S n, r) else (0, s)
  | EmptyString => (0, s)
  end.

(** [[0-9]+(?:\.[0-9]+)?] at the head of [s]: what follows it.  The optional
    fraction is taken when it is there; nothing that may follow begins with a dot. *)
Definition decimal (s : string) : option string :=
  let '(n, r) := skipDigits s in
  if (n =? 0)%nat then None
  else match r with
       | String "." r' =>
           let '(m, r'') := skipDigits r' in if (m =? 0)%nat then Some r else Some r''
       | _ => Some r
       end.

Definition repackSizePattern (s : string) : bool :=
  match decimal s with
  | Some EmptyString => true
  | Some (String a EmptyString) => isSizeSuffix a
  | _ => false
  end.

Definition readDataSubsetPattern (s : string) : bool :=
  let nOfT :=
    let '(n, r) := skipDigits s in
    match r with
    | String "/" r =>
        let '(m, r) := skipDigits r in (0 <? n)%nat && (0 <? m)%nat && (r =? "")
    | _ => false
    end in
  let percent := match decimal s with Some r => r =? "%" | None => false end in
  nOfT || percent || repackSizePattern s.

Section Quoted.
(** [fmt]'s [%q]. *)
Variable Quote : string -> string.

Definition PruneCommand (maxRepackSize : string) : result (list string) :=
  if maxRepackSize =? "" then Ok ["prune"; flagRetryLock; retryLockFor]
  else if repackSizePattern maxRepackSize
  then Ok ["prune"; flagRetryLock; retryLockFor; "--max-repack-size"; maxRepackSize]
  else Err (errorf ("invalid maintenance.pruneMaxRepackSize " ++ Quote maxRepackSize ++
    ": want a byte count with an optional k/K, m/M, g/G or t/T suffix (e.g. " ++ Quote "50G" ++ ")")).

Definition CheckCommand (readDataSubset : string) : result (list string) :=
  if readDataSubset =? "" then Ok ["check"; flagRetryLock; retryLockFor]
  else if readDataSubsetPattern readDataSubset
  then Ok ["check"; flagRetryLock; retryLockFor; "--read-data-subset"; readDataSubset]
  else Err (errorf ("invalid maintenance.checkReadDataSubset " ++ Quote readDataSubset ++
    ": want " ++ Quote "n/t" ++ " for a specific part, a percentage like " ++ Quote "5%" ++
    ", or a size with a k/K, m/M, g/G or t/T suffix")).
End Quoted.

(** ** PVC metadata tags *)

Definition accessModeAbbrevs : list (string * string) :=
  [("ReadWriteOnce", "RWO"); ("ReadOnlyMany", "ROX"); ("ReadWriteMany", "RWX");
   ("ReadWriteOncePod", "RWOP")].

Definition assoc (l : list (string * string)) (k : string) : option string :=
  match find (fun p => fst p =? k) l with Some p => Some (snd p) | None => None end.

Definition accessModeNames : list (string * string) := map (fun p => (snd p, fst p)) accessModeAbbrevs.

Definition pvcModesJoiner : string := "+".

Definition PVCMetaTags (capacityBytes : Z) (storageClass : string) (accessModes : list string)
    : list string :=
  let tags := [Tag TagKeyPVCSize (Itoa capacityBytes)] in
  let tags := if storageClass =? "" then tags else (tags ++ [Tag TagKeyPVCClass storageClass])%list in
  let abbrevs := omap (assoc accessModeAbbrevs) accessModes in
  match abbrevs with
  | [] => tags
  | _ => (tags ++ [Tag TagKeyPVCModes (String.concat pvcModesJoiner (sort_strings abbrevs))])%list
  end.

Record PVCMeta := mkPVCMeta { pm_Capacity : Z; pm_StorageClass : string; pm_AccessModes : list string }.

(** [strconv.ParseInt(v, 10, 64)]: an optional sign, digits, in range. *)
Definition digit_step (acc : option Z) (a : ascii) : option Z :=
  match acc with
  | Some n => if isDigit a then Some (10 * n + Z.of_N (code a - 48))%Z else None
  | None => None
  end.

Definition parseDigits (s : string) : option Z :=
  if s =? "" then None else fold_left digit_step (list_ascii_of_string s) (Some 0%Z).

Definition ParseInt (v : string) : option Z :=
  let n := match v with
           | String "-" r => option_map Z.opp (parseDigits r)
           | String "+" r => parseDigits r
           | _ => parseDigits v
           end in
  match n with
  | Some n => if ((- 2 ^ 63 <=? n) && (n <? 2 ^ 63))%Z then Some n else None
  | None => None
  end.

(** [strings.SplitSeq(v, "+")]. *)
Fixpoint splitOn (c : ascii) (s : string) : list string :=
  match s with
  | EmptyString => [""]
  | String a r =>
      if Ascii.eqb a c then "" :: splitOn c r
      else match splitOn c r with
           | l :: ls => String a l :: ls
           | [] => [String a ""]
           end
  end.

Definition ParsePVCMeta (tags : list string) : PVCMeta :=
  mkPVCMeta
    (match TagValue tags TagKeyPVCSize with
     | Some v => match ParseInt v with Some n => if (0 <? n)%Z then n else 0%Z | None => 0%Z end
     | None => 0%Z
     end)
    (match TagValue tags TagKeyPVCClass with Some v => v | None => "" end)
    (match TagValue tags TagKeyPVCModes with
     | Some v => omap (assoc accessModeNames) (splitOn "+" v)
     | None => []
     end).

(** ** Restore argv *)

Definition RestoreArgs (snapshotID snapshotPath targetPath : string) (deleteExtras : bool)
    (includes excludes : list string) : list string :=
  (["restore"; (snapshotID ++ ":" ++ snapshotPath)%string; "--target"; targetPath;
    "--overwrite"; "always"]
   ++ (if deleteExtras then ["--delete"] else [])
   ++ flat_map (fun p => ["--include"; p]) includes
   ++ flat_map (fun p => ["--exclude"; p]) excludes
   ++ ["--sparse"; flagRetryLock; retryLockFor])%list.

Definition ManifestsRestoreArgs (snapshotID snapshotPath targetDir : string) : list string :=
  ["restore"; snapshotID ++ ":" ++ snapshotPath; "--target"; targetDir; "--overwrite"; "always";
   flagRetryLock; retryLockFor].

(** ** Snapshots *)

Record Snapshot := mkSnapshot {
  s_ID : string; s_Time : Z; s_Host : string; s_Paths : list string; s_Tags : list string;
  s_Summary : option Z                      (* summary.total_bytes_processed *)
}.

Definition snapshotKey (s : Snapshot) : string * string :=
  (default "" (TagValue (s_Tags s) TagKeyNamespace), default "" (TagValue (s_Tags s) TagKeyRun)).

Definition GroupByNamespaceRun (snaps : list Snapshot) : gmap (string * string) (list Snapshot) :=
  fold_left (fun groups s =>
    let key := snapshotKey s in
    <[key := (default [] (groups !! key) ++ [s])%list]> groups) snaps ∅.

(** ** Laws of the tags *)

Lemma sapp_assoc a b c : (a ++ b) ++ c = a ++ (b ++ c).
Proof. induction a as [|x a IH]; [done|]. change (String x ((a ++ b) ++ c) = String x (a ++ (b ++ c))). by rewrite IH. Qed.

Lemma TagValue_hit key v tags : TagValue (Tag key v :: tags) key = Some v.
Proof.
  simpl. unfold Tag. rewrite <-sapp_assoc, HasPrefix_append. by rewrite sdrop_append.
Qed.

Lemma TagValue_miss t tags key : HasPrefix t (key ++ "=") = false -> TagValue (t :: tags) key = TagValue tags key.
Proof. intros H. simpl. by rewrite H. Qed.

Lemma TagValue_app tags1 tags2 key :
  TagValue (tags1 ++ tags2) key
  = match TagValue tags1 key with Some v => Some v | None => TagValue tags2 key end.
Proof. induction tags1 as [|t tags1 IH]; simpl; [done|]. by destruct (HasPrefix t (key ++ "=")). Qed.

Create Rewrite HintDb tags.
#[export] Hint Rewrite TagValue_hit : tags.
#[export] Hint Rewrite TagValue_miss using done : tags.

Ltac tag_lookup := autorewrite with tags; try done.

(** The identity of a data snapshot carries every coordinate the restore and
    the discovery read back: the tags are read as they were written, whatever the
    values, and a snapshot of no schedule has no schedule tag. *)
Theorem DataIdentity_roundtrip (clusterID tenant namespace pvc schedule run : string) :
  let tags := id_Tags (DataIdentity clusterID tenant namespace pvc schedule run) in
  TagValue tags TagKeyKind = Some KindData
  /\ TagValue tags TagKeyTenant = Some tenant
  /\ TagValue tags TagKeyNamespace = Some namespace
  /\ TagValue tags TagKeyPVC = Some pvc
  /\ TagValue tags TagKeyRun = Some run
  /\ TagValue tags TagKeySchedule = (if schedule =? "" then None else Some schedule)
  /\ TagValue tags TagKeyPVCSize = None.
Proof.
  cbv zeta. unfold DataIdentity, scheduleRunTags. cbn [id_Tags].
  destruct (schedule =? ""); cbn [app]; split_and!; tag_lookup.
Qed.

(** ** Erasure *)

(** restic's documented reading of one [--tag] value: a snapshot matches when it
    carries every tag of the comma-separated list. *)
Definition restic_matches (filter : string) (tags : list string) : bool :=
  forallb (fun t => existsb (String.eqb t) tags) (splitOn "," filter).

Fixpoint has_byte (c : ascii) (s : string) : bool :=
  match s with EmptyString => false | String a r => Ascii.eqb a c || has_byte c r end.

Lemma splitOn_one c s : has_byte c s = false -> splitOn c s = [s].
Proof.
  induction s as [|a s IH]; simpl; [done|]. intros [Ha Hs]%orb_false_elim.
  by rewrite Ha, IH.
Qed.

Lemma splitOn_app c s t :
  has_byte c s = false -> splitOn c (s ++ String c t) = s :: splitOn c t.
Proof.
  induction s as [|a s IH]; simpl; [by rewrite Ascii.eqb_refl|].
  intros [Ha Hs]%orb_false_elim. by rewrite Ha, IH.
Qed.

Lemma splitOn_concat c l :
  l <> [] -> (forall s, s ∈ l -> has_byte c s = false) ->
  splitOn c (String.concat (String c "") l) = l.
Proof.
  induction l as [|s l IH]; [done|]. intros _ Hl.
  assert (has_byte c s = false) as Hs by (apply Hl; left).
  destruct l as [|t l]; [by apply splitOn_one|].
  change (String.concat (String c "") (s :: t :: l))
    with (s ++ String c (String.concat (String c "") (t :: l))).
  rewrite splitOn_app, IH; [done|done| |done]. intros x Hx. apply Hl. by right.
Qed.

Lemma has_byte_app c a b : has_byte c (a ++ b) = has_byte c a || has_byte c b.
Proof. induction a; simpl; [done|]. by rewrite IHa, orb_assoc. Qed.

(** The snapshots of one namespace, as far as the erasure filters look: the base
    tag, and at most one tag of each key. *)
Definition identity_tags (tenant namespace pvc : string) (id : Identity) : Prop :=
  exists clusterID schedule run, id = DataIdentity clusterID tenant namespace pvc schedule run.

Lemma Tag_inj k v w : Tag k v = Tag k w -> v = w.
Proof. unfold Tag. induction k; simpl; intros E; injection E; auto. Qed.

Lemma existsb_tag t tags : existsb (String.eqb t) tags = true <-> t ∈ tags.
Proof.
  rewrite existsb_elem. split.
  - by intros (x & Hx & ->%String.eqb_eq).
  - intros Ht. exists t. by rewrite String.eqb_refl.
Qed.

(** A key's tag occurs in a list only with the value [TagValue] reads, when the
    key occurs once. *)
Lemma Tag_in_data clusterID tenant namespace pvc schedule run v :
  let tags := id_Tags (DataIdentity clusterID tenant namespace pvc schedule run) in
  (Tag TagKeyNamespace v ∈ tags <-> v = namespace)
  /\ (Tag TagKeyPVC v ∈ tags <-> v = pvc)
  /\ (Tag TagKeyTenant v ∈ tags <-> v = tenant)
  /\ TagBase ∈ tags.
Proof.
  cbv zeta. unfold DataIdentity, scheduleRunTags. cbn [id_Tags].
  destruct (schedule =? ""); cbn [app]; rewrite !elem_of_cons, !elem_of_nil;
    split_and!; try tauto; split;
    try (intros ->; tauto);
    (intros H; repeat (destruct H as [H|H]; try done); by apply Tag_inj in H).
Qed.

(** An erasure forgets nothing outside its target: the filter of
    [ErasureForgetArgs] selects a data snapshot exactly when the snapshot's
    namespace (and PVC, when one is named), or its tenant, is the target's; and
    a target that names nothing is refused.  Kubernetes names have no comma. *)
Theorem ErasureForgetArgs_scope (t : ErasureTarget) (clusterID tenant namespace pvc schedule run : string)
    (Hns : has_byte "," (et_Namespace t) = false) (Hpvc : has_byte "," (et_PVC t) = false)
    (Htenant : has_byte "," (et_Tenant t) = false) :
  match ErasureForgetArgs t with
  | Ok args =>
      exists filter, args = ["forget"; "--unsafe-allow-remove-all"; "--tag"; filter; "--retry-lock"; "5m"]
      /\ (restic_matches filter (id_Tags (DataIdentity clusterID tenant namespace pvc schedule run)) = true
          <-> if et_Namespace t =? "" then et_Tenant t = tenant
              else et_Namespace t = namespace /\ (et_PVC t = "" \/ et_PVC t = pvc))
  | Err _ => et_Namespace t = "" /\ et_Tenant t = ""
  end.
Proof.
  assert (forall tags, tags <> [] ->
    (forall s, s ∈ tags -> has_byte "," s = false) ->
    forall snap, restic_matches (String.concat "," (TagBase :: tags)) snap = true
      <-> TagBase ∈ snap /\ forall s, s ∈ tags -> s ∈ snap) as Hm.
  { intros tags Hne Hb snap. unfold restic_matches.
    rewrite splitOn_concat; [|done|].
    - rewrite forallb_elem. setoid_rewrite existsb_tag. split.
      + intros H. split; [by apply H; left|]. intros s Hs. apply H. by right.
      + intros [H1 H2] s [->|Hs]%elem_of_cons; [done|by apply H2].
    - intros s [->|Hs]%elem_of_cons; [done|by apply Hb]. }
  destruct (Tag_in_data clusterID tenant namespace pvc schedule run (et_Namespace t)) as (Hin & _ & _ & Hbase).
  destruct (Tag_in_data clusterID tenant namespace pvc schedule run (et_PVC t)) as (_ & Hip & _ & _).
  destruct (Tag_in_data clusterID tenant namespace pvc schedule run (et_Tenant t)) as (_ & _ & Hit & _).
  unfold ErasureForgetArgs, ErasureTagFilter, ErasureFilterTags.
  destruct (String.eqb_spec (et_Namespace t) "") as [E|E]; cbn [negb andb];
    [destruct (String.eqb_spec (et_Tenant t) "") as [E'|E']; cbn [negb andb]; [done|]
    |destruct (String.eqb_spec (et_PVC t) "") as [E'|E']; cbn [negb andb]];
    eexists; (split; [done|]); rewrite Hm; try done;
    try (intros s Hs; rewrite ?elem_of_cons, ?elem_of_nil in Hs;
         repeat (destruct Hs as [->|Hs]); try done; unfold Tag; rewrite !has_byte_app;
         rewrite ?Hns, ?Hpvc, ?Htenant; done);
    setoid_rewrite elem_of_cons; try setoid_rewrite elem_of_cons; try setoid_rewrite elem_of_nil;
    rewrite <-?Hin, <-?Hip, <-?Hit; naive_solver.
Qed.

(** ** Retention *)

Lemma keep_length bucket n : length (keep bucket n) = if (0 <? n)%Z then 2 else 0.
Proof. unfold keep. by destruct (0 <? n)%Z. Qed.

(** Retention never runs without a keep policy: [ForgetCommand] yields no
    command exactly when every bucket is zero or negative, and a command it
    yields is the tag filter and the grouping followed by the kept buckets. *)
Theorem ForgetCommand_spec (r : RetentionSpec) :
  (ForgetCommand r = None <->
     (KeepLast r <= 0 /\ KeepHourly r <= 0 /\ KeepDaily r <= 0 /\ KeepWeekly r <= 0
      /\ KeepMonthly r <= 0 /\ KeepYearly r <= 0)%Z)
  /\ (forall args, ForgetCommand r = Some args ->
        args = (["forget"; "--tag"; TagBase; "--group-by"; "host,paths"]
          ++ keep "last" (KeepLast r) ++ keep "hourly" (KeepHourly r) ++ keep "daily" (KeepDaily r)
          ++ keep "weekly" (KeepWeekly r) ++ keep "monthly" (KeepMonthly r)
          ++ keep "yearly" (KeepYearly r) ++ ["--retry-lock"; "5m"])%list).
Proof.
  unfold ForgetCommand, ForgetArgs.
  set (ks := (keep "last" (KeepLast r) ++ keep "hourly" (KeepHourly r) ++ keep "daily" (KeepDaily r)
    ++ keep "weekly" (KeepWeekly r) ++ keep "monthly" (KeepMonthly r)
    ++ keep "yearly" (KeepYearly r))%list).
  assert (length ks = 0 <->
     (KeepLast r <= 0 /\ KeepHourly r <= 0 /\ KeepDaily r <= 0 /\ KeepWeekly r <= 0
      /\ KeepMonthly r <= 0 /\ KeepYearly r <= 0)%Z) as Hks.
  { unfold ks. rewrite !length_app, !keep_length.
    repeat match goal with |- context [(0 <? ?x)%Z] => destruct (Z.ltb_spec 0 x) end; lia. }
  rewrite length_app. change (length ["--tag"; TagBase; "--group-by"; "host,paths"]) with 4.
  destruct (Nat.ltb_spec 4 (4 + length ks)).
  - rewrite !length_app. change (length ["--tag"; TagBase; "--group-by"; "host,paths"]) with 4.
    destruct (Nat.leb_spec (4 + length ks + length [flagRetryLock; retryLockFor]) 4); [lia|].
    split; [|intros args [= <-]; unfold ks; by rewrite <-!app_assoc].
    rewrite <-Hks. split; [done|lia].
  - rewrite length_app. change (length ["--tag"; TagBase; "--group-by"; "host,paths"]) with 4.
    destruct (Nat.leb_spec (4 + length ks) 4); [|lia]. split; [|done].
    rewrite <-Hks. split; [lia|done].
Qed.

(** ** PVC metadata *)

Lemma digit_byte d :
  (0 <= d < 10)%Z -> isDigit (chr (Z.to_N (48 + d))) = true /\ Z.of_N (code (chr (Z.to_N (48 + d))) - 48) = d.
Proof.
  intros Hd. unfold isDigit, code, chr, in_range.
  rewrite N_ascii_embedding by lia. rewrite andb_true_iff, !N.leb_le. lia.
Qed.

Lemma dec_digits_parse fuel z acc :
  (0 <= z < 10 ^ Z.of_nat fuel)%Z -> 0 < fuel ->
  fold_left digit_step (list_ascii_of_string (dec_digits fuel z acc)) (Some 0%Z)
  = fold_left digit_step (list_ascii_of_string acc) (Some z).
Proof.
  revert z acc. induction fuel as [|n IH]; intros z acc Hz Hf; [lia|]. cbn [dec_digits].
  pose proof (Z.mod_pos_bound z 10 ltac:(lia)) as Hm.
  destruct (digit_byte (z mod 10) Hm) as [Hd1 Hd2].
  destruct (Z.ltb_spec z 10).
  - cbn [list_ascii_of_string fold_left digit_step]. rewrite Hd1, Hd2.
    rewrite Z.mod_small by lia. f_equal.
  - assert (0 < n)%nat as Hn by (destruct n; [simpl in Hz; lia|lia]).
    rewrite IH; [|split; [apply Z.div_pos; lia|]|done].
    + cbn [list_ascii_of_string fold_left digit_step]. rewrite Hd1, Hd2.
      f_equal. f_equal. pose proof (Z.div_mod z 10 ltac:(lia)). lia.
    + apply Z.div_lt_upper_bound; [lia|]. rewrite Nat2Z.inj_succ, Z.pow_succ_r in Hz by lia. lia.
Qed.

Lemma dec_digits_head fuel z acc :
  0 < fuel -> exists d r, (0 <= d < 10)%Z /\ dec_digits fuel z acc = String (chr (Z.to_N (48 + d))) r.
Proof.
  revert z acc. induction fuel as [|n IH]; intros z acc Hf; [lia|]. cbn [dec_digits].
  pose proof (Z.mod_pos_bound z 10 ltac:(lia)) as Hm.
  destruct (z <? 10)%Z; [by eauto|]. destruct n; [cbn [dec_digits]; by eauto|]. apply IH. lia.
Qed.

Lemma signless a r :
  isDigit a = true ->
  match String a r with
  | String "-" r => option_map Z.opp (parseDigits r)
  | String "+" r => parseDigits r
  | _ => parseDigits (String a r)
  end = parseDigits (String a r).
Proof.
  generalize (parseDigits (String a r)). intros p.
  destruct a as [[] [] [] [] [] [] [] []]; intros H; try discriminate H; reflexivity.
Qed.

Lemma ParseInt_Itoa z : (0 <= z < 2 ^ 63)%Z -> ParseInt (Itoa z) = Some z.
Proof.
  intros Hz. unfold Itoa. destruct (Z.ltb_spec z 0); [lia|].
  pose proof (dec_digits_parse 20 z "" ltac:(lia) ltac:(lia)) as Hp.
  destruct (dec_digits_head 20 z "" ltac:(lia)) as (d & r & Hd & Hs). rewrite Hs in Hp |- *.
  assert (parseDigits (String (chr (Z.to_N (48 + d))) r) = Some z) as Hpd.
  { unfold parseDigits. cbn [String.eqb]. exact Hp. }
  unfold ParseInt. rewrite signless by (by apply digit_byte). rewrite Hpd.
  destruct (Z.leb_spec (- 2 ^ 63) z); [|lia]. destruct (Z.ltb_spec z (2 ^ 63)); [done|lia].
Qed.

Definition knownModes (modes : list string) : list string :=
  List.filter (fun m => existsb (String.eqb m) (map fst accessModeAbbrevs)) modes.

Ltac each_mode m tac :=
  repeat match goal with
  | |- context [String.eqb ?x m] => destruct (String.eqb_spec x m) as [<-|]; [solve [tac]|]
  | |- context [String.eqb m ?x] => destruct (String.eqb_spec m x) as [->|]; [solve [tac]|]
  end.

Lemma abbrev_facts m a :
  assoc accessModeAbbrevs m = Some a ->
  assoc accessModeNames a = Some m /\ has_byte "+" a = false.
Proof.
  intros H. unfold assoc, accessModeAbbrevs in H. cbn [find fst snd] in H. revert H.
  each_mode m ltac:(intros [= <-]; by vm_compute). done.
Qed.

Lemma omap_knownModes modes :
  omap (assoc accessModeNames) (omap (assoc accessModeAbbrevs) modes) = knownModes modes.
Proof.
  induction modes as [|m modes IH]; [done|]. cbn [omap list_omap].
  change (list_omap string string (assoc accessModeAbbrevs) modes) with (omap (assoc accessModeAbbrevs) modes).
  unfold knownModes. cbn [List.filter]. fold (knownModes modes).
  destruct (assoc accessModeAbbrevs m) as [a|] eqn:E.
  - destruct (abbrev_facts _ _ E) as [Hn _]. cbn [omap list_omap]. rewrite Hn.
    change (list_omap string string (assoc accessModeNames)) with (omap (M := list) (assoc accessModeNames)).
    rewrite IH. cbn [existsb map fst accessModeAbbrevs]. unfold assoc, accessModeAbbrevs in E.
    cbn [find fst snd] in E. revert E.
    each_mode m ltac:(done). done.
  - rewrite IH. cbn [existsb map fst accessModeAbbrevs]. unfold assoc, accessModeAbbrevs in E.
    cbn [find fst snd] in E. revert E.
    each_mode m ltac:(done). done.
Qed.

(** The metadata a backup writes on a snapshot is what a restore recreates
    the claim from: capacity and class exactly, the access modes as a set of the
    modes that have a wire name. *)
Theorem PVCMeta_roundtrip (capacity : Z) (storageClass : string) (modes : list string)
    (Hcap : (0 < capacity < 2 ^ 63)%Z) :
  let m := ParsePVCMeta (PVCMetaTags capacity storageClass modes) in
  pm_Capacity m = capacity /\ pm_StorageClass m = storageClass
  /\ pm_AccessModes m ≡ₚ knownModes modes.
Proof.
  cbv zeta. unfold ParsePVCMeta. cbn [pm_Capacity pm_StorageClass pm_AccessModes].
  set (ab := omap (assoc accessModeAbbrevs) modes).
  assert (forall a, a ∈ ab -> has_byte "+" a = false) as Hb.
  { intros a (m & _ & Hm)%list_elem_of_omap. by destruct (abbrev_facts _ _ Hm). }
  assert (PVCMetaTags capacity storageClass modes
    = (Tag TagKeyPVCSize (Itoa capacity)
       :: (if storageClass =? "" then [] else [Tag TagKeyPVCClass storageClass])
       ++ match ab with [] => [] | _ => [Tag TagKeyPVCModes (String.concat "+" (sort_strings ab))] end)%list)
    as ->.
  { unfold PVCMetaTags. fold ab. destruct (storageClass =? ""), ab; done. }
  rewrite TagValue_hit, ParseInt_Itoa by lia.
  destruct (Z.ltb_spec 0 capacity); [|lia]. split; [done|].
  rewrite !TagValue_miss by done. rewrite !TagValue_app.
  rewrite <-omap_knownModes. fold ab.
  assert (forall rest, TagValue (if storageClass =? "" then [] else [Tag TagKeyPVCClass storageClass])
            TagKeyPVCModes = None /\ (rest = rest :> unit)) as Hno.
  { intros []. by destruct (storageClass =? ""). }
  destruct (Hno ()) as [-> _]. split.
  - destruct (String.eqb_spec storageClass "") as [->|]; [by destruct ab|]. by rewrite TagValue_hit.
  - destruct ab as [|a ab'] eqn:E; [done|]. rewrite TagValue_hit, splitOn_concat.
    + by rewrite sort_strings_perm.
    + intros Hn. pose proof (sort_strings_perm (a :: ab')) as Hp. rewrite Hn in Hp.
      by apply Permutation_nil_cons in Hp.
    + intros s Hs. rewrite sort_strings_perm in Hs. by apply Hb.
Qed.

(** ** Location *)

(** The repository URL and the object prefix of the same location can name
    different keys: [RepoURL] collapses an inner double slash of the prefix and
    [RepoObjectPrefix] does not. *)
Theorem RepoObjectPrefix_diverges :
  exists endpoint bucket prefix clusterID,
    RepoURL endpoint bucket prefix clusterID = "s3:" ++ endpoint ++ "/" ++ bucket ++ "/team/prod/c1"
    /\ RepoObjectPrefix prefix clusterID = "team//prod/c1/".
Proof. exists "https://s3.example.net", "b", "team//prod", "c1". by vm_compute. Qed.

(** ** Witnesses *)

Lemma ErasureForgetArgs_scope_witness :
  match ErasureForgetArgs (mkErasureTarget "" "team" "db") with
  | Ok args =>
      exists filter, args = ["forget"; "--unsafe-allow-remove-all"; "--tag"; filter; "--retry-lock"; "5m"]
      /\ (restic_matches filter (id_Tags (DataIdentity "c" "t" "team" "db" "" "r")) = true
          <-> "team" = "team" /\ ("db" = "" \/ "db" = "db"))
  | Err _ => "team" = "" /\ "" = ""
  end.
Proof.
  apply (ErasureForgetArgs_scope (mkErasureTarget "" "team" "db") "c" "t" "team" "db" "" "r"); reflexivity.
Defined.

Lemma PVCMeta_roundtrip_witness :
  let m := ParsePVCMeta (PVCMetaTags 1024 "fast" ["ReadWriteOnce"; "Unknown"]) in
  pm_Capacity m = 1024%Z /\ pm_StorageClass m = "fast"
  /\ pm_AccessModes m ≡ₚ knownModes ["ReadWriteOnce"; "Unknown"].
Proof. apply (PVCMeta_roundtrip 1024 "fast" ["ReadWriteOnce"; "Unknown"]). lia. Defined.
