(* ===== verification/VolumeMachine.v ===== *)
(** * VolumeMachine: one volume of a Backup (internal/controller/backup_controller.go)

    [advanceVolume] moves one volume of a Backup by at most one phase: it is
    parked or exposed out of Pending, waits for its snapshot and for a mover slot
    in Snapshotting, and is polled in Uploading.  The API server, the exposer and
    the queue answer through [answers], one field per call site; the calls that
    change the cluster are the [effect]s, in the order they are made. *)

From S2P Require Import Prelude GoText Cluster Names Status MoverResult Restic.
From Stdlib Require Import Ascii String.

#[local] Open Scope string_scope.
#[local] Notation length := List.length.

(** ** Constants *)

Definition backupPollInterval : Z := (5 * second)%Z.
Definition exposureDrainRecheckInterval : Z := (15 * second)%Z.
Definition backupReasonSkippedUnsupported : string := "CSISnapshotUnsupported".
Definition backupReasonExposerUnresolvable : string := "ExposerUnresolvable".
Definition backupReasonAdvanceRetrying : string := "AdvanceRetrying".
Definition backupReasonPrecheckFailed : string := "SnapshotPrecheckFailed".
Definition backupReasonSnapshotProgressDeadline : string := "SnapshotProgressDeadlineExceeded".
Definition backupReasonSnapshotReadyDeadline : string := "SnapshotReadyDeadlineExceeded".
Definition backupReasonMoverStartDeadline : string := "MoverStartDeadlineExceeded".
Definition backupReasonPendingDeadline : string := "PendingDeadlineExceeded".
Definition backupReasonAdvanceDeadline : string := "AdvanceDeadlineExceeded".
Definition snapshotProgressDeadline : Z := (15 * minute)%Z.
Definition snapshotReadyDeadline : Z := (2 * hour)%Z.
Definition moverStartDeadline : Z := (30 * minute)%Z.
Definition pendingResolveDeadline : Z := hour.
Definition advanceRetryDeadline : Z := (4 * hour)%Z.

(** ** Configuration and answers *)

(** The fields of [BackupReconciler] the volume machine reads. *)
Record BackupReconciler := mkBackupReconciler {
  OperatorNamespace : string;
  hasQueue : bool;              (* r.Queue != nil *)
  hasAPIReader : bool;          (* r.APIReader != nil *)
  MoverStartDeadline : Z;
  PendingResolveDeadline : Z;
  AdvanceRetryDeadline : Z
}.

Definition effectiveMoverStartDeadline (r : BackupReconciler) : Z :=
  if (0 <? MoverStartDeadline r)%Z then MoverStartDeadline r else moverStartDeadline.
Definition effectivePendingResolveDeadline (r : BackupReconciler) : Z :=
  if (0 <? PendingResolveDeadline r)%Z then PendingResolveDeadline r else pendingResolveDeadline.
Definition effectiveAdvanceRetryDeadline (r : BackupReconciler) : Z :=
  if (0 <? AdvanceRetryDeadline r)%Z then AdvanceRetryDeadline r else advanceRetryDeadline.

Record backupRunContext := mkRunContext {
  rc_scheduleRef : string;
  rc_run : string;
  rc_clusterID : string;
  rc_tenant : string;
  rc_repoName : string;
  rc_repoURL : string;
  rc_s3CredsSecret : string;
  rc_credsNamespace : string;
  rc_retention : RetentionSpec;
  rc_immutable : bool;              (* mode == LocationModeImmutable *)
  rc_backoffLimit : Z;
  rc_maxConcurrentMovers : Z
}.

(** The Backup a volume belongs to, as far as the volume machine reads it. *)
Record backupKey := mkBackupKey {
  bk_namespace : string;
  bk_name : string;
  bk_labels : labels
}.

Record Exposure := mkExposure {
  OriginNamespace : string;
  OriginVSName : string;
  ExposedPVCName : string
}.

Record Progress := mkProgress { pr_StartedAt : Z; pr_Acknowledged : bool }.

(** What the outside answers during one pass over one volume. *)
Record answers := mkAnswers {
  a_now : Z;                                   (* time.Now *)
  a_pvc : result PVC;                          (* Get of the source PVC *)
  a_for : option gerr;                         (* Exposers.For *)
  a_precheck : option gerr;                    (* SnapshotExposer.Precheck *)
  a_expose : result Exposure;                  (* SnapshotExposer.Expose *)
  a_ready : result bool;                       (* SnapshotExposer.Ready *)
  a_progress : option Progress;                (* SnapshotExposer.Progress *)
  a_srcPVC : result PVC;                       (* the second Get of the source PVC *)
  a_job : result Job;                          (* Get of the mover Job *)
  a_quiesceGate : bool;                        (* QuiescenceRequired in moverSlotBlocked *)
  a_moverJobs : result (list Job);             (* List of the managed-by Jobs *)
  a_accessKey : result string;                 (* Secrets.GetValue, twice *)
  a_secretKey : result string;
  a_createSecret : option gerr;                (* Create of the creds Secret *)
  a_createJob : option gerr;                   (* Create of the mover Job *)
  a_quiesceVerify : bool;                      (* QuiescenceRequired after the Create *)
  a_stallPods : result (list Pod);             (* List of the Job's pods in moverStalled *)
  a_resultPods : result (list Pod);            (* ... and in readMoverResult *)
  a_events : string -> string -> result (list Event)
}.

(** The calls that change something outside, in order.  An event is recorded by
    its type, reason and action; its human text is not modelled. *)
Inductive effect :=
| FxExpose (pvc : string)
| FxCreateSecret (name : string) (accessKey secretKey : string)
| FxCreateJob (name : string) (args : list string) (claim : string)
| FxDeleteMover (prefix : string)
| FxEvent (etype reason action : string)
| FxEnqueueUnlock (repo : string).

(** What one call leaves: the volume, the PVC to tear down ("" for none), the
    error, the effects. *)
Record advanced := mkAdvanced {
  ad_vol : VolumeStatus;
  ad_teardown : string;
  ad_err : option gerr;
  ad_fx : list effect
}.

(** ** Field updates of a [VolumeStatus] *)

Definition set_phase (p : VolumePhase) (v : VolumeStatus) : VolumeStatus :=
  mkVolumeStatus (Pvc v) (SnapshotID v) (SizeBytes v) (AddedBytes v) p (Node v) (Reason v)
    (FirstAttemptAt v) (PhaseEnteredAt v).
Definition set_reason (s : string) (v : VolumeStatus) : VolumeStatus :=
  mkVolumeStatus (Pvc v) (SnapshotID v) (SizeBytes v) (AddedBytes v) (Phase v) (Node v) s
    (FirstAttemptAt v) (PhaseEnteredAt v).
Definition set_node (n : string) (v : VolumeStatus) : VolumeStatus :=
  mkVolumeStatus (Pvc v) (SnapshotID v) (SizeBytes v) (AddedBytes v) (Phase v) n (Reason v)
    (FirstAttemptAt v) (PhaseEnteredAt v).
Definition set_first (t : Z) (v : VolumeStatus) : VolumeStatus :=
  mkVolumeStatus (Pvc v) (SnapshotID v) (SizeBytes v) (AddedBytes v) (Phase v) (Node v) (Reason v)
    (Some t) (PhaseEnteredAt v).
Definition set_entered (t : Z) (v : VolumeStatus) : VolumeStatus :=
  mkVolumeStatus (Pvc v) (SnapshotID v) (SizeBytes v) (AddedBytes v) (Phase v) (Node v) (Reason v)
    (FirstAttemptAt v) (Some t).
Definition set_result (id : string) (size added : Z) (v : VolumeStatus) : VolumeStatus :=
  mkVolumeStatus (Pvc v) id size added (Phase v) (Node v) (Reason v)
    (FirstAttemptAt v) (PhaseEnteredAt v).

Definition isPendingPhase (p : VolumePhase) : bool := (p =? VolumePhasePending) || (p =? "").

(** ** Parking and the outer backstop *)

Definition parkVolume (vol : VolumeStatus) (cause : gerr) : VolumeStatus :=
  set_reason (clampMessage (backupReasonExposerUnresolvable ++ ": " ++ err_text cause)) vol.

Definition recordAdvanceFailure (vol : VolumeStatus) (cause : gerr) : VolumeStatus :=
  if isPendingPhase (Phase vol) then parkVolume vol cause
  else set_reason (clampMessage (backupReasonAdvanceRetrying ++ ": " ++ err_text cause)) vol.

Definition volumeIsParked (vol : VolumeStatus) : bool :=
  isPendingPhase (Phase vol) && HasPrefix (Reason vol) (backupReasonExposerUnresolvable ++ ":").

Definition advanceBackstopApplies (phase : VolumePhase) : bool :=
  (phase =? VolumePhaseSnapshotting) || (phase =? VolumePhaseUploading).

Definition stampVolumePhaseEntry (now : Z) (vol : VolumeStatus) (entryPhase : VolumePhase)
    : VolumeStatus :=
  if Phase vol =? entryPhase then
    match PhaseEnteredAt vol with
    | Some _ => vol
    | None => if advanceBackstopApplies (Phase vol) then set_entered now vol else vol
    end
  else set_entered now vol.

Definition clearStaleAdvanceReason (vol : VolumeStatus) (entryPhase : VolumePhase) : VolumeStatus :=
  if (Phase vol =? entryPhase) || (Reason vol =? "") then vol
  else if (Phase vol =? VolumePhaseFailed) || (Phase vol =? VolumePhaseSkipped) then vol
  else set_reason "" vol.

(** [failVolumeOnAdvanceBackstop]: the failed volume when the bound is exceeded. *)
Definition failVolumeOnAdvanceBackstop (r : BackupReconciler) (now : Z) (vol : VolumeStatus)
    (cause : gerr) : option VolumeStatus :=
  match PhaseEnteredAt vol with
  | None => None
  | Some t =>
      if (time_sub now t <=? effectiveAdvanceRetryDeadline r)%Z then None
      else Some (set_reason (deadlineReason backupReasonAdvanceDeadline (err_text cause))
                   (set_phase VolumePhaseFailed vol))
  end.

Definition failedEvent (action : string) : effect := FxEvent EventTypeWarning "VolumeFailed" action.

(** The recurring shape of the call sites of the backstop: fail the volume and ask
    for its teardown when the bound is exceeded, else leave [vol] with [otherwise]. *)
Definition backstop (r : BackupReconciler) (now : Z) (vol : VolumeStatus) (cause : gerr)
    (otherwise : option gerr) (fx : list effect) : advanced :=
  match failVolumeOnAdvanceBackstop r now vol cause with
  | Some vol' => mkAdvanced vol' (Pvc vol') None (fx ++ [failedEvent "AdvanceBackstop"])%list
  | None => mkAdvanced vol "" otherwise fx
  end.

(** ** Pending *)

Definition advancePending (r : BackupReconciler) (a : answers) (vol : VolumeStatus)
    : VolumeStatus * list effect :=
  let expired :=
    match FirstAttemptAt vol with
    | None => false
    | Some t => (effectivePendingResolveDeadline r <? time_sub (a_now a) t)%Z
    end in
  if expired then
    let vol := set_phase VolumePhaseFailed vol in
    (if Reason vol =? "" then set_reason backupReasonPendingDeadline vol else vol,
     [failedEvent "ExposeVolume"])
  else
    let vol := match FirstAttemptAt vol with None => set_first (a_now a) vol | Some _ => vol end in
    match a_pvc a with
    | Err e =>
        if IsNotFound e then (set_reason "SourcePVCMissing" (set_phase VolumePhaseFailed vol), [])
        else (parkVolume vol e, [])
    | Ok _ =>
        match a_for a with
        | Some e =>
            if is_class EUnsupported e
            then (set_reason backupReasonSkippedUnsupported (set_phase VolumePhaseSkipped vol),
                  [FxEvent "Normal" "VolumeSkipped" "SkipVolume"])
            else (parkVolume vol e, [])
        | None =>
            match a_precheck a with
            | Some e =>
                if negb (is_class EPrecheckFailed e) then (parkVolume vol e, [])
                else (set_reason backupReasonPrecheckFailed (set_phase VolumePhaseFailed vol),
                      [failedEvent "SnapshotPrecheck"])
            | None =>
                match a_expose a with
                | Err e => (parkVolume vol e, [FxExpose (Pvc vol)])
                | Ok _ => (set_phase VolumePhaseSnapshotting vol, [FxExpose (Pvc vol)])
                end
            end
        end
    end.

(** ** Snapshotting *)

(** [reconstructExposure]: Expose is called again, idempotently. *)
Definition reconstructExposure (a : answers) (pvcName : string) : result Exposure * list effect :=
  match a_pvc a with
  | Err e => (Err e, [])
  | Ok _ =>
      match a_for a with
      | Some e => (Err e, [])
      | None => (a_expose a, [FxExpose pvcName])
      end
  end.

Definition snapshotDeadlineExceeded (a : answers) : string :=
  match a_progress a with
  | None => ""
  | Some p =>
      if time_is_zero (pr_StartedAt p) then ""
      else
        let elapsed := time_sub (a_now a) (pr_StartedAt p) in
        if negb (pr_Acknowledged p) && (snapshotProgressDeadline <? elapsed)%Z
        then backupReasonSnapshotProgressDeadline
        else if pr_Acknowledged p && (snapshotReadyDeadline <? elapsed)%Z
        then backupReasonSnapshotReadyDeadline
        else ""
  end.

(** *** The admission gate (internal/concurrency and [moverSlotBlocked]) *)

Definition jobTerminal (j : Job) : bool :=
  existsb (fun c => jc_true c && ((jc_type c =? JobComplete) || (jc_type c =? JobFailed)))
    (j_conditions j).

Definition RunningMoverJobs (jobs : list Job) : nat := countb (fun j => negb (jobTerminal j)) jobs.

Definition CanStartMover (running : nat) (limit : Z) : bool :=
  if (limit <=? 0)%Z then true else (int32 (Z.of_nat running) <? limit)%Z.

(** The per-PVC Jobs of the managed-by list. *)
Definition listMoverJobs (jobs : result (list Job)) : result (list Job) :=
  match jobs with
  | Err e => Err e
  | Ok items => Ok (List.filter (fun j => negb (lget (j_labels j) LabelPVC =? "")) items)
  end.

Definition activeMoverCount (jobs : result (list Job)) : result nat :=
  match listMoverJobs jobs with
  | Err e => Err e
  | Ok movers =>
      Ok (RunningMoverJobs
            (List.filter (fun j => match j_deletion j with None => true | Some _ => false end) movers))
  end.

Definition moverSlotBlocked (r : BackupReconciler) (a : answers) (moverName repoName : string)
    (limit : Z) : result bool :=
  match a_job a with
  | Ok _ => Ok false
  | Err e =>
      if negb (IsNotFound e)
      then Err (wrap_err ("get mover Job " ++ OperatorNamespace r ++ "/" ++ moverName
                          ++ " for the mover admission gate") e)
      else if hasQueue r && negb (repoName =? "") && a_quiesceGate a then Ok true
      else if (limit <=? 0)%Z then Ok false
      else
        match listMoverJobs (a_moverJobs a) with
        | Err e => Err (wrap_err "list mover Jobs for the concurrency gate" e)
        | Ok movers => Ok (negb (CanStartMover (RunningMoverJobs movers) limit))
        end
  end.

Definition ensureMoverCredsSecret (r : BackupReconciler) (accessKey secretKey : result string)
    (createSecret : option gerr) (name s3CredsSecret credsNamespace : string)
    : option gerr * list effect :=
  let ns := if credsNamespace =? "" then OperatorNamespace r else credsNamespace in
  match accessKey with
  | Err e => (Some (wrap_err ("read S3 access key from secret " ++ ns ++ "/" ++ s3CredsSecret) e), [])
  | Ok accessKey =>
      match secretKey with
      | Err e => (Some (wrap_err ("read S3 secret key from secret " ++ ns ++ "/" ++ s3CredsSecret) e), [])
      | Ok secretKey =>
          let fx := [FxCreateSecret name accessKey secretKey] in
          match createSecret with
          | Some e =>
              if IsAlreadyExists e then (None, fx)
              else (Some (wrap_err ("create mover creds secret " ++ OperatorNamespace r ++ "/" ++ name) e), fx)
          | None => (None, fx)
          end
      end
  end.

Definition resticBackupArgs (id : Identity) : list string :=
  (["backup"; id_Path id; "--host"; id_Host id]
   ++ flat_map (fun tag => ["--tag"; tag]) (id_Tags id)
   ++ ["--pack-size"; "64"; "--retry-lock"; "5m"])%list.

(** The tags of the source PVC's metadata, when it can be read a second time. *)
Definition sourceMetaArgs (a : answers) : list string :=
  match a_srcPVC a with
  | Err _ => []
  | Ok p => flat_map (fun tag => ["--tag"; tag])
              (PVCMetaTags (pvc_capacity p) (default "" (pvc_storageClass p)) (pvc_accessModes p))
  end.

(** *** The most recent Warning of an object *)

Definition eventObservedAt (e : Event) : Z :=
  let at_ := ev_last e in
  let at_ := match ev_series e with
             | Some s => if time_after s at_ then s else at_
             | None => at_
             end in
  let at_ := if time_after (ev_time e) at_ then ev_time e else at_ in
  if time_is_zero at_ then ev_created e else at_.

Definition newestStep (acc : option (Event * Z)) (e : Event) : option (Event * Z) :=
  if negb (ev_type e =? EventTypeWarning) then acc
  else
    let at_ := eventObservedAt e in
    match acc with
    | None => Some (e, at_)
    | Some (_, newestAt) => if time_after at_ newestAt then Some (e, at_) else acc
    end.

Definition latestWarningEvent (r : BackupReconciler) (a : answers) (namespace name : string) : string :=
  if negb (hasAPIReader r) || (name =? "") then ""
  else
    match a_events a namespace name with
    | Err _ => ""
    | Ok items =>
        match fold_left newestStep items None with
        | None => ""
        | Some (newest, _) =>
            let message := TrimSpace (ev_message newest) in
            let reason := TrimSpace (ev_reason newest) in
            if negb (reason =? "") && negb (message =? "") then reason ++ ": " ++ message
            else if negb (message =? "") then message
            else reason
        end
    end.

Definition notReadyCause (namespace pvc : string) : gerr :=
  errorf ("the exposure for PVC " ++ namespace ++ "/" ++ pvc
    ++ " never became ready and nothing could be read about "
    ++ "its origin VolumeSnapshot, so neither snapshot deadline could judge it").

(** From the ready exposure to the mover Job. *)
Definition admitMover (r : BackupReconciler) (a : answers) (bk : backupKey) (vol : VolumeStatus)
    (rc : backupRunContext) (exposure : Exposure) (fx : list effect) : advanced :=
  let identity := DataIdentity (rc_clusterID rc) (rc_tenant rc) (bk_namespace bk) (Pvc vol)
                    (rc_scheduleRef rc) (rc_run rc) in
  let prefix := moverNamePrefix (bk_namespace bk) (bk_name bk) (Pvc vol) in
  let moverName := prefix ++ "-mover" in
  let resticArgs := (resticBackupArgs identity ++ sourceMetaArgs a)%list in
  match moverSlotBlocked r a moverName (rc_repoName rc) (rc_maxConcurrentMovers rc) with
  | Err e => backstop r (a_now a) vol e (Some e) fx
  | Ok true => mkAdvanced vol "" None fx
  | Ok false =>
      let '(serr, sfx) := ensureMoverCredsSecret r (a_accessKey a) (a_secretKey a) (a_createSecret a)
                           moverName (rc_s3CredsSecret rc) (rc_credsNamespace rc) in
      let fx := (fx ++ sfx)%list in
      match serr with
      | Some e => backstop r (a_now a) vol e (Some e) fx
      | None =>
          let fx := (fx ++ [FxCreateJob moverName resticArgs (ExposedPVCName exposure)])%list in
          let created := match a_createJob a with None => true | Some _ => false end in
          match a_createJob a with
          | Some e =>
              if negb (IsAlreadyExists e) then
                let cause := wrap_err ("create mover Job " ++ OperatorNamespace r ++ "/" ++ moverName) e in
                backstop r (a_now a) vol cause (Some cause) fx
              else mkAdvanced (set_phase VolumePhaseUploading vol) "" None fx
          | None =>
              if hasQueue r && negb (rc_repoName rc =? "") && a_quiesceVerify a
              then mkAdvanced vol "" None (fx ++ [FxDeleteMover prefix])%list
              else mkAdvanced (set_phase VolumePhaseUploading vol) "" None fx
          end
      end
  end.

(** An exposure that is not ready: the two snapshot deadlines, then the backstop. *)
Definition judgeNotReady (r : BackupReconciler) (a : answers) (bk : backupKey) (vol : VolumeStatus)
    (exposure : Exposure) (fx : list effect) : advanced :=
  let verdict := snapshotDeadlineExceeded a in
  if verdict =? backupReasonSnapshotProgressDeadline then
    let vol := set_reason backupReasonSnapshotProgressDeadline (set_phase VolumePhaseFailed vol) in
    mkAdvanced vol (Pvc vol) None (fx ++ [failedEvent "SnapshotProgress"])%list
  else if verdict =? backupReasonSnapshotReadyDeadline then
    let detail := latestWarningEvent r a (OriginNamespace exposure) (OriginVSName exposure) in
    let vol := set_reason (deadlineReason backupReasonSnapshotReadyDeadline detail)
                 (set_phase VolumePhaseFailed vol) in
    mkAdvanced vol (Pvc vol) None (fx ++ [failedEvent "SnapshotReady"])%list
  else backstop r (a_now a) vol (notReadyCause (bk_namespace bk) (Pvc vol)) None fx.

Definition advanceSnapshotting (r : BackupReconciler) (a : answers) (bk : backupKey)
    (vol : VolumeStatus) (rc : backupRunContext) : advanced :=
  let '(rexp, fx) := reconstructExposure a (Pvc vol) in
  match rexp with
  | Err e =>
      let cause := wrap_err ("reconstruct exposure for PVC " ++ bk_namespace bk ++ "/" ++ Pvc vol) e in
      backstop r (a_now a) vol cause (Some cause) fx
  | Ok exposure =>
      let '(ready, vol) :=
        match a_ready a with
        | Ok b => (b, vol)
        | Err e =>
            (false, recordAdvanceFailure vol
              (wrap_err ("check exposure readiness for PVC " ++ bk_namespace bk ++ "/" ++ Pvc vol) e))
        end in
      if negb ready then judgeNotReady r a bk vol exposure fx
      else admitMover r a bk vol rc exposure fx
  end.

(** ** Uploading *)

Definition moverPodEverStarted (pods : list Pod) : bool :=
  existsb (fun p =>
    (p_phase p =? "Running") || (p_phase p =? "Succeeded") || (p_phase p =? "Failed")
    || existsb (fun cs => cs_running cs
                          || match cs_terminated cs with Some _ => true | None => false end
                          || cs_lastTerminated cs) (p_containers p)) pods.

(** The first pod with a Warning, else the Job's own. *)
Fixpoint stalledMoverDetail (r : BackupReconciler) (a : answers) (pods : list Pod) (jobName : string)
    : string :=
  match pods with
  | [] => latestWarningEvent r a (OperatorNamespace r) jobName
  | p :: pods =>
      let msg := latestWarningEvent r a (OperatorNamespace r) (p_name p) in
      if msg =? "" then stalledMoverDetail r a pods jobName else msg
  end.

(** [moverStalled]: [Some detail] when the start deadline is exceeded. *)
Definition moverStalled (r : BackupReconciler) (a : answers) (job : Job) : option string :=
  if time_is_zero (j_created job)
     || (time_sub (a_now a) (j_created job) <=? effectiveMoverStartDeadline r)%Z then None
  else
    match a_stallPods a with
    | Err _ => None
    | Ok pods =>
        if moverPodEverStarted pods then None
        else Some (stalledMoverDetail r a pods (j_name job))
    end.

Definition podReasonEvicted : string := "Evicted".
Definition containerReasonOOMKilled : string := "OOMKilled".

Definition podKillReason (pod : Pod) : string :=
  if p_reason pod =? podReasonEvicted then
    let message := TrimSpace (p_message pod) in
    if message =? "" then "MoverEvicted" else "MoverEvicted: " ++ message
  else if existsb (fun cs => match cs_terminated cs with
                             | Some t => t_reason t =? containerReasonOOMKilled
                             | None => false end) (p_containers pod)
  then "MoverOOMKilled: the mover exceeded its memory limit"
  else "".

(** The loop of [readMoverResult] over the pods: the first success, else the first
    killed pod, else the first terminated one. *)
Inductive podScan :=
| ScanSuccess (pod : Pod) (t : Terminated)
| ScanEnd (fallback : option (Pod * Terminated)) (killed : option (Pod * string)).

Fixpoint scanPods (pods : list Pod) (fallback : option (Pod * Terminated))
    (killed : option (Pod * string)) : podScan :=
  match pods with
  | [] => ScanEnd fallback killed
  | pod :: pods =>
      let reason := podKillReason pod in
      let killed := if reason =? "" then killed
                    else match killed with Some _ => killed | None => Some (pod, reason) end in
      match p_containers pod with
      | [] => scanPods pods fallback killed
      | cs :: _ =>
          match cs_terminated cs with
          | None => scanPods pods fallback killed
          | Some t =>
              if (t_exit t =? 0)%Z then ScanSuccess pod t
              else scanPods pods (match fallback with Some _ => fallback | None => Some (pod, t) end) killed
          end
      end
  end.

Section Codec.
(** [json.Unmarshal] of a termination message, and [fmt]'s [%q]. *)
Variable Unmarshal : string -> result MoverResult.
Variable Quote : string -> string.

Definition readMoverResult (operatorNamespace : string) (pods : result (list Pod)) (jobName : string)
    : result MoverResult * string :=
  match pods with
  | Err e => (Err (wrap_err ("list mover pods for job " ++ jobName) e), "")
  | Ok pods =>
      match scanPods pods None None with
      | ScanSuccess pod t => (ParseMoverResult Unmarshal Quote (t_message t), p_node pod)
      | ScanEnd _ (Some (pod, reason)) => (Err (mkErr EKilled reason), p_node pod)
      | ScanEnd (Some (pod, t)) None => (ParseMoverResult Unmarshal Quote (t_message t), p_node pod)
      | ScanEnd None None =>
          (Err (errorf ("no terminated mover pod found for job " ++ operatorNamespace ++ "/" ++ jobName)), "")
      end
  end.

Definition moverFailureReason (res : result MoverResult) : string :=
  match res with
  | Err e => if is_class EKilled e then shortReason (err_text e) else "MoverCrashed"
  | Ok result => if mr_Error result =? "" then "MoverJobFailed" else shortReason (mr_Error result)
  end.

Definition jobComplete (job : Job) : bool :=
  (1 <=? j_succeeded job)%Z || jobConditionTrue job JobComplete.
Definition jobFailed (job : Job) (backoffLimit : Z) : bool :=
  jobConditionTrue job JobFailed || (backoffLimit <? j_failed job)%Z.

(** A terminal mover Job: record its result. *)
Definition recordMoverResult (r : BackupReconciler) (a : answers) (vol : VolumeStatus)
    (rc : backupRunContext) (moverName : string) (job : Job) : advanced :=
  let '(res, node) := readMoverResult (OperatorNamespace r) (a_resultPods a) moverName in
  let vol := set_node node vol in
  let failed :=
    let vol := set_reason (moverFailureReason res) (set_phase VolumePhaseFailed vol) in
    let unlock := match res with
                  | Err _ => [FxEnqueueUnlock (rc_repoName rc);
                              FxEvent EventTypeWarning "StaleLockUnlockEnqueued" "EnqueueUnlock"]
                  | Ok _ => []
                  end in
    mkAdvanced vol (Pvc vol) None (failedEvent "BackupVolume" :: unlock) in
  match res with
  | Ok result =>
      if jobComplete job && mr_OK result then
        let vol := set_phase VolumePhaseCompleted
                     (set_result (mr_SnapshotID result) (mr_SizeBytes result) (mr_AddedBytes result) vol) in
        mkAdvanced vol (Pvc vol) None []
      else failed
  | Err _ => failed
  end.

Definition advanceUploading (r : BackupReconciler) (a : answers) (bk : backupKey)
    (vol : VolumeStatus) (rc : backupRunContext) : advanced :=
  let moverName := moverNamePrefix (bk_namespace bk) (bk_name bk) (Pvc vol) ++ "-mover" in
  match a_job a with
  | Err e =>
      if IsNotFound e then
        backstop r (a_now a) vol
          (errorf ("mover Job " ++ OperatorNamespace r ++ "/" ++ moverName
             ++ " does not exist, so there is nothing to poll and no clock to "
             ++ "measure: it was never created, or it was deleted from under this run")) None []
      else
        let cause := wrap_err ("get mover Job " ++ OperatorNamespace r ++ "/" ++ moverName) e in
        backstop r (a_now a) vol cause (Some cause) []
  | Ok job =>
      if negb (jobComplete job) && negb (jobFailed job (rc_backoffLimit rc)) then
        match moverStalled r a job with
        | Some detail =>
            let vol := set_reason (deadlineReason backupReasonMoverStartDeadline detail)
                         (set_phase VolumePhaseFailed vol) in
            mkAdvanced vol (Pvc vol) None [failedEvent "MoverStart"]
        | None => mkAdvanced vol "" None []
        end
      else recordMoverResult r a vol rc moverName job
  end.

(** ** The dispatch *)

Definition advanceVolumePhase (r : BackupReconciler) (a : answers) (bk : backupKey)
    (vol : VolumeStatus) (rc : backupRunContext) : advanced :=
  if isPendingPhase (Phase vol) then
    let '(vol, fx) := advancePending r a vol in mkAdvanced vol "" None fx
  else if Phase vol =? VolumePhaseSnapshotting then advanceSnapshotting r a bk vol rc
  else if Phase vol =? VolumePhaseUploading then advanceUploading r a bk vol rc
  else mkAdvanced vol "" None [].

Definition advanceVolume (r : BackupReconciler) (a : answers) (bk : backupKey)
    (vol : VolumeStatus) (rc : backupRunContext) : advanced :=
  let entryPhase := Phase vol in
  let d := advanceVolumePhase r a bk vol rc in
  let vol := stampVolumePhaseEntry (a_now a) (ad_vol d) entryPhase in
  let vol := match ad_err d with
             | None => clearStaleAdvanceReason vol entryPhase
             | Some _ => vol
             end in
  mkAdvanced vol (ad_teardown d) (ad_err d) (ad_fx d).
End Codec.

(** ** The queue of a namespace's volumes *)

Fixpoint firstNonTerminal_from (i : nat) (parked : option nat) (vols : list VolumeStatus) : option nat :=
  match vols with
  | [] => parked
  | v :: vols =>
      if volumePhaseTerminal (Phase v) then firstNonTerminal_from (S i) parked vols
      else if volumeIsParked v
      then firstNonTerminal_from (S i) (match parked with None => Some i | Some _ => parked end) vols
      else Some i
  end.

(** [None] for the source's -1. *)
Definition firstNonTerminalVolume (vols : list VolumeStatus) : option nat :=
  firstNonTerminal_from 0 None vols.

(** ** The lifecycle the machine implements *)

(** The abstract specification: the moves of one pass. *)
Inductive lifecycle : VolumePhase -> VolumePhase -> Prop :=
| life_stay p : lifecycle p p
| life_snapshot p : isPendingPhase p = true -> lifecycle p VolumePhaseSnapshotting
| life_skip p : isPendingPhase p = true -> lifecycle p VolumePhaseSkipped
| life_fail_pending p : isPendingPhase p = true -> lifecycle p VolumePhaseFailed
| life_upload : lifecycle VolumePhaseSnapshotting VolumePhaseUploading
| life_fail_snapshot : lifecycle VolumePhaseSnapshotting VolumePhaseFailed
| life_complete : lifecycle VolumePhaseUploading VolumePhaseCompleted
| life_fail_upload : lifecycle VolumePhaseUploading VolumePhaseFailed.

#[export] Hint Constructors lifecycle : cb.

(** What every handler of a volume past Pending leaves behind. *)
Record settled (vol : VolumeStatus) (d : advanced) : Prop := {
  st_pvc : Pvc (ad_vol d) = Pvc vol;
  st_first : FirstAttemptAt (ad_vol d) = FirstAttemptAt vol;
  st_entered : PhaseEnteredAt (ad_vol d) = PhaseEnteredAt vol;
  st_life : lifecycle (Phase vol) (Phase (ad_vol d));
  st_teardown : ad_teardown d = (if volumePhaseTerminal (Phase (ad_vol d)) then Pvc vol else "");
  st_err : ad_err d <> None -> ad_vol d = vol;
  st_reason : Phase (ad_vol d) = VolumePhaseFailed -> Reason (ad_vol d) <> ""
}.

Lemma active_not_terminal p : advanceBackstopApplies p = true -> volumePhaseTerminal p = false.
Proof. unfold advanceBackstopApplies. by intros [->%String.eqb_eq| ->%String.eqb_eq]%orb_true_iff. Qed.

Lemma active_cases p :
  advanceBackstopApplies p = true -> p = VolumePhaseSnapshotting \/ p = VolumePhaseUploading.
Proof. unfold advanceBackstopApplies. by intros [?%String.eqb_eq|?%String.eqb_eq]%orb_true_iff; auto. Qed.

Lemma active_fail p : advanceBackstopApplies p = true -> lifecycle p VolumePhaseFailed.
Proof. intros [-> | ->]%active_cases; [apply life_fail_snapshot|apply life_fail_upload]. Qed.

Lemma pending_cases p :
  isPendingPhase p = true -> volumePhaseTerminal p = false /\ advanceBackstopApplies p = false.
Proof. unfold isPendingPhase. by intros [->%String.eqb_eq| ->%String.eqb_eq]%orb_true_iff. Qed.

(** A volume the machine fails with a reason, from an active phase. *)
Lemma settled_fail vol vol' fx :
  advanceBackstopApplies (Phase vol) = true ->
  Pvc vol' = Pvc vol -> FirstAttemptAt vol' = FirstAttemptAt vol ->
  PhaseEnteredAt vol' = PhaseEnteredAt vol ->
  Phase vol' = VolumePhaseFailed -> Reason vol' <> "" ->
  settled vol (mkAdvanced vol' (Pvc vol') None fx).
Proof.
  intros Ha Hp Hf He Hph Hr. split; cbn; try done; rewrite ?Hph; try done. by apply active_fail.
Qed.

Lemma settled_stay vol vol' err fx :
  advanceBackstopApplies (Phase vol) = true ->
  Pvc vol' = Pvc vol -> FirstAttemptAt vol' = FirstAttemptAt vol ->
  PhaseEnteredAt vol' = PhaseEnteredAt vol -> Phase vol' = Phase vol ->
  (err <> None -> vol' = vol) ->
  settled vol (mkAdvanced vol' "" err fx).
Proof.
  intros Ha Hp Hf He Hph Herr. split; cbn; try done; rewrite ?Hph.
  - constructor.
  - by rewrite active_not_terminal.
  - intros E. rewrite E in Ha. done.
Qed.

Lemma deadline_reason_ok reason detail :
  (reason =? "") = false -> deadlineReason reason detail <> "".
Proof. intros H. apply deadlineReason_nonempty. by apply String.eqb_neq. Qed.

(** [vol'] is [vol] with another reason: what the readiness error leaves. *)
Definition same_but_reason (vol vol' : VolumeStatus) : Prop :=
  exists s, vol' = set_reason s vol.

Lemma backstop_settled r now vol vol' cause err fx :
  advanceBackstopApplies (Phase vol) = true -> same_but_reason vol vol' ->
  (err <> None -> vol' = vol) -> settled vol (backstop r now vol' cause err fx).
Proof.
  intros Ha [s ->] Herr. unfold backstop, failVolumeOnAdvanceBackstop. cbn.
  destruct (PhaseEnteredAt vol) as [t|] eqn:Et; [destruct (_ <=? _)%Z|].
  - by apply settled_stay.
  - apply settled_fail; cbn; try done. by apply deadline_reason_ok.
  - by apply settled_stay.
Qed.

Lemma same_but_reason_refl vol : same_but_reason vol vol.
Proof. exists (Reason vol). by destruct vol. Qed.

Lemma judgeNotReady_settled r a bk vol vol' exposure fx :
  advanceBackstopApplies (Phase vol) = true -> same_but_reason vol vol' ->
  settled vol (judgeNotReady r a bk vol' exposure fx).
Proof.
  intros Ha Hs. unfold judgeNotReady.
  destruct (_ =? _); [|destruct (_ =? _); [|by apply backstop_settled]];
    destruct Hs as [s ->]; apply settled_fail; cbn; try done. by apply deadline_reason_ok.
Qed.

Lemma admitMover_settled r a bk vol rc exposure fx :
  Phase vol = VolumePhaseSnapshotting -> settled vol (admitMover r a bk vol rc exposure fx).
Proof.
  intros Hp. assert (advanceBackstopApplies (Phase vol) = true) as Ha by by rewrite Hp.
  pose proof (same_but_reason_refl vol) as Hs.
  assert (forall fx, settled vol (mkAdvanced (set_phase VolumePhaseUploading vol) "" None fx)) as Hup.
  { intros. split; cbn; try done. rewrite Hp. apply life_upload. }
  unfold admitMover. destruct (moverSlotBlocked _ _ _ _ _) as [[]|e]; [by apply settled_stay| |by apply backstop_settled].
  destruct (ensureMoverCredsSecret _ _ _ _ _ _ _) as [[e|] sfx]; [by apply backstop_settled|].
  destruct (a_createJob a) as [e|]; [destruct (IsAlreadyExists e); [apply Hup|by apply backstop_settled]|].
  destruct (_ && _ && _); [by apply settled_stay|apply Hup].
Qed.

Lemma recordAdvanceFailure_same vol e : same_but_reason vol (recordAdvanceFailure vol e).
Proof. unfold recordAdvanceFailure, parkVolume. destruct (isPendingPhase _); by eexists. Qed.

Lemma advanceSnapshotting_settled r a bk vol rc :
  Phase vol = VolumePhaseSnapshotting -> settled vol (advanceSnapshotting r a bk vol rc).
Proof.
  intros Hp. assert (advanceBackstopApplies (Phase vol) = true) as Ha by by rewrite Hp.
  unfold advanceSnapshotting. destruct (reconstructExposure _ _) as [[exposure|e] fx];
    [|by apply backstop_settled; [|apply same_but_reason_refl|]].
  destruct (a_ready a) as [[]|e]; cbn.
  - by apply admitMover_settled.
  - by apply judgeNotReady_settled; [|apply same_but_reason_refl].
  - apply judgeNotReady_settled; [done|apply recordAdvanceFailure_same].
Qed.

Lemma moverFailureReason_nonempty res : moverFailureReason res <> "".
Proof.
  unfold moverFailureReason. pose proof shortReason_bounds as Hb.
  destruct res as [m|e]; [destruct (mr_Error m =? "")|destruct (is_class EKilled e)]; try done;
    intros E; [specialize (Hb (mr_Error m))|specialize (Hb (err_text e))];
    rewrite E in Hb; simpl in Hb; lia.
Qed.

Section Laws.
Variable Unmarshal : string -> result MoverResult.
Variable Quote : string -> string.
Notation advanceUploading := (advanceUploading Unmarshal Quote).
Notation advanceVolume := (advanceVolume Unmarshal Quote).

Lemma recordMoverResult_settled r a vol rc name job :
  Phase vol = VolumePhaseUploading -> settled vol (recordMoverResult Unmarshal Quote r a vol rc name job).
Proof.
  intros Hp. assert (advanceBackstopApplies (Phase vol) = true) as Ha by by rewrite Hp.
  unfold recordMoverResult. destruct (readMoverResult _ _ _ _ _) as [[m|e] node];
    [destruct (jobComplete job && mr_OK m)|].
  - split; cbn; try done. rewrite Hp. apply life_complete.
  - apply settled_fail; try done. apply (moverFailureReason_nonempty (Ok m)).
  - apply settled_fail; try done. apply (moverFailureReason_nonempty (Err e)).
Qed.

Lemma advanceUploading_settled r a bk vol rc :
  Phase vol = VolumePhaseUploading -> settled vol (advanceUploading r a bk vol rc).
Proof.
  intros Hp. assert (advanceBackstopApplies (Phase vol) = true) as Ha by by rewrite Hp.
  unfold VolumeMachine.advanceUploading. destruct (a_job a) as [job|e].
  - destruct (_ && _); [|by apply recordMoverResult_settled].
    destruct (moverStalled _ _ _); [|by apply settled_stay].
    apply settled_fail; cbn; try done. by apply deadline_reason_ok.
  - pose proof (same_but_reason_refl vol). destruct (IsNotFound e); by apply backstop_settled.
Qed.

Lemma stamp_same now vol p :
  Pvc (stampVolumePhaseEntry now vol p) = Pvc vol
  /\ Phase (stampVolumePhaseEntry now vol p) = Phase vol
  /\ Reason (stampVolumePhaseEntry now vol p) = Reason vol
  /\ SnapshotID (stampVolumePhaseEntry now vol p) = SnapshotID vol
  /\ SizeBytes (stampVolumePhaseEntry now vol p) = SizeBytes vol
  /\ AddedBytes (stampVolumePhaseEntry now vol p) = AddedBytes vol
  /\ FirstAttemptAt (stampVolumePhaseEntry now vol p) = FirstAttemptAt vol.
Proof.
  unfold stampVolumePhaseEntry. destruct (_ =? _); [destruct (PhaseEnteredAt vol); [|destruct (advanceBackstopApplies _)]|];
    by split_and!.
Qed.

Lemma clear_same vol p :
  Pvc (clearStaleAdvanceReason vol p) = Pvc vol
  /\ Phase (clearStaleAdvanceReason vol p) = Phase vol
  /\ SnapshotID (clearStaleAdvanceReason vol p) = SnapshotID vol
  /\ SizeBytes (clearStaleAdvanceReason vol p) = SizeBytes vol
  /\ AddedBytes (clearStaleAdvanceReason vol p) = AddedBytes vol
  /\ FirstAttemptAt (clearStaleAdvanceReason vol p) = FirstAttemptAt vol
  /\ PhaseEnteredAt (clearStaleAdvanceReason vol p) = PhaseEnteredAt vol
  /\ (Phase vol = VolumePhaseFailed -> Reason (clearStaleAdvanceReason vol p) = Reason vol).
Proof.
  unfold clearStaleAdvanceReason. destruct (_ || _); [by split_and!|].
  destruct ((Phase vol =? VolumePhaseFailed) || _) eqn:E; [by split_and!|].
  split_and!; try done. intros Hf. by rewrite Hf in E.
Qed.

(** [advanceVolume] in terms of the phase handler it calls. *)
Lemma advanceVolume_fields r a bk vol rc :
  let d := advanceVolumePhase Unmarshal Quote r a bk vol rc in
  let d' := advanceVolume r a bk vol rc in
  Pvc (ad_vol d') = Pvc (ad_vol d) /\ Phase (ad_vol d') = Phase (ad_vol d)
  /\ ad_teardown d' = ad_teardown d /\ ad_err d' = ad_err d /\ ad_fx d' = ad_fx d
  /\ SnapshotID (ad_vol d') = SnapshotID (ad_vol d) /\ SizeBytes (ad_vol d') = SizeBytes (ad_vol d)
  /\ AddedBytes (ad_vol d') = AddedBytes (ad_vol d)
  /\ FirstAttemptAt (ad_vol d') = FirstAttemptAt (ad_vol d)
  /\ (Phase (ad_vol d) = VolumePhaseFailed -> Reason (ad_vol d') = Reason (ad_vol d)).
Proof.
  cbv zeta. unfold VolumeMachine.advanceVolume. cbn [ad_vol ad_teardown ad_err ad_fx].
  set (d := advanceVolumePhase _ _ _ _ _ _ _).
  destruct (stamp_same (a_now a) (ad_vol d) (Phase vol)) as (H1 & H2 & H3 & H4 & H5 & H6 & H7).
  set (v := stampVolumePhaseEntry _ _ _) in *.
  destruct (clear_same v (Phase vol)) as (K1 & K2 & K3 & K4 & K5 & K6 & _ & K7).
  destruct (ad_err d); rewrite ?K1, ?K2, ?K3, ?K4, ?K5, ?K6; split_and!; try congruence.
  intros Hf. rewrite K7; congruence.
Qed.

Lemma advancePending_spec r a vol vol' fx :
  isPendingPhase (Phase vol) = true -> advancePending r a vol = (vol', fx) ->
  Pvc vol' = Pvc vol /\ lifecycle (Phase vol) (Phase vol')
  /\ FirstAttemptAt vol' = Some (default (a_now a) (FirstAttemptAt vol))
  /\ (Phase vol' = VolumePhaseFailed -> Reason vol' <> "").
Proof.
  intros Hp. unfold advancePending, parkVolume.
  assert (forall s, Phase vol = VolumePhaseFailed -> s <> "") as Hnf by (intros s E; by rewrite E in Hp).
  destruct (FirstAttemptAt vol) as [t|] eqn:Ef; [destruct (_ <? _)%Z|];
    [destruct (Reason vol =? "") eqn:Er; intros [= <- <-]; cbn; rewrite ?Er; cbn; rewrite ?Ef;
     (split_and!; [done|by apply life_fail_pending|done|]);
     intros _; [done|by apply String.eqb_neq]| |];
    (destruct (a_pvc a) as [p|e]; [|destruct (IsNotFound e)];
      [destruct (a_for a) as [e|]; [destruct (is_class EUnsupported e)|
         destruct (a_precheck a) as [e|]; [destruct (is_class EPrecheckFailed e)|
           destruct (a_expose a) as [x|e]]]| |]);
    intros [= <- <-]; cbn; rewrite ?Ef; split_and!; auto using lifecycle; try done.
Qed.

(** One step of the phase machine, before the pass stamps the phase's clock. *)
Lemma advanceVolumePhase_moves (r : BackupReconciler) (a : answers) (bk : backupKey)
    (vol : VolumeStatus) (rc : backupRunContext) :
  let d := advanceVolumePhase Unmarshal Quote r a bk vol rc in
  lifecycle (Phase vol) (Phase (ad_vol d)) /\ Pvc (ad_vol d) = Pvc vol
  /\ (volumePhaseTerminal (Phase vol) = true -> Phase (ad_vol d) = Phase vol)
  /\ (volumePhaseTerminal (Phase vol) = false -> Phase (ad_vol d) = VolumePhaseFailed ->
      Reason (ad_vol d) <> "").
Proof.
  cbv zeta. unfold advanceVolumePhase.
  destruct (isPendingPhase (Phase vol)) eqn:Ep;
    [|destruct (String.eqb_spec (Phase vol) VolumePhaseSnapshotting) as [Es|];
      [|destruct (String.eqb_spec (Phase vol) VolumePhaseUploading) as [Eu|]]].
  - destruct (advancePending r a vol) as [vol' fx] eqn:E. cbn.
    destruct (advancePending_spec _ _ _ _ _ Ep E) as (Hp & Hl & _ & Hf).
    destruct (pending_cases _ Ep) as [-> _]. by split_and!.
  - destruct (advanceSnapshotting_settled r a bk vol rc Es) as [Hp _ _ Hl _ _ Hf].
    split_and!; try done. by rewrite Es.
  - destruct (advanceUploading_settled r a bk vol rc Eu) as [Hp _ _ Hl _ _ Hf].
    split_and!; try done. by rewrite Eu.
  - cbn. split_and!; try done; [constructor|]. intros Ht Hf. by rewrite Hf in Ht.
Qed.

(** C4. One pass refines the lifecycle, whatever the cluster answers: the phase
    stays or makes one allowed move, a terminal volume never changes phase, and a
    failed volume always carries a reason. *)
Theorem advanceVolume_lifecycle (r : BackupReconciler) (a : answers) (bk : backupKey)
    (vol : VolumeStatus) (rc : backupRunContext) :
  let vol' := ad_vol (advanceVolume r a bk vol rc) in
  lifecycle (Phase vol) (Phase vol') /\ Pvc vol' = Pvc vol
  /\ (volumePhaseTerminal (Phase vol) = true -> Phase vol' = Phase vol)
  /\ (volumePhaseTerminal (Phase vol) = false -> Phase vol' = VolumePhaseFailed -> Reason vol' <> "").
Proof.
  cbv zeta. destruct (advanceVolume_fields r a bk vol rc) as (-> & -> & _ & _ & _ & _ & _ & _ & _ & Hr).
  destruct (advanceVolumePhase_moves r a bk vol rc) as (Hl & Hp & Ht & Hf).
  split_and!; try done. intros Hn Hx. rewrite Hr by done. by apply Hf.
Qed.

(** The teardown and the error of a step, before the pass stamps the phase's clock. *)
Lemma advanceVolumePhase_outcome (r : BackupReconciler) (a : answers) (bk : backupKey)
    (vol : VolumeStatus) (rc : backupRunContext) :
  let d := advanceVolumePhase Unmarshal Quote r a bk vol rc in
  ad_teardown d = (if advanceBackstopApplies (Phase vol) && volumePhaseTerminal (Phase (ad_vol d))
                   then Pvc vol else "")
  /\ (forall e, ad_err d = Some e ->
        advanceBackstopApplies (Phase vol) = true /\ ad_vol d = vol /\ ad_teardown d = "").
Proof.
  cbv zeta.
  assert (forall d, advanceBackstopApplies (Phase vol) = true -> settled vol d ->
    ad_teardown d = (if true && volumePhaseTerminal (Phase (ad_vol d)) then Pvc vol else "")
    /\ (forall e, ad_err d = Some e -> ad_vol d = vol /\ ad_teardown d = "")) as Hs.
  { intros d Ha [_ _ _ _ Ht He _]. split; [done|]. intros e Hd.
    assert (ad_vol d = vol) as Hv by (apply He; by rewrite Hd).
    rewrite Hv in Ht |- *. by rewrite active_not_terminal in Ht by done. }
  unfold advanceVolumePhase.
  destruct (isPendingPhase (Phase vol)) eqn:Ep;
    [|destruct (String.eqb_spec (Phase vol) VolumePhaseSnapshotting) as [Es|Es];
      [|destruct (String.eqb_spec (Phase vol) VolumePhaseUploading) as [Eu|Eu]]].
  - destruct (advancePending r a vol) as [vol' fx]. cbn. split; [|done].
    by destruct (pending_cases _ Ep) as [_ ->].
  - destruct (Hs _ ltac:(by rewrite Es) (advanceSnapshotting_settled r a bk vol rc Es)) as [Ht He].
    rewrite Es. cbn [advanceBackstopApplies]. split; [exact Ht|]. intros e Hd. by destruct (He e Hd).
  - destruct (Hs _ ltac:(by rewrite Eu) (advanceUploading_settled r a bk vol rc Eu)) as [Ht He].
    rewrite Eu. cbn [advanceBackstopApplies]. split; [exact Ht|]. intros e Hd. by destruct (He e Hd).
  - cbn. split; [|done]. unfold advanceBackstopApplies.
    apply String.eqb_neq in Es, Eu. by rewrite Es, Eu.
Qed.

(** Teardown and errors are mutually exclusive and exact: a pass asks for the
    teardown of its own volume exactly when it makes it terminal from Snapshotting
    or Uploading, and a pass that returns an error leaves the phase where it was,
    asks for no teardown, and only ever happens past Pending. *)
Theorem advanceVolume_teardown (r : BackupReconciler) (a : answers) (bk : backupKey)
    (vol : VolumeStatus) (rc : backupRunContext) :
  let d := advanceVolume r a bk vol rc in
  ad_teardown d = (if advanceBackstopApplies (Phase vol) && volumePhaseTerminal (Phase (ad_vol d))
                   then Pvc vol else "")
  /\ (forall e, ad_err d = Some e ->
        advanceBackstopApplies (Phase vol) = true /\ Phase (ad_vol d) = Phase vol
        /\ Reason (ad_vol d) = Reason vol /\ ad_teardown d = "").
Proof.
  cbv zeta. destruct (advanceVolumePhase_outcome r a bk vol rc) as [Ht He].
  destruct (advanceVolume_fields r a bk vol rc) as (_ & -> & -> & -> & _). split; [exact Ht|].
  intros e Hd. destruct (He e Hd) as (H1 & H2 & H3). split_and!; try done; [congruence|].
  unfold VolumeMachine.advanceVolume. rewrite Hd. cbn. rewrite H2.
  by destruct (stamp_same (a_now a) vol (Phase vol)) as (_ & _ & -> & _).
Qed.

(** A volume is Completed by a pass only on the word of its mover: the Job
    was read complete, the first successful pod's message decoded to an OK result,
    and the snapshot recorded is the one that result names. *)
Theorem advanceVolume_completed (r : BackupReconciler) (a : answers) (bk : backupKey)
    (vol : VolumeStatus) (rc : backupRunContext)
    (Hentry : Phase vol <> VolumePhaseCompleted)
    (Hdone : Phase (ad_vol (advanceVolume r a bk vol rc)) = VolumePhaseCompleted) :
  Phase vol = VolumePhaseUploading /\
  exists job result node, a_job a = Ok job /\ jobComplete job = true
    /\ readMoverResult Unmarshal Quote (OperatorNamespace r) (a_resultPods a)
         (moverNamePrefix (bk_namespace bk) (bk_name bk) (Pvc vol) ++ "-mover") = (Ok result, node)
    /\ mr_OK result = true
    /\ SnapshotID (ad_vol (advanceVolume r a bk vol rc)) = mr_SnapshotID result
    /\ SizeBytes (ad_vol (advanceVolume r a bk vol rc)) = mr_SizeBytes result
    /\ AddedBytes (ad_vol (advanceVolume r a bk vol rc)) = mr_AddedBytes result.
Proof.
  destruct (advanceVolume_fields r a bk vol rc) as (_ & Hph & _ & _ & _ & -> & -> & -> & _ & _).
  rewrite Hph in Hdone. clear Hph.
  destruct (advanceVolumePhase_moves r a bk vol rc) as [Hl _]. rewrite Hdone in Hl.
  assert (Phase vol = VolumePhaseUploading) as Hu.
  { remember VolumePhaseCompleted as c. destruct Hl; try done; by rewrite Heqc in *. }
  split; [done|]. revert Hdone. unfold advanceVolumePhase. rewrite Hu. cbn [isPendingPhase].
  change (isPendingPhase VolumePhaseUploading) with false.
  change (VolumePhaseUploading =? VolumePhaseSnapshotting) with false.
  change (VolumePhaseUploading =? VolumePhaseUploading) with true. cbv iota.
  unfold VolumeMachine.advanceUploading, backstop. destruct (a_job a) as [job|e].
  - destruct (negb (jobComplete job) && _) eqn:Ej.
    + destruct (moverStalled _ _ _); cbn; [done|]. by rewrite Hu.
    + unfold recordMoverResult.
      destruct (readMoverResult _ _ _ _ _) as [[m|e] node] eqn:Er; [|done].
      destruct (jobComplete job) eqn:Ec; cbn; [|done].
      destruct (mr_OK m) eqn:Eo; cbn; [|done]. intros _. by exists job, m, node.
  - destruct (IsNotFound e); unfold failVolumeOnAdvanceBackstop;
      destruct (PhaseEnteredAt vol); try destruct (_ <=? _)%Z; cbn; try done; by rewrite Hu.
Qed.
End Laws.

Section Bounds.
Variable Unmarshal : string -> result MoverResult.
Variable Quote : string -> string.
Notation advanceVolume := (advanceVolume Unmarshal Quote).

(** What still holds an active volume once the outer deadline has passed. *)
Definition held_back (r : BackupReconciler) (a : answers) (bk : backupKey) (vol : VolumeStatus)
    (rc : backupRunContext) : Prop :=
  let moverName := moverNamePrefix (bk_namespace bk) (bk_name bk) (Pvc vol) ++ "-mover" in
  (Phase vol = VolumePhaseSnapshotting /\ a_ready a = Ok true
   /\ (moverSlotBlocked r a moverName (rc_repoName rc) (rc_maxConcurrentMovers rc) = Ok true
       \/ (hasQueue r = true /\ a_quiesceVerify a = true)))
  \/ (Phase vol = VolumePhaseUploading
      /\ exists job, a_job a = Ok job /\ jobComplete job = false
         /\ jobFailed job (rc_backoffLimit rc) = false /\ moverStalled r a job = None).

Lemma backstop_expired r now vol t cause err fx :
  PhaseEnteredAt vol = Some t -> (effectiveAdvanceRetryDeadline r < time_sub now t)%Z ->
  Phase (ad_vol (backstop r now vol cause err fx)) = VolumePhaseFailed.
Proof.
  intros Ht Hd. unfold backstop, failVolumeOnAdvanceBackstop. rewrite Ht.
  destruct (Z.leb_spec (time_sub now t) (effectiveAdvanceRetryDeadline r)); [lia|done].
Qed.

Lemma judgeNotReady_expired r a bk vol t exposure fx :
  PhaseEnteredAt vol = Some t -> (effectiveAdvanceRetryDeadline r < time_sub (a_now a) t)%Z ->
  Phase (ad_vol (judgeNotReady r a bk vol exposure fx)) = VolumePhaseFailed.
Proof.
  intros Ht Hd. unfold judgeNotReady. destruct (_ =? _); [done|]. destruct (_ =? _); [done|].
  by eapply backstop_expired.
Qed.

Lemma admitMover_expired r a bk vol rc t exposure fx :
  PhaseEnteredAt vol = Some t -> (effectiveAdvanceRetryDeadline r < time_sub (a_now a) t)%Z ->
  let moverName := moverNamePrefix (bk_namespace bk) (bk_name bk) (Pvc vol) ++ "-mover" in
  Phase (ad_vol (admitMover r a bk vol rc exposure fx)) = VolumePhaseFailed
  \/ Phase (ad_vol (admitMover r a bk vol rc exposure fx)) = VolumePhaseUploading
  \/ moverSlotBlocked r a moverName (rc_repoName rc) (rc_maxConcurrentMovers rc) = Ok true
  \/ (hasQueue r = true /\ a_quiesceVerify a = true).
Proof.
  intros Ht Hd. cbv zeta. unfold admitMover.
  destruct (moverSlotBlocked _ _ _ _ _) as [[]|e]; [by auto| |left; by eapply backstop_expired].
  destruct (ensureMoverCredsSecret _ _ _ _ _ _ _) as [[e|] sfx]; [left; by eapply backstop_expired|].
  destruct (a_createJob a) as [e|].
  - destruct (IsAlreadyExists e); cbn [negb]; [by auto|left; by eapply backstop_expired].
  - destruct (hasQueue r), (negb (rc_repoName rc =? "")), (a_quiesceVerify a); cbn; auto.
Qed.

(** C39. No volume is retried for ever: past its deadline a pending volume fails in
    the next pass whatever is answered, and an active one leaves its phase unless
    the admission gate itself holds it, or its mover Job runs and is judged
    neither finished nor stalled. *)
Theorem advanceVolume_bounded (r : BackupReconciler) (a : answers) (bk : backupKey)
    (vol : VolumeStatus) (rc : backupRunContext) (t : Z) :
  let vol' := ad_vol (advanceVolume r a bk vol rc) in
  (isPendingPhase (Phase vol) = true -> FirstAttemptAt vol = Some t ->
   (effectivePendingResolveDeadline r < time_sub (a_now a) t)%Z ->
   Phase vol' = VolumePhaseFailed)
  /\ (advanceBackstopApplies (Phase vol) = true -> PhaseEnteredAt vol = Some t ->
      (effectiveAdvanceRetryDeadline r < time_sub (a_now a) t)%Z ->
      Phase vol' = Phase vol -> held_back r a bk vol rc).
Proof.
  cbv zeta. destruct (advanceVolume_fields Unmarshal Quote r a bk vol rc) as (_ & -> & _).
  unfold advanceVolumePhase. split.
  - intros Hp Ht Hd. rewrite Hp. unfold advancePending. rewrite Ht.
    destruct (Z.ltb_spec (effectivePendingResolveDeadline r) (time_sub (a_now a) t)); [|lia].
    cbn. by destruct (Reason vol =? "").
  - intros Ha Ht Hd.
    destruct (isPendingPhase (Phase vol)) eqn:Ep.
    { destruct (pending_cases _ Ep) as [_ Hn]. by rewrite Hn in Ha. }
    destruct (active_cases _ Ha) as [E|E]; rewrite E;
      [change (VolumePhaseSnapshotting =? VolumePhaseSnapshotting) with true
      |change (VolumePhaseUploading =? VolumePhaseSnapshotting) with false;
       change (VolumePhaseUploading =? VolumePhaseUploading) with true]; cbv iota.
    + unfold advanceSnapshotting. destruct (reconstructExposure _ _) as [[exposure|e] fx];
        [|by erewrite backstop_expired].
      destruct (a_ready a) as [[]|e] eqn:Er; cbn [negb].
      * intros Hs. left. split; [done|]. split; [done|].
        destruct (admitMover_expired r a bk vol rc t exposure fx Ht Hd) as [H|[H|[H|H]]];
          [by rewrite Hs in H|by rewrite Hs in H|by left|by right].
      * by erewrite judgeNotReady_expired.
      * erewrite judgeNotReady_expired; [done| |done].
        destruct (recordAdvanceFailure_same vol (wrap_err ("check exposure readiness for PVC "
          ++ bk_namespace bk ++ "/" ++ Pvc vol) e)) as [s ->]. done.
    + unfold advanceUploading. destruct (a_job a) as [job|e] eqn:Ej.
      * destruct (jobComplete job) eqn:Ec, (jobFailed job (rc_backoffLimit rc)) eqn:Ef; cbn [negb andb].
        4: { destruct (moverStalled r a job) eqn:Em; [done|]. intros _. right. split; [done|].
             by exists job. }
        all: unfold recordMoverResult; destruct (readMoverResult _ _ _ _ _) as [[m|e] node];
          [destruct (_ && _)|]; done.
      * destruct (IsNotFound e); by erewrite backstop_expired.
Qed.

(** Effects that neither create a Job nor delete a mover. *)
Definition jobless (e : effect) : bool :=
  match e with FxCreateJob _ _ _ | FxDeleteMover _ => false | _ => true end.

Definition no_job (fx : list effect) : Prop := Forall (fun e => jobless e = true) fx.

Lemma no_job_nil : no_job [].
Proof. apply Forall_nil_2. Qed.

Lemma no_job_app fx fx' : no_job fx -> no_job fx' -> no_job (fx ++ fx').
Proof. apply Forall_app_2. Qed.

Lemma no_job_cons e fx : jobless e = true -> no_job fx -> no_job (e :: fx).
Proof. by constructor. Qed.

Lemma no_job_create fx name args claim : no_job fx -> FxCreateJob name args claim ∉ fx.
Proof. intros H Hin. by apply (proj1 (Forall_forall _ _) H) in Hin. Qed.

Lemma no_job_delete fx prefix : no_job fx -> FxDeleteMover prefix ∉ fx.
Proof. intros H Hin. by apply (proj1 (Forall_forall _ _) H) in Hin. Qed.

Hint Resolve no_job_nil no_job_app : cb.
Hint Extern 1 (no_job (_ :: _)) => apply no_job_cons; [reflexivity|] : cb.

Lemma backstop_no_job r now vol cause err fx : no_job fx -> no_job (ad_fx (backstop r now vol cause err fx)).
Proof.
  intros H. unfold backstop. destruct (failVolumeOnAdvanceBackstop _ _ _ _); cbn; auto with cb.
Qed.

Lemma judgeNotReady_no_job r a bk vol exposure fx :
  no_job fx -> no_job (ad_fx (judgeNotReady r a bk vol exposure fx)).
Proof.
  intros H. unfold judgeNotReady.
  destruct (_ =? _); [|destruct (_ =? _); [|by apply backstop_no_job]]; cbn;
    auto with cb.
Qed.

Lemma reconstructExposure_no_job a pvc : no_job (snd (reconstructExposure a pvc)).
Proof.
  unfold reconstructExposure. destruct (a_pvc a); [destruct (a_for a)|]; cbn; auto with cb.
Qed.

Lemma ensureMoverCredsSecret_no_job r accessKey secretKey create name s ns :
  no_job (snd (ensureMoverCredsSecret r accessKey secretKey create name s ns)).
Proof.
  unfold ensureMoverCredsSecret. destruct accessKey; [destruct secretKey|]; cbn; auto with cb.
  destruct create; [destruct (IsAlreadyExists _)|]; cbn; auto with cb.
Qed.

Lemma moverSlotBlocked_open r a name repo limit :
  moverSlotBlocked r a name repo limit = Ok false ->
  (exists job, a_job a = Ok job)
  \/ ((hasQueue r = true -> repo <> "" -> a_quiesceGate a = false)
      /\ ((limit <= 0)%Z
          \/ exists movers, listMoverJobs (a_moverJobs a) = Ok movers
             /\ (int32 (Z.of_nat (RunningMoverJobs movers)) < limit)%Z)).
Proof.
  unfold moverSlotBlocked. destruct (a_job a) as [job|e]; [intros _; left; by exists job|].
  destruct (IsNotFound e); cbn [negb]; [|done].
  destruct (hasQueue r && negb (repo =? "") && a_quiesceGate a) eqn:Eg; [done|]. intros H. right. split.
  { intros Hq Hr. apply String.eqb_neq in Hr. by rewrite Hq, Hr in Eg. }
  destruct (Z.leb_spec limit 0); [by left|right].
  destruct (listMoverJobs (a_moverJobs a)) as [movers|]; [|done]. exists movers. split; [done|].
  unfold CanStartMover in H. injection H as H. apply negb_false_iff in H.
  destruct (Z.leb_spec limit 0); [lia|]. by apply Z.ltb_lt.
Qed.

(** The two ways [admitMover] ends: without a Job, or with its own. *)
Lemma admitMover_fx r a bk vol rc exposure fx :
  no_job fx -> Phase vol = VolumePhaseSnapshotting ->
  let d := admitMover r a bk vol rc exposure fx in
  let prefix := moverNamePrefix (bk_namespace bk) (bk_name bk) (Pvc vol) in
  let moverName := prefix ++ "-mover" in
  (no_job (ad_fx d) /\ Phase (ad_vol d) <> VolumePhaseUploading)
  \/ (moverSlotBlocked r a moverName (rc_repoName rc) (rc_maxConcurrentMovers rc) = Ok false
      /\ (forall n x c, FxCreateJob n x c ∈ ad_fx d -> n = moverName)
      /\ (exists x c, FxCreateJob moverName x c ∈ ad_fx d)
      /\ (a_createJob a = None -> hasQueue r = true -> rc_repoName rc <> "" ->
          if a_quiesceVerify a
          then FxDeleteMover prefix ∈ ad_fx d /\ Phase (ad_vol d) = VolumePhaseSnapshotting
          else Phase (ad_vol d) = VolumePhaseUploading)).
Proof.
  intros Hfx Hp. cbv zeta. unfold admitMover.
  destruct (moverSlotBlocked _ _ _ _ _) as [[]|e] eqn:Eb;
    [left; cbn; by rewrite Hp| |left; split; [by apply backstop_no_job|]].
  2: { unfold backstop. destruct (failVolumeOnAdvanceBackstop _ _ _ _) eqn:F; cbn; [|by rewrite Hp].
       unfold failVolumeOnAdvanceBackstop in F. by repeat case_match; simplify_eq. }
  pose proof (ensureMoverCredsSecret_no_job r (a_accessKey a) (a_secretKey a) (a_createSecret a) (moverNamePrefix (bk_namespace bk) (bk_name bk) (Pvc vol) ++ "-mover")
    (rc_s3CredsSecret rc) (rc_credsNamespace rc)) as Hs.
  destruct (ensureMoverCredsSecret _ _ _ _ _ _ _) as [[e|] sfx]; cbn [snd] in Hs.
  { left. split; [by apply backstop_no_job, no_job_app|].
    unfold backstop. destruct (failVolumeOnAdvanceBackstop _ _ _ _) eqn:F; cbn; [|by rewrite Hp].
    unfold failVolumeOnAdvanceBackstop in F. by repeat case_match; simplify_eq. }
  right. split; [done|].
  set (name := moverNamePrefix _ _ _ ++ "-mover"). set (j := FxCreateJob name _ _).
  assert (forall fx' n x c, (forall n' x' c', FxCreateJob n' x' c' ∉ fx') -> FxCreateJob n x c ∈ ((fx ++ sfx) ++ j :: fx')%list -> n = name) as Hn.
  { intros fx' n x c Hf [[Hx|Hx]%elem_of_app|[Hx|Hx]%elem_of_cons]%elem_of_app;
      [by destruct (no_job_create _ n x c Hfx)|by destruct (no_job_create _ n x c Hs)|by injection Hx
      |by destruct (Hf n x c)]. }
  assert (forall n x c, FxCreateJob n x c ∉ [FxDeleteMover (moverNamePrefix (bk_namespace bk) (bk_name bk) (Pvc vol))])
    as Hdel by (by intros n x c ?%list_elem_of_singleton).
  assert (forall n x c, FxCreateJob n x c ∉ [failedEvent "AdvanceBackstop"]) as Hev
    by (by intros n x c ?%list_elem_of_singleton).
  assert (forall n x c, FxCreateJob n x c ∉ []) as Hnil by (by intros n x c ?%elem_of_nil).
  assert (forall fx', exists x c, FxCreateJob name x c ∈ ((fx ++ sfx) ++ j :: fx')%list) as Hj.
  { intros fx'. do 2 eexists. apply elem_of_app. right. left. }
  destruct (a_createJob a) as [e|].
  - split; [|split; [|done]].
    + destruct (IsAlreadyExists e); cbn [negb]; unfold backstop;
        try destruct (failVolumeOnAdvanceBackstop _ _ _ _); cbn [ad_fx]; intros n x c;
        rewrite <-?(app_assoc _ [j]); by apply Hn.
    + destruct (IsAlreadyExists e); cbn [negb]; unfold backstop;
        try destruct (failVolumeOnAdvanceBackstop _ _ _ _); cbn [ad_fx];
        rewrite <-?(app_assoc _ [j]); apply Hj.
  - split; [|split].
    + destruct (_ && a_quiesceVerify a); cbn [ad_fx]; intros n x c;
        rewrite <-?(app_assoc _ [j]); by apply Hn.
    + destruct (_ && a_quiesceVerify a); cbn [ad_fx]; rewrite <-?(app_assoc _ [j]); apply Hj.
    + intros _ Hq Hr. apply String.eqb_neq in Hr. rewrite Hq, Hr.
      destruct (a_quiesceVerify a); cbn; [|done]. split; [|done].
      apply elem_of_app. right. by left.
Qed.

Lemma advancePending_no_job r a vol : no_job (snd (advancePending r a vol)).
Proof.
  unfold advancePending.
  destruct (match FirstAttemptAt vol with None => false | Some t => _ end); cbn; auto with cb.
  destruct (a_pvc a) as [p|e]; [|destruct (IsNotFound e); cbn; auto with cb].
  destruct (a_for a) as [e|]; [destruct (is_class _ e); cbn; auto with cb|].
  destruct (a_precheck a) as [e|]; [destruct (is_class _ e); cbn; auto with cb|].
  destruct (a_expose a); cbn; auto with cb.
Qed.

Lemma advanceUploading_no_job r a bk vol rc :
  no_job (ad_fx (advanceUploading Unmarshal Quote r a bk vol rc)).
Proof.
  unfold advanceUploading. destruct (a_job a) as [job|e].
  - destruct (_ && _); [destruct (moverStalled _ _ _); cbn; auto with cb|].
    unfold recordMoverResult. destruct (readMoverResult _ _ _ _ _) as [[m|e] node]; cbn; auto with cb.
    destruct (_ && _); cbn; auto with cb.
  - destruct (IsNotFound e); apply backstop_no_job; auto with cb.
Qed.

Lemma judgeNotReady_phase r a bk vol exposure fx :
  Phase (ad_vol (judgeNotReady r a bk vol exposure fx)) = VolumePhaseFailed
  \/ Phase (ad_vol (judgeNotReady r a bk vol exposure fx)) = Phase vol.
Proof.
  unfold judgeNotReady, backstop, failVolumeOnAdvanceBackstop.
  destruct (_ =? _); [by left|]. destruct (_ =? _); [by left|].
  destruct (PhaseEnteredAt vol); [destruct (_ <=? _)%Z|]; cbn; auto.
Qed.

(** The phase dispatch either creates no Job, or is the admission of a ready
    volume. *)
Lemma advanceVolumePhase_fx r a bk vol rc :
  let d := advanceVolumePhase Unmarshal Quote r a bk vol rc in
  let prefix := moverNamePrefix (bk_namespace bk) (bk_name bk) (Pvc vol) in
  let moverName := prefix ++ "-mover" in
  (no_job (ad_fx d) /\ (Phase vol = VolumePhaseSnapshotting -> Phase (ad_vol d) <> VolumePhaseUploading))
  \/ (Phase vol = VolumePhaseSnapshotting /\ a_ready a = Ok true
      /\ moverSlotBlocked r a moverName (rc_repoName rc) (rc_maxConcurrentMovers rc) = Ok false
      /\ (forall n x c, FxCreateJob n x c ∈ ad_fx d -> n = moverName)
      /\ (exists x c, FxCreateJob moverName x c ∈ ad_fx d)
      /\ (a_createJob a = None -> hasQueue r = true -> rc_repoName rc <> "" ->
          if a_quiesceVerify a
          then FxDeleteMover prefix ∈ ad_fx d /\ Phase (ad_vol d) = VolumePhaseSnapshotting
          else Phase (ad_vol d) = VolumePhaseUploading)).
Proof.
  cbv zeta. unfold advanceVolumePhase.
  destruct (isPendingPhase (Phase vol)) eqn:Ep.
  { left. pose proof (advancePending_no_job r a vol) as H. destruct (advancePending r a vol). split; [done|].
    intros E. by rewrite E in Ep. }
  destruct (String.eqb_spec (Phase vol) VolumePhaseSnapshotting) as [Es|Es].
  - unfold advanceSnapshotting. pose proof (reconstructExposure_no_job a (Pvc vol)) as Hfx.
    destruct (reconstructExposure a (Pvc vol)) as [[exposure|e] fx]; cbn [snd] in Hfx.
    + destruct (a_ready a) as [[]|e] eqn:Er; cbn [negb].
      * destruct (admitMover_fx r a bk vol rc exposure fx Hfx Es) as [[H1 H2]|H]; [by left|right; by auto].
      * left. split; [by apply judgeNotReady_no_job|]. intros _.
        destruct (judgeNotReady_phase r a bk vol exposure fx) as [-> | ->]; [done|by rewrite Es].
      * left. split; [by apply judgeNotReady_no_job|]. intros _.
        destruct (recordAdvanceFailure_same vol (wrap_err ("check exposure readiness for PVC "
          ++ bk_namespace bk ++ "/" ++ Pvc vol) e)) as [s Hs]. rewrite Hs.
        destruct (judgeNotReady_phase r a bk (set_reason s vol) exposure fx) as [-> | ->]; [done|cbn; by rewrite Es].
    + left. split; [by apply backstop_no_job|]. intros _. unfold backstop, failVolumeOnAdvanceBackstop.
      destruct (PhaseEnteredAt vol); [destruct (_ <=? _)%Z|]; cbn; by rewrite ?Es.
  - left. split; [|done]. destruct (Phase vol =? VolumePhaseUploading); [apply advanceUploading_no_job|cbn; auto with cb].
Qed.

(** ** A mover is deleted to undo its creation *)

(** Every deletion of a mover among the effects undoes a Create of the same pass that made
    the Job: it comes after it, and the Create was answered without an error. *)
Definition undo_only (a : answers) (fx : list effect) : Prop :=
  forall fx1 p fx2, fx = (fx1 ++ FxDeleteMover p :: fx2)%list ->
    a_createJob a = None /\ exists args claim, FxCreateJob (p ++ "-mover") args claim ∈ fx1.

Lemma undo_only_no_delete a fx : (forall p, FxDeleteMover p ∉ fx) -> undo_only a fx.
Proof. intros H fx1 p fx2 ->. destruct (H p). apply elem_of_app. right. left. Qed.

Lemma undo_only_no_job a fx : no_job fx -> undo_only a fx.
Proof. intros H. apply undo_only_no_delete. intros p. by apply no_job_delete. Qed.

Lemma undo_only_undone a fx p args claim :
  (forall p', FxDeleteMover p' ∉ fx) -> a_createJob a = None -> FxCreateJob (p ++ "-mover") args claim ∈ fx ->
  undo_only a (fx ++ [FxDeleteMover p])%list.
Proof.
  intros H Hc Hin fx1 p' fx2 E. split; [done|].
  destruct fx2 as [|x fx3 _] using rev_ind.
  - apply app_inj_tail in E as [<- [= ->]]. by exists args, claim.
  - rewrite app_comm_cons, app_assoc in E. apply app_inj_tail in E as [-> _].
    destruct (H p'). apply elem_of_app. right. left.
Qed.

Lemma admitMover_undo r a bk vol rc exposure fx :
  no_job fx -> undo_only a (ad_fx (admitMover r a bk vol rc exposure fx)).
Proof.
  intros Hfx. unfold admitMover. destruct (moverSlotBlocked _ _ _ _ _) as [[]|e].
  { by apply undo_only_no_job. } 2: { by apply undo_only_no_job, backstop_no_job. }
  pose proof (ensureMoverCredsSecret_no_job r (a_accessKey a) (a_secretKey a) (a_createSecret a)
    (moverNamePrefix (bk_namespace bk) (bk_name bk) (Pvc vol) ++ "-mover")
    (rc_s3CredsSecret rc) (rc_credsNamespace rc)) as Hs.
  destruct (ensureMoverCredsSecret _ _ _ _ _ _ _) as [[e|] sfx]; cbn [snd] in Hs.
  { apply undo_only_no_job, backstop_no_job, no_job_app; done. }
  set (prefix := moverNamePrefix _ _ _). set (j := FxCreateJob _ _ _).
  assert (forall p, FxDeleteMover p ∉ ((fx ++ sfx) ++ [j])%list) as Hn.
  { intros p [[H|H]%elem_of_app|H%list_elem_of_singleton]%elem_of_app; [..|done].
    - by destruct (no_job_delete _ p Hfx).
    - by destruct (no_job_delete _ p Hs). }
  destruct (a_createJob a) as [e|] eqn:Ec.
  - destruct (IsAlreadyExists e); cbn [negb]; [by apply undo_only_no_delete|].
    unfold backstop. destruct (failVolumeOnAdvanceBackstop _ _ _ _); cbn [ad_fx];
      apply undo_only_no_delete; [|done].
    intros p [H|H%list_elem_of_singleton]%elem_of_app; [by apply (Hn p)|done].
  - destruct (_ && a_quiesceVerify a); cbn [ad_fx]; [|by apply undo_only_no_delete].
    eapply undo_only_undone; [done|done|]. apply elem_of_app. right. left.
Qed.

(** Whatever the cluster answers, driving a volume deletes a mover only to undo its own Create. *)
Lemma advanceVolume_undo r a bk vol rc : undo_only a (ad_fx (advanceVolume r a bk vol rc)).
Proof.
  destruct (advanceVolume_fields Unmarshal Quote r a bk vol rc) as (_ & _ & _ & _ & -> & _).
  unfold advanceVolumePhase. destruct (isPendingPhase (Phase vol)).
  { pose proof (advancePending_no_job r a vol) as H. destruct (advancePending r a vol).
    by apply undo_only_no_job. }
  destruct (Phase vol =? VolumePhaseSnapshotting).
  - unfold advanceSnapshotting. pose proof (reconstructExposure_no_job a (Pvc vol)) as Hfx.
    destruct (reconstructExposure a (Pvc vol)) as [[exposure|e] fx]; cbn [snd] in Hfx.
    + destruct (a_ready a) as [[]|e]; cbn [negb]; [by apply admitMover_undo|..];
        by apply undo_only_no_job, judgeNotReady_no_job.
    + by apply undo_only_no_job, backstop_no_job.
  - apply undo_only_no_job.
    destruct (Phase vol =? VolumePhaseUploading); [apply advanceUploading_no_job|cbn; auto with cb].
Qed.

(** Admission: a pass creates at most the volume's own mover Job, only from
    Snapshotting; when no such Job existed, the mover/unlock mutex was open and a
    slot was free; and when the Job is new and the repository turns out to need
    quiescence after the Create, the Create is undone and the volume stays. *)
Theorem advanceVolume_admission (r : BackupReconciler) (a : answers) (bk : backupKey)
    (vol : VolumeStatus) (rc : backupRunContext) :
  let d := advanceVolume r a bk vol rc in
  let prefix := moverNamePrefix (bk_namespace bk) (bk_name bk) (Pvc vol) in
  (forall name args claim, FxCreateJob name args claim ∈ ad_fx d ->
     Phase vol = VolumePhaseSnapshotting /\ name = prefix ++ "-mover" /\ a_ready a = Ok true
     /\ ((exists job, a_job a = Ok job)
         \/ ((hasQueue r = true -> rc_repoName rc <> "" -> a_quiesceGate a = false)
             /\ ((rc_maxConcurrentMovers rc <= 0)%Z
                 \/ exists movers, listMoverJobs (a_moverJobs a) = Ok movers
                    /\ (int32 (Z.of_nat (RunningMoverJobs movers)) < rc_maxConcurrentMovers rc)%Z)))
     /\ (a_createJob a = None -> hasQueue r = true -> rc_repoName rc <> "" -> a_quiesceVerify a = true ->
         FxDeleteMover prefix ∈ ad_fx d /\ Phase (ad_vol d) = VolumePhaseSnapshotting))
  /\ (Phase vol = VolumePhaseSnapshotting -> Phase (ad_vol d) = VolumePhaseUploading ->
      (exists args claim, FxCreateJob (prefix ++ "-mover") args claim ∈ ad_fx d)
      /\ (a_createJob a = None -> hasQueue r = true -> rc_repoName rc <> "" -> a_quiesceVerify a = false)).
Proof.
  cbv zeta. destruct (advanceVolume_fields Unmarshal Quote r a bk vol rc) as (_ & -> & _ & _ & -> & _).
  set (d := advanceVolumePhase Unmarshal Quote r a bk vol rc).
  destruct (advanceVolumePhase_fx r a bk vol rc) as [[Hj Hu]|(Hp & Hr & Hb & Hn & Hx & Hv)].
  - split; [intros n x c Hx; by destruct (no_job_create _ n x c Hj)|]. intros Hs He. by destruct (Hu Hs).
  - split.
    + intros n x c Hin. split; [done|]. split; [by eapply Hn|]. split; [done|].
      split; [by eapply moverSlotBlocked_open|]. intros Hc Hq Hrepo Hver.
      specialize (Hv Hc Hq Hrepo). by rewrite Hver in Hv.
    + intros _ He. split; [done|]. intros Hc Hq Hrepo. specialize (Hv Hc Hq Hrepo).
      destruct (a_quiesceVerify a); [|done]. destruct Hv as [_ Hv]. fold d in Hv. by rewrite Hv in He.
Qed.
End Bounds.

(** ** The queue *)

Lemma firstNonTerminal_from_spec i p vols :
  match firstNonTerminal_from i p vols with
  | None => p = None /\ forall v, v ∈ vols -> volumePhaseTerminal (Phase v) = true
  | Some k =>
      (p = Some k /\ forall v, v ∈ vols -> volumePhaseTerminal (Phase v) = true \/ volumeIsParked v = true)
      \/ (exists j v, k = i + j /\ vols !! j = Some v /\ volumePhaseTerminal (Phase v) = false
          /\ (volumeIsParked v = false
                /\ (forall j' v', j' < j -> vols !! j' = Some v' ->
                    volumePhaseTerminal (Phase v') = true \/ volumeIsParked v' = true)
              \/ volumeIsParked v = true /\ p = None
                 /\ (forall v', v' ∈ vols -> volumePhaseTerminal (Phase v') = true \/ volumeIsParked v' = true)
                 /\ (forall j' v', j' < j -> vols !! j' = Some v' -> volumePhaseTerminal (Phase v') = true)))
  end.
Proof.
  revert i p. induction vols as [|v vols IH]; intros i p; cbn.
  { destruct p as [k|]; [left|]; split; try done; intros v Hv; by apply elem_of_nil in Hv. }
  destruct (volumePhaseTerminal (Phase v)) eqn:Et; [|destruct (volumeIsParked v) eqn:Ep].
  - specialize (IH (S i) p). destruct (firstNonTerminal_from (S i) p vols) as [k|].
    + destruct IH as [[-> H]|(j & w & -> & Hj & Hw & Hc)].
      * left. split; [done|]. intros x [->|Hx]%elem_of_cons; [by left|by apply H].
      * right. exists (S j), w. split; [lia|]. split; [done|]. split; [done|].
        destruct Hc as [[Hp H]|(Hp & Hn & H1 & H2)]; [left|right].
        -- split; [done|]. intros [|j'] w' Hlt; cbn; [intros [= <-]; by left|apply H; lia].
        -- split_and!; try done.
           ++ intros x [->|Hx]%elem_of_cons; [by left|by apply H1].
           ++ intros [|j'] w' Hlt; cbn; [intros [= <-]; done|apply H2; lia].
    + destruct IH as [-> H]. split; [done|]. intros x [->|Hx]%elem_of_cons; [done|by apply H].
  - specialize (IH (S i) (match p with None => Some i | Some _ => p end)).
    destruct (firstNonTerminal_from (S i) _ vols) as [k|].
    + destruct IH as [[Hk H]|(j & w & -> & Hj & Hw & Hc)].
      * destruct p as [k'|]; injection Hk as <-.
        -- left. split; [done|]. intros x [->|Hx]%elem_of_cons; [by right|by apply H].
        -- right. exists 0, v. split; [lia|]. split; [done|]. split; [done|]. right.
           split_and!; try done; [|intros; lia].
           intros x [->|Hx]%elem_of_cons; [by right|by apply H].
      * right. exists (S j), w. split; [lia|]. split; [done|]. split; [done|].
        destruct Hc as [[Hp H]|(_ & Hn & _)]; [left|by destruct p].
        split; [done|]. intros [|j'] w' Hlt; cbn; [intros [= <-]; by right|apply H; lia].
    + destruct IH as [Hn _]. by destruct p.
  - right. exists 0, v. split; [lia|]. split; [done|]. split; [done|]. left.
    split; [done|]. intros; lia.
Qed.

Lemma firstNonTerminalVolume_active vols i :
  firstNonTerminalVolume vols = Some i ->
  exists v, vols !! i = Some v /\ volumePhaseTerminal (Phase v) = false.
Proof.
  unfold firstNonTerminalVolume. intros E. pose proof (firstNonTerminal_from_spec 0 None vols) as H.
  rewrite E in H. destruct H as [[? _]|(j & v & -> & Hj & Ht & _)]; [done|]. by exists v.
Qed.

(** The queue is fair to the volumes behind a parked one: the volume advanced
    is the first that is neither terminal nor parked; a parked volume is retried
    only when every other unfinished volume is parked too, the first one first;
    and there is none to advance exactly when every volume is terminal. *)
Theorem firstNonTerminalVolume_spec (vols : list VolumeStatus) :
  match firstNonTerminalVolume vols with
  | None => forall v, v ∈ vols -> volumePhaseTerminal (Phase v) = true
  | Some i =>
      exists v, vols !! i = Some v /\ volumePhaseTerminal (Phase v) = false
      /\ (volumeIsParked v = false
            /\ (forall j v', j < i -> vols !! j = Some v' ->
                volumePhaseTerminal (Phase v') = true \/ volumeIsParked v' = true)
          \/ volumeIsParked v = true
             /\ (forall v', v' ∈ vols -> volumePhaseTerminal (Phase v') = true \/ volumeIsParked v' = true)
             /\ (forall j v', j < i -> vols !! j = Some v' -> volumePhaseTerminal (Phase v') = true))
  end.
Proof.
  unfold firstNonTerminalVolume. pose proof (firstNonTerminal_from_spec 0 None vols) as H.
  destruct (firstNonTerminal_from 0 None vols) as [i|]; [|by destruct H].
  destruct H as [[? _]|(j & v & -> & Hj & Ht & Hc)]; [done|]. exists v. cbn.
  split; [done|]. split; [done|]. destruct Hc as [[Hp H]|(Hp & _ & H1 & H2)]; [by left|right].
  split; [done|]. split; [done|]. intros j' v'. apply H2.
Qed.

(** ** Parking leaves its mark *)

Lemma runes_ascii x s : (code x <? 128)%N = true -> runes (String x s) = code x :: runes s.
Proof.
  intros Hx. unfold runes. cbn [runes_from]. unfold DecodeRune, stake.
  cbn [substring to_bytes]. by rewrite Hx.
Qed.

Lemma EncodeRune_ascii x : (code x <? 128)%N = true -> EncodeRune (code x) = String x "".
Proof.
  intros Hx. unfold EncodeRune. rewrite Hx. cbn. unfold chr, code. by rewrite ascii_N_embedding.
Qed.

Lemma string_of_runes_cons r rs : string_of_runes (r :: rs) = EncodeRune r ++ string_of_runes rs.
Proof.
  unfold string_of_runes. cbn [map]. destruct (map EncodeRune rs) eqn:E; cbn [String.concat].
  - by induction (EncodeRune r) as [|x e IH]; [|change (String x e = String x (e ++ "")); f_equal].
  - done.
Qed.

Lemma HasPrefix_refl_app a b : HasPrefix (a ++ b) a = true.
Proof. apply HasPrefix_append. Qed.

Lemma clamp_prefix_ascii p s n :
  all_bytes (fun x => code x <? 128)%N p = true -> slen p <= n ->
  HasPrefix (string_of_runes (take n (runes (p ++ s))) ++ "…") p = true.
Proof.
  revert n. induction p as [|x p IH]; intros n Hp Hn; [by destruct (_ ++ _)|].
  cbn [all_bytes] in Hp. apply andb_true_iff in Hp as [Hx Hp].
  change (String x p ++ s) with (String x (p ++ s)). rewrite runes_ascii by done.
  destruct n as [|n]; [unfold slen in Hn; simpl in Hn; lia|]. cbn [take].
  rewrite string_of_runes_cons, EncodeRune_ascii by done.
  change (String x "" ++ string_of_runes (take n (runes (p ++ s))))
    with (String x (string_of_runes (take n (runes (p ++ s))))).
  change (HasPrefix (String x (string_of_runes (take n (runes (p ++ s))) ++ "…")) (String x p) = true).
  unfold HasPrefix. cbn [String.prefix]. destruct (ascii_dec x x); [|done].
  apply IH; [done|]. unfold slen in *. simpl in Hn. lia.
Qed.

(** A volume parked by any step is recognised as parked by the queue, however
    long the error: the clamp of the message never reaches the marker. *)
Theorem parkVolume_parked (vol : VolumeStatus) (cause : gerr)
    (Hp : isPendingPhase (Phase vol) = true) :
  volumeIsParked (parkVolume vol cause) = true.
Proof.
  unfold volumeIsParked, parkVolume. cbn [Phase Reason set_reason]. rewrite Hp. cbn [andb].
  unfold clampMessage. destruct (_ <=? _)%nat.
  - replace (backupReasonExposerUnresolvable ++ ": " ++ err_text cause)
      with ((backupReasonExposerUnresolvable ++ ":") ++ " " ++ err_text cause); [apply HasPrefix_append|].
    rewrite sapp_assoc. done.
  - replace (backupReasonExposerUnresolvable ++ ": " ++ err_text cause)
      with ((backupReasonExposerUnresolvable ++ ":") ++ " " ++ err_text cause)
      by (rewrite sapp_assoc; done).
    apply clamp_prefix_ascii; [by vm_compute|]. vm_compute. lia.
Qed.

(** ** Witnesses *)

Definition wit_reconciler : BackupReconciler := mkBackupReconciler "crystal-backup-system" true true 0 0 0.
Definition wit_key : backupKey := mkBackupKey "team" "nightly" ∅.
Definition wit_rc : backupRunContext :=
  mkRunContext "daily" "nightly" "c1" "team" "repo" "s3:h/b/c1" "creds" ""
    (mkRetention 0 0 7 0 0 0) false 2 0.
Definition wit_vol (p : VolumePhase) (entered : option Z) : VolumeStatus :=
  mkVolumeStatus "data" "" 0 0 p "" "" (Some 0%Z) entered.
Definition wit_notFound : gerr := mkErr ENotFound "not found".

(** A mover Job that finished, with one successful pod. *)
Definition wit_answers : answers := mkAnswers (5 * hour) (Err wit_notFound) None None
  (Err wit_notFound) (Ok true) None (Err wit_notFound)
  (Ok (mkJob "j" ∅ 0 None 1 0 [])) false (Ok []) (Ok "k") (Ok "s") None None false (Ok [])
  (Ok [mkPod "p" "node1" "Succeeded" "" "" 0 [mkContainerStatus false (Some (mkTerminated 0 "" "{}")) false]])
  (fun _ _ => Ok []).

Definition wit_unmarshal (s : string) : result MoverResult :=
  Ok (SummaryToResult "backup" (mkBackupSummary "summary" "abc123" 100 10)).

Lemma advanceVolume_completed_witness :
  let vol := wit_vol VolumePhaseUploading (Some 0%Z) in
  let d := advanceVolume wit_unmarshal id wit_reconciler wit_answers wit_key vol wit_rc in
  SnapshotID (ad_vol d) = "abc123" /\
  (Phase vol = VolumePhaseUploading /\
   exists job result node, a_job wit_answers = Ok job /\ jobComplete job = true
    /\ readMoverResult wit_unmarshal id (OperatorNamespace wit_reconciler) (a_resultPods wit_answers)
         (moverNamePrefix (bk_namespace wit_key) (bk_name wit_key) (Pvc vol) ++ "-mover") = (Ok result, node)
    /\ mr_OK result = true
    /\ SnapshotID (ad_vol d) = mr_SnapshotID result
    /\ SizeBytes (ad_vol d) = mr_SizeBytes result
    /\ AddedBytes (ad_vol d) = mr_AddedBytes result).
Proof.
  cbv zeta. split; [by vm_compute|].
  apply (advanceVolume_completed wit_unmarshal id wit_reconciler wit_answers wit_key
           (wit_vol VolumePhaseUploading (Some 0%Z)) wit_rc); [discriminate|by vm_compute].
Defined.

Lemma parkVolume_parked_witness :
  volumeIsParked (parkVolume (wit_vol VolumePhasePending None) wit_notFound) = true.
Proof. apply (parkVolume_parked (wit_vol VolumePhasePending None) wit_notFound). reflexivity. Defined.
