(* ===== verification/Backup.v ===== *)
(** * Backup: the Backup object, and the monad of a reconcile pass over it

    The fields of [v1alpha1.Backup] the controllers read and write, setters for
    its status, and [pass]: a computation that mutates the in-memory object and
    makes calls, which are logged in the order they are made. *)

From S2P Require Import Prelude GoText Cluster Selectors Names Status VolumeMachine.
From Stdlib Require Import Ascii String.

#[local] Open Scope string_scope.
#[local] Notation length := List.length.

(** ** Data *)

Record HookStatus := mkHookStatus {
  hs_Phase : string;
  hs_Pod : string;
  hs_Container : string;
  hs_Source : string;
  hs_Result : string;
  hs_OnError : string;
  hs_Message : string;
  hs_FinishedAt : option Z
}.

Record ManifestsStatus := mkManifestsStatus { ms_SnapshotID : string; ms_ResourceCount : Z }.

Record Hook := mkHook {
  hk_PodSelector : LabelSelector;
  hk_Container : string;
  hk_Command : list string;
  hk_Timeout : Z;
  hk_OnError : string
}.

Record HooksSpec := mkHooksSpec {
  HonorAnnotations : bool;
  Pre : list Hook;
  Post : list Hook;
  ServiceAccountName : string
}.

Record BackupRunSpec := mkBackupRunSpec {
  run_PVCSelector : PVCSelector;
  run_IncludeManifests : option bool;
  run_ExcludeSecretData : bool;     (* manifestOptions.excludeSecretData *)
  run_Hooks : HooksSpec;
  run_MaxConcurrentMovers : Z;
  run_BackoffLimit : Z
}.

Record BackupSpec := mkBackupSpec {
  sp_ScheduleRef : string;
  sp_LocationKind : string;         (* locationRef *)
  sp_LocationName : string;
  sp_Run : option BackupRunSpec
}.

Record RoleBinding := mkRoleBinding {
  rb_name : string;
  rb_namespace : string;
  rb_labels : labels;
  rb_clusterRole : string;
  rb_serviceAccount : string;
  rb_saNamespace : string
}.

Section Backup.
Context `{CS : ConditionStore}.

Record BackupStatus := mkBackupStatus {
  st_Phase : string;
  st_BackupTime : option Z;
  st_CompletionTime : option Z;
  st_Manifests : option ManifestsStatus;
  st_Volumes : list VolumeStatus;
  st_Hooks : list HookStatus;
  st_PostHookAttempts : Z;
  st_Conditions : conditions
}.

Record Backup := mkBackup {
  b_namespace : string;
  b_name : string;
  b_generation : Z;
  b_created : Z;
  b_deleting : bool;                (* a non-zero DeletionTimestamp *)
  b_labels : labels;
  b_annotations : labels;
  b_finalizers : list string;
  b_spec : BackupSpec;
  b_status : BackupStatus
}.

Definition b_key (b : Backup) : backupKey := mkBackupKey (b_namespace b) (b_name b) (b_labels b).
Definition b_phase (b : Backup) : string := st_Phase (b_status b).
Definition b_volumes (b : Backup) : list VolumeStatus := st_Volumes (b_status b).
Definition b_hooks (b : Backup) : list HookStatus := st_Hooks (b_status b).

Definition set_status (s : BackupStatus) (b : Backup) : Backup :=
  mkBackup (b_namespace b) (b_name b) (b_generation b) (b_created b) (b_deleting b) (b_labels b)
    (b_annotations b) (b_finalizers b) (b_spec b) s.

Definition set_bphase (p : string) (b : Backup) : Backup :=
  let s := b_status b in
  set_status (mkBackupStatus p (st_BackupTime s) (st_CompletionTime s) (st_Manifests s)
                (st_Volumes s) (st_Hooks s) (st_PostHookAttempts s) (st_Conditions s)) b.
Definition set_times (bt ct : option Z) (b : Backup) : Backup :=
  let s := b_status b in
  set_status (mkBackupStatus (st_Phase s) bt ct (st_Manifests s)
                (st_Volumes s) (st_Hooks s) (st_PostHookAttempts s) (st_Conditions s)) b.
Definition set_manifests (m : option ManifestsStatus) (b : Backup) : Backup :=
  let s := b_status b in
  set_status (mkBackupStatus (st_Phase s) (st_BackupTime s) (st_CompletionTime s) m
                (st_Volumes s) (st_Hooks s) (st_PostHookAttempts s) (st_Conditions s)) b.
Definition set_volumes (vs : list VolumeStatus) (b : Backup) : Backup :=
  let s := b_status b in
  set_status (mkBackupStatus (st_Phase s) (st_BackupTime s) (st_CompletionTime s) (st_Manifests s)
                vs (st_Hooks s) (st_PostHookAttempts s) (st_Conditions s)) b.
Definition set_hooks (hs : list HookStatus) (attempts : Z) (b : Backup) : Backup :=
  let s := b_status b in
  set_status (mkBackupStatus (st_Phase s) (st_BackupTime s) (st_CompletionTime s) (st_Manifests s)
                (st_Volumes s) hs attempts (st_Conditions s)) b.
Definition set_conditions (cs : conditions) (b : Backup) : Backup :=
  let s := b_status b in
  set_status (mkBackupStatus (st_Phase s) (st_BackupTime s) (st_CompletionTime s) (st_Manifests s)
                (st_Volumes s) (st_Hooks s) (st_PostHookAttempts s) cs) b.

Definition set_condition (condType status reason message : string) (b : Backup) : Backup :=
  set_conditions (SetCondition (st_Conditions (b_status b)) condType status reason message
                    (b_generation b)) b.

Definition set_annotation (k v : string) (b : Backup) : Backup :=
  mkBackup (b_namespace b) (b_name b) (b_generation b) (b_created b) (b_deleting b) (b_labels b)
    (<[k := v]> (b_annotations b)) (b_finalizers b) (b_spec b) (b_status b).
Definition set_finalizers (fs : list string) (b : Backup) : Backup :=
  mkBackup (b_namespace b) (b_name b) (b_generation b) (b_created b) (b_deleting b) (b_labels b)
    (b_annotations b) fs (b_spec b) (b_status b).

(** ** Calls of a pass *)

(** A call that changes something outside, in the order made.  [CStatusUpdate]
    carries the status it writes and whether the API server accepted it. *)
Inductive call :=
| CStatusUpdate (s : BackupStatus) (accepted : bool)
| CUpdate (finalizers : list string) (accepted : bool)
| CPatchAnnotation (key value : string) (accepted : bool)
| CVolume (e : effect)
| CTeardownExposure (prefix : string)
| CDeleteMover (prefix : string)
| CRoleBinding (rb : RoleBinding)
| CDeleteRoleBinding (namespace name : string)
| CManifestJob (name : string) (args : list string) (ls : labels) (env : list (string * string))
| CHook (phase : string) (pods : list string)
| CEvent (etype reason action : string)
| CEnqueueForget (repo name : string) (args : list string)
| CTerminalMetrics.

(** ** The monad *)

Definition pass (A : Type) : Type := Backup -> A * Backup * list call.

Definition ret {A} (x : A) : pass A := fun b => (x, b, []).
Definition bind {A B} (m : pass A) (f : A -> pass B) : pass B :=
  fun b => let '(x, b, l) := m b in let '(y, b, l') := f x b in (y, b, l ++ l')%list.
Definition the_backup : pass Backup := fun b => (b, b, []).
Definition modify (f : Backup -> Backup) : pass () := fun b => ((), f b, []).
Definition do_call (c : call) : pass () := fun b => ((), b, [c]).

(** [r.Status().Update(ctx, backup)] answered with [err]. *)
Definition status_update (err : option gerr) : pass (option gerr) :=
  fun b => (err, b, [CStatusUpdate (b_status b) (match err with None => true | Some _ => false end)]).

(** [ctrl.Result]: the delay before the next pass, [requeue] for an immediate one. *)
Record Result := mkResult { r_requeue : bool; r_after : Z }.
Definition noResult : Result := mkResult false 0.
Definition RequeueAfter (d : Z) : Result := mkResult false d.
Definition IsZero (r : Result) : bool := negb (r_requeue r) && (r_after r =? 0)%Z.
End Backup.

Declare Scope pass_scope.
Delimit Scope pass_scope with pass.
Notation "x <-- m ;; k" := (bind m (fun x => k))
  (at level 60, m at next level, right associativity) : pass_scope.
Notation "' p <-- m ;; k" := (bind m (fun x => let p := x in k))
  (at level 60, p pattern, m at next level, right associativity) : pass_scope.
Notation "m ;;; k" := (bind m (fun _ => k)) (at level 60, right associativity) : pass_scope.

(** ** Laws of the monad *)

Section Laws.
Context `{CS : ConditionStore}.

Lemma bind_ret {A B} (x : A) (f : A -> pass B) b : bind (ret x) f b = f x b.
Proof. unfold bind, ret. by destruct (f x b) as [[y b'] l]. Qed.

Lemma bind_assoc {A B C} (m : pass A) (f : A -> pass B) (g : B -> pass C) b :
  bind (bind m f) g b = bind m (fun x => bind (f x) g) b.
Proof.
  unfold bind. destruct (m b) as [[x b1] l1]. destruct (f x b1) as [[y b2] l2].
  destruct (g y b2) as [[z b3] l3]. by rewrite app_assoc.
Qed.

(** A relation between the object before and after, and the calls made, that a
    pass establishes; it composes along [bind]. *)
Definition establishes {A} (R : Backup -> list call -> Backup -> Prop) (m : pass A) : Prop :=
  forall b, R b (snd (m b)) (snd (fst (m b))).

Record composable (R : Backup -> list call -> Backup -> Prop) : Prop := {
  comp_refl : forall b, R b [] b;
  comp_trans : forall b1 b2 b3 l1 l2, R b1 l1 b2 -> R b2 l2 b3 -> R b1 (l1 ++ l2)%list b3
}.

Lemma establishes_ret {A} R (x : A) : composable R -> establishes R (ret x).
Proof. intros HR b. by apply comp_refl. Qed.

Lemma establishes_get R : composable R -> establishes R the_backup.
Proof. intros HR b. by apply comp_refl. Qed.

Lemma establishes_bind {A B} R (m : pass A) (f : A -> pass B) :
  composable R -> establishes R m -> (forall x, establishes R (f x)) -> establishes R (bind m f).
Proof.
  intros HR Hm Hf b. unfold bind. specialize (Hm b). destruct (m b) as [[x b1] l1].
  specialize (Hf x b1). destruct (f x b1) as [[y b2] l2]. cbn in *. by eapply comp_trans.
Qed.
End Laws.

(** The usual relation: every call is of a kind, and a projection is kept. *)
Section Within.
Context `{CS : ConditionStore} {X : Type} (P : call -> bool) (f : Backup -> X).

Definition within (b : Backup) (l : list call) (b' : Backup) : Prop :=
  Forall (fun c => P c = true) l /\ f b' = f b.

Lemma within_composable : composable within.
Proof.
  split; [by split|]. intros b1 b2 b3 l1 l2 [Hl1 H1] [Hl2 H2]. split; [by apply Forall_app|congruence].
Qed.

Lemma within_call c : P c = true -> establishes within (do_call c).
Proof. intros Hc b. split; [by constructor|done]. Qed.

Lemma within_modify g : (forall b, f (g b) = f b) -> establishes within (modify g).
Proof. intros Hg b. split; [constructor|apply Hg]. Qed.

Lemma within_status err :
  (forall s acc, P (CStatusUpdate s acc) = true) -> establishes within (status_update err).
Proof. intros Hp b. split; [by constructor|done]. Qed.
End Within.

Lemma within_weaken `{CS : ConditionStore} {A X Y} (P : call -> bool) (f : Backup -> X) (g : Backup -> Y)
    (m : pass A) :
  (forall b b', f b' = f b -> g b' = g b) -> establishes (within P f) m -> establishes (within P g) m.
Proof. intros Hfg Hm b. destruct (Hm b) as [Hl Hf]. split; [done|by apply Hfg]. Qed.

(** Walk a pass with [within]: every step is a call of the kind, a modification that
    keeps the projection, or a case analysis. *)
Ltac within_step :=
  lazymatch goal with
  | |- establishes _ (ret _) => apply establishes_ret, within_composable
  | |- establishes _ the_backup => apply establishes_get, within_composable
  | |- establishes _ (do_call _) => apply within_call; reflexivity
  | |- establishes _ (modify _) => apply within_modify; intros; reflexivity
  | |- establishes _ (status_update _) => apply within_status; intros; reflexivity
  | |- establishes _ (bind _ _) => apply establishes_bind; [apply within_composable| |intros]
  | |- establishes _ (match ?x with _ => _ end) => destruct x
  | |- establishes _ (let '(_, _) := ?x in _) => destruct x
  end.
Ltac within_auto := repeat within_step.

#[export] Hint Resolve establishes_ret establishes_get establishes_bind : cb.
