(* ===== verification/Hooks.v ===== *)
(** * Hooks: the freeze window (internal/hooks/hooks.go, internal/controller/hooks_phase.go)

    Which hooks a Backup resolves to, how a chain of them runs, what is recorded
    of it, and the two ends of the freeze window: [openFreezeWindow] before any
    snapshot is cut and [closeFreezeWindow] after the last one. *)

From S2P Require Import Prelude GoText Cluster Selectors Names Status MoverResult Restic VolumeMachine Backup.
From Stdlib Require Import Ascii String.

#[local] Open Scope string_scope.
#[local] Open Scope pass_scope.
#[local] Notation length := List.length.

(** ** internal/hooks: resolution *)

Definition PhasePre : string := "pre".
Definition PhasePost : string := "post".
Definition SourceAnnotation : string := "annotation".
Definition SourceSpec : string := "spec".
Definition DefaultTimeout : Z := (30 * second)%Z.
Definition HookErrorPolicyFail : string := "Fail".
Definition HookErrorPolicyContinue : string := "Continue".
Definition HookSucceeded : string := "Succeeded".
Definition HookFailed : string := "Failed".
Definition HookSkipped : string := "Skipped".
Definition AnnotationPreBackupPrefix : string := "crystalbackup.io/pre-backup-".
Definition AnnotationPostBackupPrefix : string := "crystalbackup.io/post-backup-".

(** A pod as the hooks read it; [hp_claims] are the claims its volumes name. *)
Record HookPod := mkHookPod {
  hp_namespace : string;
  hp_name : string;
  hp_phase : string;
  hp_deleting : bool;
  hp_labels : labels;
  hp_annotations : labels;
  hp_containers : list string;
  hp_claims : list string
}.

Record Resolved := mkResolved {
  rh_PodNamespace : string;
  rh_PodName : string;
  rh_Container : string;
  rh_Command : list string;
  rh_Timeout : Z;
  rh_OnError : string;
  rh_Source : string;
  rh_Phase : string;
  rh_ServiceAccountName : string
}.

Section Resolution.

(** Outside the source: apimachinery's compilation of a selector, and the
    standard library's duration and JSON parsers. *)
Variable LabelSelectorAsSelector : LabelSelector -> option (labels -> bool).
Variable ParseDuration : string -> option Z.
Variable UnmarshalArgv : string -> option (list string).

Definition selectorMatches (sel : LabelSelector) (podLabels : labels) : bool :=
  if (bool_decide (MatchLabels sel = ∅)) && (length (MatchExpressions sel) =? 0)%nat then true
  else match LabelSelectorAsSelector sel with
       | None => false
       | Some s => s podLabels
       end.

Definition defaultContainer (pod : HookPod) (named : string) : string :=
  if negb (named =? "") then named else default "" (head (hp_containers pod)).

Definition parseCommand (raw : string) : list string :=
  let raw := TrimSpace raw in
  if HasPrefix raw "[" then
    match UnmarshalArgv raw with
    | Some (a :: argv) => a :: argv
    | _ => [raw]
    end
  else [raw].

(** [strings.EqualFold] against an ASCII word without [k] or [s]. *)
Fixpoint equalFold (s t : string) : bool :=
  match s, t with
  | EmptyString, EmptyString => true
  | String a s, String b t => (lower_rune (code a) =? lower_rune (code b))%N && equalFold s t
  | _, _ => false
  end.

Definition fromAnnotations (pod : HookPod) (phase : string) : option Resolved :=
  let prefix := if phase =? PhasePost then AnnotationPostBackupPrefix else AnnotationPreBackupPrefix in
  match hp_annotations pod !! (prefix ++ "command") with
  | None => None
  | Some raw =>
      if TrimSpace raw =? "" then None
      else
        let v := lget (hp_annotations pod) (prefix ++ "timeout") in
        let timeout :=
          if v =? "" then DefaultTimeout
          else match ParseDuration v with
               | Some d => if (0 <? d)%Z then d else DefaultTimeout
               | None => DefaultTimeout
               end in
        let onError :=
          if equalFold (lget (hp_annotations pod) (prefix ++ "on-error")) HookErrorPolicyContinue
          then HookErrorPolicyContinue else HookErrorPolicyFail in
        Some (mkResolved (hp_namespace pod) (hp_name pod)
                (defaultContainer pod (lget (hp_annotations pod) (prefix ++ "container")))
                (parseCommand raw) timeout onError SourceAnnotation phase "")
  end.

Definition fromSpec (pod : HookPod) (spec : HooksSpec) (phase : string) : list Resolved :=
  omap (fun h =>
    if negb (selectorMatches (hk_PodSelector h) (hp_labels pod)) then None
    else Some (mkResolved (hp_namespace pod) (hp_name pod) (defaultContainer pod (hk_Container h))
                 (hk_Command h)
                 (if (hk_Timeout h <=? 0)%Z then DefaultTimeout else hk_Timeout h)
                 (if hk_OnError h =? "" then HookErrorPolicyFail else hk_OnError h)
                 SourceSpec phase ""))
    (if phase =? PhasePost then Post spec else Pre spec).

Definition resolvePod (spec : HooksSpec) (phase : string) (pod : HookPod) : list Resolved :=
  if negb (hp_phase pod =? "Running") || hp_deleting pod then []
  else
    match (if HonorAnnotations spec then fromAnnotations pod phase else None) with
    | Some h => [h]
    | None => fromSpec pod spec phase
    end.

Definition with_sa (sa : string) (h : Resolved) : Resolved :=
  mkResolved (rh_PodNamespace h) (rh_PodName h) (rh_Container h) (rh_Command h) (rh_Timeout h)
    (rh_OnError h) (rh_Source h) (rh_Phase h) sa.

Definition Resolve (pods : list HookPod) (spec : HooksSpec) (phase : string) : list Resolved :=
  map (with_sa (ServiceAccountName spec)) (flat_map (resolvePod spec phase) pods).

(** ** internal/hooks: running a chain *)

(** The error of a hook: [ErrSkipped] is compared by identity. *)
Inductive hook_error := HookErr (e : gerr) | ErrSkipped.

Record HookResult := mkHookResult { hr_Hook : Resolved; hr_Err : option hook_error }.

Definition isSkipped (res : HookResult) : bool :=
  match hr_Err res with Some ErrSkipped => true | _ => false end.

Definition Aborts (res : HookResult) : bool :=
  match hr_Err res with
  | None => false
  | Some _ => negb (rh_OnError (hr_Hook res) =? HookErrorPolicyContinue)
  end.

Definition chainStopsOnAbort (phase : string) : bool := negb (phase =? PhasePost).

(** The executor: what running the [i]-th hook of the chain answers, with the
    timeout note already in the error. *)
Definition executor := nat -> Resolved -> option gerr.

Definition runOne (exec : executor) (i : nat) (h : Resolved) : HookResult :=
  match rh_Command h with
  | [] => mkHookResult h (Some (HookErr (errorf "hook has no command")))
  | _ => mkHookResult h (option_map HookErr (exec i h))
  end.

Fixpoint Run_from (exec : executor) (i : nat) (hooks : list Resolved) : list HookResult :=
  match hooks with
  | [] => []
  | h :: rest =>
      let res := runOne exec i h in
      if Aborts res && chainStopsOnAbort (rh_Phase h)
      then res :: map (fun skipped => mkHookResult skipped (Some ErrSkipped)) rest
      else res :: Run_from exec (S i) rest
  end.

Definition Run (exec : executor) (hooks : list Resolved) : list HookResult := Run_from exec 0 hooks.

(** ** internal/controller/hooks_phase.go *)

Definition postHookMaxAttempts : Z := 3.
Definition hookMessageLimit : nat := 1024.
Definition ConditionApplicationConsistent : string := "ApplicationConsistent".
Definition reasonQuiesced : string := "Quiesced".
Definition reasonCrashConsistent : string := "CrashConsistent".
Definition reasonReleasingAfterAbort : string := "ReleasingAfterAbortedQuiesce".

Context `{CS : ConditionStore}.

Record hookPhaseState := mkHookPhaseState {
  preRan : bool; aborted : bool; abortMessage : string
}.

Definition hookFailureTolerated (h : HookStatus) : bool := hs_OnError h =? HookErrorPolicyContinue.

Definition untolerated (h : HookStatus) : bool :=
  (hs_Result h =? HookFailed) && negb (hookFailureTolerated h).

Definition quiescedPodsFromStatus (b : Backup) : list string :=
  map hs_Pod (List.filter (fun h => (hs_Phase h =? PhasePre) && (hs_Result h =? HookSucceeded)) (b_hooks b)).

(** [None] for a nil set, which restricts nothing. *)
Definition restrictToPods (resolved : list Resolved) (owedTo : option (list string)) : list Resolved :=
  match owedTo with
  | None => resolved
  | Some pods => List.filter (fun h => existsb (String.eqb (rh_PodName h)) pods) resolved
  end.

Definition hookStateStep (st : hookPhaseState) (h : HookStatus) : hookPhaseState :=
  if negb (hs_Phase h =? PhasePre) then st
  else if untolerated h
  then mkHookPhaseState true true
         ("pre-backup hook failed in pod " ++ hs_Pod h ++ ": " ++ hs_Message h)
  else mkHookPhaseState true (aborted st) (abortMessage st).

Definition hookState (b : Backup) : hookPhaseState :=
  fold_left hookStateStep (b_hooks b) (mkHookPhaseState false false "").

(** The loop of [postHooksRan]: an owed attempt returns at once. *)
Fixpoint postSeen (hs : list HookStatus) (seen : bool) : bool :=
  match hs with
  | [] => seen
  | h :: hs =>
      if negb (hs_Phase h =? PhasePost) then postSeen hs seen
      else if untolerated h then false else postSeen hs true
  end.

Definition postHooksRan (b : Backup) : bool :=
  if (postHookMaxAttempts <=? st_PostHookAttempts (b_status b))%Z then true
  else postSeen (b_hooks b) false.

Definition snapshotsCut (volumes : list VolumeStatus) : bool :=
  forallb (fun v => negb (isPendingPhase (Phase v) || (Phase v =? VolumePhaseSnapshotting))) volumes.

Definition podMountsAny (claims : list string) (pod : HookPod) : bool :=
  existsb (fun c => existsb (String.eqb c) claims) (hp_claims pod).

Definition hookPhaseDeclared (spec : HooksSpec) (phase : string) : bool :=
  HonorAnnotations spec
  || (0 <? length (if (phase =? PhasePost)%string then Post spec else Pre spec))%nat.

(** What the outside answers to one end of the window. *)
Record hook_answers := mkHookAnswers {
  ha_now : Z;
  ha_pods : result (list HookPod);         (* List of the namespace's pods *)
  ha_executor : option executor;           (* r.Hooks, None for nil *)
  ha_update : option gerr                  (* r.Status().Update *)
}.

Definition resolveHooks (a : hook_answers) (namespace : string) (spec : HooksSpec)
    (volumes : list VolumeStatus) (phase : string) : result (list Resolved) :=
  if negb (hookPhaseDeclared spec phase) then Ok []
  else
    match ha_pods a with
    | Err e => Err (wrap_err ("list pods for hooks in " ++ namespace) e)
    | Ok pods => Ok (Resolve (List.filter (podMountsAny (map Pvc volumes)) pods) spec phase)
    end.

Definition recordHookResult (now : Z) (res : HookResult) : HookStatus * list call :=
  let h := hr_Hook res in
  let entry result message :=
    mkHookStatus (rh_Phase h) (rh_PodName h) (rh_Container h) (rh_Source h) result (rh_OnError h)
      message (Some now) in
  match hr_Err res with
  | None => (entry HookSucceeded "", [CEvent "Normal" "HookExecuted" "RunHooks"])
  | Some ErrSkipped => (entry HookSkipped "skipped: an earlier hook failed with onError=Fail", [])
  | Some (HookErr e) =>
      (entry HookFailed (truncate (err_text e) hookMessageLimit),
       [CEvent "Warning" "HookFailed" "RunHooks"])
  end.

Definition recordHookResults (now : Z) (results : list HookResult) : pass () :=
  fun b =>
    ((), set_hooks (b_hooks b ++ map (fun r => fst (recordHookResult now r)) results)%list
           (st_PostHookAttempts (b_status b)) b,
     flat_map (fun r => snd (recordHookResult now r)) results).

(** The tolerated failures of a pre chain, or [None] when the run is about to fail. *)
Fixpoint toleratedFailures (results : list HookResult) : option (list string) :=
  match results with
  | [] => Some []
  | res :: results =>
      match hr_Err res with
      | Some (HookErr e) =>
          if negb (rh_Phase (hr_Hook res) =? PhasePre) then toleratedFailures results
          else if Aborts res then None
          else option_map (cons ("pod " ++ rh_PodName (hr_Hook res) ++ " [" ++ rh_Container (hr_Hook res)
                 ++ "] (" ++ rh_Source (hr_Hook res) ++ "): " ++ err_text e)) (toleratedFailures results)
      | _ => toleratedFailures results
      end
  end.

Definition recordConsistencyVerdict (results : list HookResult) : pass () :=
  match toleratedFailures results with
  | None => ret ()
  | Some [] =>
      modify (set_condition ConditionApplicationConsistent ConditionTrue reasonQuiesced
        "every pre-backup hook succeeded: the snapshots are application-consistent")
  | Some tolerated =>
      let message := truncate ("THIS RESTORE POINT IS CRASH-CONSISTENT ONLY: "
        ++ Itoa (Z.of_nat (length tolerated)) ++ " pre-backup hook(s) failed and onError=Continue "
        ++ "tolerated the failure, so the snapshots were taken without the quiesce having happened — "
        ++ String.concat "; " tolerated) hookMessageLimit in
      modify (set_condition ConditionApplicationConsistent ConditionFalse reasonCrashConsistent message) ;;;
      do_call (CEvent "Warning" "ConsistencyDegraded" "RunHooks")
  end.

Definition hook_calls (phase : string) (resolved : list Resolved) : call :=
  CHook phase (map rh_PodName resolved).

(** [advancePreHooks]: whether the chain ran, or the error. *)
Definition advancePreHooks (a : hook_answers) (spec : HooksSpec) : pass (result bool) :=
  b <-- the_backup ;;
  match resolveHooks a (b_namespace b) spec (b_volumes b) PhasePre with
  | Err e => ret (Err e)
  | Ok [] => ret (Ok false)
  | Ok resolved =>
      match ha_executor a with
      | None => ret (Err (errorf ("hooks are configured for Backup " ++ b_namespace b ++ "/" ++ b_name b
                                   ++ " but no pod-exec executor is wired")))
      | Some exec =>
          do_call (hook_calls PhasePre resolved) ;;;
          (let results := Run exec resolved in
           recordHookResults (ha_now a) results ;;;
           recordConsistencyVerdict results ;;;
           ret (Ok true))
      end
  end.

Definition untoleratedResults (results : list HookResult) : nat :=
  countb (fun res => Aborts res && negb (isSkipped res)) results.

Definition dropHookPhase (phase : string) (entries : list HookStatus) : list HookStatus :=
  List.filter (fun e => negb (hs_Phase e =? phase)) entries.

Definition bump_attempts (b : Backup) : Backup :=
  set_hooks (b_hooks b) (st_PostHookAttempts (b_status b) + 1)%Z b.

Definition recordUnresolvedRelease : pass () :=
  modify bump_attempts ;;;
  b <-- the_backup ;;
  if (postHookMaxAttempts <=? st_PostHookAttempts (b_status b))%Z
  then do_call (CEvent "Warning" "UnfreezeFailed" "RunPostHooks")
  else do_call (CEvent "Warning" "HookFailed" "RunPostHooks").

Definition advancePostHooks (a : hook_answers) (spec : HooksSpec) (owedTo : option (list string))
    : pass (result bool) :=
  b <-- the_backup ;;
  match resolveHooks a (b_namespace b) spec (b_volumes b) PhasePost with
  | Err e => recordUnresolvedRelease ;;; ret (Err e)
  | Ok resolved =>
      match restrictToPods resolved owedTo, ha_executor a with
      | [], _ | _, None => ret (Ok false)
      | resolved, Some exec =>
          modify (fun b => bump_attempts (set_hooks (dropHookPhase PhasePost (b_hooks b))
                             (st_PostHookAttempts (b_status b)) b)) ;;;
          do_call (hook_calls PhasePost resolved) ;;;
          (let results := Run exec resolved in
           recordHookResults (ha_now a) results ;;;
           b <-- the_backup ;;
           (if (0 <? untoleratedResults results)%nat
            then if (postHookMaxAttempts <=? st_PostHookAttempts (b_status b))%Z
                 then do_call (CEvent "Warning" "UnfreezeFailed" "RunPostHooks")
                 else do_call (CEvent "Warning" "HookFailed" "RunPostHooks")
            else ret ()) ;;;
           ret (Ok true))
      end
  end.

(** *** The two ends *)

Definition update_error (b : Backup) (e : gerr) : gerr :=
  wrap_err ("update status for Backup " ++ b_namespace b ++ "/" ++ b_name b) e.

Definition setCompletionTime (now : Z) (b : Backup) : Backup :=
  match st_CompletionTime (b_status b) with
  | Some _ => b
  | None => set_times (st_BackupTime (b_status b)) (Some now) b
  end.

Definition setBackupTime (now : Z) (b : Backup) : Backup :=
  match st_BackupTime (b_status b) with
  | Some _ => b
  | None => set_times (Some now) (st_CompletionTime (b_status b)) b
  end.

(** [failHooks] of backup_controller.go. *)
Definition failHooks (a : hook_answers) (message : string) : pass (option gerr) :=
  b0 <-- the_backup ;;
  modify (fun b => set_condition ConditionReady ConditionFalse "PreHookFailed" message
            (setCompletionTime (ha_now a) (setBackupTime (ha_now a) (set_bphase BackupPhaseFailed b)))) ;;;
  err <-- status_update (ha_update a) ;;
  match err with
  | Some e => ret (Some (update_error b0 e))
  | None =>
      match st_BackupTime (b_status b0) with
      | None => do_call CTerminalMetrics
      | Some _ => ret ()
      end ;;;
      do_call (CEvent "Warning" "BackupFailed" "PreHookFailed") ;;;
      ret None
  end.

Definition postDeclared (spec : HooksSpec) : bool :=
  negb ((length (Post spec) =? 0)%nat && negb (HonorAnnotations spec)).

Definition releaseAbortedQuiesce (a : hook_answers) (spec : HooksSpec) : pass (bool * option gerr) :=
  b <-- the_backup ;;
  if postHooksRan b then ret (false, None)
  else if negb (postDeclared spec) then ret (false, None)
  else
    match quiescedPodsFromStatus b with
    | [] => ret (false, None)
    | frozen =>
        ran <-- advancePostHooks a spec (Some frozen) ;;
        match ran with
        | Err e => ret (true, Some e)
        | Ok false => ret (false, None)
        | Ok true => b <-- the_backup ;; ret (negb (postHooksRan b), None)
        end
    end.

Definition abortFreezeWindow (a : hook_answers) (st : hookPhaseState) (spec : HooksSpec)
    : pass (Result * option gerr) :=
  '(owed, releaseErr) <-- releaseAbortedQuiesce a spec ;;
  if negb owed then
    err <-- failHooks a (abortMessage st) ;; ret (noResult, err)
  else
    b <-- the_backup ;;
    modify (set_condition ConditionReady ConditionFalse reasonReleasingAfterAbort
      (truncate (abortMessage st ++ " — releasing the applications this run had already quiesced before the abort "
        ++ "(attempt " ++ Itoa (st_PostHookAttempts (b_status b)) ++ " of " ++ Itoa postHookMaxAttempts
        ++ "); the run will then be reported Failed") hookMessageLimit)) ;;;
    err <-- status_update (ha_update a) ;;
    match err with
    | Some e =>
        ret (noResult, join_errors
          (wrap_err ("record the post-abort release for Backup " ++ b_namespace b ++ "/" ++ b_name b) e
           :: match releaseErr with Some r => [r] | None => [] end))
    | None =>
        match releaseErr with
        | Some e => ret (noResult, Some e)
        | None => ret (RequeueAfter backupPollInterval, None)
        end
    end.

(** [Some (result, err)] when the window ends the pass. *)
Definition openFreezeWindow (a : hook_answers) (spec : HooksSpec)
    : pass (option (Result * option gerr)) :=
  b <-- the_backup ;;
  let st := hookState b in
  if aborted st then
    r <-- abortFreezeWindow a st spec ;; ret (Some r)
  else if preRan st then ret None
  else
    ran <-- advancePreHooks a spec ;;
    match ran with
    | Err e =>
        err <-- failHooks a ("the pre-backup quiesce could not be performed: "
                             ++ truncate (err_text e) hookMessageLimit) ;;
        ret (Some (noResult, err))
    | Ok false => ret None
    | Ok true =>
        modify (set_bphase BackupPhaseSnapshottingHooks) ;;;
        err <-- status_update (ha_update a) ;;
        match err with
        | Some e => ret (Some (noResult, Some (wrap_err ("record pre-backup hooks for Backup "
                                ++ b_namespace b ++ "/" ++ b_name b) e)))
        | None => ret (Some (mkResult true 0, None))
        end
    end.

Definition closeFreezeWindow (a : hook_answers) (spec : HooksSpec) : pass (bool * option gerr) :=
  b <-- the_backup ;;
  if postHooksRan b then ret (false, None)
  else if negb (postDeclared spec) then ret (false, None)
  else if negb (snapshotsCut (b_volumes b)) then ret (true, None)
  else
    ran <-- advancePostHooks a spec None ;;
    match ran with
    | Err e => ret (true, Some e)
    | Ok false => ret (false, None)
    | Ok true => b <-- the_backup ;; ret (negb (postHooksRan b), None)
    end.
End Resolution.

(** ** The chain *)

(** Whether the hooks before the [i]-th stop the chain. *)
Definition stopped_before (exec : executor) (hooks : list Resolved) (i : nat) : bool :=
  existsb (fun p => Aborts (runOne exec (fst p) (snd p)) && chainStopsOnAbort (rh_Phase (snd p)))
    (zip (seq 0 i) hooks).

Lemma runOne_hook exec i h : hr_Hook (runOne exec i h) = h.
Proof. unfold runOne. by destruct (rh_Command h). Qed.

Lemma Run_from_spec exec k hooks :
  map hr_Hook (Run_from exec k hooks) = hooks
  /\ forall i h, hooks !! i = Some h ->
       Run_from exec k hooks !! i =
         Some (if existsb (fun p => Aborts (runOne exec (fst p) (snd p))
                                    && chainStopsOnAbort (rh_Phase (snd p))) (zip (seq k i) hooks)
               then mkHookResult h (Some ErrSkipped) else runOne exec (k + i) h).
Proof.
  revert k. induction hooks as [|h0 hooks IH]; intros k; cbn; [split; [done|intros i h; by destruct i]|].
  destruct (Aborts (runOne exec k h0) && chainStopsOnAbort (rh_Phase h0)) eqn:E; cbn.
  - rewrite runOne_hook, map_map. cbn. rewrite map_id. split; [done|].
    intros [|i] h; cbn; [intros [= <-]; by rewrite Nat.add_0_r|]. intros Hh. rewrite E. cbn.
    pose proof (list_lookup_fmap (fun skipped => mkHookResult skipped (Some ErrSkipped)) hooks i) as Hf.
    change (hooks !! i = Some h) in Hh. rewrite Hh in Hf. exact Hf.
  - destruct (IH (S k)) as [Hm Hl]. rewrite runOne_hook, Hm. split; [done|].
    intros [|i] h; cbn; [intros [= <-]; by rewrite Nat.add_0_r|]. intros Hh. rewrite E. cbn.
    change (Run_from exec (S k) hooks !! i = Some (if existsb (fun p => Aborts (runOne exec (fst p) (snd p))
      && chainStopsOnAbort (rh_Phase (snd p))) (zip (seq (S k) i) hooks)
      then mkHookResult h (Some ErrSkipped) else runOne exec (k + S i) h)).
    rewrite (Hl _ _ Hh). by replace (k + S i) with (S k + i) by lia.
Qed.

(** A chain reports one result per hook, in order: a hook runs unless an
    earlier one of a stopping phase failed without tolerance, and then it is
    reported skipped; a chain of releases never stops. *)
Theorem Run_spec (exec : executor) (hooks : list Resolved) :
  map hr_Hook (Run exec hooks) = hooks
  /\ (forall i h, hooks !! i = Some h ->
        Run exec hooks !! i = Some (if stopped_before exec hooks i
                                    then mkHookResult h (Some ErrSkipped) else runOne exec i h))
  /\ ((forall h, h ∈ hooks -> rh_Phase h = PhasePost) -> forall i, stopped_before exec hooks i = false).
Proof.
  destruct (Run_from_spec exec 0 hooks) as [Hm Hl]. split; [done|]. split; [done|].
  intros Hp i. unfold stopped_before. apply existsb_none. intros [j h] Hin.
  apply elem_of_zip_r in Hin. cbn. rewrite (Hp _ Hin). apply andb_false_r.
Qed.

(** ** The window *)

Section Window.
Context `{CS : ConditionStore}.
Variable LabelSelectorAsSelector : LabelSelector -> option (labels -> bool).
Variable ParseDuration : string -> option Z.
Variable UnmarshalArgv : string -> option (list string).
Notation advancePostHooks := (advancePostHooks LabelSelectorAsSelector ParseDuration UnmarshalArgv).
Notation advancePreHooks := (advancePreHooks LabelSelectorAsSelector ParseDuration UnmarshalArgv).
Notation openFreezeWindow := (openFreezeWindow LabelSelectorAsSelector ParseDuration UnmarshalArgv).
Notation closeFreezeWindow := (closeFreezeWindow LabelSelectorAsSelector ParseDuration UnmarshalArgv).
Notation resolveHooks := (resolveHooks LabelSelectorAsSelector ParseDuration UnmarshalArgv).

(** The fields the window never touches. *)
Definition same_run (b b' : Backup) : Prop :=
  b_namespace b' = b_namespace b /\ b_name b' = b_name b /\ b_labels b' = b_labels b
  /\ b_annotations b' = b_annotations b /\ b_finalizers b' = b_finalizers b
  /\ b_spec b' = b_spec b /\ b_deleting b' = b_deleting b
  /\ b_volumes b' = b_volumes b /\ st_Manifests (b_status b') = st_Manifests (b_status b).

Definition attempts (b : Backup) : Z := st_PostHookAttempts (b_status b).

(** The only hook call among the records of a chain is the chain itself. *)
Lemma recorded_hooks now phase pods ph rhs results events :
  CHook ph pods ∈ (hook_calls phase rhs
    :: flat_map (fun r => snd (recordHookResult now r)) results ++ events)%list ->
  (forall c, c ∈ events -> match c with CHook _ _ => False | _ => True end) ->
  ph = phase /\ pods = map rh_PodName rhs.
Proof.
  intros [Heq|[Hin|Hin]%elem_of_app]%elem_of_cons He; [by injection Heq| |by specialize (He _ Hin)].
  rewrite list_elem_of_In in Hin. apply in_flat_map in Hin as (r & _ & Hr).
  unfold recordHookResult in Hr. destruct (hr_Err r) as [[]|]; cbn in Hr; intuition; discriminate.
Qed.

Lemma restrictToPods_owed resolved frozen p :
  p ∈ map rh_PodName (restrictToPods resolved (Some frozen)) -> p ∈ frozen.
Proof.
  intros (x & -> & Hx)%list_elem_of_fmap. cbn [restrictToPods] in Hx.
  rewrite list_elem_of_In in Hx. apply filter_In in Hx as [_ Hx].
  by apply existsb_elem in Hx as (y & Hy & ->%String.eqb_eq).
Qed.

(** What one release attempt does to the object. *)
Lemma advancePostHooks_spec a spec owedTo b :
  let '(res, b', calls) := advancePostHooks a spec owedTo b in
  same_run b b' /\ b_phase b' = b_phase b
  /\ attempts b' = (attempts b + match res with Ok false => 0 | _ => 1 end)%Z
  /\ (res = Ok false -> b' = b /\ calls = [])
  /\ (forall phase pods, CHook phase pods ∈ calls -> phase = PhasePost /\
        match owedTo with None => True | Some frozen => forall p, p ∈ pods -> p ∈ frozen end).
Proof.
  unfold Hooks.advancePostHooks, bind, the_backup, ret, modify, do_call.
  destruct (resolveHooks a (b_namespace b) spec (b_volumes b) PhasePost) as [resolved|e] eqn:Er.
  - destruct (restrictToPods resolved owedTo) as [|h hs] eqn:Ep; [by cbn; split_and!; try lia; try set_solver|].
    destruct (ha_executor a) as [exec|]; [|by cbn; split_and!; try lia; try set_solver].
    unfold recordHookResults. cbn -[Run recordHookResult].
    destruct (untoleratedResults (Run exec (h :: hs)));
      [|destruct (postHookMaxAttempts <=? _)%Z]; cbn -[Run recordHookResult];
      (split_and!; try done; []);
      intros phase pods Hin; (apply recorded_hooks in Hin as [-> ->]; [|set_solver]);
      (split; [done|]); destruct owedTo as [frozen|]; try done;
      intros p Hp; rewrite <-Ep in Hp; by eapply restrictToPods_owed.
  - unfold recordUnresolvedRelease, bind, modify, the_backup, do_call. cbn.
    destruct (_ <=? _)%Z; cbn; split_and!; try done; set_solver.
Qed.

Lemma same_run_refl b : same_run b b.
Proof. by repeat split. Qed.

Lemma same_run_trans b1 b2 b3 : same_run b1 b2 -> same_run b2 b3 -> same_run b1 b3.
Proof. unfold same_run. intros H1 H2. repeat destruct H1 as [? H1], H2 as [? H2]. split_and!; congruence. Qed.

Lemma run_bind {A B} (m : pass A) (f : A -> pass B) b x b1 l1 :
  m b = (x, b1, l1) -> bind m f b = (fst (f x b1), (l1 ++ snd (f x b1))%list).
Proof. intros H. unfold bind. rewrite H. by destruct (f x b1) as [[y b2] l2]. Qed.

Lemma run_the_backup {B} (f : Backup -> pass B) b : bind the_backup f b = f b b.
Proof. unfold bind, the_backup. by destruct (f b b) as [[y b2] l2]. Qed.

(** The releases left before the window is given up. *)
Definition release_budget (b : Backup) : nat := Z.to_nat (postHookMaxAttempts - attempts b).

(** The release is bounded: while a run is held open because a release is
    owed and every snapshot is cut, each pass uses up one of at most three
    attempts; nothing is released while a snapshot is still to be cut; and an
    error always leaves the release owed. *)
Theorem closeFreezeWindow_spec (a : hook_answers) (spec : HooksSpec) (b : Backup) :
  let '(owed, err, b', calls) := closeFreezeWindow a spec b in
  same_run b b' /\ b_phase b' = b_phase b
  /\ (owed = true -> snapshotsCut (b_volumes b) = true -> release_budget b' < release_budget b)
  /\ (snapshotsCut (b_volumes b) = false -> b' = b /\ calls = [])
  /\ (err <> None -> owed = true).
Proof.
  unfold Hooks.closeFreezeWindow. rewrite run_the_backup.
  destruct (postHooksRan b) eqn:Er; [cbn; split_and!; try done; apply same_run_refl|].
  destruct (negb (postDeclared spec)); [cbn; split_and!; try done; apply same_run_refl|].
  destruct (snapshotsCut (b_volumes b)) eqn:Ec; cbn [negb]; [|cbn; split_and!; try done; apply same_run_refl].
  assert (attempts b < postHookMaxAttempts)%Z as Hlt.
  { unfold postHooksRan in Er. unfold attempts. destruct (Z.leb_spec postHookMaxAttempts (st_PostHookAttempts (b_status b))); [done|lia]. }
  pose proof (advancePostHooks_spec a spec None b) as Hs.
  destruct (advancePostHooks a spec None b) as [[res b'] calls] eqn:Ea.
  rewrite (run_bind _ _ _ _ _ _ Ea). destruct Hs as (Hsame & Hph & Hatt & _ & _).
  assert (res <> Ok false -> release_budget b' < release_budget b) as Hb.
  { intros Hr. unfold release_budget. rewrite Hatt. destruct res as [[]|]; try done; lia. }
  destruct res as [[]|e]; cbn; split_and!; try done; intros _ _; by apply Hb.
Qed.

Lemma failHooks_same a message b :
  let '(err, b', calls) := failHooks a message b in
  same_run b b' /\ (forall phase pods, CHook phase pods ∉ calls).
Proof.
  unfold failHooks, bind, the_backup, modify, status_update, do_call, ret, setCompletionTime, setBackupTime.
  cbn. destruct (st_BackupTime (b_status b)) eqn:E1, (st_CompletionTime (b_status b)) eqn:E2,
    (ha_update a); cbn; rewrite ?E1, ?E2; cbn; (split; [by repeat split|]); set_solver.
Qed.

Lemma releaseAborted_spec a spec b :
  let '(r, b', calls) := releaseAbortedQuiesce LabelSelectorAsSelector ParseDuration UnmarshalArgv a spec b in
  same_run b b'
  /\ (forall phase pods, CHook phase pods ∈ calls ->
        phase = PhasePost /\ forall p, p ∈ pods -> p ∈ quiescedPodsFromStatus b).
Proof.
  unfold releaseAbortedQuiesce. rewrite run_the_backup.
  destruct (postHooksRan b); [cbn; split; [apply same_run_refl|set_solver]|].
  destruct (negb (postDeclared spec)); [cbn; split; [apply same_run_refl|set_solver]|].
  destruct (quiescedPodsFromStatus b) as [|f fs] eqn:Ef; [cbn; split; [apply same_run_refl|set_solver]|].
  pose proof (advancePostHooks_spec a spec (Some (f :: fs)) b) as Hs.
  destruct (advancePostHooks a spec (Some (f :: fs)) b) as [[res b'] calls] eqn:Ea.
  rewrite (run_bind _ _ _ _ _ _ Ea). destruct Hs as (Hsame & _ & _ & _ & Hh).
  destruct res as [[]|e]; cbn; rewrite ?app_nil_r; by split.
Qed.

Lemma advancePreHooks_same a spec b :
  let '(r, b', calls) := advancePreHooks a spec b in
  same_run b b' /\ b_phase b' = b_phase b
  /\ (r = Ok false -> b' = b /\ calls = []
      /\ resolveHooks a (b_namespace b) spec (b_volumes b) PhasePre = Ok []).
Proof.
  unfold Hooks.advancePreHooks. rewrite run_the_backup.
  destruct (resolveHooks a (b_namespace b) spec (b_volumes b) PhasePre) as [[|h hs]|e] eqn:Eres;
    [by cbn|destruct (ha_executor a) as [exec|]; [|by cbn]|by cbn].
  unfold recordConsistencyVerdict, recordHookResults, bind, modify, do_call, ret.
  destruct (toleratedFailures (Run exec (h :: hs))) as [[|x xs]|];
    cbn -[Run recordHookResult]; by repeat split.
Qed.

Lemma abortFreezeWindow_spec a st spec b :
  let '(r, b', calls) := abortFreezeWindow LabelSelectorAsSelector ParseDuration UnmarshalArgv a st spec b in
  same_run b b'
  /\ (forall phase pods, CHook phase pods ∈ calls ->
        phase = PhasePost /\ forall p, p ∈ pods -> p ∈ quiescedPodsFromStatus b).
Proof.
  unfold abortFreezeWindow. pose proof (releaseAborted_spec a spec b) as Hr.
  destruct (releaseAbortedQuiesce _ _ _ a spec b) as [[[owed rerr] b1] l1] eqn:Er.
  destruct Hr as [Hsame Hh]. rewrite (run_bind _ _ _ _ _ _ Er). destruct owed; cbn [negb].
  - unfold bind, the_backup, modify, status_update, ret. cbn.
    destruct (ha_update a); [|destruct rerr]; cbn; (split; [done|]);
      intros phase pods [Hin|Hin]%elem_of_app; auto; set_solver.
  - pose proof (failHooks_same a (abortMessage st) b1) as Hf.
    unfold bind, ret. destruct (failHooks a _ b1) as [[err b2] l2]. destruct Hf as [Hsame2 Hn]. cbn.
    split; [by eapply same_run_trans|]. intros phase pods. rewrite app_nil_r.
    intros [Hin|Hin]%elem_of_app; [by apply Hh|by destruct (Hn phase pods)].
Qed.

Lemma hookState_fold hs st :
  aborted (fold_left hookStateStep hs st)
  = aborted st || existsb (fun h => (hs_Phase h =? PhasePre) && untolerated h) hs.
Proof.
  revert st. induction hs as [|h hs IH]; intros st; cbn; [by rewrite orb_false_r|].
  rewrite IH. unfold hookStateStep. destruct (hs_Phase h =? PhasePre); cbn; [|done].
  destruct (untolerated h); cbn; [by rewrite orb_true_r|done].
Qed.

Lemma preRan_fold hs st :
  preRan (fold_left hookStateStep hs st) = preRan st || existsb (fun h => hs_Phase h =? PhasePre) hs.
Proof.
  revert st. induction hs as [|h hs IH]; intros st; cbn; [by rewrite orb_false_r|].
  rewrite IH. unfold hookStateStep. destruct (hs_Phase h =? PhasePre); cbn; [|done].
  destruct (untolerated h); cbn; by rewrite orb_true_r.
Qed.

(** What the recorded entries say of the quiesce. *)
Lemma quiesced_entries b :
  aborted (hookState b) = false -> preRan (hookState b) = true ->
  (exists h, h ∈ b_hooks b /\ hs_Phase h = PhasePre)
  /\ forall h, h ∈ b_hooks b -> hs_Phase h = PhasePre -> hs_Result h = HookFailed -> hs_OnError h = HookErrorPolicyContinue.
Proof.
  unfold hookState. rewrite hookState_fold, preRan_fold. cbn [aborted preRan orb]. intros Ha Hp. split.
  - apply existsb_elem in Hp as (h & Hh & Hp). exists h. split; [done|]. by apply String.eqb_eq.
  - intros h Hh Hph Hr. apply existsb_none with (x := h) in Ha; [|done].
    unfold untolerated, hookFailureTolerated in Ha. rewrite Hph, Hr, !String.eqb_refl in Ha. cbn in Ha.
    by apply negb_false_iff, String.eqb_eq in Ha.
Qed.

(** The entry that is recorded for the answer of one hook. *)
Definition recordedEntry (a : hook_answers) (res : HookResult) : HookStatus := fst (recordHookResult (ha_now a) res).

(** A pass that runs the chain records one entry for each hook of it. *)
Lemma advancePreHooks_records a spec b resolved exec :
  resolveHooks a (b_namespace b) spec (b_volumes b) PhasePre = Ok resolved -> resolved <> [] -> ha_executor a = Some exec ->
  let '(r, b', calls) := advancePreHooks a spec b in
  r = Ok true /\ b_hooks b' = (b_hooks b ++ map (recordedEntry a) (Run exec resolved))%list
  /\ map hr_Hook (Run exec resolved) = resolved /\ CHook PhasePre (map rh_PodName resolved) ∈ calls.
Proof.
  intros Hr Hne He. unfold Hooks.advancePreHooks. rewrite run_the_backup, Hr, He.
  destruct resolved as [|h hs]; [done|]. pose proof (proj1 (Run_from_spec exec 0 (h :: hs))) as Hm. fold (Run exec (h :: hs)) in Hm.
  unfold recordConsistencyVerdict, recordHookResults, bind, modify, do_call, ret, hook_calls.
  destruct (toleratedFailures (Run exec (h :: hs))) as [[|x xs]|];
    cbn -[Run recordHookResult]; (split_and!; [done|done|exact Hm|by left]).
Qed.

(** C36. No snapshot without its quiesce. A pass goes on to the volumes only in two
    cases, and then it changed and called nothing: no pre hook applies to the claims;
    or the run's status already holds an entry of a pre hook, and every pre entry in it that
    failed is one whose onError tolerates it. A pass that finds a chain to run (nothing
    recorded yet, an executor wired) calls it, adds one entry for every hook of the
    chain to the status, also for those that were skipped, and ends there: the volumes are
    left to a later pass, which decides by those entries. A quiesce with an untolerated
    failure always ends the pass, and what is then called are post hooks, in pods whose pre hook
    had succeeded. *)
Theorem openFreezeWindow_spec (a : hook_answers) (spec : HooksSpec) (b : Backup) :
  let '(r, b', calls) := openFreezeWindow a spec b in
  same_run b b'
  /\ (r = None -> b' = b /\ calls = []
        /\ (((exists h, h ∈ b_hooks b /\ hs_Phase h = PhasePre)
             /\ forall h, h ∈ b_hooks b -> hs_Phase h = PhasePre -> hs_Result h = HookFailed ->
                  hs_OnError h = HookErrorPolicyContinue)
            \/ (aborted (hookState b) = false
                /\ resolveHooks a (b_namespace b) spec (b_volumes b) PhasePre = Ok [])))
  /\ (aborted (hookState b) = false -> preRan (hookState b) = false ->
      forall resolved exec, resolveHooks a (b_namespace b) spec (b_volumes b) PhasePre = Ok resolved -> resolved <> [] ->
        ha_executor a = Some exec ->
        r <> None /\ b_hooks b' = (b_hooks b ++ map (recordedEntry a) (Run exec resolved))%list
        /\ map hr_Hook (Run exec resolved) = resolved /\ CHook PhasePre (map rh_PodName resolved) ∈ calls)
  /\ (aborted (hookState b) = true -> r <> None
        /\ forall phase pods, CHook phase pods ∈ calls ->
             phase = PhasePost /\ forall p, p ∈ pods -> p ∈ quiescedPodsFromStatus b).
Proof.
  unfold Hooks.openFreezeWindow. rewrite run_the_backup.
  destruct (aborted (hookState b)) eqn:Eab.
  - pose proof (abortFreezeWindow_spec a (hookState b) spec b) as Hr.
    destruct (abortFreezeWindow _ _ _ a (hookState b) spec b) as [[r b1] l1] eqn:Er.
    rewrite (run_bind _ _ _ _ _ _ Er). cbn. rewrite app_nil_r. destruct Hr. by split_and!.
  - destruct (preRan (hookState b)) eqn:Ep.
    { cbn. split; [apply same_run_refl|]. split; [|done]. intros _. split_and!; try done. left. by apply quiesced_entries. }
    pose proof (advancePreHooks_same a spec b) as Hpre. pose proof (advancePreHooks_records a spec b) as Hrec.
    destruct (advancePreHooks a spec b) as [[ran b1] l1] eqn:Ea. destruct Hpre as (Hsame & Hn & Hok).
    rewrite (run_bind _ _ _ _ _ _ Ea). destruct ran as [[]|e].
    + unfold bind, modify, status_update, ret. cbn.
      destruct (ha_update a); cbn; (split_and!; [done|done| |done]); intros _ _ resolved exec H1 H2 H3;
        destruct (Hrec _ _ H1 H2 H3) as (_ & Hh & Hm & Hc); (split_and!; [done|exact Hh|done|]); apply elem_of_app; by left.
    + destruct (Hok eq_refl) as (-> & -> & Hres). cbn. split_and!; try done. { intros _. split_and!; try done. by right. }
      intros _ _ resolved exec H1 H2 _. congruence.
    + match goal with |- context [failHooks a ?m] => pose proof (failHooks_same a m b1) as Hf;
        unfold bind, ret; destruct (failHooks a m b1) as [[err b2] l2] end. cbn.
      destruct Hf as [Hf _]. split_and!; try done; [by eapply same_run_trans|].
      intros _ _ resolved exec H1 H2 H3. by destruct (Hrec _ _ H1 H2 H3).
Qed.
End Window.

(** ** The verdict *)

Section Verdict.
Context {CS : ConditionStore} {CSL : ConditionStoreLaws CS}.

Definition failed_untolerated (res : HookResult) : bool := Aborts res && negb (isSkipped res).
Definition failed_tolerated (res : HookResult) : bool :=
  match hr_Err res with Some (HookErr _) => negb (Aborts res) | _ => false end.

Lemma record_untolerated now res :
  rh_Phase (hr_Hook res) = PhasePre ->
  let h := fst (recordHookResult now res) in
  (hs_Phase h =? PhasePre) && untolerated h = failed_untolerated res.
Proof.
  intros Hp. unfold recordHookResult, failed_untolerated, Aborts, isSkipped, untolerated, hookFailureTolerated.
  destruct (hr_Err res) as [[e|]|]; cbn; rewrite Hp; cbn; by rewrite ?andb_true_r, ?andb_false_r.
Qed.

Lemma toleratedFailures_spec results :
  (forall res, res ∈ results -> rh_Phase (hr_Hook res) = PhasePre) ->
  match toleratedFailures results with
  | None => existsb failed_untolerated results = true
  | Some [] => existsb failed_untolerated results = false /\ existsb failed_tolerated results = false
  | Some _ => existsb failed_untolerated results = false /\ existsb failed_tolerated results = true
  end.
Proof.
  induction results as [|res results IH]; intros Hp; [done|].
  assert (rh_Phase (hr_Hook res) = PhasePre) as Hres by (apply Hp; left).
  specialize (IH (fun r Hr => Hp r (list_elem_of_further _ _ _ Hr))).
  cbn. destruct (hr_Err res) as [[e|]|] eqn:Ee.
  - rewrite Hres. change (negb (PhasePre =? PhasePre)) with false. cbv iota.
    assert (failed_untolerated res = Aborts res /\ failed_tolerated res = negb (Aborts res)) as [-> ->].
    { unfold failed_untolerated, failed_tolerated, isSkipped. by rewrite Ee, andb_true_r. }
    destruct (Aborts res); cbn; [done|].
    destruct (toleratedFailures results) as [[|]|]; cbn; [..|done]; by destruct IH as [-> _].
  - assert (failed_untolerated res = false /\ failed_tolerated res = false) as [-> ->]; [|exact IH].
    unfold failed_untolerated, failed_tolerated, isSkipped. by rewrite Ee, andb_false_r.
  - assert (failed_untolerated res = false /\ failed_tolerated res = false) as [-> ->]; [|exact IH].
    unfold failed_untolerated, failed_tolerated, Aborts. by rewrite Ee.
Qed.

(** What a restore point claims is what happened: after the first pre chain,
    the run is marked aborted exactly when a hook failed without tolerance; else
    [ApplicationConsistent] is True when nothing failed, and False, with the
    reason CrashConsistent, when a failure was tolerated. *)
Theorem consistency_verdict (now : Z) (results : list HookResult) (b : Backup)
    (Hpre : forall res, res ∈ results -> rh_Phase (hr_Hook res) = PhasePre)
    (Hfirst : aborted (hookState b) = false) :
  let '(_, b', _) := (recordHookResults now results ;;; recordConsistencyVerdict results) b in
  aborted (hookState b') = existsb failed_untolerated results
  /\ (existsb failed_untolerated results = false ->
      exists c, FindCondition (st_Conditions (b_status b')) ConditionApplicationConsistent = Some c
        /\ c_status c = (if existsb failed_tolerated results then ConditionFalse else ConditionTrue)
        /\ c_reason c = (if existsb failed_tolerated results then reasonCrashConsistent else reasonQuiesced)).
Proof.
  pose proof (toleratedFailures_spec results Hpre) as Ht.
  assert (forall l : list HookResult, (forall res, res ∈ l -> rh_Phase (hr_Hook res) = PhasePre) ->
    existsb (fun h => (hs_Phase h =? PhasePre) && untolerated h)
      (map (fun r => fst (recordHookResult now r)) l) = existsb failed_untolerated l) as Hmap.
  { induction l as [|r l IH]; intros Hl; [done|]. cbn [map existsb].
    rewrite record_untolerated by (apply Hl; left). rewrite IH; [done|]. intros x Hx. apply Hl. by right. }
  assert (forall b', b_hooks b' = (b_hooks b ++ map (fun r => fst (recordHookResult now r)) results)%list ->
    aborted (hookState b') = existsb failed_untolerated results) as Hab.
  { intros b' Hb. unfold hookState in *. rewrite Hb, hookState_fold, existsb_app, Hmap by done.
    rewrite hookState_fold in Hfirst. cbn in Hfirst |- *. by rewrite Hfirst. }
  unfold recordConsistencyVerdict, recordHookResults, bind, modify, do_call, ret.
  destruct (toleratedFailures results) as [[|x xs]|]; cbn -[recordHookResult hookState truncate];
    (split; [by apply Hab|]).
  - destruct Ht as [_ ->]. intros _.
    destruct (FindCondition_SetCondition (st_Conditions (b_status b)) ConditionApplicationConsistent
      ConditionTrue reasonQuiesced "every pre-backup hook succeeded: the snapshots are application-consistent"
      (b_generation b)) as [t Hf]. eexists. split; [exact Hf|]. done.
  - destruct Ht as [_ ->]. intros _.
    match goal with |- context [SetCondition ?cs ?t ?s ?r ?m ?g] =>
      destruct (FindCondition_SetCondition cs t s r m g) as [tr Hf] end.
    eexists. split; [exact Hf|]. done.
  - rewrite Ht. done.
Qed.
End Verdict.

(** ** Witnesses *)

Definition wit_hook (pod : string) (onError : string) : Resolved :=
  mkResolved "team" pod "db" ["fsfreeze"] DefaultTimeout onError SourceSpec PhasePre "".

Lemma consistency_verdict_witness :
  let results := [mkHookResult (wit_hook "p" "Continue") (Some (HookErr (errorf "exit 1")))] in
  let b := @mkBackup MapConditionStore "team" "nightly" 1 0 false ∅ ∅ [] (mkBackupSpec "" "" "" None)
             (@mkBackupStatus MapConditionStore "" None None None [] [] 0 ∅) in
  let '(_, b', _) := (recordHookResults 0 results ;;; recordConsistencyVerdict results) b in
  aborted (hookState b') = false
  /\ (existsb failed_untolerated results = false ->
      exists c, FindCondition (st_Conditions (b_status b')) ConditionApplicationConsistent = Some c
        /\ c_status c = ConditionFalse /\ c_reason c = reasonCrashConsistent).
Proof.
  apply (consistency_verdict (CS := MapConditionStore) 0
    [mkHookResult (wit_hook "p" "Continue") (Some (HookErr (errorf "exit 1")))]
    (@mkBackup MapConditionStore "team" "nightly" 1 0 false ∅ ∅ [] (mkBackupSpec "" "" "" None)
             (@mkBackupStatus MapConditionStore "" None None None [] [] 0 ∅))).
  - intros res Hres. apply list_elem_of_singleton in Hres as ->. reflexivity.
  - reflexivity.
Defined.
