(* ===== verification/Calendar.v ===== *)
(** * Calendar: run names and the instants they carry
    (internal/apiconst/apiconst.go [RunName], internal/controller/clusterbackupschedule_controller.go
    [parseRunTick])

    The name of a scheduled run ends in its activation, written YYYYMMDD-HHMMSS in
    UTC; a schedule recovers from it the instant up to which it has fired.  What
    the two use of Go's [time] package, the civil calendar, [Format] and [Parse] of
    that layout, is written out. *)

From S2P Require Import Prelude GoText.
From Stdlib Require Import Ascii String.

#[local] Open Scope string_scope.
#[local] Open Scope Z_scope.

(** ** The civil calendar *)

Definition isLeap (year : Z) : bool :=
  (year mod 4 =? 0) && (negb (year mod 100 =? 0) || (year mod 400 =? 0)).

(** Days of a year before each month, the leap day aside. *)
Definition daysBefore (month : Z) : Z :=
  nth (Z.to_nat (month - 1)) [0; 31; 59; 90; 120; 151; 181; 212; 243; 273; 304; 334] 365.

Definition daysIn (month year : Z) : Z :=
  if (month =? 2) && isLeap year then 29
  else nth (Z.to_nat (month - 1)) [31; 28; 31; 30; 31; 30; 31; 31; 30; 31; 30; 31] 0.

(** Days from the first of January of year 1 to the first of January of [year]. *)
Definition daysToYear (year : Z) : Z :=
  let y := year - 1 in 365 * y + y / 4 - y / 100 + y / 400.

Definition dateToDays (year month day : Z) : Z :=
  daysToYear year + daysBefore month + (if isLeap year && (2 <? month) then 1 else 0) + (day - 1).

(** The year and the day of the year, by cycles of 400, 100, 4 and 1 years; the
    last day of a cycle of 100 years, and of 1 year, falls past its quotient. *)
Definition yearDay (d : Z) : Z * Z :=
  let n400 := d / 146097 in let d := d mod 146097 in
  let n100 := Z.min (d / 36524) 3 in let d := d - n100 * 36524 in
  let n4 := d / 1461 in let d := d - n4 * 1461 in
  let n1 := Z.min (d / 365) 3 in let d := d - n1 * 365 in
  (400 * n400 + 100 * n100 + 4 * n4 + n1 + 1, d).

(** The month and day of a day of a common year. *)
Definition commonMonthDay (yday : Z) : Z * Z :=
  let month := yday / 31 in
  if daysBefore (month + 2) <=? yday
  then (month + 2, yday - daysBefore (month + 2) + 1)
  else (month + 1, yday - daysBefore (month + 1) + 1).

Definition monthDay (leap : bool) (yday : Z) : Z * Z :=
  if leap then
    if yday =? 59 then (2, 29) else commonMonthDay (if 59 <? yday then yday - 1 else yday)
  else commonMonthDay yday.

(** Year, month and day of a day counted from the first of January of year 1. *)
Definition civil (d : Z) : Z * Z * Z :=
  let '(year, yday) := yearDay d in
  let '(month, day) := monthDay (isLeap year) yday in (year, month, day).

Definition unixToInternal : Z := 719162.   (* days from year 1 to the Unix epoch *)

(** ** Format *)

Fixpoint zeros (n : nat) : string := match n with O => "" | S n => String "0" (zeros n) end.

(** [appendInt(b, x, width)]: decimal, padded with zeros after the sign. *)
Definition appendInt (x : Z) (width : nat) : string :=
  let u := Itoa (Z.abs x) in
  ((if (x <? 0)%Z then "-" else "") ++ zeros (width - slen u) ++ u)%string.

Definition daySeconds : Z := 86400.

(** [t.UTC().Format("20060102-150405")]. *)
Definition FormatRunTimestamp (t : Z) : string :=
  let s := t / second in
  let '(year, month, day) := civil (s / daySeconds + unixToInternal) in
  let c := s mod daySeconds in
  (appendInt year 4 ++ appendInt month 2 ++ appendInt day 2 ++ "-" ++
   appendInt (c / 3600) 2 ++ appendInt (c / 60 mod 60) 2 ++ appendInt (c mod 60) 2)%string.

Definition RunName (schedule : string) (t : Z) : string :=
  (schedule ++ "-" ++ FormatRunTimestamp t)%string.

(** [t.UTC().Format(time.RFC3339)]. *)
Definition FormatRFC3339 (t : Z) : string :=
  let s := t / second in
  let '(year, month, day) := civil (s / daySeconds + unixToInternal) in
  let c := s mod daySeconds in
  (appendInt year 4 ++ "-" ++ appendInt month 2 ++ "-" ++ appendInt day 2 ++ "T" ++
   appendInt (c / 3600) 2 ++ ":" ++ appendInt (c / 60 mod 60) 2 ++ ":" ++ appendInt (c mod 60) 2 ++ "Z")%string.

(** [d.Round(time.Second)], half away from zero; it saturates as Go's does. *)
Definition RoundSecond (d : Z) : Z :=
  let r := Z.rem (Z.abs d) second in
  let m := if 2 * r <? second then Z.abs d - r else Z.abs d + second - r in
  if d <? 0 then Z.max (- 2 ^ 63) (- m) else Z.min (2 ^ 63 - 1) m.

(** [d.Truncate(time.Second)]. *)
Definition TruncateSecond (d : Z) : Z := d - Z.rem d second.

(** [d.String()] of a duration of at least a second with no fraction, or zero: all
    the durations the program prints, short of 292 years. *)
Definition DurationString (d : Z) : string :=
  if d =? 0 then "0s"
  else
    let s := Z.abs d / second in
    let m := s / 60 in
    ((if (d <? 0)%Z then "-" else "")
     ++ (if (0 <? m)%Z
         then (if (0 <? m / 60)%Z then Itoa (m / 60) ++ "h" else "") ++ Itoa (m mod 60) ++ "m"
         else "")
     ++ Itoa (s mod 60) ++ "s")%string.

(** ** Parse *)

Definition digit (a : ascii) : option Z :=
  let c := Z.of_N (code a) in if (48 <=? c) && (c <=? 57) then Some (c - 48) else None.

(** [getnum]: one digit or two, two when [fixed]. *)
Definition getnum (s : string) (fixed : bool) : option (Z * string) :=
  match s with
  | EmptyString => None
  | String a s1 =>
      match digit a with
      | None => None
      | Some x =>
          match s1 with
          | String b s2 =>
              match digit b with
              | Some y => Some (x * 10 + y, s2)
              | None => if fixed then None else Some (x, s1)
              end
          | EmptyString => if fixed then None else Some (x, s1)
          end
      end
  end.

(** [stdLongYear]: four digits. *)
Definition getyear (s : string) : option (Z * string) :=
  match getnum s true with
  | Some (hi, s) => match getnum s true with Some (lo, s) => Some (hi * 100 + lo, s) | None => None end
  | None => None
  end.

Definition skip_byte (c : ascii) (s : string) : option string :=
  match s with String a s => if Ascii.eqb a c then Some s else None | EmptyString => None end.

(** A fraction of a second after the seconds is accepted though the layout has
    none: its digits, the first nine of which count, and what follows. *)
Fixpoint digits (s : string) : list Z * string :=
  match s with
  | String a s' => match digit a with Some x => let '(l, r) := digits s' in (x :: l, r) | None => ([], s) end
  | EmptyString => ([], s)
  end.

Definition nanoseconds (ds : list Z) : Z :=
  fold_left (fun n d => n * 10 + d) (take 9 (ds ++ repeat 0 9)) 0.

Definition fraction (s : string) : Z * string :=
  match s with
  | String a s' =>
      if Ascii.eqb a "." || Ascii.eqb a "," then
        match digits s' with
        | ([], _) => (0, s)
        | (ds, rest) => (nanoseconds ds, rest)
        end
      else (0, s)
  | EmptyString => (0, s)
  end.

Definition inRange (lo hi : Z) (r : option (Z * string)) : option (Z * string) :=
  match r with Some (x, s) => if (lo <=? x) && (x <? hi) then r else None | None => None end.

(** [time.ParseInLocation("20060102-150405", s, time.UTC)]. *)
Definition ParseRunTimestamp (s : string) : option Z :=
  match getyear s with None => None | Some (year, s) =>
  match inRange 1 13 (getnum s true) with None => None | Some (month, s) =>
  match getnum s true with None => None | Some (day, s) =>
  match skip_byte "-" s with None => None | Some s =>
  match inRange 0 24 (getnum s false) with None => None | Some (hour, s) =>
  match inRange 0 60 (getnum s true) with None => None | Some (min, s) =>
  match inRange 0 60 (getnum s true) with None => None | Some (sec, s) =>
  let '(nsec, s) := fraction s in
  if negb (s =? "")%string then None
  else if (day <? 1) || (daysIn month year <? day) then None
  else Some (((dateToDays year month day - unixToInternal) * daySeconds
              + hour * 3600 + min * 60 + sec) * second + nsec)
  end end end end end end end.

(** [parseRunTick]: the activation a run name carries, if it is one of this
    schedule's. *)
Definition parseRunTick (scheduleName runName : string) : option Z :=
  let prefix := (scheduleName ++ "-")%string in
  if (runName =? "")%string || negb (HasPrefix runName prefix) then None
  else ParseRunTimestamp (sdrop (slen prefix) runName).

(** ** The calendar inverts *)

Lemma year_parts a b c e :
  0 <= b <= 3 -> 0 <= c <= 24 -> 0 <= e <= 3 ->
  daysToYear (400 * a + 100 * b + 4 * c + e + 1) = 146097 * a + 36524 * b + 1461 * c + 365 * e
  /\ isLeap (400 * a + 100 * b + 4 * c + e + 1) = (e =? 3) && (negb (c =? 24) || (b =? 3)).
Proof.
  intros Hb Hc He. unfold daysToYear, isLeap. cbv zeta. split.
  - replace (400 * a + 100 * b + 4 * c + e + 1 - 1) with (400 * a + 100 * b + 4 * c + e) by lia.
    Z.to_euclidean_division_equations. lia.
  - assert ((400 * a + 100 * b + 4 * c + e + 1) mod 4 =? 0 = (e =? 3)) as ->
      by (Z.to_euclidean_division_equations; lia).
    assert ((400 * a + 100 * b + 4 * c + e + 1) mod 100 =? 0 = (e =? 3) && (c =? 24)) as ->
      by (Z.to_euclidean_division_equations; lia).
    assert ((400 * a + 100 * b + 4 * c + e + 1) mod 400 =? 0 = (e =? 3) && (c =? 24) && (b =? 3)) as ->
      by (Z.to_euclidean_division_equations; lia).
    destruct (e =? 3), (c =? 24), (b =? 3); done.
Qed.

Definition yearLength (year : Z) : Z := if isLeap year then 366 else 365.

Lemma yearDay_spec d :
  daysToYear (fst (yearDay d)) + snd (yearDay d) = d
  /\ 0 <= snd (yearDay d) < yearLength (fst (yearDay d)).
Proof.
  unfold yearDay, yearLength. cbv zeta. cbn [fst snd].
  set (a := d / 146097). set (d1 := d mod 146097).
  set (b := Z.min (d1 / 36524) 3). set (d2 := d1 - b * 36524).
  set (c := d2 / 1461). set (d3 := d2 - c * 1461).
  set (e := Z.min (d3 / 365) 3).
  assert (d = 146097 * a + d1 /\ 0 <= d1 < 146097) as [Hd H1]
    by (unfold a, d1; Z.to_euclidean_division_equations; lia).
  assert (0 <= b <= 3 /\ 0 <= d2 <= 36524 /\ (b < 3 -> d2 < 36524)) as (Hb & H2 & H2')
    by (unfold d2, b; clearbody d1; Z.to_euclidean_division_equations; lia).
  assert (0 <= c <= 24 /\ 0 <= d3 < 1461 /\ (c = 24 -> d3 <= d2 - 35064)) as (Hc & H3 & H3')
    by (unfold d3, c; clearbody d2; Z.to_euclidean_division_equations; lia).
  assert (0 <= e <= 3 /\ 0 <= d3 - e * 365 <= 365 /\ (e < 3 -> d3 - e * 365 < 365)) as (He & H4 & H4')
    by (unfold e; clearbody d3; Z.to_euclidean_division_equations; lia).
  destruct (year_parts a b c e Hb Hc He) as [-> ->]. split; [unfold d3, d2 in *; lia|].
  destruct (e =? 3) eqn:E3, (c =? 24) eqn:E24, (b =? 3) eqn:Eb; cbn; lia.
Qed.

(** A finite check over a range of days. *)
Fixpoint all_below (n : nat) (p : Z -> bool) : bool :=
  match n with O => true | S n => p (Z.of_nat n) && all_below n p end.

Lemma all_below_spec n p x : all_below n p = true -> 0 <= x < Z.of_nat n -> p x = true.
Proof.
  induction n as [|n IH]; [lia|]. cbn [all_below]. intros [Hn Hp]%andb_true_iff Hx.
  destruct (decide (x = Z.of_nat n)) as [->|]; [done|]. apply IH; [done|lia].
Qed.

Definition month_ok (leap : bool) (yday : Z) : bool :=
  let '(month, day) := monthDay leap yday in
  let year := if leap then 4 else 1 in
  (1 <=? month) && (month <=? 12) && (1 <=? day) && (day <=? daysIn month year)
  && (daysBefore month + (if leap && (2 <? month) then 1 else 0) + (day - 1) =? yday).

Lemma month_ok_leap : all_below 366 (month_ok true) = true.
Proof. by vm_compute. Qed.

Lemma month_ok_common : all_below 365 (month_ok false) = true.
Proof. by vm_compute. Qed.

Lemma monthDay_spec (leap : bool) (yday : Z) :
  0 <= yday < (if leap then 366 else 365) ->
  let '(month, day) := monthDay leap yday in
  1 <= month <= 12 /\ 1 <= day <= daysIn month (if leap then 4 else 1)
  /\ daysBefore month + (if leap && (2 <? month) then 1 else 0) + (day - 1) = yday.
Proof.
  intros Hy. assert (month_ok leap yday = true) as Hok.
  { destruct leap; [by apply (all_below_spec 366), Hy; apply month_ok_leap|].
    by apply (all_below_spec 365), Hy; apply month_ok_common. }
  unfold month_ok in Hok. destruct (monthDay leap yday) as [month day].
  apply andb_true_iff in Hok as [[[[? ?]%andb_true_iff ?]%andb_true_iff ?]%andb_true_iff ?]. lia.
Qed.

Lemma daysIn_leap month year : daysIn month (if isLeap year then 4 else 1) = daysIn month year.
Proof. unfold daysIn. by destruct (isLeap year). Qed.

(** The date of a day: valid, and of that day. *)
Lemma civil_spec d :
  let '(year, month, day) := civil d in
  dateToDays year month day = d /\ 1 <= month <= 12 /\ 1 <= day <= daysIn month year.
Proof.
  unfold civil. pose proof (yearDay_spec d) as [Hd Hb]. destruct (yearDay d) as [year yday].
  cbn [fst snd] in *. unfold yearLength in Hb. pose proof (monthDay_spec _ _ Hb) as Hm.
  destruct (monthDay (isLeap year) yday) as [month day]. destruct Hm as (Hm & Hday & Heq).
  rewrite daysIn_leap in Hday. unfold dateToDays. split_and!; lia.
Qed.

(** Four digits are enough for the years of our era up to 9999. *)
Lemma civil_year d : 0 <= d < 3652059 -> 1 <= fst (fst (civil d)) <= 9999.
Proof.
  intros Hd. unfold civil. pose proof (yearDay_spec d) as [Heq Hb]. destruct (yearDay d) as [year yday].
  destruct (monthDay (isLeap year) yday) as [month day]. cbn [fst snd] in *.
  unfold yearLength in Hb. assert (0 <= yday < 366) by (destruct (isLeap year); lia).
  unfold daysToYear in Heq. cbv zeta in Heq. Z.to_euclidean_division_equations. lia.
Qed.

(** ** Run names invert *)

Definition pair_ok (n : Z) : bool :=
  match appendInt n 2 with
  | String a (String b EmptyString) =>
      match digit a, digit b with Some x, Some y => x * 10 + y =? n | _, _ => false end
  | _ => false
  end.

Definition quad_ok (n : Z) : bool :=
  match appendInt n 4 with
  | String a (String b (String c (String d EmptyString))) =>
      match digit a, digit b, digit c, digit d with
      | Some x, Some y, Some z, Some w => (x * 10 + y) * 100 + (z * 10 + w) =? n
      | _, _, _, _ => false
      end
  | _ => false
  end.

Lemma pairs_ok : all_below 100 pair_ok = true.
Proof. by vm_compute. Qed.

Lemma quads_ok : all_below (100 * 100) quad_ok = true.
Proof. by vm_compute. Qed.

Lemma getnum_appendInt n fixed rest : 0 <= n < 100 -> getnum (appendInt n 2 ++ rest) fixed = Some (n, rest).
Proof.
  intros Hn. pose proof (all_below_spec 100 pair_ok n pairs_ok Hn) as Hok. unfold pair_ok in Hok.
  destruct (appendInt n 2) as [|a [|b [|]]]; try done.
  revert Hok. unfold getnum, append. cbn -[digit Z.mul Z.add].
  destruct (digit a) as [x|]; [|done]. destruct (digit b) as [y|]; [|done]. intros Hok%Z.eqb_eq. by rewrite Hok.
Qed.

Lemma getyear_appendInt n rest : 0 <= n < 10000 -> getyear (appendInt n 4 ++ rest) = Some (n, rest).
Proof.
  intros Hn. pose proof (all_below_spec (100 * 100) quad_ok n quads_ok ltac:(lia)) as Hok. unfold quad_ok in Hok.
  destruct (appendInt n 4) as [|a [|b [|c [|d [|]]]]]; try done. 
  revert Hok. unfold getyear, getnum, append. cbn -[digit Z.mul Z.add].
  destruct (digit a) as [x|]; [|done]. destruct (digit b) as [y|]; [|done].
  destruct (digit c) as [z|]; [|done]. destruct (digit d) as [w|]; [|done].
  intros Hok%Z.eqb_eq. by rewrite Hok.
Qed.

Lemma inRange_Some lo hi x s : lo <= x < hi -> inRange lo hi (Some (x, s)) = Some (x, s).
Proof. intros Hx. unfold inRange. replace ((lo <=? x) && (x <? hi)) with true by lia. done. Qed.

(** The whole seconds a timestamp of four digits can say: the years 1 to 9999. *)
Definition stampable (t : Z) : Prop :=
  t mod second = 0 /\ 0 <= t / second / daySeconds + unixToInternal < 3652059.

(** The first instant of the year 10000. *)
Definition year10000 : Z := 253402300800 * second.

Lemma stampable_between t : t mod second = 0 -> zero_time <= t < year10000 -> stampable t.
Proof.
  unfold stampable, zero_time, year10000, daySeconds, unixToInternal, second. intros Hs Hb. split; [done|].
  Z.to_euclidean_division_equations; lia.
Qed.

Lemma append_assoc_l (s t u : string) : ((s ++ t) ++ u = s ++ (t ++ u))%string.
Proof. induction s as [|a s IH]; [done|]. exact (f_equal (String a) IH). Qed.

Lemma append_nil_r (s : string) : (s ++ "" = s)%string.
Proof. induction s as [|a s IH]; [done|]. exact (f_equal (String a) IH). Qed.

Lemma ParseRunTimestamp_Format t : stampable t -> ParseRunTimestamp (FormatRunTimestamp t) = Some t.
Proof.
  intros [Hns Hd]. unfold FormatRunTimestamp.
  set (s := t / second) in *. pose proof (civil_spec (s / daySeconds + unixToInternal)) as Hc.
  pose proof (civil_year _ Hd) as Hy. destruct (civil _) as [[year month] day]. destruct Hc as (Hdays & Hm & Hday).
  assert (1 <= day <= 31) as Hday31.
  { split; [lia|]. transitivity (daysIn month year); [lia|]. unfold daysIn. destruct (_ && _); [lia|].
    assert (month = 1 \/ month = 2 \/ month = 3 \/ month = 4 \/ month = 5 \/ month = 6 \/ month = 7 \/ month = 8
      \/ month = 9 \/ month = 10 \/ month = 11 \/ month = 12) as Hx by lia.
    by destruct_or! Hx; subst month. }
  cbn [fst] in Hy. set (c := s mod daySeconds).
  assert (0 <= c < 86400) as Hcs by (unfold c, daySeconds; Z.to_euclidean_division_equations; lia).
  unfold ParseRunTimestamp. rewrite getyear_appendInt by lia.
  rewrite getnum_appendInt, inRange_Some by lia. rewrite getnum_appendInt by lia.
  match goal with |- context [("-" ++ ?x)%string] => change ("-" ++ x)%string with (String "-" x) end.
  cbn [skip_byte Ascii.eqb Bool.eqb].
  rewrite getnum_appendInt, inRange_Some by (Z.to_euclidean_division_equations; lia).
  rewrite getnum_appendInt, inRange_Some by (Z.to_euclidean_division_equations; lia).
  rewrite <-(append_nil_r (appendInt (c mod 60) 2)).
  rewrite getnum_appendInt, inRange_Some by (Z.to_euclidean_division_equations; lia). cbn.
  replace (day <? 1) with false by lia. replace (daysIn month year <? day) with false by lia. cbn.
  f_equal. rewrite Hdays. unfold c, s, daySeconds, unixToInternal in *.
  clear - Hns. unfold second in *. Z.to_euclidean_division_equations. lia.
Qed.

Lemma run_name_tick (schedule : string) (t : Z) :
  stampable t -> parseRunTick schedule (RunName schedule t) = Some t.
Proof.
  intros Ht. unfold parseRunTick, RunName. rewrite <-append_assoc_l.
  rewrite HasPrefix_append, sdrop_append, orb_false_r, ParseRunTimestamp_Format by done.
  by destruct schedule.
Qed.

(** C40. A run name remembers its activation: a schedule that reads the name of a run
    it stamped gets back the very instant the run was stamped for, so that two
    activations never share a name. *)
Theorem parseRunTick_RunName (schedule : string) (t : Z) (Ht : stampable t) :
  parseRunTick schedule (RunName schedule t) = Some t
  /\ forall u, stampable u -> RunName schedule u = RunName schedule t -> u = t.
Proof.
  pose proof (run_name_tick schedule t Ht) as Hp. split; [done|]. intros u Hu Heq.
  pose proof (run_name_tick schedule u Hu) as Hq. congruence.
Qed.

Lemma parseRunTick_RunName_witness :
  stampable (1754625600 * second)
  /\ parseRunTick "nightly" (RunName "nightly" (1754625600 * second)) = Some (1754625600 * second).
Proof.
  assert (stampable (1754625600 * second)) as Hs by by vm_compute.
  split; [exact Hs|]. apply (parseRunTick_RunName "nightly" (1754625600 * second) Hs).
Defined.
