(* ===== verification/Schedule.v ===== *)
(** * Schedule: due ticks, periods and jitter
    (internal/schedule/schedule.go)

    A schedule is a cron expression bound to a time zone.  The cron library is not
    part of the source: a parsed schedule is its [Next], and the documented
    behaviour of [Next] is the class [CronLaws]. *)

From S2P Require Import Prelude GoText.
From Stdlib Require Import Ascii String.

#[local] Open Scope Z_scope.

(** ** The cron library *)

(** [cron.Schedule], evaluated in its time zone. *)
Record Schedule := mkSchedule { Next : Z -> Z }.

(** The documentation of [Next]: "the next time this schedule is activated, greater
    than the given time; if no time can be found, the zero time". *)
Class CronLaws (s : Schedule) (activation : Z -> Prop) : Prop := {
  next_activation : forall t, Next s t <> zero_time ->
    t < Next s t /\ activation (Next s t) /\ forall u, t < u < Next s t -> ~ activation u
}.

Definition maxCatchupTicks : nat := 1000.
Definition periodSamples : nat := 8.

(** ** Operations *)

(** The loop of [DueTick]: the latest tick walked over, if any. *)
Fixpoint catchup (s : Schedule) (fuel : nat) (t now : Z) (last : option Z) : option Z :=
  match fuel with
  | O => last
  | S fuel => if negb (time_after t now) then catchup s fuel (Next s t) now (Some t) else last
  end.

Definition DueTick (s : Schedule) (after now : Z) (deadline : option Z) : option Z :=
  match catchup s maxCatchupTicks (Next s after) now None with
  | None => None
  | Some last =>
      match deadline with
      | Some d => if d <? time_sub now last then None else Some last
      | None => Some last
      end
  end.

Fixpoint longestGap (s : Schedule) (samples : nat) (prev longest : Z) : Z :=
  match samples with
  | O => longest
  | S samples =>
      let next := Next s prev in
      let gap := time_sub next prev in
      longestGap s samples next (if longest <? gap then gap else longest)
  end.

Definition Period (s : Schedule) (t : Z) : Z := longestGap s periodSamples (Next s t) 0.

Definition JitterOffset (seed : string) (window : Z) : Z :=
  if window <=? 0 then 0 else int64 (fnv64a seed mod uint64 window).

(** [time.Duration(n) * time.Second]. *)
Definition durationSeconds (n : Z) : Z := int64 (n * second).

(** ** The walk over the activations *)

(** The first [n] activations after [t], as long as there are. *)
Fixpoint ticks (s : Schedule) (n : nat) (t : Z) : list Z :=
  match n with O => [] | S n => Next s t :: ticks s n (Next s t) end.

Section Laws.
Context (s : Schedule) (activation : Z -> Prop) {CL : CronLaws s activation}.

(** The schedule goes on: no activation is the last one. *)
Definition unending : Prop := forall t, zero_time <= t -> Next s t <> zero_time.

Lemma Next_after t : Next s t <> zero_time -> t < Next s t.
Proof. intros H. by apply (next_activation t H). Qed.

(** What a walk of [fuel] steps from the activation [t] returns. *)
Lemma catchup_spec fuel t now last :
  unending -> zero_time <= t -> activation t ->
  match catchup s fuel t now last with
  | Some x =>
      (Some x = last /\ (now < t \/ fuel = O))
      \/ (activation x /\ t <= x <= now
          /\ (now < Next s x \/ exists l : list Z, List.length l = fuel /\ NoDup l /\ Forall (fun u => activation u /\ t <= u <= x) l))
  | None => last = None /\ (now < t \/ fuel = O)
  end.
Proof.
  intros Hu. revert t last. induction fuel as [|fuel IH]; intros t last Hz Ht; cbn.
  - destruct last; [left|]; split; auto.
  - unfold time_after. destruct (now <? t) eqn:En; cbn.
    { destruct last; [left|]; (split; [done|left; lia]). }
    destruct (next_activation t (Hu t Hz)) as (Hlt & Hact & Hno).
    specialize (IH (Next s t) (Some t) ltac:(lia) Hact). destruct (catchup s fuel (Next s t) now (Some t)) as [x|].
    2: { by destruct IH. }
    right. destruct IH as [[[= ->] Hend]|(Hx & Hb & Hend)].
    + split; [done|]. split; [lia|]. destruct Hend as [Hend| ->]; [by left|].
      right. exists [t]. split; [done|]. split; [apply NoDup_singleton|]. constructor; [|constructor].
      split; [done|lia].
    + split; [done|]. split; [lia|]. destruct Hend as [Hend|(l & Hl & Hd & Hf)]; [by left|right].
      exists (t :: l). split; [cbn; lia|]. split.
      * constructor; [|done]. intros Hin. rewrite Forall_forall in Hf. destruct (Hf _ Hin). lia.
      * constructor; [split; [done|lia]|]. eapply Forall_impl; [exact Hf|]. cbn. intros u []. split; [done|lia].
Qed.

Lemma DueTick_none after now u :
  unending -> zero_time <= after -> DueTick s after now None = None -> after < u <= now -> ~ activation u.
Proof.
  intros Hu Hz. unfold DueTick. destruct (next_activation after (Hu after Hz)) as (Hlt & Hact & Hno).
  pose proof (catchup_spec maxCatchupTicks (Next s after) now None Hu ltac:(lia) Hact) as Hc.
  destruct (catchup s maxCatchupTicks (Next s after) now None) as [y|]; [done|].
  destruct Hc as [_ [Hn|Hn]]; [|done]. intros _ Hr. apply Hno. lia.
Qed.

(** The walk needs an answer only from the times it passes. *)
Lemma catchup_within fuel t now last x :
  (forall u, t <= u <= now -> Next s u <> zero_time) -> activation t -> catchup s fuel t now last = Some x ->
  Some x = last \/ (activation x /\ t <= x <= now).
Proof.
  revert t last. induction fuel as [|fuel IH]; intros t last Hu Ht; cbn; [by left|].
  unfold time_after. destruct (now <? t) eqn:En; cbn; [by left|]. intros Hc.
  destruct (next_activation t (Hu t ltac:(lia))) as (Hlt & Hact & _). right.
  destruct (IH (Next s t) (Some t)) as [[= ->]|[Hx Hb]]; [intros u Hb; apply Hu; lia|done|done|split; [done|lia]|split; [done|lia]].
Qed.

Lemma DueTick_within after now deadline x :
  (forall u, after <= u -> u <= now \/ u = after -> Next s u <> zero_time) -> DueTick s after now deadline = Some x ->
  activation x /\ after < x <= now.
Proof.
  intros Hu. unfold DueTick. destruct (next_activation after (Hu after ltac:(lia) (or_intror eq_refl))) as (Hlt & Hact & _).
  destruct (catchup s maxCatchupTicks (Next s after) now None) as [y|] eqn:Ec; [|done].
  apply catchup_within in Ec as [?|[Hy Hb]]; [done| |intros u Hb; apply Hu; lia|done]. intros Hd.
  assert (y = x) as <-; [|split; [done|lia]]. destruct deadline as [d|]; [destruct (d <? _)|]; congruence.
Qed.

Lemma DueTick_some after now deadline x :
  unending -> zero_time <= after -> DueTick s after now deadline = Some x -> activation x /\ after < x <= now.
Proof. intros Hu Hz. apply DueTick_within. intros u Ha _. apply Hu. lia. Qed.

(** The tick that is due is the latest activation since [after] that is not in the
    future, or, after more than a thousand missed ones, the thousandth; a deadline
    only ever drops it; and nothing is due only when nothing was missed or the
    deadline dropped it. *)
Theorem DueTick_spec (after now : Z) (deadline : option Z) (Hu : unending) (Hz : zero_time <= after) :
  match DueTick s after now deadline with
  | Some x =>
      activation x /\ after < x <= now
      /\ (forall d, deadline = Some d -> time_sub now x <= d)
      /\ ((forall u, x < u <= now -> ~ activation u)
          \/ exists l : list Z, List.length l = maxCatchupTicks /\ NoDup l
               /\ Forall (fun u => activation u /\ after < u <= x) l)
  | None =>
      (forall u, after < u <= now -> ~ activation u)
      \/ exists d x, deadline = Some d /\ activation x /\ after < x <= now /\ d < time_sub now x
  end.
Proof.
  unfold DueTick. destruct (next_activation after (Hu after Hz)) as (Hlt & Hact & Hno).
  pose proof (catchup_spec maxCatchupTicks (Next s after) now None Hu ltac:(lia) Hact) as Hc.
  destruct (catchup s maxCatchupTicks (Next s after) now None) as [x|].
  2: { destruct Hc as [_ [Hn|Hn]]; [|done]. left. intros u Hx. apply Hno. lia. }
  destruct Hc as [[? _]|(Hx & Hb & Hend)]; [done|].
  assert ((forall u, x < u <= now -> ~ activation u)
          \/ exists l : list Z, List.length l = maxCatchupTicks /\ NoDup l
               /\ Forall (fun u => activation u /\ after < u <= x) l) as Hlatest.
  { destruct Hend as [Hend|(l & Hl & Hd & Hf)].
    - left. intros u Hux. apply (next_activation x (Hu x ltac:(lia))). lia.
    - right. exists l. split_and!; [done..|]. eapply Forall_impl; [exact Hf|]. cbn. intros u []. split; [done|lia]. }
  destruct deadline as [d|]; [destruct (d <? time_sub now x) eqn:Ed|].
  - right. exists d, x. split_and!; try done; lia.
  - split_and!; try done; try lia. intros d' [= <-]. lia.
  - split_and!; try done; lia.
Qed.
End Laws.

(** ** Jitter *)

Lemma JitterOffset_nonneg seed window : 0 <= JitterOffset seed window \/ ~ in_int64 window.
Proof.
  unfold JitterOffset, in_int64. destruct (window <=? 0) eqn:E; [by left|].
  destruct (decide (window < 2 ^ 63)) as [Hw|]; [left|right; lia].
  assert (uint64 window = window) as -> by (unfold uint64; apply Z.mod_small; lia).
  pose proof (Z.mod_pos_bound (fnv64a seed) window ltac:(lia)). rewrite int64_id; unfold in_int64; lia.
Qed.

(** The jitter of a schedule lies in its window, whatever the seed. *)
Theorem JitterOffset_range (seed : string) (window : Z) (Hw : in_int64 window) :
  JitterOffset seed window = 0 \/ 0 <= JitterOffset seed window < window.
Proof.
  unfold JitterOffset, in_int64 in *. destruct (window <=? 0) eqn:E; [by left|right].
  assert (uint64 window = window) as -> by (unfold uint64; apply Z.mod_small; lia).
  pose proof (Z.mod_pos_bound (fnv64a seed) window ltac:(lia)). rewrite int64_id; [done|]. unfold in_int64. lia.
Qed.

(** ** Schedules that never fire *)

(** A cron expression with no activation at all, such as the thirtieth of February:
    [Next] finds none from any time of the zero time's and the present centuries. *)
Definition neverSchedule : Schedule := mkSchedule (fun _ => zero_time).

#[export] Instance neverSchedule_laws : CronLaws neverSchedule (fun _ => False).
Proof. split. done. Qed.

(** A schedule with no activation is due all the same: the zero time with which
    the cron library says "never" is read as a tick in the past. *)
Theorem DueTick_never (after now : Z) (Hnow : zero_time <= now) :
  DueTick neverSchedule after now None = Some zero_time /\ Period neverSchedule now = 0.
Proof.
  split; [|done]. unfold DueTick.
  assert (forall fuel last, catchup neverSchedule (S fuel) zero_time now last = Some zero_time) as Hc.
  { intros fuel. induction fuel as [|fuel IH]; intros last.
    - cbn. unfold time_after. by replace (now <? zero_time) with false by lia.
    - cbn [catchup Next neverSchedule] in *. unfold time_after in *. replace (now <? zero_time) with false in * by lia.
      apply IH. }
  change (Next neverSchedule after) with zero_time. change maxCatchupTicks with (S 999). by rewrite Hc.
Qed.

(** ** Deadlines *)

(** A starting deadline means what it says up to 292 years; a longer one wraps to
    a negative duration, and with it no tick is ever due. *)
Theorem durationSeconds_spec (n : Z) (Hn : 0 <= n) :
  (n <= 9223372036 -> durationSeconds n = n * second)
  /\ (durationSeconds n < 0 -> forall s after now, DueTick s after now (Some (durationSeconds n)) = None)
  /\ durationSeconds 10000000000 < 0.
Proof.
  split_and!; [intros Hle|intros Hneg s after now|by vm_compute].
  - unfold durationSeconds. apply int64_id. unfold in_int64, second. lia.
  - unfold DueTick. assert (forall fuel t last x, catchup s fuel t now last = Some x -> last = Some x \/ x <= now) as Hle.
    { intros fuel. induction fuel as [|fuel IH]; intros t last x; cbn; [by left|]. unfold time_after.
      destruct (now <? t) eqn:En; cbn; [by left|]. intros Hx. destruct (IH _ _ _ Hx) as [[= <-]|]; right; lia. }
    destruct (catchup s maxCatchupTicks (Next s after) now None) as [x|] eqn:Ec; [|done].
    destruct (Hle _ _ _ _ Ec) as [|Hx]; [done|].
    replace (durationSeconds n <? time_sub now x) with true; [done|]. unfold time_sub. lia.
Qed.

(** ** Witnesses *)

(** Every minute. *)
Definition everyMinute : Schedule := mkSchedule (fun t => (t / minute + 1) * minute).

#[export] Instance everyMinute_laws : CronLaws everyMinute (fun t => t mod minute = 0).
Proof.
  split. intros t _. cbn. unfold minute, second.
  split_and!; [Z.to_euclidean_division_equations; lia..|]. intros u Hu Hm. Z.to_euclidean_division_equations; lia.
Qed.

Lemma everyMinute_unending : unending everyMinute.
Proof. intros t. cbn. unfold zero_time, minute, second. intros Ht. Z.to_euclidean_division_equations; lia. Qed.

Lemma DueTick_spec_witness :
  let now := 1754625600 * second in
  (forall d, Some hour = Some d -> time_sub now now <= d)
  /\ (now - 90 * second) < now <= now.
Proof.
  pose proof (DueTick_spec everyMinute (fun t => t mod minute = 0) (1754625600 * second - 90 * second)
    (1754625600 * second) (Some hour) everyMinute_unending ltac:(by vm_compute)) as H.
  assert (DueTick everyMinute (1754625600 * second - 90 * second) (1754625600 * second) (Some hour)
    = Some (1754625600 * second)) as E by by vm_compute.
  rewrite E in H. destruct H as (_ & Hb & Hd & _). split; [exact Hd|exact Hb].
Defined.

Lemma JitterOffset_range_witness : JitterOffset "uid" minute = 0 \/ 0 <= JitterOffset "uid" minute < minute.
Proof. apply (JitterOffset_range "uid" minute). split; by vm_compute. Defined.

Lemma DueTick_never_witness :
  DueTick neverSchedule (1754625600 * second) (1754625660 * second) None = Some zero_time
  /\ Period neverSchedule (1754625660 * second) = 0.
Proof. apply (DueTick_never (1754625600 * second) (1754625660 * second)). by vm_compute. Defined.

Lemma durationSeconds_spec_witness : durationSeconds 3600 = 3600 * second.
Proof. apply (durationSeconds_spec 3600); lia. Defined.
