(* ===== verification/Abandonment.v ===== *)
(** * Abandonment: who owns a run's coordinate, and when a run is given up
    (internal/controller/runname.go, internal/controller/schedule_abandonment.go)

    A schedule whose previous run has not ended either skips its tick or terminates
    that run: the verdict rests on the phases of the run's volumes first, on the
    clock second.  A tick whose run name is already taken adopts, or refuses, what
    is there. *)

From S2P Require Import Prelude GoText Cluster Names Status VolumeMachine Backup Hooks Calendar.
From Stdlib Require Import Ascii String Sorted.

#[local] Open Scope string_scope.
#[local] Open Scope pass_scope.

Definition AnnotationParentUID : string := "crystalbackup.io/parent-uid".

(** ** Coordinates *)

Inductive coordinateOwnership := coordinateMine | coordinateAdoptable | coordinateForeign.

#[global] Instance coordinateOwnership_eq_dec : EqDecision coordinateOwnership.
Proof. solve_decision. Defined.

Definition coordinateCodeMine : string := "OwnChild".
Definition coordinateCodeAdoptable : string := "AdoptableUnstamped".
Definition coordinateCodeForeignParent : string := "ForeignParentUID".
Definition coordinateCodeProjection : string := "DiscoveryProjection".
Definition coordinateCodeUnstampedTerminal : string := "UnstampedTerminalChild".
Definition coordinateCodeUnstampedWithResults : string := "UnstampedWithResults".

Definition coordinateStampMine : string := "mine".
Definition coordinateStampOther : string := "other".
Definition coordinateStampNone : string := "none".
Definition coordinateFactYes : string := "yes".
Definition coordinateFactNo : string := "no".
Definition coordinateFactUnknown : string := "unknown".
Definition coordinateFactNoPhase : string := "none".

(** [Skew] is absent where the source's [SkewKnown] is false. *)
Record coordinateReason := mkCoordinateReason {
  cr_Code : string;
  cr_Detail : string;
  cr_Stamp : string;
  cr_Phase : string;
  cr_HasResults : bool;
  cr_Skew : option Z
}.

Definition Facts (r : coordinateReason) : string :=
  let phase := if cr_Phase r =? "" then coordinateFactNoPhase else cr_Phase r in
  let data := if cr_HasResults r then coordinateFactYes else coordinateFactNo in
  let age := match cr_Skew r with
             | None => coordinateFactUnknown
             | Some d => if (0 <=? d)%Z then "+" ++ DurationString d else DurationString d
             end in
  "class=" ++ cr_Code r ++ " stamp=" ++ cr_Stamp r ++ " phase=" ++ phase ++ " data=" ++ data ++ " age=" ++ age.

(** ** The breakdown of the blocked namespaces *)

Record BlockedReason := mkBlockedReason {
  bk_Reason : string;
  bk_Namespaces : Z;
  bk_WithDataAtCoordinate : Z;
  bk_StampedByThisRun : Z
}.

Record blockedNamespaceFacts := mkBlockedNamespaceFacts {
  bf_reason : string;
  bf_dataAtCoordinate : bool;
  bf_stampedByRun : bool
}.

(** A counter of the [int32] fields, incremented when [b]. *)
Definition bump (b : bool) (n : Z) : Z := if b then int32 (n + 1) else n.

Definition countBlocked (byReason : gmap string BlockedReason) (f : blockedNamespaceFacts)
    : gmap string BlockedReason :=
  let e := default (mkBlockedReason (bf_reason f) 0 0 0) (byReason !! bf_reason f) in
  <[bf_reason f := mkBlockedReason (bk_Reason e) (bump true (bk_Namespaces e))
      (bump (bf_dataAtCoordinate f) (bk_WithDataAtCoordinate e))
      (bump (bf_stampedByRun f) (bk_StampedByThisRun e))]> byReason.

Definition summariseBlockedReasons (facts : list blockedNamespaceFacts) : list BlockedReason :=
  sort_by bk_Reason (map snd (map_to_list (fold_left countBlocked facts ∅))).

Definition blockedBreakdownLine (summary : list BlockedReason) : string :=
  String.concat ", " (map (fun e => bk_Reason e ++ "=" ++ Itoa (bk_Namespaces e)) summary).

(** ** Volumes *)

Definition scheduleAbandonmentGrace : Z := (4 * hour)%Z.
Definition reasonTerminatedAsAbandoned : string := "TerminatedAsAbandoned".

Definition quoteName (name : string) : string := quoted name.

(** Why a volume is still somebody's work, "" when it is not. *)
Definition volumeInFlightReason (v : VolumeStatus) (now pendingDeadline : Z) : string :=
  if (Phase v =? VolumePhaseCompleted) || (Phase v =? VolumePhaseSkipped) || (Phase v =? VolumePhaseFailed) then ""
  else if Phase v =? VolumePhaseUploading then
    "PVC " ++ quoteName (Pvc v) ++ " is Uploading (a running mover is never bounded by this gate)"
  else if Phase v =? VolumePhaseSnapshotting then
    "PVC " ++ quoteName (Pvc v) ++ " is Snapshotting (bounded by the controller's own snapshot deadlines)"
  else
    match FirstAttemptAt v with
    | None => "PVC " ++ quoteName (Pvc v) ++ " is queued and has not been attempted yet"
    | Some first =>
        let waited := time_sub now first in
        if (waited <=? pendingDeadline)%Z then
          "PVC " ++ quoteName (Pvc v) ++ " has been Pending for " ++ DurationString (RoundSecond waited)
            ++ " of its " ++ DurationString pendingDeadline ++ " budget"
        else ""
    end.

Definition abandonedTerminalPhase (volumes : list VolumeStatus) : string :=
  if existsb (fun v => Phase v =? VolumePhaseCompleted) volumes then BackupPhasePartiallyFailed
  else BackupPhaseFailed.

(** The loop of [terminateAbandonedBackup]. *)
Definition terminateVolume (v : VolumeStatus) : VolumeStatus :=
  if (Phase v =? VolumePhaseCompleted) || (Phase v =? VolumePhaseSkipped) || (Phase v =? VolumePhaseFailed) then v
  else
    set_reason (if Reason v =? "" then reasonTerminatedAsAbandoned
                else shortReason (reasonTerminatedAsAbandoned ++ ": " ++ Reason v))
      (set_phase VolumePhaseFailed v).

Section Backups.
Context `{CS : ConditionStore}.

Definition backupHasResults (b : Backup) : bool :=
  match st_BackupTime (b_status b) with
  | Some _ => true
  | None => existsb (fun v => negb (SnapshotID v =? "") || (0 <? AddedBytes v)%Z) (b_volumes b)
  end.

Definition newCoordinateReason (existing : Backup) (owner : string) (ownerCreated : Z) : coordinateReason :=
  let stamped := lget (b_annotations existing) AnnotationParentUID in
  mkCoordinateReason "" ""
    (if stamped =? "" then coordinateStampNone
     else if stamped =? owner then coordinateStampMine else coordinateStampOther)
    (b_phase existing) (backupHasResults existing)
    (if negb (time_is_zero ownerCreated) && negb (time_is_zero (b_created existing))
     then Some (TruncateSecond (time_sub (b_created existing) ownerCreated)) else None).

Definition withCode (r : coordinateReason) (code detail : string) : coordinateReason :=
  mkCoordinateReason code detail (cr_Stamp r) (cr_Phase r) (cr_HasResults r) (cr_Skew r).

Definition classifyCoordinate (existing : Backup) (owner : string) (ownerCreated : Z)
    : coordinateOwnership * coordinateReason :=
  let r := newCoordinateReason existing owner ownerCreated in
  let stamped := lget (b_annotations existing) AnnotationParentUID in
  if negb (stamped =? "") && (stamped =? owner) then (coordinateMine, withCode r coordinateCodeMine "")
  else if negb (stamped =? "") then
    (coordinateForeign, withCode r coordinateCodeForeignParent
       ("it was created by a different run (parent " ++ stamped ++ ")"))
  else if lget (b_annotations existing) AnnotationProjected =? AnnotationProjectedValue then
    (coordinateForeign, withCode r coordinateCodeProjection
       "it is a discovery projection of snapshots already in the repository")
  else if isTerminalBackupPhase (b_phase existing) then
    (coordinateForeign, withCode r coordinateCodeUnstampedTerminal
       ("it is the terminal record of an earlier backup (phase " ++ b_phase existing ++ ")"))
  else if backupHasResults existing then
    (coordinateForeign, withCode r coordinateCodeUnstampedWithResults
       "it already holds results this run did not produce")
  else (coordinateAdoptable, withCode r coordinateCodeAdoptable "").

(** ** Runs *)

Fixpoint firstInFlight (vols : list VolumeStatus) (now pendingDeadline : Z) : string :=
  match vols with
  | [] => ""
  | v :: vols =>
      let reason := volumeInFlightReason v now pendingDeadline in
      if negb (reason =? "") then reason else firstInFlight vols now pendingDeadline
  end.

Definition backupInFlightReason (b : Backup) (now pendingDeadline : Z) : string :=
  firstInFlight (b_volumes b) now pendingDeadline.

Definition later (latest t : Z) : Z := if time_after t latest then t else latest.

Definition backupLastProgressAt (b : Backup) : Z :=
  let latest := b_created b in
  let latest := match FindCondition (st_Conditions (b_status b)) ConditionReady with
                | Some c => later latest (c_transition c)
                | None => latest
                end in
  fold_left (fun latest v => match FirstAttemptAt v with Some t => later latest t | None => latest end)
    (b_volumes b) latest.

(** The evidence, and whether the run is abandoned. *)
Definition backupAbandonment (b : Backup) (now pendingDeadline grace : Z) : string * bool :=
  let inFlight := backupInFlightReason b now pendingDeadline in
  if negb (inFlight =? "") then (inFlight, false)
  else
    let last := backupLastProgressAt b in
    let quiet := time_sub now last in
    if (quiet <=? grace)%Z then
      ("no volume is in flight, but the run last recorded progress " ++ DurationString (RoundSecond quiet)
         ++ " ago (grace " ++ DurationString grace ++ ")", false)
    else
      ("no volume of it is in flight (" ++ Itoa (Z.of_nat (List.length (b_volumes b))) ++ " enumerated) and it has "
         ++ "recorded no progress since " ++ FormatRFC3339 last ++ " — " ++ DurationString (RoundSecond quiet)
         ++ " ago, past the " ++ DurationString grace ++ " grace", true).

(** What the termination makes of the object. *)
Definition abandoned (now : Z) (evidence : string) (b : Backup) : Backup :=
  let b := set_volumes (map terminateVolume (b_volumes b)) b in
  let b := set_bphase (abandonedTerminalPhase (b_volumes b)) b in
  set_condition ConditionReady ConditionFalse reasonTerminatedAsAbandoned
    (clampMessage ("terminated by its schedule as abandoned so the next run could start: " ++ evidence))
    (setCompletionTime now (setBackupTime now b)).

Definition terminateAbandonedBackup (now : Z) (updated : option gerr) (evidence : string) : pass (option gerr) :=
  modify (abandoned now evidence) ;;;
  err <-- status_update updated ;;
  b <-- the_backup ;;
  match err with
  | Some e => ret (Some (wrap_err ("terminate abandoned Backup " ++ b_namespace b ++ "/" ++ b_name b) e))
  | None =>
      do_call (CEvent EventTypeWarning "AbandonedRunTerminated" "TerminateAbandonedRun") ;;;
      ret None
  end.
End Backups.

(** ** The breakdown is a count *)

Definition reasonIs (k : string) (f : blockedNamespaceFacts) : bool := bf_reason f =? k.

(** The entry of a reason: how many namespaces carry it, with which facts. *)
Definition entryOf (facts : list blockedNamespaceFacts) (k : string) : BlockedReason :=
  let count p := Z.of_nat (countb (fun f => reasonIs k f && p f) facts) in
  mkBlockedReason k (count (fun _ => true)) (count bf_dataAtCoordinate) (count bf_stampedByRun).

Lemma bump_count k (p : blockedNamespaceFacts -> bool) facts f :
  bf_reason f = k -> (Z.of_nat (List.length facts) < 2 ^ 31 - 1)%Z ->
  bump (p f) (Z.of_nat (countb (fun f => reasonIs k f && p f) facts))
  = Z.of_nat (countb (fun f => reasonIs k f && p f) (facts ++ [f])).
Proof.
  intros Hk Hl. assert (reasonIs k f = true) as Hr by (by apply String.eqb_eq).
  rewrite countb_app. cbn. rewrite Hr. cbn.
  pose proof (countb_le_length (fun f => reasonIs k f && p f) facts).
  unfold bump. destruct (p f); [|lia]. rewrite int32_id; [lia|]. unfold in_int32. lia.
Qed.

Lemma countBlocked_lookup facts k :
  (Z.of_nat (List.length facts) < 2 ^ 31)%Z ->
  fold_left countBlocked facts ∅ !! k
  = if existsb (reasonIs k) facts then Some (entryOf facts k) else None.
Proof.
  induction facts as [|f facts IH] using rev_ind; [done|]. rewrite length_app, fold_left_app. cbn. intros Hl.
  specialize (IH ltac:(lia)). rewrite existsb_app. cbn. rewrite orb_false_r.
  unfold countBlocked at 1. destruct (decide (bf_reason f = k)) as [Hk|Hk].
  - assert (reasonIs k f = true) as -> by (by apply String.eqb_eq). rewrite orb_true_r, Hk, lookup_insert_eq, IH.
    destruct (existsb (reasonIs k) facts) eqn:Ex; cbn; f_equal; unfold entryOf; cbn;
      rewrite <-!bump_count by (done || lia); [done|].
    assert (forall p, countb (fun f => reasonIs k f && p f) facts = 0%nat) as Hz.
    { intros p. apply countb_zero. rewrite existsb_none in Ex. intros x Hx. by rewrite Ex. }
    by rewrite !Hz.
  - assert (reasonIs k f = false) as Hf by (by apply String.eqb_neq).
    rewrite Hf, orb_false_r, lookup_insert_ne, IH by done. destruct (existsb (reasonIs k) facts); [|done].
    f_equal. unfold entryOf. by rewrite !countb_app; cbn; rewrite Hf; cbn; rewrite !Nat.add_0_r.
Qed.

(** The breakdown of the blocked namespaces is a partition: sorted by reason, one
    entry per reason that occurs, each with the number of its namespaces and of
    those that had data or this run's stamp. *)
Theorem summariseBlockedReasons_spec (facts : list blockedNamespaceFacts)
    (Hl : (Z.of_nat (List.length facts) < 2 ^ 31)%Z) :
  Sorted string_le (map bk_Reason (summariseBlockedReasons facts))
  /\ (forall e, e ∈ summariseBlockedReasons facts <->
        exists f, f ∈ facts /\ e = entryOf facts (bf_reason f))
  /\ NoDup (map bk_Reason (summariseBlockedReasons facts)).
Proof.
  unfold summariseBlockedReasons. set (m := fold_left countBlocked facts ∅).
  assert (forall k e, m !! k = Some e -> e = entryOf facts k /\ existsb (reasonIs k) facts = true) as Hm.
  { intros k e. unfold m. rewrite countBlocked_lookup by done. destruct (existsb _ _); [|done]. by intros [= <-]. }
  split_and!.
  - rewrite sort_by_keys. apply sort_strings_sorted.
  - intros e. rewrite sort_by_perm, list_elem_of_fmap. split.
    + intros ([k e'] & -> & Hk%elem_of_map_to_list). destruct (Hm _ _ Hk) as [-> Hx]. cbn.
      apply existsb_elem in Hx as (f & Hf & Hr%String.eqb_eq). exists f. by rewrite Hr.
    + intros (f & Hf & ->). exists (bf_reason f, entryOf facts (bf_reason f)). split; [done|].
      apply elem_of_map_to_list. unfold m. rewrite countBlocked_lookup by done.
      replace (existsb (reasonIs (bf_reason f)) facts) with true; [done|]. symmetry. apply existsb_elem.
      exists f. split; [done|]. apply String.eqb_refl.
  - rewrite sort_by_perm. replace (map bk_Reason (map snd (map_to_list m))) with (map fst (map_to_list m)).
    + apply NoDup_fst_map_to_list.
    + rewrite map_map. apply map_ext_in. intros [k e] Hk%list_elem_of_In%elem_of_map_to_list.
      by destruct (Hm _ _ Hk) as [-> _].
Qed.

(** ** Coordinates and verdicts *)

Definition volumeSettled (v : VolumeStatus) : bool :=
  (Phase v =? VolumePhaseCompleted) || (Phase v =? VolumePhaseSkipped) || (Phase v =? VolumePhaseFailed).

(** A Pending volume that was attempted, and whose budget is spent. *)
Definition overdue (now pendingDeadline : Z) (v : VolumeStatus) : Prop :=
  Phase v <> VolumePhaseUploading /\ Phase v <> VolumePhaseSnapshotting
  /\ exists t, FirstAttemptAt v = Some t /\ (pendingDeadline < time_sub now t)%Z.

Lemma volumeInFlightReason_none v now pendingDeadline :
  volumeInFlightReason v now pendingDeadline = "" <-> volumeSettled v = true \/ overdue now pendingDeadline v.
Proof.
  unfold volumeInFlightReason, volumeSettled, overdue.
  destruct ((Phase v =? VolumePhaseCompleted) || (Phase v =? VolumePhaseSkipped) || (Phase v =? VolumePhaseFailed));
    [by split; [left|]|].
  destruct (Phase v =? VolumePhaseUploading) eqn:Eu; [apply String.eqb_eq in Eu; by split; [|intros [|(? & _)]]|].
  destruct (Phase v =? VolumePhaseSnapshotting) eqn:Es; [apply String.eqb_eq in Es; by split; [|intros [|(_ & ? & _)]]|].
  apply String.eqb_neq in Eu, Es. destruct (FirstAttemptAt v) as [t|].
  2: { split; [done|]. intros [|(_ & _ & t & [=] & _)]; done. }
  destruct (time_sub now t <=? pendingDeadline)%Z eqn:Et.
  - split; [done|]. intros [|(_ & _ & u & [= <-] & Hu)]; [done|lia].
  - split; [intros _; right|done]. split_and!; [done..|]. exists t. split; [done|lia].
Qed.

Lemma firstInFlight_none vols now pendingDeadline :
  firstInFlight vols now pendingDeadline = ""
  <-> forall v, v ∈ vols -> volumeSettled v = true \/ overdue now pendingDeadline v.
Proof.
  induction vols as [|v vols IH]; cbn; [split; [inversion 2|done]|].
  destruct (volumeInFlightReason v now pendingDeadline =? "") eqn:Ev; cbn.
  - apply String.eqb_eq in Ev. rewrite IH. split.
    + intros H w [->|Hw]%elem_of_cons; [by apply volumeInFlightReason_none|by apply H].
    + intros H w Hw. apply H. by right.
  - apply String.eqb_neq in Ev. split; [done|]. intros H. destruct Ev. apply volumeInFlightReason_none, H. left.
Qed.

Lemma later_max latest t : later latest t = Z.max latest t.
Proof. unfold later, time_after. destruct (latest <? t)%Z eqn:E; lia. Qed.

Section Theorems.
Context {CS : ConditionStore} {CSL : ConditionStoreLaws CS}.

Lemma newCoordinateReason_facts existing owner ownerCreated code detail :
  let r := withCode (newCoordinateReason existing owner ownerCreated) code detail in
  cr_Code r = code /\ cr_HasResults r = backupHasResults existing /\ cr_Phase r = b_phase existing.
Proof. done. Qed.

(** A run adopts what it finds at its coordinate only when that holds nothing: no
    stamp, no projection, no terminal phase, no result; what bears its own stamp is
    its own whatever it holds; all the rest is refused, with a code that says why
    and the occupant's results told truthfully. *)
Theorem classifyCoordinate_spec (existing : Backup) (owner : string) (ownerCreated : Z) :
  let stamp := lget (b_annotations existing) AnnotationParentUID in
  let projected := lget (b_annotations existing) AnnotationProjected =? AnnotationProjectedValue in
  let holds := isTerminalBackupPhase (b_phase existing) || backupHasResults existing in
  let '(ownership, reason) := classifyCoordinate existing owner ownerCreated in
  cr_HasResults reason = backupHasResults existing /\ cr_Phase reason = b_phase existing
  /\ match ownership with
     | coordinateMine => stamp <> "" /\ stamp = owner /\ cr_Code reason = coordinateCodeMine
     | coordinateAdoptable => stamp = "" /\ projected = false /\ holds = false
     | coordinateForeign =>
         cr_Detail reason <> ""
         /\ ((stamp <> "" /\ stamp <> owner /\ cr_Code reason = coordinateCodeForeignParent)
             \/ (stamp = "" /\ projected = true /\ cr_Code reason = coordinateCodeProjection)
             \/ (stamp = "" /\ projected = false /\ holds = true
                 /\ (cr_Code reason = coordinateCodeUnstampedTerminal
                     \/ cr_Code reason = coordinateCodeUnstampedWithResults)))
     end.
Proof.
  cbv zeta. unfold classifyCoordinate.
  destruct (lget (b_annotations existing) AnnotationParentUID =? "") eqn:Es; cbn [negb andb].
  - apply String.eqb_eq in Es.
    destruct (lget (b_annotations existing) AnnotationProjected =? AnnotationProjectedValue).
    { split_and!; [done..|]. right. left. by split_and!. }
    destruct (isTerminalBackupPhase (b_phase existing)) eqn:Et.
    { split_and!; [done..|]. right. right. split_and!; [done..|by left]. }
    destruct (backupHasResults existing) eqn:Er; [|by split_and!].
    split_and!; [done..|]. right. right. split_and!; [done..|by right].
  - apply String.eqb_neq in Es.
    destruct (lget (b_annotations existing) AnnotationParentUID =? owner) eqn:Eo.
    + apply String.eqb_eq in Eo. by split_and!.
    + apply String.eqb_neq in Eo. split_and!; [done..|]. left. by split_and!.
Qed.

Lemma lastProgress_fold vols latest t :
  (fold_left (fun latest v => match FirstAttemptAt v with Some t => later latest t | None => latest end)
     vols latest <= t)%Z
  <-> (latest <= t)%Z /\ forall v u, v ∈ vols -> FirstAttemptAt v = Some u -> (u <= t)%Z.
Proof.
  revert latest. induction vols as [|v vols IH]; intros latest; cbn.
  - split; [intros H; split; [done|inversion 1]|by intros []].
  - rewrite IH. destruct (FirstAttemptAt v) as [x|] eqn:Ef; rewrite ?later_max; split; intros [Hl Hv]; split.
    + lia.
    + intros w u [->|Hw]%elem_of_cons Hu; [rewrite Ef in Hu; injection Hu as <-; lia|by eapply Hv].
    + specialize (Hv v x ltac:(left) Ef). lia.
    + intros w u Hw Hu. eapply Hv; [by right|done].
    + lia.
    + intros w u [->|Hw]%elem_of_cons Hu; [congruence|by eapply Hv].
    + lia.
    + intros w u Hw Hu. eapply Hv; [by right|done].
Qed.

(** The run recorded nothing after [t]. *)
Definition quietSince (b : Backup) (t : Z) : Prop :=
  (b_created b <= t)%Z
  /\ (forall c, FindCondition (st_Conditions (b_status b)) ConditionReady = Some c -> (c_transition c <= t)%Z)
  /\ (forall v u, v ∈ b_volumes b -> FirstAttemptAt v = Some u -> (u <= t)%Z).

Lemma backupLastProgressAt_le b t : (backupLastProgressAt b <= t)%Z <-> quietSince b t.
Proof.
  unfold backupLastProgressAt, quietSince. cbv zeta. rewrite lastProgress_fold.
  destruct (FindCondition (st_Conditions (b_status b)) ConditionReady) as [c|].
  - rewrite later_max. split.
    + intros [Hl Hv]. split_and!; [lia| |done]. intros c' [= <-]. lia.
    + intros (Hb & Hc & Hv). specialize (Hc c eq_refl). split; [lia|done].
  - split; [intros [Hl Hv]; by split_and!|intros (Hb & _ & Hv); by split].
Qed.

Lemma backupAbandonment_true b now pendingDeadline grace :
  (0 <= grace < 2 ^ 63 - 1)%Z ->
  snd (backupAbandonment b now pendingDeadline grace) = true
  <-> (forall v, v ∈ b_volumes b -> volumeSettled v = true \/ overdue now pendingDeadline v)
      /\ quietSince b (now - grace - 1)%Z.
Proof.
  intros Hg. unfold backupAbandonment, backupInFlightReason. rewrite <-backupLastProgressAt_le, <-firstInFlight_none.
  destruct (firstInFlight (b_volumes b) now pendingDeadline =? "") eqn:Ef; cbn [negb].
  - apply String.eqb_eq in Ef. destruct (time_sub now (backupLastProgressAt b) <=? grace)%Z eqn:Eq; cbn.
    + apply Z.leb_le, time_sub_le in Eq; [|lia]. split; [done|]. intros []. lia.
    + apply Z.leb_gt, time_sub_gt in Eq; [|lia]. split; [|done]. intros _. split; [done|lia].
  - apply String.eqb_neq in Ef. by split; [|intros []].
Qed.

(** A run is given up on evidence, never on age: it is abandoned exactly when no
    volume uploads, is being snapshotted, waits for its first attempt or is within
    its Pending budget, and nothing the run recorded, not its condition nor the
    first attempt of a volume, is as recent as the grace. *)
Theorem backupAbandonment_spec (b : Backup) (now pendingDeadline grace : Z)
    (Hg : (0 <= grace < 2 ^ 63 - 1)%Z) :
  snd (backupAbandonment b now pendingDeadline grace) = true
  <-> (forall v, v ∈ b_volumes b -> volumeSettled v = true \/ overdue now pendingDeadline v)
      /\ quietSince b (now - grace - 1)%Z.
Proof. by apply backupAbandonment_true. Qed.

(** What a termination does to one volume. *)
Record terminated (v v' : VolumeStatus) : Prop := {
  te_data : Pvc v' = Pvc v /\ SnapshotID v' = SnapshotID v /\ AddedBytes v' = AddedBytes v
            /\ FirstAttemptAt v' = FirstAttemptAt v;
  te_settled : volumeSettled v = true -> v' = v;
  te_failed : volumeSettled v = false -> Phase v' = VolumePhaseFailed /\ 0 < slen (Reason v') <= 200
}.

Lemma terminateVolume_spec v : terminated v (terminateVolume v).
Proof.
  unfold terminateVolume. fold (volumeSettled v). destruct (volumeSettled v) eqn:Es; [by constructor; [done|done|congruence]|].
  constructor; [done|congruence|]. intros _. split; [done|]. cbn. destruct (Reason v =? "") eqn:Er.
  - unfold slen. cbn. lia.
  - apply shortReason_bounds.
Qed.

Lemma abandoned_phase now evidence b :
  b_phase (abandoned now evidence b) = abandonedTerminalPhase (b_volumes (abandoned now evidence b)).
Proof.
  unfold abandoned, setCompletionTime, setBackupTime. cbv zeta. cbn.
  by destruct (st_BackupTime (b_status b)); cbn; destruct (st_CompletionTime (b_status b)).
Qed.

Lemma abandoned_volumes now evidence b : b_volumes (abandoned now evidence b) = map terminateVolume (b_volumes b).
Proof.
  unfold abandoned, setCompletionTime, setBackupTime. cbv zeta. cbn.
  by destruct (st_BackupTime (b_status b)); cbn; destruct (st_CompletionTime (b_status b)).
Qed.

Lemma abandoned_times now evidence b :
  st_BackupTime (b_status (abandoned now evidence b)) = Some (default now (st_BackupTime (b_status b)))
  /\ st_CompletionTime (b_status (abandoned now evidence b)) = Some (default now (st_CompletionTime (b_status b))).
Proof.
  destruct b as [ns name g cr d l an f sp st]. destruct st as [ph bt ct m vs hs at_ cs]. by destruct bt, ct.
Qed.

Lemma abandoned_identity now evidence b :
  b_namespace (abandoned now evidence b) = b_namespace b /\ b_name (abandoned now evidence b) = b_name b
  /\ b_spec (abandoned now evidence b) = b_spec b /\ b_labels (abandoned now evidence b) = b_labels b
  /\ b_annotations (abandoned now evidence b) = b_annotations b
  /\ b_finalizers (abandoned now evidence b) = b_finalizers b /\ b_deleting (abandoned now evidence b) = b_deleting b.
Proof.
  unfold abandoned, setCompletionTime, setBackupTime. cbv zeta. cbn.
  by destruct (st_BackupTime (b_status b)); cbn; destruct (st_CompletionTime (b_status b)); cbn.
Qed.

Lemma abandoned_terminal now evidence b : isTerminalBackupPhase (b_phase (abandoned now evidence b)) = true.
Proof. rewrite abandoned_phase. unfold abandonedTerminalPhase. by destruct (existsb _ _). Qed.

(** Terminating a run destroys no data: a finished volume keeps everything, its
    snapshot first, every other one is failed with a bounded reason and keeps what
    it had recorded, and the run ends as partly failed exactly when it had a
    completed volume. *)
Theorem terminateAbandonedBackup_spec (now : Z) (updated : option gerr) (evidence : string) (b : Backup) :
  let '(err, b', calls) := terminateAbandonedBackup now updated evidence b in
  Forall2 terminated (b_volumes b) (b_volumes b')
  /\ isTerminalBackupPhase (b_phase b') = true
  /\ (b_phase b' = BackupPhasePartiallyFailed <-> exists v, v ∈ b_volumes b /\ Phase v = VolumePhaseCompleted)
  /\ (exists accepted rest, calls = CStatusUpdate (b_status b') accepted :: rest
        /\ (accepted = true <-> updated = None) /\ (err = None <-> updated = None)).
Proof.
  unfold terminateAbandonedBackup, bind, modify, status_update, the_backup, do_call, ret.
  pose proof (abandoned_volumes now evidence b) as Hv. pose proof (abandoned_phase now evidence b) as Hp.
  pose proof (abandoned_terminal now evidence b) as Ht.
  assert (forall vs, Forall2 terminated vs (map terminateVolume vs)) as Hf.
  { intros vs. induction vs; constructor; [apply terminateVolume_spec|done]. }
  assert (b_phase (abandoned now evidence b) = BackupPhasePartiallyFailed
    <-> exists v, v ∈ b_volumes b /\ Phase v = VolumePhaseCompleted) as Hc.
  { rewrite Hp, Hv. unfold abandonedTerminalPhase. destruct (existsb _ _) eqn:Ex.
    - split; [intros _|done]. apply existsb_elem in Ex as (w & (v & -> & Hin)%list_elem_of_fmap & Hw%String.eqb_eq).
      exists v. split; [done|]. destruct (terminateVolume_spec v) as [_ Hs Hfail].
      destruct (volumeSettled v) eqn:Es; [by rewrite Hs in Hw|].
      destruct (Hfail eq_refl) as [Hp' _]. rewrite Hp' in Hw. discriminate Hw.
    - split; [done|]. intros (v & Hin & Hph). rewrite existsb_none in Ex.
      specialize (Ex (terminateVolume v)). destruct (terminateVolume_spec v) as [_ Hs _].
      rewrite Hs in Ex by (unfold volumeSettled; by rewrite Hph). rewrite Hph in Ex. cbn in Ex.
      discriminate Ex. apply list_elem_of_fmap. exists v. split; [|done].
      symmetry. apply Hs. unfold volumeSettled. by rewrite Hph. }
  destruct updated as [e|]; cbn -[abandoned].
  all: split_and!; [rewrite Hv; apply Hf|done|done|]; do 2 eexists; split; [reflexivity|]; by split.
Qed.
End Theorems.

(** ** Witnesses *)

(** A run stuck for nine hours: its claim was first attempted and never bound,
    another one is done. *)
Definition wit_abandoned : @Backup MapConditionStore :=
  @mkBackup MapConditionStore "team" "nightly-20250807-000000" 1 0 false ∅ ∅ []
    (mkBackupSpec "nightly" "BackupLocation" "offsite" None)
    (@mkBackupStatus MapConditionStore BackupPhasePending None None None
      [mkVolumeStatus "data" "" 0 0 VolumePhasePending "" "" (Some hour) None;
       mkVolumeStatus "logs" "1a2b" 7 7 VolumePhaseCompleted "" "" (Some hour) None] [] 0 ∅).

Lemma summariseBlockedReasons_spec_witness :
  let facts := [mkBlockedNamespaceFacts "b" true false; mkBlockedNamespaceFacts "a" false true;
                mkBlockedNamespaceFacts "b" false false] in
  Sorted string_le (map bk_Reason (summariseBlockedReasons facts))
  /\ NoDup (map bk_Reason (summariseBlockedReasons facts))
  /\ summariseBlockedReasons facts = [mkBlockedReason "a" 1 0 1; mkBlockedReason "b" 2 1 0].
Proof.
  cbv zeta. split_and!; [..|by vm_compute].
  1: apply (proj1 (summariseBlockedReasons_spec [mkBlockedNamespaceFacts "b" true false;
       mkBlockedNamespaceFacts "a" false true; mkBlockedNamespaceFacts "b" false false] ltac:(by vm_compute))).
  apply summariseBlockedReasons_spec. by vm_compute.
Defined.

Lemma backupAbandonment_spec_witness :
  snd (backupAbandonment wit_abandoned (10 * hour) hour scheduleAbandonmentGrace) = true
  /\ quietSince wit_abandoned (6 * hour - 1).
Proof.
  assert (snd (backupAbandonment wit_abandoned (10 * hour) hour scheduleAbandonmentGrace) = true) as H
    by (by vm_compute).
  split; [exact H|].
  apply (proj1 (backupAbandonment_spec wit_abandoned (10 * hour) hour scheduleAbandonmentGrace
    ltac:(by split; vm_compute)) H).
Defined.

Lemma classifyCoordinate_spec_witness :
  fst (classifyCoordinate wit_abandoned "uid" 0) = coordinateForeign
  /\ cr_HasResults (snd (classifyCoordinate wit_abandoned "uid" 0)) = backupHasResults wit_abandoned.
Proof.
  split; [by vm_compute|]. pose proof (classifyCoordinate_spec wit_abandoned "uid" 0) as H. cbv zeta in H.
  destruct (classifyCoordinate wit_abandoned "uid" 0) as [o r]. apply H.
Defined.

Lemma terminateAbandonedBackup_spec_witness :
  let '(_, b', _) := terminateAbandonedBackup (10 * hour) None "stuck" wit_abandoned in
  Forall2 terminated (b_volumes wit_abandoned) (b_volumes b') /\ b_phase b' = BackupPhasePartiallyFailed.
Proof.
  pose proof (terminateAbandonedBackup_spec (10 * hour) None "stuck" wit_abandoned) as H.
  destruct (terminateAbandonedBackup (10 * hour) None "stuck" wit_abandoned) as [[err b'] calls].
  destruct H as (Hv & _ & Hp & _). split; [exact Hv|]. apply Hp.
  exists (mkVolumeStatus "logs" "1a2b" 7 7 VolumePhaseCompleted "" "" (Some hour) None).
  split; [right; left|done].
Defined.
