(* ===== verification/Manifests.v ===== *)
(** * Manifests: the manifest capture of a Backup
    (internal/controller/manifests_phase.go, manifest_rbac.go)

    One mover Job per Backup dumps the namespace's manifests, under a RoleBinding
    that lives as long as the Job.  [advanceManifests] starts it, polls it and
    records its verdict; [teardownManifests] removes both, after the status that
    carries the verdict was written. *)

From S2P Require Import Prelude GoText Cluster Selectors Names Status MoverResult Restic VolumeMachine Backup.
From Stdlib Require Import Ascii String.

#[local] Open Scope string_scope.
#[local] Open Scope pass_scope.

(** ** Constants and names *)

Definition ConditionManifestsComplete : string := "ManifestsComplete".
Definition reasonManifestsComplete : string := "Captured".
Definition reasonManifestsPartial : string := "PartiallyEnumerated".
Definition reasonManifestsFailed : string := "CaptureFailed".
Definition LabelMoverRole : string := "crystalbackup.io/mover-role".
Definition LabelMoverJob : string := "crystalbackup.io/mover-job".
Definition LabelOperatorNS : string := "crystalbackup.io/operator-namespace".
Definition MoverRoleManifest : string := "manifest".

Definition manifestsJobPrefix (namespace backupName : string) : string :=
  sanitizeDNSName (namespace ++ "-" ++ backupName ++ "-manifests") moverNamePrefixMax.

Definition manifestsJobName (prefix : string) : string := prefix ++ "-mover".

Definition manifestsLabels (namespace name : string) (backupLabels : labels) : labels :=
  let ls : labels :=
    <[LabelManagedBy := ManagedByValue]> (<[LabelBackup := name]>
      (<[LabelNamespace := namespace]> (<[LabelMoverRole := MoverRoleManifest]> ∅))) in
  let run := lget backupLabels LabelClusterBackup in
  if run =? "" then ls else <[LabelClusterBackup := run]> ls.

Definition manifestBindingName (jobName : string) : string := "crystal-manifest-" ++ jobName.

(** The operator's configuration the capture reads. *)
Record manifestConfig := mkManifestConfig {
  ManifestReaderClusterRole : string;
  ManifestMoverServiceAccount : string
}.

Definition manifestRoleBinding (r : BackupReconciler) (cfg : manifestConfig)
    (targetNamespace jobName : string) : RoleBinding :=
  mkRoleBinding (manifestBindingName jobName) targetNamespace
    (<[LabelManagedBy := ManagedByValue]> (<[LabelMoverRole := MoverRoleManifest]>
      (<[LabelMoverJob := jobName]> (<[LabelOperatorNS := OperatorNamespace r]> ∅))))
    (ManifestReaderClusterRole cfg) (ManifestMoverServiceAccount cfg) (OperatorNamespace r).

(** What the outside answers to one step of the capture. *)
Record manifest_answers := mkManifestAnswers {
  ma_job : result Job;                     (* Get of the Job *)
  ma_pods : result (list Pod);             (* List of its pods *)
  ma_accessKey : result string;            (* Secrets.GetValue, twice *)
  ma_secretKey : result string;
  ma_createSecret : option gerr;           (* Create of the creds Secret *)
  ma_createBinding : option gerr;          (* Create of the RoleBinding *)
  ma_createJob : option gerr               (* Create of the Job *)
}.

Section Manifests.
Context `{CS : ConditionStore}.

(** Outside the source: the JSON codec of the mover's result, as in [VolumeMachine]. *)
Variable Unmarshal : string -> result MoverResult.
Variable Quote : string -> string.

Variable r : BackupReconciler.
Variable cfg : manifestConfig.

(** ** Operations *)

(** [ensureManifestRoleBinding]: an existing binding is adopted. *)
Definition ensureManifestRoleBinding (ma : manifest_answers) (targetNamespace jobName : string)
    : pass (option gerr) :=
  do_call (CRoleBinding (manifestRoleBinding r cfg targetNamespace jobName)) ;;;
  ret (match ma_createBinding ma with
       | None => None
       | Some e =>
           if IsAlreadyExists e then None
           else Some (wrap_err ("create transient RoleBinding " ++ targetNamespace ++ "/"
                        ++ manifestBindingName jobName ++ " to " ++ ManifestReaderClusterRole cfg) e)
       end).

Definition deleteManifestRoleBinding (targetNamespace jobName : string) : pass () :=
  do_call (CDeleteRoleBinding targetNamespace (manifestBindingName jobName)).

Definition deleteMoverJobAndSecret (prefix : string) : pass () := do_call (CDeleteMover prefix).

(** Its errors are only logged. *)
Definition teardownManifests (prefix : string) : pass () :=
  b <-- the_backup ;;
  deleteManifestRoleBinding (b_namespace b) (manifestsJobName prefix) ;;;
  deleteMoverJobAndSecret prefix.

Definition manifestEnv (namespace : string) (rc : backupRunContext) (excludeSecretData : bool)
    : list (string * string) :=
  [("CRYSTAL_MANIFESTS_NAMESPACE", namespace);
   ("CRYSTAL_MANIFESTS_CLUSTER_ID", rc_clusterID rc);
   ("CRYSTAL_MANIFESTS_BACKUP_NAME", rc_run rc);
   ("CRYSTAL_MANIFESTS_EXCLUDE_SECRET_DATA", if excludeSecretData then "true" else "false")].

Fixpoint do_effects (fx : list effect) : pass () :=
  match fx with [] => ret () | e :: fx => do_call (CVolume e) ;;; do_effects fx end.

Definition startManifestsJob (ma : manifest_answers) (rc : backupRunContext) (jobName : string)
    (excludeSecretData : bool) : pass (option gerr) :=
  b <-- the_backup ;;
  let ls := manifestsLabels (b_namespace b) (b_name b) (b_labels b) in
  let '(serr, fx) := ensureMoverCredsSecret r (ma_accessKey ma) (ma_secretKey ma) (ma_createSecret ma)
                       jobName (rc_s3CredsSecret rc) (rc_credsNamespace rc) in
  do_effects fx ;;;
  match serr with
  | Some e => ret (Some e)
  | None =>
      berr <-- ensureManifestRoleBinding ma (b_namespace b) jobName ;;
      match berr with
      | Some e => ret (Some e)
      | None =>
          let id := ManifestsIdentity (rc_clusterID rc) (rc_tenant rc) (b_namespace b)
                      (rc_scheduleRef rc) (rc_run rc) in
          do_call (CManifestJob jobName (resticBackupArgs id) ls
                     (manifestEnv (b_namespace b) rc excludeSecretData)) ;;;
          match ma_createJob ma with
          | Some e =>
              if IsAlreadyExists e then ret None
              else
                deleteManifestRoleBinding (b_namespace b) jobName ;;;
                ret (Some (wrap_err ("create manifest mover Job " ++ OperatorNamespace r ++ "/" ++ jobName) e))
          | None => ret None
          end
      end
  end.

Definition recordManifestsFailure (reason : string) (b : Backup) : Backup :=
  set_condition ConditionManifestsComplete ConditionFalse reasonManifestsFailed
    (if reason =? "" then "the manifest mover reported a failure with no reason" else reason) b.

(** The verdict of a finished Job, in memory. *)
Definition recordManifestsResult (res : result MoverResult) (b : Backup) : Backup :=
  match res with
  | Err e => recordManifestsFailure ("could not read the mover result: " ++ err_text e) b
  | Ok result =>
      if negb (mr_OK result) then recordManifestsFailure (mr_Error result) b
      else
        let b := set_manifests (Some (mkManifestsStatus (mr_SnapshotID result) (mr_ResourceCount result))) b in
        if mr_IncompleteManifests result then
          set_condition ConditionManifestsComplete ConditionFalse reasonManifestsPartial
            ("captured " ++ Itoa (mr_ResourceCount result) ++ " resource(s); some kinds could not be enumerated — "
               ++ "see the warnings in index.json of snapshot " ++ mr_SnapshotID result) b
        else
          set_condition ConditionManifestsComplete ConditionTrue reasonManifestsComplete
            ("captured " ++ Itoa (mr_ResourceCount result) ++ " resource(s)") b
  end.

(** The capture has a verdict: a snapshot, or a recorded failure. *)
Definition manifestsSettled (b : Backup) : bool :=
  match st_Manifests (b_status b) with
  | Some _ => true
  | None =>
      match FindCondition (st_Conditions (b_status b)) ConditionManifestsComplete with
      | Some c => c_reason c =? reasonManifestsFailed
      | None => false
      end
  end.

(** Whether the capture is over, the prefix to tear down ("" for none), the error. *)
Definition advanceManifests (ma : manifest_answers) (rc : backupRunContext)
    (includeManifests excludeSecretData : bool) : pass (bool * string * option gerr) :=
  b <-- the_backup ;;
  if negb includeManifests then ret (true, "", None)
  else if manifestsSettled b then ret (true, "", None)
  else
    let prefix := manifestsJobPrefix (b_namespace b) (b_name b) in
    let jobName := manifestsJobName prefix in
    match ma_job ma with
    | Err e =>
        if IsNotFound e then
          err <-- startManifestsJob ma rc jobName excludeSecretData ;; ret (false, "", err)
        else ret (false, "", Some (wrap_err ("get manifest mover Job " ++ OperatorNamespace r ++ "/" ++ jobName) e))
    | Ok job =>
        if (j_succeeded job =? 0)%Z && (j_failed job =? 0)%Z then ret (false, "", None)
        else
          modify (recordManifestsResult (fst (readMoverResult Unmarshal Quote (OperatorNamespace r) (ma_pods ma) jobName))) ;;;
          ret (true, prefix, None)
    end.

(** ** Correctness *)

Context {CSL : ConditionStoreLaws CS}.

(** The grant of a call list: the Job comes after its RoleBinding, and the binding
    is deleted again exactly when the step fails. *)
Definition granted (namespace jobName : string) (failed : bool) (calls : list call) : Prop :=
  forall name args ls env, CManifestJob name args ls env ∈ calls ->
    name = jobName /\
    exists pre post, calls = (pre ++ CManifestJob name args ls env :: post)%list
      /\ CRoleBinding (manifestRoleBinding r cfg namespace jobName) ∈ pre
      /\ post = (if failed then [CDeleteRoleBinding namespace (manifestBindingName jobName)] else []).

Lemma do_effects_run fx b : do_effects fx b = ((), b, map CVolume fx).
Proof.
  revert b. induction fx as [|e fx IH]; intros b; [done|]. cbn. unfold bind, do_call. by rewrite IH.
Qed.

Lemma no_job_granted namespace jobName failed calls :
  Forall (fun c => match c with CManifestJob _ _ _ _ => False | _ => True end) calls ->
  granted namespace jobName failed calls.
Proof. intros Hn name args ls env Hin. rewrite Forall_forall in Hn. by destruct (Hn _ Hin). Qed.

Lemma startManifestsJob_spec ma rc jobName exclude b :
  let '(err, b', calls) := startManifestsJob ma rc jobName exclude b in
  b' = b /\ granted (b_namespace b) jobName (match err with Some _ => true | None => false end) calls.
Proof.
  unfold startManifestsJob, ensureManifestRoleBinding, deleteManifestRoleBinding.
  destruct (ensureMoverCredsSecret _ _ _ _ _ _ _) as [serr fx] eqn:Ef.
  unfold bind, the_backup, ret, do_call. rewrite do_effects_run. rewrite ?Ef. cbn.
  assert (Forall (fun c => match c with CManifestJob _ _ _ _ => False | _ => True end) (map CVolume fx)) as Hfx.
  { by rewrite Forall_map, Forall_forall. }
  destruct serr as [e|]; cbn.
  { split; [done|]. apply no_job_granted. by rewrite app_nil_r. }
  assert (forall e : option gerr, forall post,
    Forall (fun c => match c with CManifestJob _ _ _ _ => False | _ => True end) post ->
    post = (if match e with Some _ => true | None => false end
            then [CDeleteRoleBinding (b_namespace b) (manifestBindingName jobName)] else []) ->
    granted (b_namespace b) jobName (match e with Some _ => true | None => false end)
      (map CVolume fx ++ CRoleBinding (manifestRoleBinding r cfg (b_namespace b) jobName)
       :: CManifestJob jobName (resticBackupArgs (ManifestsIdentity (rc_clusterID rc) (rc_tenant rc)
            (b_namespace b) (rc_scheduleRef rc) (rc_run rc)))
            (manifestsLabels (b_namespace b) (b_name b) (b_labels b))
            (manifestEnv (b_namespace b) rc exclude) :: post)%list) as Hg.
  { intros e post Hn Hp name args ls env Hin. rewrite Forall_forall in Hfx, Hn.
    apply elem_of_app in Hin as [Hin|[Hin|[Hin|Hin]%elem_of_cons]%elem_of_cons];
      [by destruct (Hfx _ Hin)|done| |by destruct (Hn _ Hin)].
    injection Hin as -> -> -> ->. split; [done|].
    exists (map CVolume fx ++ [CRoleBinding (manifestRoleBinding r cfg (b_namespace b) jobName)])%list, post.
    split; [by rewrite <-app_assoc|]. split; [apply elem_of_app; right; left|done]. }
  destruct (ma_createBinding ma) as [e|] eqn:Eb; [destruct (IsAlreadyExists e) eqn:Ee|]; cbn.
  2: { split; [done|]. apply no_job_granted. rewrite Forall_app. by repeat constructor. }
  all: destruct (ma_createJob ma) as [e'|]; [destruct (IsAlreadyExists e')|]; cbn; (split; [done|]);
    try (apply (Hg None []); [constructor|done]).
  all: apply (Hg (Some (wrap_err ("create manifest mover Job " ++ OperatorNamespace r ++ "/" ++ jobName) e'))
    [CDeleteRoleBinding (b_namespace b) (manifestBindingName jobName)]); [by repeat constructor|done].
Qed.

Lemma recordManifestsResult_settled res b : manifestsSettled (recordManifestsResult res b) = true.
Proof.
  assert (forall m b', manifestsSettled (recordManifestsFailure m b') = true) as Hf.
  { intros m b'. unfold manifestsSettled, recordManifestsFailure. cbn.
    destruct (st_Manifests (b_status b')); [done|].
    match goal with |- context [SetCondition ?cs ?t ?s ?re ?ms ?g] =>
      destruct (FindCondition_SetCondition cs t s re ms g) as [tr ->] end. done. }
  unfold recordManifestsResult. destruct res as [result|e]; [|apply Hf].
  destruct (negb (mr_OK result)); [apply Hf|]. by destruct (mr_IncompleteManifests result).
Qed.

Lemma manifestsJobPrefix_nonempty namespace name : manifestsJobPrefix namespace name <> "".
Proof. unfold manifestsJobPrefix. apply sanitizeDNSName_nonempty. Qed.

Lemma advanceManifests_outcome (ma : manifest_answers) (rc : backupRunContext)
    (include exclude : bool) (b : Backup) :
  let '(done, teardown, err, b', calls) := advanceManifests ma rc include exclude b in
  let prefix := manifestsJobPrefix (b_namespace b) (b_name b) in
  done = (negb include || manifestsSettled b')
  /\ teardown = (if include && negb (manifestsSettled b) && manifestsSettled b' then prefix else "")
  /\ (teardown = "" -> b' = b)
  /\ (done = true -> calls = [] /\ err = None).
Proof.
  unfold advanceManifests, bind, the_backup.
  destruct include; cbn [negb orb andb]; [|cbn; by split_and!].
  destruct (manifestsSettled b) eqn:Es; [cbn; rewrite Es; by split_and!|].
  destruct (ma_job ma) as [job|e].
  - destruct ((j_succeeded job =? 0)%Z && (j_failed job =? 0)%Z); cbn; rewrite ?Es; [by split_and!|].
    unfold modify, ret. rewrite recordManifestsResult_settled. cbn.
    split_and!; try done. intros Hp. by apply manifestsJobPrefix_nonempty in Hp.
  - destruct (IsNotFound e); [|cbn; rewrite Es; by split_and!].
    pose proof (startManifestsJob_spec ma rc
      (manifestsJobName (manifestsJobPrefix (b_namespace b) (b_name b))) exclude b) as Hs.
    destruct (startManifestsJob _ _ _ _ b) as [[err b'] calls]. destruct Hs as [-> _].
    cbn. rewrite Es. by split_and!.
Qed.

Lemma advanceManifests_granted (ma : manifest_answers) (rc : backupRunContext)
    (include exclude : bool) (b : Backup) :
  let '(_, _, err, _, calls) := advanceManifests ma rc include exclude b in
  granted (b_namespace b) (manifestsJobName (manifestsJobPrefix (b_namespace b) (b_name b)))
    (match err with Some _ => true | None => false end) calls.
Proof.
  unfold advanceManifests, bind, the_backup.
  destruct include; cbn [negb]; [|by apply no_job_granted].
  destruct (manifestsSettled b); [by apply no_job_granted|].
  destruct (ma_job ma) as [job|e].
  { destruct ((j_succeeded job =? 0)%Z && _); by apply no_job_granted. }
  destruct (IsNotFound e); [|by apply no_job_granted].
  pose proof (startManifestsJob_spec ma rc
    (manifestsJobName (manifestsJobPrefix (b_namespace b) (b_name b))) exclude b) as Hs.
  destruct (startManifestsJob _ _ _ _ b) as [[err b'] calls]. destruct Hs as [_ Hg].
  cbn. by rewrite app_nil_r.
Qed.

(** One step of the capture: it is over exactly when the run wants none or a
    verdict stands; a prefix to tear down is returned only by the step that records
    the verdict, which deletes nothing itself; every other step leaves the object
    alone; and a Job never starts before its RoleBinding, which a failed start
    takes back. *)
Theorem advanceManifests_spec (ma : manifest_answers) (rc : backupRunContext)
    (include exclude : bool) (b : Backup) :
  let '(done, teardown, err, b', calls) := advanceManifests ma rc include exclude b in
  let prefix := manifestsJobPrefix (b_namespace b) (b_name b) in
  done = (negb include || manifestsSettled b')
  /\ teardown = (if include && negb (manifestsSettled b) && manifestsSettled b' then prefix else "")
  /\ (teardown = "" -> b' = b)
  /\ (done = true -> calls = [] /\ err = None)
  /\ granted (b_namespace b) (manifestsJobName prefix)
       (match err with Some _ => true | None => false end) calls.
Proof.
  pose proof (advanceManifests_outcome ma rc include exclude b) as Ho.
  pose proof (advanceManifests_granted ma rc include exclude b) as Hg.
  destruct (advanceManifests ma rc include exclude b) as [[[[done td] err] b'] calls].
  destruct Ho as (? & ? & ? & ?). by split_and!.
Qed.

(** A capture that may still succeed is given up: after the first failed pod of
    a Job that has retries left, where the volume machine goes on waiting, the
    capture is recorded failed for good and its Job is torn down. *)
Theorem advanceManifests_ignores_retries (ma : manifest_answers) (rc : backupRunContext)
    (exclude : bool) (b : Backup) (job : Job)
    (Hjob : ma_job ma = Ok job) (Hrun : jobComplete job = false)
    (Hretry : jobFailed job (rc_backoffLimit rc) = false) (Hfail : (0 < j_failed job)%Z)
    (Hopen : manifestsSettled b = false)
    (Hres : forall result node, readMoverResult Unmarshal Quote (OperatorNamespace r) (ma_pods ma)
       (manifestsJobName (manifestsJobPrefix (b_namespace b) (b_name b))) = (Ok result, node) ->
       mr_OK result = false) :
  let '(done, teardown, err, b', calls) := advanceManifests ma rc true exclude b in
  done = true /\ teardown = manifestsJobPrefix (b_namespace b) (b_name b)
  /\ st_Manifests (b_status b') = None
  /\ exists c, FindCondition (st_Conditions (b_status b')) ConditionManifestsComplete = Some c
       /\ c_reason c = reasonManifestsFailed.
Proof.
  unfold advanceManifests, bind, the_backup. cbn [negb]. rewrite Hopen, Hjob.
  destruct (Z.eqb_spec (j_failed job) 0); [lia|]. rewrite andb_false_r. cbn.
  assert (st_Manifests (b_status b) = None) as Hnone.
  { unfold manifestsSettled in Hopen. by destruct (st_Manifests (b_status b)). }
  assert (forall m, st_Manifests (b_status (recordManifestsFailure m b)) = None
    /\ exists c, FindCondition (st_Conditions (b_status (recordManifestsFailure m b)))
         ConditionManifestsComplete = Some c /\ c_reason c = reasonManifestsFailed) as Hf.
  { intros m. split; [done|]. unfold recordManifestsFailure. cbn.
    match goal with |- context [SetCondition ?cs ?t ?s ?re ?ms ?g] =>
      destruct (FindCondition_SetCondition cs t s re ms g) as [tr ->] end. eexists. by split. }
  destruct (readMoverResult _ _ _ _ _) as [[result|e] node] eqn:Er; unfold modify, ret;
    cbn -[recordManifestsFailure]; [rewrite (Hres _ _ eq_refl); cbn -[recordManifestsFailure]|];
    (split; [done|]; split; [done|]; apply Hf).
Qed.
End Manifests.

(** ** Concrete inputs *)

Definition wit_manifestConfig : manifestConfig := mkManifestConfig "reader" "mover".

Definition wit_manifest_answers (job : Job) : manifest_answers :=
  mkManifestAnswers (Ok job) (a_resultPods wit_answers) (Ok "k") (Ok "s") None None None.

Definition wit_failed_result : MoverResult := zeroResult.

Definition wit_backup : @Backup MapConditionStore :=
  @mkBackup MapConditionStore "team" "nightly" 1 0 false ∅ ∅ [] (mkBackupSpec "" "" "" None)
    (@mkBackupStatus MapConditionStore "" None None None [] [] 0 ∅).

(** ** Shared names *)

(** The capture's objects are those of a claim called manifests: for every
    Backup the two Job names agree, and there is a run in which the volume machine
    and the capture read one and the same Job, so that the Backup records the
    volume's data snapshot as its manifests. *)
Theorem manifests_share_volume_job :
  (forall namespace name, manifestsJobName (manifestsJobPrefix namespace name)
     = moverNamePrefix namespace name "manifests" ++ "-mover")
  /\ exists (Unmarshal : string -> result MoverResult) r cfg a ma vol rc b,
       Pvc vol = "manifests" /\ ma_job ma = a_job a /\ ma_pods ma = a_resultPods a
       /\ let d := advanceVolume Unmarshal id r a (b_key b) vol rc in
          let '(_, _, _, b', _) := advanceManifests (CS := MapConditionStore) Unmarshal id r cfg ma rc true false b in
          Phase (ad_vol d) = VolumePhaseCompleted
          /\ option_map ms_SnapshotID (st_Manifests (b_status b')) = Some (SnapshotID (ad_vol d)).
Proof.
  split.
  - intros namespace name. unfold manifestsJobName, manifestsJobPrefix, moverNamePrefix.
    do 2 f_equal.
  - exists wit_unmarshal, wit_reconciler, wit_manifestConfig, wit_answers,
      (wit_manifest_answers (mkJob "j" ∅ 0 None 1 0 [])),
      (mkVolumeStatus "manifests" "" 0 0 VolumePhaseUploading "" "" (Some 0%Z) (Some 0%Z)), wit_rc, wit_backup.
    by vm_compute.
Qed.

(** ** Witnesses *)

(** A Job with one failed pod and two retries left. *)
Lemma advanceManifests_ignores_retries_witness :
  let job := mkJob "j" ∅ 0 None 0 1 [] in
  jobFailed job (rc_backoffLimit wit_rc) = false /\
  let '(done, teardown, err, b', calls) :=
    advanceManifests (fun _ => Ok wit_failed_result) id wit_reconciler wit_manifestConfig
      (wit_manifest_answers job) wit_rc true false wit_backup in
  done = true /\ teardown = manifestsJobPrefix (b_namespace wit_backup) (b_name wit_backup)
  /\ st_Manifests (b_status b') = None
  /\ exists c, FindCondition (st_Conditions (b_status b')) ConditionManifestsComplete = Some c
       /\ c_reason c = reasonManifestsFailed.
Proof.
  cbv zeta. split; [reflexivity|].
  apply (advanceManifests_ignores_retries (fun _ => Ok wit_failed_result) id wit_reconciler wit_manifestConfig
    (wit_manifest_answers (mkJob "j" ∅ 0 None 0 1 [])) wit_rc false wit_backup (mkJob "j" ∅ 0 None 0 1 []));
    try reflexivity.
  intros result node. vm_compute. intros H. injection H as <- <-. reflexivity.
Defined.


(** A capture whose Job has succeeded. *)
Lemma advanceManifests_spec_witness :
  let '(done, teardown, err, b', calls) :=
    advanceManifests wit_unmarshal id wit_reconciler wit_manifestConfig
      (wit_manifest_answers (mkJob "j" ∅ 0 None 1 0 [])) wit_rc true false wit_backup in
  let prefix := manifestsJobPrefix (b_namespace wit_backup) (b_name wit_backup) in
  done = (negb true || manifestsSettled b')
  /\ teardown = (if true && negb (manifestsSettled wit_backup) && manifestsSettled b' then prefix else "")
  /\ (teardown = "" -> b' = wit_backup)
  /\ (done = true -> calls = [] /\ err = None)
  /\ granted wit_reconciler wit_manifestConfig (b_namespace wit_backup) (manifestsJobName prefix)
       (match err with Some _ => true | None => false end) calls.
Proof.
  apply (advanceManifests_spec wit_unmarshal id wit_reconciler wit_manifestConfig
    (wit_manifest_answers (mkJob "j" ∅ 0 None 1 0 [])) wit_rc true false wit_backup).
Defined.
