(* ===== verification/Reaper.v ===== *)
(** * Reaper: the sweep of what a teardown left behind
    (internal/controller/reaper.go)

    Every ten minutes the reaper lists the exposure objects, the snapshots, the
    restore volumes and the transient grants of the operator, and deletes those
    whose owner is gone or done with them.  A deletion is read back: only an object
    that is confirmed gone counts as reaped. *)

From Stdlib Require Import Ascii String.
From S2P Require Import Prelude GoText Cluster Names Status VolumeMachine Backup Manifests Program Api Exposer RestoreExposer.

#[local] Open Scope string_scope.
#[local] Notation length := List.length.

Definition defaultReaperInterval : Z := (10 * minute)%Z.
Definition defaultReaperMinAge : Z := (30 * minute)%Z.
Definition manifestBindingMinAge : Z := (2 * minute)%Z.
Definition eventReasonReapStuck : string := "OrphanReapStuck".

(** The [kind] label values. *)
Definition kindLabel (k : kind) : string :=
  match k with
  | KJob => "Job" | KPVC => "PersistentVolumeClaim" | KSecret => "Secret" | KPV => "PersistentVolume"
  | KVolumeSnapshot => "VolumeSnapshot" | KVolumeSnapshotContent => "VolumeSnapshotContent"
  | KRoleBinding => "RoleBinding" | KClusterRoleBinding => "ClusterRoleBinding"
  | _ => ""
  end.

Inductive reapOutcome := reapConfirmedGone | reapStuck | reapRequested.

Notation reapTally := (gmap string Z).

Definition markStuck (kind : string) (t : reapTally) : reapTally := <[kind := (default 0 (t !! kind) + 1)%Z]> t.

Record OrphanReaper := mkOrphanReaper {
  or_OperatorNamespace : string;
  or_MinAge : Z;
  or_hasRecorder : bool
}.

Section Reaper.
Variable r : OrphanReaper.

(** ** The deletion of one object *)

(** The outcome, the finalizers of a stuck object, the error of the read-back. *)
Definition confirmReap {k} (obj : Object k) : api (reapOutcome * list string * option gerr) :=
  let! p := get k (o_namespace obj) (o_name obj) in
  Done match p with
  | Err e => if absentOK e then (reapConfirmedGone, [], None) else (reapRequested, [], Some e)
  | Ok probe =>
      let uid := m_UID (o_meta obj) in
      let found := m_UID (o_meta probe) in
      if negb (uid =? "") && negb (found =? "") && negb (found =? uid) then (reapConfirmedGone, [], None)
      else if m_Deleting (o_meta probe) then (reapStuck, m_Finalizers (o_meta probe), None)
      else (reapRequested, [], None)
  end.

(** The Event of a stuck deletion. *)
Definition stuckNote (held : string) : string :=
  "Deletion of this orphaned CrystalBackup object has been requested but has not completed: "
  ++ "it still exists with a deletionTimestamp and is held by finalizer(s) " ++ held ++ ". CrystalBackup "
  ++ "will not remove a finalizer it does not own, so this will not clear on its own — "
  ++ "the controller behind that finalizer must release it, or an administrator must.".

Definition emitStuck {k} (obj : Object k) (finalizers : list string) : api unit :=
  if or_hasRecorder r then
    call (I := kube) (AEmit k (o_namespace obj) (o_name obj) EventTypeWarning eventReasonReapStuck "Reap"
      (stuckNote (String.concat "," finalizers)))
  else Done tt.

(** What was achieved, [None] when the preparation or the deletion failed. *)
Definition reapObject {k} (obj : Object k) (prepare : api (result unit)) : api (option reapOutcome) :=
  let! p := prepare in
  let failed := match p with Ok tt => false | Err e => negb (absentOK e) end in
  if failed then Done None
  else
    let alreadyPending := m_Deleting (o_meta obj) in
    let! err := if alreadyPending then Done None else delete k (o_namespace obj) (o_name obj) in
    let failed := match err with Some e => negb (absentOK e) | None => false end in
    if failed then Done None
    else
      let! c := confirmReap obj in
      let '(outcome, finalizers, _) := c in
      match outcome with
      | reapStuck => let! _ := emitStuck obj finalizers in Done (Some outcome)
      | _ => Done (Some outcome)
      end.

Definition reapAndReport {k} (tally : reapTally) (obj : Object k) (prepare : api (result unit)) : api reapTally :=
  let! outcome := reapObject obj prepare in
  Done (match outcome with Some reapStuck => markStuck (kindLabel k) tally | _ => tally end).

Definition noPrepare : api (result unit) := Done (Ok tt).

(** ** Owners *)

Definition restoreOrphaned (namespace name : string) : api (result bool) :=
  if namespace =? "" then Done (Ok false)
  else
    let! p := get KRestore namespace name in
    Done match p with
    | Err e => if IsNotFound e then Ok true else Err e
    | Ok restore =>
        if m_Deleting (o_meta restore) then Ok false else Ok (IsTerminalRestorePhase (rv_Phase (o_body restore)))
    end.

Definition clusterRestoreOrphaned (name : string) : api (result bool) :=
  let! p := get KClusterRestore "" name in
  Done match p with
  | Err e => if IsNotFound e then Ok true else Err e
  | Ok cr => if m_Deleting (o_meta cr) then Ok false else Ok (IsTerminalRestorePhase (rv_Phase (o_body cr)))
  end.

(** The first volume of the claim. *)
Definition volumeOf (b : Object KBackup) (pvc : string) : option VolumeStatus :=
  List.find (fun v => Pvc v =? pvc) (bv_Volumes (o_body b)).

Definition backupMayStillNeedExposure (b : Object KBackup) (pvc : string) : bool :=
  match volumeOf b pvc with
  | Some v => negb (volumePhaseTerminal (Phase v)) || m_Deleting (o_meta b)
  | None => negb (isTerminalBackupPhase (bv_Phase (o_body b)))
  end.

Definition unattributedExposureOrphaned (ns pvc : string) : api (result bool) :=
  if pvc =? "" then Done (Ok false)
  else
    let! p := list_ KBackup (mkSelector (Some ns) ∅ []) in
    Done match p with
    | Err e => Err (wrap_err ("list Backups in " ++ ns ++ " to resolve an unattributed exposure object") e)
    | Ok items => Ok (negb (existsb (fun b => backupMayStillNeedExposure b pvc) items))
    end.

Definition backupOrphaned (ns name pvc : string) : api (result bool) :=
  let! p := get KBackup ns name in
  Done match p with
  | Err e => if IsNotFound e then Ok true else Err e
  | Ok backup =>
      if m_Deleting (o_meta backup) then Ok false
      else
        match volumeOf backup pvc with
        | Some v => Ok (volumePhaseTerminal (Phase v))
        | None => Ok true
        end
  end.

Definition orphaned {k} (obj : Object k) (cutoff : Z) : api (result bool) :=
  let ls := o_labels obj in
  if lget ls LabelPVC =? "" then Done (Ok false)
  else if time_after (m_Created (o_meta obj)) cutoff then Done (Ok false)
  else if negb (lget ls LabelRestore =? "") then restoreOrphaned (lget ls LabelNamespace) (lget ls LabelRestore)
  else if negb (lget ls LabelClusterRestore =? "") then clusterRestoreOrphaned (lget ls LabelClusterRestore)
  else if lget ls LabelNamespace =? "" then Done (Ok false)
  else if ownerBackupNameFromLabels ls =? "" then
    unattributedExposureOrphaned (lget ls LabelNamespace) (lget ls LabelPVC)
  else backupOrphaned (lget ls LabelNamespace) (ownerBackupNameFromLabels ls) (lget ls LabelPVC).

(** An object with its verdict: reaped only when it is an orphan's. *)
Definition reapOrphan {k} (cutoff : Z) (prepare : Object k -> api (result unit)) (tally : reapTally) (obj : Object k)
    : api reapTally :=
  let! o := orphaned obj cutoff in
  match o with
  | Ok true => reapAndReport tally obj (prepare obj)
  | _ => Done tally
  end.

(** ** Restore volumes *)

Definition classReclaimPolicy (scName : string) : api string :=
  if scName =? "" then Done ReclaimDelete
  else
    let! p := get KStorageClass "" scName in
    Done match p with
    | Ok sc => default ReclaimDelete (sc_ReclaimPolicy (o_body sc))
    | Err _ => ReclaimDelete
    end.

(** The labels without those of the operator's domain. *)
Definition stripOperatorLabels (ls : labels) : labels :=
  filter (fun kv => HasPrefix kv.1 "crystalbackup.io/" = false) ls.

(** Whether the final claim was read bound to the volume. *)
Definition deliveredTo (pv : Object KPV) : api bool :=
  match pv_ClaimRef (o_body pv) with
  | Some (ns, name) =>
      if ns =? or_OperatorNamespace r then Done false
      else
        let! p := get KPVC ns name in
        Done match p with Ok final => pc_VolumeName (o_body final) =? o_name pv | Err _ => false end
  | None => Done false
  end.

Definition reapTransplant (pv : Object KPV) : api unit :=
  let! delivered := deliveredTo pv in
  if delivered then
    let! policy := classReclaimPolicy (pv_StorageClassName (o_body pv)) in
    let! _ := patch KPV pv (set_o_labels (stripOperatorLabels (o_labels pv)) (set_pv_body (set_pv_policy policy) pv)) in
    Done tt
  else if pv_ReclaimPolicy (o_body pv) =? ReclaimDelete then Done tt
  else
    let! _ := patch KPV pv (set_pv_body (set_pv_policy ReclaimDelete) pv) in
    Done tt.

Definition reapRestorePV (cutoff : Z) (tally : reapTally) (pv : Object KPV) : api reapTally :=
  let! o := orphaned pv cutoff in
  match o with
  | Ok true =>
      let role := lget (o_labels pv) LabelPVRole in
      if role =? PVRoleTwin then reapAndReport tally pv noPrepare
      else if role =? PVRoleTransplant then let! _ := reapTransplant pv in Done tally
      else Done tally
  | _ => Done tally
  end.

(** ** Snapshots *)

Definition managed : labels := {[ LabelManagedBy := ManagedByValue ]}.

(** Static contents first, then the snapshots, then the dynamic contents. *)
Definition reapSnapshotObjects (cutoff : Z) (tally : reapTally) : api reapTally :=
  let! c := list_ KVolumeSnapshotContent (mkSelector None managed [LabelPVC]) in
  match c with
  | Err _ => Done tally
  | Ok vscs =>
      let! s := list_ KVolumeSnapshot (mkSelector None managed [LabelPVC]) in
      match s with
      | Err _ => Done tally
      | Ok vss =>
          let staticVSCs := List.filter IsPreProvisionedContent vscs in
          let dynamicVSCs := List.filter (fun c => negb (IsPreProvisionedContent c)) vscs in
          let! tally := foldM (reapOrphan cutoff PrepareOrphanVolumeSnapshotContentForReclaim) tally staticVSCs in
          let! tally := foldM (reapOrphan cutoff (fun _ => noPrepare)) tally vss in
          foldM (reapOrphan cutoff PrepareOrphanVolumeSnapshotContentForReclaim) tally dynamicVSCs
      end
  end.

(** ** Transient grants *)

Definition grants : labels :=
  <[LabelOperatorNS := or_OperatorNamespace r]> (<[LabelMoverRole := MoverRoleManifest]> managed).

(** One binding, of either scope. *)
Definition reapBinding {k} (cutoff : Z) (tally : reapTally) (rb : Object k) : api reapTally :=
  if time_after (m_Created (o_meta rb)) cutoff then Done tally
  else
    let jobName := lget (o_labels rb) LabelMoverJob in
    if jobName =? "" then Done tally
    else
      let! j := get KJob (or_OperatorNamespace r) jobName in
      match j with
      | Err e => if IsNotFound e then reapAndReport tally rb noPrepare else Done tally
      | Ok job =>
          if (js_Succeeded (o_body job) =? 0)%Z && (js_Failed (o_body job) =? 0)%Z then Done tally
          else reapAndReport tally rb noPrepare
      end.

Definition reapBindings (k : kind) (tally : reapTally) : api reapTally :=
  let! l := list_ k (mkSelector None grants []) in
  match l with
  | Err _ => Done tally
  | Ok bindings =>
      let! t := now in
      foldM (reapBinding (t - manifestBindingMinAge)%Z) tally bindings
  end.

Definition reapManifestBindings : reapTally -> api reapTally := reapBindings KRoleBinding.
Definition reapClusterManifestBindings : reapTally -> api reapTally := reapBindings KClusterRoleBinding.

(** ** The sweep *)

Definition ownedByRun : selector := mkSelector (Some (or_OperatorNamespace r)) managed [LabelPVC].

(** The tally that is published, or the error of a listing. *)
Definition sweepOnce : api (result reapTally) :=
  let! t := now in
  let cutoff := (t - or_MinAge r)%Z in
  let! jobs := list_ KJob ownedByRun in
  match jobs with Err e => Done (Err e) | Ok jobs =>
  let! pvcs := list_ KPVC ownedByRun in
  match pvcs with Err e => Done (Err e) | Ok pvcs =>
  let! secrets := list_ KSecret ownedByRun in
  match secrets with Err e => Done (Err e) | Ok secrets =>
  let! pvs := list_ KPV (mkSelector None ∅ [LabelPVRole]) in
  match pvs with Err e => Done (Err e) | Ok pvs =>
      let! tally := foldM (reapOrphan cutoff (fun _ => noPrepare)) ∅ jobs in
      let! tally := foldM (reapOrphan cutoff (fun _ => noPrepare)) tally pvcs in
      let! tally := foldM (reapOrphan cutoff (fun _ => noPrepare)) tally secrets in
      let! tally := foldM (reapRestorePV cutoff) tally pvs in
      let! tally := reapSnapshotObjects cutoff tally in
      let! tally := reapManifestBindings tally in
      let! tally := reapClusterManifestBindings tally in
      Done (Ok tally)
  end end end end.

End Reaper.

#[local] Open Scope list_scope.

(** ** What justifies a deletion *)

Definition reading (e : happening) : bool :=
  match ev_action e with AGet _ _ _ | AList _ _ | ANow | AEmit _ _ _ _ _ _ _ => true | _ => false end.

(** The owner that an object's labels name is gone, or done with the claim. *)
Definition ownerDone (ls : labels) (e : happening) : Prop :=
  let ns := lget ls LabelNamespace in
  if negb (lget ls LabelRestore =? "") then
    match e with
    | Ev (AGet KRestore n name) (Err err) => n = ns /\ name = lget ls LabelRestore /\ IsNotFound err = true
    | Ev (AGet KRestore n name) (Ok o) =>
        n = ns /\ name = lget ls LabelRestore /\ m_Deleting (o_meta o) = false
        /\ IsTerminalRestorePhase (rv_Phase (o_body o)) = true
    | _ => False
    end
  else if negb (lget ls LabelClusterRestore =? "") then
    match e with
    | Ev (AGet KClusterRestore _ name) (Err err) => name = lget ls LabelClusterRestore /\ IsNotFound err = true
    | Ev (AGet KClusterRestore _ name) (Ok o) =>
        name = lget ls LabelClusterRestore /\ m_Deleting (o_meta o) = false
        /\ IsTerminalRestorePhase (rv_Phase (o_body o)) = true
    | _ => False
    end
  else if negb (ownerBackupNameFromLabels ls =? "") then
    match e with
    | Ev (AGet KBackup n name) (Err err) => n = ns /\ name = ownerBackupNameFromLabels ls /\ IsNotFound err = true
    | Ev (AGet KBackup n name) (Ok b) =>
        n = ns /\ name = ownerBackupNameFromLabels ls /\ m_Deleting (o_meta b) = false
        /\ forall v, volumeOf b (lget ls LabelPVC) = Some v -> volumePhaseTerminal (Phase v) = true
    | _ => False
    end
  else
    match e with
    | Ev (AList KBackup sel) (Ok items) =>
        sel = mkSelector (Some ns) ∅ [] /\ forall b, b ∈ items -> backupMayStillNeedExposure b (lget ls LabelPVC) = false
    | _ => False
    end.

(** The Job a grant was made for is gone or finished. *)
Definition jobOver (ns : string) (ls : labels) (e : happening) : Prop :=
  match e with
  | Ev (AGet KJob n name) (Err err) => n = ns /\ name = lget ls LabelMoverJob /\ IsNotFound err = true
  | Ev (AGet KJob n name) (Ok job) =>
      n = ns /\ name = lget ls LabelMoverJob /\ (js_Succeeded (o_body job) <> 0 \/ js_Failed (o_body job) <> 0)%Z
  | _ => False
  end.

(** The object was older than [age] when the clock was read. *)
Definition olderThan (age created : Z) (e : happening) : Prop :=
  match e with
  | Ev ANow t => (created <= t - age)%Z
  | _ => False
  end.

Definition listedIn {k} (o : Object k) (e : happening) : Prop :=
  exists sel items, e = Ev (I := kube) (AList k sel) (Ok items) /\ o ∈ items.

Definition isGrant (k : kind) : bool := match k with KRoleBinding | KClusterRoleBinding => true | _ => false end.

Section Justified.
Variable r : OrphanReaper.

Definition justified {k} (o : Object k) (past : list happening) : Prop :=
  Exists (listedIn o) past
  /\ if isGrant k
     then lget (o_labels o) LabelMoverJob <> ""
          /\ Exists (olderThan manifestBindingMinAge (m_Created (o_meta o))) past
          /\ Exists (jobOver (or_OperatorNamespace r) (o_labels o)) past
     else lget (o_labels o) LabelPVC <> ""
          /\ Exists (olderThan (or_MinAge r) (m_Created (o_meta o))) past
          /\ Exists (ownerDone (o_labels o)) past.

(** A deletion is of a listed object that is not being deleted already, a patch of a
    listed one; both are justified by what was read before; nothing is created. *)
Definition good (past : list happening) (e : happening) : Prop :=
  match ev_action e with
  | ADelete k ns name =>
      exists o : Object k, keyOf o = mkKey k ns name /\ m_Deleting (o_meta o) = false /\ justified o past
  | APatch k base _ => justified base past
  | ACreate _ _ => False
  | _ => True
  end.

Lemma Exists_mono (P : happening -> Prop) l1 l2 : l1 ⊆ l2 -> Exists P l1 -> Exists P l2.
Proof. rewrite !Exists_exists. intros Hs (x & Hx & Hp). exists x. split; [by apply Hs|done]. Qed.

Lemma justified_mono {k} (o : Object k) p1 p2 : p1 ⊆ p2 -> justified o p1 -> justified o p2.
Proof.
  intros Hs [Hl Hj]. split; [by eapply Exists_mono|].
  destruct (isGrant k); destruct Hj as (Hlab & Ho & He); split_and!; try done; by eapply Exists_mono.
Qed.

Lemma reading_safe past tr : forallb reading tr = true -> safe good past tr.
Proof.
  revert past. induction tr as [|e tr IH]; intros past; [done|]. cbn. intros [He Ht]%andb_true_iff.
  split; [|by apply IH]. unfold reading, good in *. by destruct (ev_action e).
Qed.

(** ** Verdicts *)

Lemma orphaned_reading {k} (o : Object k) cutoff tr x : runs (orphaned o cutoff) tr x -> forallb reading tr = true.
Proof.
  unfold orphaned, restoreOrphaned, clusterRestoreOrphaned, unattributedExposureOrphaned, backupOrphaned, get, list_.
  intros H. run_all H; done.
Qed.

Lemma orphaned_true {k} (o : Object k) cutoff tr :
  runs (orphaned o cutoff) tr (Ok true) ->
  lget (o_labels o) LabelPVC <> "" /\ (m_Created (o_meta o) <= cutoff)%Z /\ Exists (ownerDone (o_labels o)) tr.
Proof.
  unfold orphaned. destruct (lget (o_labels o) LabelPVC =? "") eqn:Ep; [by intros [_ [=]]|].
  apply String.eqb_neq in Ep. destruct (time_after _ cutoff) eqn:Et; [by intros [_ [=]]|].
  unfold time_after in Et. intros H. split_and!; [done|lia|]. apply Exists_exists. unfold ownerDone.
  destruct (negb (lget (o_labels o) LabelRestore =? "")).
  { unfold restoreOrphaned, get in H. destruct (_ =? ""); [by destruct H|]. cbn [prog_bind call runs] in H.
    destruct H as (x & tr' & -> & -> & H). eexists. split; [left|]. destruct x as [rs|e]; cbn.
    - destruct (m_Deleting (o_meta rs)); [done|]. by injection H as <-.
    - by destruct (IsNotFound e). }
  destruct (negb (lget (o_labels o) LabelClusterRestore =? "")).
  { unfold clusterRestoreOrphaned, get in H. cbn [prog_bind call runs] in H.
    destruct H as (x & tr' & -> & -> & H). eexists. split; [left|]. destruct x as [rs|e]; cbn.
    - destruct (m_Deleting (o_meta rs)); [done|]. by injection H as <-.
    - by destruct (IsNotFound e). }
  destruct (lget (o_labels o) LabelNamespace =? ""); [by destruct H|].
  destruct (ownerBackupNameFromLabels (o_labels o) =? ""); cbn [negb].
  - unfold unattributedExposureOrphaned, list_ in H. destruct (_ =? ""); [by destruct H|]. cbn [prog_bind call runs] in H.
    destruct H as (x & tr' & -> & -> & H). eexists. split; [left|]. destruct x as [items|e]; cbn; [|done].
    split; [done|]. injection H as H. symmetry in H. apply negb_true_iff in H. rewrite existsb_none in H. auto.
  - unfold backupOrphaned, get in H. cbn [prog_bind call runs] in H.
    destruct H as (x & tr' & -> & -> & H). eexists. split; [left|]. destruct x as [b|e]; cbn.
    + destruct (m_Deleting (o_meta b)); [done|]. split_and!; [done..|]. intros v Hv. rewrite Hv in H. by injection H as <-.
    + by destruct (IsNotFound e).
Qed.

(** ** Safety of the parts *)

(** Finds an event in a past that was built up event by event. *)
Ltac in_past :=
  first
    [ assumption
    | apply elem_of_app; first [right; in_past | left; in_past]
    | left
    | right; in_past ].

Notation safely p past := (forall tr x, runs p tr x -> safe good past tr).

Lemma emitStuck_reading {k} (o : Object k) fs tr x : runs (emitStuck r o fs) tr x -> forallb reading tr = true.
Proof. unfold emitStuck. intros H. run_all H; done. Qed.

Lemma reapObject_safe {k} (o : Object k) prepare past :
  justified o past -> safely prepare past -> safely (reapObject r o prepare) past.
Proof.
  intros Hj Hp tr x. unfold reapObject. intros (tr1 & tr2 & p & -> & H1 & H2)%runs_bind.
  apply safe_app. split; [by eapply Hp|].
  destruct (match p with Ok tt => false | Err e => negb (absentOK e) end) in H2; [by destruct H2 as [-> _]|].
  apply runs_bind in H2 as (tr3 & tr4 & err & -> & H3 & H4). apply safe_app. split.
  - destruct (m_Deleting (o_meta o)) eqn:Ed; [by destruct H3 as [-> _]|]. unfold delete in H3. apply (runs_call (I := kube)) in H3 as ->. split; [|done].
    exists o. split_and!; [done|done|]. eapply justified_mono; [|done]. set_solver.
  - apply reading_safe. destruct (match err with Some e => negb (absentOK e) | None => false end) in H4; [by destruct H4 as [-> _]|].
    apply runs_bind in H4 as (tr5 & tr6 & c & -> & H5 & H6). rewrite forallb_app. apply andb_true_iff. split.
    + unfold confirmReap, get in H5. run_all H5; done.
    + destruct c as [[outcome fs] ce]. destruct outcome; [by destruct H6 as [-> _]| |by destruct H6 as [-> _]].
      apply runs_bind in H6 as (tr7 & tr8 & u & -> & H7 & [-> _]). rewrite app_nil_r. by eapply emitStuck_reading.
Qed.

Lemma reapAndReport_safe {k} tally (o : Object k) prepare past :
  justified o past -> safely prepare past -> safely (reapAndReport r tally o prepare) past.
Proof.
  intros Hj Hp tr x. unfold reapAndReport. intros (tr1 & tr2 & out & -> & H1 & [-> _])%runs_bind. rewrite app_nil_r.
  by eapply reapObject_safe.
Qed.

Lemma noPrepare_safe past : safely noPrepare past.
Proof. by intros tr x [-> _]. Qed.

Lemma prepareVSC_safe (o : Object KVolumeSnapshotContent) past :
  justified o past -> safely (PrepareOrphanVolumeSnapshotContentForReclaim o) past.
Proof.
  intros Hj tr x. unfold PrepareOrphanVolumeSnapshotContentForReclaim, setOriginVSCToDelete, mustPatch, patch. intros H.
  run_all H; done.
Qed.

(** A listed object, once its labels, its age and its owner were checked. *)
Lemma exposure_justified {k} (o : Object k) t past tr :
  isGrant k = false -> Exists (listedIn o) past -> Ev (I := kube) ANow t ∈ past ->
  runs (orphaned o (t - or_MinAge r)%Z) tr (Ok true) -> justified o (past ++ tr).
Proof.
  intros Hk Hl Ht (Hp & Ho & Hd)%orphaned_true. split; [apply Exists_app; by left|]. rewrite Hk. split_and!; [done| |].
  - apply Exists_app. left. apply Exists_exists. eexists. split; [exact Ht|]. exact Ho.
  - apply Exists_app. by right.
Qed.

Lemma reapOrphan_safe {k} t prepare tally (o : Object k) past :
  isGrant k = false -> Exists (listedIn o) past -> Ev (I := kube) ANow t ∈ past ->
  (forall past', justified o past' -> safely (prepare o) past') ->
  safely (reapOrphan r (t - or_MinAge r)%Z prepare tally o) past.
Proof.
  intros Hk Hl Ht Hp tr x. unfold reapOrphan. intros (tr1 & tr2 & b & -> & H1 & H2)%runs_bind.
  apply safe_app. split; [apply reading_safe; by eapply orphaned_reading|].
  destruct b as [[|]|]; [|by destruct H2 as [-> _]..].
  assert (justified o (past ++ tr1)) as Hj by (by eapply exposure_justified).
  eapply reapAndReport_safe; [done| |done]. by apply Hp.
Qed.

Lemma reapRestorePV_safe t tally (o : Object KPV) past :
  Exists (listedIn o) past -> Ev (I := kube) ANow t ∈ past ->
  safely (reapRestorePV r (t - or_MinAge r)%Z tally o) past.
Proof.
  intros Hl Ht tr x. unfold reapRestorePV. intros (tr1 & tr2 & b & -> & H1 & H2)%runs_bind.
  apply safe_app. split; [apply reading_safe; by eapply orphaned_reading|].
  destruct b as [[|]|]; [|by destruct H2 as [-> _]..].
  assert (justified o (past ++ tr1)) as Hj by (by eapply exposure_justified).
  destruct (_ =? PVRoleTwin); [eapply reapAndReport_safe; [done|apply noPrepare_safe|done]|].
  destruct (_ =? PVRoleTransplant); [|by destruct H2 as [-> _]].
  assert (forall p2 : list happening, (past ++ tr1)%list ⊆ p2 -> justified o p2) as Hg
    by (intros p2 Hs; by eapply justified_mono).
  apply runs_bind in H2 as (t1 & t2 & u & -> & H2 & [-> _]). rewrite app_nil_r. clear H1.
  unfold reapTransplant, deliveredTo, classReclaimPolicy, patch, get in H2. clear Hj. revert Hg. generalize (past ++ tr1)%list. intros p Hg.
  run_all H2; cbn -[justified]; repeat match goal with |- _ /\ _ => split end; try done; apply Hg; set_solver.
Qed.

Lemma listed_mono {k} (o : Object k) p1 p2 : p1 ⊆ p2 -> Exists (listedIn o) p1 -> Exists (listedIn o) p2.
Proof. apply Exists_mono. Qed.

(** A loop over what was listed is safe. *)
Lemma reapAll_safe k t prepare items sub (base past : list happening) tally :
  isGrant k = false -> (exists sel, Ev (I := kube) (AList k sel) (Ok items) ∈ base) ->
  Ev (I := kube) ANow t ∈ base -> base ⊆ past -> sub ⊆ items ->
  (forall (o : Object k) past', justified o past' -> safely (prepare o) past') ->
  safely (foldM (reapOrphan r (t - or_MinAge r)%Z prepare) tally sub) past.
Proof.
  intros Hk [sel Hl] Ht Hb Hs Hp tr x H. eapply (foldM_safe _ _ base); [|done|exact H].
  intros s o p tr' s' Hin Hbp. apply reapOrphan_safe; [done| |by apply Hbp|by apply Hp].
  eapply (listed_mono o base); [done|]. apply Exists_exists. eexists. split; [exact Hl|]. exists sel, items. split; [done|by apply Hs].
Qed.

Lemma reapBindings_safe k past tally : isGrant k = true -> safely (reapBindings r k tally) past.
Proof.
  intros Hk tr x. unfold reapBindings, list_, now. cbn [prog_bind call runs]. intros (l & tr1 & -> & H). split; [done|].
  destruct l as [items|e]; [|by destruct H as [-> _]]. cbn [prog_bind call runs] in H. destruct H as (t & tr2 & -> & H).
  split; [done|]. set (base := (past ++ [Ev (I := kube) (AList k (mkSelector None (grants r) [])) (Ok items)]) ++ [Ev (I := kube) ANow t]) in *.
  eapply (foldM_safe _ _ base); [|done|exact H]. clear H. intros s o p tr s' Hin Hb. unfold reapBinding.
  destruct (time_after _ _) eqn:Ea; [by intros [-> _]|]. destruct (_ =? "") eqn:Ej; [by intros [-> _]|].
  unfold get. cbn [prog_bind call runs]. intros (j & tr3 & -> & H). split; [done|].
  assert (jobOver (or_OperatorNamespace r) (o_labels o)
      (Ev (I := kube) (AGet KJob (or_OperatorNamespace r) (lget (o_labels o) LabelMoverJob)) j) ->
    justified o (p ++ [Ev (I := kube) (AGet KJob (or_OperatorNamespace r) (lget (o_labels o) LabelMoverJob)) j])) as Hj.
  { intros Ho. split; [|rewrite Hk; split_and!; [by apply String.eqb_neq| |]].
    - apply Exists_app. left. eapply (listed_mono o base); [done|]. apply Exists_exists. 
      exists (Ev (I := kube) (AList k (mkSelector None (grants r) [])) (Ok items)). split; [unfold base; in_past|].
      by eexists _, items.
    - apply Exists_app. left. apply Exists_exists. exists (Ev (I := kube) ANow t). split; [apply Hb; unfold base; in_past|].
      cbn. unfold time_after in Ea. lia.
    - apply Exists_app. right. by left. }
  destruct j as [job|e].
  - destruct ((js_Succeeded (o_body job) =? 0)%Z && (js_Failed (o_body job) =? 0)%Z) eqn:Es; [by destruct H as [-> _]|].
    eapply reapAndReport_safe; [apply Hj; cbn; split_and!; [done..|]; lia|apply noPrepare_safe|exact H].
  - destruct (IsNotFound e) eqn:En; [|by destruct H as [-> _]].
    eapply reapAndReport_safe; [apply Hj; by cbn|apply noPrepare_safe|exact H].
Qed.

Lemma reapSnapshotObjects_safe t tally past :
  Ev (I := kube) ANow t ∈ past -> safely (reapSnapshotObjects r (t - or_MinAge r)%Z tally) past.
Proof.
  intros Ht tr x. unfold reapSnapshotObjects, list_. cbn [prog_bind call runs]. intros (c & tr1 & -> & H). split; [done|].
  destruct c as [vscs|e]; [|by destruct H as [-> _]]. cbn [prog_bind call runs] in H. destruct H as (s & tr2 & -> & H).
  split; [done|]. destruct s as [vss|e]; [|by destruct H as [-> _]]. rewrite <-app_assoc. cbn [app].
  set (base := past ++ _) in *.
  assert (Ev (I := kube) ANow t ∈ base) as Hb by (unfold base; in_past).
  assert (forall f, List.filter f vscs ⊆ vscs) as Hf by (intros f y; rewrite !list_elem_of_In, List.filter_In; tauto).
  apply runs_bind in H as (t1 & t2 & s1 & -> & H1 & H). apply runs_bind in H as (t3 & t4 & s2 & -> & H3 & H4).
  apply safe_app. split; [|apply safe_app; split].
  - eapply (reapAll_safe KVolumeSnapshotContent t _ vscs _ base base); [done|eexists; unfold base; in_past|done|done|apply Hf| |exact H1].
    intros o p. apply prepareVSC_safe.
  - eapply (reapAll_safe KVolumeSnapshot t _ vss _ base (base ++ t1)); [done|eexists; unfold base; in_past|done|set_solver|done| |exact H3].
    intros o p _. apply noPrepare_safe.
  - eapply (reapAll_safe KVolumeSnapshotContent t _ vscs _ base ((base ++ t1) ++ t3)); [done|eexists; unfold base; in_past|done|set_solver|apply Hf| |exact H4].
    intros o p. apply prepareVSC_safe.
Qed.

Lemma sweep_good (tr : list happening) (x : result reapTally) :
  runs (sweepOnce r) tr x -> forall pre e post, tr = pre ++ e :: post -> good pre e.
Proof.
  intros Hr. change (forall pre e post, tr = (pre ++ e :: post)%list -> good ([] ++ pre) e).
  apply safe_spec. unfold sweepOnce, now, list_ in Hr. cbn [prog_bind call runs] in Hr.
  destruct Hr as (t & tr1 & -> & Hr). split; [done|].
  destruct Hr as (jobs & tr2 & -> & Hr). split; [done|]. destruct jobs as [jobs|e]; [|by destruct Hr as [-> _]].
  cbn [prog_bind call runs] in Hr. destruct Hr as (pvcs & tr3 & -> & Hr). split; [done|]. destruct pvcs as [pvcs|e]; [|by destruct Hr as [-> _]].
  cbn [prog_bind call runs] in Hr. destruct Hr as (secrets & tr4 & -> & Hr). split; [done|]. destruct secrets as [secrets|e]; [|by destruct Hr as [-> _]].
  cbn [prog_bind call runs] in Hr. destruct Hr as (pvs & tr5 & -> & Hr). split; [done|]. destruct pvs as [pvs|e]; [|by destruct Hr as [-> _]].
  set (base := (_ ++ [Ev (I := kube) (AList KPV _) (Ok pvs)])%list).
  assert (Ev (I := kube) ANow t ∈ base) as Ht by (unfold base; in_past).
  apply runs_bind in Hr as (t1 & u1 & s1 & -> & H1 & Hr). apply runs_bind in Hr as (t2 & u2 & s2 & -> & H2 & Hr).
  apply runs_bind in Hr as (t3 & u3 & s3 & -> & H3 & Hr). apply runs_bind in Hr as (t4 & u4 & s4 & -> & H4 & Hr).
  apply runs_bind in Hr as (t5 & u5 & s5 & -> & H5 & Hr). apply runs_bind in Hr as (t6 & u6 & s6 & -> & H6 & Hr).
  apply runs_bind in Hr as (t7 & u7 & s7 & -> & H7 & [-> ->]). rewrite app_nil_r.
  rewrite !safe_app. split_and!.
  - eapply (reapAll_safe KJob t _ jobs _ base base); [done|eexists; unfold base; in_past|done|done|done| |exact H1]. intros o p _. apply noPrepare_safe.
  - eapply (reapAll_safe KPVC t _ pvcs _ base); [done|eexists; unfold base; in_past|done|set_solver|done| |exact H2]. intros o p _. apply noPrepare_safe.
  - eapply (reapAll_safe KSecret t _ secrets _ base); [done|eexists; unfold base; in_past|done|set_solver|done| |exact H3]. intros o p _. apply noPrepare_safe.
  - eapply (foldM_safe _ _ base); [|set_solver|exact H4]. intros s o p tr s' Hin Hb. apply reapRestorePV_safe; [|by apply Hb].
    eapply (listed_mono o base); [done|]. apply Exists_exists. 
    exists (Ev (I := kube) (AList KPV (mkSelector None ∅ [LabelPVRole])) (Ok pvs)). split; [unfold base; in_past|]. by eexists _, pvs.
  - eapply reapSnapshotObjects_safe; [|exact H5]. set_solver.
  - eapply reapBindings_safe; [|exact H6]. done.
  - eapply reapBindings_safe; [|exact H7]. done.
Qed.

End Justified.

(** ** Live volumes *)

Lemma exposureLabels_other ns name bl pvc k :
  k <> LabelManagedBy -> k <> LabelBackup -> k <> LabelNamespace -> k <> LabelPVC -> k <> LabelClusterBackup ->
  lget (exposureLabels ns name bl pvc) k = "".
Proof.
  intros H1 H2 H3 H4 H5. unfold exposureLabels, lget. cbv zeta. destruct (_ =? ""); simplify_map_eq; done.
Qed.

Lemma exposureLabels_own ns name bl pvc :
  let ls := exposureLabels ns name bl pvc in
  lget ls LabelBackup = name /\ lget ls LabelNamespace = ns /\ lget ls LabelPVC = pvc.
Proof. unfold exposureLabels, lget. cbv zeta. destruct (_ =? ""); split_and!; by simplify_map_eq. Qed.

(** Every read of the Backup in the trace shows it at work on the claim, or being
    deleted by its own finalizer. *)
Definition liveThroughout (ns name pvc : string) (e : happening) : bool :=
  match e with
  | Ev (AGet KBackup n m) a =>
      negb ((n =? ns) && (m =? name))
      || match a with
         | Ok b => m_Deleting (o_meta b)
                   || match volumeOf b pvc with Some v => negb (volumePhaseTerminal (Phase v)) | None => false end
         | Err _ => false
         end
  | _ => true
  end.

Section Live.
Variable r : OrphanReaper.

(** No object that bears the labels of an exposure of a live Backup's unfinished
    volume is deleted, whatever its age and its kind. *)
Theorem sweep_spares_live_volumes (tr : list happening) (x : result reapTally) (ns name pvc : string)
    (backupLabels : labels)
    (Hr : runs (sweepOnce r) tr x) (Hname : name <> "") (Hlive : forallb (liveThroughout ns name pvc) tr = true) :
  forall pre k ns' n' a post, tr = pre ++ Ev (I := kube) (ADelete k ns' n') a :: post ->
  exists o : Object k, keyOf o = mkKey k ns' n' /\ Exists (listedIn o) pre
    /\ o_labels o <> exposureLabels ns name backupLabels pvc.
Proof.
  intros pre k ns' n' a post Heq. pose proof (sweep_good r tr x Hr pre _ post Heq) as (o & Hk & _ & Hl & Hj).
  exists o. split_and!; [done|done|]. intros Hlab. rewrite Hlab in Hj.
  destruct (exposureLabels_own ns name backupLabels pvc) as (Hb & Hns & Hp).
  destruct (isGrant k); destruct Hj as (H1 & _ & H3).
  { apply H1. by apply exposureLabels_other. }
  apply Exists_exists in H3 as (e & He & Hd). unfold ownerDone in Hd.
  rewrite (exposureLabels_other _ _ _ _ LabelRestore), (exposureLabels_other _ _ _ _ LabelClusterRestore) in Hd by done.
  cbn [negb String.eqb] in Hd.
  assert (ownerBackupNameFromLabels (exposureLabels ns name backupLabels pvc) = name) as Ho.
  { unfold ownerBackupNameFromLabels. rewrite Hb. by apply String.eqb_neq in Hname as ->. }
  rewrite Ho, Hns, Hp in Hd. pose proof Hname as Hn. apply String.eqb_neq in Hn. rewrite Hn in Hd. cbn [negb] in Hd.
  assert (e ∈ tr) as Hin by (rewrite Heq; apply elem_of_app; by left). rewrite forallb_elem in Hlive.
  specialize (Hlive e Hin). destruct e as [o' a']. destruct o' as [[]| | | | | |]; try done. cbn in Hd, Hlive.
  assert (forall n m, n = ns -> m = name -> negb ((n =? ns) && (m =? name)) = false) as Heqb
    by (intros n m -> ->; by rewrite !String.eqb_refl).
  destruct a' as [b|err]; destruct Hd as (E1 & E2 & Hd); rewrite (Heqb _ _ E1 E2) in Hlive; [|done].
  destruct Hd as [Hdel Hv]. rewrite Hdel in Hlive. destruct (volumeOf b pvc) as [v|]; [|done].
  by rewrite (Hv v eq_refl) in Hlive.
Qed.
End Live.

(** ** A reap is what was read back *)

Section Honest.
Variable r : OrphanReaper.

(** The read-back says that the object is gone, or that another one took its name. *)
Definition confirmsGone {k} (o : Object k) (e : happening) : Prop :=
  match ev_action e with
  | AGet k' ns name => mkKey k' ns name = keyOf o
  | _ => False
  end
  /\ match e with
     | Ev (AGet _ _ _) (Err err) => absentOK err = true
     | Ev (AGet _ _ _) (Ok probe) => m_UID (o_meta probe) <> "" /\ m_UID (o_meta probe) <> m_UID (o_meta o)
     | _ => False
     end.

(** The read-back shows the object waiting for its finalizers. *)
Definition showsPending {k} (o : Object k) (e : happening) : Prop :=
  match ev_action e with
  | AGet k' ns name => mkKey k' ns name = keyOf o
  | _ => False
  end
  /\ match e with
     | Ev (AGet _ _ _) (Ok probe) => m_Deleting (o_meta probe) = true
     | _ => False
     end.

Definition emits (e : happening) : bool := match ev_action e with AEmit _ _ _ _ _ _ _ => true | _ => false end.

Lemma confirmReap_spec {k} (o : Object k) tr outcome fs ce :
  runs (confirmReap o) tr (outcome, fs, ce) ->
  forallb (fun e => negb (emits e) && negb (isDelete e)) tr = true
  /\ match outcome with
     | reapConfirmedGone => Exists (confirmsGone o) tr
     | reapStuck => Exists (showsPending o) tr
     | reapRequested => True
     end.
Proof.
  unfold confirmReap, get. cbn [prog_bind call runs]. intros (p & tr' & -> & -> & H). destruct p as [probe|e].
  - destruct (negb (m_UID (o_meta o) =? "") && negb (m_UID (o_meta probe) =? "")
      && negb (m_UID (o_meta probe) =? m_UID (o_meta o))) eqn:Eu.
    + injection H as -> -> ->. split; [done|]. left. split; [done|].
      apply andb_true_iff in Eu as [[_ E1]%andb_true_iff E2]. apply negb_true_iff, String.eqb_neq in E1, E2. by split.
    + destruct (m_Deleting (o_meta probe)) eqn:Ed; injection H as -> -> ->; (split; [done|]); [|done]. left. by split.
  - destruct (absentOK e) eqn:Ee; injection H as -> -> ->; (split; [done|]); [|done]. left. by split.
Qed.

(** "Reaped" is said of an object that a read after the deletion did not find, and of
    no other; "stuck", and the Event on it, of one that was read back with a
    deletion timestamp, and of no other; and an object that is being deleted already
    is not asked to go again. *)
Theorem reapObject_honest {k} (o : Object k) (prepare : api (result unit)) (tr : list happening) (x : option reapOutcome)
    (Hp : forall tr y, runs prepare tr y -> forallb (fun e => negb (emits e) && negb (isDelete e)) tr = true)
    (Hr : runs (reapObject r o prepare) tr x) :
  (x = Some reapConfirmedGone -> Exists (confirmsGone o) tr)
  /\ (x = Some reapStuck -> Exists (showsPending o) tr)
  /\ (existsb emits tr = true -> x = Some reapStuck)
  /\ (m_Deleting (o_meta o) = true -> forallb sparing tr = true).
Proof.
  unfold reapObject in Hr. apply runs_bind in Hr as (tr1 & tr2 & p & -> & H1 & H2). apply Hp in H1.
  assert (forall tr0, forallb (fun e => negb (emits e) && negb (isDelete e)) tr0 = true ->
    existsb emits tr0 = false /\ forallb sparing tr0 = true) as Hq.
  { intros tr0 H0. rewrite forallb_elem in H0. split.
    - apply existsb_none. intros e He. specialize (H0 e He). by destruct (emits e).
    - apply forallb_elem. intros e He. specialize (H0 e He). unfold sparing. by destruct (isDelete e), (emits e). }
  destruct (Hq tr1 H1) as [Hq1 Hs1]. rewrite !existsb_app, !forallb_app, Hq1, Hs1. cbn [orb andb].
  destruct (match p with Ok tt => false | Err e => negb (absentOK e) end) in H2; [by destruct H2 as [-> ->]|].
  apply runs_bind in H2 as (tr3 & tr4 & err & -> & H3 & H4).
  assert (existsb emits tr3 = false /\ (m_Deleting (o_meta o) = true -> forallb sparing tr3 = true)) as [Hq3 Hs3].
  { destruct (m_Deleting (o_meta o)); [by destruct H3 as [-> _]|]. unfold delete in H3.
    by apply (runs_call (I := kube)) in H3 as ->. }
  rewrite !existsb_app, !forallb_app, Hq3. cbn [orb].
  destruct (match err with Some e => negb (absentOK e) | None => false end) in H4.
  { destruct H4 as [-> ->]. split_and!; [done..|]. intros Hd. by rewrite (Hs3 Hd). }
  apply runs_bind in H4 as (tr5 & tr6 & [[outcome fs] ce] & -> & H5 & H6).
  apply confirmReap_spec in H5 as [H5 Hc]. destruct (Hq tr5 H5) as [Hq5 Hs5].
  rewrite !existsb_app, !forallb_app, Hq5, Hs5. cbn [orb andb].
  assert (outcome <> reapStuck -> tr6 = [] /\ x = Some outcome) as Hns
    by (intros; destruct outcome; [by destruct H6|done|by destruct H6]).
  destruct outcome.
  - destruct (Hns ltac:(done)) as [-> ->]. split_and!; [|done|done|intros Hd; by rewrite (Hs3 Hd)].
    intros _. rewrite !Exists_app. auto.
  - apply runs_bind in H6 as (tr7 & tr8 & u & -> & H7 & [-> ->]). split_and!; [done| |done|].
    + intros _. rewrite !Exists_app. auto.
    + intros Hd. rewrite (Hs3 Hd). cbn. rewrite app_nil_r. unfold emitStuck in H7.
      destruct (or_hasRecorder r); [by apply (runs_call (I := kube)) in H7 as ->|by destruct H7 as [-> _]].
  - destruct (Hns ltac:(done)) as [-> ->]. split_and!; [done..|intros Hd; by rewrite (Hs3 Hd)].
Qed.
End Honest.

(** ** Every orphan is reached *)

Section Reach.
Variable r : OrphanReaper.

(** The read that tells whether the owner which the labels name is done. *)
Definition ownerQuestion (ls : labels) : action kube :=
  let ns := lget ls LabelNamespace in
  if negb (lget ls LabelRestore =? "") then AGet KRestore ns (lget ls LabelRestore)
  else if negb (lget ls LabelClusterRestore =? "") then AGet KClusterRestore "" (lget ls LabelClusterRestore)
  else if negb (ownerBackupNameFromLabels ls =? "") then AGet KBackup ns (ownerBackupNameFromLabels ls)
  else AList KBackup (mkSelector (Some ns) ∅ []).

(** The labels name a claim, and an owner that can be looked up. *)
Definition attributable (ls : labels) : Prop :=
  lget ls LabelPVC <> ""
  /\ (lget ls LabelNamespace <> "" \/ (lget ls LabelRestore = "" /\ lget ls LabelClusterRestore <> "")).

(** The object's owner was looked up; and when the answer shows the owner done, the
    very next request is the object's deletion, unless that is pending already. *)
Definition attended {k} (cutoff : Z) (o : Object k) (tr : list happening) : Prop :=
  attributable (o_labels o) -> (m_Created (o_meta o) <= cutoff)%Z ->
  exists pre e post, tr = pre ++ e :: post /\ ev_action e = ownerQuestion (o_labels o)
    /\ (ownerDone (o_labels o) e -> m_Deleting (o_meta o) = false ->
        exists err rest, post = Ev (I := kube) (ADelete k (o_namespace o) (o_name o)) err :: rest).

Lemma attended_app {k} cutoff (o : Object k) tr1 trx tr2 :
  attended cutoff o trx -> attended cutoff o (tr1 ++ trx ++ tr2).
Proof.
  intros H Ha Hc. destruct (H Ha Hc) as (pre & e & post & -> & Hq & Hd). exists (tr1 ++ pre), e, (post ++ tr2).
  split_and!; [by rewrite <-!app_assoc|done|]. intros Ho Hn. destruct (Hd Ho Hn) as (err & rest & ->). by exists err, (rest ++ tr2).
Qed.

(** The verdict asks the one question and follows its answer. *)
Lemma orphaned_decides {k} (o : Object k) cutoff tr b :
  attributable (o_labels o) -> (m_Created (o_meta o) <= cutoff)%Z -> runs (orphaned o cutoff) tr b ->
  exists e, tr = [e] /\ ev_action e = ownerQuestion (o_labels o) /\ (ownerDone (o_labels o) e -> b = Ok true).
Proof.
  intros [Hp Hn] Hc. unfold orphaned, ownerQuestion, ownerDone. rewrite (proj2 (String.eqb_neq _ _) Hp).
  replace (time_after _ cutoff) with false by (unfold time_after; lia).
  destruct (lget (o_labels o) LabelRestore =? "") eqn:Er; cbn [negb].
  2: { destruct Hn as [Hn|[Hn _]]; [|by rewrite Hn in Er]. unfold restoreOrphaned, get.
    rewrite (proj2 (String.eqb_neq _ _) Hn). cbn [prog_bind call runs]. intros (x & tr' & -> & -> & ->). eexists. split_and!; [done..|].
    destruct x as [rs|e]; cbn; [by intros (_ & _ & -> & ->)|by intros (_ & _ & ->)]. }
  destruct (lget (o_labels o) LabelClusterRestore =? "") eqn:Ec; cbn [negb].
  2: { unfold clusterRestoreOrphaned, get. cbn [prog_bind call runs]. intros (x & tr' & -> & -> & ->). eexists. split_and!; [done..|].
    destruct x as [rs|e]; cbn; [by intros (_ & -> & ->)|by intros (_ & ->)]. }
  destruct Hn as [Hn|[_ Hn]]; [|by apply String.eqb_eq in Ec]. rewrite (proj2 (String.eqb_neq _ _) Hn).
  destruct (ownerBackupNameFromLabels (o_labels o) =? "") eqn:Eb; cbn [negb].
  - unfold unattributedExposureOrphaned, list_. rewrite (proj2 (String.eqb_neq _ _) Hp). cbn [prog_bind call runs].
    intros (x & tr' & -> & -> & ->). eexists. split_and!; [done..|]. destruct x as [items|e]; cbn; [|by intros []].
    intros [_ Hall]. by rewrite (proj2 (existsb_none _ _) Hall).
  - unfold backupOrphaned, get. cbn [prog_bind call runs]. intros (x & tr' & -> & -> & ->). eexists. split_and!; [done..|].
    destruct x as [bk|e]; cbn; [|by intros (_ & _ & ->)]. intros (_ & _ & -> & Hv).
    destruct (volumeOf bk (lget (o_labels o) LabelPVC)) as [v|]; [by rewrite (Hv v eq_refl)|done].
Qed.

(** What is done to an object that was found an orphan. *)
Definition reaps {k} (o : Object k) (act : reapTally -> Object k -> api reapTally) : Prop :=
  forall tally tr tally', runs (act tally o) tr tally' -> m_Deleting (o_meta o) = false ->
    exists err rest, tr = Ev (I := kube) (ADelete k (o_namespace o) (o_name o)) err :: rest.

Lemma reapAndReport_reaps {k} (o : Object k) : reaps o (fun tally o => reapAndReport r tally o noPrepare).
Proof.
  intros tally tr tally' H Hn. unfold reapAndReport, reapObject, noPrepare in H. cbn [prog_bind] in H. rewrite Hn in H.
  unfold delete in H. cbn [prog_bind call runs] in H. destruct H as (err & tr3 & -> & H). by exists err, tr3.
Qed.

(** An object that is judged, and reaped when it is found an orphan. *)
Lemma verdict_attends {k} (o : Object k) cutoff act tally tr tally' :
  reaps o act ->
  runs (let! b := orphaned o cutoff in match b with Ok true => act tally o | _ => Done tally end) tr tally' ->
  attended cutoff o tr.
Proof.
  intros Hre (tr1 & tr2 & b & -> & H1 & H2)%runs_bind Ha Hc.
  destruct (orphaned_decides o cutoff tr1 b Ha Hc H1) as (e & -> & Hq & Hd). exists [], e, tr2. split_and!; [done..|].
  intros Ho Hn. rewrite (Hd Ho) in H2. by apply (Hre _ _ _ H2).
Qed.

Lemma reapAll_attends {k} (body : reapTally -> Object k -> api reapTally) cutoff items tally tr tally' (o : Object k) :
  (forall tally tr tally', runs (body tally o) tr tally' -> attended cutoff o tr) ->
  runs (foldM body tally items) tr tally' -> o ∈ items -> attended cutoff o tr.
Proof.
  intros Hb H Hin. destruct (foldM_complete _ _ _ _ _ _ H Hin) as (t1 & tx & t2 & s1 & s2 & -> & Hx).
  apply attended_app. by eapply Hb.
Qed.

Lemma reapOrphan_attends {k} cutoff (o : Object k) tally tr tally' :
  runs (reapOrphan r cutoff (fun _ => noPrepare) tally o) tr tally' -> attended cutoff o tr.
Proof. apply (verdict_attends o cutoff (fun tally o => reapAndReport r tally o noPrepare)), reapAndReport_reaps. Qed.

Lemma reapTwin_attends cutoff (o : Object KPV) tally tr tally' :
  lget (o_labels o) LabelPVRole = PVRoleTwin -> runs (reapRestorePV r cutoff tally o) tr tally' -> attended cutoff o tr.
Proof.
  intros Ht H. unfold reapRestorePV in H. rewrite Ht in H.
  apply (verdict_attends o cutoff (fun tally o => reapAndReport r tally o noPrepare) tally tr tally'); [apply reapAndReport_reaps|exact H].
Qed.
End Reach.

Section Sweep.
Variable r : OrphanReaper.

(** C34. A sweep that publishes its tally attended to every Job, claim and Secret
    it listed, and to every listed twin volume of a restore. Take one of them that was created
    at least the minimum age before the sweep's own reading of the clock, and whose
    labels name a claim and an owner that can be looked up (a Restore or a Backup with its
    namespace, or a ClusterRestore; or a namespace alone, whose Backups are listed). Then
    the sweep asked for that owner. When the answer shows the owner done with it (not found; a
    terminal restore; a Backup without the volume or with the volume terminal; no
    Backup of the namespace that may still need the claim), the very next request of the sweep is the
    deletion of that object, unless it is being deleted already. Whatever happened to the
    others does not matter. (The snapshot objects and the grants, whose listings may fail without
    failing the sweep, are not in this claim.) *)
Theorem sweep_attends_every_orphan (tr : list happening) (t : reapTally)
    (Hr : runs (sweepOnce r) tr (Ok t)) :
  exists c jobs pvcs secrets pvs rest,
    tr = Ev (I := kube) ANow c :: Ev (I := kube) (AList KJob (ownedByRun r)) (Ok jobs)
         :: Ev (I := kube) (AList KPVC (ownedByRun r)) (Ok pvcs) :: Ev (I := kube) (AList KSecret (ownedByRun r)) (Ok secrets)
         :: Ev (I := kube) (AList KPV (mkSelector None ∅ [LabelPVRole])) (Ok pvs) :: rest
    /\ (forall o : Object KJob, o ∈ jobs -> attended (c - or_MinAge r) o rest)
    /\ (forall o : Object KPVC, o ∈ pvcs -> attended (c - or_MinAge r) o rest)
    /\ (forall o : Object KSecret, o ∈ secrets -> attended (c - or_MinAge r) o rest)
    /\ (forall o : Object KPV, o ∈ pvs -> lget (o_labels o) LabelPVRole = PVRoleTwin -> attended (c - or_MinAge r) o rest).
Proof.
  unfold sweepOnce, now, list_ in Hr. cbn [prog_bind call runs] in Hr.
  destruct Hr as (c & tr1 & -> & jobs & tr2 & -> & Hr). destruct jobs as [jobs|]; [|by destruct Hr].
  cbn [prog_bind call runs] in Hr. destruct Hr as (pvcs & tr3 & -> & Hr). destruct pvcs as [pvcs|]; [|by destruct Hr].
  cbn [prog_bind call runs] in Hr. destruct Hr as (secrets & tr4 & -> & Hr). destruct secrets as [secrets|]; [|by destruct Hr].
  cbn [prog_bind call runs] in Hr. destruct Hr as (pvs & tr5 & -> & Hr). destruct pvs as [pvs|]; [|by destruct Hr].
  exists c, jobs, pvcs, secrets, pvs, tr5. split; [done|].
  apply runs_bind in Hr as (t1 & u1 & s1 & -> & H1 & Hr). apply runs_bind in Hr as (t2 & u2 & s2 & -> & H2 & Hr).
  apply runs_bind in Hr as (t3 & u3 & s3 & -> & H3 & Hr). apply runs_bind in Hr as (t4 & u4 & s4 & -> & H4 & Hr).
  split_and!; intros o Ho.
  - rewrite <-(app_nil_l (t1 ++ _)). apply attended_app. eapply reapAll_attends; [apply reapOrphan_attends|done..].
  - apply attended_app. eapply reapAll_attends; [apply reapOrphan_attends|done..].
  - rewrite app_assoc. apply attended_app. eapply reapAll_attends; [apply reapOrphan_attends|done..].
  - intros Ht. rewrite !app_assoc, <-(app_assoc _ t4). apply attended_app.
    eapply reapAll_attends; [intros; by eapply reapTwin_attends|done..].
Qed.
End Sweep.

(** ** Witnesses *)

Definition wit_reaper : OrphanReaper := mkOrphanReaper "crystal" defaultReaperMinAge true.

Definition wit_orphan : Object KJob :=
  mkObject (k := KJob) (mkMeta "crystal" "mover-1" "u1" (exposureLabels "team" "gone" ∅ "data") ∅ (- hour) false []) (mkJobStatus 0 0 []).

Definition wit_sweep_server (contents : result (list (Object KVolumeSnapshotContent))) : server kube :=
  plainServer (fun k _ _ => Err (mkErr ENotFound "not found"))
    (fun k _ => match k return result (list (Object k)) with
                | KJob => Ok [wit_orphan]
                | KVolumeSnapshotContent => contents
                | _ => Ok []
                end).

Definition wit_sweep : list happening * result reapTally := exec (wit_sweep_server (Ok [])) (sweepOnce wit_reaper) [].

Definition wit_deletion : happening := Ev (I := kube) (ADelete KJob "crystal" "mover-1") None.

Lemma wit_sweep_deletes : fst wit_sweep = take 6 (fst wit_sweep) ++ wit_deletion :: drop 7 (fst wit_sweep).
Proof. symmetry. apply take_drop_middle. by vm_compute. Qed.


Lemma sweep_spares_live_volumes_witness :
  exists o : Object KJob, keyOf o = mkKey KJob "crystal" "mover-1" /\ o_labels o <> exposureLabels "team" "nightly" ∅ "data".
Proof.
  destruct (sweep_spares_live_volumes wit_reaper (fst wit_sweep) (snd wit_sweep) "team" "nightly" "data" ∅
    (exec_runs (wit_sweep_server (Ok [])) (sweepOnce wit_reaper) []) ltac:(done)) with (pre := take 6 (fst wit_sweep)) (k := KJob)
    (ns' := "crystal") (n' := "mover-1") (a := @None gerr) (post := drop 7 (fst wit_sweep)) as (o & Hk & _ & Hl).
  - by vm_compute.
  - exact wit_sweep_deletes.
  - exists o. split; [exact Hk|exact Hl].
Defined.

Lemma reapObject_honest_witness :
  let run := exec (wit_sweep_server (Ok [])) (reapObject wit_reaper wit_orphan noPrepare) [] in
  snd run = Some reapConfirmedGone /\ Exists (confirmsGone wit_orphan) (fst run).
Proof.
  cbv zeta. split; [by vm_compute|].
  apply (reapObject_honest wit_reaper wit_orphan noPrepare _ _ ltac:(by intros tr y [-> _])
    (exec_runs (wit_sweep_server (Ok [])) (reapObject wit_reaper wit_orphan noPrepare) [])).
  by vm_compute.
Defined.

(** The Job of a Backup that is gone: the Backup is asked for, and the deletion follows. *)
Lemma sweep_attends_every_orphan_witness :
  exists rest, attended (0 - defaultReaperMinAge) wit_orphan rest /\ attributable (o_labels wit_orphan)
    /\ (m_Created (o_meta wit_orphan) <= 0 - defaultReaperMinAge)%Z.
Proof.
  destruct (sweep_attends_every_orphan wit_reaper (fst wit_sweep) ∅) as (c & jobs & pvcs & secrets & pvs & rest & Heq & Hj & _).
  - assert (snd wit_sweep = Ok ∅) as <- by (by vm_compute). apply (exec_runs (wit_sweep_server (Ok [])) (sweepOnce wit_reaper) []).
  - exists rest. split_and!; [|split; [done|by left]|done].
    assert (c = 0%Z) as ->.
    { apply (f_equal (fun l : list happening => match l !! 0%nat with Some (Ev ANow t) => t | _ => 0%Z end)) in Heq. by cbn in Heq. }
    apply Hj. apply (f_equal (fun l : list happening => match l !! 1%nat with
      | Some (Ev (AList KJob _) (Ok items)) => items | _ => [] end)) in Heq. cbn in Heq. rewrite <-Heq. left.
Defined.

(** A sweep that could not list the snapshot contents publishes its tally all the
    same: no stuck content is reported, while none was looked at. *)
Theorem unread_contents_published (err : gerr) :
  exists tr, runs (sweepOnce wit_reaper) tr (Ok ∅)
    /\ Ev (I := kube) (AList KVolumeSnapshotContent (mkSelector None managed [LabelPVC])) (Err err) ∈ tr
    /\ Forall (fun e : happening => ev_action e <> AList KVolumeSnapshot (mkSelector None managed [LabelPVC])) tr.
Proof.
  exists (fst (exec (wit_sweep_server (Err err)) (sweepOnce wit_reaper) [])). split_and!.
  - assert (snd (exec (wit_sweep_server (Err err)) (sweepOnce wit_reaper) []) = Ok ∅) as <- by (by vm_compute).
    apply (exec_runs (wit_sweep_server (Err err)) (sweepOnce wit_reaper) []).
  - apply (list_elem_of_lookup_2 _ 8). by vm_compute.
  - repeat constructor; done.
Qed.
