(* ===== verification/MaintenanceJob.v ===== *)
(** * MaintenanceJob: one maintenance operation on a repository
    (internal/controller/backup_maintenance.go)

    The body the queue's worker runs for forget, unlock, prune and check: wait for
    the movers when the operation strips locks, create the credentials and the Job,
    wait for the Job, delete both.  It is a program over its own interface: the API
    server, the Secret reader, the clock and the two [select]s on a context.  The
    three loops of the source have no bound of their own; their fuel is the number
    of iterations, [None] is running out of it, and [runRepoMaintenance_returns]
    says how much is enough. *)

From S2P Require Import Prelude GoText Cluster Names Status Restic RepoQueue VolumeMachine Calendar Program.
From Stdlib Require Import Ascii String.

#[local] Open Scope string_scope.

(** ** Constants *)

Definition mover_OpForget : string := "forget".
Definition mover_OpPrune : string := "prune".
Definition mover_OpCheck : string := "check".
Definition mover_OpUnlock : string := "unlock".

Definition maintenanceJobBackoffLimit : Z := 1.
Definition maintenanceJobTTLSeconds : Z := 600.
Definition maintenanceJobVisibilityGrace : Z := minute.
Definition maintenanceJobDeadline : Z := (10 * minute)%Z.
Definition maintenanceLongOpDeadline : Z := (4 * hour)%Z.
Definition moverQuiescenceDeadline : Z := (30 * minute)%Z.

Definition maintenanceJobLabels : labels :=
  <["app.kubernetes.io/name" := "crystal-mover"]>
  (<["app.kubernetes.io/managed-by" := "crystal-backup"]>
  (<["app.kubernetes.io/component" := "maintenance"]> ∅)).

Definition maintenanceOpBlocksMovers (op : string) : bool := (op =? mover_OpUnlock) || (op =? mover_OpPrune).

Definition maintenanceOpDeadline (op : string) : Z :=
  if (op =? mover_OpPrune) || (op =? mover_OpCheck) then maintenanceLongOpDeadline else maintenanceJobDeadline.

(** ** The interface *)

(** The fields of [mover.JobRequest] a maintenance operation sets. *)
Record JobRequest := mkJobRequest {
  jr_Name : string;
  jr_Operation : string;
  jr_ResticArgs : list string;
  jr_RepoURL : string;
  jr_S3Connections : option Z;
  jr_SecretName : string;
  jr_BackoffLimit : Z;
  jr_TTLSeconds : Z;
  jr_Labels : labels
}.

Inductive op_action :=
| JReadSecret (ns name dataKey : string)                  (* Secrets.GetValue *)
| JCreateSecret (name dek accessKey secretKey : string)
| JListMovers                                             (* the Jobs with the managed-by label *)
| JDrainSelect                                            (* select: the drain's context or a tick *)
| JSelect                                                 (* select: the operation's context or a tick *)
| JCreate (req : JobRequest)
| JGet (name : string)
| JNow
| JListPods (job : string)
| JDeleteJob (name : string)
| JDeleteSecret (name : string).

(** A [select] answers the context's error, or nothing for a tick. *)
Definition op_answer (o : op_action) : Type :=
  match o with
  | JReadSecret _ _ _ => result string
  | JListMovers => result (list Job)
  | JGet _ => result Job
  | JNow => Z
  | JListPods _ => result (list Pod)
  | JCreateSecret _ _ _ _ | JDrainSelect | JSelect | JCreate _ | JDeleteJob _ | JDeleteSecret _ => option gerr
  end.

Definition opI : interface := mkInterface op_action op_answer.
Notation opprog := (prog opI).
Notation opevent := (event opI).

Definition ask (o : op_action) : opprog (op_answer o) := call (I := opI) o.

(** Out of fuel, or the error the function returns. *)
Notation outcome := (option (option gerr)).
Definition success : outcome := Some None.
Definition failure (e : gerr) : outcome := Some (Some e).

(** ** The operation *)

Section Op.
Variable operatorNamespace : string.

Fixpoint waitForMoverQuiescence (fuel : nat) : opprog outcome :=
  match fuel with
  | O => Done None
  | S fuel =>
      let! jobs := ask JListMovers in
      match activeMoverCount jobs with
      | Err e => Done (failure (wrap_err "counting in-flight movers before an exclusive lock removal" e))
      | Ok O => Done success
      | Ok (S _ as n) =>
          let! expired := ask JDrainSelect in
          match expired with
          | Some e =>
              Done (failure (wrap_err ("timed out waiting for " ++ Itoa (Z.of_nat n) ++ " in-flight mover(s) to drain") e))
          | None => waitForMoverQuiescence fuel
          end
      end
  end.

(** [ensureMoverCredsSecret], as this caller uses it. *)
Definition ensureCreds (name dek s3CredsSecret credsNamespace : string) : opprog (option gerr) :=
  let ns := if credsNamespace =? "" then operatorNamespace else credsNamespace in
  let! ak := ask (JReadSecret ns s3CredsSecret "AWS_ACCESS_KEY_ID") in
  match ak with
  | Err e => Done (Some (wrap_err ("read S3 access key from secret " ++ ns ++ "/" ++ s3CredsSecret) e))
  | Ok ak =>
      let! sk := ask (JReadSecret ns s3CredsSecret "AWS_SECRET_ACCESS_KEY") in
      match sk with
      | Err e => Done (Some (wrap_err ("read S3 secret key from secret " ++ ns ++ "/" ++ s3CredsSecret) e))
      | Ok sk =>
          let! err := ask (JCreateSecret name dek ak sk) in
          match err with
          | Some e => if IsAlreadyExists e then Done None
                      else Done (Some (wrap_err ("create mover creds secret " ++ operatorNamespace ++ "/" ++ name) e))
          | None => Done None
          end
      end
  end.

Definition jobPath (name : string) : string := operatorNamespace ++ "/" ++ name.

Fixpoint createMaintenanceJob (fuel : nat) (req : JobRequest) : opprog outcome :=
  match fuel with
  | O => Done None
  | S fuel =>
      let! err := ask (JCreate req) in
      match err with
      | None => Done success
      | Some e =>
          if negb (IsAlreadyExists e)
          then Done (failure (wrap_err ("create " ++ jr_Operation req ++ " job " ++ jobPath (jr_Name req)) e))
          else
            let! existing := ask (JGet (jr_Name req)) in
            match existing with
            | Err e =>
                if IsNotFound e then createMaintenanceJob fuel req
                else Done (failure (wrap_err ("inspect existing " ++ jr_Operation req ++ " job " ++ jobPath (jr_Name req)) e))
            | Ok existing =>
                match j_deletion existing with
                | None => Done success
                | Some _ =>
                    let! expired := ask JSelect in
                    match expired with
                    | Some e => Done (failure (wrap_err ("waiting for the previous " ++ jr_Operation req ++ " job "
                                                        ++ jobPath (jr_Name req) ++ " to finish deleting") e))
                    | None => createMaintenanceJob fuel req
                    end
                end
            end
      end
  end.

Definition killDetail (pods : result (list Pod)) : string :=
  match pods with
  | Err _ => ""
  | Ok pods => match find (fun p => negb (podKillReason p =? "")) pods with
               | Some p => ": " ++ podKillReason p
               | None => ""
               end
  end.

(** The [select] at the end of an iteration, and the loop again. *)
Definition orExpired (jobName : string) (again : opprog outcome) : opprog outcome :=
  let! expired := ask JSelect in
  match expired with
  | Some e => Done (failure (wrap_err ("maintenance job " ++ jobPath jobName ++ " did not complete") e))
  | None => again
  end.

Fixpoint waitForMaintenanceJob (fuel : nat) (jobName : string) (missingSince : Z) : opprog outcome :=
  match fuel with
  | O => Done None
  | S fuel =>
      let! job := ask (JGet jobName) in
      match job with
      | Err e =>
          if negb (IsNotFound e) then Done (failure (wrap_err ("get maintenance job " ++ jobPath jobName) e))
          else
            let judge since now :=
              let elapsed := time_sub now since in
              if (maintenanceJobVisibilityGrace <? elapsed)%Z
              then Done (failure (wrap_err ("get maintenance job " ++ jobPath jobName ++ ": absent for "
                                            ++ DurationString (RoundSecond elapsed)) e))
              else orExpired jobName (waitForMaintenanceJob fuel jobName since) in
            if time_is_zero missingSince
            then let! since := ask JNow in let! now := ask JNow in judge since now
            else let! now := ask JNow in judge missingSince now
      | Ok job =>
          if jobComplete job then Done success
          else if jobFailed job maintenanceJobBackoffLimit then
            let! pods := ask (JListPods jobName) in
            Done (failure (errorf ("maintenance job " ++ jobPath jobName ++ " failed (failed pods=" ++ Itoa (j_failed job)
                             ++ ", backoffLimit=" ++ Itoa maintenanceJobBackoffLimit ++ ")" ++ killDetail pods)))
          else orExpired jobName (waitForMaintenanceJob fuel jobName zero_time)
      end
  end.

(** Best effort: both errors are only logged. *)
Definition deleteMaintenanceResources (name : string) : opprog () :=
  let! _ := ask (JDeleteJob name) in
  let! _ := ask (JDeleteSecret name) in
  Done tt.

Record op_request := mkOpRequest {
  rq_Name : string;
  rq_Op : string;
  rq_ResticArgs : list string;
  rq_RepoURL : string;
  rq_DEK : string;
  rq_S3CredsSecret : string;
  rq_CredsNamespace : string;
  rq_S3Connections : option Z
}.

Definition jobRequest (q : op_request) : JobRequest :=
  mkJobRequest (rq_Name q) (rq_Op q) (rq_ResticArgs q) (rq_RepoURL q) (rq_S3Connections q) (rq_Name q)
    maintenanceJobBackoffLimit maintenanceJobTTLSeconds maintenanceJobLabels.

(** [if err := p; err != nil { return err }; k]. *)
Definition orReturn (p : opprog outcome) (k : opprog outcome) : opprog outcome :=
  let! r := p in match r with Some None => k | _ => Done r end.

Definition opBody (fuel : nat) (q : op_request) : opprog outcome :=
  orReturn (if maintenanceOpBlocksMovers (rq_Op q) then waitForMoverQuiescence fuel else Done success)
  (orReturn (let! err := ensureCreds (rq_Name q) (rq_DEK q) (rq_S3CredsSecret q) (rq_CredsNamespace q) in Done (Some err))
  (orReturn (createMaintenanceJob fuel (jobRequest q))
  (waitForMaintenanceJob fuel (rq_Name q) zero_time))).

Definition runRepoMaintenance (fuel : nat) (q : op_request) : opprog outcome :=
  let! r := opBody fuel q in
  let! _ := deleteMaintenanceResources (rq_Name q) in
  Done r.

(** ** What a trace shows *)

Definition quiescent (e : opevent) : bool :=
  match e with Ev JListMovers jobs => match activeMoverCount jobs with Ok O => true | _ => false end | _ => false end.

Definition puts (e : opevent) : bool :=
  match ev_action e with JCreate _ | JCreateSecret _ _ _ _ => true | _ => false end.

Definition cleans (e : opevent) : bool :=
  match ev_action e with JDeleteJob _ | JDeleteSecret _ => true | _ => false end.

(** The Job was created, or found alive under its name. *)
Definition takesOver (name : string) (e : opevent) : Prop :=
  match e with
  | Ev (JCreate req) None => jr_Name req = name
  | Ev (JGet n) (Ok job) => n = name /\ j_deletion job = None
  | _ => False
  end.

(** What a context past its deadline answers: its error, and no request of its
    goes through to the server. *)
Definition expired (e : opevent) : Prop :=
  match e with
  | Ev JDrainSelect err | Ev JSelect err => err <> None
  | Ev (JCreate _) (Some err) => IsAlreadyExists err = false
  | _ => True
  end.

(** From the [n]-th request on, the operation's context is past its deadline. *)
Definition timely (n : nat) (past : list opevent) (e : opevent) : Prop := n <= List.length past -> expired e.

(** *** Running the pieces *)

Lemma orReturn_runs p k tr r :
  runs (orReturn p k) tr r <->
  exists tr1 tr2 r1, tr = (tr1 ++ tr2)%list /\ runs p tr1 r1 /\
    (r1 = success /\ runs k tr2 r \/ r1 <> success /\ tr2 = [] /\ r = r1).
Proof.
  unfold orReturn. rewrite runs_bind. split.
  - intros (tr1 & tr2 & r1 & -> & H1 & H2). exists tr1, tr2, r1. split_and!; [done..|].
    destruct r1 as [[e|]|]; [right; by destruct H2|by left|right; by destruct H2].
  - intros (tr1 & tr2 & r1 & -> & H1 & H2). exists tr1, tr2, r1. split_and!; [done..|].
    destruct H2 as [[-> H2]|(Hn & -> & ->)]; [done|]. destruct r1 as [[e|]|]; done.
Qed.

Lemma runRepoMaintenance_runs fuel q tr r :
  runs (runRepoMaintenance fuel q) tr r <->
  exists tr1 x y, tr = (tr1 ++ [Ev (I := opI) (JDeleteJob (rq_Name q)) x; Ev (I := opI) (JDeleteSecret (rq_Name q)) y])%list
    /\ runs (opBody fuel q) tr1 r.
Proof.
  unfold runRepoMaintenance. rewrite runs_bind. split.
  - intros (tr1 & tr2 & r1 & -> & H1 & H2). unfold deleteMaintenanceResources, ask in H2. run_all H2. eauto.
  - intros (tr1 & x & y & -> & H). eexists tr1, _, r. split_and!; [done..|]. cbn. by eauto 10.
Qed.

(** *** The movers are waited for *)

Lemma drain_trace fuel tr r :
  runs (waitForMoverQuiescence fuel) tr r ->
  Forall (fun e => puts e = false /\ cleans e = false) tr /\ (r = success -> exists e, e ∈ tr /\ quiescent e = true).
Proof.
  revert tr. induction fuel as [|fuel IH]; intros tr H; cbn in H.
  { destruct H as [-> ->]. split; [constructor|done]. }
  destruct H as (jobs & tr' & -> & H). destruct (activeMoverCount jobs) as [[|n]|e] eqn:Ec; run_all H.
  - split; [by repeat constructor|]. intros _. eexists. split; [left|]. cbn. by rewrite Ec.
  - split; [by repeat constructor|done].
  - apply IH in H. destruct H as [Hf Hr]. split; [by repeat constructor|]. intros Hs.
    destruct (Hr Hs) as (e & He & Hq). exists e. split; [by do 2 right|done].
  - split; [by repeat constructor|done].
Qed.

Lemma creds_trace name dek s3 ns tr err :
  runs (ensureCreds name dek s3 ns) tr err -> Forall (fun e => cleans e = false) tr.
Proof. unfold ensureCreds, ask. intros H. run_all H; repeat constructor. Qed.

Lemma create_trace fuel req tr r :
  runs (createMaintenanceJob fuel req) tr r ->
  Forall (fun e => cleans e = false) tr /\ (r = success -> exists e, e ∈ tr /\ takesOver (jr_Name req) e).
Proof.
  revert tr. induction fuel as [|fuel IH]; intros tr H; cbn in H.
  { destruct H as [-> ->]. split; [constructor|done]. }
  run_all H.
  all: try (apply IH in H as [Hf Hr]; split; [by repeat constructor|]; intros Hs;
    destruct (Hr Hs) as (e' & He & Ht); exists e'; split; [set_solver|done]).
  all: try (split; [by repeat constructor|done]).
  - split; [by repeat constructor|]. intros _. eexists. split; [right; left|]. done.
  - split; [by repeat constructor|]. intros _. eexists. split; [left|]. done.
Qed.

Lemma wait_trace fuel name since tr r :
  runs (waitForMaintenanceJob fuel name since) tr r ->
  Forall (fun e => cleans e = false) tr
  /\ (r = success -> exists job, [Ev (I := opI) (JGet name) (Ok job)] `suffix_of` tr /\ jobComplete job = true).
Proof.
  revert tr since. induction fuel as [|fuel IH]; intros tr since H; cbn in H.
  { destruct H as [-> ->]. split; [constructor|done]. }
  unfold orExpired, ask in H. run_all H.
  all: try (split; [by repeat constructor|done]).
  all: try (apply IH in H as [Hf Hr]; split; [by repeat constructor|]; intros Hs;
    destruct (Hr Hs) as (job & Ht & Hj); exists job; split; [by repeat apply suffix_cons_r|done]).
  split; [by repeat constructor|]. intros _. by exists a.
Qed.

(** *** The body *)

(** The steps the body went through: the drain, the credentials, the Job, the wait. *)
Lemma opBody_trace fuel q tr r :
  runs (opBody fuel q) tr r ->
  Forall (fun e => cleans e = false) tr
  /\ (maintenanceOpBlocksMovers (rq_Op q) = true -> onlyAfter quiescent puts false tr = true)
  /\ (r = success -> exists pre job, tr = (pre ++ [Ev (I := opI) (JGet (rq_Name q)) (Ok job)])%list
        /\ jobComplete job = true /\ exists e, e ∈ pre /\ takesOver (rq_Name q) e).
Proof.
  unfold opBody. intros (tr1 & trx & r1 & -> & H1 & H)%orReturn_runs.
  assert (Forall (fun e => puts e = false /\ cleans e = false) tr1 /\
    (r1 = success -> maintenanceOpBlocksMovers (rq_Op q) = true -> existsb quiescent tr1 = true)) as [F1 Q1].
  { destruct (maintenanceOpBlocksMovers (rq_Op q)).
    - apply drain_trace in H1 as [Hf Hr]. split; [done|]. intros Hs _. apply existsb_elem. by apply Hr.
    - destruct H1 as [-> ->]. by split. }
  assert (onlyAfter quiescent puts false tr1 = true) as O1.
  { apply onlyAfter_none. eapply Forall_impl; [exact F1|]. by intros e []. }
  assert (Forall (fun e => cleans e = false) tr1) as C1 by (eapply Forall_impl; [exact F1|]; by intros e []).
  assert (r1 = success -> maintenanceOpBlocksMovers (rq_Op q) = true ->
    forall tr2, onlyAfter quiescent puts false (tr1 ++ tr2) = true) as O2.
  { intros Hs Hb tr2. by rewrite onlyAfter_app, O1, (Q1 Hs Hb), onlyAfter_seen. }
  destruct H as [[-> H]|(Hn & -> & ->)]; [|rewrite app_nil_r; naive_solver].
  apply orReturn_runs in H as (tr2 & trx' & r2 & -> & H2 & H).
  assert (Forall (fun e => cleans e = false) tr2) as C2.
  { apply runs_bind in H2 as (t1 & t2 & err & -> & H2 & [-> _]). rewrite app_nil_r. by eapply creds_trace. }
  destruct H as [[_ H]|(Hn & -> & ->)]; [|rewrite app_nil_r, Forall_app; naive_solver].
  apply orReturn_runs in H as (tr3 & tr4 & r3 & -> & H3 & H). apply create_trace in H3 as [C3 T3].
  destruct H as [[-> H4]|(Hn & -> & ->)]; [|rewrite app_nil_r, !Forall_app; naive_solver].
  apply wait_trace in H4 as [C4 T4]. rewrite !Forall_app. split_and!; [done..|intros Hb; by apply O2|].
  intros Hs. destruct (T4 Hs) as (job & [t ->] & Hj), (T3 eq_refl) as (e & He & Ht).
  exists (tr1 ++ tr2 ++ tr3 ++ t)%list, job. rewrite <-!app_assoc. split_and!; [done..|].
  exists e. split; [set_solver|done].
Qed.

(** *** The loops end *)

(** A request that let the loop go on came before the [n]-th. *)
Definition goesOn (e : opevent) : bool :=
  match e with
  | Ev JDrainSelect None | Ev JSelect None => true
  | Ev (JCreate _) (Some err) => IsAlreadyExists err
  | _ => false
  end.

Lemma goesOn_early n past e : goesOn e = true -> timely n past e -> List.length past < n.
Proof.
  intros He Ht. apply Nat.nle_gt. intros Hn. specialize (Ht Hn). destruct e as [o a]. destruct o; cbn in *; try done;
    destruct a; cbn in *; try done; by rewrite He in Ht.
Qed.

Ltac next_iteration IH H Hs :=
  cbn [safe] in Hs; destruct_and! Hs;
  repeat match goal with
  | Ht : timely ?n ?past ?e |- _ => first [apply goesOn_early in Ht; [|first [done | cbn; by destruct (IsAlreadyExists _)]] | clear Ht]
  end;
  rewrite ?length_app in *; cbn in *;
  (eapply IH; [exact H|eassumption|rewrite ?length_app; cbn; lia|lia]).

Lemma drain_ends fuel n past tr :
  runs (waitForMoverQuiescence fuel) tr None -> safe (timely n) past tr -> n < fuel + List.length past -> 1 <= fuel -> False.
Proof.
  revert past tr. induction fuel as [|fuel IH]; intros past tr H Hs Hn Hf; [lia|]. cbn in H.
  destruct H as (jobs & tr' & -> & H). destruct (activeMoverCount jobs) as [[|m]|e]; run_all H; try done.
  next_iteration IH H Hs.
Qed.

Lemma create_ends fuel req n past tr :
  runs (createMaintenanceJob fuel req) tr None -> safe (timely n) past tr -> n < fuel + List.length past -> 1 <= fuel -> False.
Proof.
  revert past tr. induction fuel as [|fuel IH]; intros past tr H Hs Hn Hf; [lia|]. cbn in H. run_all H; try done.
  all: next_iteration IH H Hs.
Qed.

Lemma wait_ends fuel name since n past tr :
  runs (waitForMaintenanceJob fuel name since) tr None -> safe (timely n) past tr -> n < fuel + List.length past ->
  1 <= fuel -> False.
Proof.
  revert past tr since. induction fuel as [|fuel IH]; intros past tr since H Hs Hn Hf; [lia|]. cbn in H.
  unfold orExpired, ask in H. run_all H; try done.
  all: next_iteration IH H Hs.
Qed.

Lemma opBody_ends fuel q n tr :
  runs (opBody fuel q) tr None -> safe (timely n) [] tr -> n < fuel -> False.
Proof.
  unfold opBody. intros (tr1 & trx & r1 & -> & H1 & H)%orReturn_runs Hs Hn.
  apply safe_app in Hs as [S1 Hs].
  destruct H as [[-> H]|(_ & -> & <-)].
  2: { destruct (maintenanceOpBlocksMovers (rq_Op q)); [|by destruct H1]. eapply drain_ends; eauto; cbn; lia. }
  apply orReturn_runs in H as (tr2 & trx' & r2 & -> & H2 & H). apply safe_app in Hs as [S2 Hs].
  destruct H as [[-> H]|(_ & -> & <-)].
  2: { apply runs_bind in H2 as (t1 & t2 & err & _ & _ & [_ Hd]). done. }
  apply orReturn_runs in H as (tr3 & tr4 & r3 & -> & H3 & H). apply safe_app in Hs as [S3 S4].
  destruct H as [[-> H4]|(_ & -> & <-)].
  - eapply wait_ends; eauto; rewrite ?length_app; cbn; lia.
  - eapply create_ends; eauto; rewrite ?length_app; cbn; lia.
Qed.

(** ** Theorems *)

(** What an operation does, whatever it is answered and however it ends: the last
    two requests, and no others, delete its Job and its Secret; an operation that
    strips locks creates neither before it saw a census without a single running
    mover; and it succeeds only on a complete Job under its name, after it created
    one or found one alive. *)
Theorem runRepoMaintenance_spec (fuel : nat) (q : op_request) tr r :
  runs (runRepoMaintenance fuel q) tr r ->
  (exists tr' x y, tr = (tr' ++ [Ev (I := opI) (JDeleteJob (rq_Name q)) x; Ev (I := opI) (JDeleteSecret (rq_Name q)) y])%list
     /\ Forall (fun e => cleans e = false) tr')
  /\ (maintenanceOpBlocksMovers (rq_Op q) = true -> onlyAfter quiescent puts false tr = true)
  /\ (r = success -> exists pre job post, tr = (pre ++ Ev (I := opI) (JGet (rq_Name q)) (Ok job) :: post)%list
        /\ jobComplete job = true /\ exists e, e ∈ pre /\ takesOver (rq_Name q) e).
Proof.
  intros (tr' & x & y & -> & H)%runRepoMaintenance_runs. apply opBody_trace in H as (Hc & Ho & Hr). split_and!.
  - by exists tr', x, y.
  - intros Hb. rewrite onlyAfter_app, (Ho Hb). by apply onlyAfter_none; repeat constructor.
  - intros Hs. destruct (Hr Hs) as (pre & job & -> & Hj & Ht).
    exists pre, job. eexists. by rewrite <-app_assoc.
Qed.

(** The operation returns, so that it leaves the repository's lane: when its
    context is past its deadline from the [n]-th request on, [n] + 1 iterations of
    each loop are enough. *)
Theorem runRepoMaintenance_returns (fuel n : nat) (q : op_request) tr r :
  runs (runRepoMaintenance fuel q) tr r -> safe (timely n) [] tr -> n < fuel -> r <> None.
Proof.
  intros (tr' & x & y & -> & H)%runRepoMaintenance_runs [Hs _]%safe_app Hn ->. by eapply opBody_ends.
Qed.

End Op.

(** The two halves of the mutex agree: the kinds that hold new movers back are the
    operations that wait for the running ones. *)
Lemma mutex_halves_agree :
  Forall (fun p => maintenanceOpBlocksMovers (fst p) = blocksMovers (snd p))
    [(mover_OpForget, OpForget); (mover_OpPrune, OpPrune); (mover_OpCheck, OpCheck); (mover_OpUnlock, OpUnlock)].
Proof. by repeat constructor. Qed.

(** The wait for quiescence does not count the operation's own Job. *)
Lemma own_job_is_no_mover j : j_labels j = maintenanceJobLabels -> activeMoverCount (Ok [j]) = Ok 0.
Proof. intros H. unfold activeMoverCount, listMoverJobs. cbn. by rewrite H. Qed.

(** ** Witnesses *)

Definition wit_job : Job := mkJob "loc-prune" ∅ 5 None 1 0 [].
Definition wit_dead_job : Job := mkJob "loc-prune" ∅ 5 (Some 7%Z) 1 0 [].
Definition wit_mover : Job := mkJob "m" (<[LabelPVC := "data"]> ∅) 5 None 0 0 [].
Definition wit_op : op_request := mkOpRequest "loc-prune" mover_OpPrune ["prune"] "s3:url" "dek" "creds" "" None.

Definition ctx_error : gerr := errorf "context deadline exceeded".

(** A mover that drains after one tick; a Job in the way, still deleting at first;
    a context past its deadline after 20 requests. *)
Definition wit_op_server : server opI := fun past o =>
  match o return op_answer o with
  | JReadSecret _ _ _ => Ok "secret"
  | JListMovers => Ok (if (List.length past =? 0)%nat then [wit_mover] else [])
  | JGet _ => Ok (if (List.length past <=? 8)%nat then wit_dead_job else wit_job)
  | JNow => 0%Z
  | JListPods _ => Ok []
  | JDrainSelect | JSelect => if (20 <=? List.length past)%nat then Some ctx_error else None
  | JCreate _ => if (List.length past <=? 8)%nat then Some (mkErr EAlreadyExists "exists") else None
  | JCreateSecret _ _ _ _ | JDeleteJob _ | JDeleteSecret _ => None
  end.

Definition wit_op_run : list opevent * outcome := exec wit_op_server (runRepoMaintenance "ops" 30 wit_op) [].

Lemma runRepoMaintenance_spec_witness :
  (List.length (fst wit_op_run) = 13 /\ snd wit_op_run = success)
  /\ onlyAfter quiescent puts false (fst wit_op_run) = true.
Proof.
  split; [by vm_compute|].
  destruct (runRepoMaintenance_spec "ops" 30 wit_op _ _ (exec_runs wit_op_server _ [])) as (_ & H & _).
  apply H. reflexivity.
Defined.

Lemma runRepoMaintenance_returns_witness : snd wit_op_run <> None.
Proof.
  apply (runRepoMaintenance_returns "ops" 30 20 wit_op _ _ (exec_runs wit_op_server _ [])); [|lia].
  vm_compute. repeat split; try done; intros; lia.
Defined.

(** A read that lags behind the deletion: the Job is created, the cache still
    holds the previous run's finished Job, which is being deleted, and the
    operation reports a success its own Job did not earn. *)
Definition lagging_server : server opI := fun past o =>
  match o return op_answer o with
  | JGet _ => Ok wit_dead_job
  | o => wit_op_server (repeat (Ev (I := opI) JNow 0%Z) 9) o
  end.

Lemma stale_job_reported :
  snd (exec lagging_server (runRepoMaintenance "ops" 30 wit_op) []) = success
  /\ List.length (List.filter (fun e : opevent => match e with Ev (JCreate _) None => true | _ => false end)
       (fst (exec lagging_server (runRepoMaintenance "ops" 30 wit_op) []))) = 1
  /\ Forall (fun e : opevent => match e with Ev (JGet _) (Ok job) => j_deletion job <> None | _ => True end)
       (fst (exec lagging_server (runRepoMaintenance "ops" 30 wit_op) [])).
Proof. vm_compute. split_and!; [done..|]. repeat constructor; done. Qed.
