(* ===== verification/Location.v ===== *)
(** * Location: locations, their bindings and their repositories
    (internal/controller/location_binding.go, backuplocation_controller.go)

    A location of either plane is reduced to a [locationBinding].  The reconciler
    of the namespaced [BackupLocation] pins its cluster ID, checks its key and its
    endpoint, and provisions the cluster-scoped [BackupRepository] behind it; the
    repositories of the API server are a map from name to object, passed along. *)

From S2P Require Import Prelude GoText Cluster Restic VolumeMachine Backup.
From Stdlib Require Import Ascii String.

#[local] Open Scope string_scope.

(** ** Constants *)

Definition kindBackupLocation : string := "BackupLocation".
Definition kindClusterBackupLocation : string := "ClusterBackupLocation".
Definition scopeNamespaced : string := "Namespaced".
Definition scopeCluster : string := "Cluster".
Definition keySlotTenant : string := "tenant".
Definition keySlotPlatform : string := "platform".
Definition namespacedRepoSeparator : string := "--".
Definition LabelLocation : string := "crystalbackup.io/location".
Definition FinalizerLocation : string := "crystalbackup.io/location".
Definition ConditionReachable : string := "Reachable".
Definition ConditionEncryptionValid : string := "EncryptionValid".
Definition backupLocationPhaseWaitingClusterID : string := "WaitingForClusterID".
Definition locationPhaseDegraded : string := "Degraded".
Definition locationPhaseInitializing : string := "Initializing".
Definition shortRequeueInterval : Z := (30 * second)%Z.
Definition periodicRequeueInterval : Z := (5 * minute)%Z.

(** ** Bindings *)

Record ClusterBackupLocation := mkClusterBackupLocation {
  cl_Name : string;
  cl_CredsSecret : string;
  cl_Immutable : bool;
  cl_ClusterID : string;
  cl_Default : bool;
  cl_Retention : RetentionSpec
}.

Record BackupRepository := mkBackupRepository {
  br_Name : string;
  br_Labels : labels;
  br_Controller : option (string * string);     (* kind and name of the controller owner *)
  br_Initialized : bool;
  br_RepositoryURL : string
}.

(** The repositories of the API server, by name. *)
Notation repositories := (gmap string BackupRepository).

Record locationBinding := mkLocationBinding {
  lb_Kind : string;
  lb_Namespace : string;
  lb_Name : string;
  lb_CredsSecret : string;
  lb_Immutable : bool;
  lb_ClusterID : string;
  lb_CredsNamespace : string;
  lb_PasswordSecretRef : string;
  lb_Retention : RetentionSpec
}.

Definition Namespaced (b : locationBinding) : bool := lb_Kind b =? kindBackupLocation.

Definition Scope (b : locationBinding) : string := if Namespaced b then scopeNamespaced else scopeCluster.

Definition KeySlots (b : locationBinding) : list string :=
  if negb (Namespaced b) then [keySlotPlatform] else [keySlotTenant].

Definition Describe (b : locationBinding) : string :=
  if lb_Namespace b =? "" then lb_Kind b ++ " " ++ lb_Name b
  else lb_Kind b ++ " " ++ lb_Namespace b ++ "/" ++ lb_Name b.

Definition namespacedRepositoryName (namespace name : string) : string :=
  namespace ++ namespacedRepoSeparator ++ name.

Definition repositoryBackLinkLabels (namespace name : string) : labels :=
  <[LabelManagedBy := ManagedByValue]> (<[LabelNamespace := namespace]> (<[LabelLocation := name]> ∅)).

Definition bindingFromClusterLocation (cbl : ClusterBackupLocation) (operatorNamespace : string)
    : locationBinding :=
  mkLocationBinding kindClusterBackupLocation "" (cl_Name cbl) (cl_CredsSecret cbl) (cl_Immutable cbl)
    (cl_ClusterID cbl) operatorNamespace "" (cl_Retention cbl).

Section Location.
Context `{CS : ConditionStore}.

Record BackupLocation := mkBackupLocation {
  bl_Namespace : string;
  bl_Name : string;
  bl_Generation : Z;
  bl_Deleting : bool;
  bl_Finalizers : list string;
  bl_Endpoint : string;                   (* spec.s3.endpoint *)
  bl_CredsSecret : string;
  bl_Immutable : bool;
  bl_SpecClusterID : string;
  bl_PasswordSecretRef : option string;   (* encryption.repositoryPasswordSecretRef *)
  bl_Retention : RetentionSpec;
  bl_ClusterID : string;                  (* status.clusterID *)
  bl_RepositoryRef : string;              (* status.repositoryRef *)
  bl_Phase : string;                      (* status.phase *)
  bl_Conditions : conditions              (* status.conditions *)
}.

Definition UserPasswordSecretName (locationName : string) : string := "crystal-repo-password-" ++ locationName.

Definition passwordSecretRefName (loc : BackupLocation) : string := default "" (bl_PasswordSecretRef loc).

Definition bindingFromNamespacedLocation (loc : BackupLocation) : locationBinding :=
  mkLocationBinding kindBackupLocation (bl_Namespace loc) (bl_Name loc) (bl_CredsSecret loc)
    (bl_Immutable loc) (bl_ClusterID loc) (bl_Namespace loc) (passwordSecretRefName loc) (bl_Retention loc).

(** [resolveLocationBinding]; the two reads are its arguments. *)
Definition resolveLocationBinding (getLocation : string -> string -> result BackupLocation)
    (getClusterLocation : string -> result ClusterBackupLocation) (br : BackupRepository)
    (operatorNamespace : string) : result locationBinding :=
  let ns := lget (br_Labels br) LabelNamespace in
  let name := lget (br_Labels br) LabelLocation in
  if negb (ns =? "") && negb (name =? "") then
    match getLocation ns name with
    | Err e => Err e
    | Ok loc => Ok (bindingFromNamespacedLocation loc)
    end
  else
    let none := Err (mkErr ENotFound "clusterbackuplocations not found: <none>") in
    match br_Controller br with
    | None => none
    | Some (kind, owner) =>
        if negb (kind =? kindClusterBackupLocation) then none
        else match getClusterLocation owner with
             | Err e => Err e
             | Ok cbl => Ok (bindingFromClusterLocation cbl operatorNamespace)
             end
    end.

(** ** The default cluster ID *)

Definition candidate (l : ClusterBackupLocation) : bool := cl_Default l && negb (cl_ClusterID l =? "").

Fixpoint bestDefault (locations : list ClusterBackupLocation) (best : string) : string :=
  match locations with
  | [] => best
  | l :: locations =>
      if negb (candidate l) then bestDefault locations best
      else if (best =? "") || String.ltb (cl_Name l) best
      then bestDefault locations (cl_Name l)
      else bestDefault locations best
  end.

Definition defaultClusterID (locations : result (list ClusterBackupLocation)) : result string :=
  match locations with
  | Err e => Err (wrap_err "list ClusterBackupLocations to default the cluster ID" e)
  | Ok items =>
      let best := bestDefault items "" in
      if best =? "" then Ok ""
      else match List.find (fun l => cl_Name l =? best) items with
           | Some l => Ok (cl_ClusterID l)
           | None => Ok ""
           end
  end.

(** ** The reconciler of BackupLocation *)

(** What the outside answers to one pass; [la_race] is what others do to the
    repositories between the Get and the Create of [ensureRepository]. *)
Record location_answers := mkLocationAnswers {
  la_clusterLocations : result (list ClusterBackupLocation);
  la_password : option gerr;                (* UserKeys.EnsureUserPassword *)
  la_reachable : option gerr;               (* Prober.Reachable *)
  la_getRepository : option gerr;           (* an error other than the store's own answer *)
  la_race : repositories -> repositories;
  la_createRepository : option gerr;
  la_rereadRepository : option gerr;
  la_deleteRepository : option gerr;
  la_update : option gerr;                  (* Update, Status().Update *)
}.

Definition set_bl_status (clusterID ref phase : string) (cs : conditions) (loc : BackupLocation)
    : BackupLocation :=
  mkBackupLocation (bl_Namespace loc) (bl_Name loc) (bl_Generation loc) (bl_Deleting loc) (bl_Finalizers loc)
    (bl_Endpoint loc) (bl_CredsSecret loc) (bl_Immutable loc) (bl_SpecClusterID loc) (bl_PasswordSecretRef loc)
    (bl_Retention loc) clusterID ref phase cs.
Definition set_bl_clusterID (id : string) (loc : BackupLocation) : BackupLocation :=
  set_bl_status id (bl_RepositoryRef loc) (bl_Phase loc) (bl_Conditions loc) loc.
Definition set_bl_ref (ref : string) (loc : BackupLocation) : BackupLocation :=
  set_bl_status (bl_ClusterID loc) ref (bl_Phase loc) (bl_Conditions loc) loc.
Definition set_bl_phase (p : string) (loc : BackupLocation) : BackupLocation :=
  set_bl_status (bl_ClusterID loc) (bl_RepositoryRef loc) p (bl_Conditions loc) loc.
Definition set_bl_condition (condType st reason message : string) (loc : BackupLocation) : BackupLocation :=
  set_bl_status (bl_ClusterID loc) (bl_RepositoryRef loc) (bl_Phase loc)
    (SetCondition (bl_Conditions loc) condType st reason message (bl_Generation loc)) loc.
Definition set_bl_finalizers (fs : list string) (loc : BackupLocation) : BackupLocation :=
  mkBackupLocation (bl_Namespace loc) (bl_Name loc) (bl_Generation loc) (bl_Deleting loc) fs
    (bl_Endpoint loc) (bl_CredsSecret loc) (bl_Immutable loc) (bl_SpecClusterID loc) (bl_PasswordSecretRef loc)
    (bl_Retention loc) (bl_ClusterID loc) (bl_RepositoryRef loc) (bl_Phase loc) (bl_Conditions loc).

(** Whether the cluster ID is resolved, and the location with it pinned. *)
Definition resolveClusterID (a : location_answers) (loc : BackupLocation) : result (bool * BackupLocation) :=
  if negb (bl_ClusterID loc =? "") then Ok (true, loc)
  else if negb (bl_SpecClusterID loc =? "") then Ok (true, set_bl_clusterID (bl_SpecClusterID loc) loc)
  else
    match defaultClusterID (la_clusterLocations a) with
    | Err e => Err e
    | Ok inherited =>
        if inherited =? "" then Ok (false, loc) else Ok (true, set_bl_clusterID inherited loc)
    end.

Definition validateEncryption (a : location_answers) (loc : BackupLocation) : bool * BackupLocation :=
  let ref := passwordSecretRefName loc in
  match la_password a with
  | Some e =>
      (false, set_bl_condition ConditionEncryptionValid ConditionFalse
                (if ref =? "" then "PasswordUnavailable" else "PasswordSecretUnusable") (err_text e) loc)
  | None =>
      (true, set_bl_condition ConditionEncryptionValid ConditionTrue
               (if ref =? "" then "GeneratedKey" else "UserKey")
               (if ref =? ""
                then "repository password generated and stored in Secret " ++ bl_Namespace loc ++ "/"
                       ++ UserPasswordSecretName (bl_Name loc) ++ " — it is YOUR key: back it up, "
                       ++ "because without it these backups cannot be read, by you or by the platform"
                else "repository password read from the referenced Secret " ++ bl_Namespace loc ++ "/" ++ ref) loc)
  end.

Definition checkReachability (a : location_answers) (loc : BackupLocation) : bool * BackupLocation :=
  match la_reachable a with
  | Some e => (false, set_bl_condition ConditionReachable ConditionFalse "Unreachable"
                         ("probe " ++ bl_Endpoint loc ++ ": " ++ err_text e) loc)
  | None => (true, set_bl_condition ConditionReachable ConditionTrue "Reachable"
                        ("endpoint " ++ bl_Endpoint loc ++ " responded") loc)
  end.

(** The repository's labels say it backs this very location. *)
Definition ownedBy (loc : BackupLocation) (br : BackupRepository) : bool :=
  (lget (br_Labels br) LabelNamespace =? bl_Namespace loc)
  && (lget (br_Labels br) LabelLocation =? bl_Name loc).

Definition getRepository (transient : option gerr) (repos : repositories) (name : string)
    : result BackupRepository :=
  match transient with
  | Some e => Err e
  | None => match repos !! name with
            | Some br => Ok br
            | None => Err (mkErr ENotFound ("backuprepositories " ++ name ++ " not found"))
            end
  end.

Definition ensureRepository (a : location_answers) (loc : BackupLocation) (repos : repositories)
    : option gerr * BackupLocation * repositories :=
  let name := namespacedRepositoryName (bl_Namespace loc) (bl_Name loc) in
  match getRepository (la_getRepository a) repos name with
  | Ok existing =>
      if negb (ownedBy loc existing)
      then (Some (errorf ("BackupRepository " ++ quoted name ++ " already exists and belongs to a different location "
              ++ "(labels namespace=" ++ quoted (lget (br_Labels existing) LabelNamespace)
              ++ " location=" ++ quoted (lget (br_Labels existing) LabelLocation)
              ++ "); rename this BackupLocation to claim a distinct repository")), loc, repos)
      else (None, set_bl_ref name loc, repos)
  | Err e =>
      if negb (IsNotFound e) then (Some (wrap_err ("get BackupRepository " ++ name) e), loc, repos)
      else
        let repos := la_race a repos in
        let repo := mkBackupRepository name (repositoryBackLinkLabels (bl_Namespace loc) (bl_Name loc)) None false "" in
        let '(cerr, repos) :=
          match la_createRepository a with
          | Some e => (Some e, repos)
          | None => match repos !! name with
                    | Some _ => (Some (mkErr EAlreadyExists ("backuprepositories " ++ name ++ " already exists")), repos)
                    | None => (None, <[name := repo]> repos)
                    end
          end in
        match cerr with
        | Some e =>
            if negb (IsAlreadyExists e) then (Some (wrap_err ("create BackupRepository " ++ name) e), loc, repos)
            else (None, set_bl_ref name loc, repos)
        | None => (None, set_bl_ref name loc, repos)
        end
  end.

Definition repositoryInitialized (a : location_answers) (loc : BackupLocation) (repos : repositories)
    : result bool :=
  if bl_RepositoryRef loc =? "" then Ok false
  else match getRepository (la_rereadRepository a) repos (bl_RepositoryRef loc) with
       | Ok br => Ok (br_Initialized br)
       | Err e => if IsNotFound e then Ok false
                  else Err (wrap_err ("get BackupRepository " ++ bl_RepositoryRef loc) e)
       end.

(** What one pass leaves: its result, the location in memory, the repositories,
    and whether the API server accepted a write of the location. *)
Record location_pass := mkLocationPass {
  lp_result : Result * option gerr;
  lp_loc : BackupLocation;
  lp_repos : repositories;
  lp_written : bool
}.

Definition bl_describe (loc : BackupLocation) : string := bl_Namespace loc ++ "/" ++ bl_Name loc.

(** Write the status; the pass ends with [res], or with the write's error. *)
Definition writeLocation (a : location_answers) (res : Result) (loc : BackupLocation) (repos : repositories)
    : location_pass :=
  match la_update a with
  | Some e => mkLocationPass (noResult, Some (wrap_err ("update status for BackupLocation " ++ bl_describe loc) e))
                loc repos false
  | None => mkLocationPass (res, None) loc repos true
  end.

Definition notReady (a : location_answers) (reason message phase : string) (loc : BackupLocation)
    (repos : repositories) : location_pass :=
  writeLocation a (RequeueAfter shortRequeueInterval)
    (set_bl_phase phase (set_bl_condition ConditionReady ConditionFalse reason message loc)) repos.

Definition finalizeLocation (a : location_answers) (loc : BackupLocation) (repos : repositories) : location_pass :=
  if negb (existsb (String.eqb FinalizerLocation) (bl_Finalizers loc))
  then mkLocationPass (noResult, None) loc repos false
  else
    let name := namespacedRepositoryName (bl_Namespace loc) (bl_Name loc) in
    let remove repos :=
      let loc' := set_bl_finalizers (List.filter (fun f => negb (f =? FinalizerLocation)) (bl_Finalizers loc)) loc in
      match la_update a with
      | Some e => mkLocationPass (noResult, Some (wrap_err ("remove finalizer from BackupLocation " ++ bl_describe loc) e))
                    loc' repos false
      | None => mkLocationPass (noResult, None) loc' repos true
      end in
    match getRepository (la_getRepository a) repos name with
    | Ok br =>
        if ownedBy loc br then
          match la_deleteRepository a with
          | Some e => if IsNotFound e then remove repos
                      else mkLocationPass (noResult, Some (wrap_err ("delete BackupRepository " ++ name) e)) loc repos false
          | None => remove (delete name repos)
          end
        else remove repos
    | Err e =>
        if IsNotFound e then remove repos
        else mkLocationPass (noResult, Some (wrap_err ("get BackupRepository " ++ name) e)) loc repos false
    end.

Definition reconcileLocation (a : location_answers) (loc : BackupLocation) (repos : repositories) : location_pass :=
  if bl_Deleting loc then finalizeLocation a loc repos
  else if negb (existsb (String.eqb FinalizerLocation) (bl_Finalizers loc)) then
    let loc' := set_bl_finalizers (bl_Finalizers loc ++ [FinalizerLocation])%list loc in
    match la_update a with
    | Some e => mkLocationPass (noResult, Some (wrap_err ("add finalizer to BackupLocation " ++ bl_describe loc) e))
                  loc' repos false
    | None => mkLocationPass (mkResult true 0, None) loc' repos true
    end
  else
    match resolveClusterID a loc with
    | Err e => mkLocationPass (noResult, Some e) loc repos false
    | Ok (false, loc) =>
        notReady a "NoClusterID"
          ("spec.clusterID is unset and no default ClusterBackupLocation declares one to inherit; "
             ++ "set spec.clusterID or ask an administrator for a default location")
          backupLocationPhaseWaitingClusterID loc repos
    | Ok (true, loc) =>
        let '(encryptionValid, loc) := validateEncryption a loc in
        if negb encryptionValid then
          notReady a "EncryptionInvalid" "the repository key is not available; see condition EncryptionValid"
            locationPhaseDegraded loc repos
        else
          let '(reachable, loc) := checkReachability a loc in
          if negb reachable then
            notReady a "Unreachable" "object storage endpoint is not reachable; see condition Reachable"
              locationPhaseDegraded loc repos
          else
            let '(err, loc, repos) := ensureRepository a loc repos in
            match err with
            | Some e =>
                let p := notReady a "RepositoryUnavailable" (err_text e) locationPhaseDegraded loc repos in
                mkLocationPass (RequeueAfter shortRequeueInterval, None) (lp_loc p) repos (lp_written p)
            | None =>
                match repositoryInitialized a loc repos with
                | Err e => mkLocationPass (noResult, Some e) loc repos false
                | Ok repoInitialized =>
                    let reachable := IsConditionTrue (bl_Conditions loc) ConditionReachable in
                    let encryptionValid := IsConditionTrue (bl_Conditions loc) ConditionEncryptionValid in
                    let provisioned := negb (bl_RepositoryRef loc =? "") in
                    if reachable && encryptionValid && provisioned && repoInitialized then
                      writeLocation a (RequeueAfter periodicRequeueInterval)
                        (set_bl_phase "Ready" (set_bl_condition ConditionReady ConditionTrue "Ready"
                           ("location is reachable, its key is available, and the repository is initialized "
                              ++ "and ready to accept backups") loc)) repos
                    else if reachable && encryptionValid && provisioned then
                      writeLocation a (RequeueAfter shortRequeueInterval)
                        (set_bl_phase locationPhaseInitializing (set_bl_condition ConditionReady ConditionFalse
                           "RepositoryInitializing"
                           ("repository provisioned; initialization is still in progress — see BackupRepository "
                              ++ quoted (bl_RepositoryRef loc) ++ " (condition Initialized) for its progress") loc)) repos
                    else
                      writeLocation a (RequeueAfter periodicRequeueInterval)
                        (set_bl_phase locationPhaseDegraded (set_bl_condition ConditionReady ConditionFalse
                           "NotReady" "location is not ready" loc)) repos
                end
            end
    end.

(** ** The default cluster ID: the least name, whatever the order of the list *)

Definition least_candidate (locations : list ClusterBackupLocation) (best : string) : Prop :=
  (exists l, l ∈ locations /\ candidate l = true /\ cl_Name l = best)
  /\ forall l, l ∈ locations -> candidate l = true -> String.ltb (cl_Name l) best = false.

Lemma bestDefault_spec locations best :
  (forall l, l ∈ locations -> cl_Name l <> "") ->
  let best' := bestDefault locations best in
  (best' = best \/ exists l, l ∈ locations /\ candidate l = true /\ cl_Name l = best')
  /\ (best <> "" -> best' <> "" /\ String.ltb best best' = false)
  /\ (forall l, l ∈ locations -> candidate l = true -> best' <> "" /\ String.ltb (cl_Name l) best' = false).
Proof.
  revert best. induction locations as [|l locations IH]; intros best Hn; cbn.
  { split_and!; [by left| |set_solver]. intros. split; [done|apply string_ltb_irrefl]. }
  assert (forall l, l ∈ locations -> cl_Name l <> "") as Hn' by (intros; apply Hn; by right).
  assert (cl_Name l <> "") as Hl by (apply Hn; left).
  destruct (candidate l) eqn:Ec; cbn.
  - destruct ((best =? "") || String.ltb (cl_Name l) best) eqn:Eb.
    + destruct (IH (cl_Name l) Hn') as (Hin & Hlt & Hall). destruct (Hlt Hl) as [Hne Hle].
      split_and!.
      * right. destruct Hin as [->|(x & Hx & Hxc & Hxn)]; [exists l; split; [left|done]|].
        exists x. split; [by right|done].
      * intros Hb. split; [done|]. apply orb_true_iff in Eb as [->%String.eqb_eq|Eb]; [done|].
        apply not_true_is_false. intros Hc. rewrite (string_ltb_trans _ _ _ Eb Hc) in Hle. done.
      * intros x [->|Hx]%elem_of_cons Hxc; [done|]. by apply Hall.
    + destruct (IH best Hn') as (Hin & Hlt & Hall).
      apply orb_false_iff in Eb as [Hb%String.eqb_neq Eb]. destruct (Hlt Hb) as [Hne Hle].
      split_and!; [|done|].
      * destruct Hin as [Hin|(x & Hx & Hxc & Hxn)]; [by left|right]. exists x. split; [by right|done].
      * intros x [->|Hx]%elem_of_cons Hxc; [|by apply Hall]. split; [done|].
        apply not_true_is_false. intros Hc.
        destruct (String.ltb best (cl_Name l)) eqn:Eb2; [by rewrite (string_ltb_trans _ _ _ Eb2 Hc) in Hle|].
        rewrite (string_ltb_antisym _ _ Eb Eb2) in Hc. by rewrite Hle in Hc.
  - destruct (IH best Hn') as (Hin & Hlt & Hall). split_and!; [|done|].
    + destruct Hin as [Hin|(x & Hx & Hxc & Hxn)]; [by left|right]. exists x. split; [by right|done].
    + intros x [->|Hx]%elem_of_cons Hxc; [by rewrite Ec in Hxc|by apply Hall].
Qed.

Lemma find_unique {A} (key : A -> string) (l : list A) (x : A) :
  NoDup (map key l) -> x ∈ l -> List.find (fun y => key y =? key x) l = Some x.
Proof.
  induction l as [|y l IH]; intros Hnd Hx; [by apply elem_of_nil in Hx|]. cbn.
  apply NoDup_cons in Hnd as [Hy Hnd]. apply elem_of_cons in Hx as [->|Hx]; [by rewrite String.eqb_refl|].
  destruct (String.eqb_spec (key y) (key x)) as [E|]; [|by apply IH].
  destruct Hy. rewrite E. by apply list_elem_of_fmap_2.
Qed.

(** The cluster ID a tenant's location inherits is that of the default location
    with the least name, so it does not depend on the order of the list; and it is
    empty exactly when no default location declares one. *)
Theorem defaultClusterID_least (locations locations' : list ClusterBackupLocation)
    (Hnames : forall l, l ∈ locations -> cl_Name l <> "") (Hunique : NoDup (map cl_Name locations))
    (Hperm : locations' ≡ₚ locations) :
  match List.filter candidate locations with
  | [] => defaultClusterID (Ok locations') = Ok ""
  | _ => exists l, l ∈ locations /\ least_candidate locations (cl_Name l)
         /\ cl_ClusterID l <> "" /\ defaultClusterID (Ok locations') = Ok (cl_ClusterID l)
  end.
Proof.
  assert (forall l, l ∈ locations' -> cl_Name l <> "") as Hnames' by (intros l; rewrite Hperm; apply Hnames).
  assert (NoDup (map cl_Name locations')) as Hunique'.
  { by rewrite (Permutation_map cl_Name Hperm). }
  destruct (bestDefault_spec locations' "" Hnames') as (Hin & _ & Hall). unfold defaultClusterID.
  destruct (List.filter candidate locations) as [|c cs] eqn:Ef.
  - destruct Hin as [->|(l & Hl & Hc & _)]; [done|]. rewrite Hperm in Hl.
    assert (l ∈ List.filter candidate locations) as Hf
      by (apply list_elem_of_In, filter_In; split; [by apply list_elem_of_In|done]).
    rewrite Ef in Hf. by apply elem_of_nil in Hf.
  - assert (c ∈ List.filter candidate locations) as Hcin by (rewrite Ef; left).
    apply list_elem_of_In, filter_In in Hcin as [Hcin Hcc]. apply list_elem_of_In in Hcin.
    destruct (Hall c ltac:(by rewrite Hperm) Hcc) as [Hne _].
    destruct Hin as [|(l & Hl & Hc & Hname)]; [done|]. exists l.
    apply String.eqb_neq in Hne as Hne'. rewrite Hne', <-Hname. rewrite (find_unique cl_Name _ _ Hunique' Hl).
    rewrite Hperm in Hl. split; [done|]. split; [|split; [|done]].
    + split; [by exists l|]. intros x Hx Hxc. rewrite Hname. apply Hall; [by rewrite Hperm|done].
    + unfold candidate in Hc. apply andb_true_iff in Hc as [_ Hc]. by apply negb_true_iff, String.eqb_neq in Hc.
Qed.

(** ** Repositories *)

(** [resolveLocationBinding] finds its way back from a repository it created. *)
Definition reads_location (getLocation : string -> string -> result BackupLocation) (loc : BackupLocation) : Prop :=
  getLocation (bl_Namespace loc) (bl_Name loc) = Ok loc.

Lemma backLink_lookup ns name :
  lget (repositoryBackLinkLabels ns name) LabelNamespace = ns
  /\ lget (repositoryBackLinkLabels ns name) LabelLocation = name.
Proof. split; reflexivity. Qed.

Lemma ownedBy_created loc : ownedBy loc (mkBackupRepository
  (namespacedRepositoryName (bl_Namespace loc) (bl_Name loc))
  (repositoryBackLinkLabels (bl_Namespace loc) (bl_Name loc)) None false "") = true.
Proof. unfold ownedBy. cbn [br_Labels]. destruct (backLink_lookup (bl_Namespace loc) (bl_Name loc)) as [-> ->]. by rewrite !String.eqb_refl. Qed.

(** The fields of a location a pass never writes. *)
Definition same_location (loc loc' : BackupLocation) : Prop :=
  bl_Namespace loc' = bl_Namespace loc /\ bl_Name loc' = bl_Name loc.

Definition others_kept (loc : BackupLocation) (repos repos' : repositories) : Prop :=
  forall n br, repos !! n = Some br -> ownedBy loc br = false -> repos' !! n = Some br.

Lemma others_kept_refl loc repos : others_kept loc repos repos.
Proof. by intros n br Hn _. Qed.
#[local] Hint Resolve others_kept_refl : core.

(** The repository behind a location after [ensureRepository]: the location's own,
    or one that was there at the Create although the Get had not found it. *)
Definition backs (a : location_answers) (loc : BackupLocation) (repos : repositories)
    (br : BackupRepository) : Prop :=
  let name := namespacedRepositoryName (bl_Namespace loc) (bl_Name loc) in
  ownedBy loc br = true
  \/ ((exists e, getRepository (la_getRepository a) repos name = Err e /\ IsNotFound e = true)
      /\ la_race a repos !! name = Some br).

Lemma ensureRepository_spec a loc repos :
  (forall n br, repos !! n = Some br -> la_race a repos !! n = Some br) ->
  let '(err, loc', repos') := ensureRepository a loc repos in
  let name := namespacedRepositoryName (bl_Namespace loc) (bl_Name loc) in
  same_location loc loc' /\ bl_ClusterID loc' = bl_ClusterID loc
  /\ others_kept loc repos repos'
  /\ (err = None -> bl_RepositoryRef loc' = name
        /\ forall br, repos' !! name = Some br -> backs a loc repos br).
Proof.
  intros Hkeep. unfold ensureRepository, backs. set (name := namespacedRepositoryName _ _).
  destruct (getRepository (la_getRepository a) repos name) as [br|e] eqn:Eg.
  - assert (repos !! name = Some br) as Hbr.
    { unfold getRepository in Eg. destruct (la_getRepository a), (repos !! name); congruence. }
    destruct (ownedBy loc br) eqn:Eo; cbn; split_and!; try done.
    intros _. split; [done|]. intros br' Hbr'. assert (br' = br) as -> by congruence. by left.
  - destruct (IsNotFound e) eqn:Ee; cbn [negb]; [|by split_and!].
    assert (others_kept loc repos (la_race a repos)) as Hoth by (intros n br Hbr _; by apply Hkeep).
    assert (forall br, la_race a repos !! name = Some br ->
      ownedBy loc br = true \/ ((exists e0, @Err BackupRepository e = Err e0 /\ IsNotFound e0 = true)
                                /\ la_race a repos !! name = Some br)) as Hr.
    { intros br Hbr. right. split; [by exists e|done]. }
    destruct (la_createRepository a) as [ec|].
    + destruct (IsAlreadyExists ec); cbn; by split_and!.
    + destruct (la_race a repos !! name) as [br|] eqn:Er; cbn -[insert lookup].
      { split; [done|]. split; [done|]. split; [done|]. intros _. split; [done|]. intros br' Hbr'.
        apply Hr. congruence. }
      split; [done|]. split; [done|]. split.
      * intros n br Hbr Ho. rewrite lookup_insert_ne; [by apply Hoth|].
        intros Heq. apply Hkeep in Hbr. by rewrite <-Heq, Er in Hbr.
      * intros _. split; [done|]. intros br. rewrite lookup_insert_eq. intros [= <-]. left. apply ownedBy_created.
Qed.

Lemma same_location_trans loc1 loc2 loc3 :
  same_location loc1 loc2 -> same_location loc2 loc3 -> same_location loc1 loc3.
Proof. unfold same_location. intros [-> ->] [-> ->]. done. Qed.

Lemma ownedBy_same loc loc' br : same_location loc loc' -> ownedBy loc' br = ownedBy loc br.
Proof. unfold ownedBy. by intros [-> ->]. Qed.

Lemma backs_same a loc loc' repos br : same_location loc loc' -> backs a loc' repos br -> backs a loc repos br.
Proof. intros H. unfold backs. rewrite (ownedBy_same _ _ _ H). by destruct H as [-> ->]. Qed.

Lemma others_kept_same loc loc' repos repos' :
  same_location loc loc' -> others_kept loc' repos repos' -> others_kept loc repos repos'.
Proof. intros H Ho n br Hn Hb. apply Ho; [done|]. by rewrite (ownedBy_same _ _ _ H). Qed.

Lemma resolveClusterID_spec a loc :
  match resolveClusterID a loc with
  | Err _ => True
  | Ok (resolved, loc') =>
      same_location loc loc' /\ (resolved = true -> bl_ClusterID loc' <> "")
      /\ (bl_ClusterID loc <> "" -> bl_ClusterID loc' = bl_ClusterID loc)
  end.
Proof.
  unfold resolveClusterID. destruct (String.eqb_spec (bl_ClusterID loc) "") as [E|E]; cbn [negb]; [|done].
  destruct (String.eqb_spec (bl_SpecClusterID loc) "") as [E2|E2]; cbn [negb]; [|by split_and!].
  destruct (defaultClusterID _) as [id|e]; [|done]. by destruct (String.eqb_spec id "").
Qed.

(** Every way a pass over a live location can end. *)
Lemma reconcile_cases a loc repos
    (Hkeep : forall n br, repos !! n = Some br -> la_race a repos !! n = Some br)
    (Hlive : bl_Deleting loc = false) :
  let p := reconcileLocation a loc repos in
  same_location loc (lp_loc p) /\ others_kept loc repos (lp_repos p)
  /\ (bl_ClusterID loc <> "" -> bl_ClusterID (lp_loc p) = bl_ClusterID loc)
  /\ (FinalizerLocation ∈ bl_Finalizers loc -> lp_written p = true -> bl_Phase (lp_loc p) = "Ready" ->
      bl_ClusterID (lp_loc p) <> "" /\ la_password a = None /\ la_reachable a = None
      /\ exists br, lp_repos p !! namespacedRepositoryName (bl_Namespace loc) (bl_Name loc) = Some br
           /\ br_Initialized br = true /\ backs a loc repos br).
Proof.
  cbv zeta. unfold reconcileLocation. rewrite Hlive.
  destruct (existsb (String.eqb FinalizerLocation) (bl_Finalizers loc)) eqn:Ef; cbn [negb].
  2: { destruct (la_update a); cbn; (split_and!; try done); intros Hin; exfalso;
       rewrite existsb_none in Ef; specialize (Ef _ Hin); by rewrite String.eqb_refl in Ef. }
  pose proof (resolveClusterID_spec a loc) as Hres.
  destruct (resolveClusterID a loc) as [[[] loc1]|e]; [| |by split_and!].
  2: { destruct Hres as (Hs & _ & Hpin). unfold notReady, writeLocation. destruct (la_update a); cbn; by split_and!. }
  destruct Hres as (Hs & Hid & Hpin). specialize (Hid eq_refl). unfold validateEncryption.
  destruct (la_password a) as [pe|].
  { unfold notReady, writeLocation. destruct (la_update a); cbn; by split_and!. }
  cbn [negb]. unfold checkReachability. destruct (la_reachable a) as [re|].
  { unfold notReady, writeLocation. destruct (la_update a); cbn; by split_and!. }
  cbn [negb]. set (loc2 := set_bl_condition ConditionReachable _ _ _ _).
  assert (same_location loc loc2) as Hs2 by exact Hs.
  pose proof (ensureRepository_spec a loc2 repos Hkeep) as He.
  destruct (ensureRepository a loc2 repos) as [[err loc3] repos3]. destruct He as (Hs3 & Hid3 & Hoth & Hok).
  apply (same_location_trans _ _ _ Hs2) in Hs3. apply (others_kept_same _ _ _ _ Hs2) in Hoth.
  change (bl_ClusterID loc2) with (bl_ClusterID loc1) in Hid3.
  destruct err as [e|].
  { unfold notReady, writeLocation. destruct (la_update a); cbn; rewrite ?Hid3; by split_and!. }
  destruct (Hok eq_refl) as [Href Hback].
  destruct (repositoryInitialized a loc3 repos3) as [ini|e] eqn:Ei; [|cbn; rewrite ?Hid3; by split_and!].
  assert (ini = true -> exists br, repos3 !! namespacedRepositoryName (bl_Namespace loc) (bl_Name loc) = Some br
    /\ br_Initialized br = true /\ backs a loc repos br) as Hini.
  { intros ->. unfold repositoryInitialized in Ei. destruct Hs2 as [Hns Hnm].
    destruct (bl_RepositoryRef loc3 =? ""); [done|]. unfold getRepository in Ei. rewrite Href, Hns, Hnm in Ei. revert Ei.
    destruct (la_rereadRepository a) as [e|]; [by destruct (IsNotFound e)|].
    match goal with |- context [?m !! ?k] => destruct (m !! k) as [br|] eqn:Eb end;
      intros Ei; [|by vm_compute in Ei]. exists br. split; [done|]. split; [by injection Ei|].
    apply (backs_same a loc loc2); [done|]. apply Hback. by rewrite Hns, Hnm. }
  cbv zeta. match goal with |- context [if ?c && ini then _ else _] => destruct c eqn:Er end;
    destruct ini; cbn [andb]; unfold writeLocation; destruct (la_update a); cbn; rewrite ?Hid3; split_and!; try done.
  intros _ _ _. split_and!; try done. by apply Hini.
Qed.

(** A tenant's location is Ready only over its own repository: a pass that
    reports Ready has a cluster ID, a key and a reachable endpoint, and the
    initialised repository it found carries the location's labels, unless that
    object was hidden from the Get and there at the Create. *)
Theorem reconcileLocation_ready (a : location_answers) (loc : BackupLocation) (repos : repositories)
    (Hkeep : forall n br, repos !! n = Some br -> la_race a repos !! n = Some br)
    (Hlive : bl_Deleting loc = false) (Hfin : FinalizerLocation ∈ bl_Finalizers loc)
    (Hwritten : lp_written (reconcileLocation a loc repos) = true)
    (Hready : bl_Phase (lp_loc (reconcileLocation a loc repos)) = "Ready") :
  bl_ClusterID (lp_loc (reconcileLocation a loc repos)) <> ""
  /\ la_password a = None /\ la_reachable a = None
  /\ exists br, lp_repos (reconcileLocation a loc repos)
                  !! namespacedRepositoryName (bl_Namespace loc) (bl_Name loc) = Some br
       /\ br_Initialized br = true /\ backs a loc repos br.
Proof.
  destruct (reconcile_cases a loc repos Hkeep Hlive) as (_ & _ & _ & H). by apply H.
Qed.

(** Whatever happens in a pass, the cluster ID of a location is pinned once it
    is set, and the repositories of other locations are left alone, even by the
    pass that finalises a location of the same repository name. *)
Theorem reconcileLocation_safe (a : location_answers) (loc : BackupLocation) (repos : repositories)
    (Hkeep : forall n br, repos !! n = Some br -> la_race a repos !! n = Some br) :
  let p := reconcileLocation a loc repos in
  same_location loc (lp_loc p) /\ others_kept loc repos (lp_repos p)
  /\ (bl_ClusterID loc <> "" -> bl_ClusterID (lp_loc p) = bl_ClusterID loc).
Proof.
  destruct (bl_Deleting loc) eqn:Hd; [|by destruct (reconcile_cases a loc repos Hkeep Hd) as (? & ? & ? & _)].
  cbv zeta. unfold reconcileLocation. rewrite Hd. unfold finalizeLocation.
  destruct (negb _); [by split_and!|]. set (name := namespacedRepositoryName _ _).
  destruct (getRepository (la_getRepository a) repos name) as [br|e] eqn:Eg.
  - destruct (ownedBy loc br) eqn:Eo; [|destruct (la_update a); by split_and!].
    assert (others_kept loc repos (delete name repos)) as Hdel.
    { intros n br' Hn Ho. rewrite lookup_delete_ne; [done|]. intros Heq. unfold getRepository in Eg.
      destruct (la_getRepository a); [done|]. rewrite Heq, Hn in Eg. congruence. }
    destruct (la_deleteRepository a) as [e|]; [destruct (IsNotFound e)|]; destruct (la_update a); by split_and!.
  - destruct (IsNotFound e); [destruct (la_update a)|]; by split_and!.
Qed.
End Location.

(** ** Witnesses *)

Definition wit_retention : RetentionSpec := mkRetention 0 0 7 0 0 0.
Definition wit_clusterLocations : list ClusterBackupLocation :=
  [mkClusterBackupLocation "main" "creds" false "prod" true wit_retention;
   mkClusterBackupLocation "alt" "creds" false "lab" true wit_retention;
   mkClusterBackupLocation "aaa" "creds" false "" true wit_retention].

Lemma defaultClusterID_least_witness :
  exists l, l ∈ wit_clusterLocations /\ least_candidate wit_clusterLocations (cl_Name l)
    /\ cl_ClusterID l <> "" /\ defaultClusterID (Ok wit_clusterLocations) = Ok (cl_ClusterID l).
Proof.
  apply (defaultClusterID_least wit_clusterLocations wit_clusterLocations);
    [by apply Forall_forall; repeat constructor| |reflexivity].
  repeat (constructor; [by intros H; repeat (apply elem_of_cons in H as [H|H]; [discriminate|]);
                         apply elem_of_nil in H|]). constructor.
Defined.

(** A location whose repository is there and initialised. *)
Definition wit_location : @BackupLocation MapConditionStore :=
  @mkBackupLocation MapConditionStore "team" "offsite" 1 false [FinalizerLocation] "h:9000" "creds" false "prod"
    None wit_retention "" "" "" ∅.
Definition wit_repositories : repositories :=
  {["team--offsite" := mkBackupRepository "team--offsite" (repositoryBackLinkLabels "team" "offsite") None true "s3:h/b"]}.
Definition wit_location_answers : location_answers :=
  mkLocationAnswers (Ok []) None None None id None None None None.

Lemma reconcileLocation_ready_witness :
  let p := reconcileLocation wit_location_answers wit_location wit_repositories in
  bl_ClusterID (lp_loc p) <> ""
  /\ la_password wit_location_answers = None /\ la_reachable wit_location_answers = None
  /\ exists br, lp_repos p !! namespacedRepositoryName (bl_Namespace wit_location) (bl_Name wit_location) = Some br
       /\ br_Initialized br = true /\ backs wit_location_answers wit_location wit_repositories br.
Proof.
  apply (reconcileLocation_ready wit_location_answers wit_location wit_repositories); try reflexivity.
  - intros n br H. exact H.
  - left.
Defined.

Lemma reconcileLocation_safe_witness :
  let p := reconcileLocation wit_location_answers wit_location wit_repositories in
  same_location wit_location (lp_loc p) /\ others_kept wit_location wit_repositories (lp_repos p)
  /\ (bl_ClusterID wit_location <> "" -> bl_ClusterID (lp_loc p) = bl_ClusterID wit_location).
Proof. apply reconcileLocation_safe. intros n br H. exact H. Defined.
