(* ===== verification/BackupPass.v ===== *)
(** * BackupPass: one reconcile pass of a Backup
    (internal/controller/backup_controller.go, backup_maintenance.go)

    [Reconcile] resolves the run and its location, seeds the volumes, opens the
    freeze window, advances one volume and the manifest capture, closes the
    window, writes the status, and only then tears down and enqueues retention.
    [finalize] and [ensureTerminalTeardown] are its two other ends.  Everything
    the pass is told from outside is a field of [pass_answers]. *)

From S2P Require Import Prelude GoText Cluster Selectors Names Status MoverResult Restic VolumeMachine.
From S2P Require Import Backup Hooks Manifests Location.
From Stdlib Require Import Ascii String.

#[local] Open Scope string_scope.
#[local] Open Scope pass_scope.

Section Pass.
Context `{CS : ConditionStore}.

(** What the outside answers to one pass. *)
Record pass_answers := mkPassAnswers {
  pa_parent : string -> result BackupRunSpec;          (* Get of the parent ClusterBackup *)
  pa_location : result BackupLocation;                 (* Get of the BackupLocation *)
  pa_clusterLocation : result ClusterBackupLocation;   (* Get of the ClusterBackupLocation *)
  pa_repository : string -> result BackupRepository;   (* Get of the BackupRepository *)
  pa_password : option (string * string);              (* ensureRepositoryPassword: reason, message *)
  pa_namespace : result labels;                        (* Get of the Namespace: its labels *)
  pa_pvcs : result (list PVC);                         (* List of the namespace's claims *)
  pa_volume : answers;                                 (* one volume, as in VolumeMachine *)
  pa_manifests : manifest_answers;                     (* the capture, as in Manifests *)
  pa_hooks : hook_answers;                             (* the window; also the clock and Status().Update *)
  pa_fresh : result string;                            (* APIReader.Get: the phase that is stored *)
  pa_teardown : string -> option gerr;                 (* Exposers.TeardownExposure, by prefix *)
  pa_contents : result (list (string * labels));       (* List of VolumeSnapshotContents *)
  pa_snapshots : string -> result (list (string * labels));   (* ... of a namespace's VolumeSnapshots *)
  pa_clones : result (list (string * labels));         (* ... of the operator's claims *)
  pa_patch : option gerr;                              (* Patch of the annotation *)
  pa_update : option gerr                              (* Update of the finalizers *)
}.

(** Outside the source: the JSON codec of the mover's result, and what the hooks
    take from apimachinery and the standard library. *)
Variable Unmarshal : string -> result MoverResult.
Variable Quote : string -> string.
Variable LabelSelectorAsSelector : LabelSelector -> option (labels -> bool).
Variable ParseDuration : string -> option Z.
Variable UnmarshalArgv : string -> option (list string).

Variable r : BackupReconciler.
Variable cfg : manifestConfig.

Variable a : pass_answers.

Definition pa_now : Z := ha_now (pa_hooks a).
Definition pa_statusUpdate : option gerr := ha_update (pa_hooks a).

(** ** Resolution *)

Definition reasonLocationUnreadable : string := "LocationUnreadable".

Definition hooksDeclared (spec : HooksSpec) : bool :=
  (0 <? List.length (Pre spec))%nat || (0 <? List.length (Post spec))%nat || HonorAnnotations spec.

Definition includeManifests (run : BackupRunSpec) : bool := default true (run_IncludeManifests run).

Definition resolveRun (b : Backup) : result (option BackupRunSpec) :=
  match sp_Run (b_spec b) with
  | Some run => Ok (Some run)
  | None =>
      let runName := lget (b_labels b) LabelClusterBackup in
      if runName =? "" then Ok None
      else match pa_parent a runName with
           | Ok run => Ok (Some run)
           | Err e => if IsNotFound e then Ok None
                      else Err (wrap_err ("get parent ClusterBackup " ++ runName) e)
           end
  end.

(** Return to Pending and try again later. *)
Definition gate (reason message : string) : pass (Result * option gerr) :=
  b <-- the_backup ;;
  modify (fun b => set_condition ConditionReady ConditionFalse reason message (set_bphase BackupPhasePending b)) ;;;
  err <-- status_update pa_statusUpdate ;;
  ret (match err with
       | Some e => (noResult, Some (update_error b e))
       | None => (RequeueAfter shortRequeueInterval, None)
       end).

(** The binding, or the reason and message of a gate. *)
Definition resolveBackupLocation (b : Backup) : locationBinding + (string * string) :=
  let name := sp_LocationName (b_spec b) in
  if sp_LocationKind (b_spec b) =? kindBackupLocation then
    let what := "BackupLocation " ++ b_namespace b ++ "/" ++ name in
    match pa_location a with
    | Err e => if IsNotFound e then inr ("LocationNotFound", what ++ " not found")
               else inr (reasonLocationUnreadable, "get " ++ what ++ ": " ++ err_text e)
    | Ok loc =>
        if bl_ClusterID loc =? ""
        then inr ("LocationNotReady", what ++ " has not resolved its cluster ID yet")
        else inl (bindingFromNamespacedLocation loc)
    end
  else
    match pa_clusterLocation a with
    | Err e => if IsNotFound e then inr ("LocationNotFound", "ClusterBackupLocation " ++ quoted name ++ " not found")
               else inr (reasonLocationUnreadable, "get ClusterBackupLocation " ++ name ++ ": " ++ err_text e)
    | Ok cbl => inl (bindingFromClusterLocation cbl (OperatorNamespace r))
    end.

Definition tenantFor (namespace : string) : string :=
  match pa_namespace a with
  | Ok ls => let t := lget ls LabelTenant in if t =? "" then namespace else t
  | Err _ => namespace
  end.

Definition repositoryNameOf (binding : locationBinding) : string :=
  if Namespaced binding then namespacedRepositoryName (lb_Namespace binding) (lb_Name binding)
  else lb_Name binding.

(** The value the volume machine reads from, or the pass's result. *)
Definition resolveRunContext (run : BackupRunSpec) : pass (backupRunContext + (Result * option gerr)) :=
  b <-- the_backup ;;
  match resolveBackupLocation b with
  | inr (reason, message) => res <-- gate reason message ;; ret (inr res)
  | inl binding =>
      let repoName := repositoryNameOf binding in
      match pa_repository a repoName with
      | Err e =>
          if IsNotFound e
          then res <-- gate "RepositoryNotReady" ("BackupRepository " ++ quoted repoName ++ " does not exist yet") ;;
               ret (inr res)
          else ret (inr (noResult, Some (wrap_err ("get BackupRepository " ++ repoName) e)))
      | Ok repo =>
          if negb (br_Initialized repo)
          then res <-- gate "RepositoryNotReady" ("BackupRepository " ++ quoted repoName ++ " is not initialized yet") ;;
               ret (inr res)
          else if Namespaced binding && hooksDeclared (run_Hooks run) && (ServiceAccountName (run_Hooks run) =? "")
          then res <-- gate "HooksNeedServiceAccount"
                 ("hooks on a namespaced BackupLocation must set hooks.serviceAccountName — a ServiceAccount "
                  ++ "in this namespace, granted `create pods/exec`, that the operator impersonates to run them") ;; ret (inr res)
          else
            match pa_password a with
            | Some (reason, message) => res <-- gate reason message ;; ret (inr res)
            | None =>
                ret (inl (mkRunContext (sp_ScheduleRef (b_spec b)) (b_name b) (lb_ClusterID binding)
                  (tenantFor (b_namespace b)) repoName (br_RepositoryURL repo) (lb_CredsSecret binding)
                  (lb_CredsNamespace binding) (lb_Retention binding) (lb_Immutable binding)
                  (run_BackoffLimit run) (run_MaxConcurrentMovers run)))
            end
      end
  end.

(** ** The volumes *)

Definition newVolume (name : string) : VolumeStatus :=
  mkVolumeStatus name "" 0 0 VolumePhasePending "" "" None None.

Definition ensureVolumes (b : Backup) (sel : PVCSelector) : result (list VolumeStatus) :=
  match pa_pvcs a with
  | Err e => Err e
  | Ok pvcs =>
      let matched := sort_strings (map pvc_name (List.filter (fun p => matchPVC p sel) pvcs)) in
      let tracked name := existsb (fun v => Pvc v =? name) (b_volumes b) in
      Ok (b_volumes b ++ map newVolume (List.filter (fun n => negb (tracked n)) matched))%list
  end.

(** Advance the volume the pass has picked; the claim whose teardown is due, or "". *)
Definition advanceOne (rc : backupRunContext) : pass string :=
  b <-- the_backup ;;
  match firstNonTerminalVolume (b_volumes b) with
  | None => ret ""
  | Some i =>
      match b_volumes b !! i with
      | None => ret ""
      | Some vol =>
          let d := advanceVolume Unmarshal Quote r (pa_volume a) (b_key b) vol rc in
          do_effects (ad_fx d) ;;;
          match ad_err d with
          | Some e => modify (set_volumes (<[i := recordAdvanceFailure (ad_vol d) e]> (b_volumes b))) ;;; ret ""
          | None => modify (set_volumes (<[i := ad_vol d]> (b_volumes b))) ;;; ret (ad_teardown d)
          end
      end
  end.

(** ** The status write *)

Definition setTerminalCondition (phase : string) (b : Backup) : Backup :=
  if phase =? BackupPhaseCompleted then
    set_condition ConditionReady ConditionTrue "Completed" "all selected volumes were backed up" b
  else if phase =? BackupPhasePartiallyCompleted then
    set_condition ConditionReady ConditionTrue "PartiallyCompleted"
      "some volumes were skipped (unsupported storage); none failed" b
  else if phase =? BackupPhasePartiallyFailed then
    set_condition ConditionReady ConditionFalse "PartiallyFailed"
      "at least one volume failed; some data was backed up" b
  else set_condition ConditionReady ConditionFalse "Failed" "every volume failed" b.

Definition rolledUpPhase (b : Backup) (manifestsDone releaseOwed : bool) : string :=
  let phase := RollUpVolumePhases (b_volumes b) in
  if isTerminalBackupPhase phase && (negb manifestsDone || releaseOwed) then BackupPhaseUploading else phase.

Definition writeStatus (manifestsDone releaseOwed : bool) : pass (Result * option gerr) :=
  b0 <-- the_backup ;;
  let phase := rolledUpPhase b0 manifestsDone releaseOwed in
  let terminal := isTerminalBackupPhase phase in
  let justTerminal := terminal && match st_BackupTime (b_status b0) with None => true | Some _ => false end in
  modify (fun b =>
    let b := set_bphase phase b in
    if terminal then setTerminalCondition phase (setCompletionTime pa_now (setBackupTime pa_now b))
    else set_condition ConditionReady ConditionFalse "InProgress" ("backup is in progress (" ++ phase ++ ")") b) ;;;
  err <-- status_update pa_statusUpdate ;;
  match err with
  | Some e => ret (noResult, Some (update_error b0 e))
  | None =>
      (if justTerminal then do_call CTerminalMetrics else ret ()) ;;;
      ret (if terminal then noResult else RequeueAfter backupPollInterval, None)
  end.

(** An errored write of a terminal phase that the API server holds anyway. *)
Definition terminalPhaseCommitted (b : Backup) (writeErr : gerr) : bool :=
  if negb (hasAPIReader r) || negb (isTerminalBackupPhase (b_phase b)) then false
  else if IsConflict writeErr then false
  else match pa_fresh a with
       | Err _ => false
       | Ok phase => phase =? b_phase b
       end.

(** ** Teardown *)

Definition cleanupVolumeExposure (pvcName : string) : pass (option gerr) :=
  b <-- the_backup ;;
  let prefix := moverNamePrefix (b_namespace b) (b_name b) pvcName in
  do_call (CTeardownExposure prefix) ;;;
  ret (pa_teardown a prefix).

Definition teardownVolume (pvcName : string) : pass () :=
  b <-- the_backup ;;
  _ <-- cleanupVolumeExposure pvcName ;;
  deleteMoverJobAndSecret (moverNamePrefix (b_namespace b) (b_name b) pvcName).

(** The sweep of every volume; the errors of the exposures that could not be cleaned. *)
Fixpoint sweepVolumes (what : string -> string) (vols : list VolumeStatus) : pass (list gerr) :=
  match vols with
  | [] => ret []
  | vol :: vols =>
      if Phase vol =? VolumePhaseSkipped then sweepVolumes what vols
      else
        b <-- the_backup ;;
        err <-- cleanupVolumeExposure (Pvc vol) ;;
        match err with
        | Some e =>
            errs <-- sweepVolumes what vols ;;
            ret (wrap_err (what (Pvc vol)) e :: errs)
        | None =>
            deleteMoverJobAndSecret (moverNamePrefix (b_namespace b) (b_name b) (Pvc vol)) ;;;
            sweepVolumes what vols
        end
  end.

Definition exposureResidueBelongsTo (b : Backup) (ls : labels) : bool :=
  let name := lget ls LabelBackup in
  if negb (name =? "") then name =? b_name b
  else
    let run := lget ls LabelClusterBackup in
    if negb (run =? "") then run =? lget (b_labels b) LabelClusterBackup
    else
      let pvc := lget ls LabelPVC in
      if pvc =? "" then false else existsb (fun v => Pvc v =? pvc) (b_volumes b).

Definition firstResidue (b : Backup) (kind : string) (items : list (string * labels)) : string :=
  match List.find (fun it => exposureResidueBelongsTo b (snd it)) items with
  | Some it => kind ++ fst it
  | None => ""
  end.

(** A snapshot list: its residue, none where the cluster has no such kind. *)
Definition snapshotResidue (b : Backup) (kind at_ : string) (list_ : result (list (string * labels))) : string :=
  match list_ with
  | Ok items => firstResidue b (kind ++ " " ++ at_) items
  | Err e => if IsNoMatchError e then "" else kind ++ " list unreadable: " ++ err_text e
  end.

Definition orElse (s t : string) : string := if s =? "" then t else s.

Definition exposureResidueRemains (b : Backup) : string :=
  if b_namespace b =? ""
  then "exposure residue selector unresolvable: label " ++ LabelNamespace
         ++ " has no value for this Backup, so no read can address its exposure objects"
  else if b_name b =? ""
  then "exposure residue selector unresolvable: the Backup has no name to attribute residue to"
  else
    let snapshotsOf ns := snapshotResidue b "VolumeSnapshot" (ns ++ "/") (pa_snapshots a ns) in
    orElse (snapshotResidue b "VolumeSnapshotContent" "" (pa_contents a))
      (orElse (snapshotsOf (b_namespace b))
        (orElse (snapshotsOf (OperatorNamespace r))
          (match pa_clones a with
           | Err e => "temp clone PVC list unreadable: " ++ err_text e
           | Ok items => firstResidue b ("temp clone PVC " ++ OperatorNamespace r ++ "/") items
           end))).

Definition ensureTerminalTeardown : pass (Result * option gerr) :=
  b <-- the_backup ;;
  if lget (b_annotations b) AnnotationExposuresCleaned =? AnnotationExposuresCleanedValue
  then ret (noResult, None)
  else
    errs <-- sweepVolumes (fun pvc => "sweep exposure of PVC " ++ pvc) (b_volumes b) ;;
    teardownManifests (manifestsJobPrefix (b_namespace b) (b_name b)) ;;;
    match join_errors errs with
    | Some e => ret (noResult, Some e)
    | None =>
        if negb (exposureResidueRemains b =? "") then ret (RequeueAfter exposureDrainRecheckInterval, None)
        else
          modify (set_annotation AnnotationExposuresCleaned AnnotationExposuresCleanedValue) ;;;
          do_call (CPatchAnnotation AnnotationExposuresCleaned AnnotationExposuresCleanedValue
                     (match pa_patch a with None => true | Some _ => false end)) ;;;
          ret (noResult, option_map (wrap_err ("stamp " ++ AnnotationExposuresCleaned ++ " on Backup "
                                       ++ b_namespace b ++ "/" ++ b_name b)) (pa_patch a))
    end.

Definition hasFinalizer (b : Backup) : bool := existsb (String.eqb FinalizerBackup) (b_finalizers b).

(** [r.Update(ctx, backup)]. *)
Definition update_backup : pass (option gerr) :=
  b <-- the_backup ;;
  do_call (CUpdate (b_finalizers b) (match pa_update a with None => true | Some _ => false end)) ;;;
  ret (pa_update a).

Definition finalize : pass (Result * option gerr) :=
  b <-- the_backup ;;
  if negb (hasFinalizer b) then ret (noResult, None)
  else
    errs <-- sweepVolumes (fun pvc => "exposure cleanup of PVC " ++ pvc ++ " on delete") (b_volumes b) ;;
    match join_errors errs with
    | Some e => ret (noResult, Some e)
    | None =>
        teardownManifests (manifestsJobPrefix (b_namespace b) (b_name b)) ;;;
        do_call (CEvent "Normal" "Finalizing" "Finalize") ;;;
        modify (fun b => set_finalizers (List.filter (fun f => negb (f =? FinalizerBackup)) (b_finalizers b)) b) ;;;
        err <-- update_backup ;;
        ret (noResult,
             match err with
             | None => None
             | Some e => if IsNotFound e then None
                         else Some (wrap_err ("remove finalizer from Backup " ++ b_namespace b ++ "/" ++ b_name b) e)
             end)
    end.

(** ** Retention *)

Definition backupSucceeded (phase : string) : bool :=
  (phase =? BackupPhaseCompleted) || (phase =? BackupPhasePartiallyCompleted).


Definition maybeEnqueueRetentionForget (rc : backupRunContext) : pass () :=
  if rc_immutable rc then ret ()
  else
    match ForgetCommand (rc_retention rc) with
    | None => ret ()
    | Some argv =>
        b <-- the_backup ;;
        do_call (CEnqueueForget (rc_repoName rc) (maintenanceResourceName (b_name b) "forget") argv) ;;;
        do_call (CEvent "Normal" "RetentionEnqueued" "EnqueueRetention")
    end.

(** ** The pass *)

(** What follows the status write: the teardowns, the retention. *)
Definition aftermath (rc : backupRunContext) (teardownPVC teardownPrefix : string) : pass () :=
  b <-- the_backup ;;
  (if negb (teardownPVC =? "") then teardownVolume teardownPVC else ret ()) ;;;
  (if negb (teardownPrefix =? "") then teardownManifests teardownPrefix else ret ()) ;;;
  (if backupSucceeded (b_phase b) then maybeEnqueueRetentionForget rc else ret ()).

(** Steps (10) to (12): the volume, the capture, the release, the status, and what
    follows an accepted or committed status. *)
Definition drive (run : BackupRunSpec) (rc : backupRunContext) : pass (Result * option gerr) :=
  teardownPVC <-- advanceOne rc ;;
  '(manifestsDone, teardownPrefix, manifestsErr) <--
    advanceManifests Unmarshal Quote r cfg (pa_manifests a) rc (includeManifests run) (run_ExcludeSecretData run) ;;
  '(releaseOwed, releaseErr) <--
    closeFreezeWindow LabelSelectorAsSelector ParseDuration UnmarshalArgv (pa_hooks a) (run_Hooks run) ;;
  '(res, err) <-- writeStatus manifestsDone releaseOwed ;;
  b <-- the_backup ;;
  let committed := match err with None => true | Some e => terminalPhaseCommitted b e end in
  if negb committed then ret (res, err)
  else
    let res := match err with None => res | Some _ => noResult end in
    let res := if negb manifestsDone && IsZero res then RequeueAfter backupPollInterval else res in
    aftermath rc teardownPVC teardownPrefix ;;;
    match join_errors (option_list manifestsErr ++ option_list releaseErr)%list with
    | Some deferred => ret (noResult, Some deferred)
    | None => ret (res, None)
    end.

(** Steps (6) to (9): the run, its context, its volumes and the freeze window. *)
Definition progress : pass (Result * option gerr) :=
  b <-- the_backup ;;
  match resolveRun b with
  | Err e => ret (noResult, Some e)
  | Ok None => gate "NoRunSpec"
        ("no run configuration: spec.run is absent and no parent ClusterBackup resolved from label "
           ++ LabelClusterBackup)
  | Ok (Some run) =>
      rcx <-- resolveRunContext run ;;
      match rcx with
      | inr res => ret res
      | inl rc =>
          match ensureVolumes b (run_PVCSelector run) with
          | Err e => ret (noResult, Some (wrap_err ("enumerate PVCs for Backup " ++ b_namespace b ++ "/" ++ b_name b) e))
          | Ok vols =>
              modify (set_volumes vols) ;;;
              opened <-- openFreezeWindow LabelSelectorAsSelector ParseDuration UnmarshalArgv (pa_hooks a) (run_Hooks run) ;;
              match opened with
              | Some res => ret res
              | None => drive run rc
              end
          end
      end
  end.

Definition isProjected (b : Backup) : bool :=
  lget (b_annotations b) AnnotationProjected =? AnnotationProjectedValue.

Definition Reconcile : pass (Result * option gerr) :=
  b <-- the_backup ;;
  if b_deleting b then finalize
  else if isProjected b then ret (noResult, None)
  else if negb (hasFinalizer b) then
    modify (fun b => set_finalizers (b_finalizers b ++ [FinalizerBackup])%list b) ;;;
    err <-- update_backup ;;
    ret (match err with
         | Some e => (noResult, Some (wrap_err ("add finalizer to Backup " ++ b_namespace b ++ "/" ++ b_name b) e))
         | None => (mkResult true 0, None)
         end)
  else if isTerminalBackupPhase (b_phase b) then ensureTerminalTeardown
  else progress.
End Pass.
