(* ===== verification/BackupSafety.v ===== *)
(** * BackupSafety: what a reconcile pass of a Backup guarantees

    Theorems about [BackupPass.Reconcile], first about one pass with any answers,
    then about any sequence of passes over the stored object. *)

From S2P Require Import Prelude GoText Cluster Selectors Names Status MoverResult Restic VolumeMachine.
From S2P Require Import Backup Hooks Abandonment Manifests Location BackupPass.
From Stdlib Require Import Ascii String.

#[local] Open Scope string_scope.
#[local] Open Scope pass_scope.

Section Safety.
Context {CS : ConditionStore} {CSL : ConditionStoreLaws CS}.
Variable Unmarshal : string -> result MoverResult.
Variable Quote : string -> string.
Variable LabelSelectorAsSelector : LabelSelector -> option (labels -> bool).
Variable ParseDuration : string -> option Z.
Variable UnmarshalArgv : string -> option (list string).
Variable r : BackupReconciler.
Variable cfg : manifestConfig.
Variable a : pass_answers.

Notation advanceOne := (advanceOne Unmarshal Quote r a).
Notation advanceManifests := (advanceManifests Unmarshal Quote r cfg (pa_manifests a)).
Notation closeFreezeWindow := (closeFreezeWindow LabelSelectorAsSelector ParseDuration UnmarshalArgv (pa_hooks a)).
Notation openFreezeWindow := (openFreezeWindow LabelSelectorAsSelector ParseDuration UnmarshalArgv (pa_hooks a)).
Notation drive := (drive Unmarshal Quote LabelSelectorAsSelector ParseDuration UnmarshalArgv r cfg a).
Notation progress := (progress Unmarshal Quote LabelSelectorAsSelector ParseDuration UnmarshalArgv r cfg a).
Notation Reconcile := (Reconcile Unmarshal Quote LabelSelectorAsSelector ParseDuration UnmarshalArgv r cfg a).

(** ** Kinds of calls *)

(** Calls that work on a run in progress: they remove nothing the run still needs. *)
Definition working (c : call) : bool :=
  match c with
  | CVolume (FxDeleteMover _) => false
  | CVolume _ | CRoleBinding _ | CDeleteRoleBinding _ _ | CManifestJob _ _ _ _ | CHook _ _ | CEvent _ _ _ => true
  | _ => false
  end.

(** The deletion of a mover that undoes a Create made earlier in the pass, in [pre]: the Create
    made the Job, and the repository turned out to need quiescence. *)
Definition undoes (pre : list call) (c : call) : Prop :=
  exists p args claim, c = CVolume (FxDeleteMover p) /\ a_createJob (pa_volume a) = None
    /\ CVolume (FxCreateJob (p ++ "-mover") args claim) ∈ pre.

(** Work that removes nothing but what it made itself. *)
Definition careful (l : list call) : Prop :=
  forall pre c post, l = (pre ++ c :: post)%list -> working c = true \/ undoes pre c.

(** A working call, or a write of the status and what reports it. *)
Definition writing (c : call) : bool :=
  match c with CStatusUpdate _ _ | CTerminalMetrics => true | _ => working c end.

(** Calls that clean up after a run. *)
Definition cleaning (c : call) : bool :=
  match c with CTeardownExposure _ | CDeleteMover _ | CDeleteRoleBinding _ _ => true | _ => false end.

(** ** Projections a step keeps *)

(** The object less its status. *)
Definition frame (b : Backup) :=
  (b_namespace b, b_name b, b_labels b, b_annotations b, b_finalizers b, b_spec b, b_deleting b, b_generation b).

Definition run_times (b : Backup) := (b_phase b, st_BackupTime (b_status b), st_CompletionTime (b_status b)).

Definition hook_core (b : Backup) := (frame b, run_times b, b_volumes b, st_Manifests (b_status b)).
Definition post_core (b : Backup) := (hook_core b, st_Conditions (b_status b)).
Definition manifest_core (b : Backup) :=
  (frame b, run_times b, b_volumes b, b_hooks b, st_PostHookAttempts (b_status b)).
Definition volume_core (b : Backup) :=
  (frame b, run_times b, b_hooks b, st_PostHookAttempts (b_status b), st_Manifests (b_status b),
   st_Conditions (b_status b)).

Lemma undoes_app pre pre' c : undoes pre' c -> undoes (pre ++ pre')%list c.
Proof.
  intros (p & args & claim & -> & Hc & Hin). exists p, args, claim. split_and!; [done|done|].
  apply elem_of_app. by right.
Qed.

Lemma careful_working l : Forall (fun c => working c = true) l -> careful l.
Proof. intros H pre c post ->. left. by apply Forall_app in H as [_ [H _]%Forall_cons]. Qed.

Lemma careful_app l1 l2 : careful l1 -> careful l2 -> careful (l1 ++ l2)%list.
Proof.
  intros H1 H2 pre c post E. apply app_eq_inv in E as [(k & -> & E)|(k & -> & E)].
  - destruct k as [|x k]; cbn in E.
    + destruct (H2 [] c post) as [|H]; [done|by left|right]. rewrite <-(app_nil_r pre). apply undoes_app, H.
    + injection E as <- ->. by apply (H1 pre c k).
  - destruct (H2 k c post E) as [|H]; [by left|right]. by apply undoes_app.
Qed.

Lemma careful_not l c : careful l -> c ∈ l -> working c = true \/ exists p, c = CVolume (FxDeleteMover p).
Proof.
  intros H (pre & post & ->)%list_elem_of_split. destruct (H pre c post eq_refl) as [|(p & ? & ? & -> & _)]; eauto.
Qed.

Lemma careful_all (P : call -> Prop) l :
  careful l -> (forall c, working c = true -> P c) -> (forall p, P (CVolume (FxDeleteMover p))) -> Forall P l.
Proof.
  intros H Hw Hd. apply Forall_forall. intros c Hc.
  destruct (careful_not _ _ H Hc) as [|[p ->]]; [by apply Hw|apply Hd].
Qed.

Lemma do_effects_within {X} (f : Backup -> X) fx :
  no_job fx -> establishes (within working f) (do_effects fx).
Proof. induction 1 as [|e fx He _ IH]; cbn; within_auto; [apply within_call; by destruct e|apply IH]. Qed.

Lemma recordHookResults_within now results : establishes (within working post_core) (recordHookResults now results).
Proof.
  intros b. split; [|done]. cbn. apply Forall_forall. intros c Hc.
  rewrite list_elem_of_In in Hc. apply in_flat_map in Hc as (x & _ & Hc).
  unfold recordHookResult in Hc. destruct (hr_Err x) as [[]|]; cbn in Hc; intuition; by subst.
Qed.

Lemma recordUnresolvedRelease_within : establishes (within working post_core) recordUnresolvedRelease.
Proof. unfold recordUnresolvedRelease. within_auto. Qed.

Lemma advancePostHooks_within spec owedTo :
  establishes (within working post_core)
    (advancePostHooks LabelSelectorAsSelector ParseDuration UnmarshalArgv (pa_hooks a) spec owedTo).
Proof.
  unfold Hooks.advancePostHooks. within_auto;
    first [apply recordUnresolvedRelease_within|apply recordHookResults_within].
Qed.

Lemma closeFreezeWindow_within spec : establishes (within working post_core) (closeFreezeWindow spec).
Proof. unfold Hooks.closeFreezeWindow. within_auto. apply advancePostHooks_within. Qed.

Lemma advancePreHooks_within spec :
  establishes (within working hook_core)
    (advancePreHooks LabelSelectorAsSelector ParseDuration UnmarshalArgv (pa_hooks a) spec).
Proof.
  unfold Hooks.advancePreHooks, recordConsistencyVerdict. within_auto;
    (eapply within_weaken; [|apply recordHookResults_within]); unfold post_core; congruence.
Qed.

Lemma startManifestsJob_within rc jobName exclude :
  establishes (within working manifest_core) (startManifestsJob r cfg (pa_manifests a) rc jobName exclude).
Proof.
  unfold startManifestsJob, ensureManifestRoleBinding, deleteManifestRoleBinding.
  apply establishes_bind; [apply within_composable|within_auto|intros b].
  pose proof (ensureMoverCredsSecret_no_job r (ma_accessKey (pa_manifests a)) (ma_secretKey (pa_manifests a))
    (ma_createSecret (pa_manifests a)) jobName (rc_s3CredsSecret rc) (rc_credsNamespace rc)) as Hs.
  destruct (ensureMoverCredsSecret _ _ _ _ _ _ _) as [serr fx]. within_auto. by apply do_effects_within.
Qed.

Lemma advanceManifests_within rc include exclude :
  establishes (within working manifest_core) (advanceManifests rc include exclude).
Proof.
  unfold Manifests.advanceManifests. within_auto; try apply startManifestsJob_within.
  apply within_modify. intros b. unfold recordManifestsResult, recordManifestsFailure.
  by repeat case_match.
Qed.

(** ** One volume per pass *)

Lemma careful_effects fx : undo_only (pa_volume a) fx -> careful (map CVolume fx).
Proof.
  intros Hu pre c post E. change (map CVolume fx) with (CVolume <$> fx) in E.
  apply fmap_app_inv in E as (fx1 & fx2 & -> & E2 & ->). 
  destruct fx2 as [|e fx2]; [done|]. injection E2 as -> ->.
  destruct e; try (by left). right. destruct (Hu fx1 prefix fx2 eq_refl) as (Hc & args & claim & Hin).
  exists prefix, args, claim. split_and!; [done|done|]. by apply list_elem_of_fmap_2.
Qed.

(** What one pass does to the volumes: nothing, or one step of one volume that was
    not terminal; [td] is the claim to tear down, whose volume is now terminal. *)
Definition advanced_one (td : string) (vols vols' : list VolumeStatus) : Prop :=
  (vols' = vols /\ td = "")
  \/ exists i v v', vols !! i = Some v /\ vols' = <[i := v']> vols /\ Pvc v' = Pvc v
       /\ lifecycle (Phase v) (Phase v') /\ volumePhaseTerminal (Phase v) = false
       /\ (td = "" \/ td = Pvc v' /\ volumePhaseTerminal (Phase v') = true).

Lemma advanceOne_spec rc b :
  let '(td, b', calls) := advanceOne rc b in
  careful calls /\ volume_core b' = volume_core b
  /\ advanced_one td (b_volumes b) (b_volumes b').
Proof.
  unfold BackupPass.advanceOne, bind, the_backup, ret, modify.
  destruct (firstNonTerminalVolume (b_volumes b)) as [i|] eqn:Ei; [|by cbn; split_and!; [apply careful_working| |left]].
  destruct (firstNonTerminalVolume_active _ _ Ei) as (vol & Hvol & Hact). rewrite Hvol.
  set (d := advanceVolume Unmarshal Quote r (pa_volume a) (b_key b) vol rc). rewrite do_effects_run.
  assert (lifecycle (Phase vol) (Phase (ad_vol d)) /\ Pvc (ad_vol d) = Pvc vol) as [Hl Hp].
  { subst d. destruct (advanceVolume_fields Unmarshal Quote r (pa_volume a) (b_key b) vol rc) as (-> & -> & _).
    by destruct (advanceVolumePhase_moves Unmarshal Quote r (pa_volume a) (b_key b) vol rc) as (? & ? & _). }
  assert (careful (map CVolume (ad_fx d))) as Hfx.
  { pose proof (advanceVolume_undo Unmarshal Quote r (pa_volume a) (b_key b) vol rc) as Hu. fold d in Hu.
    by apply careful_effects. }
  destruct (ad_err d) as [e|] eqn:Ee; cbn; rewrite ?app_nil_r; (split; [done|]; split; [done|]); right.
  - exists i, vol, (recordAdvanceFailure (ad_vol d) e).
    assert (Phase (recordAdvanceFailure (ad_vol d) e) = Phase (ad_vol d)
            /\ Pvc (recordAdvanceFailure (ad_vol d) e) = Pvc (ad_vol d)) as [-> ->].
    { unfold recordAdvanceFailure. by destruct (isPendingPhase _). }
    split_and!; try done. by left.
  - exists i, vol, (ad_vol d). split_and!; try done.
    destruct (advanceVolume_fields Unmarshal Quote r (pa_volume a) (b_key b) vol rc) as (_ & Hph & _).
    destruct (advanceVolumePhase_outcome Unmarshal Quote r (pa_volume a) (b_key b) vol rc) as [Ht _].
    fold d in Hph. rewrite Ht, Hph. destruct (_ && volumePhaseTerminal _) eqn:E; [|by left].
    right. split; [done|]. by apply andb_true_iff in E as [_ ->].
Qed.

(** ** The status write *)

Definition stamped (old : option Z) (terminal : bool) : option Z :=
  if terminal then Some (default (pa_now a) old) else old.

Lemma stamped_kept t terminal : stamped (Some t) terminal = Some t.
Proof. by destruct terminal. Qed.

(** What the write leaves in memory, whether or not it is accepted. *)
Record written (manifestsDone releaseOwed : bool) (b b' : Backup) : Prop := {
  wr_frame : frame b' = frame b;
  wr_volumes : b_volumes b' = b_volumes b;
  wr_hooks : b_hooks b' = b_hooks b /\ st_PostHookAttempts (b_status b') = st_PostHookAttempts (b_status b);
  wr_manifests : st_Manifests (b_status b') = st_Manifests (b_status b);
  wr_settled : manifestsSettled b' = manifestsSettled b;
  wr_phase : b_phase b' = rolledUpPhase b manifestsDone releaseOwed;
  wr_backupTime : st_BackupTime (b_status b')
    = stamped (st_BackupTime (b_status b)) (isTerminalBackupPhase (b_phase b'));
  wr_completionTime : st_CompletionTime (b_status b')
    = stamped (st_CompletionTime (b_status b)) (isTerminalBackupPhase (b_phase b'))
}.

Definition first_terminal (b b' : Backup) : bool :=
  isTerminalBackupPhase (b_phase b') && match st_BackupTime (b_status b) with None => true | Some _ => false end.

Lemma manifestsSettled_ready st reason message (b : Backup) :
  manifestsSettled (set_condition ConditionReady st reason message b) = manifestsSettled b.
Proof.
  unfold manifestsSettled. cbn. destruct (st_Manifests (b_status b)); [done|].
  by rewrite FindCondition_SetCondition_ne.
Qed.

Lemma manifestsSettled_status (b b' : Backup) :
  st_Manifests (b_status b') = st_Manifests (b_status b) ->
  st_Conditions (b_status b') = st_Conditions (b_status b) -> manifestsSettled b' = manifestsSettled b.
Proof. unfold manifestsSettled. by intros -> ->. Qed.

Lemma writeStatus_spec manifestsDone releaseOwed (b : Backup) :
  let '(_, err, b', calls) := writeStatus a manifestsDone releaseOwed b in
  written manifestsDone releaseOwed b b'
  /\ calls = CStatusUpdate (b_status b') (match err with None => true | Some _ => false end)
              :: (match err with None => if first_terminal b b' then [CTerminalMetrics] else [] | Some _ => [] end).
Proof.
  unfold writeStatus. rewrite run_the_backup.
  set (phase := rolledUpPhase b manifestsDone releaseOwed).
  set (g := fun b0 : Backup => _).
  assert (written manifestsDone releaseOwed b (g b)) as Hw.
  { subst g. unfold setTerminalCondition, setCompletionTime, setBackupTime.
    destruct (isTerminalBackupPhase phase) eqn:Et;
      [|constructor; cbn -[manifestsSettled set_condition]; rewrite ?manifestsSettled_ready; cbn;
        fold phase; by rewrite ?Et].
    repeat case_match; constructor; rewrite ?manifestsSettled_ready; cbn in *; fold phase; rewrite ?Et; cbn;
      repeat match goal with H : _ = Some _ |- _ => rewrite H | H : _ = None |- _ => rewrite H end; done. }
  pose proof (wr_phase _ _ _ _ Hw) as Hp. fold phase in Hp.
  unfold bind, modify, status_update, ret, do_call.
  unfold first_terminal.
  destruct (pa_statusUpdate a) as [e|]; [by cbn -[g]; split|].
  destruct (isTerminalBackupPhase phase) eqn:Et, (st_BackupTime (b_status b)) eqn:Eb; cbn -[g];
    (split; [exact Hw|]); by rewrite Hp, Et.
Qed.

(** ** The release *)

(** No release is owed any more: it ran or was given up, or there is none to run. *)
Definition released (spec : HooksSpec) (b : Backup) : Prop :=
  postHooksRan b = true \/ postDeclared spec = false \/ ha_executor (pa_hooks a) = None
  \/ resolveHooks LabelSelectorAsSelector ParseDuration UnmarshalArgv (pa_hooks a) (b_namespace b) spec
       (b_volumes b) PhasePost = Ok [].

Lemma closeFreezeWindow_done spec b :
  let '(owed, _, b', _) := closeFreezeWindow spec b in owed = false -> released spec b'.
Proof.
  unfold Hooks.closeFreezeWindow, released. rewrite run_the_backup.
  destruct (postHooksRan b) eqn:Er; [by left|].
  destruct (postDeclared spec) eqn:Ed; cbn [negb]; [|by right; left].
  destruct (snapshotsCut (b_volumes b)); cbn [negb]; [|done].
  pose proof (advancePostHooks_spec LabelSelectorAsSelector ParseDuration UnmarshalArgv (pa_hooks a) spec None b) as Hs.
  destruct (advancePostHooks _ _ _ (pa_hooks a) spec None b) as [[res b1] l1] eqn:Ea.
  rewrite (run_bind _ _ _ _ _ _ Ea). destruct Hs as (_ & _ & _ & Hok & _).
  destruct res as [[]|e]; cbn; [|intros _|done].
  - intros Hp. left. by apply negb_false_iff.
  - destruct (Hok eq_refl) as [-> ->]. right. right. revert Ea. unfold Hooks.advancePostHooks.
    rewrite run_the_backup.
    destruct (resolveHooks _ _ _ (pa_hooks a) (b_namespace b) spec (b_volumes b) PhasePost) as [[|h hs]|e];
      [by right| |].
    + cbn [restrictToPods]. destruct (ha_executor (pa_hooks a)) as [exec|]; [|by left].
      unfold bind, modify, do_call, the_backup, ret, recordHookResults. cbn -[Run recordHookResult].
      destruct (untoleratedResults _); [|destruct (postHookMaxAttempts <=? _)%Z]; cbn -[Run recordHookResult]; intros Habs; discriminate Habs.
    + unfold recordUnresolvedRelease, bind, modify, do_call, the_backup, ret.
      cbn. destruct (postHookMaxAttempts <=? _)%Z; intros H'; discriminate H'.
Qed.

(** ** Steps (10) to (12) *)

(** The API server holds the status a pass wrote: it accepted the write, or an
    uncached read after the error found the terminal phase. *)
Definition committed (accepted : bool) (b : Backup) : Prop :=
  accepted = true
  \/ (hasAPIReader r = true /\ isTerminalBackupPhase (b_phase b) = true /\ pa_fresh a = Ok (b_phase b)).

(** What a pass may still do once the status of [b] is held by the API server. *)
Definition due (b : Backup) (c : call) : Prop :=
  let volume p := exists v, v ∈ b_volumes b /\ volumePhaseTerminal (Phase v) = true
                   /\ p = moverNamePrefix (b_namespace b) (b_name b) (Pvc v) in
  match c with
  | CTeardownExposure p => volume p
  | CDeleteMover p => volume p \/ (manifestsSettled b = true /\ p = manifestsJobPrefix (b_namespace b) (b_name b))
  | CDeleteRoleBinding ns _ => manifestsSettled b = true /\ ns = b_namespace b
  | CEnqueueForget _ _ _ => backupSucceeded (b_phase b) = true
  | CEvent _ _ _ => True
  | _ => False
  end.

(** What steps (10) to (12) leave: the status is written once, after the work and
    before everything that cannot be undone. *)
Record driven (run : BackupRunSpec) (rc : backupRunContext) (b b' : Backup) (calls : list call) : Prop := {
  dr_frame : frame b' = frame b;
  dr_volumes : exists td, advanced_one td (b_volumes b) (b_volumes b');
  dr_phase : isTerminalBackupPhase (b_phase b') = true ->
    b_phase b' = RollUpVolumePhases (b_volumes b')
    /\ (includeManifests run = true -> manifestsSettled b' = true) /\ released (run_Hooks run) b';
  dr_backupTime : st_BackupTime (b_status b')
    = stamped (st_BackupTime (b_status b)) (isTerminalBackupPhase (b_phase b'));
  dr_completionTime : st_CompletionTime (b_status b')
    = stamped (st_CompletionTime (b_status b)) (isTerminalBackupPhase (b_phase b'));
  dr_order : exists work accepted rest,
    calls = (work ++ CStatusUpdate (b_status b') accepted
             :: (if accepted && first_terminal b b' then [CTerminalMetrics] else []) ++ rest)%list
    /\ careful work /\ Forall (due b') rest
    /\ (rest <> [] -> committed accepted b')
}.

Lemma within_run {X Y} (P : call -> bool) (f : Backup -> Y) (m : pass X) b x b' l :
  establishes (within P f) m -> m b = (x, b', l) -> Forall (fun c => P c = true) l /\ f b' = f b.
Proof. intros Hm E. specialize (Hm b). by rewrite E in Hm. Qed.

Lemma terminalPhaseCommitted_committed b e :
  terminalPhaseCommitted r a b e = true -> committed false b.
Proof.
  unfold terminalPhaseCommitted, committed.
  destruct (hasAPIReader r), (isTerminalBackupPhase (b_phase b)); cbn; try done.
  destruct (IsConflict e), (pa_fresh a) as [p|]; try done. intros ->%String.eqb_eq. by right.
Qed.

Lemma rolledUp_terminal manifestsDone releaseOwed b :
  isTerminalBackupPhase (rolledUpPhase b manifestsDone releaseOwed) = true ->
  rolledUpPhase b manifestsDone releaseOwed = RollUpVolumePhases (b_volumes b)
  /\ manifestsDone = true /\ releaseOwed = false.
Proof.
  unfold rolledUpPhase. destruct (isTerminalBackupPhase (RollUpVolumePhases (b_volumes b))) eqn:E; cbn.
  - by destruct manifestsDone, releaseOwed.
  - by rewrite E.
Qed.

(** A computation that leaves the object and makes only calls that are due. *)
Definition settles {X} (m : pass X) (b : Backup) : Prop :=
  snd (fst (m b)) = b /\ Forall (due b) (snd (m b)).

Lemma settles_ret {X} (x : X) b : settles (ret x) b.
Proof. by split. Qed.
Lemma settles_call c b : due b c -> settles (do_call c) b.
Proof. by repeat constructor. Qed.
Lemma settles_get {X} (f : Backup -> pass X) b : settles (f b) b -> settles (bind the_backup f) b.
Proof. unfold settles. by rewrite run_the_backup. Qed.
Lemma settles_bind {X Y} (m : pass X) (f : X -> pass Y) b :
  settles m b -> (forall x, settles (f x) b) -> settles (bind m f) b.
Proof.
  unfold settles. intros [Hb Hl] Hf. unfold bind. destruct (m b) as [[x b1] l1]. cbn in Hb, Hl. subst b1.
  destruct (Hf x) as [Hb2 Hl2]. destruct (f x b) as [[y b2] l2]. cbn in *. split; [done|by apply Forall_app].
Qed.

Lemma aftermath_settles rc teardownPVC teardownPrefix b :
  (teardownPVC <> "" -> exists v, v ∈ b_volumes b /\ volumePhaseTerminal (Phase v) = true /\ Pvc v = teardownPVC) ->
  (teardownPrefix <> "" -> manifestsSettled b = true
                           /\ teardownPrefix = manifestsJobPrefix (b_namespace b) (b_name b)) ->
  settles (aftermath a rc teardownPVC teardownPrefix) b.
Proof.
  intros Hv Hm. apply settles_get. apply settles_bind; [|intros _; apply settles_bind; [|intros _]].
  - destruct (String.eqb_spec teardownPVC "") as [|Hn]; [apply settles_ret|].
    destruct (Hv Hn) as (v & Hin & Ht & Hp). apply settles_get. apply settles_bind; [|intros _].
    + apply settles_get, settles_bind; [apply settles_call|intros; apply settles_ret].
      exists v. by rewrite Hp.
    + apply settles_call. left. exists v. by rewrite Hp.
  - destruct (String.eqb_spec teardownPrefix "") as [|Hn]; [apply settles_ret|].
    destruct (Hm Hn) as [Hs Hp]. apply settles_get. apply settles_bind; [by apply settles_call|intros _].
    apply settles_call. by right.
  - destruct (backupSucceeded (b_phase b)) eqn:Es; [|apply settles_ret].
    unfold maybeEnqueueRetentionForget. destruct (rc_immutable rc); [apply settles_ret|].
    destruct (ForgetCommand (rc_retention rc)) as [argv|]; [|apply settles_ret].
    apply settles_get, settles_bind; [by apply settles_call|]. intros _. by apply settles_call.
Qed.

Lemma advanced_one_in td vols vols' :
  advanced_one td vols vols' -> td <> "" ->
  exists v, v ∈ vols' /\ volumePhaseTerminal (Phase v) = true /\ Pvc v = td.
Proof.
  intros [[_ ->]|(i & v & v' & Hi & -> & _ & _ & _ & [->|[-> Ht]])] Hn; [done|done|].
  exists v'. split; [|done]. apply (list_elem_of_lookup_2 _ i).
  apply list_lookup_insert_eq. by eapply lookup_lt_Some.
Qed.

(** The four steps before the write, run one after the other. *)
Record worked (run : BackupRunSpec) (b b' : Backup) (td tp : string) (manifestsDone owed : bool)
    (calls : list call) : Prop := {
  wk_calls : careful calls;
  wk_frame : frame b' = frame b;
  wk_times : run_times b' = run_times b;
  wk_volumes : advanced_one td (b_volumes b) (b_volumes b');
  wk_done : manifestsDone = (negb (includeManifests run) || manifestsSettled b');
  wk_prefix : tp <> "" -> manifestsSettled b' = true /\ tp = manifestsJobPrefix (b_namespace b') (b_name b');
  wk_released : owed = false -> released (run_Hooks run) b'
}.

Lemma work_spec run rc b td b1 l1 md tp merr b2 l2 owed rerr b3 l3 :
  advanceOne rc b = (td, b1, l1) ->
  advanceManifests rc (includeManifests run) (run_ExcludeSecretData run) b1 = ((md, tp, merr), b2, l2) ->
  closeFreezeWindow (run_Hooks run) b2 = ((owed, rerr), b3, l3) ->
  worked run b b3 td tp md owed (l1 ++ l2 ++ l3)%list.
Proof.
  intros E1 E2 E3.
  pose proof (advanceOne_spec rc b) as H1. rewrite E1 in H1. destruct H1 as (Hw1 & Hc1 & Hv1).
  destruct (within_run _ _ _ _ _ _ _ (advanceManifests_within _ _ _) E2) as [Hw2 Hc2].
  pose proof (advanceManifests_outcome Unmarshal Quote r cfg (pa_manifests a) rc (includeManifests run)
    (run_ExcludeSecretData run) b1) as Ho. rewrite E2 in Ho. destruct Ho as (Hmd & Htp & _ & _).
  destruct (within_run _ _ _ _ _ _ _ (closeFreezeWindow_within _) E3) as [Hw3 Hc3].
  pose proof (closeFreezeWindow_done (run_Hooks run) b2) as Hd. rewrite E3 in Hd.
  unfold volume_core in Hc1. unfold manifest_core in Hc2. unfold post_core, hook_core in Hc3.
  assert (frame b3 = frame b2 /\ frame b2 = frame b1 /\ frame b1 = frame b) as (F3 & F2 & F1) by (split_and!; congruence).
  assert (manifestsSettled b3 = manifestsSettled b2) as Hs3 by (apply manifestsSettled_status; congruence).
  constructor.
  - auto using careful_app, careful_working.
  - congruence.
  - congruence.
  - replace (b_volumes b3) with (b_volumes b1) by congruence. done.
  - by rewrite Hs3.
  - intros Hn. rewrite Hs3. unfold frame in F3, F2.
    replace (b_namespace b3) with (b_namespace b1) by congruence.
    replace (b_name b3) with (b_name b1) by congruence.
    destruct (_ && manifestsSettled b2) eqn:E; [|by rewrite Htp in Hn].
    by apply andb_true_iff in E as [_ ->].
  - done.
Qed.

Lemma released_written spec md ro b b' : written md ro b b' -> released spec b -> released spec b'.
Proof.
  intros [Hf Hv [Hh Hp] _ _ _ _ _]. unfold released, postHooksRan, frame in *.
  rewrite Hh, Hp, Hv. replace (b_namespace b') with (b_namespace b) by congruence. done.
Qed.

Lemma drive_driven run rc b : driven run rc b (snd (fst (drive run rc b))) (snd (drive run rc b)).
Proof.
  unfold BackupPass.drive.
  destruct (advanceOne rc b) as [[td b1] l1] eqn:E1. rewrite (run_bind _ _ _ _ _ _ E1).
  destruct (advanceManifests rc (includeManifests run) (run_ExcludeSecretData run) b1)
    as [[[[md tp] merr] b2] l2] eqn:E2. rewrite (run_bind _ _ _ _ _ _ E2).
  destruct (closeFreezeWindow (run_Hooks run) b2) as [[[owed rerr] b3] l3] eqn:E3.
  rewrite (run_bind _ _ _ _ _ _ E3).
  destruct (work_spec _ _ _ _ _ _ _ _ _ _ _ _ _ _ _ E1 E2 E3) as [Hcalls Hframe Htimes Hvols Hdone Hprefix Hrel].
  destruct (writeStatus a md owed b3) as [[[res err] b4] l4] eqn:E4.
  rewrite (run_bind _ _ _ _ _ _ E4), run_the_backup.
  pose proof (writeStatus_spec md owed b3) as Hw. rewrite E4 in Hw. destruct Hw as [Hw Hl4].
  set (accepted := match err with None => true | Some _ => false end) in *.
  match goal with |- context [(l4 ++ snd (?k b4))%list] => set (K := k) end.
  assert (settles K b4 /\ (snd (K b4) <> [] -> committed accepted b4)) as [[Hb Hl] Hcom].
  { subst K. set (com := match err with None => true | Some e => _ end).
    assert (com = true -> committed accepted b4) as Hc.
    { subst com accepted. destruct err; [apply terminalPhaseCommitted_committed|by left]. }
    destruct com; cbn [negb]; [|by split; [apply settles_ret|]].
    split; [|intros _; by apply Hc]. apply settles_bind.
    - apply aftermath_settles.
      + rewrite (wr_volumes _ _ _ _ Hw). by eapply advanced_one_in.
      + intros Hn. destruct (Hprefix Hn) as [Hs Hp]. rewrite (wr_settled _ _ _ _ Hw). split; [done|].
        pose proof (wr_frame _ _ _ _ Hw) as Hf. unfold frame in Hf. rewrite Hp. f_equal; congruence.
    - intros _. destruct (join_errors _); apply settles_ret. }
  cbn [fst snd]. rewrite Hb. unfold run_times in Htimes. destruct Hw as [Wf Wv Wh Wm Ws Wp Wb Wc].
  assert (first_terminal b b4 = first_terminal b3 b4) as Hft by (unfold first_terminal; by injection Htimes as _ -> _).
  constructor.
  - congruence.
  - exists td. by rewrite Wv.
  - intros Ht. rewrite Wp in Ht. destruct (rolledUp_terminal _ _ _ Ht) as (Hr & -> & ->).
    split; [by rewrite Wp, Wv|]. split.
    + intros Hi. rewrite Ws. rewrite Hi in Hdone. by destruct (manifestsSettled b3).
    + eapply released_written; [|by apply Hrel]. by constructor.
  - rewrite Wb. by injection Htimes as _ -> _.
  - rewrite Wc. by injection Htimes as _ _ ->.
  - exists (l1 ++ l2 ++ l3)%list, accepted, (snd (K b4)). split_and!; try done.
    rewrite Hft, Hl4, <-!app_assoc. do 3 f_equal. subst accepted. by destruct err.
Qed.

(** ** Steps (6) to (9) *)

(** What a pass leaves that stops before step (10): every status it wrote is the one
    it ends with, and nothing was cleaned up. *)
Record interim (b b' : Backup) (calls : list call) : Prop := {
  in_frame : frame b' = frame b;
  in_volumes : b_volumes b' = b_volumes b;
  in_phase : isTerminalBackupPhase (b_phase b') = true -> b_phase b' = BackupPhaseFailed;
  in_backupTime : st_BackupTime (b_status b')
    = stamped (st_BackupTime (b_status b)) (isTerminalBackupPhase (b_phase b'));
  in_completionTime : st_CompletionTime (b_status b')
    = stamped (st_CompletionTime (b_status b)) (isTerminalBackupPhase (b_phase b'));
  in_calls : Forall (fun c => writing c = true) calls;
  in_written : forall s accepted, CStatusUpdate s accepted ∈ calls -> s = b_status b'
}.

Lemma working_no_write (l : list call) s accepted :
  Forall (fun c => working c = true) l -> CStatusUpdate s accepted ∈ l -> False.
Proof. rewrite Forall_forall. intros Hl Hin. by specialize (Hl _ Hin). Qed.

Lemma working_writing (l : list call) :
  Forall (fun c => working c = true) l -> Forall (fun c => writing c = true) l.
Proof. intros. eapply Forall_impl; [done|]. by intros []. Qed.

(** Work, then at most one write of what is left. *)
Lemma interim_intro b b1 b' l rest :
  isTerminalBackupPhase (b_phase b) = false -> Forall (fun c => working c = true) l ->
  frame b1 = frame b -> run_times b1 = run_times b -> b_volumes b1 = b_volumes b ->
  (rest = [] /\ b' = b1 \/
   frame b' = frame b1 /\ b_volumes b' = b_volumes b1
   /\ (isTerminalBackupPhase (b_phase b') = true -> b_phase b' = BackupPhaseFailed)
   /\ st_BackupTime (b_status b') = stamped (st_BackupTime (b_status b1)) (isTerminalBackupPhase (b_phase b'))
   /\ st_CompletionTime (b_status b') = stamped (st_CompletionTime (b_status b1)) (isTerminalBackupPhase (b_phase b'))
   /\ exists accepted more, rest = CStatusUpdate (b_status b') accepted :: more
        /\ Forall (fun c => match c with CEvent _ _ _ | CTerminalMetrics => True | _ => False end) more) ->
  interim b b' (l ++ rest)%list.
Proof.
  intros Hn Hl Hf Ht Hv Hrest. unfold run_times in Ht.
  destruct Hrest as [[-> ->]|(Hf' & Hv' & Hp & Hb & Hc & accepted & more & -> & Hm)].
  - rewrite app_nil_r.
    injection Ht as Htp Htb Htc. constructor; rewrite ?Htp, ?Hn; cbn; try congruence.
    + by apply working_writing.
    + intros s acc Hin. by destruct (working_no_write _ _ _ Hl Hin).
  - injection Ht as Htp Htb Htc. constructor; [congruence|congruence|exact Hp|by rewrite Hb, Htb|by rewrite Hc, Htc|..].
    + apply Forall_app. split; [by apply working_writing|]. constructor; [done|].
      eapply Forall_impl; [done|]. by intros [].
    + intros s acc [Hin|[Hin|Hin]%elem_of_cons]%elem_of_app.
      * by destruct (working_no_write _ _ _ Hl Hin).
      * congruence.
      * rewrite Forall_forall in Hm. by specialize (Hm _ Hin).
Qed.

(** A status write and what reports it, as [interim_intro] wants it. *)
Definition wrote (b1 b' : Backup) (rest : list call) : Prop :=
  frame b' = frame b1 /\ b_volumes b' = b_volumes b1
  /\ (isTerminalBackupPhase (b_phase b') = true -> b_phase b' = BackupPhaseFailed)
  /\ st_BackupTime (b_status b') = stamped (st_BackupTime (b_status b1)) (isTerminalBackupPhase (b_phase b'))
  /\ st_CompletionTime (b_status b') = stamped (st_CompletionTime (b_status b1)) (isTerminalBackupPhase (b_phase b'))
  /\ exists accepted more, rest = CStatusUpdate (b_status b') accepted :: more
       /\ Forall (fun c => match c with CEvent _ _ _ | CTerminalMetrics => True | _ => False end) more.

Lemma wrote_status err b b1 :
  frame b1 = frame b -> run_times b1 = run_times b -> b_volumes b1 = b_volumes b ->
  isTerminalBackupPhase (b_phase b) = false ->
  wrote b b1 (snd (status_update err b1)).
Proof.
  intros Hf Ht Hv Hn. injection Ht as Hp Hb Hc. unfold wrote. rewrite Hp, Hn. cbn.
  split_and!; try done. by eexists _, [].
Qed.

Lemma failHooks_wrote message b :
  let '(_, b', calls) := failHooks (pa_hooks a) message b in wrote b b' calls.
Proof.
  unfold failHooks, bind, the_backup, modify, status_update, do_call, ret, setCompletionTime, setBackupTime, wrote.
  cbn. destruct (st_BackupTime (b_status b)) eqn:E1, (st_CompletionTime (b_status b)) eqn:E2,
    (ha_update (pa_hooks a)); cbn; rewrite ?E1, ?E2; cbn; rewrite ?E1, ?E2; cbn; split_and!; try done;
    eexists _, _; (split; [reflexivity|]); by repeat constructor.
Qed.

Lemma gate_interim reason message b :
  isTerminalBackupPhase (b_phase b) = false ->
  let '(_, b', calls) := gate a reason message b in interim b b' calls.
Proof.
  intros Hn. unfold gate, bind, the_backup, modify, status_update, ret. cbn.
  apply (interim_intro b b _ [] _ Hn); try done. right.
  split_and!; try done. by eexists _, [].
Qed.

Lemma releaseAborted_within spec :
  establishes (within working post_core)
    (releaseAbortedQuiesce LabelSelectorAsSelector ParseDuration UnmarshalArgv (pa_hooks a) spec).
Proof. unfold releaseAbortedQuiesce. within_auto; apply advancePostHooks_within. Qed.

Lemma openFreezeWindow_interim spec b :
  isTerminalBackupPhase (b_phase b) = false ->
  let '(opened, b', calls) := openFreezeWindow spec b in
  match opened with None => b' = b /\ calls = [] | Some _ => interim b b' calls end.
Proof.
  intros Hn. unfold Hooks.openFreezeWindow. rewrite run_the_backup.
  destruct (aborted (hookState b)).
  - unfold abortFreezeWindow.
    destruct (releaseAbortedQuiesce LabelSelectorAsSelector ParseDuration UnmarshalArgv (pa_hooks a) spec b)
      as [[[owed rerr] b1] l1] eqn:Er.
    destruct (within_run _ _ _ _ _ _ _ (releaseAborted_within spec) Er) as [Hl Hc].
    assert (frame b1 = frame b /\ run_times b1 = run_times b /\ b_volumes b1 = b_volumes b) as (Hf & Ht & Hv)
      by (unfold post_core, hook_core in Hc; split_and!; congruence).
    rewrite bind_assoc, (run_bind _ _ _ _ _ _ Er).
    destruct owed; cbn [negb].
    + assert (isTerminalBackupPhase (st_Phase (b_status b1)) = false) as Hn1
        by (injection Ht as Hp _ _; unfold b_phase in Hp, Hn; by rewrite Hp).
      unfold bind, the_backup, modify, status_update, ret. cbn.
      destruct (ha_update (pa_hooks a)); [|destruct rerr]; cbn; rewrite ?app_nil_r;
        apply (interim_intro b b1 _ l1 _ Hn Hl Hf Ht Hv); right; unfold b_phase; cbn; rewrite Hn1;
        (split_and!; try done); by eexists _, [].
    + pose proof (failHooks_wrote (abortMessage (hookState b)) b1) as Hw.
      unfold bind, ret. destruct (failHooks (pa_hooks a) _ b1) as [[err b2] l2]. cbn. rewrite !app_nil_r.
      apply (interim_intro b b1 _ l1 _ Hn Hl Hf Ht Hv). by right.
  - destruct (preRan (hookState b)); [by cbn|].
    destruct (advancePreHooks LabelSelectorAsSelector ParseDuration UnmarshalArgv (pa_hooks a) spec b)
      as [[ran b1] l1] eqn:Ea.
    destruct (within_run _ _ _ _ _ _ _ (advancePreHooks_within spec) Ea) as [Hl Hc].
    assert (frame b1 = frame b /\ run_times b1 = run_times b /\ b_volumes b1 = b_volumes b) as (Hf & Ht & Hv)
      by (unfold hook_core in Hc; split_and!; congruence).
    rewrite (run_bind _ _ _ _ _ _ Ea).
    pose proof (advancePreHooks_same LabelSelectorAsSelector ParseDuration UnmarshalArgv (pa_hooks a) spec b) as Hs.
    rewrite Ea in Hs. destruct Hs as (_ & _ & Hok). destruct ran as [[]|e].
    + unfold bind, modify, status_update, ret. cbn.
      destruct (ha_update (pa_hooks a)); cbn; apply (interim_intro b b1 _ l1 _ Hn Hl Hf Ht Hv); right;
        (split_and!; [done..|]); by eexists _, [].
    + destruct (Hok eq_refl) as (-> & -> & _). by cbn.
    + match goal with |- context [failHooks (pa_hooks a) ?m] => pose proof (failHooks_wrote m b1) as Hw;
        unfold bind, ret; destruct (failHooks (pa_hooks a) m b1) as [[err b2] l2] end. cbn. rewrite app_nil_r.
      apply (interim_intro b b1 _ l1 _ Hn Hl Hf Ht Hv). by right.
Qed.

(** ** The other ends of a pass write no status and run no hook *)

Definition no_drive (c : call) : bool := match c with CStatusUpdate _ _ | CHook _ _ => false | _ => true end.

Lemma sweepVolumes_within what vols : establishes (within no_drive b_status) (sweepVolumes a what vols).
Proof.
  induction vols as [|v vols IH]; cbn; [within_auto|]. case_match; [apply IH|].
  unfold cleanupVolumeExposure, deleteMoverJobAndSecret. within_auto; apply IH.
Qed.

Lemma finalize_within : establishes (within no_drive b_status) (finalize a).
Proof.
  unfold finalize, teardownManifests, deleteManifestRoleBinding, deleteMoverJobAndSecret, update_backup.
  within_auto; apply sweepVolumes_within.
Qed.

Lemma ensureTerminalTeardown_within : establishes (within no_drive b_status) (ensureTerminalTeardown r a).
Proof.
  unfold ensureTerminalTeardown, teardownManifests, deleteManifestRoleBinding, deleteMoverJobAndSecret.
  within_auto; apply sweepVolumes_within.
Qed.

(** A pass drives the run, or writes no status at all. *)
Lemma Reconcile_cases b :
  (b_deleting b = false /\ isTerminalBackupPhase (b_phase b) = false /\ Reconcile b = progress b)
  \/ within no_drive b_status b (snd (Reconcile b)) (snd (fst (Reconcile b))).
Proof.
  unfold BackupPass.Reconcile. rewrite run_the_backup.
  destruct (b_deleting b); [right; apply finalize_within|].
  destruct (isProjected b); [right; apply (establishes_ret (within no_drive b_status)), within_composable|].
  destruct (negb (hasFinalizer b)); [right|destruct (isTerminalBackupPhase (b_phase b)) eqn:Et; [right|by left]].
  - match goal with |- within _ _ _ (snd (?m b)) _ =>
      assert (establishes (within no_drive b_status) m) as Hw; [|apply Hw] end.
    unfold update_backup. within_auto.
  - apply ensureTerminalTeardown_within.
Qed.

Lemma interim_nothing b : isTerminalBackupPhase (b_phase b) = false -> interim b b [].
Proof. intros Hn. by apply (interim_intro b b b [] [] Hn); try done; left. Qed.

Lemma gated_interim {X} reason message (f : Result * option gerr -> X) b :
  isTerminalBackupPhase (b_phase b) = false ->
  let '(_, b', calls) := bind (gate a reason message) (fun res => ret (f res)) b in interim b b' calls.
Proof.
  intros Hn. pose proof (gate_interim reason message b Hn) as Hg. unfold bind, ret.
  destruct (gate a reason message b) as [[res b'] calls]. by rewrite app_nil_r.
Qed.

Lemma resolveRunContext_interim run b :
  isTerminalBackupPhase (b_phase b) = false ->
  let '(x, b', calls) := resolveRunContext r a run b in
  match x with inl _ => b' = b /\ calls = [] | inr _ => interim b b' calls end.
Proof.
  intros Hn. unfold resolveRunContext. rewrite run_the_backup.
  assert (forall reason message,
    let '(x, b', calls) := bind (gate a reason message) (fun res => ret (@inr backupRunContext _ res)) b in
    match x with inl _ => b' = b /\ calls = [] | inr _ => interim b b' calls end) as Hg.
  { intros reason message. pose proof (gated_interim reason message (@inr backupRunContext _) b Hn) as Hg.
    unfold bind, ret in *. by destruct (gate a reason message b) as [[res b'] calls]. }
  destruct (resolveBackupLocation r a b) as [binding|[reason message]]; [|apply Hg].
  destruct (pa_repository a _) as [repo|e].
  - destruct (negb (br_Initialized repo)); [apply Hg|].
    destruct (Namespaced binding && _ && _); [apply Hg|].
    destruct (pa_password a) as [[reason message]|]; [apply Hg|]. done.
  - destruct (IsNotFound e); [apply Hg|]. by apply interim_nothing.
Qed.

(** How far a pass over a run in progress gets. *)
Inductive progressed (b b' : Backup) (calls : list call) : Prop :=
| stopped_early : interim b b' calls -> progressed b b' calls
| stopped_at_window run vols :
    resolveRun a b = Ok (Some run) -> ensureVolumes a b (run_PVCSelector run) = Ok vols ->
    interim (set_volumes vols b) b' calls -> progressed b b' calls
| went_through run rc vols :
    resolveRun a b = Ok (Some run) -> ensureVolumes a b (run_PVCSelector run) = Ok vols ->
    driven run rc (set_volumes vols b) b' calls -> progressed b b' calls.

Lemma progress_progressed b :
  isTerminalBackupPhase (b_phase b) = false ->
  progressed b (snd (fst (progress b))) (snd (progress b)).
Proof.
  intros Hn. unfold BackupPass.progress. rewrite run_the_backup.
  destruct (resolveRun a b) as [[run|]|e] eqn:Erun.
  2: { match goal with |- context [gate a ?re ?m] => pose proof (gate_interim re m b Hn) as Hg;
         destruct (gate a re m b) as [[res b'] calls] end. by apply stopped_early. }
  2: { by apply stopped_early, interim_nothing. }
  pose proof (resolveRunContext_interim run b Hn) as Hrc.
  destruct (resolveRunContext r a run b) as [[[rc|res] b1] l1] eqn:Erc; rewrite (run_bind _ _ _ _ _ _ Erc).
  2: { cbn. rewrite app_nil_r. by apply stopped_early. }
  destruct Hrc as [-> ->]. destruct (ensureVolumes a b (run_PVCSelector run)) as [vols|e] eqn:Ev;
    [|by apply stopped_early, interim_nothing].
  rewrite (run_bind (modify (set_volumes vols)) _ b () (set_volumes vols b) []) by done.
  assert (isTerminalBackupPhase (b_phase (set_volumes vols b)) = false) as Hn1 by exact Hn.
  pose proof (openFreezeWindow_interim (run_Hooks run) _ Hn1) as Ho.
  destruct (openFreezeWindow (run_Hooks run) (set_volumes vols b)) as [[opened b2] l2] eqn:Eo.
  rewrite (run_bind _ _ _ _ _ _ Eo). destruct opened as [res|].
  - cbn. rewrite app_nil_r. by eapply stopped_at_window.
  - destruct Ho as [-> ->]. cbn [fst snd app]. eapply went_through; [done..|apply drive_driven].
Qed.
End Safety.

(** ** The stored object *)

Section Store.
Context {CS : ConditionStore} {CSL : ConditionStoreLaws CS}.

(** The object a call would store, and whether the API server answered that it did. *)
Definition store_write (c : call) (b : Backup) : option (Backup * bool) :=
  match c with
  | CStatusUpdate s accepted => Some (set_status s b, accepted)
  | CUpdate fs accepted => Some (set_finalizers fs b, accepted)
  | CPatchAnnotation k v accepted => Some (set_annotation k v b, accepted)
  | _ => None
  end.

(** What may be stored after some calls: a write that was answered is there; one
    whose answer was an error may be there or not. *)
Inductive commits : Backup -> list call -> Backup -> Prop :=
| commits_nil b : commits b [] b
| commits_other b c cs b2 : store_write c b = None -> commits b cs b2 -> commits b (c :: cs) b2
| commits_applied b c b1 accepted cs b2 :
    store_write c b = Some (b1, accepted) -> commits b1 cs b2 -> commits b (c :: cs) b2
| commits_lost b c b1 cs b2 :
    store_write c b = Some (b1, false) -> commits b cs b2 -> commits b (c :: cs) b2.

(** The store after calls whose writes were all answered and kept. *)
Fixpoint replay (b : Backup) (cs : list call) : Backup :=
  match cs with
  | [] => b
  | c :: cs' => replay (match store_write c b with Some (b1, _) => b1 | None => b end) cs'
  end.

Lemma commits_replay cs b : commits b cs (replay b cs).
Proof.
  revert b. induction cs as [|c cs IH]; intros b; [constructor|]. cbn.
  destruct (store_write c b) as [[b1 acc]|] eqn:Hw; [by eapply commits_applied|by apply commits_other].
Qed.





(** Statuses that are written are all one and the same. *)
Lemma commits_one_status s cs b b2 :
  (forall s' accepted, CStatusUpdate s' accepted ∈ cs -> s' = s) ->
  commits b cs b2 -> b_status b2 = b_status b \/ b_status b2 = s.
Proof.
  intros Hs Hc. induction Hc as [|b c cs b2 _ _ IH|b c b1 acc cs b2 Hw _ IH|b c b1 cs b2 Hw _ IH]; [by left|..].
  - apply IH. intros s' acc Hin. apply (Hs s' acc). by right.
  - destruct IH as [Hb|Hb]; [intros s' acc' Hin; apply (Hs s' acc'); by right| |by right].
    destruct c; try discriminate Hw; injection Hw as <- ->; [|by left..].
    right. rewrite Hb. apply (Hs _ acc). left.
  - apply IH. intros s' acc Hin. apply (Hs s' acc). by right.
Qed.

Lemma commits_identity cs b b2 :
  commits b cs b2 -> b_namespace b2 = b_namespace b /\ b_name b2 = b_name b.
Proof.
  induction 1 as [|b c cs b2 _ _ IH|b c b1 acc cs b2 Hw _ IH|b c b1 cs b2 Hw _ IH]; [done|done| |done].
  destruct c; try discriminate Hw; injection Hw as <- _; exact IH.
Qed.


End Store.

(** ** Theorems *)

Section Theorems.
Context {CS : ConditionStore} {CSL : ConditionStoreLaws CS}.
Variable Unmarshal : string -> result MoverResult.
Variable Quote : string -> string.
Variable LabelSelectorAsSelector : LabelSelector -> option (labels -> bool).
Variable ParseDuration : string -> option Z.
Variable UnmarshalArgv : string -> option (list string).
Variable r : BackupReconciler.
Variable cfg : manifestConfig.

Notation Reconcile a := (Reconcile Unmarshal Quote LabelSelectorAsSelector ParseDuration UnmarshalArgv r cfg a).
Notation progress a := (progress Unmarshal Quote LabelSelectorAsSelector ParseDuration UnmarshalArgv r cfg a).
Notation progress_progressed a :=
  (progress_progressed Unmarshal Quote LabelSelectorAsSelector ParseDuration UnmarshalArgv r cfg a).
Notation Reconcile_cases a :=
  (Reconcile_cases Unmarshal Quote LabelSelectorAsSelector ParseDuration UnmarshalArgv r cfg a).
Notation released a := (released LabelSelectorAsSelector ParseDuration UnmarshalArgv a).








(** ** Sweeps *)

Definition prefixOf (b : Backup) (v : VolumeStatus) : string :=
  moverNamePrefix (b_namespace b) (b_name b) (Pvc v).

(** Everything a volume can have left behind was asked to go, and its exposure went. *)
Definition swept (a : pass_answers) (b : Backup) (calls : list call) (v : VolumeStatus) : Prop :=
  CTeardownExposure (prefixOf b v) ∈ calls /\ CDeleteMover (prefixOf b v) ∈ calls
  /\ pa_teardown a (prefixOf b v) = None.

Lemma swept_mono a b calls calls' v : calls ⊆ calls' -> swept a b calls v -> swept a b calls' v.
Proof. intros Hs (H1 & H2 & H3). split_and!; [by apply Hs..|done]. Qed.

Lemma sweepVolumes_spec a what vols b :
  let '(errs, b', calls) := sweepVolumes a what vols b in
  b' = b /\ Forall (fun c => cleaning c = true) calls
  /\ (errs = [] -> forall v, v ∈ vols -> Phase v <> VolumePhaseSkipped -> swept a b calls v).
Proof.
  induction vols as [|v vols IH]; cbn; [split_and!; [done|constructor|intros _ v Hv; by apply elem_of_nil in Hv]|].
  destruct (String.eqb_spec (Phase v) VolumePhaseSkipped) as [Es|Es].
  - destruct (sweepVolumes a what vols b) as [[errs b'] calls]. destruct IH as (-> & Hc & Hs).
    split_and!; try done. intros He x [->|Hx]%elem_of_cons Hn; [done|by apply Hs].
  - unfold bind, the_backup, cleanupVolumeExposure, deleteMoverJobAndSecret, do_call, ret. cbn.
    fold (prefixOf b v). destruct (pa_teardown a (prefixOf b v)) as [e|] eqn:Et;
      destruct (sweepVolumes a what vols b) as [[errs b'] calls]; destruct IH as (-> & Hc & Hs); cbn;
      rewrite ?app_nil_r; (split; [done|]; split; [by repeat constructor|]); [done|].
    intros He x [->|Hx]%elem_of_cons Hn.
    + split_and!; [left|right; left|done].
    + eapply swept_mono; [|by apply Hs]. intros y Hy. do 2 right. done.
Qed.

(** A write that declares a Backup's exposures gone. *)
Definition seals (c : call) : bool :=
  match c with
  | CPatchAnnotation _ _ _ => true
  | CUpdate fs _ => negb (existsb (String.eqb FinalizerBackup) fs)
  | _ => false
  end.

Lemma cleaning_no_seal c : cleaning c = true -> seals c = false.
Proof. by destruct c. Qed.

Lemma progress_no_seal a b :
  isTerminalBackupPhase (b_phase b) = false -> Forall (fun c => seals c = false) (snd (progress a b)).
Proof.
  intros Hn. pose proof (progress_progressed a b Hn) as Hp.
  assert (forall b0 b' calls, interim a b0 b' calls -> Forall (fun c => seals c = false) calls) as Hi.
  { intros b0 b' calls Hi. eapply Forall_impl; [apply (in_calls _ _ _ _ Hi)|]. by intros []. }
  destruct Hp as [H|run vols _ _ H|run rc vols _ _ H]; [by eapply Hi..|].
  destruct H as [_ _ _ _ _ (work & acc & rest & -> & Hwork & Hrest & _)].
  apply Forall_app. split; [by apply (careful_all _ _ _ Hwork); [intros []|]|].
  constructor; [done|]. apply Forall_app. split; [destruct (acc && _); repeat constructor|].
  eapply Forall_impl; [exact Hrest|]. by intros [].
Qed.

Lemma teardownManifests_run prefix (b : Backup) :
  exists l, teardownManifests prefix b = ((), b, l) /\ Forall (fun c => cleaning c = true) l.
Proof. eexists. split; [reflexivity|]. by repeat constructor. Qed.

Lemma ensureTerminalTeardown_seals a b c :
  c ∈ snd (ensureTerminalTeardown r a b) -> seals c = true ->
  (forall v, v ∈ b_volumes b -> Phase v <> VolumePhaseSkipped -> swept a b (snd (ensureTerminalTeardown r a b)) v)
  /\ exposureResidueRemains r a b = "".
Proof.
  unfold ensureTerminalTeardown. rewrite run_the_backup.
  case_match; [by intros Hin%elem_of_nil|].
  match goal with |- context [sweepVolumes a ?w (b_volumes b)] => pose proof (sweepVolumes_spec a w (b_volumes b) b) as Hs;
    destruct (sweepVolumes a w (b_volumes b) b) as [[errs b1] l1] eqn:Es end.
  rewrite (run_bind _ _ _ _ _ _ Es). destruct Hs as (-> & Hc & Hs).
  destruct (teardownManifests_run (manifestsJobPrefix (b_namespace b) (b_name b)) b) as (l2 & E2 & Hc2).
  rewrite (run_bind _ _ _ _ _ _ E2).
  assert (forall l, Forall (fun c => cleaning c = true) l -> c ∈ l -> seals c = true -> False) as Hno.
  { intros l Hl Hin Hseal. rewrite Forall_forall in Hl. by rewrite (cleaning_no_seal _ (Hl _ Hin)) in Hseal. }
  cbn [fst snd]. destruct (join_errors errs) as [e|] eqn:Ej.
  { cbn. rewrite app_nil_r. intros [Hin|Hin]%elem_of_app Hseal; exfalso;
    [exact (Hno _ Hc Hin Hseal)|exact (Hno _ Hc2 Hin Hseal)]. }
  apply join_errors_None in Ej. destruct (String.eqb_spec (exposureResidueRemains r a b) "") as [Er|Er]; cbn [negb].
  - intros _ _. split; [|done]. intros v Hv Hn. eapply swept_mono; [|by apply Hs]. set_solver.
  - cbn. rewrite app_nil_r. intros [Hin|Hin]%elem_of_app Hseal; exfalso;
      [exact (Hno _ Hc Hin Hseal)|exact (Hno _ Hc2 Hin Hseal)].
Qed.

Lemma finalize_seals a b c :
  c ∈ snd (finalize a b) -> seals c = true ->
  forall v, v ∈ b_volumes b -> Phase v <> VolumePhaseSkipped -> swept a b (snd (finalize a b)) v.
Proof.
  unfold finalize. rewrite run_the_backup. case_match; [by intros Hin%elem_of_nil|].
  match goal with |- context [sweepVolumes a ?w (b_volumes b)] => pose proof (sweepVolumes_spec a w (b_volumes b) b) as Hs;
    destruct (sweepVolumes a w (b_volumes b) b) as [[errs b1] l1] eqn:Es end.
  rewrite (run_bind _ _ _ _ _ _ Es). destruct Hs as (-> & Hc & Hs). cbn [fst snd].
  destruct (join_errors errs) as [e|] eqn:Ej.
  - cbn. rewrite app_nil_r. intros Hin Hseal. rewrite Forall_forall in Hc.
    by rewrite (cleaning_no_seal _ (Hc _ Hin)) in Hseal.
  - apply join_errors_None in Ej. intros _ _ v Hv Hn. eapply swept_mono; [|by apply Hs]. set_solver.
Qed.

(** A Backup is declared clean only when it is: the cleaned annotation is
    patched in, and the finalizer taken out, only by a pass that asked for the
    teardown of every volume that could hold one, had no error from any, and, for
    the annotation, then read back no residue in the cluster. *)
Theorem marks_follow_cleanup (a : pass_answers) (b : Backup) (c : call)
    (Hc : c ∈ snd (Reconcile a b)) (Hseal : seals c = true) :
  (forall v, v ∈ b_volumes b -> Phase v <> VolumePhaseSkipped -> swept a b (snd (Reconcile a b)) v)
  /\ (b_deleting b = false -> exposureResidueRemains r a b = "").
Proof.
  revert Hc. unfold BackupPass.Reconcile. rewrite run_the_backup.
  destruct (b_deleting b); [intros Hc; split; [by eapply finalize_seals|done]|].
  destruct (isProjected b); [by intros Hin%elem_of_nil|].
  destruct (negb (hasFinalizer b)).
  - unfold update_backup, bind, modify, the_backup, do_call, ret. cbn. intros Hin%list_elem_of_singleton.
    subst c. cbn in Hseal. by rewrite existsb_app, orb_true_r in Hseal.
  - destruct (isTerminalBackupPhase (b_phase b)) eqn:Et.
    + intros Hc. by destruct (ensureTerminalTeardown_seals a b c Hc Hseal).
    + intros Hc. pose proof (progress_no_seal a b Et) as Hn. rewrite Forall_forall in Hn.
      by rewrite (Hn _ Hc) in Hseal.
Qed.

(** ** What a terminal phase says *)

Lemma ensureVolumes_grows a b sel vols :
  ensureVolumes a b sel = Ok vols ->
  exists more, vols = (b_volumes b ++ more)%list /\ Forall (fun v => Phase v = VolumePhasePending) more.
Proof.
  unfold ensureVolumes. destruct (pa_pvcs a) as [pvcs|]; [|done]. intros [= <-]. eexists. split; [done|].
  by apply Forall_map, Forall_forall.
Qed.

(** A run that failed at the window: no volume has moved. *)
Definition failed_at_window (b b' : Backup) : Prop :=
  b_phase b' = BackupPhaseFailed
  /\ exists more, b_volumes b' = (b_volumes b ++ more)%list /\ Forall (fun v => Phase v = VolumePhasePending) more.

(** A run that went to its end: no volume is in flight, the manifests it asked for
    have a verdict, and the application is released. *)
Definition went_to_the_end (a : pass_answers) (b b' : Backup) : Prop :=
  exists run, resolveRun a b = Ok (Some run) /\ b_phase b' = RollUpVolumePhases (b_volumes b')
    /\ (forall v, v ∈ b_volumes b' -> volumeInFlight v = false)
    /\ (includeManifests run = true -> manifestsSettled b' = true) /\ released a (run_Hooks run) b'.

(** C3. A terminal phase is earned: a pass ends a run either at the freeze window,
    as Failed and with no volume advanced, or when no volume is in flight, the
    capture has a verdict and no release is owed, with the rolled-up phase; either
    way the point in time and the completion time are set. *)
Theorem terminal_earned (a : pass_answers) (b : Backup)
    (Hrun : isTerminalBackupPhase (b_phase b) = false)
    (Hend : isTerminalBackupPhase (b_phase (snd (fst (Reconcile a b)))) = true) :
  let b' := snd (fst (Reconcile a b)) in
  (failed_at_window b b' \/ went_to_the_end a b b')
  /\ st_BackupTime (b_status b') = Some (default (pa_now a) (st_BackupTime (b_status b)))
  /\ st_CompletionTime (b_status b') = Some (default (pa_now a) (st_CompletionTime (b_status b))).
Proof.
  cbv zeta. destruct (Reconcile_cases a b) as [(_ & _ & Hr)|[_ Hs]].
  2: { unfold b_phase in *. rewrite Hs in Hend. congruence. }
  rewrite Hr in Hend |- *. pose proof (progress_progressed a b Hrun) as Hp.
  destruct Hp as [[_ Hv Hf Hb Hc _ _]|run vols Hres Hens [_ Hv Hf Hb Hc _ _]|run rc vols Hres Hens [_ _ Hph Hb Hc _]];
    rewrite Hend in Hb, Hc; (split; [|split; [exact Hb|exact Hc]]).
  - left. split; [by apply Hf|]. exists []. by rewrite app_nil_r.
  - left. split; [by apply Hf|]. rewrite Hv. by apply (ensureVolumes_grows _ _ _ _ Hens).
  - right. destruct (Hph Hend) as (Hroll & Hm & Hrel). exists run. split_and!; try done.
    rewrite Hroll, isTerminal_rollUp, negb_true_iff, existsb_none in Hend. done.
Qed.

(** ** Any sequence of passes *)

(** The values of the volume phase the CRD admits, and the empty one. *)
Definition volumePhases : list string :=
  [""; VolumePhasePending; VolumePhaseSnapshotting; VolumePhaseUploading; VolumePhaseCompleted;
   VolumePhaseSkipped; VolumePhaseFailed].

(** The stored object moves by a pass, with any answers and any fate of its
    writes, by its schedule, which ends a run that has not ended, or by somebody
    else, who leaves the status alone. *)
Inductive happens (b b2 : Backup) : Prop :=
| happens_pass a : commits b (snd (Reconcile a b)) b2 -> happens b b2
| happens_abandoned now evidence :
    isTerminalBackupPhase (b_phase b) = false -> (forall v, v ∈ b_volumes b -> Phase v ∈ volumePhases) ->
    b_status b2 = b_status (abandoned now evidence b) -> happens b b2
| happens_edit : b_status b2 = b_status b -> happens b b2.

(** What a stored status may become. *)
Record history (b b2 : Backup) : Prop := {
  hi_volumes : forall i v, b_volumes b !! i = Some v ->
    exists v2, b_volumes b2 !! i = Some v2 /\ Pvc v2 = Pvc v /\ rtc lifecycle (Phase v) (Phase v2);
  hi_backupTime : forall t, st_BackupTime (b_status b) = Some t -> st_BackupTime (b_status b2) = Some t;
  hi_completionTime : forall t, st_CompletionTime (b_status b) = Some t -> st_CompletionTime (b_status b2) = Some t;
  hi_terminal : isTerminalBackupPhase (b_phase b) = true -> b_status b2 = b_status b;
  hi_stamped : (isTerminalBackupPhase (b_phase b) = true ->
      st_BackupTime (b_status b) <> None /\ st_CompletionTime (b_status b) <> None) ->
    isTerminalBackupPhase (b_phase b2) = true ->
    st_BackupTime (b_status b2) <> None /\ st_CompletionTime (b_status b2) <> None
}.

Lemma history_same b b2 : b_status b2 = b_status b -> history b b2.
Proof.
  intros Hs. unfold b_volumes, b_phase. constructor; unfold b_volumes, b_phase; rewrite ?Hs; try done.
  intros i v Hv. exists v. by split_and!.
Qed.

Lemma history_trans b1 b2 b3 : history b1 b2 -> history b2 b3 -> history b1 b3.
Proof.
  intros [V1 B1 C1 T1 S1] [V2 B2 C2 T2 S2]. constructor; try (by auto).
  - intros i v Hv. destruct (V1 _ _ Hv) as (v2 & Hv2 & Hp2 & Hl2). destruct (V2 _ _ Hv2) as (v3 & Hv3 & Hp3 & Hl3).
    exists v3. split; [done|]. split; [congruence|by etrans].
  - intros Ht. specialize (T1 Ht). rewrite <-T1. apply T2. unfold b_phase. by rewrite T1.
Qed.

(** A pass, seen from the status it ends with. *)
Lemma history_pass a b :
  isTerminalBackupPhase (b_phase b) = false -> Reconcile a b = progress a b ->
  forall b2, b_status b2 = b_status (snd (fst (Reconcile a b))) -> history b b2.
Proof.
  intros Hn Hr b2 Hb2. rewrite Hr in Hb2. pose proof (progress_progressed a b Hn) as Hp.
  assert (forall vols b', (exists more, vols = (b_volumes b ++ more)%list) ->
    (forall i v, vols !! i = Some v -> exists v2, b_volumes b' !! i = Some v2 /\ Pvc v2 = Pvc v
       /\ rtc lifecycle (Phase v) (Phase v2)) ->
    st_BackupTime (b_status b') = stamped a (st_BackupTime (b_status b)) (isTerminalBackupPhase (b_phase b')) ->
    st_CompletionTime (b_status b') = stamped a (st_CompletionTime (b_status b)) (isTerminalBackupPhase (b_phase b')) ->
    b_status b2 = b_status b' -> history b b2) as Hh.
  { intros vols b' [more ->] Hv Hb Hc Hs. unfold b_volumes, b_phase in *. rewrite <-Hs in *.
    constructor; unfold b_volumes, b_phase.
    - intros i v Hi. apply Hv. by apply lookup_app_l_Some.
    - intros t Ht. rewrite Hb, Ht. apply stamped_kept.
    - intros t Ht. rewrite Hc, Ht. apply stamped_kept.
    - congruence.
    - intros _ Ht. by rewrite Hb, Hc, Ht. }
  destruct Hp as [[_ Hv _ Hb Hc _ _]|run vols Hres Hens [_ Hv _ Hb Hc _ _]|run rc vols Hres Hens [_ [td Hv] _ Hb Hc _]].
  - eapply (Hh (b_volumes b)); [by exists []; rewrite app_nil_r| |exact Hb|exact Hc|exact Hb2].
    intros i v Hi. rewrite Hv. exists v. by split_and!.
  - eapply (Hh vols); [|  |exact Hb|exact Hc|exact Hb2].
    + destruct (ensureVolumes_grows _ _ _ _ Hens) as (more & Hm & _). by exists more.
    + intros i v Hi. rewrite Hv. exists v. by split_and!.
  - eapply (Hh vols); [|  |exact Hb|exact Hc|exact Hb2].
    + destruct (ensureVolumes_grows _ _ _ _ Hens) as (more & Hm & _). by exists more.
    + change (b_volumes (set_volumes vols b)) with vols in Hv. intros i v Hi.
      destruct Hv as [[-> _]|(j & w & w' & Hj & -> & Hp & Hl & _)]; [exists v; by split_and!|].
      destruct (decide (i = j)) as [->|Hne].
      * exists w'. rewrite list_lookup_insert_eq by (by eapply lookup_lt_Some).
        assert (w = v) as -> by congruence. split_and!; try done. by apply rtc_once.
      * exists v. by rewrite list_lookup_insert_ne.
Qed.

Lemma terminate_lifecycle v : Phase v ∈ volumePhases -> lifecycle (Phase v) (Phase (terminateVolume v)).
Proof.
  intros Hp. destruct (terminateVolume_spec v) as [_ Hs Hf]. destruct (volumeSettled v) eqn:Es.
  { rewrite Hs by done. constructor. }
  destruct (Hf eq_refl) as [-> _]. unfold volumeSettled in Es.
  repeat (apply elem_of_cons in Hp as [Hp|Hp]); [rewrite Hp in *; try done; by constructor..|by apply elem_of_nil in Hp].
Qed.

Lemma history_abandoned now evidence b b2 :
  isTerminalBackupPhase (b_phase b) = false -> (forall v, v ∈ b_volumes b -> Phase v ∈ volumePhases) ->
  b_status b2 = b_status (abandoned now evidence b) -> history b b2.
Proof.
  intros Hn Hp Hs. destruct (abandoned_times now evidence b) as [Hb Hc].
  pose proof (abandoned_volumes now evidence b) as Hv. unfold b_volumes, b_phase in *. rewrite <-Hs in *.
  constructor; unfold b_volumes, b_phase.
  - intros i v Hi. exists (terminateVolume v). rewrite Hv, list_lookup_fmap, Hi. split; [done|].
    split; [apply terminateVolume_spec|]. apply rtc_once, terminate_lifecycle, Hp. by eapply list_elem_of_lookup_2.
  - intros t Ht. by rewrite Hb, Ht.
  - intros t Ht. by rewrite Hc, Ht.
  - congruence.
  - intros _ _. by rewrite Hb, Hc.
Qed.

Lemma history_step b b2 : happens b b2 -> history b b2.
Proof.
  intros [a Hc|now evidence Hn Hp Hs|Hs]; [|by eapply history_abandoned|by apply history_same].
  destruct (Reconcile_cases a b) as [(_ & Hn & Hr)|[Hno Hs]].
  - assert (forall s acc, CStatusUpdate s acc ∈ snd (Reconcile a b) -> s = b_status (snd (fst (Reconcile a b)))) as Hone.
    { rewrite Hr. intros s acc Hin.
      destruct (progress_progressed a b Hn) as [Hi|run vols _ _ Hi|run rc vols _ _ Hd];
        [by eapply (in_written _ _ _ _ Hi)..|].
      destruct Hd as [_ _ _ _ _ (work & acc' & rest & Hcalls & Hwork & Hrest & _)]. rewrite Hcalls in Hin.
      apply elem_of_app in Hin as [Hin|[Hin|[Hin|Hin]%elem_of_app]%elem_of_cons].
      - by destruct (careful_not _ _ _ Hwork Hin) as [|[]].
      - congruence.
      - destruct (acc' && _); [apply list_elem_of_singleton in Hin|apply elem_of_nil in Hin]; done.
      - rewrite Forall_forall in Hrest. by destruct (Hrest _ Hin). }
    destruct (commits_one_status _ _ _ _ Hone Hc) as [Hb|Hb]; [by apply history_same|by eapply history_pass].
  - apply history_same.
    destruct (commits_one_status (b_status b) (snd (Reconcile a b)) b b2) as [Hb|Hb]; [|done..].
    intros s acc Hin. rewrite Forall_forall in Hno. by specialize (Hno _ Hin).
Qed.

(** C2. Over any sequence of passes, lost answers and abandonments: no volume is
    forgotten, each moves along its lifecycle, a time once stamped stays, a
    terminal status is final, and a run that started unfinished has both times
    whenever it is terminal. *)
Theorem run_history (b b2 : Backup) (Hruns : rtc happens b b2) : history b b2.
Proof.
  induction Hruns as [b|b b1 b2 Hb _ IH]; [by apply history_same|].
  by eapply history_trans; [apply history_step|].
Qed.
End Theorems.

(** ** Concrete passes *)

Definition wit_run_spec : BackupRunSpec :=
  mkBackupRunSpec (mkPVCSelector ∅ [] []) (Some false) false (mkHooksSpec false [] [] "") 0 2.

(** A run of a Backup of namespace [ns] on its BackupLocation [location]. *)
Definition wit_run_backup (ns location : string) (phase : string) (vols : list VolumeStatus)
    : @Backup MapConditionStore :=
  @mkBackup MapConditionStore ns "nightly" 1 0 false ∅ ∅ [FinalizerBackup]
    (mkBackupSpec "daily" kindBackupLocation location (Some wit_run_spec))
    (@mkBackupStatus MapConditionStore phase None None None vols [] 0 ∅).

Definition wit_hook_answers : hook_answers := mkHookAnswers (5 * hour) (Ok []) None None.

Definition wit_pass (loc : @BackupLocation MapConditionStore) (repos : repositories)
    : @pass_answers MapConditionStore :=
  @mkPassAnswers MapConditionStore (fun _ => Err wit_notFound) (Ok loc) (Err wit_notFound)
    (getRepository None repos) None (Ok ∅) (Ok []) wit_answers (wit_manifest_answers (mkJob "j" ∅ 0 None 0 0 []))
    wit_hook_answers (Err wit_notFound) (fun _ => None) (Ok []) (fun _ => Ok []) (Ok []) None None.

Notation wit_Reconcile a b :=
  (Reconcile (CS := MapConditionStore) wit_unmarshal id (fun _ => None) (fun _ => None) (fun _ => None)
     wit_reconciler wit_manifestConfig a b).

Definition wit_pinned : @BackupLocation MapConditionStore := set_bl_clusterID "prod" wit_location.

(** A pass in which the mover of the only volume is found finished. *)
Definition wit_a : @pass_answers MapConditionStore := wit_pass wit_pinned wit_repositories.
Definition wit_b : @Backup MapConditionStore :=
  wit_run_backup "team" "offsite" BackupPhaseUploading [wit_vol VolumePhaseUploading (Some 0%Z)].
Definition wit_calls : list (@call MapConditionStore) := snd (wit_Reconcile wit_a wit_b).

(** The repository of one location can serve the Backups of another: the names
    of repositories are not injective, the BackupLocation controller refuses the
    second location for that reason, and still a Backup on it is given the first
    one's repository and URL, since the pass checks no back-link. *)
Theorem foreign_repository_used :
  exists (owner loc : @BackupLocation MapConditionStore) repos repo b run,
    bl_Namespace owner <> bl_Namespace loc /\ b_namespace b = bl_Namespace loc
    /\ repos !! namespacedRepositoryName (bl_Namespace loc) (bl_Name loc) = Some repo
    /\ ownedBy owner repo = true
    /\ bl_Phase (lp_loc (reconcileLocation wit_location_answers loc repos)) = locationPhaseDegraded
    /\ match resolveRunContext wit_reconciler
               (wit_pass (lp_loc (reconcileLocation wit_location_answers loc repos)) repos) run b with
       | (inl rc, _, _) => rc_repoName rc = br_Name repo /\ rc_repoURL rc = br_RepositoryURL repo
                           /\ rc_credsNamespace rc = bl_Namespace loc
       | _ => False
       end.
Proof.
  set (at_ ns name := @mkBackupLocation MapConditionStore ns name 1 false [FinalizerLocation] "h:9000" "creds" false "prod"
    None wit_retention "" "" "" ∅).
  set (repo := mkBackupRepository "a--b--c" (repositoryBackLinkLabels "a--b" "c") None true "s3:h/a--b").
  exists (at_ "a--b" "c"), (at_ "a" "b--c"), {["a--b--c" := repo]}, repo,
    (wit_run_backup "a" "b--c" "" []), wit_run_spec.
  split; [discriminate|]. split; [reflexivity|]. split; [reflexivity|]. split; [reflexivity|].
  split; [reflexivity|]. vm_compute. done.
Qed.

(** A run whose database is frozen, whose volume was tried once, and whose location
    has been gone for nine hours since. *)
Definition wit_frozen_spec : BackupRunSpec :=
  mkBackupRunSpec (mkPVCSelector ∅ [] []) (Some false) false
    (mkHooksSpec false [mkHook (mkLabelSelector ∅ []) "" ["freeze"] minute ""]
       [mkHook (mkLabelSelector ∅ []) "" ["thaw"] minute ""] "hooks") 0 2.

Definition wit_frozen : @Backup MapConditionStore :=
  @mkBackup MapConditionStore "team" "nightly" 1 0 false ∅ ∅ [FinalizerBackup]
    (mkBackupSpec "daily" kindBackupLocation "offsite" (Some wit_frozen_spec))
    (@mkBackupStatus MapConditionStore BackupPhasePending None None None
      [mkVolumeStatus "data" "" 0 0 VolumePhasePending "" "" (Some hour) None]
      [mkHookStatus PhasePre "db-0" "" SourceSpec HookSucceeded HookErrorPolicyFail "" None] 0 ∅).

Definition wit_gone : @pass_answers MapConditionStore :=
  @mkPassAnswers MapConditionStore (fun _ => Err wit_notFound) (Err wit_notFound) (Err wit_notFound)
    (getRepository None ∅) None (Ok ∅) (Ok []) wit_answers (wit_manifest_answers (mkJob "j" ∅ 0 None 0 0 []))
    wit_hook_answers (Err wit_notFound) (fun _ => None) (Ok []) (fun _ => Ok []) (Ok []) None None.

Definition runsHook (c : @call MapConditionStore) : bool := match c with CHook _ _ => true | _ => false end.

(** A run given up while its freeze window is open is never released: there is a
    run with a quiesced pod and a post hook owed, which a pass over a missing
    location leaves frozen, which the schedule's verdict abandons, and over which,
    once ended, no pass ever runs a hook again, whatever it is answered. *)
Theorem abandoned_never_thawed :
  let b := wit_frozen in
  let now := (10 * hour)%Z in
  quiescedPodsFromStatus b = ["db-0"] /\ postHooksRan b = false
  /\ existsb runsHook (snd (wit_Reconcile wit_gone b)) = false
  /\ snd (backupAbandonment b now pendingResolveDeadline scheduleAbandonmentGrace) = true
  /\ forall a b b2 now evidence c, b_status b2 = b_status (abandoned now evidence b) ->
       c ∈ snd (wit_Reconcile a b2) -> runsHook c = false.
Proof.
  cbv zeta. split_and!; [by vm_compute..|]. intros a b b2 now evidence c Hs Hc.
  assert (isTerminalBackupPhase (b_phase b2) = true) as Ht.
  { unfold b_phase. rewrite Hs. apply (abandoned_terminal now evidence b). }
  destruct (Reconcile_cases wit_unmarshal id (fun _ => None) (fun _ => None) (fun _ => None)
    wit_reconciler wit_manifestConfig a b2) as [(_ & Hn & _)|[Hl _]]; [congruence|].
  rewrite Forall_forall in Hl. specialize (Hl c Hc). by destruct c.
Qed.

(** ** Witnesses *)


Lemma terminal_earned_witness :
  let b' := snd (fst (wit_Reconcile wit_a wit_b)) in
  b_phase b' = BackupPhaseCompleted
  /\ st_BackupTime (b_status b') = Some (default (pa_now wit_a) (st_BackupTime (b_status wit_b))).
Proof.
  cbv zeta. split; [by vm_compute|].
  apply (terminal_earned (CS := MapConditionStore) wit_unmarshal id (fun _ => None) (fun _ => None) (fun _ => None)
    wit_reconciler wit_manifestConfig wit_a wit_b); by vm_compute.
Defined.

(** The next pass over that Backup: the sweep, and the mark. *)
Definition wit_ended : @Backup MapConditionStore :=
  wit_run_backup "team" "offsite" BackupPhaseCompleted [wit_vol VolumePhaseCompleted (Some 0%Z)].

Lemma marks_follow_cleanup_witness :
  (forall v, v ∈ b_volumes wit_ended -> Phase v <> VolumePhaseSkipped ->
     swept wit_a wit_ended (snd (wit_Reconcile wit_a wit_ended)) v)
  /\ (b_deleting wit_ended = false -> exposureResidueRemains wit_reconciler wit_a wit_ended = "").
Proof.
  apply (marks_follow_cleanup (CS := MapConditionStore) wit_unmarshal id (fun _ => None) (fun _ => None)
    (fun _ => None) wit_reconciler wit_manifestConfig wit_a wit_ended
    (CPatchAnnotation AnnotationExposuresCleaned AnnotationExposuresCleanedValue true)); [|reflexivity].
  apply (list_elem_of_lookup_2 _ 4). by vm_compute.
Defined.

Lemma run_history_witness :
  exists b2, b_phase b2 = BackupPhaseCompleted /\ history wit_b b2.
Proof.
  exists (replay wit_b wit_calls). split; [by vm_compute|].
  apply (run_history (CS := MapConditionStore) wit_unmarshal id (fun _ => None) (fun _ => None) (fun _ => None)
    wit_reconciler wit_manifestConfig).
  apply rtc_once, (happens_pass _ _ _ _ _ _ _ _ _ wit_a). exact (commits_replay wit_calls wit_b).
Defined.

Lemma abandoned_never_thawed_witness :
  runsHook (CTeardownExposure (CS := MapConditionStore) (moverNamePrefix "team" "nightly" "data")) = false.
Proof.
  apply (abandoned_never_thawed) with (a := wit_a) (b := wit_frozen) (now := (10 * hour)%Z)
    (b2 := abandoned (10 * hour)%Z "e" wit_frozen) (evidence := "e").
  - reflexivity.
  - apply (list_elem_of_lookup_2 _ 0). by vm_compute.
Defined.
