(* ===== verification/ScheduleController.v ===== *)
(** * ScheduleController: one reconcile of a BackupSchedule
    (internal/controller/backupschedule_controller.go)

    A pass lists the schedule's Backups, computes the tick that is due from the
    newest one it already fired, skips it behind a run that still works or terminates
    the abandoned ones, stamps a Backup for it, and writes the status. *)

From S2P Require Import Prelude GoText Cluster Selectors Names Status VolumeMachine Backup Hooks.
From S2P Require Import Calendar Schedule Abandonment Location BackupPass.
From Stdlib Require Import Ascii String.

#[local] Open Scope string_scope.

Definition scheduleJitterWindow : Z := (60 * second)%Z.
Definition scheduleMinRequeue : Z := (5 * second)%Z.
Definition scheduleMaxRequeue : Z := (60 * second)%Z.
Definition OriginCluster : string := "cluster".
Definition OriginNamespace : string := "namespace".
Definition reasonRunNameCollision : string := "RunNameCollision".

Definition clampDuration (d lo hi : Z) : Z := if (d <? lo)%Z then lo else if (hi <? d)%Z then hi else d.

Section Controller.
Context `{CS : ConditionStore}.

(** ** The object *)

Record BackupScheduleSpec := mkBackupScheduleSpec {
  sc_LocationName : string;
  sc_Schedule : string;
  sc_Timezone : string;
  sc_Paused : bool;
  sc_Jitter : bool;
  sc_StartingDeadlineSeconds : option Z;
  sc_PVCSelector : PVCSelector;
  sc_IncludeManifests : option bool;
  sc_ExcludeSecretData : bool;
  sc_Hooks : HooksSpec;
  sc_BackoffLimit : Z
}.

Record BackupScheduleStatus := mkBackupScheduleStatus {
  sh_Phase : string;
  sh_LastRunName : string;
  sh_LastSuccessTime : option Z;
  sh_NextScheduleTime : option Z;
  sh_Conditions : conditions
}.

Record BackupSchedule := mkBackupSchedule {
  sd_Namespace : string;
  sd_Name : string;
  sd_UID : string;
  sd_Created : Z;
  sd_Generation : Z;
  sd_Spec : BackupScheduleSpec;
  sd_Status : BackupScheduleStatus
}.

Definition set_sd_status (s : BackupScheduleStatus) (sched : BackupSchedule) : BackupSchedule :=
  mkBackupSchedule (sd_Namespace sched) (sd_Name sched) (sd_UID sched) (sd_Created sched) (sd_Generation sched)
    (sd_Spec sched) s.

(** The object a stamp creates. *)
Record newBackup := mkNewBackup {
  nb_Namespace : string;
  nb_Name : string;
  nb_Labels : labels;
  nb_Annotations : labels;
  nb_Spec : BackupSpec
}.

(** ** Answers and calls *)

Record schedule_answers := mkScheduleAnswers {
  sa_now : Z;                                      (* Clock.Now *)
  sa_backups : result (list Backup);               (* List: the Backups with this schedule's label *)
  sa_parse : string -> string -> result Schedule;  (* schedule.Parse *)
  sa_terminate : string -> option gerr;            (* Status().Update of a Backup *)
  sa_create : option gerr;                         (* Create of the Backup *)
  sa_existing : result Backup;                     (* Get of the Backup in the way *)
  sa_patch : option gerr;                          (* Patch of its annotation *)
  sa_update : option gerr                          (* Status().Update of the schedule *)
}.

Inductive schedule_call :=
| SBackup (name : string) (c : call)                  (* made on an existing Backup *)
| SCreate (b : newBackup) (accepted : bool)
| SAdopt (name : string) (annotation : string) (accepted : bool)
| SStatus (s : BackupScheduleStatus) (accepted : bool)
| SEvent (etype reason action : string).

(** [equality.Semantic.DeepEqual], of apimachinery. *)
Variable DeepEqual : BackupScheduleStatus -> BackupScheduleStatus -> bool.

Variable a : schedule_answers.

Definition accepted (err : option gerr) : bool := match err with None => true | Some _ => false end.

(** ** Reading *)

Definition listBackups : result (list Backup) :=
  match sa_backups a with
  | Err e => Err e
  | Ok items => Ok (List.filter (fun b => negb (lget (b_labels b) LabelOrigin =? OriginCluster)) items)
  end.

Definition laterTick (scheduleName : string) (baseline : Z) (runName : string) : Z :=
  match parseRunTick scheduleName runName with
  | Some t => if time_after t baseline then t else baseline
  | None => baseline
  end.

Definition baselineTick (sched : BackupSchedule) (backups : list Backup) : Z :=
  fold_left (fun baseline b => laterTick (sd_Name sched) baseline (b_name b)) backups
    (laterTick (sd_Name sched) (sd_Created sched) (sh_LastRunName (sd_Status sched))).

Definition activeBackups (backups : list Backup) : list Backup :=
  List.filter (fun b => negb (lget (b_annotations b) AnnotationProjected =? AnnotationProjectedValue)
                        && negb (isTerminalBackupPhase (b_phase b))) backups.

(** ** Overlap *)

Definition verdict (b : Backup) : string * bool :=
  backupAbandonment b (sa_now a) pendingResolveDeadline scheduleAbandonmentGrace.

(** The terminations, up to the first whose write fails. *)
Fixpoint terminateAll (verdicts : list (Backup * string)) : option gerr * list schedule_call :=
  match verdicts with
  | [] => (None, [])
  | (b, evidence) :: verdicts =>
      let '(err, _, calls) := terminateAbandonedBackup (sa_now a) (sa_terminate a (b_name b)) evidence b in
      let calls := map (SBackup (b_name b)) calls in
      match err with
      | Some e => (Some e, calls)
      | None =>
          let '(err, rest) := terminateAll verdicts in
          (err, calls ++ SEvent EventTypeWarning "AbandonedRunTerminated" "TerminateAbandonedRun" :: rest)%list
      end
  end.

(** Whether the tick is blocked. *)
Definition resolveOverlap (backups : list Backup) : result bool * list schedule_call :=
  let active := activeBackups backups in
  if forallb (fun b => snd (verdict b)) active then
    let '(err, calls) := terminateAll (map (fun b => (b, fst (verdict b))) active) in
    (match err with Some e => Err e | None => Ok false end, calls)
  else (Ok true, [SEvent EventTypeWarning "ConcurrencySkip" "SkipRun"]).

(** ** Stamping *)

Record runNameCollisionError := mkRunNameCollisionError {
  rc_Namespace : string;
  rc_Name : string;
  rc_Detail : string;
  rc_Facts : string;
  rc_Reason : string;
  rc_HasData : bool
}.

Definition collisionError (e : runNameCollisionError) : string :=
  let facts := if rc_Facts e =? "" then "" else "[" ++ rc_Facts e ++ "]" in
  reasonRunNameCollision ++ facts
    ++ ": nothing was backed up here — this run name already designates data this run did not write. "
    ++ "Re-run under a name no earlier run or schedule has used (both planes build run names "
    ++ "identically). Occupant: " ++ rc_Namespace e ++ "/" ++ rc_Name e ++ ", " ++ rc_Detail e.

Inductive stamp_result :=
| Stamped (name : string)
| Collision (e : runNameCollisionError)
| StampError (e : gerr).

Definition backupRunSpecFrom (spec : BackupScheduleSpec) : BackupRunSpec :=
  mkBackupRunSpec (sc_PVCSelector spec) (sc_IncludeManifests spec) (sc_ExcludeSecretData spec) (sc_Hooks spec)
    0 (sc_BackoffLimit spec).

Definition stampedBackup (sched : BackupSchedule) (tick : Z) : newBackup :=
  mkNewBackup (sd_Namespace sched) (RunName (sd_Name sched) tick)
    (<[LabelSchedule := sd_Name sched]> (<[LabelOrigin := OriginNamespace]>
      (<[LabelNamespace := sd_Namespace sched]> ∅)))
    (<[AnnotationParentUID := sd_UID sched]> ∅)
    (mkBackupSpec (sd_Name sched) kindBackupLocation (sc_LocationName (sd_Spec sched))
      (Some (backupRunSpecFrom (sd_Spec sched)))).

Definition stampBackup (sched : BackupSchedule) (tick : Z) : stamp_result * list schedule_call :=
  let name := RunName (sd_Name sched) tick in
  let backup := stampedBackup sched tick in
  let created := SCreate backup (accepted (sa_create a)) in
  match sa_create a with
  | None => (Stamped name, [created; SEvent "Normal" "BackupStamped" "StampBackup"])
  | Some e =>
      if negb (IsAlreadyExists e)
      then (StampError (wrap_err ("create Backup " ++ sd_Namespace sched ++ "/" ++ name) e), [created])
      else
        match sa_existing a with
        | Err ge =>
            (StampError (wrap_err ("re-read Backup " ++ sd_Namespace sched ++ "/" ++ name ++ " after AlreadyExists") ge),
             [created])
        | Ok existing =>
            let '(owner, reason) := classifyCoordinate existing (sd_UID sched) (sd_Created sched) in
            match owner with
            | coordinateMine => (Stamped name, [created])
            | coordinateAdoptable =>
                let calls := [created; SAdopt name (sd_UID sched) (accepted (sa_patch a))] in
                match sa_patch a with
                | Some pe =>
                    (StampError (wrap_err ("stamp parent UID on Backup " ++ sd_Namespace sched ++ "/" ++ name) pe), calls)
                | None => (Stamped name, calls)
                end
            | coordinateForeign =>
                (Collision (mkRunNameCollisionError (sd_Namespace sched) name (cr_Detail reason) (Facts reason)
                   (cr_Code reason) (cr_HasResults reason)), [created])
            end
        end
  end.

(** ** The summary *)

Definition newestRun (scheduleName : string) (backups : list Backup) (lastRunName : string) : string :=
  snd (fold_left (fun acc b =>
      match parseRunTick scheduleName (b_name b) with
      | Some t => if time_after t (fst acc) then (t, b_name b) else acc
      | None => acc
      end) backups (zero_time, lastRunName)).

Definition lastSuccess (backups : list Backup) (last : option Z) : option Z :=
  fold_left (fun last b =>
      match st_BackupTime (b_status b) with
      | Some t =>
          if backupSucceeded (b_phase b)
             && match last with None => true | Some l => time_after t l end
          then Some t else last
      | None => last
      end) backups last.

Definition applyBackupSummary (sched : BackupSchedule) (backups : list Backup) (stampedName : string)
    (nextFire : Z) : BackupSchedule :=
  let s := sd_Status sched in
  set_sd_status
    (mkBackupScheduleStatus (sh_Phase s)
      (if stampedName =? "" then newestRun (sd_Name sched) backups (sh_LastRunName s) else stampedName)
      (lastSuccess backups (sh_LastSuccessTime s)) (Some nextFire) (sh_Conditions s)) sched.

(** ** The pass *)

(** What a pass leaves: its result, the schedule in memory, its calls. *)
Record schedule_pass := mkSchedulePass {
  ss_result : Result * option gerr;
  ss_sched : BackupSchedule;
  ss_calls : list schedule_call
}.

(** [original] is the status the pass started from. *)
Definition writeScheduleStatus (original : BackupScheduleStatus) (sched : BackupSchedule) (calls : list schedule_call)
    (phase ready reason message : string) (res : Result) : schedule_pass :=
  let s := sd_Status sched in
  let s := mkBackupScheduleStatus phase (sh_LastRunName s) (sh_LastSuccessTime s) (sh_NextScheduleTime s)
             (SetCondition (sh_Conditions s) ConditionReady ready reason message (sd_Generation sched)) in
  let sched := set_sd_status s sched in
  if DeepEqual original s then mkSchedulePass (res, None) sched calls
  else
    let calls := (calls ++ [SStatus s (accepted (sa_update a))])%list in
    match sa_update a with
    | Some e => mkSchedulePass (noResult, Some (wrap_err ("update status for BackupSchedule "
                  ++ sd_Namespace sched ++ "/" ++ sd_Name sched) e)) sched calls
    | None => mkSchedulePass (res, None) sched calls
    end.

Definition scheduleOffset (sched : BackupSchedule) : Z :=
  if sc_Jitter (sd_Spec sched) then JitterOffset (sd_UID sched) scheduleJitterWindow else 0.

Definition scheduleDeadline (sched : BackupSchedule) : option Z :=
  option_map durationSeconds (sc_StartingDeadlineSeconds (sd_Spec sched)).

(** The end of a pass that was not cut short. *)
Definition finishSchedule (sched : BackupSchedule) (cronSched : Schedule) (backups : list Backup)
    (stampedName : string) (calls : list schedule_call) : schedule_pass :=
  let now := sa_now a in
  let offset := scheduleOffset sched in
  let nextFire := (Next cronSched (now - offset) + offset)%Z in
  let requeue := clampDuration (time_sub nextFire now) scheduleMinRequeue scheduleMaxRequeue in
  writeScheduleStatus (sd_Status sched) (applyBackupSummary sched backups stampedName nextFire) calls
    "Active" ConditionTrue "Scheduled" ("schedule active; next backup at " ++ FormatRFC3339 nextFire)
    (RequeueAfter requeue).

Definition dueTick (sched : BackupSchedule) (cronSched : Schedule) (backups : list Backup) : option Z :=
  DueTick cronSched (baselineTick sched backups) (sa_now a - scheduleOffset sched)%Z (scheduleDeadline sched).

(** The tick: overlap, then the stamp. *)
Definition fireTick (sched : BackupSchedule) (cronSched : Schedule) (backups : list Backup) (tick : Z)
    : schedule_pass :=
  let '(blocked, calls) := resolveOverlap backups in
  match blocked with
  | Err e => mkSchedulePass (noResult, Some e) sched calls
  | Ok true => finishSchedule sched cronSched backups "" calls
  | Ok false =>
      let '(stamp, calls') := stampBackup sched tick in
      let calls := (calls ++ calls')%list in
      match stamp with
      | Collision c =>
          writeScheduleStatus (sd_Status sched) sched
            (calls ++ [SEvent EventTypeWarning reasonRunNameCollision "StampBackup"])%list
            reasonRunNameCollision ConditionFalse reasonRunNameCollision (clampMessage (collisionError c))
            (RequeueAfter shortRequeueInterval)
      | StampError e => mkSchedulePass (noResult, Some e) sched calls
      | Stamped name => finishSchedule sched cronSched backups name calls
      end
  end.

Definition reconcileSchedule (sched : BackupSchedule) : schedule_pass :=
  if sc_Paused (sd_Spec sched) then
    writeScheduleStatus (sd_Status sched) sched [] "Paused" ConditionFalse "Paused"
      "schedule is paused; no backups are stamped" noResult
  else
    match listBackups with
    | Err e => mkSchedulePass (noResult, Some (wrap_err ("list backups for schedule " ++ sd_Namespace sched ++ "/"
                 ++ sd_Name sched) e)) sched []
    | Ok backups =>
        match sa_parse a (sc_Schedule (sd_Spec sched)) (sc_Timezone (sd_Spec sched)) with
        | Err e => writeScheduleStatus (sd_Status sched) sched [] "InvalidSchedule" ConditionFalse "InvalidSchedule"
                     (err_text e) noResult
        | Ok cronSched =>
            match dueTick sched cronSched backups with
            | Some tick => fireTick sched cronSched backups tick
            | None => finishSchedule sched cronSched backups "" []
            end
        end
    end.
End Controller.

(** ** What a pass may do *)

Section Theorems.
Context {CS : ConditionStore} {CSL : ConditionStoreLaws CS}.
Variable DeepEqual : BackupScheduleStatus -> BackupScheduleStatus -> bool.
Variable a : schedule_answers.

Notation reconcileSchedule := (reconcileSchedule DeepEqual a).
Notation fireTick := (fireTick DeepEqual a).
Notation finishSchedule := (finishSchedule DeepEqual a).
Notation writeScheduleStatus := (writeScheduleStatus DeepEqual a).
Notation resolveOverlap := (resolveOverlap a).
Notation verdict := (verdict a).
Notation stampBackup := (stampBackup a).

(** A call that touches no Backup. *)
Definition onSchedule (c : schedule_call) : bool :=
  match c with SStatus _ _ | SEvent _ _ _ => true | _ => false end.

Lemma writeScheduleStatus_calls original sched calls phase ready reason message res :
  exists rest, ss_calls (writeScheduleStatus original sched calls phase ready reason message res) = (calls ++ rest)%list
    /\ forall c, c ∈ rest -> onSchedule c = true.
Proof.
  unfold ScheduleController.writeScheduleStatus. cbv zeta. destruct (DeepEqual _ _).
  { exists []. cbn. rewrite app_nil_r. split; [done|]. by intros c ?%elem_of_nil. }
  destruct (sa_update a); eexists; (split; [reflexivity|]); by intros c ->%list_elem_of_singleton.
Qed.

Lemma finishSchedule_calls sched cronSched backups name calls :
  exists rest, ss_calls (finishSchedule sched cronSched backups name calls) = (calls ++ rest)%list
    /\ forall c, c ∈ rest -> onSchedule c = true.
Proof. apply writeScheduleStatus_calls. Qed.

Lemma fireTick_calls sched cronSched backups tick :
  exists rest, (forall c, c ∈ rest -> onSchedule c = true)
    /\ ss_calls (fireTick sched cronSched backups tick)
       = (snd (resolveOverlap backups)
          ++ (match fst (resolveOverlap backups) with Ok false => snd (stampBackup sched tick) | _ => [] end)
          ++ rest)%list.
Proof.
  unfold ScheduleController.fireTick. destruct (resolveOverlap backups) as [[[]|e] calls]; cbn [fst snd].
  - destruct (finishSchedule_calls sched cronSched backups "" calls) as (rest & -> & Hr). exists rest. by split.
  - destruct (stampBackup sched tick) as [[name|c|e] calls']; cbn [snd].
    + destruct (finishSchedule_calls sched cronSched backups name (calls ++ calls')) as (rest & -> & Hr).
      exists rest. split; [done|]. by rewrite <-app_assoc.
    + match goal with |- context [writeScheduleStatus ?o ?s ?l ?p ?r ?re ?m ?q] =>
        destruct (writeScheduleStatus_calls o s l p r re m q) as (rest & -> & Hr) end.
      exists (SEvent EventTypeWarning reasonRunNameCollision "StampBackup" :: rest). split.
      * intros c' [->|Hc]%elem_of_cons; [done|by apply Hr].
      * by rewrite <-!app_assoc.
    + exists []. cbn. split; [by intros c ?%elem_of_nil|]. by rewrite app_nil_r.
  - exists []. cbn. split; [by intros c ?%elem_of_nil|]. by rewrite !app_nil_r.
Qed.

(** A pass that touches a Backup at all has a tick due. *)
Lemma reconcileSchedule_fires sched c :
  c ∈ ss_calls (reconcileSchedule sched) -> onSchedule c = false ->
  exists backups cronSched tick,
    sc_Paused (sd_Spec sched) = false /\ listBackups a = Ok backups
    /\ sa_parse a (sc_Schedule (sd_Spec sched)) (sc_Timezone (sd_Spec sched)) = Ok cronSched
    /\ dueTick a sched cronSched backups = Some tick
    /\ reconcileSchedule sched = fireTick sched cronSched backups tick.
Proof.
  unfold ScheduleController.reconcileSchedule. intros Hc Hn.
  destruct (sc_Paused (sd_Spec sched)) eqn:Ep.
  { match type of Hc with context [writeScheduleStatus ?o ?s ?l ?p ?r ?re ?m ?q] =>
      destruct (writeScheduleStatus_calls o s l p r re m q) as (rest & Hr & Hs) end.
    rewrite Hr in Hc. by rewrite (Hs _ Hc) in Hn. }
  destruct (listBackups a) as [backups|e] eqn:El; [|by apply elem_of_nil in Hc].
  destruct (sa_parse a _ _) as [cronSched|e] eqn:Es.
  2: { match type of Hc with context [writeScheduleStatus ?o ?s ?l ?p ?r ?re ?m ?q] =>
         destruct (writeScheduleStatus_calls o s l p r re m q) as (rest & Hr & Hs) end.
       rewrite Hr in Hc. by rewrite (Hs _ Hc) in Hn. }
  destruct (dueTick a sched cronSched backups) as [tick|] eqn:Ed.
  - by exists backups, cronSched, tick.
  - destruct (finishSchedule_calls sched cronSched backups "" []) as (rest & Hr & Hs).
    rewrite Hr in Hc. by rewrite (Hs _ Hc) in Hn.
Qed.

(** The write that ends an abandoned run. *)
Definition ending (b : Backup) (ok : bool) : schedule_call :=
  SBackup (b_name b) (CStatusUpdate (b_status (abandoned (sa_now a) (fst (verdict b)) b)) ok).

Lemma terminate_calls b evidence :
  exists err b' rest, terminateAbandonedBackup (sa_now a) (sa_terminate a (b_name b)) evidence b
    = (err, b', CStatusUpdate (b_status (abandoned (sa_now a) evidence b))
                  (accepted (sa_terminate a (b_name b))) :: rest)
    /\ (err = None -> accepted (sa_terminate a (b_name b)) = true)
    /\ (forall c, c ∈ rest -> exists x y z, c = CEvent x y z).
Proof.
  unfold terminateAbandonedBackup, bind, modify, status_update, the_backup, do_call, ret, accepted.
  destruct (sa_terminate a (b_name b)); cbn -[abandoned]; do 3 eexists; (split; [reflexivity|]);
    (split; [done|]); [by intros c ?%elem_of_nil|]. intros c ->%list_elem_of_singleton. by do 3 eexists.
Qed.

(** Every call on a Backup is the end of a run of the list. *)
Lemma terminateAll_calls bs name c :
  SBackup name c ∈ snd (terminateAll a (map (fun b => (b, fst (verdict b))) bs)) ->
  (exists b ok, b ∈ bs /\ SBackup name c = ending b ok) \/ (exists x y z, c = CEvent x y z).
Proof.
  induction bs as [|b bs IH]; cbn [map terminateAll snd]; [by intros ?%elem_of_nil|].
  destruct (terminate_calls b (fst (verdict b))) as (err & b' & rest & -> & _ & Hr).
  assert (forall l, SBackup name c ∈ (map (SBackup (b_name b))
      (CStatusUpdate (b_status (abandoned (sa_now a) (fst (verdict b)) b)) (accepted (sa_terminate a (b_name b))) :: rest)
      ++ l)%list ->
    (exists b1 ok, b1 ∈ b :: bs /\ SBackup name c = ending b1 ok) \/ (exists x y z, c = CEvent x y z)
    \/ SBackup name c ∈ l) as Hhere.
  { intros l [(c' & Heq & [->|Hin]%elem_of_cons)%list_elem_of_fmap|Hin]%elem_of_app.
    - left. exists b. eexists. split; [left|]. exact Heq.
    - right. left. injection Heq as -> ->. by apply Hr.
    - by right; right. }
  destruct err as [e|].
  - cbn [snd]. intros Hin. rewrite <-(app_nil_r (map _ _)) in Hin.
    destruct (Hhere [] Hin) as [?|[?|?%elem_of_nil]]; auto. done.
  - destruct (terminateAll a _) as [err rest'] eqn:Et. cbn [snd] in *. intros Hin.
    destruct (Hhere _ Hin) as [?|[?|[?|Hin']%elem_of_cons]]; [by left|by right|done|].
    destruct (IH Hin') as [(b1 & ok & Hb & Heq)|?]; [|by right]. left. exists b1, ok. split; [by right|done].
Qed.

(** When none failed, all ended. *)
Lemma terminateAll_all bs b :
  fst (terminateAll a (map (fun b => (b, fst (verdict b))) bs)) = None -> b ∈ bs ->
  ending b true ∈ snd (terminateAll a (map (fun b => (b, fst (verdict b))) bs)).
Proof.
  induction bs as [|b1 bs IH]; [by intros _ ?%elem_of_nil|]. cbn [map terminateAll].
  destruct (terminate_calls b1 (fst (verdict b1))) as (err & b' & rest & -> & Herr & _).
  destruct err as [e|]; [done|]. destruct (terminateAll a _) as [err rest']. cbn [fst snd] in *.
  intros He [->|Hb]%elem_of_cons; apply elem_of_app.
  - left. unfold ending. rewrite <-(Herr eq_refl). by left.
  - right. right. by apply IH.
Qed.

(** A creation, or the adoption of what was in the way. *)
Definition starts (c : schedule_call) : bool :=
  match c with SCreate _ _ | SAdopt _ _ _ => true | _ => false end.

Lemma resolveOverlap_cases backups :
  (fst (resolveOverlap backups) = Ok true /\ snd (resolveOverlap backups) = [SEvent EventTypeWarning "ConcurrencySkip" "SkipRun"])
  \/ ((forall b, b ∈ activeBackups backups -> snd (verdict b) = true)
      /\ snd (resolveOverlap backups) = snd (terminateAll a (map (fun b => (b, fst (verdict b))) (activeBackups backups)))
      /\ (fst (resolveOverlap backups) = Ok false ->
          fst (terminateAll a (map (fun b => (b, fst (verdict b))) (activeBackups backups))) = None)).
Proof.
  unfold ScheduleController.resolveOverlap.
  destruct (forallb _ _) eqn:Ef; [right|by left]. rewrite forallb_elem in Ef.
  destruct (terminateAll a _) as [[e|] calls]; by split_and!.
Qed.

Lemma stampBackup_starts sched tick c : c ∈ snd (stampBackup sched tick) -> starts c = true \/ onSchedule c = true.
Proof.
  unfold ScheduleController.stampBackup. destruct (sa_create a) as [e|].
  2: { intros [->| ->%list_elem_of_singleton]%elem_of_cons; [by left|by right]. }
  destruct (negb _); [intros ->%list_elem_of_singleton; by left|].
  destruct (sa_existing a) as [existing|]; [|intros ->%list_elem_of_singleton; by left].
  destruct (classifyCoordinate _ _ _) as [[] r]; [intros ->%list_elem_of_singleton; by left| |
    intros ->%list_elem_of_singleton; by left].
  destruct (sa_patch a); intros [->| ->%list_elem_of_singleton]%elem_of_cons; by left.
Qed.

Lemma terminateAll_onBackup bs c :
  c ∈ snd (terminateAll a (map (fun b => (b, fst (verdict b))) bs)) ->
  starts c = false /\ (onSchedule c = true \/ exists name c', c = SBackup name c').
Proof.
  induction bs as [|b bs IH]; cbn [map terminateAll snd]; [by intros ?%elem_of_nil|].
  destruct (terminate_calls b (fst (verdict b))) as (err & b' & rest & -> & _ & _).
  assert (forall l, c ∈ map (SBackup (b_name b)) l ->
    starts c = false /\ (onSchedule c = true \/ exists name c', c = SBackup name c')) as Hm.
  { intros l (c' & -> & _)%list_elem_of_fmap. split; [done|]. right. by do 2 eexists. }
  destruct err as [e|]; [apply Hm|]. destruct (terminateAll a _) as [err rest'].
  cbn [snd] in *. intros [Hin|[->|Hin]%elem_of_cons]%elem_of_app; [by eapply Hm|split; [done|by left]|by apply IH].
Qed.

(** The overlap gate: a pass touches a Backup only when every run of the schedule
    that has not ended is abandoned; it ends no other Backup than those, and it
    stamps or adopts one for the tick only after every one of them was written
    terminal and the write accepted. *)
Theorem schedule_overlap (sched : BackupSchedule) (c : schedule_call) (backups : list Backup)
    (Hlist : listBackups a = Ok backups) (Hc : c ∈ ss_calls (reconcileSchedule sched))
    (Hn : onSchedule c = false) :
  (forall b, b ∈ activeBackups backups ->
     snd (backupAbandonment b (sa_now a) pendingResolveDeadline scheduleAbandonmentGrace) = true)
  /\ (forall name s ok, c = SBackup name (CStatusUpdate s ok) ->
       exists b, b ∈ activeBackups backups /\ name = b_name b
         /\ exists evidence, s = b_status (abandoned (sa_now a) evidence b))
  /\ (starts c = true -> exists pre post, ss_calls (reconcileSchedule sched) = (pre ++ c :: post)%list
       /\ forall b, b ∈ activeBackups backups -> ending b true ∈ pre).
Proof.
  destruct (reconcileSchedule_fires sched c Hc Hn) as (bs & cronSched & tick & _ & Hl & _ & _ & Hr).
  rewrite Hlist in Hl. injection Hl as <-. rewrite Hr in *.
  destruct (fireTick_calls sched cronSched backups tick) as (rest & Hq & Hcalls). rewrite Hcalls in *.
  assert (c ∉ rest) as Hnr by (intros Hin; by rewrite (Hq _ Hin) in Hn).
  destruct (resolveOverlap_cases backups) as [[Hf Hs]|(Hab & Hs & Hok)].
  { rewrite Hf, Hs in Hc. cbn in Hc. apply elem_of_cons in Hc as [->|?]; done. }
  split; [exact Hab|]. rewrite Hs in *.
  apply elem_of_app in Hc as [Hc|[Hc|?]%elem_of_app]; [| |done].
  - destruct (terminateAll_onBackup _ _ Hc) as [Hst _]. split; [|congruence].
    intros name s ok ->. destruct (terminateAll_calls _ _ _ Hc) as [(b & ok' & Hb & Heq)|(x & y & z & ?)]; [|done].
    injection Heq as -> -> _. exists b. split; [done|]. split; [done|by eexists].
  - destruct (fst (resolveOverlap backups)) as [[]|] eqn:Ef; [by apply elem_of_nil in Hc| |by apply elem_of_nil in Hc].
    split.
    + intros name s ok ->. destruct (stampBackup_starts _ _ _ Hc); done.
    + intros Hst. apply list_elem_of_split in Hc as (l1 & l2 & Hl). rewrite Hl.
      exists (snd (terminateAll a (map (fun b => (b, fst (verdict b))) (activeBackups backups))) ++ l1)%list, (l2 ++ rest)%list.
      split; [by rewrite <-!app_assoc|]. intros b Hb. apply elem_of_app. left. apply terminateAll_all; [by apply Hok|done].
Qed.

(** ** Ticks *)

Lemma laterTick_ge name baseline runName : (baseline <= laterTick name baseline runName)%Z.
Proof. unfold laterTick, time_after. destruct (parseRunTick name runName) as [t|]; [|done]. destruct (baseline <? t)%Z eqn:E; lia. Qed.

Lemma laterTick_tick name baseline runName t :
  parseRunTick name runName = Some t -> (t <= laterTick name baseline runName)%Z.
Proof. intros Hp. unfold laterTick, time_after. rewrite Hp. destruct (baseline <? t)%Z eqn:E; lia. Qed.

Lemma baseline_fold_ge name bs t :
  (t <= fold_left (fun baseline b => laterTick name baseline (b_name b)) bs t)%Z.
Proof.
  revert t. induction bs as [|b bs IH]; intros t; cbn; [done|].
  pose proof (laterTick_ge name t (b_name b)). specialize (IH (laterTick name t (b_name b))). lia.
Qed.

Lemma baselineTick_spec sched backups :
  (sd_Created sched <= baselineTick sched backups)%Z
  /\ (forall t, parseRunTick (sd_Name sched) (sh_LastRunName (sd_Status sched)) = Some t ->
       (t <= baselineTick sched backups)%Z)
  /\ (forall b t, b ∈ backups -> parseRunTick (sd_Name sched) (b_name b) = Some t ->
       (t <= baselineTick sched backups)%Z).
Proof.
  unfold baselineTick. set (t0 := laterTick _ _ _). pose proof (baseline_fold_ge (sd_Name sched) backups t0) as Hge.
  split_and!.
  - pose proof (laterTick_ge (sd_Name sched) (sd_Created sched) (sh_LastRunName (sd_Status sched))). unfold t0 in *. lia.
  - intros t Ht. pose proof (laterTick_tick _ (sd_Created sched) _ _ Ht). unfold t0 in *. lia.
  - clear Hge. generalize t0. induction backups as [|b1 bs IH]; intros t1 b t Hb Ht; [by apply elem_of_nil in Hb|].
    cbn. apply elem_of_cons in Hb as [->|Hb]; [|by eapply IH].
    pose proof (laterTick_tick _ t1 _ _ Ht).
    pose proof (baseline_fold_ge (sd_Name sched) bs (laterTick (sd_Name sched) t1 (b_name b1))). lia.
Qed.

Lemma created_tick sched nb ok :
  SCreate nb ok ∈ ss_calls (reconcileSchedule sched) ->
  exists backups cronSched tick,
    sc_Paused (sd_Spec sched) = false /\ listBackups a = Ok backups
    /\ sa_parse a (sc_Schedule (sd_Spec sched)) (sc_Timezone (sd_Spec sched)) = Ok cronSched
    /\ dueTick a sched cronSched backups = Some tick /\ nb = stampedBackup sched tick
    /\ reconcileSchedule sched = fireTick sched cronSched backups tick
    /\ fst (resolveOverlap backups) = Ok false /\ ok = accepted (sa_create a).
Proof.
  intros Hc. destruct (reconcileSchedule_fires sched _ Hc eq_refl) as (bs & cronSched & tick & Hp & Hl & Hs & Hd & Hr).
  exists bs, cronSched, tick. rewrite Hr in Hc.
  destruct (fireTick_calls sched cronSched bs tick) as (rest & Hq & Hcalls). rewrite Hcalls in Hc.
  apply elem_of_app in Hc as [Hc|[Hc|Hc]%elem_of_app].
  - exfalso. destruct (resolveOverlap_cases bs) as [[_ Hsn]|(_ & Hsn & _)]; rewrite Hsn in Hc.
    + by apply list_elem_of_singleton in Hc.
    + by destruct (terminateAll_onBackup _ _ Hc).
  - destruct (fst (resolveOverlap bs)) as [[]|]; [by apply elem_of_nil in Hc| |by apply elem_of_nil in Hc].
    assert (nb = stampedBackup sched tick /\ ok = accepted (sa_create a)) as [-> ->]; [|by split_and!].
    unfold ScheduleController.stampBackup in Hc. destruct (sa_create a) as [e|].
    2: { apply elem_of_cons in Hc as [[= -> ->]|?%list_elem_of_singleton]; done. }
    destruct (negb _); [by apply list_elem_of_singleton in Hc as [= -> ->]|].
    destruct (sa_existing a) as [existing|]; [|by apply list_elem_of_singleton in Hc as [= -> ->]].
    destruct (classifyCoordinate _ _ _) as [[] r]; [by apply list_elem_of_singleton in Hc as [= -> ->]| |
      by apply list_elem_of_singleton in Hc as [= -> ->]].
    destruct (sa_patch a); apply elem_of_cons in Hc as [[= -> ->]|?%list_elem_of_singleton]; done.
  - by specialize (Hq _ Hc).
Qed.
End Theorems.

(** ** Successive passes *)

Section Passes.
Context {CS : ConditionStore} {CSL : ConditionStoreLaws CS}.
Variable DeepEqual : BackupScheduleStatus -> BackupScheduleStatus -> bool.

(** The cron library, as far as a pass uses it on the schedule's own expression: its
    [Next] keeps its contract, the activations are whole seconds, and the search finds
    one from the baseline and from every later time up to the clock. *)
Definition cronServes (a : schedule_answers) (sched : BackupSchedule) (activation : Z -> Prop) : Prop :=
  forall s, sa_parse a (sc_Schedule (sd_Spec sched)) (sc_Timezone (sd_Spec sched)) = Ok s ->
    CronLaws s activation /\ (forall t, activation t -> (t mod second = 0)%Z)
    /\ forall backups t, listBackups a = Ok backups -> (baselineTick sched backups <= t)%Z ->
         (t <= sa_now a \/ t = baselineTick sched backups)%Z -> Next s t <> zero_time.

Lemma scheduleOffset_nonneg sched : (0 <= scheduleOffset sched)%Z.
Proof.
  unfold scheduleOffset. destruct (sc_Jitter (sd_Spec sched)); [|done].
  destruct (JitterOffset_nonneg (sd_UID sched) scheduleJitterWindow) as [|Hn]; [done|].
  destruct Hn. by split; vm_compute.
Qed.

Lemma created_new_tick a activation sched nb ok :
  cronServes a sched activation ->
  SCreate nb ok ∈ ss_calls (reconcileSchedule DeepEqual a sched) ->
  exists tick, nb = stampedBackup sched tick /\ activation tick /\ (tick mod second = 0)%Z
    /\ (sd_Created sched < tick <= sa_now a - scheduleOffset sched)%Z
    /\ (forall t, parseRunTick (sd_Name sched) (sh_LastRunName (sd_Status sched)) = Some t -> (t < tick)%Z)
    /\ (forall backups b t, listBackups a = Ok backups -> b ∈ backups ->
         parseRunTick (sd_Name sched) (b_name b) = Some t -> (t < tick)%Z).
Proof.
  intros Hcron Hc. destruct (created_tick _ _ _ _ _ Hc) as (bs & s & tick & _ & Hl & Hs & Hd & -> & _).
  destruct (Hcron _ Hs) as (Hlaws & Hwhole & Hu). destruct (baselineTick_spec sched bs) as (Hcr & Hlast & Hbs).
  pose proof (scheduleOffset_nonneg sched) as Ho.
  apply (DueTick_within s activation) in Hd as [Hact Hb]; [|intros u Hu1 Hu2; apply (Hu bs u Hl Hu1); lia].
  exists tick. split_and!; [done|done|by apply Hwhole|lia|lia| |].
  - intros t Ht. specialize (Hlast t Ht). lia.
  - intros backups b t Hl' Hin Ht. rewrite Hl in Hl'. injection Hl' as <-. specialize (Hbs b t Hin Ht). lia.
Qed.

(** A schedule stamps only news: a Backup it creates is for an activation of its
    cron expression, past the schedule's creation, not in the future, and later than
    every activation already recorded, in its status or in the name of a Backup of
    the list; never while it is paused; and with the schedule's own stamp on it. *)
Theorem schedule_stamps_new_ticks (a : schedule_answers) (activation : Z -> Prop) (sched : BackupSchedule)
    (nb : newBackup) (ok : bool) (backups : list Backup)
    (Hcron : cronServes a sched activation) (Hlist : listBackups a = Ok backups)
    (Hc : SCreate nb ok ∈ ss_calls (reconcileSchedule DeepEqual a sched)) :
  sc_Paused (sd_Spec sched) = false
  /\ lget (nb_Annotations nb) AnnotationParentUID = sd_UID sched
  /\ exists tick, nb_Name nb = RunName (sd_Name sched) tick /\ activation tick
       /\ (sd_Created sched < tick <= sa_now a - scheduleOffset sched)%Z
       /\ (forall t, parseRunTick (sd_Name sched) (sh_LastRunName (sd_Status sched)) = Some t -> (t < tick)%Z)
       /\ (forall b t, b ∈ backups -> parseRunTick (sd_Name sched) (b_name b) = Some t -> (t < tick)%Z).
Proof.
  destruct (created_new_tick _ _ _ _ _ Hcron Hc) as (tick & -> & Ha & _ & Hb & Hl & Hbs).
  destruct (created_tick _ _ _ _ _ Hc) as (_ & _ & _ & Hp & _). split; [done|]. split.
  - unfold lget. cbn. by rewrite lookup_insert_eq.
  - exists tick. split_and!; [done|done|lia|lia|done|]. intros b t Hin Ht. by eapply Hbs.
Qed.

(** The name a pass that created its Backup leaves behind. *)
Lemma created_recorded a sched nb :
  SCreate nb true ∈ ss_calls (reconcileSchedule DeepEqual a sched) ->
  let sched' := ss_sched (reconcileSchedule DeepEqual a sched) in
  sh_LastRunName (sd_Status sched') = nb_Name nb /\ sd_Name sched' = sd_Name sched
  /\ sd_Created sched' = sd_Created sched.
Proof.
  intros Hc. destruct (created_tick _ _ _ _ _ Hc) as (bs & s & tick & _ & _ & _ & _ & -> & Hr & Hf & Hok).
  cbv zeta. rewrite Hr. unfold fireTick. destruct (resolveOverlap a bs) as [res calls]. cbn [fst] in Hf. subst res.
  unfold stampBackup. destruct (sa_create a) as [e|] eqn:Ec; [done|].
  unfold finishSchedule, writeScheduleStatus, applyBackupSummary. cbv zeta. cbn [sd_Status set_sd_status sh_LastRunName].
  assert (forall x : Z, (RunName (sd_Name sched) x =? "") = false) as Hne.
  { intros x. apply String.eqb_neq. unfold RunName. destruct (sd_Name sched); discriminate. }
  destruct (DeepEqual _ _); [|destruct (sa_update a)]; cbn; rewrite Hne; by split_and!.
Qed.

(** C37. The pass after a stamp never fires the same activation again. When a pass has
    created a Backup, every Backup that a pass over the status it left creates is for a
    strictly later activation, and so has another name, whatever the list of Backups
    shows by then and however the spec was edited in between (the schedule keeps
    its name and its creation time). The hypotheses are those of the cron library, for
    the schedule's own expression in each of the two passes: Next keeps its documented contract,
    activations are whole seconds, and from the baseline up to the clock of the pass the
    search of the library never comes back with its "no activation within five years"
    (for an expression such as the thirtieth of February the code does fire, see
    unsatisfiable_cron_runs); and that the creation time and the first clock lie in the years
    that a run name can say. Later passes are not covered: the status follows the
    newest listed Backup, so once the newest is deleted its activation is fired again
    (deleted_run_fires_again). *)
Theorem schedule_fires_once (a a2 : schedule_answers) (activation activation2 : Z -> Prop) (sched sched2 : BackupSchedule)
    (nb nb2 : newBackup) (ok : bool)
    (Hcron : cronServes a sched activation) (Hcron2 : cronServes a2 sched2 activation2)
    (Hz : (zero_time <= sd_Created sched)%Z) (Hnow : (sa_now a < year10000)%Z) (Hnow2 : (sa_now a2 < year10000)%Z)
    (Hc : SCreate nb true ∈ ss_calls (reconcileSchedule DeepEqual a sched))
    (Hleft : sd_Status sched2 = sd_Status (ss_sched (reconcileSchedule DeepEqual a sched)))
    (Hid : sd_Name sched2 = sd_Name sched /\ sd_Created sched2 = sd_Created sched)
    (Hc2 : SCreate nb2 ok ∈ ss_calls (reconcileSchedule DeepEqual a2 sched2)) :
  exists t t2, nb_Name nb = RunName (sd_Name sched) t /\ nb_Name nb2 = RunName (sd_Name sched) t2
    /\ activation t /\ activation2 t2 /\ (t < t2)%Z /\ nb_Name nb2 <> nb_Name nb.
Proof.
  pose proof (created_recorded _ _ _ Hc) as (Hname & _ & _). rewrite <-Hleft in Hname. destruct Hid as [Hn Hcr].
  destruct (created_new_tick _ _ _ _ _ Hcron Hc) as (t & -> & Ha & Hw & Hb & _).
  destruct (created_new_tick _ _ _ _ _ Hcron2 Hc2) as (t2 & -> & Ha2 & Hw2 & Hb2 & Hlast & _).
  pose proof (scheduleOffset_nonneg sched) as Ho. pose proof (scheduleOffset_nonneg sched2) as Ho2.
  rewrite Hname, Hn in Hlast. cbn [nb_Name stampedBackup] in *.
  pose proof (run_name_tick (sd_Name sched) t (stampable_between t Hw ltac:(lia))) as Htick. specialize (Hlast t Htick).
  exists t, t2. rewrite Hn. split_and!; [done..|]. intros Heq.
  pose proof (run_name_tick (sd_Name sched) t2 (stampable_between t2 Hw2 ltac:(lia))) as Htick2. rewrite Heq in Htick2.
  assert (t2 = t) by congruence. lia.
Qed.
End Passes.

(** ** Concrete passes *)

Definition wit_schedule_spec : BackupScheduleSpec :=
  mkBackupScheduleSpec "offsite" "* * * * *" "" false false None (mkPVCSelector ∅ [] []) None false
    (mkHooksSpec false [] [] "") 2.

(** The eighth of August 2025, 03:30 UTC; the schedule was created five minutes later. *)
Definition wit_t0 : Z := (1754623800 * second)%Z.

Definition wit_schedule : @BackupSchedule MapConditionStore :=
  @mkBackupSchedule MapConditionStore "team" "nightly" "uid-1" wit_t0 1 wit_schedule_spec
    (@mkBackupScheduleStatus MapConditionStore "" "" None None ∅).

Definition wit_schedule_answers (now : Z) (cron : Schedule) (backups : list (@Backup MapConditionStore))
    : @schedule_answers MapConditionStore :=
  @mkScheduleAnswers MapConditionStore now (Ok backups) (fun _ _ => Ok cron) (fun _ => None) None
    (Err (mkErr ENotFound "")) None None.

Notation wit_reconcileSchedule a s :=
  (reconcileSchedule (CS := MapConditionStore) (fun _ _ => false) a s).

(** A run stuck for nine hours: its claim was first attempted and never bound. *)
Definition wit_stuck : @Backup MapConditionStore :=
  @mkBackup MapConditionStore "team" "nightly-20250807-000000" 1 (wit_t0 - 10 * hour) false ∅ ∅ []
    (mkBackupSpec "nightly" kindBackupLocation "offsite" None)
    (@mkBackupStatus MapConditionStore BackupPhasePending None None None
      [mkVolumeStatus "data" "" 0 0 VolumePhasePending "" "" (Some (wit_t0 - 9 * hour)%Z) None] [] 0 ∅).

(** A cron expression that can never be satisfied runs once: the pass over a fresh
    schedule stamps a Backup named after the first second of year 1, where the
    expression has no activation at all. *)
Theorem unsatisfiable_cron_runs :
  CronLaws neverSchedule (fun _ => False)
  /\ SCreate (stampedBackup wit_schedule zero_time) true
      ∈ ss_calls (wit_reconcileSchedule (wit_schedule_answers (wit_t0 + minute) neverSchedule []) wit_schedule)
  /\ nb_Name (stampedBackup wit_schedule zero_time) = "nightly-00010101-000000".
Proof.
  split; [apply neverSchedule_laws|]. split; [|by vm_compute].
  apply (list_elem_of_lookup_2 _ 0). by vm_compute.
Qed.

(** Three passes in which the newest Backup is deleted after the first: the second
    writes the name of the older one as the last run, and the third stamps the first's
    activation again. *)
Definition wit_older : @Backup MapConditionStore :=
  @mkBackup MapConditionStore "team" "nightly-20250808-033100" 1 (wit_t0 + minute) false ∅ ∅ []
    (mkBackupSpec "nightly" kindBackupLocation "offsite" None)
    (@mkBackupStatus MapConditionStore BackupPhaseCompleted None None None [] [] 0 ∅).

Example deleted_run_fires_again :
  let a := wit_schedule_answers (wit_t0 + 2 * minute + 5 * second) everyMinute [wit_older] in
  let first := wit_reconcileSchedule a wit_schedule in
  let next := wit_reconcileSchedule a (ss_sched first) in
  let third := wit_reconcileSchedule a (ss_sched next) in
  let stamped := stampedBackup wit_schedule (wit_t0 + 2 * minute) in
  ss_calls first !! 0%nat = Some (SCreate stamped true)
  /\ sh_LastRunName (sd_Status (ss_sched first)) = "nightly-20250808-033200"
  /\ sh_LastRunName (sd_Status (ss_sched next)) = "nightly-20250808-033100"
  /\ ss_calls third !! 0%nat = Some (SCreate stamped true).
Proof. by vm_compute. Qed.

(** ** Witnesses *)

Lemma wit_cronServes now backups sched :
  (zero_time <= sd_Created sched)%Z ->
  cronServes (CS := MapConditionStore) (wit_schedule_answers now everyMinute backups) sched (fun t => (t mod minute = 0)%Z).
Proof.
  intros Hz s. cbn. intros [= <-]. split_and!; [apply everyMinute_laws| |].
  - intros t. unfold minute, second. intros Ht. Z.to_euclidean_division_equations; lia.
  - intros bs t _ Hb _. apply everyMinute_unending. destruct (baselineTick_spec sched bs) as [Hc _]. lia.
Qed.

Definition wit_created : schedule_call :=
  SCreate (CS := MapConditionStore) (stampedBackup wit_schedule (wit_t0 + minute)) true.

Lemma schedule_overlap_witness :
  let a := wit_schedule_answers (wit_t0 + minute) everyMinute [wit_stuck] in
  exists pre post, ss_calls (wit_reconcileSchedule a wit_schedule) = (pre ++ wit_created :: post)%list
    /\ forall b, b ∈ activeBackups [wit_stuck] -> ending a b true ∈ pre.
Proof.
  apply (schedule_overlap (fun _ _ => false) (wit_schedule_answers (wit_t0 + minute) everyMinute [wit_stuck])
    wit_schedule wit_created [wit_stuck]).
  - by vm_compute.
  - apply (list_elem_of_lookup_2 _ 3). by vm_compute.
  - by vm_compute.
  - by vm_compute.
Defined.

Lemma schedule_stamps_new_ticks_witness :
  exists tick, nb_Name (stampedBackup wit_schedule (wit_t0 + minute)) = RunName "nightly" tick
    /\ (tick mod minute = 0)%Z /\ (wit_t0 < tick)%Z.
Proof.
  destruct (schedule_stamps_new_ticks (CS := MapConditionStore) (fun _ _ => false)
    (wit_schedule_answers (wit_t0 + minute) everyMinute [wit_stuck]) (fun t => (t mod minute = 0)%Z) wit_schedule
    (stampedBackup wit_schedule (wit_t0 + minute)) true [wit_stuck] (wit_cronServes _ _ wit_schedule ltac:(by vm_compute)))
    as (_ & _ & tick & Hn & Ha & Hb & _).
  - by vm_compute.
  - apply (list_elem_of_lookup_2 _ 3). by vm_compute.
  - exists tick. split; [exact Hn|]. split; [exact Ha|apply Hb].
Defined.

(** The schedule as its first pass leaves it. *)
Definition wit_fired : @BackupSchedule MapConditionStore :=
  ss_sched (wit_reconcileSchedule (wit_schedule_answers (wit_t0 + minute) everyMinute []) wit_schedule).

Lemma schedule_fires_once_witness :
  exists t t2, nb_Name (stampedBackup wit_schedule (wit_t0 + minute)) = RunName "nightly" t
    /\ nb_Name (stampedBackup wit_fired (wit_t0 + 3 * minute)) = RunName "nightly" t2 /\ (t < t2)%Z.
Proof.
  destruct (schedule_fires_once (CS := MapConditionStore) (fun _ _ => false)
    (wit_schedule_answers (wit_t0 + minute) everyMinute []) (wit_schedule_answers (wit_t0 + 3 * minute) everyMinute [])
    (fun t => (t mod minute = 0)%Z) (fun t => (t mod minute = 0)%Z) wit_schedule wit_fired
    (stampedBackup wit_schedule (wit_t0 + minute)) (stampedBackup wit_fired (wit_t0 + 3 * minute)) true
    (wit_cronServes _ _ wit_schedule ltac:(by vm_compute)) (wit_cronServes _ _ wit_fired ltac:(by vm_compute)))
    as (t & t2 & Hn & Hn2 & _ & _ & Hlt & _).
  - by vm_compute.
  - by vm_compute.
  - by vm_compute.
  - apply (list_elem_of_lookup_2 _ 0). by vm_compute.
  - done.
  - by split; vm_compute.
  - apply (list_elem_of_lookup_2 _ 0). by vm_compute.
  - exists t, t2. by split_and!.
Defined.
