(* ===== verification/RestoreEngine.v ===== *)
(** * RestoreEngine: driving the volumes of a restore
    (internal/controller/restore_engine.go)

    The engine both restore controllers share: it derives the state of a volume
    from the live objects and advances it by one step, from the exposure of a
    target over the mover Job to the handover, and aggregates a pass over all of
    them.  A step is a program over the API server and over what else the engine
    talks to: the Secret reader, pods, the queue, the clock and its own memory, the
    caches and counters behind its mutex, which are the record [restoreEngine]. *)

From Stdlib Require Import Ascii String.
From S2P Require Import Prelude GoText Cluster Names Status MoverResult Restic VolumeMachine.
From S2P Require Import Program Api RestoreExposer.

#[local] Open Scope string_scope.

(** ** Constants and names *)

Definition restoreMoverBackoffLimit : Z := 2.
Definition restoreNamePrefixMax : nat := 55.
Definition restoreTargetMountPath : string := "/crystal/target".
Definition maxVolumeAdviseErrors : Z := 60.
Definition restoreVolumeDeadline : Z := (30 * minute)%Z.
Definition restoreOwnerMoverCap : Z := 4.
Definition LabelExposureKind : string := "crystalbackup.io/exposure-kind".
Definition AnnotationMoverResult : string := "crystalbackup.io/mover-result".

Definition restoreJobName (prefix : string) : string := prefix ++ "-restore".
Definition restoreNamePrefix (ownerID pvcName : string) : string :=
  sanitizeDNSName (ownerID ++ "-" ++ pvcName) restoreNamePrefixMax.
Definition restoreOwnerID (namespace name : string) : string := "rst-" ++ namespace ++ "-" ++ name.
Definition clusterRestoreOwnerID (name : string) : string := "crst-" ++ name.
Definition restoreResolveJobName (ownerID : string) : string :=
  sanitizeDNSName ownerID restoreNamePrefixMax ++ "-resolve".

(** ** Data *)

Record restoreVolumePlan := mkPlan {
  pl_pvc : string;
  pl_snapshotID : string;
  pl_snapshotPath : string;
  pl_include : list string;
  pl_exclude : list string;
  pl_targetPath : string;
  pl_capacity : Z;
  pl_storageClass : string;
  pl_accessModes : list string
}.

Definition bare_plan (pvc : string) : restoreVolumePlan := mkPlan pvc "" "" [] [] "" 0 "" [].

Record restoreExecContext := mkExecContext {
  rx_ownerName : string;
  rx_ownerLabelKey : string;
  rx_ownerID : string;
  rx_targetNamespace : string;
  rx_deleteExtras : bool;
  rx_restoredFromRun : string;
  rx_repoName : string;
  rx_repoURL : string;
  rx_dek : string;
  rx_s3CredsSecret : string;
  rx_s3Connections : option Z;
  rx_clusterID : string
}.

Record volumeOutcome := mkVolumeOutcome {
  vo_settled : bool; vo_failed : bool; vo_reason : string; vo_restoredBytes : Z
}.

Definition pending : volumeOutcome := mkVolumeOutcome false false "" 0.
Definition settledFailed (reason : string) : volumeOutcome := mkVolumeOutcome true true reason 0.

(** ** The engine's memory *)

Record resolvedSnapshots := mkResolved {
  rn_run : string;
  rn_byPVC : gmap string Snapshot;
  rn_manifests : list Snapshot;
  rn_clusterManifests : list Snapshot
}.

Record restoreEngine := mkEngine {
  en_resolved : gmap string resolvedSnapshots;
  en_pinnedSource : gmap string string;
  en_unlockOnce : gset string;
  en_errCounts : gmap string Z
}.

Definition newRestoreEngine : restoreEngine := mkEngine ∅ ∅ ∅ ∅.

Definition pinSource (owner name : string) (e : restoreEngine) : string * restoreEngine :=
  match en_pinnedSource e !! owner with
  | Some pinned => (pinned, e)
  | None => (name, mkEngine (en_resolved e) (<[owner := name]> (en_pinnedSource e)) (en_unlockOnce e) (en_errCounts e))
  end.

Definition pinnedSourceFor (owner : string) (e : restoreEngine) : option string := en_pinnedSource e !! owner.

Definition shouldEnqueueUnlock (key : string) (e : restoreEngine) : bool * restoreEngine :=
  if bool_decide (key ∈ en_unlockOnce e) then (false, e)
  else (true, mkEngine (en_resolved e) (en_pinnedSource e) ({[key]} ∪ en_unlockOnce e) (en_errCounts e)).

Definition noteVolumeError (key : string) (e : restoreEngine) : bool * restoreEngine :=
  let n := (default 0 (en_errCounts e !! key) + 1)%Z in
  ((maxVolumeAdviseErrors <=? n)%Z,
   mkEngine (en_resolved e) (en_pinnedSource e) (en_unlockOnce e) (<[key := n]> (en_errCounts e))).

Definition clearVolumeError (key : string) (e : restoreEngine) : restoreEngine :=
  mkEngine (en_resolved e) (en_pinnedSource e) (en_unlockOnce e) (base.delete key (en_errCounts e)).

Definition resolvedFor (owner run : string) (e : restoreEngine) : option resolvedSnapshots :=
  match en_resolved e !! owner with
  | Some r => if rn_run r =? run then Some r else None
  | None => None
  end.

Definition cachedResolution (owner run : string) (e : restoreEngine) : option (gmap string Snapshot * list Snapshot) :=
  option_map (fun r => (rn_byPVC r, rn_manifests r)) (resolvedFor owner run e).
Definition cachedClusterResolution (owner run : string) (e : restoreEngine)
    : option (gmap string Snapshot * list Snapshot) :=
  option_map (fun r => (rn_byPVC r, rn_clusterManifests r)) (resolvedFor owner run e).

Definition set_resolved (owner : string) (r : resolvedSnapshots) (e : restoreEngine) : restoreEngine :=
  mkEngine (<[owner := r]> (en_resolved e)) (en_pinnedSource e) (en_unlockOnce e) (en_errCounts e).
Definition storeResolution (owner run : string) (byPVC : gmap string Snapshot) (manifests : list Snapshot)
    : restoreEngine -> restoreEngine := set_resolved owner (mkResolved run byPVC manifests []).
Definition storeClusterResolution (owner run : string) (byPVC : gmap string Snapshot) (manifests : list Snapshot)
    : restoreEngine -> restoreEngine := set_resolved owner (mkResolved run byPVC [] manifests).

Definition forgetListing (owner : string) (e : restoreEngine) : restoreEngine :=
  mkEngine (base.delete owner (en_resolved e)) (en_pinnedSource e) (en_unlockOnce e) (en_errCounts e).

Definition forgetResolution (owner ownerID : string) (e : restoreEngine) : restoreEngine :=
  let mine := fun k => HasPrefix k (ownerID ++ "/") = true in
  mkEngine (base.delete owner (en_resolved e)) (base.delete owner (en_pinnedSource e))
    (filter (fun k => ~ mine k) (en_unlockOnce e)) (filter (fun p => ~ mine (fst p)) (en_errCounts e)).

(** ** Requests *)

(** The fields of [mover.JobRequest] a restore mover is created with. *)
Record RestoreJob := mkRestoreJob {
  rj_Name : string;
  rj_ResticArgs : list string;
  rj_RepoURL : string;
  rj_S3Connections : option Z;
  rj_SecretName : string;
  rj_Claim : string;                       (* mounted read-write under [restoreTargetMountPath] *)
  rj_Labels : labels;
  rj_NodeName : string
}.

Inductive engine_action :=
| EReadSecret (ns name dataKey : string)
| ECreateCreds (name dek accessKey secretKey : string) (ls : labels)
| EListPods (job : string)
| EDeletePods (job : string)
| EStampResult (job : string) (result : MoverResult)     (* Marshal and Patch of the annotation *)
| ECreateMover (j : RestoreJob)
| EQuiescenceRequired (repo : string)
| EEnqueueUnlock (repo name : string)
| ENow
| ENoteError (key : string)
| EClearError (key : string)
| EShouldUnlock (key : string).

Definition engine_answer (o : engine_action) : Type :=
  match o with
  | EReadSecret _ _ _ => result string
  | EListPods _ => result (list Pod)
  | ECreateCreds _ _ _ _ _ | EDeletePods _ | EStampResult _ _ | ECreateMover _ => option gerr
  | EQuiescenceRequired _ | ENoteError _ | EShouldUnlock _ => bool
  | EEnqueueUnlock _ _ | EClearError _ => unit
  | ENow => Z
  end.

Definition engineI : interface := mkInterface engine_action engine_answer.
Definition restI : interface := sumI kube engineI.
Notation rest := (prog restI).
Notation deed := (event restI).

Definition k8s {A} (p : api A) : rest A := inject (J := engineI) p.
Definition own (o : engine_action) : rest (engine_answer o) := callR (I := kube) (J := engineI) o.

(** A Job as the counting and the verdicts of the other controllers read it. *)
Definition toJob (o : Object KJob) : Job :=
  mkJob (o_name o) (o_labels o) (m_Created (o_meta o)) (if m_Deleting (o_meta o) then Some 0%Z else None)
    (js_Succeeded (o_body o)) (js_Failed (o_body o)) (js_Conditions (o_body o)).

(** ** Pure parts *)

(** [path.Clean] of a path that begins with a slash. *)
Definition cleanStep (kept : list string) (seg : string) : list string :=
  if (seg =? "") || (seg =? ".") then kept
  else if seg =? ".." then tail kept
  else seg :: kept.
Definition CleanRooted (p : string) : string :=
  "/" ++ String.concat "/" (rev (fold_left cleanStep (splitOn "/" p) [])).

Definition restoreTargetPath (Quote : string -> string) (targetPath : string) : result string :=
  if (targetPath =? "") || (targetPath =? "/") then Ok restoreTargetMountPath
  else if existsb (String.eqb "..") (splitOn "/" targetPath)
  then Err (errorf ("targetPath " ++ Quote targetPath ++ " contains a '..' segment"))
  else
    let cleaned := CleanRooted ("/" ++ targetPath) in
    if cleaned =? "/" then Ok restoreTargetMountPath
    else Ok (restoreTargetMountPath ++ cleaned).

Fixpoint podsOldest (pods : list Pod) (oldest : Z) : option Z :=
  match pods with
  | [] => Some oldest
  | p :: pods =>
      if (p_phase p =? "Running") || (p_phase p =? "Succeeded") then None
      else podsOldest pods (if time_before (p_created p) oldest then p_created p else oldest)
  end.

Definition moverPodsStalled (pods : list Pod) (now deadline : Z) : bool :=
  match pods with
  | [] => false
  | _ => match podsOldest pods now with
         | None => false
         | Some oldest => (deadline <? time_sub now oldest)%Z
         end
  end.

Record VolumeSelectorItem := mkVolumeSelectorItem {
  vi_Names : list string; vi_Include : list string; vi_Exclude : list string; vi_TargetPath : string
}.

Definition volumeItemMatches (item : VolumeSelectorItem) (pvc : string) : bool :=
  match vi_Names item with [] => true | ns => existsb (String.eqb pvc) ns end.

(** What [planVolumes] maps a claim to: absent, selected whole, or by an item. *)
Definition selectedAs (volumes : list VolumeSelectorItem) (hasSelection : bool) (pvc : string)
    : option (option VolumeSelectorItem) :=
  if hasSelection then option_map Some (find (fun i => volumeItemMatches i pvc) volumes) else Some None.

Definition planVolumes (volumes : list VolumeSelectorItem) (sourcePVCs : list string) (hasSelection : bool)
    : gmap string (option VolumeSelectorItem) :=
  fold_left (fun m pvc => match selectedAs volumes hasSelection pvc with
                          | Some item => <[pvc := item]> m
                          | None => m
                          end) sourcePVCs ∅.

Definition classifyVolumeOutcome (o : volumeOutcome) (adviseErr : option gerr) (budgetExhausted : bool)
    : VolumeRestoreOutcome :=
  match adviseErr with
  | Some _ => if budgetExhausted then VolumeRestoreFailed else VolumeRestoreInFlight
  | None => if negb (vo_settled o) then VolumeRestoreInFlight
            else if vo_failed o then VolumeRestoreFailed else VolumeRestoreRestored
  end.

Section Engine.
Variable OperatorNamespace : string.
Variable hasQueue : bool.                                (* Queue != nil *)
Variable Unmarshal : string -> result MoverResult.       (* json.Unmarshal *)
Variable Quote : string -> string.                       (* fmt's %q *)

(** ** Labels and exposures *)

Definition volumeLabels (rc : restoreExecContext) (pvc : string) : labels :=
  <[LabelPVC := pvc]> (<[LabelNamespace := rx_targetNamespace rc]>
    (<[rx_ownerLabelKey rc := rx_ownerName rc]> (<[LabelManagedBy := ManagedByValue]> ∅))).

Definition exposureFor (rc : restoreExecContext) (plan : restoreVolumePlan) (kind : string) : TargetExposure :=
  let prefix := restoreNamePrefix (rx_ownerID rc) (pl_pvc plan) in
  mkTargetExposure kind (rx_targetNamespace rc) (pl_pvc plan) OperatorNamespace (StagingPVCName prefix)
    (TwinPVName prefix) "" (volumeLabels rc (pl_pvc plan)) (rx_restoredFromRun rc).

(** The operator's objects of one owner. *)
Definition ownerSelector (rc : restoreExecContext) : labels :=
  <[LabelNamespace := rx_targetNamespace rc]>
    (<[rx_ownerLabelKey rc := rx_ownerName rc]> (<[LabelManagedBy := ManagedByValue]> ∅)).

(** ** One volume *)

Definition deleteJobAndSecret (name : string) : rest () :=
  let! _ := k8s (delete KJob OperatorNamespace name) in
  let! _ := k8s (delete KSecret OperatorNamespace name) in
  Done tt.

Definition ensureRestoreCreds (rc : restoreExecContext) (name : string) (ls : labels) : rest (option gerr) :=
  let path := OperatorNamespace ++ "/" ++ rx_s3CredsSecret rc in
  let! ak := own (EReadSecret OperatorNamespace (rx_s3CredsSecret rc) "AWS_ACCESS_KEY_ID") in
  match ak with
  | Err e => Done (Some (wrap_err ("read S3 access key from secret " ++ path) e))
  | Ok ak =>
      let! sk := own (EReadSecret OperatorNamespace (rx_s3CredsSecret rc) "AWS_SECRET_ACCESS_KEY") in
      match sk with
      | Err e => Done (Some (wrap_err ("read S3 secret key from secret " ++ path) e))
      | Ok sk =>
          let! err := own (ECreateCreds name (rx_dek rc) ak sk ls) in
          match err with
          | Some e => if IsAlreadyExists e then Done None
                      else Done (Some (wrap_err ("create mover creds secret " ++ OperatorNamespace ++ "/" ++ name) e))
          | None => Done None
          end
      end
  end.

(** The result, the mover's error, and an error that is retried. *)
Definition resolveMoverOutcome (job : Object KJob) (jobFailed : bool)
    : rest (result MoverResult * option gerr) :=
  let enc := lget (m_Annotations (o_meta job)) AnnotationMoverResult in
  match (if enc =? "" then Err (errorf "") else Unmarshal enc) with
  | Ok cached => Done (Ok cached, None)
  | Err _ =>
      let! pods := own (EListPods (o_name job)) in
      let res := fst (readMoverResult Unmarshal Quote OperatorNamespace pods (o_name job)) in
      match res with
      | Err e => Done (Err e, None)
      | Ok result =>
          if jobFailed || negb (mr_OK result) then Done (Ok result, None)
          else
            let! err := own (EStampResult (o_name job) result) in
            Done (Ok result, option_map (wrap_err ("stamp mover result on Job " ++ o_name job)) err)
      end
  end.

Definition moverStuckPending (jobName : string) : rest bool :=
  let! pods := own (EListPods jobName) in
  match pods with
  | Err _ => Done false
  | Ok pods => let! now := own ENow in Done (moverPodsStalled pods now restoreVolumeDeadline)
  end.

(** An outcome, and what is left of the pass's budget of mover starts. *)
Notation advice := (result volumeOutcome * Z)%type.

Definition moverJob (rc : restoreExecContext) (plan : restoreVolumePlan) (ex : TargetExposure) (jobName target : string)
    : RestoreJob :=
  mkRestoreJob jobName
    (RestoreArgs (pl_snapshotID plan) (pl_snapshotPath plan) target (rx_deleteExtras rc) (pl_include plan) (pl_exclude plan))
    (rx_repoURL rc) (rx_s3Connections rc) jobName (tx_StagingPVCName ex)
    (<[LabelExposureKind := tx_Kind ex]> (volumeLabels rc (pl_pvc plan))) (tx_NodeName ex).

(** From the credentials to the Job, once the target is ready and admitted. *)
Definition createMover (rc : restoreExecContext) (plan : restoreVolumePlan) (ex : TargetExposure) (jobName : string)
    (budget : Z) : rest advice :=
  let! err := ensureRestoreCreds rc jobName (volumeLabels rc (pl_pvc plan)) in
  match err with
  | Some e => Done (Err e, budget)
  | None =>
      match restoreTargetPath Quote (pl_targetPath plan) with
      | Err _ => Done (Ok (settledFailed "InvalidTargetPath"), budget)
      | Ok target =>
          let! err := own (ECreateMover (moverJob rc plan ex jobName target)) in
          match err with
          | Some e => if IsAlreadyExists e then Done (Ok pending, (budget - 1)%Z)
                      else Done (Err (wrap_err ("create restore mover Job " ++ OperatorNamespace ++ "/" ++ jobName) e), budget)
          | None => Done (Ok pending, (budget - 1)%Z)
          end
      end
  end.

Definition startVolume (rc : restoreExecContext) (plan : restoreVolumePlan) (prefix jobName : string) (budget : Z)
    : rest advice :=
  let target := rx_targetNamespace rc ++ "/" ++ pl_pvc plan in
  let! ex := k8s (TargetExpose OperatorNamespace
    (mkTargetRequest (rx_targetNamespace rc) (pl_pvc plan) (pl_storageClass plan) (pl_capacity plan) (pl_accessModes plan)
       prefix (volumeLabels rc (pl_pvc plan)) (rx_restoredFromRun rc))) in
  match ex with
  | Err e =>
      if bool_decide (e = ErrBlockUnsupported) then Done (Ok (settledFailed "RestoreBlockUnsupported"), budget)
      else Done (Err (wrap_err ("expose restore target " ++ target) e), budget)
  | Ok ex =>
      let! ready := k8s (TargetReady ex) in
      match ready with
      | Err e => Done (Err (wrap_err ("check restore target readiness " ++ target) e), budget)
      | Ok false => Done (Ok pending, budget)
      | Ok true =>
          let! gated := (if hasQueue && negb (rx_repoName rc =? "") then own (EQuiescenceRequired (rx_repoName rc))
                         else Done false) in
          if gated then Done (Ok pending, budget)
          else if (budget <=? 0)%Z then Done (Ok pending, budget)
          else createMover rc plan ex jobName budget
      end
  end.

(** The exposure's kind: pinned on the Job, else read off the twin volume. *)
Definition exposureKind (rc : restoreExecContext) (plan : restoreVolumePlan) (prefix : string) (job : Object KJob)
    : rest (result string) :=
  let kind := lget (o_labels job) LabelExposureKind in
  if (kind =? KindTransplant) || (kind =? KindTwin) then Done (Ok kind)
  else
    let! twin := k8s (get KPV "" (TwinPVName prefix)) in
    Done (match twin with
          | Ok _ => Ok KindTwin
          | Err e => if IsNotFound e then Ok KindTransplant
                     else Err (wrap_err ("derive exposure kind for " ++ rx_targetNamespace rc ++ "/" ++ pl_pvc plan) e)
          end).

(** A mover that did not deliver: the unlock, once, and the verdict. *)
Definition settleFailed (rc : restoreExecContext) (plan : restoreVolumePlan) (prefix : string) (res : result MoverResult)
    : rest (result volumeOutcome) :=
  let! _ := match res with
            | Err _ =>
                let! first := own (EShouldUnlock (rx_ownerID rc ++ "/" ++ pl_pvc plan)) in
                if first then own (EEnqueueUnlock (rx_repoName rc) (maintenanceResourceName prefix "unlock")) else Done tt
            | Ok _ => Done tt
            end in
  Done (Ok (settledFailed (moverFailureReason res))).

(** A mover that delivered: the handover. *)
Definition settleRestored (rc : restoreExecContext) (plan : restoreVolumePlan) (prefix : string) (job : Object KJob)
    (res : MoverResult) : rest (result volumeOutcome) :=
  let! _ := own (EDeletePods (restoreJobName prefix)) in
  let! kind := exposureKind rc plan prefix job in
  match kind with
  | Err e => Done (Err e)
  | Ok kind =>
      let! done := k8s (Finalize (exposureFor rc plan kind)) in
      Done (match done with
            | Err e => Err (wrap_err ("finalize restore target " ++ rx_targetNamespace rc ++ "/" ++ pl_pvc plan) e)
            | Ok false => Ok pending
            | Ok true => Ok (mkVolumeOutcome true false "" (mr_RestoredBytes res))
            end)
  end.

(** A mover Job exists: poll it, or settle its volume. *)
Definition pollVolume (rc : restoreExecContext) (plan : restoreVolumePlan) (prefix : string) (job : Object KJob)
    : rest (result volumeOutcome) :=
  let complete := jobComplete (toJob job) in
  let failed := jobFailed (toJob job) restoreMoverBackoffLimit in
  if negb complete && negb failed then
    let! stuck := moverStuckPending (restoreJobName prefix) in
    Done (Ok (if stuck : bool then settledFailed "RestoreTimedOut" else pending))
  else
    let! outcome := resolveMoverOutcome job failed in
    match outcome with
    | (_, Some terr) => Done (Err terr)
    | (Err e, None) => settleFailed rc plan prefix (Err e)
    | (Ok res, None) =>
        if failed || negb (mr_OK res) then settleFailed rc plan prefix (Ok res)
        else settleRestored rc plan prefix job res
    end.

Definition adviseVolume (rc : restoreExecContext) (plan : restoreVolumePlan) (budget : Z) : rest advice :=
  let prefix := restoreNamePrefix (rx_ownerID rc) (pl_pvc plan) in
  let jobName := restoreJobName prefix in
  let! job := k8s (get KJob OperatorNamespace jobName) in
  match job with
  | Err e =>
      if IsNotFound e then startVolume rc plan prefix jobName budget
      else Done (Err (wrap_err ("get restore mover Job " ++ OperatorNamespace ++ "/" ++ jobName) e), budget)
  | Ok job => let! r := pollVolume rc plan prefix job in Done (r, budget)
  end.

(** ** One pass over the volumes *)

Definition ownerRunningMovers (rc : restoreExecContext) : rest (result nat) :=
  let! jobs := k8s (list_ KJob (mkSelector (Some OperatorNamespace) (ownerSelector rc) [])) in
  Done (match jobs with
        | Err e => Err (wrap_err "list restore mover Jobs for the concurrency gate" e)
        | Ok items =>
            Ok (RunningMoverJobs (map toJob
                  (List.filter (fun o => negb (lget (o_labels o) LabelPVC =? "") && negb (m_Deleting (o_meta o))) items)))
        end).

Record volumeDrive := mkDrive {
  d_tally : RestoreTally;
  d_restoredBytes : Z;
  d_failures : list string;
  d_volumeErr : option gerr;
  d_passErr : option gerr
}.

Definition tallied (d : volumeDrive) : bool := match d_passErr d with None => true | Some _ => false end.
Definition settled (d : volumeDrive) : Z := RestoreTally_Settled (d_tally d).
Definition completed (d : volumeDrive) : Z := rt_Restored (d_tally d).
Definition failedCount (d : volumeDrive) : Z := rt_Failed (d_tally d).

(** The loop's state: the budget of starts, the outcomes so far (newest first), the
    bytes, the failures, the first error. *)
Record drive_state := mkDriveState {
  ds_budget : Z;
  ds_outcomes : list VolumeRestoreOutcome;
  ds_bytes : Z;
  ds_failures : list string;
  ds_err : option gerr
}.

Definition driveOne (rc : restoreExecContext) (s : drive_state) (plan : restoreVolumePlan) : rest drive_state :=
  let key := rx_ownerID rc ++ "/" ++ pl_pvc plan in
  let! adv := adviseVolume rc plan (ds_budget s) in
  let '(r, budget) := adv in
  match r with
  | Err e =>
      let! exhausted := own (ENoteError key) in
      Done (mkDriveState budget (classifyVolumeOutcome pending (Some e) exhausted :: ds_outcomes s) (ds_bytes s)
              (if exhausted : bool
               then (ds_failures s ++ [(pl_pvc plan ++ ": gave up after repeated errors, last: " ++ err_text e)%string])%list
               else ds_failures s)
              (if exhausted : bool then ds_err s else match ds_err s with Some e' => Some e' | None => Some e end))
  | Ok o =>
      let! _ := own (EClearError key) in
      let verdict := classifyVolumeOutcome o None false in
      Done (mkDriveState budget (verdict :: ds_outcomes s)
              (match verdict with VolumeRestoreRestored => int64 (ds_bytes s + vo_restoredBytes o) | _ => ds_bytes s end)
              (match verdict with VolumeRestoreFailed => (ds_failures s ++ [(pl_pvc plan ++ ": " ++ vo_reason o)%string])%list
               | _ => ds_failures s end) (ds_err s))
  end.

Definition driveVolumes (rc : restoreExecContext) (plans : list restoreVolumePlan) : rest volumeDrive :=
  let! running := ownerRunningMovers rc in
  match running with
  | Err e => Done (mkDrive (mkRestoreTally 0 0 0 0) 0 [] None (Some e))
  | Ok running =>
      let! s := foldM (driveOne rc) (mkDriveState (restoreOwnerMoverCap - Z.of_nat running) [] 0 [] None) plans in
      Done (mkDrive (TallyVolumeRestoreOutcomes (rev (ds_outcomes s))) (ds_bytes s) (ds_failures s) (ds_err s) None)
  end.

(** ** Teardown *)

Definition teardownVolume (rc : restoreExecContext) (plan : restoreVolumePlan) : rest () :=
  let! _ := deleteJobAndSecret (restoreJobName (restoreNamePrefix (rx_ownerID rc) (pl_pvc plan))) in
  let! _ := k8s (TargetCleanup (exposureFor rc plan KindTwin)) in
  let! _ := k8s (TargetCleanup (exposureFor rc plan KindTransplant)) in
  Done tt.

Definition teardownAll (rc : restoreExecContext) (plans : list restoreVolumePlan) : rest () :=
  let! _ := foldM (fun _ => teardownVolume rc) tt plans in
  deleteJobAndSecret (restoreResolveJobName (rx_ownerID rc)).

(** The residue of one kind, by the owner's labels; an error is only logged. *)
Definition teardownListed (rc : restoreExecContext) (k : kind) (ns : option string) : rest () :=
  let! items := k8s (list_ k (mkSelector ns (ownerSelector rc) [])) in
  match items with
  | Err _ => Done tt
  | Ok items =>
      foldM (fun _ o => let pvc := lget (o_labels o) LabelPVC in
                        if pvc =? "" then Done tt else teardownVolume rc (bare_plan pvc)) tt items
  end.

Definition teardownRestoreResidue (rc : restoreExecContext) : rest () :=
  let! _ := deleteJobAndSecret (restoreResolveJobName (rx_ownerID rc)) in
  let! _ := teardownListed rc KJob (Some OperatorNamespace) in
  let! _ := teardownListed rc KPVC (Some OperatorNamespace) in
  teardownListed rc KPV None.

(** ** Running the pieces *)

Lemma own_runs o tr x : runs (own o) tr x -> tr = [Ev (I := restI) (inr o) x].
Proof. intros H. exact (proj1 (runs_callR (I := kube) (J := engineI) o tr x) H). Qed.

Lemma k8s_runs {A} (p : api A) tr a : runs (k8s p) tr a -> exists t, tr = map (evL engineI) t /\ runs p t a.
Proof. apply runs_inject. Qed.

(** Takes the first request, or sub-program, off the program of a hypothesis. *)
Ltac deed H :=
  lazymatch type of H with
  | runs (prog_bind _ _) _ _ =>
      let t1 := fresh "t" in let t2 := fresh "tr" in let a := fresh "x" in let H1 := fresh "R" in
      apply runs_bind in H as (t1 & t2 & a & -> & H1 & H); cbv beta in H;
      first [ apply own_runs in H1; subst t1
            | let u := fresh "u" in apply k8s_runs in H1 as (u & -> & H1)
            | idtac ]
  | runs (Done _) _ _ => destruct H as [-> H]; try simplify_eq
  | runs (match ?x with _ => _ end) _ _ => let E := fresh "E" in destruct x eqn:E
  end.

(** *** Mover starts *)

Definition started (e : deed) : bool :=
  match e with Ev (inr (ECreateMover _)) None => true | _ => false end.
Definition starts (tr : list deed) : nat := countb started tr.

Lemma starts_app tr1 tr2 : starts (tr1 ++ tr2) = starts tr1 + starts tr2.
Proof. apply countb_app. Qed.

Lemma starts_k8s (t : list happening) : starts (map (evL engineI) t) = 0.
Proof. unfold starts. apply countb_zero. intros e (x & -> & _)%list_elem_of_fmap. by destruct x. Qed.

(** Programs that create no mover. *)
Definition noMover (e : deed) : Prop := match ev_action e with inr (ECreateMover _) => False | _ => True end.

Lemma noMover_starts tr : Forall noMover tr -> starts tr = 0.
Proof.
  rewrite Forall_forall. intros H. apply countb_zero. intros e He. specialize (H e He).
  destruct e as [[?|[]] ?]; done.
Qed.

Lemma noMover_k8s (t : list happening) : Forall noMover (map (evL engineI) t).
Proof. apply Forall_forall. intros e (x & -> & _)%list_elem_of_fmap. by destruct x. Qed.

Ltac no_mover :=
  rewrite ?Forall_app; repeat match goal with |- _ /\ _ => split end;
  try done; try apply noMover_k8s; repeat (constructor; try exact I).

Lemma ensureRestoreCreds_noMover rc name ls tr r : runs (ensureRestoreCreds rc name ls) tr r -> Forall noMover tr.
Proof. unfold ensureRestoreCreds. intros H. repeat deed H; no_mover. Qed.

Lemma resolveMoverOutcome_noMover job failed tr r : runs (resolveMoverOutcome job failed) tr r -> Forall noMover tr.
Proof. unfold resolveMoverOutcome. intros H. repeat deed H; no_mover. Qed.

Lemma settleFailed_noMover rc plan prefix res tr r : runs (settleFailed rc plan prefix res) tr r -> Forall noMover tr.
Proof.
  unfold settleFailed. intros H. deed H. deed H. rewrite app_nil_r. destruct res as [m|e]; [by destruct R as [-> _]|].
  deed R. destruct x0; [apply own_runs in R as ->|destruct R as [-> _]]; no_mover.
Qed.

Lemma exposureKind_noMover rc plan prefix job tr r : runs (exposureKind rc plan prefix job) tr r -> Forall noMover tr.
Proof. unfold exposureKind. intros H. repeat deed H; no_mover. Qed.

Lemma settleRestored_noMover rc plan prefix job res tr r :
  runs (settleRestored rc plan prefix job res) tr r -> Forall noMover tr.
Proof.
  unfold settleRestored. intros H. deed H. deed H. apply exposureKind_noMover in R. repeat deed H; no_mover.
Qed.

Lemma pollVolume_noMover rc plan prefix job tr r : runs (pollVolume rc plan prefix job) tr r -> Forall noMover tr.
Proof.
  unfold pollVolume. intros H. deed H.
  - deed H. deed H. unfold moverStuckPending in R. repeat deed R; no_mover.
  - deed H. apply resolveMoverOutcome_noMover in R. apply Forall_app. split; [done|].
    destruct x as [[res|e] [terr|]]; [by deed H| |by deed H|by eapply settleFailed_noMover].
    deed H; [by eapply settleFailed_noMover|by eapply settleRestored_noMover].
Qed.

Lemma createMover_budget rc plan ex jobName b tr r b' :
  runs (createMover rc plan ex jobName b) tr (r, b') -> (Z.of_nat (starts tr) <= b - b' <= 1)%Z.
Proof.
  unfold createMover. intros H. deed H. apply ensureRestoreCreds_noMover, noMover_starts in R.
  repeat deed H; rewrite ?starts_app, ?R; cbn; lia.
Qed.

(** A step of a volume starts no mover beyond the budget, and accounts for it. *)
Lemma startVolume_budget rc plan prefix jobName b tr r b' :
  runs (startVolume rc plan prefix jobName b) tr (r, b') ->
  (Z.of_nat (starts tr) <= b - b')%Z /\ (b' < b -> 0 < b)%Z /\ (b - b' <= 1)%Z.
Proof.
  unfold startVolume. intros H. deed H. rewrite starts_app, starts_k8s.
  destruct x as [ex|e]; [|repeat deed H; cbn; lia]. deed H. rewrite starts_app, starts_k8s.
  destruct x as [[|]|e]; [|repeat deed H; cbn; lia..]. deed H.
  assert (starts t = 0) as Hg. { destruct (hasQueue && negb (rx_repoName rc =? "")); [by apply own_runs in R1 as ->|by destruct R1 as [-> _]]. }
  rewrite starts_app, Hg. destruct x; [repeat deed H; cbn; lia|].
  destruct (b <=? 0)%Z eqn:Eb; [repeat deed H; cbn; lia|]. apply createMover_budget in H. lia.
Qed.

Lemma adviseVolume_budget rc plan b tr r b' :
  runs (adviseVolume rc plan b) tr (r, b') ->
  (Z.of_nat (starts tr) <= b - b')%Z /\ (b' < b -> 0 < b)%Z /\ (b - b' <= 1)%Z.
Proof.
  unfold adviseVolume. intros H. deed H. rewrite starts_app, starts_k8s. destruct x as [job|e].
  - deed H. deed H. apply pollVolume_noMover, noMover_starts in R0. rewrite app_nil_r, R0. lia.
  - deed H; [by apply startVolume_budget in H|]. deed H. cbn. lia.
Qed.

Lemma drive_budget rc plans s tr s' :
  runs (foldM (driveOne rc) s plans) tr s' ->
  (Z.of_nat (starts tr) <= ds_budget s - ds_budget s')%Z /\ (Z.min 0 (ds_budget s) <= ds_budget s')%Z.
Proof.
  revert s tr. induction plans as [|plan plans IH]; intros s tr; [intros [-> ->]; cbn; lia|].
  intros (tr1 & tr2 & s1 & -> & H1 & H2)%foldM_cons. apply IH in H2. rewrite starts_app.
  unfold driveOne in H1. deed H1. destruct x as [r b']. apply adviseVolume_budget in R.
  assert (ds_budget s1 = b' /\ starts tr = 0) as [Eb Es]; [|rewrite starts_app, Es; lia].
  destruct r as [o|e]; deed H1; by deed H1.
Qed.

(** *** What a settled volume rests on *)

Notation ownEv o x := (Ev (I := restI) (inr o) x).
Notation kubeEv o x := (evL engineI (Ev (I := kube) o x)).

Definition jobOf (rc : restoreExecContext) (plan : restoreVolumePlan) : string :=
  restoreJobName (restoreNamePrefix (rx_ownerID rc) (pl_pvc plan)).

(** The mover's own word for its result: kept on the Job, or read off its pod and
    stored there. *)
Definition reported (job : Object KJob) (res : MoverResult) (tr : list deed) : Prop :=
  Unmarshal (lget (m_Annotations (o_meta job)) AnnotationMoverResult) = Ok res
  \/ exists pods, ownEv (EListPods (o_name job)) pods ∈ tr
       /\ fst (readMoverResult Unmarshal Quote OperatorNamespace pods (o_name job)) = Ok res
       /\ ownEv (EStampResult (o_name job) res) None ∈ tr.

(** The volume of a plan was delivered. *)
Definition delivered (rc : restoreExecContext) (plan : restoreVolumePlan) (bytes : Z) (tr : list deed) : Prop :=
  exists job res kind handover,
    kubeEv (AGet KJob OperatorNamespace (jobOf rc plan)) (Ok job) ∈ tr
    /\ jobComplete (toJob job) = true /\ jobFailed (toJob job) restoreMoverBackoffLimit = false
    /\ reported job res tr /\ mr_OK res = true /\ mr_RestoredBytes res = bytes
    /\ runs (Finalize (exposureFor rc plan kind)) handover (Ok true) /\ map (evL engineI) handover ⊆ tr.

Lemma resolveMoverOutcome_reported job failed tr res :
  runs (resolveMoverOutcome job failed) tr (Ok res, None) -> failed = false -> mr_OK res = true -> reported job res tr.
Proof.
  unfold resolveMoverOutcome. intros H Hf Hok. deed H.
  - deed H. left. destruct (_ =? ""); [done|exact E].
  - deed H. deed H; [|by deed H]. rewrite Hf in H. cbn [orb] in H. deed H.
    + deed H. by rewrite Hok in E1.
    + deed H. deed H. destruct x0; [done|]. right. exists x. split_and!; [set_solver|done|set_solver].
Qed.

(** A step reports a volume restored only when the Job it read is complete and not
    failed, the mover itself reported success, what it reported is stored on the
    Job, and the handover of this volume's exposure said it is done; the bytes are
    the mover's. *)
Lemma restored_is_delivered (rc : restoreExecContext) (plan : restoreVolumePlan) (b b' : Z) tr (o : volumeOutcome) :
  runs (adviseVolume rc plan b) tr (Ok o, b') -> vo_settled o = true -> vo_failed o = false ->
  delivered rc plan (vo_restoredBytes o) tr.
Proof.
  unfold adviseVolume. intros H Hs Hf. deed H. destruct x as [job|e].
  2: { exfalso. deed H; [|by deed H]. unfold startVolume in H. clear R.
       repeat deed H; try done. unfold createMover in H. repeat deed H; done. }
  deed H. deed H. rewrite app_nil_r. unfold pollVolume in R0.
  apply runs_get in R as ->. deed R0.
  { deed R0. deed R0. by destruct x. }
  deed R0. destruct x as [[res|e] [terr|]]; [by deed R0| |by deed R0|].
  2: { unfold settleFailed in R0. deed R0. by deed R0. }
  deed R0. { unfold settleFailed in R0. deed R0. by deed R0. }
  apply orb_false_iff in E0 as [Hjf Hok%negb_false_iff].
  pose proof (resolveMoverOutcome_reported _ _ _ _ R Hjf Hok) as Hrep.
  unfold settleRestored in R0. deed R0. deed R0. deed R0; [|by deed R0]. deed R0. deed R0.
  match goal with HF : runs (Finalize _) ?u ?d |- _ => destruct d as [[]|e]; simplify_eq; exists job, res, a, u end.
  rewrite Hjf in E.
  split_and!; try done.
  - apply elem_of_cons. by left.
  - by destruct (jobComplete (toJob job)).
  - destruct Hrep as [Hrep|(pods & Hp & Hr & Hst)]; [by left|right].
    exists pods. rewrite !elem_of_app. by eauto 10.
  - intros e He. rewrite !elem_of_app. by auto 10.
Qed.

(** *** A pass over the volumes *)

Lemma delivered_mono rc plan bytes tr tr' : tr ⊆ tr' -> delivered rc plan bytes tr -> delivered rc plan bytes tr'.
Proof.
  intros Hs (job & res & kind & u & H1 & H2 & H3 & Hr & H4 & H5 & H6 & H7). exists job, res, kind, u.
  split_and!; auto.
  - destruct Hr as [Hr|(pods & ? & ? & ?)]; [by left|right; exists pods; split_and!; auto].
  - intros e He. auto.
Qed.

(** The bytes of the restored volumes among (outcome, bytes). *)
Definition bytesOf (outs : list (VolumeRestoreOutcome * Z)) : Z :=
  foldr (fun o n => match fst o with VolumeRestoreRestored => (snd o + n)%Z | _ => n end) 0%Z outs.

Notation failedOut := (fun o => bool_decide (o = VolumeRestoreFailed)).

Lemma driveOne_outcome rc plan s tr s' :
  runs (driveOne rc s plan) tr s' ->
  exists o, (fst o = VolumeRestoreRestored -> delivered rc plan (snd o) tr)
    /\ ds_outcomes s' = fst o :: ds_outcomes s
    /\ (ds_bytes s = int64 (ds_bytes s) -> ds_bytes s' = int64 (ds_bytes s + bytesOf [o]))
    /\ length (ds_failures s') = length (ds_failures s) + countb failedOut [fst o].
Proof.
  unfold driveOne. intros H. deed H. destruct x as [r b']. destruct r as [o|e]; deed H; deed H.
  - exists (classifyVolumeOutcome o None false, vo_restoredBytes o).
    unfold classifyVolumeOutcome. destruct (vo_settled o) eqn:Es; [destruct (vo_failed o) eqn:Ef|];
      cbn; rewrite ?length_app, ?Z.add_0_r; cbn; split_and!; try done; try lia.
    intros _. eapply delivered_mono; [|by eapply restored_is_delivered]. set_solver.
  - exists (if x then VolumeRestoreFailed else VolumeRestoreInFlight, 0%Z).
    destruct x; cbn; rewrite ?length_app, ?Z.add_0_r; cbn; split_and!; try done; lia.
Qed.

Lemma drive_outcomes rc plans s tr s' :
  runs (foldM (driveOne rc) s plans) tr s' ->
  exists outs,
    Forall2 (fun plan o => fst o = VolumeRestoreRestored -> delivered rc plan (snd o) tr) plans outs
    /\ ds_outcomes s' = (rev (map fst outs) ++ ds_outcomes s)%list
    /\ (ds_bytes s = int64 (ds_bytes s) -> ds_bytes s' = int64 (ds_bytes s + bytesOf outs))
    /\ length (ds_failures s') = length (ds_failures s) + countb failedOut (map fst outs).
Proof.
  revert s tr. induction plans as [|plan plans IH]; intros s tr.
  { intros [-> ->]. exists []. cbn. rewrite Z.add_0_r. by auto. }
  intros (tr1 & tr2 & s1 & -> & H1 & H2)%foldM_cons. apply IH in H2 as (outs & Hf & Ho & Hb & Hl).
  apply driveOne_outcome in H1 as (o & Hd & Ho1 & Hb1 & Hl1).
  exists (o :: outs). split_and!.
  - constructor; [intros Ho'; eapply delivered_mono; [|by apply Hd]; set_solver|].
    eapply Forall2_impl; [exact Hf|]. intros p q Hpq Hq. eapply delivered_mono; [|by apply Hpq]. set_solver.
  - rewrite Ho, Ho1. cbn. by rewrite <-app_assoc.
  - intros E. specialize (Hb1 E).
    assert (ds_bytes s1 = int64 (ds_bytes s1)) as E1 by (rewrite Hb1; by int_simpl).
    rewrite (Hb E1), Hb1. unfold bytesOf. cbn. int_simpl. f_equal. destruct (fst o); lia.
  - rewrite Hl, Hl1. cbn. destruct (bool_decide _); lia.
Qed.

Lemma countRestore_in o os : (0 <= countRestore o os <= Z.of_nat (length os))%Z.
Proof. unfold countRestore. pose proof (countb_le_length (fun x => bool_decide (x = o)) os). lia. Qed.

Lemma countRestore_none o os : countRestore o os = 0%Z <-> o ∉ os.
Proof.
  unfold countRestore. change 0%Z with (Z.of_nat 0). rewrite Nat2Z.inj_iff, countb_zero. split.
  - intros H Hin. specialize (H _ Hin). by case_bool_decide.
  - intros H x Hx. apply bool_decide_false. by intros ->.
Qed.

(** The tally of a list that fits an [int32] counts exactly. *)
Lemma drive_tally_exact os :
  (Z.of_nat (length os) < 2 ^ 31)%Z ->
  TallyVolumeRestoreOutcomes os =
    mkRestoreTally (Z.of_nat (length os)) (countRestore VolumeRestoreRestored os)
      (countRestore VolumeRestoreFailed os) (countRestore VolumeRestoreInFlight os)
  /\ RestoreTally_Settled (TallyVolumeRestoreOutcomes os) =
      (countRestore VolumeRestoreRestored os + countRestore VolumeRestoreFailed os)%Z.
Proof.
  intros Hl. pose proof (countRestore_total os) as Ht.
  pose proof (fun o => countRestore_in o os) as Hin.
  pose proof (Hin VolumeRestoreRestored). pose proof (Hin VolumeRestoreFailed). pose proof (Hin VolumeRestoreInFlight).
  assert (TallyVolumeRestoreOutcomes os = mkRestoreTally (Z.of_nat (length os)) (countRestore VolumeRestoreRestored os)
      (countRestore VolumeRestoreFailed os) (countRestore VolumeRestoreInFlight os)) as ->.
  { rewrite TallyVolumeRestoreOutcomes_eq, !int32_id by (unfold in_int32; lia). done. }
  split; [done|]. unfold RestoreTally_Settled. cbn [rt_Restored rt_Failed]. apply int32_id. unfold in_int32. lia.
Qed.

(** A pass that has a tally attends every planned volume once: the tally's counters
    are exact and sum up to the plan; each volume counted as restored was delivered
    in this pass — its mover Job complete, the mover's report of success stored, the
    handover done — and the bytes are what those movers reported; a failure line is
    kept for each failed volume; and no more movers are started than what the
    owner's running ones leave of the cap. *)
Lemma driveVolumes_spec (rc : restoreExecContext) (plans : list restoreVolumePlan) tr (d : volumeDrive) :
  runs (driveVolumes rc plans) tr d -> tallied d = true -> (Z.of_nat (length plans) < 2 ^ 31)%Z ->
  exists (outs : list (VolumeRestoreOutcome * Z)) (jobs : list (Object KJob)),
    Forall2 (fun plan o => fst o = VolumeRestoreRestored -> delivered rc plan (snd o) tr) plans outs
    /\ d_tally d = mkRestoreTally (Z.of_nat (length plans)) (countRestore VolumeRestoreRestored (map fst outs))
                     (countRestore VolumeRestoreFailed (map fst outs)) (countRestore VolumeRestoreInFlight (map fst outs))
    /\ (settled d = completed d + failedCount d)%Z
    /\ ((settled d = Z.of_nat (length plans))%Z <-> VolumeRestoreInFlight ∉ map fst outs)
    /\ Z.of_nat (length (d_failures d)) = failedCount d
    /\ d_restoredBytes d = int64 (bytesOf outs)
    /\ kubeEv (AList KJob (mkSelector (Some OperatorNamespace) (ownerSelector rc) [])) (Ok jobs) ∈ tr
    /\ let running := RunningMoverJobs (map toJob (List.filter (fun o => negb (lget (o_labels o) LabelPVC =? "")
                        && negb (m_Deleting (o_meta o))) jobs)) in
       (Z.of_nat (starts tr) <= Z.max 0 (restoreOwnerMoverCap - Z.of_nat running))%Z.
Proof.
  unfold driveVolumes. intros H Ht Hlen. deed H. unfold ownerRunningMovers in R. deed R. deed R.
  apply runs_list in R0 as ->. destruct x0 as [jobs|e]; simplify_eq; [|by deed H]. deed H. deed H.
  pose proof (drive_budget _ _ _ _ _ R) as [Hc Hm]. apply drive_outcomes in R as (outs & Hf & Ho & Hb & Hl).
  cbn [ds_outcomes ds_bytes ds_failures ds_budget] in *. rewrite app_nil_r in Ho.
  pose proof (Forall2_length _ _ _ Hf) as Hn. set (os := map fst outs) in *.
  assert (length os = length plans) as Hos by (unfold os; by rewrite length_map).
  destruct (drive_tally_exact os) as [Et Es]; [by rewrite Hos|]. pose proof (countRestore_total os) as Htot.
  exists outs, jobs. unfold settled, completed, failedCount. cbn [d_tally d_restoredBytes d_failures].
  rewrite Ho, rev_involutive, Es, Et, Hos. cbn [rt_Restored rt_Failed]. fold os. split_and!; try done.
  - eapply Forall2_impl; [exact Hf|]. intros p q Hpq Hq. eapply delivered_mono; [|by apply Hpq]. set_solver.
  - rewrite <-countRestore_none. lia.
  - by rewrite Hl.
  - by rewrite (Hb eq_refl).
  - cbn. left.
  - cbn. rewrite starts_app. cbn. lia.
Qed.

(** *** The path a mover writes under *)

(** A path below the mount of the target: the mount, then plain names. *)
Definition underMount (t : string) : Prop :=
  exists segs, t = String.concat "/" ("" :: "crystal" :: "target" :: segs)
    /\ Forall (fun s => s <> "" /\ s <> "." /\ s <> ".." /\ has_byte "/" s = false) segs.

Lemma splitOn_clean c s : Forall (fun t => has_byte c t = false) (splitOn c s).
Proof.
  induction s as [|a s IH]; cbn; [by repeat constructor|].
  destruct (Ascii.eqb a c) eqn:E; [by constructor|].
  destruct (splitOn c s) as [|t l]; inversion IH; subst; repeat constructor; try done; cbn; rewrite E; done.
Qed.

Lemma cleanStep_kept segs kept :
  Forall (fun t => has_byte "/" t = false) segs -> existsb (String.eqb "..") segs = false ->
  Forall (fun s => s <> "" /\ s <> "." /\ s <> ".." /\ has_byte "/" s = false) kept ->
  Forall (fun s => s <> "" /\ s <> "." /\ s <> ".." /\ has_byte "/" s = false) (fold_left cleanStep segs kept).
Proof.
  revert kept. induction segs as [|seg segs IH]; intros kept Hb Hd Hk; [done|].
  cbn [fold_left]. apply Forall_cons in Hb as [Hb Hbs]. cbn [existsb] in Hd. apply orb_false_iff in Hd as [Hd Hds].
  apply IH; [done..|]. unfold cleanStep. apply String.eqb_neq in Hd.
  destruct (String.eqb_spec seg ""); [done|]. destruct (String.eqb_spec seg "."); [done|]. cbn [orb].
  destruct (String.eqb_spec seg ".."); [by subst|]. by constructor.
Qed.

Lemma restoreTargetPath_under targetPath t : restoreTargetPath Quote targetPath = Ok t -> underMount t.
Proof.
  unfold restoreTargetPath. intros H.
  assert (underMount restoreTargetMountPath) as H0 by (exists []; split; [reflexivity|constructor]).
  destruct (_ || _); [by simplify_eq|]. destruct (existsb _ _) eqn:Ed; [done|].
  destruct (_ =? "/") eqn:Er; simplify_eq; [done|].
  unfold CleanRooted in *. change (splitOn "/" ("/" ++ targetPath)) with ("" :: splitOn "/" targetPath) in *.
  cbn [fold_left] in *. change (cleanStep [] "") with (@nil string) in *.
  exists (rev (fold_left cleanStep (splitOn "/" targetPath) [])). split.
  - destruct (rev _) eqn:E; [done|reflexivity].
  - apply Forall_rev. apply cleanStep_kept; [apply splitOn_clean|done|constructor].
Qed.

(** *** The creation of a mover *)

Lemma noMover_absent tr j err : Forall noMover tr -> ownEv (ECreateMover j) err ∉ tr.
Proof. rewrite Forall_forall. intros H Hin. exact (H _ Hin). Qed.

Lemma createMover_creates rc plan ex jobName b tr r b' j err :
  runs (createMover rc plan ex jobName b) tr (r, b') -> ownEv (ECreateMover j) err ∈ tr ->
  exists target, underMount target /\ j = moverJob rc plan ex jobName target.
Proof.
  unfold createMover. intros H Hin. deed H. apply ensureRestoreCreds_noMover in R.
  apply elem_of_app in Hin as [Hin|Hin]; [by apply noMover_absent in Hin|].
  destruct x; [by deed H; apply not_elem_of_nil in Hin|].
  destruct (restoreTargetPath Quote (pl_targetPath plan)) as [target|e] eqn:Et; [|by deed H; apply not_elem_of_nil in Hin].
  apply restoreTargetPath_under in Et. exists target. split; [done|].
  deed H. apply elem_of_app in Hin as [Hin|Hin]; [by apply list_elem_of_singleton in Hin; simplify_eq|].
  repeat deed H; by apply not_elem_of_nil in Hin.
Qed.

(** A step asks for a mover Job only within the budget of starts, when the Job was
    read absent, the target this step exposed was read ready, and no exclusive
    operation holds or awaits the repository.  The Job mounts the staging claim of
    the volume's prefix, and restores under the mount of the target, whatever the
    plan's path says. *)
Theorem mover_admission (rc : restoreExecContext) (plan : restoreVolumePlan) (b b' : Z) tr r (j : RestoreJob) err :
  runs (adviseVolume rc plan b) tr (r, b') -> ownEv (ECreateMover j) err ∈ tr ->
  (0 < b)%Z
  /\ (exists e, kubeEv (AGet KJob OperatorNamespace (jobOf rc plan)) (Err e) ∈ tr /\ IsNotFound e = true)
  /\ (hasQueue = true -> rx_repoName rc <> "" -> ownEv (EQuiescenceRequired (rx_repoName rc)) false ∈ tr)
  /\ exists ex exposing checking target,
       runs (TargetExpose OperatorNamespace
         (mkTargetRequest (rx_targetNamespace rc) (pl_pvc plan) (pl_storageClass plan) (pl_capacity plan)
            (pl_accessModes plan) (restoreNamePrefix (rx_ownerID rc) (pl_pvc plan)) (volumeLabels rc (pl_pvc plan))
            (rx_restoredFromRun rc))) exposing (Ok ex)
       /\ runs (TargetReady ex) checking (Ok true)
       /\ map (evL engineI) exposing ⊆ tr /\ map (evL engineI) checking ⊆ tr
       /\ underMount target /\ j = moverJob rc plan ex (jobOf rc plan) target.
Proof.
  unfold adviseVolume. intros H Hin. deed H. apply runs_get in R as ->. destruct x as [job|e].
  { exfalso. deed H. deed H. apply pollVolume_noMover in R. revert Hin. apply noMover_absent. no_mover. }
  apply elem_of_app in Hin as [Hin|Hin]; [exfalso; by apply list_elem_of_singleton in Hin|].
  deed H; [|deed H; by apply not_elem_of_nil in Hin].
  unfold startVolume in H. deed H. destruct x as [ex|]; [|exfalso; repeat deed H; revert Hin; apply noMover_absent; no_mover].
  deed H. destruct x as [[]|]; [|exfalso; repeat deed H; revert Hin; apply noMover_absent; no_mover..].
  deed H. rewrite !elem_of_app in Hin.
  destruct Hin as [Hin|[Hin|[Hin|Hin]]];
    [exfalso; revert Hin; apply noMover_absent; no_mover..| |].
  { exfalso. revert Hin. apply noMover_absent. destruct (hasQueue && _); [apply own_runs in R1 as ->|destruct R1 as [-> _]]; no_mover. }
  destruct x; [by deed H; apply not_elem_of_nil in Hin|].
  destruct (b <=? 0)%Z eqn:Eb; [by deed H; apply not_elem_of_nil in Hin|].
  eapply createMover_creates in H as (target & Ht & Hj); [|done]. split_and!.
  - lia.
  - exists e. split; [left|done].
  - intros Hq Hn. apply String.eqb_neq in Hn. rewrite Hq, Hn in R1. cbn [negb andb] in R1. apply own_runs in R1 as ->. set_solver.
  - exists ex, u, u0, target. split_and!; try done; set_solver.
Qed.

End Engine.

(** ** The memory over a restore *)

(** What the passes of all restores do with the memory, in any order. *)
Inductive memory_op :=
| MPin (owner name : string)
| MShouldUnlock (key : string)
| MNoteError (key : string)
| MClearError (key : string)
| MStore (owner run : string) (byPVC : gmap string Snapshot) (manifests : list Snapshot)
| MStoreCluster (owner run : string) (byPVC : gmap string Snapshot) (manifests : list Snapshot)
| MForgetListing (owner : string)
| MForget (owner ownerID : string).

Definition memory_step (e : restoreEngine) (o : memory_op) : restoreEngine :=
  match o with
  | MPin owner name => snd (pinSource owner name e)
  | MShouldUnlock key => snd (shouldEnqueueUnlock key e)
  | MNoteError key => snd (noteVolumeError key e)
  | MClearError key => clearVolumeError key e
  | MStore owner run byPVC manifests => storeResolution owner run byPVC manifests e
  | MStoreCluster owner run byPVC manifests => storeClusterResolution owner run byPVC manifests e
  | MForgetListing owner => forgetListing owner e
  | MForget owner ownerID => forgetResolution owner ownerID e
  end.

Definition forgets (owner : string) (o : memory_op) : bool :=
  match o with MForget owner' _ => owner' =? owner | _ => false end.

Lemma memory_step_keeps_pin owner pinned e o :
  pinnedSourceFor owner e = Some pinned -> forgets owner o = false ->
  pinnedSourceFor owner (memory_step e o) = Some pinned.
Proof.
  unfold pinnedSourceFor. intros He Ho. destruct o; cbn in *; try done.
  - unfold pinSource. destruct (en_pinnedSource e !! owner0) eqn:E; cbn; [done|].
    rewrite lookup_insert_ne; [done|]. intros ->. congruence.
  - unfold shouldEnqueueUnlock. by case_bool_decide.
  - apply String.eqb_neq in Ho. by rewrite lookup_delete_ne.
Qed.

(** One restore, one point in time: whatever the passes of all restores do to the
    memory in between, the source a restore resolved first is the source every
    later resolution of it gets, until it is forgotten at its end. *)
Theorem pin_sticks (e : restoreEngine) (owner name later : string) (ops : list memory_op) :
  forallb (fun o => negb (forgets owner o)) ops = true ->
  let '(pinned, e1) := pinSource owner name e in
  let e2 := fold_left memory_step ops e1 in
  pinnedSourceFor owner e2 = Some pinned /\ pinSource owner later e2 = (pinned, e2)
  /\ (pinnedSourceFor owner e = None -> pinned = name).
Proof.
  intros Hops. destruct (pinSource owner name e) as [pinned e1] eqn:Ep.
  assert (pinnedSourceFor owner e1 = Some pinned /\ (pinnedSourceFor owner e = None -> pinned = name)) as [H1 H3].
  { unfold pinSource, pinnedSourceFor in *. destruct (en_pinnedSource e !! owner) eqn:E; simplify_eq; [done|].
    cbn. by rewrite lookup_insert_eq. }
  cbv zeta. clear Ep. revert e1 H1. induction ops as [|o ops IH]; intros e1 H1.
  - cbn. split_and!; try done. unfold pinSource. unfold pinnedSourceFor in H1. by rewrite H1.
  - cbn in Hops. apply andb_true_iff in Hops as [Ho%negb_true_iff Hops]. cbn. apply IH; [done|].
    by apply memory_step_keeps_pin.
Qed.

(** The errors of a volume that no success and no forgetting came between. *)
Fixpoint noted (n : nat) (key : string) (e : restoreEngine) : restoreEngine :=
  match n with O => e | S n => snd (noteVolumeError key (noted n key e)) end.

Lemma noted_count n key e :
  default 0%Z (en_errCounts (noted n key e) !! key) = (Z.of_nat n + default 0%Z (en_errCounts e !! key))%Z.
Proof.
  induction n as [|n IH]; [done|]. cbn [noted noteVolumeError snd en_errCounts]. rewrite lookup_insert_eq. cbn [from_option id]. rewrite IH. lia.
Qed.

(** A volume is given up at its sixtieth error in a row, and not before. *)
Lemma gives_up_at_limit n key e :
  en_errCounts e !! key = None ->
  fst (noteVolumeError key (noted n key e)) = (maxVolumeAdviseErrors <=? Z.of_nat n + 1)%Z.
Proof. intros He. cbn [noteVolumeError fst]. rewrite noted_count, He. cbn [from_option]. f_equal. lia. Qed.

(** ** Witnesses, and two findings on concrete runs *)

(** Accepts every write, knows no pods, admits every start, and answers the API from [api]. *)
Definition wit_rest_server (api : server kube) : server restI :=
  fun past o =>
    match o with
    | inl k => api (omap leftOf past) k
    | inr o =>
        match o return engine_answer o with
        | EReadSecret _ _ _ => Ok "key"
        | EListPods _ => Ok []
        | ECreateCreds _ _ _ _ _ | EDeletePods _ | EStampResult _ _ | ECreateMover _ => None
        | EQuiescenceRequired _ | ENoteError _ => false
        | EShouldUnlock _ => true
        | EEnqueueUnlock _ _ | EClearError _ => tt
        | ENow => 0%Z
        end
    end.

(** An encoding of a result that decodes to a success of seven bytes. *)
Definition wit_unmarshal (s : string) : result MoverResult :=
  if s =? "seven" then Ok (mkMoverResult true "restore" "" 0 0 7 0 false 0 0 0 [] false "" ([], ""))
  else Err (errorf "unexpected end of JSON input").
Definition wit_quote (s : string) : string := s.

Definition wit_rest_rc (namespace name : string) : restoreExecContext :=
  mkExecContext name LabelRestore (restoreOwnerID namespace name) namespace false "nightly" "repo" "s3:url" "dek" "creds" None "c1".

Definition wit_rest_plan (pvc : string) : restoreVolumePlan := mkPlan pvc "1234abcd" "/data" [] [] "sub/./dir" 10 "keep" [ReadWriteOnce].

(** The finished mover Job of a Restore: its labels are the owner's. *)
Definition wit_done_job (rc : restoreExecContext) (pvc : string) : Object KJob :=
  mkObject (k := KJob)
    (set_m_annotations {[ AnnotationMoverResult := "seven" ]}
      (newMeta "crystal" (restoreJobName (restoreNamePrefix (rx_ownerID rc) pvc))
        (<[LabelExposureKind := KindTwin]> (volumeLabels rc pvc))))
    (mkJobStatus 1 0 [mkJobCondition JobComplete true]).

Definition wit_rest_api (jobs : list (Object KJob)) (claims : list (Object KPVC)) : server kube :=
  plainServer
    (fun k _ name => match k return result (Object k) with
                     | KJob => match find (fun o => o_name o =? name) jobs with
                               | Some j => Ok j | None => Err (mkErr ENotFound "not found") end
                     | KPVC => match find (fun o => o_name o =? name) claims with
                               | Some c => Ok c | None => Err (mkErr ENotFound "not found") end
                     | _ => Err (mkErr ENotFound "not found")
                     end)
    (fun k sel => match k return result (list (Object k)) with
                  | KJob => Ok (List.filter (fun o => selects sel (o_meta o)) jobs)
                  | _ => Ok []
                  end).

(** The staging claim of a transplant. *)
Definition wit_staging (name : string) : Object KPVC :=
  mkObject (k := KPVC) (newMeta "crystal" name ∅) (mkPersistentVolumeClaim [ReadWriteOnce] (Some "keep") 10 "" None None "").

(** A pass over two volumes of which one is delivered and the other's mover starts. *)
Definition wit_drive : list deed * volumeDrive :=
  let rc := wit_rest_rc "team" "r" in
  exec (wit_rest_server (wit_rest_api [wit_done_job rc "data"] [wit_staging "rst-team-r-logs-target"]))
    (driveVolumes "crystal" true wit_unmarshal wit_quote rc [wit_rest_plan "data"; wit_rest_plan "logs"]) [].

Lemma wit_drive_runs :
  runs (driveVolumes "crystal" true wit_unmarshal wit_quote (wit_rest_rc "team" "r")
    [wit_rest_plan "data"; wit_rest_plan "logs"]) (fst wit_drive) (snd wit_drive).
Proof. apply exec_runs. Qed.

Lemma driveVolumes_spec_witness :
  d_tally (snd wit_drive) = mkRestoreTally 2 1 0 1 /\ d_restoredBytes (snd wit_drive) = 7%Z /\ starts (fst wit_drive) = 1
  /\ exists outs jobs,
    Forall2 (fun plan o => fst o = VolumeRestoreRestored ->
              delivered "crystal" wit_unmarshal wit_quote (wit_rest_rc "team" "r") plan (snd o) (fst wit_drive))
      [wit_rest_plan "data"; wit_rest_plan "logs"] outs
    /\ Ev (I := restI) (inl (AList KJob (mkSelector (Some "crystal") (ownerSelector (wit_rest_rc "team" "r")) []))) (Ok jobs)
       ∈ fst wit_drive.
Proof.
  split_and!; [by vm_compute..|].
  destruct (driveVolumes_spec _ _ _ _ _ _ _ _ wit_drive_runs) as (outs & jobs & H1 & _ & _ & _ & _ & _ & H7 & _);
    [by vm_compute|cbn; lia|].
  by exists outs, jobs.
Defined.

(** The step that creates the Job of [logs], whose staging claim was read. *)
Definition wit_advise : list deed * (result volumeOutcome * Z) :=
  exec (wit_rest_server (wit_rest_api [] [wit_staging "rst-team-r-logs-target"]))
    (adviseVolume "crystal" true wit_unmarshal wit_quote (wit_rest_rc "team" "r") (wit_rest_plan "logs") 4) [].

Lemma wit_advise_runs :
  runs (adviseVolume "crystal" true wit_unmarshal wit_quote (wit_rest_rc "team" "r") (wit_rest_plan "logs") 4)
    (fst wit_advise) (fst (snd wit_advise), snd (snd wit_advise)).
Proof. rewrite <-surjective_pairing. apply exec_runs. Qed.

(** The mover Jobs a trace asks for. *)
Definition movers (tr : list deed) : list RestoreJob :=
  omap (fun e : deed => match ev_action e with inr (ECreateMover j) => Some j | _ => None end) tr.

Lemma movers_asked tr j : j ∈ movers tr -> exists err, Ev (I := restI) (inr (ECreateMover j)) err ∈ tr.
Proof.
  unfold movers. intros (e & He & Hj)%list_elem_of_omap. destruct e as [[?|[]] err]; cbn in Hj; try done. injection Hj as ->. by exists err.
Qed.

Lemma mover_admission_witness :
  exists j, movers (fst wit_advise) = [j] /\ rj_Claim j = "rst-team-r-logs-target"
    /\ exists target, underMount target
        /\ rj_ResticArgs j = RestoreArgs "1234abcd" "/data" target false [] [].
Proof.
  destruct (movers (fst wit_advise)) as [|j [|]] eqn:Em; [exfalso; by vm_compute in Em| |exfalso; by vm_compute in Em].
  assert (j ∈ movers (fst wit_advise)) as Hj by (rewrite Em; left).
  destruct (movers_asked _ _ Hj) as [err He].
  destruct (mover_admission _ _ _ _ _ _ _ _ _ _ _ _ wit_advise_runs He)
    as (_ & _ & _ & ex & exposing & checking & target & _ & _ & _ & _ & Hu & Hjob).
  exists j. split_and!; [done| |].
  - assert (map rj_Claim (movers (fst wit_advise)) = ["rst-team-r-logs-target"]) as Hc by by vm_compute.
    rewrite Em in Hc. by injection Hc.
  - exists target. split; [done|]. by rewrite Hjob.
Defined.

Lemma pin_sticks_witness :
  let ops := [MPin "team/r" "run-2"; MForgetListing "team/r"; MForget "team/other" "rst-team-other"] in
  let '(pinned, e1) := pinSource "team/r" "run-1" newRestoreEngine in
  pinned = "run-1" /\ pinnedSourceFor "team/r" (fold_left memory_step ops e1) = Some "run-1".
Proof.
  cbv zeta.
  destruct (pin_sticks newRestoreEngine "team/r" "run-1" "run-3"
    [MPin "team/r" "run-2"; MForgetListing "team/r"; MForget "team/other" "rst-team-other"] ltac:(by vm_compute)) as (H & _ & _).
  split; [done|]. exact H.
Defined.

(** Two Restores whose namespace and name join to the same string have one owner
    identity: the second's volume finds the first's finished Job under its own
    name and is reported restored, without a target of its own ever being exposed
    or a mover started. *)
Lemma restoreOwnerID_collides :
  let first := wit_rest_rc "a" "b-c" in let second := wit_rest_rc "a-b" "c" in
  let run := exec (wit_rest_server (wit_rest_api [wit_done_job first "data"] []))
    (adviseVolume "crystal" true wit_unmarshal wit_quote second (wit_rest_plan "data") 4) [] in
  rx_targetNamespace first <> rx_targetNamespace second
  /\ snd run = (Ok (mkVolumeOutcome true false "" 7), 4%Z)
  /\ movers (fst run) = [] /\ forallb (fun e : happening => match creation e with Some _ => false | None => true end) (omap leftOf (fst run)) = true.
Proof. cbv zeta. split; [discriminate|]. split_and!; by vm_compute. Qed.

(** The pin lives in memory only: a restarted operator resolves anew. *)
Lemma restart_repins :
  fst (pinSource "team/r" "run-2" (snd (pinSource "team/r" "run-1" newRestoreEngine))) = "run-1"
  /\ fst (pinSource "team/r" "run-2" newRestoreEngine) = "run-2".
Proof. by vm_compute. Qed.
