(* ===== verification/ManifestSelection.v ===== *)
(** * ManifestSelection: which manifests a capture or a restore covers, and the
    order they are applied in (internal/manifests: selection.go, clusterscope.go,
    phases.go, index.go)

    Patterns are written [<group>/<Kind>[/<name>]] with globs in each segment.  The
    JSON carriers of the selections are not modelled: the encoders are parameters
    of the code that calls them. *)

From Stdlib Require Import Ascii String.
From S2P Require Import Prelude GoText Cluster Selectors Restic.

#[local] Open Scope string_scope.

(** ** Selections *)

Record SelectionItem := mkSelectionItem {
  si_Selector : option LabelSelector;
  si_Include : list string;
  si_Exclude : list string
}.

Record Selection := mkSelection { se_All : bool; se_Items : list SelectionItem }.

Record resourcePattern := mkPattern { pt_group : string; pt_kind : string; pt_name : string }.

Definition CoreGroupDir : string := "core".
Definition matchAll : string := "*".

(** ** Matching a pattern *)

Definition segMatch (pattern value : string) : bool :=
  if pattern =? matchAll then true
  else if pattern =? "" then value =? ""
  else matches pattern value.

Definition pattern_matches (p : resourcePattern) (group kind name : string) : bool :=
  segMatch (pt_group p) group && segMatch (pt_kind p) kind && segMatch (pt_name p) name.

Definition anyPattern (pats : list resourcePattern) (group kind name : string) : bool :=
  existsb (fun p => pattern_matches p group kind name) pats.

Definition anyPatternKind (pats : list resourcePattern) (group kind : string) : bool :=
  existsb (fun p => segMatch (pt_group p) group && segMatch (pt_kind p) kind) pats.

(** ** Parsing a pattern *)

Definition normalizeGroup (g : string) : string := if g =? CoreGroupDir then "" else g.

Definition badGlob (s : string) : bool := match Match s "" with MBadPattern => true | MOk _ => false end.

Section Selections.
Variable IsUpper : N -> bool.                                       (* unicode.IsUpper *)
Variable Quote : string -> string.                                  (* fmt's %q *)
(** [metav1.LabelSelectorAsSelector] and the [Matches] of what it returns. *)
Variable AsSelector : LabelSelector -> result (labels -> bool).

(** The first rune of the text is upper case. *)
Definition startsUpper (s : string) : bool := if s =? "" then false else IsUpper (fst (DecodeRune s)).

(** The three segments of a pattern, before its globs are checked. *)
Definition patternOf (raw : string) (segs : list string) : result resourcePattern :=
  let first := hd "" segs in
  if startsUpper first then
    if (2 <? List.length segs)%nat then
      Err (errorf ("pattern " ++ Quote raw ++ " starts with the Kind " ++ Quote first
        ++ ", so it may carry at most a name after it"))
    else Ok (mkPattern "" first (if (List.length segs =? 2)%nat then nth 1 segs "" else matchAll))
  else
    Ok (mkPattern (normalizeGroup first)
      (if (1 <? List.length segs)%nat then nth 1 segs "" else matchAll)
      (if (2 <? List.length segs)%nat then nth 2 segs "" else matchAll)).

Definition TrimPrefix (s p : string) : string := if HasPrefix s p then sdrop (slen p) s else s.

Definition parseResourcePattern (raw : string) : result resourcePattern :=
  let trimmed := TrimSpace raw in
  if trimmed =? "" then Err (errorf "empty pattern")
  else
    let segs := splitOn "/" (TrimPrefix trimmed "/") in
    if (3 <? List.length segs)%nat then
      Err (errorf ("pattern " ++ Quote raw ++ " has " ++ Itoa (Z.of_nat (List.length segs))
        ++ " segments; the form is <group>/<Kind>[/<name>]"))
    else if existsb (String.eqb "") segs then Err (errorf ("pattern " ++ Quote raw ++ " has an empty segment"))
    else
      match patternOf raw segs with
      | Err e => Err e
      | Ok p =>
          match find badGlob [pt_group p; pt_kind p; pt_name p] with
          | Some s => Err (errorf ("pattern " ++ Quote raw ++ ": bad glob " ++ Quote s ++ ": syntax error in pattern"))
          | None => Ok p
          end
      end.

Fixpoint compilePatterns (raw : list string) : result (list resourcePattern) :=
  match raw with
  | [] => Ok []
  | r :: raw =>
      match parseResourcePattern r with
      | Err e => Err e
      | Ok p => match compilePatterns raw with Err e => Err e | Ok ps => Ok (p :: ps) end
      end
  end.

(** ** The compiled selection *)

Record compiledItem := mkCompiledItem {
  ci_labels : labels -> bool;
  ci_include : list resourcePattern;
  ci_exclude : list resourcePattern
}.

Record CompiledSelection := mkCompiled { cs_all : bool; cs_items : list compiledItem }.

Definition compileItem (i : nat) (item : SelectionItem) : result compiledItem :=
  let at_ field e := Err (wrap_err ("resources[" ++ Itoa (Z.of_nat i) ++ "]." ++ field) e) in
  match (match si_Selector item with None => Ok (fun _ : labels => true) | Some sel => AsSelector sel end) with
  | Err e => at_ "selector" e
  | Ok sel =>
      match compilePatterns (si_Include item) with
      | Err e => at_ "include" e
      | Ok inc =>
          match compilePatterns (si_Exclude item) with
          | Err e => at_ "exclude" e
          | Ok exc => Ok (mkCompiledItem sel inc exc)
          end
      end
  end.

Fixpoint compileItems (i : nat) (items : list SelectionItem) : result (list compiledItem) :=
  match items with
  | [] => Ok []
  | item :: items =>
      match compileItem i item with
      | Err e => Err e
      | Ok c => match compileItems (S i) items with Err e => Err e | Ok cs => Ok (c :: cs) end
      end
  end.

Definition Compile (s : Selection) : result CompiledSelection :=
  match compileItems 0 (se_Items s) with
  | Err e => Err e
  | Ok items => Ok (mkCompiled (se_All s) items)
  end.

Definition item_matches (it : compiledItem) (group kind name : string) (set : labels) : bool :=
  if negb (ci_labels it set) then false
  else if (0 <? List.length (ci_include it))%nat && negb (anyPattern (ci_include it) group kind name) then false
  else negb (anyPattern (ci_exclude it) group kind name).

Definition selection_matches (c : CompiledSelection) (group kind name : string) (objectLabels : labels) : bool :=
  cs_all c || existsb (fun it => item_matches it group kind name objectLabels) (cs_items c).

(** ** The cluster-scoped capture *)

Record ClusterCaptureOptions := mkCaptureOptions { cc_Include : list string; cc_Exclude : list string }.

Record ClusterSelector := mkClusterSelector {
  cs_include : list resourcePattern;
  cs_exclude : list resourcePattern;
  cs_useDefaultAllowList : bool
}.

Definition CompileClusterSelector (opts : ClusterCaptureOptions) : result ClusterSelector :=
  match compilePatterns (cc_Include opts) with
  | Err e => Err e
  | Ok inc =>
      match compilePatterns (cc_Exclude opts) with
      | Err e => Err e
      | Ok exc => Ok (mkClusterSelector inc exc (List.length inc =? 0)%nat)
      end
  end.
End Selections.

Definition groupApps : string := "apps".
Definition groupBatch : string := "batch".
Definition groupRBAC : string := "rbac.authorization.k8s.io".
Definition groupNetworking : string := "networking.k8s.io".
Definition groupStorage : string := "storage.k8s.io".
Definition groupAPIExtensions : string := "apiextensions.k8s.io".
Definition groupScheduling : string := "scheduling.k8s.io".
Definition groupNode : string := "node.k8s.io".
Definition groupSnapshot : string := "snapshot.storage.k8s.io".

Definition GroupKind : Type := string * string.

Definition ClusterAllowKinds : list GroupKind :=
  [(groupAPIExtensions, "CustomResourceDefinition"); (groupStorage, "StorageClass"); (groupSnapshot, "VolumeSnapshotClass");
   (groupNetworking, "IngressClass"); (groupScheduling, "PriorityClass"); (groupNode, "RuntimeClass");
   (groupRBAC, "ClusterRole"); (groupRBAC, "ClusterRoleBinding"); ("", "PersistentVolume")].

Definition wellKnownSystemNames : list string :=
  ["cluster-admin"; "admin"; "edit"; "view"; "cluster-status"; "kubeadm:get-nodes"; "kubeadm:cluster-admins";
   "kubeadm:kubelet-bootstrap"; "kubeadm:node-autoapprove-bootstrap";
   "kubeadm:node-autoapprove-certificate-rotation"; "kubeadm:node-proxier"].

Definition SelectsKind (s : ClusterSelector) (group kind : string) : bool :=
  if cs_useDefaultAllowList s then bool_decide ((group, kind) ∈ ClusterAllowKinds)
  else anyPatternKind (cs_include s) group kind.

Definition isSystemOwned (group kind name : string) : bool :=
  if negb (group =? groupRBAC) then false
  else if negb (kind =? "ClusterRole") && negb (kind =? "ClusterRoleBinding") then false
  else HasPrefix name "system:" || existsb (String.eqb name) wellKnownSystemNames.

Definition SelectsObject (s : ClusterSelector) (group kind name : string) : bool :=
  if negb (SelectsKind s group kind) then false
  else if negb (cs_useDefaultAllowList s) && negb (anyPattern (cs_include s) group kind name) then false
  else if isSystemOwned group kind name then false
  else negb (anyPattern (cs_exclude s) group kind name).

(** ** The order of an apply *)

Definition phaseServiceAccounts : Z := 1.
Definition phaseRBAC : Z := 2.
Definition phaseConfigAndSecrets : Z := 3.
Definition phasePVCs : Z := 4.
Definition phaseEverythingElse : Z := 5.
Definition phaseWorkloads : Z := 6.
Definition phaseNetworking : Z := 7.

Definition phaseClusterCRDs : Z := 1.
Definition phaseClusterOther : Z := 2.
Definition phaseClusterNamespaces : Z := 3.

Definition phaseByKind : list (GroupKind * Z) :=
  [(("", "ServiceAccount"), phaseServiceAccounts);
   ((groupRBAC, "Role"), phaseRBAC); ((groupRBAC, "RoleBinding"), phaseRBAC);
   (("", "ConfigMap"), phaseConfigAndSecrets); (("", "Secret"), phaseConfigAndSecrets);
   (("", "PersistentVolumeClaim"), phasePVCs);
   ((groupApps, "Deployment"), phaseWorkloads); ((groupApps, "StatefulSet"), phaseWorkloads);
   ((groupApps, "DaemonSet"), phaseWorkloads); ((groupApps, "ReplicaSet"), phaseWorkloads);
   ((groupBatch, "Job"), phaseWorkloads); ((groupBatch, "CronJob"), phaseWorkloads); (("", "Pod"), phaseWorkloads);
   (("", "Service"), phaseNetworking); ((groupNetworking, "Ingress"), phaseNetworking);
   ((groupNetworking, "NetworkPolicy"), phaseNetworking)].

Definition clusterPhaseByKind : list (GroupKind * Z) :=
  [((groupAPIExtensions, "CustomResourceDefinition"), phaseClusterCRDs);
   ((groupStorage, "StorageClass"), phaseClusterOther); ((groupScheduling, "PriorityClass"), phaseClusterOther);
   ((groupNetworking, "IngressClass"), phaseClusterOther); ((groupNode, "RuntimeClass"), phaseClusterOther);
   ((groupSnapshot, "VolumeSnapshotClass"), phaseClusterOther); ((groupRBAC, "ClusterRole"), phaseClusterOther);
   ((groupRBAC, "ClusterRoleBinding"), phaseClusterOther); (("", "PersistentVolume"), phaseClusterOther);
   (("", "Namespace"), phaseClusterNamespaces)].

Definition phaseIn (table : list (GroupKind * Z)) (group kind : string) : option Z :=
  option_map snd (find (fun e => bool_decide (fst e = (group, kind))) table).

Definition applyPhase (group kind : string) (clusterScoped : bool) : Z :=
  if clusterScoped then default phaseClusterOther (phaseIn clusterPhaseByKind group kind)
  else default phaseEverythingElse (phaseIn phaseByKind group kind).

(** ** Where a manifest is stored *)

Definition StoragePath (group kind name : string) : string :=
  let group := if group =? "" then CoreGroupDir else group in
  String.concat "/" [group; kind; name ++ ".yaml"].

(** ** Lemmas: whether a glob is malformed depends on the glob alone *)

Lemma scan_ranges_chunk fuel r r' n hit hit' chunk :
  option_map snd (scan_ranges fuel r n hit chunk) = option_map snd (scan_ranges fuel r' n hit' chunk).
Proof.
  revert n hit hit' chunk. induction fuel as [|fuel IH]; intros n hit hit' chunk; [done|]. cbn [scan_ranges].
  destruct (_ && _); [done|]. destruct (getEsc chunk) as [[lo c]|]; [|done].
  destruct (head_is "-" c); [|apply IH]. destruct (getEsc (sdrop 1 c)) as [[hi c']|]; [|done]. apply IH.
Qed.

Lemma matchChunk_bad fuel failed failed' chunk s s' :
  matchChunk fuel failed chunk s = None -> matchChunk fuel failed' chunk s' = None.
Proof.
  revert failed failed' chunk s s'. induction fuel as [|fuel IH]; intros failed failed' chunk s s'; [done|].
  destruct chunk as [|c ctl]; [done|]. cbn [matchChunk].
  destruct (Ascii.eqb c "[").
  - set (f := failed || (s =? "")). set (f' := failed' || (s' =? "")).
    destruct (if f then _ else _) as [r n]. destruct (if f' then _ else _) as [r' n'].
    set (body := if head_is "^" ctl then sdrop 1 ctl else ctl).
    pose proof (scan_ranges_chunk (S (slen body)) r r' 0 false false body) as Hs.
    destruct (scan_ranges _ r 0 false body) as [[h1 c1]|], (scan_ranges _ r' 0 false body) as [[h2 c2]|]; try done.
    cbn in Hs. injection Hs as ->. apply IH.
  - destruct (Ascii.eqb c "?").
    + destruct (failed || _), (failed' || _); apply IH.
    + destruct (if Ascii.eqb c "\" then ctl else String c ctl) as [|c' ctl']; [done|].
      destruct (failed || _), (failed' || _); apply IH.
Qed.

Lemma match_chunk_bad chunk s s' : match_chunk chunk s = None -> match_chunk chunk s' = None.
Proof. apply matchChunk_bad. Qed.

Lemma star_scan_bad chunk last name s : star_scan chunk last name = None -> match_chunk chunk s = None.
Proof.
  induction name as [|a name IH]; [done|]. cbn [star_scan]. destruct (Ascii.eqb a "/"); [done|].
  destruct (match_chunk chunk name) as [[t|]|] eqn:E; [destruct (last && _); [exact IH|done]|exact IH|].
  intros _. by eapply match_chunk_bad.
Qed.

Lemma sdrop_cons n a s : sdrop (S n) (String a s) = sdrop n s.
Proof. reflexivity. Qed.

Lemma slen_sdrop n s : slen (sdrop n s) = slen s - n.
Proof.
  revert s. induction n as [|n IH]; intros s.
  - unfold sdrop. rewrite Nat.sub_0_r. by rewrite substring_all.
  - destruct s as [|a s]; [done|]. rewrite sdrop_cons, IH. reflexivity.
Qed.

Lemma skip_stars_spec p :
  (fst (skip_stars p) = false /\ snd (skip_stars p) = p /\ head_is "*" p = false)
  \/ (fst (skip_stars p) = true /\ slen (snd (skip_stars p)) < slen p /\ head_is "*" (snd (skip_stars p)) = false).
Proof.
  induction p as [|a p IH]; [by left|]. destruct (decide (a = "*"%char)) as [->|Hne].
  - right. change (skip_stars (String "*" p)) with (true, snd (skip_stars p)). cbn [fst snd].
    change (slen (String "*" p)) with (S (slen p)).
    destruct IH as [(_ & E & H)|(_ & H & H')]; [rewrite E|]; split_and!; try done; lia.
  - left. assert (skip_stars (String a p) = (false, String a p)) as ->.
    { destruct a as [[] [] [] [] [] [] [] []]; try reflexivity. by contradiction Hne. }
    split_and!; try done. cbn. by apply Ascii.eqb_neq.
Qed.

Lemma chunk_len_pos p : p <> "" -> head_is "*" p = false -> 0 < chunk_len false p.
Proof.
  destruct p as [|a p]; [done|]. intros _ Ha. cbn in Ha.
  destruct a as [[] [] [] [] [] [] [] []]; try done; cbn; try lia; destruct p; cbn; lia.
Qed.

(** A step of the scan consumes something. *)
Lemma scanChunk_len p star chunk rest :
  p <> "" -> scanChunk p = (star, chunk, rest) -> slen rest < slen p.
Proof.
  intros Hp. unfold scanChunk. destruct (skip_stars p) as [st q] eqn:Eq. intros H. injection H as <- _ <-.
  rewrite slen_sdrop. destruct (skip_stars_spec p) as [(H1 & H2 & H3)|(H1 & H2 & H3)]; rewrite Eq in *; cbn [fst snd] in *; subst.
  - pose proof (chunk_len_pos p Hp H3). assert (0 < slen p) by (destruct p; [done|cbn; lia]). lia.
  - lia.
Qed.

Lemma slen_stake_le n s : n <= slen s -> slen (stake n s) = n.
Proof.
  revert s. induction n as [|n IH]; intros s; [by destruct s|]. destruct s as [|a s]; [cbn; lia|].
  intros H. cbn in H. change (stake (S n) (String a s)) with (String a (stake n s)).
  change (S (slen (stake n s)) = S n). rewrite IH; [done|unfold slen; lia].
Qed.

Lemma chunk_len_le b p : chunk_len b p <= slen p.
Proof.
  revert b. induction p as [p IH] using (induction_ltof1 _ slen); intros b. destruct p as [|a p]; [cbn; lia|].
  assert (forall q b, slen q <= slen p -> chunk_len b q <= slen q) as Hq.
  { intros q b' Hq. apply IH. unfold ltof. cbn. unfold slen in *. lia. }
  assert (forall b, chunk_len b p <= slen p) as Hp by (intros b'; by apply Hq).
  change (slen (String a p)) with (S (slen p)).
  destruct a as [[] [] [] [] [] [] [] []]; cbn; try (specialize (Hp b); lia);
    try (specialize (Hp true); lia); try (specialize (Hp false); lia).
  - destruct b; [specialize (Hp true); lia|lia].
  - destruct p as [|a' p]; [lia|]. change (slen (String a' p)) with (S (slen p)) in *.
    pose proof (Hq p b ltac:(lia)). lia.
Qed.

(** An empty chunk is the end of the pattern. *)
Lemma scanChunk_empty p star rest : scanChunk p = (star, "", rest) -> rest = "".
Proof.
  unfold scanChunk. destruct (skip_stars p) as [st q] eqn:Eq. intros H. injection H as _ Hc <-.
  assert (head_is "*" q = false) as Hq.
  { destruct (skip_stars_spec p) as [(_ & H2 & H3)|(_ & _ & H3)]; rewrite Eq in *; cbn in *; congruence. }
  destruct (String.eqb_spec q "") as [->|Hne]; [done|].
  pose proof (chunk_len_pos q Hne Hq). pose proof (slen_stake_le _ _ (chunk_len_le false q)) as Hs. rewrite Hc in Hs. cbn in Hs. lia.
Qed.

Lemma pattern_ok_fuel n m p : slen p < n -> slen p < m -> pattern_ok n p = pattern_ok m p.
Proof.
  revert m p. induction n as [|n IH]; intros m p Hn Hm; [lia|]. destruct m as [|m]; [lia|].
  cbn [pattern_ok]. destruct (String.eqb_spec p "") as [->|Hp]; [done|].
  destruct (scanChunk p) as [[star chunk] rest] eqn:E. pose proof (scanChunk_len p _ _ _ Hp E).
  destruct (match_chunk chunk ""); [|done]. apply IH; lia.
Qed.

(** [Match] reports a malformed pattern exactly when the pattern is one. *)
Lemma pathMatch_bad fuel p name :
  slen p < fuel -> pathMatch fuel p name = MBadPattern <-> pattern_ok fuel p = false.
Proof.
  revert p name. induction fuel as [|fuel IH]; intros p name Hf; [lia|]. cbn [pathMatch pattern_ok].
  destruct (String.eqb_spec p "") as [->|Hp]; [done|].
  destruct (scanChunk p) as [[star chunk] rest] eqn:E. pose proof (scanChunk_len p _ _ _ Hp E) as Hr.
  assert (forall t, pathMatch fuel rest t = MBadPattern <-> pattern_ok fuel rest = false) as IHr by (intros t; apply IH; lia).
  assert ((if pattern_ok (S (slen rest)) rest then MOk false else MBadPattern) = MBadPattern <-> pattern_ok fuel rest = false) as Hm.
  { rewrite (pattern_ok_fuel (S (slen rest)) fuel) by lia. by destruct (pattern_ok fuel rest). }
  destruct (star && (chunk =? "")) eqn:Es.
  { apply andb_true_iff in Es as [-> ->%String.eqb_eq]. split; [done|].
    apply scanChunk_empty in E as ->. by destruct fuel. }
  assert (forall s, match_chunk chunk s = None -> match_chunk chunk "" = None) as Hb by (intros s; apply match_chunk_bad).
  assert (forall s, match_chunk chunk "" = None -> match_chunk chunk s = None) as Hb' by (intros s; apply match_chunk_bad).
  destruct (match_chunk chunk name) as [[t|]|] eqn:Em.
  - destruct (match_chunk chunk "") eqn:E0; [|by rewrite (Hb' name eq_refl) in Em].
    destruct (_ || _); [apply IHr|]. destruct star; [|exact Hm].
    destruct (star_scan _ _ name) as [[t'|]|] eqn:Ess; [apply IHr|exact Hm|].
    apply (star_scan_bad _ _ _ "") in Ess. congruence.
  - destruct (match_chunk chunk "") eqn:E0; [|by rewrite (Hb' name eq_refl) in Em].
    destruct star; [|exact Hm].
    destruct (star_scan _ _ name) as [[t'|]|] eqn:Ess; [apply IHr|exact Hm|].
    apply (star_scan_bad _ _ _ "") in Ess. congruence.
  - by rewrite (Hb name Em).
Qed.

Lemma badGlob_any s name : badGlob s = false -> Match s name <> MBadPattern.
Proof.
  unfold badGlob, Match. intros Hb Hm. apply pathMatch_bad in Hm; [|lia].
  assert (pathMatch (S (slen s)) s "" = MBadPattern) as E by (apply pathMatch_bad; [lia|done]). by rewrite E in Hb.
Qed.

(** ** Properties *)

Section SelectionProperties.
Context (IsUpper : N -> bool) (Quote : string -> string) (AsSelector : LabelSelector -> result (labels -> bool)).
Notation parse := (parseResourcePattern IsUpper Quote).
Notation compile := (compilePatterns IsUpper Quote).

Lemma compile_patterns raw ps : compile raw = Ok ps -> Forall2 (fun r p => parse r = Ok p) raw ps.
Proof.
  revert ps. induction raw as [|r raw IH]; intros ps H; cbn in H; [injection H as <-; constructor|].
  destruct (parse r) as [p|] eqn:Ep; [|done]. destruct (compile raw) as [ps'|]; [|done].
  injection H as <-. constructor; [done|]. by apply IH.
Qed.

(** A pattern of [raw] covers the object. *)
Definition covered (raw : list string) (group kind name : string) : Prop :=
  exists r p, r ∈ raw /\ parse r = Ok p /\ pattern_matches p group kind name = true.

Lemma anyPattern_covered raw ps group kind name :
  compile raw = Ok ps -> anyPattern ps group kind name = true <-> covered raw group kind name.
Proof.
  intros H%compile_patterns. unfold anyPattern, covered. rewrite existsb_exists. split.
  - intros (p & Hp%list_elem_of_In & Hm). apply list_elem_of_lookup in Hp as [i Hi].
    destruct (Forall2_lookup_r _ _ _ _ _ H Hi) as (r & Hr & Hpr). exists r, p. split_and!; try done.
    by eapply list_elem_of_lookup_2.
  - intros (r & p & Hr & Hp & Hm). apply list_elem_of_lookup in Hr as [i Hi].
    destruct (Forall2_lookup_l _ _ _ _ _ H Hi) as (p' & Hp' & Hpr). exists p'. rewrite Hp in Hpr. injection Hpr as <-.
    split; [|done]. apply list_elem_of_In. by eapply list_elem_of_lookup_2.
Qed.

(** C25. A pattern that parsed is matched without an error, whatever the object: the
    globs are rejected at parse time or never. *)
Theorem parsed_globs_never_fail (raw : string) (p : resourcePattern) (value : string) :
  parse raw = Ok p ->
  Match (pt_group p) value <> MBadPattern /\ Match (pt_kind p) value <> MBadPattern
  /\ Match (pt_name p) value <> MBadPattern.
Proof.
  unfold parseResourcePattern. intros H. destruct (_ =? ""); [done|]. destruct (3 <? _)%nat; [done|].
  destruct (existsb _ _); [done|]. destruct (patternOf _ _ _ _) as [q|]; [|done].
  destruct (find badGlob _) eqn:Ef; [done|]. injection H as ->.
  assert (forall s, s ∈ [pt_group p; pt_kind p; pt_name p] -> badGlob s = false) as Hb.
  { intros s Hs. apply (find_none _ _ Ef). by apply list_elem_of_In. }
  split_and!; apply badGlob_any, Hb; set_solver.
Qed.

(** An item covers the object: the labels are selected, some include covers it when
    there is one, and no exclude does. *)
Definition item_covers (item : SelectionItem) (group kind name : string) (ls : labels) : Prop :=
  (forall sel, si_Selector item = Some sel -> exists f, AsSelector sel = Ok f /\ f ls = true)
  /\ (si_Include item = [] \/ covered (si_Include item) group kind name)
  /\ ~ covered (si_Exclude item) group kind name.

Lemma compile_nil_iff raw ps : compile raw = Ok ps -> (0 <? List.length ps)%nat = false <-> raw = [].
Proof. intros H%compile_patterns%Forall2_length. destruct raw, ps; try done; cbn in *; lia. Qed.

Lemma item_matches_spec i item c group kind name ls :
  compileItem IsUpper Quote AsSelector i item = Ok c ->
  item_matches c group kind name ls = true <-> item_covers item group kind name ls.
Proof.
  unfold compileItem, item_covers. intros H.
  destruct (match si_Selector item with None => _ | Some _ => _ end) as [f|] eqn:Es; [|done].
  destruct (compile (si_Include item)) as [inc|] eqn:Ei; [|done]. destruct (compile (si_Exclude item)) as [exc|] eqn:Ee; [|done].
  injection H as <-. unfold item_matches. cbn [ci_labels ci_include ci_exclude].
  pose proof (anyPattern_covered _ _ group kind name Ei) as Hi. pose proof (anyPattern_covered _ _ group kind name Ee) as He.
  pose proof (compile_nil_iff _ _ Ei) as Hn.
  assert (f ls = true <-> (forall sel, si_Selector item = Some sel -> exists f, AsSelector sel = Ok f /\ f ls = true)) as Hf.
  { destruct (si_Selector item) as [sel|]; [|injection Es as <-; split; [done|done]].
    split; [intros Hf sel' [= <-]; by exists f|]. intros Hf. destruct (Hf sel eq_refl) as (f' & E & Hf'). rewrite Es in E. by injection E as ->. }
  destruct (f ls); cbn [negb]; [|split; [done|intros (H & _); by apply Hf in H]].
  destruct (0 <? _)%nat; cbn [andb].
  - assert (si_Include item <> []) as Hne by (intros E; by apply Hn in E).
    destruct (anyPattern inc group kind name); cbn [negb]; [|split; [done|]; intros (_ & [?|H] & _); [done|by apply Hi in H]].
    rewrite negb_true_iff, <-not_true_iff_false, He. split; [|tauto].
    intros H. split_and!; [by apply Hf|right; by apply Hi|done].
  - rewrite negb_true_iff, <-not_true_iff_false, He. split; [|tauto].
    intros H. split_and!; [by apply Hf|left; by apply Hn|done].
Qed.

Lemma compile_items i items cs :
  compileItems IsUpper Quote AsSelector i items = Ok cs ->
  forall group kind name ls,
    existsb (fun it => item_matches it group kind name ls) cs = true
    <-> exists item, item ∈ items /\ item_covers item group kind name ls.
Proof.
  revert i cs. induction items as [|item items IH]; intros i cs H group kind name ls; cbn in H.
  { injection H as <-. cbn. split; [done|]. intros (x & Hx & _). by apply not_elem_of_nil in Hx. }
  destruct (compileItem _ _ _ i item) as [c|] eqn:Ec; [|done]. destruct (compileItems _ _ _ _ items) as [cs'|] eqn:Er; [|done].
  injection H as <-. cbn [existsb]. rewrite orb_true_iff, (item_matches_spec _ _ _ _ _ _ _ Ec), (IH _ _ Er). split.
  - intros [H|(x & Hx & H)]; [exists item; split; [left|done]|exists x; split; [by right|done]].
  - intros (x & [->|Hx]%elem_of_cons & H); [by left|right; by exists x].
Qed.

(** What a compiled selection covers: everything when it says so, otherwise exactly
    what some item of it does — by labels, by any of its includes when it has
    some, and by none of its excludes.  An item can never bring back what it
    excludes, and an empty selection covers nothing. *)
Theorem selection_spec (s : Selection) (c : CompiledSelection) (group kind name : string) (ls : labels) :
  Compile IsUpper Quote AsSelector s = Ok c ->
  selection_matches c group kind name ls = true
  <-> se_All s = true \/ exists item, item ∈ se_Items s /\ item_covers item group kind name ls.
Proof.
  unfold Compile. intros H. destruct (compileItems _ _ _ 0 (se_Items s)) as [cs|] eqn:E; [|done]. injection H as <-.
  unfold selection_matches. cbn [cs_all cs_items]. by rewrite orb_true_iff, (compile_items _ _ _ E).
Qed.

(** A cluster-scoped capture is confined: it never takes what the system owns nor
    what is excluded; without an include it takes only the allowed kinds, and
    with one only what some include covers. *)
Theorem cluster_capture_confined (opts : ClusterCaptureOptions) (s : ClusterSelector) (group kind name : string) :
  CompileClusterSelector IsUpper Quote opts = Ok s -> SelectsObject s group kind name = true ->
  SelectsKind s group kind = true /\ isSystemOwned group kind name = false /\ ~ covered (cc_Exclude opts) group kind name
  /\ (if decide (cc_Include opts = []) then (group, kind) ∈ ClusterAllowKinds else covered (cc_Include opts) group kind name).
Proof.
  unfold CompileClusterSelector. intros H Hs. destruct (compile (cc_Include opts)) as [inc|] eqn:Ei; [|done].
  destruct (compile (cc_Exclude opts)) as [exc|] eqn:Ee; [|done]. injection H as <-.
  unfold SelectsObject in Hs. cbn [cs_useDefaultAllowList cs_include cs_exclude] in Hs.
  destruct (SelectsKind _ group kind) eqn:Ek; [|done]. cbn [negb] in Hs.
  destruct (negb _ && _) eqn:En; [done|]. destruct (isSystemOwned group kind name) eqn:Eo; [done|].
  pose proof (anyPattern_covered _ _ group kind name Ei) as Hi. pose proof (anyPattern_covered _ _ group kind name Ee) as He.
  pose proof (compile_nil_iff _ _ Ei) as Hn. split_and!; [done|done| |].
  - rewrite <-He. by destruct (anyPattern exc group kind name).
  - unfold SelectsKind in Ek. cbn [cs_useDefaultAllowList cs_include] in Ek. destruct inc as [|p inc].
    + rewrite decide_True by (by apply Hn). cbn in Ek. by apply bool_decide_eq_true in Ek.
    + rewrite decide_False by (intros E; by apply Hn in E). apply Hi.
      apply negb_false_iff. exact En.
Qed.
End SelectionProperties.

Lemma append_inj_r (s s' t : string) : s ++ t = s' ++ t -> s = s'.
Proof.
  revert s'. induction s as [|a s IH]; intros [|b s'] H; [done| | |].
  - apply (f_equal slen) in H. rewrite slen_append in H. change (slen (String b s' ++ t)) with (S (slen (s' ++ t))) in H.
    rewrite slen_append in H. cbn in H. lia.
  - apply (f_equal slen) in H. rewrite slen_append in H. change (slen (String a s ++ t)) with (S (slen (s ++ t))) in H.
    rewrite slen_append in H. cbn in H. lia.
  - change (String a (s ++ t) = String b (s' ++ t)) in H. injection H as -> H. f_equal. by apply IH.
Qed.

(** Two objects never share a file of the dump: the path tells the group, the kind
    and the name. *)
Theorem StoragePath_injective (g k n g' k' n' : string) :
  forallb (fun s => negb (has_byte "/" s)) [g; k; n; g'; k'; n'] = true -> g <> CoreGroupDir -> g' <> CoreGroupDir ->
  StoragePath g k n = StoragePath g' k' n' -> g = g' /\ k = k' /\ n = n'.
Proof.
  cbn [forallb]. rewrite !andb_true_iff, !negb_true_iff. intros (Hg & Hk & Hn & Hg' & Hk' & Hn' & _) Hc Hc' H.
  assert (forall s, has_byte "/" s = false -> has_byte "/" (s ++ ".yaml") = false) as Hy.
  { induction s as [|a s IH]; [done|]. change (String a s ++ ".yaml") with (String a (s ++ ".yaml")). cbn [has_byte].
    destruct (Ascii.eqb a "/"); [done|exact IH]. }
  assert (forall g k n, has_byte "/" g = false -> has_byte "/" k = false -> has_byte "/" n = false ->
    splitOn "/" (StoragePath g k n) = [if g =? "" then CoreGroupDir else g; k; n ++ ".yaml"]) as Hs.
  { intros g0 k0 n0 H1 H2 H3. apply splitOn_concat; [done|]. intros t Ht.
    rewrite !elem_of_cons in Ht. destruct Ht as [->|[->|[->|Ht]]]; [by destruct (g0 =? "")|done|by apply Hy|by apply not_elem_of_nil in Ht]. }
  apply (f_equal (splitOn "/")) in H. rewrite !Hs in H by done. injection H as Eg Ek En. split_and!; [|done|].
  - destruct (String.eqb_spec g ""), (String.eqb_spec g' ""); congruence.
  - by apply append_inj_r in En.
Qed.

(** ** Witnesses *)

Definition wit_upper (r : N) : bool := in_range 65 90 r.

Lemma parsed_globs_never_fail_witness :
  let parsed := parseResourcePattern wit_upper id "apps/Deploy*/web-[a-c]" in
  parsed = Ok (mkPattern "apps" "Deploy*" "web-[a-c]") /\ Match "web-[a-c]" "web-b" <> MBadPattern.
Proof.
  cbv zeta.
  assert (parseResourcePattern wit_upper id "apps/Deploy*/web-[a-c]" = Ok (mkPattern "apps" "Deploy*" "web-[a-c]")) as E
    by (vm_compute; reflexivity).
  destruct (parsed_globs_never_fail wit_upper id _ _ "web-b" E) as (_ & _ & H). cbn [pt_name] in H. by split.
Defined.

Definition wit_selection : Selection := mkSelection false [mkSelectionItem None ["Service"; "apps"] ["core/Service/kube*"]].

Definition wit_compiled : CompiledSelection :=
  mkCompiled false
    [mkCompiledItem (fun _ => true) [mkPattern "" "Service" "*"; mkPattern "apps" "*" "*"] [mkPattern "" "Service" "kube*"]].

Lemma selection_spec_witness :
  Compile wit_upper id (fun _ => Err (errorf "no selector")) wit_selection = Ok wit_compiled
  /\ selection_matches wit_compiled "" "Service" "kube-dns" ∅ = false
  /\ (exists item, item ∈ se_Items wit_selection
       /\ item_covers wit_upper id (fun _ => Err (errorf "no selector")) item "" "Service" "web" ∅).
Proof.
  assert (Compile wit_upper id (fun _ => Err (errorf "no selector")) wit_selection = Ok wit_compiled) as E
    by (vm_compute; reflexivity).
  assert (selection_matches wit_compiled "" "Service" "web" ∅ = true) as Hm by (vm_compute; reflexivity).
  split; [exact E|]. split; [vm_compute; reflexivity|].
  destruct (proj1 (selection_spec wit_upper id (fun _ => Err (errorf "no selector")) wit_selection wit_compiled
    "" "Service" "web" ∅ E) Hm) as [H|H]; [discriminate H|exact H].
Defined.

Lemma cluster_capture_confined_witness :
  let s := mkClusterSelector [] [mkPattern "storage.k8s.io" "*" "local"] true in
  SelectsObject s groupStorage "StorageClass" "fast" = true /\ (groupStorage, "StorageClass") ∈ ClusterAllowKinds.
Proof.
  cbv zeta. split; [by vm_compute|].
  refine (proj2 (proj2 (proj2 (cluster_capture_confined wit_upper id (mkCaptureOptions [] ["storage.k8s.io/*/local"])
    (mkClusterSelector [] [mkPattern "storage.k8s.io" "*" "local"] true) groupStorage "StorageClass" "fast" _ _)))); by vm_compute.
Defined.

Lemma StoragePath_injective_witness :
  StoragePath "apps" "Deployment" "web" = "apps/Deployment/web.yaml"
  /\ (StoragePath "apps" "Deployment" "web" = StoragePath "apps" "Deployment" "web" -> "web" = "web").
Proof.
  split; [by vm_compute|]. intros H.
  refine (proj2 (proj2 (StoragePath_injective "apps" "Deployment" "web" "apps" "Deployment" "web" _ _ _ H))); [by vm_compute|discriminate..].
Defined.
