(* ===== verification/Unstructured.v ===== *)
(** * Unstructured: Kubernetes objects of any kind
    (map[string]any under k8s.io/apimachinery's Unstructured)

    A decoded JSON document is a tree: a Go map is a list of fields, the first of a
    key being the one a lookup sees; arrays keep their order.  A sanitised or applied
    object is a private deep copy, so that no subtree has two owners and a mutation in
    place is a new tree.  The accessors of apimachinery are a class, [Accessors], with
    the laws the code relies on in [AccessorLaws]. *)

From Stdlib Require Import Ascii String.
From S2P Require Import Prelude GoText Cluster.

#[local] Open Scope string_scope.

(** ** Trees *)

Inductive value :=
| VNull
| VBool (b : bool)
| VInt (z : Z)
| VFloat (text : string)
| VStr (s : string)
| VArr (items : list value)
| VObj (m : list (string * value)).

Notation fields := (list (string * value)).

(** [m[k]]. *)
Fixpoint field (k : string) (m : fields) : option value :=
  match m with
  | [] => None
  | (k', v) :: m => if k' =? k then Some v else field k m
  end.

(** [delete(m, k)]. *)
Definition del (k : string) (m : fields) : fields := List.filter (fun e => negb (fst e =? k)) m.

(** [m[k] = v]. *)
Definition put (k : string) (v : value) (m : fields) : fields :=
  if existsb (fun e => fst e =? k) m then map (fun e => if fst e =? k then (k, v) else e) m
  else (m ++ [(k, v)])%list.

(** The value at a path of keys, through objects only. *)
Fixpoint at_path (segs : list string) (m : fields) : option value :=
  match segs with
  | [] => None
  | [k] => field k m
  | k :: segs => match field k m with Some (VObj m') => at_path segs m' | _ => None end
  end.

(** Mutates in place the map a path's last segment lies in; [None] is "unchanged". *)
Fixpoint atParent (segs : list string) (f : string -> fields -> option fields) (m : fields) : option fields :=
  match segs with
  | [] => None
  | [k] => f k m
  | k :: segs =>
      match field k m with
      | Some (VObj m') => option_map (fun m'' => put k (VObj m'') m) (atParent segs f m')
      | _ => None
      end
  end.

(** Deletes a key that is present. *)
Definition deleteKey (key : string) (parent : fields) : option fields :=
  match field key parent with Some _ => Some (del key parent) | None => None end.

Definition str_value (v : option value) : string := match v with Some (VStr s) => s | _ => "" end.

(** Keys are unique, all the way down. *)
Fixpoint wf (v : value) : bool :=
  match v with
  | VArr l => forallb wf l
  | VObj m => bool_decide (NoDup (map fst m)) && forallb (fun e => wf (snd e)) m
  | _ => true
  end.

Definition wf_fields (m : fields) : bool := wf (VObj m).

(** ** Leaves: the scalars and empty containers of a tree, with the way to them *)

Inductive step := Key (k : string) | Elem.

Inductive leaf : value -> list step -> value -> Prop :=
| leaf_scalar v : (match v with VArr _ | VObj _ => False | _ => True end) -> leaf v [] v
| leaf_key m k v p x : field k m = Some v -> leaf v p x -> leaf (VObj m) (Key k :: p) x
| leaf_elem l v p x : v ∈ l -> leaf v p x -> leaf (VArr l) (Elem :: p) x.

(** ** Accessors *)

Record OwnerReference := mkOwnerReference { or_Kind : string; or_Controller : option bool }.

Class Accessors := {
  GroupVersionKind : fields -> string * string * string;    (* group, version, kind *)
  GetName : fields -> string;
  GetUID : fields -> string;
  GetLabels : fields -> gmap string string;
  GetAnnotations : fields -> option (gmap string string);
  GetFinalizers : fields -> list string;
  GetOwnerReferences : fields -> list OwnerReference;
  SetNamespace : string -> fields -> fields;
  SetAnnotations : gmap string string -> fields -> fields;
  NestedString : list string -> fields -> result (option string);
  NestedMap : list string -> fields -> result (option fields);
  RemoveNestedField : list string -> fields -> fields;
  SetNestedField : string -> list string -> fields -> option fields
}.

Definition gvk_group `{Accessors} (m : fields) : string := fst (fst (GroupVersionKind m)).
Definition gvk_version `{Accessors} (m : fields) : string := snd (fst (GroupVersionKind m)).
Definition gvk_kind `{Accessors} (m : fields) : string := snd (GroupVersionKind m).

(** What the accessors document: the identity is read from the fields named after it,
    and removing a field removes it. *)
Class AccessorLaws (A : Accessors) := {
  gvk_fields m m' : field "apiVersion" m = field "apiVersion" m' -> field "kind" m = field "kind" m' ->
    GroupVersionKind m = GroupVersionKind m';
  name_field m m' : at_path ["metadata"; "name"] m = at_path ["metadata"; "name"] m' -> GetName m = GetName m';
  removed_absent segs m : segs <> [] -> at_path segs (RemoveNestedField segs m) = None;
  SetNestedField_keeps v segs p m m' : SetNestedField v segs m = Some m' -> hd "" p <> hd "" segs -> at_path p m' = at_path p m;
  RemoveNestedField_keeps segs p m : hd "" p <> hd "" segs -> at_path p (RemoveNestedField segs m) = at_path p m;
  SetAnnotations_keeps a p m : hd "" p <> "metadata" -> at_path p (SetAnnotations a m) = at_path p m
}.

(** ** Lemmas *)

Lemma field_del k k' m : field k' (del k m) = if k =? k' then None else field k' m.
Proof.
  unfold del. induction m as [|[a v] m IH]; cbn; [by destruct (k =? k')|].
  destruct (String.eqb_spec a k) as [->|Hn]; cbn.
  - rewrite IH. by destruct (String.eqb_spec k k').
  - destruct (String.eqb_spec a k') as [->|Hn']; [|exact IH]. destruct (String.eqb_spec k k'); congruence.
Qed.

Lemma field_none k m : field k m = None <-> existsb (fun e => fst e =? k) m = false.
Proof.
  induction m as [|[a v] m IH]; cbn; [done|]. destruct (a =? k); cbn; [done|exact IH].
Qed.

Lemma field_app k m m' : field k (m ++ m') = match field k m with Some v => Some v | None => field k m' end.
Proof. induction m as [|[a v] m IH]; cbn; [done|]. by destruct (a =? k). Qed.

Lemma field_put k k' v m : field k' (put k v m) = if k =? k' then Some v else field k' m.
Proof.
  unfold put. destruct (existsb _ m) eqn:E.
  - induction m as [|[a w] m IH]; cbn in *; [done|]. destruct (String.eqb_spec a k) as [->|Hn]; cbn in *.
    + destruct (String.eqb_spec k k') as [->|Hk]; [done|]. clear E IH.
      induction m as [|[b u] m IH]; cbn; [done|]. destruct (String.eqb_spec b k) as [->|]; cbn; [|by rewrite IH].
      destruct (String.eqb_spec k k'); [congruence|exact IH].
    + destruct (String.eqb_spec a k') as [->|]; [|by apply IH]. destruct (String.eqb_spec k k'); congruence.
  - rewrite field_app. cbn. destruct (String.eqb_spec k k') as [->|Hn].
    + apply field_none in E. by rewrite E.
    + by destruct (field k' m).
Qed.

Lemma at_path_cons k segs m :
  segs <> [] -> at_path (k :: segs) m = match field k m with Some (VObj m') => at_path segs m' | _ => None end.
Proof. by destruct segs. Qed.

Lemma atParent_cons k segs f m :
  segs <> [] ->
  atParent (k :: segs) f m =
    match field k m with
    | Some (VObj m') => option_map (fun m'' => put k (VObj m'') m) (atParent segs f m')
    | _ => None
    end.
Proof. by destruct segs. Qed.

(** Neither path leads into the other. *)
Fixpoint diverge (p q : list string) : bool :=
  match p, q with
  | a :: p, b :: q => negb (a =? b) || diverge p q
  | _, _ => false
  end.

(** A mutation of the last map of a path touches the key of the path only. *)
Definition local (f : string -> fields -> option fields) : Prop :=
  forall k m m', f k m = Some m' -> forall k', k' <> k -> field k' m' = field k' m.

Lemma at_path_frame segs f m m' p :
  local f -> atParent segs f m = Some m' -> diverge segs p = true -> at_path p m' = at_path p m.
Proof.
  intros Hf. revert m m' p. induction segs as [|k segs IH]; intros m m' p H Hd; [done|].
  destruct p as [|k' p]; [done|]. cbn [diverge] in Hd.
  assert (forall k0, k0 <> k -> field k0 m' = field k0 m) as Hk.
  { intros k0 Hn. destruct segs as [|k1 segs]; [by eapply Hf|]. rewrite atParent_cons in H by done.
    destruct (field k m) as [[]|]; try done. destruct (atParent _ _ _) as [m1|]; [|done]. injection H as <-.
    rewrite field_put. destruct (String.eqb_spec k k0); [congruence|done]. }
  destruct (String.eqb_spec k k') as [<-|Hn]; cbn in Hd.
  2: { destruct p as [|k1 p]; [cbn; by apply Hk|]. rewrite !at_path_cons by done. by rewrite Hk. }
  destruct segs as [|k1 segs]; [done|]. destruct p as [|k2 p]; [done|].
  rewrite atParent_cons in H by done. destruct (field k m) as [[]|] eqn:Ef; try done.
  destruct (atParent _ _ _) as [m1|] eqn:E1; [|done]. injection H as <-. rewrite !at_path_cons by done.
  rewrite field_put, Ef. rewrite String.eqb_refl. by eapply IH.
Qed.

(** A mutation that only takes away only takes away. *)
Definition shrinking (f : string -> fields -> option fields) : Prop :=
  forall k m m', f k m = Some m' -> forall p x, leaf (VObj m') p x -> leaf (VObj m) p x.

Lemma leaf_put k m1 m2 m p x :
  field k m = Some (VObj m1) -> (forall p x, leaf (VObj m2) p x -> leaf (VObj m1) p x) ->
  leaf (VObj (put k (VObj m2) m)) p x -> leaf (VObj m) p x.
Proof.
  intros Hk Hs H. inversion H as [|? k' v q ? Hv Hl|]; subst; [done|]. rewrite field_put in Hv.
  destruct (String.eqb_spec k k') as [<-|]; [injection Hv as <-; eapply leaf_key; [exact Hk|by apply Hs]|by eapply leaf_key].
Qed.

Lemma atParent_shrinks segs f m m' p x :
  shrinking f -> atParent segs f m = Some m' -> leaf (VObj m') p x -> leaf (VObj m) p x.
Proof.
  intros Hf. revert m m' p x. induction segs as [|k segs IH]; intros m m' p x H Hl; [done|].
  destruct segs as [|k1 segs]; [by eapply Hf|]. rewrite atParent_cons in H by done.
  destruct (field k m) as [[]|] eqn:Ef; try done. destruct (atParent _ _ _) as [m1|] eqn:E1; [|done]. injection H as <-.
  eapply leaf_put; [exact Ef| |exact Hl]. intros q y. by eapply IH.
Qed.

(** What a mutation may take away: the leaves at or below its path, extended by [q]. *)
Definition losing (q : list step) (f : string -> fields -> option fields) : Prop :=
  forall k m m', f k m = Some m' -> forall p x, leaf (VObj m) p x -> leaf (VObj m') p x \/ (Key k :: q) `prefix_of` p.

Lemma atParent_loses q segs f m m' p x :
  losing q f -> atParent segs f m = Some m' -> leaf (VObj m) p x ->
  leaf (VObj m') p x \/ (map Key segs ++ q)%list `prefix_of` p.
Proof.
  intros Hf. revert m m' p x. induction segs as [|k segs IH]; intros m m' p x H Hl; [done|].
  destruct segs as [|k1 segs]; [by eapply Hf|]. rewrite atParent_cons in H by done.
  destruct (field k m) as [[]|] eqn:Ef; try done. destruct (atParent _ _ _) as [m1|] eqn:E1; [|done]. injection H as <-.
  inversion Hl as [|? k' v p' ? Hv Hl'|]; subst; [done|]. destruct (String.eqb_spec k k') as [<-|Hn].
  - rewrite Hv in Ef. injection Ef as ->. destruct (IH _ _ _ _ E1 Hl') as [H1|[r ->]].
    + left. eapply leaf_key; [|exact H1]. by rewrite field_put, String.eqb_refl.
    + right. by exists r.
  - left. eapply leaf_key; [|exact Hl']. rewrite field_put. by destruct (String.eqb_spec k k').
Qed.

(** *** Well-formedness *)

Lemma wf_field m k v : wf_fields m = true -> field k m = Some v -> wf v = true.
Proof.
  unfold wf_fields. cbn. intros [_ Hf]%andb_true_iff. induction m as [|[a w] m IH]; cbn in *; [done|].
  apply andb_true_iff in Hf as [Hw Hf]. destruct (a =? k); [by intros [= <-]|by apply IH].
Qed.

Lemma wf_del m k : wf_fields m = true -> wf_fields (del k m) = true.
Proof.
  unfold wf_fields. cbn. rewrite !andb_true_iff, !bool_decide_eq_true. intros [Hn Hf]. split.
  - unfold del. induction m as [|[a v] m IH]; cbn in *; [constructor|]. apply NoDup_cons in Hn as [Ha Hn].
    apply andb_true_iff in Hf as [_ Hf]. destruct (a =? k); cbn; [by apply IH|]. apply NoDup_cons. split; [|by apply IH].
    intros (e & -> & He)%list_elem_of_fmap. apply Ha. apply list_elem_of_fmap. exists e. split; [done|].
    apply list_elem_of_In, filter_In in He as [He _]. by apply list_elem_of_In.
  - rewrite forallb_forall in *. intros e [He _]%filter_In. by apply Hf.
Qed.

Lemma wf_put m k v : wf_fields m = true -> wf v = true -> wf_fields (put k v m) = true.
Proof.
  unfold wf_fields. cbn. rewrite !andb_true_iff, !bool_decide_eq_true. intros [Hn Hf] Hv. unfold put.
  destruct (existsb _ m) eqn:E.
  - split.
    + rewrite map_map. replace (map (fun x => fst (if fst x =? k then (k, v) else x)) m) with (map fst m); [done|].
      apply map_ext. intros [a w]. cbn. destruct (String.eqb_spec a k) as [->|]; done.
    + rewrite forallb_forall in *. intros e (e' & <- & He)%in_map_iff. destruct (fst e' =? k); [exact Hv|by apply Hf].
  - rewrite map_app, forallb_app. cbn. rewrite Hf, Hv. split; [|done]. apply NoDup_app. split_and!; [done| |apply NoDup_singleton].
    intros a (e & -> & He)%list_elem_of_fmap Hk%list_elem_of_singleton. apply list_elem_of_In in He.
    assert (existsb (fun e => fst e =? k) m = true) as Ht; [|congruence]. apply existsb_exists. exists e.
    split; [done|]. by apply String.eqb_eq.
Qed.

Lemma atParent_wf segs f m m' :
  (forall k m m', f k m = Some m' -> wf_fields m = true -> wf_fields m' = true) ->
  atParent segs f m = Some m' -> wf_fields m = true -> wf_fields m' = true.
Proof.
  intros Hf. revert m m'. induction segs as [|k segs IH]; intros m m' H Hw; [done|].
  destruct segs as [|k1 segs]; [by eapply Hf|]. rewrite atParent_cons in H by done.
  destruct (field k m) as [[]|] eqn:Ef; try done. destruct (atParent _ _ _) as [m1|] eqn:E1; [|done]. injection H as <-.
  apply wf_put; [done|]. apply (IH _ _ E1). by apply (wf_field m k).
Qed.

(** *** Deleting a key *)

Lemma field_del_ne k k' m : k' <> k -> field k' (del k m) = field k' m.
Proof. intros Hn. rewrite field_del. destruct (String.eqb_spec k k'); [congruence|done]. Qed.

Lemma field_put_ne k k' v m : k' <> k -> field k' (put k v m) = field k' m.
Proof. intros Hn. rewrite field_put. destruct (String.eqb_spec k k'); [congruence|done]. Qed.

Lemma field_put_eq k v m : field k (put k v m) = Some v.
Proof. by rewrite field_put, String.eqb_refl. Qed.

Lemma field_del_eq k m : field k (del k m) = None.
Proof. by rewrite field_del, String.eqb_refl. Qed.

Lemma deleteKey_some k m m' : deleteKey k m = Some m' -> m' = del k m.
Proof. unfold deleteKey. destruct (field k m); [by intros [= <-]|done]. Qed.

Lemma atParent_deleted segs m : segs <> [] -> (atParent segs deleteKey m = None <-> at_path segs m = None).
Proof.
  intros Hs. revert m. induction segs as [|k segs IH]; intros m; [done|]. destruct segs as [|k1 segs].
  { cbn. unfold deleteKey. by destruct (field k m). }
  rewrite at_path_cons, atParent_cons by done. destruct (field k m) as [[]|]; try done. rewrite <-IH by done.
  by destruct (atParent _ _ _).
Qed.

Lemma at_path_deleted segs m m' : atParent segs deleteKey m = Some m' -> at_path segs m' = None.
Proof.
  revert m m'. induction segs as [|k segs IH]; intros m m'; [done|]. destruct segs as [|k1 segs].
  { intros ->%deleteKey_some. apply field_del_eq. }
  rewrite atParent_cons by done. destruct (field k m) as [[]|]; try done. destruct (atParent _ _ _) eqn:E; [|done].
  intros [= <-]. rewrite at_path_cons by done. rewrite field_put_eq. by eapply IH.
Qed.


(** ** A plain implementation of the accessors *)

Fixpoint setAt (segs : list string) (v : value) (m : fields) : option fields :=
  match segs with
  | [] => None
  | [k] => Some (put k v m)
  | k :: segs =>
      match field k m with
      | Some (VObj m') => option_map (fun m'' => put k (VObj m'') m) (setAt segs v m')
      | None => option_map (fun m'' => put k (VObj m'') m) (setAt segs v [])
      | Some _ => None
      end
  end.

Definition string_map (v : option value) : gmap string string :=
  match v with
  | Some (VObj m) => list_to_map (omap (fun e => match snd e with VStr s => Some (fst e, s) | _ => None end) m)
  | _ => ∅
  end.

Definition of_string_map (m : gmap string string) : value := VObj (map (fun e => (fst e, VStr (snd e))) (map_to_list m)).

Definition ownerReference (v : value) : option OwnerReference :=
  match v with
  | VObj m => Some (mkOwnerReference (str_value (field "kind" m))
                      (match field "controller" m with Some (VBool b) => Some b | _ => None end))
  | _ => None
  end.

Definition text (v : value) : option string := match v with VStr s => Some s | _ => None end.
Definition items (v : option value) : list value := match v with Some (VArr l) => l | _ => [] end.

#[export] Instance plainAccessors : Accessors := {
  GroupVersionKind m :=
    let api := str_value (field "apiVersion" m) in
    let kind := str_value (field "kind" m) in
    match String.index 0 "/" api with
    | Some i => (stake i api, sdrop (S i) api, kind)
    | None => ("", api, kind)
    end;
  GetName m := str_value (at_path ["metadata"; "name"] m);
  GetUID m := str_value (at_path ["metadata"; "uid"] m);
  GetLabels m := string_map (at_path ["metadata"; "labels"] m);
  GetAnnotations m := match at_path ["metadata"; "annotations"] m with Some v => Some (string_map (Some v)) | None => None end;
  GetFinalizers m := omap text (items (at_path ["metadata"; "finalizers"] m));
  GetOwnerReferences m := omap ownerReference (items (at_path ["metadata"; "ownerReferences"] m));
  SetNamespace ns m := default m (setAt ["metadata"; "namespace"] (VStr ns) m);
  SetAnnotations a m := default m (setAt ["metadata"; "annotations"] (of_string_map a) m);
  NestedString segs m :=
    match at_path segs m with
    | Some (VStr s) => Ok (Some s)
    | Some _ => Err (errorf "accessor error: not a string")
    | None => Ok None
    end;
  NestedMap segs m :=
    match at_path segs m with
    | Some (VObj m') => Ok (Some m')
    | Some _ => Err (errorf "accessor error: not a map")
    | None => Ok None
    end;
  RemoveNestedField segs m := default m (atParent segs deleteKey m);
  SetNestedField v segs m := setAt segs (VStr v) m
}.

Lemma at_path_hd p m m' : (forall k, k = hd "" p -> field k m' = field k m) -> at_path p m' = at_path p m.
Proof.
  intros H. destruct p as [|k p]; [done|]. destruct p as [|k1 p]; [by apply H|]. rewrite !at_path_cons by done. by rewrite H.
Qed.

Lemma setAt_hd segs v m m' k : setAt segs v m = Some m' -> k <> hd "" segs -> field k m' = field k m.
Proof.
  destruct segs as [|k1 segs]; [done|]. cbn [hd]. intros H Hn. destruct segs as [|k2 segs].
  - injection H as <-. by apply field_put_ne.
  - cbn in H. destruct (field k1 m) as [[]|]; try done; destruct (match segs with [] => _ | _ => _ end); try done;
      injection H as <-; by apply field_put_ne.
Qed.

Lemma atParent_hd segs m m' k : atParent segs deleteKey m = Some m' -> k <> hd "" segs -> field k m' = field k m.
Proof.
  intros H Hn. destruct segs as [|k1 segs]; [done|]. apply (at_path_frame (k1 :: segs) deleteKey m m' [k]); [|exact H|].
  - intros a b b' ->%deleteKey_some k' Hk. by apply field_del_ne.
  - cbn [diverge]. cbn in Hn. apply orb_true_iff. left. apply negb_true_iff, String.eqb_neq. congruence.
Qed.

#[export] Instance plainLaws : AccessorLaws plainAccessors.
Proof.
  split.
  - intros m m' H1 H2. cbn. by rewrite H1, H2.
  - intros m m' H. cbn -[at_path]. by rewrite H.
  - intros segs m Hs. cbn. destruct (atParent segs deleteKey m) as [m'|] eqn:E; cbn; [by eapply at_path_deleted|].
    by apply atParent_deleted in E.
  - intros v segs p m m' H Hn. cbn in H. apply at_path_hd. intros k ->. by eapply setAt_hd.
  - intros segs p m Hn. cbn. destruct (atParent segs deleteKey m) as [m'|] eqn:E; [|done]. apply at_path_hd. intros k ->. by eapply atParent_hd.
  - intros a p m Hn. cbn -[setAt]. destruct (setAt _ _ _) as [m'|] eqn:E; [|done]. apply at_path_hd. intros k ->. by eapply setAt_hd.
Qed.
