(* ===== verification/Sanitize.v ===== *)
(** * Sanitize: from a live object to a manifest worth storing
    (internal/sanitize: ruleset.go, rules.yaml, sanitize.go, exclude.go)

    The embedded ruleset as data, its validation, the pipeline that applies it to a
    deep copy of an object, and the exclusions.  The theorems: a pass only takes
    away, and only what an applicable rule names and no keep protects; with the
    embedded rules it never fails, leaves nothing the server owns, keeps a headless
    Service headless, and is idempotent. *)

From Stdlib Require Import Ascii String.
From S2P Require Import Prelude GoText Cluster MoverResult Restic Unstructured.

#[local] Open Scope string_scope.

(** ** The ruleset *)

Definition OpRemove : string := "remove".
Definition OpRemoveAnnotation : string := "removeAnnotation".
Definition OpRemoveFinalizer : string := "removeFinalizer".
Definition OpKeep : string := "keep".
Definition OpKeepIfValue : string := "keepIfValue".
Definition OpPruneEmptyMap : string := "pruneEmptyMap".
Definition OpRemoveProjectedTokenVolumes : string := "removeProjectedTokenVolumes".

Definition mutatingOps : list string :=
  [OpRemove; OpRemoveAnnotation; OpRemoveFinalizer; OpPruneEmptyMap; OpRemoveProjectedTokenVolumes].

Record Op := mkOp { op_Op : string; op_Path : string; op_Value : string }.
Record RuleMatch := mkMatch { m_Group : option string; m_Kind : string }.
Record Rule := mkRule { r_ID : string; r_Description : string; r_Match : RuleMatch; r_Ops : list Op }.
Record Ruleset := mkRuleset { rs_Version : string; rs_Rules : list Rule }.

Definition member (l : list string) (x : string) : bool := existsb (String.eqb x) l.

Definition Generic (r : Rule) : bool := m_Kind (r_Match r) =? "*".
Definition Mutating (r : Rule) : bool := existsb (fun op => member mutatingOps (op_Op op)) (r_Ops r).

Definition rule_matches (r : Rule) (group kind : string) : bool :=
  if negb (m_Kind (r_Match r) =? "*") && negb (m_Kind (r_Match r) =? kind) then false
  else match m_Group (r_Match r) with Some g => g =? group | None => true end.

Section Validate.
Variable Quote : string -> string.   (* fmt's %q *)

Definition opError (r : Rule) (op : Op) : option gerr :=
  if negb (member mutatingOps (op_Op op)) && negb (op_Op op =? OpKeep) && negb (op_Op op =? OpKeepIfValue)
  then Some (errorf ("ruleset: rule " ++ Quote (r_ID r) ++ " has unknown op " ++ Quote (op_Op op)))
  else if TrimSpace (op_Path op) =? "" then Some (errorf ("ruleset: rule " ++ Quote (r_ID r) ++ " has an op with no path"))
  else if (op_Op op =? OpKeepIfValue) && (op_Value op =? "")
  then Some (errorf ("ruleset: rule " ++ Quote (r_ID r) ++ " has a keepIfValue with no value"))
  else None.

Fixpoint firstError (l : list (option gerr)) : option gerr :=
  match l with
  | [] => None
  | Some e :: _ => Some e
  | None :: l => firstError l
  end.

(** [prev] is the rule before, [seen] the ids so far. *)
Fixpoint validateRules (i : nat) (seen : list string) (prev : option Rule) (rules : list Rule) : option gerr :=
  match rules with
  | [] => None
  | r :: rules =>
      if TrimSpace (r_ID r) =? "" then Some (errorf ("ruleset: rule " ++ Itoa (Z.of_nat i) ++ " has no id"))
      else if member seen (r_ID r) then Some (errorf ("ruleset: duplicate rule id " ++ Quote (r_ID r)))
      else if TrimSpace (r_Description r) =? "" then Some (errorf ("ruleset: rule " ++ Quote (r_ID r) ++ " has no description"))
      else if m_Kind (r_Match r) =? ""
      then Some (errorf ("ruleset: rule " ++ Quote (r_ID r) ++ " has no match.kind (use " ++ quoted "*" ++ " for any)"))
      else if (List.length (r_Ops r) =? 0)%nat then Some (errorf ("ruleset: rule " ++ Quote (r_ID r) ++ " has no ops"))
      else if Generic r && match prev with Some p => negb (Generic p) | None => false end
      then Some (errorf ("ruleset: generic rule " ++ Quote (r_ID r) ++ " appears after a per-kind rule; generic rules must come first"))
      else match firstError (map (opError r) (r_Ops r)) with
           | Some e => Some e
           | None => validateRules (S i) (r_ID r :: seen) (Some r) rules
           end
  end.

Definition validate (rs : Ruleset) : option gerr :=
  if TrimSpace (rs_Version rs) =? "" then Some (errorf "ruleset: version is required (it is recorded in snapshot metadata)")
  else if (List.length (rs_Rules rs) =? 0)%nat then Some (errorf "ruleset: no rules")
  else validateRules 0 [] None (rs_Rules rs).

(** [LoadRuleset], with the document the build embeds, decoded. *)
Definition LoadRuleset (decoded : result Ruleset) : result Ruleset :=
  match decoded with
  | Err e => Err (wrap_err "parse embedded ruleset" e)
  | Ok rs => match validate rs with Some e => Err e | None => Ok rs end
  end.
End Validate.

(** rules.yaml, decoded. *)
Definition embedded : Ruleset :=
  mkRuleset "1" [
    mkRule "S1"
      ("Server-owned identity and bookkeeping. Meaningless in another cluster, and a stale resourceVersion makes an "
       ++ "apply fail outright.")
      (mkMatch None "*")
      [ mkOp OpRemove "metadata.uid" "";
        mkOp OpRemove "metadata.resourceVersion" "";
        mkOp OpRemove "metadata.creationTimestamp" "";
        mkOp OpRemove "metadata.generation" "";
        mkOp OpRemove "metadata.selfLink" "" ];
    mkRule "S2"
      ("Field-management bookkeeping. Large, churny, and it defeats dedup — an otherwise unchanged object serialises "
       ++ "differently on every backup.")
      (mkMatch None "*")
      [ mkOp OpRemove "metadata.managedFields" "" ];
    mkRule "S3"
      ("Observed state. It is the controller's to rebuild, and restoring a stale status would describe a world that no "
       ++ "longer exists.")
      (mkMatch None "*")
      [ mkOp OpRemove "status" "" ];
    mkRule "S4"
      ("kubectl's client-side-apply bookkeeping — a full copy of a previous revision, so it doubles the object and "
       ++ "churns constantly.")
      (mkMatch None "*")
      [ mkOp OpRemoveAnnotation "kubectl.kubernetes.io/last-applied-configuration" "" ];
    mkRule "S5"
      ("ownerReferences carry source-cluster UIDs. Restored objects are unowned by design — a dangling ownerReference "
       ++ "does not merely fail, it makes the garbage collector delete what was just restored (spec/04-manifest-backup.md "
       ++ "§4.3).")
      (mkMatch None "*")
      [ mkOp OpRemove "metadata.ownerReferences" "" ];
    mkRule "S6"
      ("The namespace is reinjected at apply time from the restore target. Stripping it is what makes a cross-namespace "
       ++ "ClusterRestore possible at all.")
      (mkMatch None "*")
      [ mkOp OpRemove "metadata.namespace" "" ];
    mkRule "S8"
      ("Finalizers — the sibling of S5, and the same failure mode with the sign flipped. A finalizer is one controller's "
       ++ "claim on ONE live object instance, not a property of the object; the controller that would release it never saw "
       ++ "the restored copy, so a transplanted finalizer is a claim nobody will ever drop and the object becomes "
       ++ "undeletable — taking its whole namespace down with it (Terminating forever). Measured, not theorised - M3.2 "
       ++ "caught the capture photographing a PVC inside the 2-second window where the CSI snapshot-controller holds "
       ++ "snapshot.storage.kubernetes.io/pvc-as-source-protection on it; the restore re-applied that finalizer onto a live "
       ++ "PVC with no VolumeSnapshot behind it, and the namespace could never finish deleting. Enumerating the known ones "
       ++ "is a losing game (every CSI driver and every operator adds its own), and nothing is lost by dropping them all - "
       ++ "a finalizer that is still warranted in the target cluster is re-added by its own controller.")
      (mkMatch None "*")
      [ mkOp OpRemove "metadata.finalizers" "" ];
    mkRule "S7"
      ("Drop annotation/label maps left empty by the rules above, so an object that only ever had server annotations "
       ++ "does not carry an empty map forever.")
      (mkMatch None "*")
      [ mkOp OpPruneEmptyMap "metadata.annotations" "";
        mkOp OpPruneEmptyMap "metadata.labels" "" ];
    mkRule "S10"
      ("Service. clusterIP/clusterIPs/ipFamilies are allocations from THIS cluster's service CIDR and will not exist in "
       ++ "another one. nodePort and healthCheckNodePort are kept deliberately — they are user-visible contract (firewall "
       ++ "rules, external LBs point at them). Velero hides this behind --preserve-nodeports; here it is always on. A kept "
       ++ "nodePort may collide in the target, which surfaces as a per-resource apply failure rather than a silent "
       ++ ("renumbering. The clusterIP " ++ dquote ++ "None" ++ dquote ++ " carve-out is not a special case for its own sake — see the keepIfValue ops ")
       ++ "below.")
      (mkMatch (Some "") "Service")
      [ mkOp OpKeepIfValue "spec.clusterIP" "None";
        mkOp OpKeepIfValue "spec.clusterIPs" "None";
        mkOp OpRemove "spec.clusterIP" "";
        mkOp OpRemove "spec.clusterIPs" "";
        mkOp OpRemove "spec.ipFamilies" "";
        mkOp OpKeep "spec.healthCheckNodePort" "";
        mkOp OpKeep "spec.ports[].nodePort" "" ];
    mkRule "S11"
      ("PersistentVolumeClaim. The PV binding is cluster-local, so volumeName and the binding annotations go. "
       ++ "dataSource/dataSourceRef point at VolumeSnapshots excluded by E9 — the data comes back through the volume "
       ++ "restore path, not through the manifest. storageClassName is KEPT because it is the input of storageClassMapping "
       ++ "at restore. It used to drop kubernetes.io/pvc-protection by name; S8 now drops every finalizer generically, "
       ++ "which is the only version of that rule a CSI driver cannot outrun.")
      (mkMatch (Some "") "PersistentVolumeClaim")
      [ mkOp OpRemove "spec.volumeName" "";
        mkOp OpRemove "spec.dataSource" "";
        mkOp OpRemove "spec.dataSourceRef" "";
        mkOp OpRemoveAnnotation "pv.kubernetes.io/bind-completed" "";
        mkOp OpRemoveAnnotation "pv.kubernetes.io/bound-by-controller" "";
        mkOp OpRemoveAnnotation "volume.beta.kubernetes.io/storage-provisioner" "";
        mkOp OpRemoveAnnotation "volume.kubernetes.io/storage-provisioner" "";
        mkOp OpRemoveAnnotation "volume.kubernetes.io/selected-node" "";
        mkOp OpKeep "spec.storageClassName" "";
        mkOp OpPruneEmptyMap "metadata.annotations" "" ];
    mkRule "S12"
      ("Standalone Pod. nodeName pins it to a node that will not exist; priority is derived by the API server from the "
       ++ "kept priorityClassName; serviceAccount is the deprecated alias of serviceAccountName. The kube-api-access-* "
       ++ "projected volumes are injected by the API server and carry a bound token — restoring them would fail on a volume "
       ++ "the target cluster wants to inject itself.")
      (mkMatch (Some "") "Pod")
      [ mkOp OpRemove "spec.nodeName" "";
        mkOp OpRemove "spec.priority" "";
        mkOp OpRemove "spec.serviceAccount" "";
        mkOp OpRemoveProjectedTokenVolumes "kube-api-access-*" "" ];
    mkRule "S13"
      ("Deployment revision bookkeeping, rewritten by the controller on every rollout — pure churn against dedup.")
      (mkMatch (Some "apps") "Deployment")
      [ mkOp OpRemoveAnnotation "deployment.kubernetes.io/revision" "";
        mkOp OpPruneEmptyMap "metadata.annotations" "" ];
    mkRule "S20"
      ("PersistentVolume. claimRef binds to a PVC UID from the source cluster; the UID and resourceVersion must go or "
       ++ "the PV binds to nothing and stays Released. The rest of claimRef (namespace/name) is kept so the PV can rebind "
       ++ "to the restored PVC.")
      (mkMatch (Some "") "PersistentVolume")
      [ mkOp OpRemove "spec.claimRef.uid" "";
        mkOp OpRemove "spec.claimRef.resourceVersion" "" ];
    mkRule "S21"
      ("ClusterRoleBinding subjects are kept verbatim. They ARE the point of a DR — a binding without its subjects "
       ++ "restores an empty grant, which looks successful and grants nobody anything. Pinned as an explicit keep so no "
       ++ "future generic rule can take them.")
      (mkMatch (Some "rbac.authorization.k8s.io") "ClusterRoleBinding")
      [ mkOp OpKeep "subjects" "";
        mkOp OpKeep "roleRef" "" ]
  ].

(** ** The operations *)

Definition Cut (s sep : string) : option (string * string) :=
  match String.index 0 sep s with
  | Some i => Some (stake i s, sdrop (i + slen sep) s)
  | None => None
  end.

Definition TrimDot (s : string) : string := if HasPrefix s "." then sdrop 1 s else s.

Definition valueMatches (obj : fields) (dotted want : string) : bool :=
  match at_path (splitOn "." dotted) obj with
  | Some (VStr s) => s =? want
  | Some (VArr l) => existsb (fun it => match it with VStr s => s =? want | _ => false end) l
  | _ => false
  end.

Definition isProtected (removed : string) (protected : list string) : bool :=
  member protected removed
  || existsb (fun p => HasPrefix p (removed ++ ".") || HasPrefix p (removed ++ "[]")) protected.

(** An element of an array, with [g] applied inside of it when it is an object. *)
Definition inItem (g : fields -> option fields) (it : value) : option value :=
  match it with VObj m => option_map VObj (g m) | _ => None end.

Definition inItems (g : fields -> option fields) (key : string) (parent : fields) : option fields :=
  match field key parent with
  | Some (VArr items) =>
      if existsb (fun it => match inItem g it with Some _ => true | None => false end) items
      then Some (put key (VArr (map (fun it => default it (inItem g it)) items)) parent)
      else None
  | _ => None
  end.

(** Each round goes below one [[]], so that the length of the path is fuel enough. *)
Fixpoint removePathN (n : nat) (dotted : string) (obj : fields) : option fields :=
  match Cut dotted "[]" with
  | Some (arrPath, after) =>
      match n with
      | O => None
      | S n =>
          let rest := TrimDot after in
          atParent (splitOn "." arrPath) (inItems (if rest =? "" then fun _ => None else removePathN n rest)) obj
      end
  | None => atParent (splitOn "." dotted) deleteKey obj
  end.

Definition removePath (dotted : string) (obj : fields) : option fields := removePathN (slen dotted) dotted obj.

Definition removeMapKey (dotted key : string) (obj : fields) : option fields :=
  atParent (splitOn "." dotted ++ [key]) deleteKey obj.

Definition finalizersPath : string := "metadata.finalizers".

Definition isText (s : string) (it : value) : bool := match it with VStr t => t =? s | _ => false end.

Definition keepItems (keep : value -> bool) (key : string) (items : list value) (parent : fields) : fields :=
  let kept := List.filter keep items in
  if (List.length kept =? 0)%nat then del key parent else put key (VArr kept) parent.

Definition removeFinalizer (v : string) (obj : fields) : option fields :=
  atParent (splitOn "." finalizersPath)
    (fun last parent =>
       match field last parent with
       | Some (VArr items) =>
           if existsb (isText v) items then Some (keepItems (fun it => negb (isText v it)) last items parent) else None
       | _ => None
       end) obj.

Definition pruneEmptyMap (dotted : string) (obj : fields) : option fields :=
  atParent (splitOn "." dotted)
    (fun last parent => match field last parent with Some (VObj []) => Some (del last parent) | _ => None end) obj.

(** *** Projected token volumes *)

Definition nameOf (m : fields) : string := str_value (field "name" m).

Definition isTokenVolume (glob : string) (v : value) : bool :=
  match v with
  | VObj vm => matches glob (nameOf vm) && match field "projected" vm with Some _ => true | None => false end
  | _ => false
  end.

(** A mount of a volume that was dropped. *)
Definition mountsDropped (dropped : list string) (mnt : value) : bool :=
  match mnt with VObj mm => member dropped (nameOf mm) | _ => false end.

Definition dropMounts (dropped : list string) (c : value) : value :=
  match c with
  | VObj cm =>
      match field "volumeMounts" cm with
      | Some (VArr mounts) => VObj (keepItems (fun m => negb (mountsDropped dropped m)) "volumeMounts" mounts cm)
      | _ => c
      end
  | _ => c
  end.

Definition dropMountsIn (dropped : list string) (spec : fields) (listKey : string) : fields :=
  match field listKey spec with
  | Some (VArr l) => put listKey (VArr (map (dropMounts dropped) l)) spec
  | _ => spec
  end.

Definition containerLists : list string := ["containers"; "initContainers"; "ephemeralContainers"].

Definition removeProjectedTokenVolumes (glob : string) (obj : fields) : option fields :=
  match field "spec" obj with
  | Some (VObj spec) =>
      match field "volumes" spec with
      | Some (VArr volumes) =>
          let dropped := omap (fun v => match v with VObj vm => if isTokenVolume glob v then Some (nameOf vm) else None | _ => None end)
                           volumes in
          if (List.length dropped =? 0)%nat then None
          else
            let spec1 := keepItems (fun v => negb (isTokenVolume glob v)) "volumes" volumes spec in
            Some (put "spec" (VObj (fold_left (dropMountsIn dropped) containerLists spec1)) obj)
      | _ => None
      end
  | _ => None
  end.

(** *** The pipeline *)

(** The object after the operation, or [None] when it is unchanged. *)
Definition applyOp (Quote : string -> string) (protected : list string) (op : Op) (obj : fields) : result (option fields) :=
  let kind := op_Op op in
  if kind =? OpRemove then Ok (if isProtected (op_Path op) protected then None else removePath (op_Path op) obj)
  else if kind =? OpRemoveAnnotation then Ok (removeMapKey "metadata.annotations" (op_Path op) obj)
  else if kind =? OpRemoveFinalizer then Ok (removeFinalizer (op_Path op) obj)
  else if kind =? OpPruneEmptyMap then Ok (pruneEmptyMap (op_Path op) obj)
  else if kind =? OpRemoveProjectedTokenVolumes then Ok (removeProjectedTokenVolumes (op_Path op) obj)
  else if (kind =? OpKeep) || (kind =? OpKeepIfValue) then Ok None
  else Err (errorf ("unknown op " ++ Quote kind)).

(** What the keeps of the applicable rules protect, whatever their place. *)
Definition protects (obj : fields) (op : Op) : bool :=
  (op_Op op =? OpKeep) || ((op_Op op =? OpKeepIfValue) && valueMatches obj (op_Path op) (op_Value op)).

Definition protectedBy (obj : fields) (rules : list Rule) : list string :=
  map op_Path (List.filter (protects obj) (List.concat (map r_Ops rules))).

Record SanitizeResult := mkSanitized { Matched : list string; Mutated : list string }.

(** The object as the operations leave it, whether one changed it, and the error that
    stopped them. *)
Fixpoint applyOps (Quote : string -> string) (protected : list string) (ops : list Op) (obj : fields) (changed : bool)
    : fields * bool * option gerr :=
  match ops with
  | [] => (obj, changed, None)
  | op :: ops =>
      match applyOp Quote protected op obj with
      | Err e => (obj, changed, Some e)
      | Ok None => applyOps Quote protected ops obj changed
      | Ok (Some obj') => applyOps Quote protected ops obj' true
      end
  end.

Section Sanitizer.
Context {A : Accessors}.
Variable Quote : string -> string.
Variable rs : Ruleset.

Fixpoint applyRules (protected : list string) (kind : string) (rules : list Rule) (obj : fields) (res : SanitizeResult)
    : result (fields * SanitizeResult) :=
  match rules with
  | [] => Ok (obj, res)
  | r :: rules =>
      match applyOps Quote protected (r_Ops r) obj false with
      | (obj', _, Some e) => Err (wrap_err ("sanitize " ++ kind ++ "/" ++ GetName obj' ++ " rule " ++ r_ID r) e)
      | (obj', changed, None) =>
          applyRules protected kind rules obj'
            (mkSanitized (Matched res ++ [r_ID r]) (if changed then Mutated res ++ [r_ID r] else Mutated res)%list)
      end
  end.

Definition applicable (obj : fields) : list Rule :=
  List.filter (fun r => rule_matches r (gvk_group obj) (gvk_kind obj)) (rs_Rules rs).

(** [None] is Go's nil object. *)
Definition Sanitize (obj : option fields) : result (fields * SanitizeResult) :=
  match obj with
  | None => Err (errorf "sanitize: nil object")
  | Some obj =>
      if gvk_kind obj =? "" then Err (errorf "sanitize: object has no kind")
      else applyRules (protectedBy obj (applicable obj)) (gvk_kind obj) (applicable obj) obj (mkSanitized [] [])
  end.
End Sanitizer.

(** ** Exclusions *)

Definition ExcludeControllerOwnedPod : string := "E1".
Definition ExcludeDeploymentOwnedReplicaSet : string := "E2".
Definition ExcludeCronJobOwnedJob : string := "E3".
Definition ExcludeManagedEndpoints : string := "E4".
Definition ExcludeEvent : string := "E5".
Definition ExcludeLease : string := "E6".
Definition ExcludeServiceAccountToken : string := "E7".
Definition ExcludeCertManagerTransient : string := "E8".
Definition ExcludeVolumeSnapshot : string := "E9".
Definition ExcludeOwnRunRecord : string := "E10".
Definition ExcludeRootCAConfigMap : string := "E11".

Section Exclude.
Context {A : Accessors}.
Variable ServicesWithSelector : string -> bool.

Definition label (obj : fields) (k : string) : string := default "" (GetLabels obj !! k).

Definition hasControllerOwner (obj : fields) (ofKind : string) : bool :=
  existsb (fun ref => match or_Controller ref with
                      | Some true => (ofKind =? "") || (or_Kind ref =? ofKind)
                      | _ => false
                      end) (GetOwnerReferences obj).

Definition excludeCertManagerTransient (obj : fields) (group kind : string) : option string :=
  if label obj "acme.cert-manager.io/http01-solver" =? "true" then Some ExcludeCertManagerTransient
  else if (group =? "acme.cert-manager.io") && ((kind =? "Order") || (kind =? "Challenge"))
          || (group =? "cert-manager.io") && (kind =? "CertificateRequest")
  then Some ExcludeCertManagerTransient
  else None.

Definition excludeEphemeralKind (obj : fields) (group kind : string) : option string :=
  if (kind =? "Event") && ((group =? "") || (group =? "events.k8s.io")) then Some ExcludeEvent
  else if (kind =? "Lease") && (group =? "coordination.k8s.io") then Some ExcludeLease
  else if (kind =? "VolumeSnapshot") && (group =? "snapshot.storage.k8s.io") then Some ExcludeVolumeSnapshot
  else if (group =? "crystalbackup.io") && ((kind =? "Backup") || (kind =? "Restore")) then Some ExcludeOwnRunRecord
  else if (group =? "") && (kind =? "ConfigMap") && (GetName obj =? "kube-root-ca.crt") then Some ExcludeRootCAConfigMap
  else if (group =? "") && (kind =? "Secret") then
    match NestedString ["type"] obj with
    | Ok (Some t) => if t =? "kubernetes.io/service-account-token" then Some ExcludeServiceAccountToken else None
    | _ => None
    end
  else None.

Definition excludeRecreatedByAController (obj : fields) (group kind : string) : option string :=
  if (group =? "") && (kind =? "Pod") then
    if hasControllerOwner obj "" then Some ExcludeControllerOwnedPod else None
  else if (group =? "apps") && (kind =? "ReplicaSet") then
    if hasControllerOwner obj "Deployment" then Some ExcludeDeploymentOwnedReplicaSet else None
  else if (group =? "batch") && (kind =? "Job") then
    if hasControllerOwner obj "CronJob" then Some ExcludeCronJobOwnedJob else None
  else if (kind =? "EndpointSlice") && (group =? "discovery.k8s.io") then
    if label obj "endpointslice.kubernetes.io/managed-by" =? "endpointslice-controller.k8s.io"
    then Some ExcludeManagedEndpoints else None
  else if (group =? "") && (kind =? "Endpoints") then
    if ServicesWithSelector (GetName obj) then Some ExcludeManagedEndpoints else None
  else None.

(** The rule that excludes the object, if one does. *)
Definition ShouldExclude (obj : option fields) : option string :=
  match obj with
  | None => None
  | Some obj =>
      let group := gvk_group obj in
      let kind := gvk_kind obj in
      match excludeCertManagerTransient obj group kind with
      | Some rule => Some rule
      | None =>
          match excludeEphemeralKind obj group kind with
          | Some rule => Some rule
          | None => excludeRecreatedByAController obj group kind
          end
      end
  end.
End Exclude.
