(* ===== verification/SanitizeFacts.v ===== *)
(** * SanitizeFacts: what a sanitised manifest is
    (internal/sanitize)

    Every operation only takes away, and only below its own path; a pass therefore
    keeps every leaf no applicable rule names.  The embedded rules are then checked
    by computation against conditions that make a pass of them clean and idempotent. *)

From Stdlib Require Import Ascii String.
From S2P Require Import Prelude GoText Cluster MoverResult Restic Unstructured Sanitize.

#[local] Open Scope string_scope.

(** ** Operations on one map *)

Lemma leaf_del k m p x : leaf (VObj (del k m)) p x -> leaf (VObj m) p x.
Proof.
  intros H. inversion H as [|? k' v q ? Hv Hl|]; subst; [done|]. rewrite field_del in Hv.
  destruct (k =? k'); [done|]. by eapply leaf_key.
Qed.

Lemma leaf_del_inv k m p x : leaf (VObj m) p x -> leaf (VObj (del k m)) p x \/ [Key k] `prefix_of` p.
Proof.
  intros H. inversion H as [|? k' v q ? Hv Hl|]; subst; [done|]. destruct (String.eqb_spec k k') as [->|Hn].
  - right. by exists q.
  - left. eapply leaf_key; [|exact Hl]. rewrite field_del. by destruct (String.eqb_spec k k').
Qed.

Lemma deleteKey_shrinking : shrinking deleteKey.
Proof. intros k m m' ->%deleteKey_some p x. apply leaf_del. Qed.

Lemma deleteKey_losing : losing [] deleteKey.
Proof. intros k m m' ->%deleteKey_some p x. apply leaf_del_inv. Qed.

Lemma deleteKey_local : local deleteKey.
Proof. intros k m m' ->%deleteKey_some k' Hn. by apply field_del_ne. Qed.

Lemma deleteKey_wf k m m' : deleteKey k m = Some m' -> wf_fields m = true -> wf_fields m' = true.
Proof. intros ->%deleteKey_some. apply wf_del. Qed.

(** *** Arrays *)

Lemma leaf_item g it p x :
  (forall m m', g m = Some m' -> leaf (VObj m') p x -> leaf (VObj m) p x) ->
  leaf (default it (inItem g it)) p x -> leaf it p x.
Proof. intros Hg. destruct it; cbn; try done. destruct (g m) eqn:E; cbn; [by eapply Hg|done]. Qed.

Lemma inItems_some g k m m' :
  inItems g k m = Some m' ->
  exists items, field k m = Some (VArr items) /\ m' = put k (VArr (map (fun it => default it (inItem g it)) items)) m.
Proof.
  unfold inItems. destruct (field k m) as [[]|] eqn:E; try done. destruct (existsb _ _); [|done]. intros [= <-]. by exists items.
Qed.

Lemma inItems_shrinking g :
  (forall m m', g m = Some m' -> forall p x, leaf (VObj m') p x -> leaf (VObj m) p x) -> shrinking (inItems g).
Proof.
  intros Hg k m m' (items & Hk & ->)%inItems_some p x H. inversion H as [|? k' v q ? Hv Hl|]; subst; [done|].
  rewrite field_put in Hv. destruct (String.eqb_spec k k') as [<-|]; [|by eapply leaf_key]. injection Hv as <-.
  eapply leaf_key; [exact Hk|]. inversion Hl as [| |? v q' ? Hin Hl']; subst; [done|].
  apply list_elem_of_fmap in Hin as (it & -> & Hit). eapply leaf_elem; [exact Hit|]. eapply leaf_item; [|exact Hl'].
  intros. by eapply Hg.
Qed.

Lemma inItems_losing q g :
  (forall m m', g m = Some m' -> forall p x, leaf (VObj m) p x -> leaf (VObj m') p x \/ q `prefix_of` p) ->
  losing (Elem :: q) (inItems g).
Proof.
  intros Hg k m m' (items & Hk & ->)%inItems_some p x H. inversion H as [|? k' v r ? Hv Hl|]; subst; [done|].
  destruct (String.eqb_spec k k') as [<-|Hn].
  2: { left. eapply leaf_key; [|exact Hl]. by rewrite field_put_ne by congruence. }
  rewrite Hk in Hv. injection Hv as <-. inversion Hl as [| |? it r' ? Hin Hl']; subst; [done|].
  assert (leaf (default it (inItem g it)) r' x \/ q `prefix_of` r') as [Hi|[r ->]].
  { destruct it; cbn; try (by left). destruct (g m0) eqn:E; cbn; [by eapply Hg|by left]. }
  - left. eapply leaf_key; [apply field_put_eq|]. eapply leaf_elem; [|exact Hi]. apply list_elem_of_fmap. by exists it.
  - right. by exists r.
Qed.

Lemma inItems_local g : local (inItems g).
Proof. intros k m m' (items & _ & ->)%inItems_some k' Hn. by apply field_put_ne. Qed.

Lemma inItems_wf g :
  (forall m m', g m = Some m' -> wf_fields m = true -> wf_fields m' = true) ->
  forall k m m', inItems g k m = Some m' -> wf_fields m = true -> wf_fields m' = true.
Proof.
  intros Hg k m m' (items & Hk & ->)%inItems_some Hw. apply wf_put; [done|]. apply (wf_field _ _ _ Hw) in Hk. cbn in Hk |- *.
  rewrite forallb_forall in *. intros v (it & <- & Hit)%in_map_iff. specialize (Hk _ Hit).
  destruct it; cbn; try done. destruct (g m0) eqn:E; cbn; [by eapply Hg|done].
Qed.

(** *** Filtered lists *)

Lemma leaf_keepItems keep k items m p x :
  field k m = Some (VArr items) -> leaf (VObj (keepItems keep k items m)) p x -> leaf (VObj m) p x.
Proof.
  unfold keepItems. intros Hk. destruct (_ =? 0)%nat; [apply leaf_del|]. intros H.
  inversion H as [|? k' v q ? Hv Hl|]; subst; [done|]. rewrite field_put in Hv.
  destruct (String.eqb_spec k k') as [<-|]; [|by eapply leaf_key]. injection Hv as <-. eapply leaf_key; [exact Hk|].
  inversion Hl as [| |? v q' ? Hin Hl']; subst; [done|]. eapply leaf_elem; [|exact Hl'].
  apply list_elem_of_In, filter_In in Hin as [Hin _]. by apply list_elem_of_In.
Qed.

Lemma field_keepItems_ne keep k k' items m : k' <> k -> field k' (keepItems keep k items m) = field k' m.
Proof. unfold keepItems. intros Hn. destruct (_ =? 0)%nat; [by apply field_del_ne|by apply field_put_ne]. Qed.

Lemma field_keepItems keep k items m :
  field k (keepItems keep k items m) =
    if (List.length (List.filter keep items) =? 0)%nat then None else Some (VArr (List.filter keep items)).
Proof. unfold keepItems. destruct (_ =? 0)%nat; [apply field_del_eq|apply field_put_eq]. Qed.

Lemma leaf_keepItems_inv keep k items m p x :
  leaf (VObj m) p x -> leaf (VObj (keepItems keep k items m)) p x \/ [Key k] `prefix_of` p.
Proof.
  intros H. inversion H as [|? k' v q ? Hv Hl|]; subst; [done|]. destruct (String.eqb_spec k k') as [->|Hn].
  - right. by exists q.
  - left. eapply leaf_key; [|exact Hl]. by rewrite field_keepItems_ne by congruence.
Qed.

Lemma wf_keepItems keep k items m :
  field k m = Some (VArr items) -> wf_fields m = true -> wf_fields (keepItems keep k items m) = true.
Proof.
  intros Hk Hw. unfold keepItems. destruct (_ =? 0)%nat; [by apply wf_del|]. apply wf_put; [done|].
  apply (wf_field _ _ _ Hw) in Hk. cbn in Hk |- *. rewrite forallb_forall in *. intros v [Hv _]%filter_In. by apply Hk.
Qed.

(** ** Each operation takes away only what it names *)

(** The way a dotted path leads, [[]] being any element. *)
Fixpoint stepsN (n : nat) (dotted : string) : list step :=
  match Cut dotted "[]" with
  | Some (arrPath, after) =>
      match n with
      | O => []
      | S n =>
          let rest := TrimDot after in
          (map Key (splitOn "." arrPath) ++ Elem :: (if rest =? "" then [] else stepsN n rest))%list
      end
  | None => map Key (splitOn "." dotted)
  end.

Definition steps (dotted : string) : list step := stepsN (slen dotted) dotted.

Lemma removePathN_shrinks n dotted m m' p x :
  removePathN n dotted m = Some m' -> leaf (VObj m') p x -> leaf (VObj m) p x.
Proof.
  revert dotted m m' p x. induction n as [|n IH]; intros dotted m m' p x; cbn; (destruct (Cut dotted "[]") as [[arr after]|]; cbn).
  - done.
  - apply atParent_shrinks, deleteKey_shrinking.
  - apply atParent_shrinks, inItems_shrinking. intros m1 m2 H q y. destruct (_ =? ""); [done|by eapply IH].
  - apply atParent_shrinks, deleteKey_shrinking.
Qed.

Lemma removePathN_loses n dotted m m' p x :
  removePathN n dotted m = Some m' -> leaf (VObj m) p x -> leaf (VObj m') p x \/ stepsN n dotted `prefix_of` p.
Proof.
  revert dotted m m' p x. induction n as [|n IH]; intros dotted m m' p x; cbn; (destruct (Cut dotted "[]") as [[arr after]|]; cbn).
  - done.
  - rewrite <-(app_nil_r (map Key _)). apply atParent_loses, deleteKey_losing.
  - apply atParent_loses, inItems_losing. intros m1 m2 H q y. destruct (_ =? ""); [done|by eapply IH].
  - rewrite <-(app_nil_r (map Key _)). apply atParent_loses, deleteKey_losing.
Qed.

Lemma removePathN_wf n dotted m m' : removePathN n dotted m = Some m' -> wf_fields m = true -> wf_fields m' = true.
Proof.
  revert dotted m m'. induction n as [|n IH]; intros dotted m m'; cbn; (destruct (Cut dotted "[]") as [[arr after]|]; cbn).
  - done.
  - apply atParent_wf, deleteKey_wf.
  - apply atParent_wf, inItems_wf. intros m1 m2 H. destruct (_ =? ""); [done|by eapply IH].
  - apply atParent_wf, deleteKey_wf.
Qed.

(** The first segments of a dotted path, up to a [[]]. *)
Definition path_root (dotted : string) : list string :=
  splitOn "." (match Cut dotted "[]" with Some (arr, _) => arr | None => dotted end).

Lemma removePathN_frame n dotted m m' p :
  removePathN n dotted m = Some m' -> diverge (path_root dotted) p = true -> at_path p m' = at_path p m.
Proof.
  unfold path_root. destruct n; cbn; (destruct (Cut dotted "[]") as [[arr after]|]; [|apply at_path_frame, deleteKey_local]); [done|].
  apply at_path_frame, inItems_local.
Qed.

(** *** Projected token volumes *)

Definition tokenPlaces : list (list step) :=
  [Key "spec"; Key "volumes"] :: map (fun c => [Key "spec"; Key c; Elem; Key "volumeMounts"]) containerLists.

Lemma leaf_dropMounts dropped c p x : leaf (dropMounts dropped c) p x -> leaf c p x.
Proof.
  destruct c as [| | | | | |cm]; cbn; try done. destruct (field "volumeMounts" cm) as [[]|] eqn:E; try done. by apply leaf_keepItems.
Qed.

Lemma leaf_dropMounts_inv dropped c p x :
  leaf c p x -> leaf (dropMounts dropped c) p x \/ [Key "volumeMounts"] `prefix_of` p.
Proof.
  destruct c as [| | | | | |cm]; cbn; try (by left). destruct (field "volumeMounts" cm) as [[]|] eqn:E; try (by left).
  apply leaf_keepItems_inv.
Qed.

Lemma wf_dropMounts dropped c : wf c = true -> wf (dropMounts dropped c) = true.
Proof.
  destruct c as [| | | | | |cm]; cbn; try done. destruct (field "volumeMounts" cm) as [[]|] eqn:E; try done. by apply wf_keepItems.
Qed.

Lemma leaf_dropMountsIn dropped spec k p x : leaf (VObj (dropMountsIn dropped spec k)) p x -> leaf (VObj spec) p x.
Proof.
  unfold dropMountsIn. destruct (field k spec) as [[]|] eqn:E; try done. intros H.
  inversion H as [|? k' v q ? Hv Hl|]; subst; [done|]. rewrite field_put in Hv.
  destruct (String.eqb_spec k k') as [<-|]; [|by eapply leaf_key]. injection Hv as <-. eapply leaf_key; [exact E|].
  inversion Hl as [| |? v q' ? Hin Hl']; subst; [done|]. apply list_elem_of_fmap in Hin as (c & -> & Hc).
  eapply leaf_elem; [exact Hc|]. by eapply leaf_dropMounts.
Qed.

Lemma leaf_dropMountsIn_inv dropped spec k p x :
  leaf (VObj spec) p x ->
  leaf (VObj (dropMountsIn dropped spec k)) p x \/ [Key k; Elem; Key "volumeMounts"] `prefix_of` p.
Proof.
  unfold dropMountsIn. destruct (field k spec) as [[]|] eqn:E; try (by left). intros H.
  inversion H as [|? k' v q ? Hv Hl|]; subst; [done|]. destruct (String.eqb_spec k k') as [<-|Hn].
  2: { left. eapply leaf_key; [|exact Hl]. by rewrite field_put_ne by congruence. }
  rewrite E in Hv. injection Hv as <-. inversion Hl as [| |? c q' ? Hin Hl']; subst; [done|].
  destruct (leaf_dropMounts_inv dropped _ _ _ Hl') as [Hd|[r ->]]; [left|right; by exists r].
  eapply leaf_key; [apply field_put_eq|]. eapply leaf_elem; [|exact Hd]. apply list_elem_of_fmap. by exists c.
Qed.

Lemma wf_dropMountsIn dropped spec k : wf_fields spec = true -> wf_fields (dropMountsIn dropped spec k) = true.
Proof.
  intros Hw. unfold dropMountsIn. destruct (field k spec) as [[]|] eqn:E; try done. apply wf_put; [done|].
  apply (wf_field _ _ _ Hw) in E. cbn in E |- *. rewrite forallb_forall in *. intros v (c & <- & Hc)%in_map_iff.
  by apply wf_dropMounts, E.
Qed.

Lemma removeProjected_some glob m m' :
  removeProjectedTokenVolumes glob m = Some m' ->
  exists spec volumes dropped, field "spec" m = Some (VObj spec) /\ field "volumes" spec = Some (VArr volumes)
    /\ m' = put "spec" (VObj (fold_left (dropMountsIn dropped) containerLists
              (keepItems (fun v => negb (isTokenVolume glob v)) "volumes" volumes spec))) m.
Proof.
  unfold removeProjectedTokenVolumes. destruct (field "spec" m) as [[| | | | | |spec]|] eqn:Es; try done.
  destruct (field "volumes" spec) as [[| | | | |volumes|]|] eqn:Ev; try done. destruct (_ =? 0)%nat; [done|].
  intros [= <-]. by eexists spec, volumes, _.
Qed.

Lemma removeProjected_shrinks glob m m' p x :
  removeProjectedTokenVolumes glob m = Some m' -> leaf (VObj m') p x -> leaf (VObj m) p x.
Proof.
  intros (spec & volumes & dropped & Hs & Hv & ->)%removeProjected_some. apply (leaf_put _ _ _ _ _ _ Hs).
  intros q y H. cbn [fold_left containerLists] in H. do 3 apply leaf_dropMountsIn in H. by eapply leaf_keepItems.
Qed.

Lemma removeProjected_loses glob m m' p x :
  removeProjectedTokenVolumes glob m = Some m' -> leaf (VObj m) p x ->
  leaf (VObj m') p x \/ exists place, place ∈ tokenPlaces /\ place `prefix_of` p.
Proof.
  intros (spec & volumes & dropped & Hs & Hv & ->)%removeProjected_some H.
  inversion H as [|? k' v q ? Hk Hl|]; subst; [done|]. destruct (String.eqb_spec "spec" k') as [<-|Hn].
  2: { left. eapply leaf_key; [|exact Hl]. by rewrite field_put_ne by congruence. }
  rewrite Hs in Hk. injection Hk as <-.
  assert (forall place, place ∈ tokenPlaces -> tl place `prefix_of` q ->
            hd (Key "spec") place = Key "spec" -> exists place, place ∈ tokenPlaces /\ place `prefix_of` (Key "spec" :: q)) as Hplace.
  { intros place Hp [r ->] Hh. exists place. split; [done|]. destruct place as [|s place]; cbn in *; [by eexists|].
    subst s. by exists r. }
  destruct (leaf_keepItems_inv (fun v => negb (isTokenVolume glob v)) "volumes" volumes _ _ _ Hl) as [H0|H0].
  2: { right. eapply (Hplace [Key "spec"; Key "volumes"]); [left|exact H0|done]. }
  set (s0 := keepItems _ _ _ _) in *.
  assert (forall c s, c ∈ containerLists -> leaf (VObj s) q x ->
    leaf (VObj (dropMountsIn dropped s c)) q x \/ exists place, place ∈ tokenPlaces /\ place `prefix_of` (Key "spec" :: q)) as Hc.
  { intros c s Hin Hq. destruct (leaf_dropMountsIn_inv dropped s c _ _ Hq) as [?|Hp]; [by left|right].
    eapply (Hplace [Key "spec"; Key c; Elem; Key "volumeMounts"]); [|exact Hp|done].
    right. apply list_elem_of_fmap. by exists c. }
  cbn [fold_left containerLists].
  destruct (Hc "containers" s0 ltac:(left) H0) as [H1|]; [|by right].
  destruct (Hc "initContainers" _ ltac:(right; left) H1) as [H2|]; [|by right].
  destruct (Hc "ephemeralContainers" _ ltac:(right; right; left) H2) as [H3|]; [|by right].
  left. eapply leaf_key; [apply field_put_eq|exact H3].
Qed.

Lemma removeProjected_wf glob m m' :
  removeProjectedTokenVolumes glob m = Some m' -> wf_fields m = true -> wf_fields m' = true.
Proof.
  intros (spec & volumes & dropped & Hs & Hv & ->)%removeProjected_some Hw. apply wf_put; [done|].
  cbn [fold_left containerLists]. do 3 apply wf_dropMountsIn. apply wf_keepItems; [done|]. exact (wf_field m "spec" (VObj spec) Hw Hs).
Qed.

(** *** One operation *)

(** The leaves an operation is about. *)
Definition covers (op : Op) (p : list step) : Prop :=
  if op_Op op =? OpRemove then steps (op_Path op) `prefix_of` p
  else if op_Op op =? OpRemoveAnnotation then [Key "metadata"; Key "annotations"; Key (op_Path op)] `prefix_of` p
  else if op_Op op =? OpRemoveFinalizer then [Key "metadata"; Key "finalizers"] `prefix_of` p
  else if op_Op op =? OpRemoveProjectedTokenVolumes then exists place, place ∈ tokenPlaces /\ place `prefix_of` p
  else False.

(** The operation runs: it is no removal of something protected. *)
Definition enabled (protected : list string) (op : Op) : bool :=
  negb ((op_Op op =? OpRemove) && isProtected (op_Path op) protected).

Lemma removeFinalizer_some v m m' :
  removeFinalizer v m = Some m' ->
  atParent ["metadata"; "finalizers"]
    (fun last parent => match field last parent with
       | Some (VArr items) =>
           if existsb (isText v) items then Some (keepItems (fun it => negb (isText v it)) last items parent) else None
       | _ => None end) m = Some m'.
Proof. done. Qed.

Lemma filterItems_cases v k m m' :
  match field k m with
  | Some (VArr items) => if existsb (isText v) items then Some (keepItems (fun it => negb (isText v it)) k items m) else None
  | _ => None
  end = Some m' ->
  exists items, field k m = Some (VArr items) /\ m' = keepItems (fun it => negb (isText v it)) k items m.
Proof. destruct (field k m) as [[]|]; try done. destruct (existsb _ _); [|done]. intros [= <-]. by eexists. Qed.

Lemma pruned_some k m m' :
  match field k m with Some (VObj []) => Some (del k m) | _ => None end = Some m' -> field k m = Some (VObj []) /\ m' = del k m.
Proof. destruct (field k m) as [[| | | | | |[]]|]; try done. by intros [= <-]. Qed.

Section Op.
Context (Quote : string -> string) (protected : list string).

(** The ways an operation changes an object. *)
Variant changes (op : Op) (m m' : fields) : Prop :=
| by_remove : op_Op op = OpRemove -> isProtected (op_Path op) protected = false -> removePath (op_Path op) m = Some m' -> changes op m m'
| by_annotation : op_Op op = OpRemoveAnnotation -> removeMapKey "metadata.annotations" (op_Path op) m = Some m' -> changes op m m'
| by_finalizer : op_Op op = OpRemoveFinalizer -> removeFinalizer (op_Path op) m = Some m' -> changes op m m'
| by_prune : op_Op op = OpPruneEmptyMap -> pruneEmptyMap (op_Path op) m = Some m' -> changes op m m'
| by_token : op_Op op = OpRemoveProjectedTokenVolumes -> removeProjectedTokenVolumes (op_Path op) m = Some m' -> changes op m m'.

Lemma applyOp_changes op m m' : applyOp Quote protected op m = Ok (Some m') -> changes op m m'.
Proof.
  unfold applyOp. destruct (String.eqb_spec (op_Op op) OpRemove).
  { destruct (isProtected _ _) eqn:E; [done|]. intros [= H]. by apply by_remove. }
  destruct (String.eqb_spec (op_Op op) OpRemoveAnnotation); [intros [= H]; by apply by_annotation|].
  destruct (String.eqb_spec (op_Op op) OpRemoveFinalizer); [intros [= H]; by apply by_finalizer|].
  destruct (String.eqb_spec (op_Op op) OpPruneEmptyMap); [intros [= H]; by apply by_prune|].
  destruct (String.eqb_spec (op_Op op) OpRemoveProjectedTokenVolumes); [intros [= H]; by apply by_token|].
  by destruct (_ || _).
Qed.

Lemma applyOp_shrinks op m m' p x : changes op m m' -> leaf (VObj m') p x -> leaf (VObj m) p x.
Proof.
  intros [_ _ H|_ H|_ H|_ H|_ H].
  - by eapply removePathN_shrinks.
  - by eapply atParent_shrinks, H; apply deleteKey_shrinking.
  - apply removeFinalizer_some in H. eapply atParent_shrinks, H.
    intros k a a' (items & Hk & ->)%filterItems_cases q y. by apply leaf_keepItems.
  - unfold pruneEmptyMap in H. eapply atParent_shrinks, H. intros k a a' [_ ->]%pruned_some q y. apply leaf_del.
  - by eapply removeProjected_shrinks.
Qed.

Lemma applyOp_loses op m m' p x :
  changes op m m' -> leaf (VObj m) p x -> leaf (VObj m') p x \/ (enabled protected op = true /\ covers op p).
Proof.
  unfold covers, enabled. intros [E Ep H|E H|E H|E H|E H] Hl; rewrite E; cbn.
  - rewrite Ep. destruct (removePathN_loses _ _ _ _ _ _ H Hl); [by left|by right].
  - apply (atParent_loses [] _ _ _ _ _ _ deleteKey_losing H) in Hl. cbn in Hl. destruct Hl; [by left|by right].
  - apply removeFinalizer_some in H. refine (_ (atParent_loses [] _ _ _ _ _ _ _ H Hl)); [intros []; [by left|by right]|].
    intros k a a' (items & Hk & ->)%filterItems_cases q y. apply leaf_keepItems_inv.
  - left. unfold pruneEmptyMap in H. revert m m' p H Hl. induction (splitOn "." (op_Path op)) as [|k segs IH]; intros m m' p H Hl; [done|].
    destruct segs as [|k1 segs].
    + cbn in H. apply pruned_some in H as [Hk ->]. inversion Hl as [|? k' v q ? Hv Hl'|]; subst; [done|].
      eapply leaf_key; [|exact Hl']. rewrite field_del. destruct (String.eqb_spec k k') as [<-|]; [|done].
      rewrite Hk in Hv. injection Hv as <-. inversion Hl'; subst; done.
    + rewrite atParent_cons in H by done. destruct (field k m) as [[]|] eqn:Ef; try done.
      destruct (atParent _ _ _) as [m1|] eqn:E1; [|done]. injection H as <-.
      inversion Hl as [|? k' v q ? Hv Hl'|]; subst; [done|]. destruct (String.eqb_spec k k') as [<-|Hn].
      * rewrite Ef in Hv. injection Hv as <-. eapply leaf_key; [apply field_put_eq|]. by eapply IH.
      * eapply leaf_key; [|exact Hl']. by rewrite field_put_ne by congruence.
  - destruct (removeProjected_loses _ _ _ _ _ H Hl); [by left|by right].
Qed.

Lemma applyOp_wf op m m' : changes op m m' -> wf_fields m = true -> wf_fields m' = true.
Proof.
  intros [_ _ H|_ H|_ H|_ H|_ H].
  - by eapply removePathN_wf.
  - eapply atParent_wf, H. apply deleteKey_wf.
  - apply removeFinalizer_some in H. eapply atParent_wf, H. intros k a a' (items & Hk & ->)%filterItems_cases. by apply wf_keepItems.
  - unfold pruneEmptyMap in H. eapply atParent_wf, H. intros k a a' [_ ->]%pruned_some. apply wf_del.
  - by eapply removeProjected_wf.
Qed.

(** The path an operation works below. *)
Definition op_root (op : Op) : list string :=
  if op_Op op =? OpRemove then path_root (op_Path op)
  else if op_Op op =? OpRemoveAnnotation then ["metadata"; "annotations"; op_Path op]
  else if op_Op op =? OpRemoveFinalizer then ["metadata"; "finalizers"]
  else if op_Op op =? OpPruneEmptyMap then splitOn "." (op_Path op)
  else ["spec"].

Lemma applyOp_frame op m m' p : changes op m m' -> diverge (op_root op) p = true -> at_path p m' = at_path p m.
Proof.
  unfold op_root. intros [E Ep H|E H|E H|E H|E H] Hd; rewrite E in Hd; cbn -[splitOn diverge] in Hd.
  - by eapply removePathN_frame.
  - eapply at_path_frame; [apply deleteKey_local|exact H|exact Hd].
  - apply removeFinalizer_some in H. eapply at_path_frame; [|exact H|exact Hd].
    intros k a a' (items & Hk & ->)%filterItems_cases k' Hn. by apply field_keepItems_ne.
  - unfold pruneEmptyMap in H. eapply at_path_frame; [|exact H|exact Hd]. intros k a a' [_ ->]%pruned_some k' Hn. by apply field_del_ne.
  - apply removeProjected_some in H as (spec & volumes & dropped & Hs & Hv & ->). destruct p as [|k p]; [done|]. cbn [diverge] in Hd.
    rewrite orb_false_r in Hd. apply negb_true_iff, String.eqb_neq in Hd.
    destruct p as [|k1 p]; [cbn; by apply field_put_ne; congruence|]. rewrite !at_path_cons by done. by rewrite field_put_ne by congruence.
Qed.
End Op.

(** ** A whole pass *)

Section Pass.
Context {A : Accessors} {Laws : AccessorLaws A} (Quote : string -> string).

(** One operation of a pass that does not fail. *)
Definition apply1 (protected : list string) (m : fields) (op : Op) : fields :=
  match applyOp Quote protected op m with Ok (Some m') => m' | _ => m end.

Definition known (op : Op) : bool := member mutatingOps (op_Op op) || (op_Op op =? OpKeep) || (op_Op op =? OpKeepIfValue).

Lemma applyOp_known protected op m : known op = true -> exists o, applyOp Quote protected op m = Ok o.
Proof.
  unfold known, applyOp, mutatingOps, member. cbn [existsb]. intros H.
  repeat match goal with |- context [if ?b then _ else _] => destruct b eqn:?; [by eexists|] end.
  repeat match goal with E : (_ =? _) = false |- _ => rewrite E in H; clear E end. cbn in H. congruence.
Qed.

Lemma applyOps_spec protected ops m c m' c' :
  applyOps Quote protected ops m c = (m', c', None) -> m' = fold_left (apply1 protected) ops m.
Proof.
  revert m c. induction ops as [|op ops IH]; intros m c; cbn; [by intros [= -> ->]|].
  unfold apply1 at 2. destruct (applyOp _ _ _ _) as [[m1|]|e]; [apply IH..|done].
Qed.

Lemma applyOps_quiet protected ops m c :
  Forall (fun op => applyOp Quote protected op m = Ok None) ops -> applyOps Quote protected ops m c = (m, c, None).
Proof. induction 1 as [|op ops H _ IH]; cbn; [done|]. by rewrite H. Qed.

Lemma applyOps_known protected ops m c : forallb known ops = true -> snd (applyOps Quote protected ops m c) = None.
Proof.
  revert m c. induction ops as [|op ops IH]; intros m c; cbn; [done|]. intros [Hk H]%andb_true_iff.
  destruct (applyOp_known protected op m Hk) as [[m'|] ->]; by apply IH.
Qed.

Definition opsOf (rules : list Rule) : list Op := List.concat (map r_Ops rules).

Lemma applyRules_spec protected kind rules m res out res' :
  applyRules Quote protected kind rules m res = Ok (out, res') ->
  out = fold_left (apply1 protected) (opsOf rules) m /\ Matched res' = (Matched res ++ map r_ID rules)%list.
Proof.
  revert m res. induction rules as [|r rules IH]; intros m res; cbn; [intros [= -> ->]; by rewrite app_nil_r|].
  destruct (applyOps _ _ _ _ _) as [[m1 c] [e|]] eqn:E; [done|]. intros [-> Hm]%IH. cbn in Hm.
  rewrite (applyOps_spec _ _ _ _ _ _ E). unfold opsOf. cbn. rewrite fold_left_app, Hm, <-app_assoc. done.
Qed.

Lemma applyRules_known protected kind rules m res :
  forallb known (opsOf rules) = true -> exists out res', applyRules Quote protected kind rules m res = Ok (out, res').
Proof.
  revert m res. induction rules as [|r rules IH]; intros m res; cbn; [by eexists _, _|].
  unfold opsOf. cbn. rewrite forallb_app. intros [Hr H]%andb_true_iff.
  pose proof (applyOps_known protected _ m false Hr) as He. destruct (applyOps _ _ _ _ _) as [[m1 c] e]. cbn in He. subst e.
  by apply IH.
Qed.

Lemma applyRules_quiet protected kind rules m res :
  Forall (fun op => applyOp Quote protected op m = Ok None) (opsOf rules) ->
  applyRules Quote protected kind rules m res = Ok (m, mkSanitized (Matched res ++ map r_ID rules) (Mutated res)).
Proof.
  revert res. induction rules as [|r rules IH]; intros res; cbn; [rewrite app_nil_r; by destruct res|].
  unfold opsOf. cbn. intros [Hr H]%Forall_app. rewrite applyOps_quiet by done. rewrite IH by done. cbn. by rewrite <-app_assoc.
Qed.

Lemma apply1_cases protected m op : apply1 protected m op = m \/ changes protected op m (apply1 protected m op).
Proof.
  unfold apply1. destruct (applyOp _ _ _ _) as [[m'|]|e] eqn:E; [right|by left..]. by eapply applyOp_changes.
Qed.

Lemma pass_shrinks protected ops m p x : leaf (VObj (fold_left (apply1 protected) ops m)) p x -> leaf (VObj m) p x.
Proof.
  revert m. induction ops as [|op ops IH]; intros m; cbn; [done|]. intros H%IH.
  destruct (apply1_cases protected m op) as [E|Hc]; [by rewrite E in H|]. by eapply applyOp_shrinks.
Qed.

Lemma pass_loses protected ops m p x :
  leaf (VObj m) p x ->
  leaf (VObj (fold_left (apply1 protected) ops m)) p x
  \/ exists op, op ∈ ops /\ enabled protected op = true /\ covers op p.
Proof.
  revert m. induction ops as [|op ops IH]; intros m H; cbn; [by left|].
  assert (leaf (VObj (apply1 protected m op)) p x \/ (enabled protected op = true /\ covers op p)) as [H1|[]].
  { destruct (apply1_cases protected m op) as [E|Hc]; [rewrite E; by left|]. by eapply applyOp_loses. }
  - destruct (IH _ H1) as [|(op' & Hin & ?)]; [by left|right]. exists op'. split; [by right|done].
  - right. exists op. split; [left|done].
Qed.

Lemma pass_wf protected ops m : wf_fields m = true -> wf_fields (fold_left (apply1 protected) ops m) = true.
Proof.
  revert m. induction ops as [|op ops IH]; intros m H; cbn; [done|]. apply IH.
  destruct (apply1_cases protected m op) as [E|Hc]; [by rewrite E|]. by eapply applyOp_wf.
Qed.

(** The operation leaves the value at [p] alone. *)
Definition spares (protected : list string) (p : list string) (op : Op) : bool :=
  (op_Op op =? OpKeep) || (op_Op op =? OpKeepIfValue) || negb (enabled protected op) || diverge (op_root op) p.

Lemma pass_frame protected ops m p :
  forallb (spares protected p) ops = true -> at_path p (fold_left (apply1 protected) ops m) = at_path p m.
Proof.
  revert m. induction ops as [|op ops IH]; intros m; cbn; [done|]. intros [Hs H]%andb_true_iff. rewrite IH by done.
  destruct (apply1_cases protected m op) as [->|Hc]; [done|]. unfold spares in Hs.
  rewrite !orb_true_iff in Hs. destruct Hs as [[[Hk|Hk]|He]|Hd]; [| | |by eapply applyOp_frame].
  - apply String.eqb_eq in Hk. destruct Hc as [E|E|E|E|E]; by rewrite E in Hk.
  - apply String.eqb_eq in Hk. destruct Hc as [E|E|E|E|E]; by rewrite E in Hk.
  - unfold enabled in He. rewrite negb_involutive in He. apply andb_true_iff in He as [E He]. apply String.eqb_eq in E.
    destruct Hc as [E' Hp|E'|E'|E'|E']; rewrite E' in E; try done. congruence.
Qed.

Lemma Sanitize_eq rs obj :
  Sanitize Quote rs (Some obj) =
    if gvk_kind obj =? "" then Err (errorf "sanitize: object has no kind")
    else applyRules Quote (protectedBy obj (applicable rs obj)) (gvk_kind obj) (applicable rs obj) obj (mkSanitized [] []).
Proof. done. Qed.

Lemma Sanitize_pass rs obj out res :
  Sanitize Quote rs (Some obj) = Ok (out, res) ->
  out = fold_left (apply1 (protectedBy obj (applicable rs obj))) (opsOf (applicable rs obj)) obj
  /\ Matched res = map r_ID (applicable rs obj).
Proof. cbn. destruct (_ =? ""); [done|]. intros [-> Hm]%applyRules_spec. split; [done|exact Hm]. Qed.

(** C26. Whatever the ruleset: the rules that match are the ones whose kind and group fit;
    a sanitised object holds nothing its object did not; and it holds every scalar
    of it but those below the path of an operation of a matching rule, a removal
    counting only when neither its path nor anything below it is kept. *)
Theorem Sanitize_takes_only_what_is_named (rs : Ruleset) (obj out : fields) (res : SanitizeResult) :
  Sanitize Quote rs (Some obj) = Ok (out, res) ->
  let rules := applicable rs obj in
  Matched res = map r_ID rules
  /\ (forall p x, leaf (VObj out) p x -> leaf (VObj obj) p x)
  /\ (forall p x, leaf (VObj obj) p x ->
        leaf (VObj out) p x
        \/ exists r op, r ∈ rules /\ op ∈ r_Ops r /\ covers op p
             /\ (op_Op op = OpRemove -> isProtected (op_Path op) (protectedBy obj rules) = false)).
Proof.
  intros [-> Hm]%Sanitize_pass rules. split; [done|]. split; [intros p x; apply pass_shrinks|]. intros p x H.
  destruct (pass_loses (protectedBy obj rules) (opsOf rules) _ _ _ H) as [|(op & Hin & He & Hc)]; [by left|right].
  apply list_elem_of_In, in_concat in Hin as (ops & (r & <- & Hr)%in_map_iff & Hop). exists r, op.
  split_and!; [by apply list_elem_of_In..|done|]. intros E. unfold enabled in He. rewrite E in He. cbn in He. by apply negb_true_iff.
Qed.
End Pass.

(** ** Passes that settle *)

(** Taking away cannot make an absent path present. *)
Definition thinner (m' m : fields) : Prop := forall segs, at_path segs m = None -> at_path segs m' = None.

Lemma thinner_of m' m :
  (forall k, field k m = None -> field k m' = None) ->
  (forall k a', field k m' = Some (VObj a') -> exists a, field k m = Some (VObj a) /\ thinner a' a) ->
  thinner m' m.
Proof.
  intros H1 H2 segs. destruct segs as [|k segs]; [done|]. destruct segs as [|k1 segs]; [apply H1|].
  rewrite !at_path_cons by done. intros H. destruct (field k m') as [[| | | | | |a']|] eqn:E; try done.
  destruct (H2 _ _ E) as (a & Ha & Ht). rewrite Ha in H. by apply Ht.
Qed.

Lemma thinner_refl m : thinner m m.
Proof. by intros segs. Qed.

Lemma thinner_trans m1 m2 m3 : thinner m1 m2 -> thinner m2 m3 -> thinner m1 m3.
Proof. intros H1 H2 segs H. by apply H1, H2. Qed.

Lemma thinner_del k m : thinner (del k m) m.
Proof.
  apply thinner_of; intros k'; rewrite field_del; destruct (k =? k'); try done.
  intros a' H. exists a'. split; [done|apply thinner_refl].
Qed.

Lemma thinner_put k v m :
  field k m <> None -> (forall a', v = VObj a' -> exists a, field k m = Some (VObj a) /\ thinner a' a) -> thinner (put k v m) m.
Proof.
  intros Hk Hv. apply thinner_of; intros k'; rewrite field_put; destruct (String.eqb_spec k k') as [<-|]; try done.
  - intros a' [= ->]. by apply Hv.
  - intros a' H. exists a'. split; [done|apply thinner_refl].
Qed.

Lemma thinner_keepItems keep k items m : field k m = Some (VArr items) -> thinner (keepItems keep k items m) m.
Proof.
  intros Hk. unfold keepItems. destruct (_ =? 0)%nat; [apply thinner_del|]. apply thinner_put; [by rewrite Hk|done].
Qed.

Lemma thinner_atParent segs f m m' :
  (forall k a a', f k a = Some a' -> thinner a' a) -> atParent segs f m = Some m' -> thinner m' m.
Proof.
  intros Hf. revert m m'. induction segs as [|k segs IH]; intros m m' H; [done|]. destruct segs as [|k1 segs]; [by eapply Hf|].
  rewrite atParent_cons in H by done. destruct (field k m) as [[| | | | | |a]|] eqn:Ef; try done.
  destruct (atParent _ _ _) as [m1|] eqn:E1; [|done]. injection H as <-. apply thinner_put; [by rewrite Ef|].
  intros a' [= <-]. exists a. split; [done|by apply IH].
Qed.

Lemma thinner_changes protected op m m' : changes protected op m m' -> thinner m' m.
Proof.
  intros [_ _ H|_ H|_ H|_ H|_ H].
  - unfold removePath in H. revert H. generalize (slen (op_Path op)). intros n. destruct n; cbn; destruct (Cut _ _) as [[arr after]|]; try done;
      apply thinner_atParent; try (by intros k a a' ->%deleteKey_some; apply thinner_del).
    intros k a a' (items & Hk & ->)%inItems_some. apply thinner_put; [by rewrite Hk|done].
  - eapply thinner_atParent, H. intros k a a' ->%deleteKey_some. apply thinner_del.
  - apply removeFinalizer_some in H. eapply thinner_atParent, H. intros k a a' (items & Hk & ->)%filterItems_cases.
    by apply thinner_keepItems.
  - unfold pruneEmptyMap in H. eapply thinner_atParent, H. intros k a a' [_ ->]%pruned_some. apply thinner_del.
  - apply removeProjected_some in H as (spec & volumes & dropped & Hs & Hv & ->). apply thinner_put; [by rewrite Hs|].
    intros a' [= <-]. exists spec. split; [done|]. cbn [fold_left containerLists].
    assert (forall c s, thinner (dropMountsIn dropped s c) s) as Hd.
    { intros c s. unfold dropMountsIn. destruct (field c s) as [[]|] eqn:E; try apply thinner_refl. apply thinner_put; [by rewrite E|done]. }
    eapply thinner_trans; [apply Hd|]. eapply thinner_trans; [apply Hd|]. eapply thinner_trans; [apply Hd|]. by apply thinner_keepItems.
Qed.

Section Shape.
Context {A : Accessors} (Quote : string -> string).

Lemma pass_thinner protected ops m : thinner (fold_left (apply1 Quote protected) ops m) m.
Proof.
  revert m. induction ops as [|op ops IH]; intros m; cbn; [apply thinner_refl|]. eapply thinner_trans; [apply IH|].
  destruct (apply1_cases Quote protected m op) as [->|Hc]; [apply thinner_refl|]. by apply (thinner_changes _ _ _ _ Hc).
Qed.

(** An object whose keys are unique at every level stays one, and no path of keys
    leads further in it than it did. *)
Theorem Sanitize_well_formed (rs : Ruleset) (obj out : fields) (res : SanitizeResult) :
  Sanitize Quote rs (Some obj) = Ok (out, res) -> wf_fields obj = true -> wf_fields out = true /\ thinner out obj.
Proof. intros [-> _]%Sanitize_pass H. split; [by apply pass_wf|apply pass_thinner]. Qed.
End Shape.

Lemma at_path_atParent_none segs f m :
  (forall k a, field k a = None -> f k a = None) -> at_path segs m = None -> atParent segs f m = None.
Proof.
  intros Hf. revert m. induction segs as [|k segs IH]; intros m H; [done|]. destruct segs as [|k1 segs]; [by apply Hf|].
  rewrite at_path_cons in H by done. rewrite atParent_cons by done. destruct (field k m) as [[]|]; try done. by rewrite IH.
Qed.

Lemma prune_quiet dotted m : pruneEmptyMap dotted m = None <-> at_path (splitOn "." dotted) m <> Some (VObj []).
Proof.
  unfold pruneEmptyMap. assert (splitOn "." dotted <> []) as Hs by (destruct dotted as [|a s]; cbn; [done|]; destruct (Ascii.eqb a "."); [done|]; by destruct (splitOn "." s)).
  revert m. induction (splitOn "." dotted) as [|k segs IH]; intros m; [done|]. destruct segs as [|k1 segs].
  { cbn. destruct (field k m) as [[| | | | | |[]]|]; split; intros; try done; congruence. }
  rewrite at_path_cons, atParent_cons by done. destruct (field k m) as [[]|]; try (split; [|done]; congruence).
  rewrite <-IH by done. by destruct (atParent _ _ _).
Qed.

Lemma prune_settles dotted m m' : pruneEmptyMap dotted m = Some m' -> at_path (splitOn "." dotted) m' = None.
Proof.
  unfold pruneEmptyMap. revert m m'. induction (splitOn "." dotted) as [|k segs IH]; intros m m'; [done|]. destruct segs as [|k1 segs].
  { intros [_ ->]%pruned_some. apply field_del_eq. }
  rewrite atParent_cons by done. destruct (field k m) as [[]|]; try done. destruct (atParent _ _ _) eqn:E; [|done].
  intros [= <-]. rewrite at_path_cons by done. rewrite field_put_eq. by eapply IH.
Qed.

Lemma token_settles glob m m' : removeProjectedTokenVolumes glob m = Some m' -> removeProjectedTokenVolumes glob m' = None.
Proof.
  intros (spec & volumes & dropped & Hs & Hv & ->)%removeProjected_some. unfold removeProjectedTokenVolumes.
  rewrite field_put_eq. set (spec1 := keepItems _ _ _ _).
  assert (forall c s, c <> "volumes" -> field "volumes" (dropMountsIn dropped s c) = field "volumes" s) as Hc.
  { intros c s Hn. unfold dropMountsIn. destruct (field c s) as [[]|]; try done. by apply field_put_ne. }
  cbn [fold_left containerLists]. rewrite !Hc by done. unfold spec1. rewrite field_keepItems.
  destruct (_ =? 0)%nat; [done|]. set (kept := List.filter _ volumes).
  assert (omap (fun v => match v with VObj vm => if isTokenVolume glob v then Some (nameOf vm) else None | _ => None end) kept = []) as ->;
    [|done].
  assert (Forall (fun v => isTokenVolume glob v = false) kept) as Hk.
  { apply Forall_forall. intros v Hin. apply list_elem_of_In, filter_In in Hin as [_ Hin]. by apply negb_true_iff. }
  induction Hk as [|v l Hv' _ IH]; [done|]. cbn. destruct v; try exact IH. rewrite Hv'. exact IH.
Qed.

(** *** Operations that stay quiet *)

Section Settling.
Context (Quote : string -> string) (protected : list string).

Definition quiet (op : Op) (m : fields) : Prop := applyOp Quote protected op m = Ok None.

(** A plain removal: of a key that no array is on the way to. *)
Definition plain (op : Op) : bool :=
  (op_Op op =? OpRemove) && match Cut (op_Path op) "[]" with Some _ => false | None => true end
  || (op_Op op =? OpRemoveAnnotation).

Definition keeps_quiet (op later : Op) : bool :=
  plain op
  || (op_Op op =? OpKeep) || (op_Op op =? OpKeepIfValue)
  || ((op_Op op =? OpPruneEmptyMap) && spares protected (splitOn "." (op_Path op)) later).

#[local] Instance Op_eq_dec : EqDecision Op.
Proof. solve_decision. Defined.

(** After the last time it occurs every later operation leaves it quiet. *)
Fixpoint settles (op : Op) (ops : list Op) : bool :=
  match ops with
  | [] => false
  | o :: ops => if settles op ops then true else bool_decide (o = op) && forallb (keeps_quiet op) ops
  end.

Definition settling (op : Op) : bool :=
  plain op || (op_Op op =? OpKeep) || (op_Op op =? OpKeepIfValue) || (op_Op op =? OpPruneEmptyMap)
  || (op_Op op =? OpRemoveProjectedTokenVolumes).

Definition stable (ops : list Op) : bool := forallb (fun op => settling op && settles op ops) ops.

Definition plain_path (op : Op) : list string :=
  if op_Op op =? OpRemove then splitOn "." (op_Path op) else ["metadata"; "annotations"; op_Path op].

Lemma splitOn_not_nil c s : splitOn c s <> [].
Proof. destruct s as [|a s]; cbn; [done|]. destruct (Ascii.eqb a c); [done|]. by destruct (splitOn c s). Qed.

Lemma removePath_plain dotted m : Cut dotted "[]" = None -> removePath dotted m = atParent (splitOn "." dotted) deleteKey m.
Proof. intros H. unfold removePath. by destruct (slen dotted); cbn; rewrite H. Qed.

(** A plain removal is quiet when its path is absent or protected. *)
Lemma plain_quiet op m :
  plain op = true -> (quiet op m <-> enabled protected op = false \/ at_path (plain_path op) m = None).
Proof.
  unfold plain, quiet, applyOp, enabled, plain_path. destruct (String.eqb_spec (op_Op op) OpRemove) as [E|E];
    cbn -[at_path atParent splitOn removePath removeMapKey].
  - destruct (String.eqb_spec (op_Op op) OpRemoveAnnotation) as [E'|E']; [exfalso; rewrite E in E'; done|]. rewrite orb_false_r.
    destruct (Cut _ _) eqn:Ec; [done|]. intros _. destruct (isProtected _ _); cbn; [split; [by left|done]|].
    rewrite removePath_plain, <-atParent_deleted by (done || apply splitOn_not_nil).
    destruct (atParent _ _ _); split; intros H; try done; [by destruct H|by right].
  - intros ->. unfold removeMapKey. change (splitOn "." "metadata.annotations" ++ [op_Path op])%list with ["metadata"; "annotations"; op_Path op].
    rewrite <-(atParent_deleted ["metadata"; "annotations"; op_Path op]) by done.
    destruct (atParent _ _ _); split; intros H; try done; [by destruct H|by right].
Qed.

Lemma keep_quiet op m : op_Op op = OpKeep \/ op_Op op = OpKeepIfValue -> quiet op m.
Proof. unfold quiet, applyOp. by intros [-> | ->]. Qed.

Lemma prune_op_quiet op m : op_Op op = OpPruneEmptyMap -> (quiet op m <-> at_path (splitOn "." (op_Path op)) m <> Some (VObj [])).
Proof.
  intros E. unfold quiet, applyOp. rewrite E. cbn -[splitOn pruneEmptyMap]. rewrite <-prune_quiet.
  destruct (pruneEmptyMap _ _); split; intros H; congruence.
Qed.

Notation apply1 := (apply1 Quote protected).

Lemma quiet_after op m : settling op = true -> quiet op (apply1 m op).
Proof.
  intros Hs. destruct (apply1_cases Quote protected m op) as [E|Hc].
  - rewrite E. unfold apply1 in E. unfold quiet. destruct (applyOp Quote protected op m) as [[m'|]|e] eqn:Ea; [|done|].
    + subst m'. exfalso. apply applyOp_changes in Ea. unfold settling, plain in Hs.
      destruct Ea as [Eo Hp H|Eo H|Eo H|Eo H|Eo H]; rewrite Eo in Hs; cbn in Hs.
      * destruct (Cut _ _) eqn:Ec; [done|]. rewrite removePath_plain in H by done. pose proof (at_path_deleted _ _ _ H) as Hn.
        apply atParent_deleted in Hn; [congruence|apply splitOn_not_nil].
      * pose proof (at_path_deleted _ _ _ H) as Hn. apply atParent_deleted in Hn; [unfold removeMapKey in H; congruence|done].
      * done.
      * pose proof (prune_settles _ _ _ H) as Hn. assert (pruneEmptyMap (op_Path op) m = None); [|congruence].
        apply prune_quiet. by rewrite Hn.
      * pose proof (token_settles _ _ _ H). congruence.
    + exfalso. destruct (applyOp_known Quote protected op m) as [o Ho]; [|congruence]. unfold settling, plain in Hs. unfold known, mutatingOps, member. cbn.
      repeat (apply orb_true_iff in Hs as [Hs|Hs]); try (rewrite Hs; by rewrite ?orb_true_r).
      apply andb_true_iff in Hs as [Hs _]. by rewrite Hs.
  - set (m' := apply1 m op) in *. clearbody m'. unfold settling in Hs. rewrite !orb_true_iff in Hs.
    destruct Hs as [[[[Hp|Hk]|Hk]|Hk]|Hk].
    + apply plain_quiet; [done|]. right. unfold plain in Hp. unfold plain_path.
      destruct Hc as [Eo Hpr H|Eo H|Eo H|Eo H|Eo H]; rewrite Eo in Hp |- *; cbn -[splitOn] in Hp |- *; try done.
      * destruct (Cut _ _) eqn:Ec; [done|]. rewrite removePath_plain in H by done. by eapply at_path_deleted.
      * exact (at_path_deleted _ _ _ H).
    + apply keep_quiet. left. by apply String.eqb_eq.
    + apply keep_quiet. right. by apply String.eqb_eq.
    + apply String.eqb_eq in Hk. apply prune_op_quiet; [done|].
      destruct Hc as [Eo Hpr H|Eo H|Eo H|Eo H|Eo H]; rewrite Eo in Hk; try done. by rewrite (prune_settles _ _ _ H).
    + apply String.eqb_eq in Hk. unfold quiet, applyOp. rewrite Hk. cbn -[removeProjectedTokenVolumes].
      destruct Hc as [Eo Hpr H|Eo H|Eo H|Eo H|Eo H]; rewrite Eo in Hk; try done. by rewrite (token_settles _ _ _ H).
Qed.

Lemma quiet_kept op later m : keeps_quiet op later = true -> quiet op m -> quiet op (apply1 m later).
Proof.
  unfold keeps_quiet. rewrite !orb_true_iff. intros [[[Hp|Hk]|Hk]|Hk] Hq.
  - apply plain_quiet; [done|]. apply plain_quiet in Hq; [|done]. destruct Hq as [|Hq]; [by left|right].
    destruct (apply1_cases Quote protected m later) as [->|Hc]; [done|]. by apply (thinner_changes _ _ _ _ Hc).
  - apply keep_quiet. left. by apply String.eqb_eq.
  - apply keep_quiet. right. by apply String.eqb_eq.
  - apply andb_true_iff in Hk as [Hk Hs]. apply String.eqb_eq in Hk. apply prune_op_quiet; [done|]. apply prune_op_quiet in Hq; [|done].
    pose proof (pass_frame Quote protected [later] m (splitOn "." (op_Path op))) as Hf. cbn in Hf. rewrite Hs in Hf. by rewrite Hf.
Qed.

Lemma settles_quiet op ops m : settling op = true -> settles op ops = true -> quiet op (fold_left apply1 ops m).
Proof.
  intros Hs. revert m. induction ops as [|o ops IH]; intros m; cbn; [done|]. destruct (settles op ops); [intros _; by apply IH|].
  intros [Ho%bool_decide_eq_true Hk]%andb_true_iff. subst o.
  assert (quiet op (apply1 m op)) as Hq by by apply quiet_after. revert Hq. generalize (apply1 m op). clear IH m.
  induction ops as [|o ops IH]; intros m Hq; cbn in *; [done|]. apply andb_true_iff in Hk as [Ho Hk]. apply IH; [done|].
  by apply quiet_kept.
Qed.

Lemma stable_quiet ops m : stable ops = true -> Forall (fun op => quiet op (fold_left apply1 ops m)) ops.
Proof.
  unfold stable. rewrite forallb_forall, Forall_forall. intros H op Hin. apply list_elem_of_In in Hin.
  specialize (H _ Hin). apply andb_true_iff in H as [H1 H2]. by apply settles_quiet.
Qed.
End Settling.

(** ** The embedded rules *)

Section Embedded.
Context {A : Accessors} {Laws : AccessorLaws A} (Quote : string -> string).

Definition genericRules : list Rule := take 8 (rs_Rules embedded).
Definition kindRules : list Rule := drop 8 (rs_Rules embedded).

Definition RuleMatch_specific (r : Rule) : bool :=
  negb (m_Kind (r_Match r) =? "*") && match m_Group (r_Match r) with Some _ => true | None => false end.

Lemma specific_match r g k :
  RuleMatch_specific r = true -> rule_matches r g k = true -> r_Match r = mkMatch (Some g) k.
Proof.
  unfold RuleMatch_specific, rule_matches. destruct r as [i d [mg mk] ops]. cbn. intros [Hs Hg]%andb_true_iff.
  destruct mg as [g'|]; [|done]. destruct (String.eqb_spec mk k) as [->|]; cbn.
  - rewrite andb_false_r. by intros ->%String.eqb_eq.
  - rewrite Hs. done.
Qed.

(** Rules of different kinds: at most one of them applies. *)
Lemma one_specific l g k :
  forallb RuleMatch_specific l = true -> NoDup (map r_Match l) ->
  List.filter (fun r => rule_matches r g k) l = [] \/ exists r, r ∈ l /\ List.filter (fun r => rule_matches r g k) l = [r].
Proof.
  induction l as [|r l IH]; cbn; [by left|]. intros [Hr Hl]%andb_true_iff [Hn Hd]%NoDup_cons.
  destruct (rule_matches r g k) eqn:E.
  - right. exists r. split; [left|]. destruct (IH Hl Hd) as [->|(r' & Hin & _)]; [done|].
    assert (forall r', In r' l -> rule_matches r' g k = false) as Hnone.
    { intros r1 H1. destruct (rule_matches r1 g k) eqn:E1; [|done]. exfalso. apply Hn, list_elem_of_fmap. exists r1.
      rewrite forallb_forall in Hl. split; [|by apply list_elem_of_In].
      by rewrite (specific_match r g k), (specific_match r1 g k) by auto. }
    clear - Hnone. f_equal. induction l as [|r1 l IH]; cbn; [done|]. rewrite Hnone by by left. apply IH. intros. apply Hnone. by right.
  - destruct (IH Hl Hd) as [->|(r' & Hin & ->)]; [by left|right]. exists r'. split; [by right|done].
Qed.

#[local] Instance RuleMatch_eq_dec : EqDecision RuleMatch.
Proof. solve_decision. Defined.

(** At most one rule of a kind applies beside the generic ones. *)
Lemma embedded_applicable m :
  exists own, applicable embedded m = (genericRules ++ own)%list
    /\ (own = [] \/ exists r, r ∈ kindRules /\ own = [r]).
Proof.
  unfold applicable. generalize (gvk_group m) (gvk_kind m). intros g k.
  replace (rs_Rules embedded) with (genericRules ++ kindRules)%list by by vm_compute.
  rewrite List.filter_app. exists (List.filter (fun r => rule_matches r g k) kindRules). split.
  - f_equal.
  - apply one_specific; [by vm_compute|]. apply (bool_decide_unpack (NoDup (map r_Match kindRules))). by vm_compute.
Qed.

(** The rules of a kind, one after the other. *)
Lemma kindRules_ind (P : Rule -> Prop) :
  (forall i, i < 6 -> P (nth i kindRules (mkRule "" "" (mkMatch None "") []))) -> forall r, r ∈ kindRules -> P r.
Proof.
  intros H r [i Hi]%list_elem_of_lookup. assert (i < 6) as Hlt.
  { apply lookup_lt_Some in Hi. replace (List.length kindRules) with 6 in Hi by by vm_compute. done. }
  specialize (H i Hlt). by rewrite (nth_lookup_Some _ _ _ _ Hi) in H.
Qed.

(** What the server owns, whatever the kind. *)
Definition serverOwned : list (list string) :=
  map (fun k => ["metadata"; k])
    ["uid"; "resourceVersion"; "creationTimestamp"; "generation"; "selfLink"; "managedFields"; "ownerReferences"; "namespace"; "finalizers"]
  ++ [["status"]; ["metadata"; "annotations"; "kubectl.kubernetes.io/last-applied-configuration"]].

Definition identity : list (list string) := [["apiVersion"]; ["kind"]; ["metadata"; "name"]].

#[local] Instance Op_eq_dec' : EqDecision Op.
Proof. solve_decision. Defined.

Definition removes (protected : list string) (p : list string) (op : Op) : bool :=
  plain op && enabled protected op && bool_decide (plain_path op = p).

(** What is computed of the rules that apply to an object. *)
Definition sound (protected : list string) (ops : list Op) : bool :=
  stable protected ops && forallb known ops
  && forallb (fun p => existsb (removes protected p) ops) serverOwned
  && forallb (fun p => forallb (spares protected p) ops) identity.

(** The rule of the Service, and what it protects. *)
Definition serviceRule : Rule := nth 0 kindRules (mkRule "" "" (mkMatch None "") []).

Lemma service_protected m :
  protectedBy m (genericRules ++ [serviceRule]) =
    ((if valueMatches m "spec.clusterIP" "None" then ["spec.clusterIP"] else [])
     ++ (if valueMatches m "spec.clusterIPs" "None" then ["spec.clusterIPs"] else [])
     ++ ["spec.healthCheckNodePort"; "spec.ports[].nodePort"])%list.
Proof.
  unfold protectedBy, protects. generalize (valueMatches m). intros vm.
  replace (List.concat (map r_Ops (genericRules ++ [serviceRule]))) with
    (map (fun p => mkOp OpRemove p "") ["metadata.uid"; "metadata.resourceVersion"; "metadata.creationTimestamp"; "metadata.generation";
       "metadata.selfLink"; "metadata.managedFields"; "status"]
     ++ [mkOp OpRemoveAnnotation "kubectl.kubernetes.io/last-applied-configuration" "";
         mkOp OpRemove "metadata.ownerReferences" ""; mkOp OpRemove "metadata.namespace" ""; mkOp OpRemove "metadata.finalizers" "";
         mkOp OpPruneEmptyMap "metadata.annotations" ""; mkOp OpPruneEmptyMap "metadata.labels" "";
         mkOp OpKeepIfValue "spec.clusterIP" "None"; mkOp OpKeepIfValue "spec.clusterIPs" "None";
         mkOp OpRemove "spec.clusterIP" ""; mkOp OpRemove "spec.clusterIPs" ""; mkOp OpRemove "spec.ipFamilies" "";
         mkOp OpKeep "spec.healthCheckNodePort" ""; mkOp OpKeep "spec.ports[].nodePort" ""])%list by by vm_compute.
  cbn. by destruct (vm "spec.clusterIP" "None"), (vm "spec.clusterIPs" "None").
Qed.

Lemma embedded_sound m : sound (protectedBy m (applicable embedded m)) (opsOf (applicable embedded m)) = true.
Proof.
  destruct (embedded_applicable m) as (own & -> & [-> | (r & Hr & ->)]); [by vm_compute|].
  revert r Hr. apply (kindRules_ind (fun r => sound (protectedBy m (genericRules ++ [r])) (opsOf (genericRules ++ [r])) = true)).
  intros i Hi. destruct i as [|i]; [|do 5 (destruct i as [|i]; [by vm_compute|]); lia].
  fold serviceRule. rewrite service_protected.
  destruct (valueMatches m "spec.clusterIP" "None"), (valueMatches m "spec.clusterIPs" "None"); by vm_compute.
Qed.

Notation pass m := (fold_left (apply1 Quote (protectedBy m (applicable embedded m))) (opsOf (applicable embedded m)) m).

Lemma pass_identity m p : p ∈ identity -> at_path p (pass m) = at_path p m.
Proof.
  intros Hp. pose proof (embedded_sound m) as H. unfold sound in H. rewrite !andb_true_iff in H. destruct H as [_ H].
  rewrite forallb_forall in H. apply list_elem_of_In in Hp. apply pass_frame. by apply H.
Qed.

Lemma pass_gvk m : GroupVersionKind (pass m) = GroupVersionKind m.
Proof. apply gvk_fields; [apply (pass_identity m ["apiVersion"]); left|apply (pass_identity m ["kind"]); right; left]. Qed.

Lemma pass_removes m p : p ∈ serverOwned -> at_path p (pass m) = None.
Proof.
  intros Hp. pose proof (embedded_sound m) as H. unfold sound in H. rewrite !andb_true_iff in H. destruct H as [[[Hs _] H] _].
  rewrite forallb_forall in H. apply list_elem_of_In in Hp. specialize (H _ Hp). apply existsb_exists in H as (op & Hin & Ho).
  unfold removes in Ho. rewrite !andb_true_iff in Ho. destruct Ho as [[Hpl He] <-%bool_decide_eq_true].
  pose proof (stable_quiet Quote _ _ m Hs) as Hq. rewrite Forall_forall in Hq. apply list_elem_of_In in Hin. specialize (Hq _ Hin).
  apply plain_quiet in Hq; [|done]. destruct Hq as [|Hq]; [congruence|exact Hq].
Qed.

Lemma pass_applicable m : applicable embedded (pass m) = applicable embedded m.
Proof. unfold applicable, gvk_group, gvk_kind. by rewrite pass_gvk. Qed.

(** A value a [keepIfValue] protects is left alone, and one it does not is removed. *)
Definition decides (m : fields) (protected : list string) (ops : list Op) : bool :=
  forallb (fun p => if valueMatches m p "None" then forallb (spares protected (splitOn "." p)) ops
                    else existsb (removes protected (splitOn "." p)) ops) ["spec.clusterIP"; "spec.clusterIPs"].

Lemma service_decides m : decides m (protectedBy m (genericRules ++ [serviceRule])) (opsOf (genericRules ++ [serviceRule])) = true.
Proof.
  rewrite service_protected. unfold decides. cbn [forallb].
  destruct (valueMatches m "spec.clusterIP" "None"), (valueMatches m "spec.clusterIPs" "None"); by vm_compute.
Qed.

Lemma kept_or_gone m p :
  applicable embedded m = (genericRules ++ [serviceRule])%list -> p ∈ ["spec.clusterIP"; "spec.clusterIPs"] ->
  (valueMatches m p "None" = true -> at_path (splitOn "." p) (pass m) = at_path (splitOn "." p) m)
  /\ valueMatches (pass m) p "None" = valueMatches m p "None".
Proof.
  intros Hr Hp. pose proof (service_decides m) as Hd. rewrite <-Hr in Hd. unfold decides in Hd. rewrite forallb_forall in Hd.
  apply list_elem_of_In in Hp. specialize (Hd _ Hp). destruct (valueMatches m p "None") eqn:E.
  - pose proof (pass_frame Quote _ _ m _ Hd) as Hf. split; [done|]. unfold valueMatches. rewrite Hf. exact E.
  - split; [done|]. apply existsb_exists in Hd as (op & Hin & Ho). unfold removes in Ho. rewrite !andb_true_iff in Ho.
    destruct Ho as [[Hpl He] Hpp%bool_decide_eq_true]. pose proof (embedded_sound m) as H. unfold sound in H. rewrite !andb_true_iff in H.
    destruct H as [[[Hs _] _] _]. pose proof (stable_quiet Quote _ _ m Hs) as Hq. rewrite Forall_forall in Hq.
    apply list_elem_of_In in Hin. specialize (Hq _ Hin). apply plain_quiet in Hq; [|done]. rewrite Hpp in Hq.
    destruct Hq as [|Hq]; [congruence|]. unfold valueMatches. by rewrite Hq.
Qed.

Lemma pass_protected m : protectedBy (pass m) (applicable embedded m) = protectedBy m (applicable embedded m).
Proof.
  pose proof (kept_or_gone m) as Hk. revert Hk. generalize (pass m). intros out Hk.
  destruct (embedded_applicable m) as (own & Hr & Hown). rewrite Hr in Hk |- *. destruct Hown as [-> | (r & Hin & ->)]; [by vm_compute|].
  clear Hr. revert r Hin Hk. apply (kindRules_ind (fun r => _ -> _)).
  intros i Hi. destruct i as [|i]; [|do 5 (destruct i as [|i]; [by vm_compute|]); lia].
  fold serviceRule. intros Hk. rewrite !service_protected.
  destruct (Hk "spec.clusterIP" eq_refl ltac:(left)) as [_ ->]. destruct (Hk "spec.clusterIPs" eq_refl ltac:(right; left)) as [_ ->]. done.
Qed.

(** With the embedded rules no object is beyond sanitising.  Nothing of what the
    server owns is left, no finalizer and no owner reference among it; the object
    keeps its group, version, kind and name; and a Service declared headless stays
    headless. *)
Theorem Sanitize_embedded_clean (obj : fields) :
  gvk_kind obj <> "" ->
  exists out res, Sanitize Quote embedded (Some obj) = Ok (out, res)
    /\ (forall p, p ∈ serverOwned -> at_path p out = None)
    /\ GroupVersionKind out = GroupVersionKind obj /\ GetName out = GetName obj
    /\ (gvk_group obj = "" -> gvk_kind obj = "Service" -> at_path ["spec"; "clusterIP"] obj = Some (VStr "None") ->
        at_path ["spec"; "clusterIP"] out = Some (VStr "None")).
Proof.
  intros Hk. rewrite Sanitize_eq. apply String.eqb_neq in Hk as Hk'. rewrite Hk'.
  pose proof (embedded_sound obj) as Hs. unfold sound in Hs. rewrite !andb_true_iff in Hs. destruct Hs as [[[_ Hkn] _] _].
  destruct (applyRules_known Quote (protectedBy obj (applicable embedded obj)) (gvk_kind obj) (applicable embedded obj) obj
    (mkSanitized [] []) Hkn) as (out & res & H). exists out, res. split; [exact H|]. apply applyRules_spec in H as [-> _].
  split_and!; [apply pass_removes|apply pass_gvk| |].
  - apply name_field. apply (pass_identity obj). right. right. left.
  - intros Hg Hki Hn. destruct (kept_or_gone obj "spec.clusterIP") as [Hkeep _]; [|left|].
    + unfold applicable. rewrite Hg, Hki. by vm_compute.
    + assert (valueMatches obj "spec.clusterIP" "None" = true) as Hv.
      { unfold valueMatches. change (splitOn "." "spec.clusterIP") with ["spec"; "clusterIP"]. by rewrite Hn. }
      rewrite <-Hn. exact (Hkeep Hv).
Qed.

(** Nothing is left to take from the object. *)
Definition settled (ids : list string) (m : fields) : Prop := Sanitize Quote embedded (Some m) = Ok (m, mkSanitized ids []).

(** A sanitised object is a fixed point: sanitising it again matches the same rules
    and changes nothing, so that an object captured twice is stored once. *)
Theorem Sanitize_idempotent (obj out : fields) (res : SanitizeResult) :
  Sanitize Quote embedded (Some obj) = Ok (out, res) ->
  settled (Matched res) out.
Proof.
  intros H. unfold settled. pose proof (Sanitize_pass _ _ _ _ _ H) as [Ho Hm]. rewrite !Sanitize_eq in *.
  assert (gvk_kind out = gvk_kind obj) as Hk by (rewrite Ho; unfold gvk_kind; by rewrite pass_gvk). rewrite Hk.
  destruct (gvk_kind obj =? ""); [discriminate H|]. rewrite Hm. clear H Hm Hk. subst out.
  rewrite pass_applicable, pass_protected. pose proof (embedded_sound obj) as Hs. unfold sound in Hs. rewrite !andb_true_iff in Hs.
  destruct Hs as [[[Hs _] _] _]. by rewrite applyRules_quiet by (by apply stable_quiet).
Qed.
End Embedded.

(** ** The validation *)

Section Validation.
Context (Quote : string -> string).

Definition blank (s : string) : Prop := TrimSpace s = "".

(** What a single rule must have. *)
Definition rule_ok (r : Rule) : Prop :=
  ~ blank (r_ID r) /\ ~ blank (r_Description r) /\ m_Kind (r_Match r) <> "" /\ r_Ops r <> []
  /\ Forall (fun op => known op = true /\ ~ blank (op_Path op) /\ (op_Op op = OpKeepIfValue -> op_Value op <> "")) (r_Ops r).

Lemma eqb_blank s : (TrimSpace s =? "") = false <-> ~ blank s.
Proof. apply String.eqb_neq. Qed.

Lemma opError_none r op :
  opError Quote r op = None <-> known op = true /\ ~ blank (op_Path op) /\ (op_Op op = OpKeepIfValue -> op_Value op <> "").
Proof.
  unfold opError, known. destruct (member mutatingOps (op_Op op)), (op_Op op =? OpKeep), (String.eqb_spec (op_Op op) OpKeepIfValue) as [Ek|Ek];
    cbn; try (split; [done|intros (? & _); done]);
    (destruct (TrimSpace (op_Path op) =? "") eqn:Eb;
      [split; [done|]; intros (_ & Hb & _); apply String.eqb_eq in Eb; by destruct Hb|]; apply eqb_blank in Eb);
    try (split; [intros _; by split_and!|done]);
    (destruct (String.eqb_spec (op_Value op) "");
      [split; [done|]; intros (_ & _ & Hv); by destruct (Hv Ek)|split; [intros _; by split_and!|done]]).
Qed.

Lemma firstError_none l : firstError l = None <-> Forall (fun e => e = None) l.
Proof.
  induction l as [|[e|] l IH]; cbn; [split; [constructor|done]|split; [done|by intros [? _]%Forall_cons]|].
  rewrite IH, Forall_cons. split; [by split|by intros [_ ?]].
Qed.

Definition generic_first (prev : option Rule) (rules : list Rule) : Prop :=
  exists g k, rules = (g ++ k)%list /\ Forall (fun r => Generic r = true) g /\ Forall (fun r => Generic r = false) k
    /\ (match prev with Some p => Generic p = false -> g = [] | None => True end).

Lemma generic_first_cons prev r rules :
  generic_first prev (r :: rules) <->
  Generic r && (match prev with Some p => negb (Generic p) | None => false end) = false /\ generic_first (Some r) rules.
Proof.
  split.
  - intros (g & k & E & Hg & Hk & Hp). destruct g as [|r' g]; cbn in E.
    + subst k. apply Forall_cons in Hk as [Hr Hk]. rewrite Hr. split; [done|]. exists [], rules. by split_and!.
    + injection E as <- ->. apply Forall_cons in Hg as [Hr Hg]. rewrite Hr. cbn. split.
      * destruct prev as [p|]; [|done]. destruct (Generic p); [done|]. by specialize (Hp eq_refl).
      * exists g, k. split_and!; try done. congruence.
  - intros (Hr & g & k & -> & Hg & Hk & Hp). destruct (Generic r) eqn:E.
    + exists (r :: g), k. split_and!; [done|by constructor|done|]. destruct prev as [p|]; [|done]. cbn in Hr. intros Hn. by rewrite Hn in Hr.
    + rewrite (Hp eq_refl). exists [], (r :: k). split_and!; [done|constructor|by constructor|by destruct prev].
Qed.

Lemma validateRules_none i seen prev rules :
  validateRules Quote i seen prev rules = None <->
  NoDup (map r_ID rules) /\ Forall (fun r => r_ID r ∉ seen) rules /\ Forall rule_ok rules /\ generic_first prev rules.
Proof.
  revert i seen prev. induction rules as [|r rules IH]; intros i seen prev.
  { cbn. split; [|done]. intros _. split_and!; try constructor. exists [], []. split_and!; try constructor. by destruct prev. }
  cbn [validateRules map]. rewrite generic_first_cons, NoDup_cons, !Forall_cons.
  assert (member seen (r_ID r) = false <-> r_ID r ∉ seen) as Hm.
  { unfold member. rewrite <-not_true_iff_false, existsb_exists. split.
    - intros H Hin. apply H. exists (r_ID r). split; [by apply list_elem_of_In|apply String.eqb_refl].
    - intros H (x & Hx & Ex). apply String.eqb_eq in Ex. subst x. by apply H, list_elem_of_In. }
  assert (forall m, Forall (fun r' => r_ID r' ∉ r_ID r :: seen) m <-> r_ID r ∉ map r_ID m /\ Forall (fun r' => r_ID r' ∉ seen) m) as Hs.
  { intros m. induction m as [|x m IHm]; cbn; [split; [split; [apply not_elem_of_nil|constructor]|constructor]|].
    rewrite !Forall_cons, IHm, !not_elem_of_cons. naive_solver. }
  unfold rule_ok at 1.
  destruct (TrimSpace (r_ID r) =? "") eqn:E1; [apply String.eqb_eq in E1; split; [done|naive_solver]|apply eqb_blank in E1].
  destruct (member seen (r_ID r)) eqn:E2; [split; [done|]; intros (_ & (? & _) & _); exfalso; assert (true = false) by (apply Hm; done); done|].
  destruct (TrimSpace (r_Description r) =? "") eqn:E3; [apply String.eqb_eq in E3; split; [done|naive_solver]|apply eqb_blank in E3].
  destruct (String.eqb_spec (m_Kind (r_Match r)) "") as [E4|E4]; [split; [done|naive_solver]|].
  destruct (List.length (r_Ops r) =? 0)%nat eqn:E5; [apply Nat.eqb_eq, length_zero_iff_nil in E5; split; [done|naive_solver]|].
  assert (r_Ops r <> []) as E5' by (intros Hn; rewrite Hn in E5; done).
  destruct (Generic r && _) eqn:E6; [split; [done|naive_solver]|].
  destruct (firstError _) as [e|] eqn:E7.
  - split; [done|]. intros (_ & _ & ((_ & _ & _ & _ & Ho) & _) & _). exfalso.
    assert (firstError (map (opError Quote r) (r_Ops r)) = None); [|congruence]. apply firstError_none, Forall_map.
    eapply Forall_impl; [exact Ho|]. intros op H. by apply opError_none.
  - apply firstError_none, Forall_map in E7. rewrite IH, Hs.
    assert (Forall (fun op => known op = true /\ ~ blank (op_Path op) /\ (op_Op op = OpKeepIfValue -> op_Value op <> "")) (r_Ops r)) as Ho.
    { eapply Forall_impl; [exact E7|]. intros op H. by apply opError_none in H. }
    pose proof (proj1 Hm eq_refl). naive_solver.
Qed.

(** A ruleset is accepted exactly when it has a version and rules, every rule has an
    id of its own, a description, a kind and operations that are known, with a path
    and, where they compare, a value; and the generic rules come first. *)
Theorem validate_spec (rs : Ruleset) :
  validate Quote rs = None <->
  ~ blank (rs_Version rs) /\ rs_Rules rs <> [] /\ NoDup (map r_ID (rs_Rules rs)) /\ Forall rule_ok (rs_Rules rs)
  /\ exists g k, rs_Rules rs = (g ++ k)%list /\ Forall (fun r => Generic r = true) g /\ Forall (fun r => Generic r = false) k.
Proof.
  unfold validate. destruct (TrimSpace (rs_Version rs) =? "") eqn:E1; [apply String.eqb_eq in E1; split; [done|]; intros [H _]; by destruct H|].
  apply eqb_blank in E1. destruct (List.length (rs_Rules rs) =? 0)%nat eqn:E2.
  { apply Nat.eqb_eq, length_zero_iff_nil in E2. split; [done|]. by intros (_ & ? & _). }
  assert (rs_Rules rs <> []) by (intros Hn; by rewrite Hn in E2). rewrite validateRules_none. unfold generic_first. split.
  - intros (H1 & _ & H2 & g & k & H3 & H4 & H5 & _). split_and!; try done. by exists g, k.
  - intros (_ & _ & H1 & H2 & g & k & H3 & H4 & H5). split_and!; try done; [apply Forall_forall; intros; apply not_elem_of_nil|].
    exists g, k. by split_and!.
Qed.

(** The rules the build embeds are accepted. *)
Lemma embedded_valid : LoadRuleset Quote (Ok embedded) = Ok embedded.
Proof. by vm_compute. Qed.
End Validation.

(** ** What is left out of a capture *)

Section Exclusion.
Context {A : Accessors} (withSelector : string -> bool).

Definition is_kind (g k : string) (m : fields) : Prop := gvk_group m = g /\ gvk_kind m = k.
Definition owned_by (kind : string) (m : fields) : Prop :=
  exists ref, ref ∈ GetOwnerReferences m /\ or_Controller ref = Some true /\ (kind = "" \/ or_Kind ref = kind).

(** The exclusions: what some controller makes again, what belongs to one cluster or
    one run, and what is gone by the time it could be restored. *)
Inductive excluded_by (m : fields) : string -> Prop :=
| E1 : is_kind "" "Pod" m -> owned_by "" m -> excluded_by m ExcludeControllerOwnedPod
| E2 : is_kind "apps" "ReplicaSet" m -> owned_by "Deployment" m -> excluded_by m ExcludeDeploymentOwnedReplicaSet
| E3 : is_kind "batch" "Job" m -> owned_by "CronJob" m -> excluded_by m ExcludeCronJobOwnedJob
| E4_slice : is_kind "discovery.k8s.io" "EndpointSlice" m ->
    label m "endpointslice.kubernetes.io/managed-by" = "endpointslice-controller.k8s.io" -> excluded_by m ExcludeManagedEndpoints
| E4 : is_kind "" "Endpoints" m -> withSelector (GetName m) = true -> excluded_by m ExcludeManagedEndpoints
| E5 g : g = "" \/ g = "events.k8s.io" -> is_kind g "Event" m -> excluded_by m ExcludeEvent
| E6 : is_kind "coordination.k8s.io" "Lease" m -> excluded_by m ExcludeLease
| E7 : is_kind "" "Secret" m -> NestedString ["type"] m = Ok (Some "kubernetes.io/service-account-token") ->
    excluded_by m ExcludeServiceAccountToken
| E8_label : label m "acme.cert-manager.io/http01-solver" = "true" -> excluded_by m ExcludeCertManagerTransient
| E8_acme k : k = "Order" \/ k = "Challenge" -> is_kind "acme.cert-manager.io" k m -> excluded_by m ExcludeCertManagerTransient
| E8_request : is_kind "cert-manager.io" "CertificateRequest" m -> excluded_by m ExcludeCertManagerTransient
| E9 : is_kind "snapshot.storage.k8s.io" "VolumeSnapshot" m -> excluded_by m ExcludeVolumeSnapshot
| E10 k : k = "Backup" \/ k = "Restore" -> is_kind "crystalbackup.io" k m -> excluded_by m ExcludeOwnRunRecord
| E11 : is_kind "" "ConfigMap" m -> GetName m = "kube-root-ca.crt" -> excluded_by m ExcludeRootCAConfigMap.

Lemma hasControllerOwner_spec m kind : hasControllerOwner m kind = true <-> owned_by kind m.
Proof.
  unfold hasControllerOwner, owned_by. rewrite existsb_exists. split.
  - intros (ref & Hin & H). exists ref. rewrite list_elem_of_In. destruct (or_Controller ref) as [[]|]; try done.
    apply orb_true_iff in H as [H%String.eqb_eq|H%String.eqb_eq]; split_and!; auto.
  - intros (ref & Hin & Hc & H). exists ref. rewrite <-list_elem_of_In, Hc. split; [done|]. apply orb_true_iff.
    destruct H as [->|H]; [by left|right; by apply String.eqb_eq].
Qed.

(** An object is left out under a rule only for the rule's own reason, and one with
    a reason is left out: nothing else is. *)
Theorem ShouldExclude_spec (m : fields) :
  (forall rule, ShouldExclude withSelector (Some m) = Some rule -> excluded_by m rule)
  /\ (ShouldExclude withSelector (Some m) = None <-> forall rule, ~ excluded_by m rule).
Proof.
  assert (forall rule, ShouldExclude withSelector (Some m) = Some rule -> excluded_by m rule) as Hs.
  { intros rule. unfold ShouldExclude, excludeCertManagerTransient, excludeEphemeralKind, excludeRecreatedByAController.
    repeat match goal with
      | |- context [if ?b then _ else _] => destruct b eqn:?
      | |- context [match NestedString ?s ?o with _ => _ end] => destruct (NestedString s o) as [[]|] eqn:?
      end; intros [= <-];
    repeat match goal with
      | H : _ && _ = true |- _ => apply andb_true_iff in H as [? ?]
      | H : _ || _ = true |- _ => apply orb_true_iff in H as [H|H]
      | H : (_ =? _) = true |- _ => apply String.eqb_eq in H
      | H : hasControllerOwner _ _ = true |- _ => apply hasControllerOwner_spec in H
      end; subst;
    first
      [ by apply E1 | by apply E2 | by apply E3 | by apply E4_slice | by apply E4 | by (eapply E5; [|split; eassumption]; auto)
      | by apply E6 | by apply E7 | by apply E8_label | by (eapply E8_acme; [|split; eassumption]; auto) | by apply E8_request | by apply E9
      | by (eapply E10; [|split; eassumption]; auto) | by apply E11 ]. }
  split; [exact Hs|]. split.
  - intros Hn rule He. revert Hn. unfold ShouldExclude, excludeCertManagerTransient.
    destruct (String.eqb_spec (label m "acme.cert-manager.io/http01-solver") "true"); [done|].
    destruct He as [[Hg Hk] Ho|[Hg Hk] Ho|[Hg Hk] Ho|[Hg Hk] Hl|[Hg Hk] Hw|g Hor [Hg Hk]|[Hg Hk]|[Hg Hk] Ht|?|k Hor [Hg Hk]|[Hg Hk]|[Hg Hk]|k Hor [Hg Hk]|[Hg Hk] Hn];
      try done; rewrite Hg, Hk;
      try (apply hasControllerOwner_spec in Ho; cbn; by rewrite Ho);
      try (destruct Hor as [-> | ->]; by vm_compute); cbn.
    + by rewrite Hl.
    + by rewrite Hw.
    + done.
    + by rewrite Ht.
    + done.
    + done.
    + by rewrite Hn.
  - intros Hn. destruct (ShouldExclude withSelector (Some m)) as [rule|] eqn:E; [|done]. by destruct (Hn rule (Hs _ eq_refl)).
Qed.
End Exclusion.

(** ** Witnesses *)

Definition wit_service : fields :=
  [("apiVersion", VStr "v1"); ("kind", VStr "Service");
   ("metadata", VObj [("name", VStr "db"); ("uid", VStr "1234"); ("finalizers", VArr [VStr "x/y"]);
                      ("annotations", VObj [("kubectl.kubernetes.io/last-applied-configuration", VStr "{}")])]);
   ("spec", VObj [("clusterIP", VStr "None"); ("clusterIPs", VArr [VStr "None"]); ("ipFamilies", VArr [VStr "IPv4"]);
                  ("ports", VArr [VObj [("port", VInt 80); ("nodePort", VInt 30080)]])]);
   ("status", VObj [("loadBalancer", VObj [])])].

Definition wit_stored : fields :=
  [("apiVersion", VStr "v1"); ("kind", VStr "Service"); ("metadata", VObj [("name", VStr "db")]);
   ("spec", VObj [("clusterIP", VStr "None"); ("clusterIPs", VArr [VStr "None"]);
                  ("ports", VArr [VObj [("port", VInt 80); ("nodePort", VInt 30080)]])])].

Definition wit_text (s : string) : string := s.

Lemma wit_sanitized :
  Sanitize wit_text embedded (Some wit_service)
  = Ok (wit_stored, mkSanitized ["S1"; "S2"; "S3"; "S4"; "S5"; "S6"; "S8"; "S7"; "S10"] ["S1"; "S3"; "S4"; "S8"; "S7"; "S10"]).
Proof. by vm_compute. Qed.

(** The port of the Service is kept: no rule that applies names it. *)
Lemma Sanitize_takes_only_what_is_named_witness :
  map r_ID (applicable embedded wit_service) = ["S1"; "S2"; "S3"; "S4"; "S5"; "S6"; "S8"; "S7"; "S10"]
  /\ (leaf (VObj wit_stored) [Key "metadata"; Key "name"] (VStr "db") -> leaf (VObj wit_service) [Key "metadata"; Key "name"] (VStr "db")).
Proof.
  destruct (Sanitize_takes_only_what_is_named wit_text embedded wit_service _ _ wit_sanitized) as (Hm & Hs & _).
  split; [rewrite <-Hm; reflexivity|apply Hs].
Defined.

Lemma Sanitize_well_formed_witness : wf_fields wit_stored = true /\ thinner wit_stored wit_service.
Proof. apply (Sanitize_well_formed wit_text embedded wit_service _ _ wit_sanitized). vm_compute. reflexivity. Defined.

Lemma Sanitize_embedded_clean_witness :
  exists out res, Sanitize wit_text embedded (Some wit_service) = Ok (out, res)
    /\ at_path ["metadata"; "finalizers"] out = None /\ at_path ["spec"; "clusterIP"] out = Some (VStr "None").
Proof.
  destruct (Sanitize_embedded_clean wit_text wit_service) as (out & res & H & Hs & _ & _ & Hn); [discriminate|].
  exists out, res. split; [exact H|]. split; [|apply Hn; reflexivity]. apply Hs. do 8 right. left.
Defined.

Lemma Sanitize_idempotent_witness :
  Sanitize wit_text embedded (Some wit_stored) = Ok (wit_stored, mkSanitized ["S1"; "S2"; "S3"; "S4"; "S5"; "S6"; "S8"; "S7"; "S10"] []).
Proof. exact (Sanitize_idempotent wit_text wit_service _ _ wit_sanitized). Defined.
