(* ===== verification/ManifestApply.v ===== *)
(** * ManifestApply: applying a captured namespace, and what a re-apply changed
    (internal/manifests: index.go, diff.go, apply.go)

    The applier runs in the mover: it reads the index and the manifests of a capture,
    plans them in phases and applies them one by one, accounting for each in a
    report.  The dynamic client, the clock and the files are an interface; the sort
    of the plan is any that sorts, since Go leaves the order of equal elements open;
    the wait for a deletion has a fuel, and [deleteAndWait_returns] says how much. *)

From Stdlib Require Import Ascii String Sorted.
From stdpp Require Import sorting.
From S2P Require Import Prelude GoText Cluster MoverResult Restic Unstructured ManifestSelection.
From S2P Require Import Program.

#[local] Open Scope string_scope.

(** ** What changed *)

Definition MaxChangedPaths : nat := 20.

Definition serverOwnedPaths : list string :=
  ["status"; "metadata.managedFields"; "metadata.resourceVersion"; "metadata.generation"; "metadata.uid";
   "metadata.creationTimestamp"; "metadata.selfLink"; "metadata.deletionTimestamp";
   "metadata.annotations.kubectl.kubernetes.io/last-applied-configuration"].

(** [reflect.DeepEqual] of two decoded values. *)
Fixpoint DeepEqual (a b : value) : bool :=
  match a, b with
  | VNull, VNull => true
  | VBool x, VBool y => Bool.eqb x y
  | VInt x, VInt y => (x =? y)%Z
  | VFloat x, VFloat y | VStr x, VStr y => x =? y
  | VArr l, VArr l' =>
      (fix go l l' := match l, l' with
                      | [], [] => true
                      | x :: l, y :: l' => DeepEqual x y && go l l'
                      | _, _ => false
                      end) l l'
  | VObj m, VObj m' =>
      (List.length m =? List.length m')%nat
      && (fix go m := match m with
                      | [] => true
                      | (k, x) :: m => match field k m' with Some y => DeepEqual x y | None => false end && go m
                      end) m
  | _, _ => false
  end.

Definition under (prefix k : string) : string := if prefix =? "" then k else prefix ++ "." ++ k.
Definition serverOwnedPath (p : string) : bool := existsb (String.eqb p) serverOwnedPaths.

(** The keys only the second map has. *)
Definition added (prefix : string) (bm am : fields) : list string :=
  omap (fun e => let p := under prefix (fst e) in
                 if serverOwnedPath p then None
                 else match field (fst e) bm with Some _ => None | None => Some p end) am.

(** [diffValues], with [diffMaps] inside of it. *)
Fixpoint diffValues (path : string) (before after : value) : list string :=
  match before, after with
  | VObj bm, VObj am =>
      ((fix go m := match m with
                    | [] => []
                    | (k, b) :: m =>
                        let p := under path k in
                        ((if serverOwnedPath p then []
                          else match field k am with None => [p] | Some a => diffValues p b a end) ++ go m)%list
                    end) bm
       ++ added path bm am)%list
  | _, _ => if DeepEqual before after then [] else [path]
  end.

Definition changedPaths (before after : fields) (limit : nat) : list string :=
  take limit (sort_strings (diffValues "" (VObj before) (VObj after))).

(** ** The index and the report *)

Definition IndexFormatVersion : Z := 1.
Definition IndexFileName : string := "index.json".

Record IndexEntry := mkIndexEntry { ie_Group : string; ie_Version : string; ie_Kind : string; ie_Name : string; ie_Path : string }.
Record Warning := mkWarning { w_Group : string; w_Version : string; w_Kind : string; w_Message : string }.
Record Index := mkIndex {
  ix_FormatVersion : Z;
  ix_ClusterID : string;
  ix_Namespace : string;
  ix_BackupName : string;
  ix_KubernetesVersion : string;
  ix_CapturedAt : string;
  ix_RulesetVersion : string;
  ix_SecretDataExcluded : bool;
  ix_ResourceCount : Z;
  ix_Resources : list IndexEntry;
  ix_Warnings : list Warning
}.

(** [ParseIndex], on what json.Unmarshal made of the bytes. *)
Definition ParseIndex (decoded : result Index) : result Index :=
  match decoded with
  | Err e => Err (wrap_err "parse index" e)
  | Ok idx =>
      if negb (ix_FormatVersion idx =? IndexFormatVersion)%Z
      then Err (errorf ("unsupported manifest index formatVersion " ++ Itoa (ix_FormatVersion idx) ++ " (this build reads "
                  ++ Itoa IndexFormatVersion ++ ")"))
      else Ok idx
  end.

Definition FieldManager : string := "crystalbackup-restore".
Definition ModeOverwrite : string := "Overwrite".
Definition ModeRecreate : string := "Recreate".
Definition OutcomeCreated : string := "Created".
Definition OutcomeConfigured : string := "Configured".
Definition OutcomeRecreated : string := "Recreated".
Definition OutcomeFailed : string := "Failed".
Definition deleteSettleTimeout : Z := (30 * second)%Z.
Definition deleteSettlePoll : Z := (second / 2)%Z.
Definition kindPVC : string := "PersistentVolumeClaim".
Definition kindPersistentVolume : string := "PersistentVolume".

Record ApplyOptions := mkApplyOptions {
  ao_SourceDir : string;
  ao_TargetNamespace : string;
  ao_Mode : string;
  ao_DryRun : bool;
  ao_Selection : option CompiledSelection;
  ao_StorageClassMapping : gmap string string;
  ao_ClusterScoped : bool
}.

Record ResourceOutcome := mkOutcome {
  ro_Group : string; ro_Kind : string; ro_Name : string; ro_Outcome : string; ro_Reason : string; ro_Changed : list string
}.

Record Report := mkReport { rp_Applied : Z; rp_Failed : Z; rp_Entries : list ResourceOutcome; rp_Skipped : Z }.

Record plannedResource := mkPlanned { pr_entry : IndexEntry; pr_obj : fields; pr_phase : Z }.

Definition entryOutcome (e : IndexEntry) (outcome reason : string) (changed : list string) : ResourceOutcome :=
  mkOutcome (ie_Group e) (ie_Kind e) (ie_Name e) outcome reason changed.

Definition report_fail (e : IndexEntry) (reason : string) (r : Report) : Report :=
  mkReport (rp_Applied r) (rp_Failed r + 1) (rp_Entries r ++ [entryOutcome e OutcomeFailed reason []]) (rp_Skipped r).
Definition report_applied (entries : list ResourceOutcome) (r : Report) : Report :=
  mkReport (rp_Applied r + 1) (rp_Failed r) (rp_Entries r ++ entries) (rp_Skipped r).
Definition report_skipped (r : Report) : Report :=
  mkReport (rp_Applied r) (rp_Failed r) (rp_Entries r) (rp_Skipped r + 1).

(** ** Preparing an object *)

Definition isPVC (group kind : string) : bool := (group =? "") && (kind =? kindPVC).
Definition isStorageHandle (group kind : string) : bool :=
  (group =? "") && ((kind =? kindPVC) || (kind =? kindPersistentVolume)).

Section Prepare.
Context {A : Accessors}.

Definition stripFinalizers (obj : fields) : fields := RemoveNestedField ["metadata"; "finalizers"] obj.

Definition applyStorageClassMapping (obj : fields) (mapping : gmap string string) : fields :=
  if (size mapping =? 0)%nat then obj
  else
    match NestedString ["spec"; "storageClassName"] obj with
    | Ok (Some current) =>
        if current =? "" then obj
        else
          match mapping !! current with
          | None => obj
          | Some target =>
              if target =? "" then RemoveNestedField ["spec"; "storageClassName"] obj
              else default obj (SetNestedField target ["spec"; "storageClassName"] obj)
          end
    | _ => obj
    end.

Definition prepareObject (opts : ApplyOptions) (e : IndexEntry) (obj : fields) : fields :=
  let obj := if ao_ClusterScoped opts then obj else SetNamespace (ao_TargetNamespace opts) obj in
  let obj := stripFinalizers obj in
  if isPVC (ie_Group e) (ie_Kind e) then applyStorageClassMapping obj (ao_StorageClassMapping opts) else obj.
End Prepare.

(** By phase, then group, kind and name. *)
Definition planCompare (x y : plannedResource) : comparison :=
  match (pr_phase x ?= pr_phase y)%Z with
  | Eq =>
      match String.compare (ie_Group (pr_entry x)) (ie_Group (pr_entry y)) with
      | Eq =>
          match String.compare (ie_Kind (pr_entry x)) (ie_Kind (pr_entry y)) with
          | Eq => String.compare (ie_Name (pr_entry x)) (ie_Name (pr_entry y))
          | c => c
          end
      | c => c
      end
  | c => c
  end.

(** ** The client *)

(** A resource interface: the REST resource, and the namespace it is in when it has one. *)
Record handle := mkHandle { h_resource : string; h_namespace : option string }.

Inductive dyn_action :=
| DReadIndex (dir : string)                                              (* os.ReadFile and json.Unmarshal *)
| DReadManifest (dir path : string)                                      (* os.ReadFile and yaml.Unmarshal *)
| DRESTMapping (group kind version : string)                             (* the resource, and whether it is cluster-scoped *)
| DGet (h : handle) (name : string)
| DApply (h : handle) (name : string) (obj : fields) (manager : string) (force dryRun : bool)
| DCreate (h : handle) (obj : fields) (manager : string) (dryRun : bool)
| DDelete (h : handle) (name uid : string)                               (* with its UID as precondition, in the background *)
| DNow
| DWaitPoll.                                                             (* the context, or half a second *)

Definition dyn_answer (o : dyn_action) : Type :=
  match o with
  | DReadIndex _ => result (result Index)
  | DReadManifest _ _ => result fields
  | DRESTMapping _ _ _ => result (string * bool)
  | DGet _ _ => result fields
  | DApply _ _ _ _ _ _ => result fields
  | DCreate _ _ _ _ => option gerr
  | DDelete _ _ _ => option gerr
  | DNow => Z
  | DWaitPoll => option gerr
  end.

Definition dynI : interface := mkInterface dyn_action dyn_answer.
Notation dynP := (prog dynI).
Notation deed := (event dynI).
Definition dyn (o : dyn_action) : dynP (dyn_answer o) := call (I := dynI) o.

(** ** Applying one resource *)

Section Apply.
Context {A : Accessors}.

Definition finalizersText (f : list string) : string := String.concat ", " f.

(** [None] is out of fuel, [Some None] is success. *)
Fixpoint settleDelete (fuel : nat) (h : handle) (name uid : string) (deadline : Z) : dynP (option (option gerr)) :=
  match fuel with
  | O => Done None
  | S fuel =>
      let! current := dyn (DGet h name) in
      match current with
      | Err e =>
          if IsNotFound e then Done (Some None)
          else Done (Some (Some (wrap_err "waiting for the delete to settle" e)))
      | Ok current =>
          if negb (GetUID current =? uid) then Done (Some None)
          else
            let! now := dyn DNow in
            if time_after now deadline then
              Done (Some (Some (match GetFinalizers current with
                                | [] => errorf "still present 30s after delete"
                                | f => errorf ("still present 30s after delete, held by finalizer(s) " ++ finalizersText f)
                                end)))
            else
              let! err := dyn DWaitPoll in
              match err with Some e => Done (Some (Some e)) | None => settleDelete fuel h name uid deadline end
      end
  end.

Definition deleteAndWait (fuel : nat) (h : handle) (name uid : string) : dynP (option (option gerr)) :=
  let! err := dyn (DDelete h name uid) in
  match (match err with Some e => if IsNotFound e || IsConflict e then None else Some e | None => None end) with
  | Some e => Done (Some (Some (wrap_err "delete for recreate" e)))
  | None =>
      let! now := dyn DNow in
      settleDelete fuel h name uid (now + deleteSettleTimeout)
  end.

Definition overwrite (h : handle) (p : plannedResource) (live : option fields) (opts : ApplyOptions) (r : Report) : dynP Report :=
  let e := pr_entry p in
  let! applied := dyn (DApply h (ie_Name e) (pr_obj p) FieldManager true (ao_DryRun opts)) in
  Done (match applied with
        | Err err => report_fail e (err_text err) r
        | Ok applied =>
            match live with
            | None => report_applied [] r
            | Some live => report_applied [entryOutcome e OutcomeConfigured "" (changedPaths live applied MaxChangedPaths)] r
            end
        end).

(** The create that ends a recreate. *)
Definition createAnew (h : handle) (p : plannedResource) (live : option fields) (opts : ApplyOptions) (r : Report) : dynP Report :=
  let e := pr_entry p in
  let! err := dyn (DCreate h (pr_obj p) FieldManager (ao_DryRun opts)) in
  match err with
  | Some err => if IsAlreadyExists err then overwrite h p live opts r else Done (report_fail e (err_text err) r)
  | None => Done (report_applied (match live with Some _ => [entryOutcome e OutcomeRecreated "" []] | None => [] end) r)
  end.

Definition recreate (fuel : nat) (h : handle) (p : plannedResource) (live : option fields) (opts : ApplyOptions) (r : Report)
    : dynP (option Report) :=
  let e := pr_entry p in
  match live with
  | Some l =>
      if ao_DryRun opts then
        let! applied := dyn (DApply h (ie_Name e) (pr_obj p) FieldManager true true) in
        Done (Some (match applied with
                    | Err err => report_fail e (err_text err) r
                    | Ok _ => report_applied [entryOutcome e OutcomeRecreated "" []] r
                    end))
      else
        let! deleted := deleteAndWait fuel h (ie_Name e) (GetUID l) in
        match deleted with
        | None => Done None
        | Some (Some err) => Done (Some (report_fail e (err_text err) r))
        | Some None => let! r := createAnew h p live opts r in Done (Some r)
        end
  | None => let! r := createAnew h p live opts r in Done (Some r)
  end.

Definition handleFor (opts : ApplyOptions) (mapping : string * bool) : handle :=
  let '(resource, clusterScoped) := mapping in
  mkHandle resource (if clusterScoped then None else Some (ao_TargetNamespace opts)).

Definition applyOne (fuel : nat) (opts : ApplyOptions) (p : plannedResource) (r : Report) : dynP (option Report) :=
  let e := pr_entry p in
  let! mapping := dyn (DRESTMapping (ie_Group e) (ie_Kind e) (ie_Version e)) in
  match mapping with
  | Err err => Done (Some (report_fail e (err_text err) r))
  | Ok mapping =>
      let h := handleFor opts mapping in
      let! got := dyn (DGet h (ie_Name e)) in
      match (match got with
             | Ok live => Ok (Some live)
             | Err err => if IsNotFound err then Ok None else Err err
             end) with
      | Err err => Done (Some (report_fail e ("read the existing object: " ++ err_text err) r))
      | Ok live =>
          if (ao_Mode opts =? ModeRecreate) && negb (isStorageHandle (ie_Group e) (ie_Kind e)) then recreate fuel h p live opts r
          else let! r := overwrite h p live opts r in Done (Some r)
      end
  end.

(** ** The plan, and the whole apply *)

(** One entry of the index: planned, skipped, or failed to be read. *)
Definition planEntry (opts : ApplyOptions) (acc : list plannedResource * Report) (e : IndexEntry)
    : dynP (list plannedResource * Report) :=
  let '(planned, r) := acc in
  let! obj := dyn (DReadManifest (ao_SourceDir opts) (ie_Path e)) in
  match obj with
  | Err err => Done (planned, report_fail e (err_text err) r)
  | Ok obj =>
      let selected := match ao_Selection opts with
                      | Some s => selection_matches s (ie_Group e) (ie_Kind e) (ie_Name e) (GetLabels obj)
                      | None => true
                      end in
      if negb selected then Done (planned, report_skipped r)
      else Done ((planned ++ [mkPlanned e (prepareObject opts e obj) (applyPhase (ie_Group e) (ie_Kind e) (ao_ClusterScoped opts))])%list, r)
  end.

(** slices.SortFunc, with the comparison [planCompare]. *)
Variable SortFunc : list plannedResource -> list plannedResource.

Definition emptyReport : Report := mkReport 0 0 [] 0.

Definition plan (idx : Index) (opts : ApplyOptions) : dynP (list plannedResource * Report) :=
  let! acc := foldM (planEntry opts) ([], emptyReport) (ix_Resources idx) in
  let '(planned, r) := acc in
  Done (SortFunc planned, r).

(** Applies the planned resources in order. *)
Fixpoint applyAll (fuel : nat) (opts : ApplyOptions) (planned : list plannedResource) (r : Report) : dynP (option Report) :=
  match planned with
  | [] => Done (Some r)
  | p :: planned =>
      let! r := applyOne fuel opts p r in
      match r with Some r => applyAll fuel opts planned r | None => Done None end
  end.

Definition Apply (fuel : nat) (opts : ApplyOptions) : dynP (option (result Report)) :=
  if (ao_TargetNamespace opts =? "") && negb (ao_ClusterScoped opts) then Done (Some (Err (errorf "apply: no target namespace")))
  else
    let! raw := dyn (DReadIndex (ao_SourceDir opts)) in
    match (match raw with Err e => Err (wrap_err ("read " ++ IndexFileName) e) | Ok decoded => ParseIndex decoded end) with
    | Err e => Done (Some (Err e))
    | Ok idx =>
        let! planned := plan idx opts in
        let! r := applyAll fuel opts (fst planned) (snd planned) in
        Done (match r with Some r => Some (Ok r) | None => None end)
    end.
End Apply.

(** ** Lemmas *)

Lemma dyn_runs o tr x : runs (dyn o) tr x <-> tr = [Ev (I := dynI) o x].
Proof. apply (runs_call (I := dynI)). Qed.

(** Takes the first request, or sub-program, off the program of a hypothesis. *)
Ltac follow H :=
  lazymatch type of H with
  | runs (prog_bind _ _) _ _ =>
      let t1 := fresh "t" in let t2 := fresh "tr" in let a := fresh "x" in let H1 := fresh "R" in
      apply runs_bind in H as (t1 & t2 & a & -> & H1 & H); cbv beta in H;
      first [ apply dyn_runs in H1; subst t1 | idtac ]
  | runs (Done _) _ _ => destruct H as [-> H]; try simplify_eq
  | runs (match ?x with _ => _ end) _ _ => let E := fresh "E" in destruct x eqn:E
  end.

(** *** The report *)

Definition isFailed (o : ResourceOutcome) : bool := ro_Outcome o =? OutcomeFailed.

Definition handled (r : Report) : Z := (rp_Applied r + rp_Failed r + rp_Skipped r)%Z.

(** One more resource is accounted for, and a failure with its entry. *)
Definition accounted (r r' : Report) : Prop :=
  handled r' = (handled r + 1)%Z
  /\ (rp_Failed r' - Z.of_nat (countb isFailed (rp_Entries r')) = rp_Failed r - Z.of_nat (countb isFailed (rp_Entries r)))%Z.

Lemma accounted_fail e reason r : accounted r (report_fail e reason r).
Proof. unfold accounted, handled. cbn. rewrite countb_app. cbn. split; [ring|lia]. Qed.

Lemma accounted_skipped r : accounted r (report_skipped r).
Proof. unfold accounted, handled. cbn. split; [ring|done]. Qed.

Lemma accounted_applied entries r : existsb isFailed entries = false -> accounted r (report_applied entries r).
Proof.
  intros H. unfold accounted, handled. cbn. rewrite countb_app, (proj2 (countb_zero _ entries)); [split; [ring|lia]|].
  intros x Hx. apply not_true_iff_false. intros Hf. assert (existsb isFailed entries = true); [|congruence].
  apply existsb_exists. exists x. by rewrite <-list_elem_of_In.
Qed.

Section ApplyLemmas.
Context {A : Accessors}.

Lemma overwrite_accounts h p live opts r tr r' : runs (overwrite h p live opts r) tr r' -> accounted r r'.
Proof.
  unfold overwrite. intros H. follow H. follow H. destruct x; [|apply accounted_fail]. destruct live; by apply accounted_applied.
Qed.

Lemma createAnew_accounts h p live opts r tr r' : runs (createAnew h p live opts r) tr r' -> accounted r r'.
Proof.
  unfold createAnew. intros H. follow H. destruct x as [e|].
  - follow H; [by eapply overwrite_accounts|]. follow H. apply accounted_fail.
  - follow H. apply accounted_applied. by destruct live.
Qed.

Lemma applyOne_accounts fuel opts p r tr r' : runs (applyOne fuel opts p r) tr (Some r') -> accounted r r'.
Proof.
  unfold applyOne. intros H. follow H. destruct x as [m|e]; [|follow H; apply accounted_fail]. follow H.
  destruct (match x with Ok live => _ | Err err => _ end) as [live|e]; [|follow H; apply accounted_fail].
  destruct (_ && _).
  - unfold recreate in H. destruct live as [l|].
    + destruct (ao_DryRun opts).
      * follow H. follow H. destruct x0; [by apply accounted_applied|apply accounted_fail].
      * follow H. destruct x0 as [[e|]|]; [follow H; apply accounted_fail| |by follow H].
        follow H. follow H. by eapply createAnew_accounts.
    + follow H. follow H. by eapply createAnew_accounts.
  - follow H. follow H. by eapply overwrite_accounts.
Qed.

(** How far a report is from another, in resources. *)
Definition accounted_by (n : nat) (r r' : Report) : Prop :=
  handled r' = (handled r + Z.of_nat n)%Z
  /\ (rp_Failed r' - Z.of_nat (countb isFailed (rp_Entries r')) = rp_Failed r - Z.of_nat (countb isFailed (rp_Entries r)))%Z.

Lemma accounted_by_S n r r1 r' : accounted r r1 -> accounted_by n r1 r' -> accounted_by (S n) r r'.
Proof. unfold accounted, accounted_by. intros [H1 H2] [H3 H4]. split; lia. Qed.

Lemma applyAll_accounts fuel opts planned r tr r' :
  runs (applyAll fuel opts planned r) tr (Some r') -> accounted_by (List.length planned) r r'.
Proof.
  revert r tr. induction planned as [|p planned IH]; intros r tr H; cbn [applyAll] in H.
  - destruct H as [_ [= ->]]. split; [cbn; lia|done].
  - follow H. destruct x as [r1|]; [|by follow H]. eapply accounted_by_S; [by eapply applyOne_accounts|by eapply IH].
Qed.

Definition plannedOf (opts : ApplyOptions) (e : IndexEntry) (obj : fields) : plannedResource :=
  mkPlanned e (prepareObject opts e obj) (applyPhase (ie_Group e) (ie_Kind e) (ao_ClusterScoped opts)).

Lemma planEntry_runs opts acc e tr acc' :
  runs (planEntry opts acc e) tr acc' ->
  exists x, tr = [Ev (I := dynI) (DReadManifest (ao_SourceDir opts) (ie_Path e)) x]
    /\ ((accounted (snd acc) (snd acc') /\ fst acc' = fst acc)
        \/ (snd acc' = snd acc /\ exists obj, x = Ok obj /\ fst acc' = (fst acc ++ [plannedOf opts e obj])%list)).
Proof.
  destruct acc as [planned r]. unfold planEntry. intros H. follow H. exists x.
  destruct x as [obj|err]; [destruct (negb _)|]; destruct H as [-> ->]; (split; [done|]).
  - left. split; [apply accounted_skipped|done].
  - right. split; [done|]. by exists obj.
  - left. split; [apply accounted_fail|done].
Qed.

(** A planned resource is a manifest of the index that was read. *)
Definition read_planned (opts : ApplyOptions) (l : list IndexEntry) (tr : list deed) (p : plannedResource) : Prop :=
  exists e obj, e ∈ l /\ Ev (I := dynI) (DReadManifest (ao_SourceDir opts) (ie_Path e)) (Ok obj) ∈ tr /\ p = plannedOf opts e obj.

Definition is_read (e : deed) : Prop := exists d p, ev_action e = DReadManifest d p.

Lemma plan_accounts opts l acc tr acc' :
  runs (foldM (planEntry opts) acc l) tr acc' ->
  Forall is_read tr
  /\ (forall p, p ∈ fst acc' -> p ∈ fst acc \/ read_planned opts l tr p)
  /\ exists n, accounted_by n (snd acc) (snd acc') /\ (List.length (fst acc') + n = List.length (fst acc) + List.length l)%nat.
Proof.
  revert acc tr. induction l as [|e l IH]; intros acc tr H.
  - destruct H as [-> ->]. split; [constructor|]. split; [by left|]. exists 0. split; [split; [lia|done]|]. cbn. lia.
  - apply foldM_cons in H as (t1 & t2 & acc1 & -> & H1 & H2). apply planEntry_runs in H1 as (x & -> & H1).
    destruct (IH _ _ H2) as (Ht & Hp & n & Hn & Hlen). split; [constructor; [by eexists _, _|done]|].
    assert (forall p, read_planned opts l t2 p ->
      read_planned opts (e :: l) ([Ev (I := dynI) (DReadManifest (ao_SourceDir opts) (ie_Path e)) x] ++ t2) p) as Hmono.
    { intros p (e' & obj & He & Hr & ->). exists e', obj. split_and!; [by right|by right|done]. }
    split.
    + intros p Hin. destruct (Hp _ Hin) as [H|H]; [|right; by apply Hmono].
      destruct H1 as [[_ E]|[_ (obj & -> & E)]]; rewrite E in H; [by left|].
      apply elem_of_app in H as [H|H]; [by left|right]. apply list_elem_of_singleton in H as ->.
      exists e, obj. split_and!; [left|left|done].
    + destruct H1 as [[Ha E]|[E (obj & _ & E')]].
      * exists (S n). split; [by eapply accounted_by_S|]. rewrite E in Hlen. cbn [List.length]. lia.
      * exists n. rewrite <-E. split; [done|]. rewrite E', length_app in Hlen. cbn [List.length] in *. lia.
Qed.
End ApplyLemmas.

(** ** What is sent *)

Definition is_write (e : deed) : bool :=
  match ev_action e with DApply _ _ _ _ _ _ | DCreate _ _ _ _ | DDelete _ _ _ => true | _ => false end.

(** Where a mapping puts a resource: the target namespace, and none when it is cluster-scoped. *)
Definition scopedHandle (target resource : string) (clusterScoped : bool) : handle :=
  mkHandle resource (match clusterScoped with true => None | false => Some target end).

(** Every request of a resource's turn is about that resource, at the handle [h], with the
    dry-run flag of the whole apply; nothing is deleted by a dry run, by an Overwrite, or from
    under its data. *)
Definition turn_of (opts : ApplyOptions) (p : plannedResource) (h : handle) (o : action dynI) : Prop :=
  match o with
  | DGet h' name => h' = h /\ name = ie_Name (pr_entry p)
  | DApply h' name obj manager force dry =>
      h' = h /\ name = ie_Name (pr_entry p) /\ obj = pr_obj p /\ manager = FieldManager /\ force = true /\ dry = ao_DryRun opts
  | DCreate h' obj manager dry => h' = h /\ obj = pr_obj p /\ manager = FieldManager /\ dry = ao_DryRun opts
  | DDelete h' name uid =>
      h' = h /\ name = ie_Name (pr_entry p) /\ ao_DryRun opts = false /\ ao_Mode opts = ModeRecreate
      /\ isStorageHandle (ie_Group (pr_entry p)) (ie_Kind (pr_entry p)) = false
  | DNow | DWaitPoll => True
  | _ => False
  end.

Section Sent.
Context {A : Accessors}.

Lemma handleFor_scoped opts resource clusterScoped :
  handleFor opts (resource, clusterScoped) = scopedHandle (ao_TargetNamespace opts) resource clusterScoped.
Proof. by destruct clusterScoped. Qed.

(** The wait for a deletion only looks. *)
Definition only_polls (o : action dynI) : Prop := match o with DGet _ _ | DNow | DWaitPoll => True | _ => False end.
Definition no_delete (o : action dynI) : Prop := match o with DDelete _ _ _ => False | _ => True end.

Lemma settleDelete_polls fuel h name uid d : only only_polls (settleDelete fuel h name uid d).
Proof.
  induction fuel as [|fuel IH]; [exact I|]. cbn [settleDelete]. apply only_bind; [by apply only_call|].
  intros [cur|e]; [|by destruct (IsNotFound e)]. destruct (negb _); [exact I|]. apply only_bind; [by apply only_call|]. intros now.
  destruct (time_after _ _); [exact I|]. apply only_bind; [by apply only_call|]. intros [e|]; [exact I|exact IH].
Qed.

Lemma settleDelete_turn opts p fuel h uid d :
  only (turn_of opts p h) (settleDelete fuel h (ie_Name (pr_entry p)) uid d).
Proof.
  induction fuel as [|fuel IH]; [exact I|]. cbn [settleDelete]. apply only_bind; [by apply only_call|].
  intros [cur|e]; [|by destruct (IsNotFound e)]. destruct (negb _); [exact I|]. apply only_bind; [by apply only_call|]. intros now.
  destruct (time_after _ _); [exact I|]. apply only_bind; [by apply only_call|]. intros [e|]; [exact I|exact IH].
Qed.

Lemma overwrite_deletes_nothing h p live opts r : only no_delete (overwrite h p live opts r).
Proof. unfold overwrite. apply only_bind; [by apply only_call|]. intros; exact I. Qed.

Lemma createAnew_deletes_nothing h p live opts r : only no_delete (createAnew h p live opts r).
Proof.
  unfold createAnew. apply only_bind; [by apply only_call|]. intros [e|]; [|exact I].
  destruct (IsAlreadyExists e); [apply overwrite_deletes_nothing|exact I].
Qed.

Lemma overwrite_turn opts p h live r : only (turn_of opts p h) (overwrite h p live opts r).
Proof. unfold overwrite. apply only_bind; [|intros; exact I]. apply only_call. by split_and!. Qed.

Lemma createAnew_turn opts p h live r : only (turn_of opts p h) (createAnew h p live opts r).
Proof.
  unfold createAnew. apply only_bind; [apply only_call; by split_and!|]. intros [err|]; [|exact I].
  destruct (IsAlreadyExists err); [apply overwrite_turn|exact I].
Qed.

(** What follows the mapping. *)
Lemma recreate_turn opts p fuel h live r :
  ao_Mode opts = ModeRecreate -> isStorageHandle (ie_Group (pr_entry p)) (ie_Kind (pr_entry p)) = false ->
  only (turn_of opts p h) (recreate fuel h p live opts r).
Proof.
  intros Em Es. unfold recreate.
  assert (forall r, only (turn_of opts p h) (createAnew h p live opts r)) as Hc by (intros; apply createAnew_turn).
  destruct live as [l|]; [|apply only_bind; [apply Hc|done]]. destruct (ao_DryRun opts) eqn:Ed.
  - apply only_bind; [|done]. apply only_call. cbn. by rewrite Ed.
  - apply only_bind; [|intros [[|]|]; [done|apply only_bind; [apply Hc|done]|done]]. unfold deleteAndWait.
    apply only_bind; [by apply only_call|]. intros w. destruct (match w with Some e => _ | None => None end); [done|].
    apply only_bind; [by apply only_call|]. intros now. apply settleDelete_turn.
Qed.

Lemma applyOne_turn opts p fuel r tr o :
  runs (applyOne fuel opts p r) tr o ->
  exists mapping rest,
    tr = (Ev (I := dynI) (DRESTMapping (ie_Group (pr_entry p)) (ie_Kind (pr_entry p)) (ie_Version (pr_entry p))) mapping :: rest)%list
    /\ match mapping with
       | Err _ => rest = []
       | Ok (resource, clusterScoped) =>
           Forall (fun e => turn_of opts p (scopedHandle (ao_TargetNamespace opts) resource clusterScoped) (ev_action e)) rest
       end.
Proof.
  unfold applyOne. intros H. follow H. eexists x, _. split; [reflexivity|].
  destruct x as [[resource scope]|e]; [|by follow H]. rewrite handleFor_scoped in H.
  set (h := scopedHandle _ _ _) in *. eapply (only_runs (turn_of opts p h)), H.
  apply only_bind; [by apply only_call|]. intros got.
  destruct (match got with Ok live => _ | Err err => _ end) as [live|e]; [|done].
  destruct (_ && _) eqn:E; [|apply only_bind; [apply overwrite_turn|done]].
  apply andb_true_iff in E as [Em%String.eqb_eq Es%negb_true_iff]. by apply recreate_turn.
Qed.

(** The turns of an apply, one after the other. *)
Lemma applyAll_turns fuel opts planned r tr o :
  runs (applyAll fuel opts planned r) tr o ->
  exists chunks, tr = concat chunks /\ List.length chunks <= List.length planned
    /\ (is_Some o -> List.length chunks = List.length planned)
    /\ Forall (fun pc => exists r o, runs (applyOne fuel opts (fst pc) r) (snd pc) o) (combine planned chunks).
Proof.
  revert r tr. induction planned as [|p planned IH]; intros r tr H; cbn [applyAll] in H.
  - destruct H as [-> ->]. exists []. by split_and!.
  - follow H. destruct x as [r1|].
    + destruct (IH _ _ H) as (chunks & -> & Hl & Hs & Hf). exists (t :: chunks). cbn [List.length].
      split_and!; [done|lia|intros Ho; by rewrite Hs|]. cbn [combine]. constructor; [by exists r, (Some r1)|done].
    + destruct H as [-> ->]. exists [t]. cbn [List.length concat]. rewrite !app_nil_r. split_and!; [done|lia|by intros []|].
      destruct planned; (cbn [combine]; constructor; [by exists r, None|constructor]).
Qed.

Lemma applyOne_deletes fuel opts p r tr o h name uid w :
  runs (applyOne fuel opts p r) tr o -> Ev (I := dynI) (DDelete h name uid) w ∈ tr ->
  exists live, Ev (I := dynI) (DGet h name) (Ok live) ∈ tr /\ uid = GetUID live.
Proof.
  unfold applyOne. intros H Hin. follow H. destruct x as [m|e]; [|follow H; set_solver]. follow H.
  assert (forall (q : dynP (option Report)) t o', only no_delete q -> runs q t o' ->
    Ev (I := dynI) (DDelete h name uid) w ∈ t -> False) as Hno.
  { intros q t o' Hq Hr Hi. pose proof (only_runs _ _ _ _ Hq Hr) as Hf. rewrite Forall_forall in Hf. exact (Hf _ Hi). }
  pose proof (fun live r => overwrite_deletes_nothing (handleFor opts m) p live opts r) as Ho.
  pose proof (fun live r => createAnew_deletes_nothing (handleFor opts m) p live opts r) as Hc.
  destruct x as [live|err]; cbv beta iota in H.
  2: { exfalso. destruct (IsNotFound err); [|follow H; set_solver].
       assert (Ev (I := dynI) (DDelete h name uid) w ∈ tr) as Hi by set_solver. revert H Hi. apply Hno. destruct (_ && _).
       - unfold recreate. apply only_bind; [apply Hc|done].
       - apply only_bind; [apply Ho|done]. }
  assert (Ev (I := dynI) (DDelete h name uid) w ∈ tr) as Hi by set_solver. clear Hin. destruct (_ && _).
  2: { exfalso. revert H Hi. apply Hno. apply only_bind; [apply Ho|done]. }
  unfold recreate in H. destruct (ao_DryRun opts).
  { exfalso. revert H Hi. apply Hno. apply only_bind; [by apply only_call|done]. }
  follow H. apply elem_of_app in Hi as [Hi|Hi].
  - unfold deleteAndWait in R. follow R. apply elem_of_cons in Hi as [Hi|Hi].
    + injection Hi as -> -> -> _. exists live. split; [|done]. right. left.
    + exfalso. revert R Hi. destruct (match x0 with Some e => _ | None => None end); [intros R; follow R; set_solver|].
      intros R. follow R. intros Hi. apply elem_of_cons in Hi as [|Hi]; [done|]. revert Hi.
      assert (only no_delete
                (settleDelete fuel (handleFor opts m) (ie_Name (pr_entry p)) (GetUID live) (x1 + deleteSettleTimeout))) as Hs.
      { apply only_impl with (P := only_polls); [by intros []|]. apply settleDelete_polls. }
      pose proof (only_runs _ _ _ _ Hs R) as Hf. rewrite Forall_forall in Hf. intros Hi. exact (Hf _ Hi).
  - exfalso. revert H Hi. apply Hno. destruct x as [[e|]|]; [done| |done]. apply only_bind; [apply Hc|done].
Qed.
End Sent.

(** ** The whole apply *)

Definition plan_le (x y : plannedResource) : Prop := planCompare x y <> Gt.

Lemma plan_le_phase x y : plan_le x y -> (pr_phase x <= pr_phase y)%Z.
Proof. unfold plan_le, planCompare. destruct (Z.compare_spec (pr_phase x) (pr_phase y)); [lia|lia|done]. Qed.

Lemma plan_le_sorted l : Sorted plan_le l -> Sorted (fun x y => pr_phase x <= pr_phase y)%Z l.
Proof.
  induction 1 as [|x l H IH Hh]; constructor; [done|]. destruct Hh; constructor. by apply plan_le_phase.
Qed.

Section Whole.
Context {A : Accessors} {Laws : AccessorLaws A}.
Context (SortFunc : list plannedResource -> list plannedResource).
(** slices.SortFunc returns the elements it was given, in order. *)
Context (Sort_perm : forall l, SortFunc l ≡ₚ l) (Sort_sorted : forall l, Sorted plan_le (SortFunc l)).

(** An apply that gets to its plan: the index it read, the reading, the turns. *)
Lemma Apply_runs fuel opts tr o :
  runs (Apply SortFunc fuel opts) tr o -> (o = None \/ exists r, o = Some (Ok r)) ->
  exists idx reading planned r0 turns o',
    tr = Ev (I := dynI) (DReadIndex (ao_SourceDir opts)) (Ok (Ok idx)) :: (reading ++ turns)%list
    /\ runs (foldM (planEntry opts) ([], emptyReport) (ix_Resources idx)) reading (planned, r0)
    /\ runs (applyAll fuel opts (SortFunc planned) r0) turns o'
    /\ o = match o' with Some r => Some (Ok r) | None => None end.
Proof.
  unfold Apply. intros H Ho. destruct (_ && _); [destruct H as [_ ->]; destruct Ho as [|[]]; discriminate|]. follow H.
  destruct x as [decoded|e]; [|destruct H as [_ ->]; destruct Ho as [|[]]; discriminate].
  destruct (ParseIndex decoded) as [idx|e] eqn:Ep; [|destruct H as [_ ->]; destruct Ho as [|[]]; discriminate].
  unfold ParseIndex in Ep. destruct decoded as [idx'|e]; [|discriminate]. destruct (negb _); [discriminate|]. injection Ep as ->.
  follow H. unfold plan in R. follow R. destruct x0 as [planned r0]. destruct R as [-> ->]. cbn [fst snd] in H. follow H.
  destruct H as [-> ->]. exists idx, t0, planned, r0, t, x. rewrite !app_nil_r. by split_and!.
Qed.

(** A report accounts for every resource of the index, once: applied, failed or
    skipped; and each failure has its entry. *)
Theorem Apply_accounts_for_all (fuel : nat) (opts : ApplyOptions) tr (r : Report) :
  runs (Apply SortFunc fuel opts) tr (Some (Ok r)) ->
  exists idx, Ev (I := dynI) (DReadIndex (ao_SourceDir opts)) (Ok (Ok idx)) ∈ tr
    /\ (rp_Applied r + rp_Failed r + rp_Skipped r = Z.of_nat (List.length (ix_Resources idx)))%Z
    /\ rp_Failed r = Z.of_nat (countb isFailed (rp_Entries r)).
Proof.
  intros H. apply Apply_runs in H as (idx & reading & planned & r0 & turns & o & -> & H1 & H2 & Ho); [|right; by exists r].
  destruct o as [r'|]; [|discriminate]. injection Ho as <-. exists idx. split; [left|].
  apply plan_accounts in H1 as (_ & _ & n & [Hh Hf] & Hl). apply applyAll_accounts in H2 as [Hh' Hf'].
  rewrite (Permutation_length (Sort_perm planned)) in Hh'. cbn [fst snd] in *. unfold handled in *. cbn in Hh, Hf, Hl. lia.
Qed.

(** The turn of a planned resource in an apply: its kind is mapped, and when it is, the rest of
    the turn is about the resource alone, where the mapping puts it; a deletion is pinned to the
    object the turn read there. *)
Definition turn (opts : ApplyOptions) (p : plannedResource) (tr : list deed) : Prop :=
  (exists mapping rest,
     tr = (Ev (I := dynI) (DRESTMapping (ie_Group (pr_entry p)) (ie_Kind (pr_entry p)) (ie_Version (pr_entry p))) mapping :: rest)%list
     /\ match mapping with
        | Err _ => rest = []
        | Ok (resource, clusterScoped) =>
            Forall (fun e => turn_of opts p (scopedHandle (ao_TargetNamespace opts) resource clusterScoped) (ev_action e)) rest
        end)
  /\ forall h name uid w, Ev (I := dynI) (DDelete h name uid) w ∈ tr ->
       exists live, Ev (I := dynI) (DGet h name) (Ok live) ∈ tr /\ uid = GetUID live.

(** C30. What an apply does to the cluster. It first reads; then the resources take turns in the
    order of their phases. A turn maps the resource's kind and, when that succeeds, reads and
    writes that resource alone, at the handle of the mapping: in the target namespace when the
    kind is namespaced, without a namespace when it is cluster-scoped; as a dry run when the
    apply is one, by the operator's field manager, and without a finalizer. A delete happens
    only in a Recreate that is no dry run, never of a claim or a volume, and is pinned to the
    object the same turn read. *)
Theorem Apply_takes_turns (fuel : nat) (opts : ApplyOptions) tr (r : Report) :
  runs (Apply SortFunc fuel opts) tr (Some (Ok r)) ->
  exists reading planned turns,
    tr = (reading ++ concat turns)%list
    /\ Forall (fun e => is_write e = false) reading
    /\ Sorted (fun x y => pr_phase x <= pr_phase y)%Z planned
    /\ Forall2 (turn opts) planned turns
    /\ Forall (fun p => at_path ["metadata"; "finalizers"] (pr_obj p) = None
                        /\ exists e obj, Ev (I := dynI) (DReadManifest (ao_SourceDir opts) (ie_Path e)) (Ok obj) ∈ reading
                             /\ p = plannedOf opts e obj) planned.
Proof.
  intros H. apply Apply_runs in H as (idx & reading & planned & r0 & turns & o & -> & H1 & H2 & Ho); [|right; by exists r].
  destruct o as [r'|]; [|discriminate]. apply plan_accounts in H1 as (Hr & Hp & _). cbn [fst] in Hp.
  apply applyAll_turns in H2 as (chunks & -> & _ & Hl & Hc). specialize (Hl ltac:(by eexists)).
  exists (Ev (I := dynI) (DReadIndex (ao_SourceDir opts)) (Ok (Ok idx)) :: reading)%list, (SortFunc planned), chunks.
  split; [done|]. split_and!.
  - constructor; [done|]. eapply Forall_impl; [exact Hr|]. intros e (d & p & E). unfold is_write. by rewrite E.
  - apply plan_le_sorted, Sort_sorted.
  - clear - Hl Hc. revert chunks Hl Hc. induction (SortFunc planned) as [|p l IH]; intros [|c chunks] Hl Hc; try discriminate; [constructor|].
    cbn [combine] in Hc. apply Forall_cons in Hc as [(r & o & Hc1) Hc]. cbn [fst snd] in Hc1. constructor; [|apply IH; [by injection Hl|done]].
    split; [by eapply applyOne_turn|]. intros h name uid w. by apply applyOne_deletes with (1 := Hc1).
  - apply Forall_forall. intros p Hin. rewrite Sort_perm in Hin. destruct (Hp p Hin) as [Hn|(e & obj & _ & Hread & ->)];
      [by apply not_elem_of_nil in Hn|]. split; [|exists e, obj; split; [by right|done]].
    cbn [pr_obj plannedOf]. unfold prepareObject. set (obj1 := if ao_ClusterScoped opts then _ else _).
    assert (at_path ["metadata"; "finalizers"] (stripFinalizers obj1) = None) as Hs by by apply removed_absent.
    destruct (isPVC _ _); [|done]. unfold applyStorageClassMapping. destruct (_ =? 0)%nat; [done|].
    destruct (NestedString _ _) as [[current|]|]; try done. destruct (current =? ""); [done|].
    destruct (_ !! current) as [target|]; [|done]. destruct (target =? "").
    + by rewrite RemoveNestedField_keeps.
    + destruct (SetNestedField _ _ _) as [m'|] eqn:E; [|exact Hs].
      change (at_path ["metadata"; "finalizers"] m' = None).
      rewrite (SetNestedField_keeps _ _ ["metadata"; "finalizers"] _ _ E) by done. done.
Qed.

(** *** Termination *)

Definition is_wait (e : deed) : bool := match e with Ev DWaitPoll None => true | _ => false end.
Definition waits (tr : list deed) : Z := Z.of_nat (countb is_wait tr).

(** The clock is monotonic, and a wait that was not cut short lasted its time. *)
Definition clock_advances (tr : list deed) : Prop :=
  forall pre t mid u post, tr = (pre ++ Ev (I := dynI) DNow t :: mid ++ Ev (I := dynI) DNow u :: post)%list ->
    (t + waits mid * deleteSettlePoll <= u)%Z.

Lemma settleDelete_spends fuel h name uid deadline tr :
  runs (settleDelete (S fuel) h name uid deadline) tr None ->
  exists pre t post, tr = (pre ++ Ev (I := dynI) DNow t :: post)%list /\ (t <= deadline)%Z /\ waits pre = Z.of_nat fuel.
Proof.
  revert tr. induction fuel as [|fuel IH]; intros tr H; cbn [settleDelete] in H.
  all: follow H; destruct x as [cur|e]; [|destruct (IsNotFound e); follow H; discriminate].
  all: destruct (negb _); [follow H; discriminate|]; follow H.
  all: unfold time_after in H; destruct (deadline <? x)%Z eqn:Et; [follow H; discriminate|]; follow H.
  all: apply Z.ltb_ge in Et; destruct x0 as [e|]; [follow H; discriminate|].
  - exists [Ev (I := dynI) (DGet h name) (Ok cur)], x. eexists. split; [reflexivity|]. by split.
  - apply IH in H as (pre & t & post & -> & Ht & Hw).
    exists (Ev (I := dynI) (DGet h name) (Ok cur) :: Ev (I := dynI) DNow x :: Ev (I := dynI) DWaitPoll None :: pre)%list, t, post.
    split; [done|]. split; [done|]. unfold waits in *. cbn [countb is_wait]. lia.
Qed.

Lemma deleteAndWait_ends fuel h name uid tr o :
  61 < fuel -> runs (deleteAndWait fuel h name uid) tr o -> clock_advances tr -> o <> None.
Proof.
  intros Hf H Hc ->. unfold deleteAndWait in H. follow H. destruct (match x with Some e => _ | None => None end); [follow H; discriminate|].
  follow H. destruct fuel as [|fuel]; [lia|]. apply settleDelete_spends in H as (pre & t & post & -> & Ht & Hw).
  specialize (Hc [Ev (I := dynI) (DDelete h name uid) x] x0 pre t post eq_refl). rewrite Hw in Hc.
  unfold deleteSettlePoll, deleteSettleTimeout, second in *. change (10 ^ 9 / 2)%Z with 500000000%Z in Hc. lia.
Qed.

Lemma clock_app tr1 tr2 : clock_advances (tr1 ++ tr2) -> clock_advances tr1 /\ clock_advances tr2.
Proof.
  intros H. split; intros pre t mid u post ->.
  - apply (H pre t mid u (post ++ tr2)%list). by rewrite <-!app_assoc, <-!app_comm_cons, <-!app_assoc.
  - apply (H (tr1 ++ pre)%list t mid u post). by rewrite <-!app_assoc.
Qed.

Lemma clock_cons e tr : clock_advances (e :: tr) -> clock_advances tr.
Proof. intros H. by apply (clock_app [e] tr) in H as []. Qed.

Lemma applyOne_ends fuel opts p r tr o : 61 < fuel -> runs (applyOne fuel opts p r) tr o -> clock_advances tr -> o <> None.
Proof.
  unfold applyOne. intros Hf H Hc ->. follow H. destruct x as [m|e]; [|follow H; discriminate]. follow H.
  apply clock_cons, clock_cons in Hc. destruct (match x with Ok live => _ | Err err => _ end) as [live|e]; [|follow H; discriminate].
  destruct (_ && _); [|follow H; follow H; discriminate]. unfold recreate in H.
  destruct live as [l|]; [|follow H; follow H; discriminate]. destruct (ao_DryRun opts); [follow H; follow H; discriminate|].
  follow H. apply clock_app in Hc as [Hc _]. destruct x0 as [[e|]|].
  - follow H; discriminate.
  - follow H; follow H; discriminate.
  - by eapply deleteAndWait_ends in R.
Qed.

(** C31. An apply ends: sixty-two polls are enough for each deletion, whatever the
    cluster answers, since each waits half a second of the thirty there are. *)
Theorem Apply_returns (fuel : nat) (opts : ApplyOptions) tr (o : option (result Report)) :
  61 < fuel -> runs (Apply SortFunc fuel opts) tr o -> clock_advances tr -> o <> None.
Proof.
  intros Hf H Hc ->. apply Apply_runs in H as (idx & reading & planned & r0 & turns & o & -> & H1 & H2 & Ho); [|by left].
  destruct o as [r'|]; [discriminate|]. apply clock_cons, clock_app in Hc as [_ Hc]. clear - Hf H2 Hc.
  revert r0 turns H2 Hc. induction (SortFunc planned) as [|p l IH]; intros r0 turns H Hc; cbn [applyAll] in H; [follow H; discriminate|].
  follow H. apply clock_app in Hc as [Hc1 Hc2]. destruct x as [r|]; [by eapply IH|]. by eapply applyOne_ends in R.
Qed.
End Whole.

(** ** The diff *)

(** Induction over a tree of values, with its children. *)
Lemma value_induction (P : value -> Prop) :
  (forall v, match v with VArr _ | VObj _ => False | _ => True end -> P v) ->
  (forall l, Forall P l -> P (VArr l)) -> (forall m, Forall (fun e => P (snd e)) m -> P (VObj m)) -> forall v, P v.
Proof.
  intros Hs Ha Ho. fix IH 1. intros v. destruct v as [|b|z|f|s|l|m]; try (apply Hs; exact I).
  - apply Ha. induction l as [|x l IHl]; constructor; [apply IH|exact IHl].
  - apply Ho. induction m as [|[k x] m IHm]; constructor; [apply IH|exact IHm].
Qed.

(** What it is for a path to differ between two trees: one of the two is no object
    and they are not equal, or a key is only in one of two objects, or a path under
    a key of both differs; a path the server owns, and what is under it, never
    does. *)
Inductive differs : string -> value -> value -> string -> Prop :=
| differs_here path b a :
    match b, a with VObj _, VObj _ => False | _, _ => True end -> DeepEqual b a = false -> differs path b a path
| differs_removed path bm am k b :
    field k bm = Some b -> field k am = None -> serverOwnedPath (under path k) = false ->
    differs path (VObj bm) (VObj am) (under path k)
| differs_added path bm am k a :
    field k bm = None -> field k am = Some a -> serverOwnedPath (under path k) = false ->
    differs path (VObj bm) (VObj am) (under path k)
| differs_under path bm am k b a p :
    field k bm = Some b -> field k am = Some a -> serverOwnedPath (under path k) = false ->
    differs (under path k) b a p -> differs path (VObj bm) (VObj am) p.

(** The paths one key of the first object gives. *)
Definition keyPaths (path : string) (am : fields) (e : string * value) : list string :=
  let p := under path (fst e) in
  if serverOwnedPath p then []
  else match field (fst e) am with None => [p] | Some a => diffValues p (snd e) a end.

Lemma diffValues_objects path bm am :
  diffValues path (VObj bm) (VObj am) = (concat (map (keyPaths path am) bm) ++ added path bm am)%list.
Proof.
  cbn [diffValues]. f_equal. induction bm as [|[k b] bm IH]; [done|].
  cbn [map concat]. rewrite <-IH. reflexivity.
Qed.

Lemma in_added path bm am p :
  p ∈ added path bm am <->
  exists k a, (k, a) ∈ am /\ field k bm = None /\ serverOwnedPath (under path k) = false /\ p = under path k.
Proof.
  unfold added. rewrite list_elem_of_omap. split.
  - intros ([k a] & Hin & H). cbn [fst] in H. destruct (serverOwnedPath _) eqn:E; [done|]. destruct (field k bm) eqn:Ef; [done|].
    injection H as <-. by exists k, a.
  - intros (k & a & Hin & Hf & E & ->). exists (k, a). split; [done|]. cbn [fst]. by rewrite E, Hf.
Qed.

Lemma wf_entry m k v : wf_fields m = true -> (k, v) ∈ m -> field k m = Some v.
Proof.
  unfold wf_fields. cbn. intros [Hn%bool_decide_eq_true _]%andb_true_iff Hin.
  induction m as [|[a w] m IH]; [by apply not_elem_of_nil in Hin|]. cbn in Hn. apply NoDup_cons in Hn as [Ha Hn]. cbn.
  apply elem_of_cons in Hin as [[= <- <-]|Hin]; [by rewrite String.eqb_refl|].
  destruct (String.eqb_spec a k) as [->|]; [|by apply IH]. destruct Ha. apply list_elem_of_fmap. by exists (k, v).
Qed.

Lemma field_entry m k v : field k m = Some v -> (k, v) ∈ m.
Proof.
  induction m as [|[a w] m IH]; cbn; [done|]. destruct (String.eqb_spec a k) as [->|]; [intros [= <-]; left|].
  intros H. right. by apply IH.
Qed.

Lemma diffValues_differs b : forall a path p,
  wf b = true -> wf a = true -> (p ∈ diffValues path b a <-> differs path b a p).
Proof.
  assert (forall path b a p, match b, a with VObj _, VObj _ => False | _, _ => True end ->
            (p ∈ (if DeepEqual b a then [] else [path]) <-> differs path b a p)) as Hleaf.
  { intros path b0 a0 p Hs. destruct (DeepEqual b0 a0) eqn:E.
    - split; [by intros ?%not_elem_of_nil|]. intros H. exfalso. destruct H; try exact Hs. congruence.
    - rewrite list_elem_of_singleton. split; [intros ->; by constructor|]. intros H. by destruct H. }
  induction b as [b Hb|l _|bm IH] using value_induction; intros a path p Wb Wa.
  { destruct b; try (destruct (Hb)); by apply Hleaf. }
  { by apply Hleaf. }
  destruct a as [| | | | | |am]; try by apply Hleaf.
  rewrite diffValues_objects, elem_of_app, in_added. split.
  - intros [H|(k & a & Hin & Hf & E & ->)].
    + apply list_elem_of_In in H. apply in_concat in H as (l & Hm & H). apply in_map_iff in Hm as ([k b] & <- & Hin). apply list_elem_of_In in Hin, H.
      pose proof (wf_entry _ _ _ Wb Hin) as Hk. unfold keyPaths in H. cbn [fst snd] in H.
      destruct (serverOwnedPath _) eqn:E; [by apply not_elem_of_nil in H|]. destruct (field k am) as [a|] eqn:Ea.
      * eapply differs_under; [done..|]. rewrite Forall_forall in IH. apply (IH (k, b) Hin); [exact (wf_field bm _ _ Wb Hk)|exact (wf_field am _ _ Wa Ea)|done].
      * apply list_elem_of_singleton in H as ->. by eapply differs_removed.
    + eapply differs_added; [done| |done]. by apply wf_entry.
  - intros H. inversion H as [? ? ? Hs|? ? ? k b Hk Ha E|? ? ? k a Hk Ha E|? ? ? k b a ? Hk Ha E Hd]; subst; [done|left|right|left].
    + apply list_elem_of_In, in_concat. exists (keyPaths path am (k, b)). split; [apply in_map, list_elem_of_In; by apply field_entry|].
      unfold keyPaths. cbn [fst snd]. rewrite E, Ha. by left.
    + exists k, a. split_and!; [by apply field_entry|done..].
    + apply list_elem_of_In, in_concat. pose proof (field_entry _ _ _ Hk) as Hin. exists (keyPaths path am (k, b)).
      split; [by apply in_map, list_elem_of_In|]. unfold keyPaths. cbn [fst snd]. rewrite E, Ha. apply list_elem_of_In.
      rewrite Forall_forall in IH. apply (IH (k, b) Hin); [exact (wf_field bm _ _ Wb Hk)|exact (wf_field am _ _ Wa Ha)|done].
Qed.

Lemma DeepEqual_refl v : wf v = true -> DeepEqual v v = true.
Proof.
  induction v as [v Hv|l IH|m IH] using value_induction; intros W.
  - destruct v; try done; cbn; [by apply eqb_true_iff|apply Z.eqb_refl|apply String.eqb_refl|apply String.eqb_refl].
  - cbn in W |- *. induction l as [|x l IHl]; [done|]. cbn in W. apply andb_true_iff in W as [Wx Wl].
    apply Forall_cons in IH as [Hx Hl]. rewrite Hx by done. by apply IHl.
  - cbn [DeepEqual]. rewrite Nat.eqb_refl. cbn [andb].
    assert (forall e, e ∈ m -> field (fst e) m = Some (snd e) /\ DeepEqual (snd e) (snd e) = true) as H.
    { intros [k x] Hin. pose proof (wf_entry _ _ _ W Hin) as Hk. split; [done|]. rewrite Forall_forall in IH.
      apply (IH _ Hin). exact (wf_field m _ _ W Hk). }
    revert H. clear. generalize m at 1 4. intros m'. induction m' as [|[k x] m' IHm]; [done|]. intros H.
    destruct (H (k, x)) as [Hf Hd]; [left|]. cbn in Hf, Hd. rewrite Hf, Hd. apply IHm. intros e He. apply H. by right.
Qed.

Lemma differs_never path v p : wf v = true -> ~ differs path v v p.
Proof.
  intros W H. remember v as v' eqn:Ev in H at 2. induction H as [path b a _ Hd|? ? ? ? ? H1 H2|? ? ? ? ? H1 H2|path bm am k b a p H1 H2 _ _ IH].
  - subst. by rewrite DeepEqual_refl in Hd.
  - injection Ev as ->. congruence.
  - injection Ev as ->. congruence.
  - injection Ev as ->. rewrite H1 in H2. injection H2 as ->. apply IH; [exact (wf_field bm _ _ W H1)|done].
Qed.

(** What a re-apply reports as changed: the first paths, in order, of exactly those
    that differ outside of what the server owns; and nothing for an object that did
    not change. *)
Theorem changedPaths_spec (before after : fields) (limit : nat) :
  wf_fields before = true -> wf_fields after = true ->
  exists all,
    (forall p, p ∈ all <-> differs "" (VObj before) (VObj after) p)
    /\ Sorted string_le all
    /\ changedPaths before after limit = take limit all
    /\ (before = after -> changedPaths before after limit = []).
Proof.
  intros Wb Wa. exists (sort_strings (diffValues "" (VObj before) (VObj after))). split_and!.
  - intros p. rewrite sort_strings_perm. by apply diffValues_differs.
  - apply sort_strings_sorted.
  - done.
  - intros ->. unfold changedPaths. destruct (sort_strings _) as [|p l] eqn:E; [by rewrite take_nil|]. exfalso.
    apply (differs_never "" (VObj after) p Wa). apply diffValues_differs; [done..|]. rewrite <-sort_strings_perm, E. left.
Qed.

(** ** Concrete runs *)

#[local] Instance plan_le_dec : RelDecision plan_le.
Proof. intros x y. unfold plan_le. destruct (planCompare x y); [left|left|right]; by intros ?. Defined.

#[local] Instance plan_le_total : Total plan_le.
Proof.
  intros x y. unfold plan_le, planCompare. rewrite (Z.compare_antisym (pr_phase x)).
  set (g := ie_Group (pr_entry x)). set (g' := ie_Group (pr_entry y)). rewrite (String.compare_antisym g' g).
  set (k := ie_Kind (pr_entry x)). set (k' := ie_Kind (pr_entry y)). rewrite (String.compare_antisym k' k).
  set (n := ie_Name (pr_entry x)). set (n' := ie_Name (pr_entry y)). rewrite (String.compare_antisym n' n).
  destruct (pr_phase x ?= pr_phase y)%Z; cbn; [|by left|by right].
  destruct (String.compare g g'), (String.compare g' g); cbn; try (by left); try (by right).
  all: destruct (String.compare k k'), (String.compare k' k); cbn; try (by left); try (by right).
  all: destruct (String.compare n n'), (String.compare n' n); cbn; try (by left); by right.
Qed.

Definition wit_sort : list plannedResource -> list plannedResource := merge_sort plan_le.
Lemma wit_sort_perm l : wit_sort l ≡ₚ l.
Proof. apply merge_sort_Permutation. Qed.
Lemma wit_sort_sorted l : Sorted plan_le (wit_sort l).
Proof. apply Sorted_merge_sort, _. Qed.

(** A capture of a claim, a deployment and a manifest that is gone; the deployment
    exists in the target, and is gone at the second look after its deletion. *)
Definition wit_index : Index :=
  mkIndex 1 "c1" "team" "nightly" "v1.31" "2026" "3" false 3
    [mkIndexEntry "apps" "v1" "Deployment" "web" "d.yaml"; mkIndexEntry "" "v1" "PersistentVolumeClaim" "data" "p.yaml";
     mkIndexEntry "" "v1" "ConfigMap" "lost" "c.yaml"] [].
Definition wit_object (kind name : string) : fields :=
  [("kind", VStr kind); ("metadata", VObj [("name", VStr name); ("uid", VStr "u1"); ("finalizers", VArr [VStr "hold"])])].
Definition gone : gerr := mkErr ENotFound "not found".
Definition is_poll (e : deed) : bool := match ev_action e with DWaitPoll => true | _ => false end.
Definition wit_server : server dynI := fun past o =>
  match o with
  | DReadIndex _ => Ok (Ok wit_index)
  | DReadManifest _ path => if path =? "d.yaml" then Ok (wit_object "Deployment" "web")
                            else if path =? "p.yaml" then Ok (wit_object "PersistentVolumeClaim" "data") else Err (errorf "open: no such file")
  | DRESTMapping _ kind _ => Ok (kind, false)
  | DGet _ name => if (name =? "web") && negb (existsb is_poll past) then Ok (wit_object "Deployment" "web") else Err gone
  | DApply _ _ obj _ _ _ => Ok obj
  | DCreate _ _ _ _ => None
  | DDelete _ _ _ => None
  | DNow => (Z.of_nat (countb is_poll past) * deleteSettlePoll)%Z
  | DWaitPoll => None
  end.
Definition wit_opts : ApplyOptions := mkApplyOptions "/work" "team" ModeRecreate false None ∅ false.
Definition wit_apply := exec wit_server (Apply (A := plainAccessors) wit_sort 62 wit_opts) [].
Lemma wit_apply_runs : runs (Apply (A := plainAccessors) wit_sort 62 wit_opts) (fst wit_apply) (snd wit_apply).
Proof. apply exec_runs. Qed.
Definition wit_report : Report :=
  mkReport 2 1 [mkOutcome "" "ConfigMap" "lost" OutcomeFailed "open: no such file" []; mkOutcome "apps" "Deployment" "web" OutcomeRecreated "" []] 0.

(** A checker of the clock of a concrete run. *)
Fixpoint clock_from (t : Z) (tr : list deed) : bool :=
  match tr with
  | [] => true
  | e :: tr =>
      match e with
      | Ev DNow u => (t <=? u)%Z && clock_from t tr
      | Ev DWaitPoll None => clock_from (t + deleteSettlePoll) tr
      | _ => clock_from t tr
      end
  end.
Fixpoint clock_ok (tr : list deed) : bool :=
  match tr with
  | [] => true
  | e :: tr => match e with Ev DNow t => clock_from t tr | _ => true end && clock_ok tr
  end.

Lemma clock_from_spec mid : forall t u post,
  clock_from t (mid ++ Ev (I := dynI) DNow u :: post) = true -> (t + waits mid * deleteSettlePoll <= u)%Z.
Proof.
  induction mid as [|[o x] mid IH]; intros t u post H.
  - cbn [app clock_from] in H. apply andb_true_iff in H as [H%Z.leb_le _]. exact (Z.le_trans _ _ _ (Z.eq_le_incl _ _ (Z.add_0_r t)) H).
  - cbn [app] in H. assert (forall b, waits (Ev (I := dynI) o x :: mid) = (Z.of_nat b + waits mid)%Z ->
      clock_from (t + Z.of_nat b * deleteSettlePoll) (mid ++ Ev (I := dynI) DNow u :: post) = true ->
      (t + waits (Ev (I := dynI) o x :: mid) * deleteSettlePoll <= u)%Z) as Hb.
    { intros b -> Hc. apply IH in Hc. lia. }
    destruct o; cbn [clock_from] in H; try (apply (Hb 0); [reflexivity|by rewrite Z.add_0_r]).
    + apply andb_true_iff in H as [_ H]. apply (Hb 0); [reflexivity|by rewrite Z.add_0_r].
    + destruct x as [e|]; [apply (Hb 0); [reflexivity|by rewrite Z.add_0_r]|]. apply (Hb 1); [unfold waits; cbn [countb is_wait]; lia|]. exact H.
Qed.

Lemma clock_ok_spec tr : clock_ok tr = true -> clock_advances tr.
Proof.
  intros H pre t mid u post ->. induction pre as [|e pre IH]; cbn [app clock_ok] in H; apply andb_true_iff in H as [H1 H2]; [|by apply IH].
  by apply clock_from_spec in H1.
Qed.

Lemma wit_apply_result : snd wit_apply = Some (Ok wit_report).
Proof. vm_compute. reflexivity. Qed.

(** The concrete apply accounts for its three resources: two applied, one failed. *)
Lemma Apply_accounts_for_all_witness :
  exists idx, Ev (I := dynI) (DReadIndex "/work") (Ok (Ok idx)) ∈ fst wit_apply
    /\ (2 + 1 + 0 = Z.of_nat (List.length (ix_Resources idx)))%Z.
Proof.
  pose proof wit_apply_runs as H. rewrite wit_apply_result in H.
  destruct (Apply_accounts_for_all wit_sort wit_sort_perm _ _ _ _ H) as (idx & H1 & H2 & _). by exists idx.
Defined.

(** The claim's turn is before the deployment's. *)
Lemma Apply_takes_turns_witness :
  exists reading planned turns, fst wit_apply = (reading ++ concat turns)%list /\ Forall2 (turn wit_opts) planned turns
    /\ Sorted (fun x y => pr_phase x <= pr_phase y)%Z planned.
Proof.
  pose proof wit_apply_runs as H. rewrite wit_apply_result in H.
  destruct (Apply_takes_turns wit_sort wit_sort_perm wit_sort_sorted _ _ _ _ H) as (reading & planned & turns & H1 & _ & H2 & H3 & _).
  by exists reading, planned, turns.
Defined.

(** The concrete apply, whose clock is the number of its polls, ends. *)
Lemma Apply_returns_witness : clock_advances (fst wit_apply) /\ snd wit_apply <> None.
Proof.
  assert (clock_advances (fst wit_apply)) as Hc by (apply clock_ok_spec; vm_compute; reflexivity). split; [exact Hc|].
  eapply (Apply_returns wit_sort 62 wit_opts); [lia|exact wit_apply_runs|exact Hc].
Defined.

(** A replica count and a label that changed, a status that does not count. *)
Lemma changedPaths_spec_witness :
  let before := [("status", VInt 1); ("spec", VObj [("replicas", VInt 1); ("paused", VBool true)])] in
  let after := [("spec", VObj [("replicas", VInt 2)]); ("status", VInt 7)] in
  changedPaths before after MaxChangedPaths = ["spec.paused"; "spec.replicas"]
  /\ differs "" (VObj before) (VObj after) "spec.replicas".
Proof.
  intros before after. assert (changedPaths before after MaxChangedPaths = ["spec.paused"; "spec.replicas"]) as E by reflexivity.
  split; [exact E|]. destruct (changedPaths_spec before after MaxChangedPaths eq_refl eq_refl) as (all & Hd & _ & Ht & _).
  apply Hd. rewrite E in Ht. apply (subseteq_take MaxChangedPaths). rewrite <-Ht. right. left.
Defined.
