(* ===== verification/ManifestDump.v ===== *)
(** * ManifestDump: capturing a namespace, or the cluster, as a tree of manifests
    (internal/manifests: dump.go, cluster_dump.go, index.go)

    The two dumpers of the mover: each enumerates the resources discovery offers,
    pages through them, sanitises what it keeps, writes it and accounts for it in an
    index.  Discovery, the dynamic client and the disk are an interface; the YAML and
    JSON encoders are parameters; paging has a fuel, and [eachObject_returns] says
    how much. *)

From Stdlib Require Import Ascii String Sorted.
From stdpp Require Import sorting.
From S2P Require Import Prelude GoText Cluster Calendar MoverResult Restic Unstructured Sanitize ManifestSelection ManifestApply.
From S2P Require Import Program.

#[local] Open Scope string_scope.

(** ** What discovery and the client give *)

Record APIResource := mkAPIResource { ar_Name : string; ar_Kind : string; ar_Namespaced : bool; ar_Verbs : list string }.
Record APIResourceList := mkAPIResourceList { al_GroupVersion : string; al_APIResources : list APIResource }.
Record GVR := mkGVR { gvr_Group : string; gvr_Version : string; gvr_Resource : string }.

Inductive dump_action :=
| UMkdirAll (dir : string)
| UNow
| UServerVersion
| UPreferredResources                                                     (* the lists, if any, and an error *)
| UList (gvr : GVR) (namespace : option string) (limit : Z) (continue : string)
| UWriteFile (dir path : string) (body : string).

Definition dump_answer (o : dump_action) : Type :=
  match o with
  | UMkdirAll _ => option gerr
  | UNow => Z
  | UServerVersion => result string
  | UPreferredResources => (option (list (option APIResourceList)) * option gerr)%type
  | UList _ _ _ _ => result (list fields * string)
  | UWriteFile _ _ _ => option gerr
  end.

Definition dumpI : interface := mkInterface dump_action dump_answer.
Notation dumpP := (prog dumpI).
Notation look := (event dumpI).
Definition dump (o : dump_action) : dumpP (dump_answer o) := call (I := dumpI) o.

Definition DefaultPageSize : Z := 500.
Definition kindService : string := "Service".
Definition resourceService : string := "services".
Definition kindSecret : string := "Secret".
Definition servicesGVR : GVR := mkGVR "" "v1" resourceService.
Definition AnnotationSecretDataExcluded : string := "crystalbackup.io/secret-data-excluded".

(** ** The index *)

Definition compareEntries (a b : IndexEntry) : comparison := String.compare (ie_Path a) (ie_Path b).

Definition compareWarnings (a b : Warning) : comparison :=
  match String.compare (w_Group a) (w_Group b) with
  | Eq => match String.compare (w_Kind a) (w_Kind b) with Eq => String.compare (w_Message a) (w_Message b) | c => c end
  | c => c
  end.

Definition compareGVR (a b : GVR) : comparison :=
  match String.compare (gvr_Group a) (gvr_Group b) with
  | Eq => String.compare (gvr_Resource a) (gvr_Resource b)
  | c => c
  end.

Definition with_resources (idx : Index) (resources : list IndexEntry) (warnings : list Warning) (count : Z) : Index :=
  mkIndex (ix_FormatVersion idx) (ix_ClusterID idx) (ix_Namespace idx) (ix_BackupName idx) (ix_KubernetesVersion idx)
    (ix_CapturedAt idx) (ix_RulesetVersion idx) (ix_SecretDataExcluded idx) count resources warnings.

Definition add_warnings (l : list Warning) (idx : Index) : Index :=
  with_resources idx (ix_Resources idx) (ix_Warnings idx ++ l) (ix_ResourceCount idx).
Definition add_entries (l : list IndexEntry) (idx : Index) : Index :=
  with_resources idx (ix_Resources idx ++ l) (ix_Warnings idx) (ix_ResourceCount idx).
Definition set_version (v : string) (idx : Index) : Index :=
  mkIndex (ix_FormatVersion idx) (ix_ClusterID idx) (ix_Namespace idx) (ix_BackupName idx) v
    (ix_CapturedAt idx) (ix_RulesetVersion idx) (ix_SecretDataExcluded idx) (ix_ResourceCount idx) (ix_Resources idx) (ix_Warnings idx).

Section Dump.
Context {A : Accessors}.
(** [slices.SortFunc]: it leaves the order of equal elements open. *)
Variable SortFunc : forall T : Type, (T -> T -> comparison) -> list T -> list T.
Variables Quote : string -> string.
(** sigs.k8s.io/yaml and encoding/json on the values they are given. *)
Variable yamlMarshal : fields -> result string.
Variable MarshalIndent : Index -> result string.
(** apimachinery's [schema.ParseGroupVersion]. *)
Variable ParseGroupVersion : string -> result (string * string).
(** [filepath.Join] and [filepath.Dir]. *)
Variables (Join : string -> string -> string) (Dir : string -> string).

Definition sortStable (idx : Index) : Index :=
  with_resources idx (SortFunc _ compareEntries (ix_Resources idx)) (SortFunc _ compareWarnings (ix_Warnings idx)) (ix_ResourceCount idx).

(** [Index.Marshal]: the index is changed as well as rendered. *)
Definition IndexMarshal (idx : Index) : Index * result string :=
  let idx := sortStable idx in
  let idx := with_resources idx (ix_Resources idx) (ix_Warnings idx) (Z.of_nat (List.length (ix_Resources idx))) in
  (idx, match MarshalIndent idx with
        | Err e => Err (wrap_err "marshal index" e)
        | Ok b => Ok (b ++ String (ascii_of_nat 10) EmptyString)
        end).

(** [sanitize.Marshal]. *)
Definition Marshal (obj : option fields) : result string :=
  match obj with
  | None => Err (errorf "marshal: nil object")
  | Some obj => match yamlMarshal obj with
                | Err e => Err (wrap_err ("marshal " ++ gvk_kind obj ++ "/" ++ GetName obj) e)
                | Ok b => Ok b
                end
  end.

(** ** Paging *)

(** Calls [fn] on the items, until it fails. *)
Fixpoint eachItem {S} (fn : S -> fields -> dumpP (S * option gerr)) (items : list fields) (s : S) : dumpP (S * option gerr) :=
  match items with
  | [] => Done (s, None)
  | obj :: items =>
      let! r := fn s obj in
      match r with (s, None) => eachItem fn items s | (s, Some e) => Done (s, Some e) end
  end.

(** [None] is out of fuel. *)
Fixpoint pages {S} (fuel : nat) (list_page : string -> dumpP (result (list fields * string)))
    (fn : S -> fields -> dumpP (S * option gerr)) (continue : string) (s : S) : dumpP (option (S * option gerr)) :=
  match fuel with
  | O => Done None
  | S fuel =>
      let! page := list_page continue in
      match page with
      | Err e => Done (Some (s, Some e))
      | Ok (items, continue) =>
          let! r := eachItem fn items s in
          match r with
          | (s, Some e) => Done (Some (s, Some e))
          | (s, None) => if continue =? "" then Done (Some (s, None)) else pages fuel list_page fn continue s
          end
      end
  end.

Definition pageSize (PageSize : Z) : Z := if (0 <? PageSize)%Z then PageSize else DefaultPageSize.

Definition eachObject {S} (fuel : nat) (PageSize : Z) (gvr : GVR) (namespace : string)
    (fn : S -> fields -> dumpP (S * option gerr)) (s : S) : dumpP (option (S * option gerr)) :=
  pages fuel (fun continue => dump (UList gvr (Some namespace) (pageSize PageSize) continue)) fn "" s.

(** ** Enumeration *)

Definition keepResource (r : APIResource) : bool :=
  if negb (ar_Namespaced r) then false
  else if has_byte "/" (ar_Name r) then false
  else member (ar_Verbs r) "list" && member (ar_Verbs r) "get".

(** One discovery list: its resources, or a warning. *)
Definition enumerateList (keep : string -> APIResource -> bool) (acc : list GVR * list Warning) (l : option APIResourceList)
    : list GVR * list Warning :=
  match l with
  | None => acc
  | Some l =>
      match ParseGroupVersion (al_GroupVersion l) with
      | Err e =>
          (fst acc, snd acc ++ [mkWarning "" "" "" ("unparsable groupVersion " ++ Quote (al_GroupVersion l) ++ ": " ++ err_text e)])%list
      | Ok (g, v) => (fst acc ++ map (fun r => mkGVR g v (ar_Name r)) (List.filter (keep g) (al_APIResources l)), snd acc)%list
      end
  end.

Definition enumerateWith (keep : string -> APIResource -> bool) : dumpP (list GVR * list Warning) :=
  let! answer := dump UPreferredResources in
  match answer with
  | (None, Some e) => Done ([], [mkWarning "" "" "" ("resource discovery failed entirely: " ++ err_text e)])
  | (lists, err) =>
      let warnings := match err with Some e => [mkWarning "" "" "" ("partial resource discovery: " ++ err_text e)] | None => [] end in
      let '(out, warnings) := fold_left (enumerateList keep) (default [] lists) ([], warnings) in
      Done (SortFunc _ compareGVR out, warnings)
  end.

Definition enumerate : dumpP (list GVR * list Warning) := enumerateWith (fun _ => keepResource).

(** ** Capturing the objects of a namespace *)

Record DumpOptions := mkDumpOptions { do_Namespace : string; do_ClusterID : string; do_BackupName : string; do_ExcludeSecretData : bool }.

Definition stripSecretData (obj : fields) : fields :=
  if negb (gvk_kind obj =? kindSecret) || negb (gvk_group obj =? "") then obj
  else
    let obj := RemoveNestedField ["data"] obj in
    let obj := RemoveNestedField ["stringData"] obj in
    SetAnnotations (<[AnnotationSecretDataExcluded := "true"]> (default ∅ (GetAnnotations obj))) obj.

(** The names of the Services that have a selector, and the index with what could not be read. *)
Definition hasSelector (obj : fields) : bool :=
  match NestedMap ["spec"; "selector"] obj with Ok (Some m) => (0 <? List.length m)%nat | _ => false end.

Definition servicesWithSelector (fuel : nat) (PageSize : Z) (namespace : string) (idx : Index) : dumpP (option (list string * Index)) :=
  let! r := eachObject fuel PageSize servicesGVR namespace
              (fun out obj => Done ((if hasSelector obj then (GetName obj :: out)%list else out), None)) [] in
  match r with
  | None => Done None
  | Some (out, None) => Done (Some (out, idx))
  | Some (out, Some e) =>
      Done (Some (out, add_warnings
        [mkWarning "" "" kindService
           ("could not list Services to classify Endpoints (E4); hand-managed and control-plane-managed Endpoints are both captured: "
              ++ err_text e)] idx))
  end.

Notation captured := (list IndexEntry * list Warning)%type.

Definition warnOf (gvr : GVR) (obj : fields) (what : string) (e : gerr) : Warning :=
  mkWarning (gvr_Group gvr) (gvr_Version gvr) (gvk_kind obj) (what ++ " " ++ GetName obj ++ ": " ++ err_text e).

(** Renders an object and writes it where it belongs. *)
Definition store (gvr : GVR) (destDir : string) (s : captured) (obj clean : fields) : dumpP (captured * option gerr) :=
  match Marshal (Some clean) with
  | Err e => Done ((fst s, snd s ++ [warnOf gvr obj "marshal" e])%list, None)
  | Ok body =>
      let rel := StoragePath (gvk_group obj) (gvk_kind obj) (GetName obj) in
      let full := Join destDir rel in
      let! err := dump (UMkdirAll (Dir full)) in
      match err with
      | Some e => Done (s, Some (wrap_err ("create " ++ Dir full) e))
      | None =>
          let! err := dump (UWriteFile destDir rel body) in
          match err with
          | Some e => Done (s, Some (wrap_err ("write " ++ full) e))
          | None =>
              Done ((fst s ++ [mkIndexEntry (gvk_group obj) (gvk_version obj) (gvk_kind obj) (GetName obj) rel], snd s)%list, None)
          end
      end
  end.

Definition captureObject (rs : Ruleset) (gvr : GVR) (opts : DumpOptions) (withSelector : list string) (destDir : string)
    (s : captured) (obj : fields) : dumpP (captured * option gerr) :=
  match ShouldExclude (member withSelector) (Some obj) with
  | Some _ => Done (s, None)
  | None =>
      match Sanitize Quote rs (Some obj) with
      | Err e => Done ((fst s, snd s ++ [warnOf gvr obj "sanitize" e])%list, None)
      | Ok (clean, _) => store gvr destDir s obj (if do_ExcludeSecretData opts then stripSecretData clean else clean)
      end
  end.

Definition listFailed (gvr : GVR) (e : gerr) : Warning :=
  mkWarning (gvr_Group gvr) (gvr_Version gvr) (gvr_Resource gvr) ("list failed: " ++ err_text e).

(** What a resource adds to the index, the failure of its listing included. *)
Definition listed (gvr : GVR) (r : captured * option gerr) : captured :=
  match r with
  | (s, None) => s
  | (s, Some e) => (fst s, snd s ++ [listFailed gvr e])%list
  end.

Definition dumpResource (fuel : nat) (rs : Ruleset) (PageSize : Z) (gvr : GVR) (opts : DumpOptions) (withSelector : list string)
    (destDir : string) : dumpP (option captured) :=
  let! r := eachObject fuel PageSize gvr (do_Namespace opts) (captureObject rs gvr opts withSelector destDir) ([], []) in
  Done (option_map (listed gvr) r).

(** The resources one by one, into the index. *)
Fixpoint dumpResources (one : GVR -> dumpP (option captured)) (resources : list GVR) (idx : Index) : dumpP (option Index) :=
  match resources with
  | [] => Done (Some idx)
  | gvr :: resources =>
      let! r := one gvr in
      match r with
      | None => Done None
      | Some (entries, warnings) => dumpResources one resources (add_warnings warnings (add_entries entries idx))
      end
  end.

(** Rendering and writing the index. *)
Definition writeIndex (what destDir : string) (idx : Index) : dumpP (result Index) :=
  match IndexMarshal idx with
  | (_, Err e) => Done (Err e)
  | (idx, Ok raw) =>
      let! err := dump (UWriteFile destDir IndexFileName raw) in
      Done (match err with Some e => Err (wrap_err (what ++ ": write index") e) | None => Ok idx end)
  end.

Definition readVersion (idx : Index) : dumpP Index :=
  let! v := dump UServerVersion in
  Done (match v with
        | Err e => add_warnings [mkWarning "" "" "" ("could not read the server version: " ++ err_text e)] idx
        | Ok v => set_version v idx
        end).

Definition Dump (fuel : nat) (Sanitizer : option Ruleset) (PageSize : Z) (opts : DumpOptions) (destDir : string)
    : dumpP (option (result Index)) :=
  match Sanitizer with
  | None => Done (Some (Err (errorf "dump: no sanitizer")))
  | Some rs =>
      if do_Namespace opts =? "" then Done (Some (Err (errorf "dump: no namespace")))
      else
        let! err := dump (UMkdirAll destDir) in
        match err with
        | Some e => Done (Some (Err (wrap_err ("dump: create " ++ destDir) e)))
        | None =>
            let! now := dump UNow in
            let idx := mkIndex IndexFormatVersion (do_ClusterID opts) (do_Namespace opts) (do_BackupName opts) ""
                         (FormatRFC3339 now) (rs_Version rs) (do_ExcludeSecretData opts) 0 [] [] in
            let! idx := readVersion idx in
            let! found := enumerate in
            let idx := add_warnings (snd found) idx in
            let! services := servicesWithSelector fuel PageSize (do_Namespace opts) idx in
            match services with
            | None => Done None
            | Some (withSelector, idx) =>
                let! idx := dumpResources (fun gvr => dumpResource fuel rs PageSize gvr opts withSelector destDir) (fst found) idx in
                match idx with
                | None => Done None
                | Some idx => let! r := writeIndex "dump" destDir idx in Done (Some r)
                end
            end
        end
  end.

(** ** Capturing the cluster *)

Definition keepClusterResource (r : APIResource) : bool :=
  if ar_Namespaced r then false
  else if has_byte "/" (ar_Name r) then false
  else member (ar_Verbs r) "list" && member (ar_Verbs r) "get".

Definition cluster_enumerate (selector : ClusterSelector) : dumpP (list GVR * list Warning) :=
  enumerateWith (fun group r => keepClusterResource r && SelectsKind selector group (ar_Kind r)).

Definition cluster_eachObject {S} (fuel : nat) (PageSize : Z) (gvr : GVR)
    (fn : S -> fields -> dumpP (S * option gerr)) (s : S) : dumpP (option (S * option gerr)) :=
  pages fuel (fun continue => dump (UList gvr None (pageSize PageSize) continue)) fn "" s.

Definition cluster_captureObject (rs : Ruleset) (selector : ClusterSelector) (gvr : GVR) (destDir : string)
    (s : captured) (obj : fields) : dumpP (captured * option gerr) :=
  if negb (SelectsObject selector (gvk_group obj) (gvk_kind obj) (GetName obj)) then Done (s, None)
  else
    match Sanitize Quote rs (Some obj) with
    | Err e => Done ((fst s, snd s ++ [warnOf gvr obj "sanitize" e])%list, None)
    | Ok (clean, _) => store gvr destDir s obj clean
    end.

Definition cluster_dumpResource (fuel : nat) (rs : Ruleset) (selector : ClusterSelector) (PageSize : Z) (gvr : GVR) (destDir : string)
    : dumpP (option captured) :=
  let! r := cluster_eachObject fuel PageSize gvr (cluster_captureObject rs selector gvr destDir) ([], []) in
  Done (option_map (listed gvr) r).

Definition ClusterDump (fuel : nat) (Sanitizer : option Ruleset) (Selector : option ClusterSelector) (PageSize : Z)
    (ClusterID BackupName destDir : string) : dumpP (option (result Index)) :=
  match Sanitizer, Selector with
  | None, _ => Done (Some (Err (errorf "cluster dump: no sanitizer")))
  | _, None => Done (Some (Err (errorf "cluster dump: no selector")))
  | Some rs, Some selector =>
      let! err := dump (UMkdirAll destDir) in
      match err with
      | Some e => Done (Some (Err (wrap_err ("cluster dump: create " ++ destDir) e)))
      | None =>
          let! now := dump UNow in
          let idx := mkIndex IndexFormatVersion ClusterID "" BackupName "" (FormatRFC3339 now) (rs_Version rs) false 0 [] [] in
          let! idx := readVersion idx in
          let! found := cluster_enumerate selector in
          let idx := add_warnings (snd found) idx in
          let! idx := dumpResources (fun gvr => cluster_dumpResource fuel rs selector PageSize gvr destDir) (fst found) idx in
          match idx with
          | None => Done None
          | Some idx => let! r := writeIndex "cluster dump" destDir idx in Done (Some r)
          end
      end
  end.
End Dump.

(** ** Lemmas: paging *)

Lemma dump_runs o tr x : runs (dump o) tr x <-> tr = [Ev (I := dumpI) o x].
Proof. apply (runs_call (I := dumpI)). Qed.

(** Takes the first request, or sub-program, off the program of a hypothesis. *)
Ltac advance H :=
  lazymatch type of H with
  | runs (prog_bind _ _) _ _ =>
      let t1 := fresh "t" in let t2 := fresh "tr" in let a := fresh "x" in let H1 := fresh "R" in
      apply runs_bind in H as (t1 & t2 & a & -> & H1 & H); cbv beta in H;
      first [ apply dump_runs in H1; subst t1 | idtac ]
  | runs (Done _) _ _ => destruct H as [-> H]; try simplify_eq
  | runs (match ?x with _ => _ end) _ _ => let E := fresh "E" in destruct x eqn:E
  end.

Definition is_list (o : dump_action) : bool := match o with UList _ _ _ _ => true | _ => false end.

(** The object was in an answer of the server. *)
Definition offered (tr : list look) (obj : fields) : Prop :=
  exists gvr namespace limit c items next,
    Ev (I := dumpI) (UList gvr namespace limit c) (Ok (items, next)) ∈ tr /\ obj ∈ items.

Lemma offered_app tr tr' obj : offered tr obj -> offered (tr ++ tr') obj.
Proof. intros (g & n & l & c & items & x & H & Hi). exists g, n, l, c, items, x. split; [apply elem_of_app; by left|done]. Qed.

Section Paging.
Context {St : Type} (fn : St -> fields -> dumpP (St * option gerr)).
(** What holds after a trace of a state that has accounted for some objects. *)
Context (Inv : list look -> list fields -> St -> Prop).
Context (fn_inv : forall tr seen s obj t s' err, offered tr obj -> Inv tr seen s -> runs (fn s obj) t (s', err) ->
          Inv (tr ++ t) (match err with None => seen ++ [obj] | Some _ => seen end)%list s').
Context (list_inv : forall tr seen s (e : look), is_list (ev_action e) = true -> Inv tr seen s -> Inv (tr ++ [e]) seen s).
Context (fn_lists_nothing : forall s obj, only (fun o : action dumpI => is_list o = false) (fn s obj)).

Lemma eachItem_inv items : forall s tr seen t s' err,
  (forall obj, obj ∈ items -> offered tr obj) -> Inv tr seen s -> runs (eachItem fn items s) t (s', err) ->
  exists seen', Inv (tr ++ t) seen' s' /\ seen ⊆ seen' /\ (err = None -> items ⊆ seen')
    /\ Forall (fun e : look => is_list (ev_action e) = false) t.
Proof.
  induction items as [|obj items IH]; intros s tr seen t s' err Ho Hi H; cbn [eachItem] in H.
  - destruct H as [-> [= -> ->]]. exists seen. rewrite app_nil_r. split_and!; [done|done|intros _; set_solver|constructor].
  - advance H. pose proof (only_runs _ _ _ _ (fn_lists_nothing s obj) R) as Hq. destruct x as [s1 [e|]].
    + destruct H as [-> [= -> ->]]. rewrite app_nil_r. exists seen. split_and!; [|done|done|exact Hq].
      apply (fn_inv _ _ _ _ _ _ (Some e) (Ho obj ltac:(left)) Hi R).
    + apply (fn_inv _ _ _ _ _ _ None (Ho obj ltac:(left)) Hi) in R. destruct (IH s1 (tr ++ t0)%list _ _ _ _
        (fun o Hin => offered_app _ _ _ (Ho o (list_elem_of_further _ _ _ Hin))) R H) as (seen' & Hi' & Hs & Hn & Hq').
      exists seen'. rewrite app_assoc. split_and!; [done|set_solver|intros E; specialize (Hn E); set_solver|by apply Forall_app].
Qed.

Context (gvr : GVR) (namespace : option string) (limit : Z).
Notation list_page := (fun continue => dump (UList gvr namespace limit continue)).

Lemma pages_inv fuel : forall c s tr seen t s' err,
  Inv tr seen s -> runs (pages fuel list_page fn c s) t (Some (s', err)) ->
  exists seen', Inv (tr ++ t) seen' s' /\ seen ⊆ seen'
    /\ (exists x t', t = Ev (I := dumpI) (UList gvr namespace limit c) x :: t')
    /\ (forall e : look, e ∈ t -> is_list (ev_action e) = true -> exists c x, e = Ev (I := dumpI) (UList gvr namespace limit c) x
          /\ (err = None -> exists items next, x = Ok (items, next) /\ items ⊆ seen'
                /\ (next = "" \/ exists x', Ev (I := dumpI) (UList gvr namespace limit next) x' ∈ t))).
Proof.
  induction fuel as [|fuel IH]; intros c s tr seen t s' err Hi H; cbn [pages] in H; [by destruct H|]. advance H.
  apply (list_inv _ _ _ (Ev (I := dumpI) (UList gvr namespace limit c) x) eq_refl) in Hi.
  destruct x as [[items next]|e]; [|destruct H as [-> [= -> ->]]; exists seen; split_and!; [done|done|by eexists _, _|]].
  2: { intros e' He _. apply list_elem_of_singleton in He as ->. by eexists _, _. }
  advance H. destruct x as [s1 err1]. apply (eachItem_inv _ _ _ _ _ _ _
    (fun o Ho => ltac:(eexists _, _, _, _, _, _; split; [apply elem_of_app; right; left|exact Ho])) Hi) in R
    as (seen1 & Hi1 & Hs1 & Hn1 & Hq).
  assert (forall e : look, e ∈ t -> is_list (ev_action e) = true -> False) as Hno.
  { intros e He Hl. rewrite Forall_forall in Hq. specialize (Hq e He). cbv beta in Hq. congruence. }
  rewrite <-app_assoc in Hi1. destruct err1 as [e|]; [|destruct (next =? "") eqn:En; [apply String.eqb_eq in En|]].
  - destruct H as [-> [= -> ->]]. exists seen1. rewrite app_nil_r. split_and!; [done|done|by eexists _, _|].
    intros e' He Hl. apply elem_of_cons in He as [->|He]; [by eexists _, _|by destruct (Hno e' He)].
  - destruct H as [-> [= -> ->]]. exists seen1. rewrite app_nil_r. split_and!; [done|done|by eexists _, _|].
    intros e' He Hl. apply elem_of_cons in He as [->|He]; [|by destruct (Hno e' He)].
    eexists _, _. split; [done|]. intros _. exists items, next. split_and!; [done|by apply Hn1|by left].
  - destruct (IH next s1 _ _ _ _ _ Hi1 H) as (seen' & Hi' & Hs' & (y & t' & ->) & Hl').
    exists seen'. rewrite <-app_assoc in Hi'. split_and!; [done|set_solver|by eexists _, _|].
    intros e' He Hl. apply elem_of_cons in He as [->|He].
    + eexists _, _. split; [done|]. intros ->. exists items, next. specialize (Hn1 eq_refl).
      split_and!; [done|set_solver|right]. exists y. right. apply elem_of_app. right. left.
    + apply elem_of_app in He as [He|He]; [by destruct (Hno e' He)|].
      destruct (Hl' e' He Hl) as (c' & x' & -> & Hx'). exists c', x'. split; [done|]. intros E.
      destruct (Hx' E) as (items' & next' & -> & Hsub & Hnext). exists items', next'. split_and!; [done|done|].
      destruct Hnext as [Hnext|[z Hz]]; [by left|right]. exists z. right. apply elem_of_app. by right.
Qed.
End Paging.

(** ** Lemmas: what one object becomes *)

Section Facts.
Context {A : Accessors}.
Context (SortFunc : forall T : Type, (T -> T -> comparison) -> list T -> list T).
Context (Quote : string -> string) (yamlMarshal : fields -> result string) (MarshalIndent : Index -> result string).
Context (ParseGroupVersion : string -> result (string * string)) (Join : string -> string -> string) (Dir : string -> string).

Notation Marshal := (Marshal yamlMarshal).
Notation captured := (list IndexEntry * list Warning)%type.

(** The entry of an object. *)
Definition entryOf (obj : fields) : IndexEntry :=
  mkIndexEntry (gvk_group obj) (gvk_version obj) (gvk_kind obj) (GetName obj)
    (StoragePath (gvk_group obj) (gvk_kind obj) (GetName obj)).

(** What both dumpers do with an object: they differ in what they skip and in what
    they finish a sanitised object with. *)
Definition capture (skip : fields -> bool) (finish : fields -> fields) (rs : Ruleset) (gvr : GVR) (destDir : string)
    (s : captured) (obj : fields) : dumpP (captured * option gerr) :=
  if skip obj then Done (s, None)
  else
    match Sanitize Quote rs (Some obj) with
    | Err e => Done ((fst s, snd s ++ [warnOf gvr obj "sanitize" e])%list, None)
    | Ok (clean, _) => store yamlMarshal Join Dir gvr destDir s obj (finish clean)
    end.

Section Capture.
Context (skip : fields -> bool) (finish : fields -> fields) (rs : Ruleset) (destDir : string).

(** [body] is what the object is stored as. *)
Definition stored_as (obj : fields) (body : string) : Prop :=
  skip obj = false /\ exists clean res, Sanitize Quote rs (Some obj) = Ok (clean, res) /\ Marshal (Some (finish clean)) = Ok body.

(** A write is of an object the server gave, where the object belongs. *)
Definition write_ok (tr : list look) (e : look) : Prop :=
  match ev_action e with
  | UWriteFile dir path body =>
      dir = destDir /\ exists obj, offered tr obj /\ path = ie_Path (entryOf obj) /\ stored_as obj body
  | _ => True
  end.

(** An entry has its manifest on the disk. *)
Definition filed (tr : list look) (e : IndexEntry) : Prop :=
  exists obj body, e = entryOf obj /\ offered tr obj /\ stored_as obj body
    /\ Ev (I := dumpI) (UWriteFile destDir (ie_Path e) body) None ∈ tr.

(** An object is skipped, in the index, or in a warning. *)
Definition settled_in (gvr : GVR) (obj : fields) (entries : list IndexEntry) (warnings : list Warning) : Prop :=
  skip obj = true \/ entryOf obj ∈ entries \/ exists what e, warnOf gvr obj what e ∈ warnings.

Definition capture_inv (gvr : GVR) (tr : list look) (seen : list fields) (s : captured) : Prop :=
  (forall obj, obj ∈ seen -> settled_in gvr obj (fst s) (snd s))
  /\ (forall e, e ∈ fst s -> filed tr e)
  /\ (forall e, e ∈ tr -> write_ok tr e).

Lemma write_ok_app tr tr' e : write_ok tr e -> write_ok (tr ++ tr')%list e.
Proof.
  unfold write_ok. destruct (ev_action e); try done. intros (-> & obj & Ho & H). split; [done|]. exists obj. split; [by apply offered_app|done].
Qed.

Lemma filed_app tr tr' e : filed tr e -> filed (tr ++ tr')%list e.
Proof.
  intros (obj & body & He & Ho & Hs & Hw). exists obj, body. split_and!; [done|by apply offered_app|done|]. apply elem_of_app. by left.
Qed.

Lemma writes_app tr tr' : (forall e, e ∈ tr -> write_ok tr e) -> (forall e, e ∈ tr' -> write_ok (tr ++ tr')%list e) ->
  forall e, e ∈ (tr ++ tr')%list -> write_ok (tr ++ tr')%list e.
Proof. intros H1 H2 e [He|He]%elem_of_app; [by apply write_ok_app, H1|by apply H2]. Qed.

Lemma settled_more gvr obj l w l' w' : settled_in gvr obj l w -> l ⊆ l' -> w ⊆ w' -> settled_in gvr obj l' w'.
Proof.
  intros [H|[H|(what & e & H)]] Hl Hw; [by left|right; left; by apply Hl|right; right]. exists what, e. by apply Hw.
Qed.

Lemma capture_inv_quiet gvr tr seen s t :
  capture_inv gvr tr seen s -> (forall e : look, e ∈ t -> match ev_action e with UWriteFile _ _ _ => False | _ => True end) ->
  capture_inv gvr (tr ++ t)%list seen s.
Proof.
  intros (H1 & H2 & H3) Ht. split_and!; [done|intros e He; by apply filed_app, H2|]. apply writes_app; [done|].
  intros e He. specialize (Ht e He). unfold write_ok. by destruct (ev_action e).
Qed.

Lemma capture_inv_list gvr tr seen s (e : look) :
  is_list (ev_action e) = true -> capture_inv gvr tr seen s -> capture_inv gvr (tr ++ [e])%list seen s.
Proof.
  intros He H. apply capture_inv_quiet; [done|]. intros e' He'. apply list_elem_of_singleton in He' as ->. by destruct (ev_action e).
Qed.

(** One more object is settled. *)
Lemma capture_inv_settle gvr tr seen s s' obj :
  capture_inv gvr tr seen s -> fst s ⊆ fst s' -> snd s ⊆ snd s' -> settled_in gvr obj (fst s') (snd s') ->
  (forall e, e ∈ fst s' -> e ∈ fst s \/ filed tr e) -> capture_inv gvr tr (seen ++ [obj])%list s'.
Proof.
  intros (H1 & H2 & H3) Hl Hw Ho Hn. split_and!; [|intros e He; destruct (Hn e He); auto|done].
  intros o [H|H]%elem_of_app; [|by apply list_elem_of_singleton in H as ->]. by eapply settled_more; [apply H1|..].
Qed.

Lemma capture_warn gvr tr seen s obj what e :
  capture_inv gvr tr seen s -> capture_inv gvr tr (seen ++ [obj])%list (fst s, snd s ++ [warnOf gvr obj what e])%list.
Proof.
  intros H. eapply capture_inv_settle; [exact H|done|cbn; set_solver| |by left]. right. right. exists what, e. cbn. set_solver.
Qed.

Lemma capture_keeps gvr tr seen s obj t s' err :
  offered tr obj -> capture_inv gvr tr seen s -> runs (capture skip finish rs gvr destDir s obj) t (s', err) ->
  capture_inv gvr (tr ++ t)%list (match err with None => seen ++ [obj] | Some _ => seen end)%list s'.
Proof.
  intros Ho Hi H. unfold capture in H. destruct (skip obj) eqn:Es.
  { destruct H as [-> [= -> ->]]. rewrite app_nil_r. eapply capture_inv_settle; [exact Hi|done..|by left|by left]. }
  destruct (Sanitize _ _ _) as [[clean res]|e] eqn:Ec; [|destruct H as [-> [= -> ->]]; rewrite app_nil_r; by apply capture_warn].
  unfold store in H. destruct (Marshal _) as [body|e] eqn:Em; [|destruct H as [-> [= -> ->]]; rewrite app_nil_r; by apply capture_warn].
  assert (stored_as obj body) as Hs by (split; [done|]; by exists clean, res). advance H. destruct x as [e|].
  { destruct H as [-> [= -> ->]]. rewrite app_nil_r. apply capture_inv_quiet; [done|]. intros e' He'. by apply list_elem_of_singleton in He' as ->. }
  advance H. set (t1 := [Ev (I := dumpI) (UMkdirAll (Dir (Join destDir (ie_Path (entryOf obj))))) None;
               Ev (I := dumpI) (UWriteFile destDir (ie_Path (entryOf obj)) body) x]).
  assert (forall seen s, capture_inv gvr tr seen s -> capture_inv gvr (tr ++ t1)%list seen s) as Hgo.
  { intros l s0 (H1 & H2 & H3). split_and!; [done|intros e He; by apply filed_app, H2|]. apply writes_app; [done|].
    intros e [->|He]%elem_of_cons; [done|]. apply list_elem_of_singleton in He as ->. split; [done|]. exists obj. by split_and!; [apply offered_app|..]. }
  destruct x as [e|]; destruct H as [-> [= -> ->]]; rewrite app_nil_r.
  - by apply Hgo.
  - eapply capture_inv_settle; [by apply Hgo|cbn; set_solver|done|right; left; cbn; set_solver|].
    intros e [He|He]%elem_of_app; [by left|right]. apply list_elem_of_singleton in He as ->. exists obj, body.
    split_and!; [done|by apply offered_app|done|]. apply elem_of_app. right. right. left.
Qed.

Lemma capture_lists_nothing gvr s obj : only (fun o : action dumpI => is_list o = false) (capture skip finish rs gvr destDir s obj).
Proof.
  unfold capture, store. destruct (skip obj); [exact I|]. destruct (Sanitize _ _ _) as [[clean res]|e]; [|exact I].
  destruct (Marshal _) as [body|e]; [|exact I]. unfold dump. apply only_bind; [by apply only_call|]. intros [e|]; [exact I|].
  apply only_bind; [by apply only_call|]. by intros [e|].
Qed.
End Capture.

(** ** Lemmas: a resource, and all of them *)

Section Resources.
Context (skip : fields -> bool) (finish : fields -> fields) (rs : Ruleset) (destDir : string).
Context (namespace : option string) (limit : Z) (fuel : nat).
Context (fn : GVR -> captured -> fields -> dumpP (captured * option gerr)).
Context (fn_captures : forall gvr s obj, fn gvr s obj = capture skip finish rs gvr destDir s obj).

Definition accounted_in (idx : Index) (gvr : GVR) (obj : fields) : Prop :=
  settled_in skip gvr obj (ix_Resources idx) (ix_Warnings idx) \/ exists e, listFailed gvr e ∈ ix_Warnings idx.

Notation writes tr := (forall e, e ∈ tr -> write_ok skip finish rs destDir tr e).
Notation entries_filed tr l := (forall e, e ∈ l -> filed skip finish rs destDir tr e).

(** The page after one is asked for, unless there is none or the kind is reported unread. *)
Definition followed (t : list look) (gvr : GVR) (next : string) (w : list Warning) : Prop :=
  next = "" \/ (exists x, Ev (I := dumpI) (UList gvr namespace limit next) x ∈ t) \/ exists e, listFailed gvr e ∈ w.

(** The capture of one resource, in either dumper. *)
Definition captureAll (gvr : GVR) : dumpP (option captured) :=
  let! r := pages fuel (fun continue => dump (UList gvr namespace limit continue)) (fn gvr) "" ([], []) in
  Done (option_map (listed gvr) r).

Lemma captureAll_inv gvr tr t l w :
  runs (captureAll gvr) t (Some (l, w)) -> writes tr ->
  writes (tr ++ t)%list /\ entries_filed (tr ++ t)%list l
  /\ (exists x, Ev (I := dumpI) (UList gvr namespace limit "") x ∈ t)
  /\ (forall e : look, e ∈ t -> is_list (ev_action e) = true -> exists c x, e = Ev (I := dumpI) (UList gvr namespace limit c) x
        /\ forall items next, x = Ok (items, next) -> followed t gvr next w
             /\ forall obj, obj ∈ items -> settled_in skip gvr obj l w \/ exists e, listFailed gvr e ∈ w).
Proof.
  intros H Hw. unfold captureAll in H. advance H. destruct H as [-> H]. rewrite app_nil_r.
  destruct x as [[[l0 w0] err]|]; [|done]. cbn [option_map] in H.
  assert (capture_inv skip finish rs destDir gvr tr [] ([], [])) as Hi.
  { split_and!; [by intros ? ?%not_elem_of_nil|by intros ? ?%not_elem_of_nil|done]. }
  destruct (pages_inv (fn gvr) (capture_inv skip finish rs destDir gvr)
    ltac:(intros tr0 seen0 s0 obj0 u s1 e0 Ho0 Hi0 Hr0; rewrite fn_captures in Hr0; by eapply capture_keeps) (capture_inv_list skip finish rs destDir gvr)
    ltac:(intros ??; rewrite fn_captures; apply capture_lists_nothing) _ _ _ _ _ _ _ _ _ _ _ Hi R)
    as (seen & (H1 & H2 & H3) & _ & (x & t' & ->) & Hl).
  split_and!; [done| |by exists x; left|].
  - destruct err as [e|]; injection H as -> ->; exact H2.
  - intros e He Hil. destruct (Hl e He Hil) as (c & y & -> & Hy). exists c, y. split; [done|]. intros items next ->.
    destruct err as [e|]; injection H as -> ->.
    + assert (listFailed gvr e ∈ (w0 ++ [listFailed gvr e])%list) as Hf by (apply elem_of_app; right; left).
      split; [right; right; by exists e|]. intros obj _. right. by exists e.
    + destruct (Hy eq_refl) as (items' & next' & [= <- <-] & Hs & Hn). split; [destruct Hn; [by left|right; by left]|].
      intros obj Ho. left. by apply H1, Hs.
Qed.

Lemma accounted_more idx idx' gvr obj :
  accounted_in idx gvr obj -> ix_Resources idx ⊆ ix_Resources idx' -> ix_Warnings idx ⊆ ix_Warnings idx' -> accounted_in idx' gvr obj.
Proof. intros [H|[e H]] Hr Hw; [left; by eapply settled_more|right; exists e; by apply Hw]. Qed.

Lemma dumpResources_inv (one : GVR -> dumpP (option captured)) resources :
  (forall gvr, one gvr = captureAll gvr) -> forall idx tr t idx',
  runs (dumpResources one resources idx) t (Some idx') -> writes tr -> entries_filed tr (ix_Resources idx) ->
  writes (tr ++ t)%list /\ entries_filed (tr ++ t)%list (ix_Resources idx')
  /\ ix_Resources idx ⊆ ix_Resources idx' /\ ix_Warnings idx ⊆ ix_Warnings idx'
  /\ (forall gvr, gvr ∈ resources -> exists x, Ev (I := dumpI) (UList gvr namespace limit "") x ∈ t)
  /\ (forall e : look, e ∈ t -> is_list (ev_action e) = true -> exists gvr c x,
        gvr ∈ resources /\ e = Ev (I := dumpI) (UList gvr namespace limit c) x
        /\ forall items next, x = Ok (items, next) -> followed t gvr next (ix_Warnings idx')
             /\ forall obj, obj ∈ items -> accounted_in idx' gvr obj).
Proof.
  intros Hone. induction resources as [|gvr resources IH]; intros idx tr t idx' H Hw Hf; cbn [dumpResources] in H.
  - destruct H as [-> [= ->]]. rewrite app_nil_r. split_and!; try done; intros ? []%not_elem_of_nil.
  - rewrite Hone in H. advance H. destruct x as [[l w]|]; [|by destruct H].
    apply (captureAll_inv _ tr) in R as (Hw1 & Hf1 & [x1 Hx1] & Hl1); [|done].
    destruct (IH (add_warnings w (add_entries l idx)) (tr ++ t0)%list _ _ H Hw1) as (Hw2 & Hf2 & Hr & Hs & Hg & Hl2).
    { intros e [He|He]%elem_of_app; [by apply filed_app, Hf|by apply Hf1]. }
    cbn in Hr, Hs. rewrite <-app_assoc in Hw2, Hf2. split_and!; [done|done|set_solver|set_solver| |].
    + intros g [->|Hin]%elem_of_cons; [exists x1; apply elem_of_app; by left|]. destruct (Hg g Hin) as [x Hx]. exists x.
      apply elem_of_app. by right.
    + intros e [He|He]%elem_of_app Hil.
      * destruct (Hl1 e He Hil) as (c & x & -> & Hx). exists gvr, c, x. split_and!; [left|done|]. intros items next E.
        destruct (Hx items next E) as [Hn Hobj]. split.
        { destruct Hn as [Hn|[[y Hy]|[e Hy]]]; [by left|right; left; exists y; apply elem_of_app; by left|].
          right. right. exists e. apply Hs, elem_of_app. by right. }
        intros obj Ho. apply (accounted_more (add_warnings w (add_entries l idx))); [|done..].
        destruct (Hobj obj Ho) as [Hy|[e Hy]]; [left; eapply settled_more; [exact Hy|cbn; set_solver..]|].
        right. exists e. cbn. set_solver.
      * destruct (Hl2 e He Hil) as (g & c & x & Hg2 & -> & Hx). exists g, c, x. split_and!; [by right|done|].
        intros items next E. destruct (Hx items next E) as [[Hn|[[y Hy]|Hn]] Hobj]; (split; [|exact Hobj]).
        { by left. }
        { right. left. exists y. apply elem_of_app. by right. }
        { by right; right. }
Qed.
End Resources.

(** ** Lemmas: the enumeration and the pre-pass *)

Context (Sort_perm : forall T cmp l, SortFunc T cmp l ≡ₚ l).

(** Discovery names the resource, in a group and version that can be told, and it is wanted. *)
Definition discovered (keep : string -> APIResource -> bool) (lists : list (option APIResourceList)) (gvr : GVR) : Prop :=
  exists l r, Some l ∈ lists /\ ParseGroupVersion (al_GroupVersion l) = Ok (gvr_Group gvr, gvr_Version gvr)
    /\ r ∈ al_APIResources l /\ keep (gvr_Group gvr) r = true /\ gvr_Resource gvr = ar_Name r.

Lemma enumerateLists_spec keep lists : forall acc,
  let r := fold_left (enumerateList Quote ParseGroupVersion keep) lists acc in
  (forall gvr, gvr ∈ fst r <-> gvr ∈ fst acc \/ discovered keep lists gvr) /\ snd acc ⊆ snd r.
Proof.
  induction lists as [|o lists IH]; intros acc; cbn [fold_left].
  - cbn. split; [|done]. intros gvr. split; [by left|]. intros [H|(l & r & H & _)]; [done|by apply not_elem_of_nil in H].
  - destruct (IH (enumerateList Quote ParseGroupVersion keep acc o)) as [H1 H2]. split.
    + intros gvr. rewrite H1. clear H1 H2 IH.
      assert (discovered keep (o :: lists) gvr <-> discovered keep [o] gvr \/ discovered keep lists gvr) as ->.
      { unfold discovered. setoid_rewrite elem_of_cons. setoid_rewrite elem_of_nil. naive_solver. }
      assert (gvr ∈ fst (enumerateList Quote ParseGroupVersion keep acc o) <-> gvr ∈ fst acc \/ discovered keep [o] gvr) as ->; [|tauto].
      unfold enumerateList, discovered. setoid_rewrite list_elem_of_singleton. destruct o as [l|]; [|naive_solver].
      destruct (ParseGroupVersion _) as [[g v]|e] eqn:E; cbn [fst];
        [|split; [by left|intros [H|(l' & r & [= <-] & E' & _)]; [done|congruence]]]. rewrite elem_of_app, list_elem_of_fmap. split.
      * intros [H|(r & -> & H)]; [by left|right]. apply list_elem_of_In, filter_In in H as [H Hk]. exists l, r.
        split_and!; [done|exact E|by apply list_elem_of_In|exact Hk|done].
      * intros [H|(l' & r & [= <-] & E' & Hr & Hk & Hn)]; [by left|right]. rewrite E in E'. injection E' as -> ->.
        exists r. split; [destruct gvr; cbn in *; by rewrite Hn|]. apply list_elem_of_In, filter_In. by split; [apply list_elem_of_In|].
    + intros w Hw. apply H2. unfold enumerateList. destruct o as [l|]; [|done]. destruct (ParseGroupVersion _) as [[g v]|e]; [done|].
      cbn. set_solver.
Qed.

Lemma enumerateWith_spec keep tr found warnings :
  runs (enumerateWith SortFunc Quote ParseGroupVersion keep) tr (found, warnings) ->
  exists lists err, tr = [Ev (I := dumpI) UPreferredResources (lists, err)]
    /\ (forall gvr, gvr ∈ found <-> discovered keep (default [] lists) gvr)
    /\ (is_Some err -> warnings <> []).
Proof.
  intros H. unfold enumerateWith in H. advance H. destruct x as [lists err]. exists lists, err.
  assert (forall l w0, fold_left (enumerateList Quote ParseGroupVersion keep) (default [] lists) ([], w0) = (l, warnings) ->
    found = SortFunc _ compareGVR l -> (is_Some err -> w0 <> []) ->
    (forall gvr, gvr ∈ found <-> discovered keep (default [] lists) gvr) /\ (is_Some err -> warnings <> [])) as Hgo.
  { intros l w0 E -> Hw. destruct (enumerateLists_spec keep (default [] lists) ([], w0)) as [H1 H2]. rewrite E in H1, H2. cbn in H1, H2.
    split; [intros gvr; rewrite Sort_perm, H1; set_solver|]. intros Hs Hn. apply (Hw Hs). destruct w0 as [|w w0]; [done|].
    rewrite Hn in H2. exfalso. by apply (not_elem_of_nil w), H2; left. }
  destruct lists as [lists|].
  - destruct (fold_left _ _ _) as [l w] eqn:E. destruct H as [-> [= -> ->]]. rewrite app_nil_r. split; [done|].
    apply (Hgo _ _ E eq_refl). by intros [e ->].
  - destruct err as [e|].
    + destruct H as [-> [= -> ->]]. split; [done|]. split; [|done]. intros gvr. split; [by intros ?%not_elem_of_nil|].
      intros (l & r & H & _). by apply not_elem_of_nil in H.
    + destruct (fold_left _ _ _) as [l w] eqn:E. destruct H as [-> [= -> ->]]. rewrite app_nil_r. split; [done|].
      apply (Hgo _ _ E eq_refl). by intros [? ?].
Qed.

(** What a listing gave. *)
Definition itemsOf (e : look) : list fields :=
  match e with Ev (UList _ _ _ _) (Ok (items, _)) => items | _ => [] end.

(** The names are of Services that have a selector; all of them, when they could be listed. *)
Definition selecting (tr : list look) (names : list string) : Prop :=
  forall n, n ∈ names -> exists obj, offered tr obj /\ hasSelector obj = true /\ n = GetName obj.

Lemma servicesWithSelector_spec fuel ps namespace idx tr names idx' :
  runs (servicesWithSelector fuel ps namespace idx) tr (Some (names, idx')) ->
  selecting tr names
  /\ ((forall obj, offered tr obj -> hasSelector obj = true -> GetName obj ∈ names) \/ exists w, w ∈ ix_Warnings idx' /\ w_Kind w = kindService)
  /\ ix_Resources idx' = ix_Resources idx /\ ix_Warnings idx ⊆ ix_Warnings idx'
  /\ forall e : look, e ∈ tr -> exists c x, e = Ev (I := dumpI) (UList servicesGVR (Some namespace) (pageSize ps) c) x.
Proof.
  intros H. unfold servicesWithSelector in H. advance H.
  set (fn := fun out obj => Done (I := dumpI) ((if hasSelector obj then (GetName obj :: out)%list else out), @None gerr)) in R.
  set (Inv := fun (tr : list look) (seen : list fields) (out : list string) =>
    selecting tr out /\ (forall obj, obj ∈ seen -> hasSelector obj = true -> GetName obj ∈ out)
    /\ Forall (fun e : look => is_list (ev_action e) = true) tr).
  assert (forall tr seen s obj t s' err, offered tr obj -> Inv tr seen s -> runs (fn s obj) t (s', err) ->
    Inv (tr ++ t)%list (match err with None => seen ++ [obj] | Some _ => seen end)%list s') as Hfn.
  { intros tr seen s obj u s' err Ho (H1 & H2 & H3) [-> [= -> ->]]. rewrite app_nil_r. split_and!; [| |done].
    - intros n Hn. destruct (hasSelector obj) eqn:E; [|by apply H1]. apply elem_of_cons in Hn as [->|Hn]; [by exists obj|by apply H1].
    - intros o [Hin|Hin]%elem_of_app Hs; [specialize (H2 o Hin Hs); destruct (hasSelector obj); [by right|done]|].
      apply list_elem_of_singleton in Hin as ->. rewrite Hs. left. }
  assert (forall tr seen s (e : look), is_list (ev_action e) = true -> Inv tr seen s -> Inv (tr ++ [e])%list seen s) as Hls.
  { intros tr seen s e He (H1 & H2 & H3). split_and!; [|done|apply Forall_app; split; [done|by repeat constructor]]. intros n Hn.
    destruct (H1 n Hn) as (obj & Ho & ?). exists obj. split; [by apply offered_app|done]. }
  destruct x as [[out err]|]; [|by destruct H].
  destruct (pages_inv fn Inv Hfn Hls (fun s obj => I) _ _ _ _ _ _ [] [] _ _ _ (conj (fun n Hn => match not_elem_of_nil n Hn with end)
    (conj (fun o Hn => match not_elem_of_nil o Hn with end) (Forall_nil_2 _))) R) as (seen & (H1 & H2 & H3) & _ & _ & Hl).
  cbn [app] in H1, H3.
  assert (forall e : look, e ∈ t -> exists c x, e = Ev (I := dumpI) (UList servicesGVR (Some namespace) (pageSize ps) c) x) as Hall.
  { intros e He. rewrite Forall_forall in H3. destruct (Hl e He (H3 e He)) as (c & x & -> & _). by exists c, x. }
  destruct err as [e|]; destruct H as [-> [= -> ->]]; rewrite app_nil_r.
  - split_and!; [done| |done|cbn; set_solver|done]. right. eexists. split; [apply elem_of_app; right; left|done].
  - split_and!; [done| |done|done|done]. left. intros obj (g & n & l & c & items & nx & Hin & Ho) Hs. apply H2; [|done].
    destruct (Hl _ Hin eq_refl) as (c' & x & E & Hx). destruct (Hx eq_refl) as (items' & nx' & -> & Hsub).
    apply (f_equal itemsOf) in E. cbn in E. subst items'. by apply Hsub.
Qed.

(** ** The dump of a namespace *)

Context (Sort_sorted : forall T cmp l, ordering cmp -> Sorted (fun x y => cmp x y <> Gt) (SortFunc T cmp l)).

Notation dumpOf := (Dump SortFunc Quote yamlMarshal MarshalIndent ParseGroupVersion Join Dir).
Notation clusterDumpOf := (ClusterDump SortFunc Quote yamlMarshal MarshalIndent ParseGroupVersion Join Dir).

Definition skipped (withSelector : list string) (obj : fields) : bool :=
  match ShouldExclude (member withSelector) (Some obj) with Some _ => true | None => false end.
Definition finished (opts : DumpOptions) (clean : fields) : fields :=
  if do_ExcludeSecretData opts then stripSecretData clean else clean.

Lemma captureObject_captures rs opts ws dir gvr s obj :
  captureObject Quote yamlMarshal Join Dir rs gvr opts ws dir s obj = capture (skipped ws) (finished opts) rs gvr dir s obj.
Proof. unfold captureObject, capture, skipped, finished. by destruct (ShouldExclude _ _). Qed.

(** The index says what the disk holds: its entries are in order and counted, and
    each has its manifest written; a write is the index or an object the server
    gave, sanitised, where it belongs. *)
Definition faithful (skip : fields -> bool) (finish : fields -> fields) (rs : Ruleset) (destDir : string)
    (tr : list look) (idx : Index) : Prop :=
  (forall e, e ∈ ix_Resources idx -> filed skip finish rs destDir tr e)
  /\ Sorted (fun x y => string_le (ie_Path x) (ie_Path y)) (ix_Resources idx)
  /\ ix_ResourceCount idx = Z.of_nat (List.length (ix_Resources idx))
  /\ exists before text, MarshalIndent idx = Ok text
       /\ tr = (before ++ [Ev (I := dumpI) (UWriteFile destDir IndexFileName (text ++ String (ascii_of_nat 10) EmptyString)) None])%list
       /\ forall e, e ∈ before -> write_ok skip finish rs destDir before e.

Lemma compareEntries_le l : Sorted (fun x y => compareEntries x y <> Gt) l -> Sorted (fun x y => string_le (ie_Path x) (ie_Path y)) l.
Proof.
  induction 1 as [|x l H IH Hh]; constructor; [done|]. destruct Hh as [|y l Hy]; constructor. unfold string_le, String.leb.
  unfold compareEntries in Hy. by destruct (String.compare _ _).
Qed.

(** Sorting the index changes nothing of this. *)
Lemma accounted_perm skip idx idx' gvr obj :
  ix_Resources idx' ≡ₚ ix_Resources idx -> ix_Warnings idx' ≡ₚ ix_Warnings idx -> accounted_in skip idx gvr obj -> accounted_in skip idx' gvr obj.
Proof. intros Hr Hw H. apply (accounted_more _ idx); [done| |]; intros x Hx; [by rewrite Hr|by rewrite Hw]. Qed.

Lemma followed_perm namespace limit t gvr next w w' : w' ≡ₚ w -> followed namespace limit t gvr next w -> followed namespace limit t gvr next w'.
Proof. intros Hw [H|[H|[e H]]]; [by left|by right; left|right; right]. exists e. by rewrite Hw. Qed.

Lemma writeIndex_spec skip finish rs what dir idx tr t idx' :
  runs (writeIndex SortFunc MarshalIndent what dir idx) t (Ok idx') ->
  (forall e, e ∈ tr -> write_ok skip finish rs dir tr e) -> (forall e, e ∈ ix_Resources idx -> filed skip finish rs dir tr e) ->
  faithful skip finish rs dir (tr ++ t)%list idx'
  /\ ix_Resources idx' ≡ₚ ix_Resources idx /\ ix_Warnings idx' ≡ₚ ix_Warnings idx
  /\ exists raw, t = [Ev (I := dumpI) (UWriteFile dir IndexFileName raw) None].
Proof.
  intros H Hw Hf. unfold writeIndex, IndexMarshal in H. cbv zeta in H.
  remember (with_resources (sortStable SortFunc idx) _ _ _) as idx1 eqn:E1 in H. destruct (MarshalIndent idx1) as [b|e] eqn:E; cbv beta iota in H; [|by destruct H].
  advance H. destruct x as [e|]; destruct H as [-> H]; [done|]. injection H as ->. rewrite app_nil_r. subst idx1.
  match type of E with MarshalIndent ?i = _ => assert (ix_Resources i ≡ₚ ix_Resources idx) as Hp by apply Sort_perm end. split_and!; [|done|apply Sort_perm|by eexists]. split_and!.
  - intros e He. rewrite Hp in He. by apply filed_app, Hf.
  - apply compareEntries_le, Sort_sorted, (ordering_on ie_Path), ordering_string.
  - done.
  - by exists tr, b.
Qed.

Definition no_write (o : dump_action) : Prop := match o with UWriteFile _ _ _ => False | _ => True end.

(** A dump that succeeds: what it read, what it captured, and the index it wrote. *)
Lemma Dump_runs fuel rs ps opts dir tr idx :
  runs (dumpOf fuel (Some rs) ps opts dir) tr (Some (Ok idx)) ->
  exists reading capt ws found idx0 idx1 tw lists err,
    tr = (reading ++ capt ++ tw)%list
    /\ (forall e : look, e ∈ reading -> no_write (ev_action e))
    /\ selecting reading ws
    /\ Ev (I := dumpI) UPreferredResources (lists, err) ∈ reading
    /\ (forall gvr, gvr ∈ found <-> discovered (fun _ => keepResource) (default [] lists) gvr)
    /\ (is_Some err -> ix_Warnings idx0 <> [])
    /\ ix_Resources idx0 = []
    /\ runs (dumpResources (fun gvr => dumpResource Quote yamlMarshal Join Dir fuel rs ps gvr opts ws dir) found idx0) capt (Some idx1)
    /\ runs (writeIndex SortFunc MarshalIndent "dump" dir idx1) tw (Ok idx).
Proof.
  intros H. unfold Dump in H. destruct (do_Namespace opts =? ""); [by destruct H|].
  apply runs_bind in H as (? & ? & [e|] & -> & ->%dump_runs & H); [by destruct H|].
  apply runs_bind in H as (? & ? & now & -> & ->%dump_runs & H). cbv zeta in H.
  apply runs_bind in H as (? & ? & idxv & -> & Rv & H). unfold readVersion in Rv.
  apply runs_bind in Rv as (? & ? & v & -> & ->%dump_runs & [-> ->]).
  apply runs_bind in H as (? & ? & [found warnings] & -> & Re & H). apply enumerateWith_spec in Re as (lists & err & -> & Hfound & Hwarn).
  cbn [fst snd] in H. apply runs_bind in H as (ts & ? & [[ws idx0]|] & -> & Rs & H); [|by destruct H].
  apply servicesWithSelector_spec in Rs as (Hsel & _ & Hr & Hw & Hlists).
  apply runs_bind in H as (capt & ? & [idx1|] & -> & R1 & H); [|by destruct H].
  apply runs_bind in H as (tw & ? & r & -> & R2 & [-> [= <-]]). rewrite !app_nil_r.
  exists (Ev (I := dumpI) (UMkdirAll dir) None :: Ev (I := dumpI) UNow now :: Ev (I := dumpI) UServerVersion v
    :: Ev (I := dumpI) UPreferredResources (lists, err) :: ts)%list, capt, ws, found, idx0, idx1, tw, lists, err.
  split_and!; [reflexivity|..|exact R1|exact R2].
  - intros e He. rewrite !elem_of_cons in He. destruct He as [->|[->|[->|[->|He]]]]; try done. by destruct (Hlists e He) as (c & y & ->).
  - intros n Hn. destruct (Hsel n Hn) as (obj & Ho & ?). exists obj. split; [|done].
    destruct Ho as (g & ns & l & c & items & nx & Hin & Ho). exists g, ns, l, c, items, nx. split; [|done]. by do 4 right.
  - do 3 right. left.
  - done.
  - intros Hs Hn. apply (Hwarn Hs). destruct warnings as [|w warnings]; [done|]. exfalso. rewrite Hn in Hw.
    apply (not_elem_of_nil w), Hw. cbn. apply elem_of_app. right. left.
  - rewrite Hr. by destruct v.
Qed.

(** All there is to say of a dump that succeeds. *)
Lemma Dump_inv fuel rs ps opts dir tr idx :
  runs (dumpOf fuel (Some rs) ps opts dir) tr (Some (Ok idx)) ->
  exists reading capt raw ws lists err,
    tr = ((reading ++ capt) ++ [Ev (I := dumpI) (UWriteFile dir IndexFileName raw) None])%list
    /\ selecting reading ws
    /\ Ev (I := dumpI) UPreferredResources (lists, err) ∈ reading
    /\ (is_Some err -> ix_Warnings idx <> [])
    /\ (forall e, e ∈ (reading ++ capt)%list -> write_ok (skipped ws) (finished opts) rs dir (reading ++ capt)%list e)
    /\ faithful (skipped ws) (finished opts) rs dir tr idx
    /\ (forall gvr, discovered (fun _ => keepResource) (default [] lists) gvr ->
          exists x, Ev (I := dumpI) (UList gvr (Some (do_Namespace opts)) (pageSize ps) "") x ∈ capt)
    /\ (forall e : look, e ∈ capt -> is_list (ev_action e) = true ->
          exists gvr c x, e = Ev (I := dumpI) (UList gvr (Some (do_Namespace opts)) (pageSize ps) c) x
            /\ discovered (fun _ => keepResource) (default [] lists) gvr
            /\ forall items next, x = Ok (items, next) ->
                 followed (Some (do_Namespace opts)) (pageSize ps) capt gvr next (ix_Warnings idx)
                 /\ forall obj, obj ∈ items -> accounted_in (skipped ws) idx gvr obj).
Proof.
  intros H. apply Dump_runs in H as (reading & capt & ws & found & idx0 & idx1 & tw & lists & err & -> & Hq & Hs & Hp & Hf & Hwn & Hr0 & H1 & H2).
  apply (dumpResources_inv (skipped ws) (finished opts) rs dir (Some (do_Namespace opts)) (pageSize ps) fuel
    (fun gvr => captureObject Quote yamlMarshal Join Dir rs gvr opts ws dir) ltac:(intros; apply captureObject_captures) _ _
    ltac:(reflexivity) _ reading) in H1 as (Hw & Hfl & _ & Hws & Hg & Hl).
  2: { intros e He. specialize (Hq e He). unfold write_ok. by destruct (ev_action e). }
  2: { rewrite Hr0. by intros e ?%not_elem_of_nil. }
  apply (writeIndex_spec (skipped ws) (finished opts) rs) with (2 := Hw) in H2 as (Hfaith & Hpr & Hpw & raw & ->); [|exact Hfl].
  exists reading, capt, raw, ws, lists, err. rewrite app_assoc. split_and!; try done.
  - intros Hse Hn. apply (Hwn Hse). destruct (ix_Warnings idx0) as [|w l]; [done|]. exfalso. rewrite Hn in Hpw.
    apply (not_elem_of_nil w). rewrite Hpw. apply Hws. left.
  - intros gvr Hd. apply Hg. by apply Hf.
  - intros e He Hil. destruct (Hl e He Hil) as (gvr & c & x & Hin & -> & Hx). exists gvr, c, x. split_and!; [done|by apply Hf|].
    intros items next E. destruct (Hx items next E) as [Hn Hobj]. split; [by apply (followed_perm _ _ _ _ _ _ _ Hpw)|].
    intros obj Ho. by apply (accounted_perm _ idx1), Hobj.
Qed.






(** After a dump, the index and the disk agree. *)
Theorem Dump_faithful (fuel : nat) (rs : Ruleset) (ps : Z) (opts : DumpOptions) (dir : string) tr (idx : Index) :
  runs (dumpOf fuel (Some rs) ps opts dir) tr (Some (Ok idx)) ->
  exists ws, selecting tr ws /\ faithful (skipped ws) (finished opts) rs dir tr idx.
Proof.
  intros H. apply Dump_inv in H as (reading & capt & raw & ws & lists & err & -> & Hs & _ & _ & _ & Hf & _). exists ws. split; [|exact Hf].
  intros n Hn. destruct (Hs n Hn) as (obj & Ho & ?). exists obj. split; [by do 2 apply offered_app|done].
Qed.

(** ** Secrets *)

Lemma stripSecretData_empties (Laws : AccessorLaws A) obj :
  gvk_kind obj = kindSecret -> gvk_group obj = "" ->
  at_path ["data"] (stripSecretData obj) = None /\ at_path ["stringData"] (stripSecretData obj) = None.
Proof.
  intros Hk Hg. unfold stripSecretData. rewrite Hk, Hg, !String.eqb_refl. cbn [negb orb]. split; rewrite SetAnnotations_keeps by done.
  - rewrite RemoveNestedField_keeps by done. by apply removed_absent.
  - by apply removed_absent.
Qed.

(** An object that is a core Secret has no data. *)
Definition secretless (m : fields) : Prop :=
  gvk_kind m = kindSecret -> gvk_group m = "" -> at_path ["data"] m = None /\ at_path ["stringData"] m = None.

(** Under excludeSecretData no manifest that is written holds the data of a Secret. *)
Theorem Dump_excludes_secret_data (Laws : AccessorLaws A) (fuel : nat) (rs : Ruleset) (ps : Z) (opts : DumpOptions) (dir : string) tr (idx : Index) :
  runs (dumpOf fuel (Some rs) ps opts dir) tr (Some (Ok idx)) -> do_ExcludeSecretData opts = true ->
  forall d path body w, Ev (I := dumpI) (UWriteFile d path body) w ∈ tr ->
    path = IndexFileName \/ exists m, Marshal (Some m) = Ok body /\ secretless m.
Proof.
  intros H Hx d path body w Hin. apply Dump_inv in H as (reading & capt & raw & ws & lists & err & -> & _ & _ & _ & Hw & _).
  apply elem_of_app in Hin as [Hin|Hin].
  - right. apply Hw in Hin as (_ & obj & _ & _ & _ & clean & res & _ & Hm). exists (finished opts clean). split; [exact Hm|].
    unfold finished. rewrite Hx. intros Hk Hg. unfold stripSecretData in *.
    destruct (negb (gvk_kind clean =? kindSecret) || negb (gvk_group clean =? "")) eqn:E.
    + rewrite Hk, Hg in E. discriminate E.
    + apply orb_false_iff in E as [E1%negb_false_iff E2%negb_false_iff].
      apply String.eqb_eq in E1, E2. pose proof (stripSecretData_empties Laws clean E1 E2) as He. unfold stripSecretData in He.
      by rewrite E1, E2 in He.
  - left. apply list_elem_of_singleton in Hin. by injection Hin.
Qed.

(** ** The dump of the cluster *)

Definition cluster_skipped (selector : ClusterSelector) (obj : fields) : bool :=
  negb (SelectsObject selector (gvk_group obj) (gvk_kind obj) (GetName obj)).

(** What a dump of the cluster captures is what the run selects: it lists only kinds
    that are selected, cluster-scoped and listable, without a namespace; each
    selected object of a listing is in the index or in a warning, unless a warning
    says its kind could not be read to the end; and the index and the disk agree on
    objects that are all selected. *)
Theorem ClusterDump_complete (fuel : nat) (rs : Ruleset) (selector : ClusterSelector) (ps : Z) (cluster backup dir : string) tr (idx : Index) :
  runs (clusterDumpOf fuel (Some rs) (Some selector) ps cluster backup dir) tr (Some (Ok idx)) ->
  let kept := fun group r => keepClusterResource r && SelectsKind selector group (ar_Kind r) in
  faithful (cluster_skipped selector) id rs dir tr idx
  /\ exists lists err,
    Ev (I := dumpI) UPreferredResources (lists, err) ∈ tr
    /\ (forall gvr, discovered kept (default [] lists) gvr -> exists x, Ev (I := dumpI) (UList gvr None (pageSize ps) "") x ∈ tr)
    /\ (forall e : look, e ∈ tr -> is_list (ev_action e) = true ->
          exists gvr c x, e = Ev (I := dumpI) (UList gvr None (pageSize ps) c) x /\ discovered kept (default [] lists) gvr
            /\ forall items next, x = Ok (items, next) -> followed None (pageSize ps) tr gvr next (ix_Warnings idx)
                 /\ forall obj, obj ∈ items -> accounted_in (cluster_skipped selector) idx gvr obj).
Proof.
  intros H kept. unfold ClusterDump in H. apply runs_bind in H as (? & ? & [e|] & -> & ->%dump_runs & H); [by destruct H|].
  apply runs_bind in H as (? & ? & now & -> & ->%dump_runs & H). cbv zeta in H.
  apply runs_bind in H as (? & ? & idxv & -> & Rv & H). unfold readVersion in Rv.
  apply runs_bind in Rv as (? & ? & v & -> & ->%dump_runs & [-> ->]).
  apply runs_bind in H as (? & ? & [found warnings] & -> & Re & H). apply enumerateWith_spec in Re as (lists & err & -> & Hfound & _).
  cbn [fst snd] in H. fold kept in Hfound. apply runs_bind in H as (capt & ? & [idx1|] & -> & R1 & H); [|by destruct H].
  apply runs_bind in H as (tw & ? & r & -> & R2 & [-> [= <-]]). rewrite !app_nil_r.
  set (reading := [Ev (I := dumpI) (UMkdirAll dir) None; Ev (I := dumpI) UNow now; Ev (I := dumpI) UServerVersion v;
                   Ev (I := dumpI) UPreferredResources (lists, err)]).
  apply (dumpResources_inv (cluster_skipped selector) id rs dir None (pageSize ps) fuel
    (fun gvr => cluster_captureObject Quote yamlMarshal Join Dir rs selector gvr dir) ltac:(reflexivity) _ _
    ltac:(reflexivity) _ reading) in R1 as (Hw & Hfl & _ & _ & Hg & Hl).
  2: { intros e He. unfold reading in He. rewrite !elem_of_cons, elem_of_nil in He. by destruct He as [->|[->|[->|[->|[]]]]]. }
  2: { destruct v; by intros ? ?%not_elem_of_nil. }
  apply (writeIndex_spec (cluster_skipped selector) id rs) with (2 := Hw) in R2 as (Hfaith & Hpr & Hpw & raw & ->); [|exact Hfl].
  change ([Ev (I := dumpI) (UMkdirAll dir) None] ++ [Ev (I := dumpI) UNow now] ++ [Ev (I := dumpI) UServerVersion v]
    ++ [Ev (I := dumpI) UPreferredResources (lists, err)] ++ capt ++ ?y)%list with (reading ++ capt ++ y)%list.
  split; [by rewrite app_assoc|]. exists lists, err. split_and!.
  - apply elem_of_app. left. do 3 right. left.
  - intros gvr Hd. destruct (Hg gvr) as [x Hx]; [by apply Hfound|]. exists x. apply elem_of_app. right. apply elem_of_app. by left.
  - intros e [He|[He|He]%elem_of_app]%elem_of_app Hil.
    + exfalso. unfold reading in He. rewrite !elem_of_cons, elem_of_nil in He. by destruct He as [->|[->|[->|[->|[]]]]].
    + destruct (Hl e He Hil) as (gvr & c & x & Hin & -> & Hx). exists gvr, c, x. split_and!; [done|by apply Hfound|].
      intros items next E. destruct (Hx items next E) as [Hn Hobj]. split; [|intros obj Ho; by apply (accounted_perm _ idx1), Hobj].
      apply (followed_perm _ _ _ _ _ _ _ Hpw). destruct Hn as [Hn|[[y Hy]|Hn]]; [by left| |by right; right].
      right. left. exists y. apply elem_of_app. right. apply elem_of_app. by left.
    + exfalso. apply list_elem_of_singleton in He as ->. discriminate Hil.
Qed.

(** ** Termination *)

(** The answers that say there is more. *)
Definition has_more (e : look) : bool :=
  match e with Ev (UList _ _ _ _) (Ok (_, next)) => negb (next =? "") | _ => false end.

Lemma pages_out {St} (fn : St -> fields -> dumpP (St * option gerr)) gvr namespace limit fuel : forall c s t,
  runs (pages fuel (fun continue => dump (UList gvr namespace limit continue)) fn c s) t None -> fuel <= countb has_more t.
Proof.
  induction fuel as [|fuel IH]; intros c s t H; [lia|]. cbn [pages] in H.
  apply runs_bind in H as (? & ? & x & -> & ->%dump_runs & H). destruct x as [[items next]|e]; [|by destruct H].
  apply runs_bind in H as (ti & tr & [s1 [e|]] & -> & _ & H); [by destruct H|].
  destruct (next =? "") eqn:E; [by destruct H|]. apply IH in H. cbn [app countb has_more]. rewrite E, countb_app. cbn [negb]. lia.
Qed.

Lemma dumpResources_out (one : GVR -> dumpP (option captured)) fuel resources :
  (forall gvr t, runs (one gvr) t None -> fuel <= countb has_more t) -> forall idx t,
  runs (dumpResources one resources idx) t None -> fuel <= countb has_more t.
Proof.
  intros Hone. induction resources as [|gvr resources IH]; intros idx t H; cbn [dumpResources] in H; [by destruct H|].
  apply runs_bind in H as (t1 & t2 & [[l w]|] & -> & R & H); rewrite countb_app.
  - apply IH in H. lia.
  - apply Hone in R. lia.
Qed.

(** A dump ends: a fuel of more than the pages the server says are still to come is
    enough, whatever else it answers. *)
Theorem Dump_returns (fuel : nat) (sanitizer : option Ruleset) (ps : Z) (opts : DumpOptions) (dir : string) tr (o : option (result Index)) :
  runs (dumpOf fuel sanitizer ps opts dir) tr o -> countb has_more tr < fuel -> o <> None.
Proof.
  intros H Hf ->. apply Nat.lt_nge in Hf. apply Hf. clear Hf. unfold Dump in H.
  destruct sanitizer as [rs|]; [|by destruct H]. destruct (do_Namespace opts =? ""); [by destruct H|].
  apply runs_bind in H as (? & ? & [e|] & -> & _ & H); [by destruct H|]. rewrite countb_app.
  apply runs_bind in H as (? & ? & now & -> & _ & H). cbv zeta in H. rewrite countb_app.
  apply runs_bind in H as (? & ? & idxv & -> & _ & H). rewrite countb_app.
  apply runs_bind in H as (? & ? & [found warnings] & -> & _ & H). rewrite countb_app.
  apply runs_bind in H as (ts & ? & [[ws idx0]|] & -> & Rs & H); rewrite countb_app.
  - apply runs_bind in H as (capt & ? & [idx1|] & -> & R1 & H); rewrite countb_app.
    + by apply runs_bind in H as (? & ? & r & -> & _ & [_ [=]]).
    + apply (dumpResources_out _ fuel) in R1; [lia|]. intros gvr t Ht. unfold dumpResource in Ht.
      apply runs_bind in Ht as (t1 & t2 & r & -> & Ht & [-> Hr]). destruct r; [done|]. rewrite app_nil_r. by apply pages_out in Ht.
  - unfold servicesWithSelector in Rs. apply runs_bind in Rs as (t1 & t2 & r & -> & Rs & Hr). destruct r as [[out [e|]]|].
    + by destruct Hr.
    + by destruct Hr.
    + destruct Hr as [-> _]. rewrite app_nil_r. apply pages_out in Rs. lia.
Qed.

(** ** The index does not depend on the order of the capture *)

Lemma sorted_unique {T K} (c : T -> T -> comparison) (key : T -> K) l l' :
  ordering c -> (forall x y, c x y = Eq -> key x = key y) -> NoDup (map key l) -> l ≡ₚ l' -> SortFunc T c l = SortFunc T c l'.
Proof.
  intros [Hc Tc] Hk Hn Hp. apply (Sorted_unique_strong (fun x y => c x y <> Gt));
    [|by apply Sort_sorted|by apply Sort_sorted|by rewrite !Sort_perm].
  intros x y Hx Hy Hxy Hyx. rewrite Sort_perm in Hx. rewrite Sort_perm, <-Hp in Hy. rewrite (Hc x y) in Hyx.
  assert (key x = key y) as E by (apply Hk; by destruct (c x y)). clear - Hn Hx Hy E.
  induction l as [|a l IH]; [by apply not_elem_of_nil in Hx|]. cbn in Hn. apply NoDup_cons in Hn as [Ha Hn].
  assert (forall z, z ∈ l -> key a <> key z) as Hz by (intros z Hz E'; apply Ha; rewrite E'; by apply list_elem_of_fmap_2).
  apply elem_of_cons in Hx as [->|Hx]; apply elem_of_cons in Hy as [->|Hy]; [done|by destruct (Hz y Hy)|by destruct (Hz x Hx)|by apply IH].
Qed.

Definition warning_key (w : Warning) : string * string * string := (w_Group w, w_Kind w, w_Message w).

(** Two captures of the same things under the same header, in whatever order the server gave them. *)
Definition same_capture (idx idx' : Index) : Prop :=
  ix_Resources idx ≡ₚ ix_Resources idx' /\ ix_Warnings idx ≡ₚ ix_Warnings idx'
  /\ with_resources idx [] [] 0 = with_resources idx' [] [] 0.

(** C29. The order things came in does not show. Two indexes with the same header, the instant of
    the capture, the backup, the cluster, the server's version and the flags included, and with
    the same entries and the same warnings in any two orders, are rendered to the same text, as
    long as no two entries share a path and no two warnings are alike. Two runs over an
    unchanged namespace are such only as far as their headers agree: each carries its own
    capturedAt. *)
Theorem index_deterministic (idx idx' : Index) :
  same_capture idx idx' -> NoDup (map ie_Path (ix_Resources idx)) -> NoDup (map warning_key (ix_Warnings idx)) ->
  IndexMarshal SortFunc MarshalIndent idx = IndexMarshal SortFunc MarshalIndent idx'.
Proof.
  intros (Hr & Hw & Hs) Nr Nw.
  assert (SortFunc _ compareEntries (ix_Resources idx) = SortFunc _ compareEntries (ix_Resources idx')) as Er.
  { apply (sorted_unique _ ie_Path); [apply (ordering_on ie_Path), ordering_string| |done|done].
    intros x y. apply String.compare_eq_iff. }
  assert (SortFunc _ compareWarnings (ix_Warnings idx) = SortFunc _ compareWarnings (ix_Warnings idx')) as Ew.
  { apply (sorted_unique _ warning_key); [| |done|done].
    - apply (ordering_lex (fun a b => String.compare (w_Group a) (w_Group b))); [by apply (ordering_on w_Group), ordering_string|].
      apply (ordering_lex (fun a b => String.compare (w_Kind a) (w_Kind b))); [by apply (ordering_on w_Kind), ordering_string|].
      by apply (ordering_on w_Message), ordering_string.
    - intros x y. unfold compareWarnings, warning_key. destruct (String.compare (w_Group x) _) eqn:E1; try done.
      destruct (String.compare (w_Kind x) _) eqn:E2; try done. intros E3. apply String.compare_eq_iff in E1, E2, E3. congruence. }
  assert (forall l w n, with_resources idx l w n = with_resources idx' l w n) as Hwith.
  { intros l w n. unfold with_resources in *. injection Hs as -> -> -> -> -> -> -> ->. done. }
  unfold IndexMarshal, sortStable. rewrite Er, Ew. rewrite !Hwith. done.
Qed.
End Facts.

(** ** Concrete runs *)

Definition wit_gv (s : string) : result (string * string) :=
  match String.index 0 "/" s with Some i => Ok (stake i s, sdrop (S i) s) | None => Ok ("", s) end.
Definition wit_yaml (m : fields) : result string :=
  Ok (str_value (field "kind" m) ++ (if at_path ["data"] m then " with data" else "")).
Definition wit_json (idx : Index) : result string := Ok (Itoa (ix_ResourceCount idx)).
Definition wit_join (a b : string) : string := a ++ "/" ++ b.
Definition wit_obj (kind name : string) : fields :=
  [("apiVersion", VStr "v1"); ("kind", VStr kind); ("metadata", VObj [("name", VStr name); ("uid", VStr "u")]); ("data", VObj [("k", VStr "v")])].
Definition wit_verbs : list string := ["get"; "list"].
Definition wit_lists : list (option APIResourceList) :=
  [Some (mkAPIResourceList "v1" [mkAPIResource "secrets" "Secret" true wit_verbs; mkAPIResource "pods/log" "Pod" true ["get"];
                                 mkAPIResource "configmaps" "ConfigMap" true wit_verbs]);
   Some (mkAPIResourceList "storage.k8s.io/v1" [mkAPIResource "storageclasses" "StorageClass" false wit_verbs])].

(** Two pages of config maps, a secret, a storage class, and discovery is partial. *)
Definition wit_dump_server : server dumpI := fun past o =>
  match o with
  | UMkdirAll _ => None
  | UNow => 0%Z
  | UServerVersion => Ok "v1.31"
  | UPreferredResources => (Some wit_lists, Some (errorf "metrics down"))
  | UList gvr ns limit c =>
      if gvr_Resource gvr =? "configmaps" then
        if c =? "" then Ok ([wit_obj "ConfigMap" "b"; wit_obj "ConfigMap" "kube-root-ca.crt"], "p2") else Ok ([wit_obj "ConfigMap" "a"], "")
      else if gvr_Resource gvr =? "secrets" then Ok ([wit_obj "Secret" "s"], "")
      else if gvr_Resource gvr =? "storageclasses" then Ok ([put "apiVersion" (VStr "storage.k8s.io/v1") (wit_obj "StorageClass" "fast")], "")
      else Ok ([], "")
  | UWriteFile _ _ _ => None
  end.
Definition wit_dump_opts : DumpOptions := mkDumpOptions "team" "c1" "nightly" true.
Definition wit_Dump := Dump (A := plainAccessors) isort id wit_yaml wit_json wit_gv wit_join id 3 (Some embedded) 0 wit_dump_opts "/work".
Definition wit_dump := exec wit_dump_server wit_Dump [].
Lemma wit_dump_runs : runs wit_Dump (fst wit_dump) (snd wit_dump).
Proof. apply exec_runs. Qed.

Definition wit_dump_index : Index :=
  mkIndex 1 "c1" "team" "nightly" "v1.31" (FormatRFC3339 0) (rs_Version embedded) true 3
    [mkIndexEntry "" "v1" "ConfigMap" "a" "core/ConfigMap/a.yaml"; mkIndexEntry "" "v1" "ConfigMap" "b" "core/ConfigMap/b.yaml";
     mkIndexEntry "" "v1" "Secret" "s" "core/Secret/s.yaml"]
    [mkWarning "" "" "" "partial resource discovery: metrics down"].
Lemma wit_dump_result : snd wit_dump = Some (Ok wit_dump_index).
Proof. vm_compute. reflexivity. Qed.
Lemma wit_dump_ok : runs wit_Dump (fst wit_dump) (Some (Ok wit_dump_index)).
Proof. rewrite <-wit_dump_result. apply wit_dump_runs. Qed.


(** Each of its three objects has its manifest written. *)
Lemma Dump_faithful_witness :
  exists body, Ev (I := dumpI) (UWriteFile "/work" "core/ConfigMap/a.yaml" body) None ∈ fst wit_dump.
Proof.
  destruct (Dump_faithful isort id wit_yaml wit_json wit_gv wit_join id isort_perm isort_sorted _ _ _ _ _ _ _ wit_dump_ok)
    as (ws & _ & Hf & _). destruct (Hf (mkIndexEntry "" "v1" "ConfigMap" "a" "core/ConfigMap/a.yaml")) as (obj & body & _ & _ & _ & Hw); [left|].
  by exists body.
Defined.

(** The Secret is there without its data. *)
Lemma Dump_excludes_secret_data_witness :
  exists m, wit_yaml m = Ok "Secret" /\ secretless (A := plainAccessors) m.
Proof.
  assert (existsb (fun e : look => match ev_action e with UWriteFile d p b => (d =? "/work") && (p =? "core/Secret/s.yaml") && (b =? "Secret") | _ => false end)
    (fst wit_dump) = true) as H by (vm_compute; reflexivity).
  apply existsb_exists in H as ([o w] & Hin & Hb). destruct o; try discriminate Hb. cbn in Hb.
  apply andb_true_iff in Hb as [[->%String.eqb_eq ->%String.eqb_eq]%andb_true_iff ->%String.eqb_eq].
  destruct (Dump_excludes_secret_data isort id wit_yaml wit_json wit_gv wit_join id isort_perm isort_sorted plainLaws _ _ _ _ _ _ _
    wit_dump_ok eq_refl _ _ _ _ (proj2 (list_elem_of_In _ _) Hin)) as [H|(m & Hm & Hs)]; [discriminate H|].
  exists m. split; [|exact Hs]. unfold Marshal in Hm. destruct (wit_yaml m); [exact Hm|discriminate Hm].
Defined.

(** Its single extra page needs a fuel of two. *)
Lemma Dump_returns_witness : countb has_more (fst wit_dump) = 1 /\ snd wit_dump <> None.
Proof.
  assert (countb has_more (fst wit_dump) = 1) as H by (vm_compute; reflexivity). split; [exact H|].
  apply (Dump_returns isort id wit_yaml wit_json wit_gv wit_join id _ _ _ _ _ _ _ wit_dump_runs). rewrite H. lia.
Defined.

Definition wit_selector : ClusterSelector := mkClusterSelector [] [] true.
Definition wit_cluster_dump :=
  exec wit_dump_server (ClusterDump (A := plainAccessors) isort id wit_yaml wit_json wit_gv wit_join id 3 (Some embedded) (Some wit_selector) 10 "c1" "run" "/c") [].
Definition wit_cluster_index : Index :=
  mkIndex 1 "c1" "" "run" "v1.31" (FormatRFC3339 0) (rs_Version embedded) false 1
    [mkIndexEntry "storage.k8s.io" "v1" "StorageClass" "fast" "storage.k8s.io/StorageClass/fast.yaml"]
    [mkWarning "" "" "" "partial resource discovery: metrics down"].
Lemma wit_cluster_result : snd wit_cluster_dump = Some (Ok wit_cluster_index).
Proof. vm_compute. reflexivity. Qed.

(** The storage class of the concrete cluster is captured. *)
Lemma ClusterDump_complete_witness :
  exists body, Ev (I := dumpI) (UWriteFile "/c" "storage.k8s.io/StorageClass/fast.yaml" body) None ∈ fst wit_cluster_dump.
Proof.
  pose proof (exec_runs wit_dump_server (ClusterDump (A := plainAccessors) isort id wit_yaml wit_json wit_gv wit_join id 3 (Some embedded)
    (Some wit_selector) 10 "c1" "run" "/c") [] : runs _ (fst wit_cluster_dump) (snd wit_cluster_dump)) as H.
  rewrite wit_cluster_result in H.
  destruct (ClusterDump_complete isort id wit_yaml wit_json wit_gv wit_join id isort_perm isort_sorted _ _ _ _ _ _ _ _ _ H) as [[Hf _] _].
  destruct (Hf (mkIndexEntry "storage.k8s.io" "v1" "StorageClass" "fast" "storage.k8s.io/StorageClass/fast.yaml")) as (obj & body & _ & _ & _ & Hw); [left|].
  by exists body.
Defined.

Definition wit_unsorted (l : list IndexEntry) : Index := mkIndex 1 "c1" "team" "b" "" "" "" false 0 l [].

(** Two entries in either order. *)
Lemma index_deterministic_witness :
  let a := mkIndexEntry "" "v1" "ConfigMap" "a" "core/ConfigMap/a.yaml" in
  let b := mkIndexEntry "" "v1" "ConfigMap" "b" "core/ConfigMap/b.yaml" in
  IndexMarshal isort wit_json (wit_unsorted [a; b]) = IndexMarshal isort wit_json (wit_unsorted [b; a]).
Proof.
  intros a b. apply (index_deterministic isort wit_json isort_perm isort_sorted).
  - split; [apply perm_swap|]. by split.
  - by apply (bool_decide_unpack _).
  - constructor.
Defined.
