(* ===== verification/RestoreController.v ===== *)
(** * RestoreController: one Restore, to a terminal outcome
    (internal/controller: restore_controller.go, restore_resources.go)

    A pass over a Restore is a program over the engine's requests and over what else
    the controller asks: status writes, the location and its repository, the key,
    the filtered listing, the engine's caches, the manifest half's bindings and
    Job.  The object is the one the pass read; what the pass changes of it in
    memory is threaded, and reaches the API server with a status write. *)

From Stdlib Require Import Ascii String.
From S2P Require Import Prelude GoText Cluster Names Status Selectors MoverResult Restic VolumeMachine.
From S2P Require Import Backup.
From S2P Require Import Location.
From S2P Require Import Manifests.
From S2P Require Import BackupPass.
From S2P Require Import ManifestSelection.
From S2P Require Import RestoreExposer.
From S2P Require Import RestoreEngine.
From S2P Require Import Program.
From S2P Require Import Api.

#[local] Open Scope string_scope.

(** ** Constants *)

Definition FinalizerRestore : string := "crystalbackup.io/restore-teardown".
Definition ConditionConfirmed : string := "Confirmed".
Definition RestorePhasePending : string := "Pending".
Definition RestorePhaseAwaitingConfirmation : string := "AwaitingConfirmation".
Definition RestorePhaseRunning : string := "Running".
Definition RestoreModeRecreate : string := "Recreate".
Definition RestoreResourceFailed : string := "Failed".
Definition MaxRestoreResourceEntries : nat := 100.
Definition MaxRestoreChangedPaths : nat := 20.
Definition sourceTimeLatest : string := "latest".
Definition kindClusterBackupLocationRef : string := "ClusterBackupLocation".
Definition ManifestsRoot : string := "/manifests".
Definition ManifestsRestoreDir : string := ManifestsRoot ++ "/restore".
Definition restorePollInterval : Z := backupPollInterval.

(** ** Data *)

Record RestoreSource := mkRestoreSource { rs_Backup : string; rs_Time : string; rs_Origin : string }.

Record ResourceSelectorItem := mkResourceSelectorItem {
  ri_Selector : LabelSelector; ri_Include : list string; ri_Exclude : list string
}.

(** An absent list is not an empty one. *)
Record RestoreSpec := mkRestoreSpec {
  rp_Source : RestoreSource;
  rp_Mode : string;
  rp_Resources : option (list ResourceSelectorItem);
  rp_Volumes : option (list VolumeSelectorItem);
  rp_Confirmation : string;
  rp_DryRun : bool
}.

Record RestoreResourcesStatus := mkRestoreResourcesStatus {
  rr_FailedCount : Z; rr_Truncated : bool; rr_Entries : list ResourceEntry
}.

Record RestoreStatus `{ConditionStore} := mkRestoreStatus {
  rt_Phase : string;
  rt_RestoredResources : Z;
  rt_Resources : option RestoreResourcesStatus;
  rt_PlannedVolumes : Z;
  rt_RestoredVolumes : Z;
  rt_FailedVolumes : Z;
  rt_RestoredBytes : Z;
  rt_Conditions : conditions
}.

Record Restore `{ConditionStore} := mkRestore {
  rs_Namespace : string;
  rs_Name : string;
  rs_UID : string;
  rs_Generation : Z;
  rs_Deleting : bool;
  rs_Finalizers : list string;
  rs_Spec : RestoreSpec;
  rs_Status : RestoreStatus
}.

(** What the controller reads of a ClusterBackupLocation. *)
Record SourceLocation := mkSourceLocation {
  sl_Name : string;
  sl_ClusterID : string;
  sl_CredsSecret : string;
  sl_S3Connections : option Z;
  sl_KEKSecret : string
}.

(** The fields of [mover.JobRequest] the manifest half sets. *)
Record ResourcesJob := mkResourcesJob {
  mj_Name : string;
  mj_Operation : string;
  mj_ResticArgs : list string;
  mj_RepoURL : string;
  mj_S3Connections : option Z;
  mj_SecretName : string;
  mj_Labels : labels;
  mj_ServiceAccountName : string;
  mj_MountPath : string;
  mj_Env : list (string * string)
}.

Record resourcesPlan := mkResourcesPlan {
  xp_snapshotID : string;
  xp_snapshotPath : string;
  xp_selection : Selection;
  xp_mode : string;
  xp_dryRun : bool;
  xp_classMapping : labels
}.

(** ** Requests *)

Section Requests.
Context {CS : ConditionStore}.

Inductive restore_action :=
| RUpdate (finalizers : list string)
| RStatusUpdate (s : RestoreStatus)
| RGetLocation (name : string)
| RGetRepository (name : string)
| RAgeIdentity (identity : string)                       (* keys.NewAgeWrapper *)
| REnsureDEK (location : string)                         (* DEKManager.EnsureDEK *)
| RListFiltered (repo job : string) (tags : list string)
| RPinnedFor (owner : string)
| RPin (owner name : string)
| RCached (owner run : string)
| RCachedCluster (owner run : string)
| RStore (owner run : string) (byPVC : gmap string Snapshot) (manifests : list Snapshot)
| RStoreCluster (owner run : string) (byPVC : gmap string Snapshot) (manifests : list Snapshot)
| RForgetListing (owner : string)
| RForget (owner ownerID : string)
| RCreateBinding (rb : RoleBinding)                      (* a namespace-less one is cluster-wide *)
| RDeleteBinding (namespace name : string)
| RCreateResourcesJob (j : ResourcesJob)
| RGetNamespace (name : string)
| RCreateNamespace (name : string).

Definition restore_answer (o : restore_action) : Type :=
  match o with
  | RUpdate _ | RStatusUpdate _ | RAgeIdentity _ | RCreateBinding _ | RDeleteBinding _ _ | RCreateResourcesJob _
  | RGetNamespace _ | RCreateNamespace _ => option gerr
  | RGetLocation _ => result SourceLocation
  | RGetRepository _ => result BackupRepository
  | REnsureDEK _ => result string
  | RListFiltered _ _ _ => result (list Snapshot)
  | RPinnedFor _ => option string
  | RPin _ _ => string
  | RCached _ _ | RCachedCluster _ _ => option (gmap string Snapshot * list Snapshot)
  | RStore _ _ _ _ | RStoreCluster _ _ _ _ | RForgetListing _ | RForget _ _ => unit
  end.

Definition restoreI : interface := mkInterface restore_action restore_answer.
Definition ctlI : interface := sumI restI restoreI.
Definition ask (o : restore_action) : prog ctlI (restore_answer o) := callR (I := restI) (J := restoreI) o.
Definition eng {A} (p : rest A) : prog ctlI A := inject (J := restoreI) p.
Definition kubeP {A} (p : api A) : prog ctlI A := eng (k8s p).
End Requests.

Notation passed := (Result * option gerr)%type.
Notation ctlP := (prog ctlI).
Notation act := (event ctlI).

(** ** Setters *)

Section Setters.
Context {CS : ConditionStore}.

Definition set_status (s : RestoreStatus) (r : Restore) : Restore :=
  mkRestore _ (rs_Namespace r) (rs_Name r) (rs_UID r) (rs_Generation r) (rs_Deleting r) (rs_Finalizers r) (rs_Spec r) s.

Definition set_rt_phase (p : string) (s : RestoreStatus) : RestoreStatus :=
  mkRestoreStatus _ p (rt_RestoredResources s) (rt_Resources s) (rt_PlannedVolumes s) (rt_RestoredVolumes s)
    (rt_FailedVolumes s) (rt_RestoredBytes s) (rt_Conditions s).
Definition set_rt_conditions (c : conditions) (s : RestoreStatus) : RestoreStatus :=
  mkRestoreStatus _ (rt_Phase s) (rt_RestoredResources s) (rt_Resources s) (rt_PlannedVolumes s) (rt_RestoredVolumes s)
    (rt_FailedVolumes s) (rt_RestoredBytes s) c.
Definition set_rt_resources (n : Z) (x : RestoreResourcesStatus) (s : RestoreStatus) : RestoreStatus :=
  mkRestoreStatus _ (rt_Phase s) n (Some x) (rt_PlannedVolumes s) (rt_RestoredVolumes s)
    (rt_FailedVolumes s) (rt_RestoredBytes s) (rt_Conditions s).
Definition set_rt_bytes (b : Z) (s : RestoreStatus) : RestoreStatus :=
  mkRestoreStatus _ (rt_Phase s) (rt_RestoredResources s) (rt_Resources s) (rt_PlannedVolumes s) (rt_RestoredVolumes s)
    (rt_FailedVolumes s) b (rt_Conditions s).

(** The counters of a tally; an inconsistent one is only warned about. *)
Definition stampVolumeCounts (t : RestoreTally) (s : RestoreStatus) : RestoreStatus :=
  mkRestoreStatus _ (rt_Phase s) (rt_RestoredResources s) (rt_Resources s) (rt_Planned t) (rt_Restored t)
    (rt_Failed t) (rt_RestoredBytes s) (rt_Conditions s).

Definition set_rt_condition (condType st reason message : string) (gen : Z) (s : RestoreStatus) : RestoreStatus :=
  set_rt_conditions (SetCondition (rt_Conditions s) condType st reason message gen) s.
End Setters.

(** ** Pure parts *)

Definition joinFailures (failures : list string) : string :=
  match failures with
  | [] => "no volumes restored"
  | f :: fs => fold_left (fun out f => out ++ "; " ++ f) fs f
  end.

Definition restoreProgressMessage (d : volumeDrive) (extra : string) : string :=
  let t := d_tally d in
  let msg := match d_passErr d with
             | None => "restoring: " ++ Itoa (rt_Restored t) ++ "/" ++ Itoa (rt_Planned t) ++ " volumes restored, "
                         ++ Itoa (rt_Failed t) ++ " failed"
             | Some e => "restoring: this pass could not assess the volumes, so the published counts are the "
                           ++ "previous pass's: " ++ err_text e
             end ++ extra in
  clampMessage (match d_volumeErr d with
                | Some e => msg ++ "; one volume is retrying after an error: " ++ err_text e
                | None => msg
                end).

Definition setRestoreTerminalCondition {CS : ConditionStore} (phase : string) (failures : list string) (gen : Z)
    (s : RestoreStatus) : RestoreStatus :=
  if phase =? RestorePhaseCompleted then
    set_rt_condition ConditionReady ConditionTrue "Completed" "all selected volumes were restored" gen s
  else set_rt_condition ConditionReady ConditionFalse phase (clampMessage (joinFailures failures)) gen s.

(** The claims of a Backup that hold data, each once, in the order of the volumes. *)
Definition restorable (v : VolumeStatus) : bool := (Phase v =? VolumePhaseCompleted) && negb (SnapshotID v =? "").

Fixpoint dedup (seen : list string) (l : list string) : list string :=
  match l with
  | [] => []
  | x :: l => if existsb (String.eqb x) seen then dedup seen l else x :: dedup (x :: seen) l
  end.

Definition restorableVolumes (source : BackupView) : list string :=
  dedup [] (map Pvc (List.filter restorable (bv_Volumes source))).

(** The newest data snapshot of each claim; of equals the first. *)
Definition newerOf (m : gmap string Snapshot) (pvc : string) (s : Snapshot) : gmap string Snapshot :=
  match m !! pvc with
  | Some prev => if time_after (s_Time s) (s_Time prev) then <[pvc := s]> m else m
  | None => <[pvc := s]> m
  end.

Definition indexSnapshot (m : gmap string Snapshot) (s : Snapshot) : gmap string Snapshot :=
  if negb (default "" (TagValue (s_Tags s) TagKeyKind) =? KindData) then m
  else match TagValue (s_Tags s) TagKeyPVC with
       | None => m
       | Some pvc => if pvc =? "" then m else newerOf m pvc s
       end.

Definition dataSnapshotsByPVC (snaps : list Snapshot) : gmap string Snapshot := fold_left indexSnapshot snaps ∅.

Definition sourceVolumeSize (source : BackupView) (pvc : string) : Z :=
  match find (fun v => Pvc v =? pvc) (bv_Volumes source) with Some v => SizeBytes v | None => 0 end.

(** The size of the data, padded by a fifth and rounded up to a GiB. *)
Definition fallbackRestoreCapacity (dataSizeBytes : Z) : Z :=
  let gib := (2 ^ 30)%Z in
  let padded := int64 (dataSizeBytes + Z.quot dataSizeBytes 5) in
  int64 (Z.max (Z.quot (int64 (padded + gib - 1)) gib) 1 * gib).

(** The newest snapshot of a kind; of equals the first. *)
Fixpoint newestOfKind (kind : string) (snaps : list Snapshot) (newest : option Snapshot) : option Snapshot :=
  match snaps with
  | [] => newest
  | s :: snaps =>
      let newest :=
        if negb (default "" (TagValue (s_Tags s) TagKeyKind) =? kind) then newest
        else match newest with
             | Some n => if time_after (s_Time s) (s_Time n) then Some s else newest
             | None => Some s
             end in
      newestOfKind kind snaps newest
  end.

Definition manifestsSnapshot (snaps : list Snapshot) : option Snapshot := newestOfKind KindManifests snaps None.

Definition manifestsSnapshotPath (snap : Snapshot) : string := hd ManifestsRoot (s_Paths snap).

Definition toSelectionItem (i : ResourceSelectorItem) : SelectionItem :=
  let sel := ri_Selector i in
  mkSelectionItem
    (if (0 <? size (MatchLabels sel))%nat || (0 <? List.length (MatchExpressions sel))%nat then Some sel else None)
    (ri_Include i) (ri_Exclude i).

Definition resolveResourcesPlan (resources : option (list ResourceSelectorItem)) (mode : string) (dryRun : bool)
    (snaps : list Snapshot) (classMapping : labels) : option resourcesPlan :=
  match resources with
  | Some [] => None
  | _ =>
      match manifestsSnapshot snaps with
      | None => None
      | Some snap =>
          Some (mkResourcesPlan (s_ID snap) (manifestsSnapshotPath snap)
            match resources with
            | None => mkSelection true []
            | Some items => mkSelection false (map toSelectionItem items)
            end mode dryRun classMapping)
      end
  end.

Definition doneWord (done : bool) : string := if done then "settled" else "applying".

Definition resourcesJobPrefix (ownerID : string) : string := sanitizeDNSName (ownerID ++ "-resources") moverNamePrefixMax.

(** The report of the apply, within the caps of the status. *)
Definition capEntry (e : ResourceEntry) : ResourceEntry :=
  mkResourceEntry (re_Group e) (re_Kind e) (re_Name e) (re_Outcome e) (clampMessage (re_Reason e))
    (take MaxRestoreChangedPaths (re_Changed e)).
Definition overlong (e : ResourceEntry) : bool := (MaxRestoreChangedPaths <? List.length (re_Changed e))%nat.

Definition resourcesStatusFrom (result : MoverResult) : RestoreResourcesStatus :=
  let kept := take MaxRestoreResourceEntries (mr_ResourceEntries result) in
  mkRestoreResourcesStatus (mr_FailedResources result)
    (mr_ResourcesTruncated result || (MaxRestoreResourceEntries <? List.length (mr_ResourceEntries result))%nat
     || existsb overlong kept)
    (map capEntry kept).

Definition failedEntry (reason : string) : ResourceEntry := mkResourceEntry "" "" "" RestoreResourceFailed reason [].

(** The reconcile requests a Job maps to: at most one (namespace, name). *)
Definition mapJobToRestore (ls : labels) : option (string * string) :=
  if negb (lget ls LabelManagedBy =? ManagedByValue) then None
  else
    let name := lget ls LabelRestore in
    let namespace := lget ls LabelNamespace in
    if (name =? "") || (namespace =? "") then None else Some (namespace, name).

(** ** The controller *)

Section Controller.
Context {CS : ConditionStore}.
Variable OperatorNamespace : string.
Variable ManifestMoverServiceAccount ManifestWriterClusterRole : string.
Variable hasQueue : bool.
Variable Unmarshal : string -> result MoverResult.       (* json.Unmarshal *)
Variable Quote : string -> string.                       (* fmt's %q *)
Variable TimeParse : string -> string -> option Z.       (* time.Parse, by layout *)
Variable EncodeSelection : Selection -> result string.   (* json.Marshal of the selection *)
Variable MarshalMap : labels -> result string.           (* json.Marshal of a map *)

Notation failed e := (noResult, Some e) (only parsing).

(** [time.RFC3339], or the same without an offset. *)
Definition parseRestoreTime (value : string) : option Z :=
  match TimeParse "2006-01-02T15:04:05Z07:00" value with
  | Some t => Some t
  | None => TimeParse "2006-01-02T15:04:05" value
  end.

Definition badSourceTime (t : string) : bool :=
  negb (t =? "") && negb (t =? sourceTimeLatest) && match parseRestoreTime t with None => true | Some _ => false end.

Definition restoreName (r : Restore) : string := rs_Namespace r ++ "/" ++ rs_Name r.
Definition owner (r : Restore) : string := restoreOwnerID (rs_Namespace r) (rs_Name r).
Definition setReady (st reason message : string) (r : Restore) : RestoreStatus :=
  set_rt_condition ConditionReady st reason message (rs_Generation r) (rs_Status r).

(** *** Parking a pass *)

(** A status write, and what the pass answers when it is accepted. *)
Definition writeStatus (r : Restore) (s : RestoreStatus) (after : Z) : ctlP passed :=
  let! err := ask (RStatusUpdate s) in
  Done (match err with
        | Some e => failed (wrap_err ("update status for Restore " ++ restoreName r) e)
        | None => (RequeueAfter after, None)
        end).

Definition restoreGate (r : Restore) (reason message : string) : ctlP passed :=
  writeStatus r (set_rt_phase RestorePhasePending (setReady ConditionFalse reason message r)) shortRequeueInterval.

Definition awaitConfirmation (r : Restore) : ctlP passed :=
  writeStatus r (set_rt_phase RestorePhaseAwaitingConfirmation
    (setReady ConditionFalse "ConfirmationRequired"
      ("a " ++ rp_Mode (rs_Spec r) ++ " restore modifies existing data: set spec.confirmation to "
        ++ Quote (rs_Namespace r) ++ " to proceed") r)) shortRequeueInterval.

Definition finalizeRestore (r : Restore) : ctlP passed :=
  if negb (existsb (String.eqb FinalizerRestore) (rs_Finalizers r)) then Done (noResult, None)
  else
    let rc := mkExecContext (rs_Name r) LabelRestore (owner r) (rs_Namespace r) false "" "" "" "" "" None "" in
    let! _ := ask (RForget (rs_UID r) (owner r)) in
    let! _ := eng (teardownRestoreResidue OperatorNamespace rc) in
    let! err := ask (RUpdate (List.filter (fun f => negb (f =? FinalizerRestore)) (rs_Finalizers r))) in
    Done (match err with
          | Some e => if IsNotFound e then (noResult, None)
                      else failed (wrap_err ("remove finalizer from Restore " ++ restoreName r) e)
          | None => (noResult, None)
          end).

(** *** The source *)

Definition getSource (r : Restore) (what name : string) : ctlP (result (option (Object KBackup))) :=
  let! b := kubeP (get KBackup (rs_Namespace r) name) in
  Done (match b with
        | Ok b => Ok (Some b)
        | Err e => if IsNotFound e then Ok None
                   else Err (wrap_err ("get " ++ what ++ " Backup " ++ rs_Namespace r ++ "/" ++ name) e)
        end).

(** The Backups a time names: of the origin, successful, dated, not after the cutoff. *)
Definition eligible (origin : string) (cutoff : option Z) (b : Object KBackup) : bool :=
  ((origin =? "") || (lget (o_labels b) LabelOrigin =? origin))
  && backupSucceeded (bv_Phase (o_body b))
  && match bv_BackupTime (o_body b) with
     | None => false
     | Some t => match cutoff with Some c => negb (time_after t c) | None => true end
     end.

Definition backupTime (b : Object KBackup) : Z := default zero_time (bv_BackupTime (o_body b)).

Definition newest (backups : list (Object KBackup)) : option (Object KBackup) :=
  fold_left (fun best b => match best with
                           | None => Some b
                           | Some x => if time_after (backupTime b) (backupTime x) then Some b else best
                           end) backups None.

Definition resolveSource (r : Restore) : ctlP (result (option (Object KBackup))) :=
  let src := rp_Source (rs_Spec r) in
  if negb (rs_Backup src =? "") then getSource r "source" (rs_Backup src)
  else
    let! pinned := ask (RPinnedFor (rs_UID r)) in
    match pinned with
    | Some name => getSource r "pinned source" name
    | None =>
        if badSourceTime (rs_Time src) then Done (Ok None)
        else
          let cutoff := if (rs_Time src =? "") || (rs_Time src =? sourceTimeLatest) then None
                        else parseRestoreTime (rs_Time src) in
          let! backups := kubeP (list_ KBackup (mkSelector (Some (rs_Namespace r)) ∅ [])) in
          match backups with
          | Err e => Done (Err (wrap_err ("list Backups in " ++ rs_Namespace r) e))
          | Ok items =>
              match newest (List.filter (eligible (rs_Origin src) cutoff) items) with
              | None => Done (Ok None)
              | Some best => let! _ := ask (RPin (rs_UID r) (o_name best)) in Done (Ok (Some best))
              end
          end
    end.

(** *** The plans *)

Definition sizePlan (namespace : string) (sourceSize : Z) (snap : Snapshot) (plan : restoreVolumePlan)
    : ctlP restoreVolumePlan :=
  let sized := mkPlan (pl_pvc plan) (pl_snapshotID plan) (pl_snapshotPath plan) (pl_include plan) (pl_exclude plan)
                 (pl_targetPath plan) in
  let! target := kubeP (get KPVC namespace (pl_pvc plan)) in
  match target with
  | Ok target =>
      let c := o_body target in
      Done (sized (pc_Storage c) (default (pl_storageClass plan) (pc_StorageClassName c)) (pc_AccessModes c))
  | Err _ =>
      let meta := ParsePVCMeta (s_Tags snap) in
      Done (sized (if (0 <? pm_Capacity meta)%Z then pm_Capacity meta else fallbackRestoreCapacity sourceSize)
              (pm_StorageClass meta) (pl_accessModes plan ++ pm_AccessModes meta)%list)
  end.

(** The plan of a claim, before it is sized. *)
Definition planOf (namespace pvc : string) (snap : Snapshot) (item : option VolumeSelectorItem) : restoreVolumePlan :=
  mkPlan pvc (s_ID snap) ("/data/" ++ namespace ++ "/" ++ pvc)
    (match item with Some i => vi_Include i | None => [] end)
    (match item with Some i => vi_Exclude i | None => [] end)
    (match item with Some i => vi_TargetPath i | None => "" end) 0 "" [].

Definition planVolume (r : Restore) (source : BackupView) (byPVC : gmap string Snapshot)
    (selected : gmap string (option VolumeSelectorItem)) (acc : list restoreVolumePlan * list string) (pvc : string)
    : ctlP (list restoreVolumePlan * list string) :=
  match selected !! pvc with
  | None => Done acc
  | Some item =>
      match byPVC !! pvc with
      | None => Done (fst acc, (snd acc ++ [pvc])%list)
      | Some snap =>
          let! plan := sizePlan (rs_Namespace r) (sourceVolumeSize source pvc) snap (planOf (rs_Namespace r) pvc snap item) in
          Done ((fst acc ++ [plan])%list, snd acc)
      end
  end.

(** The plans, and the selected claims without a snapshot. *)
Definition buildPlans (r : Restore) (source : BackupView) (byPVC : gmap string Snapshot)
    : ctlP (list restoreVolumePlan * list string) :=
  let sourcePVCs := restorableVolumes source in
  let vols := rp_Volumes (rs_Spec r) in
  let selected := planVolumes (default [] vols) sourcePVCs (bool_decide (is_Some vols)) in
  foldM (planVolume r source byPVC selected) ([], []) (sort_strings sourcePVCs).

(** *** The repository *)

(** The key, or the reason and message of a gate. *)
Definition resolvePlatformDEKCommon (loc : SourceLocation) : ctlP (string + (string * string)) :=
  let kek := OperatorNamespace ++ "/" ++ sl_KEKSecret loc in
  let! identity := eng (own (EReadSecret OperatorNamespace (sl_KEKSecret loc) "identity")) in
  match identity with
  | Err e => Done (inr ("KEKUnavailable", "read cluster KEK secret " ++ kek ++ ": " ++ err_text e))
  | Ok identity =>
      let! bad := ask (RAgeIdentity identity) in
      match bad with
      | Some e => Done (inr ("KEKInvalid", "parse cluster KEK secret " ++ kek ++ ": " ++ err_text e))
      | None =>
          let! dek := ask (REnsureDEK (sl_Name loc)) in
          Done (match dek with
                | Ok dek => inl dek
                | Err e => inr ("DEKUnavailable", "ensure platform DEK for location " ++ sl_Name loc ++ ": " ++ err_text e)
                end)
      end
  end.

(** A gate, or an error, ends the pass; [inr] goes on. *)
Notation step A := (ctlP (passed + A)).
Definition stop {A} (p : ctlP passed) : step A := let! a := p in Done (inl a).
Definition stopErr {A} (e : gerr) : step A := Done (inl (failed e)).

Notation "'let>' x ':=' p 'in' q" :=
  (prog_bind p (fun r => match r with inl a => Done (inl a) | inr x => q end))
  (at level 200, x binder, right associativity).

(** The location of the source, its initialized repository and the key. *)
Definition resolveRepository (r : Restore) (locationName : string)
    : step (SourceLocation * BackupRepository * string) :=
  let! loc := ask (RGetLocation locationName) in
  match loc with
  | Err e =>
      if IsNotFound e then stop (restoreGate r "LocationNotFound" ("ClusterBackupLocation " ++ Quote locationName ++ " not found"))
      else stopErr (wrap_err ("get ClusterBackupLocation " ++ locationName) e)
  | Ok loc =>
      let notReady := stop (restoreGate r "RepositoryNotReady" ("BackupRepository " ++ Quote (sl_Name loc) ++ " is not initialized")) in
      let! repo := ask (RGetRepository (sl_Name loc)) in
      match repo with
      | Err e => if IsNotFound e then notReady else stopErr (wrap_err ("get BackupRepository " ++ sl_Name loc) e)
      | Ok repo =>
          if negb (br_Initialized repo) then notReady
          else
            let! dek := resolvePlatformDEKCommon loc in
            match dek with
            | inr (reason, message) => stop (restoreGate r reason message)
            | inl dek => Done (inr (loc, repo, dek))
            end
      end
  end.

Definition execContext (r : Restore) (source : Object KBackup) (loc : SourceLocation) (repo : BackupRepository)
    (dek : string) : restoreExecContext :=
  mkExecContext (rs_Name r) LabelRestore (owner r) (rs_Namespace r) (rp_Mode (rs_Spec r) =? RestoreModeRecreate)
    (o_name source) (sl_Name loc) (br_RepositoryURL repo) dek (sl_CredsSecret loc) (sl_S3Connections loc) (sl_ClusterID loc).

(** The tags of the filtered listing: this namespace, this run. *)
Definition listingTags (r : Restore) (run : string) : list string :=
  [Tag TagKeyNamespace (rs_Namespace r); Tag TagKeyRun run].

(** The snapshots the restore may read, and whether they were cached. *)
Definition resolveSnapshots (r : Restore) (run : string) (repo : BackupRepository)
    : step (gmap string Snapshot * list Snapshot * bool) :=
  let! cached := ask (RCached (rs_UID r) run) in
  match cached with
  | Some (byPVC, ms) => Done (inr (byPVC, ms, true))
  | None =>
      let! snaps := ask (RListFiltered (br_Name repo) (restoreResolveJobName (owner r)) (listingTags r run)) in
      match snaps with
      | Err e => stop (restoreGate r "SnapshotResolutionFailed" ("mediated snapshot resolution failed: " ++ err_text e))
      | Ok snaps => Done (inr (dataSnapshotsByPVC snaps, snaps, false))
      end
  end.

Definition prepare (r : Restore) (source : Object KBackup)
    : step (restoreExecContext * list restoreVolumePlan * option resourcesPlan) :=
  let '(kind, locationName) := bv_Location (o_body source) in
  if negb (kind =? kindClusterBackupLocationRef) then
    stop (restoreGate r "NamespacePlaneRestoreUnavailable"
      ("restoring from a namespace-plane BackupLocation lands with the namespace plane (M5); "
        ++ "this Backup references location kind BackupLocation"))
  else
    let> x := resolveRepository r locationName in
    let '(loc, repo, dek) := x in
    let rc := execContext r source loc repo dek in
    let> y := resolveSnapshots r (o_name source) repo in
    let '(byPVC, manifestSnaps, cached) := y in
    let! built := buildPlans r (o_body source) byPVC in
    let '(plans, missing) := built in
    match missing with
    | _ :: _ =>
        let! _ := ask (RForgetListing (rs_UID r)) in
        stop (restoreGate r "SnapshotNotFound"
          ("no snapshot under the namespace filter for PVC(s): " ++ clampMessage (joinFailures missing)))
    | [] =>
        let! _ := (if cached then Done tt else ask (RStore (rs_UID r) (o_name source) byPVC manifestSnaps)) in
        let resources := resolveResourcesPlan (rp_Resources (rs_Spec r)) (rp_Mode (rs_Spec r)) (rp_DryRun (rs_Spec r))
                           manifestSnaps ∅ in
        match resources with
        | Some _ =>
            if ManifestWriterClusterRole =? "" then
              stop (restoreGate r "ManifestRestoreUnavailable"
                ("this operator was not configured with --manifest-writer-cluster-role, so the "
                  ++ "resources[] half of a restore cannot run; restore volumes only with resources: []"))
            else Done (inr (rc, plans, resources))
        | None => Done (inr (rc, plans, None))
        end
    end.

(** *** The manifest half *)

Definition resourcesLabels (rc : restoreExecContext) : labels :=
  <[LabelMoverRole := MoverRoleManifest]> (<[LabelNamespace := rx_targetNamespace rc]>
    (<[rx_ownerLabelKey rc := rx_ownerName rc]> (<[LabelManagedBy := ManagedByValue]> ∅))).

Definition resourcesJobEnv (targetNamespace : string) (plan : resourcesPlan) : result (list (string * string)) :=
  match EncodeSelection (xp_selection plan) with
  | Err e => Err e
  | Ok selection =>
      let env := [("CRYSTAL_MANIFESTS_NAMESPACE", targetNamespace); ("CRYSTAL_MANIFESTS_RESTORE_DIR", ManifestsRestoreDir);
                  ("CRYSTAL_MANIFESTS_MODE", xp_mode plan); ("CRYSTAL_MANIFESTS_SELECTION", selection)] in
      let env := if xp_dryRun plan then (env ++ [("CRYSTAL_MANIFESTS_DRY_RUN", "true")])%list else env in
      if (0 <? size (xp_classMapping plan))%nat then
        match MarshalMap (xp_classMapping plan) with
        | Err e => Err (wrap_err "encode storageClassMapping" e)
        | Ok encoded => Ok (env ++ [("CRYSTAL_MANIFESTS_STORAGE_CLASS_MAPPING", encoded)])%list
        end
      else Ok env
  end.

Definition writerBinding (targetNamespace jobName : string) : RoleBinding :=
  mkRoleBinding (manifestBindingName jobName) targetNamespace
    (<[LabelManagedBy := ManagedByValue]> (<[LabelMoverRole := MoverRoleManifest]>
      (<[LabelMoverJob := jobName]> (<[LabelOperatorNS := OperatorNamespace]> ∅))))
    ManifestWriterClusterRole ManifestMoverServiceAccount OperatorNamespace.

Definition bindingText (what : string) (rb : RoleBinding) : string :=
  what ++ " transient RoleBinding " ++ rb_namespace rb ++ "/" ++ rb_name rb.

Definition resourcesJob (rc : restoreExecContext) (plan : resourcesPlan) (jobName : string) (env : list (string * string))
    : ResourcesJob :=
  mkResourcesJob jobName "manifests-restore"
    (ManifestsRestoreArgs (xp_snapshotID plan) (xp_snapshotPath plan) ManifestsRestoreDir)
    (rx_repoURL rc) (rx_s3Connections rc) jobName (resourcesLabels rc) ManifestMoverServiceAccount ManifestsRoot env.

(** The Secret, the grant, the Job; a Job that was not created takes the grant back. *)
Definition startResourcesJob (rc : restoreExecContext) (plan : resourcesPlan) (jobName : string) : ctlP (option gerr) :=
  let! cerr := eng (ensureRestoreCreds OperatorNamespace rc jobName (resourcesLabels rc)) in
  match cerr with
  | Some e => Done (Some e)
  | None =>
      let rb := writerBinding (rx_targetNamespace rc) jobName in
      let! berr := ask (RCreateBinding rb) in
      match (match berr with Some e => if IsAlreadyExists e then None else Some e | None => None end) with
      | Some e => Done (Some (wrap_err (bindingText "create" rb ++ " to " ++ ManifestWriterClusterRole) e))
      | None =>
          match resourcesJobEnv (rx_targetNamespace rc) plan with
          | Err e => Done (Some e)
          | Ok env =>
              let! jerr := ask (RCreateResourcesJob (resourcesJob rc plan jobName env)) in
              match jerr with
              | Some e =>
                  if IsAlreadyExists e then Done None
                  else
                    let! _ := ask (RDeleteBinding (rx_targetNamespace rc) (manifestBindingName jobName)) in
                    Done (Some (wrap_err ("create manifest restore Job " ++ OperatorNamespace ++ "/" ++ jobName) e))
              | None => Done None
              end
          end
      end
  end.

(** What a finished apply leaves in the status. *)
Definition recordResources (res : result MoverResult) (s : RestoreStatus) : RestoreStatus :=
  match res with
  | Err e =>
      set_rt_resources (rt_RestoredResources s)
        (mkRestoreResourcesStatus 1 false
          [failedEntry ("the manifest restore did not report a result (" ++ err_text e ++ "); "
            ++ "some resources may have been applied — see the mover's pod log")]) s
  | Ok m =>
      if negb (mr_OK m) then
        set_rt_resources (rt_RestoredResources s)
          (mkRestoreResourcesStatus 1 false [failedEntry (clampMessage (mr_Error m))]) s
      else set_rt_resources (mr_RestoredResources m) (resourcesStatusFrom m) s
  end.

(** Whether the half is done, whether its Job is to be torn down, an error, the status. *)
Definition advanceResources (r : Restore) (rc : restoreExecContext) (plan : option resourcesPlan)
    : ctlP (bool * bool * option gerr * RestoreStatus) :=
  let s := rs_Status r in
  match plan, rt_Resources s with
  | None, _ | _, Some _ => Done (true, false, None, s)
  | Some plan, None =>
      let jobName := manifestsJobName (resourcesJobPrefix (rx_ownerID rc)) in
      let! job := kubeP (get KJob OperatorNamespace jobName) in
      match job with
      | Err e =>
          if IsNotFound e then let! err := startResourcesJob rc plan jobName in Done (false, false, err, s)
          else Done (false, false, Some (wrap_err ("get manifest restore Job " ++ OperatorNamespace ++ "/" ++ jobName) e), s)
      | Ok job =>
          if (js_Succeeded (o_body job) =? 0)%Z && (js_Failed (o_body job) =? 0)%Z then Done (false, false, None, s)
          else
            let! pods := eng (own (EListPods jobName)) in
            Done (true, true, None, recordResources (fst (readMoverResult Unmarshal Quote OperatorNamespace pods jobName)) s)
      end
  end.

Definition teardownResources (rc : restoreExecContext) : ctlP () :=
  let jobName := manifestsJobName (resourcesJobPrefix (rx_ownerID rc)) in
  let! _ := ask (RDeleteBinding (rx_targetNamespace rc) (manifestBindingName jobName)) in
  eng (deleteJobAndSecret OperatorNamespace jobName).

(** *** The pass *)

Definition newline : string := String (ascii_of_nat 10) "".

Definition joinErrors (a b : option gerr) : option gerr :=
  match a, b with
  | Some a, Some b => Some (errorf (err_text a ++ newline ++ err_text b))
  | Some a, None => Some (errorf (err_text a))
  | None, Some b => Some (errorf (err_text b))
  | None, None => None
  end.

(** More passes are needed: a volume, the tally or the manifest half is not settled. *)
Definition unsettled (d : volumeDrive) (plans : list restoreVolumePlan) (resourcesDone : bool) : bool :=
  negb (tallied d) || (settled d <? Z.of_nat (List.length plans))%Z || negb resourcesDone.

Definition continueRestore (r : Restore) (rc : restoreExecContext) (d : volumeDrive) (resourcesDone teardown : bool)
    (resourcesErr : option gerr) : ctlP passed :=
  let s := set_rt_phase RestorePhaseRunning (rs_Status r) in
  let s := if tallied d then stampVolumeCounts (d_tally d) s else s in
  let s := set_rt_condition ConditionReady ConditionFalse "InProgress"
             (restoreProgressMessage d (", manifests " ++ doneWord resourcesDone)) (rs_Generation r) s in
  let! err := ask (RStatusUpdate s) in
  match err with
  | Some e => Done (failed (wrap_err ("update status for Restore " ++ restoreName r) e))
  | None =>
      let! _ := (if teardown then teardownResources rc else Done tt) in
      Done (match joinErrors resourcesErr (d_passErr d) with
            | Some e => failed e
            | None => (RequeueAfter restorePollInterval, None)
            end)
  end.

(** The units of work that were done and that failed: volumes and resources. *)
Definition unitsDone (d : volumeDrive) (s : RestoreStatus) : Z :=
  match rt_Resources s with Some _ => (completed d + rt_RestoredResources s)%Z | None => completed d end.
Definition unitsFailed (d : volumeDrive) (s : RestoreStatus) : Z :=
  match rt_Resources s with Some x => (failedCount d + rr_FailedCount x)%Z | None => failedCount d end.

Definition terminalStatus (r : Restore) (d : volumeDrive) : RestoreStatus :=
  let s := rs_Status r in
  let phase := RollUpRestoreOutcomes (unitsDone d s) (unitsFailed d s) in
  setRestoreTerminalCondition phase (d_failures d) (rs_Generation r)
    (set_rt_bytes (d_restoredBytes d) (stampVolumeCounts (d_tally d) (set_rt_phase phase s))).

Definition finishRestore (r : Restore) (rc : restoreExecContext) (plans : list restoreVolumePlan) (d : volumeDrive)
    (teardown : bool) : ctlP passed :=
  let! err := ask (RStatusUpdate (terminalStatus r d)) in
  match err with
  | Some e => Done (failed (wrap_err ("update status for Restore " ++ restoreName r) e))
  | None =>
      let! _ := (if teardown then teardownResources rc else Done tt) in
      let! _ := eng (teardownAll OperatorNamespace rc plans) in
      let! _ := ask (RForget (rs_UID r) (rx_ownerID rc)) in
      Done (noResult, None)
  end.

(** Everything below the confirmation, once the source is known. *)
Definition driveRestore (r : Restore) (source : Object KBackup) : ctlP passed :=
  let r := if IsConditionTrue (rt_Conditions (rs_Status r)) ConditionConfirmed then r
           else set_status (set_rt_condition ConditionConfirmed ConditionTrue "ConfirmationAccepted"
                  "spec.confirmation matches the target namespace" (rs_Generation r) (rs_Status r)) r in
  let! prepared := prepare r source in
  match prepared with
  | inl a => Done a
  | inr (rc, plans, resources) =>
      let! half := advanceResources r rc resources in
      let '(resourcesDone, teardown, resourcesErr, s) := half in
      let r := set_status s r in
      let! d := eng (driveVolumes OperatorNamespace hasQueue Unmarshal Quote rc plans) in
      if unsettled d plans resourcesDone then continueRestore r rc d resourcesDone teardown resourcesErr
      else finishRestore r rc plans d teardown
  end.

Definition reconcileRestore (r : Restore) : ctlP passed :=
  if rs_Deleting r then finalizeRestore r
  else if negb (existsb (String.eqb FinalizerRestore) (rs_Finalizers r)) then
    let! err := ask (RUpdate (rs_Finalizers r ++ [FinalizerRestore])) in
    Done (match err with
          | Some e => failed (wrap_err ("add finalizer to Restore " ++ restoreName r) e)
          | None => (mkResult true 0, None)
          end)
  else if IsTerminalRestorePhase (rt_Phase (rs_Status r)) then Done (noResult, None)
  else if negb (rp_Confirmation (rs_Spec r) =? rs_Namespace r) then awaitConfirmation r
  else if badSourceTime (rs_Time (rp_Source (rs_Spec r))) then
    restoreGate r "InvalidSourceTime"
      ("spec.source.time " ++ Quote (rs_Time (rp_Source (rs_Spec r))) ++ " is not " ++ quoted "latest"
        ++ " or a valid RFC3339 timestamp")
  else
    let! source := resolveSource r in
    match source with
    | Err e => Done (failed e)
    | Ok None => restoreGate r "SourceBackupNotFound"
                   "no Backup in this namespace matches spec.source (it may not be projected yet)"
    | Ok (Some source) => driveRestore r source
    end.
End Controller.
