(* ===== verification/RestoreSafety.v ===== *)
(** * RestoreSafety: what a pass over a Restore may do

    Theorems about [RestoreController.reconcileRestore]: what an unconfirmed or
    finished Restore costs, what a terminal status rests on, when the Jobs that are
    the restore's durable state may go, which snapshots it may read. *)

From Stdlib Require Import Ascii String.
From S2P Require Import Prelude GoText Cluster Names Status Selectors MoverResult Restic VolumeMachine.
From S2P Require Import Backup.
From S2P Require Import Location.
From S2P Require Import Manifests.
From S2P Require Import BackupPass.
From S2P Require Import ManifestSelection.
From S2P Require Import RestoreExposer.
From S2P Require Import RestoreEngine.
From S2P Require Import RestoreController.
From S2P Require Import Program.
From S2P Require Import Api.

#[local] Open Scope string_scope.

(** ** What the parts may ask for *)

(** Of the objects of the cluster, only claims and volumes are deleted. *)
Definition spares (r : request) : Prop :=
  match r with ADelete k _ _ => k = KPVC \/ k = KPV | _ => True end.

Ltac kube_only := asks_only ltac:(fail); cbn; auto.

Lemma TargetExpose_spares opns req : only (I := kube) spares (TargetExpose opns req).
Proof.
  unfold TargetExpose, exposeTwin, exposeTransplant, attachedNode, mustCreate, get, list_, create. kube_only.
Qed.

Lemma TargetReady_spares ex : only (I := kube) spares (TargetReady ex).
Proof. unfold TargetReady, get. kube_only. Qed.

Lemma handOver_spares ex pv : only (I := kube) spares (handOver ex pv).
Proof.
  unfold handOver, bindFinal, createFinalPVC, releaseVolume, storageClassReclaimPolicy, mustCreate, mustPatch,
    get, create, patch. kube_only.
Qed.

Lemma Finalize_spares ex : only (I := kube) spares (Finalize ex).
Proof.
  unfold Finalize, retainAndReleaseStaging, findTransplantPV, must, mustPatch, delete, get, list_, patch.
  asks_only ltac:(apply handOver_spares); cbn; auto.
Qed.

Lemma TargetCleanup_spares ex : only (I := kube) spares (TargetCleanup ex).
Proof.
  unfold TargetCleanup, reclaimUnfinishedTransplant, findTransplantPV, must, mustPatch, delete, get, list_, patch.
  asks_only ltac:(apply handOver_spares); cbn; auto.
Qed.

(** The engine's part of a pass: driving deletes no Job and no Secret. *)
Definition engineSpares (o : action restI) : Prop := match o with inl r => spares r | inr _ => True end.

Ltac engine_only :=
  asks_only ltac:(first
    [ eapply only_impl; [|apply TargetExpose_spares]; done
    | eapply only_impl; [|apply TargetReady_spares]; done
    | eapply only_impl; [|apply Finalize_spares]; done ]); cbn; auto.

Section Engine.
Context (OperatorNamespace : string) (hasQueue : bool) (Unmarshal : string -> result MoverResult) (Quote : string -> string).

Lemma startVolume_spares rc plan prefix jobName b :
  only engineSpares (startVolume OperatorNamespace hasQueue Quote rc plan prefix jobName b).
Proof. unfold startVolume, createMover, ensureRestoreCreds, k8s, own. engine_only. Qed.

Lemma pollVolume_spares rc plan prefix job :
  only engineSpares (pollVolume OperatorNamespace Unmarshal Quote rc plan prefix job).
Proof.
  unfold pollVolume, moverStuckPending, resolveMoverOutcome, settleFailed, settleRestored, exposureKind, k8s, own, get.
  engine_only.
Qed.

Lemma driveVolumes_spares rc plans :
  only engineSpares (driveVolumes OperatorNamespace hasQueue Unmarshal Quote rc plans).
Proof.
  unfold driveVolumes, ownerRunningMovers, driveOne, adviseVolume, k8s, own, get, list_.
  asks_only ltac:(first [apply startVolume_spares|apply pollVolume_spares]); cbn; auto.
Qed.
End Engine.

(** ** Taking a pass apart *)

Section Runs.
Context {CS : ConditionStore}.

Lemma ask_runs (o : restore_action) tr x : runs (ask o) tr x -> tr = [Ev (I := ctlI) (inr o) x].
Proof. intros H. exact (proj1 (runs_callR (I := restI) (J := restoreI) o tr x) H). Qed.

Lemma eng_runs {A} (p : rest A) tr a : runs (eng p) tr a -> exists t, tr = map (evL restoreI) t /\ runs p t a.
Proof. apply runs_inject. Qed.

End Runs.

#[local] Notation did o x := (Ev (I := ctlI) (inr o) x).
#[local] Notation engEv e := (evL restoreI e).

(** Takes the first request, or sub-program, off the program of a hypothesis. *)
Ltac turn H :=
  lazymatch type of H with
  | runs (prog_bind _ _) _ _ =>
      let t1 := fresh "t" in let t2 := fresh "tr" in let a := fresh "x" in let H1 := fresh "R" in
      apply runs_bind in H as (t1 & t2 & a & -> & H1 & H); cbv beta in H;
      first [ apply ask_runs in H1; subst t1
            | let u := fresh "u" in apply eng_runs in H1 as (u & -> & H1)
            | idtac ]
  | runs (Done _) _ _ => destruct H as [-> H]; try simplify_eq
  | runs (match ?x with _ => _ end) _ _ => let E := fresh "E" in destruct x eqn:E
  end.

(** ** The snapshots of a restore *)

Definition isDataOf (pvc : string) (s : Snapshot) : Prop :=
  TagValue (s_Tags s) TagKeyKind = Some KindData /\ TagValue (s_Tags s) TagKeyPVC = Some pvc /\ pvc <> "".

Lemma data_tag s : (negb (default "" (TagValue (s_Tags s) TagKeyKind) =? KindData)) = false <-> TagValue (s_Tags s) TagKeyKind = Some KindData.
Proof.
  rewrite negb_false_iff, String.eqb_eq. destruct (TagValue _ _); cbn; [by split; [intros ->|intros [= ->]]|done].
Qed.

Lemma isDataOf_fun p q s : isDataOf p s -> isDataOf q s -> p = q.
Proof. intros (_ & H & _) (_ & H' & _). congruence. Qed.

Lemma indexSnapshot_cases m s :
  (indexSnapshot m s = m /\ forall pvc, isDataOf pvc s -> exists prev, m !! pvc = Some prev /\ (s_Time s <= s_Time prev)%Z)
  \/ exists pvc, indexSnapshot m s = <[pvc := s]> m /\ isDataOf pvc s
       /\ (forall prev, m !! pvc = Some prev -> (s_Time prev < s_Time s)%Z).
Proof.
  unfold indexSnapshot. destruct (negb _) eqn:Ek.
  { left. split; [done|]. intros pvc [H _]. apply data_tag in H. congruence. }
  apply data_tag in Ek. destruct (TagValue (s_Tags s) TagKeyPVC) as [pvc|] eqn:Ep.
  2: { left. split; [done|]. intros pvc (_ & H & _). congruence. }
  destruct (String.eqb_spec pvc "") as [->|Hne].
  { left. split; [done|]. intros pvc (_ & H & Hn). congruence. }
  assert (isDataOf pvc s) as Hd by done. unfold newerOf, time_after. destruct (m !! pvc) as [prev|] eqn:Em.
  - destruct (_ <? _)%Z eqn:Et.
    + right. exists pvc. split_and!; [done..|]. intros prev' E. rewrite Em in E. injection E as <-. lia.
    + left. split; [done|]. intros q Hq. rewrite (isDataOf_fun _ _ _ Hq Hd). exists prev. split; [done|lia].
  - right. exists pvc. split_and!; [done..|]. intros prev E. congruence.
Qed.

(** What the index holds of a claim: a data snapshot of it, none newer among them;
    nothing, when the listing has none. *)
Lemma dataSnapshotsByPVC_spec snaps pvc :
  match dataSnapshotsByPVC snaps !! pvc with
  | Some s => s ∈ snaps /\ isDataOf pvc s /\ forall s', s' ∈ snaps -> isDataOf pvc s' -> (s_Time s' <= s_Time s)%Z
  | None => forall s', s' ∈ snaps -> ~ isDataOf pvc s'
  end.
Proof.
  induction snaps as [|x snaps IH] using rev_ind; [unfold dataSnapshotsByPVC; cbn; rewrite lookup_empty; intros s' H; by apply not_elem_of_nil in H|].
  unfold dataSnapshotsByPVC in *. rewrite fold_left_app. cbn [fold_left]. set (m := fold_left indexSnapshot snaps ∅) in *.
  destruct (indexSnapshot_cases m x) as [[-> Hx]|(q & -> & Hq & Hnew)].
  - destruct (m !! pvc) as [s|] eqn:Em.
    + destruct IH as (H1 & H2 & H3). split_and!; [set_solver|done|]. intros s' [Hs'| ->%list_elem_of_singleton]%elem_of_app Hd; [by apply H3|].
      destruct (Hx _ Hd) as (prev & Hp & Hle). rewrite Em in Hp. by injection Hp as <-.
    + intros s' [Hs'| ->%list_elem_of_singleton]%elem_of_app Hd; [by eapply IH|].
      destruct (Hx _ Hd) as (prev & Hp & _). congruence.
  - destruct (decide (q = pvc)) as [->|Hne].
    + rewrite lookup_insert_eq. split_and!; [set_solver|done|].
      intros s' [Hs'| ->%list_elem_of_singleton]%elem_of_app Hd; [|lia].
      destruct (m !! pvc) as [prev|] eqn:Em; [|by destruct (IH _ Hs')].
      destruct IH as (_ & _ & H3). specialize (H3 _ Hs' Hd). specialize (Hnew _ eq_refl). lia.
    + rewrite lookup_insert_ne by done. destruct (m !! pvc) as [s|].
      * destruct IH as (H1 & H2 & H3). split_and!; [set_solver|done|].
        intros s' [Hs'| ->%list_elem_of_singleton]%elem_of_app Hd; [by apply H3|].
        by destruct (Hne (isDataOf_fun _ _ _ Hq Hd)).
      * intros s' [Hs'| ->%list_elem_of_singleton]%elem_of_app Hd; [by eapply IH|].
        by destruct (Hne (isDataOf_fun _ _ _ Hq Hd)).
Qed.

Lemma newestOfKind_spec kind snaps acc s :
  newestOfKind kind snaps acc = Some s ->
  acc = Some s \/ (s ∈ snaps /\ default "" (TagValue (s_Tags s) TagKeyKind) = kind).
Proof.
  revert acc. induction snaps as [|x snaps IH]; intros acc H; cbn in H; [by left|].
  apply IH in H as [H|[H1 H2]]; [|right; split; [by right|done]].
  destruct (_ =? _) eqn:Ek; cbn in H; [|by left]. apply String.eqb_eq in Ek.
  destruct acc as [n|]; [|injection H as <-; right; split; [left|done]].
  destruct (time_after _ _); [injection H as <-; right; split; [left|done]|by left].
Qed.

Lemma resources_from_snaps resources mode dry snaps classes plan :
  resolveResourcesPlan resources mode dry snaps classes = Some plan ->
  exists snap, snap ∈ snaps /\ default "" (TagValue (s_Tags snap) TagKeyKind) = KindManifests /\ xp_snapshotID plan = s_ID snap.
Proof.
  unfold resolveResourcesPlan. intros H.
  assert (exists snap, manifestsSnapshot snaps = Some snap /\ xp_snapshotID plan = s_ID snap) as (snap & Hs & Hid).
  { destruct resources as [[|]|]; [done| |]; destruct (manifestsSnapshot snaps) as [snap|]; try done; injection H as <-; by exists snap. }
  apply newestOfKind_spec in Hs as [|[H1 H2]]; [done|]. by exists snap.
Qed.

Section Plans.
Context {CS : ConditionStore}.

(** *** The plans *)

Lemma planVolumes_lookup vols pvcs has pvc :
  planVolumes vols pvcs has !! pvc = if decide (pvc ∈ pvcs) then selectedAs vols has pvc else None.
Proof.
  unfold planVolumes. induction pvcs as [|x pvcs IH] using rev_ind; [done|].
  rewrite fold_left_app. cbn [fold_left]. destruct (selectedAs vols has x) as [item|] eqn:Ex.
  - destruct (decide (x = pvc)) as [->|Hne].
    + rewrite lookup_insert_eq, decide_True, Ex by set_solver. done.
    + rewrite lookup_insert_ne, IH by done. repeat case_decide; set_solver.
  - rewrite IH. destruct (decide (x = pvc)) as [->|Hne]; repeat case_decide; try done; try set_solver.
Qed.

(** A plan is that of its claim, as the selection and the snapshots have it. *)
Definition planned (r : Restore) (byPVC : gmap string Snapshot) (plan : restoreVolumePlan) : Prop :=
  exists snap item,
    byPVC !! pl_pvc plan = Some snap
    /\ selectedAs (default [] (rp_Volumes (rs_Spec r))) (bool_decide (is_Some (rp_Volumes (rs_Spec r)))) (pl_pvc plan) = Some item
    /\ pl_snapshotID plan = s_ID snap /\ pl_snapshotPath plan = "/data/" ++ rs_Namespace r ++ "/" ++ pl_pvc plan
    /\ pl_include plan = match item with Some i => vi_Include i | None => [] end
    /\ pl_exclude plan = match item with Some i => vi_Exclude i | None => [] end
    /\ pl_targetPath plan = match item with Some i => vi_TargetPath i | None => "" end.

Definition isSelected (r : Restore) (pvc : string) : bool :=
  match selectedAs (default [] (rp_Volumes (rs_Spec r))) (bool_decide (is_Some (rp_Volumes (rs_Spec r)))) pvc with
  | Some _ => true | None => false
  end.

Lemma sizePlan_keeps ns size snap plan tr plan' :
  runs (sizePlan ns size snap plan) tr plan' ->
  pl_pvc plan' = pl_pvc plan /\ pl_snapshotID plan' = pl_snapshotID plan /\ pl_snapshotPath plan' = pl_snapshotPath plan
  /\ pl_include plan' = pl_include plan /\ pl_exclude plan' = pl_exclude plan /\ pl_targetPath plan' = pl_targetPath plan.
Proof. unfold sizePlan. intros H. turn H. destruct x; turn H; by split_and!. Qed.

Lemma planVolume_runs r source byPVC selected acc pvc tr acc' :
  (forall item, selected !! pvc = Some item ->
     selectedAs (default [] (rp_Volumes (rs_Spec r))) (bool_decide (is_Some (rp_Volumes (rs_Spec r)))) pvc = Some item) ->
  runs (planVolume r source byPVC selected acc pvc) tr acc' ->
  acc' = acc /\ selected !! pvc = None
  \/ acc' = (fst acc, (snd acc ++ [pvc])%list) /\ is_Some (selected !! pvc) /\ byPVC !! pvc = None
  \/ exists plan, acc' = ((fst acc ++ [plan])%list, snd acc) /\ pl_pvc plan = pvc /\ is_Some (selected !! pvc)
     /\ planned r byPVC plan.
Proof.
  unfold planVolume. intros Hs H. destruct (selected !! pvc) as [item|] eqn:Es; [|left; by turn H].
  right. destruct (byPVC !! pvc) as [snap|] eqn:Eb; [|left; turn H; split_and!; by eauto].
  right. turn H. turn H. apply sizePlan_keeps in R as (K1 & K2 & K3 & K4 & K5 & K6). cbn in *.
  exists x. split_and!; [done|done|by eauto|]. exists snap, item. rewrite K1. split_and!; try done. by apply Hs.
Qed.

Lemma buildPlans_spec r source byPVC tr plans missing :
  runs (buildPlans r source byPVC) tr (plans, missing) ->
  Forall (planned r byPVC) plans
  /\ Forall (fun pvc => byPVC !! pvc = None /\ isSelected r pvc = true) missing
  /\ (missing = [] -> map pl_pvc plans = List.filter (isSelected r) (sort_strings (restorableVolumes source))).
Proof.
  unfold buildPlans. set (selected := planVolumes _ _ _).
  assert (forall l acc tr plans missing,
    (forall pvc, pvc ∈ l -> pvc ∈ restorableVolumes source) ->
    runs (foldM (planVolume r source byPVC selected) acc l) tr (plans, missing) ->
    exists new gone, plans = (fst acc ++ new)%list /\ missing = (snd acc ++ gone)%list
      /\ Forall (planned r byPVC) new /\ Forall (fun pvc => byPVC !! pvc = None /\ isSelected r pvc = true) gone
      /\ (gone = [] -> map pl_pvc new = List.filter (isSelected r) l)) as H.
  { induction l as [|pvc l IH]; intros acc t ps ms Hl H.
    - destruct H as [-> H]. exists [], []. rewrite !app_nil_r. destruct acc. injection H as <- <-. by split_and!.
    - apply foldM_cons in H as (t1 & t2 & acc1 & -> & H1 & H2).
      assert (selected !! pvc = selectedAs (default [] (rp_Volumes (rs_Spec r))) (bool_decide (is_Some (rp_Volumes (rs_Spec r)))) pvc) as Es.
      { unfold selected. rewrite planVolumes_lookup, decide_True; [done|]. apply Hl. left. }
      apply IH in H2 as (new & gone & -> & -> & Hn & Hg & Hm); [|intros p Hp; apply Hl; by right].
      apply planVolume_runs in H1 as [[-> E]|[(-> & E & Eb)|(plan & -> & Ep & E & Hp)]]; [| | |intros item; by rewrite Es];
        rewrite Es in E.
      + exists new, gone. split_and!; try done. intros Hgo. cbn [List.filter]. unfold isSelected at 1. rewrite E. by apply Hm.
      + exists new, (pvc :: gone). cbn [fst snd]. rewrite <-app_assoc. split_and!; try done.
        constructor; [|done]. split; [done|]. unfold isSelected. by destruct E as [? ->].
      + exists (plan :: new), gone. cbn [fst snd]. rewrite <-app_assoc. split_and!; try done; [by constructor|].
        intros Hgo. cbn [map List.filter]. unfold isSelected at 1. destruct E as [? ->]. by rewrite Ep, Hm. }
  intros Hr. apply H in Hr as (new & gone & -> & -> & Hn & Hg & Hm); [by split_and!|].
  intros pvc Hp. by rewrite sort_strings_perm in Hp.
Qed.

End Plans.

(** ** The controller *)

Section Safety.
Context {CS : ConditionStore}.
Context (OperatorNamespace ManifestMoverServiceAccount ManifestWriterClusterRole : string) (hasQueue : bool).
Context (Unmarshal : string -> result MoverResult) (Quote : string -> string) (TimeParse : string -> string -> option Z).
Context (EncodeSelection : Selection -> result string) (MarshalMap : labels -> result string).

Notation reconcile := (reconcileRestore OperatorNamespace ManifestMoverServiceAccount ManifestWriterClusterRole hasQueue
  Unmarshal Quote TimeParse EncodeSelection MarshalMap).
Notation drivingPass := (driveRestore OperatorNamespace ManifestMoverServiceAccount ManifestWriterClusterRole hasQueue
  Unmarshal Quote EncodeSelection MarshalMap).
Notation preparing := (prepare OperatorNamespace ManifestWriterClusterRole Quote).
Notation resolving := (resolveSource TimeParse).
Notation advancing := (advanceResources OperatorNamespace ManifestMoverServiceAccount ManifestWriterClusterRole Unmarshal Quote
  EncodeSelection MarshalMap).
Notation driving := (driveVolumes OperatorNamespace hasQueue Unmarshal Quote).

(** *** Parked passes *)

(** No Job or Secret goes, and no status is terminal. *)
Definition parked (o : action ctlI) : Prop :=
  match o with
  | inl (inl r) => spares r
  | inl (inr _) => True
  | inr (RStatusUpdate s) => IsTerminalRestorePhase (rt_Phase s) = false
  | inr _ => True
  end.

(** ... nor is a status written at all. *)
Definition working (o : action ctlI) : Prop :=
  match o with
  | inl (inl r) => spares r
  | inl (inr _) => True
  | inr (RStatusUpdate _) => False
  | inr _ => True
  end.

Ltac ctl_only := asks_only ltac:(fail); cbn; auto.

Lemma restoreGate_parked r reason message : only parked (restoreGate r reason message).
Proof. unfold restoreGate, writeStatus, ask. ctl_only. Qed.

Lemma awaitConfirmation_parked r : only parked (awaitConfirmation Quote r).
Proof. unfold awaitConfirmation, writeStatus, ask. ctl_only. Qed.

Lemma resolveSource_working r : only working (resolving r).
Proof. unfold resolveSource, getSource, kubeP, eng, k8s, get, list_, ask. ctl_only. Qed.

Lemma resolvePlatformDEK_parked loc : only parked (resolvePlatformDEKCommon OperatorNamespace loc).
Proof. unfold resolvePlatformDEKCommon, eng, own, ask. ctl_only. Qed.

Lemma buildPlans_parked r source byPVC : only parked (buildPlans r source byPVC).
Proof. unfold buildPlans, planVolume, sizePlan, kubeP, eng, k8s, get. ctl_only. Qed.

Lemma prepare_parked r source : only parked (preparing r source).
Proof.
  unfold prepare, resolveRepository, resolveSnapshots, stop, stopErr, ask.
  asks_only ltac:(first [apply restoreGate_parked|apply resolvePlatformDEK_parked|apply buildPlans_parked]); cbn; auto.
Qed.

Lemma advanceResources_working r rc plan : only working (advancing r rc plan).
Proof.
  unfold advanceResources, startResourcesJob, ensureRestoreCreds, kubeP, eng, k8s, own, get, ask. ctl_only.
Qed.

Lemma driving_working rc plans : only working (eng (driving rc plans)).
Proof.
  unfold eng. apply only_inject. eapply only_impl; [|apply driveVolumes_spares]. by intros [[]|].
Qed.

Lemma working_parked o : working o -> parked o.
Proof. by destruct o as [[]|[]]. Qed.

(** *** A pass, taken apart *)

(** A pass that drives: the source it resolved, the plans it prepared, the manifest
    half, the volumes, and how it ends. *)
Record driven (r : Restore) (tr : list act) (a : passed) := mkDriven {
  dn_source : Object KBackup;
  dn_confirmed : Restore;
  dn_rc : restoreExecContext;
  dn_plans : list restoreVolumePlan;
  dn_resources : option resourcesPlan;
  dn_done : bool; dn_teardown : bool; dn_err : option gerr; dn_status : RestoreStatus;
  dn_drive : volumeDrive;
  dn_resolving : list act; dn_preparing : list act; dn_advancing : list act; dn_driving : list deed; dn_ending : list act;
  dn_split : tr = (dn_resolving ++ dn_preparing ++ dn_advancing ++ map (evL restoreI) dn_driving ++ dn_ending)%list;
  dn_same : rs_Namespace dn_confirmed = rs_Namespace r /\ rs_Name dn_confirmed = rs_Name r
            /\ rs_UID dn_confirmed = rs_UID r /\ rs_Spec dn_confirmed = rs_Spec r
            /\ rt_Resources (rs_Status dn_confirmed) = rt_Resources (rs_Status r);
  dn_resolved : runs (resolving r) dn_resolving (Ok (Some dn_source));
  dn_prepared : runs (preparing dn_confirmed dn_source) dn_preparing (inr (dn_rc, dn_plans, dn_resources));
  dn_advanced : runs (advancing dn_confirmed dn_rc dn_resources) dn_advancing (dn_done, dn_teardown, dn_err, dn_status);
  dn_drove : runs (driving dn_rc dn_plans) dn_driving dn_drive;
  dn_ended : runs (if unsettled dn_drive dn_plans dn_done
                   then continueRestore OperatorNamespace (set_status dn_status dn_confirmed) dn_rc dn_drive dn_done dn_teardown dn_err
                   else finishRestore OperatorNamespace (set_status dn_status dn_confirmed) dn_rc dn_plans dn_drive dn_teardown)
               dn_ending a
}.

(** A pass over a live Restore is parked, or it drives a confirmed one. *)
Lemma restore_cases r tr a :
  runs (reconcile r) tr a -> rs_Deleting r = false ->
  Forall (fun e => parked (ev_action e)) tr
  \/ (rp_Confirmation (rs_Spec r) = rs_Namespace r /\ IsTerminalRestorePhase (rt_Phase (rs_Status r)) = false
      /\ inhabited (driven r tr a)).
Proof.
  unfold reconcileRestore. intros H Hd. rewrite Hd in H. destruct (negb (existsb _ _)).
  { left. turn H. turn H. repeat constructor. }
  destruct (IsTerminalRestorePhase _) eqn:Et; [left; turn H; constructor|].
  destruct (negb (_ =? _)) eqn:Ec; [left; eapply only_runs; [apply awaitConfirmation_parked|done]|].
  apply negb_false_iff, String.eqb_eq in Ec.
  destruct (badSourceTime _ _); [left; eapply only_runs; [apply restoreGate_parked|done]|].
  turn H. pose proof (only_runs _ _ _ _ (resolveSource_working r) R) as Hw.
  assert (Forall (fun e => parked (ev_action e)) t) as Hp by (eapply Forall_impl; [exact Hw|intros e; apply working_parked]).
  destruct x as [[source|]|e];
    [|left; apply Forall_app; split; [done|]; eapply only_runs; [apply restoreGate_parked|done]
     |left; turn H; by rewrite app_nil_r].
  unfold driveRestore in H. set (r1 := if IsConditionTrue _ _ then _ else _) in H.
  assert (rs_Namespace r1 = rs_Namespace r /\ rs_Name r1 = rs_Name r /\ rs_UID r1 = rs_UID r /\ rs_Spec r1 = rs_Spec r
          /\ rt_Resources (rs_Status r1) = rt_Resources (rs_Status r)) as Hsame by (by unfold r1; destruct (IsConditionTrue _ _)).
  clearbody r1. turn H. destruct x as [b|[[rc plans] res]].
  { left. turn H. rewrite app_nil_r. apply Forall_app. split; [done|]. eapply only_runs; [apply prepare_parked|done]. }
  turn H. destruct x as [[[done td] err] s]. turn H. right. split_and!; [done|done|]. constructor. by econstructor.
Qed.

(** *** Confirmation and finality *)

(** All a pass did was to write that it waits, with the results recorded before. *)
Definition only_waits (r : Restore) (tr : list act) : Prop :=
  exists s err, tr = [did (RStatusUpdate s) err] /\ rt_Phase s = RestorePhaseAwaitingConfirmation
    /\ rt_Resources s = rt_Resources (rs_Status r) /\ rt_RestoredVolumes s = rt_RestoredVolumes (rs_Status r).

(** C6. A Restore that is not confirmed destroys nothing, and one that is over is left alone.
    A pass over a Restore that is not being deleted, and is unconfirmed or over, makes at most
    one request: it adds the finalizer where that is missing, confirmed or not, over or not;
    where the finalizer is in place, it asks for nothing at all when the Restore is over, and
    otherwise only writes in the status that it waits for the confirmation. (A Restore being
    deleted runs its finalizer instead, whatever its state.) *)
Theorem unconfirmed_or_over_touches_nothing (r : Restore) tr (a : passed) :
  runs (reconcile r) tr a -> rs_Deleting r = false ->
  rp_Confirmation (rs_Spec r) <> rs_Namespace r \/ IsTerminalRestorePhase (rt_Phase (rs_Status r)) = true ->
  (existsb (String.eqb FinalizerRestore) (rs_Finalizers r) = false
   /\ exists err, tr = [did (RUpdate (rs_Finalizers r ++ [FinalizerRestore])) err])
  \/ (IsTerminalRestorePhase (rt_Phase (rs_Status r)) = true /\ tr = [] /\ a = (noResult, None))
  \/ (IsTerminalRestorePhase (rt_Phase (rs_Status r)) = false /\ only_waits r tr).
Proof.
  unfold reconcileRestore. intros H Hd Hc. rewrite Hd in H.
  destruct (existsb _ _) eqn:Ef; cbn [negb] in H.
  2: { left. split; [done|]. turn H. turn H. by exists x. }
  right. destruct (IsTerminalRestorePhase _) eqn:Et; [left; by turn H|]. right. split; [done|].
  destruct Hc as [Hc|]; [|done]. apply String.eqb_neq in Hc. rewrite Hc in H. cbn [negb] in H.
  unfold awaitConfirmation, writeStatus in H. turn H. turn H. eexists _, x. split_and!; reflexivity.
Qed.

(** *** A terminal status is earned *)

(** Requests other than a status write. *)
Definition silent (o : action ctlI) : Prop := match o with inr (RStatusUpdate _) => False | _ => True end.

Lemma silent_absent tr s x : Forall (fun e => silent (ev_action e)) tr -> did (RStatusUpdate s) x ∉ tr.
Proof. rewrite Forall_forall. intros H Hin. exact (H _ Hin). Qed.

Lemma working_is_silent o : working o -> silent o.
Proof. by destruct o as [[]|[]]. Qed.

Lemma restoring_silent tr : Forall (fun e => working (ev_action e)) tr -> Forall (fun e => silent (ev_action e)) tr.
Proof. intros H. eapply Forall_impl; [exact H|]. intros e. apply working_is_silent. Qed.

Lemma eng_silent (t : list deed) : Forall (fun e => silent (ev_action e)) (map (evL restoreI) t).
Proof. apply Forall_forall. intros e (y & -> & _)%list_elem_of_fmap. done. Qed.

Lemma teardownResources_silent rc : only silent (teardownResources OperatorNamespace rc).
Proof. unfold teardownResources, deleteJobAndSecret, eng, k8s, delete, ask. ctl_only. Qed.

Lemma maybe_teardown_silent rc td t u :
  runs (if td : bool then teardownResources OperatorNamespace rc else Done tt) t u -> Forall (fun e => silent (ev_action e)) t.
Proof. destruct td; [by apply only_runs, teardownResources_silent|intros [-> _]; constructor]. Qed.

(** The write of a pass that drives, and what follows it. *)
Lemma ended_status r rc plans d done td err tr a s x :
  runs (if unsettled d plans done then continueRestore OperatorNamespace r rc d done td err
        else finishRestore OperatorNamespace r rc plans d td) tr a ->
  did (RStatusUpdate s) x ∈ tr -> IsTerminalRestorePhase (rt_Phase s) = true ->
  unsettled d plans done = false /\ s = terminalStatus r d.
Proof.
  intros H Hin Ht.
  destruct (unsettled d plans done) eqn:Eu.
  - exfalso. unfold continueRestore in H. turn H.
    assert (IsTerminalRestorePhase (rt_Phase s) = false) as Hr; [|congruence].
    apply elem_of_app in Hin as [Hin%list_elem_of_singleton|Hin].
    + simplify_eq. by destruct (tallied d).
    + destruct x0; turn H; [by apply not_elem_of_nil in Hin|]. turn H. rewrite app_nil_r in Hin.
      apply maybe_teardown_silent in R. by apply silent_absent in Hin.
  - split; [done|]. unfold finishRestore in H. turn H. apply elem_of_app in Hin as [Hin%list_elem_of_singleton|Hin]; [by simplify_eq|].
    exfalso. destruct x0; turn H; [by apply not_elem_of_nil in Hin|].
    apply maybe_teardown_silent in R. turn H. turn H. turn H. revert Hin. apply silent_absent.
    rewrite !Forall_app. split_and!; [done|apply eng_silent|repeat constructor|constructor].
Qed.

(** The writes of a driving pass are those of its end. *)
Lemma driven_write r tr a (x : driven r tr a) s w : did (RStatusUpdate s) w ∈ tr -> did (RStatusUpdate s) w ∈ dn_ending _ _ _ x \/ IsTerminalRestorePhase (rt_Phase s) = false.
Proof.
  destruct x as [source r1 rc plans res done td err s1 d t1 t2 t3 t4 t5 Hsp Hsame H1 H2 H3 H4 H5]. cbn. subst tr.
  rewrite !elem_of_app. intros [H|[H|[H|[H|H]]]]; [..|by left].
  - exfalso. revert H. eapply silent_absent, restoring_silent, only_runs; [apply resolveSource_working|exact H1].
  - right. pose proof (only_runs _ _ _ _ (prepare_parked r1 source) H2) as Hp. rewrite Forall_forall in Hp. exact (Hp _ H).
  - exfalso. revert H. eapply silent_absent, restoring_silent, only_runs; [apply advanceResources_working|exact H3].
  - exfalso. revert H. apply silent_absent, eng_silent.
Qed.

Lemma advanceResources_done r rc plan tr td err s :
  runs (advancing r rc plan) tr (true, td, err, s) -> plan = None \/ is_Some (rt_Resources s).
Proof.
  unfold advanceResources. intros H. destruct plan as [plan|]; [|by left]. right.
  destruct (rt_Resources (rs_Status r)) eqn:Er; [turn H; by rewrite Er|].
  turn H. destruct x as [job|e]; [|turn H; turn H; by turn H].
  turn H; [by turn H|]. turn H. turn H. unfold recordResources. destruct (fst _) as [m|]; [|done]. by destruct (negb _).
Qed.

Lemma terminal_fields r d :
  let s := terminalStatus r d in
  rt_Resources s = rt_Resources (rs_Status r) /\ rt_RestoredResources s = rt_RestoredResources (rs_Status r)
  /\ rt_Phase s = RollUpRestoreOutcomes (unitsDone d (rs_Status r)) (unitsFailed d (rs_Status r))
  /\ rt_PlannedVolumes s = rt_Planned (d_tally d) /\ rt_RestoredVolumes s = rt_Restored (d_tally d)
  /\ rt_FailedVolumes s = rt_Failed (d_tally d) /\ rt_RestoredBytes s = d_restoredBytes d.
Proof. cbv zeta. unfold terminalStatus, setRestoreTerminalCondition. destruct (_ =? _); by split_and!. Qed.

Lemma rollup_completed n m : RollUpRestoreOutcomes n m = RestorePhaseCompleted -> m = 0%Z.
Proof. unfold RollUpRestoreOutcomes. destruct (m =? 0)%Z eqn:E; [lia|]. by destruct (0 <? n)%Z. Qed.

Lemma all_restored (outs : list (VolumeRestoreOutcome * Z)) :
  VolumeRestoreInFlight ∉ map fst outs -> countRestore VolumeRestoreFailed (map fst outs) = 0%Z ->
  Forall (fun o => fst o = VolumeRestoreRestored) outs.
Proof.
  intros Hi Hf%countRestore_none. apply Forall_forall. intros o Ho.
  assert (fst o ∈ map fst outs) as Hm by by apply list_elem_of_fmap_2.
  by destruct (fst o).
Qed.

(** The counters of [s] are exact for the outcomes of the plans, none of them in
    flight, and each restored one was delivered in [u]. *)
Definition accounts_for (rc : restoreExecContext) (plans : list restoreVolumePlan) (u : list deed) (s : RestoreStatus)
    (outs : list (VolumeRestoreOutcome * Z)) : Prop :=
  Forall2 (fun plan o => fst o = VolumeRestoreRestored -> delivered OperatorNamespace Unmarshal Quote rc plan (snd o) u) plans outs
  /\ VolumeRestoreInFlight ∉ map fst outs
  /\ rt_PlannedVolumes s = Z.of_nat (List.length plans)
  /\ rt_RestoredVolumes s = countRestore VolumeRestoreRestored (map fst outs)
  /\ rt_FailedVolumes s = countRestore VolumeRestoreFailed (map fst outs)
  /\ (rt_PlannedVolumes s = rt_RestoredVolumes s + rt_FailedVolumes s)%Z.

(** C5. A status that says a Restore is over is earned in the pass that writes it.  The
    Restore was confirmed; the pass prepared plans and drove them; every planned
    volume is settled, and counted in the status exactly, those that count as
    restored being delivered: mover complete, its report of success stored on the
    Job, the handover done; the manifest half is absent or its report is in the
    same status; the phase is the roll-up of both halves.  In particular Completed
    means that nothing of either half failed. *)
Theorem restore_terminal_earned (r : Restore) tr (a : passed) (s : RestoreStatus) w :
  runs (reconcile r) tr a -> rs_Deleting r = false ->
  did (RStatusUpdate s) w ∈ tr -> IsTerminalRestorePhase (rt_Phase s) = true ->
  rp_Confirmation (rs_Spec r) = rs_Namespace r
  /\ exists r1 source rc plans resources preparation u d,
      runs (preparing r1 source) preparation (inr (rc, plans, resources)) /\ preparation ⊆ tr
      /\ runs (driving rc plans) u d /\ map (evL restoreI) u ⊆ tr
      /\ (resources = None \/ is_Some (rt_Resources s))
      /\ rt_Phase s = RollUpRestoreOutcomes (unitsDone d s) (unitsFailed d s)
      /\ rt_RestoredBytes s = d_restoredBytes d
      /\ ((Z.of_nat (List.length plans) < 2 ^ 31)%Z ->
          exists outs, accounts_for rc plans u s outs
            /\ (rt_Phase s = RestorePhaseCompleted ->
                Forall (fun o => 0 <= rr_FailedCount o)%Z (option_list (rt_Resources s)) ->
                Forall (fun o => fst o = VolumeRestoreRestored) outs
                /\ Forall (fun o => rr_FailedCount o = 0%Z) (option_list (rt_Resources s)))).
Proof.
  intros H Hd Hin Ht. apply restore_cases in H as [H|(Hc & _ & [x])]; [|split; [done|]|done].
  { rewrite Forall_forall in H. specialize (H _ Hin). cbn in H. congruence. }
  destruct (driven_write _ _ _ x _ _ Hin) as [Hw|]; [|congruence].
  destruct x as [source r1 rc plans res done td err s1 d t1 t2 t3 t4 t5 Hsp Hsame H1 H2 H3 H4 H5]. cbn in Hw.
  destruct (ended_status _ _ _ _ _ _ _ _ _ _ _ H5 Hw Ht) as [Hu Hs].
  unfold unsettled in Hu. apply orb_false_iff in Hu as [[Htal%negb_false_iff Hset]%orb_false_iff Hdone%negb_false_iff]. subst done.
  apply advanceResources_done in H3. apply Z.ltb_ge in Hset.
  destruct (terminal_fields (set_status s1 r1) d) as (F1 & F2 & F3 & F4 & F5 & F6 & F7). rewrite <-Hs in *. clear Hs.
  cbn [rs_Status set_status] in *.
  assert (unitsDone d s = unitsDone d s1 /\ unitsFailed d s = unitsFailed d s1) as [U1 U2].
  { unfold unitsDone, unitsFailed. by rewrite F1, F2. }
  exists r1, source, rc, plans, res, t2, t4, d. subst tr. rewrite F1, U1, U2. split_and!; try done; [set_solver..|].
  intros Hl. destruct (driveVolumes_spec _ _ _ _ _ _ _ _ H4 Htal Hl) as (outs & jobs & O1 & O2 & O3 & O4 & O5 & O6 & _).
  assert (settled d = Z.of_nat (List.length plans)) as Hall.
  { pose proof (countRestore_in VolumeRestoreInFlight (map fst outs)). pose proof (countRestore_total (map fst outs)) as Hto.
    rewrite length_map, <-(Forall2_length _ _ _ O1) in Hto. rewrite O3 in *. unfold completed, failedCount in *.
    rewrite O2 in *. cbn [rt_Restored rt_Failed] in *. lia. }
  apply O4 in Hall as Hnone. rewrite O2 in F4, F5, F6. cbn [rt_Planned rt_Restored rt_Failed] in F4, F5, F6.
  exists outs. unfold accounts_for. split_and!; try done.
  - rewrite F4, F5, F6. rewrite O3 in Hall. unfold completed, failedCount in Hall. rewrite O2 in Hall. cbn in Hall. lia.
  - intros Hp Hnn. rewrite F3 in Hp. apply rollup_completed in Hp. unfold unitsFailed in Hp.
    assert (0 <= failedCount d)%Z as Hpos. { rewrite <-O5. lia. }
    assert (failedCount d = 0%Z /\ Forall (fun o => rr_FailedCount o = 0%Z) (option_list (rt_Resources s1))) as [Hf Hr].
    { destruct (rt_Resources s1) as [x|]; [|split; [done|constructor]]. cbn in Hnn. rewrite Forall_singleton in Hnn.
      split; [lia|]. cbn. rewrite Forall_singleton. lia. }
    split; [|done]. apply all_restored; [done|]. unfold failedCount in Hf. by rewrite O2 in Hf.
Qed.

(** *** The Jobs outlive the status *)

Definition resourcesJobName (r : Restore) : string :=
  manifestsJobName (resourcesJobPrefix (restoreOwnerID (rs_Namespace r) (rs_Name r))).

(** A Job goes only after an accepted status write that no longer needs it: one that
    says the Restore is over, or, for the manifest half's Job, one that holds its
    report. *)
Definition outlived (r : Restore) (past : list act) (e : act) : Prop :=
  forall ns n, ev_action e = inl (inl (ADelete KJob ns n)) ->
    exists s, did (RStatusUpdate s) None ∈ past
      /\ (IsTerminalRestorePhase (rt_Phase s) = true \/ (n = resourcesJobName r /\ is_Some (rt_Resources s))).

Lemma outlived_mono r past past' e : past ⊆ past' -> outlived r past e -> outlived r past' e.
Proof. intros Hs H ns n E. destruct (H ns n E) as (s & Hin & Hk). exists s. split; [by apply Hs|done]. Qed.

Lemma safe_all r past tr : Forall (outlived r past) tr -> safe (outlived r) past tr.
Proof.
  revert past. induction tr as [|e tr IH]; intros past; [done|]. intros [He Ht]%Forall_cons. split; [done|].
  apply IH. eapply Forall_impl; [exact Ht|]. intros f. apply outlived_mono. set_solver.
Qed.

Lemma parked_outlived r past tr : Forall (fun e => parked (ev_action e)) tr -> Forall (outlived r past) tr.
Proof.
  intros H. eapply Forall_impl; [exact H|]. intros e He ns n E. cbv beta in He. rewrite E in He. cbn in He. by destruct He.
Qed.

Lemma working_parked_all tr : Forall (fun e => working (ev_action e)) tr -> Forall (fun e => parked (ev_action e)) tr.
Proof. intros H. eapply Forall_impl; [exact H|]. intros e. apply working_parked. Qed.

Lemma rollup_terminal n m : IsTerminalRestorePhase (RollUpRestoreOutcomes n m) = true.
Proof. unfold RollUpRestoreOutcomes. destruct (m =? 0)%Z; [done|]. by destruct (0 <? n)%Z. Qed.

Lemma advanceResources_teardown r rc plan tr done err s :
  runs (advancing r rc plan) tr (done, true, err, s) -> is_Some (rt_Resources s).
Proof.
  unfold advanceResources. intros H. destruct plan as [plan|]; [|by turn H].
  destruct (rt_Resources (rs_Status r)) eqn:Er; [by turn H|].
  turn H. destruct x as [job|e]; [|turn H; turn H; by turn H].
  turn H; [by turn H|]. turn H. turn H. unfold recordResources. destruct (fst _) as [m|]; [|done]. by destruct (negb _).
Qed.

(** A teardown of Jobs is good once its status is written. *)
Lemma after_write r past tr s :
  did (RStatusUpdate s) None ∈ past -> IsTerminalRestorePhase (rt_Phase s) = true -> Forall (outlived r past) tr.
Proof. intros Hin Ht. apply Forall_forall. intros e _ ns n _. exists s. auto. Qed.

Lemma teardownResources_outlived r rc past tr u s :
  rx_ownerID rc = restoreOwnerID (rs_Namespace r) (rs_Name r) ->
  did (RStatusUpdate s) None ∈ past -> is_Some (rt_Resources s) ->
  runs (teardownResources OperatorNamespace rc) tr u -> Forall (outlived r past) tr.
Proof.
  intros Ho Hin Hs H.
  assert (only (I := ctlI) (fun o => forall ns n, o = inl (inl (ADelete KJob ns n)) -> n = resourcesJobName r)
            (teardownResources OperatorNamespace rc)) as Hn.
  { unfold teardownResources, deleteJobAndSecret, eng, k8s, delete, ask, resourcesJobName. rewrite Ho.
    asks_only ltac:(fail); intros ns n E; congruence. }
  eapply Forall_impl; [eapply only_runs; [exact Hn|exact H]|]. intros e He ns n E. exists s. split; [done|]. right.
  split; [by eapply He|done].
Qed.

Lemma prepared_owner r source tr rc plans res :
  runs (preparing r source) tr (inr (rc, plans, res)) -> rx_ownerID rc = restoreOwnerID (rs_Namespace r) (rs_Name r).
Proof.
  unfold prepare. destruct (bv_Location (o_body source)) as [kind locationName]. intros H. destruct (negb _).
  { unfold stop in H. turn H. by turn H. }
  turn H. destruct x as [b|[[loc repo] dek]]; [by turn H|]. turn H. destruct x as [b|[[byPVC ms] cached]]; [by turn H|].
  turn H. destruct x as [plans' missing]. destruct missing as [|m missing].
  2: { unfold stop in H. turn H. turn H. by turn H. }
  turn H. turn H; [|by turn H]. turn H; [|by turn H]. unfold stop in H. turn H. by turn H.
Qed.

(** C27. The live Jobs are the only durable state of a restore's volumes, and the pods of
    the manifest Job hold its only report. In a pass over a Restore that is not being deleted,
    whatever the answers, a Job is asked to go only after a status write of that pass was
    accepted: one with a terminal phase, or, for the Job of the manifest half alone, one
    that holds its report. A write that is refused therefore leaves every Job in place
    for the next pass. (The read-only listing Job, which cleans up after itself inside the
    lister, is not meant.) *)
Theorem jobs_outlive_the_status (r : Restore) tr (a : passed) :
  runs (reconcile r) tr a -> rs_Deleting r = false ->
  forall pre e post, tr = (pre ++ e :: post)%list -> outlived r pre e.
Proof.
  intros H Hd. apply (safe_spec (outlived r) [] tr).
  apply restore_cases in H as [H|(_ & _ & [x])]; [by apply safe_all, parked_outlived| |done].
  destruct x as [source r1 rc plans res done td err s1 d t1 t2 t3 t4 t5 Hsp (Hns & Hnm & _) H1 H2 H3 H4 H5]. subst tr.
  assert (rx_ownerID rc = restoreOwnerID (rs_Namespace r) (rs_Name r)) as Ho by (apply prepared_owner in H2; congruence).
  assert (forall past, safe (outlived r) past t5) as H6; [|rewrite !app_assoc in *; apply safe_app; split; [|apply H6]].
  { intros past. destruct (unsettled d plans done).
    - unfold continueRestore in H5. turn H5. cbn [app]. split; [intros ns n E; discriminate|]. destruct x as [e|]; [by turn H5|].
      turn H5. turn H5. rewrite app_nil_r. apply safe_all. destruct td; [|destruct R as [-> _]; constructor].
      apply advanceResources_teardown in H3. eapply teardownResources_outlived; [exact Ho| | |exact R].
      + apply elem_of_app. right. left.
      + destruct (tallied d); exact H3.
    - unfold finishRestore in H5. turn H5. split; [intros ns n E; discriminate|]. destruct x as [e|]; [by turn H5|].
      apply safe_all. eapply after_write; [apply elem_of_app; right; left|].
      destruct (terminal_fields (set_status s1 r1) d) as (_ & _ & -> & _). apply rollup_terminal. }
  apply safe_all, parked_outlived. rewrite !Forall_app. split_and!.
  - eapply working_parked_all, only_runs; [apply resolveSource_working|exact H1].
  - eapply only_runs; [apply prepare_parked|exact H2].
  - eapply working_parked_all, only_runs; [apply advanceResources_working|exact H3].
  - eapply working_parked_all, only_runs; [apply driving_working|]. apply (proj2 (runs_inject _ _ _)). by exists t4.
Qed.

(** *** The source of a restore *)

Lemma newest_spec items best :
  newest items = Some best -> best ∈ items /\ forall b, b ∈ items -> (backupTime b <= backupTime best)%Z.
Proof.
  unfold newest.
  assert (forall acc, fold_left (fun best b => match best with None => Some b
            | Some x => if time_after (backupTime b) (backupTime x) then Some b else best end) items acc = Some best ->
          (acc = Some best \/ best ∈ items) /\ (forall b, acc = Some b \/ b ∈ items -> (backupTime b <= backupTime best)%Z)) as H.
  { induction items as [|b items IH]; intros acc H; cbn in H.
    - subst acc. split; [by left|]. intros b [[= ->]|Hb]; [lia|by apply not_elem_of_nil in Hb].
    - apply IH in H as [H1 H2]. unfold time_after in *. destruct acc as [x|].
      + destruct (backupTime x <? backupTime b)%Z eqn:E.
        * split; [right; destruct H1 as [[= ->]|]; [left|by right]|].
          intros y [[= ->]|[->|Hy]%elem_of_cons]; [|by apply H2; left|by apply H2; right].
          pose proof (H2 b (or_introl eq_refl)). lia.
        * split; [destruct H1 as [|]; [by left|right; by right]|].
          intros y [[= ->]|[->|Hy]%elem_of_cons]; [by apply H2; left| |by apply H2; right].
          pose proof (H2 x (or_introl eq_refl)). lia.
      + split; [right; destruct H1 as [[= ->]|]; [left|by right]|].
        intros y [|[->|Hy]%elem_of_cons]; [done|by apply H2; left|by apply H2; right]. }
  intros Hb. destruct (H None Hb) as [[|H1] H2]; [done|]. split; [done|]. intros b Hin. apply H2. by right.
Qed.

Notation kubeDid o x := (engEv (evL engineI (Ev (I := kube) o x))).

Lemma kubeP_runs {A} (p : api A) tr a : runs (kubeP p) tr a -> exists u, tr = map (evL restoreI) (map (evL engineI) u) /\ runs p u a.
Proof. intros (t & -> & (u & -> & H)%k8s_runs)%eng_runs. by exists u. Qed.

Lemma getSource_runs r what name tr b :
  runs (getSource r what name) tr (Ok (Some b)) -> kubeDid (AGet KBackup (rs_Namespace r) name) (Ok b) ∈ tr.
Proof.
  unfold getSource. intros H. apply runs_bind in H as (t1 & t2 & x & -> & H1 & H). apply kubeP_runs in H1 as (u & -> & H1).
  apply runs_get in H1 as ->. turn H. destruct x as [b'|e]; [simplify_eq; left|by destruct (IsNotFound e)].
Qed.

(** The newest of the listed Backups that are eligible. *)
Definition newest_eligible (origin : string) (cutoff : option Z) (items : list (Object KBackup)) (b : Object KBackup) : Prop :=
  b ∈ items /\ eligible origin cutoff b = true
  /\ forall b', b' ∈ items -> eligible origin cutoff b' = true -> (backupTime b' <= backupTime b)%Z.

(** The Backup a Restore reads: the one it names; or the one pinned for it, never
    another; or, the first time, the newest of the namespace that succeeded, is of
    the origin asked for and not after the instant asked for, which is then
    pinned. *)
Theorem resolveSource_spec (r : Restore) tr (b : Object KBackup) :
  runs (resolving r) tr (Ok (Some b)) ->
  let src := rp_Source (rs_Spec r) in
  if negb (rs_Backup src =? "") then kubeDid (AGet KBackup (rs_Namespace r) (rs_Backup src)) (Ok b) ∈ tr
  else
    (exists name, did (RPinnedFor (rs_UID r)) (Some name) ∈ tr /\ kubeDid (AGet KBackup (rs_Namespace r) name) (Ok b) ∈ tr)
    \/ (exists cutoff items pinned,
          did (RPinnedFor (rs_UID r)) None ∈ tr
          /\ (if (rs_Time src =? "") || (rs_Time src =? sourceTimeLatest) then cutoff = None
              else exists t, parseRestoreTime TimeParse (rs_Time src) = Some t /\ cutoff = Some t)
          /\ kubeDid (AList KBackup (mkSelector (Some (rs_Namespace r)) ∅ [])) (Ok items) ∈ tr
          /\ newest_eligible (rs_Origin src) cutoff items b
          /\ did (RPin (rs_UID r) (o_name b)) pinned ∈ tr).
Proof.
  unfold resolveSource. cbv zeta. intros H. destruct (negb _); [by eapply getSource_runs|].
  turn H. destruct x as [name|].
  - left. exists name. apply getSource_runs in H. split; [left|by right].
  - right. unfold badSourceTime in H. destruct (negb (_ =? _) && negb _ && _) eqn:Eb; [by turn H|].
    apply runs_bind in H as (t1 & t2 & x & -> & H1 & H). apply kubeP_runs in H1 as (u & -> & H1).
    apply runs_list in H1 as ->. destruct x as [items|e]; [|by turn H].
    destruct (newest _) as [best|] eqn:En; [|by turn H]. turn H. turn H.
    apply newest_spec in En as [Hin Hmax].
    apply list_elem_of_In, filter_In in Hin as [Hin Hel].
    set (cutoff := if _ || _ then None else _) in Hel, Hmax.
    exists cutoff, items, x. unfold newest_eligible. split_and!; [left| | | | | |].
    + unfold cutoff. destruct (_ || _) eqn:Eo; [done|]. apply orb_false_iff in Eo as [E1 E2]. rewrite E1, E2 in Eb. cbn in Eb.
      destruct (parseRestoreTime _ _) as [t|]; [|done]. by exists t.
    + right. left.
    + by apply list_elem_of_In.
    + exact Hel.
    + intros b' Hb' Hel'. apply Hmax, list_elem_of_In, filter_In. split; [by apply list_elem_of_In|done].
    + right. right. left.
Qed.

(** *** What a restore may read *)

(** What an event leaves in the engine's memory... *)
Definition remember (ev : act) (e : restoreEngine) : restoreEngine :=
  match ev_action ev with
  | inl (inr (ENoteError key)) => snd (noteVolumeError key e)
  | inl (inr (EClearError key)) => clearVolumeError key e
  | inl (inr (EShouldUnlock key)) => snd (shouldEnqueueUnlock key e)
  | inr (RPin owner name) => snd (pinSource owner name e)
  | inr (RStore owner run byPVC ms) => storeResolution owner run byPVC ms e
  | inr (RStoreCluster owner run byPVC ms) => storeClusterResolution owner run byPVC ms e
  | inr (RForgetListing owner) => forgetListing owner e
  | inr (RForget owner ownerID) => forgetResolution owner ownerID e
  | _ => e
  end.

(** ... and what the memory answers. *)
Definition recalled (ev : act) (e : restoreEngine) : Prop :=
  match ev_action ev as o return answer ctlI o -> Prop with
  | inl (inr (ENoteError key)) => fun x => x = fst (noteVolumeError key e)
  | inl (inr (EShouldUnlock key)) => fun x => x = fst (shouldEnqueueUnlock key e)
  | inr (RPin owner name) => fun x => x = fst (pinSource owner name e)
  | inr (RPinnedFor owner) => fun x => x = pinnedSourceFor owner e
  | inr (RCached owner run) => fun x => x = cachedResolution owner run e
  | inr (RCachedCluster owner run) => fun x => x = cachedClusterResolution owner run e
  | _ => fun _ => True
  end (ev_answer ev).

(** The events of a pass of the owner [uid] run on the memory; between two of them the passes
    of other owners, which have their own UIDs, do what they like with the rest of it. *)
Inductive in_memory (uid : string) : restoreEngine -> list act -> restoreEngine -> Prop :=
| im_nil e : in_memory uid e [] e
| im_own e ev tr e' : recalled ev e -> in_memory uid (remember ev e) tr e' -> in_memory uid e (ev :: tr) e'
| im_others e e1 tr e' : en_resolved e1 !! uid = en_resolved e !! uid -> in_memory uid e1 tr e' -> in_memory uid e tr e'.

(** The life of a Restore: its passes, one after the other, over whatever its object has become,
    and restarts of the operator, which begins with an empty memory. *)
Inductive life (uid ns : string) : list act -> restoreEngine -> Prop :=
| life_begins : life uid ns [] newRestoreEngine
| life_restart past e : life uid ns past e -> life uid ns past newRestoreEngine
| life_pass past e r tr a e' :
    life uid ns past e -> rs_UID r = uid -> rs_Namespace r = ns -> runs (reconcile r) tr a ->
    in_memory uid e tr e' -> life uid ns (past ++ tr)%list e'.

(** The entry was stored from a listing filtered by the namespace and by the entry's run. *)
Definition filtered (ns run : string) (byPVC : gmap string Snapshot) (snaps : list Snapshot) (past : list act) : Prop :=
  byPVC = dataSnapshotsByPVC snaps
  /\ exists repo job, did (RListFiltered repo job [Tag TagKeyNamespace ns; Tag TagKeyRun run]) (Ok snaps) ∈ past.

Definition kept (uid ns : string) (past : list act) (e : restoreEngine) : Prop :=
  forall x, en_resolved e !! uid = Some x -> filtered ns (rn_run x) (rn_byPVC x) (rn_manifests x) past.

Definition stores (ns : string) (past : list act) (ev : act) : Prop :=
  match ev_action ev with
  | inr (RStore _ run byPVC ms) => filtered ns run byPVC ms past
  | inr (RStoreCluster _ _ _ _) => False
  | _ => True
  end.

Definition storeless (o : action ctlI) : Prop :=
  match o with inr (RStore _ _ _ _) | inr (RStoreCluster _ _ _ _) => False | _ => True end.

Lemma filtered_mono ns run byPVC ms past past' : past ⊆ past' -> filtered ns run byPVC ms past -> filtered ns run byPVC ms past'.
Proof. intros Hp (-> & repo & job & Hin). split; [done|]. exists repo, job. by apply Hp. Qed.

Lemma storeless_stores ns past tr : Forall (fun ev => storeless (ev_action ev)) tr -> safe (stores ns) past tr.
Proof.
  intros H. apply safe_spec. intros pre ev post ->. apply Forall_app in H as [_ [H _]%Forall_cons].
  unfold storeless, stores in *. by destruct (ev_action ev) as [|[]].
Qed.

Lemma eng_storeless {A} (p : rest A) : only storeless (eng p).
Proof. unfold eng. apply only_inject. induction p as [a|o k IH]; cbn; [done|]. by split. Qed.

Ltac storeless_auto := asks_only ltac:(first [apply eng_storeless|apply (eng_storeless (own _))]); cbn; auto.

Lemma restoreGate_storeless r reason message : only storeless (restoreGate r reason message).
Proof. unfold restoreGate, writeStatus, ask. storeless_auto. Qed.

Lemma resolveSource_storeless r : only storeless (resolving r).
Proof. unfold resolveSource, getSource, kubeP, ask. storeless_auto. Qed.

Lemma buildPlans_storeless r source byPVC : only storeless (buildPlans r source byPVC).
Proof. unfold buildPlans, planVolume, sizePlan, kubeP. storeless_auto. Qed.

Lemma resolveRepository_storeless r name : only storeless (resolveRepository OperatorNamespace Quote r name).
Proof.
  unfold resolveRepository, resolvePlatformDEKCommon, stop, stopErr, ask.
  asks_only ltac:(first [apply eng_storeless|apply restoreGate_storeless]); cbn; auto.
Qed.

Lemma advanceResources_storeless r rc plan : only storeless (advancing r rc plan).
Proof. unfold advanceResources, startResourcesJob, kubeP, ask. storeless_auto. Qed.

(** What the listing resolves to, cached or not. *)
Lemma resolveSnapshots_runs r run repo tr byPVC ms cached :
  runs (resolveSnapshots r run repo) tr (inr (byPVC, ms, cached)) ->
  (cached = true /\ tr = [did (RCached (rs_UID r) run) (Some (byPVC, ms))])
  \/ (cached = false /\ exists job, byPVC = dataSnapshotsByPVC ms
      /\ tr = [did (RCached (rs_UID r) run) None; did (RListFiltered (br_Name repo) job (listingTags r run)) (Ok ms)]).
Proof.
  unfold resolveSnapshots. intros H. turn H. destruct x as [[b m]|]; [turn H; by left|].
  right. turn H. destruct x as [snaps|e]; [|unfold stop in H; turn H; by turn H]. turn H.
  split; [done|]. by eexists.
Qed.

(** What a prepared restore reads, and where it has it from. *)
Lemma prepared_reads r source tr rc plans resources :
  runs (preparing r source) tr (inr (rc, plans, resources)) ->
  exists byPVC snaps,
    (did (RCached (rs_UID r) (o_name source)) (Some (byPVC, snaps)) ∈ tr
     \/ (byPVC = dataSnapshotsByPVC snaps
         /\ exists repo job, did (RListFiltered repo job (listingTags r (o_name source))) (Ok snaps) ∈ tr))
    /\ Forall (planned r byPVC) plans
    /\ map pl_pvc plans = List.filter (isSelected r) (sort_strings (restorableVolumes (o_body source)))
    /\ (forall x, resources = Some x ->
          exists snap, snap ∈ snaps /\ default "" (TagValue (s_Tags snap) TagKeyKind) = KindManifests /\ xp_snapshotID x = s_ID snap)
    /\ rx_targetNamespace rc = rs_Namespace r /\ rx_restoredFromRun rc = o_name source.
Proof.
  unfold prepare. destruct (bv_Location (o_body source)) as [kind locationName]. intros H.
  assert (forall (p : ctlP passed) t y, runs (stop (A := restoreExecContext * list restoreVolumePlan * option resourcesPlan) p) t (inr y) -> False) as Hstop.
  { intros p t y Hs. unfold stop in Hs. turn Hs. by turn Hs. }
  destruct (negb _); [by apply Hstop in H|].
  turn H. destruct x as [b|[[loc repo] dek]]; [by turn H|]. turn H. destruct x as [b|[[byPVC ms] cached]]; [by turn H|].
  turn H. destruct x as [plans' missing]. destruct missing as [|m missing]; [|turn H; by apply Hstop in H].
  turn H. apply buildPlans_spec in R1 as (B1 & _ & B3).
  assert (plans = plans' /\ rc = execContext r source loc repo dek
    /\ resolveResourcesPlan (rp_Resources (rs_Spec r)) (rp_Mode (rs_Spec r)) (rp_DryRun (rs_Spec r)) ms ∅ = resources) as (-> & -> & Hres).
  { destruct (resolveResourcesPlan _ _ _ _ _) as [y|]; [destruct (_ =? ""); [by apply Hstop in H|]|]; turn H; by split_and!. }
  exists byPVC, ms. split_and!; try done; [|by apply B3|intros y ->; by eapply resources_from_snaps].
  destruct (resolveSnapshots_runs _ _ _ _ _ _ _ R0) as [[_ ->]|(_ & job & -> & ->)]; [left; clear; set_solver|right].
  split; [done|]. exists (br_Name repo), job. clear. set_solver.
Qed.

(** Whatever [prepare] stores, it has just listed. *)
Lemma prepare_stores r source past tr x : runs (preparing r source) tr x -> safe (stores (rs_Namespace r)) past tr.
Proof.
  assert (forall {A} (p : ctlP A) past t y, only storeless p -> runs p t y -> safe (stores (rs_Namespace r)) past t) as Hq.
  { intros A p past' t y Hp H. eapply storeless_stores, (only_runs storeless p); done. }
  unfold prepare. destruct (bv_Location (o_body source)) as [kind locationName]. intros H.
  assert (forall q past t y, runs (stop (A := restoreExecContext * list restoreVolumePlan * option resourcesPlan)
    (restoreGate r (fst q) (snd q))) t y -> safe (stores (rs_Namespace r)) past t) as Hstop.
  { intros q past' t y. apply Hq. unfold stop. apply only_bind; [apply restoreGate_storeless|done]. }
  destruct (negb _); [exact (Hstop (_, _) _ _ _ H)|].
  turn H. apply safe_app. split; [eapply Hq, R; apply resolveRepository_storeless|].
  destruct x0 as [b|[[loc repo] dek]]; [by turn H|].
  turn H. apply safe_app. split.
  { eapply Hq, R0. unfold resolveSnapshots, stop, ask.
    asks_only ltac:(first [apply restoreGate_storeless]); cbn; auto. }
  destruct x0 as [b|[[byPVC ms] cached]]; [by turn H|].
  apply resolveSnapshots_runs in R0.
  turn H. apply safe_app. split; [eapply Hq, R1; apply buildPlans_storeless|].
  destruct x0 as [plans missing]. destruct missing as [|m missing].
  2: { turn H. split; [done|]. exact (Hstop (_, _) _ _ _ H). }
  turn H. apply safe_app. split.
  - destruct cached; [by destruct R2 as [-> _]|]. apply ask_runs in R2 as ->. split; [|done].
    destruct R0 as [[? _]|(_ & job & -> & ->)]; [done|]. split; [done|].
    exists (br_Name repo), job. set_solver.
  - destruct (resolveResourcesPlan _ _ _ _ _) as [y|]; [|by turn H].
    destruct (_ =? ""); [exact (Hstop (_, _) _ _ _ H)|by turn H].
Qed.

(** Whatever a pass stores, it has just listed. *)
Lemma reconcile_stores r past tr a : runs (reconcile r) tr a -> safe (stores (rs_Namespace r)) past tr.
Proof.
  assert (forall {A} (p : ctlP A) past t y, only storeless p -> runs p t y -> safe (stores (rs_Namespace r)) past t) as Hq.
  { intros A p past' t y Hp H. eapply storeless_stores, (only_runs storeless p); done. }
  unfold reconcileRestore. intros H. destruct (rs_Deleting r).
  { eapply Hq, H. unfold finalizeRestore, ask. destruct (negb _); [done|]. storeless_auto. }
  destruct (negb _); [eapply Hq, H; unfold ask; storeless_auto|].
  destruct (IsTerminalRestorePhase _); [by turn H|].
  destruct (negb _); [eapply Hq, H; unfold awaitConfirmation, writeStatus, ask; storeless_auto|].
  destruct (badSourceTime _ _); [eapply Hq, H; apply restoreGate_storeless|].
  turn H. apply safe_app. split; [eapply Hq, R; apply resolveSource_storeless|].
  destruct x as [[source|]|e]; [|eapply Hq, H; apply restoreGate_storeless|by turn H].
  unfold driveRestore in H. set (r1 := if IsConditionTrue _ _ then _ else _) in H.
  assert (rs_Namespace r1 = rs_Namespace r) as Hns by (by unfold r1; destruct (IsConditionTrue _ _)).
  clearbody r1. turn H. apply safe_app. split; [rewrite <-Hns; eapply prepare_stores, R0|].
  destruct x as [b|[[rc plans] res]]; [by turn H|]. eapply Hq, H.
  apply only_bind; [apply advanceResources_storeless|]. intros [[[done td] err] s].
  unfold continueRestore, finishRestore, teardownResources, ask. storeless_auto.
Qed.

Lemma remember_kept uid ns past ev e :
  stores ns past ev -> kept uid ns past e -> kept uid ns (past ++ [ev])%list (remember ev e).
Proof.
  intros Hs Hk. assert (past ⊆ (past ++ [ev])%list) as Hp by set_solver.
  assert (forall e', en_resolved e' !! uid = en_resolved e !! uid -> kept uid ns (past ++ [ev])%list e') as Hsame.
  { intros e' He x Hx. eapply filtered_mono; [exact Hp|]. apply Hk. by rewrite <-He. }
  assert (forall owner e', en_resolved e' = base.delete owner (en_resolved e) -> kept uid ns (past ++ [ev])%list e') as Hdel.
  { intros owner e' He x. rewrite He. intros Hx. apply lookup_delete_Some in Hx as [_ Hx].
    eapply filtered_mono; [exact Hp|by apply Hk]. }
  unfold remember, stores in *. destruct ev as [[[q|q]|q] ans]; cbn [ev_action] in *.
  - by apply Hsame.
  - destruct q; try (by apply Hsame).
    unfold shouldEnqueueUnlock. destruct (bool_decide _); by apply Hsame.
  - destruct q; try (by apply Hsame); try done.
    + unfold pinSource. destruct (en_pinnedSource e !! owner); by apply Hsame.
    + intros x. cbn. destruct (decide (owner = uid)) as [->|Hne].
      * rewrite lookup_insert_eq. intros [= <-]. by eapply filtered_mono.
      * rewrite lookup_insert_ne by done. intros Hx. eapply filtered_mono; [exact Hp|by apply Hk].
    + by eapply Hdel.
    + by eapply Hdel.
Qed.

Lemma in_memory_kept uid ns past e tr e' :
  in_memory uid e tr e' -> safe (stores ns) past tr -> kept uid ns past e -> kept uid ns (past ++ tr)%list e'.
Proof.
  intros H. revert past. induction H as [e|e ev tr e' _ _ IH|e e1 tr e' He _ IH]; intros past Hs Hk.
  - by rewrite app_nil_r.
  - destruct Hs as [Hs Ht]. replace (past ++ ev :: tr)%list with ((past ++ [ev])%list ++ tr)%list by (by rewrite <-app_assoc).
    apply IH; [done|]. by apply remember_kept.
  - apply IH; [done|]. intros x Hx. apply Hk. by rewrite <-He.
Qed.

Lemma life_kept uid ns past e : life uid ns past e -> kept uid ns past e.
Proof.
  induction 1 as [|past e _ _|past e r tr a e' _ IH Hu Hn Hr Hm]; [intros x Hx; discriminate Hx..|].
  eapply in_memory_kept; [exact Hm| |done]. subst ns. by eapply reconcile_stores.
Qed.

(** An answer of the memory in the middle of a pass is what was stored under the run asked for. *)
Lemma cached_filtered uid ns past e tr e' run byPVC ms :
  in_memory uid e tr e' -> safe (stores ns) past tr -> kept uid ns past e ->
  did (RCached uid run) (Some (byPVC, ms)) ∈ tr -> filtered ns run byPVC ms (past ++ tr)%list.
Proof.
  intros H. revert past. induction H as [e|e ev tr e' Hr _ IH|e e1 tr e' He _ IH]; intros past Hs Hk Hin.
  - by apply elem_of_nil in Hin.
  - destruct Hs as [Hs Ht]. replace (past ++ ev :: tr)%list with ((past ++ [ev])%list ++ tr)%list by (by rewrite <-app_assoc).
    apply elem_of_cons in Hin as [<-|Hin]; [|by apply IH; [|apply remember_kept|]].
    cbn in Hr. unfold cachedResolution, resolvedFor in Hr.
    destruct (en_resolved e !! uid) as [x|] eqn:Ex; [|done]. destruct (String.eqb_spec (rn_run x) run) as [<-|]; [|done].
    injection Hr as -> ->. eapply filtered_mono; [|by apply Hk]. set_solver.
  - apply IH; [done| |done]. intros x Hx. apply Hk. by rewrite <-He.
Qed.

(** C7. The snapshots a prepared restore reads are those of one listing, filtered by its own
    namespace and by the run it resolved, made in this pass or earlier in the Restore's life and
    kept in the engine's memory since. Every volume plan is for a selected claim, with the
    newest of that listing's data snapshots of the claim and the claim's own path in it; no
    selected claim is left without one; and the manifest half reads a manifests snapshot of the
    same listing. The life is any sequence of passes over the Restore, whatever its object
    became, with restarts of the operator and the work of other owners on the memory between
    any two requests. *)
Theorem restore_reads_its_own past e (r : Restore) (source : Object KBackup) found tr e' rc plans resources
    (Hlife : life (rs_UID r) (rs_Namespace r) past e)
    (Hfound : runs (resolving r) found (Ok (Some source)))
    (Hprep : runs (preparing r source) tr (inr (rc, plans, resources)))
    (Hmem : in_memory (rs_UID r) e (found ++ tr)%list e') :
  exists snaps repo job,
    did (RListFiltered repo job (listingTags r (o_name source))) (Ok snaps) ∈ (past ++ found ++ tr)%list
    /\ Forall (planned r (dataSnapshotsByPVC snaps)) plans
    /\ map pl_pvc plans = List.filter (isSelected r) (sort_strings (restorableVolumes (o_body source)))
    /\ Forall (fun plan => exists snap, snap ∈ snaps /\ isDataOf (pl_pvc plan) snap /\ pl_snapshotID plan = s_ID snap
                  /\ forall s', s' ∈ snaps -> isDataOf (pl_pvc plan) s' -> (s_Time s' <= s_Time snap)%Z) plans
    /\ (forall x, resources = Some x ->
          exists snap, snap ∈ snaps /\ default "" (TagValue (s_Tags snap) TagKeyKind) = KindManifests /\ xp_snapshotID x = s_ID snap)
    /\ rx_targetNamespace rc = rs_Namespace r /\ rx_restoredFromRun rc = o_name source.
Proof.
  assert (safe (stores (rs_Namespace r)) past (found ++ tr)%list) as Hsafe.
  { apply safe_app. split; [|by eapply prepare_stores].
    eapply storeless_stores, only_runs; [apply resolveSource_storeless|exact Hfound]. }
  destruct (prepared_reads _ _ _ _ _ _ Hprep) as (byPVC & snaps & Hread & Hp & Hsel & Hres & Hns & Hrun).
  assert (filtered (rs_Namespace r) (o_name source) byPVC snaps (past ++ found ++ tr)%list) as (-> & repo & job & Hin).
  { destruct Hread as [Hin|(-> & repo & job & Hin)].
    - eapply cached_filtered; [exact Hmem|exact Hsafe|by apply life_kept|]. apply elem_of_app. by right.
    - split; [done|]. exists repo, job. rewrite !elem_of_app. by right; right. }
  exists snaps, repo, job. split_and!; try done.
  eapply Forall_impl; [exact Hp|]. intros plan (snap & item & Hs & _ & Hid & _).
  pose proof (dataSnapshotsByPVC_spec snaps (pl_pvc plan)) as Hd. rewrite Hs in Hd. destruct Hd as (D1 & D2 & D3). by exists snap.
Qed.
End Safety.

(** ** Witnesses *)

Definition wit_snapshot (pvc : string) (time : Z) : Snapshot :=
  mkSnapshot ("snap-" ++ pvc) time "c1" [] ["kind=data"; "pvc=" ++ pvc; "namespace=team"; "run=nightly"] None.

Definition wit_source : Object KBackup :=
  mkObject (k := KBackup) (newMeta "team" "nightly" ∅)
    (mkBackupView BackupPhaseCompleted [mkVolumeStatus "data" "snap-data" 10 10 VolumePhaseCompleted "" "" None None]
      (Some 5%Z) (kindClusterBackupLocationRef, "dr")).

Definition wit_ctl_api (jobs : list (Object KJob)) (claims : list (Object KPVC)) : server kube :=
  plainServer
    (fun k _ name => match k return result (Object k) with
                     | KBackup => if name =? "nightly" then Ok wit_source else Err (mkErr ENotFound "not found")
                     | KJob => match find (fun o => o_name o =? name) jobs with
                               | Some j => Ok j | None => Err (mkErr ENotFound "not found") end
                     | KPVC => match find (fun o => o_name o =? name) claims with
                               | Some c => Ok c | None => Err (mkErr ENotFound "not found") end
                     | _ => Err (mkErr ENotFound "not found")
                     end)
    (fun k sel => match k return result (list (Object k)) with
                  | KBackup => Ok [wit_source]
                  | KJob => Ok (List.filter (fun o => selects sel (o_meta o)) jobs)
                  | _ => Ok []
                  end).

(** Everything is accepted, nothing is cached or pinned, the listing holds two
    snapshots of the claim. *)
Definition wit_ctl_server (jobs : list (Object KJob)) (claims : list (Object KPVC)) : server (@ctlI MapConditionStore) :=
  fun past o =>
    match o with
    | inl d => wit_rest_server (wit_ctl_api jobs claims) (omap leftOf past) d
    | inr o =>
        match o return restore_answer o with
        | RUpdate _ | RStatusUpdate _ | RAgeIdentity _ | RCreateBinding _ | RDeleteBinding _ _ | RCreateResourcesJob _
        | RGetNamespace _ | RCreateNamespace _ => None
        | RGetLocation _ => Ok (mkSourceLocation "dr" "c1" "creds" None "kek")
        | RGetRepository _ => Ok (mkBackupRepository "dr" ∅ None true "s3:url")
        | REnsureDEK _ => Ok "dek"
        | RListFiltered _ _ _ => Ok [wit_snapshot "data" 3; wit_snapshot "data" 4]
        | RPinnedFor _ => None
        | RPin _ name => name
        | RCached _ _ | RCachedCluster _ _ => None
        | RStore _ _ _ _ | RStoreCluster _ _ _ _ | RForgetListing _ | RForget _ _ => tt
        end
    end.

Definition wit_status (phase : string) (resources : option RestoreResourcesStatus) : @RestoreStatus MapConditionStore :=
  mkRestoreStatus MapConditionStore phase 0 resources 0 0 0 0 (∅ : gmap string Condition).

(** A confirmed restore of the volumes alone. *)
Definition wit_restore (confirmation : string) (dryRun : bool) : @Restore MapConditionStore :=
  mkRestore MapConditionStore "team" "r" "uid" 1 false [FinalizerRestore]
    (mkRestoreSpec (mkRestoreSource "" sourceTimeLatest "") "Overwrite" (Some []) None confirmation dryRun)
    (wit_status RestorePhaseRunning None).

Definition wit_no_time : string -> string -> option Z := fun _ _ => None.
Definition wit_encode : Selection -> result string := fun _ => Ok "{}".
Definition wit_marshal : labels -> result string := fun _ => Ok "{}".

Notation wit_reconcile r := (reconcileRestore "crystal" "mover" "writer" true wit_unmarshal wit_quote wit_no_time wit_encode wit_marshal r).

(** The pass that finishes the restore, and the one that starts its mover. *)
Definition wit_finish : list (event (@ctlI MapConditionStore)) * passed :=
  exec (wit_ctl_server [wit_done_job (wit_rest_rc "team" "r") "data"] []) (wit_reconcile (wit_restore "team" false)) [].

Definition statuses (tr : list (event (@ctlI MapConditionStore))) : list RestoreStatus :=
  omap (fun e : event (@ctlI MapConditionStore) =>
          match ev_action e with inr (RStatusUpdate s) => Some s | _ => None end) tr.

Lemma statuses_written tr s : s ∈ statuses tr -> exists err, Ev (I := @ctlI MapConditionStore) (inr (RStatusUpdate s)) err ∈ tr.
Proof.
  unfold statuses. intros (e & He & Hs)%list_elem_of_omap. destruct e as [[?|[]] err]; cbn in Hs; try done.
  injection Hs as ->. by exists err.
Qed.

Lemma wit_finish_runs : runs (wit_reconcile (wit_restore "team" false)) (fst wit_finish) (snd wit_finish).
Proof. apply exec_runs. Qed.

(** The one status it writes. *)
Definition wit_final_status : RestoreStatus := hd (wit_status "" None) (statuses (fst wit_finish)).

Lemma wit_final_written :
  exists err, Ev (I := @ctlI MapConditionStore) (inr (RStatusUpdate wit_final_status)) err ∈ fst wit_finish.
Proof.
  apply statuses_written. unfold wit_final_status. destruct (statuses (fst wit_finish)) as [|s l] eqn:E; [|left].
  exfalso. assert (List.length (statuses (fst wit_finish)) = 1) as Hl by (vm_compute; reflexivity). by rewrite E in Hl.
Qed.

Lemma restore_terminal_earned_witness :
  rt_Phase wit_final_status = RestorePhaseCompleted /\ rt_RestoredVolumes wit_final_status = 1%Z
  /\ rt_Phase wit_final_status = RollUpRestoreOutcomes (unitsDone (mkDrive (mkRestoreTally 1 1 0 0) 7 [] None None) wit_final_status) 0
  /\ rp_Confirmation (rs_Spec (wit_restore "team" false)) = rs_Namespace (wit_restore "team" false).
Proof.
  split; [vm_compute; reflexivity|]. split; [vm_compute; reflexivity|]. split; [vm_compute; reflexivity|].
  destruct wit_final_written as [err Hin].
  refine (proj1 (restore_terminal_earned "crystal" "mover" "writer" true wit_unmarshal wit_quote wit_no_time wit_encode wit_marshal
    (wit_restore "team" false) _ _ wit_final_status err wit_finish_runs _ Hin _)); vm_compute; reflexivity.
Defined.

Lemma unconfirmed_or_over_touches_nothing_witness :
  let run := exec (wit_ctl_server [] []) (wit_reconcile (wit_restore "tema" false)) [] in
  exists s err, fst run = [Ev (I := @ctlI MapConditionStore) (inr (RStatusUpdate s)) err]
    /\ rt_Phase s = RestorePhaseAwaitingConfirmation.
Proof.
  cbv zeta.
  destruct (unconfirmed_or_over_touches_nothing "crystal" "mover" "writer" true wit_unmarshal wit_quote wit_no_time wit_encode
    wit_marshal (wit_restore "tema" false) _ _
    (exec_runs (wit_ctl_server [] []) (wit_reconcile (wit_restore "tema" false)) [])) as [[H _]|[[H _]|(_ & s & err & H & Hp & _)]].
  - reflexivity.
  - left. discriminate.
  - discriminate H.
  - discriminate H.
  - exists s, err. split; [exact H|exact Hp].
Defined.

(** That pass deletes the Job of the volume. *)
Lemma jobs_outlive_the_status_witness :
  exists pre e post, fst wit_finish = (pre ++ e :: post)%list
    /\ ev_action e = inl (inl (ADelete KJob "crystal" "rst-team-r-data-restore"))
    /\ exists s, Ev (I := @ctlI MapConditionStore) (inr (RStatusUpdate s)) None ∈ pre
         /\ (IsTerminalRestorePhase (rt_Phase s) = true
             \/ ("rst-team-r-data-restore" = resourcesJobName (wit_restore "team" false) /\ is_Some (rt_Resources s))).
Proof.
  assert (exists pre e post, fst wit_finish = (pre ++ e :: post)%list
    /\ ev_action e = inl (inl (ADelete KJob "crystal" "rst-team-r-data-restore"))) as (pre & e & post & Hs & He).
  { assert (option_map ev_action (fst wit_finish !! 17) = Some (inl (inl (ADelete KJob "crystal" "rst-team-r-data-restore")))) as H
      by (vm_compute; reflexivity).
    destruct (fst wit_finish !! 17) as [e|] eqn:E; [|discriminate H].
    exists (take 17 (fst wit_finish)), e, (drop 18 (fst wit_finish)). split; [symmetry; by apply take_drop_middle|].
    by injection H. }
  exists pre, e, post. split; [exact Hs|]. split; [exact He|].
  exact (jobs_outlive_the_status "crystal" "mover" "writer" true wit_unmarshal wit_quote wit_no_time wit_encode wit_marshal
    (wit_restore "team" false) _ _ wit_finish_runs eq_refl pre e post Hs _ _ He).
Defined.

Definition wit_resolving : list (event (@ctlI MapConditionStore)) * result (option (Object KBackup)) :=
  exec (wit_ctl_server [] []) (resolveSource wit_no_time (wit_restore "team" false)) [].

Lemma resolveSource_spec_witness :
  exists b, snd wit_resolving = Ok (Some b) /\ o_name b = "nightly"
    /\ ((exists name, Ev (I := @ctlI MapConditionStore) (inr (RPinnedFor "uid")) (Some name) ∈ fst wit_resolving)
        \/ exists items : list (Object KBackup), newest_eligible "" None items b).
Proof.
  assert (snd wit_resolving = Ok (Some wit_source)) as E by (vm_compute; reflexivity).
  assert (runs (resolveSource wit_no_time (wit_restore "team" false)) (fst wit_resolving) (Ok (Some wit_source))) as H
    by (rewrite <-E; apply exec_runs).
  exists wit_source. split; [exact E|]. split; [reflexivity|].
  destruct (resolveSource_spec wit_no_time (wit_restore "team" false) _ _ H)
    as [(name & Hn & _)|(cutoff & items & pinned & _ & Hc & _ & Hb & _)]; [left; by exists name|right].
  exists items. cbn in Hc. subst cutoff. exact Hb.
Defined.

(** The same server, with the engine's memory: what the requests so far left in it. *)
Definition wit_memory (past : list (event (@ctlI MapConditionStore))) : restoreEngine :=
  fold_left (fun e ev => remember ev e) past newRestoreEngine.

Definition wit_mem_server : server (@ctlI MapConditionStore) :=
  fun past o =>
    match o as o return answer (@ctlI MapConditionStore) o with
    | inl (inr (ENoteError key)) => fst (noteVolumeError key (wit_memory past))
    | inl (inr (EShouldUnlock key)) => fst (shouldEnqueueUnlock key (wit_memory past))
    | inr (RPin owner name) => fst (pinSource owner name (wit_memory past))
    | inr (RPinnedFor owner) => pinnedSourceFor owner (wit_memory past)
    | inr (RCached owner run) => cachedResolution owner run (wit_memory past)
    | inr (RCachedCluster owner run) => cachedClusterResolution owner run (wit_memory past)
    | o => wit_ctl_server [] [] past o
    end.

Lemma wit_mem_server_recalls past o : recalled (Ev o (wit_mem_server past o)) (wit_memory past).
Proof. by destruct o as [[?|[]]|[]]. Qed.

Lemma exec_in_memory uid {A} (p : prog (@ctlI MapConditionStore) A) past :
  in_memory uid (wit_memory past) (fst (exec wit_mem_server p past))
    (wit_memory (past ++ fst (exec wit_mem_server p past))%list).
Proof.
  revert past. induction p as [a|o k IH]; intros past; cbn [exec fst].
  - rewrite app_nil_r. constructor.
  - specialize (IH (wit_mem_server past o) (past ++ [Ev o (wit_mem_server past o)])%list).
    destruct (exec wit_mem_server (k _) _) as [tr a]. cbn [fst] in *. rewrite <-app_assoc in IH. cbn [app] in IH.
    apply im_own; [apply wit_mem_server_recalls|].
    replace (remember (Ev o (wit_mem_server past o)) (wit_memory past))
      with (wit_memory (past ++ [Ev o (wit_mem_server past o)])%list); [exact IH|].
    unfold wit_memory. by rewrite fold_left_app.
Qed.

Lemma in_memory_app uid e {CS : ConditionStore} tr1 e1 (tr2 : list (event ctlI)) e2 :
  in_memory uid e tr1 e1 -> in_memory uid e1 tr2 e2 -> in_memory uid e (tr1 ++ tr2)%list e2.
Proof. induction 1; intros H2; cbn; [done|apply im_own; auto|eapply im_others; eauto]. Qed.

(** A first pass, which lists; then a second one, which resolves the source and prepares. *)
Definition wit_first := exec wit_mem_server (wit_reconcile (wit_restore "team" false)) [].
Definition wit_found := exec wit_mem_server (resolveSource wit_no_time (wit_restore "team" false)) (fst wit_first).
Definition wit_preparing : list (event (@ctlI MapConditionStore)) * (passed + (restoreExecContext * list restoreVolumePlan * option resourcesPlan)) :=
  exec wit_mem_server (prepare "crystal" "writer" wit_quote (wit_restore "team" false) wit_source)
    (fst wit_first ++ fst wit_found)%list.

(** The memory answered. *)
Definition cacheHit (ev : event (@ctlI MapConditionStore)) : bool :=
  match ev_action ev as o return answer (@ctlI MapConditionStore) o -> bool with
  | inr (RCached _ _) => fun x => match x with Some _ => true | None => false end
  | _ => fun _ => false
  end (ev_answer ev).
Definition listed (ev : event (@ctlI MapConditionStore)) : bool :=
  match ev_action ev with inr (RListFiltered _ _ _) => true | _ => false end.

Lemma restore_reads_its_own_witness :
  existsb cacheHit (fst wit_preparing) = true /\ existsb listed (fst wit_found ++ fst wit_preparing)%list = false
  /\ exists rc plans snaps repo job, snd wit_preparing = inr (rc, plans, None) /\ map pl_pvc plans = ["data"]
    /\ rx_targetNamespace rc = "team"
    /\ Ev (I := @ctlI MapConditionStore) (inr (RListFiltered repo job (listingTags (wit_restore "team" false) "nightly"))) (Ok snaps)
        ∈ (fst wit_first ++ fst wit_found ++ fst wit_preparing)%list.
Proof.
  split; [vm_compute; reflexivity|]. split; [vm_compute; reflexivity|].
  assert (match snd wit_preparing with inr (_, _, Some _) | inl _ => false | _ => true end = true) as Hr by (vm_compute; reflexivity).
  destruct (snd wit_preparing) as [p|[[rc plans] [res|]]] eqn:E; [discriminate Hr..|].
  assert (runs (prepare "crystal" "writer" wit_quote (wit_restore "team" false) wit_source) (fst wit_preparing) (inr (rc, plans, None))) as H
    by (rewrite <-E; apply exec_runs).
  assert (snd wit_found = Ok (Some wit_source)) as Ef by (vm_compute; reflexivity).
  assert (runs (resolveSource wit_no_time (wit_restore "team" false)) (fst wit_found) (Ok (Some wit_source))) as Hf
    by (rewrite <-Ef; apply exec_runs).
  pose proof (exec_in_memory "uid" (wit_reconcile (wit_restore "team" false)) []) as M1.
  pose proof (exec_in_memory "uid" (resolveSource wit_no_time (wit_restore "team" false)) (fst wit_first)) as M2.
  pose proof (exec_in_memory "uid" (prepare "crystal" "writer" wit_quote (wit_restore "team" false) wit_source)
    (fst wit_first ++ fst wit_found)%list) as M3.
  destruct (restore_reads_its_own "crystal" "mover" "writer" true wit_unmarshal wit_quote wit_no_time wit_encode wit_marshal
    (fst wit_first) (wit_memory (fst wit_first)) (wit_restore "team" false) wit_source _ _ _ rc plans None
    (life_pass "crystal" "mover" "writer" true wit_unmarshal wit_quote wit_no_time wit_encode wit_marshal "uid" "team" []
       newRestoreEngine (wit_restore "team" false) _ _ _
       (life_begins "crystal" "mover" "writer" true wit_unmarshal wit_quote wit_no_time wit_encode wit_marshal "uid" "team")
       eq_refl eq_refl (exec_runs _ _ _) M1) Hf H (in_memory_app _ _ _ _ _ _ M2 M3))
    as (snaps & repo & job & Hin & _ & Hm & _ & _ & Ht & _).
  exists rc, plans, snaps, repo, job. split; [done|]. split; [rewrite Hm; vm_compute; reflexivity|]. split; [exact Ht|exact Hin].
Defined.

(** ** What the model shows *)

(** A restore whose every volume landed and some of whose manifests failed ends with
    the message that no volume was restored. *)
Lemma terminal_message_misleads {CS : ConditionStore} {L : ConditionStoreLaws CS} (r : Restore) (d : volumeDrive) x :
  d_failures d = [] -> failedCount d = 0%Z -> rt_Resources (rs_Status r) = Some x -> (0 < rr_FailedCount x)%Z ->
  exists c, FindCondition (rt_Conditions (terminalStatus r d)) ConditionReady = Some c
    /\ c_status c = ConditionFalse /\ c_message c = "no volumes restored".
Proof.
  intros Hd Hf Hx Hp. unfold terminalStatus. rewrite Hd.
  assert (RollUpRestoreOutcomes (unitsDone d (rs_Status r)) (unitsFailed d (rs_Status r)) =? RestorePhaseCompleted = false) as E.
  { unfold unitsFailed. rewrite Hx, Hf. unfold RollUpRestoreOutcomes. destruct (_ =? 0)%Z eqn:E0; [lia|]. by destruct (0 <? _)%Z. }
  unfold setRestoreTerminalCondition. rewrite E. cbn [rt_Conditions set_rt_condition set_rt_conditions].
  match goal with |- context [SetCondition ?cs ?t ?s ?re ?ms ?g] => destruct (FindCondition_SetCondition cs t s re ms g) as [tr ->] end.
  eexists. split_and!; [reflexivity..|]. by vm_compute.
Qed.

(** [spec.dryRun] does not reach the volumes: a dry run starts their movers. *)
Lemma dry_run_restores_volumes :
  let run := exec (wit_ctl_server [] [wit_staging "rst-team-r-data-target"]) (wit_reconcile (wit_restore "team" true)) [] in
  map rj_Name (movers (omap leftOf (fst run))) = ["rst-team-r-data-restore"].
Proof. cbv zeta. vm_compute. reflexivity. Qed.

(** A manifest Job with a failed pod counts as over while the Job still retries: its
    report is given up on. *)
Lemma resources_ignore_retries :
  let job := mkObject (k := KJob) (newMeta "crystal" (resourcesJobName (wit_restore "team" false)) ∅) (mkJobStatus 0 1 []) in
  let r := wit_restore "team" false in
  let run := exec (wit_ctl_server [job] []) (advanceResources "crystal" "mover" "writer" wit_unmarshal wit_quote wit_encode wit_marshal
    r (wit_rest_rc "team" "r") (Some (mkResourcesPlan "id" "/m" (mkSelection true []) "Overwrite" false ∅))) [] in
  let '(done, teardown, err, s) := snd run in
  (done, teardown, err) = (true, true, None) /\ option_map rr_FailedCount (rt_Resources s) = Some 1%Z.
Proof. vm_compute. split; reflexivity. Qed.
