(* ===== verification/ClusterRestore.v ===== *)
(** * ClusterRestore: restoring a repository coordinate into any namespace
    (internal/controller: clusterrestore_controller.go, cluster_restore_resources.go,
    cluster_manifest_rbac.go)

    The cluster-plane sibling of [RestoreController]: the same engine and the same
    requests, but the run is chosen from the repository's own listing, the target
    namespace may be created, storage classes may be mapped, and the cluster-scoped
    resources are applied before any volume is driven.  [range] is the order in
    which Go visits a map, which the language leaves open. *)

From Stdlib Require Import Ascii String.
From S2P Require Import Prelude GoText Cluster Names Status Selectors MoverResult Restic VolumeMachine.
From S2P Require Import Backup.
From S2P Require Import Location.
From S2P Require Import Manifests.
From S2P Require Import ManifestSelection.
From S2P Require Import RestoreExposer.
From S2P Require Import RestoreEngine.
From S2P Require Import RestoreController.
From S2P Require Import RestoreSafety.
From S2P Require Import Program.
From S2P Require Import Api.

#[local] Open Scope string_scope.

(** ** Data *)

Definition FinalizerClusterRestore : string := "crystalbackup.io/cluster-restore-teardown".
Definition ClusterManifestsRoot : string := "/cluster-manifests".
Definition ClusterManifestsRestoreDir : string := ClusterManifestsRoot ++ "/restore".

Record ClusterRestoreSource := mkClusterRestoreSource {
  cs_Location : string; cs_Namespace : string; cs_Backup : string; cs_Time : string
}.

Record ClusterRestoreTarget := mkClusterRestoreTarget {
  ct_Namespace : string; ct_CreateNamespace : bool; ct_StorageClassMapping : gmap string string
}.

Record ClusterRestoreSpec := mkClusterRestoreSpec {
  cp_Source : ClusterRestoreSource;
  cp_Target : ClusterRestoreTarget;
  cp_Mode : string;
  cp_Volumes : option (list VolumeSelectorItem);
  cp_ClusterResources : option (list string * list string);     (* include, exclude *)
  cp_Confirmation : string;
  cp_DryRun : bool
}.

Record ClusterRestore `{ConditionStore} := mkClusterRestore {
  cr_Name : string;
  cr_UID : string;
  cr_Generation : Z;
  cr_Deleting : bool;
  cr_Finalizers : list string;
  cr_Spec : ClusterRestoreSpec;
  cr_Status : RestoreStatus
}.

Record clusterRestoreResourcesPlan := mkClusterPlan {
  zp_snapshotID : string; zp_snapshotPath : string; zp_selection : Selection; zp_mode : string; zp_dryRun : bool
}.

Definition set_cr_status {CS : ConditionStore} (s : RestoreStatus) (r : ClusterRestore) : ClusterRestore :=
  mkClusterRestore _ (cr_Name r) (cr_UID r) (cr_Generation r) (cr_Deleting r) (cr_Finalizers r) (cr_Spec r) s.

(** ** Choosing the run *)

Definition appendTo (m : gmap string (list Snapshot)) (run : string) (s : Snapshot) : gmap string (list Snapshot) :=
  <[run := (default [] (m !! run) ++ [s])%list]> m.

(** The snapshots of each run, and the newest instant of each. *)
Definition indexRun (acc : gmap string (list Snapshot) * gmap string Z) (s : Snapshot)
    : gmap string (list Snapshot) * gmap string Z :=
  match TagValue (s_Tags s) TagKeyRun with
  | None => acc
  | Some run =>
      if run =? "" then acc
      else
        let '(byRun, newest) := acc in
        (appendTo byRun run s,
         if time_after (s_Time s) (default zero_time (newest !! run)) then <[run := s_Time s]> newest else newest)
  end.

Definition runsOf (snaps : list Snapshot) : gmap string (list Snapshot) * gmap string Z := fold_left indexRun snaps (∅, ∅).

Definition bestRun (cutoff : option Z) (newest : gmap string Z) (best : string) (e : string * Z) : string :=
  let '(run, t) := e in
  if match cutoff with Some c => time_after t c | None => false end then best
  else if (best =? "") || time_after t (default zero_time (newest !! best)) then run
  else best.

Definition snapshotDataSize (s : Snapshot) : Z := default 0%Z (s_Summary s).

(** The capture of the cluster-scoped objects. *)
Definition clusterManifestsRestoreSnapshot (snaps : list Snapshot) : option Snapshot :=
  newestOfKind KindClusterManifests snaps None.

Definition clusterManifestsRestoreSnapshotPath (snap : Snapshot) : string := hd ClusterManifestsRoot (s_Paths snap).

Definition clusterRestoreJobName (ownerID : string) : string :=
  sanitizeDNSName (ownerID ++ "-cluster-resources") moverNamePrefixMax ++ "-mover".
Definition clusterManifestsResolveJobName (ownerID : string) : string :=
  sanitizeDNSName (ownerID ++ "-cluster-manifests") restoreNamePrefixMax ++ "-resolve".
Definition clusterManifestBindingName (jobName : string) : string := "crystal-cluster-manifest-" ++ jobName.

(** The reconcile requests a Job maps to: at most one name. *)
Definition mapJobToClusterRestore (ls : labels) : option string :=
  if negb (lget ls LabelManagedBy =? ManagedByValue) then None
  else
    let name := lget ls LabelClusterRestore in
    if name =? "" then None else Some name.

Section Controller.
Context {CS : ConditionStore}.
Variable OperatorNamespace : string.
Variable ManifestMoverServiceAccount ClusterManifestWriterClusterRole : string.
Variable hasQueue : bool.
Variable Unmarshal : string -> result MoverResult.       (* json.Unmarshal *)
Variable Quote : string -> string.                       (* fmt's %q *)
Variable TimeParse : string -> string -> option Z.       (* time.Parse, by layout *)
Variable EncodeSelection : Selection -> result string.   (* json.Marshal of the selection *)
Variable range : forall A, gmap string A -> list (string * A).

Notation failed e := (noResult, Some e) (only parsing).

(** *** The run *)

Definition selectRun (snaps : list Snapshot) (namedRun timeSpec : string) : option (string * list Snapshot) :=
  let '(byRun, newest) := runsOf snaps in
  if negb (namedRun =? "") then option_map (fun rs => (namedRun, rs)) (byRun !! namedRun)
  else if badSourceTime TimeParse timeSpec then None
  else
    let cutoff := if (timeSpec =? "") || (timeSpec =? sourceTimeLatest) then None else parseRestoreTime TimeParse timeSpec in
    let best := fold_left (bestRun cutoff newest) (range _ newest) "" in
    if best =? "" then None else Some (best, default [] (byRun !! best)).

Definition runOf (byPVC : gmap string Snapshot) : string :=
  default "" (head (omap (fun e => TagValue (s_Tags (snd e)) TagKeyRun) (range _ byPVC))).

(** *** Parking a pass *)

Definition crOwner (r : ClusterRestore) : string := clusterRestoreOwnerID (cr_Name r).
Definition cr_setReady (st reason message : string) (r : ClusterRestore) : RestoreStatus :=
  set_rt_condition ConditionReady st reason message (cr_Generation r) (cr_Status r).

Definition cr_updateText (r : ClusterRestore) : string := "update status for ClusterRestore " ++ cr_Name r.

Definition cr_writeStatus (r : ClusterRestore) (s : RestoreStatus) (after : Z) : ctlP passed :=
  let! err := ask (RStatusUpdate s) in
  Done (match err with Some e => failed (wrap_err (cr_updateText r) e) | None => (RequeueAfter after, None) end).

Definition gateAt (r : ClusterRestore) (reason message : string) (after : Z) : ctlP passed :=
  cr_writeStatus r (set_rt_phase RestorePhasePending (cr_setReady ConditionFalse reason message r)) after.

Definition clusterGate (r : ClusterRestore) (reason message : string) : ctlP passed :=
  gateAt r reason message shortRequeueInterval.

Definition cr_awaitConfirmation (r : ClusterRestore) : ctlP passed :=
  cr_writeStatus r (set_rt_phase RestorePhaseAwaitingConfirmation
    (cr_setReady ConditionFalse "ConfirmationRequired"
      ("a " ++ cp_Mode (cr_Spec r) ++ " restore modifies existing data: set spec.confirmation to "
        ++ Quote (ct_Namespace (cp_Target (cr_Spec r))) ++ " to proceed") r)) shortRequeueInterval.

Definition finalizeClusterRestore (r : ClusterRestore) : ctlP passed :=
  if negb (existsb (String.eqb FinalizerClusterRestore) (cr_Finalizers r)) then Done (noResult, None)
  else
    let rc := mkExecContext (cr_Name r) LabelClusterRestore (crOwner r) (ct_Namespace (cp_Target (cr_Spec r)))
                false "" "" "" "" "" None "" in
    let! _ := ask (RForget (cr_UID r) (crOwner r)) in
    let! _ := eng (teardownRestoreResidue OperatorNamespace rc) in
    let! err := ask (RUpdate (List.filter (fun f => negb (f =? FinalizerClusterRestore)) (cr_Finalizers r))) in
    Done (match err with
          | Some e => if IsNotFound e then (noResult, None)
                      else failed (wrap_err ("remove finalizer from ClusterRestore " ++ cr_Name r) e)
          | None => (noResult, None)
          end).

Notation step A := (ctlP (passed + A)).
Definition cr_stop {A} (p : ctlP passed) : step A := let! a := p in Done (inl a).
Definition cr_stopErr {A} (e : gerr) : step A := Done (inl (failed e)).

Notation "'let>' x ':=' p 'in' q" :=
  (prog_bind p (fun r => match r with inl a => Done (inl a) | inr x => q end))
  (at level 200, x binder, right associativity).

(** *** The target *)

Definition ensureTargetNamespace (r : ClusterRestore) : step unit :=
  let target := cp_Target (cr_Spec r) in
  let ns := ct_Namespace target in
  let! err := ask (RGetNamespace ns) in
  match err with
  | None => Done (inr tt)
  | Some e =>
      if negb (IsNotFound e) then cr_stopErr (wrap_err ("get target namespace " ++ ns) e)
      else if negb (ct_CreateNamespace target) then
        cr_stop (clusterGate r "TargetNamespaceNotFound"
          ("target namespace " ++ Quote ns ++ " does not exist and target.createNamespace is false"))
      else
        let! err := ask (RCreateNamespace ns) in
        match err with
        | Some e => if IsAlreadyExists e then Done (inr tt) else cr_stopErr (wrap_err ("create target namespace " ++ ns) e)
        | None => Done (inr tt)
        end
  end.

(** *** The plans *)

Definition cr_sizePlan (target : ClusterRestoreTarget) (snap : Snapshot) (plan : restoreVolumePlan) : ctlP restoreVolumePlan :=
  let sized := mkPlan (pl_pvc plan) (pl_snapshotID plan) (pl_snapshotPath plan) (pl_include plan) (pl_exclude plan)
                 (pl_targetPath plan) in
  let! pvc := kubeP (get KPVC (ct_Namespace target) (pl_pvc plan)) in
  match pvc with
  | Ok pvc =>
      let c := o_body pvc in
      Done (sized (pc_Storage c) (default (pl_storageClass plan) (pc_StorageClassName c)) (pc_AccessModes c))
  | Err _ =>
      let meta := ParsePVCMeta (s_Tags snap) in
      let class := pm_StorageClass meta in
      let class := match ct_StorageClassMapping target !! class with
                   | Some mapped => if negb (class =? "") then mapped else class
                   | None => class
                   end in
      Done (sized (if (0 <? pm_Capacity meta)%Z then pm_Capacity meta else fallbackRestoreCapacity (snapshotDataSize snap))
              class (pl_accessModes plan ++ pm_AccessModes meta)%list)
  end.

Definition cr_planVolume (r : ClusterRestore) (byPVC : gmap string Snapshot)
    (selected : gmap string (option VolumeSelectorItem)) (plans : list restoreVolumePlan) (pvc : string)
    : ctlP (list restoreVolumePlan) :=
  match selected !! pvc, byPVC !! pvc with
  | Some item, Some snap =>
      let! plan := cr_sizePlan (cp_Target (cr_Spec r)) snap (planOf (cs_Namespace (cp_Source (cr_Spec r))) pvc snap item) in
      Done (plans ++ [plan])%list
  | _, _ => Done plans
  end.

Definition cr_buildPlans (r : ClusterRestore) (byPVC : gmap string Snapshot) : ctlP (list restoreVolumePlan) :=
  let sourcePVCs := sort_strings (map fst (range _ byPVC)) in
  let vols := cp_Volumes (cr_Spec r) in
  let selected := planVolumes (default [] vols) sourcePVCs (bool_decide (is_Some vols)) in
  foldM (cr_planVolume r byPVC selected) [] sourcePVCs.

(** *** The repository *)

Definition cr_resolveRepository (r : ClusterRestore) : step (SourceLocation * BackupRepository * string) :=
  let locationName := cs_Location (cp_Source (cr_Spec r)) in
  let! loc := ask (RGetLocation locationName) in
  match loc with
  | Err e =>
      if IsNotFound e then cr_stop (clusterGate r "LocationNotFound" ("ClusterBackupLocation " ++ Quote locationName ++ " not found"))
      else cr_stopErr (wrap_err ("get ClusterBackupLocation " ++ locationName) e)
  | Ok loc =>
      let notReady := cr_stop (clusterGate r "RepositoryNotReady" ("BackupRepository " ++ Quote (sl_Name loc) ++ " is not initialized")) in
      let! repo := ask (RGetRepository (sl_Name loc)) in
      match repo with
      | Err e => if IsNotFound e then notReady else cr_stopErr (wrap_err ("get BackupRepository " ++ sl_Name loc) e)
      | Ok repo =>
          if negb (br_Initialized repo) then notReady
          else
            let! dek := resolvePlatformDEKCommon OperatorNamespace loc in
            match dek with
            | inr (reason, message) => cr_stop (clusterGate r reason message)
            | inl dek => Done (inr (loc, repo, dek))
            end
      end
  end.

Definition coordinate (src : ClusterRestoreSource) : string := cs_Namespace src ++ "/" ++ cs_Backup src ++ "/" ++ cs_Time src.

(** The listing of the run's cluster-scoped capture, when the restore opts in. *)
Definition listClusterManifests (r : ClusterRestore) (repo : BackupRepository) (run : string) : step (list Snapshot) :=
  match cp_ClusterResources (cr_Spec r) with
  | None => Done (inr [])
  | Some _ =>
      let! snaps := ask (RListFiltered (br_Name repo) (clusterManifestsResolveJobName (crOwner r))
                      [Tag TagKeyKind KindClusterManifests; Tag TagKeyRun run]) in
      match snaps with
      | Err e => cr_stop (clusterGate r "ClusterManifestResolutionFailed"
                   ("repository listing for cluster-scoped resources of run " ++ Quote run ++ " failed: " ++ err_text e))
      | Ok snaps => Done (inr snaps)
      end
  end.

(** The snapshots of the coordinate: cached, or listed, chosen and cached. *)
Definition cr_resolveSnapshots (r : ClusterRestore) (repo : BackupRepository) : step (gmap string Snapshot * list Snapshot) :=
  let src := cp_Source (cr_Spec r) in
  let! cached := ask (RCachedCluster (cr_UID r) (coordinate src)) in
  match cached with
  | Some x => Done (inr x)
  | None =>
      let! snaps := ask (RListFiltered (br_Name repo) (restoreResolveJobName (crOwner r)) [Tag TagKeyNamespace (cs_Namespace src)]) in
      match snaps with
      | Err e => cr_stop (clusterGate r "SnapshotResolutionFailed"
                   ("repository listing for namespace " ++ Quote (cs_Namespace src) ++ " failed: " ++ err_text e))
      | Ok snaps =>
          match selectRun snaps (cs_Backup src) (cs_Time src) with
          | None => cr_stop (gateAt r "RunNotFound"
                      ("no run matching spec.source in the repository for namespace " ++ Quote (cs_Namespace src))
                      periodicRequeueInterval)
          | Some (run, runSnaps) =>
              let byPVC := dataSnapshotsByPVC runSnaps in
              if (size byPVC =? 0)%nat then
                cr_stop (gateAt r "RunNotFound"
                  ("run " ++ Quote run ++ " holds no data snapshots for namespace " ++ Quote (cs_Namespace src))
                  periodicRequeueInterval)
              else
                let> manifests := listClusterManifests r repo run in
                let! _ := ask (RStoreCluster (cr_UID r) (coordinate src) byPVC manifests) in
                Done (inr (byPVC, manifests))
          end
      end
  end.

Definition resolveClusterRestorePlan (r : ClusterRestore) (snaps : list Snapshot) : option clusterRestoreResourcesPlan :=
  match cp_ClusterResources (cr_Spec r) with
  | None => None
  | Some (include, exclude) =>
      match clusterManifestsRestoreSnapshot snaps with
      | None => None
      | Some snap =>
          Some (mkClusterPlan (s_ID snap) (clusterManifestsRestoreSnapshotPath snap)
            (if (List.length include =? 0)%nat && (List.length exclude =? 0)%nat then mkSelection true []
             else mkSelection false [mkSelectionItem None include exclude])
            (cp_Mode (cr_Spec r)) (cp_DryRun (cr_Spec r)))
      end
  end.

Definition cr_prepare (r : ClusterRestore)
    : step (restoreExecContext * list restoreVolumePlan * option clusterRestoreResourcesPlan) :=
  let> x := cr_resolveRepository r in
  let '(loc, repo, dek) := x in
  let> y := cr_resolveSnapshots r repo in
  let '(byPVC, manifests) := y in
  let rc := mkExecContext (cr_Name r) LabelClusterRestore (crOwner r) (ct_Namespace (cp_Target (cr_Spec r)))
              (cp_Mode (cr_Spec r) =? RestoreModeRecreate) (runOf byPVC) (sl_Name loc) (br_RepositoryURL repo) dek
              (sl_CredsSecret loc) (sl_S3Connections loc) (sl_ClusterID loc) in
  let! plans := cr_buildPlans r byPVC in
  match resolveClusterRestorePlan r manifests with
  | Some plan =>
      if ClusterManifestWriterClusterRole =? "" then
        cr_stop (clusterGate r "ClusterManifestRestoreUnavailable"
          ("this operator was not configured with --cluster-manifest-writer-cluster-role, so the "
            ++ "cluster-scoped half of a ClusterRestore cannot run; omit spec.clusterResources to restore volumes only"))
      else Done (inr (rc, plans, Some plan))
  | None => Done (inr (rc, plans, None))
  end.

(** *** The cluster-scoped half *)

Definition clusterRestoreLabels (rc : restoreExecContext) : labels :=
  <[LabelMoverRole := MoverRoleManifest]> (<[rx_ownerLabelKey rc := rx_ownerName rc]> (<[LabelManagedBy := ManagedByValue]> ∅)).

Definition clusterRestoreJobEnv (plan : clusterRestoreResourcesPlan) : result (list (string * string)) :=
  match EncodeSelection (zp_selection plan) with
  | Err e => Err e
  | Ok selection =>
      let env := [("CRYSTAL_MANIFESTS_RESTORE_DIR", ClusterManifestsRestoreDir);
                  ("CRYSTAL_MANIFESTS_MODE", zp_mode plan); ("CRYSTAL_MANIFESTS_SELECTION", selection)] in
      Ok (if zp_dryRun plan then (env ++ [("CRYSTAL_MANIFESTS_DRY_RUN", "true")])%list else env)
  end.

Definition clusterWriterBinding (jobName : string) : RoleBinding :=
  mkRoleBinding (clusterManifestBindingName jobName) ""
    (<[LabelManagedBy := ManagedByValue]> (<[LabelMoverRole := MoverRoleManifest]>
      (<[LabelMoverJob := jobName]> (<[LabelOperatorNS := OperatorNamespace]> ∅))))
    ClusterManifestWriterClusterRole ManifestMoverServiceAccount OperatorNamespace.

Definition clusterResourcesJob (rc : restoreExecContext) (plan : clusterRestoreResourcesPlan) (jobName : string)
    (env : list (string * string)) : ResourcesJob :=
  mkResourcesJob jobName "cluster-manifests-restore"
    (ManifestsRestoreArgs (zp_snapshotID plan) (zp_snapshotPath plan) ClusterManifestsRestoreDir)
    (rx_repoURL rc) (rx_s3Connections rc) jobName (clusterRestoreLabels rc) ManifestMoverServiceAccount ClusterManifestsRoot env.

Definition startClusterRestoreJob (rc : restoreExecContext) (plan : clusterRestoreResourcesPlan) (jobName : string)
    : ctlP (option gerr) :=
  let! cerr := eng (ensureRestoreCreds OperatorNamespace rc jobName (clusterRestoreLabels rc)) in
  match cerr with
  | Some e => Done (Some e)
  | None =>
      let! berr := ask (RCreateBinding (clusterWriterBinding jobName)) in
      match (match berr with Some e => if IsAlreadyExists e then None else Some e | None => None end) with
      | Some e => Done (Some (wrap_err ("create transient ClusterRoleBinding " ++ clusterManifestBindingName jobName ++ " to "
                    ++ ClusterManifestWriterClusterRole) e))
      | None =>
          match clusterRestoreJobEnv plan with
          | Err e => Done (Some e)
          | Ok env =>
              let! jerr := ask (RCreateResourcesJob (clusterResourcesJob rc plan jobName env)) in
              match jerr with
              | Some e =>
                  if IsAlreadyExists e then Done None
                  else
                    let! _ := ask (RDeleteBinding "" (clusterManifestBindingName jobName)) in
                    Done (Some (wrap_err ("create cluster-manifest restore Job " ++ OperatorNamespace ++ "/" ++ jobName) e))
              | None => Done None
              end
          end
      end
  end.

Definition recordClusterResources (res : result MoverResult) (s : RestoreStatus) : RestoreStatus :=
  match res with
  | Err e =>
      set_rt_resources (rt_RestoredResources s)
        (mkRestoreResourcesStatus 1 false
          [failedEntry ("the cluster-scoped restore did not report a result (" ++ err_text e ++ "); "
            ++ "some resources may have been applied — see the mover's pod log")]) s
  | Ok m =>
      if negb (mr_OK m) then
        set_rt_resources (rt_RestoredResources s)
          (mkRestoreResourcesStatus 1 false [failedEntry (clampMessage (mr_Error m))]) s
      else set_rt_resources (mr_RestoredResources m) (resourcesStatusFrom m) s
  end.

(** Whether the half is done, whether its Job is to be torn down, an error, the status. *)
Definition advanceClusterRestore (r : ClusterRestore) (rc : restoreExecContext) (plan : option clusterRestoreResourcesPlan)
    : ctlP (bool * bool * option gerr * RestoreStatus) :=
  let s := cr_Status r in
  match plan, rt_Resources s with
  | None, _ | _, Some _ => Done (true, false, None, s)
  | Some plan, None =>
      let jobName := clusterRestoreJobName (rx_ownerID rc) in
      let! job := kubeP (get KJob OperatorNamespace jobName) in
      match job with
      | Err e =>
          if IsNotFound e then let! err := startClusterRestoreJob rc plan jobName in Done (false, false, err, s)
          else Done (false, false, Some (wrap_err ("get cluster-manifest restore Job " ++ OperatorNamespace ++ "/" ++ jobName) e), s)
      | Ok job =>
          if (js_Succeeded (o_body job) =? 0)%Z && (js_Failed (o_body job) =? 0)%Z then Done (false, false, None, s)
          else
            let! pods := eng (own (EListPods jobName)) in
            Done (true, true, None, recordClusterResources (fst (readMoverResult Unmarshal Quote OperatorNamespace pods jobName)) s)
      end
  end.

Definition teardownClusterRestore (rc : restoreExecContext) : ctlP () :=
  let jobName := clusterRestoreJobName (rx_ownerID rc) in
  let! _ := ask (RDeleteBinding "" (clusterManifestBindingName jobName)) in
  eng (deleteJobAndSecret OperatorNamespace jobName).

(** *** The pass *)

(** The cluster-scoped half is not done: no volume is driven. *)
Definition holdForClusterResources (r : ClusterRestore) (rc : restoreExecContext) (teardown : bool) (clusterErr : option gerr)
    : ctlP passed :=
  let msg := "restoring cluster-scoped resources before volumes" in
  let msg := match clusterErr with
             | Some e => clampMessage (msg ++ "; the last attempt failed and is being retried: " ++ err_text e)
             | None => msg
             end in
  let s := set_rt_condition ConditionReady ConditionFalse "InProgress" msg (cr_Generation r)
             (set_rt_phase RestorePhaseRunning (cr_Status r)) in
  let! err := ask (RStatusUpdate s) in
  match err with
  | Some e => Done (failed (wrap_err (cr_updateText r) e))
  | None =>
      let! _ := (if teardown then teardownClusterRestore rc else Done tt) in
      Done (match clusterErr with Some e => failed e | None => (RequeueAfter restorePollInterval, None) end)
  end.

Definition cr_continue (r : ClusterRestore) (rc : restoreExecContext) (d : volumeDrive) (teardown : bool) : ctlP passed :=
  let s := set_rt_phase RestorePhaseRunning (cr_Status r) in
  let s := if tallied d then stampVolumeCounts (d_tally d) s else s in
  let s := set_rt_condition ConditionReady ConditionFalse "InProgress" (restoreProgressMessage d "") (cr_Generation r) s in
  let! err := ask (RStatusUpdate s) in
  match err with
  | Some e => Done (failed (wrap_err (cr_updateText r) e))
  | None =>
      let! _ := (if teardown then teardownClusterRestore rc else Done tt) in
      Done (match d_passErr d with Some e => failed e | None => (RequeueAfter restorePollInterval, None) end)
  end.

Definition cr_terminalStatus (r : ClusterRestore) (d : volumeDrive) : RestoreStatus :=
  let s := cr_Status r in
  let phase := RollUpRestoreOutcomes (unitsDone d s) (unitsFailed d s) in
  setRestoreTerminalCondition phase (d_failures d) (cr_Generation r)
    (set_rt_bytes (d_restoredBytes d) (stampVolumeCounts (d_tally d) (set_rt_phase phase s))).

Definition cr_finish (r : ClusterRestore) (rc : restoreExecContext) (plans : list restoreVolumePlan) (d : volumeDrive)
    (teardown : bool) : ctlP passed :=
  let! err := ask (RStatusUpdate (cr_terminalStatus r d)) in
  match err with
  | Some e => Done (failed (wrap_err (cr_updateText r) e))
  | None =>
      let! _ := (if teardown then teardownClusterRestore rc else Done tt) in
      let! _ := eng (teardownAll OperatorNamespace rc plans) in
      let! _ := ask (RForget (cr_UID r) (rx_ownerID rc)) in
      Done (noResult, None)
  end.

(** The volumes, once the cluster-scoped half is done. *)
Definition cr_driveVolumes (r : ClusterRestore) (rc : restoreExecContext) (plans : list restoreVolumePlan) (teardown : bool)
    : ctlP passed :=
  let! d := eng (driveVolumes OperatorNamespace hasQueue Unmarshal Quote rc plans) in
  if negb (tallied d) || (settled d <? Z.of_nat (List.length plans))%Z then cr_continue r rc d teardown
  else cr_finish r rc plans d teardown.

Definition driveClusterRestore (r : ClusterRestore) : ctlP passed :=
  let! prepared := cr_prepare r in
  match prepared with
  | inl a => Done a
  | inr (rc, plans, plan) =>
      let! half := advanceClusterRestore r rc plan in
      let '(clusterDone, teardown, clusterErr, s) := half in
      let r := set_cr_status s r in
      let clusterDone := match clusterErr with Some _ => false | None => clusterDone end in
      if negb clusterDone then holdForClusterResources r rc teardown clusterErr
      else cr_driveVolumes r rc plans teardown
  end.

Definition reconcileClusterRestore (r : ClusterRestore) : ctlP passed :=
  let target := ct_Namespace (cp_Target (cr_Spec r)) in
  if cr_Deleting r then finalizeClusterRestore r
  else if negb (existsb (String.eqb FinalizerClusterRestore) (cr_Finalizers r)) then
    let! err := ask (RUpdate (cr_Finalizers r ++ [FinalizerClusterRestore])) in
    Done (match err with
          | Some e => failed (wrap_err ("add finalizer to ClusterRestore " ++ cr_Name r) e)
          | None => (mkResult true 0, None)
          end)
  else if IsTerminalRestorePhase (rt_Phase (cr_Status r)) then Done (noResult, None)
  else if negb (cp_Confirmation (cr_Spec r) =? target) then cr_awaitConfirmation r
  else
    let r := if IsConditionTrue (rt_Conditions (cr_Status r)) ConditionConfirmed then r
             else set_cr_status (set_rt_condition ConditionConfirmed ConditionTrue "ConfirmationAccepted"
                    "spec.confirmation matches the target namespace" (cr_Generation r) (cr_Status r)) r in
    let time := cs_Time (cp_Source (cr_Spec r)) in
    if badSourceTime TimeParse time then
      clusterGate r "InvalidSourceTime"
        ("spec.source.time " ++ Quote time ++ " is not " ++ quoted "latest" ++ " or a valid RFC3339 timestamp")
    else
      let! ns := ensureTargetNamespace r in
      match ns with
      | inl a => Done a
      | inr _ => driveClusterRestore r
      end.
End Controller.

(** ** Lemmas: choosing the run *)

Definition ofRun (run : string) (s : Snapshot) : bool := match TagValue (s_Tags s) TagKeyRun with Some r => r =? run | None => false end.

(** The newest instant among the snapshots of a run, the zero time without any. *)
Definition newestTime (run : string) (snaps : list Snapshot) : Z :=
  fold_left (fun t s => if ofRun run s && time_after (s_Time s) t then s_Time s else t) snaps zero_time.

Lemma runsOf_spec snaps run :
  run <> "" ->
  (default [] (fst (runsOf snaps) !! run) = List.filter (ofRun run) snaps
   /\ (fst (runsOf snaps) !! run = None <-> List.filter (ofRun run) snaps = []))
  /\ default zero_time (snd (runsOf snaps) !! run) = newestTime run snaps
  /\ (forall t, snd (runsOf snaps) !! run = Some t -> (zero_time < t)%Z /\ is_Some (fst (runsOf snaps) !! run)).
Proof.
  intros Hrun. unfold runsOf, newestTime. induction snaps as [|s snaps IH] using rev_ind; [done|].
  rewrite !fold_left_app, List.filter_app. cbn [fold_left List.filter].
  destruct (fold_left indexRun snaps (∅, ∅)) as [byRun newest] eqn:E. cbn [fst snd] in IH.
  destruct IH as ((H1 & H2) & H3 & H4). unfold indexRun, ofRun at 2 4 5.
  destruct (TagValue (s_Tags s) TagKeyRun) as [r|]; [|cbn; rewrite app_nil_r; by split_and!].
  destruct (String.eqb_spec r "") as [->|Hr].
  { destruct (String.eqb_spec "" run); [congruence|]. cbn. rewrite app_nil_r. by split_and!. }
  destruct (String.eqb_spec r run) as [->|Hne]; cbn [fst snd andb].
  - unfold appendTo. rewrite lookup_insert_eq. cbn [from_option id]. rewrite H1. split; [split; [done|]|].
    { split; [done|]. intros H. by apply app_eq_nil in H as [_ ?]. }
    rewrite <-H3. unfold time_after. destruct (_ <? s_Time s)%Z eqn:Et.
    + rewrite lookup_insert_eq. split; [done|]. intros t [= <-]. split; [|by eexists].
      destruct (newest !! run) as [t0|] eqn:E0; cbn in Et; [|lia]. destruct (H4 t0 eq_refl). lia.
    + split; [done|]. intros t Ht. split; [by apply H4|by eexists].
  - unfold appendTo. rewrite lookup_insert_ne, app_nil_r by done.
    split_and!; [done|done| |].
    + destruct (time_after _ _); [by rewrite lookup_insert_ne|done].
    + destruct (time_after _ _); [by rewrite lookup_insert_ne|done].
Qed.

Definition within (cutoff : option Z) (t : Z) : Prop := match cutoff with Some c => (t <= c)%Z | None => True end.

Lemma bestRun_fold cutoff newest l best :
  (forall r t, (r, t) ∈ l -> newest !! r = Some t /\ r <> "") -> (best <> "" -> is_Some (newest !! best)) ->
  let b := fold_left (bestRun cutoff newest) l best in
  (b = best \/ exists t, (b, t) ∈ l /\ within cutoff t)
  /\ (forall r t, (r, t) ∈ l -> within cutoff t -> b <> "" /\ (t <= default zero_time (newest !! b))%Z)
  /\ (best <> "" -> b <> "" /\ (default zero_time (newest !! best) <= default zero_time (newest !! b))%Z).
Proof.
  cbv zeta. revert best. induction l as [|[r t] l IH]; intros best Hl Hb.
  { cbn. split_and!; [by left| |done]. intros r t H. by apply not_elem_of_nil in H. }
  cbn [fold_left]. set (best1 := bestRun cutoff newest best (r, t)).
  destruct (Hl r t ltac:(left)) as [Hn Hne].
  assert (best1 = best /\ (within cutoff t -> best <> "" /\ (t <= default zero_time (newest !! best))%Z)
          \/ best1 = r /\ within cutoff t /\ (best <> "" -> (default zero_time (newest !! best) <= t)%Z)) as Hc.
  { unfold best1, bestRun, within, time_after. destruct cutoff as [c|]; [destruct (c <? t)%Z eqn:Ec|].
    - left. split; [done|]. intros Hw. exfalso. lia.
    - destruct (String.eqb_spec best ""); cbn [orb]; [right; split_and!; [done|lia|done]|].
      destruct (default zero_time (newest !! best) <? t)%Z eqn:Et; [right|left]; split_and!; try done; try lia; intros; split; [done|lia].
    - destruct (String.eqb_spec best ""); cbn [orb]; [right; by split_and!|].
      destruct (default zero_time (newest !! best) <? t)%Z eqn:Et; [right|left]; split_and!; try done; try lia; intros; split; [done|lia]. }
  destruct (IH best1) as (I1 & I2 & I3); [intros r' t' H; apply Hl; by right|destruct Hc as [[-> _]|[-> _]]; [done|by rewrite Hn]|].
  assert (best1 = r -> default zero_time (newest !! best1) = t) as Hd by (intros ->; by rewrite Hn).
  destruct Hc as [[E Hc]|(E & Hw & Hc)]; rewrite E in *.
  - split_and!; [|intros r' t' [[= -> ->]|H]%elem_of_cons Hw'; [|by eapply I2]|done].
    + destruct I1 as [?|(t' & H & ?)]; [by left|right; exists t'; split; [by right|done]].
    + destruct (Hc Hw') as [Hb1 Hle]. destruct (I3 Hb1). split; [done|lia].
  - specialize (Hd eq_refl). destruct (I3 Hne) as [J1 J2]. rewrite Hd in J2. split_and!.
    + destruct I1 as [->|(t' & H & ?)]; [right; exists t; split; [left|done]|right; exists t'; split; [by right|done]].
    + intros r' t' [[= -> ->]|H]%elem_of_cons Hw'; [done|by eapply I2].
    + intros Hb1. split; [done|]. specialize (Hc Hb1). lia.
Qed.

Section SelectRun.
Context (TimeParse : string -> string -> option Z) (range : forall A, gmap string A -> list (string * A)).
(** Go visits every entry of a map, once each. *)
Context (range_all : forall A (m : gmap string A), range A m ≡ₚ map_to_list m).

(** The run a coordinate names: the run asked for; or, by time, a run whose newest
    snapshot is not after the instant asked for, no such run being newer; the
    snapshots are those of the listing tagged with it, at least one, whatever the
    order the runs are visited in. *)
Theorem selectRun_spec (snaps : list Snapshot) (namedRun timeSpec run : string) (rs : list Snapshot) :
  selectRun TimeParse range snaps namedRun timeSpec = Some (run, rs) ->
  run <> "" /\ rs <> [] /\ rs = List.filter (ofRun run) snaps
  /\ (if namedRun =? "" then
        exists cutoff,
          (if (timeSpec =? "") || (timeSpec =? sourceTimeLatest) then cutoff = None
           else exists t, parseRestoreTime TimeParse timeSpec = Some t /\ cutoff = Some t)
          /\ within cutoff (newestTime run snaps)
          /\ forall run', run' <> "" -> (zero_time < newestTime run' snaps)%Z -> within cutoff (newestTime run' snaps) ->
               (newestTime run' snaps <= newestTime run snaps)%Z
      else run = namedRun).
Proof.
  unfold selectRun. destruct (runsOf snaps) as [byRun newest] eqn:E. intros H.
  pose proof (fun run => runsOf_spec snaps run) as Hs. rewrite E in Hs. cbn [fst snd] in Hs.
  destruct (String.eqb_spec namedRun "") as [->|Hn]; cbn [negb] in H.
  2: { destruct (byRun !! namedRun) as [l|] eqn:El; [|done]. injection H as <- <-.
       destruct (Hs namedRun Hn) as ((H1 & H2) & _). rewrite El in H1, H2. cbn in H1. subst l. split_and!; try done.
       intros Hf. by apply H2 in Hf. }
  destruct (badSourceTime _ _) eqn:Eb; [done|].
  set (cutoff := if _ || _ then None else _) in H. set (best := fold_left _ _ "") in H.
  destruct (String.eqb_spec best "") as [|Hbest]; [done|]. injection H as <- <-.
  assert (forall r t, (r, t) ∈ range Z newest <-> newest !! r = Some t) as Hr.
  { intros r t. by rewrite range_all, elem_of_map_to_list. }
  assert (newest !! "" = None) as H0.
  { clear - E. revert byRun newest E. unfold runsOf. induction snaps as [|s snaps IH] using rev_ind; intros byRun newest E.
    - by injection E as _ <-.
    - rewrite fold_left_app in E. cbn [fold_left] in E. destruct (fold_left indexRun snaps (∅, ∅)) as [b n].
      specialize (IH b n eq_refl). unfold indexRun in E. destruct (TagValue _ _) as [r|]; [|by injection E as _ <-].
      destruct (String.eqb_spec r ""); [by injection E as _ <-|]. injection E as _ <-.
      destruct (time_after _ _); [by rewrite lookup_insert_ne|done]. }
  assert (forall r t, (r, t) ∈ range Z newest -> newest !! r = Some t /\ r <> "") as Hl.
  { intros r t H%Hr. split; [done|]. intros ->. congruence. }
  destruct (bestRun_fold cutoff newest (range Z newest) "" Hl ltac:(done)) as (B1 & B2 & _). fold best in B1, B2.
  destruct B1 as [|(t & Ht & Hw)]; [done|]. apply Hr in Ht.
  destruct (Hs best Hbest) as ((H1 & H2) & H3 & H4). rewrite Ht in H3. cbn in H3.
  destruct (H4 t Ht) as [_ [l Hlk]]. split_and!; [done| |by rewrite H1|].
  - rewrite H1. intros Hf. apply H2 in Hf. congruence.
  - exists cutoff. split_and!; [|by rewrite <-H3|].
    + unfold cutoff, badSourceTime in *. destruct (_ || _) eqn:Eo; [done|]. apply orb_false_iff in Eo as [E1 E2].
      rewrite E1, E2 in Eb. cbn in Eb. destruct (parseRestoreTime _ _) as [t'|]; [|done]. by exists t'.
    + intros run' Hne Hz Hw'. destruct (Hs run' Hne) as (_ & H3' & _).
      destruct (newest !! run') as [t'|] eqn:Et'; cbn in H3'; [|lia]. rewrite <-H3' in *.
      destruct (B2 run' t' ltac:(by apply Hr) Hw') as [_ Hle]. rewrite Ht in Hle. cbn in Hle. lia.
Qed.
End SelectRun.

(** ** Safety *)

Section Safety.
Context {CS : ConditionStore}.
Context (OperatorNamespace ManifestMoverServiceAccount ClusterManifestWriterClusterRole : string) (hasQueue : bool).
Context (Unmarshal : string -> result MoverResult) (Quote : string -> string) (TimeParse : string -> string -> option Z).
Context (EncodeSelection : Selection -> result string) (range : forall A, gmap string A -> list (string * A)).

Notation reconcile := (reconcileClusterRestore OperatorNamespace ManifestMoverServiceAccount ClusterManifestWriterClusterRole
  hasQueue Unmarshal Quote TimeParse EncodeSelection range).
Notation preparing := (cr_prepare OperatorNamespace ClusterManifestWriterClusterRole Quote TimeParse range).
Notation advancing := (advanceClusterRestore OperatorNamespace ManifestMoverServiceAccount ClusterManifestWriterClusterRole
  Unmarshal Quote EncodeSelection).

#[local] Notation did o x := (Ev (I := ctlI) (inr o) x).

(** Requests that create nothing in a namespace of a tenant and start no mover of a
    volume: what a pass makes before it drives. *)
Definition creates_nothing (o : action ctlI) : Prop :=
  match o with
  | inl (inl (ACreate _ _)) | inl (inl (APatch _ _ _)) | inl (inl (ADelete _ _ _)) => False
  | inl (inr (ECreateMover _)) => False
  | _ => True
  end.

Ltac ctl_only := asks_only ltac:(fail); cbn; auto.

Lemma clusterGate_creates r reason message after : only creates_nothing (gateAt r reason message after).
Proof. unfold gateAt, cr_writeStatus, ask. ctl_only. Qed.

#[local] Arguments gateAt : simpl never.

Lemma cr_awaitConfirmation_creates r : only creates_nothing (cr_awaitConfirmation Quote r).
Proof. unfold cr_awaitConfirmation, cr_writeStatus, ask. ctl_only. Qed.

Lemma dek_creates loc : only creates_nothing (resolvePlatformDEKCommon OperatorNamespace loc).
Proof. unfold resolvePlatformDEKCommon, eng, own, ask. ctl_only. Qed.

Lemma ensureTargetNamespace_creates r : only creates_nothing (ensureTargetNamespace Quote r).
Proof.
  unfold ensureTargetNamespace, clusterGate, cr_stop, cr_stopErr, ask.
  asks_only ltac:(idtac; match goal with |- only _ (gateAt _ _ _ _) => apply clusterGate_creates end); cbn; auto.
Qed.

Lemma cr_prepare_creates r : only creates_nothing (preparing r).
Proof.
  unfold cr_prepare, cr_resolveRepository, cr_resolveSnapshots, listClusterManifests, cr_buildPlans, cr_planVolume, cr_sizePlan,
    clusterGate, cr_stop, cr_stopErr, kubeP, eng, k8s, get, ask.
  asks_only ltac:(idtac; first [match goal with |- only _ (gateAt _ _ _ _) => apply clusterGate_creates end|apply dek_creates]); cbn; auto.
Qed.

Lemma advance_starts_no_volume r rc plan :
  only (fun o : action ctlI => match o with inl (inr (ECreateMover _)) => False | _ => True end) (advancing r rc plan).
Proof.
  unfold advanceClusterRestore, startClusterRestoreJob, ensureRestoreCreds, kubeP, eng, k8s, own, get, ask. ctl_only.
Qed.

Lemma hold_starts_no_volume r rc td err :
  only (fun o : action ctlI => match o with inl (inr (ECreateMover _)) => False | _ => True end)
    (holdForClusterResources OperatorNamespace r rc td err).
Proof.
  unfold holdForClusterResources, teardownClusterRestore, deleteJobAndSecret, eng, k8s, delete, ask. ctl_only.
Qed.

Lemma advance_done r rc plan tr td err s :
  runs (advancing r rc plan) tr (true, td, err, s) -> plan = None \/ is_Some (rt_Resources s).
Proof.
  unfold advanceClusterRestore. intros H. destruct plan as [plan|]; [|by left]. right.
  destruct (rt_Resources (cr_Status r)) eqn:Er; [turn H; by rewrite Er|].
  turn H. destruct x as [job|e]; [|turn H; turn H; by turn H].
  turn H; [by turn H|]. turn H. turn H. unfold recordClusterResources. destruct (fst _) as [m|]; [|done]. by destruct (negb _).
Qed.

(** An unconfirmed ClusterRestore asks for nothing but the finalizer and the status
    that says it waits: not even its target namespace is looked up or created. *)
Theorem unconfirmed_cluster_restore (r : ClusterRestore) tr (a : passed) :
  runs (reconcile r) tr a -> cr_Deleting r = false ->
  cp_Confirmation (cr_Spec r) <> ct_Namespace (cp_Target (cr_Spec r)) ->
  tr = [] \/ (exists fs err, tr = [did (RUpdate fs) err])
  \/ (exists s err, tr = [did (RStatusUpdate s) err] /\ rt_Phase s = RestorePhaseAwaitingConfirmation).
Proof.
  unfold reconcileClusterRestore. intros H Hd Hc. rewrite Hd in H.
  destruct (negb (existsb _ _)); [right; left; turn H; turn H; by eexists _, x|].
  destruct (IsTerminalRestorePhase _); [left; by turn H|].
  apply String.eqb_neq in Hc. rewrite Hc in H. cbn [negb] in H. right. right.
  unfold cr_awaitConfirmation, cr_writeStatus in H. turn H. turn H. eexists _, x. split; reflexivity.
Qed.

(** C8. CustomResourceDefinitions, classes and cluster roles come before the volumes: a
    pass starts a volume's mover only for a confirmed restore whose cluster-scoped
    half is absent, or is settled with its report in the status this pass writes
    next. *)
Theorem cluster_resources_first (r : ClusterRestore) tr (a : passed) j w :
  runs (reconcile r) tr a -> cr_Deleting r = false ->
  Ev (I := ctlI) (inl (inr (ECreateMover j))) w ∈ tr ->
  cp_Confirmation (cr_Spec r) = ct_Namespace (cp_Target (cr_Spec r))
  /\ IsTerminalRestorePhase (rt_Phase (cr_Status r)) = false
  /\ exists r1 rc plans plan t1 preparation half rest td s,
       tr = (t1 ++ preparation ++ half ++ rest)%list
       /\ runs (preparing r1) preparation (inr (rc, plans, plan))
       /\ runs (advancing r1 rc plan) half (true, td, None, s)
       /\ (plan = None \/ is_Some (rt_Resources s))
       /\ runs (cr_driveVolumes OperatorNamespace hasQueue Unmarshal Quote (set_cr_status s r1) rc plans td) rest a.
Proof.
  unfold reconcileClusterRestore. intros H Hd Hin. rewrite Hd in H.
  assert (forall tr A (p : ctlP A) a, only creates_nothing p -> runs p tr a -> Ev (I := ctlI) (inl (inr (ECreateMover j))) w ∉ tr) as Hno.
  { intros t A p b Hp Hr Hi. pose proof (only_runs _ _ _ _ Hp Hr) as Hf. rewrite Forall_forall in Hf. exact (Hf _ Hi). }
  destruct (negb (existsb _ _)). { turn H. turn H. exfalso. clear Hno. set_solver. }
  destruct (IsTerminalRestorePhase _) eqn:Et; [turn H; by apply not_elem_of_nil in Hin|].
  destruct (negb (_ =? _)) eqn:Ec; [exfalso; eapply Hno; [apply cr_awaitConfirmation_creates|exact H|exact Hin]|].
  apply negb_false_iff, String.eqb_eq in Ec. split; [done|]. split; [done|]. cbv zeta in H.
  set (r1 := if IsConditionTrue _ _ then _ else _) in H. clearbody r1.
  destruct (badSourceTime _ _); [exfalso; eapply Hno; [apply clusterGate_creates|exact H|exact Hin]|].
  turn H. apply elem_of_app in Hin as [Hin|Hin]; [exfalso; eapply Hno; [apply ensureTargetNamespace_creates|exact R|exact Hin]|].
  destruct x as [b|[]]; [turn H; by apply not_elem_of_nil in Hin|]. unfold driveClusterRestore in H.
  turn H. apply elem_of_app in Hin as [Hin|Hin]; [exfalso; eapply Hno; [apply cr_prepare_creates|exact R0|exact Hin]|].
  destruct x as [b|[[rc plans] plan]]; [turn H; by apply not_elem_of_nil in Hin|].
  turn H. destruct x as [[[done td] err] s]. apply elem_of_app in Hin as [Hin|Hin].
  { exfalso. pose proof (only_runs _ _ _ _ (advance_starts_no_volume r1 rc plan) R1) as Hf. rewrite Forall_forall in Hf. exact (Hf _ Hin). }
  destruct (negb (match err with Some _ => false | None => done end)) eqn:En.
  { exfalso. pose proof (only_runs _ _ _ _ (hold_starts_no_volume _ _ _ _) H) as Hf. rewrite Forall_forall in Hf. exact (Hf _ Hin). }
  apply negb_false_iff in En. destruct err; [done|]. subst done.
  exists r1, rc, plans, plan, t, t0, t1, tr0, td, s. split_and!; try done. by eapply advance_done.
Qed.
End Safety.

(** ** Witnesses *)

Definition wit_range : forall A, gmap string A -> list (string * A) := fun A m => map_to_list m.

Definition wit_run (run : string) (time : Z) : Snapshot :=
  mkSnapshot ("snap-" ++ run) time "c1" [] ["kind=data"; "pvc=data"; "namespace=team"; "run=" ++ run] None.
Definition wit_listing : list Snapshot := [wit_run "monday" 10; wit_run "tuesday" 20; wit_run "wednesday" 30].

(** The newest run of three, and the one a named coordinate chooses. *)
Lemma selectRun_spec_witness :
  selectRun wit_no_time wit_range wit_listing "" "" = Some ("wednesday", [wit_run "wednesday" 30])
  /\ (newestTime "tuesday" wit_listing <= newestTime "wednesday" wit_listing)%Z.
Proof.
  assert (selectRun wit_no_time wit_range wit_listing "" "" = Some ("wednesday", [wit_run "wednesday" 30])) as E by (vm_compute; reflexivity).
  split; [exact E|].
  destruct (selectRun_spec wit_no_time wit_range (fun A m => reflexivity _) _ _ _ _ _ E) as (_ & _ & _ & cutoff & Hc & _ & Hm).
  cbn in Hc. subst cutoff. apply Hm; [discriminate|vm_compute; reflexivity|exact I].
Defined.

Definition wit_cluster_restore (confirmation : string) (resources : option (list string * list string))
    : @ClusterRestore MapConditionStore :=
  mkClusterRestore MapConditionStore "dr" "uid" 1 false [FinalizerClusterRestore]
    (mkClusterRestoreSpec (mkClusterRestoreSource "dr" "team" "" "") (mkClusterRestoreTarget "team" true ∅) "Overwrite"
      None resources confirmation false)
    (wit_status RestorePhaseRunning None).

Notation wit_cluster_reconcile r :=
  (reconcileClusterRestore "crystal" "mover" "writer" true wit_unmarshal wit_quote wit_no_time wit_encode wit_range r).

Lemma unconfirmed_cluster_restore_witness :
  exists s err, fst (exec (wit_ctl_server [] []) (wit_cluster_reconcile (wit_cluster_restore "tema" None)) [])
      = [Ev (I := @ctlI MapConditionStore) (inr (RStatusUpdate s)) err]
    /\ rt_Phase s = RestorePhaseAwaitingConfirmation.
Proof.
  assert (List.length (fst (exec (wit_ctl_server [] []) (wit_cluster_reconcile (wit_cluster_restore "tema" None)) [])) = 1
    /\ match fst (exec (wit_ctl_server [] []) (wit_cluster_reconcile (wit_cluster_restore "tema" None)) []) with
       | Ev (inr (RUpdate _)) _ :: _ => false | _ => true end = true) as [Hl Hu] by (split; vm_compute; reflexivity).
  destruct (unconfirmed_cluster_restore "crystal" "mover" "writer" true wit_unmarshal wit_quote wit_no_time wit_encode wit_range
    (wit_cluster_restore "tema" None) _ _
    (exec_runs (wit_ctl_server [] []) (wit_cluster_reconcile (wit_cluster_restore "tema" None)) []) eq_refl)
    as [H|[(fs & err & H)|(s & err & H & Hp)]]; [discriminate| | |].
  - rewrite H in Hl. discriminate Hl.
  - rewrite H in Hu. discriminate Hu.
  - by exists s, err.
Defined.

(** The pass that starts the volume's mover. *)
Definition wit_cluster_pass : list (event (@ctlI MapConditionStore)) * passed :=
  exec (wit_ctl_server [] [wit_staging (restoreNamePrefix (clusterRestoreOwnerID "dr") "data" ++ "-target")])
    (wit_cluster_reconcile (wit_cluster_restore "team" None)) [].

Lemma wit_cluster_pass_runs : runs (wit_cluster_reconcile (wit_cluster_restore "team" None)) (fst wit_cluster_pass) (snd wit_cluster_pass).
Proof. apply exec_runs. Qed.

Definition wit_started (tr : list (event (@ctlI MapConditionStore))) : list RestoreJob := movers (omap leftOf tr).

Lemma started_asked tr j : j ∈ wit_started tr -> exists err, Ev (I := @ctlI MapConditionStore) (inl (inr (ECreateMover j))) err ∈ tr.
Proof.
  unfold wit_started. intros (err & (e & He & Hs)%list_elem_of_omap)%movers_asked. exists err. by rewrite (leftOf_inl _ _ Hs) in He.
Qed.

Lemma cluster_resources_first_witness :
  List.length (wit_started (fst wit_cluster_pass)) = 1
  /\ exists preparation half rest, suffix (preparation ++ half ++ rest)%list (fst wit_cluster_pass)
       /\ List.length (wit_started rest) <= 1.
Proof.
  assert (List.length (wit_started (fst wit_cluster_pass)) = 1) as Hl by (vm_compute; reflexivity). split; [exact Hl|].
  destruct (wit_started (fst wit_cluster_pass)) as [|j l] eqn:E; [discriminate Hl|].
  destruct (started_asked (fst wit_cluster_pass) j) as [err He]; [rewrite E; left|].
  destruct (cluster_resources_first "crystal" "mover" "writer" true wit_unmarshal wit_quote wit_no_time wit_encode wit_range
    (wit_cluster_restore "team" None) _ _ _ _ wit_cluster_pass_runs eq_refl He)
    as (_ & _ & r1 & rc & plans & plan & t1 & preparation & half & rest & td & s & Ht & _).
  exists preparation, half, rest. split; [by exists t1|].
  assert (wit_started (fst wit_cluster_pass) = wit_started (t1 ++ preparation ++ half) ++ wit_started rest)%list as Ha.
  { rewrite Ht. unfold wit_started, movers. by rewrite !app_assoc, !omap_app. }
  rewrite E in Ha. apply (f_equal (@List.length RestoreJob)) in Ha. rewrite length_app in Ha. cbn in Ha, Hl. lia.
Defined.

(** ** What the model shows *)

(** The opt-in to cluster-scoped resources is one of the lists the API leaves mutable,
    but a coordinate resolved without it is cached without their captures: an opt-in
    added before confirmation ends is never listed for, nothing is applied, and the
    restore completes. *)
Lemma late_cluster_resources_skipped :
  let server : server (@ctlI MapConditionStore) := fun past o =>
    match o return answer (@ctlI MapConditionStore) o with
    | inr (RCachedCluster _ _) => Some (({[ "data" := wit_run "nightly" 3 ]} : gmap string Snapshot), [])
    | o => wit_ctl_server [wit_done_job (mkExecContext "dr" LabelClusterRestore (clusterRestoreOwnerID "dr") "team" false "nightly"
                             "dr" "s3:url" "dek" "creds" None "c1") "data"] [] past o
    end in
  let run := exec server (wit_cluster_reconcile (wit_cluster_restore "team" (Some ([], [])))) [] in
  map (fun s => (rt_Phase s, option_map rr_FailedCount (rt_Resources s))) (statuses (fst run)) = [(RestorePhaseCompleted, None)].
Proof. cbv zeta. vm_compute. reflexivity. Qed.
