(* ===== verification/Maintenance.v ===== *)
(** * Maintenance: scheduled prune and check, and the reaping of stale locks
    (internal/controller/maintenance_controller.go, maintenance_tracker.go)

    The reconcile decides which operation is due, submits it to the repository's
    queue, and goes on; a goroutine waits for the queue and parks the outcome in the
    tracker, where a later pass takes it.  A pass is a program whose requests go to
    the API server, the queue and the tracker; [step] interleaves the passes of all
    repositories with the goroutines that finish. *)

From S2P Require Import Prelude GoText Cluster Names Status Restic RepoQueue Schedule ScheduleController MaintenanceJob Program.
From Stdlib Require Import Ascii String.

#[local] Open Scope string_scope.

(** ** Constants *)

Definition ConditionRepositoryCheckFailed : string := "RepositoryCheckFailed".
Definition maintenanceHistoryLimit : nat := 10.
Definition maintenanceJitterWindow : Z := (10 * minute)%Z.
Definition maintenanceMinRequeue : Z := minute.
Definition maintenanceMaxRequeue : Z := (10 * minute)%Z.
Definition maintenanceWatchdogInterval : Z := (30 * second)%Z.
Definition maintenanceMessageLimit : nat := 512.
Definition repositoryProbeInterval : Z := (15 * minute)%Z.
Definition unlockRetryCooldown : Z := hour.
Definition unlockMaxConsecutiveFailures : nat := 3.
Definition MaintenanceSucceeded : string := "Succeeded".
Definition MaintenanceFailed : string := "Failed".
Definition checkResultPassed : string := "Passed".
Definition checkResultFailed : string := "Failed".
Definition wakeBuffer : nat := 32.

(** ** The tracker *)

Record maintenanceOutcome := mkOutcome {
  out_op : string;
  out_startedAt : Z;
  out_endedAt : Z;
  out_err : option gerr
}.

Record Stats := mkStats { SizeBytes : Z; StaleLockCount : Z }.
Notation probeOutcome := (result Stats).

Record maintenanceTracker := mkTracker {
  inFlight : gmap string string;
  results : gmap string maintenanceOutcome;
  probeInFlight : gset string;
  probeResults : gmap string probeOutcome;
  probedAt : gmap string Z;
  wakeups : list string                 (* the repositories in the wake channel *)
}.

Definition newMaintenanceTracker : maintenanceTracker := mkTracker ∅ ∅ ∅ ∅ ∅ [].

Definition take (t : maintenanceTracker) (name : string) : (option maintenanceOutcome * bool) * maintenanceTracker :=
  ((results t !! name, bool_decide (is_Some (inFlight t !! name))),
   mkTracker (inFlight t) (base.delete name (results t)) (probeInFlight t) (probeResults t) (probedAt t) (wakeups t)).

Definition takeProbe (t : maintenanceTracker) (name : string) : (option probeOutcome * bool) * maintenanceTracker :=
  ((probeResults t !! name, bool_decide (name ∈ probeInFlight t)),
   mkTracker (inFlight t) (results t) (probeInFlight t) (base.delete name (probeResults t)) (probedAt t) (wakeups t)).

Definition probeDue (t : maintenanceTracker) (name : string) (now every : Z) : bool :=
  if bool_decide (name ∈ probeInFlight t) then false
  else match probedAt t !! name with None => true | Some last => (every <=? time_sub now last)%Z end.

Definition startProbe (t : maintenanceTracker) (name : string) (now : Z) : maintenanceTracker :=
  if bool_decide (name ∈ probeInFlight t) then t
  else mkTracker (inFlight t) (results t) ({[name]} ∪ probeInFlight t) (probeResults t) (<[name := now]> (probedAt t))
         (wakeups t).

(** [select { case t.wake <- ...: default: }]. *)
Definition wake (name : string) (l : list string) : list string :=
  if (List.length l <? wakeBuffer)%nat then (l ++ [name])%list else l.

Definition finishProbe (t : maintenanceTracker) (name : string) (res : probeOutcome) : maintenanceTracker :=
  mkTracker (inFlight t) (results t) (probeInFlight t ∖ {[name]}) (<[name := res]> (probeResults t)) (probedAt t)
    (wake name (wakeups t)).

(** The two critical sections of [start], on either side of the submission. *)
Definition markInFlight (t : maintenanceTracker) (name op : string) : bool * maintenanceTracker :=
  match inFlight t !! name with
  | Some _ => (false, t)
  | None => (true, mkTracker (<[name := op]> (inFlight t)) (results t) (probeInFlight t) (probeResults t) (probedAt t)
                     (wakeups t))
  end.

Definition unmarkInFlight (t : maintenanceTracker) (name : string) : maintenanceTracker :=
  mkTracker (base.delete name (inFlight t)) (results t) (probeInFlight t) (probeResults t) (probedAt t) (wakeups t).

Definition finish (t : maintenanceTracker) (name : string) (res : maintenanceOutcome) : maintenanceTracker :=
  mkTracker (base.delete name (inFlight t)) (<[name := res]> (results t)) (probeInFlight t) (probeResults t) (probedAt t)
    (wake name (wakeups t)).

(** ** Objects *)

Record MaintenanceSpec := mkMaintenanceSpec {
  ms_PruneSchedule : string;
  ms_CheckSchedule : string;
  ms_Timezone : string;
  ms_PruneMaxRepackSize : string;
  ms_CheckReadDataSubset : string
}.

(** What maintenance reads of a ClusterBackupLocation. *)
Record MaintainedLocation := mkMaintainedLocation {
  ml_Name : string;
  ml_Immutable : bool;
  ml_ClusterID : string;
  ml_Prefix : string;
  ml_CredsSecret : string;
  ml_KEKSecret : string;
  ml_S3Connections : option Z;
  ml_Maintenance : option MaintenanceSpec
}.

Record MaintenanceRecord := mkMaintenanceRecord {
  mr_Operation : string;
  mr_StartTime : Z;
  mr_CompletionTime : option Z;
  mr_Result : string;
  mr_Message : string
}.

Section Controller.
Context `{CS : ConditionStore}.

Record RepositoryStatus := mkRepositoryStatus {
  rs_Initialized : bool;
  rs_RepositoryURL : string;
  rs_StaleLocks : Z;
  rs_ApproximateSizeBytes : Z;
  rs_RecentMaintenance : list MaintenanceRecord;   (* newest first *)
  rs_LastMaintenanceTime : option Z;
  rs_LastCheckTime : option Z;
  rs_LastCheckResult : string;
  rs_Conditions : conditions
}.

Record Repository := mkRepository {
  rp_Name : string;
  rp_UID : string;
  rp_Created : Z;
  rp_Generation : Z;
  rp_Deleting : bool;
  rp_Status : RepositoryStatus
}.

Definition set_rp_status (s : RepositoryStatus) (r : Repository) : Repository :=
  mkRepository (rp_Name r) (rp_UID r) (rp_Created r) (rp_Generation r) (rp_Deleting r) s.

(** ** Decisions *)

Record maintenanceDue := mkDue { due_op : string; due_kind : OpKind; due_tick : Z }.

Definition lastAttempt (repo : Repository) (op : string) : Z :=
  match find (fun rec => mr_Operation rec =? op) (rs_RecentMaintenance (rp_Status repo)) with
  | Some rec => mr_StartTime rec
  | None => rp_Created repo
  end.

(** schedule.Parse, over the cron library. *)
Variable Parse : string -> string -> result Schedule.

(** The closure [consider] of [nextDue]; the second value is [earliest] after it. *)
Definition consider (now : Z) (repo : Repository) (m : MaintenanceSpec) (earliest : Z) (expr op : string) (kind : OpKind)
    (skip : bool) : option maintenanceDue * Z :=
  if (expr =? "") || skip then (None, earliest)
  else match Parse expr (ms_Timezone m) with
       | Err _ => (None, earliest)
       | Ok cron =>
           let offset := JitterOffset (rp_UID repo ++ op) maintenanceJitterWindow in
           let effectiveNow := (now - offset)%Z in
           match DueTick cron (lastAttempt repo op) effectiveNow None with
           | Some tick => (Some (mkDue op kind tick), earliest)
           | None =>
               let next := (Next cron effectiveNow + offset)%Z in
               (None, if time_is_zero earliest || time_before next earliest then next else earliest)
           end
       end.

Definition nextDue (now : Z) (repo : Repository) (loc : MaintainedLocation) (m : MaintenanceSpec)
    : option maintenanceDue * Z :=
  match consider now repo m zero_time (ms_PruneSchedule m) mover_OpPrune OpPrune (ml_Immutable loc) with
  | (Some due, earliest) => (Some due, earliest)
  | (None, earliest) => consider now repo m earliest (ms_CheckSchedule m) mover_OpCheck OpCheck false
  end.

(** The loop of [reapDue]: the failures in a row and the newest attempt. *)
Fixpoint unlockHistory (l : list MaintenanceRecord) (consecutive : nat) (lastTry : Z) : nat * Z :=
  match l with
  | [] => (consecutive, lastTry)
  | rec :: l =>
      if negb (mr_Operation rec =? mover_OpUnlock) then unlockHistory l consecutive lastTry
      else
        let lastTry := if time_is_zero lastTry then mr_StartTime rec else lastTry in
        if negb (mr_Result rec =? MaintenanceFailed) then (consecutive, lastTry)
        else unlockHistory l (S consecutive) lastTry
  end.

Definition reapDue (now : Z) (repo : Repository) : bool :=
  let '(consecutive, lastTry) := unlockHistory (rs_RecentMaintenance (rp_Status repo)) 0 zero_time in
  if (unlockMaxConsecutiveFailures <=? consecutive)%nat then false
  else if time_is_zero lastTry then true
  else (unlockRetryCooldown <=? time_sub now lastTry)%Z.

Definition clampRequeue (now next : Z) : Z :=
  if time_is_zero next then maintenanceMaxRequeue
  else clampDuration (time_sub next now) maintenanceMinRequeue maintenanceMaxRequeue.

(** ** Outcomes *)

Fixpoint failedChecks (l : list MaintenanceRecord) (consecutive : nat) : nat :=
  match l with
  | [] => consecutive
  | rec :: l =>
      if negb (mr_Operation rec =? mover_OpCheck) then failedChecks l consecutive
      else if negb (mr_Result rec =? MaintenanceFailed) then consecutive
      else failedChecks l (S consecutive)
  end.

Definition setCheckCondition (gen : Z) (history : list MaintenanceRecord) (opErr : option gerr) (cs : conditions)
    : conditions :=
  match opErr with
  | None => SetCondition cs ConditionRepositoryCheckFailed ConditionFalse "CheckPassed"
              "restic check found no repository damage" gen
  | Some e =>
      let consecutive := failedChecks history 0 in
      let msg := "restic check failed: " ++ truncate (err_text e) (maintenanceMessageLimit / 2) in
      let msg := if (1 <? consecutive)%nat
                 then msg ++ " (" ++ Itoa (Z.of_nat consecutive) ++ " consecutive failures)" else msg in
      SetCondition cs ConditionRepositoryCheckFailed ConditionTrue "CheckFailed" msg gen
  end.

Definition outcomeRecord (out : maintenanceOutcome) (completion : Z) : MaintenanceRecord :=
  mkMaintenanceRecord (out_op out) (out_startedAt out) (Some completion)
    (match out_err out with None => MaintenanceSucceeded | Some _ => MaintenanceFailed end)
    (match out_err out with None => "" | Some e => truncate (err_text e) maintenanceMessageLimit end).

Definition applyOutcomeToStatus (out : maintenanceOutcome) (completion : Z) (repo : Repository) : Repository :=
  let s := rp_Status repo in
  let history := firstn maintenanceHistoryLimit (outcomeRecord out completion :: rs_RecentMaintenance s) in
  let ok := match out_err out with None => true | Some _ => false end in
  let prune := out_op out =? mover_OpPrune in
  let check := out_op out =? mover_OpCheck in
  let unlock := out_op out =? mover_OpUnlock in
  set_rp_status
    (mkRepositoryStatus (rs_Initialized s) (rs_RepositoryURL s)
       (if unlock && ok then 0 else rs_StaleLocks s) (rs_ApproximateSizeBytes s) history
       (if prune && ok then Some completion else rs_LastMaintenanceTime s)
       (if check then Some completion else rs_LastCheckTime s)
       (if check then (if ok then checkResultPassed else checkResultFailed) else rs_LastCheckResult s)
       (if check then setCheckCondition (rp_Generation repo) history (out_err out) (rs_Conditions s) else rs_Conditions s))
    repo.

Definition outcomeReason (out : maintenanceOutcome) : string :=
  match out_err out with
  | Some _ => if out_op out =? mover_OpCheck then "CheckFailed" else "PruneFailed"
  | None => if out_op out =? mover_OpCheck then "CheckPassed" else "PruneCompleted"
  end.

(** ** Requests *)

Inductive ctl_action :=
| CGet (name : string)                                  (* Get of the BackupRepository *)
| CUpdate (repo : Repository)                           (* Status().Update *)
| CGetLocation (name : string)
| CReadSecret (ns name dataKey : string)
| CNewProber (loc : MaintainedLocation) (accessKey secretKey : string)
| CAgeIdentity (identity : string)                      (* keys.NewAgeWrapper *)
| CEnsureDEK (location : string)
| CNow
| CTake (name : string)                                 (* the tracker, by critical section *)
| CTakeProbe (name : string)
| CProbeDue (name : string) (now every : Z)
| CStartProbe (name : string) (now : Z) (prefix : string)
| CMark (name op : string)
| CUnmark (name : string)
| CWatch (name op : string) (startedAt : Z)             (* the goroutine that waits for the handle *)
| CSubmit (name : string) (kind : OpKind) (req : op_request)   (* Queue.Enqueue *)
| CEvent (etype reason : string).

Definition ctl_answer (o : ctl_action) : Type :=
  match o with
  | CGet _ => result Repository
  | CGetLocation _ => result MaintainedLocation
  | CReadSecret _ _ _ | CEnsureDEK _ => result string
  | CUpdate _ | CNewProber _ _ _ | CAgeIdentity _ | CSubmit _ _ _ => option gerr
  | CNow => Z
  | CTake _ => option maintenanceOutcome * bool
  | CTakeProbe _ => option probeOutcome * bool
  | CProbeDue _ _ _ | CMark _ _ => bool
  | CStartProbe _ _ _ | CUnmark _ | CWatch _ _ _ | CEvent _ _ => unit
  end.

Definition ctlI : interface := mkInterface ctl_action ctl_answer.
Notation ctl := (prog ctlI).
Definition req (o : ctl_action) : ctl (ctl_answer o) := call (I := ctlI) o.

(** The reconciler's own fields. *)
Variable OperatorNamespace : string.
Variable hasProber : bool.                              (* NewProber != nil *)
Variable Quote : string -> string.                      (* fmt's %q *)

Definition emitOutcomeEvent (out : maintenanceOutcome) : ctl () :=
  req (CEvent (match out_err out with Some _ => "Warning" | None => "Normal" end) (outcomeReason out)).

Definition recordOutcome (repo : Repository) (out : maintenanceOutcome) : ctl (result Repository) :=
  let repo := applyOutcomeToStatus out (out_endedAt out) repo in
  let! err := req (CUpdate repo) in
  match err with
  | Some e => Done (Err (wrap_err ("record " ++ out_op out ++ " outcome on repository " ++ rp_Name repo) e))
  | None => let! _ := emitOutcomeEvent out in Done (Ok repo)
  end.

Definition resolveLocation (repo : Repository) : ctl (result (option MaintainedLocation)) :=
  let! r := req (CGetLocation (rp_Name repo)) in
  Done (match r with
        | Ok loc => Ok (Some loc)
        | Err e => if IsNotFound e then Ok None
                   else Err (wrap_err ("get ClusterBackupLocation " ++ rp_Name repo) e)
        end).

(** The prefix to measure, when the prober could be built. *)
Definition buildProber (loc : MaintainedLocation) : ctl (result string) :=
  let! ak := req (CReadSecret OperatorNamespace (ml_CredsSecret loc) "AWS_ACCESS_KEY_ID") in
  match ak with
  | Err e => Done (Err (wrap_err ("read S3 access key from secret " ++ OperatorNamespace ++ "/" ++ ml_CredsSecret loc) e))
  | Ok ak =>
      let! sk := req (CReadSecret OperatorNamespace (ml_CredsSecret loc) "AWS_SECRET_ACCESS_KEY") in
      match sk with
      | Err e => Done (Err (wrap_err ("read S3 secret key from secret " ++ OperatorNamespace ++ "/" ++ ml_CredsSecret loc) e))
      | Ok sk =>
          let! err := req (CNewProber loc ak sk) in
          Done (match err with Some e => Err e | None => Ok (RepoObjectPrefix (ml_Prefix loc) (ml_ClusterID loc)) end)
      end
  end.

Definition measured (stats : Stats) (repo : Repository) : Repository :=
  let s := rp_Status repo in
  set_rp_status
    (mkRepositoryStatus (rs_Initialized s) (rs_RepositoryURL s) (int32 (StaleLockCount stats)) (SizeBytes stats)
       (rs_RecentMaintenance s) (rs_LastMaintenanceTime s) (rs_LastCheckTime s) (rs_LastCheckResult s) (rs_Conditions s))
    repo.

Definition applyProbe (repo : Repository) (out : option probeOutcome) : ctl (result Repository) :=
  match out with
  | Some (Ok stats) =>
      if negb (rs_ApproximateSizeBytes (rp_Status repo) =? SizeBytes stats)%Z
         || negb (rs_StaleLocks (rp_Status repo) =? int32 (StaleLockCount stats))%Z
      then
        let repo := measured stats repo in
        let! err := req (CUpdate repo) in
        Done (match err with
              | Some e => Err (wrap_err ("record repository footprint on " ++ rp_Name repo) e)
              | None => Ok repo
              end)
      else Done (Ok repo)
  | _ => Done (Ok repo)
  end.

Definition measureAgain (repo : Repository) (loc : MaintainedLocation) : ctl () :=
  let! now := req CNow in
  let! due := req (CProbeDue (rp_Name repo) now repositoryProbeInterval) in
  if negb due then Done tt
  else
    let! prober := buildProber loc in
    match prober with
    | Err _ => Done tt
    | Ok prefix => req (CStartProbe (rp_Name repo) now prefix)
    end.

Definition reconcileProbe (repo : Repository) (loc : MaintainedLocation) : ctl (result Repository) :=
  if negb hasProber then Done (Ok repo)
  else
    let! taken := req (CTakeProbe (rp_Name repo)) in
    let! applied := applyProbe repo (fst taken) in
    match applied with
    | Err e => Done (Err e)
    | Ok repo => let! _ := measureAgain repo loc in Done (Ok repo)
    end.

Definition resolvePlatformDEK (loc : MaintainedLocation) : ctl (result string) :=
  let kek := OperatorNamespace ++ "/" ++ ml_KEKSecret loc in
  let! identity := req (CReadSecret OperatorNamespace (ml_KEKSecret loc) "identity") in
  match identity with
  | Err e => Done (Err (wrap_err ("read cluster KEK secret " ++ kek) e))
  | Ok identity =>
      let! bad := req (CAgeIdentity identity) in
      match bad with
      | Some e => Done (Err (wrap_err ("parse cluster KEK secret " ++ kek) e))
      | None =>
          let! dek := req (CEnsureDEK (ml_Name loc)) in
          Done (match dek with
                | Ok dek => Ok dek
                | Err e => Err (wrap_err ("ensure platform DEK for location " ++ ml_Name loc) e)
                end)
      end
  end.

(** The arguments of an operation.  Prune and check read the location's
    maintenance block, which they are only due with. *)
Definition operationArgs (loc : MaintainedLocation) (op : string) : result (list string) :=
  let noBlock := Err (errorf "nil pointer dereference") in
  if op =? mover_OpPrune then
    match ml_Maintenance loc with Some m => PruneCommand Quote (ms_PruneMaxRepackSize m) | None => noBlock end
  else if op =? mover_OpCheck then
    match ml_Maintenance loc with Some m => CheckCommand Quote (ms_CheckReadDataSubset m) | None => noBlock end
  else if op =? mover_OpUnlock then Ok UnlockArgs
  else Err (errorf ("unsupported maintenance operation " ++ Quote op)).

(** [maintenanceTracker.start] around the submission: what it returns. *)
Definition start (name op : string) (startedAt : Z) (kind : OpKind) (r : op_request) : ctl (result bool) :=
  let! marked := req (CMark name op) in
  if negb marked then Done (Ok false)
  else
    let! err := req (CSubmit name kind r) in
    match err with
    | Some e => let! _ := req (CUnmark name) in Done (Err e)
    | None => let! _ := req (CWatch name op startedAt) in Done (Ok true)
    end.

Definition submit (repo : Repository) (loc : MaintainedLocation) (due : maintenanceDue) : ctl (option gerr) :=
  match operationArgs loc (due_op due) with
  | Err e => Done (Some e)
  | Ok argv =>
      let! dek := resolvePlatformDEK loc in
      match dek with
      | Err e => Done (Some e)
      | Ok dek =>
          let! now := req CNow in
          let! started := start (rp_Name repo) (due_op due) now (due_kind due)
            (mkOpRequest (maintenanceResourceName (rp_Name repo) (due_op due)) (due_op due) argv
               (rs_RepositoryURL (rp_Status repo)) dek (ml_CredsSecret loc) "" (ml_S3Connections loc)) in
          match started with
          | Err e => Done (Some e)
          | Ok false => Done None
          | Ok true => let! _ := req (CEvent "Normal" "MaintenanceStarted") in Done None
          end
      end
  end.

(** The clock is read before each decision that compares with it. *)
Definition decide_and_submit (repo : Repository) (loc : MaintainedLocation) : ctl (result Z) :=
  let! now := req CNow in
  if (0 <? rs_StaleLocks (rp_Status repo))%Z && reapDue now repo then
    let! tick := req CNow in
    let! err := submit repo loc (mkDue mover_OpUnlock OpUnlock tick) in
    Done (Ok (match err with Some _ => maintenanceMinRequeue | None => maintenanceWatchdogInterval end))
  else
    match ml_Maintenance loc with
    | None => Done (Ok maintenanceMaxRequeue)
    | Some m =>
        let! now := req CNow in
        match nextDue now repo loc m with
        | (None, nextAt) => let! now := req CNow in Done (Ok (clampRequeue now nextAt))
        | (Some due, _) =>
            let! err := submit repo loc due in
            match err with
            | Some _ => let! _ := req (CEvent "Warning" "MaintenanceNotStarted") in Done (Ok maintenanceMinRequeue)
            | None => Done (Ok maintenanceWatchdogInterval)
            end
        end
    end.

(** The rest of a pass that holds no operation back: the location, the probe, the decision. *)
Definition maintain (repo : Repository) : ctl (result Z) :=
  if negb (rs_Initialized (rp_Status repo)) then Done (Ok 0%Z)
  else
    let! loc := resolveLocation repo in
    match loc with
    | Err e => Done (Err e)
    | Ok None => Done (Ok 0%Z)
    | Ok (Some loc) =>
        let! probed := reconcileProbe repo loc in
        match probed with
        | Err e => Done (Err e)
        | Ok repo => decide_and_submit repo loc
        end
    end.

(** The answer is [RequeueAfter], 0 for none. *)
Definition reconcileMaintenance (name : string) : ctl (result Z) :=
  let! got := req (CGet name) in
  match got with
  | Err e => Done (if IsNotFound e then Ok 0%Z else Err (wrap_err ("get BackupRepository " ++ name) e))
  | Ok repo =>
      if rp_Deleting repo then Done (Ok 0%Z)
      else
        let! taken := req (CTake (rp_Name repo)) in
        let! recorded := match fst taken with Some out => recordOutcome repo out | None => Done (Ok repo) end in
        match recorded with
        | Err e => Done (Err e)
        | Ok repo => if snd taken then Done (Ok maintenanceWatchdogInterval) else maintain repo
        end
  end.

(** ** The tracker, the passes and the goroutines together *)

(** A goroutine that waits for a handle. *)
Record watch := mkWatch { w_repo : string; w_op : string; w_startedAt : Z }.

Record system := mkSystem {
  s_tracker : maintenanceTracker;
  s_waiting : list watch;                         (* the goroutines of [start] that still run *)
  s_passes : gmap string (ctl (result Z));        (* the reconciles under way, one per key at most *)
  s_started : list watch;                         (* every operation ever submitted *)
  s_taken : list watch                            (* those whose outcome a pass took *)
}.

Definition initially : system := mkSystem newMaintenanceTracker [] ∅ [] [].

(** The answer of the tracker, and its state afterwards; whatever else is asked may
    answer anything, except that a Get gives the object of the name asked for. *)
Definition answers (t : maintenanceTracker) (o : ctl_action) : ctl_answer o -> maintenanceTracker -> Prop :=
  match o return ctl_answer o -> maintenanceTracker -> Prop with
  | CTake n => fun x t' => (x, t') = take t n
  | CTakeProbe n => fun x t' => (x, t') = takeProbe t n
  | CProbeDue n now every => fun x t' => x = probeDue t n now every /\ t' = t
  | CStartProbe n now _ => fun _ t' => t' = startProbe t n now
  | CMark n op => fun x t' => (x, t') = markInFlight t n op
  | CUnmark n => fun _ t' => t' = unmarkInFlight t n
  | CGet n => fun x t' => t' = t /\ match x with Ok repo => rp_Name repo = n | Err _ => True end
  | _ => fun _ t' => t' = t
  end.

Definition outcomeOf (name : string) (out : maintenanceOutcome) : watch :=
  mkWatch name (out_op out) (out_startedAt out).

Definition spawned (o : ctl_action) : list watch :=
  match o with CWatch n op t => [mkWatch n op t] | _ => [] end.
Definition consumed (o : ctl_action) : ctl_answer o -> list watch :=
  match o return ctl_answer o -> list watch with
  | CTake n => fun x => match fst x with Some out => [outcomeOf n out] | None => [] end
  | _ => fun _ => []
  end.

Inductive step : system -> system -> Prop :=
| step_begin s name :
    s_passes s !! name = None ->
    step s (mkSystem (s_tracker s) (s_waiting s) (<[name := reconcileMaintenance name]> (s_passes s)) (s_started s) (s_taken s))
| step_request s name (o : ctl_action) k (x : ctl_answer o) t' :
    s_passes s !! name = Some (Do (I := ctlI) o k) -> answers (s_tracker s) o x t' ->
    step s (mkSystem t' (spawned o ++ s_waiting s) (<[name := k x]> (s_passes s)) (spawned o ++ s_started s)
              (consumed o x ++ s_taken s))
| step_end s name r :
    s_passes s !! name = Some (Done r) ->
    step s (mkSystem (s_tracker s) (s_waiting s) (base.delete name (s_passes s)) (s_started s) (s_taken s))
| step_finish s w l1 l2 endedAt err :
    s_waiting s = (l1 ++ w :: l2)%list ->
    step s (mkSystem (finish (s_tracker s) (w_repo w) (mkOutcome (w_op w) (w_startedAt w) endedAt err)) (l1 ++ l2)
              (s_passes s) (s_started s) (s_taken s))
| step_finishProbe s name res :
    name ∈ probeInFlight (s_tracker s) ->
    step s (mkSystem (finishProbe (s_tracker s) name res) (s_waiting s) (s_passes s) (s_started s) (s_taken s))
| step_wake s name l :
    wakeups (s_tracker s) = name :: l ->
    step s (mkSystem (mkTracker (inFlight (s_tracker s)) (results (s_tracker s)) (probeInFlight (s_tracker s))
                        (probeResults (s_tracker s)) (probedAt (s_tracker s)) l)
              (s_waiting s) (s_passes s) (s_started s) (s_taken s)).

Definition reachable (s : system) : Prop := rtc step initially s.

Definition outcomes (t : maintenanceTracker) : list watch :=
  map (fun p => outcomeOf (fst p) (snd p)) (map_to_list (results t)).

(** *** What a pass knows of its repository *)

(** Nothing; that nothing is in flight or parked; or that it holds the mark and its
    operation has no goroutine yet. *)
Inductive phase := Unknown | Clear | Held.

Definition allows (n : string) (ph : phase) (o : ctl_action) : (ctl_answer o -> phase -> Prop) -> Prop :=
  match o return (ctl_answer o -> phase -> Prop) -> Prop with
  | CTake m => fun k => m = n /\ ph <> Held /\ forall out running, k (out, running) (if running : bool then Unknown else Clear)
  | CMark m _ => fun k => m = n /\ ph = Clear /\ k true Held
  | CUnmark m => fun k => m = n /\ ph = Held /\ forall x, k x Clear
  | CWatch m _ _ => fun k => m = n /\ ph = Held /\ forall x, k x Unknown
  | CGet m => fun k => forall x, match x with Ok repo => rp_Name repo = m | Err _ => True end -> k x ph
  | _ => fun k => forall x, k x ph
  end.

(** The weakest precondition of a program in the phase [ph] of the repository [n]. *)
Fixpoint wp {A} (n : string) (ph : phase) (p : ctl A) (Q : A -> phase -> Prop) : Prop :=
  match p with
  | Done a => Q a ph
  | Do o k => allows n ph o (fun x ph => wp n ph (k x) Q)
  end.

Lemma allows_mono n ph o (K K' : ctl_answer o -> phase -> Prop) :
  (forall x ph, K x ph -> K' x ph) -> allows n ph o K -> allows n ph o K'.
Proof. destruct o; cbn; intros H; naive_solver. Qed.

Lemma wp_mono {A} n ph (p : ctl A) (Q Q' : A -> phase -> Prop) :
  (forall a ph, Q a ph -> Q' a ph) -> wp n ph p Q -> wp n ph p Q'.
Proof.
  intros H. revert ph. induction p as [a|o k IH]; intros ph; cbn; [apply H|].
  apply allows_mono. intros x ph'. apply IH.
Qed.

Lemma wp_bind {A B} n ph (p : ctl A) (f : A -> ctl B) Q :
  wp n ph p (fun a ph => wp n ph (f a) Q) -> wp n ph (prog_bind p f) Q.
Proof.
  revert ph. induction p as [a|o k IH]; intros ph; cbn; [done|].
  apply allows_mono. intros x ph'. apply IH.
Qed.

(** A program that leaves the tracker's operations alone keeps the phase. *)
Definition quiet {A} (p : ctl A) : Prop := forall n ph (Q : A -> phase -> Prop), (forall a, Q a ph) -> wp n ph p Q.

Lemma wp_quiet {A B} n ph (p : ctl A) (f : A -> ctl B) Q :
  quiet p -> (forall a, wp n ph (f a) Q) -> wp n ph (prog_bind p f) Q.
Proof. intros Hp Hf. apply wp_bind, Hp, Hf. Qed.

Ltac wp_step := cbn [wp allows req call prog_bind ctlI action answer].

Ltac quietly := intros n ph Q HQ; repeat first [progress cbn | intros ? | case_match | apply HQ].

Lemma recordOutcome_name repo out n ph (Q : result Repository -> phase -> Prop) :
  (forall r, match r with Ok repo' => rp_Name repo' = rp_Name repo | Err _ => True end -> Q r ph) ->
  wp n ph (recordOutcome repo out) Q.
Proof. intros HQ. cbn. intros [e|]; cbn; [by apply HQ|]. intros _. by apply HQ. Qed.

Lemma applyProbe_name repo out n ph (Q : result Repository -> phase -> Prop) :
  (forall r, match r with Ok repo' => rp_Name repo' = rp_Name repo | Err _ => True end -> Q r ph) ->
  wp n ph (applyProbe repo out) Q.
Proof.
  intros HQ. destruct out as [[stats|e]|]; cbn; [|by apply HQ..]. case_match; [|by apply HQ].
  cbn. intros [e|]; by apply HQ.
Qed.

Lemma measureAgain_quiet repo loc : quiet (measureAgain repo loc).
Proof. unfold measureAgain, buildProber. quietly. Qed.

Lemma reconcileProbe_name repo loc n ph (Q : result Repository -> phase -> Prop) :
  (forall r, match r with Ok repo' => rp_Name repo' = rp_Name repo | Err _ => True end -> Q r ph) ->
  wp n ph (reconcileProbe repo loc) Q.
Proof.
  intros HQ. unfold reconcileProbe. destruct (negb hasProber); [by apply HQ|].
  wp_step. intros taken. apply wp_bind, applyProbe_name. intros [repo'|e] Hr; [|by apply HQ].
  apply wp_quiet; [apply measureAgain_quiet|]. intros _. by apply HQ.
Qed.

Lemma resolveLocation_quiet repo : quiet (resolveLocation repo).
Proof. unfold resolveLocation. quietly. Qed.

Lemma resolvePlatformDEK_quiet loc : quiet (resolvePlatformDEK loc).
Proof. unfold resolvePlatformDEK. quietly. Qed.

Lemma submit_wp repo loc due :
  wp (rp_Name repo) Clear (submit repo loc due) (fun _ ph => ph <> Held).
Proof.
  unfold submit. case_match; [|done]. apply wp_quiet; [apply resolvePlatformDEK_quiet|]. intros [dek|e]; [|done].
  cbn. intros now. split_and!; [done..|]. intros [e|]; cbn; split_and!; done.
Qed.

Lemma decide_wp repo loc :
  wp (rp_Name repo) Clear (decide_and_submit repo loc) (fun _ ph => ph <> Held).
Proof.
  unfold decide_and_submit. wp_step. intros now. case_match; wp_step.
  - intros tick. apply wp_bind. eapply wp_mono; [|apply submit_wp]. done.
  - case_match; [|done]. wp_step. intros now'. case_match. case_match; [|done].
    apply wp_bind. eapply wp_mono; [|apply submit_wp]. intros [e|] ph Hph; [by intros []|done].
Qed.

Lemma reconcileMaintenance_wp name : wp name Unknown (reconcileMaintenance name) (fun _ ph => ph <> Held).
Proof.
  unfold reconcileMaintenance. wp_step. intros [repo|e] Hn; [|done]. case_match; [done|]. wp_step. split_and!; [done..|].
  intros out running. apply wp_bind.
  assert (forall r : result Repository, match r with Ok repo' => rp_Name repo' = rp_Name repo | Err _ => True end ->
    wp name (if running then Unknown else Clear)
      match r with
      | Ok repo => if running then Done (Ok maintenanceWatchdogInterval) else maintain repo
      | Err e => Done (Err e)
      end (fun _ ph => ph <> Held)) as Hrest.
  { intros [repo'|e] Hr; [|by destruct running]. destruct running; [done|]. unfold maintain. case_match; [done|].
    apply wp_quiet; [apply resolveLocation_quiet|]. intros [[loc|]|e]; [|done..].
    apply wp_bind, reconcileProbe_name. intros [repo''|e] Hr'; [|done].
    rewrite <-Hn, <-Hr, <-Hr'. apply decide_wp. }
  destruct out as [out|]; cbn [fst snd]; [|by apply (Hrest (Ok repo))].
  apply recordOutcome_name. intros r Hr. by apply Hrest.
Qed.

(** *** The invariant *)

(** The goroutines of a repository. *)
Definition waitingFor (n : string) (s : system) : list watch :=
  List.filter (fun w => bool_decide (w_repo w = n)) (s_waiting s).

(** A repository in a state: idle; marked by the pass that is submitting; or with
    one goroutine that waits.  The last two have no parked outcome. *)
Definition consistent (n : string) (ph : phase) (s : system) : Prop :=
  let t := s_tracker s in
  match inFlight t !! n with
  | None => waitingFor n s = [] /\ ph <> Held /\ (ph = Clear -> results t !! n = None)
  | Some _ => results t !! n = None /\
      match ph with
      | Held => waitingFor n s = []
      | Unknown => exists w, waitingFor n s = [w]
      | Clear => False
      end
  end.

(** What is left of a pass is safe to run in the phase. *)
Definition fits (n : string) (ph : phase) (s : system) : Prop :=
  match s_passes s !! n with
  | None => ph = Unknown
  | Some p => wp n ph p (fun _ ph => ph <> Held)
  end.

Definition inv (s : system) : Prop :=
  (forall n, exists ph, fits n ph s /\ consistent n ph s)
  /\ s_started s ≡ₚ (s_waiting s ++ outcomes (s_tracker s) ++ s_taken s)%list.

Lemma inv_initially : inv initially.
Proof.
  split; [|done]. intros n. exists Unknown. split; [by unfold fits; cbn; rewrite lookup_empty|].
  unfold consistent. cbn. by rewrite lookup_empty.
Qed.

(** A pass only changes what its own repository sees. *)
Lemma consistent_same n ph s s' :
  inFlight (s_tracker s') !! n = inFlight (s_tracker s) !! n -> results (s_tracker s') !! n = results (s_tracker s) !! n ->
  waitingFor n s' = waitingFor n s -> consistent n ph s -> consistent n ph s'.
Proof. unfold consistent. by intros -> -> ->. Qed.

Lemma outcomes_take t n :
  outcomes t ≡ₚ (match results t !! n with Some out => [outcomeOf n out] | None => [] end ++ outcomes (snd (take t n)))%list.
Proof.
  unfold outcomes, take. cbn. destruct (results t !! n) as [out|] eqn:E; cbn.
  - rewrite <-(insert_delete_id (results t) n out E) at 1.
    rewrite map_to_list_insert by apply lookup_delete_eq. done.
  - by rewrite delete_id.
Qed.

Lemma outcomes_finish t n out :
  results t !! n = None -> outcomes (finish t n out) ≡ₚ (outcomeOf n out :: outcomes t)%list.
Proof. intros E. unfold outcomes, finish. cbn. by rewrite map_to_list_insert. Qed.

(** The steps of the tracker keep the accounts. *)
Lemma answers_accounts t o x t' :
  answers t o x t' -> (outcomes t ≡ₚ consumed o x ++ outcomes t')%list.
Proof.
  destruct o; cbn; try (by intros ->); try (by intros [-> ?]).
  - intros [= -> ->]. apply outcomes_take.
  - by intros [= _ ->].
  - by intros [_ ->].
  - intros ->. unfold startProbe. by case_match.
  - unfold markInFlight. intros H. by case_match; inversion H.
Qed.

Lemma answers_other t o x t' n m :
  answers t o x t' -> match o with CTake k | CMark k _ | CUnmark k | CWatch k _ _ => k = n | _ => True end -> m <> n ->
  inFlight t' !! m = inFlight t !! m /\ results t' !! m = results t !! m.
Proof.
  destruct o; cbn; intros H Hk Hm; try (by subst); try (by destruct H as [-> _]); try (by destruct H as [_ ->]).
  - inversion H. cbn. subst. by rewrite lookup_delete_ne.
  - by inversion H.
  - subst. unfold startProbe. by case_match.
  - unfold markInFlight in H. subst. case_match; inversion H; [done|]. cbn. by rewrite lookup_insert_ne.
  - subst. cbn. by rewrite lookup_delete_ne.
Qed.

Lemma allows_own n ph o K :
  allows n ph o K -> match o with CTake k | CMark k _ | CUnmark k | CWatch k _ _ => k = n | _ => True end.
Proof. destruct o; cbn; naive_solver. Qed.

Lemma waitingFor_app n l s s' :
  s_waiting s' = (l ++ s_waiting s)%list ->
  waitingFor n s' = (List.filter (fun w => bool_decide (w_repo w = n)) l ++ waitingFor n s)%list.
Proof. intros H. unfold waitingFor. by rewrite H, List.filter_app. Qed.

(** The phase a request leaves its pass in. *)
Lemma request_consistent n ph s o (x : ctl_answer o) t' s' K :
  allows n ph o K -> answers (s_tracker s) o x t' -> consistent n ph s ->
  s_tracker s' = t' -> s_waiting s' = (spawned o ++ s_waiting s)%list ->
  exists ph', K x ph' /\ consistent n ph' s'.
Proof.
  intros Ha Hx Hc Ht Hw. pose proof (waitingFor_app n _ _ _ Hw) as Hwait.
  assert (consistent n ph s' -> K x ph -> exists ph', K x ph' /\ consistent n ph' s') as Hsame by eauto.
  assert (inFlight t' = inFlight (s_tracker s) -> results t' = results (s_tracker s) -> spawned o = [] -> consistent n ph s') as Hkeep.
  { intros E1 E2 E3. eapply consistent_same; [| | |exact Hc]; [by rewrite Ht, E1|by rewrite Ht, E2|]. by rewrite Hwait, E3. }
  unfold consistent in Hc. destruct o; cbn in Ha, Hx; try (subst t'; by apply Hsame; [apply Hkeep|apply Ha]).
  - destruct Hx as [-> Hx]. apply Hsame; [by apply Hkeep|by apply Ha].
  - destruct Ha as (-> & Hp & Ha). inversion Hx; subst x t'. eexists. split; [apply Ha|].
    unfold consistent. rewrite H1, Hwait. cbn. destruct (inFlight (s_tracker s) !! n) eqn:E.
    + destruct Hc as [_ Hc]. rewrite bool_decide_true by eauto. rewrite lookup_delete_eq. split; [done|].
      destruct ph; [done|done|done].
    + rewrite bool_decide_false by (by intros [? ?]). rewrite lookup_delete_eq. naive_solver.
  - assert (t' = snd (takeProbe (s_tracker s) name)) as E by (by rewrite <-Hx).
    apply Hsame; [apply Hkeep; by rewrite ?E|apply Ha].
  - destruct Hx as [-> ->]. apply Hsame; [by apply Hkeep|apply Ha].
  - apply Hsame; [|apply Ha]. subst t'. unfold startProbe in *. by apply Hkeep; case_match.
  - destruct Ha as (-> & -> & Ha). unfold markInFlight in Hx.
    destruct (inFlight (s_tracker s) !! n) eqn:E; [by destruct Hc as [_ []]|]. inversion Hx; subst x t'.
    exists Held. split; [done|]. unfold consistent. rewrite H1, Hwait. cbn. rewrite lookup_insert_eq. naive_solver.
  - destruct Ha as (-> & -> & Ha). destruct (inFlight (s_tracker s) !! n) eqn:E; [|naive_solver].
    exists Clear. split; [apply Ha|]. unfold consistent. rewrite Hwait, Ht, Hx. cbn. rewrite lookup_delete_eq. naive_solver.
  - destruct Ha as (-> & -> & Ha). destruct (inFlight (s_tracker s) !! n) eqn:E; [|naive_solver].
    destruct Hc as [Hr Hc]. exists Unknown. split; [apply Ha|]. unfold consistent. rewrite Hwait, Ht, Hx, E, Hc. cbn.
    rewrite bool_decide_true by done. split; [done|]. by eexists.
Qed.

Lemma request_inv s name (o : ctl_action) k (x : ctl_answer o) t' :
  s_passes s !! name = Some (Do (I := ctlI) o k) -> answers (s_tracker s) o x t' -> inv s ->
  inv (mkSystem t' (spawned o ++ s_waiting s) (<[name := k x]> (s_passes s)) (spawned o ++ s_started s)
         (consumed o x ++ s_taken s)).
Proof.
  intros Hp Hx [Hn Hacc]. split; [|cbn; rewrite Hacc, (answers_accounts _ _ _ _ Hx); by solve_Permutation].
  intros m. destruct (Hn name) as (ph & Hf & Hc). unfold fits in Hf. rewrite Hp in Hf. cbn in Hf.
  destruct (decide (m = name)) as [->|Hm].
  - edestruct (request_consistent name ph s o x t') as (ph' & Hk & Hc'); [exact Hf|exact Hx|exact Hc|..].
    3: { exists ph'. split; [|exact Hc']. unfold fits. cbn. rewrite lookup_insert_eq. exact Hk. }
    all: done.
  - destruct (Hn m) as (phm & Hfm & Hcm). exists phm. split.
    + unfold fits in *. cbn. by rewrite lookup_insert_ne.
    + pose proof (allows_own _ _ _ _ Hf) as Hown. destruct (answers_other _ _ _ _ _ m Hx Hown Hm) as [E1 E2].
      eapply consistent_same; [exact E1|exact E2| |exact Hcm].
      rewrite (waitingFor_app m (spawned o) s) by done. destruct o; try done. cbn in *. subst.
      by rewrite bool_decide_false.
Qed.

Lemma finish_inv s w l1 l2 endedAt err :
  s_waiting s = (l1 ++ w :: l2)%list -> inv s ->
  inv (mkSystem (finish (s_tracker s) (w_repo w) (mkOutcome (w_op w) (w_startedAt w) endedAt err)) (l1 ++ l2)
         (s_passes s) (s_started s) (s_taken s)).
Proof.
  intros Hw [Hn Hacc].
  assert (forall m, waitingFor m s = (List.filter (fun w => bool_decide (w_repo w = m)) l1
    ++ (if bool_decide (w_repo w = m) then [w] else []) ++ List.filter (fun w => bool_decide (w_repo w = m)) l2)%list) as Hfilter.
  { intros m. unfold waitingFor. rewrite Hw, List.filter_app. cbn. by case_match. }
  destruct (Hn (w_repo w)) as (ph & Hf & Hc). unfold consistent in Hc. rewrite Hfilter, bool_decide_true in Hc by done.
  destruct (inFlight (s_tracker s) !! w_repo w) eqn:E.
  2: { destruct Hc as [Hc _]. apply app_eq_nil in Hc as [_ Hc]. done. }
  destruct Hc as [Hr Hc]. destruct ph; [|done|apply app_eq_nil in Hc as [_ Hc]; done].
  destruct Hc as (w' & Hc).
  assert (List.filter (fun w0 => bool_decide (w_repo w0 = w_repo w)) (l1 ++ l2) = []) as Hnone.
  { apply nil_length_inv. apply (f_equal (List.length (A := watch))) in Hc.
    rewrite List.filter_app, !length_app in *. cbn in Hc. lia. }
  split.
  - intros m. destruct (decide (m = w_repo w)) as [->|Hm].
    + exists Unknown. split; [exact Hf|]. unfold consistent. cbn. rewrite lookup_delete_eq. by split.
    + destruct (Hn m) as (phm & Hfm & Hcm). exists phm. split; [exact Hfm|].
      eapply consistent_same; [| | |exact Hcm]; cbn; [by rewrite lookup_delete_ne|by rewrite lookup_insert_ne|].
      rewrite Hfilter, bool_decide_false by done. unfold waitingFor. cbn. by rewrite List.filter_app.
  - cbn. rewrite outcomes_finish by done. rewrite Hacc, Hw. unfold outcomeOf. cbn.
    destruct w; cbn. by solve_Permutation.
Qed.

Lemma step_inv s s' : step s s' -> inv s -> inv s'.
Proof.
  intros Hs Hi. destruct Hs as [s name Hp|s name o k x t' Hp Hx|s name r Hp|s w l1 l2 endedAt err Hw|s name res Hp|s name l Hw].
  - destruct Hi as [Hn Hacc]. split; [|done]. intros m. destruct (Hn m) as (ph & Hf & Hc).
    destruct (decide (m = name)) as [->|Hm].
    + unfold fits in Hf. rewrite Hp in Hf. subst ph. exists Unknown. split; [|exact Hc].
      unfold fits. cbn. rewrite lookup_insert_eq. apply reconcileMaintenance_wp.
    + exists ph. split; [|exact Hc]. unfold fits in *. cbn. by rewrite lookup_insert_ne.
  - by eapply request_inv.
  - destruct Hi as [Hn Hacc]. split; [|done]. intros m. destruct (Hn m) as (ph & Hf & Hc).
    destruct (decide (m = name)) as [->|Hm].
    + unfold fits in Hf. rewrite Hp in Hf. cbn in Hf. exists Unknown.
      split; [by unfold fits; cbn; rewrite lookup_delete_eq|].
      unfold consistent in *. cbn in *. destruct (inFlight (s_tracker s) !! name); [|naive_solver].
      destruct Hc as [Hr Hc]. split; [done|]. by destruct ph.
    + exists ph. split; [|exact Hc]. unfold fits in *. cbn. by rewrite lookup_delete_ne.
  - by apply finish_inv.
  - destruct Hi as [Hn Hacc]. by split.
  - destruct Hi as [Hn Hacc]. by split.
Qed.

Lemma reachable_inv s : reachable s -> inv s.
Proof. revert s. apply (rtc_ind_r inv initially); [apply inv_initially|]. intros s s2 _ Hs Hi. by eapply step_inv. Qed.

(** ** The decisions *)

Definition attempts (repo : Repository) (op : string) : list MaintenanceRecord :=
  List.filter (fun rec => mr_Operation rec =? op) (rs_RecentMaintenance (rp_Status repo)).

(** How many records of the head of a history failed. *)
Fixpoint leadingFailures (l : list MaintenanceRecord) : nat :=
  match l with
  | rec :: l => if mr_Result rec =? MaintenanceFailed then S (leadingFailures l) else 0
  | [] => 0
  end.

Lemma unlockHistory_spec l c t :
  Forall (fun rec => mr_StartTime rec <> zero_time) l ->
  let unlocks := List.filter (fun rec => mr_Operation rec =? mover_OpUnlock) l in
  unlockHistory l c t =
  (c + leadingFailures unlocks, if time_is_zero t then match unlocks with rec :: _ => mr_StartTime rec | [] => zero_time end else t).
Proof.
  intros Hl. revert c t. induction Hl as [|rec l Hr _ IH]; intros c t; cbn in *.
  { rewrite Nat.add_0_r. unfold time_is_zero. destruct (t =? zero_time)%Z eqn:E; [|done]. f_equal. lia. }
  destruct (mr_Operation rec =? mover_OpUnlock) eqn:Eo; cbn; [|apply IH].
  assert (forall t, t <> zero_time -> time_is_zero t = false) as Hnz by (intros u; unfold time_is_zero; lia).
  destruct (mr_Result rec =? MaintenanceFailed) eqn:Ef; cbn; [|by rewrite Nat.add_0_r].
  rewrite IH. f_equal; [lia|]. destruct (time_is_zero t) eqn:Et; [|by rewrite Et]. by rewrite Hnz.
Qed.

Lemma failedChecks_spec l c :
  failedChecks l c = c + leadingFailures (List.filter (fun rec => mr_Operation rec =? mover_OpCheck) l).
Proof.
  revert c. induction l as [|rec l IH]; intros c; cbn; [lia|].
  destruct (mr_Operation rec =? mover_OpCheck); cbn; [|apply IH].
  destruct (mr_Result rec =? MaintenanceFailed); cbn; [|lia]. rewrite IH. lia.
Qed.

Lemma lastAttempt_applied out completion repo op :
  lastAttempt (applyOutcomeToStatus out completion repo) op =
  if out_op out =? op then out_startedAt out
  else match find (fun rec => mr_Operation rec =? op) (firstn 9 (rs_RecentMaintenance (rp_Status repo))) with
       | Some rec => mr_StartTime rec
       | None => rp_Created repo
       end.
Proof. unfold lastAttempt. cbn. by destruct (out_op out =? op). Qed.

(** The schedules of a location: operation, queue kind, expression. *)
Definition duties (loc : MaintainedLocation) (m : MaintenanceSpec) : list (string * OpKind * string) :=
  ((if ml_Immutable loc then [] else [(mover_OpPrune, OpPrune, ms_PruneSchedule m)])
   ++ [(mover_OpCheck, OpCheck, ms_CheckSchedule m)])%list.

Definition jitter (repo : Repository) (op : string) : Z := JitterOffset (rp_UID repo ++ op) maintenanceJitterWindow.

Section Crons.
(** The instants at which an expression fires in the location's time zone. *)
Variable m : MaintenanceSpec.
Variable fires : string -> Z -> Prop.
Hypothesis parsed : forall expr cron, Parse expr (ms_Timezone m) = Ok cron -> CronLaws cron (fires expr) /\ unending cron.

Definition stillToCome (now : Z) (repo : Repository) (op expr : string) : Prop :=
  expr <> "" -> (exists cron, Parse expr (ms_Timezone m) = Ok cron) ->
  forall u, (lastAttempt repo op < u <= now - jitter repo op)%Z -> ~ fires expr u.

Lemma jitter_range repo op : (0 <= jitter repo op <= maintenanceJitterWindow)%Z.
Proof.
  destruct (JitterOffset_range (rp_UID repo ++ op) maintenanceJitterWindow) as [H|H].
  - by vm_compute.
  - unfold jitter. rewrite H. by vm_compute.
  - unfold jitter. lia.
Qed.

Lemma consider_spec now repo earliest expr op kind skip :
  (zero_time <= lastAttempt repo op)%Z -> (zero_time + maintenanceJitterWindow <= now)%Z ->
  match consider now repo m earliest expr op kind skip with
  | (Some due, _) => skip = false /\ expr <> "" /\ due = mkDue op kind (due_tick due) /\ fires expr (due_tick due)
      /\ (lastAttempt repo op < due_tick due <= now - jitter repo op)%Z
  | (None, next) => (skip = false -> stillToCome now repo op expr) /\ (next = earliest \/ now < next)%Z
  end.
Proof.
  intros Hz Hn. unfold consider. destruct (expr =? "") eqn:Ee; cbn.
  { split; [|by left]. apply String.eqb_eq in Ee. intros _ He. done. }
  apply String.eqb_neq in Ee. destruct skip; cbn; [by split; [|left]|].
  destruct (Parse expr (ms_Timezone m)) as [cron|e] eqn:Ep.
  2: { split; [|by left]. intros _ _ [c Hc]. congruence. }
  destruct (parsed _ _ Ep) as [CL Hu]. fold (jitter repo op). pose proof (jitter_range repo op).
  destruct (DueTick cron (lastAttempt repo op) (now - jitter repo op) None) as [tick|] eqn:Ed.
  - pose proof (DueTick_some cron (fires expr) _ _ _ _ Hu Hz Ed) as [Hf Hr]. cbn. split_and!; done || lia.
  - split.
    + intros _ _ _ u Hr. by eapply (DueTick_none cron (fires expr)).
    + assert (now < Next cron (now - jitter repo op) + jitter repo op)%Z.
      { pose proof (Next_after cron (fires expr) (now - jitter repo op) (Hu (now - jitter repo op)%Z ltac:(lia))). lia. }
      case_match; [by right|by left].
Qed.
End Crons.

(** ** Theorems *)

(** C35. Whatever the passes of the repositories and the goroutines of their operations
    do between each other's requests: a repository has at most one operation that
    waits for the queue, and none while an outcome of it is parked, so that no
    outcome is overwritten; and every operation that was ever submitted is still
    waited for, or its outcome is parked, or a pass took it, exactly once. *)
Theorem one_operation_per_repository (s : system) :
  reachable s ->
  (forall n, List.length (waitingFor n s) <= 1
     /\ (waitingFor n s <> [] -> inFlight (s_tracker s) !! n <> None /\ results (s_tracker s) !! n = None))
  /\ s_started s ≡ₚ (s_waiting s ++ outcomes (s_tracker s) ++ s_taken s)%list.
Proof.
  intros [Hn Hacc]%reachable_inv. split; [|done]. intros n. destruct (Hn n) as (ph & _ & Hc).
  unfold consistent in Hc. destruct (inFlight (s_tracker s) !! n).
  - destruct Hc as [Hr Hc]. destruct ph; [|done|].
    + destruct Hc as [w ->]. cbn. split; [lia|]. by split.
    + rewrite Hc. cbn. split; [lia|done].
  - destruct Hc as [-> _]. cbn. split; [lia|done].
Qed.

(** The schedule is honoured: an operation is due only for an instant at which its
    expression fires, after the last attempt at it and not before its jitter has
    passed, never a prune of an immutable location, and no check while a prune is
    due; and nothing is due only when nothing was missed, with a wake-up that lies
    in the future. *)
Theorem nextDue_spec (now : Z) (repo : Repository) (loc : MaintainedLocation) (m : MaintenanceSpec)
    (fires : string -> Z -> Prop)
    (parsed : forall expr cron, Parse expr (ms_Timezone m) = Ok cron -> CronLaws cron (fires expr) /\ unending cron)
    (Hz : forall op, (zero_time <= lastAttempt repo op)%Z) (Hn : (zero_time + maintenanceJitterWindow <= now)%Z) :
  match nextDue now repo loc m with
  | (Some due, _) => exists expr, (due_op due, due_kind due, expr) ∈ duties loc m /\ expr <> ""
      /\ fires expr (due_tick due) /\ (lastAttempt repo (due_op due) < due_tick due <= now - jitter repo (due_op due))%Z
      /\ (due_op due = mover_OpCheck -> ml_Immutable loc = false ->
          stillToCome m fires now repo mover_OpPrune (ms_PruneSchedule m))
  | (None, next) => (forall op kind expr, (op, kind, expr) ∈ duties loc m -> stillToCome m fires now repo op expr)
      /\ (next = zero_time \/ (now < next)%Z)
  end.
Proof.
  clear OperatorNamespace hasProber Quote.
  unfold nextDue, duties.
  pose proof (consider_spec m fires parsed now repo zero_time (ms_PruneSchedule m) mover_OpPrune OpPrune
    (ml_Immutable loc) (Hz _) Hn) as Hp.
  destruct (consider now repo m zero_time _ _ _ _) as [[due|] earliest].
  { destruct Hp as (-> & He & Hd & Hf & Hr). exists (ms_PruneSchedule m). rewrite Hd. cbn. rewrite Hd in Hr. cbn in Hr.
    split_and!; try done; try lia. left. }
  destruct Hp as [Hp He1].
  pose proof (consider_spec m fires parsed now repo earliest (ms_CheckSchedule m) mover_OpCheck OpCheck false (Hz _) Hn) as Hc.
  destruct (consider now repo m earliest _ _ _ _) as [[due|] next].
  - destruct Hc as (_ & He & Hd & Hf & Hr). exists (ms_CheckSchedule m). rewrite Hd. cbn.
    split_and!; try done; try lia. destruct (ml_Immutable loc); [left|right; left].
  - destruct Hc as [Hc He2]. split; [|naive_solver].
    intros op kind expr H. destruct (ml_Immutable loc); [|apply elem_of_cons in H as [[= -> -> ->]|H]; [by apply Hp|]].
    all: apply list_elem_of_singleton in H as [= -> -> ->]; by apply Hc.
Qed.

(** An operation that was attempted is not attempted again for the same instant,
    failed or not: when its outcome has been recorded, what is due next fires after
    the attempt started. *)
Theorem attempt_not_repeated (now completion : Z) (out : maintenanceOutcome) (repo : Repository)
    (loc : MaintainedLocation) (m : MaintenanceSpec) (fires : string -> Z -> Prop) (due : maintenanceDue) (next : Z)
    (parsed : forall expr cron, Parse expr (ms_Timezone m) = Ok cron -> CronLaws cron (fires expr) /\ unending cron)
    (Hz : forall op, (zero_time <= lastAttempt (applyOutcomeToStatus out completion repo) op)%Z)
    (Hn : (zero_time + maintenanceJitterWindow <= now)%Z) :
  nextDue now (applyOutcomeToStatus out completion repo) loc m = (Some due, next) -> due_op due = out_op out ->
  (out_startedAt out < due_tick due <= now)%Z.
Proof.
  set (repo' := applyOutcomeToStatus out completion repo) in *. intros Hd Ho.
  assert (exists op kind expr skip e, consider now repo' m e expr op kind skip = (Some due, next)) as (op & kind & expr & skip & e & Hc).
  { unfold nextDue in Hd. destruct (consider now repo' m zero_time _ _ _ _) as [[d|] e] eqn:Ec; [|by eexists _, _, _, _, _].
    injection Hd as -> ->. by eexists _, _, _, _, _. }
  pose proof (consider_spec m fires parsed now repo' e expr op kind skip (Hz _) Hn) as H. rewrite Hc in H.
  destruct H as (_ & _ & Hdue & _ & Hr). rewrite Hdue in Ho. cbn in Ho. subst op.
  unfold repo' in Hr. rewrite lastAttempt_applied, String.eqb_refl in Hr.
  pose proof (jitter_range (applyOutcomeToStatus out completion repo) (out_op out)). lia.
Qed.

(** The reaping of stale locks is paced and given up: it is due exactly when fewer
    than three unlocks of the recorded history failed in a row since the last that
    did not, and the newest attempt, if any, started an hour ago or earlier. *)
Theorem reapDue_spec (now : Z) (repo : Repository)
    (Hs : Forall (fun rec => mr_StartTime rec <> zero_time) (rs_RecentMaintenance (rp_Status repo))) :
  reapDue now repo = true <->
  leadingFailures (attempts repo mover_OpUnlock) < 3
  /\ match attempts repo mover_OpUnlock with
     | [] => True
     | rec :: _ => (unlockRetryCooldown <= now - mr_StartTime rec)%Z
     end.
Proof.
  clear Parse OperatorNamespace hasProber Quote.
  unfold reapDue. rewrite unlockHistory_spec by done. fold (attempts repo mover_OpUnlock).
  change (time_is_zero zero_time) with true. cbn [Nat.add].
  destruct (Nat.leb_spec unlockMaxConsecutiveFailures (leadingFailures (attempts repo mover_OpUnlock))) as [Hl|Hl];
    unfold unlockMaxConsecutiveFailures in Hl; [split; [done|lia]|].
  destruct (attempts repo mover_OpUnlock) as [|rec l] eqn:Ea; [cbn; split; [lia|done]|].
  assert (mr_StartTime rec <> zero_time) as Hr.
  { rewrite Forall_forall in Hs. apply Hs. eapply list_elem_of_In, filter_In. unfold attempts in Ea. rewrite Ea. by left. }
  replace (time_is_zero (mr_StartTime rec)) with false by (unfold time_is_zero; lia).
  assert (unlockRetryCooldown <= time_sub now (mr_StartTime rec) <-> unlockRetryCooldown <= now - mr_StartTime rec)%Z
    by (unfold time_sub, unlockRetryCooldown, hour, minute, second; lia).
  rewrite Z.leb_le. tauto.
Qed.

(** What recording an outcome does to the status: the history keeps the ten newest
    records, the new one first; only a successful prune moves lastMaintenanceTime,
    every check moves lastCheckTime and sets the damage condition to whether it
    failed, only a successful unlock clears the stale locks, and nothing else of
    the repository changes. *)
Theorem applyOutcomeToStatus_spec `{!ConditionStoreLaws CS} (out : maintenanceOutcome) (completion : Z) (repo : Repository) :
  let s := rp_Status repo in
  let repo' := applyOutcomeToStatus out completion repo in
  let s' := rp_Status repo' in
  let ran op := out_op out = op in
  List.length (rs_RecentMaintenance s') <= 10
  /\ (exists dropped, (rs_RecentMaintenance s' ++ dropped)%list = outcomeRecord out completion :: rs_RecentMaintenance s
       /\ (dropped <> [] -> List.length (rs_RecentMaintenance s') = 10))
  /\ (rs_LastMaintenanceTime s' <> rs_LastMaintenanceTime s -> ran mover_OpPrune /\ out_err out = None)
  /\ (ran mover_OpPrune -> out_err out = None -> rs_LastMaintenanceTime s' = Some completion)
  /\ (ran mover_OpCheck -> rs_LastCheckTime s' = Some completion
       /\ IsConditionTrue (rs_Conditions s') ConditionRepositoryCheckFailed
          = (match out_err out with Some _ => true | None => false end))
  /\ (~ ran mover_OpCheck -> rs_LastCheckTime s' = rs_LastCheckTime s /\ rs_Conditions s' = rs_Conditions s)
  /\ rs_StaleLocks s' = (if bool_decide (ran mover_OpUnlock /\ out_err out = None) then 0 else rs_StaleLocks s)%Z
  /\ rs_Initialized s' = rs_Initialized s /\ rs_RepositoryURL s' = rs_RepositoryURL s /\ rp_Name repo' = rp_Name repo.
Proof.
  clear Parse OperatorNamespace hasProber Quote.
  cbv zeta. unfold applyOutcomeToStatus. cbn [rp_Status set_rp_status rs_RecentMaintenance rs_LastMaintenanceTime
    rs_LastCheckTime rs_Conditions rs_StaleLocks rs_Initialized rs_RepositoryURL rp_Name].
  set (l := outcomeRecord out completion :: rs_RecentMaintenance (rp_Status repo)).
  assert (forall op, (out_op out =? op) = bool_decide (out_op out = op)) as Heq.
  { intros op. destruct (String.eqb_spec (out_op out) op) as [->|Hne]; [by rewrite bool_decide_true|by rewrite bool_decide_false]. }
  rewrite !Heq. split_and!; try done.
  - apply firstn_le_length.
  - exists (skipn maintenanceHistoryLimit l). split; [apply firstn_skipn|]. intros Hd.
    rewrite length_firstn. apply Nat.min_l, Nat.lt_le_incl, Nat.nle_gt. intros Hle. by apply Hd, skipn_all2.
  - destruct (out_err out); [rewrite andb_false_r; done|]. rewrite andb_true_r. case_bool_decide; done.
  - intros -> ->. by rewrite bool_decide_true.
  - intros Hc. rewrite (bool_decide_true _ Hc). split; [done|]. unfold setCheckCondition.
    destruct (out_err out); apply IsConditionTrue_SetCondition.
  - intros Hc. by rewrite (bool_decide_false _ Hc).
  - destruct (out_err out); [rewrite andb_false_r, bool_decide_false by naive_solver; done|].
    rewrite andb_true_r. repeat case_bool_decide; naive_solver.
Qed.

(** ** A whole pass *)

Notation ctlEvent := (event ctlI).

Definition submission (e : ctlEvent) : option (string * OpKind * op_request) :=
  match ev_action e with CSubmit n kind r => Some (n, kind, r) | _ => None end.

Notation submissions tr := (omap submission tr).

Definition updated (e : ctlEvent) : option Repository :=
  match ev_action e with CUpdate repo => Some repo | _ => None end.

Lemma asked o tr x : runs (req o) tr x -> tr = [Ev (I := ctlI) o x].
Proof. intros H. exact (proj1 (runs_call (I := ctlI) o tr x) H). Qed.

(** A program that submits nothing. *)
Definition idle {A} (p : ctl A) : Prop := forall tr a, runs p tr a -> submissions tr = [].

Ltac idly := unfold idle, req; intros tr a H; run_all H; done.

Lemma recordOutcome_idle repo out : idle (recordOutcome repo out).
Proof. unfold recordOutcome, emitOutcomeEvent. idly. Qed.
Lemma resolveLocation_idle repo : idle (resolveLocation repo).
Proof. unfold resolveLocation. idly. Qed.
Lemma resolvePlatformDEK_idle loc : idle (resolvePlatformDEK loc).
Proof. unfold resolvePlatformDEK. idly. Qed.
Lemma reconcileProbe_idle repo loc : idle (reconcileProbe repo loc).
Proof.
  unfold reconcileProbe, idle. intros tr a H. destruct (negb hasProber); [run_all H; done|].
  apply runs_bind in H as (tr1 & trx & taken & -> & H1 & H). apply runs_bind in H as (tr2 & tr3 & applied & -> & H2 & H3).
  assert (submissions tr1 = []) as E1 by (by apply asked in H1 as ->).
  assert (submissions tr2 = []) as E2.
  { unfold applyProbe, req in H2. destruct (fst taken) as [[stats|e]|]; run_all H2; done. }
  assert (submissions tr3 = []) as E3 by (unfold measureAgain, buildProber, req in H3; run_all H3; done).
  by rewrite !omap_app, E1, E2, E3.
Qed.

(** What a submission of the repository must be. *)
Definition submits (repo : Repository) (due : maintenanceDue) (tr : list ctlEvent) : Prop :=
  submissions tr = [] \/
  exists r, submissions tr = [(rp_Name repo, due_kind due, r)] /\ rq_Op r = due_op due
    /\ Ev (I := ctlI) (CMark (rp_Name repo) (due_op due)) true ∈ tr.

Lemma submits_app repo due tr1 tr2 tr3 :
  submissions tr1 = [] -> submissions tr3 = [] -> submits repo due tr2 -> submits repo due (tr1 ++ tr2 ++ tr3).
Proof.
  unfold submits. rewrite !omap_app. intros -> ->. rewrite app_nil_r. cbn. intros [H|(r & H1 & H2 & H3)]; [by left|right].
  exists r. split_and!; [done..|]. rewrite !elem_of_app. tauto.
Qed.

Lemma submit_submits repo loc due tr err : runs (submit repo loc due) tr err -> submits repo due tr.
Proof.
  unfold submit. destruct (operationArgs loc (due_op due)) as [argv|e]; [|intros [-> _]; by left].
  intros (tr1 & tr2 & dek & -> & H1 & H2)%runs_bind. apply resolvePlatformDEK_idle in H1.
  rewrite <-(app_nil_r tr2). apply submits_app; [done..|]. unfold start, req in H2. run_all H2; try by left.
  all: right; eexists; split_and!; try done;
    match goal with H : negb ?x = false |- _ => destruct x; [|done] end; rewrite !elem_of_cons; auto.
Qed.

(** An operation a pass may submit: the reaping of locks, or what is due. *)
Definition warranted (repo : Repository) (loc : MaintainedLocation) (due : maintenanceDue) : Prop :=
  (due_op due = mover_OpUnlock /\ due_kind due = OpUnlock /\ (0 < rs_StaleLocks (rp_Status repo))%Z
   /\ exists now, reapDue now repo = true)
  \/ (exists now m next, ml_Maintenance loc = Some m /\ nextDue now repo loc m = (Some due, next)).

Lemma decide_submits repo loc tr r :
  runs (decide_and_submit repo loc) tr r ->
  submissions tr = [] \/ exists due, warranted repo loc due /\ submits repo due tr.
Proof.
  unfold decide_and_submit. intros (tr1 & trx & now & -> & H1%asked & H)%runs_bind. subst tr1.
  destruct ((0 <? rs_StaleLocks (rp_Status repo))%Z && reapDue now repo) eqn:El.
  - apply andb_true_iff in El as [El%Z.ltb_lt Er].
    apply runs_bind in H as (tr2 & tr3 & tick & -> & H2%asked & H). subst tr2.
    apply runs_bind in H as (tr4 & tr5 & err & -> & H%submit_submits & [-> _]).
    right. exists (mkDue mover_OpUnlock OpUnlock tick). split; [left|].
    { split; [|split; [|split; [exact El|by exists now]]]; cbn; reflexivity. }
    apply (submits_app _ _ [_; _] _ []); done.
  - destruct (ml_Maintenance loc) as [m|] eqn:Em; [|destruct H as [-> _]; by left].
    apply runs_bind in H as (tr2 & tr3 & now' & -> & H2%asked & H). subst tr2.
    destruct (nextDue now' repo loc m) as [[due|] next] eqn:En; [|unfold req in H; run_all H; by left].
    apply runs_bind in H as (tr4 & tr5 & err & -> & H%submit_submits & H5).
    right. exists due. split; [right; by eauto 6|].
    apply (submits_app _ _ [_; _] _ tr5); [done| |done]. destruct err; unfold req in H5; run_all H5; done.
Qed.

Lemma recordOutcome_runs repo out tr r :
  runs (recordOutcome repo out) tr r -> match r with Ok repo' => rp_Name repo' = rp_Name repo | Err _ => True end.
Proof. unfold recordOutcome, emitOutcomeEvent, req. intros H. run_all H; done. Qed.

Lemma reconcileProbe_runs repo loc tr r :
  runs (reconcileProbe repo loc) tr r ->
  match r with
  | Ok repo' => rp_Name repo' = rp_Name repo /\ rs_Initialized (rp_Status repo') = rs_Initialized (rp_Status repo)
  | Err _ => True
  end.
Proof.
  unfold reconcileProbe. destruct (negb hasProber); [by intros [_ ->]|].
  intros (tr1 & trx & taken & _ & _ & (tr2 & tr3 & applied & _ & H2 & H3)%runs_bind)%runs_bind.
  assert (match applied with
    | Ok repo' => rp_Name repo' = rp_Name repo /\ rs_Initialized (rp_Status repo') = rs_Initialized (rp_Status repo)
    | Err _ => True
    end) as Ha.
  { unfold applyProbe, req in H2. destruct (fst taken) as [[stats|e]|]; run_all H2; try done; by destruct x. }
  destruct applied as [repo'|e]; [|by destruct H3 as [_ ->]].
  by apply runs_bind in H3 as (? & ? & ? & _ & _ & [_ ->]).
Qed.

Lemma maintain_submits repo tr r :
  runs (maintain repo) tr r ->
  submissions tr = []
  \/ exists repo' loc due, submits repo' due tr /\ warranted repo' loc due /\ rs_Initialized (rp_Status repo') = true
      /\ rp_Name repo = rp_Name repo' /\ Ev (I := ctlI) (CGetLocation (rp_Name repo')) (Ok loc) ∈ tr.
Proof.
  unfold maintain. destruct (rs_Initialized (rp_Status repo)) eqn:Ei; cbn [negb]; [|intros [-> _]; by left].
  intros (tr1 & trx & loc & -> & H1 & H)%runs_bind. pose proof (resolveLocation_idle _ _ _ H1) as E1.
  rewrite omap_app, E1. destruct loc as [[loc|]|e]; [|destruct H as [-> _]; by left..].
  apply runs_bind in H as (tr2 & tr3 & probed & -> & H2 & H). pose proof (reconcileProbe_idle _ _ _ _ H2) as E2.
  apply reconcileProbe_runs in H2. rewrite omap_app, E2. cbn.
  destruct probed as [repo'|e]; [|destruct H as [-> _]; by left]. destruct H2 as [Hn Hi].
  destruct (decide_submits _ _ _ _ H) as [->|(due & Hw & Hs)]; [by left|right].
  exists repo', loc, due. split_and!; [|done|congruence|done|].
  - rewrite app_assoc, <-(app_nil_r tr3). apply submits_app; [by rewrite omap_app, E1, E2|done|done].
  - unfold resolveLocation in H1. apply runs_bind in H1 as (t1 & t2 & x & -> & Hx%asked & [-> Hl]). subst t1.
    rewrite Hn. destruct x as [loc'|e]; [injection Hl as ->; set_solver|]. by destruct (IsNotFound e).
Qed.

(** A pass submits at most one operation, and only for a repository that is not
    being deleted, exists on the far end, has its location, and has nothing in
    flight as the tracker said; the operation is the reaping of stale locks, due
    and needed, or what [nextDue] chose from the status the pass last saw, and the
    mark it holds excludes any other. *)
Theorem reconcileMaintenance_submits (name : string) tr r :
  runs (reconcileMaintenance name) tr r ->
  submissions tr = []
  \/ exists repo loc due out, submits repo due tr /\ warranted repo loc due /\ rs_Initialized (rp_Status repo) = true
      /\ Ev (I := ctlI) (CTake (rp_Name repo)) (out, false) ∈ tr
      /\ Ev (I := ctlI) (CGetLocation (rp_Name repo)) (Ok loc) ∈ tr
      /\ exists read, Ev (I := ctlI) (CGet name) (Ok read) ∈ tr /\ rp_Deleting read = false.
Proof.
  unfold reconcileMaintenance. intros (tr1 & trx & got & -> & H1%asked & H)%runs_bind. subst tr1.
  destruct got as [read|e]; [|destruct H as [-> _]; by left].
  destruct (rp_Deleting read) eqn:Edel; [destruct H as [-> _]; by left|].
  apply runs_bind in H as (tr2 & try & [out running] & -> & H2%asked & H). subst tr2. cbn [fst snd] in H.
  apply runs_bind in H as (tr3 & trz & recorded & -> & H3 & H).
  assert (submissions tr3 = [] /\ match recorded with Ok repo => rp_Name repo = rp_Name read | Err _ => True end) as [E3 Hn].
  { destruct out as [out|]; [|by destruct H3 as [-> ->]]. split; [by eapply recordOutcome_idle|by eapply recordOutcome_runs]. }
  rewrite !omap_app, E3. cbn. destruct recorded as [repo|e]; [|destruct H as [-> _]; by left].
  destruct running; [destruct H as [-> _]; by left|].
  destruct (maintain_submits _ _ _ H) as [->|(repo' & loc & due & Hs & Hw & Hi & Hname & Hl)]; [by left|right].
  rewrite <-Hname, Hn in Hl.
  exists repo', loc, due, out. rewrite <-Hname, Hn. split_and!; [|done..|set_solver|set_solver|].
  - unfold submits in *. cbn. rewrite omap_app, E3. cbn. destruct Hs as [Hs|(r' & Hs1 & Hs2 & Hs3)]; [by left|right].
    exists r'. split_and!; [done..|set_solver].
  - exists read. split; [set_solver|done].
Qed.

Definition readIn (e : ctlEvent) : option Repository :=
  match e with Ev (CGet _) (Ok repo) => Some repo | _ => None end.
Definition takenIn (e : ctlEvent) : option maintenanceOutcome :=
  match e with Ev (CTake _) x => fst x | _ => None end.

(** An outcome the tracker hands over is written at once: the next request of the
    pass is the status update with it, then the event that reports it; and when
    that write is refused, the pass ends there with the error. *)
Theorem taken_outcome_written (name : string) (read : Repository) (out : maintenanceOutcome) e1 e2 tail r :
  runs (reconcileMaintenance name) (e1 :: e2 :: tail) r -> readIn e1 = Some read -> takenIn e2 = Some out ->
  exists err rest,
    tail = Ev (I := ctlI) (CUpdate (applyOutcomeToStatus out (out_endedAt out) read)) err :: rest
    /\ match err with
       | Some e => rest = [] /\ exists text, r = Err (wrap_err text e)
       | None => exists rest', rest = Ev (I := ctlI)
           (CEvent (match out_err out with Some _ => "Warning" | None => "Normal" end) (outcomeReason out)) tt :: rest'
       end.
Proof.
  unfold reconcileMaintenance. intros (tr1 & trx & got & Htr & H1%asked & H)%runs_bind Hread Htaken. subst tr1.
  injection Htr as -> <-. cbn in Hread. destruct got as [repo|e]; [|done]. injection Hread as ->.
  destruct (rp_Deleting read); [by destruct H|].
  apply runs_bind in H as (tr2 & try & taken & Htr & H2%asked & H). subst tr2. injection Htr as -> <-.
  cbn in Htaken. rewrite Htaken in H. apply runs_bind in H as (tr3 & trz & recorded & -> & H3 & H).
  apply runs_bind in H3 as (tr4 & tr5 & err & -> & H4%asked & H5). subst tr4. cbn. exists err.
  destruct err as [e|].
  - destruct H5 as [-> ->]. destruct H as [-> ->]. exists []. split; [done|]. split; [done|]. by eexists.
  - apply runs_bind in H5 as (tr6 & tr7 & [] & -> & H6%asked & [-> ->]). subst tr6. eexists. split; [done|]. by eexists.
Qed.

End Controller.

(** ** Witnesses *)

#[local] Existing Instance MapConditionStore.

Definition wit_stats : @RepositoryStatus MapConditionStore :=
  mkRepositoryStatus true "s3:bucket/repo" 1 0 [] None None "" ∅.
Definition wit_repo : @Repository MapConditionStore := mkRepository "loc" "uid" 0 1 false wit_stats.
Definition wit_loc (m : option MaintenanceSpec) : MaintainedLocation :=
  mkMaintainedLocation "loc" false "cid" "" "creds" "kek" None m.
Definition wit_spec : MaintenanceSpec := mkMaintenanceSpec "* * * * *" "* * * * *" "" "" "".
Definition wit_parse (expr tz : string) : result Schedule := Ok everyMinute.

Notation wit_step := (step wit_parse "ops" false id).
Notation wit_reconcile := (reconcileMaintenance wit_parse "ops" false id).

(** The answers of a cluster with a stale lock, on which everything succeeds. *)
Definition wit_ctl_server (repo : Repository) (loc : MaintainedLocation) (taken : option maintenanceOutcome * bool)
    (written : option gerr) : server ctlI :=
  fun _ o =>
    match o return ctl_answer o with
    | CGet _ => Ok repo
    | CGetLocation _ => Ok loc
    | CReadSecret _ _ _ | CEnsureDEK _ => Ok "secret"
    | CUpdate _ => written
    | CNewProber _ _ _ | CAgeIdentity _ | CSubmit _ _ _ => None
    | CNow => hour
    | CTake _ => taken
    | CTakeProbe _ => (None, false)
    | CProbeDue _ _ _ | CMark _ _ => true
    | CStartProbe _ _ _ | CUnmark _ | CWatch _ _ _ | CEvent _ _ => tt
    end.

Definition wit_pass : list (event ctlI) * result Z :=
  exec (wit_ctl_server wit_repo (wit_loc None) (None, false) None) (wit_reconcile "loc") [].

Lemma reconcileMaintenance_submits_witness :
  map (fun s => fst (fst s)) (omap submission (fst wit_pass)) = ["loc"] /\ snd wit_pass = Ok maintenanceWatchdogInterval
  /\ exists repo : Repository, rs_Initialized (rp_Status repo) = true.
Proof.
  split; [by vm_compute|]. split; [by vm_compute|].
  destruct (reconcileMaintenance_submits wit_parse "ops" false id "loc" _ _
    (exec_runs (wit_ctl_server wit_repo (wit_loc None) (None, false) None) _ [])) as [H|(repo & _ & _ & _ & _ & _ & Hi & _)].
  - exfalso. revert H. by vm_compute.
  - by exists repo.
Defined.

Definition wit_outcome : maintenanceOutcome := mkOutcome mover_OpCheck minute hour (Some (errorf "pack damaged")).
Definition wit_conflict : gerr := mkErr EConflict "the object has been modified".
Definition wit_lost : list (event ctlI) * result Z :=
  exec (wit_ctl_server wit_repo (wit_loc None) (Some wit_outcome, false) (Some wit_conflict)) (wit_reconcile "loc") [].

Lemma taken_outcome_written_witness :
  List.length (fst wit_lost) = 3 /\ exists err rest, skipn 2 (fst wit_lost)
    = Ev (I := ctlI) (CUpdate (applyOutcomeToStatus wit_outcome hour wit_repo)) err :: rest.
Proof.
  split; [by vm_compute|].
  destruct (taken_outcome_written wit_parse "ops" false id "loc" wit_repo wit_outcome
    (Ev (I := ctlI) (CGet "loc") (Ok wit_repo)) (Ev (I := ctlI) (CTake "loc") (Some wit_outcome, false))
    (skipn 2 (fst wit_lost)) (snd wit_lost)) as (err & rest & H & _).
  - exact (exec_runs (wit_ctl_server wit_repo (wit_loc None) (Some wit_outcome, false) (Some wit_conflict)) _ []).
  - reflexivity.
  - reflexivity.
  - by exists err, rest.
Defined.

(** The conflict costs the outcome: the pass has taken it out of the tracker, and
    nothing else remembers it; the next pass finds nothing to record. *)
Lemma refused_outcome_is_lost (t : maintenanceTracker) :
  snd wit_lost = Err (wrap_err "record check outcome on repository loc" wit_conflict)
  /\ results (snd (take t "loc")) !! "loc" = None
  /\ fst (fst (take (snd (take t "loc")) "loc")) = None.
Proof. split; [by vm_compute|]. cbn. by rewrite lookup_delete_eq. Qed.

(** The history is shared by the operations: ten prunes push the record of the last
    check out of it, its baseline falls back to the creation of the repository, and
    a check that ran a quarter of an hour ago is due again though its schedule only fires
    hourly. *)
Definition everyHour : Schedule := mkSchedule (fun t => (t / hour + 1) * hour)%Z.
Definition wit_history (prunes : nat) : list MaintenanceRecord :=
  (repeat (mkMaintenanceRecord mover_OpPrune (3 * hour + 6 * minute) None MaintenanceSucceeded "") prunes
   ++ [mkMaintenanceRecord mover_OpCheck (3 * hour + 5 * minute) None MaintenanceSucceeded ""])%list.
Definition wit_aged (prunes : nat) : @Repository MapConditionStore :=
  set_rp_status (mkRepositoryStatus true "s3:bucket/repo" 0 0
    (firstn maintenanceHistoryLimit (wit_history prunes)) None None "" ∅) wit_repo.

Lemma evicted_check_is_due_again :
  let now := (3 * hour + 20 * minute)%Z in
  let due prunes := fst (nextDue (fun _ _ => Ok everyHour) now (wit_aged prunes) (wit_loc None)
                           (mkMaintenanceSpec "" "0 * * * *" "" "" "")) in
  due 9 = None /\ option_map due_op (due 10) = Some mover_OpCheck.
Proof. vm_compute. split; reflexivity. Qed.

Lemma wit_parsed expr cron :
  wit_parse expr "" = Ok cron -> CronLaws cron (fun t => t mod minute = 0)%Z /\ unending cron.
Proof. intros [= <-]. split; [apply everyMinute_laws|apply everyMinute_unending]. Qed.

Lemma wit_repo_baselines op : (zero_time <= lastAttempt wit_repo op)%Z.
Proof. by vm_compute. Qed.

Lemma nextDue_spec_witness :
  match nextDue wit_parse hour wit_repo (wit_loc (Some wit_spec)) wit_spec with
  | (Some due, _) => due_op due = mover_OpPrune /\ (0 < due_tick due <= hour)%Z
  | (None, _) => False
  end.
Proof.
  pose proof (nextDue_spec wit_parse hour wit_repo (wit_loc (Some wit_spec)) wit_spec
    (fun _ t => t mod minute = 0)%Z wit_parsed wit_repo_baselines ltac:(by vm_compute)) as H.
  assert (option_map due_op (fst (nextDue wit_parse hour wit_repo (wit_loc (Some wit_spec)) wit_spec)) = Some mover_OpPrune)
    as E by by vm_compute.
  destruct (nextDue _ _ _ _ _) as [[due|] next]; [|discriminate]. injection E as E.
  destruct H as (expr & _ & _ & _ & Hr & _). rewrite E in Hr. split; [exact E|].
  pose proof (jitter_range wit_repo mover_OpPrune).
  assert (lastAttempt wit_repo mover_OpPrune = 0%Z) as Hl by reflexivity. lia.
Defined.

Definition wit_failed_prune : maintenanceOutcome :=
  mkOutcome mover_OpPrune (30 * minute) (31 * minute) (Some (errorf "bucket unreachable")).

Lemma attempt_not_repeated_witness :
  match nextDue wit_parse hour (applyOutcomeToStatus wit_failed_prune (31 * minute) wit_repo) (wit_loc (Some wit_spec)) wit_spec with
  | (Some due, _) => (30 * minute < due_tick due <= hour)%Z
  | (None, _) => False
  end.
Proof.
  assert (option_map due_op (fst (nextDue wit_parse hour (applyOutcomeToStatus wit_failed_prune (31 * minute) wit_repo)
    (wit_loc (Some wit_spec)) wit_spec)) = Some mover_OpPrune) as Ho by by vm_compute.
  destruct (nextDue _ _ _ _ _) as [[due|] next] eqn:E; [|discriminate]. injection Ho as Ho.
  apply (attempt_not_repeated wit_parse hour (31 * minute) wit_failed_prune wit_repo (wit_loc (Some wit_spec)) wit_spec
    (fun _ t => t mod minute = 0)%Z due next wit_parsed).
  - intros op. rewrite lastAttempt_applied. by destruct (out_op wit_failed_prune =? op).
  - by vm_compute.
  - exact E.
  - exact Ho.
Defined.

Definition wit_reaped (failures : nat) : Repository :=
  set_rp_status (mkRepositoryStatus true "s3:bucket/repo" 1 0
    (repeat (mkMaintenanceRecord mover_OpUnlock hour None MaintenanceFailed "stuck") failures) None None "" ∅) wit_repo.

Lemma reapDue_spec_witness :
  reapDue (2 * hour) (wit_reaped 2) = true /\ reapDue (2 * hour - 1) (wit_reaped 2) = false
  /\ reapDue (9 * hour) (wit_reaped 3) = false.
Proof.
  split_and!; [|by vm_compute..]. apply (reapDue_spec (2 * hour) (wit_reaped 2)).
  - repeat constructor; by vm_compute.
  - split; [vm_compute; lia|by vm_compute].
Defined.

Lemma applyOutcomeToStatus_spec_witness :
  IsConditionTrue (rs_Conditions (rp_Status (applyOutcomeToStatus wit_outcome hour wit_repo))) ConditionRepositoryCheckFailed
  = true.
Proof.
  destruct (applyOutcomeToStatus_spec wit_outcome hour wit_repo) as (_ & _ & _ & _ & H & _).
  apply H. reflexivity.
Defined.

(** The next request of a pass. *)
Lemma step_next s name (p : prog ctlI (result Z)) :
  s_passes s !! name = Some p ->
  match p with
  | Do o k => forall x t', answers (s_tracker s) o x t' ->
      wit_step s (mkSystem t' (spawned o ++ s_waiting s) (<[name := k x]> (s_passes s)) (spawned o ++ s_started s)
                    (consumed o x ++ s_taken s))
  | Done _ => True
  end.
Proof. intros H. destruct p as [|o k]; [done|]. intros x t' Hx. by apply step_request. Qed.

Ltac asks x :=
  eapply rtc_l;
  [ lazymatch goal with |- step _ _ _ _ ?s _ =>
      let H := fresh in pose proof (step_next s "loc" _ (lookup_insert_eq _ _ _)) as H; cbn in H;
      eapply (H x); first [split; reflexivity | reflexivity] end
  | cbn ].

(** A pass that reaps a stale lock, request by request. *)
Lemma wit_reachable :
  exists s, reachable wit_parse "ops" false id s /\ s_waiting s = [mkWatch "loc" mover_OpUnlock hour].
Proof.
  eexists. split.
  - unfold reachable. eapply rtc_l; [apply (step_begin _ _ _ _ _ "loc"); reflexivity|].
    asks (Ok wit_repo). asks (@None maintenanceOutcome, false). asks (Ok (wit_loc None)). asks hour. asks hour.
    asks (Ok "key"). asks (@None gerr). asks (Ok "dek"). asks hour. asks true. asks (@None gerr). asks tt.
    apply rtc_refl.
  - reflexivity.
Qed.

Lemma one_operation_per_repository_witness :
  exists s, s_waiting s = [mkWatch "loc" mover_OpUnlock hour]
    /\ reachable wit_parse "ops" false id s /\ inFlight (s_tracker s) !! "loc" <> None.
Proof.
  destruct wit_reachable as (s & Hs & Hw). exists s. split; [exact Hw|]. split; [exact Hs|].
  destruct (one_operation_per_repository wit_parse "ops" false id s Hs) as [H _].
  apply (H "loc"). unfold waitingFor. rewrite Hw. discriminate.
Defined.
