(* ===== verification/Erasure.v ===== *)
(** * Erasure: the physical removal of a tenant's, a namespace's or a claim's data
    (internal/controller/clustererasure_controller.go)

    One pass over a ClusterErasure as a program: the gates before the work, the
    measure of its scope, the one queued operation that forgets and prunes, and the
    record of what went.  The handle of the operation is memory of the process: a
    pass is given whether there is one and returns whether there still is.
    [life] strings passes together with restarts, lost writes and edits in between. *)

From Stdlib Require Import Ascii String.
From S2P Require Import Prelude GoText Cluster Status Restic RepoQueue MaintenanceJob Maintenance Program.

#[local] Open Scope string_scope.

(** ** Constants *)

Definition erasurePhasePending : string := "Pending".
Definition erasurePhaseAwaiting : string := "AwaitingConfirmation".
Definition erasurePhaseRunning : string := "Running".
Definition erasurePhaseCompleted : string := "Completed".
Definition erasurePhaseBlocked : string := "Blocked".
Definition erasurePhaseFailed : string := "Failed".
Definition erasureRequeueInterval : Z := (15 * second)%Z.
Definition erasureBlockedRecheck : Z := hour.
Definition conditionErasureComplete : string := "ErasureComplete".

(** ** Objects *)

Section Erasure.
Context `{CS : ConditionStore}.

Record ClusterErasureStatus := mkErasureStatus {
  es_Phase : string;
  es_SnapshotsTargeted : Z;
  es_SnapshotsForgotten : Z;
  es_SnapshotsRemaining : Z;
  es_ReclaimedBytes : Z;
  es_Conditions : conditions
}.

Record ClusterErasure := mkClusterErasure {
  ce_Name : string;
  ce_Generation : Z;
  ce_Location : string;
  ce_Target : ErasureTarget;
  ce_Confirmation : string;
  ce_Status : ClusterErasureStatus
}.

Definition set_ce_status (s : ClusterErasureStatus) (er : ClusterErasure) : ClusterErasure :=
  mkClusterErasure (ce_Name er) (ce_Generation er) (ce_Location er) (ce_Target er) (ce_Confirmation er) s.

Definition set_phase (phase : string) (er : ClusterErasure) : ClusterErasure :=
  let s := ce_Status er in
  set_ce_status (mkErasureStatus phase (es_SnapshotsTargeted s) (es_SnapshotsForgotten s) (es_SnapshotsRemaining s)
                   (es_ReclaimedBytes s) (es_Conditions s)) er.

Definition set_condition (condType st reason message : string) (er : ClusterErasure) : ClusterErasure :=
  let s := ce_Status er in
  set_ce_status (mkErasureStatus (es_Phase s) (es_SnapshotsTargeted s) (es_SnapshotsForgotten s) (es_SnapshotsRemaining s)
                   (es_ReclaimedBytes s) (SetCondition (es_Conditions s) condType st reason message (ce_Generation er))) er.

Definition stampErasureRecord (rec : ErasureRecord) (er : ClusterErasure) : ClusterErasure :=
  let s := ce_Status er in
  set_ce_status (mkErasureStatus (es_Phase s) (er_Targeted rec) (er_Forgotten rec) (er_Remaining rec)
                   (es_ReclaimedBytes s) (es_Conditions s)) er.

Definition erasureTargetedScope (er : ClusterErasure) : Z :=
  let s := ce_Status er in
  if ((es_SnapshotsTargeted s =? 0) && (0 <? es_SnapshotsForgotten s))%Z then es_SnapshotsForgotten s
  else es_SnapshotsTargeted s.

Definition erasureConfirmationFor (t : ErasureTarget) : string :=
  if negb (et_Namespace t =? "") && negb (et_PVC t =? "") then et_Namespace t ++ "/" ++ et_PVC t
  else if negb (et_Namespace t =? "") then et_Namespace t
  else et_Tenant t.

Definition erasurePruneMaxRepackSize (loc : MaintainedLocation) : string :=
  match ml_Maintenance loc with None => "" | Some m => ms_PruneMaxRepackSize m end.

Definition erasureResourceName (erasure step : string) : string := "er-" ++ erasure ++ "-" ++ step.
Definition erasureCountJobName (erasure : string) : string := "er-" ++ erasure ++ "-count".
Definition erasureVerifyJobName (erasure : string) : string := "er-" ++ erasure ++ "-verify".

(** ** Requests *)

Inductive erase_action :=
| XGet
| XGetLocation (name : string)
| XGetRepository (name : string)
| XListFiltered (repo job : string) (tags : list string)        (* the snapshots, by their number *)
| XReadSecret (ns name dataKey : string)
| XAgeIdentity (identity : string)
| XEnsureDEK (location : string)
| XEnqueue (repo : string) (kind : OpKind) (steps : list op_request)
| XPoll                                                         (* the handle: is it done, and with which error *)
| XStatusUpdate (er : ClusterErasure)
| XEvent (etype reason : string)
| XRecordCompleted (location cluster : string) (forgotten reclaimed : Z).

Definition erase_answer (o : erase_action) : Type :=
  match o with
  | XGet => result ClusterErasure
  | XGetLocation _ => result MaintainedLocation
  | XGetRepository _ => result Repository
  | XListFiltered _ _ _ => result nat
  | XReadSecret _ _ _ | XEnsureDEK _ => result string
  | XAgeIdentity _ | XEnqueue _ _ _ | XStatusUpdate _ => option gerr
  | XPoll => option (option gerr)
  | XEvent _ _ | XRecordCompleted _ _ _ _ => ()
  end.

Definition eraseI : interface := mkInterface erase_action erase_answer.
Notation eraseP := (prog eraseI).
Notation act := (event eraseI).
Definition erase (o : erase_action) : eraseP (erase_answer o) := call (I := eraseI) o.

(** The requeue of a pass, zero for none, or its error; and whether a handle is kept. *)
Notation outcome := (bool * result Z)%type.

Variable Quote : string -> string.
Variable OperatorNamespace : string.

(** ** The ends of a pass *)

Definition updateError (er : ClusterErasure) (e : gerr) : gerr := wrap_err ("update status for ClusterErasure " ++ ce_Name er) e.

Definition parkAt (h : bool) (er : ClusterErasure) (phase reason message : string) (after : Z) : eraseP outcome :=
  let er := set_condition ConditionReady ConditionFalse reason message (set_phase phase er) in
  let! err := erase (XStatusUpdate er) in
  Done (h, match err with Some e => Err (updateError er e) | None => Ok after end).

Definition park (h : bool) (er : ClusterErasure) (phase reason message : string) : eraseP outcome :=
  parkAt h er phase reason message erasureRequeueInterval.

Definition fail (h : bool) (er : ClusterErasure) (reason message : string) : eraseP outcome :=
  let er := set_phase erasurePhaseFailed er in
  let er := set_condition ConditionReady ConditionFalse reason message er in
  let er := set_condition conditionErasureComplete ConditionFalse reason message er in
  let! _ := erase (XEvent "Warning" "ErasureFailed") in
  let! err := erase (XStatusUpdate er) in
  Done (h, match err with Some e => Err (updateError er e) | None => Ok 0%Z end).

Definition complete (h : bool) (er : ClusterErasure) (loc : MaintainedLocation) (message : string) : eraseP outcome :=
  let justCompleted := negb (es_Phase (ce_Status er) =? erasurePhaseCompleted) in
  let er := set_phase erasurePhaseCompleted er in
  let er := set_condition ConditionReady ConditionTrue "Erased" message er in
  let er := set_condition conditionErasureComplete ConditionTrue "Erased" message er in
  let! _ := erase (XEvent "Normal" "ErasureCompleted") in
  let! err := erase (XStatusUpdate er) in
  match err with
  | Some e => Done (h, Err (updateError er e))
  | None =>
      if justCompleted then
        let! _ := erase (XRecordCompleted (ce_Location er) (ml_ClusterID loc) (es_SnapshotsForgotten (ce_Status er))
                           (es_ReclaimedBytes (ce_Status er))) in
        Done (h, Ok 0%Z)
      else Done (h, Ok 0%Z)
  end.

(** ** The work *)

(** [resolvePlatformDEK], with the reason it gives beside an error. *)
Definition erasureDEK (loc : MaintainedLocation) : eraseP (string * result string) :=
  let kek := OperatorNamespace ++ "/" ++ ml_KEKSecret loc in
  let! identity := erase (XReadSecret OperatorNamespace (ml_KEKSecret loc) "identity") in
  match identity with
  | Err e => Done ("KEKUnavailable", Err (wrap_err ("read cluster KEK secret " ++ kek) e))
  | Ok identity =>
      let! bad := erase (XAgeIdentity identity) in
      match bad with
      | Some e => Done ("KEKInvalid", Err (wrap_err ("parse cluster KEK secret " ++ kek) e))
      | None =>
          let! dek := erase (XEnsureDEK (ml_Name loc)) in
          Done (match dek with
                | Ok dek => ("", Ok dek)
                | Err e => ("DEKUnavailable", Err (wrap_err ("ensure platform DEK for location " ++ ml_Name loc) e))
                end)
      end
  end.

(** The two steps of the queued operation: the second runs when the first succeeded. *)
Definition erasureSteps (er : ClusterErasure) (loc : MaintainedLocation) (repo : Repository) (dek : string)
    (forgetArgs pruneArgs : list string) : list op_request :=
  let url := rs_RepositoryURL (rp_Status repo) in
  [mkOpRequest (erasureResourceName (ce_Name er) "forget") mover_OpForget forgetArgs url dek (ml_CredsSecret loc) "" (ml_S3Connections loc);
   mkOpRequest (erasureResourceName (ce_Name er) "prune") mover_OpPrune pruneArgs url dek (ml_CredsSecret loc) "" (ml_S3Connections loc)].

Definition observeErasureResidue (er : ClusterErasure) (repo : Repository) (filterTags : list string)
    : eraseP (ErasureRecord * string) :=
  let targeted := erasureTargetedScope er in
  let! snaps := erase (XListFiltered (rp_Name repo) (erasureVerifyJobName (ce_Name er)) filterTags) in
  match snaps with
  | Err e =>
      Done (ErasureResidueUnverifiable targeted,
            "the residue could not be listed (" ++ err_text e ++ "), so this record claims no destruction: treat all "
              ++ Itoa targeted ++ " targeted snapshot(s) as still present until a re-run establishes otherwise")
  | Ok snaps =>
      let remaining := int32 (Z.of_nat snaps) in
      let rec := ErasureResidueObserved targeted remaining in
      if negb (ErasureRecord_SumsUp rec) then
        let! _ := erase (XEvent "Warning" "ErasureScopeGrew") in
        Done (rec, Itoa remaining ++ " snapshot(s) match the target where " ++ Itoa targeted
                ++ " were measured, so nothing is claimed as forgotten; new data matching the target has been written since")
      else
        Done (rec, Itoa (er_Forgotten rec) ++ " of " ++ Itoa targeted ++ " snapshot(s) were forgotten before the failure; "
                ++ Itoa (er_Remaining rec) ++ " remain")
  end.

(** The scope is measured before anything goes. *)
Definition measureScope (h : bool) (er : ClusterErasure) (loc : MaintainedLocation) (repo : Repository) (filterTags : list string)
    : eraseP outcome :=
  let! snaps := erase (XListFiltered (rp_Name repo) (erasureCountJobName (ce_Name er)) filterTags) in
  match snaps with
  | Err e => park h er erasurePhasePending "ScopeUnreadable"
               ("could not list the snapshots this erasure would remove: " ++ err_text e)
  | Ok snaps =>
      let targeted := int32 (Z.of_nat snaps) in
      if (targeted =? 0)%Z then
        complete h (stampErasureRecord (ErasureFullyForgotten 0) er) loc "nothing matched the target; no snapshot was removed"
      else
        let er := set_phase erasurePhaseRunning (stampErasureRecord (ErasureScopeMeasured targeted) er) in
        let er := set_condition ConditionReady ConditionFalse "Erasing"
                    ("erasing " ++ Itoa targeted ++ " snapshot(s) from repository " ++ rp_Name repo) er in
        let! err := erase (XStatusUpdate er) in
        Done (h, match err with Some e => Err (updateError er e) | None => Ok erasureRequeueInterval end)
  end.

(** No operation in flight: one is queued. *)
Definition enqueueErasure (er : ClusterErasure) (loc : MaintainedLocation) (repo : Repository) : eraseP outcome :=
  match ErasureForgetArgs (ce_Target er) with
  | Err e => fail false er "InvalidTarget" (err_text e)
  | Ok forgetArgs =>
      match PruneCommand Quote (erasurePruneMaxRepackSize loc) with
      | Err e => fail false er "InvalidPruneOptions" (err_text e)
      | Ok pruneArgs =>
          let! dek := erasureDEK loc in
          match dek with
          | (reason, Err e) => park false er erasurePhaseRunning reason (err_text e)
          | (_, Ok dek) =>
              let! err := erase (XEnqueue (rp_Name repo) OpPrune (erasureSteps er loc repo dek forgetArgs pruneArgs)) in
              match err with
              | Some _ => Done (false, Ok erasureRequeueInterval)
              | None => let! _ := erase (XEvent "Warning" "ErasureStarted") in Done (true, Ok erasureRequeueInterval)
              end
          end
      end
  end.

(** An operation in flight: its end is recorded. *)
Definition settleErasure (er : ClusterErasure) (loc : MaintainedLocation) (repo : Repository) (filterTags : list string)
    : eraseP outcome :=
  let! done := erase XPoll in
  match done with
  | None => Done (true, Ok erasureRequeueInterval)
  | Some (Some e) =>
      let! residue := observeErasureResidue er repo filterTags in
      let '(rec, note) := residue in
      fail false (stampErasureRecord rec er) "ErasureFailed" (err_text e ++ " (" ++ note ++ ")")
  | Some None =>
      let rec := ErasureFullyForgotten (erasureTargetedScope er) in
      complete false (stampErasureRecord rec er) loc (Itoa (er_Forgotten rec) ++ " snapshot(s) forgotten and their space pruned")
  end.

Definition drive (h : bool) (er : ClusterErasure) (loc : MaintainedLocation) (repo : Repository) (filterTags : list string)
    : eraseP outcome :=
  if negb (es_Phase (ce_Status er) =? erasurePhaseRunning) then measureScope h er loc repo filterTags
  else if h then settleErasure er loc repo filterTags
  else enqueueErasure er loc repo.

(** ** The gates *)

(** From the location on. *)
Definition locate (h : bool) (er : ClusterErasure) (filterTags : list string) : eraseP outcome :=
  let! loc := erase (XGetLocation (ce_Location er)) in
  match loc with
  | Err e =>
      if IsNotFound e then
        park h er erasurePhasePending "LocationNotFound" ("ClusterBackupLocation " ++ Quote (ce_Location er) ++ " not found")
      else Done (h, Err (wrap_err ("get ClusterBackupLocation " ++ ce_Location er) e))
  | Ok loc =>
      if ml_Immutable loc then
        let blocked := parkAt h er erasurePhaseBlocked "ImmutableLocation"
          "the location is Immutable: object lock forbids deletion until expiry, so nothing has been erased" erasureBlockedRecheck in
        if negb (es_Phase (ce_Status er) =? erasurePhaseBlocked)
        then let! _ := erase (XEvent "Warning" "ErasureBlocked") in blocked
        else blocked
      else
        let! repo := erase (XGetRepository (ml_Name loc)) in
        match repo with
        | Ok repo =>
            if rs_Initialized (rp_Status repo) then drive h er loc repo filterTags
            else park h er erasurePhasePending "RepositoryNotReady"
                   ("BackupRepository " ++ Quote (ml_Name loc) ++ " is not initialized yet")
        | Err _ => park h er erasurePhasePending "RepositoryNotReady"
                     ("BackupRepository " ++ Quote (ml_Name loc) ++ " is not initialized yet")
        end
  end.

Definition reconcileErasure (h : bool) : eraseP outcome :=
  let! er := erase XGet in
  match er with
  | Err e => Done (h, if IsNotFound e then Ok 0%Z else Err e)
  | Ok er =>
      let phase := es_Phase (ce_Status er) in
      if (phase =? erasurePhaseCompleted) || (phase =? erasurePhaseFailed) then Done (h, Ok 0%Z)
      else
        match ErasureFilterTags (ce_Target er) with
        | None => fail h er "InvalidTarget"
                    "spec.target selects nothing: set tenant, namespace, or namespace+pvc (a bare pvc is not an identity)"
        | Some filterTags =>
            let want := erasureConfirmationFor (ce_Target er) in
            if ce_Confirmation er =? "" then
              park h er erasurePhaseAwaiting "AwaitingConfirmation"
                ("this will PERMANENTLY remove every snapshot matching [" ++ String.concat " " filterTags ++ "] from location "
                   ++ Quote (ce_Location er) ++ ". To proceed, set spec.confirmation to " ++ Quote want)
            else if ce_Confirmation er =? want then locate h er filterTags
            else fail h er "ConfirmationMismatch"
                   ("spec.confirmation " ++ Quote (ce_Confirmation er) ++ " does not match the target identity " ++ Quote want)
        end
  end.
End Erasure.

(** ** What one pass does *)

Section Facts.
Context `{CS : ConditionStore}.
Context (Quote : string -> string) (OperatorNamespace : string).

Notation eraseP := (prog eraseI).
Notation act := (event eraseI).
Notation outcome := (bool * result Z)%type.
Notation reconcile := (reconcileErasure Quote OperatorNamespace).

Lemma erase_runs o tr x : runs (erase o) tr x <-> tr = [Ev (I := eraseI) o x].
Proof. apply (runs_call (I := eraseI)). Qed.

(** Takes the first request, or sub-program, off the program of a hypothesis. *)
Ltac walk H := walk_with ltac:(fun R => apply erase_runs in R) H.

Notation phaseOf er := (es_Phase (ce_Status er)).
Definition recordOf (er : ClusterErasure) : ErasureRecord :=
  mkErasureRecord (es_SnapshotsTargeted (ce_Status er)) (es_SnapshotsForgotten (ce_Status er)) (es_SnapshotsRemaining (ce_Status er)).

(** The ends of a pass write once, the record they were given. *)
Lemma parkAt_writes h er phase reason message after tr o :
  runs (parkAt h er phase reason message after) tr o ->
  fst o = h /\ exists er' w, tr = [Ev (I := eraseI) (XStatusUpdate er') w] /\ recordOf er' = recordOf er /\ phaseOf er' = phase.
Proof. intros H. unfold parkAt in H. walk H. destruct H as [-> ->]. split; [done|]. by eexists _, _. Qed.

Lemma fail_writes h er reason message tr o :
  runs (fail h er reason message) tr o ->
  fst o = h /\ exists er' w, tr = [Ev (I := eraseI) (XEvent "Warning" "ErasureFailed") tt; Ev (I := eraseI) (XStatusUpdate er') w]
    /\ recordOf er' = recordOf er /\ phaseOf er' = erasurePhaseFailed.
Proof. intros H. unfold fail in H. walk H. destruct x. walk H. destruct H as [-> ->]. split; [done|]. by eexists _, _. Qed.

Lemma complete_writes h er loc message tr o :
  runs (complete h er loc message) tr o ->
  fst o = h /\ exists er' w rest, tr = (Ev (I := eraseI) (XEvent "Normal" "ErasureCompleted") tt :: Ev (I := eraseI) (XStatusUpdate er') w :: rest)%list
    /\ recordOf er' = recordOf er /\ phaseOf er' = erasurePhaseCompleted
    /\ (rest = [] \/ w = None /\ rest = [Ev (I := eraseI) (XRecordCompleted (ce_Location er) (ml_ClusterID loc)
          (es_SnapshotsForgotten (ce_Status er)) (es_ReclaimedBytes (ce_Status er))) tt]).
Proof.
  intros H. unfold complete in H. walk H. destruct x. walk H. destruct x as [e|].
  - destruct H as [-> ->]. split; [done|]. eexists _, _, []. split_and!; [reflexivity|done|done|by left].
  - destruct (negb _); [walk H; destruct x|]; destruct H as [-> ->]; (split; [done|]); eexists _, _, _; (split_and!; [reflexivity|done|done|]);
      [right; by split|by left].
Qed.

(** What a status write attests, given the object the pass read. *)
Inductive attested (h : bool) (tr : list act) (er er' : ClusterErasure) : Prop :=
| attests_nothing :
    recordOf er' = recordOf er -> phaseOf er' <> erasurePhaseCompleted ->
    (phaseOf er' = erasurePhaseRunning -> phaseOf er = erasurePhaseRunning) -> attested h tr er er'
| attests_empty repo tags n :
    phaseOf er <> erasurePhaseRunning -> Ev (I := eraseI) (XListFiltered repo (erasureCountJobName (ce_Name er)) tags) (Ok n) ∈ tr ->
    int32 (Z.of_nat n) = 0%Z -> recordOf er' = ErasureFullyForgotten 0 -> phaseOf er' = erasurePhaseCompleted -> attested h tr er er'
| attests_scope repo tags n :
    phaseOf er <> erasurePhaseRunning -> Ev (I := eraseI) (XListFiltered repo (erasureCountJobName (ce_Name er)) tags) (Ok n) ∈ tr ->
    int32 (Z.of_nat n) <> 0%Z -> recordOf er' = ErasureScopeMeasured (int32 (Z.of_nat n)) -> phaseOf er' = erasurePhaseRunning ->
    attested h tr er er'
| attests_all :
    h = true -> phaseOf er = erasurePhaseRunning -> Ev (I := eraseI) XPoll (Some None) ∈ tr ->
    recordOf er' = ErasureFullyForgotten (erasureTargetedScope er) -> phaseOf er' = erasurePhaseCompleted -> attested h tr er er'
| attests_unread e :
    h = true -> phaseOf er = erasurePhaseRunning -> Ev (I := eraseI) XPoll (Some (Some e)) ∈ tr ->
    recordOf er' = ErasureResidueUnverifiable (erasureTargetedScope er) -> phaseOf er' = erasurePhaseFailed -> attested h tr er er'
| attests_residue e repo tags n :
    h = true -> phaseOf er = erasurePhaseRunning -> Ev (I := eraseI) XPoll (Some (Some e)) ∈ tr ->
    Ev (I := eraseI) (XListFiltered repo (erasureVerifyJobName (ce_Name er)) tags) (Ok n) ∈ tr ->
    recordOf er' = ErasureResidueObserved (erasureTargetedScope er) (int32 (Z.of_nat n)) -> phaseOf er' = erasurePhaseFailed ->
    attested h tr er er'.

Lemma attested_more h tr tr' er er' : attested h tr er er' -> tr ⊆ tr' -> attested h tr' er er'.
Proof.
  intros [] Hs; [by apply attests_nothing|eapply attests_empty|eapply attests_scope|eapply attests_all
    |eapply attests_unread|eapply attests_residue]; eauto.
Qed.

(** Every write of the trace attests what the trace shows. *)
Definition honest (h : bool) (er : ClusterErasure) (tr : list act) : Prop :=
  forall er' w, Ev (I := eraseI) (XStatusUpdate er') w ∈ tr -> attested h tr er er'.

(** The write a piece of trace makes, if it makes one. *)
Definition writes (er' : ClusterErasure) (tr : list act) : Prop := forall er1 w, Ev (I := eraseI) (XStatusUpdate er1) w ∈ tr -> er1 = er'.
Definition silent (tr : list act) : Prop := forall er1 w, Ev (I := eraseI) (XStatusUpdate er1) w ∉ tr.

Lemma silent_app tr1 tr2 : silent tr1 -> silent tr2 -> silent (tr1 ++ tr2)%list.
Proof. intros H1 H2 er1 w [H|H]%elem_of_app; [by destruct (H1 er1 w)|by destruct (H2 er1 w)]. Qed.

Lemma silent_one (o : erase_action) w : match o with XStatusUpdate _ => False | _ => True end -> silent [Ev (I := eraseI) o w].
Proof. intros Ho er1 w1 H. apply list_elem_of_singleton in H. injection H as <- _. exact Ho. Qed.

Lemma silent_honest h er tr : silent tr -> honest h er tr.
Proof. intros H er' w Hin. by destruct (H er' w). Qed.

Lemma honest_end h er er' pre t : silent pre -> writes er' t -> attested h (pre ++ t)%list er er' -> honest h er (pre ++ t)%list.
Proof. intros Hp Ht Ha er1 w [H|H]%elem_of_app; [by destruct (Hp er1 w)|]. by rewrite (Ht _ _ H). Qed.

Lemma park_end h er phase reason message after tr o :
  runs (parkAt h er phase reason message after) tr o ->
  fst o = h /\ exists er', writes er' tr /\ recordOf er' = recordOf er /\ phaseOf er' = phase.
Proof.
  intros H. apply parkAt_writes in H as (Hh & er' & w & -> & He & Hp). split; [done|]. exists er'. split_and!; [|done|done].
  intros er1 w1 Hin. apply list_elem_of_singleton in Hin. congruence.
Qed.

Lemma fail_end h er reason message tr o :
  runs (fail h er reason message) tr o ->
  fst o = h /\ exists er', writes er' tr /\ recordOf er' = recordOf er /\ phaseOf er' = erasurePhaseFailed.
Proof.
  intros H. apply fail_writes in H as (Hh & er' & w & -> & He & Hp). split; [done|]. exists er'. split_and!; [|done|done].
  intros er1 w1 Hin. rewrite elem_of_cons, list_elem_of_singleton in Hin. destruct Hin; congruence.
Qed.

Lemma complete_end h er loc message tr o :
  runs (complete h er loc message) tr o ->
  fst o = h /\ exists er', writes er' tr /\ recordOf er' = recordOf er /\ phaseOf er' = erasurePhaseCompleted.
Proof.
  intros H. apply complete_writes in H as (Hh & er' & w & rest & -> & He & Hp & Hr). split; [done|]. exists er'. split_and!; [|done|done].
  intros er1 w1 Hin. rewrite !elem_of_cons in Hin. destruct Hin as [Hin|[Hin|Hin]]; [congruence|congruence|].
  destruct Hr as [->|[_ ->]]; [by apply not_elem_of_nil in Hin|]. apply list_elem_of_singleton in Hin. congruence.
Qed.

Lemma park_honest h0 er pre h er1 phase reason message after tr o :
  runs (parkAt h er1 phase reason message after) tr o -> silent pre -> recordOf er1 = recordOf er -> phase <> erasurePhaseCompleted ->
  (phase = erasurePhaseRunning -> phaseOf er = erasurePhaseRunning) -> honest h0 er (pre ++ tr)%list.
Proof.
  intros H Hp Hr Hc Hrun. apply park_end in H as (_ & er' & Hw & He & Hph). eapply honest_end; [done..|].
  apply attests_nothing; [congruence|congruence|by rewrite Hph].
Qed.

Lemma fail_honest h0 er pre h er1 reason message tr o :
  runs (fail h er1 reason message) tr o -> silent pre -> recordOf er1 = recordOf er -> honest h0 er (pre ++ tr)%list.
Proof.
  intros H Hp Hr. apply fail_end in H as (_ & er' & Hw & He & Hph). eapply honest_end; [done..|].
  apply attests_nothing; [congruence|by rewrite Hph|by rewrite Hph].
Qed.

(** *** The pieces *)

Lemma erasureDEK_silent loc tr x : runs (erasureDEK OperatorNamespace loc) tr x -> silent tr.
Proof.
  intros H. unfold erasureDEK in H. walk H. destruct x0 as [identity|e]; [|destruct H as [-> _]; by apply silent_one].
  walk H. destruct x0 as [e|]; [destruct H as [-> _]|walk H; destruct H as [-> _]];
    repeat (apply silent_app; [by apply silent_one|]); by apply silent_one || (intros ?? ?%not_elem_of_nil).
Qed.

Lemma measureScope_honest h er loc repo tags tr o :
  runs (measureScope h er loc repo tags) tr o -> phaseOf er <> erasurePhaseRunning -> honest h er tr.
Proof.
  intros H Hp. unfold measureScope in H. walk H. destruct x as [n|e].
  - destruct (_ =? 0)%Z eqn:En.
    + apply complete_end in H as (_ & er' & Hw & He & Hph). eapply honest_end; [by apply silent_one|done|].
      apply Z.eqb_eq in En. eapply (attests_empty _ _ _ _ _ _ n); [done|apply elem_of_app; left; left|done|done|done].
    + apply Z.eqb_neq in En. walk H. destruct H as [-> ->]. rewrite app_nil_r.
      eapply honest_end; [by apply silent_one|intros er1 w Hin; apply list_elem_of_singleton in Hin; by injection Hin|].
      eapply (attests_scope _ _ _ _ _ _ n); [done|apply elem_of_app; left; left|done|done|done].
  - by eapply park_honest; [exact H|apply silent_one|..].
Qed.

Lemma enqueueErasure_honest h er loc repo tr o :
  runs (enqueueErasure Quote OperatorNamespace er loc repo) tr o -> phaseOf er = erasurePhaseRunning -> honest h er tr.
Proof.
  intros H Hp. unfold enqueueErasure in H. destruct (ErasureForgetArgs _) as [fa|e].
  2: { rewrite <-(app_nil_l tr). eapply fail_honest; [exact H|intros ?? ?%not_elem_of_nil; done|done]. }
  destruct (PruneCommand _ _) as [pa|e].
  2: { rewrite <-(app_nil_l tr). eapply fail_honest; [exact H|intros ?? ?%not_elem_of_nil; done|done]. }
  walk H. apply erasureDEK_silent in R. destruct x as [reason [dek|e]].
  2: { by eapply park_honest. }
  walk H. apply silent_honest, silent_app; [done|]. destruct x as [e|]; [destruct H as [-> _]; by apply silent_one|].
  walk H. destruct H as [-> _]. repeat (apply silent_app; [by apply silent_one|]). by intros ?? ?%not_elem_of_nil.
Qed.

Lemma settleErasure_honest er loc repo tags tr o :
  runs (settleErasure er loc repo tags) tr o -> phaseOf er = erasurePhaseRunning -> honest true er tr.
Proof.
  intros H Hp. unfold settleErasure in H. walk H. destruct x as [[e|]|].
  - walk H. destruct x as [rec note]. apply fail_end in H as (_ & er' & Hw & He & Hph).
    unfold observeErasureResidue in R. walk R. rewrite app_assoc.
    assert (recordOf er' = rec) as Hrec by (rewrite He; by destruct rec). clear He.
    destruct x as [n|e1].
    + assert (rec = ErasureResidueObserved (erasureTargetedScope er) (int32 (Z.of_nat n)) /\ silent tr0) as [-> Hs].
      { destruct (negb _); [walk R; destruct R as [-> [= -> _]]; split; [done|rewrite app_nil_r; by apply silent_one]|].
        destruct R as [-> [= -> _]]. split; [done|]. by intros ?? ?%not_elem_of_nil. }
      eapply honest_end; [apply silent_app; [by apply silent_one|apply silent_app; [by apply silent_one|done]]|done|].
      eapply (attests_residue _ _ _ _ e _ _ n); [done|done|left|right; left|exact Hrec|done].
    + destruct R as [-> [= -> _]].
      eapply honest_end; [apply silent_app; [by apply silent_one|apply silent_app; [by apply silent_one|by intros ?? ?%not_elem_of_nil]]|done|].
      eapply (attests_unread _ _ _ _ e); [done|done|left|exact Hrec|done].
  - apply complete_end in H as (_ & er' & Hw & He & Hph). eapply honest_end; [by apply silent_one|done|].
    apply attests_all; [done|done|apply elem_of_app; left; left|by rewrite He|done].
  - destruct H as [-> _]. rewrite app_nil_r. by apply silent_honest, silent_one.
Qed.

Lemma drive_honest h er loc repo tags tr o : runs (drive Quote OperatorNamespace h er loc repo tags) tr o -> honest h er tr.
Proof.
  unfold drive. destruct (String.eqb_spec (phaseOf er) erasurePhaseRunning) as [Hp|Hp]; cbn [negb]; intros H; [|by eapply measureScope_honest].
  destruct h; [by eapply settleErasure_honest|by eapply enqueueErasure_honest].
Qed.

Lemma locate_honest h er tags tr o : runs (locate Quote OperatorNamespace h er tags) tr o -> honest h er tr.
Proof.
  intros H. unfold locate in H. walk H. assert (silent [Ev (I := eraseI) (XGetLocation (ce_Location er)) x]) as Hl by by apply silent_one.
  destruct x as [loc|e].
  - destruct (ml_Immutable loc).
    + destruct (negb _); [walk H; rewrite app_assoc|]; (eapply park_honest; [exact H| |done|done|done]); [|done].
      by apply silent_app, silent_one.
    + walk H. rewrite app_assoc.
      assert (silent ([Ev (I := eraseI) (XGetLocation (ce_Location er)) (Ok loc)] ++ [Ev (I := eraseI) (XGetRepository (ml_Name loc)) x])%list) as Hs
        by by apply silent_app, silent_one.
      destruct x as [repo|e]; [|by eapply park_honest]. destruct (rs_Initialized _); [|by eapply park_honest].
      apply drive_honest in H. intros er' w [Hin|Hin]%elem_of_app; [by destruct (Hs er' w)|]. eapply attested_more; [by eapply H|].
      intros e He. apply elem_of_app. by right.
  - destruct (IsNotFound e); [by eapply park_honest|]. destruct H as [-> _]. rewrite app_nil_r. by apply silent_honest.
Qed.

(** A pass starts by reading the object, and ends there when it cannot or when the
    object is a record already. *)
Lemma reconcile_reads h tr o :
  runs (reconcile h) tr o ->
  exists a rest, tr = (Ev (I := eraseI) XGet a :: rest)%list
    /\ match a with
       | Err _ => rest = [] /\ fst o = h
       | Ok er => (phaseOf er = erasurePhaseCompleted \/ phaseOf er = erasurePhaseFailed -> rest = [] /\ fst o = h) /\ honest h er tr
       end.
Proof.
  intros H. unfold reconcileErasure in H. walk H. eexists x, _. split; [reflexivity|]. destruct x as [er|e]; [|by destruct H as [-> ->]].
  assert (silent [Ev (I := eraseI) XGet (Ok er)]) as Hs by by apply silent_one.
  destruct (String.eqb_spec (phaseOf er) erasurePhaseCompleted) as [Hc|Hc]; cbn [orb] in H.
  { destruct H as [-> ->]. split; [done|by apply silent_honest]. }
  destruct (String.eqb_spec (phaseOf er) erasurePhaseFailed) as [Hf|Hf].
  { destruct H as [-> ->]. split; [done|by apply silent_honest]. }
  split; [by intros []|]. destruct (ErasureFilterTags _) as [tags|]; [|by eapply fail_honest].
  destruct (_ =? ""); [by eapply park_honest|]. destruct (_ =? _); [|by eapply fail_honest].
  apply locate_honest in H. intros er' w [Hin|Hin]%elem_of_app; [by destruct (Hs er' w)|]. eapply attested_more; [by eapply H|].
  intros e He. apply elem_of_app. by right.
Qed.

(** *** What is queued *)

(** The pieces that queue nothing. *)
Definition no_enqueue (o : erase_action) : Prop := match o with XEnqueue _ _ _ => False | _ => True end.

Lemma parkAt_queues_nothing h er phase reason message after : only (I := eraseI) no_enqueue (parkAt h er phase reason message after).
Proof. unfold parkAt. apply only_bind; [by apply only_call|done]. Qed.

Lemma fail_queues_nothing h er reason message : only (I := eraseI) no_enqueue (fail h er reason message).
Proof. unfold fail. apply only_bind; [by apply only_call|]. intros _. apply only_bind; [by apply only_call|done]. Qed.

Lemma complete_queues_nothing h er loc message : only (I := eraseI) no_enqueue (complete h er loc message).
Proof.
  unfold complete. apply only_bind; [by apply only_call|]. intros _. apply only_bind; [by apply only_call|]. intros [e|]; [done|].
  destruct (negb _); [|done]. by apply only_bind; [apply only_call|].
Qed.

Lemma measureScope_queues_nothing h er loc repo tags : only (I := eraseI) no_enqueue (measureScope h er loc repo tags).
Proof.
  unfold measureScope. apply only_bind; [by apply only_call|]. intros [n|e]; [|apply parkAt_queues_nothing].
  destruct (_ =? 0)%Z; [apply complete_queues_nothing|]. by apply only_bind; [apply only_call|].
Qed.

Lemma settleErasure_queues_nothing er loc repo tags : only (I := eraseI) no_enqueue (settleErasure er loc repo tags).
Proof.
  unfold settleErasure. apply only_bind; [by apply only_call|]. intros [[e|]|]; [|apply complete_queues_nothing|done].
  apply only_bind; [|intros [rec note]; apply fail_queues_nothing]. unfold observeErasureResidue.
  apply only_bind; [by apply only_call|]. intros [n|e1]; [|done]. destruct (negb _); [|done]. by apply only_bind; [apply only_call|].
Qed.

Lemma queues_nothing {B} (p : eraseP B) tr o repo kind steps w :
  only (I := eraseI) no_enqueue p -> runs p tr o -> Ev (I := eraseI) (XEnqueue repo kind steps) w ∈ tr -> False.
Proof. intros Hp H Hin. pose proof (only_runs _ _ _ _ Hp H) as Hf. rewrite Forall_forall in Hf. exact (Hf _ Hin). Qed.

Lemma erasureDEK_queues_nothing loc : only (I := eraseI) no_enqueue (erasureDEK OperatorNamespace loc).
Proof.
  unfold erasureDEK. apply only_bind; [by apply only_call|]. intros [identity|e]; [|done]. apply only_bind; [by apply only_call|].
  intros [e|]; [done|]. apply only_bind; [by apply only_call|done].
Qed.

(** The two steps an erasure of the target queues, in this order: restic's forget, of the
    snapshots with all the target's tags and of no others, then restic's prune, both under the
    location's credentials and on the URL of its repository. *)
Definition erases (er : ClusterErasure) (loc : MaintainedLocation) (rp : Repository) (steps : list op_request) : Prop :=
  exists tags dek, ErasureFilterTags (ce_Target er) = Some tags /\
    let url := rs_RepositoryURL (rp_Status rp) in
    let size := erasurePruneMaxRepackSize loc in
    let op name kind args := mkOpRequest (erasureResourceName (ce_Name er) name) kind args url dek
                               (ml_CredsSecret loc) "" (ml_S3Connections loc) in
    steps =
      [op "forget" mover_OpForget
         ["forget"; "--unsafe-allow-remove-all"; "--tag"; String.concat "," (TagBase :: tags); flagRetryLock; retryLockFor];
       op "prune" mover_OpPrune
         (["prune"; flagRetryLock; retryLockFor] ++ (if size =? "" then [] else ["--max-repack-size"; size]))%list].

Lemma PruneCommand_args size args :
  PruneCommand Quote size = Ok args ->
  args = (["prune"; flagRetryLock; retryLockFor] ++ (if size =? "" then [] else ["--max-repack-size"; size]))%list.
Proof. unfold PruneCommand. destruct (size =? ""); [by intros [= <-]|]. destruct (repackSizePattern size); [by intros [= <-]|done]. Qed.

(** A pass that queues an operation, whatever came before it. *)
Lemma queues_with_leave (h : bool) tr o repo kind steps w :
  runs (reconcile h) tr o -> Ev (I := eraseI) (XEnqueue repo kind steps) w ∈ tr ->
  exists er loc rp,
    head tr = Some (Ev (I := eraseI) XGet (Ok er))
    /\ Ev (I := eraseI) (XGetLocation (ce_Location er)) (Ok loc) ∈ tr
    /\ Ev (I := eraseI) (XGetRepository (ml_Name loc)) (Ok rp) ∈ tr
    /\ h = false /\ phaseOf er = erasurePhaseRunning
    /\ ce_Confirmation er = erasureConfirmationFor (ce_Target er) /\ ce_Confirmation er <> ""
    /\ ml_Immutable loc = false /\ rs_Initialized (rp_Status rp) = true
    /\ repo = rp_Name rp /\ kind = OpPrune /\ erases er loc rp steps.
Proof.
  intros H Hin. unfold reconcileErasure in H. walk H. apply elem_of_cons in Hin as [Hin|Hin]; [done|].
  destruct x as [er|e]; [|destruct H as [-> _]; by apply not_elem_of_nil in Hin].
  destruct (_ || _); [destruct H as [-> _]; by apply not_elem_of_nil in Hin|].
  destruct (ErasureFilterTags _) as [tags|] eqn:Et; [|by destruct (queues_nothing _ _ _ _ _ _ _ (fail_queues_nothing _ _ _ _) H Hin)].
  destruct (String.eqb_spec (ce_Confirmation er) "") as [|Hc]; [by destruct (queues_nothing _ _ _ _ _ _ _ (parkAt_queues_nothing _ _ _ _ _ _) H Hin)|].
  destruct (String.eqb_spec (ce_Confirmation er) (erasureConfirmationFor (ce_Target er))) as [Hw|];
    [|by destruct (queues_nothing _ _ _ _ _ _ _ (fail_queues_nothing _ _ _ _) H Hin)].
  unfold locate in H. walk H. apply elem_of_cons in Hin as [Hin|Hin]; [done|]. destruct x as [loc|e].
  2: { destruct (IsNotFound e); [by destruct (queues_nothing _ _ _ _ _ _ _ (parkAt_queues_nothing _ _ _ _ _ _) H Hin)|].
       destruct H as [-> _]. by apply not_elem_of_nil in Hin. }
  destruct (ml_Immutable loc) eqn:Ei.
  { destruct (negb _); [walk H; apply elem_of_cons in Hin as [Hin|Hin]; [done|]|];
      by destruct (queues_nothing _ _ _ _ _ _ _ (parkAt_queues_nothing _ _ _ _ _ _) H Hin). }
  walk H. apply elem_of_cons in Hin as [Hin|Hin]; [done|].
  destruct x as [rp|e]; [|by destruct (queues_nothing _ _ _ _ _ _ _ (parkAt_queues_nothing _ _ _ _ _ _) H Hin)].
  destruct (rs_Initialized _) eqn:Ein; [|by destruct (queues_nothing _ _ _ _ _ _ _ (parkAt_queues_nothing _ _ _ _ _ _) H Hin)].
  unfold drive in H. destruct (String.eqb_spec (phaseOf er) erasurePhaseRunning) as [Hp|]; cbn [negb] in H;
    [|by destruct (queues_nothing _ _ _ _ _ _ _ (measureScope_queues_nothing _ _ _ _ _) H Hin)].
  destruct h; [by destruct (queues_nothing _ _ _ _ _ _ _ (settleErasure_queues_nothing _ _ _ _) H Hin)|].
  exists er, loc, rp. split_and!; try done; [right; left|right; right; left|..];
    unfold enqueueErasure, ErasureForgetArgs in H;
    (destruct (ErasureTagFilter (ce_Target er)) as [filter|] eqn:Ef;
      [|by destruct (queues_nothing _ _ _ _ _ _ _ (fail_queues_nothing _ _ _ _) H Hin)]);
    (destruct (PruneCommand _ _) as [pa|e] eqn:Epr; [|by destruct (queues_nothing _ _ _ _ _ _ _ (fail_queues_nothing _ _ _ _) H Hin)]);
    walk H; (apply elem_of_app in Hin as [Hin|Hin]; [by destruct (queues_nothing _ _ _ _ _ _ _ (erasureDEK_queues_nothing _) R Hin)|]);
    (destruct x as [reason [dek|e]]; [|by destruct (queues_nothing _ _ _ _ _ _ _ (parkAt_queues_nothing _ _ _ _ _ _) H Hin)]);
    walk H; (apply elem_of_cons in Hin as [Hin|Hin];
      [|destruct x as [e|]; [destruct H as [-> _]; by apply not_elem_of_nil in Hin|];
        walk H; destruct H as [-> _]; rewrite app_nil_r in Hin; by apply list_elem_of_singleton in Hin]).
  - by injection Hin.
  - by injection Hin.
  - injection Hin as -> -> -> _. unfold ErasureTagFilter in Ef. destruct (ErasureFilterTags (ce_Target er)) as [ts|] eqn:Ets; [|done].
    injection Ef as <-. exists ts, dek. split; [done|]. unfold erasureSteps. by rewrite (PruneCommand_args _ _ Epr).
Qed.

(** ** The life of an erasure *)

(** What the pass may leave stored: what it read, or one of its writes, whichever of
    them reached the server, acknowledged or not. *)
Definition leaves (tr : list act) (er er' : ClusterErasure) : Prop := er' = er \/ exists w, Ev (I := eraseI) (XStatusUpdate er') w ∈ tr.

(** The numbers of snapshots are machine integers. *)
Definition countable (tr : list act) : Prop :=
  forall repo job tags n, Ev (I := eraseI) (XListFiltered repo job tags) (Ok n) ∈ tr -> in_int32 (Z.of_nat n).

(** [life past er h]: after the requests [past], the object [er] is stored, and the
    process holds a handle or not. *)
Inductive life : list act -> ClusterErasure -> bool -> Prop :=
| life_created er : recordOf er = mkErasureRecord 0 0 0 -> phaseOf er = "" -> life [] er false
| life_pass past er h tr o er' :
    life past er h -> runs (reconcile h) (Ev (I := eraseI) XGet (Ok er) :: tr)%list o -> countable tr ->
    leaves tr er er' -> life (past ++ Ev (I := eraseI) XGet (Ok er) :: tr)%list er' (fst o)
| life_restart past er h : life past er h -> life past er false
| life_edit past er h er' : life past er h -> ce_Status er' = ce_Status er -> life past er' h.

(** The listing that measured the scope, and the ends that settle it. *)
Definition scopeCounted (past : list act) (n : Z) : Prop :=
  exists repo name tags k, Ev (I := eraseI) (XListFiltered repo (erasureCountJobName name) tags) (Ok k) ∈ past /\ n = Z.of_nat k
    /\ in_int32 n.
Definition succeeded (past : list act) : Prop := Ev (I := eraseI) XPoll (Some None) ∈ past.
Definition failedWith (past : list act) (remaining : Z) : Prop :=
  (exists e, Ev (I := eraseI) XPoll (Some (Some e)) ∈ past)
  /\ exists repo name tags k, Ev (I := eraseI) (XListFiltered repo (erasureVerifyJobName name) tags) (Ok k) ∈ past
    /\ remaining = Z.of_nat k /\ in_int32 remaining.

Inductive settled (past : list act) (er : ClusterErasure) : Prop :=
| settled_empty : recordOf er = mkErasureRecord 0 0 0 -> phaseOf er <> erasurePhaseRunning -> settled past er
| settled_scope n : recordOf er = ErasureScopeMeasured n -> (0 < n)%Z -> scopeCounted past n -> phaseOf er <> erasurePhaseCompleted -> settled past er
| settled_all n : recordOf er = ErasureFullyForgotten n -> (0 < n)%Z -> scopeCounted past n -> phaseOf er = erasurePhaseCompleted -> succeeded past ->
    settled past er
| settled_residue n k : recordOf er = ErasureResidueObserved n k -> (0 < n)%Z -> scopeCounted past n -> phaseOf er = erasurePhaseFailed ->
    failedWith past k -> settled past er.

Lemma measured_more past past' n : scopeCounted past n -> past ⊆ past' -> scopeCounted past' n.
Proof. intros (repo & name & tags & k & Hin & -> & Hr) Hs. exists repo, name, tags, k. auto. Qed.

Lemma settled_grows past past' er : settled past er -> past ⊆ past' -> settled past' er.
Proof.
  intros [] Hs.
  - by apply settled_empty.
  - eapply settled_scope; [done|done|by eapply measured_more|done].
  - eapply settled_all; [done|done|by eapply measured_more|done|by apply Hs].
  - match goal with H : failedWith _ _ |- _ => destruct H as [(e & He) (repo & name & tags & j & Hin & -> & Hr)] end.
    eapply settled_residue; [done|done|by eapply measured_more|done|]. split; [by exists e; apply Hs|]. exists repo, name, tags, j. auto.
Qed.

Lemma settled_ext past er er' : settled past er -> recordOf er' = recordOf er -> phaseOf er' = phaseOf er -> settled past er'.
Proof.
  intros [] Hr Hp; [apply settled_empty|eapply settled_scope|eapply settled_all|eapply settled_residue]; rewrite ?Hr, ?Hp; eauto.
Qed.

(** A Running object's scope is the one it measured. *)
Lemma settled_running past er :
  settled past er -> phaseOf er = erasurePhaseRunning ->
  recordOf er = ErasureScopeMeasured (erasureTargetedScope er) /\ (0 < erasureTargetedScope er)%Z /\ scopeCounted past (erasureTargetedScope er).
Proof.
  intros [? ?|n Hr Hn Hm _|n _ _ _ Hp _|n k _ _ _ Hp _] Hrun; [done| |by rewrite Hp in Hrun|by rewrite Hp in Hrun].
  assert (erasureTargetedScope er = n) as ->; [|done]. unfold erasureTargetedScope. unfold recordOf, ErasureScopeMeasured in Hr.
  injection Hr as -> -> _. by rewrite andb_false_r.
Qed.

(** What a truthful write attests is settled by what happened. *)
Lemma attested_settled past h tr er er' :
  settled past er -> attested h tr er er' -> countable tr -> phaseOf er <> erasurePhaseCompleted -> phaseOf er <> erasurePhaseFailed ->
  settled (past ++ tr)%list er'.
Proof.
  intros Hs Ha Hc Hnc Hnf. assert (past ⊆ past ++ tr)%list as Hsub by (intros x Hx; apply elem_of_app; by left).
  assert (forall x, x ∈ tr -> x ∈ (past ++ tr)%list) as Htr by (intros x Hx; apply elem_of_app; by right).
  destruct Ha as [Hr Hp Hrun|repo tags n Hp Hin Hn Hr Hp'|repo tags n Hp Hin Hn Hr Hp'|Hh Hp Hin Hr Hp'|e Hh Hp Hin Hr Hp'|e repo tags n Hh Hp Hin Hin' Hr Hp'].
  - destruct Hs as [Hr0 Hp0|n Hr0 Hn Hm Hp0|n _ _ _ Hp0 _|n k _ _ _ Hp0 _]; [| |done|done].
    + apply settled_empty; [by rewrite Hr|]. intros E. apply Hp0. auto.
    + eapply settled_scope; [by rewrite Hr|done|by eapply measured_more|done].
  - apply settled_empty; [by rewrite Hr|by rewrite Hp'].
  - pose proof (Hc _ _ _ _ Hin) as Hi. rewrite int32_id in Hn, Hr by done.
    eapply settled_scope; [exact Hr|lia|by eexists _, _, _, n; eauto|by rewrite Hp'].
  - destruct (settled_running _ _ Hs Hp) as (_ & Hpos & Hm). eapply settled_all; [exact Hr|done|by eapply measured_more|done|by apply Htr].
  - destruct (settled_running _ _ Hs Hp) as (_ & Hpos & Hm). eapply settled_scope; [exact Hr|done|by eapply measured_more|by rewrite Hp'].
  - destruct (settled_running _ _ Hs Hp) as (_ & Hpos & Hm). pose proof (Hc _ _ _ _ Hin') as Hi. rewrite int32_id in Hr by done.
    eapply settled_residue; [exact Hr|done|by eapply measured_more|done|]. split; [by exists e; auto|]. eexists _, _, _, n; eauto.
Qed.

(** The object a request read. *)
Definition objectRead (e : act) : option (result ClusterErasure) :=
  match ev_action e as o return erase_answer o -> option (result ClusterErasure) with
  | XGet => fun x => Some x
  | _ => fun _ => None
  end (ev_answer e).

Lemma life_settled past er h : life past er h -> settled past er.
Proof.
  induction 1 as [er Hr Hp|past er h tr o er' _ IH H Hc Hl|past er h _ IH|past er h er' _ IH He].
  - apply settled_empty; [done|by rewrite Hp].
  - apply reconcile_reads in H as (a & rest & Et & Hh).
    pose proof (f_equal (fun l => head l ≫= objectRead) Et) as [= <-]. pose proof (f_equal tail Et) as Erest. cbn in Erest. subst rest. destruct Hh as [Hterm Hh].
    assert (past ⊆ past ++ Ev (I := eraseI) XGet (Ok er) :: tr)%list as Hsub by (intros x Hx; apply elem_of_app; by left).
    destruct Hl as [->|[w Hw]]; [by eapply settled_grows|].
    assert (countable (Ev (I := eraseI) XGet (Ok er) :: tr)%list) as Hc'.
    { intros repo job tags n [Hin|Hin]%elem_of_cons; [done|by eapply Hc]. }
    destruct (decide (phaseOf er = erasurePhaseCompleted)) as [Ec|Ec]; [destruct Hterm as [-> _]; [by left|]; by apply not_elem_of_nil in Hw|].
    destruct (decide (phaseOf er = erasurePhaseFailed)) as [Ef|Ef]; [destruct Hterm as [-> _]; [by right|]; by apply not_elem_of_nil in Hw|].
    eapply attested_settled; [done| |done|done|done]. eapply Hh. apply elem_of_cons. by right.
  - done.
  - eapply settled_ext; [done|..]; unfold recordOf; by rewrite He.
Qed.

(** C23. The record attests no destruction that was not observed.  Through any sequence of
    passes, restarts, edits, lost writes and stale reads: the scope it carries was
    counted by a listing; it never claims more than its scope; an open erasure claims
    nothing; a completed one claims its whole scope, and only after its operation was
    seen to succeed; a failed one claims at most what its residue listing no longer
    found, and only after its operation was seen to fail. *)
Theorem erasure_attestation past er h :
  life past er h ->
  let r := recordOf er in
  (0 <= er_Forgotten r <= er_Targeted r)%Z
  /\ (er_Targeted r <> 0%Z -> scopeCounted past (er_Targeted r))
  /\ (phaseOf er = erasurePhaseCompleted -> er_Forgotten r = er_Targeted r /\ er_Remaining r = 0%Z)
  /\ (phaseOf er = erasurePhaseRunning -> (0 < er_Targeted r)%Z /\ er_Remaining r = er_Targeted r)
  /\ ((0 < er_Forgotten r)%Z ->
        phaseOf er = erasurePhaseCompleted /\ succeeded past
        \/ phaseOf er = erasurePhaseFailed /\ failedWith past (er_Remaining r) /\ (er_Forgotten r + er_Remaining r = er_Targeted r)%Z).
Proof.
  intros Hl. apply life_settled in Hl.
  destruct Hl as [E Hp|n E Hn Hm Hp|n E Hn Hm Hp Hd|n k E Hn Hm Hp Hf]; rewrite E; cbn.
  - split_and!; [lia|lia|done|done|done|lia].
  - split_and!; [lia|lia|done|done|done|lia].
  - split_and!; [lia|lia|done|done|by rewrite Hp|auto].
  - assert (0 <= k < 2 ^ 31)%Z as Hk by (destruct Hf as [_ (? & ? & ? & j & _ & -> & Hr)]; unfold in_int32 in Hr; lia).
    assert (n < 2 ^ 31)%Z as Hn' by (destruct Hm as (? & ? & ? & j & _ & -> & Hr); unfold in_int32 in Hr; lia).
    rewrite int32_id by (unfold in_int32; lia). rewrite Hp. split_and!; [lia|lia|done|done|done|].
    intros Hpos. right. split_and!; [done|done|lia].
Qed.
(** C24. Nothing is erased without leave. Wherever an erasure is in its life, a pass queues an
    operation only when it holds none in flight, for an object whose status is Running with a
    record of its scope, which is not empty and which a listing of this life counted before;
    whose confirmation is the identity of its target, and not empty; on a location that is not
    immutable and a repository that is initialised. What is queued is exactly two steps, in this
    order: restic's forget of the snapshots with all the target's tags, then its prune. The
    handle is all that stops a second operation under one confirmation: when the status write
    that ends an erasure is lost, the next pass holds none, and queues again. *)
Theorem erasure_needs_leave past er h tr o repo kind steps w
    (Hlife : life past er h)
    (Hpass : runs (reconcile h) (Ev (I := eraseI) XGet (Ok er) :: tr)%list o)
    (Hqueued : Ev (I := eraseI) (XEnqueue repo kind steps) w ∈ tr) :
  h = false
  /\ phaseOf er = erasurePhaseRunning /\ (0 < erasureTargetedScope er)%Z
  /\ recordOf er = ErasureScopeMeasured (erasureTargetedScope er) /\ scopeCounted past (erasureTargetedScope er)
  /\ ce_Confirmation er = erasureConfirmationFor (ce_Target er) /\ ce_Confirmation er <> ""
  /\ exists loc rp,
       Ev (I := eraseI) (XGetLocation (ce_Location er)) (Ok loc) ∈ tr /\ ml_Immutable loc = false
       /\ Ev (I := eraseI) (XGetRepository (ml_Name loc)) (Ok rp) ∈ tr /\ rs_Initialized (rp_Status rp) = true
       /\ repo = rp_Name rp /\ kind = OpPrune /\ erases er loc rp steps.
Proof.
  destruct (queues_with_leave _ _ _ _ _ _ _ Hpass ltac:(by right))
    as (er' & loc & rp & Hget & Hloc & Hrp & Hh & Hp & Hc & Hc' & Hi & Hin & Hr & Hk & Hs).
  pose proof (f_equal (fun x => x ≫= objectRead) Hget) as [= <-].
  destruct (settled_running _ _ (life_settled _ _ _ Hlife) Hp) as (Hrec & Hpos & Hm).
  apply elem_of_cons in Hloc as [Hloc|Hloc]; [by apply (f_equal (fun e : act => ev_action e)) in Hloc|].
  apply elem_of_cons in Hrp as [Hrp|Hrp]; [by apply (f_equal (fun e : act => ev_action e)) in Hrp|].
  split_and!; try done. by exists loc, rp.
Qed.
End Facts.

(** ** Witnesses *)

#[local] Existing Instance MapConditionStore.

Definition wit_erase_target : ErasureTarget := mkErasureTarget "" "team" "".
Definition wit_erasure (phase : string) (targeted forgotten remaining : Z) : @ClusterErasure MapConditionStore :=
  mkClusterErasure "bye" 1 "loc" wit_erase_target "team" (mkErasureStatus phase targeted forgotten remaining 0 ∅).
Definition wit_erase_loc (immutable : bool) : MaintainedLocation :=
  mkMaintainedLocation "loc" immutable "cid" "" "creds" "kek" None None.
Definition wit_erase_repo : @Repository MapConditionStore :=
  mkRepository "loc" "uid" 0 1 false (mkRepositoryStatus true "s3:bucket/repo" 1 0 [] None None "" ∅).

(** A cluster which lists so many snapshots, whose operation is so far, and whose
    repository and status can be read and written, or not. *)
Definition wit_erase_server (er : @ClusterErasure MapConditionStore) (immutable : bool) (repo : result (@Repository MapConditionStore))
    (snapshots : nat) (polled : option (option gerr)) (written : option gerr) : server (@eraseI MapConditionStore) :=
  fun _ o =>
    match o return erase_answer o with
    | XGet => Ok er
    | XGetLocation _ => Ok (wit_erase_loc immutable)
    | XGetRepository _ => repo
    | XListFiltered _ _ _ => Ok snapshots
    | XReadSecret _ _ _ | XEnsureDEK _ => Ok "secret"
    | XAgeIdentity _ | XEnqueue _ _ _ => None
    | XPoll => polled
    | XStatusUpdate _ => written
    | XEvent _ _ | XRecordCompleted _ _ _ _ => tt
    end.

Notation wit_erase_pass h er immutable repo snapshots polled written :=
  (exec (wit_erase_server er immutable repo snapshots polled written) (reconcileErasure (CS := MapConditionStore) id "ops" h) []).

(** The last status a trace writes: its phase and its three numbers. *)
Definition lastWritten (tr : list (event (@eraseI MapConditionStore))) : option (@ClusterErasure MapConditionStore) :=
  last (omap (fun e : event (@eraseI MapConditionStore) => match ev_action e with XStatusUpdate er => Some er | _ => None end) tr).
Definition books (er : @ClusterErasure MapConditionStore) : string * (Z * Z * Z) :=
  let s := ce_Status er in (es_Phase s, (es_SnapshotsTargeted s, es_SnapshotsForgotten s, es_SnapshotsRemaining s)).
Definition queued (tr : list (event (@eraseI MapConditionStore))) : nat :=
  length (filter (fun e : event (@eraseI MapConditionStore) => match ev_action e with XEnqueue _ _ _ => true | _ => false end = true) tr).

Definition wit_queued_steps : list op_request :=
  erasureSteps (wit_erasure erasurePhaseRunning 10 0 10) (wit_erase_loc false) wit_erase_repo "secret"
    ["forget"; "--unsafe-allow-remove-all"; "--tag"; "crystalbackup,namespace=team"; flagRetryLock; retryLockFor]
    ["prune"; flagRetryLock; retryLockFor].

(** Ten snapshots are measured, the operation is queued and seen to fail, and six are left. *)
Definition wit_new : @ClusterErasure MapConditionStore := wit_erasure "" 0 0 0.
Definition afterwards (er : @ClusterErasure MapConditionStore) (pass : list (event (@eraseI MapConditionStore)) * (bool * result Z))
    : @ClusterErasure MapConditionStore := default er (lastWritten (fst pass)).

Definition wit_measured := wit_erase_pass false wit_new false (Ok wit_erase_repo) 10 None None.
Definition wit_open : ClusterErasure := afterwards wit_new wit_measured.
Definition wit_started := wit_erase_pass (fst (snd wit_measured)) wit_open false (Ok wit_erase_repo) 10 None None.
Definition wit_waiting : ClusterErasure := afterwards wit_open wit_started.
Definition wit_failed :=
  wit_erase_pass (fst (snd wit_started)) wit_waiting false (Ok wit_erase_repo) 6 (Some (Some (errorf "erasure prune: timed out"))) None.
Definition wit_record : ClusterErasure := afterwards wit_waiting wit_failed.
Definition wit_past : list (event (@eraseI MapConditionStore)) := ((([] ++ fst wit_measured) ++ fst wit_started) ++ fst wit_failed)%list.

Definition wit_countable (e : event (@eraseI MapConditionStore)) : bool :=
  match ev_action e as a return erase_answer a -> bool with
  | XListFiltered _ _ _ => fun x => match x with Ok k => (Z.of_nat k <? 2 ^ 31)%Z | Err _ => true end
  | _ => fun _ => true
  end (ev_answer e).

(** A pass against such a cluster is a step of the life. *)
Lemma wit_life_pass past er h immutable repo n polled written :
  life id "ops" past er h ->
  let pass := wit_erase_pass h er immutable repo n polled written in
  forallb wit_countable (fst pass) = true ->
  life id "ops" (past ++ fst pass)%list (afterwards er pass) (fst (snd pass)).
Proof.
  intros Hl pass. pose proof (exec_runs (wit_erase_server er immutable repo n polled written) (reconcileErasure id "ops" h) []) as Hr.
  change (runs (reconcileErasure id "ops" h) (fst pass) (snd pass)) in Hr. unfold pass in *. clear pass.
  unfold reconcileErasure in *. cbn [prog_bind erase call exec] in *. cbv zeta in *. cbn [wit_erase_server] in *.
  destruct (exec _ _ _) as [tr o]. cbn [fst snd] in *. intros [_ Hc]%andb_true_iff. eapply life_pass; [exact Hl|exact Hr| |].
  - intros repo' job tags k Hin.
    assert (wit_countable (Ev (I := eraseI) (XListFiltered repo' job tags) (Ok k)) = true) as H%Z.ltb_lt
      by (eapply forallb_forall; [exact Hc|by apply list_elem_of_In]).
    unfold in_int32. lia.
  - unfold afterwards. cbn [fst]. destruct (lastWritten _) as [er'|] eqn:Hw; [|by left]. right. cbn [default].
    unfold lastWritten in Hw. apply last_Some_elem_of, list_elem_of_omap in Hw as ([a w] & Hin & He).
    destruct a; try done. injection He as ->. apply elem_of_cons in Hin as [Hin|Hin]; [done|]. by exists w.
Qed.

Lemma wit_lived : life id "ops" wit_past wit_record (fst (snd wit_failed)).
Proof.
  unfold wit_past, wit_record, wit_failed.
  apply wit_life_pass; [|vm_compute; reflexivity]. unfold wit_waiting, wit_started.
  apply wit_life_pass; [|vm_compute; reflexivity]. unfold wit_open, wit_measured.
  apply wit_life_pass; [|vm_compute; reflexivity]. by apply life_created.
Qed.

Lemma wit_started_split : fst wit_started = (Ev (I := eraseI) XGet (Ok wit_open) :: tail (fst wit_started))%list.
Proof. vm_compute. reflexivity. Qed.

Lemma wit_queued : Ev (I := eraseI) (XEnqueue "loc" OpPrune wit_queued_steps) None ∈ tail (fst wit_started).
Proof. apply (list_elem_of_lookup_2 _ 5). vm_compute. reflexivity. Qed.

Lemma wit_opened : life id "ops" ([] ++ fst wit_measured)%list wit_open (fst (snd wit_measured)).
Proof. unfold wit_open, wit_measured. apply wit_life_pass; [|vm_compute; reflexivity]. by apply life_created. Qed.

Lemma wit_started_runs :
  runs (reconcileErasure id "ops" (fst (snd wit_measured))) (Ev (I := eraseI) XGet (Ok wit_open) :: tail (fst wit_started))%list (snd wit_started).
Proof. rewrite <-wit_started_split. apply (exec_runs (wit_erase_server _ _ _ _ _ _)). Qed.

Lemma erasure_needs_leave_witness :
  erasureTargetedScope wit_open = 10%Z /\ scopeCounted (fst wit_measured) 10
  /\ exists loc rp, ml_Immutable loc = false /\ erases wit_open loc rp wit_queued_steps.
Proof.
  split; [vm_compute; reflexivity|].
  destruct (erasure_needs_leave id "ops" _ _ _ _ _ _ _ _ _ wit_opened wit_started_runs wit_queued)
    as (_ & _ & _ & _ & Hm & _ & _ & loc & rp & _ & Hi & _ & _ & _ & _ & Hs).
  split; [exact Hm|]. by exists loc, rp.
Defined.

Lemma erasure_attestation_witness :
  books wit_record = (erasurePhaseFailed, (10, 4, 6)%Z) /\ failedWith wit_past 6.
Proof.
  split; [vm_compute; reflexivity|]. destruct (erasure_attestation id "ops" wit_past wit_record _ wit_lived) as (_ & _ & _ & _ & Hf).
  destruct Hf as [[Hp _]|(_ & Hf & _)]; [vm_compute; reflexivity|by vm_compute in Hp|exact Hf].
Defined.

(** ** Two passes that lose the account *)

(** The operation has erased the ten snapshots and its end waits to be read, but the
    repository cannot be read for one pass: the erasure is parked as Pending, and the
    pass after measures its scope anew, finds nothing, and completes having erased
    nothing. *)
Definition wit_blink := wit_erase_pass true wit_open false (Err (errorf "etcdserver: request timed out")) 0 (Some None) None.
Example erasure_loses_its_scope :
  books (afterwards wit_open wit_blink) = (erasurePhasePending, (10, 0, 10)%Z)
  /\ books (afterwards wit_open (wit_erase_pass true (afterwards wit_open wit_blink) false (Ok wit_erase_repo) 0 (Some None) None))
     = (erasurePhaseCompleted, (0, 0, 0)%Z).
Proof. split; vm_compute; reflexivity. Qed.

(** The operation succeeded and the write of the record is lost: the handle is gone,
    so the next pass queues a second forget and prune, under the first confirmation. *)
Example erasure_runs_twice :
  let lost := wit_erase_pass true wit_open false (Ok wit_erase_repo) 0 (Some None) (Some (errorf "conflict")) in
  fst (snd lost) = false /\ queued (fst (wit_erase_pass false wit_open false (Ok wit_erase_repo) 3 None None)) = 1.
Proof. split; vm_compute; reflexivity. Qed.
