(* ===== verification/ClusterBackup.v ===== *)
(** * ClusterBackup: one run over the namespaces of a cluster
    (internal/controller: clusterbackup_controller.go, cluster_manifests_phase.go)

    A pass fans a child Backup out to every namespace the selector matches, advances
    the capture of the cluster-scoped objects, reads every child back, folds them into
    one ledger, and writes the status once.  [ledger] is the pure accounting; the pass
    is a program over [runI]. *)

From Stdlib Require Import Ascii String.
From S2P Require Import Prelude GoText Cluster Selectors Names Status MoverResult Restic VolumeMachine.
From S2P Require Import Backup.
From S2P Require Import Hooks Calendar Abandonment Location.
From S2P Require Import Manifests.
From S2P Require Import Schedule ScheduleController.
From S2P Require Import ManifestSelection.
From S2P Require Import Maintenance.
From S2P Require Import Program.

#[local] Open Scope string_scope.
#[local] Notation length := List.length.

(** ** Constants *)

Definition clusterBackupPollInterval : Z := (15 * second)%Z.
Definition ConditionClusterManifestsComplete : string := "ClusterManifestsComplete".
Definition reasonClusterManifestsCaptured : string := "Captured".
Definition reasonClusterManifestsPartial : string := "PartiallyEnumerated".
Definition reasonClusterManifestsFailed : string := "CaptureFailed".
Definition ClusterCaptureRoot : string := "/cluster-manifests".

(** ** Data *)

(** What the fan-out learned of a namespace it refused to back up. *)
Record blockedCoordinate := mkBlockedCoordinate {
  bc_reason : string;
  bc_hasData : bool;
  bc_err : runNameCollisionError
}.

Record ClusterResourceCaptureSpec := mkCaptureSpec {
  ccs_Enabled : option bool; ccs_Include : list string; ccs_Exclude : list string
}.

Record ClusterBackupSpec := mkClusterBackupSpec {
  cbs_ScheduleRef : string;
  cbs_Location : string;
  cbs_Namespaces : nsselector.NamespaceSelector;
  cbs_ClusterResources : ClusterResourceCaptureSpec;
  cbs_Run : BackupRunSpec
}.

Record namespaceVerdict := mkNamespaceVerdict {
  nv_namespace : string;
  nv_outcome : NamespaceOutcome;
  nv_failure : option FailureRecord;
  nv_blocked : option blockedNamespaceFacts
}.

Record runLedger := mkRunLedger {
  rl_verdicts : list namespaceVerdict;
  rl_pvcsSucceeded : Z;
  rl_pvcsFailed : Z;
  rl_addedBytes : Z
}.

Definition ledgerOutcomes (l : runLedger) : list NamespaceOutcome := map nv_outcome (rl_verdicts l).
Definition blockedFacts (l : runLedger) : list blockedNamespaceFacts := omap nv_blocked (rl_verdicts l).

Definition isTerminalClusterBackupPhase (phase : string) : bool :=
  (phase =? ClusterBackupPhaseCompleted) || (phase =? ClusterBackupPhaseFailed) || (phase =? ClusterBackupPhasePartiallyFailed).

Definition clusterManifestsJobName (runName : string) : string :=
  sanitizeDNSName (runName ++ "-cluster-manifests") moverNamePrefixMax ++ "-mover".

(** The facts of a collision whose occupant turns out to carry the run's own stamp. *)
Definition recheckedFacts (e : runNameCollisionError) : runNameCollisionError :=
  mkRunNameCollisionError (rc_Namespace e) (rc_Name e) (rc_Detail e) (rc_Facts e ++ " recheck=stampedByThisRun")
    (rc_Reason e) (rc_HasData e).

Notation collided := (gmap string blockedCoordinate).

Section ClusterBackup.
Context `{CS : ConditionStore}.

Record ClusterBackupStatus := mkClusterBackupStatus {
  cst_Phase : string;
  cst_StartTime : option Z;
  cst_CompletionTime : option Z;
  cst_NamespacesMatched : Z;
  cst_NamespacesSucceeded : Z;
  cst_NamespacesFailed : Z;
  cst_NamespacesBlocked : Z;
  cst_PVCsSucceeded : Z;
  cst_PVCsFailed : Z;
  cst_ClusterResourcesCaptured : Z;
  cst_ClusterManifests : option ManifestsStatus;
  cst_AddedBytes : Z;
  cst_Failures : list FailureRecord;
  cst_BlockedReasons : list BlockedReason;
  cst_Conditions : conditions
}.

Record ClusterBackup := mkClusterBackup {
  cb_Name : string;
  cb_UID : string;
  cb_Created : Z;
  cb_Generation : Z;
  cb_Spec : ClusterBackupSpec;
  cb_Status : ClusterBackupStatus
}.

Definition set_cb_status (s : ClusterBackupStatus) (cb : ClusterBackup) : ClusterBackup :=
  mkClusterBackup (cb_Name cb) (cb_UID cb) (cb_Created cb) (cb_Generation cb) (cb_Spec cb) s.

Definition set_cb_phase (phase : string) (cb : ClusterBackup) : ClusterBackup :=
  let s := cb_Status cb in
  set_cb_status (mkClusterBackupStatus phase (cst_StartTime s) (cst_CompletionTime s) (cst_NamespacesMatched s)
    (cst_NamespacesSucceeded s) (cst_NamespacesFailed s) (cst_NamespacesBlocked s) (cst_PVCsSucceeded s) (cst_PVCsFailed s)
    (cst_ClusterResourcesCaptured s) (cst_ClusterManifests s) (cst_AddedBytes s) (cst_Failures s) (cst_BlockedReasons s)
    (cst_Conditions s)) cb.

Definition set_cb_times (start completion : option Z) (cb : ClusterBackup) : ClusterBackup :=
  let s := cb_Status cb in
  set_cb_status (mkClusterBackupStatus (cst_Phase s) start completion (cst_NamespacesMatched s)
    (cst_NamespacesSucceeded s) (cst_NamespacesFailed s) (cst_NamespacesBlocked s) (cst_PVCsSucceeded s) (cst_PVCsFailed s)
    (cst_ClusterResourcesCaptured s) (cst_ClusterManifests s) (cst_AddedBytes s) (cst_Failures s) (cst_BlockedReasons s)
    (cst_Conditions s)) cb.

Definition set_cb_manifests (m : option ManifestsStatus) (cb : ClusterBackup) : ClusterBackup :=
  let s := cb_Status cb in
  set_cb_status (mkClusterBackupStatus (cst_Phase s) (cst_StartTime s) (cst_CompletionTime s) (cst_NamespacesMatched s)
    (cst_NamespacesSucceeded s) (cst_NamespacesFailed s) (cst_NamespacesBlocked s) (cst_PVCsSucceeded s) (cst_PVCsFailed s)
    (cst_ClusterResourcesCaptured s) m (cst_AddedBytes s) (cst_Failures s) (cst_BlockedReasons s) (cst_Conditions s)) cb.

Definition set_cb_condition (condType st reason message : string) (cb : ClusterBackup) : ClusterBackup :=
  let s := cb_Status cb in
  set_cb_status (mkClusterBackupStatus (cst_Phase s) (cst_StartTime s) (cst_CompletionTime s) (cst_NamespacesMatched s)
    (cst_NamespacesSucceeded s) (cst_NamespacesFailed s) (cst_NamespacesBlocked s) (cst_PVCsSucceeded s) (cst_PVCsFailed s)
    (cst_ClusterResourcesCaptured s) (cst_ClusterManifests s) (cst_AddedBytes s) (cst_Failures s) (cst_BlockedReasons s)
    (SetCondition (cst_Conditions s) condType st reason message (cb_Generation cb))) cb.

(** ** The ledger *)

(** The children at the run's coordinate, by namespace: the last one listed stands. *)
Definition atCoordinate (runName : string) (children : list Backup) : gmap string Backup :=
  fold_left (fun m c => if b_name c =? runName then <[b_namespace c := c]> m else m) children ∅.

Definition childFailureMessage (child : Backup) : string :=
  let other := clampMessage ("backup phase " ++ b_phase child) in
  match FindCondition (st_Conditions (b_status child)) ConditionReady with
  | Some c => if c_message c =? "" then other else clampMessage (c_message c)
  | None => other
  end.

(** One volume of a child, in the volume tallies. *)
Definition countVolume (l : runLedger) (v : VolumeStatus) : runLedger :=
  mkRunLedger (rl_verdicts l)
    (if Phase v =? VolumePhaseCompleted then (rl_pvcsSucceeded l +32 1)%go else rl_pvcsSucceeded l)
    (if Phase v =? VolumePhaseCompleted then rl_pvcsFailed l
     else if Phase v =? VolumePhaseFailed then (rl_pvcsFailed l +32 1)%go else rl_pvcsFailed l)
    (rl_addedBytes l +64 AddedBytes v)%go.

Definition countChild (l : runLedger) (child : Backup) : runLedger := fold_left countVolume (b_volumes child) l.

Definition stampedBy (runUID : string) (child : Backup) : bool := lget (b_annotations child) AnnotationParentUID =? runUID.
Definition isProjection (child : Backup) : bool := lget (b_annotations child) AnnotationProjected =? AnnotationProjectedValue.

(** A namespace the fan-out refused, and what is at its coordinate now. *)
Definition collidedVerdict (runName runUID ns : string) (bc : blockedCoordinate) (child : option Backup) : namespaceVerdict :=
  let mine := match child with Some c => stampedBy runUID c | None => false end in
  let data := match child with Some c => backupHasResults c | None => false end in
  mkNamespaceVerdict ns NamespaceBlocked
    (Some (mkFailureRecord ns runName (clampMessage (collisionError (if mine then recheckedFacts (bc_err bc) else bc_err bc)))))
    (Some (mkBlockedNamespaceFacts (bc_reason bc) (bc_hasData bc || data) mine)).

(** A discovery projection at the coordinate. *)
Definition projectionVerdict (runUID : string) (runCreated : Z) (ns : string) (child : Backup) : namespaceVerdict :=
  let reason := withCode (newCoordinateReason child runUID runCreated) coordinateCodeProjection
                  "it is a discovery projection of snapshots already in the repository" in
  mkNamespaceVerdict ns NamespaceBlocked
    (Some (mkFailureRecord ns (b_name child) (clampMessage (collisionError
      (mkRunNameCollisionError ns (b_name child) (cr_Detail reason) (Facts reason) (cr_Code reason) (cr_HasResults reason))))))
    (Some (mkBlockedNamespaceFacts (cr_Code reason) (cr_HasResults reason) (cr_Stamp reason =? coordinateStampMine))).

Definition childVerdict (ns : string) (child : Backup) : namespaceVerdict :=
  let outcome := OutcomeForBackupPhase (b_phase child) in
  mkNamespaceVerdict ns outcome
    (if bool_decide (outcome = NamespaceFailed) then Some (mkFailureRecord ns (b_name child) (childFailureMessage child)) else None)
    None.

(** The verdict on a namespace, and the ledger with its volumes counted. *)
Definition verdictFor (runName runUID : string) (runCreated : Z) (bad : collided) (l : runLedger) (ns : string)
    (child : option Backup) : runLedger * namespaceVerdict :=
  match bad !! ns with
  | Some bc => (l, collidedVerdict runName runUID ns bc child)
  | None =>
      match child with
      | None => (l, mkNamespaceVerdict ns NamespaceInFlight None None)
      | Some child =>
          if isProjection child then (l, projectionVerdict runUID runCreated ns child)
          else (countChild l child, childVerdict ns child)
      end
  end.

Definition record_verdict (p : runLedger * namespaceVerdict) : runLedger :=
  let '(l, v) := p in mkRunLedger (rl_verdicts l ++ [v])%list (rl_pvcsSucceeded l) (rl_pvcsFailed l) (rl_addedBytes l).

(** The run's own children in namespaces the selector no longer matches. *)
Definition isStray (runUID : string) (matched : list string) (e : string * Backup) : bool :=
  negb (existsb (String.eqb (fst e)) matched) && stampedBy runUID (snd e).
Definition strays (runUID : string) (matched : list string) (at_ : gmap string Backup) : list string :=
  sort_strings (map fst (List.filter (isStray runUID matched) (map_to_list at_))).

Definition buildRunLedger (runName runUID : string) (runCreated : Z) (matched : list string) (children : list Backup)
    (bad : collided) : runLedger :=
  let at_ := atCoordinate runName children in
  let add l ns := record_verdict (verdictFor runName runUID runCreated bad l ns (at_ !! ns)) in
  fold_left add (strays runUID matched at_) (fold_left add matched (mkRunLedger [] 0 0 0)).

(** ** The children *)

Definition childBackupLabels (cb : ClusterBackup) (ns : string) : labels :=
  let l := <[LabelClusterBackup := cb_Name cb]> (<[LabelOrigin := OriginCluster]> (<[LabelNamespace := ns]> ∅)) in
  if cbs_ScheduleRef (cb_Spec cb) =? "" then l else <[LabelSchedule := cbs_ScheduleRef (cb_Spec cb)]> l.

Definition childBackup (cb : ClusterBackup) (ns : string) : newBackup :=
  mkNewBackup ns (cb_Name cb) (childBackupLabels cb ns) (<[AnnotationParentUID := cb_UID cb]> ∅)
    (mkBackupSpec (cbs_ScheduleRef (cb_Spec cb)) kindClusterBackupLocation (cbs_Location (cb_Spec cb))
      (Some (cbs_Run (cb_Spec cb)))).

Definition captureClusterManifests (cb : ClusterBackup) : bool :=
  match ccs_Enabled (cbs_ClusterResources (cb_Spec cb)) with None => true | Some b => b end.

Record clusterCaptureContext := mkCaptureContext {
  cc_clusterID : string;
  cc_scheduleRef : string;
  cc_run : string;
  cc_repoURL : string;
  cc_dek : string;
  cc_s3CredsSecret : string;
  cc_s3Connections : option Z;
  cc_include : list string;
  cc_exclude : list string
}.

(** The Job of a capture: what the request to build it names. *)
Record CaptureJob := mkCaptureJob {
  cj_Name : string;
  cj_Operation : string;
  cj_ResticArgs : list string;
  cj_RepoURL : string;
  cj_S3Connections : option Z;
  cj_SecretName : string;
  cj_Labels : labels;
  cj_ServiceAccountName : string;
  cj_MountPath : string;
  cj_Env : list (string * string)
}.

(** ** Requests *)

Inductive run_action :=
| BGet
| BGetLocation (name : string)
| BListNamespaces
| BGetChild (ns name : string)
| BCreateChild (b : newBackup)
| BPatchParent (ns name uid : string)                 (* the parent annotation of a Backup *)
| BListChildren (run : string)
| BGetRepository (name : string)
| BReadSecret (ns name dataKey : string)
| BAgeIdentity (identity : string)
| BEnsureDEK (location : string)
| BGetJob (name : string)
| BListPods (job : string)
| BCreateSecret (name dek accessKey secretKey : string) (ls : labels)
| BCreateBinding (rb : RoleBinding)                   (* cluster-wide *)
| BDeleteBinding (name : string)
| BCreateJob (j : CaptureJob)
| BDeleteJob (name : string)
| BDeleteSecret (name : string)
| BStatusUpdate (cb : ClusterBackup)
| BEvent (etype reason : string)
| BNow
| BRecordTerminal (phase : string).                   (* the metrics and the span of a run that ended *)

Definition run_answer (o : run_action) : Type :=
  match o with
  | BGet => result ClusterBackup
  | BGetLocation _ => result MaintainedLocation
  | BListNamespaces => result (list nsselector.Namespace)
  | BGetChild _ _ => result Backup
  | BListChildren _ => result (list Backup)
  | BGetRepository _ => result Repository
  | BReadSecret _ _ _ | BEnsureDEK _ => result string
  | BGetJob _ => result Job
  | BListPods _ => result (list Pod)
  | BCreateChild _ | BPatchParent _ _ _ | BAgeIdentity _ | BCreateSecret _ _ _ _ _ | BCreateBinding _ | BDeleteBinding _
  | BCreateJob _ | BDeleteJob _ | BDeleteSecret _ | BStatusUpdate _ => option gerr
  | BEvent _ _ | BRecordTerminal _ => ()
  | BNow => Z
  end.

Definition runI : interface := mkInterface run_action run_answer.
Notation runP := (prog runI).
Definition want (o : run_action) : runP (run_answer o) := call (I := runI) o.

(** Outside the source: the compilation of selectors and regular expressions, the JSON
    codecs, fmt's %q. *)
Variable LabelSelectorAsSelector : LabelSelector -> result (labels -> bool).
Variable CompileRegexp : string -> result (string -> bool).
Variable Unmarshal : string -> result MoverResult.
Variable EncodeClusterCaptureOptions : ClusterCaptureOptions -> result string.
Variable Quote : string -> string.

Variable OperatorNamespace : string.
Variable ManifestMoverServiceAccount ClusterManifestReaderClusterRole : string.

(** ** The fan-out *)

Inductive fanout := FannedOut | FanCollision (e : runNameCollisionError) | FanError (e : gerr).

Definition resolveExistingChild (cb : ClusterBackup) (existing : Backup) : runP fanout :=
  let '(owner, reason) := classifyCoordinate existing (cb_UID cb) (cb_Created cb) in
  match owner with
  | coordinateMine => Done FannedOut
  | coordinateAdoptable =>
      let! err := want (BPatchParent (b_namespace existing) (b_name existing) (cb_UID cb)) in
      Done (match err with
            | Some e => FanError (wrap_err ("stamp parent UID on child Backup " ++ b_namespace existing ++ "/" ++ b_name existing) e)
            | None => FannedOut
            end)
  | coordinateForeign =>
      Done (FanCollision (mkRunNameCollisionError (b_namespace existing) (b_name existing) (cr_Detail reason) (Facts reason)
              (cr_Code reason) (cr_HasResults reason)))
  end.

Definition ensureChildBackup (cb : ClusterBackup) (ns : string) : runP fanout :=
  let! existing := want (BGetChild ns (cb_Name cb)) in
  match existing with
  | Ok existing => resolveExistingChild cb existing
  | Err e =>
      if negb (IsNotFound e) then Done (FanError (wrap_err ("get child Backup " ++ ns ++ "/" ++ cb_Name cb) e))
      else
        let! err := want (BCreateChild (childBackup cb ns)) in
        match err with
        | Some e =>
            if IsAlreadyExists e then
              let! raced := want (BGetChild ns (cb_Name cb)) in
              match raced with
              | Err ge => Done (FanError (wrap_err ("re-read child Backup " ++ ns ++ "/" ++ cb_Name cb ++ " after AlreadyExists") ge))
              | Ok raced => resolveExistingChild cb raced
              end
            else Done (FanError (wrap_err ("create child Backup " ++ ns ++ "/" ++ cb_Name cb) e))
        | None => let! _ := want (BEvent "Normal" "FannedOut") in Done FannedOut
        end
  end.

(** The failures of the fan-out and the coordinates it found taken. *)
Notation fanned := (list FailureRecord * collided)%type.

Definition fanOne (cb : ClusterBackup) (acc : fanned) (ns : string) : runP fanned :=
  let! r := ensureChildBackup cb ns in
  Done (match r with
        | FannedOut => acc
        | FanCollision c => (fst acc, <[ns := mkBlockedCoordinate (rc_Reason c) (rc_HasData c) c]> (snd acc))
        | FanError e => ((fst acc ++ [mkFailureRecord ns (cb_Name cb) (clampMessage (err_text e))])%list, snd acc)
        end).

Definition fanOut (cb : ClusterBackup) (matched : list string) : runP fanned :=
  let! acc := foldM (fanOne cb) ([], ∅) matched in
  if (size (snd acc) =? 0)%nat then Done acc
  else let! _ := want (BEvent "Warning" reasonRunNameCollision) in Done acc.

(** ** The capture of the cluster-scoped objects *)

Definition captureDEK (loc : MaintainedLocation) : runP (option string) :=
  let! identity := want (BReadSecret OperatorNamespace (ml_KEKSecret loc) "identity") in
  match identity with
  | Err _ => Done None
  | Ok identity =>
      let! bad := want (BAgeIdentity identity) in
      match bad with
      | Some _ => Done None
      | None => let! dek := want (BEnsureDEK (ml_Name loc)) in Done (match dek with Ok dek => Some dek | Err _ => None end)
      end
  end.

(** The inputs of the capture, none while they are not ready. *)
Definition resolveClusterCaptureContext (cb : ClusterBackup) (loc : MaintainedLocation)
    : runP (result (option clusterCaptureContext)) :=
  let! repo := want (BGetRepository (ml_Name loc)) in
  match repo with
  | Err e => Done (if IsNotFound e then Ok None else Err (wrap_err ("get BackupRepository " ++ ml_Name loc) e))
  | Ok repo =>
      if negb (rs_Initialized (rp_Status repo)) then Done (Ok None)
      else
        let! dek := captureDEK loc in
        Done (Ok (option_map (fun dek =>
          mkCaptureContext (ml_ClusterID loc) (cbs_ScheduleRef (cb_Spec cb)) (cb_Name cb) (rs_RepositoryURL (rp_Status repo)) dek
            (ml_CredsSecret loc) (ml_S3Connections loc) (ccs_Include (cbs_ClusterResources (cb_Spec cb)))
            (ccs_Exclude (cbs_ClusterResources (cb_Spec cb)))) dek))
  end.

Definition captureLabels (cb : ClusterBackup) : labels :=
  <[LabelMoverRole := MoverRoleManifest]> (<[LabelClusterBackup := cb_Name cb]> (<[LabelManagedBy := ManagedByValue]> ∅)).

Definition captureCreds (name dek s3CredsSecret : string) (ls : labels) : runP (option gerr) :=
  let path := OperatorNamespace ++ "/" ++ s3CredsSecret in
  let! ak := want (BReadSecret OperatorNamespace s3CredsSecret "AWS_ACCESS_KEY_ID") in
  match ak with
  | Err e => Done (Some (wrap_err ("read S3 access key from secret " ++ path) e))
  | Ok ak =>
      let! sk := want (BReadSecret OperatorNamespace s3CredsSecret "AWS_SECRET_ACCESS_KEY") in
      match sk with
      | Err e => Done (Some (wrap_err ("read S3 secret key from secret " ++ path) e))
      | Ok sk =>
          let! err := want (BCreateSecret name dek ak sk ls) in
          Done (match err with
                | Some e => if IsAlreadyExists e then None
                            else Some (wrap_err ("create mover creds secret " ++ OperatorNamespace ++ "/" ++ name) e)
                | None => None
                end)
      end
  end.

Definition captureBindingName (jobName : string) : string := "crystal-cluster-manifest-" ++ jobName.

Definition captureBinding (jobName : string) : RoleBinding :=
  mkRoleBinding (captureBindingName jobName) ""
    (<[LabelManagedBy := ManagedByValue]> (<[LabelMoverRole := MoverRoleManifest]>
      (<[LabelMoverJob := jobName]> (<[LabelOperatorNS := OperatorNamespace]> ∅))))
    ClusterManifestReaderClusterRole ManifestMoverServiceAccount OperatorNamespace.

Definition ensureClusterManifestBinding (jobName : string) : runP (option gerr) :=
  let! err := want (BCreateBinding (captureBinding jobName)) in
  Done (match err with
        | Some e => if IsAlreadyExists e then None
                    else Some (wrap_err ("create transient ClusterRoleBinding " ++ captureBindingName jobName ++ " to "
                           ++ ClusterManifestReaderClusterRole) e)
        | None => None
        end).

Definition captureJob (cb : ClusterBackup) (cc : clusterCaptureContext) (jobName selection : string) : CaptureJob :=
  mkCaptureJob jobName "cluster-manifests-backup"
    (resticBackupArgs (ClusterManifestsIdentity (cc_clusterID cc) (cc_scheduleRef cc) (cc_run cc)))
    (cc_repoURL cc) (cc_s3Connections cc) jobName (captureLabels cb) ManifestMoverServiceAccount ClusterCaptureRoot
    [("CRYSTAL_CLUSTER_MANIFESTS_CLUSTER_ID", cc_clusterID cc);
     ("CRYSTAL_CLUSTER_MANIFESTS_BACKUP_NAME", cc_run cc);
     ("CRYSTAL_CLUSTER_MANIFESTS_SELECTION", selection)].

Definition startClusterManifestsJob (cb : ClusterBackup) (cc : clusterCaptureContext) (jobName : string) : runP (option gerr) :=
  let! cerr := captureCreds jobName (cc_dek cc) (cc_s3CredsSecret cc) (captureLabels cb) in
  match cerr with
  | Some e => Done (Some e)
  | None =>
      let! berr := ensureClusterManifestBinding jobName in
      match berr with
      | Some e => Done (Some e)
      | None =>
          match EncodeClusterCaptureOptions (mkCaptureOptions (cc_include cc) (cc_exclude cc)) with
          | Err e => Done (Some e)
          | Ok selection =>
              let! jerr := want (BCreateJob (captureJob cb cc jobName selection)) in
              match jerr with
              | Some e =>
                  if IsAlreadyExists e then Done None
                  else
                    let! _ := want (BDeleteBinding (captureBindingName jobName)) in
                    Done (Some (wrap_err ("create cluster-manifest Job " ++ OperatorNamespace ++ "/" ++ jobName) e))
              | None => Done None
              end
          end
      end
  end.

Definition recordClusterManifestsFailure (reason : string) (cb : ClusterBackup) : ClusterBackup :=
  set_cb_condition ConditionClusterManifestsComplete ConditionFalse reasonClusterManifestsFailed
    (if reason =? "" then "the cluster-manifest mover reported a failure with no reason" else reason) cb.

(** The verdict of a finished Job, in memory. *)
Definition recordClusterManifests (res : result MoverResult) (cb : ClusterBackup) : ClusterBackup :=
  match res with
  | Err e => recordClusterManifestsFailure ("could not read the mover result: " ++ err_text e) cb
  | Ok result =>
      if negb (mr_OK result) then recordClusterManifestsFailure (mr_Error result) cb
      else
        let cb := set_cb_manifests (Some (mkManifestsStatus (mr_SnapshotID result) (mr_ResourceCount result))) cb in
        if mr_IncompleteManifests result then
          set_cb_condition ConditionClusterManifestsComplete ConditionFalse reasonClusterManifestsPartial
            ("captured " ++ Itoa (mr_ResourceCount result) ++ " cluster-scoped resource(s); some kinds could not be enumerated — "
               ++ "see the warnings in index.json of snapshot " ++ mr_SnapshotID result) cb
        else
          set_cb_condition ConditionClusterManifestsComplete ConditionTrue reasonClusterManifestsCaptured
            ("captured " ++ Itoa (mr_ResourceCount result) ++ " cluster-scoped resource(s)") cb
  end.

(** The capture has a verdict: a snapshot, or a recorded failure. *)
Definition captureSettled (cb : ClusterBackup) : bool :=
  match cst_ClusterManifests (cb_Status cb) with
  | Some _ => true
  | None =>
      match FindCondition (cst_Conditions (cb_Status cb)) ConditionClusterManifestsComplete with
      | Some c => c_reason c =? reasonClusterManifestsFailed
      | None => false
      end
  end.

(** The run in memory, whether the capture is over, the Job whose residue is due for
    teardown ("" for none), and the error. *)
Notation captured := (ClusterBackup * bool * string * option gerr)%type.

Definition advanceClusterManifests (cb : ClusterBackup) (cc : clusterCaptureContext) : runP captured :=
  if captureSettled cb then Done (cb, true, "", None)
  else
    let jobName := clusterManifestsJobName (cb_Name cb) in
    let! job := want (BGetJob jobName) in
    match job with
    | Err e =>
        if IsNotFound e then let! err := startClusterManifestsJob cb cc jobName in Done (cb, false, "", err)
        else Done (cb, false, "", Some (wrap_err ("get cluster-manifest Job " ++ OperatorNamespace ++ "/" ++ jobName) e))
    | Ok job =>
        if ((j_succeeded job =? 0) && (j_failed job =? 0))%Z then Done (cb, false, "", None)
        else
          let! pods := want (BListPods jobName) in
          Done (recordClusterManifests (fst (readMoverResult Unmarshal Quote OperatorNamespace pods jobName)) cb, true, jobName, None)
    end.

(** The run's other half, independent of the children. *)
Definition advanceCapture (cb : ClusterBackup) (loc : MaintainedLocation) (matched : list string) : runP captured :=
  if (0 <? length matched)%nat && captureClusterManifests cb && negb (ClusterManifestReaderClusterRole =? "") then
    let! cc := resolveClusterCaptureContext cb loc in
    match cc with
    | Err e => Done (cb, false, "", Some e)
    | Ok None => Done (cb, false, "", None)
    | Ok (Some cc) =>
        let! r := advanceClusterManifests cb cc in
        Done (match r with (cb, done, job, Some e) => (cb, false, job, Some e) | r => r end)
    end
  else Done (cb, true, "", None).

(** Its errors are only logged. *)
Definition teardownClusterManifests (jobName : string) : runP () :=
  let! _ := want (BDeleteBinding (captureBindingName jobName)) in
  let! _ := want (BDeleteJob jobName) in
  let! _ := want (BDeleteSecret jobName) in
  Done tt.

(** ** The aggregate *)

Definition set_ledger (matched : list string) (l : runLedger) (t : ClusterTally) (fanoutFailures : list FailureRecord)
    (cb : ClusterBackup) : ClusterBackup :=
  let s := cb_Status cb in
  let append fs f := AppendCappedFailure fs f DefaultFailureCap in
  set_cb_status (mkClusterBackupStatus (cst_Phase s) (cst_StartTime s) (cst_CompletionTime s)
    (int32 (Z.of_nat (length matched))) (ct_Succeeded t) (ct_Failed t) (ct_Blocked t) (rl_pvcsSucceeded l) (rl_pvcsFailed l)
    (match cst_ClusterManifests s with Some m => ms_ResourceCount m | None => 0%Z end) (cst_ClusterManifests s) (rl_addedBytes l)
    (fold_left append (fanoutFailures ++ omap nv_failure (rl_verdicts l))%list [])
    (summariseBlockedReasons (blockedFacts l)) (cst_Conditions s)) cb.

Definition setClusterBackupCondition (phase : string) (cb : ClusterBackup) : ClusterBackup :=
  if phase =? ClusterBackupPhaseCompleted then
    set_cb_condition ConditionReady ConditionTrue "Completed" "all matched namespaces backed up" cb
  else if phase =? ClusterBackupPhaseFailed then
    set_cb_condition ConditionReady ConditionFalse "Failed" "every matched namespace failed" cb
  else if phase =? ClusterBackupPhasePartiallyFailed then
    set_cb_condition ConditionReady ConditionFalse "PartiallyFailed" "one or more matched namespaces failed" cb
  else set_cb_condition ConditionReady ConditionFalse "InProgress" ("run in progress (" ++ phase ++ ")") cb.

(** The phase of the run: the outcomes' and the capture's. *)
Definition runPhase (os : list NamespaceOutcome) (captureDone : bool) : string :=
  let phase := RollUpNamespaceOutcomes os in
  if (length os =? 0)%nat then ClusterBackupPhaseCompleted
  else if negb captureDone && isTerminalClusterBackupPhase phase then ClusterBackupPhaseRunning
  else phase.

(** A time that is set once. *)
Definition stampOnce (wanted : bool) (t : option Z) : runP (option Z) :=
  match t with
  | Some t => Done (Some t)
  | None => if wanted then let! now := want BNow in Done (Some now) else Done None
  end.

Definition runUpdateError (cb : ClusterBackup) (e : gerr) : gerr := wrap_err ("update status for ClusterBackup " ++ cb_Name cb) e.

Definition noteWhen (b : bool) (reason : string) : runP () := if b then want (BEvent "Warning" reason) else Done tt.

Definition aggregateAndWrite (cb : ClusterBackup) (matched : list string) (fanoutFailures : list FailureRecord)
    (bad : collided) (captureDone : bool) : runP (result Z) :=
  let! children := want (BListChildren (cb_Name cb)) in
  match children with
  | Err e => Done (Err (wrap_err ("list child Backups for run " ++ cb_Name cb) e))
  | Ok children =>
      let ledger := buildRunLedger (cb_Name cb) (cb_UID cb) (cb_Created cb) matched children bad in
      let os := ledgerOutcomes ledger in
      let tally := TallyNamespaceOutcomes os in
      let! _ := noteWhen (negb (ClusterTally_SumsUp tally)) "AggregateInconsistent" in
      let! _ := noteWhen (length os =? 0)%nat "NoNamespacesMatched" in
      let phase := runPhase os captureDone in
      let cb := set_cb_phase phase (set_ledger matched ledger tally fanoutFailures cb) in
      let! start := stampOnce true (cst_StartTime (cb_Status cb)) in
      let terminal := isTerminalClusterBackupPhase phase in
      let justTerminal := terminal && match cst_CompletionTime (cb_Status cb) with None => true | Some _ => false end in
      let! completion := stampOnce terminal (cst_CompletionTime (cb_Status cb)) in
      let cb := setClusterBackupCondition phase (set_cb_times start completion cb) in
      let! err := want (BStatusUpdate cb) in
      match err with
      | Some e => Done (Err (runUpdateError cb e))
      | None =>
          let! _ := if justTerminal then want (BRecordTerminal phase) else Done tt in
          Done (Ok (if terminal then 0%Z else clusterBackupPollInterval))
      end
  end.

Definition blockRun (cb : ClusterBackup) (reason message : string) : runP (result Z) :=
  let cb := set_cb_condition ConditionReady ConditionFalse reason message (set_cb_phase ClusterBackupPhasePending cb) in
  let! err := want (BStatusUpdate cb) in
  Done (match err with Some e => Err (runUpdateError cb e) | None => Ok shortRequeueInterval end).

(** ** The pass *)

(** From the fan-out on. *)
Definition driveRun (cb : ClusterBackup) (loc : MaintainedLocation) (matched : list string) : runP (result Z) :=
  let! acc := fanOut cb matched in
  let! captured := advanceCapture cb loc matched in
  let '(cb, captureDone, teardownJob, captureErr) := captured in
  let! res := aggregateAndWrite cb matched (fst acc) (snd acc) captureDone in
  match res with
  | Err e => Done (Err e)
  | Ok after =>
      let! _ := if teardownJob =? "" then Done tt else teardownClusterManifests teardownJob in
      let after := if negb captureDone && (after =? 0)%Z then clusterBackupPollInterval else after in
      Done (match captureErr with Some e => Err e | None => Ok after end)
  end.

Definition reconcileRun : runP (result Z) :=
  let! cb := want BGet in
  match cb with
  | Err e => Done (if IsNotFound e then Ok 0%Z else Err e)
  | Ok cb =>
      if isTerminalClusterBackupPhase (cst_Phase (cb_Status cb)) then Done (Ok 0%Z)
      else
        let! loc := want (BGetLocation (cbs_Location (cb_Spec cb))) in
        match loc with
        | Err e =>
            if IsNotFound e then
              blockRun cb "LocationNotFound" ("ClusterBackupLocation " ++ Quote (cbs_Location (cb_Spec cb)) ++ " not found")
            else Done (Err (wrap_err ("get ClusterBackupLocation " ++ cbs_Location (cb_Spec cb)) e))
        | Ok loc =>
            let! namespaces := want BListNamespaces in
            match namespaces with
            | Err e => Done (Err (wrap_err "list namespaces" e))
            | Ok namespaces =>
                match nsselector.Match LabelSelectorAsSelector CompileRegexp namespaces (cbs_Namespaces (cb_Spec cb)) with
                | Err e => blockRun cb "SelectorInvalid" (clampMessage (err_text e))
                | Ok matched => driveRun cb loc matched
                end
            end
        end
  end.
End ClusterBackup.

(** ** The ledger accounts for every namespace once *)

Section Ledger.
Context `{CS : ConditionStore}.
Context (runName runUID : string) (runCreated : Z).
Implicit Types (bad : collided) (l : runLedger) (ns : string) (child : option Backup).

Notation judge := (verdictFor runName runUID runCreated).
Notation build := (buildRunLedger runName runUID runCreated).

(** The verdict does not depend on what was counted before. *)
Definition verdictOf bad ns child : namespaceVerdict := snd (judge bad (mkRunLedger [] 0 0 0) ns child).

(** The volumes a verdict counts: those of a child the run may read. *)
Definition countedVolumes bad ns child : list VolumeStatus :=
  match bad !! ns, child with
  | None, Some c => if isProjection c then [] else b_volumes c
  | _, _ => []
  end.

Lemma verdictFor_eq bad l ns child :
  judge bad l ns child = (fold_left countVolume (countedVolumes bad ns child) l, verdictOf bad ns child).
Proof.
  unfold verdictOf, verdictFor, countedVolumes. destruct (bad !! ns) as [bc|]; [done|]. destruct child as [c|]; [|done].
  by destruct (isProjection c).
Qed.

(** The counters of a ledger, and what volumes make of them. *)
Definition counters l : Z * Z * Z := (rl_pvcsSucceeded l, rl_pvcsFailed l, rl_addedBytes l).

Definition tallyOf (vols : list VolumeStatus) : Z * Z * Z :=
  (int32 (Z.of_nat (countb (isPhase VolumePhaseCompleted) vols)), int32 (Z.of_nat (countb (isPhase VolumePhaseFailed) vols)),
   int64 (foldr Z.add 0%Z (map AddedBytes vols))).

Lemma countVolumes_counters vols l l' :
  counters l = counters l' -> counters (fold_left countVolume vols l) = counters (fold_left countVolume vols l').
Proof.
  revert l l'. induction vols as [|v vols IH]; intros l l' H; [done|]. cbn. apply IH. unfold counters in *. injection H as H1 H2 H3.
  unfold countVolume; cbn. by rewrite H1, H2, H3.
Qed.

Lemma countVolumes_verdicts vols l : rl_verdicts (fold_left countVolume vols l) = rl_verdicts l.
Proof. revert l. induction vols as [|v vols IH]; intros l; [done|]. cbn. by rewrite IH. Qed.

Lemma countVolumes_tallyOf vols vs : counters (fold_left countVolume vols (mkRunLedger vs 0 0 0)) = tallyOf vols.
Proof.
  induction vols as [|v vols IH] using rev_ind; [done|]. rewrite fold_left_app. cbn. unfold tallyOf in *.
  set (l := fold_left countVolume vols (mkRunLedger vs 0 0 0)) in *. clearbody l.
  unfold counters in IH. injection IH as H1 H2 H3. unfold counters, countVolume; cbn. rewrite H1, H2, H3, !countb_app, map_app, foldr_app. cbn.
  change (isPhase VolumePhaseCompleted v) with (Phase v =? VolumePhaseCompleted).
  change (isPhase VolumePhaseFailed v) with (Phase v =? VolumePhaseFailed). rewrite Z.add_0_r.
  assert (foldr Z.add (AddedBytes v) (map AddedBytes vols) = foldr Z.add 0 (map AddedBytes vols) + AddedBytes v)%Z as ->.
  { clear. induction vols as [|w vols IH]; cbn; [lia|]. rewrite IH. lia. }
  rewrite int64_add_l. destruct (String.eqb_spec (Phase v) VolumePhaseCompleted) as [E|E].
  - rewrite E, int32_add_l. cbn. repeat f_equal; lia.
  - destruct (Phase v =? VolumePhaseFailed); rewrite ?int32_add_l; repeat f_equal; lia.
Qed.

(** Adding namespaces to a ledger. *)
Lemma addNamespaces bad (at_ : gmap string Backup) nss l :
  let l' := fold_left (fun l ns => record_verdict (judge bad l ns (at_ !! ns))) nss l in
  rl_verdicts l' = (rl_verdicts l ++ map (fun ns => verdictOf bad ns (at_ !! ns)) nss)%list
  /\ counters l' = counters (fold_left countVolume (flat_map (fun ns => countedVolumes bad ns (at_ !! ns)) nss) l).
Proof.
  revert l. induction nss as [|ns nss IH]; intros l; cbn; [by rewrite app_nil_r|].
  rewrite verdictFor_eq. destruct (IH (record_verdict (fold_left countVolume (countedVolumes bad ns (at_ !! ns)) l, verdictOf bad ns (at_ !! ns)))) as [Hv Hc].
  split.
  - rewrite Hv. cbn. by rewrite countVolumes_verdicts, <-app_assoc.
  - rewrite Hc, fold_left_app. by apply countVolumes_counters.
Qed.

(** *** What is at the coordinate *)

Lemma atCoordinate_some children ns c :
  atCoordinate runName children !! ns = Some c -> c ∈ children /\ b_name c = runName /\ b_namespace c = ns.
Proof.
  unfold atCoordinate. induction children as [|d children IH] using rev_ind; [done|]. rewrite fold_left_app. cbn.
  destruct (String.eqb_spec (b_name d) runName) as [E|E].
  - destruct (decide (b_namespace d = ns)) as [<-|Hn].
    + rewrite lookup_insert_eq. intros [= <-]. split; [apply elem_of_app; right; left|done].
    + rewrite lookup_insert_ne by done. intros H%IH. destruct H as (Hin & Hrest). split; [apply elem_of_app; by left|done].
  - intros H%IH. destruct H as (Hin & Hrest). split; [apply elem_of_app; by left|done].
Qed.

Lemma elem_of_strays matched (at_ : gmap string Backup) ns :
  ns ∈ strays runUID matched at_ <-> ns ∉ matched /\ exists c, at_ !! ns = Some c /\ stampedBy runUID c = true.
Proof.
  unfold strays. rewrite sort_strings_perm, list_elem_of_fmap. setoid_rewrite list_elem_of_In at 1. setoid_rewrite filter_In.
  unfold isStray. split.
  - intros ([k c] & -> & Hin%list_elem_of_In%elem_of_map_to_list & [Hm Hs]%andb_true_iff). cbn in *. split; [|by exists c].
    intros Hk. rewrite negb_true_iff, existsb_none in Hm. specialize (Hm k Hk). by rewrite String.eqb_refl in Hm.
  - intros (Hm & c & Hc & Hs). exists (ns, c). split; [done|]. split; [by apply list_elem_of_In, elem_of_map_to_list|].
    cbn. rewrite Hs, andb_true_r, negb_true_iff, existsb_none. intros k Hk. apply String.eqb_neq. congruence.
Qed.

Lemma strays_nodup matched at_ : NoDup (strays runUID matched at_).
Proof.
  unfold strays. rewrite sort_strings_perm. pose proof (NoDup_fst_map_to_list at_) as H. induction (map_to_list at_) as [|e m IH]; [constructor|].
  cbn in *. apply NoDup_cons in H as [Hk Hm]. destruct (isStray _ _ e); [|by apply IH]. cbn. apply NoDup_cons. split; [|by apply IH].
  intros Hin. apply Hk. apply list_elem_of_fmap in Hin as (d & Hd & Hin). rewrite Hd. apply list_elem_of_fmap. exists d. split; [done|].
  apply list_elem_of_In in Hin. apply filter_In in Hin as [Hin _]. by apply list_elem_of_In.
Qed.
End Ledger.

Section Accounts.
Context `{CS : ConditionStore}.
Context (runName runUID : string) (runCreated : Z).

Lemma OutcomeForBackupPhase_not_blocked phase : OutcomeForBackupPhase phase <> NamespaceBlocked.
Proof. unfold OutcomeForBackupPhase. repeat case_match; done. Qed.

(** What a verdict says, by what is at the coordinate. *)
Lemma verdictOf_cases (bad : collided) ns child :
  let v := verdictOf runName runUID runCreated bad ns child in
  nv_namespace v = ns
  /\ (is_Some (nv_failure v) <-> nv_outcome v = NamespaceFailed \/ nv_outcome v = NamespaceBlocked)
  /\ (is_Some (nv_blocked v) <-> nv_outcome v = NamespaceBlocked)
  /\ (nv_outcome v = NamespaceBlocked <-> is_Some (bad !! ns) \/ exists c, child = Some c /\ isProjection c = true)
  /\ (nv_outcome v = NamespaceSucceeded \/ nv_outcome v = NamespaceFailed ->
        bad !! ns = None /\ exists c, child = Some c /\ isProjection c = false /\ nv_outcome v = OutcomeForBackupPhase (b_phase c)).
Proof.
  unfold verdictOf, verdictFor. destruct (bad !! ns) as [bc|]; cbn.
  { split_and!; [done|split; [by right|by eexists]|split; [done|by eexists]|split; [by left; eexists|done]|by intros []]. }
  destruct child as [c|]; cbn.
  2: { split_and!; [done|split; [by intros []|by intros []]|split; [by intros []|done]|split; [done|by intros [[]|(? & ? & ?)]]|by intros []]. }
  destruct (isProjection c) eqn:Ep; cbn.
  { split_and!; [done|split; [by right|by eexists]|split; [done|by eexists]|split; [by right; exists c|done]|by intros []]. }
  pose proof (OutcomeForBackupPhase_not_blocked (b_phase c)) as Hb. split_and!.
  - done.
  - destruct (bool_decide_reflect (OutcomeForBackupPhase (b_phase c) = NamespaceFailed)); split; [by left|by eexists|by intros []|by intros []].
  - split; [by intros []|done].
  - split; [done|]. intros [[]|(d & [= <-] & Hd)]; [done|congruence].
  - intros _. split; [done|]. by exists c.
Qed.

(** C10. The ledger of a run is a complete accounting: one verdict for each matched
    namespace, in their order, and then one for each namespace that is no longer
    matched but holds a child the run stamped; no namespace twice.  A namespace is
    blocked just when the fan-out was refused there or a projection stands at its
    coordinate; one that succeeded or failed has a child there, whose phase says so.
    Every blocked or failed namespace carries its explanation, and the volume counters
    count the volumes of exactly the children the run may read. *)
Theorem ledger_accounts (matched : list string) (children : list Backup) (bad : collided) :
  NoDup matched ->
  let l := buildRunLedger runName runUID runCreated matched children bad in
  let at_ := atCoordinate runName children in
  exists strayed,
    map nv_namespace (rl_verdicts l) = (matched ++ strayed)%list /\ NoDup (matched ++ strayed)
    /\ (forall ns, ns ∈ strayed <-> ns ∉ matched /\ exists c, at_ !! ns = Some c /\ stampedBy runUID c = true)
    /\ (forall v, v ∈ rl_verdicts l ->
          let ns := nv_namespace v in
          (is_Some (nv_failure v) <-> nv_outcome v = NamespaceFailed \/ nv_outcome v = NamespaceBlocked)
          /\ (is_Some (nv_blocked v) <-> nv_outcome v = NamespaceBlocked)
          /\ (nv_outcome v = NamespaceBlocked <-> is_Some (bad !! ns) \/ exists c, at_ !! ns = Some c /\ isProjection c = true)
          /\ (nv_outcome v = NamespaceSucceeded \/ nv_outcome v = NamespaceFailed ->
                bad !! ns = None /\ exists c, c ∈ children /\ b_name c = runName /\ b_namespace c = ns /\ isProjection c = false
                  /\ nv_outcome v = OutcomeForBackupPhase (b_phase c)))
    /\ counters l = tallyOf (flat_map (fun ns => countedVolumes bad ns (at_ !! ns)) (matched ++ strayed)).
Proof.
  intros Hnd l at_. exists (strays runUID matched at_). unfold l, buildRunLedger. rewrite <-fold_left_app.
  destruct (addNamespaces runName runUID runCreated bad at_ (matched ++ strays runUID matched at_) (mkRunLedger [] 0 0 0)) as [Hv Hc].
  fold at_. rewrite Hv, Hc, countVolumes_tallyOf. cbn [rl_verdicts app]. split_and!.
  - rewrite map_map. rewrite <-(map_id (matched ++ _)) at 2. apply map_ext. intros ns. apply verdictOf_cases.
  - apply NoDup_app. split_and!; [done| |apply strays_nodup]. intros ns Hns Hs%elem_of_strays. by destruct Hs.
  - intros ns. apply elem_of_strays.
  - intros v Hin. apply list_elem_of_fmap in Hin as (ns & -> & Hin).
    destruct (verdictOf_cases bad ns (at_ !! ns)) as (Hns & H1 & H2 & H3 & H4). rewrite Hns. split_and!; [done..|].
    intros H%H4. destruct H as (Hb & c & Hat & Hp & Ho). split; [done|]. exists c.
    apply atCoordinate_some in Hat as (Hch & Hn & Hc'). done.
  - done.
Qed.
End Accounts.

(** ** What a pass does *)

Section Passes.
Context `{CS : ConditionStore}.
Context (LabelSelectorAsSelector : LabelSelector -> result (labels -> bool)).
Context (CompileRegexp : string -> result (string -> bool)).
Context (Unmarshal : string -> result MoverResult).
Context (EncodeClusterCaptureOptions : ClusterCaptureOptions -> result string).
Context (Quote : string -> string) (OperatorNamespace : string).
Context (ManifestMoverServiceAccount ClusterManifestReaderClusterRole : string).

Notation runP := (prog runI).
Notation act := (event runI).
Notation ev o x := (Ev (I := runI) o x).
Notation reconcile := (reconcileRun LabelSelectorAsSelector CompileRegexp Unmarshal EncodeClusterCaptureOptions Quote OperatorNamespace
                         ManifestMoverServiceAccount ClusterManifestReaderClusterRole).
Notation drive := (driveRun Unmarshal EncodeClusterCaptureOptions Quote OperatorNamespace
                     ManifestMoverServiceAccount ClusterManifestReaderClusterRole).
Notation capture := (advanceCapture Unmarshal EncodeClusterCaptureOptions Quote OperatorNamespace
                       ManifestMoverServiceAccount ClusterManifestReaderClusterRole).
Notation matchedOf cb nss := (nsselector.Match LabelSelectorAsSelector CompileRegexp nss (cbs_Namespaces (cb_Spec cb))).
Notation ownership cb c := (fst (classifyCoordinate c (cb_UID cb) (cb_Created cb))).

Lemma want_runs o tr x : runs (want o) tr x <-> tr = [ev o x].
Proof. apply (runs_call (I := runI)). Qed.

(** Takes the first request, or sub-program, off the program of a hypothesis. *)
Ltac walk H := walk_with ltac:(fun R => apply want_runs in R) H.

(** *** The fan-out *)

(** A namespace's coordinate was found in foreign hands. *)
Definition refused (cb : ClusterBackup) (tr : list act) (ns : string) : Prop :=
  exists c, ev (BGetChild ns (cb_Name cb)) (Ok c) ∈ tr /\ ownership cb c = coordinateForeign.

(** The requests the fan-out makes for a namespace. *)
Definition fans (cb : ClusterBackup) (tr : list act) (ns : string) (o : run_action) : Prop :=
  match o with
  | BGetChild n name => n = ns /\ name = cb_Name cb
  | BCreateChild b => b = childBackup cb ns
  | BPatchParent n name uid =>
      uid = cb_UID cb /\ exists c, ev (BGetChild ns (cb_Name cb)) (Ok c) ∈ tr /\ n = b_namespace c /\ name = b_name c
        /\ ownership cb c = coordinateAdoptable
  | BEvent _ _ => True
  | _ => False
  end.

Lemma fans_more cb tr tr' ns o : fans cb tr ns o -> tr ⊆ tr' -> fans cb tr' ns o.
Proof. destruct o; try done. cbn. intros (Hu & c & Hc & Hrest) Hs. split; [done|]. exists c. auto. Qed.

Lemma resolveExistingChild_spec cb c tr r :
  runs (resolveExistingChild cb c) tr r ->
  (forall e, e ∈ tr -> exists w, e = ev (BPatchParent (b_namespace c) (b_name c) (cb_UID cb)) w /\ ownership cb c = coordinateAdoptable)
  /\ (ownership cb c = coordinateForeign <-> exists x, r = FanCollision x).
Proof.
  unfold resolveExistingChild. intros H. destruct (classifyCoordinate c (cb_UID cb) (cb_Created cb)) as [[] reason]; cbn.
  - destruct H as [-> ->]. split; [by intros e He%not_elem_of_nil|]. split; [done|by intros []].
  - walk H. destruct H as [-> ->]. split; [|split; [done|by destruct x as [|]; intros []]].
    intros e He. rewrite app_nil_r in He. apply list_elem_of_singleton in He as ->. by exists x.
  - destruct H as [-> ->]. split; [by intros e He%not_elem_of_nil|]. split; [by eexists|done].
Qed.

(** The Backup a request read. *)
Definition childRead (e : act) : option (string * string * result Backup) :=
  match ev_action e as o return run_answer o -> option (string * string * result Backup) with
  | BGetChild ns name => fun x => Some (ns, name, x)
  | _ => fun _ => None
  end (ev_answer e).

Lemma childRead_inj ns name x ns' name' y : ev (BGetChild ns name) x = ev (BGetChild ns' name') y -> ns = ns' /\ name = name' /\ x = y.
Proof. intros E%(f_equal childRead). injection E as -> -> ->. done. Qed.

(** Refused just when one of the reads of the coordinate found it in foreign hands. *)
Lemma refused_in cb ns tr :
  refused cb tr ns <-> exists c, (ns, cb_Name cb, Ok c) ∈ omap childRead tr /\ ownership cb c = coordinateForeign.
Proof.
  unfold refused. split; intros (c & Hin & Ho); exists c; (split; [|done]).
  - apply list_elem_of_omap. by eexists.
  - apply list_elem_of_omap in Hin as ([o x] & Hin & He). destruct o; try done. by injection He as -> -> ->.
Qed.

(** A trace without a readable child refuses nothing. *)
Lemma refused_none cb ns tr : (forall c, (ns, cb_Name cb, Ok c) ∉ omap childRead tr) -> ~ refused cb tr ns.
Proof. intros H Hr. apply refused_in in Hr as (c & Hc & _). by destruct (H c). Qed.

(** What the resolution of a child that was read asks, after [pre]. *)
Lemma resolve_fans cb ns pre c tr r :
  runs (resolveExistingChild cb c) tr r -> (forall d, (ns, cb_Name cb, Ok d) ∉ omap childRead pre) ->
  (forall (t : list act) (e : act), e ∈ pre -> fans cb t ns (ev_action e)) ->
  let tr2 := (pre ++ ev (BGetChild ns (cb_Name cb)) (Ok c) :: tr)%list in
  (forall e : act, e ∈ tr2 -> fans cb tr2 ns (ev_action e)) /\ (refused cb tr2 ns <-> exists x, r = FanCollision x).
Proof.
  intros Hr Hpre Hq tr2. apply resolveExistingChild_spec in Hr as [Hp Hf]. split.
  - intros e [He|[->|He]%elem_of_cons]%elem_of_app; [by apply Hq|done|].
    apply Hp in He as (w & -> & Ha). split; [done|]. exists c. split; [apply elem_of_app; right; left|done].
  - rewrite <-Hf, refused_in. unfold tr2. rewrite omap_app. cbn.
    assert (omap childRead tr = []) as ->.
    { clear -Hp. induction tr as [|e tr IH]; [done|]. cbn. destruct (Hp e) as (w & -> & _); [left|]. cbn. apply IH.
      intros e' He'. apply Hp. by right. }
    setoid_rewrite elem_of_app. setoid_rewrite list_elem_of_singleton. split.
    + intros (d & [Hd|[= ->]] & Ho); [by destruct (Hpre d)|done].
    + intros Ho. exists c. split; [by right|done].
Qed.

(** What one namespace's fan-out asks, and when it is refused. *)
Lemma ensureChildBackup_spec cb ns tr r :
  runs (ensureChildBackup cb ns) tr r ->
  (forall e : act, e ∈ tr -> fans cb tr ns (ev_action e)) /\ (refused cb tr ns <-> exists x, r = FanCollision x).
Proof.
  assert (forall tr1 r1, (forall e : act, e ∈ tr1 -> fans cb tr1 ns (ev_action e)) -> (forall c, (ns, cb_Name cb, Ok c) ∉ omap childRead tr1) ->
            (forall x, r1 <> FanCollision x) ->
            (forall e : act, e ∈ tr1 -> fans cb tr1 ns (ev_action e)) /\ (refused cb tr1 ns <-> exists x, r1 = FanCollision x)) as Hno.
  { intros tr1 r1 H1 H2 H3. split; [done|]. split; [by intros []%refused_none|]. intros [x ->]. by destruct (H3 x). }
  intros H. unfold ensureChildBackup in H. walk H. destruct x as [c|e].
  { apply (resolve_fans cb ns [] c tr0 r H); [by intros d ?%not_elem_of_nil|by intros t e He%not_elem_of_nil]. }
  destruct (negb (IsNotFound e)).
  { destruct H as [-> ->]. apply Hno; [by intros e1 ->%list_elem_of_singleton|by intros d [=]%list_elem_of_singleton|done]. }
  walk H. destruct x as [e1|].
  - destruct (IsAlreadyExists e1).
    + walk H. rewrite app_assoc. destruct x as [d|e2].
      * apply resolve_fans; [done|by intros d' [=]%list_elem_of_singleton|]. intros t e3 He3. cbn in He3.
        rewrite elem_of_cons, list_elem_of_singleton in He3. by destruct He3 as [->| ->].
      * destruct H as [-> ->]. cbn. apply Hno; [|cbn; intros d; rewrite elem_of_cons, list_elem_of_singleton; by intros [|]|done].
        intros e3. rewrite !elem_of_cons. by intros [->|[->|[->|?%not_elem_of_nil]]].
    + destruct H as [-> ->]. cbn. apply Hno; [|by intros d [=]%list_elem_of_singleton|done].
      intros e3. rewrite !elem_of_cons. by intros [->|[->|?%not_elem_of_nil]].
  - walk H. destruct H as [-> ->]. cbn. apply Hno; [|by intros d [=]%list_elem_of_singleton|done].
    intros e3. rewrite !elem_of_cons. by intros [->|[->|[->|?%not_elem_of_nil]]].
Qed.

(** The fan-out: what it asks, and the coordinates it gives as taken are those found in
    foreign hands. *)
Lemma fanOne_fold cb nss acc tr acc' :
  runs (foldM (fanOne cb) acc nss) tr acc' ->
  (forall e : act, e ∈ tr -> exists ns, ns ∈ nss /\ fans cb tr ns (ev_action e))
  /\ (forall ns, is_Some (snd acc' !! ns) <-> is_Some (snd acc !! ns) \/ ns ∈ nss /\ refused cb tr ns).
Proof.
  revert acc tr. induction nss as [|ns nss IH]; intros acc tr H.
  { destruct H as [-> ->]. split; [by intros e ?%not_elem_of_nil|]. intros ns. split; [by left|]. by intros [|[?%not_elem_of_nil _]]. }
  apply foldM_cons in H as (tr1 & tr2 & acc1 & -> & H1 & H2). apply IH in H2 as [Hf2 Hc2]. unfold fanOne in H1. walk H1.
  apply ensureChildBackup_spec in R as [Hf1 Hc1]. destruct H1 as [-> ->]. rewrite app_nil_r in *.
  assert (forall n, refused cb (t ++ tr2) n <-> refused cb t n \/ refused cb tr2 n) as Happ.
  { intros n. unfold refused. setoid_rewrite elem_of_app. split; [intros (c & [Hc|Hc] & Ho); [left|right]; by exists c|].
    intros [(c & Hc & Ho)|(c & Hc & Ho)]; exists c; auto. }
  assert (forall n, refused cb t n -> n = ns) as Hn by (intros n (c & Hc & _); by apply Hf1 in Hc as []).
  assert (forall n, refused cb tr2 n -> n ∈ nss) as Hn2 by (intros n (c & Hc & _); by apply Hf2 in Hc as (m & Hm & -> & _)).
  assert (forall n, refused cb t n \/ refused cb tr2 n -> n ∈ ns :: nss) as Hn3.
  { intros n [H%Hn| H%Hn2]; apply elem_of_cons; auto. }
  split.
  - intros e [He|He]%elem_of_app.
    + exists ns. split; [left|]. eapply fans_more; [by apply Hf1|]. intros y Hy. apply elem_of_app. by left.
    + apply Hf2 in He as (n & Hn' & He). exists n. split; [by right|]. eapply fans_more; [done|]. intros y Hy. apply elem_of_app. by right.
  - intros n. rewrite Hc2, Happ. clear Hc2. transitivity (is_Some (snd acc !! n) \/ refused cb t n \/ refused cb tr2 n).
    2: { split; [intros [|Hr]; [by left|right; auto]|]. intros [|[_ Hr]]; auto. }
    assert (is_Some (snd (match x with FannedOut => acc | FanCollision c => (fst acc, <[ns := mkBlockedCoordinate (rc_Reason c) (rc_HasData c) c]> (snd acc))
              | FanError e => ((fst acc ++ [mkFailureRecord ns (cb_Name cb) (clampMessage (err_text e))])%list, snd acc) end) !! n)
            <-> is_Some (snd acc !! n) \/ refused cb t n) as ->.
    { destruct x as [|c|e]; cbn [fst snd].
      - split; [by left|]. intros [|Hr]; [done|]. rewrite (Hn n Hr) in Hr. by apply Hc1 in Hr as [].
      - destruct (decide (ns = n)) as [<-|Hne]; [rewrite lookup_insert_eq|rewrite lookup_insert_ne by done].
        + split; [|by eexists]. intros _. right. apply Hc1. by eexists.
        + split; [by left|]. intros [|Hr]; [done|]. by rewrite (Hn n Hr) in Hne.
      - split; [by left|]. intros [|Hr]; [done|]. rewrite (Hn n Hr) in Hr. by apply Hc1 in Hr as []. }
    split; [intros [[|]|[_ ]]; auto|]. intros [|[|Hr]]; auto.
Qed.

Lemma fanOut_spec cb nss tr acc :
  runs (fanOut cb nss) tr acc ->
  (forall e : act, e ∈ tr -> exists ns, fans cb tr ns (ev_action e) /\ (ns ∈ nss \/ exists t r, ev_action e = BEvent t r))
  /\ (forall ns, is_Some (snd acc !! ns) <-> ns ∈ nss /\ refused cb tr ns).
Proof.
  intros H. unfold fanOut in H. walk H. apply fanOne_fold in R as [Hf Hc]. cbn [snd] in Hc. setoid_rewrite lookup_empty in Hc.
  assert (forall ns, is_Some (snd x !! ns) <-> ns ∈ nss /\ refused cb t ns) as Hc'.
  { intros ns. rewrite Hc. split; [by intros [[]|]|by right]. }
  destruct (_ =? 0)%nat.
  - destruct H as [-> ->]. rewrite app_nil_r. split; [|done]. intros e He. destruct (Hf e He) as (ns & Hns & Hfa). exists ns. auto.
  - walk H. destruct H as [-> ->]. rewrite app_nil_r. split.
    + intros e [He|He]%elem_of_app.
      * destruct (Hf e He) as (ns & Hns & Hfa). exists ns. split; [|by left]. eapply fans_more; [done|]. intros y Hy. apply elem_of_app. by left.
      * apply list_elem_of_singleton in He as ->. exists "". split; [done|]. right. by eexists _, _.
    + intros ns. rewrite Hc'. split; intros [Hns (c & Hc1 & Ho)]; (split; [done|]); exists c; (split; [|done]).
      * apply elem_of_app. by left.
      * apply elem_of_app in Hc1 as [|Hc1]; [done|]. by apply list_elem_of_singleton in Hc1.
Qed.

(** *** The capture *)

(** What only one of the pieces of a pass does: the writes of the status, the requests
    about children, the removal of a Job. *)
Definition discreet (o : run_action) : Prop :=
  match o with
  | BStatusUpdate _ | BDeleteJob _ | BDeleteSecret _ | BGetChild _ _ | BCreateChild _ | BPatchParent _ _ _ => False
  | _ => True
  end.

Lemma capture_discreet cb loc matched : only (I := runI) discreet (capture cb loc matched).
Proof.
  unfold advanceCapture. destruct (_ && _); [|done]. apply only_bind.
  { unfold resolveClusterCaptureContext. apply only_bind; [by apply only_call|]. intros [repo|e]; [|done]. destruct (negb _); [done|].
    apply only_bind; [|done]. unfold captureDEK. apply only_bind; [by apply only_call|]. intros [i|e]; [|done].
    apply only_bind; [by apply only_call|]. intros [e|]; [done|]. apply only_bind; [by apply only_call|done]. }
  intros [[cc|]|e]; [|done|done]. apply only_bind; [|by intros [[[? ?] ?] [?|]]].
  unfold advanceClusterManifests. destruct (captureSettled cb); [done|]. apply only_bind; [by apply only_call|]. intros [job|e].
  - destruct (_ && _)%Z; [done|]. by apply only_bind; [apply only_call|].
  - destruct (IsNotFound e); [|done]. apply only_bind; [|done]. unfold startClusterManifestsJob. apply only_bind.
    { unfold captureCreds. apply only_bind; [by apply only_call|]. intros [ak|]; [|done]. apply only_bind; [by apply only_call|].
      intros [sk|]; [|done]. by apply only_bind; [apply only_call|]. }
    intros [e1|]; [done|]. apply only_bind; [unfold ensureClusterManifestBinding; by apply only_bind; [apply only_call|]|].
    intros [e1|]; [done|]. destruct (EncodeClusterCaptureOptions _); [|done]. apply only_bind; [by apply only_call|].
    intros [e1|]; [|done]. destruct (IsAlreadyExists e1); [done|]. by apply only_bind; [apply only_call|].
Qed.

Context {CSL : ConditionStoreLaws CS}.

(** Two states of a run in memory during a pass. *)
Definition sameRun (cb cb' : ClusterBackup) : Prop :=
  cb_Name cb' = cb_Name cb /\ cb_UID cb' = cb_UID cb /\ cb_Created cb' = cb_Created cb /\ cb_Spec cb' = cb_Spec cb
  /\ cst_CompletionTime (cb_Status cb') = cst_CompletionTime (cb_Status cb).

Lemma recordClusterManifests_settles res cb : sameRun cb (recordClusterManifests res cb) /\ captureSettled (recordClusterManifests res cb) = true.
Proof.
  assert (forall reason, captureSettled (recordClusterManifestsFailure reason cb) = true) as Hf.
  { intros reason. unfold captureSettled, recordClusterManifestsFailure, set_cb_condition; cbn. destruct (cst_ClusterManifests _); [done|].
    edestruct FindCondition_SetCondition as [t ->]. done. }
  unfold recordClusterManifests. destruct res as [m|e]; [|done]. destruct (negb _); [done|]. by destruct (mr_IncompleteManifests m).
Qed.

(** A capture that is over has its verdict, and hands its Job over when it settled it now. *)
Lemma advanceCapture_done cb loc matched tr cb' done job err :
  runs (capture cb loc matched) tr (cb', done, job, err) ->
  sameRun cb cb'
  /\ (done = true -> matched <> [] -> captureClusterManifests cb = true -> ClusterManifestReaderClusterRole <> "" -> captureSettled cb' = true)
  /\ (job <> "" -> done = true /\ job = clusterManifestsJobName (cb_Name cb) /\ captureSettled cb' = true
        /\ exists j, ev (BGetJob job) (Ok j) ∈ tr /\ (j_succeeded j <> 0 \/ j_failed j <> 0)%Z).
Proof.
  unfold advanceCapture. destruct ((0 <? length matched)%nat && captureClusterManifests cb && negb (ClusterManifestReaderClusterRole =? "")) eqn:Eg.
  2: { intros [-> [= -> -> -> ->]]. split; [done|]. split; [|done]. intros _ Hm Hc Hr. rewrite Hc in Eg.
       apply String.eqb_neq in Hr. rewrite Hr in Eg. destruct matched; [done|]. done. }
  intros H. walk H. destruct x as [[cc|]|e]; [|by destruct H as [-> [= -> -> -> ->]]..].
  walk H. destruct H as [-> Hr]. unfold advanceClusterManifests in R0. destruct (captureSettled cb) eqn:Es.
  { destruct R0 as [-> ->]. injection Hr as -> -> -> ->. done. }
  walk R0. destruct x0 as [j|e].
  - destruct ((_ =? _)%Z && _) eqn:Ej in R0; [destruct R0 as [-> ->]; by injection Hr as -> -> -> ->|].
    walk R0. destruct R0 as [-> ->]. injection Hr as -> -> -> ->.
    edestruct (recordClusterManifests_settles (fst (readMoverResult Unmarshal Quote OperatorNamespace x0 (clusterManifestsJobName (cb_Name cb)))) cb) as [H1 H2].
    split; [exact H1|]. split; [done|]. intros _. split_and!; [done|done|exact H2|]. exists j. split; [apply elem_of_app; right; left|].
    apply andb_false_iff in Ej as [Ej|Ej]; apply Z.eqb_neq in Ej; auto.
  - destruct (IsNotFound e); [walk R0; destruct R0 as [-> ->]; destruct x0|destruct R0 as [-> ->]]; by injection Hr as -> -> -> ->.
Qed.

(** *** The aggregate *)

Lemma setClusterBackupCondition_settled phase cb :
  captureSettled (setClusterBackupCondition phase cb) = captureSettled cb
  /\ cst_Phase (cb_Status (setClusterBackupCondition phase cb)) = cst_Phase (cb_Status cb).
Proof.
  assert (forall st reason message, captureSettled (set_cb_condition ConditionReady st reason message cb) = captureSettled cb) as Hs.
  { intros st reason message. unfold captureSettled, set_cb_condition; cbn. destruct (cst_ClusterManifests _); [done|].
    by rewrite FindCondition_SetCondition_ne by done. }
  unfold setClusterBackupCondition. repeat case_match; auto.
Qed.

(** It writes once, what the ledger over the children it listed says. *)
Lemma aggregate_spec cb matched ff bad captureDone tr o :
  runs (aggregateAndWrite cb matched ff bad captureDone) tr o ->
  (exists e e', tr = [ev (BListChildren (cb_Name cb)) (Err e)] /\ o = Err e')
  \/ exists children pre cb' w post,
       tr = (pre ++ ev (BStatusUpdate cb') w :: post)%list
       /\ Forall (fun e : act => discreet (ev_action e)) pre /\ Forall (fun e : act => discreet (ev_action e)) post
       /\ ev (BListChildren (cb_Name cb)) (Ok children) ∈ pre
       /\ cst_Phase (cb_Status cb')
          = runPhase (ledgerOutcomes (buildRunLedger (cb_Name cb) (cb_UID cb) (cb_Created cb) matched children bad)) captureDone
       /\ captureSettled cb' = captureSettled cb
       /\ (w = None <-> exists after, o = Ok after).
Proof.
  intros H. unfold aggregateAndWrite in H. walk H. destruct x as [children|e]; [right|left; by destruct H as [-> ->]; eexists _, _].
  assert (forall b s t x, runs (noteWhen b s) t x -> Forall (fun e : act => discreet (ev_action e)) t) as Hnote.
  { intros b s t x Hr. unfold noteWhen in Hr. destruct b; [apply want_runs in Hr as ->|destruct Hr as [-> _]]; by repeat constructor. }
  assert (forall b t0 t x, runs (stampOnce b t0) t x -> Forall (fun e : act => discreet (ev_action e)) t) as Hstamp.
  { intros b t0 t x Hr. unfold stampOnce in Hr. destruct t0; [destruct Hr as [-> _]; constructor|].
    destruct b; [|destruct Hr as [-> _]; constructor]. walk Hr. destruct Hr as [-> _]. by repeat constructor. }
  walk H. apply Hnote in R. walk H. apply Hnote in R0. walk H. apply Hstamp in R1. walk H. apply Hstamp in R2. walk H.
  match goal with H : runs (match ?w with Some _ => _ | None => _ end) ?post _ |- context [ev (BStatusUpdate ?c) _] =>
    exists children, ([ev (BListChildren (cb_Name cb)) (Ok children)] ++ t ++ t0 ++ t1 ++ t2)%list, c, w, post end.
  split_and!.
  - by rewrite <-!app_assoc.
  - repeat (apply Forall_app; split); [by repeat constructor|assumption..].
  - destruct x3 as [e|]; [destruct H as [-> _]; constructor|]. walk H. destruct H as [-> _]. rewrite app_nil_r.
    destruct (_ && _) in R3; [apply want_runs in R3 as ->; by repeat constructor|destruct R3 as [-> _]; constructor].
  - left.
  - apply setClusterBackupCondition_settled.
  - rewrite (proj1 (setClusterBackupCondition_settled _ _)). done.
  - destruct x3 as [e|]; [destruct H as [_ ->]; split; [done|by intros []]|]. walk H. destruct H as [_ ->]. split; [by eexists|done].
Qed.

(** *** Whole passes *)

(** The requests of a pass that is not a matter of reading the run and its scope, nor
    of parking it. *)
Definition substantial (o : run_action) : bool :=
  match o with
  | BGet | BGetLocation _ | BListNamespaces => false
  | BStatusUpdate cb => isTerminalClusterBackupPhase (cst_Phase (cb_Status cb))
  | _ => true
  end.

Lemma blockRun_insubstantial cb reason message tr o (e : act) :
  runs (blockRun cb reason message) tr o -> e ∈ tr -> substantial (ev_action e) = false.
Proof. intros H Hin. unfold blockRun in H. walk H. destruct H as [-> _]. rewrite app_nil_r in Hin. by apply list_elem_of_singleton in Hin as ->. Qed.

(** Such a request is made by a pass that drives a run that is not over. *)
Lemma reconcile_drives tr o (e : act) :
  runs reconcile tr o -> e ∈ tr -> substantial (ev_action e) = true ->
  exists cb loc nss matched tr',
    tr = (ev BGet (Ok cb) :: ev (BGetLocation (cbs_Location (cb_Spec cb))) (Ok loc) :: ev BListNamespaces (Ok nss) :: tr')%list
    /\ isTerminalClusterBackupPhase (cst_Phase (cb_Status cb)) = false
    /\ matchedOf cb nss = Ok matched /\ runs (drive cb loc matched) tr' o /\ e ∈ tr'.
Proof.
  intros H Hin Hs. unfold reconcileRun in H. walk H. apply elem_of_cons in Hin as [->|Hin]; [done|].
  destruct x as [cb|err]; [|destruct H as [-> _]; by apply not_elem_of_nil in Hin].
  destruct (isTerminalClusterBackupPhase _) eqn:Et; [destruct H as [-> _]; by apply not_elem_of_nil in Hin|].
  walk H. apply elem_of_cons in Hin as [->|Hin]; [done|]. destruct x as [loc|err].
  2: { destruct (IsNotFound err); [|destruct H as [-> _]; by apply not_elem_of_nil in Hin].
       by rewrite (blockRun_insubstantial _ _ _ _ _ _ H Hin) in Hs. }
  walk H. apply elem_of_cons in Hin as [->|Hin]; [done|]. destruct x as [nss|err]; [|destruct H as [-> _]; by apply not_elem_of_nil in Hin].
  destruct (nsselector.Match _ _ _ _) as [matched|err] eqn:Em; [|by rewrite (blockRun_insubstantial _ _ _ _ _ _ H Hin) in Hs].
  exists cb, loc, nss, matched, tr0. done.
Qed.

(** The halves of a drive, in their order; the teardown runs when the write was
    accepted. *)
Lemma drive_parts cb loc matched tr o :
  runs (drive cb loc matched) tr o ->
  exists t1 t2 t3 t4 acc cb1 done job err res,
    tr = (t1 ++ t2 ++ t3 ++ t4)%list
    /\ runs (fanOut cb matched) t1 acc /\ runs (capture cb loc matched) t2 (cb1, done, job, err)
    /\ runs (aggregateAndWrite cb1 matched (fst acc) (snd acc) done) t3 res
    /\ (t4 = [] \/ job <> "" /\ (exists after, res = Ok after)
          /\ exists w1 w2 w3, t4 = [ev (BDeleteBinding (captureBindingName job)) w1; ev (BDeleteJob job) w2; ev (BDeleteSecret job) w3]).
Proof.
  intros H. unfold driveRun in H. walk H. walk H. destruct x0 as [[[cb1 done] job] err]. walk H.
  destruct x0 as [after|e]; [|destruct H as [-> _]; exists t, t0, t1, []; eexists _, _, _, _, _, _; split_and!; try eassumption; [done|by left]].
  walk H. destruct H as [-> _]. rewrite app_nil_r. exists t, t0, t1, t2. eexists _, _, _, _, _, _. split_and!; try eassumption; [done|].
  destruct (String.eqb_spec job "") as [->|Hj]; [left; by destruct R2|right]. split; [done|]. split; [by eexists|].
  unfold teardownClusterManifests in R2. walk R2. walk R2. walk R2. destruct R2 as [-> _]. by eexists _, _, _.
Qed.

(** Only the aggregate writes the status. *)
Lemma drive_writes cb loc matched tr o cb' w :
  runs (drive cb loc matched) tr o -> ev (BStatusUpdate cb') w ∈ tr ->
  exists t1 t2 acc cb1 done job err children,
    t1 ⊆ tr /\ t2 ⊆ tr
    /\ runs (fanOut cb matched) t1 acc /\ runs (capture cb loc matched) t2 (cb1, done, job, err)
    /\ ev (BListChildren (cb_Name cb)) (Ok children) ∈ tr
    /\ cst_Phase (cb_Status cb')
       = runPhase (ledgerOutcomes (buildRunLedger (cb_Name cb) (cb_UID cb) (cb_Created cb) matched children (snd acc))) done
    /\ captureSettled cb' = captureSettled cb1
    /\ (forall ns, refused cb t1 ns <-> refused cb tr ns).
Proof.
  intros H Hin. apply drive_parts in H as (t1 & t2 & t3 & t4 & acc & cb1 & done & job & err & res & -> & Hf & Hc & Ha & H4).
  destruct (advanceCapture_done _ _ _ _ _ _ _ _ Hc) as [(Hn & Hu & Hcr & _) _].
  pose proof (fanOut_spec _ _ _ _ Hf) as [Hfan _].
  pose proof (only_runs _ _ _ _ (capture_discreet cb loc matched) Hc) as Hq. rewrite Forall_forall in Hq.
  assert (ev (BStatusUpdate cb') w ∈ t3) as H3.
  { rewrite !elem_of_app in Hin. destruct Hin as [Hin|[Hin|[Hin|Hin]]].
    - by apply Hfan in Hin as (ns & [] & _).
    - by destruct (Hq _ Hin).
    - done.
    - destruct H4 as [->|(_ & _ & w1 & w2 & w3 & ->)]; [by apply not_elem_of_nil in Hin|].
      rewrite !elem_of_cons in Hin. by destruct Hin as [|[|[|?%not_elem_of_nil]]]. }
  apply aggregate_spec in Ha as [(e & e' & -> & _)|(children & pre & cb2 & w2 & post & -> & Hpre & Hpost & Hl & Hph & Hset & _)].
  { by apply list_elem_of_singleton in H3. }
  rewrite Forall_forall in Hpre, Hpost. assert (cb2 = cb') as ->.
  { apply elem_of_app in H3 as [H3|[H3|H3]%elem_of_cons]; [by destruct (Hpre _ H3)|congruence|by destruct (Hpost _ H3)]. }
  rewrite Hn, Hu, Hcr in *. exists t1, t2, acc, cb1, done, job, err, children. split_and!; try done.
  - intros y Hy. apply elem_of_app. by left.
  - intros y Hy. rewrite !elem_of_app. auto.
  - rewrite !elem_of_app. auto.
  - intros ns. split; intros (c & Hin' & Ho); exists c; (split; [|done]); [apply elem_of_app; by left|].
    rewrite !elem_of_app, elem_of_cons in Hin'. destruct Hin' as [|[Hi|[[Hi|[|Hi]]|Hi]]]; [done|..].
    + by destruct (Hq _ Hi).
    + by destruct (Hpre _ Hi).
    + done.
    + by destruct (Hpost _ Hi).
    + destruct H4 as [->|(_ & _ & wa & wb & wc & ->)]; [by apply not_elem_of_nil in Hi|].
      rewrite !elem_of_cons in Hi. by destruct Hi as [|[|[|?%not_elem_of_nil]]].
Qed.

Lemma ledger_verdicts runName runUID runCreated matched children bad :
  let at_ := atCoordinate runName children in
  rl_verdicts (buildRunLedger runName runUID runCreated matched children bad)
  = map (fun ns => verdictOf runName runUID runCreated bad ns (at_ !! ns)) (matched ++ strays runUID matched at_).
Proof. cbv zeta. unfold buildRunLedger. rewrite <-fold_left_app.
  exact (proj1 (addNamespaces runName runUID runCreated bad _ _ (mkRunLedger [] 0 0 0))). Qed.

Lemma strays_length runName runUID matched (children : list Backup) :
  length (strays runUID matched (atCoordinate runName children)) <= length children.
Proof.
  rewrite <-(length_map b_namespace children). apply submseteq_length, NoDup_submseteq; [apply strays_nodup|].
  intros ns (_ & c & Hc & _)%elem_of_strays. apply atCoordinate_some in Hc as (Hin & _ & <-). apply list_elem_of_fmap. by exists c.
Qed.

(** A terminal phase needs every namespace of the ledger settled, and the capture over. *)
Lemma runPhase_terminal os captureDone :
  isTerminalClusterBackupPhase (runPhase os captureDone) = true -> (Z.of_nat (length os) < 2 ^ 31)%Z ->
  os = [] \/ captureDone = true /\ NamespaceInFlight ∉ os.
Proof.
  intros Ht Hl. unfold runPhase in Ht. destruct (Nat.eqb_spec (length os) 0) as [E|E]; [left; by apply length_zero_iff_nil|right].
  destruct (RollUpNamespaceOutcomes_spec os Hl) as (_ & Hrun & _).
  destruct captureDone; cbn [negb andb] in Ht; [|by destruct (isTerminalClusterBackupPhase (RollUpNamespaceOutcomes os)) eqn:Er; [|rewrite Er in Ht]].
  split; [done|]. intros Hin%Hrun. by rewrite Hin in Ht.
Qed.

Lemma runPhase_completed os captureDone :
  runPhase os captureDone = ClusterBackupPhaseCompleted -> (Z.of_nat (length os) < 2 ^ 31)%Z ->
  forall oc, oc ∈ os -> oc = NamespaceSucceeded.
Proof.
  intros Hc Hl. unfold runPhase in Hc. destruct (Nat.eqb_spec (length os) 0) as [E|E].
  { apply length_zero_iff_nil in E as ->. by intros oc ?%not_elem_of_nil. }
  destruct (negb captureDone && _); [done|]. by apply RollUpNamespaceOutcomes_spec in Hc as [_ Hc].
Qed.

(** The namespace has its answer: a refusal of the fan-out, a projection in the way, or
    a child whose Backup has ended; and the better answer, a child that succeeded. *)
Definition settledThere (cb : ClusterBackup) (children : list Backup) (tr : list act) (ns : string) : Prop :=
  refused cb tr ns
  \/ exists c, c ∈ children /\ b_name c = cb_Name cb /\ b_namespace c = ns
       /\ (isProjection c = true \/ OutcomeForBackupPhase (b_phase c) <> NamespaceInFlight).
Definition succeededThere (cb : ClusterBackup) (children : list Backup) (tr : list act) (ns : string) : Prop :=
  ~ refused cb tr ns
  /\ exists c, c ∈ children /\ b_name c = cb_Name cb /\ b_namespace c = ns /\ isProjection c = false
       /\ OutcomeForBackupPhase (b_phase c) = NamespaceSucceeded.

Lemma verdict_settles cb children tr bad ns :
  (is_Some (bad !! ns) -> refused cb tr ns) ->
  nv_outcome (verdictOf (cb_Name cb) (cb_UID cb) (cb_Created cb) bad ns (atCoordinate (cb_Name cb) children !! ns)) <> NamespaceInFlight ->
  settledThere cb children tr ns.
Proof.
  intros Hb Hv. destruct (verdictOf_cases (cb_Name cb) (cb_UID cb) (cb_Created cb) bad ns (atCoordinate (cb_Name cb) children !! ns))
    as (_ & _ & _ & H3 & H4).
  destruct (nv_outcome _) eqn:E; [done|..|].
  - destruct H4 as (_ & c & Hc%atCoordinate_some & Hp & Ho); [by left|]. destruct Hc as (? & ? & ?). right. exists c. split_and!; [done..|]. right. by rewrite <-Ho.
  - destruct H4 as (_ & c & Hc%atCoordinate_some & Hp & Ho); [by right|]. destruct Hc as (? & ? & ?). right. exists c. split_and!; [done..|]. right. by rewrite <-Ho.
  - destruct H3 as [H3 _]. destruct H3 as [Hbad|(c & Hc%atCoordinate_some & Hp)]; [done|by left; apply Hb|].
    destruct Hc as (? & ? & ?). right. exists c. split_and!; [done..|]. by left.
Qed.

Lemma Match_length nss sel matched :
  nsselector.Match LabelSelectorAsSelector CompileRegexp nss sel = Ok matched -> length matched <= length nss.
Proof.
  intros Hm. pose proof (nsselector.Match_spec LabelSelectorAsSelector CompileRegexp nss sel) as H. rewrite Hm in H.
  destruct H as (_ & _ & H). rewrite H, length_map. apply filter_length_le.
Qed.

(** C9. A run ends only when it has its answers.  A write of a terminal phase comes from a
    pass which read a run that was not over and matched its namespaces; every matched
    namespace, and every other one with a child the run stamped, is settled; and when some
    namespace matched in that very pass, the capture of the cluster-scoped objects,
    if it is wanted, has its verdict in the status that is written.  (When none matches in
    that pass the capture is not asked about, even if earlier passes matched and started one: such a
    run can end Completed with its capture unsettled, as run_strands_its_capture shows,
    which is not what the comments at clusterbackup_controller.go:266 and 779 intend.)
    The run is Completed only when in each matched namespace
    the coordinate was not found in foreign hands and a child which is no projection
    succeeded.  The bound is that of the int32 counters. *)
Theorem run_terminal_earned tr o cb' w :
  runs reconcile tr o -> ev (BStatusUpdate cb') w ∈ tr -> isTerminalClusterBackupPhase (cst_Phase (cb_Status cb')) = true ->
  (forall nss run children, ev BListNamespaces (Ok nss) ∈ tr -> ev (BListChildren run) (Ok children) ∈ tr ->
     (Z.of_nat (length nss + length children) < 2 ^ 31)%Z) ->
  exists cb nss matched children,
    ev BGet (Ok cb) ∈ tr /\ isTerminalClusterBackupPhase (cst_Phase (cb_Status cb)) = false
    /\ ev BListNamespaces (Ok nss) ∈ tr /\ matchedOf cb nss = Ok matched /\ ev (BListChildren (cb_Name cb)) (Ok children) ∈ tr
    /\ (forall ns, ns ∈ matched -> settledThere cb children tr ns)
    /\ (forall ns c, atCoordinate (cb_Name cb) children !! ns = Some c -> stampedBy (cb_UID cb) c = true -> settledThere cb children tr ns)
    /\ (cst_Phase (cb_Status cb') = ClusterBackupPhaseCompleted -> forall ns, ns ∈ matched -> succeededThere cb children tr ns)
    /\ (matched <> [] -> captureClusterManifests cb = true -> ClusterManifestReaderClusterRole <> "" -> captureSettled cb' = true).
Proof.
  intros H Hin Ht Hsmall. destruct (reconcile_drives _ _ _ H Hin Ht) as (cb & loc & nss & matched & tr' & -> & Hnt & Hm & Hd & Hin').
  destruct (drive_writes _ _ _ _ _ _ _ Hd Hin') as (t1 & t2 & acc & cb1 & done & job & err & children & H1 & H2 & Hf & Hc & Hl & Hph & Hset & Href).
  exists cb, nss, matched, children. pose proof (Match_length _ _ _ Hm) as Hml.
  assert (ev BListNamespaces (Ok nss) ∈ ev BGet (Ok cb) :: ev (BGetLocation (cbs_Location (cb_Spec cb))) (Ok loc) :: ev BListNamespaces (Ok nss) :: tr')%list
    as Hnss by (right; right; left).
  assert (ev (BListChildren (cb_Name cb)) (Ok children) ∈ ev BGet (Ok cb) :: ev (BGetLocation (cbs_Location (cb_Spec cb))) (Ok loc) :: ev BListNamespaces (Ok nss) :: tr')%list
    as Hch by (do 3 right; done).
  specialize (Hsmall _ _ _ Hnss Hch). set (trAll := (_ :: _ :: _ :: tr')%list) in *.
  assert (forall ns, refused cb tr' ns <-> refused cb trAll ns) as Hra.
  { intros ns. unfold refused, trAll. setoid_rewrite elem_of_cons. setoid_rewrite elem_of_cons. setoid_rewrite elem_of_cons.
    split; intros (c & Hc' & Ho); exists c; (split; [|done]); [auto|]. by destruct Hc' as [|[|[|]]]. }
  destruct (fanOut_spec _ _ _ _ Hf) as [_ Hbad].
  rewrite Hph in Ht. unfold ledgerOutcomes in *. rewrite ledger_verdicts in *. rewrite map_map in *.
  set (os := map _ (matched ++ _)) in *.
  assert (Z.of_nat (length os) < 2 ^ 31)%Z as Hos.
  { unfold os. rewrite length_map, length_app. pose proof (strays_length (cb_Name cb) (cb_UID cb) matched children). lia. }
  assert (forall ns, ns ∈ (matched ++ strays (cb_UID cb) matched (atCoordinate (cb_Name cb) children))%list ->
     settledThere cb children trAll ns) as Hall.
  { intros ns Hns. apply (verdict_settles _ _ _ (snd acc)).
    - intros Hs%Hbad. apply Hra, Href. by destruct Hs.
    - destruct (runPhase_terminal _ _ Ht Hos) as [Hnil|[_ Hif]].
      + assert (os = [] -> False) as []; [|done]. unfold os. intros E%map_eq_nil. rewrite E in Hns. by apply not_elem_of_nil in Hns.
      + intros E. apply Hif. unfold os. apply list_elem_of_fmap. exists ns. by rewrite E. }
  split_and!; [by left|done|done|done|done|..].
  - intros ns Hns. apply Hall, elem_of_app. by left.
  - intros ns c Hat Hst. apply Hall, elem_of_app. destruct (decide (ns ∈ matched)); [by left|right]. apply elem_of_strays. split; [done|]. by exists c.
  - intros Hcomp ns Hns. rewrite Hph in Hcomp.
    assert (nv_outcome (verdictOf (cb_Name cb) (cb_UID cb) (cb_Created cb) (snd acc) ns (atCoordinate (cb_Name cb) children !! ns))
            = NamespaceSucceeded) as Hs1.
    { apply (runPhase_completed _ _ Hcomp Hos). unfold os. apply list_elem_of_fmap. exists ns. split; [done|]. apply elem_of_app. by left. }
    destruct (verdictOf_cases (cb_Name cb) (cb_UID cb) (cb_Created cb) (snd acc) ns (atCoordinate (cb_Name cb) children !! ns))
      as (_ & _ & _ & _ & H4). destruct H4 as (Hb & c & Hc' & Hp & Ho); [by left|]. apply atCoordinate_some in Hc' as (? & ? & ?). split.
    + intros Hr%Hra%Href. assert (is_Some (snd acc !! ns)) as [? Hs] by (by apply Hbad). by rewrite Hb in Hs.
    + exists c. split_and!; try done. by rewrite <-Ho, Hs1.
  - intros Hne Hcap Hrole. rewrite Hset. destruct (advanceCapture_done _ _ _ _ _ _ _ _ Hc) as (_ & Hd1 & _). apply Hd1; [|done..].
    destruct (runPhase_terminal _ _ Ht Hos) as [Hnil|[-> _]]; [|done]. unfold os in Hnil. apply map_eq_nil, app_eq_nil in Hnil as [-> _]. done.
Qed.

(** *** The children *)

(** A coordinate is adopted only from nobody, and only before it holds anything. *)
Lemma adoptable_spec (c : Backup) owner created :
  fst (classifyCoordinate c owner created) = coordinateAdoptable ->
  lget (b_annotations c) AnnotationParentUID = "" /\ isProjection c = false /\ isTerminalBackupPhase (b_phase c) = false
  /\ backupHasResults c = false.
Proof.
  unfold classifyCoordinate, isProjection. destruct (String.eqb_spec (lget (b_annotations c) AnnotationParentUID) "") as [->|]; cbn [negb andb].
  - repeat case_match; try done.
  - repeat case_match; try done.
Qed.

(** C11. The fan-out writes only what is the run's.  A Backup is created only for a namespace
    the selector matched in this pass, at the run's coordinate, with the run's stamp and
    a copy of its configuration; the one other write is the run's stamp, on a Backup
    this pass read at the coordinate without a stamp, which is no projection, has not
    ended and holds no result. *)
Theorem fanout_writes_its_own tr o (e : act) :
  runs reconcile tr o -> e ∈ tr ->
  let driven P := exists cb nss matched, ev BGet (Ok cb) ∈ tr /\ ev BListNamespaces (Ok nss) ∈ tr /\ matchedOf cb nss = Ok matched
                    /\ exists ns, ns ∈ matched /\ P cb ns in
  match ev_action e with
  | BCreateChild b => driven (fun cb ns => b = childBackup cb ns)
  | BPatchParent n name uid =>
      driven (fun cb ns => uid = cb_UID cb /\ exists c, ev (BGetChild ns (cb_Name cb)) (Ok c) ∈ tr /\ n = b_namespace c /\ name = b_name c
        /\ lget (b_annotations c) AnnotationParentUID = "" /\ isProjection c = false /\ isTerminalBackupPhase (b_phase c) = false
        /\ backupHasResults c = false)
  | _ => True
  end.
Proof.
  intros H Hin driven. destruct (match ev_action e with BCreateChild _ | BPatchParent _ _ _ => true | _ => false end) eqn:Es;
    [|by destruct (ev_action e)].
  assert (exists cb nss matched ns tr', ev BGet (Ok cb) ∈ tr /\ ev BListNamespaces (Ok nss) ∈ tr /\ matchedOf cb nss = Ok matched
            /\ ns ∈ matched /\ tr' ⊆ tr /\ fans cb tr' ns (ev_action e)) as (cb & nss & matched & ns & tr' & H1 & H2 & H3 & H4 & H5 & H6).
  { destruct (reconcile_drives _ _ e H Hin) as (cb & loc & nss & matched & tr' & -> & _ & Hm & Hd & Hin'); [by destruct (ev_action e)|].
    apply drive_parts in Hd as (t1 & t2 & t3 & t4 & acc & cb1 & done & job & err & res & -> & Hf & Hc & Ha & Ht4).
    assert (e ∈ t1) as He.
    { rewrite !elem_of_app in Hin'. destruct Hin' as [|[Hi|[Hi|Hi]]]; [done|exfalso..].
      - pose proof (only_runs _ _ _ _ (capture_discreet cb loc matched) Hc) as Hq. rewrite Forall_forall in Hq. specialize (Hq _ Hi).
        by destruct (ev_action e).
      - apply aggregate_spec in Ha as [(e1 & e2 & -> & _)|(children & pre & cb2 & w2 & post & -> & Hpre & Hpost & _)].
        + by apply list_elem_of_singleton in Hi as ->.
        + rewrite Forall_forall in Hpre, Hpost. apply elem_of_app in Hi as [Hi|[->|Hi]%elem_of_cons]; [specialize (Hpre _ Hi)|done|specialize (Hpost _ Hi)];
            by destruct (ev_action e).
      - destruct Ht4 as [->|(_ & _ & wa & wb & wc & ->)]; [by apply not_elem_of_nil in Hi|].
        rewrite !elem_of_cons in Hi. by destruct Hi as [->|[->|[->|?%not_elem_of_nil]]]. }
    apply fanOut_spec in Hf as [Hf _]. apply Hf in He as (ns & Hfans & [Hns|(t & r & Ee)]); [|by rewrite Ee in Es].
    exists cb, nss, matched, ns, t1. split_and!; [left|right; right; left|done|done| |done].
    intros y Hy. do 3 right. apply elem_of_app. by left. }
  destruct (ev_action e); try done; cbn in H6.
  - exists cb, nss, matched. split_and!; [done..|]. by exists ns.
  - destruct H6 as (Hu & c & Hc & Hn & Hname & Ho). exists cb, nss, matched. split_and!; [done..|]. exists ns. split; [done|]. split; [done|].
    exists c. split; [by apply H5|]. split; [done|]. split; [done|]. by apply adoptable_spec in Ho.
Qed.

(** The capture outlives the status that records it: its Job and its Secret are removed
    only after the write of a status with the capture's verdict was accepted, and after
    the Job was read as finished. *)
Theorem capture_outlives_status tr o job w :
  runs reconcile tr o -> ev (BDeleteJob job) w ∈ tr ->
  exists pre post cb cb' j,
    tr = (pre ++ ev (BDeleteJob job) w :: post)%list
    /\ ev BGet (Ok cb) ∈ pre /\ job = clusterManifestsJobName (cb_Name cb)
    /\ ev (BStatusUpdate cb') None ∈ pre /\ captureSettled cb' = true
    /\ ev (BGetJob job) (Ok j) ∈ pre /\ (j_succeeded j <> 0 \/ j_failed j <> 0)%Z.
Proof.
  intros H Hin. destruct (reconcile_drives _ _ _ H Hin) as (cb & loc & nss & matched & tr' & -> & _ & Hm & Hd & Hin'); [done|].
  apply drive_parts in Hd as (t1 & t2 & t3 & t4 & acc & cb1 & done & job' & err & res & -> & Hf & Hc & Ha & Ht4).
  apply fanOut_spec in Hf as [Hf _]. pose proof (only_runs _ _ _ _ (capture_discreet cb loc matched) Hc) as Hq. rewrite Forall_forall in Hq.
  destruct (advanceCapture_done _ _ _ _ _ _ _ _ Hc) as (Hsame & _ & Hjob).
  apply aggregate_spec in Ha as [(e1 & e2 & -> & ->)|(children & pre & cb2 & w2 & post & -> & Hpre & Hpost & _ & _ & Hset & Hw)].
  { exfalso. destruct Ht4 as [->|(_ & [a [=]] & _)]. rewrite !elem_of_app in Hin'. destruct Hin' as [Hi|[Hi|[Hi|Hi]]].
    - by apply Hf in Hi as (ns & [] & _).
    - by apply Hq in Hi.
    - by apply list_elem_of_singleton in Hi.
    - by apply not_elem_of_nil in Hi. }
  rewrite Forall_forall in Hpre, Hpost. rewrite !elem_of_app, elem_of_cons in Hin'. destruct Hin' as [Hi|[Hi|[[Hi|[Hi|Hi]]|Hi]]].
  - by apply Hf in Hi as (ns & [] & _).
  - by apply Hq in Hi.
  - by apply Hpre in Hi.
  - done.
  - by apply Hpost in Hi.
  - destruct Ht4 as [->|(Hj & Hok & wa & wb & wc & ->)]; [by apply not_elem_of_nil in Hi|].
    destruct (Hjob Hj) as (_ & -> & Hs & j & Hgj & Hfin). apply Hw in Hok as ->.
    rewrite !elem_of_cons in Hi. destruct Hi as [Hi|[Hi|[Hi|?%not_elem_of_nil]]]; [done| |done|done].
    assert (job = clusterManifestsJobName (cb_Name cb)) as -> by congruence. 
    eexists ([ev BGet (Ok cb); _; _] ++ t1 ++ t2 ++ pre ++ [ev (BStatusUpdate cb2) None] ++ post ++ [_])%list, [_], cb, cb2, j.
    split_and!; [|left|done| |by rewrite Hset| |done].
    + rewrite Hi. cbn. rewrite <-!app_assoc. cbn. by rewrite <-!app_assoc.
    + rewrite !elem_of_app. do 4 right. left. left.
    + rewrite !elem_of_app. auto.
Qed.
End Passes.

(** ** Witnesses *)

#[local] Notation ev o x := (Ev (I := runI) o x).

#[local] Existing Instance MapConditionStore.

Lemma ledger_accounts_witness :
  NoDup ["a"; "b"] /\ counters (buildRunLedger "run" "uid" 0 ["a"; "b"] ([] : list (@Backup MapConditionStore)) ∅) = tallyOf [].
Proof.
  assert (NoDup ["a"; "b"]) as Hn by (apply (bool_decide_unpack _); vm_compute; exact I). split; [exact Hn|].
  destruct (ledger_accounts "run" "uid" 0 ["a"; "b"] ([] : list (@Backup MapConditionStore)) ∅ Hn) as (strayed & Hm & _ & _ & _ & Hc).
  rewrite Hc. cbn in Hm. injection Hm as <-. reflexivity.
Defined.

Definition wit_cb_run : BackupRunSpec := mkBackupRunSpec (mkPVCSelector ∅ [] []) None false (mkHooksSpec false [] [] "") 0 2.

(** A run over the namespaces named team, with or without its cluster-scoped half. *)
Definition wit_cb (capture : bool) (phase : string) : @ClusterBackup MapConditionStore :=
  mkClusterBackup "nightly" "uid" 1 1
    (mkClusterBackupSpec "" "loc" (nsselector.mkNamespaceSelector ["team"] ∅ [] "" []) (mkCaptureSpec (Some capture) [] []) wit_cb_run)
    (mkClusterBackupStatus phase None None 0 0 0 0 0 0 0 None 0 [] [] ∅).

(** A Backup at the run's coordinate, stamped by a run. *)
Definition wit_cb_child (stamp phase : string) : @Backup MapConditionStore :=
  @mkBackup MapConditionStore "team" "nightly" 1 1 false (<[LabelClusterBackup := "nightly"]> ∅)
    (if stamp =? "" then ∅ else <[AnnotationParentUID := stamp]> ∅) [] (mkBackupSpec "" kindClusterBackupLocation "loc" (Some wit_cb_run))
    (@mkBackupStatus MapConditionStore phase None None None
       [mkVolumeStatus "data" "1a2b" 7 7 (if isTerminalBackupPhase phase then VolumePhaseCompleted else VolumePhasePending) "" "" None None] [] 0 ∅).

Definition wit_cb_server (cb : @ClusterBackup MapConditionStore) (nss : list nsselector.Namespace)
    (child : result (@Backup MapConditionStore)) (children : list (@Backup MapConditionStore)) (job : result Job)
    : server (@runI MapConditionStore) :=
  fun _ o =>
    match o return run_answer o with
    | BGet => Ok cb
    | BGetLocation _ => Ok (mkMaintainedLocation "loc" false "cid" "" "creds" "kek" None None)
    | BListNamespaces => Ok nss
    | BGetChild _ _ => child
    | BListChildren _ => Ok children
    | BGetRepository _ => Ok (mkRepository "loc" "uid" 0 1 false (mkRepositoryStatus true "s3:bucket/repo" 1 0 [] None None "" ∅))
    | BReadSecret _ _ _ | BEnsureDEK _ => Ok "secret"
    | BGetJob _ => job
    | BListPods _ => Ok []
    | BCreateChild _ | BPatchParent _ _ _ | BAgeIdentity _ | BCreateSecret _ _ _ _ _ | BCreateBinding _ | BDeleteBinding _
    | BCreateJob _ | BDeleteJob _ | BDeleteSecret _ | BStatusUpdate _ => None
    | BEvent _ _ | BRecordTerminal _ => tt
    | BNow => hour
    end.

Definition wit_cb_unmarshal (s : string) : result MoverResult := Err (errorf "not JSON").
Notation wit_cb_reconcile :=
  (reconcileRun (CS := MapConditionStore) (fun _ => Ok (fun _ => true)) (fun _ => Err (errorf "no regexp")) wit_cb_unmarshal
     (fun _ => Ok "{}") id "ops" "movers" "reader").
Notation wit_cb_pass cb nss child children job := (exec (wit_cb_server cb nss child children job) wit_cb_reconcile []).

Definition wit_cb_team : list nsselector.Namespace := [nsselector.mkNamespace "team" ∅].
Definition wit_cb_missing : gerr := mkErr ENotFound "not found".

(** The last status written, the Jobs created and the Jobs deleted. *)
Definition wit_cb_written (tr : list (event (@runI MapConditionStore))) : option (@ClusterBackup MapConditionStore) :=
  last (omap (fun e : event (@runI MapConditionStore) => match ev_action e with BStatusUpdate cb => Some cb | _ => None end) tr).
Definition wit_cb_started (tr : list (event (@runI MapConditionStore))) : list string :=
  omap (fun e : event (@runI MapConditionStore) => match ev_action e with BCreateJob j => Some (cj_Name j) | _ => None end) tr.
Definition wit_cb_removed (tr : list (event (@runI MapConditionStore))) : list string :=
  omap (fun e : event (@runI MapConditionStore) => match ev_action e with BDeleteJob j => Some j | _ => None end) tr.

(** A run whose one child has completed. *)
Definition wit_cb_ends := wit_cb_pass (wit_cb false "") wit_cb_team (Ok (wit_cb_child "uid" BackupPhaseCompleted))
  [wit_cb_child "uid" BackupPhaseCompleted] (Err wit_cb_missing).
Definition wit_cb_end : ClusterBackup := default (wit_cb false "") (wit_cb_written (fst wit_cb_ends)).

(** The listings of a trace are short. *)
Definition wit_cb_short (e : event (@runI MapConditionStore)) : bool :=
  match ev_action e as o return run_answer o -> bool with
  | BListNamespaces => fun x => match x with Ok l => (length l <=? 1)%nat | Err _ => true end
  | BListChildren _ => fun x => match x with Ok l => (length l <=? 1)%nat | Err _ => true end
  | _ => fun _ => true
  end (ev_answer e).

Lemma wit_cb_bounded (tr : list (event (@runI MapConditionStore))) :
  forallb wit_cb_short tr = true ->
  forall nss run children, ev BListNamespaces (Ok nss) ∈ tr -> ev (BListChildren run) (Ok children) ∈ tr ->
    (Z.of_nat (length nss + length children) < 2 ^ 31)%Z.
Proof.
  intros H nss run children H1 H2. rewrite forallb_forall in H.
  pose proof (H _ (proj1 (list_elem_of_In _ _) H1)) as H3%Nat.leb_le. pose proof (H _ (proj1 (list_elem_of_In _ _) H2)) as H4%Nat.leb_le. lia.
Qed.

Lemma run_terminal_earned_witness :
  cst_Phase (cb_Status wit_cb_end) = ClusterBackupPhaseCompleted
  /\ exists cb nss matched children, ev BGet (Ok cb) ∈ fst wit_cb_ends /\ ev BListNamespaces (Ok nss) ∈ fst wit_cb_ends
       /\ nsselector.Match (fun _ => Ok (fun _ => true)) (fun _ => Err (errorf "no regexp")) nss (cbs_Namespaces (cb_Spec cb)) = Ok matched
       /\ forall ns, ns ∈ matched -> succeededThere cb children (fst wit_cb_ends) ns.
Proof.
  split; [vm_compute; reflexivity|].
  destruct (run_terminal_earned (fun _ => Ok (fun _ => true)) (fun _ => Err (errorf "no regexp")) wit_cb_unmarshal (fun _ => Ok "{}") id
              "ops" "movers" "reader" (fst wit_cb_ends) (snd wit_cb_ends) wit_cb_end None)
    as (cb & nss & matched & children & Hg & _ & Hn & Hm & _ & _ & _ & Hs & _).
  - exact (exec_runs (wit_cb_server _ _ _ _ _) wit_cb_reconcile []).
  - apply (list_elem_of_lookup_2 _ 7). vm_compute. reflexivity.
  - vm_compute. reflexivity.
  - apply wit_cb_bounded. vm_compute. reflexivity.
  - exists cb, nss, matched, children. split_and!; [exact Hg|exact Hn|exact Hm|]. apply Hs. vm_compute. reflexivity.
Defined.

(** A run fans out, and another ends its capture. *)
Definition wit_cb_fans := wit_cb_pass (wit_cb true "") wit_cb_team (Err wit_cb_missing) [] (Err wit_cb_missing).

Lemma fanout_writes_its_own_witness :
  exists cb nss (matched : list string) ns, ev BListNamespaces (Ok nss) ∈ fst wit_cb_fans /\ ns ∈ matched /\ ev BGet (Ok cb) ∈ fst wit_cb_fans
    /\ childBackup (wit_cb true "") "team" = childBackup cb ns.
Proof.
  assert (ev (BCreateChild (childBackup (wit_cb true "") "team")) None ∈ fst wit_cb_fans) as Hin
    by (apply (list_elem_of_lookup_2 _ 4); vm_compute; reflexivity).
  pose proof (fanout_writes_its_own (fun _ => Ok (fun _ => true)) (fun _ => Err (errorf "no regexp")) wit_cb_unmarshal (fun _ => Ok "{}") id
              "ops" "movers" "reader" (fst wit_cb_fans) (snd wit_cb_fans) _
              (exec_runs (wit_cb_server _ _ _ _ _) wit_cb_reconcile []) Hin) as H.
  destruct H as (cb & nss & matched & Hg & Hn & _ & ns & Hns & Hc). by exists cb, nss, matched, ns.
Defined.

Definition wit_cb_settles := wit_cb_pass (wit_cb true "") wit_cb_team (Ok (wit_cb_child "uid" BackupPhaseCompleted))
  [wit_cb_child "uid" BackupPhaseCompleted] (Ok (mkJob "nightly-cluster-manifests-mover" ∅ 0 None 1 0 [])).

Lemma capture_outlives_status_witness :
  wit_cb_removed (fst wit_cb_settles) = ["nightly-cluster-manifests-mover"]
  /\ exists cb', ev (BStatusUpdate cb') None ∈ fst wit_cb_settles /\ captureSettled cb' = true.
Proof.
  split; [vm_compute; reflexivity|].
  destruct (capture_outlives_status (fun _ => Ok (fun _ => true)) (fun _ => Err (errorf "no regexp")) wit_cb_unmarshal (fun _ => Ok "{}") id
              "ops" "movers" "reader" (fst wit_cb_settles) (snd wit_cb_settles) "nightly-cluster-manifests-mover" None)
    as (pre & post & cb & cb' & j & Et & _ & _ & Hw & Hs & _).
  - exact (exec_runs (wit_cb_server _ _ _ _ _) wit_cb_reconcile []).
  - apply (list_elem_of_lookup_2 _ 16). vm_compute. reflexivity.
  - exists cb'. split; [rewrite Et; apply elem_of_app; by left|exact Hs].
Defined.

(** ** Two runs that end without their answers *)

(** The coordinate holds the finished Backup of another run, and the read that would
    have refused it fails: its phase is counted, and the run is Completed. *)
Example run_counts_a_stranger :
  let tr := fst (wit_cb_pass (wit_cb false "") wit_cb_team (Err (errorf "timeout")) [wit_cb_child "another" BackupPhaseCompleted]
                   (Err wit_cb_missing)) in
  option_map (fun cb => (cst_Phase (cb_Status cb), cst_NamespacesSucceeded (cb_Status cb), length (cst_Failures (cb_Status cb)))) (wit_cb_written tr)
  = Some (ClusterBackupPhaseCompleted, 1%Z, 1%nat)
  /\ fst (classifyCoordinate (wit_cb_child "another" BackupPhaseCompleted) "uid" 1) = coordinateForeign.
Proof. split; vm_compute; reflexivity. Qed.

(** The capture has started when the selector stops matching: the run ends as
    Completed, and nothing records or removes the capture. *)
Example run_strands_its_capture :
  let job := "nightly-cluster-manifests-mover" in
  let tr := fst (wit_cb_pass (wit_cb true ClusterBackupPhaseRunning) [] (Err wit_cb_missing) [wit_cb_child "uid" BackupPhaseCompleted]
                   (Ok (mkJob job ∅ 0 None 0 0 []))) in
  wit_cb_started (fst wit_cb_fans) = [job]
  /\ option_map (fun cb => (cst_Phase (cb_Status cb), captureSettled cb)) (wit_cb_written tr) = Some (ClusterBackupPhaseCompleted, false)
  /\ wit_cb_removed tr = []
  /\ map (fun e : event (@runI MapConditionStore) => ev_action e)
       (fst (wit_cb_pass (wit_cb true ClusterBackupPhaseCompleted) wit_cb_team (Err wit_cb_missing) [] (Err wit_cb_missing))) = [BGet].
Proof. split_and!; vm_compute; reflexivity. Qed.
