(* ===== verification/ClusterSchedule.v ===== *)
(** * ClusterSchedule: one reconcile of a ClusterBackupSchedule
    (internal/controller: clusterbackupschedule_controller.go, the cluster plane of
    schedule_abandonment.go)

    The cluster-plane sibling of [ScheduleController]: the run a tick stamps is a
    ClusterBackup, the evidence that a previous run still works is its children and its
    capture Job, and old run records are deleted past the history limits.  The status
    has the fields of a BackupSchedule's. *)

From Stdlib Require Import Ascii String Sorted.
From S2P Require Import Prelude GoText Cluster Selectors Names Status VolumeMachine.
From S2P Require Import Backup.
From S2P Require Import Hooks Calendar Abandonment Location.
From S2P Require Import Schedule ScheduleController.
From S2P Require Import ClusterBackup.
From S2P Require Import Program.

#[local] Open Scope string_scope.
#[local] Notation length := List.length.

Definition defaultRunsHistoryLimit : Z := 10.
Definition concurrencyPolicyForbid : string := "Forbid".

Definition historyLimit (v : Z) : nat := Z.to_nat (if (v <=? 0)%Z then defaultRunsHistoryLimit else v).
Definition concurrencyPolicyOf (policy : string) : string := if policy =? "" then concurrencyPolicyForbid else policy.

Section ClusterSchedule.
Context `{CS : ConditionStore}.

(** ** The object *)

Record ClusterBackupScheduleSpec := mkClusterScheduleSpec {
  cx_Schedule : string;
  cx_Timezone : string;
  cx_Paused : bool;
  cx_Jitter : bool;
  cx_ConcurrencyPolicy : string;
  cx_StartingDeadlineSeconds : option Z;
  cx_SuccessfulRunsHistoryLimit : Z;
  cx_FailedRunsHistoryLimit : Z;
  cx_Template : ClusterBackupSpec                  (* its scheduleRef is not the template's *)
}.

Record ClusterBackupSchedule := mkClusterSchedule {
  cd_Name : string;
  cd_UID : string;
  cd_Created : Z;
  cd_Generation : Z;
  cd_Spec : ClusterBackupScheduleSpec;
  cd_Status : BackupScheduleStatus
}.

Definition set_cd_status (s : BackupScheduleStatus) (sched : ClusterBackupSchedule) : ClusterBackupSchedule :=
  mkClusterSchedule (cd_Name sched) (cd_UID sched) (cd_Created sched) (cd_Generation sched) (cd_Spec sched) s.

(** A run that is about to be created, owned by the schedule. *)
Record newRun := mkNewRun { nr_Name : string; nr_Labels : labels; nr_Owner : string; nr_Spec : ClusterBackupSpec }.

(** ** Requests *)

Inductive plan_action :=
| PGet
| PListRuns (schedule : string)
| PListChildren (run : string)
| PGetJob (name : string)
| PBackupStatus (b : Backup)
| PDeleteBinding (name : string)
| PDeleteJob (name : string)
| PDeleteSecret (name : string)
| PRunStatus (cb : ClusterBackup)
| PCreateRun (run : newRun)
| PDeleteRun (name : string)
| PStatus (s : BackupScheduleStatus)
| PEvent (etype reason : string)
| PClock                                            (* the injected clock *)
| PNow.                                             (* metav1.Now *)

Definition plan_answer (o : plan_action) : Type :=
  match o with
  | PGet => result ClusterBackupSchedule
  | PListRuns _ => result (list ClusterBackup)
  | PListChildren _ => result (list Backup)
  | PGetJob _ => result Job
  | PBackupStatus _ | PDeleteBinding _ | PDeleteJob _ | PDeleteSecret _ | PRunStatus _ | PCreateRun _ | PDeleteRun _ | PStatus _ => option gerr
  | PEvent _ _ => ()
  | PClock | PNow => Z
  end.

Definition planI : interface := mkInterface plan_action plan_answer.
Notation planP := (prog planI).
Definition plan (o : plan_action) : planP (plan_answer o) := call (I := planI) o.

Variable OperatorNamespace : string.
(** [schedule.Parse], [equality.Semantic.DeepEqual] and [slices.SortFunc], which leaves
    the order of equal elements open. *)
Variable Parse : string -> string -> result Schedule.
Variable DeepEqual : BackupScheduleStatus -> BackupScheduleStatus -> bool.
Variable SortFunc : forall T : Type, (T -> T -> comparison) -> list T -> list T.

(** ** Reading *)

Definition runBaseline (sched : ClusterBackupSchedule) (runs : list ClusterBackup) : Z :=
  fold_left (fun baseline r => laterTick (cd_Name sched) baseline (cb_Name r)) runs
    (laterTick (cd_Name sched) (cd_Created sched) (sh_LastRunName (cd_Status sched))).

Definition activeRuns (runs : list ClusterBackup) : list ClusterBackup :=
  List.filter (fun r => negb (isTerminalClusterBackupPhase (cst_Phase (cb_Status r)))) runs.

(** ** Whether a run is abandoned *)

Definition runChildren (cb : ClusterBackup) : planP (result (list Backup)) :=
  let! children := plan (PListChildren (cb_Name cb)) in
  Done (match children with
        | Err e => Err (wrap_err ("list child Backups of run " ++ cb_Name cb) e)
        | Ok children => Ok (List.filter (fun c => negb (isProjection c)) children)
        end).

(** The first child with work in flight. *)
Fixpoint childInFlight (children : list Backup) (now : Z) : string :=
  match children with
  | [] => ""
  | c :: children =>
      let reason := backupInFlightReason c now pendingResolveDeadline in
      if negb (isTerminalBackupPhase (b_phase c)) && negb (reason =? "") then "namespace " ++ b_namespace c ++ ": " ++ reason
      else childInFlight children now
  end.

Definition captureInFlight (job : result Job) (jobName : string) : string :=
  match job with
  | Ok job =>
      if ((j_succeeded job =? 0) && (j_failed job =? 0))%Z
      then "the run's cluster-manifests capture Job " ++ OperatorNamespace ++ "/" ++ jobName ++ " has not finished"
      else ""
  | Err e => if IsNotFound e then "" else "the run's cluster-manifests capture Job could not be read: " ++ err_text e
  end.

Definition clusterRunInFlightReason (cb : ClusterBackup) (now : Z) : planP (result string) :=
  let! children := runChildren cb in
  match children with
  | Err e => Done (Err e)
  | Ok children =>
      let reason := childInFlight children now in
      if negb (reason =? "") then Done (Ok reason)
      else
        let jobName := clusterManifestsJobName (cb_Name cb) in
        let! job := plan (PGetJob jobName) in
        Done (Ok (captureInFlight job jobName))
  end.

Definition clusterRunLastProgressAt (cb : ClusterBackup) (children : list Backup) : Z :=
  let latest := cb_Created cb in
  let latest := match FindCondition (cst_Conditions (cb_Status cb)) ConditionReady with
                | Some c => later latest (c_transition c)
                | None => latest
                end in
  let latest := match cst_StartTime (cb_Status cb) with Some t => later latest t | None => latest end in
  fold_left (fun latest c => later latest (backupLastProgressAt c)) children latest.

(** The evidence, and whether the run is abandoned. *)
Definition clusterRunAbandonment (cb : ClusterBackup) (now : Z) : planP (result (string * bool)) :=
  let! inFlight := clusterRunInFlightReason cb now in
  match inFlight with
  | Err e => Done (Err e)
  | Ok inFlight =>
      if negb (inFlight =? "") then Done (Ok (inFlight, false))
      else
        let! children := runChildren cb in
        match children with
        | Err e => Done (Err e)
        | Ok children =>
            let last := clusterRunLastProgressAt cb children in
            let quiet := time_sub now last in
            Done (Ok (if (quiet <=? scheduleAbandonmentGrace)%Z then
                        ("nothing is in flight, but the run last recorded progress " ++ DurationString (RoundSecond quiet)
                           ++ " ago (grace " ++ DurationString scheduleAbandonmentGrace ++ ")", false)
                      else
                        ("no part of it is in flight (" ++ Itoa (Z.of_nat (length children)) ++ " child backup(s), phase "
                           ++ quoteName (cst_Phase (cb_Status cb)) ++ ") and it has recorded no progress since " ++ FormatRFC3339 last
                           ++ " — " ++ DurationString (RoundSecond quiet) ++ " ago, past the "
                           ++ DurationString scheduleAbandonmentGrace ++ " grace", true)))
        end
  end.

(** ** Ending it *)

(** The children that still work, up to the first whose write fails. *)
Fixpoint terminateChildren (children : list Backup) (evidence : string) : planP (option gerr) :=
  match children with
  | [] => Done None
  | c :: children =>
      if isTerminalBackupPhase (b_phase c) then terminateChildren children evidence
      else
        let! now := plan PNow in
        let! err := plan (PBackupStatus (abandoned now evidence c)) in
        match err with
        | Some e => Done (Some (wrap_err ("terminate abandoned Backup " ++ b_namespace c ++ "/" ++ b_name c) e))
        | None => let! _ := plan (PEvent "Warning" "AbandonedRunTerminated") in terminateChildren children evidence
        end
  end.

Definition stampNow (t : option Z) : planP (option Z) :=
  match t with Some t => Done (Some t) | None => let! now := plan PNow in Done (Some now) end.

(** What the termination makes of the run. *)
Definition endedRun (start completion : option Z) (evidence : string) (cb : ClusterBackup) : ClusterBackup :=
  let s := cb_Status cb in
  let phase := if (0 <? cst_NamespacesSucceeded s)%Z then ClusterBackupPhasePartiallyFailed else ClusterBackupPhaseFailed in
  set_cb_condition ConditionReady ConditionFalse reasonTerminatedAsAbandoned
    (clampMessage ("terminated by its schedule as abandoned so the next run could start: " ++ evidence))
    (set_cb_status (mkClusterBackupStatus phase start completion (cst_NamespacesMatched s) (cst_NamespacesSucceeded s)
       (cst_NamespacesFailed s) (cst_NamespacesBlocked s) (cst_PVCsSucceeded s) (cst_PVCsFailed s) (cst_ClusterResourcesCaptured s)
       (cst_ClusterManifests s) (cst_AddedBytes s)
       (AppendCappedFailure (cst_Failures s)
          (mkFailureRecord "" (cb_Name cb) (clampMessage (reasonTerminatedAsAbandoned ++ ": " ++ evidence))) DefaultFailureCap)
       (cst_BlockedReasons s) (cst_Conditions s)) cb).

Definition terminateAbandonedRun (cb : ClusterBackup) (evidence : string) : planP (result ClusterBackup) :=
  let! children := runChildren cb in
  match children with
  | Err e => Done (Err e)
  | Ok children =>
      let! err := terminateChildren children ("its parent run " ++ cb_Name cb ++ " was terminated as abandoned: " ++ evidence) in
      match err with
      | Some e => Done (Err e)
      | None =>
          let jobName := clusterManifestsJobName (cb_Name cb) in
          let! err := plan (PDeleteBinding (captureBindingName jobName)) in
          match (match err with Some e => if IsNotFound e then None else Some e | None => None end) with
          | Some e => Done (Err (wrap_err ("reclaim the cluster-manifests grant of abandoned run " ++ cb_Name cb)
                                  (wrap_err ("delete transient ClusterRoleBinding " ++ captureBindingName jobName) e)))
          | None =>
              let! _ := plan (PDeleteJob jobName) in
              let! _ := plan (PDeleteSecret jobName) in
              let! start := stampNow (cst_StartTime (cb_Status cb)) in
              let! completion := stampNow (cst_CompletionTime (cb_Status cb)) in
              let ended := endedRun start completion evidence cb in
              let! err := plan (PRunStatus ended) in
              match err with
              | Some e => Done (Err (wrap_err ("terminate abandoned ClusterBackup " ++ cb_Name cb) e))
              | None => let! _ := plan (PEvent "Warning" "AbandonedRunTerminated") in Done (Ok ended)
              end
          end
      end
  end.

(** ** Overlap *)

Inductive overlap := Skipped | Cleared (ended : list ClusterBackup) | OverlapError (e : gerr).

(** The verdicts on the active runs, up to the first that is not abandoned. *)
Fixpoint judgeRuns (active : list ClusterBackup) (now : Z) : planP (result (option (list (ClusterBackup * string)))) :=
  match active with
  | [] => Done (Ok (Some []))
  | run :: active =>
      let! verdict := clusterRunAbandonment run now in
      match verdict with
      | Err e => Done (Err e)
      | Ok (_, false) => let! _ := plan (PEvent "Warning" "ConcurrencySkip") in Done (Ok None)
      | Ok (evidence, true) =>
          let! rest := judgeRuns active now in
          Done (match rest with Ok (Some vs) => Ok (Some ((run, evidence) :: vs)) | r => r end)
      end
  end.

Fixpoint terminateRuns (verdicts : list (ClusterBackup * string)) : planP (result (list ClusterBackup)) :=
  match verdicts with
  | [] => Done (Ok [])
  | (run, evidence) :: verdicts =>
      let! ended := terminateAbandonedRun run evidence in
      match ended with
      | Err e => Done (Err e)
      | Ok ended =>
          let! _ := plan (PEvent "Warning" "AbandonedRunTerminated") in
          let! rest := terminateRuns verdicts in
          Done (match rest with Ok rest => Ok (ended :: rest) | Err e => Err e end)
      end
  end.

Definition resolveRunOverlap (runs : list ClusterBackup) (now : Z) : planP overlap :=
  let! verdicts := judgeRuns (activeRuns runs) now in
  match verdicts with
  | Err e => Done (OverlapError e)
  | Ok None => Done Skipped
  | Ok (Some verdicts) =>
      let! ended := terminateRuns verdicts in
      Done (match ended with Ok ended => Cleared ended | Err e => OverlapError e end)
  end.

(** The snapshot of the runs after the terminations, which write through it. *)
Definition throughSnapshot (ended runs : list ClusterBackup) : list ClusterBackup :=
  map (fun r => default r (find (fun e => cb_Name e =? cb_Name r) ended)) runs.

(** ** Stamping *)

Definition stampedRun (sched : ClusterBackupSchedule) (tick : Z) : newRun :=
  let t := cx_Template (cd_Spec sched) in
  mkNewRun (RunName (cd_Name sched) tick) (<[LabelSchedule := cd_Name sched]> ∅) (cd_UID sched)
    (mkClusterBackupSpec (cd_Name sched) (cbs_Location t) (cbs_Namespaces t) (cbs_ClusterResources t) (cbs_Run t)).

Definition stampRun (sched : ClusterBackupSchedule) (tick : Z) : planP (result string) :=
  let name := RunName (cd_Name sched) tick in
  let! err := plan (PCreateRun (stampedRun sched tick)) in
  match err with
  | Some e => Done (if IsAlreadyExists e then Ok name else Err (wrap_err ("create run " ++ name) e))
  | None => let! _ := plan (PEvent "Normal" "RunStamped") in Done (Ok name)
  end.

(** ** History *)

(** Newest first: by activation, then by creation, then by name. *)
Definition compareRuns (scheduleName : string) (a b : ClusterBackup) : comparison :=
  let byAge :=
    if negb (cb_Created a =? cb_Created b)%Z then (if time_after (cb_Created a) (cb_Created b) then Lt else Gt)
    else match String.compare (cb_Name a) (cb_Name b) with Gt => Lt | Lt => Gt | Eq => Eq end in
  match parseRunTick scheduleName (cb_Name a), parseRunTick scheduleName (cb_Name b) with
  | Some ta, Some tb => if negb (ta =? tb)%Z then (if time_after ta tb then Lt else Gt) else byAge
  | _, _ => byAge
  end.

Fixpoint deleteRuns (old : list ClusterBackup) : planP () :=
  match old with
  | [] => Done tt
  | r :: old =>
      let! err := plan (PDeleteRun (cb_Name r)) in
      match err with
      | Some e => if IsNotFound e then let! _ := plan (PEvent "Normal" "RunHistoryGC") in deleteRuns old else deleteRuns old
      | None => let! _ := plan (PEvent "Normal" "RunHistoryGC") in deleteRuns old
      end
  end.

Definition trimHistory (scheduleName : string) (group : list ClusterBackup) (keep : nat) : planP () :=
  if (length group <=? keep)%nat then Done tt
  else deleteRuns (skipn keep (SortFunc _ (compareRuns scheduleName) group)).

Definition successfulRuns (runs : list ClusterBackup) : list ClusterBackup :=
  List.filter (fun r => cst_Phase (cb_Status r) =? ClusterBackupPhaseCompleted) runs.
Definition failedRuns (runs : list ClusterBackup) : list ClusterBackup :=
  List.filter (fun r => (cst_Phase (cb_Status r) =? ClusterBackupPhaseFailed)
                        || (cst_Phase (cb_Status r) =? ClusterBackupPhasePartiallyFailed)) runs.

Definition gcHistory (sched : ClusterBackupSchedule) (runs : list ClusterBackup) : planP () :=
  let! _ := trimHistory (cd_Name sched) (successfulRuns runs) (historyLimit (cx_SuccessfulRunsHistoryLimit (cd_Spec sched))) in
  trimHistory (cd_Name sched) (failedRuns runs) (historyLimit (cx_FailedRunsHistoryLimit (cd_Spec sched))).

(** ** The summary *)

Definition newestRunName (scheduleName : string) (runs : list ClusterBackup) (lastRunName : string) : string :=
  snd (fold_left (fun acc r =>
      match parseRunTick scheduleName (cb_Name r) with
      | Some t => if time_after t (fst acc) then (t, cb_Name r) else acc
      | None => acc
      end) runs (zero_time, lastRunName)).

Definition lastRunSuccess (runs : list ClusterBackup) (last : option Z) : option Z :=
  fold_left (fun last r =>
      match cst_CompletionTime (cb_Status r) with
      | Some t =>
          if (cst_Phase (cb_Status r) =? ClusterBackupPhaseCompleted)
             && match last with None => true | Some l => time_after t l end
          then Some t else last
      | None => last
      end) runs last.

Definition applyRunSummary (sched : ClusterBackupSchedule) (runs : list ClusterBackup) (stampedName : string) (nextFire : Z)
    : ClusterBackupSchedule :=
  let s := cd_Status sched in
  set_cd_status
    (mkBackupScheduleStatus (sh_Phase s)
      (if stampedName =? "" then newestRunName (cd_Name sched) runs (sh_LastRunName s) else stampedName)
      (lastRunSuccess runs (sh_LastSuccessTime s)) (Some nextFire) (sh_Conditions s)) sched.

(** ** The pass *)

Definition writePlanStatus (sched : ClusterBackupSchedule) (original : BackupScheduleStatus) (phase ready reason message : string)
    (nextScheduleTime : option Z) (after : Z) : planP (result Z) :=
  let s := cd_Status sched in
  let s := mkBackupScheduleStatus phase (sh_LastRunName s) (sh_LastSuccessTime s)
             (match nextScheduleTime with Some t => Some t | None => sh_NextScheduleTime s end)
             (SetCondition (sh_Conditions s) ConditionReady ready reason message (cd_Generation sched)) in
  if DeepEqual original s then Done (Ok after)
  else
    let! err := plan (PStatus s) in
    Done (match err with
          | Some e => Err (wrap_err ("update status for ClusterBackupSchedule " ++ cd_Name sched) e)
          | None => Ok after
          end).

Definition planOffset (sched : ClusterBackupSchedule) : Z :=
  if cx_Jitter (cd_Spec sched) then JitterOffset (cd_UID sched) scheduleJitterWindow else 0.

(** The due tick, if any: the overlap, then the stamp.  It returns the name of the run
    that was stamped and the snapshot as it now is. *)
Definition fireRun (sched : ClusterBackupSchedule) (runs : list ClusterBackup) (due : option Z) (now : Z)
    : planP (result (string * list ClusterBackup)) :=
  match due with
  | None => Done (Ok ("", runs))
  | Some tick =>
      let! verdict := resolveRunOverlap runs now in
      match verdict with
      | OverlapError e => Done (Err e)
      | Skipped => Done (Ok ("", runs))
      | Cleared ended =>
          let! name := stampRun sched tick in
          Done (match name with Ok name => Ok (name, throughSnapshot ended runs) | Err e => Err e end)
      end
  end.

Definition reconcileClusterSchedule : planP (result Z) :=
  let! sched := plan PGet in
  match sched with
  | Err e => Done (if IsNotFound e then Ok 0%Z else Err e)
  | Ok sched =>
      let! runs := plan (PListRuns (cd_Name sched)) in
      match runs with
      | Err e => Done (Err (wrap_err ("list runs for schedule " ++ cd_Name sched) e))
      | Ok runs =>
          if cx_Paused (cd_Spec sched) then
            writePlanStatus sched (cd_Status sched) "Paused" ConditionFalse "Paused" "schedule is paused; no runs are stamped" None 0
          else
            match Parse (cx_Schedule (cd_Spec sched)) (cx_Timezone (cd_Spec sched)) with
            | Err e => writePlanStatus sched (cd_Status sched) "InvalidSchedule" ConditionFalse "InvalidSchedule" (err_text e) None 0
            | Ok cronSched =>
                let! now := plan PClock in
                let offset := planOffset sched in
                let effectiveNow := (now - offset)%Z in
                let due := DueTick cronSched (runBaseline sched runs) effectiveNow
                             (option_map durationSeconds (cx_StartingDeadlineSeconds (cd_Spec sched))) in
                let! fired := fireRun sched runs due now in
                match fired with
                | Err e => Done (Err e)
                | Ok (stampedName, runs) =>
                    let! _ := gcHistory sched runs in
                    let nextFire := (Next cronSched effectiveNow + offset)%Z in
                    let requeue := clampDuration (time_sub nextFire now) scheduleMinRequeue scheduleMaxRequeue in
                    writePlanStatus (applyRunSummary sched runs stampedName nextFire) (cd_Status sched) "Active" ConditionTrue "Scheduled"
                      ("schedule active; next run at " ++ FormatRFC3339 nextFire) (Some nextFire) requeue
                end
            end
      end
  end.
End ClusterSchedule.

(** ** What a pass does *)

Section Passes.
Context `{CS : ConditionStore}.
Context (OperatorNamespace : string) (Parse : string -> string -> result Schedule).
Context (DeepEqual : BackupScheduleStatus -> BackupScheduleStatus -> bool).
Context (SortFunc : forall T : Type, (T -> T -> comparison) -> list T -> list T).

Notation planP := (prog planI).
Notation act := (event planI).
Notation ev o x := (Ev (I := planI) o x).
Notation reconcile := (reconcileClusterSchedule OperatorNamespace Parse DeepEqual SortFunc).

Lemma plan_runs o tr x : runs (plan o) tr x <-> tr = [ev o x].
Proof. apply (runs_call (I := planI)). Qed.

Ltac walk H := walk_with ltac:(fun R => apply plan_runs in R) H.

(** *** Evidence *)

(** A Backup that nothing works on: over, or each of its volumes settled or past its
    budget. *)
Definition restful (now : Z) (c : Backup) : Prop :=
  isTerminalBackupPhase (b_phase c) = true
  \/ forall v, v ∈ b_volumes c -> volumeSettled v = true \/ overdue now pendingResolveDeadline v.

(** A run that nothing works on, and has not for the whole grace, by what was read. *)
Definition idle (now : Z) (run : ClusterBackup) (tr : list act) : Prop :=
  exists children job children2,
    ev (PListChildren (cb_Name run)) (Ok children) ∈ tr
    /\ ev (PGetJob (clusterManifestsJobName (cb_Name run))) job ∈ tr
    /\ ev (PListChildren (cb_Name run)) (Ok children2) ∈ tr
    /\ (forall c, c ∈ children -> isProjection c = false -> restful now c)
    /\ match job with Ok j => (j_succeeded j <> 0 \/ j_failed j <> 0)%Z | Err e => IsNotFound e = true end
    /\ (scheduleAbandonmentGrace
          < time_sub now (clusterRunLastProgressAt run (List.filter (fun c => negb (isProjection c)) children2)))%Z.

Lemma idle_more now run tr tr' : idle now run tr -> tr ⊆ tr' -> idle now run tr'.
Proof. intros (c & j & c2 & H1 & H2 & H3 & H4) Hs. exists c, j, c2. auto. Qed.

Lemma childInFlight_none children now : childInFlight children now = "" -> forall c, c ∈ children -> restful now c.
Proof.
  induction children as [|d children IH]; [by intros _ c ?%not_elem_of_nil|]. cbn. intros H c Hc.
  destruct (negb (isTerminalBackupPhase (b_phase d)) && negb (backupInFlightReason d now pendingResolveDeadline =? "")) eqn:E; [done|].
  apply elem_of_cons in Hc as [->|Hc]; [|by apply IH]. apply andb_false_iff in E as [E|E]; apply negb_false_iff in E; [by left|right].
  apply String.eqb_eq in E. unfold backupInFlightReason in E. exact (proj1 (firstInFlight_none _ _ _) E).
Qed.

(** A verdict only reads. *)
Definition reads (o : plan_action) : Prop := match o with PListChildren _ | PGetJob _ | PEvent _ _ => True | _ => False end.

Lemma runChildren_reads cb : only (I := planI) reads (runChildren cb).
Proof. unfold runChildren. by apply only_bind; [apply only_call|]. Qed.

Lemma clusterRunAbandonment_reads cb now : only (I := planI) reads (clusterRunAbandonment OperatorNamespace cb now).
Proof.
  unfold clusterRunAbandonment. apply only_bind.
  - unfold clusterRunInFlightReason. apply only_bind; [apply runChildren_reads|]. intros [children|e]; [|done].
    destruct (negb _); [done|]. by apply only_bind; [apply only_call|].
  - intros [r|e]; [|done]. destruct (negb _); [done|]. apply only_bind; [apply runChildren_reads|]. by intros [|].
Qed.

Lemma judgeRuns_reads active now : only (I := planI) reads (judgeRuns OperatorNamespace active now).
Proof.
  induction active as [|run active IH]; [done|]. cbn [judgeRuns]. apply only_bind; [apply clusterRunAbandonment_reads|].
  intros [[evidence []]|e]; [apply only_bind; [exact IH|done]|by apply only_bind; [apply only_call|]|done].
Qed.

Lemma runChildren_runs cb tr children :
  runs (runChildren cb) tr (Ok children) ->
  exists l, tr = [ev (PListChildren (cb_Name cb)) (Ok l)] /\ children = List.filter (fun c => negb (isProjection c)) l.
Proof.
  intros H. unfold runChildren in H. walk H. destruct x as [l|e]; destruct H as [-> [=]]. exists l. by subst.
Qed.

Lemma clusterRunAbandonment_idle cb now tr evidence :
  runs (clusterRunAbandonment OperatorNamespace cb now) tr (Ok (evidence, true)) -> idle now cb tr.
Proof.
  intros H. unfold clusterRunAbandonment in H. walk H. destruct x as [reason|e]; [|by destruct H].
  destruct (negb (reason =? "")) eqn:Er; [by destruct H|]. apply negb_false_iff, String.eqb_eq in Er as ->.
  walk H. destruct x as [children2|e]; [|by destruct H]. apply runChildren_runs in R0 as (l2 & -> & ->).
  destruct (_ <=? _)%Z eqn:Eq; [by destruct H|]. destruct H as [-> _]. apply Z.leb_gt in Eq.
  unfold clusterRunInFlightReason in R. walk R. destruct x as [children|e]; [|by destruct R]. apply runChildren_runs in R0 as (l & -> & ->).
  destruct (negb (childInFlight _ now =? "")) eqn:Ec.
  { destruct R as [_ [= E]]. by rewrite <-E in Ec. }
  apply negb_false_iff, String.eqb_eq in Ec. walk R. destruct R as [-> [= E]].
  exists l, x, l2. split_and!; [left|right; left|right; right; left| | |done].
  - intros c Hc Hp. apply (childInFlight_none _ _ Ec). apply list_elem_of_In, filter_In. split; [by apply list_elem_of_In|]. by rewrite Hp.
  - unfold captureInFlight in E. destruct x as [j|e].
    + destruct ((j_succeeded j =? 0) && (j_failed j =? 0))%Z eqn:Ej; [done|]. apply andb_false_iff in Ej as [Ej|Ej]; apply Z.eqb_neq in Ej; auto.
    + by destruct (IsNotFound e).
Qed.

Lemma judgeRuns_idle active now tr vs :
  runs (judgeRuns OperatorNamespace active now) tr (Ok (Some vs)) -> map fst vs = active /\ forall run, run ∈ active -> idle now run tr.
Proof.
  revert tr vs. induction active as [|run active IH]; intros tr vs H; cbn [judgeRuns] in H.
  { destruct H as [-> [= ->]]. split; [done|]. by intros run ?%not_elem_of_nil. }
  walk H. destruct x as [[evidence []]|e]; [|walk H; by destruct H|by destruct H]. walk H.
  destruct x as [[rest|]|e]; destruct H as [-> [=]]. subst vs. apply IH in R0 as [<- Hrest]. apply clusterRunAbandonment_idle in R. split; [done|].
  intros r [->|Hr]%elem_of_cons; [eapply idle_more; [exact R|]|eapply idle_more; [by apply Hrest|]]; intros y Hy; rewrite !elem_of_app; auto.
Qed.

(** *** Endings *)

(** The requests that end a run and its children. *)
Definition ends (o : plan_action) : Prop :=
  match o with
  | PListChildren _ | PBackupStatus _ | PDeleteBinding _ | PDeleteJob _ | PDeleteSecret _ | PRunStatus _ | PEvent _ _ | PNow => True
  | _ => False
  end.

Lemma terminateChildren_ends children evidence : only (I := planI) ends (terminateChildren children evidence).
Proof.
  induction children as [|c children IH]; [done|]. cbn [terminateChildren]. destruct (isTerminalBackupPhase _); [exact IH|].
  apply only_bind; [by apply only_call|]. intros now. apply only_bind; [by apply only_call|]. intros [e|]; [done|].
  by apply only_bind; [apply only_call|].
Qed.

Lemma stampNow_ends t : only (I := planI) ends (stampNow t).
Proof. unfold stampNow. destruct t; [done|]. by apply only_bind; [apply only_call|]. Qed.

Lemma terminateAbandonedRun_ends cb evidence : only (I := planI) ends (terminateAbandonedRun cb evidence).
Proof.
  unfold terminateAbandonedRun. apply only_bind; [unfold runChildren; by apply only_bind; [apply only_call|]|]. intros [children|e]; [|done].
  apply only_bind; [apply terminateChildren_ends|]. intros [e|]; [done|]. apply only_bind; [by apply only_call|]. intros err.
  destruct (match err with Some e => _ | None => _ end); [done|]. apply only_bind; [by apply only_call|]. intros _.
  apply only_bind; [by apply only_call|]. intros _. apply only_bind; [apply stampNow_ends|]. intros start.
  apply only_bind; [apply stampNow_ends|]. intros completion. apply only_bind; [by apply only_call|]. intros [e|]; [done|].
  by apply only_bind; [apply only_call|].
Qed.

Lemma terminateRuns_ends vs : only (I := planI) ends (terminateRuns vs).
Proof.
  induction vs as [|[run evidence] vs IH]; [done|]. cbn [terminateRuns]. apply only_bind; [apply terminateAbandonedRun_ends|].
  intros [ended|e]; [|done]. apply only_bind; [by apply only_call|]. intros _. apply only_bind; [exact IH|]. by intros [|].
Qed.

(** A run that was ended: its grant is gone, then the write of its end was accepted. *)
Definition endedIn (run : ClusterBackup) (tr : list act) : Prop :=
  exists pre post w cb',
    tr = (pre ++ ev (PRunStatus cb') None :: post)%list
    /\ ev (PDeleteBinding (captureBindingName (clusterManifestsJobName (cb_Name run)))) w ∈ pre
    /\ match w with Some e => IsNotFound e = true | None => True end
    /\ cb_Name cb' = cb_Name run /\ isTerminalClusterBackupPhase (cst_Phase (cb_Status cb')) = true
    /\ cst_Phase (cb_Status cb') <> ClusterBackupPhaseCompleted.

Lemma endedIn_app run tr1 tr2 tr3 : endedIn run tr2 -> endedIn run (tr1 ++ tr2 ++ tr3)%list.
Proof.
  intros (pre & post & w & cb' & -> & Hw & Hrest). exists (tr1 ++ pre)%list, (post ++ tr3)%list, w, cb'. split; [by rewrite <-!app_assoc|].
  split; [apply elem_of_app; by right|done].
Qed.

Lemma endedIn_l run tr1 tr2 : endedIn run tr1 -> endedIn run (tr1 ++ tr2)%list.
Proof. apply (endedIn_app run [] tr1). Qed.

Lemma endedIn_r run tr1 tr2 : endedIn run tr2 -> endedIn run (tr1 ++ tr2)%list.
Proof. intros H. rewrite <-(app_nil_r tr2). by apply endedIn_app. Qed.

Lemma terminateAbandonedRun_endedIn cb evidence tr ended :
  runs (terminateAbandonedRun cb evidence) tr (Ok ended) -> endedIn cb tr.
Proof.
  intros H. unfold terminateAbandonedRun in H. walk H. destruct x as [children|e]; [|by destruct H]. walk H. destruct x as [e|]; [by destruct H|].
  walk H. destruct (match x with Some e => _ | None => _ end) as [e|] eqn:Ew; [by destruct H|]. walk H. walk H. walk H. walk H. walk H.
  destruct x4 as [e|]; [by destruct H|]. rewrite app_assoc.
  match goal with |- endedIn _ (?pre ++ ?b ++ ?c ++ ?d ++ ?e ++ ?f ++ [ev (PRunStatus ?cb') None] ++ ?post)%list =>
    exists ((pre ++ b ++ c ++ d ++ e ++ f)%list), post, x, cb' end.
  split_and!.
  - by rewrite <-!app_assoc.
  - rewrite !elem_of_app. right. left. left.
  - destruct x as [e|]; [|done]. by destruct (IsNotFound e).
  - done.
  - cbn. by destruct (0 <? _)%Z.
  - cbn. by destruct (0 <? _)%Z.
Qed.

Lemma terminateRuns_endedIn vs tr ended :
  runs (terminateRuns vs) tr (Ok ended) -> forall run, run ∈ map fst vs -> endedIn run tr.
Proof.
  revert tr ended. induction vs as [|[cb evidence] vs IH]; intros tr ended H; cbn [terminateRuns] in H; [by intros run ?%not_elem_of_nil|].
  walk H. destruct x as [e1|e]; [|by destruct H]. walk H. walk H. destruct x0 as [rest|e]; [|by destruct H]. destruct H as [-> _].
  apply terminateAbandonedRun_endedIn in R. cbn. intros run [->|Hr]%elem_of_cons.
  - by apply endedIn_l.
  - apply endedIn_r, (endedIn_r _ [_]), endedIn_l. by eapply IH.
Qed.

(** *** The fire *)

Definition fires (o : plan_action) : Prop := match o with PRunStatus _ | PBackupStatus _ | PCreateRun _ => True | _ => False end.

(** What a fire does: nothing until every run that is not over was found idle; and the
    stamp last, when each of them was ended. *)
Lemma fireRun_spec sched runs_ due now tr o :
  runs (fireRun OperatorNamespace sched runs_ due now) tr o ->
  forall e : act, e ∈ tr -> fires (ev_action e) ->
  exists tick t0 t1, due = Some tick /\ (forall run, run ∈ activeRuns runs_ -> idle now run t0)
    /\ tr = (t0 ++ t1)%list /\ e ∈ t1
    /\ forall r, ev_action e = PCreateRun r -> r = stampedRun sched tick /\ forall run, run ∈ activeRuns runs_ -> endedIn run t1.
Proof.
  intros H e He Hfires. unfold fireRun in H. destruct due as [tick|]; [|destruct H as [-> _]; by apply not_elem_of_nil in He].
  walk H. unfold resolveRunOverlap in R. walk R.
  pose proof (only_runs _ _ _ _ (judgeRuns_reads (activeRuns runs_) now) R0) as Hreads. rewrite Forall_forall in Hreads.
  assert (e ∉ t0) as Hn by (intros Hi; specialize (Hreads _ Hi); by destruct (ev_action e)).
  destruct x0 as [[vs|]|err].
  2: { destruct R as [-> ->]. destruct H as [-> _]. rewrite !app_nil_r in He. done. }
  2: { destruct R as [-> ->]. destruct H as [-> _]. rewrite !app_nil_r in He. done. }
  apply judgeRuns_idle in R0 as [Hvs Hidle]. walk R. destruct R as [-> Hx]. rewrite app_nil_r in *. rewrite <-app_assoc in *.
  exists tick, t0, (t ++ tr0)%list. split; [done|]. split; [done|]. split; [done|].
  split; [by apply elem_of_app in He as [|]|]. intros r Hr.
  pose proof (only_runs _ _ _ _ (terminateRuns_ends vs) R0) as Hends. rewrite Forall_forall in Hends.
  assert (e ∈ tr0) as He' by (apply elem_of_app in He as [|[Hi|]%elem_of_app]; [done| |done]; specialize (Hends _ Hi); by rewrite Hr in Hends).
  destruct x0 as [ended|err]; subst x; [|destruct H as [-> _]; by apply not_elem_of_nil in He'].
  split.
  - walk H. unfold stampRun in R. walk R. destruct H as [-> _]. rewrite app_nil_r in He'. apply elem_of_app in He' as [Hi|Hi].
    + apply list_elem_of_singleton in Hi as ->. by injection Hr.
    + destruct x0 as [e1|]; [destruct R as [-> _]; by apply not_elem_of_nil in Hi|]. walk R. destruct R as [-> _]. rewrite app_nil_r in Hi.
      by apply list_elem_of_singleton in Hi as ->.
  - intros run Hrun. apply endedIn_l. eapply terminateRuns_endedIn; [exact R0|]. by rewrite Hvs.
Qed.

(** *** History *)

Definition prunes (o : plan_action) : Prop := match o with PDeleteRun _ | PEvent _ _ => True | _ => False end.

Lemma deleteRuns_spec old tr : runs (deleteRuns old) tr tt ->
  forall e : act, e ∈ tr -> (exists t r, ev_action e = PEvent t r) \/ exists r, r ∈ old /\ ev_action e = PDeleteRun (cb_Name r).
Proof.
  revert tr. induction old as [|r old IH]; intros tr H e He; cbn [deleteRuns] in H; [destruct H as [-> _]; by apply not_elem_of_nil in He|].
  walk H. apply elem_of_app in He as [->%list_elem_of_singleton|He]; [right; exists r; split; [left|done]|].
  assert (forall t, runs (deleteRuns old) t tt -> e ∈ t -> (exists t r, ev_action e = PEvent t r) \/ exists r', r' ∈ r :: old /\ ev_action e = PDeleteRun (cb_Name r')) as Hrec.
  { intros t Ht Hi. destruct (IH _ Ht _ Hi) as [|(r' & Hr' & Hd)]; [by left|right; exists r'; split; [by right|done]]. }
  assert (forall t, runs (prog_bind (plan (PEvent "Normal" "RunHistoryGC")) (fun _ => deleteRuns old)) t tt -> e ∈ t ->
            (exists t r, ev_action e = PEvent t r) \/ exists r', r' ∈ r :: old /\ ev_action e = PDeleteRun (cb_Name r')) as Hrec2.
  { intros t Ht Hi. walk Ht. apply elem_of_app in Hi as [->%list_elem_of_singleton|Hi]; [left; by eexists _, _|by eapply Hrec]. }
  destruct x as [e1|]; [destruct (IsNotFound e1)|]; eauto.
Qed.

Lemma trimHistory_spec scheduleName group keep tr :
  runs (trimHistory SortFunc scheduleName group keep) tr tt ->
  forall e : act, e ∈ tr ->
  (exists t r, ev_action e = PEvent t r)
  \/ exists r, r ∈ skipn keep (SortFunc _ (compareRuns scheduleName) group) /\ ev_action e = PDeleteRun (cb_Name r).
Proof.
  unfold trimHistory. destruct (_ <=? _)%nat; [intros [-> _] e ?%not_elem_of_nil; done|]. by apply deleteRuns_spec.
Qed.

(** *** Whole passes *)

(** The parts of a pass: what it read, the fire, the history, the status. *)
Lemma reconcile_parts tr o (e : act) :
  runs reconcile tr o -> e ∈ tr -> (fires (ev_action e) \/ exists n, ev_action e = PDeleteRun n) ->
  exists sched runs0 now cronSched t1 t2,
    tr = ([ev PGet (Ok sched); ev (PListRuns (cd_Name sched)) (Ok runs0); ev PClock now] ++ t1 ++ t2)%list
    /\ cx_Paused (cd_Spec sched) = false /\ Parse (cx_Schedule (cd_Spec sched)) (cx_Timezone (cd_Spec sched)) = Ok cronSched
    /\ exists fired,
         runs (fireRun OperatorNamespace sched runs0
                 (DueTick cronSched (runBaseline sched runs0) (now - planOffset sched)%Z
                    (option_map durationSeconds (cx_StartingDeadlineSeconds (cd_Spec sched)))) now) t1 fired
         /\ match fired with
            | Err _ => t2 = []
            | Ok (_, runs1) => exists tg tw, t2 = (tg ++ tw)%list /\ runs (gcHistory SortFunc sched runs1) tg tt
                /\ forall e', e' ∈ tw -> exists s, ev_action e' = PStatus s
            end.
Proof.
  assert (forall sched original phase ready reason message next after tr1 o1 (e1 : act),
    runs (writePlanStatus DeepEqual sched original phase ready reason message next after) tr1 o1 -> e1 ∈ tr1 -> exists s, ev_action e1 = PStatus s) as Hw.
  { intros sched original phase ready reason message next after tr1 o1 e1 Hr He1. unfold writePlanStatus in Hr.
    destruct (DeepEqual _ _); [destruct Hr as [-> _]; by apply not_elem_of_nil in He1|]. walk Hr. destruct Hr as [-> _].
    rewrite app_nil_r in He1. apply list_elem_of_singleton in He1 as ->. by eexists. }
  intros H He Hk. assert (forall s, ev_action e = PStatus s -> False) as Hns by (intros s Es; rewrite Es in Hk; by destruct Hk as [[]|[? [=]]]).
  unfold reconcileClusterSchedule in H. walk H. apply elem_of_cons in He as [->|He]; [by destruct Hk as [[]|[? [=]]]|].
  destruct x as [sched|err]; [|destruct H as [-> _]; by apply not_elem_of_nil in He].
  walk H. apply elem_of_cons in He as [->|He]; [by destruct Hk as [[]|[? [=]]]|].
  destruct x as [runs0|err]; [|destruct H as [-> _]; by apply not_elem_of_nil in He].
  destruct (cx_Paused (cd_Spec sched)) eqn:Ep; [destruct (Hw _ _ _ _ _ _ _ _ _ _ _ H He) as [s Es]; by destruct (Hns s)|].
  destruct (Parse _ _) as [cronSched|err] eqn:Eparse; [|destruct (Hw _ _ _ _ _ _ _ _ _ _ _ H He) as [s Es]; by destruct (Hns s)].
  walk H. walk H. exists sched, runs0, x, cronSched, t, tr. split; [done|]. split; [done|]. split; [done|]. exists x0. split; [exact R|].
  destruct x0 as [[name runs1]|err]; [|by destruct H as [-> _]]. walk H. destruct x0. exists t0, tr0. split; [done|]. split; [exact R0|].
  intros e' He'. by eapply Hw.
Qed.

Lemma gcHistory_prunes sched runs1 tg (e : act) :
  runs (gcHistory SortFunc sched runs1) tg tt -> e ∈ tg ->
  (exists t r, ev_action e = PEvent t r)
  \/ exists group keep r, (group = successfulRuns runs1 /\ keep = historyLimit (cx_SuccessfulRunsHistoryLimit (cd_Spec sched))
        \/ group = failedRuns runs1 /\ keep = historyLimit (cx_FailedRunsHistoryLimit (cd_Spec sched)))
      /\ r ∈ skipn keep (SortFunc _ (compareRuns (cd_Name sched)) group) /\ ev_action e = PDeleteRun (cb_Name r).
Proof.
  intros H He. unfold gcHistory in H. walk H. destruct x. apply elem_of_app in He as [He|He].
  - destruct (trimHistory_spec _ _ _ _ R e He) as [|(r & Hr & Hd)]; [by left|right]. eexists _, _, r. split; [by left|done].
  - destruct (trimHistory_spec _ _ _ _ H e He) as [|(r & Hr & Hd)]; [by left|right]. eexists _, _, r. split; [by right|done].
Qed.

(** C12. A previous run gives way only on evidence, and a new one starts only when every
    previous one has ended.  A pass that ends a run, or a child of one, or stamps a new
    run has a tick due, and before any of it had found each run of the schedule that is
    not over idle: no child with a volume in flight, no capture in flight, no progress
    for the whole grace.  The stamp is for that tick, and comes after the grant of each
    of those runs was reclaimed and then its end, which is never Completed, was
    accepted. *)
Theorem overlap_cleared_on_evidence tr o (e : act) :
  runs reconcile tr o -> e ∈ tr -> fires (ev_action e) ->
  exists sched runs0 now cronSched tick t0 t1,
    ev PGet (Ok sched) ∈ t0 /\ ev (PListRuns (cd_Name sched)) (Ok runs0) ∈ t0 /\ ev PClock now ∈ t0
    /\ tr = (t0 ++ t1)%list /\ e ∈ t1
    /\ cx_Paused (cd_Spec sched) = false /\ Parse (cx_Schedule (cd_Spec sched)) (cx_Timezone (cd_Spec sched)) = Ok cronSched
    /\ DueTick cronSched (runBaseline sched runs0) (now - planOffset sched)%Z
         (option_map durationSeconds (cx_StartingDeadlineSeconds (cd_Spec sched))) = Some tick
    /\ (forall run, run ∈ activeRuns runs0 -> idle now run t0)
    /\ forall r, ev_action e = PCreateRun r -> r = stampedRun sched tick /\ forall run, run ∈ activeRuns runs0 -> endedIn run t1.
Proof.
  intros H He Hk. destruct (reconcile_parts _ _ e H He (or_introl Hk)) as (sched & runs0 & now & cronSched & t1 & t2 & -> & Hp & Hparse & fired & Hf & H2).
  assert (e ∈ t1) as He1.
  { rewrite !elem_of_app in He. destruct He as [He|[He|He]]; [|done|exfalso].
    - rewrite !elem_of_cons in He. by destruct He as [->|[->|[->|?%not_elem_of_nil]]].
    - destruct fired as [[name runs1]|err]; [|subst t2; by apply not_elem_of_nil in He]. destruct H2 as (tg & tw & -> & Hg & Hw).
      apply elem_of_app in He as [He|He]; [|apply Hw in He as [s Es]; by rewrite Es in Hk].
      destruct (gcHistory_prunes _ _ _ _ Hg He) as [(t & r & Es)|(g & k & r & _ & _ & Es)]; by rewrite Es in Hk. }
  destruct (fireRun_spec _ _ _ _ _ _ Hf e He1 Hk) as (tick & ta & tb & Hdue & Hidle & -> & Heb & Hst).
  exists sched, runs0, now, cronSched, tick.
  exists ([ev PGet (Ok sched); ev (PListRuns (cd_Name sched)) (Ok runs0); ev PClock now] ++ ta)%list, (tb ++ t2)%list.
  split_and!; [left|right; left|right; right; left|by rewrite <-!app_assoc|apply elem_of_app; by left|done|done|exact Hdue| |].
  - intros run Hr. eapply idle_more; [by apply Hidle|]. intros y Hy. apply elem_of_app. by right.
  - intros r Hr. destruct (Hst r Hr) as [-> Hend]. split; [done|]. intros run Hrun. by apply endedIn_l, Hend.
Qed.

(** *** What the history keeps *)

Context (Sort_perm : forall T cmp l, SortFunc T cmp l ≡ₚ l).
Context (Sort_sorted : forall T cmp l, orderingIn l cmp -> StronglySorted (fun x y => cmp x y <> Gt) (SortFunc T cmp l)).

(** Among runs whose names all carry a tick of the schedule, the comparison is an order
    and puts a later tick first. *)
Definition ticked (scheduleName : string) (r : ClusterBackup) : Prop := is_Some (parseRunTick scheduleName (cb_Name r)).
Definition tickOf (scheduleName : string) (r : ClusterBackup) : Z := default 0%Z (parseRunTick scheduleName (cb_Name r)).

Definition compareTicked (scheduleName : string) (a b : ClusterBackup) : comparison :=
  match Z.compare (tickOf scheduleName b) (tickOf scheduleName a) with
  | Eq => match Z.compare (cb_Created b) (cb_Created a) with Eq => String.compare (cb_Name b) (cb_Name a) | r => r end
  | r => r
  end.

Lemma compareTicked_ordering scheduleName : ordering (compareTicked scheduleName).
Proof.
  apply (ordering_lex (fun a b => Z.compare (tickOf scheduleName b) (tickOf scheduleName a)));
    [apply (ordering_flip (fun a b => Z.compare (tickOf scheduleName a) (tickOf scheduleName b))), (ordering_on (tickOf scheduleName)), ordering_Z|].
  apply (ordering_lex (fun a b => Z.compare (cb_Created b) (cb_Created a)));
    [apply (ordering_flip (fun a b => Z.compare (cb_Created a) (cb_Created b))), (ordering_on cb_Created), ordering_Z|].
  apply (ordering_flip (fun a b => String.compare (cb_Name a) (cb_Name b))), (ordering_on cb_Name), ordering_string.
Qed.

Lemma compareRuns_ticked scheduleName a b :
  ticked scheduleName a -> ticked scheduleName b -> compareRuns scheduleName a b = compareTicked scheduleName a b.
Proof.
  intros [ta Ha] [tb Hb]. unfold compareRuns, compareTicked, tickOf, time_after. rewrite Ha, Hb. cbn [default from_option]. unfold id.
  destruct (Z.compare_spec tb ta) as [->|Hlt|Hlt].
  - rewrite Z.eqb_refl. cbn [negb]. destruct (Z.compare_spec (cb_Created b) (cb_Created a)) as [->|Hc|Hc].
    + rewrite Z.eqb_refl. cbn [negb]. rewrite (String.compare_antisym (cb_Name b)).
      by destruct (String.compare (cb_Name a) (cb_Name b)).
    + destruct (Z.eqb_spec (cb_Created a) (cb_Created b)); [lia|]. cbn. destruct (Z.ltb_spec (cb_Created b) (cb_Created a)); [done|lia].
    + destruct (Z.eqb_spec (cb_Created a) (cb_Created b)); [lia|]. cbn. destruct (Z.ltb_spec (cb_Created b) (cb_Created a)); [lia|done].
  - destruct (Z.eqb_spec ta tb); [lia|]. cbn. destruct (Z.ltb_spec tb ta); [done|lia].
  - destruct (Z.eqb_spec ta tb); [lia|]. cbn. destruct (Z.ltb_spec tb ta); [lia|done].
Qed.

Lemma fireRun_deletes_nothing sched runs0 due now :
  only (I := planI) (fun o => match o with PDeleteRun _ => False | _ => True end) (fireRun OperatorNamespace sched runs0 due now).
Proof.
  unfold fireRun. destruct due as [tick|]; [|done]. apply only_bind.
  - unfold resolveRunOverlap. apply only_bind; [eapply only_impl; [|apply judgeRuns_reads]; by intros []|].
    intros [[vs|]|e]; [|done|done]. apply only_bind; [|done]. eapply only_impl; [|apply terminateRuns_ends]. by intros [].
  - intros [|ended|e]; [done| |done]. apply only_bind; [|done]. unfold stampRun. apply only_bind; [by apply only_call|].
    intros [e|]; [done|]. by apply only_bind; [apply only_call|].
Qed.

Lemma StronglySorted_split {A} (R : A -> A -> Prop) l1 l2 :
  StronglySorted R (l1 ++ l2) -> forall x y, x ∈ l1 -> y ∈ l2 -> R x y.
Proof.
  induction l1 as [|z l1 IH]; intros Hs x y Hx Hy; [by apply not_elem_of_nil in Hx|].
  apply StronglySorted_inv in Hs as [Hs Hz]. rewrite Forall_forall in Hz. apply elem_of_cons in Hx as [->|Hx]; [|by apply IH].
  apply Hz, elem_of_app. by right.
Qed.

Lemma historyLimit_pos v : 1 <= historyLimit v.
Proof. unfold historyLimit, defaultRunsHistoryLimit. destruct (Z.leb_spec v 0); lia. Qed.

Lemma kept_newer scheduleName group keep k r :
  (forall x, x ∈ group -> ticked scheduleName x) ->
  k ∈ firstn keep (SortFunc _ (compareRuns scheduleName) group) -> r ∈ skipn keep (SortFunc _ (compareRuns scheduleName) group) ->
  (tickOf scheduleName r <= tickOf scheduleName k)%Z.
Proof.
  intros Hticks Hk Hr. set (sorted := SortFunc _ (compareRuns scheduleName) group) in *.
  assert (firstn keep sorted ++ skipn keep sorted = sorted)%list as Hsplit by apply firstn_skipn.
  assert (StronglySorted (fun x y => compareRuns scheduleName x y <> Gt) sorted) as Hs.
  { apply Sort_sorted, (ordering_in _ _ (compareTicked scheduleName)); [apply compareTicked_ordering|].
    intros x y Hx Hy. apply compareRuns_ticked; by apply Hticks. }
  rewrite <-Hsplit in Hs. pose proof (StronglySorted_split _ _ _ Hs k r Hk Hr) as Hc. cbv beta in Hc.
  assert (forall x, x ∈ sorted -> x ∈ group) as Hin by (intros x; unfold sorted; by rewrite Sort_perm).
  assert (k ∈ group) by (apply Hin; rewrite <-Hsplit; apply elem_of_app; by left).
  assert (r ∈ group) by (apply Hin; rewrite <-Hsplit; apply elem_of_app; by right).
  rewrite compareRuns_ticked in Hc by auto. unfold compareTicked in Hc.
  destruct (Z.compare_spec (tickOf scheduleName r) (tickOf scheduleName k)); [lia|lia|done].
Qed.

(** The snapshot after the fire: the runs that were listed, an ended one as it was
    written. *)
Definition refreshed (runs0 runs1 : list ClusterBackup) (tr : list act) : Prop :=
  map cb_Name runs1 = map cb_Name runs0
  /\ forall x, x ∈ runs1 -> x ∈ runs0 \/ ev (PRunStatus x) None ∈ tr.

Lemma terminateAbandonedRun_writes cb evidence tr ended :
  runs (terminateAbandonedRun cb evidence) tr (Ok ended) -> ev (PRunStatus ended) None ∈ tr.
Proof.
  intros H. unfold terminateAbandonedRun in H. walk H. destruct x as [children|e]; [|by destruct H]. walk H. destruct x as [e|]; [by destruct H|].
  walk H. destruct (match x with Some e => _ | None => _ end) as [e|]; [by destruct H|]. walk H. walk H. walk H. walk H. walk H.
  destruct x4 as [e|]; [by destruct H|]. walk H. destruct H as [-> [= ->]]. rewrite !elem_of_app. do 7 right. left. left.
Qed.

Lemma terminateRuns_writes vs tr ended :
  runs (terminateRuns vs) tr (Ok ended) -> forall x, x ∈ ended -> ev (PRunStatus x) None ∈ tr.
Proof.
  revert tr ended. induction vs as [|[cb evidence] vs IH]; intros tr ended H; cbn [terminateRuns] in H.
  { destruct H as [-> [= ->]]. by intros x ?%not_elem_of_nil. }
  walk H. destruct x as [e1|e]; [|by destruct H]. walk H. walk H. destruct x0 as [rest|e]; [|by destruct H]. destruct H as [-> [= ->]].
  intros y [->|Hy]%elem_of_cons; rewrite !elem_of_app; [left; by eapply terminateAbandonedRun_writes|do 2 right; left; by eapply IH].
Qed.

Lemma throughSnapshot_one ended r :
  let r' := default r (find (fun e => cb_Name e =? cb_Name r) ended) in cb_Name r' = cb_Name r /\ (r' = r \/ r' ∈ ended).
Proof.
  cbv zeta. destruct (find _ ended) as [e|] eqn:E; [|by split; [|left]]. apply find_some in E as [Hi He]. apply String.eqb_eq in He.
  split; [exact He|right]. by apply list_elem_of_In.
Qed.

Lemma throughSnapshot_refreshed ended runs0 tr :
  (forall x, x ∈ ended -> ev (PRunStatus x) None ∈ tr) -> refreshed runs0 (throughSnapshot ended runs0) tr.
Proof.
  intros H. split.
  - unfold throughSnapshot. rewrite map_map. apply map_ext. intros r. apply throughSnapshot_one.
  - intros x Hx. apply list_elem_of_In, in_map_iff in Hx as (r & <- & Hr). apply list_elem_of_In in Hr.
    destruct (proj2 (throughSnapshot_one ended r)) as [->|Hx]; [by left|right; by apply H].
Qed.

Lemma refreshed_same runs0 tr : refreshed runs0 runs0 tr.
Proof. split; [done|]. by left. Qed.

Lemma refreshed_more runs0 runs1 tr tr' : refreshed runs0 runs1 tr -> tr ⊆ tr' -> refreshed runs0 runs1 tr'.
Proof. intros [H1 H2] Hs. split; [done|]. intros x Hx. destruct (H2 x Hx); auto. Qed.

Lemma fireRun_refreshes sched runs0 due now tr name runs1 :
  runs (fireRun OperatorNamespace sched runs0 due now) tr (Ok (name, runs1)) -> refreshed runs0 runs1 tr.
Proof.
  intros H. unfold fireRun in H. destruct due as [tick|]; [|destruct H as [_ [= _ ->]]; apply refreshed_same].
  walk H. destruct x as [|ended|e]; [destruct H as [_ [= _ ->]]; apply refreshed_same| |by destruct H].
  walk H. destruct x as [n|e]; [|by destruct H]. destruct H as [_ [= _ ->]].
  apply throughSnapshot_refreshed. intros x Hx. apply elem_of_app. left. unfold resolveRunOverlap in R. walk R.
  destruct x0 as [[vs|]|err]; [|by destruct R..]. walk R. destruct R as [_ Ho]. destruct x0 as [ended'|]; [|done]. injection Ho as ->.
  rewrite !elem_of_app. right. left. by eapply terminateRuns_writes.
Qed.

(** The history spares what is not over and keeps the newest.  A record that is deleted
    is one of the runs that were listed, as the pass left them, and belongs to a group of
    ended ones, the successful or the failed.  As many records of the group as the limit
    says, and at least one, are kept beside it; and when the names of the group are run
    names of the schedule, each of those is at least as recent. *)
Theorem history_keeps_the_newest tr o name w :
  runs reconcile tr o -> ev (PDeleteRun name) w ∈ tr ->
  exists sched runs0 runs1 group keep kept r,
    ev PGet (Ok sched) ∈ tr /\ ev (PListRuns (cd_Name sched)) (Ok runs0) ∈ tr /\ refreshed runs0 runs1 tr
    /\ (group = successfulRuns runs1 /\ keep = historyLimit (cx_SuccessfulRunsHistoryLimit (cd_Spec sched))
        \/ group = failedRuns runs1 /\ keep = historyLimit (cx_FailedRunsHistoryLimit (cd_Spec sched)))
    /\ (forall x, x ∈ group -> isTerminalClusterBackupPhase (cst_Phase (cb_Status x)) = true)
    /\ name = cb_Name r /\ (kept ++ [r])%list ⊆+ group /\ length kept = keep /\ 1 <= keep
    /\ ((forall x, x ∈ group -> ticked (cd_Name sched) x) -> forall k, k ∈ kept -> (tickOf (cd_Name sched) r <= tickOf (cd_Name sched) k)%Z).
Proof.
  intros H He. destruct (reconcile_parts _ _ _ H He) as (sched & runs0 & now & cronSched & t1 & t2 & -> & _ & _ & fired & Hf & H2);
    [right; by eexists|].
  assert (ev (PDeleteRun name) w ∈ t2) as He2.
  { rewrite !elem_of_app in He. destruct He as [He|[He|He]]; [exfalso..|done].
    - rewrite !elem_of_cons in He. by destruct He as [|[|[|?%not_elem_of_nil]]].
    - pose proof (only_runs _ _ _ _ (fireRun_deletes_nothing _ _ _ _) Hf) as Hq. rewrite Forall_forall in Hq. exact (Hq _ He). }
  destruct fired as [[stamped runs1]|err]; [|subst t2; by apply not_elem_of_nil in He2]. destruct H2 as (tg & tw & -> & Hg & Hw).
  apply elem_of_app in He2 as [He2|He2]; [|by apply Hw in He2 as [s [=]]].
  destruct (gcHistory_prunes _ _ _ _ Hg He2) as [(t & r & [=])|(group & keep & r & Hgroup & Hr & [= ->])].
  set (sorted := SortFunc _ (compareRuns (cd_Name sched)) group) in *.
  assert (firstn keep sorted ++ skipn keep sorted = sorted)%list as Hsplit by apply firstn_skipn.
  exists sched, runs0, runs1, group, keep, (firstn keep sorted), r. split_and!.
  - left.
  - right. left.
  - eapply refreshed_more; [by eapply fireRun_refreshes|]. intros y Hy. rewrite !elem_of_app. auto.
  - exact Hgroup.
  - intros x Hx. destruct Hgroup as [[-> _]|[-> _]]; apply list_elem_of_In, filter_In in Hx as [_ Hp]; unfold isTerminalClusterBackupPhase.
    + by rewrite Hp.
    + apply orb_true_iff in Hp as [Hp|Hp]; by rewrite Hp, ?orb_true_r.
  - done.
  - rewrite <-(Sort_perm _ (compareRuns (cd_Name sched)) group). fold sorted. rewrite <-Hsplit at 2. apply submseteq_app; [done|].
    by apply singleton_submseteq_l.
  - rewrite length_firstn. apply Nat.min_l. destruct (Nat.le_gt_cases keep (length sorted)) as [|Hlt]; [done|].
    rewrite skipn_all2 in Hr by lia. by apply not_elem_of_nil in Hr.
  - destruct Hgroup as [[_ ->]|[_ ->]]; apply historyLimit_pos.
  - intros Hticks k Hk. apply (kept_newer _ group keep); done.
Qed.
End Passes.

(** ** Witnesses *)

#[local] Notation ev o x := (Ev (I := planI) o x).

#[local] Existing Instance MapConditionStore.

Definition wit_cs_spec : ClusterBackupScheduleSpec :=
  mkClusterScheduleSpec "* * * * *" "" false false "" None 1 1
    (mkClusterBackupSpec "" "loc" (nsselector.mkNamespaceSelector ["team"] ∅ [] "" []) (mkCaptureSpec None [] [])
       (mkBackupRunSpec (mkPVCSelector ∅ [] []) None false (mkHooksSpec false [] [] "") 0 2)).

Definition wit_cs : @ClusterBackupSchedule MapConditionStore :=
  mkClusterSchedule "nightly" "uid" wit_t0 1 wit_cs_spec (@mkBackupScheduleStatus MapConditionStore "" "" None None ∅).

(** A run of the schedule. *)
Definition wit_cs_run (name : string) (created : Z) (phase : string) : @ClusterBackup MapConditionStore :=
  mkClusterBackup name name created 1 (cx_Template wit_cs_spec)
    (mkClusterBackupStatus phase None None 0 0 0 0 0 0 0 None 0 [] [] ∅).

(** A child with one volume. *)
Definition wit_cs_child (volume : VolumePhase) : @Backup MapConditionStore :=
  @mkBackup MapConditionStore "team" "nightly-20250807-000000" 1 (wit_t0 - 10 * hour) false ∅ ∅ []
    (mkBackupSpec "" kindClusterBackupLocation "loc" None)
    (@mkBackupStatus MapConditionStore BackupPhasePending None None None
       [mkVolumeStatus "data" "" 0 0 volume "" "" (Some (wit_t0 - 9 * hour)%Z) None] [] 0 ∅).

(** The answers of a pass, a minute after the schedule was created; the children are
    listed as a function of how often they were listed. *)
Definition wit_cs_server (all : list (@ClusterBackup MapConditionStore)) (children : nat -> list (@Backup MapConditionStore))
    : server (@planI MapConditionStore) :=
  fun tr o =>
    match o return plan_answer o with
    | PGet => Ok wit_cs
    | PListRuns _ => Ok all
    | PListChildren _ =>
        Ok (children (length (omap (fun e : event (@planI MapConditionStore) =>
                                      match ev_action e with PListChildren n => Some n | _ => None end) tr)))
    | PGetJob _ => Err (mkErr ENotFound "not found")
    | PBackupStatus _ | PDeleteBinding _ | PDeleteJob _ | PDeleteSecret _ | PRunStatus _ | PCreateRun _ | PDeleteRun _ | PStatus _ => None
    | PEvent _ _ => tt
    | PClock | PNow => (wit_t0 + minute)%Z
    end.

Notation wit_cs_reconcile :=
  (reconcileClusterSchedule (CS := MapConditionStore) "ops" (fun _ _ => Ok everyMinute) (fun _ _ => false) isort).
Notation wit_cs_pass all children := (exec (wit_cs_server all children) wit_cs_reconcile []).

(** Every run of the schedule: one without an end, and two that completed. *)
Definition wit_cs_runs : list (@ClusterBackup MapConditionStore) :=
  [wit_cs_run "nightly-20250807-000000" (wit_t0 - 10 * hour) ClusterBackupPhaseRunning;
   wit_cs_run "nightly-20250805-000000" (wit_t0 - 50 * hour) ClusterBackupPhaseCompleted;
   wit_cs_run "nightly-20250806-000000" (wit_t0 - 30 * hour) ClusterBackupPhaseCompleted].
Definition wit_cs_clears := wit_cs_pass wit_cs_runs (fun _ => []).

Lemma overlap_cleared_on_evidence_witness :
  length (activeRuns wit_cs_runs) = 1
  /\ exists sched runs0 now t0 t1, ev (PListRuns (cd_Name sched)) (Ok runs0) ∈ fst wit_cs_clears
       /\ (forall run, run ∈ activeRuns runs0 -> idle now run t0) /\ (forall run, run ∈ activeRuns runs0 -> endedIn run t1).
Proof.
  split; [vm_compute; reflexivity|].
  destruct (overlap_cleared_on_evidence "ops" (fun _ _ => Ok everyMinute) (fun _ _ => false) isort
              (fst wit_cs_clears) (snd wit_cs_clears) (ev (PCreateRun (stampedRun wit_cs (wit_t0 + minute))) None))
    as (sched & runs0 & now & cron & tick & t0 & t1 & _ & Hl & _ & Et & _ & _ & _ & _ & Hidle & Hst).
  - exact (exec_runs (wit_cs_server _ _) wit_cs_reconcile []).
  - apply (list_elem_of_lookup_2 _ 15). vm_compute. reflexivity.
  - exact I.
  - destruct (Hst _ eq_refl) as [_ Hend]. exists sched, runs0, now, t0, t1. split; [rewrite Et; apply elem_of_app; by left|by split].
Defined.

Lemma history_keeps_the_newest_witness :
  exists (group kept : list (@ClusterBackup MapConditionStore)) r,
    cb_Name r = "nightly-20250805-000000" /\ (kept ++ [r])%list ⊆+ group /\ length kept = 1.
Proof.
  destruct (history_keeps_the_newest "ops" (fun _ _ => Ok everyMinute) (fun _ _ => false) isort isort_perm isort_sorted_in
              (fst wit_cs_clears) (snd wit_cs_clears) "nightly-20250805-000000" None)
    as (sched & runs0 & runs1 & group & keep & kept & r & Hg & _ & _ & Hk & _ & Hn & Hsub & Hl & _).
  - exact (exec_runs (wit_cs_server _ _) wit_cs_reconcile []).
  - apply (list_elem_of_lookup_2 _ 17). vm_compute. reflexivity.
  - exists group, kept, r. split; [by symmetry|]. split; [exact Hsub|]. rewrite Hl.
    assert (forallb (fun e : event (@planI MapConditionStore) =>
              match ev_action e as o return plan_answer o -> bool with
              | PGet => fun x => match x with
                                 | Ok s => (historyLimit (cx_SuccessfulRunsHistoryLimit (cd_Spec s)) =? 1)%nat
                                           && (historyLimit (cx_FailedRunsHistoryLimit (cd_Spec s)) =? 1)%nat
                                 | Err _ => true
                                 end
              | _ => fun _ => true
              end (ev_answer e)) (fst wit_cs_clears) = true) as Hall by (vm_compute; reflexivity).
    rewrite forallb_forall in Hall. pose proof (Hall _ (proj1 (list_elem_of_In _ _) Hg)) as [H1%Nat.eqb_eq H2%Nat.eqb_eq]%andb_true_iff.
    destruct Hk as [[_ ->]|[_ ->]]; [exact H1|exact H2].
Defined.

(** ** Two places where a pass does less than it says *)

(** The comparison of [trimHistory] is no order when a name carries no tick: here each
    record goes before the next, and the last before the first. *)
Example history_comparison_cycles :
  let a := wit_cs_run "nightly-20250101-000000" 3 ClusterBackupPhaseCompleted in
  let b := wit_cs_run "by-hand" 2 ClusterBackupPhaseCompleted in
  let c := wit_cs_run "nightly-20260101-000000" 1 ClusterBackupPhaseCompleted in
  compareRuns "nightly" a b = Lt /\ compareRuns "nightly" b c = Lt /\ compareRuns "nightly" c a = Lt.
Proof. split_and!; vm_compute; reflexivity. Qed.

(** A child whose volume is uploading vetoes the verdict; but a child that starts its
    upload between the verdict and the termination, which lists the children again, is
    ended with its run. *)
Example termination_ends_a_live_upload :
  let child := wit_cs_child VolumePhaseUploading in
  let ended (tr : list (event (@planI MapConditionStore))) :=
    omap (fun e : event (@planI MapConditionStore) =>
            match ev_action e with PBackupStatus b => Some (b_phase b, map Phase (b_volumes b)) | _ => None end) tr in
  let one := [wit_cs_run "nightly-20250807-000000" (wit_t0 - 10 * hour) ClusterBackupPhaseRunning] in
  ended (fst (wit_cs_pass one (fun _ => [child]))) = []
  /\ ended (fst (wit_cs_pass one (fun n => if (n <? 2)%nat then [wit_cs_child VolumePhasePending] else [child])))
     = [(BackupPhaseFailed, [VolumePhaseFailed])].
Proof. split; vm_compute; reflexivity. Qed.
