(* ===== verification/Discovery.v ===== *)
(** * Discovery: the repository seen as Backups
    (internal/discovery: derive.go; internal/controller: discovery_controller.go,
    discovery_inventory.go)

    The volumes a group of snapshots stands for and how they are merged into the report
    of an execution; the reconcile that lists a repository, projects one Backup per
    namespace and run, removes the projections whose snapshots are gone and records the
    inventory; and the tracker that keeps one listing per repository in flight. *)

From Stdlib Require Import Ascii String Sorted.
From stdpp Require Import sorting.
From S2P Require Import Prelude GoText Cluster Selectors Names Status VolumeMachine Restic.
From S2P Require Import Backup.
From S2P Require Import Location.
From S2P Require Import RestoreController.
From S2P Require Import ScheduleController ClusterBackup.
From S2P Require Import Program.

#[local] Open Scope string_scope.
#[local] Notation length := List.length.

Definition discoveryDefaultInterval : Z := hour.
Definition discoveryMinInterval : Z := minute.
Definition discoveryRetryInterval : Z := (30 * second)%Z.
Definition inventoryWatchdogInterval : Z := (30 * second)%Z.
Definition inventoryPassDeadline : Z := (6 * minute)%Z.
Definition errInventoryPanicked : gerr := errorf "inventory pass panicked".
Definition inventoryBuffer : nat := 64.

(** ** Derivation *)

Section Derivation.
(** [slices.SortFunc]. *)
Variable SortFunc : forall T : Type, (T -> T -> comparison) -> list T -> list T.

Definition comparePvc (a b : VolumeStatus) : comparison := String.compare (Pvc a) (Pvc b).

(** The volume of one snapshot, if it holds the data of a claim. *)
Definition projectedVolume (s : Snapshot) : option VolumeStatus :=
  if negb (default "" (TagValue (s_Tags s) TagKeyKind) =? KindData) then None
  else match TagValue (s_Tags s) TagKeyPVC with
       | None => None
       | Some pvc => if pvc =? "" then None
                     else Some (mkVolumeStatus pvc (s_ID s) 0 0 VolumePhaseCompleted "" "" None None)
       end.

Definition VolumesFromSnapshots (snaps : list Snapshot) : list VolumeStatus :=
  SortFunc _ comparePvc (omap projectedVolume snaps).

Definition set_snapshotID (id : string) (v : VolumeStatus) : VolumeStatus :=
  mkVolumeStatus (Pvc v) id (SizeBytes v) (AddedBytes v) (Phase v) (Node v) (Reason v) (FirstAttemptAt v) (PhaseEnteredAt v).

Definition byPVC (recorded : list VolumeStatus) : gmap string VolumeStatus :=
  fold_left (fun m v => <[Pvc v := v]> m) recorded ∅.

(** The first loop: the derived volumes, each claim once, over what was recorded. *)
Definition foldDerived (recorded : gmap string VolumeStatus) (acc : list VolumeStatus * gset string) (d : VolumeStatus)
    : list VolumeStatus * gset string :=
  let '(out, seen) := acc in
  if bool_decide (Pvc d ∈ seen) then acc
  else ((out ++ [match recorded !! Pvc d with Some rec => set_snapshotID (SnapshotID d) rec | None => d end])%list,
        {[Pvc d]} ∪ seen).

(** The second: a recorded volume that no snapshot backs stays for what it says. *)
Definition keepRecorded (seen : gset string) (rec : VolumeStatus) : bool :=
  negb (bool_decide (Pvc rec ∈ seen)) && (negb (Phase rec =? VolumePhaseCompleted) || negb (Reason rec =? "")).

Definition MergeProjectedVolumes (recorded derived : list VolumeStatus) : list VolumeStatus :=
  let '(out, seen) := fold_left (foldDerived (byPVC recorded)) derived ([], ∅) in
  SortFunc _ comparePvc (out ++ List.filter (keepRecorded seen) recorded)%list.

Definition DistinctNamespaces (snaps : list Snapshot) : nat :=
  size (fold_left (fun (seen : gset string) s =>
          match TagValue (s_Tags s) TagKeyNamespace with
          | Some ns => if ns =? "" then seen else {[ns]} ∪ seen
          | None => seen
          end) snaps ∅).
End Derivation.

(** ** The tracker *)

Record inventoryResult := mkInventoryResult { iv_snaps : list Snapshot; iv_err : option gerr; iv_at : Z }.

Inductive inventoryState := inventoryIdle | inventoryPending | inventoryReady (res : inventoryResult).

Record inventoryTracker := mkInventoryTracker {
  it_inFlight : gset string;
  it_results : gmap string inventoryResult;
  it_wake : list string                              (* the wake channel *)
}.

Definition newInventoryTracker : inventoryTracker := mkInventoryTracker ∅ ∅ [].

Definition takeInventory (t : inventoryTracker) (repoName : string) : inventoryState * inventoryTracker :=
  match it_results t !! repoName with
  | Some res => (inventoryReady res, mkInventoryTracker (it_inFlight t) (base.delete repoName (it_results t)) (it_wake t))
  | None => (if bool_decide (repoName ∈ it_inFlight t) then inventoryPending else inventoryIdle, t)
  end.

Definition retain (t : inventoryTracker) (repoName : string) (res : inventoryResult) (maxAge now : Z) : bool * inventoryTracker :=
  if (maxAge <=? time_sub now (iv_at res))%Z then (false, t)
  else if bool_decide (repoName ∈ it_inFlight t) || bool_decide (is_Some (it_results t !! repoName)) then (false, t)
  else (true, mkInventoryTracker (it_inFlight t) (<[repoName := res]> (it_results t)) (it_wake t)).

(** Whether a goroutine was launched. *)
Definition startInventory (t : inventoryTracker) (repoName : string) : bool * inventoryTracker :=
  if bool_decide (repoName ∈ it_inFlight t) then (false, t)
  else (true, mkInventoryTracker ({[repoName]} ∪ it_inFlight t) (it_results t) (it_wake t)).

Definition finishInventory (t : inventoryTracker) (repoName : string) (snaps : list Snapshot) (err : option gerr) (now : Z)
    : inventoryTracker :=
  mkInventoryTracker (it_inFlight t ∖ {[repoName]}) (<[repoName := mkInventoryResult snaps err now]> (it_results t))
    (if (length (it_wake t) <? inventoryBuffer)%nat then (it_wake t ++ [repoName])%list else it_wake t).

(** ** Objects *)

Record InventoryStatus := mkInventoryStatus {
  is_SnapshotCount : Z;
  is_NamespacesPresent : Z;
  is_LastDiscoveryTime : option Z;
  is_ProjectedBackups : Z;
  is_OrphanSnapshots : Z;
  is_LastDiscoverySuccess : option bool
}.

Record inventoriedRepository := mkInventoried { ir_Repository : BackupRepository; ir_Inventory : InventoryStatus }.
Definition ir_Name (r : inventoriedRepository) : string := br_Name (ir_Repository r).

Definition set_inventory (s : InventoryStatus) (r : inventoriedRepository) : inventoriedRepository :=
  mkInventoried (ir_Repository r) s.

Record DiscoverySpec := mkDiscoverySpec { dy_Enabled : option bool; dy_Interval : Z }.

Record NamespaceObject := mkNamespaceObject { no_Terminating : bool; no_Deleting : bool }.

(** What discovery applies to the object of a Backup: no [spec.run]. *)
Record projection := mkProjection {
  pj_Namespace : string;
  pj_Name : string;
  pj_Labels : labels;
  pj_Annotations : labels;
  pj_LocationKind : string;
  pj_LocationName : string
}.

Inductive groupOutcome := groupProjected | groupOrphan.
Record discoveryCensus := mkCensus { dc_projected : Z; dc_orphans : Z; dc_success : bool }.

Section Discovery.
Context `{CS : ConditionStore}.

(** ** Requests *)

Inductive discovery_action :=
| DGet (name : string)
| DGetLocation (name : string)
| DTake (name : string)
| DStart (name : string)
| DRetain (name : string) (res : inventoryResult) (maxAge : Z)
| DGetNamespace (name : string)
| DGetBackup (namespace name : string)
| DApply (p : projection)
| DApplyStatus (namespace name : string) (phase : string) (volumes : list VolumeStatus)
| DListOrigin (origin : string)
| DDelete (namespace name : string)
| DStatus (name : string) (s : InventoryStatus)
| DEvent (etype reason : string).

Definition discovery_answer (o : discovery_action) : Type :=
  match o with
  | DGet _ => result inventoriedRepository
  | DGetLocation _ => result DiscoverySpec
  | DTake _ => inventoryState
  | DStart _ | DEvent _ _ => ()
  | DRetain _ _ _ => bool
  | DGetNamespace _ => result NamespaceObject
  | DGetBackup _ _ => result Backup
  | DListOrigin _ => result (list Backup)
  | DApply _ | DApplyStatus _ _ _ _ | DDelete _ _ | DStatus _ _ => option gerr
  end.

Definition discoveryI : interface := mkInterface discovery_action discovery_answer.
Notation discoveryP := (prog discoveryI).
Definition disc (o : discovery_action) : discoveryP (discovery_answer o) := call (I := discoveryI) o.

Variable SortFunc : forall T : Type, (T -> T -> comparison) -> list T -> list T.
(** [range] over a map, in any order. *)
Variable range : forall A, gmap (string * string) A -> list ((string * string) * A).

(** ** Settings *)

Definition discoveryInterval (configured : Z) : Z :=
  let interval := if (configured <=? 0)%Z then discoveryDefaultInterval else configured in
  if (interval <? discoveryMinInterval)%Z then discoveryMinInterval else interval.

Definition discoverySettings (repo : inventoriedRepository) : discoveryP (result (bool * Z)) :=
  let! loc := disc (DGetLocation (ir_Name repo)) in
  Done (match loc with
        | Err e => if IsNotFound e then Ok (false, 0%Z)
                   else Err (wrap_err ("get ClusterBackupLocation " ++ ir_Name repo) e)
        | Ok loc => Ok (default true (dy_Enabled loc), discoveryInterval (dy_Interval loc))
        end).

(** ** Projection *)

Definition projectedPhase (recorded : string) : string :=
  if isTerminalBackupPhase recorded then recorded else BackupPhaseCompleted.

Definition projectionOf (repo : inventoriedRepository) (key : string * string) : projection :=
  let '(namespace, run) := key in
  mkProjection namespace run
    (<[LabelOrigin := OriginCluster]> (<[LabelClusterBackup := run]> (<[LabelNamespace := namespace]> ∅)))
    (<[AnnotationProjected := AnnotationProjectedValue]> ∅) kindClusterBackupLocation (ir_Name repo).

(** The two applies of a projection over what an execution recorded. *)
Definition applyProjection (repo : inventoriedRepository) (key : string * string) (snaps : list Snapshot)
    (recordedPhase : string) (recordedVolumes : list VolumeStatus) : discoveryP (result groupOutcome) :=
  let '(namespace, run) := key in
  let! err := disc (DApply (projectionOf repo key)) in
  match err with
  | Some e => Done (Err (wrap_err ("project Backup " ++ namespace ++ "/" ++ run) e))
  | None =>
      let! err := disc (DApplyStatus namespace run (projectedPhase recordedPhase)
                          (MergeProjectedVolumes SortFunc recordedVolumes (VolumesFromSnapshots SortFunc snaps))) in
      Done (match err with
            | Some e => Err (wrap_err ("project Backup status " ++ namespace ++ "/" ++ run) e)
            | None => Ok groupProjected
            end)
  end.

Definition projectGroup (repo : inventoriedRepository) (key : string * string) (snaps : list Snapshot)
    : discoveryP (result groupOutcome) :=
  let '(namespace, run) := key in
  let! ns := disc (DGetNamespace namespace) in
  match ns with
  | Err e => Done (if IsNotFound e then Ok groupOrphan else Err (wrap_err ("get namespace " ++ namespace) e))
  | Ok ns =>
      if no_Terminating ns || no_Deleting ns then Done (Ok groupProjected)
      else
        let! existing := disc (DGetBackup namespace run) in
        match existing with
        | Err e =>
            if IsNotFound e then applyProjection repo key snaps "" []
            else Done (Err (wrap_err ("get Backup " ++ namespace ++ "/" ++ run) e))
        | Ok b =>
            if negb (isProjection b) && negb (isTerminalBackupPhase (b_phase b)) then Done (Ok groupProjected)
            else applyProjection repo key snaps (b_phase b) (b_volumes b)
        end
  end.

Record passTally := mkPassTally { pt_failures : list gerr; pt_projected : Z; pt_orphans : Z }.

Definition projectOne (repo : inventoriedRepository) (t : passTally) (group : (string * string) * list Snapshot)
    : discoveryP passTally :=
  let '(key, snaps) := group in
  if fst key =? "" then Done t
  else
    let! outcome := projectGroup repo key snaps in
    Done (match outcome with
          | Err e => mkPassTally (pt_failures t ++ [e])%list (pt_projected t) (pt_orphans t)
          | Ok groupOrphan => mkPassTally (pt_failures t) (pt_projected t) (int32 (pt_orphans t + 1))
          | Ok groupProjected => mkPassTally (pt_failures t) (int32 (pt_projected t + 1)) (pt_orphans t)
          end).

(** ** Collection of what is gone *)

Definition repoKeys (groups : gmap (string * string) (list Snapshot)) : gset (string * string) :=
  filter (fun key => fst key <> "") (dom groups).

(** A projection of this repository whose snapshots are gone. *)
Definition staleProjection (locationName : string) (keys : gset (string * string)) (b : Backup) : bool :=
  isProjection b && (sp_LocationName (b_spec b) =? locationName) && negb (bool_decide ((b_namespace b, b_name b) ∈ keys)).

Fixpoint removeProjections (locationName : string) (keys : gset (string * string)) (bs : list Backup)
    : discoveryP (option gerr) :=
  match bs with
  | [] => Done None
  | b :: bs =>
      if negb (staleProjection locationName keys b) then removeProjections locationName keys bs
      else
        let! err := disc (DDelete (b_namespace b) (b_name b)) in
        match (match err with Some e => if IsNotFound e then None else Some e | None => None end) with
        | Some e => Done (Some (wrap_err ("delete stale projection " ++ b_namespace b ++ "/" ++ b_name b) e))
        | None => let! _ := disc (DEvent "Normal" "ProjectionRemoved") in removeProjections locationName keys bs
        end
  end.

Definition gcProjections (locationName : string) (keys : gset (string * string)) : discoveryP (option gerr) :=
  let! bs := disc (DListOrigin OriginCluster) in
  match bs with
  | Err e => Done (Some (wrap_err "list projected Backups" e))
  | Ok bs => removeProjections locationName keys bs
  end.

(** ** The record *)

Definition inventoried (snaps : list Snapshot) (at_ : Z) (census : discoveryCensus) : InventoryStatus :=
  mkInventoryStatus (int32 (Z.of_nat (length snaps))) (int32 (Z.of_nat (DistinctNamespaces snaps))) (Some at_)
    (dc_projected census) (dc_orphans census) (Some (dc_success census)).

Definition updateInventoryStatus (repo : inventoriedRepository) (snaps : list Snapshot) (at_ : Z) (census : discoveryCensus)
    : discoveryP (option gerr) :=
  let! err := disc (DStatus (ir_Name repo) (inventoried snaps at_ census)) in
  Done (option_map (wrap_err ("update repository inventory status " ++ ir_Name repo)) err).

Definition recordDiscoveryOutcome (repo : inventoriedRepository) (success : bool) : discoveryP (option gerr) :=
  let s := ir_Inventory repo in
  if match is_LastDiscoverySuccess s with Some b => Bool.eqb b success | None => false end then Done None
  else
    let! err := disc (DStatus (ir_Name repo) (mkInventoryStatus (is_SnapshotCount s) (is_NamespacesPresent s) (is_LastDiscoveryTime s)
                        (is_ProjectedBackups s) (is_OrphanSnapshots s) (Some success))) in
    Done (option_map (wrap_err ("record discovery outcome on repository " ++ ir_Name repo)) err).

Definition reportPartialPass (repo : inventoriedRepository) (res : inventoryResult) (interval : Z) : discoveryP Z :=
  let! _ := disc (DEvent "Warning" "ProjectionIncomplete") in
  let! _ := disc (DRetain (ir_Name repo) res interval) in
  Done discoveryRetryInterval.

(** The repository a run wakes: the one that has the name of its location. *)
Definition mapRunToRepository (location : string) : list string := if location =? "" then [] else [location].

(** ** The pass *)

(** What a pass does with a listing that succeeded. *)
Definition consumeInventory (repo : inventoriedRepository) (res : inventoryResult) (interval : Z) : discoveryP (result Z) :=
  let snaps := iv_snaps res in
  let groups := GroupByNamespaceRun snaps in
  let! t := foldM (projectOne repo) (mkPassTally [] 0 0) (range _ groups) in
  let! gc := gcProjections (ir_Name repo) (repoKeys groups) in
  let failures := (pt_failures t ++ match gc with Some e => [e] | None => [] end)%list in
  let! err := updateInventoryStatus repo snaps (iv_at res)
                (mkCensus (pt_projected t) (pt_orphans t) (match failures with [] => true | _ => false end)) in
  match err with
  | Some e => Done (Err e)
  | None =>
      match failures with
      | [] => Done (Ok interval)
      | _ => let! after := reportPartialPass repo res interval in Done (Ok after)
      end
  end.

Definition reconcileDiscovery (name : string) : discoveryP (result Z) :=
  let! got := disc (DGet name) in
  match got with
  | Err e => Done (if IsNotFound e then Ok 0%Z else Err e)
  | Ok repo =>
      if negb (br_Initialized (ir_Repository repo)) then Done (Ok discoveryRetryInterval)
      else
        let! settings := discoverySettings repo in
        match settings with
        | Err e => Done (Err e)
        | Ok (false, _) => Done (Ok 0%Z)
        | Ok (true, interval) =>
            let! state := disc (DTake (ir_Name repo)) in
            match state with
            | inventoryPending => Done (Ok inventoryWatchdogInterval)
            | inventoryIdle => let! _ := disc (DStart (ir_Name repo)) in Done (Ok inventoryWatchdogInterval)
            | inventoryReady res =>
                match iv_err res with
                | Some e =>
                    let! _ := disc (DEvent "Warning" "InventoryFailed") in
                    let! _ := recordDiscoveryOutcome repo false in
                    Done (Ok discoveryRetryInterval)
                | None => consumeInventory repo res interval
                end
            end
        end
  end.
End Discovery.

(** ** The merge *)

Lemma filter_perm {A} (f : A -> bool) l l' : l ≡ₚ l' -> List.filter f l ≡ₚ List.filter f l'.
Proof.
  induction 1 as [|x l l' _ IH|x y l|l1 l2 l3 _ IH1 _ IH2]; cbn; [done| | |by etrans].
  - destruct (f x); [by constructor|done].
  - destruct (f x), (f y); try done. constructor.
Qed.

Lemma NoDup_map_filter {A B} (f : A -> B) (p : A -> bool) l : NoDup (map f l) -> NoDup (map f (List.filter p l)).
Proof.
  induction l as [|a l IH]; [done|]. cbn. intros [Ha Hn]%NoDup_cons. destruct (p a); [|by apply IH]. cbn. apply NoDup_cons. split; [|by apply IH].
  intros (x & E & Hx)%list_elem_of_In%in_map_iff. apply filter_In in Hx as [Hx _]. apply Ha. rewrite <-E. apply list_elem_of_fmap_2.
  by apply list_elem_of_In.
Qed.

Section Merge.
Context (SortFunc : forall T : Type, (T -> T -> comparison) -> list T -> list T).
Context (Sort_perm : forall T cmp l, SortFunc T cmp l ≡ₚ l).
Context (Sort_sorted : forall T cmp l, orderingIn l cmp -> StronglySorted (fun x y => cmp x y <> Gt) (SortFunc T cmp l)).

Notation Merge := (MergeProjectedVolumes SortFunc).

Lemma comparePvc_ordering : ordering comparePvc.
Proof. apply (ordering_on Pvc), ordering_string. Qed.

(** Volumes with a claim each are in one order only. *)
Lemma sort_claims l l' : NoDup (map Pvc l) -> l ≡ₚ l' -> SortFunc _ comparePvc l = SortFunc _ comparePvc l'.
Proof.
  intros Hn Hp. assert (forall l0 : list VolumeStatus, orderingIn l0 comparePvc) as Ho
    by (intros l0; apply (ordering_in _ _ comparePvc); [apply comparePvc_ordering|done]).
  apply (StronglySorted_unique_strong (fun x y => comparePvc x y <> Gt)); [|by apply Sort_sorted..|by rewrite !Sort_perm].
  intros x y Hx Hy Hxy Hyx. rewrite Sort_perm in Hx. rewrite Sort_perm, <-Hp in Hy.
  assert (Pvc x = Pvc y) as E.
  { apply String.compare_eq_iff. unfold comparePvc in *. rewrite String.compare_antisym in Hyx. by destruct (String.compare (Pvc x) (Pvc y)). }
  clear - Hn Hx Hy E. induction l as [|a l IH]; [by apply not_elem_of_nil in Hx|]. cbn in Hn. apply NoDup_cons in Hn as [Ha Hn].
  assert (forall z, z ∈ l -> Pvc a <> Pvc z) as Hz by (intros z Hz E'; apply Ha; rewrite E'; by apply list_elem_of_fmap_2).
  apply elem_of_cons in Hx as [->|Hx]; apply elem_of_cons in Hy as [->|Hy]; [done|by destruct (Hz y Hy)|by destruct (Hz x Hx)|by apply IH].
Qed.

(** What is recorded of a claim, when each has one entry. *)
Lemma byPVC_lookup recorded v :
  NoDup (map Pvc recorded) -> (forall pvc, byPVC recorded !! pvc = Some v <-> v ∈ recorded /\ Pvc v = pvc).
Proof.
  intros Hn pvc. unfold byPVC.
  assert (forall l (m : gmap string VolumeStatus), NoDup (map Pvc l) ->
    fold_left (fun m v => <[Pvc v := v]> m) l m !! pvc = Some v
    <-> (v ∈ l /\ Pvc v = pvc) \/ (pvc ∉ map Pvc l /\ m !! pvc = Some v)) as Hgen.
  { clear. induction l as [|a l IH]; intros m Hn; cbn [fold_left map].
    - split; [intros H; right; split; [apply not_elem_of_nil|done]|]. by intros [[?%not_elem_of_nil _]|[_ ?]].
    - cbn [map] in Hn. apply NoDup_cons in Hn as [Ha Hn]. rewrite IH by done. rewrite not_elem_of_cons, elem_of_cons.
      destruct (decide (Pvc a = pvc)) as [<-|Hne].
      + rewrite lookup_insert_eq. split.
        * intros [[Hv Hp]|[_ [= ->]]]; [left; split; [by right|done]|left; split; [by left|done]].
        * intros [[[->|Hv] Hp]|[[Hx _] _]]; [by right|by left|done].
      + rewrite lookup_insert_ne by done. split.
        * intros [[Hv Hp]|[Hv Hm]]; [left; split; [by right|done]|right; split; [by split|done]].
        * intros [[[->|Hv] Hp]|[[_ Hv] Hm]]; [done|by left|by right]. }
  rewrite Hgen by done. split; [intros [H|[_ ?]]; [done|by rewrite lookup_empty in *]|by left].
Qed.

(** The entry of a claim that has a snapshot. *)
Definition over (recorded : list VolumeStatus) (d : VolumeStatus) : VolumeStatus :=
  match byPVC recorded !! Pvc d with Some rec => set_snapshotID (SnapshotID d) rec | None => d end.

Lemma over_Pvc recorded d : NoDup (map Pvc recorded) -> Pvc (over recorded d) = Pvc d.
Proof.
  intros Hn. unfold over. destruct (byPVC recorded !! Pvc d) as [rec|] eqn:E; [|done].
  by apply (byPVC_lookup recorded rec Hn) in E as [_ <-].
Qed.

(** The derived volumes that are used: of those of one claim, the first. *)
Fixpoint firsts (seen : gset string) (derived : list VolumeStatus) : list VolumeStatus :=
  match derived with
  | [] => []
  | d :: derived => if bool_decide (Pvc d ∈ seen) then firsts seen derived else d :: firsts ({[Pvc d]} ∪ seen) derived
  end.

Lemma foldDerived_spec recorded derived out seen :
  fold_left (foldDerived (byPVC recorded)) derived (out, seen)
  = ((out ++ map (over recorded) (firsts seen derived))%list, seen ∪ list_to_set (map Pvc derived)).
Proof.
  revert out seen. induction derived as [|d derived IH]; intros out seen; cbn [fold_left firsts map].
  - rewrite app_nil_r. f_equal. set_solver.
  - unfold foldDerived at 2. case_bool_decide as Hd; rewrite IH.
    + f_equal. cbn. set_solver.
    + cbn [map]. rewrite <-app_assoc. f_equal. cbn. set_solver.
Qed.

Lemma firsts_fresh seen derived d : d ∈ firsts seen derived -> Pvc d ∉ seen /\ d ∈ derived.
Proof.
  revert seen. induction derived as [|a derived IH]; intros seen; cbn; [by intros ?%not_elem_of_nil|]. case_bool_decide as Ha.
  - intros [H1 H2]%IH. split; [done|by right].
  - intros [->|Hd]%elem_of_cons; [split; [done|left]|]. apply IH in Hd as [H1 H2]. split; [set_solver|by right].
Qed.

Lemma firsts_NoDup seen derived : NoDup (map Pvc (firsts seen derived)).
Proof.
  revert seen. induction derived as [|a derived IH]; intros seen; cbn; [constructor|]. case_bool_decide as Ha; [done|]. cbn. apply NoDup_cons.
  split; [|done]. intros (d & Hd & Hin)%list_elem_of_In%in_map_iff. apply list_elem_of_In, firsts_fresh in Hin as [Hin _]. set_solver.
Qed.

Lemma firsts_id derived seen :
  NoDup (map Pvc derived) -> (forall d, d ∈ derived -> Pvc d ∉ seen) -> firsts seen derived = derived.
Proof.
  revert seen. induction derived as [|a derived IH]; intros seen Hn Hs; cbn; [done|]. cbn in Hn. apply NoDup_cons in Hn as [Ha Hn].
  rewrite bool_decide_false by (apply Hs; left). f_equal. apply IH; [done|]. intros d Hd [E%elem_of_singleton|Hin]%elem_of_union.
  - apply Ha. rewrite <-E. by apply list_elem_of_fmap_2.
  - apply (Hs d); [by right|done].
Qed.

Lemma merge_parts recorded derived :
  Merge recorded derived
  = SortFunc _ comparePvc (map (over recorded) (firsts ∅ derived)
                           ++ List.filter (keepRecorded (list_to_set (map Pvc derived))) recorded)%list.
Proof. unfold MergeProjectedVolumes. rewrite foldDerived_spec, union_empty_l_L. done. Qed.

Lemma keepRecorded_true seen v :
  keepRecorded seen v = true <-> Pvc v ∉ seen /\ (Phase v <> VolumePhaseCompleted \/ Reason v <> "").
Proof.
  unfold keepRecorded. rewrite andb_true_iff, orb_true_iff, !negb_true_iff, bool_decide_eq_false, !String.eqb_neq. done.
Qed.

Lemma merge_claims recorded derived : NoDup (map Pvc recorded) -> NoDup (map Pvc (Merge recorded derived)).
Proof.
  intros Hn. rewrite merge_parts, Sort_perm, map_app. apply NoDup_app. split_and!.
  - rewrite map_map, (map_ext _ Pvc); [apply firsts_NoDup|]. intros d. by apply over_Pvc.
  - intros pvc Hp Hq. rewrite map_map, (map_ext _ Pvc) in Hp by (intros d; by apply over_Pvc).
    apply list_elem_of_In, in_map_iff in Hp as (d & <- & Hd). apply list_elem_of_In, firsts_fresh in Hd as [_ Hd].
    apply list_elem_of_In, in_map_iff in Hq as (r & E & Hr). apply filter_In in Hr as [_ Hr]. apply keepRecorded_true in Hr as [Hr _].
    apply Hr, elem_of_list_to_set. rewrite E. by apply list_elem_of_fmap_2.
  - by apply NoDup_map_filter.
Qed.

Lemma merge_elem recorded derived v :
  v ∈ Merge recorded derived <->
  (exists d, d ∈ firsts ∅ derived /\ v = over recorded d)
  \/ (v ∈ recorded /\ Pvc v ∉ map Pvc derived /\ (Phase v <> VolumePhaseCompleted \/ Reason v <> "")).
Proof.
  rewrite merge_parts, Sort_perm, elem_of_app. rewrite (list_elem_of_In (map _ _) v), in_map_iff.
  rewrite (list_elem_of_In (List.filter _ _) v), filter_In, keepRecorded_true, elem_of_list_to_set, <-list_elem_of_In.
  split; (intros [(d & H1 & H2)|H]; [left; exists d|by right]).
  - split; [by apply list_elem_of_In|done].
  - split; [done|by apply list_elem_of_In].
Qed.

(** A second merge of the same listing, in any order, finds nothing to change. *)
Lemma merge_again recorded derived derived' :
  NoDup (map Pvc recorded) -> NoDup (map Pvc derived) -> derived' ≡ₚ derived ->
  Merge (Merge recorded derived) derived' = Merge recorded derived.
Proof.
  intros Hr Hd Hp. pose proof (merge_claims recorded derived Hr) as Hm. rewrite (merge_parts (Merge recorded derived)).
  assert (NoDup (map Pvc derived')) as Hd' by (by rewrite Hp).
  assert (forall d, d ∈ derived -> over (Merge recorded derived) d = over recorded d) as Hover.
  { intros d Hin. assert (over recorded d ∈ Merge recorded derived) as Ho.
    { apply merge_elem. left. exists d. split; [|done]. rewrite firsts_id; [done|done|]. set_solver. }
    unfold over at 1. rewrite (proj2 (byPVC_lookup _ (over recorded d) Hm (Pvc d)) (conj Ho (over_Pvc _ _ Hr))).
    unfold over. destruct (byPVC recorded !! Pvc d) as [rec|]; [by destruct rec|by destruct d]. }
  assert (forall d' : list VolumeStatus, d' ≡ₚ derived ->
    map (over (Merge recorded derived)) d' ++ List.filter (keepRecorded (list_to_set (map Pvc d'))) (Merge recorded derived)
    ≡ₚ map (over recorded) derived ++ List.filter (keepRecorded (list_to_set (map Pvc derived))) recorded)%list as Hperm.
  { intros d' Hp'. f_equiv.
    - rewrite Hp'. rewrite (map_ext_in _ (over recorded)); [done|]. intros d Hi. apply Hover. by apply list_elem_of_In.
    - assert (list_to_set (map Pvc d') = (list_to_set (map Pvc derived) : gset string)) as -> by (by rewrite Hp').
      rewrite (filter_perm _ _ _ (eq_ind_r (fun l => l ≡ₚ _) (Sort_perm _ _ _) (merge_parts recorded derived))).
      rewrite List.filter_app, (firsts_id derived ∅) by (done || set_solver).
      assert (forall l, (forall v, v ∈ l -> Pvc v ∈ map Pvc derived) ->
                List.filter (keepRecorded (list_to_set (map Pvc derived))) l = []) as Hnone.
      { intros l Hl. induction l as [|a l IH]; [done|]. cbn. destruct (keepRecorded _ a) eqn:E.
        - apply keepRecorded_true in E as [E _]. destruct E. apply elem_of_list_to_set, Hl. left.
        - apply IH. intros v Hv. apply Hl. by right. }
      rewrite Hnone; [cbn|].
      + clear. induction recorded as [|a l IH]; [done|]. cbn. destruct (keepRecorded _ a) eqn:E; [|done]. cbn. by rewrite E, IH.
      + intros v (d & <- & Hi)%list_elem_of_In%in_map_iff. rewrite over_Pvc by done. apply list_elem_of_fmap_2. by apply list_elem_of_In. }
  etrans; [|symmetry; apply merge_parts]. rewrite (firsts_id derived), (firsts_id derived') by (done || set_solver). apply sort_claims.
  - rewrite (Hperm derived' Hp).
    pose proof Hm as Hm'. rewrite merge_parts, firsts_id, Sort_perm in Hm' by (done || set_solver). exact Hm'.
  - by apply Hperm.
Qed.

(** A projection completes the report of an execution and never erases it.  For a claim
    with a snapshot the report keeps its account, down to the bytes, and takes the
    snapshot; what it says of a skip or a failure stays in any case; an entry that reads
    as a plain success has a snapshot behind it; every claim has one entry; and merging
    the same listing again, in whatever order, changes nothing. *)
Theorem merge_keeps_the_report recorded derived derived' :
  NoDup (map Pvc recorded) -> NoDup (map Pvc derived) -> derived' ≡ₚ derived ->
  let out := Merge recorded derived in
  NoDup (map Pvc out)
  /\ (forall rec, rec ∈ recorded -> Phase rec <> VolumePhaseCompleted \/ Reason rec <> "" -> exists id, set_snapshotID id rec ∈ out)
  /\ (forall d, d ∈ derived -> exists v, v ∈ out /\ Pvc v = Pvc d /\ SnapshotID v = SnapshotID d
        /\ (v = d \/ exists rec, rec ∈ recorded /\ v = set_snapshotID (SnapshotID d) rec))
  /\ (forall v, v ∈ out -> Phase v = VolumePhaseCompleted -> Reason v = "" ->
        exists d, d ∈ derived /\ Pvc d = Pvc v /\ SnapshotID d = SnapshotID v)
  /\ Merge out derived' = out.
Proof.
  intros Hr Hd Hp out. assert (firsts ∅ derived = derived) as Hf by (apply firsts_id; [done|set_solver]). split_and!.
  - by apply merge_claims.
  - intros rec Hin Hsays. destruct (decide (Pvc rec ∈ map Pvc derived)) as [Hi|Hi].
    + apply list_elem_of_In, in_map_iff in Hi as (d & E & Hi). exists (SnapshotID d). apply merge_elem. left. exists d. rewrite Hf.
      split; [by apply list_elem_of_In|]. unfold over. by rewrite (proj2 (byPVC_lookup recorded rec Hr (Pvc d)) (conj Hin (eq_sym E))).
    + exists (SnapshotID rec). apply merge_elem. right. by destruct rec.
  - intros d Hin. exists (over recorded d). split_and!.
    + apply merge_elem. left. exists d. by rewrite Hf.
    + by apply over_Pvc.
    + unfold over. by destruct (byPVC recorded !! Pvc d).
    + unfold over. destruct (byPVC recorded !! Pvc d) as [rec|] eqn:E; [right; exists rec|by left].
      by apply (byPVC_lookup recorded rec Hr) in E as [E _].
  - intros v [(d & Hin & ->)|(_ & _ & [?|?])]%merge_elem Hph Hre; [|done..]. rewrite Hf in Hin. exists d. split; [done|].
    rewrite over_Pvc by done. split; [done|]. unfold over. by destruct (byPVC recorded !! Pvc d).
  - by apply merge_again.
Qed.
End Merge.

(** ** What a pass does *)

Section Passes.
Context `{CS : ConditionStore}.
Context (SortFunc : forall T : Type, (T -> T -> comparison) -> list T -> list T).
Context (range : forall A, gmap (string * string) A -> list ((string * string) * A)).
Context (range_perm : forall A m, range A m ≡ₚ map_to_list m).

Notation act := (event discoveryI).
Notation ev o x := (Ev (I := discoveryI) o x).
Notation reconcile := (reconcileDiscovery SortFunc range).

Lemma disc_runs o tr x : runs (disc o) tr x <-> tr = [ev o x].
Proof. apply (runs_call (I := discoveryI)). Qed.

Ltac walk H := walk_with ltac:(fun R => apply disc_runs in R) H.

(** *** One group *)

Definition live (ns : string) (tr : list act) : Prop :=
  exists n, ev (DGetNamespace ns) (Ok n) ∈ tr /\ no_Terminating n = false /\ no_Deleting n = false.

(** The coordinate may be written: nothing is there, or a projection, or an execution
    that is over; with what it recorded. *)
Definition recordedAt (ns run : string) (phase : string) (volumes : list VolumeStatus) (tr : list act) : Prop :=
  (exists e, ev (DGetBackup ns run) (Err e) ∈ tr /\ IsNotFound e = true /\ phase = "" /\ volumes = [])
  \/ exists b, ev (DGetBackup ns run) (Ok b) ∈ tr /\ (isProjection b = true \/ isTerminalBackupPhase (b_phase b) = true)
       /\ phase = b_phase b /\ volumes = b_volumes b.

(** What a request of a group rests on. *)
Definition groundedIn (repo : inventoriedRepository) (key : string * string) (snaps : list Snapshot) (tr : list act) (o : discovery_action)
    : Prop :=
  match o with
  | DApply p => p = projectionOf repo key /\ live (fst key) tr /\ exists phase volumes, recordedAt (fst key) (snd key) phase volumes tr
  | DApplyStatus ns run phase' volumes' =>
      (ns, run) = key /\ live ns tr
      /\ exists phase volumes, recordedAt ns run phase volumes tr /\ phase' = projectedPhase phase
           /\ volumes' = MergeProjectedVolumes SortFunc volumes (VolumesFromSnapshots SortFunc snaps)
  | DGetNamespace _ | DGetBackup _ _ => True
  | _ => False
  end.

Definition settledGroup (repo : inventoriedRepository) (key : string * string) (tr : list act) (x : groupOutcome) : Prop :=
  match x with
  | groupOrphan => exists e, ev (DGetNamespace (fst key)) (Err e) ∈ tr /\ IsNotFound e = true
  | groupProjected =>
      (exists n, ev (DGetNamespace (fst key)) (Ok n) ∈ tr /\ (no_Terminating n = true \/ no_Deleting n = true))
      \/ (exists b, ev (DGetBackup (fst key) (snd key)) (Ok b) ∈ tr /\ isProjection b = false /\ isTerminalBackupPhase (b_phase b) = false)
      \/ (ev (DApply (projectionOf repo key)) None ∈ tr
          /\ exists phase volumes, ev (DApplyStatus (fst key) (snd key) phase volumes) None ∈ tr)
  end.

Lemma recordedAt_more ns run phase volumes tr tr' : recordedAt ns run phase volumes tr -> tr ⊆ tr' -> recordedAt ns run phase volumes tr'.
Proof. intros [(e & H)|(b & H)] Hs; [left; exists e|right; exists b]; naive_solver. Qed.

Lemma groundedIn_more repo key snaps tr tr' o : groundedIn repo key snaps tr o -> tr ⊆ tr' -> groundedIn repo key snaps tr' o.
Proof.
  intros H Hs. assert (forall ns, live ns tr -> live ns tr') as Hl by (intros ns (n & Hn & Hr); exists n; auto). destruct o; try done; cbn in *.
  - destruct H as (-> & Hn & ph & vs & Hr). split; [done|]. split; [auto|]. exists ph, vs. by eapply recordedAt_more.
  - destruct H as (-> & Hn & ph & vs & Hr & Hrest). split; [done|]. split; [auto|]. exists ph, vs. split; [by eapply recordedAt_more|done].
Qed.

Lemma settledGroup_more repo key tr tr' x : settledGroup repo key tr x -> tr ⊆ tr' -> settledGroup repo key tr' x.
Proof.
  intros H Hs. destruct x; cbn in *; [|destruct H as (e & H & ?); exists e; auto].
  destruct H as [(n & H & ?)|[(b & H & ?)|(H & ph & vs & H2)]]; [left; exists n; auto|right; left; exists b; auto|].
  right; right. split; [auto|]. exists ph, vs. auto.
Qed.

Lemma applyProjection_spec repo ns run snaps phase volumes tr out past :
  runs (applyProjection SortFunc repo (ns, run) snaps phase volumes) tr out ->
  live ns past -> recordedAt ns run phase volumes past ->
  (forall e : act, e ∈ tr -> groundedIn repo (ns, run) snaps past (ev_action e))
  /\ (forall x, out = Ok x -> settledGroup repo (ns, run) tr x).
Proof.
  intros H Hl Hr. unfold applyProjection in H. walk H. destruct x as [err|].
  { walk H. split; [|done]. intros e ->%list_elem_of_singleton. split; [done|]. split; [done|by exists phase, volumes]. }
  walk H. walk H. split.
  - intros e [-> | ->%list_elem_of_singleton]%elem_of_cons.
    + split; [done|]. split; [done|by exists phase, volumes].
    + split; [done|]. split; [done|]. by exists phase, volumes.
  - intros x0 Hx. destruct x; [done|]. injection Hx as <-. right; right. split; [left|]. eexists _, _. right; left.
Qed.

Lemma projectGroup_spec repo ns run snaps tr out :
  runs (projectGroup SortFunc repo (ns, run) snaps) tr out ->
  (forall e : act, e ∈ tr -> groundedIn repo (ns, run) snaps tr (ev_action e))
  /\ (forall x, out = Ok x -> settledGroup repo (ns, run) tr x).
Proof.
  intros H. unfold projectGroup in H. walk H. destruct x as [n|err].
  2: { walk H. split; [by intros e ->%list_elem_of_singleton|]. intros x Hx. destruct (IsNotFound err) eqn:E; [|done]. injection Hx as <-.
       exists err. split; [left|done]. }
  destruct (no_Terminating n || no_Deleting n) eqn:En.
  { walk H. split; [by intros e ->%list_elem_of_singleton|]. intros x [= <-]. left. exists n. split; [left|by apply orb_true_iff]. }
  apply orb_false_iff in En. walk H.
  assert (forall phase volumes, runs (applyProjection SortFunc repo (ns, run) snaps phase volumes) tr out ->
            recordedAt ns run phase volumes [ev (DGetBackup ns run) x] ->
            (forall e : act, e ∈ ev (DGetNamespace ns) (Ok n) :: ev (DGetBackup ns run) x :: tr ->
               groundedIn repo (ns, run) snaps (ev (DGetNamespace ns) (Ok n) :: ev (DGetBackup ns run) x :: tr) (ev_action e))
            /\ (forall y, out = Ok y -> settledGroup repo (ns, run) (ev (DGetNamespace ns) (Ok n) :: ev (DGetBackup ns run) x :: tr) y)) as Hap.
  { intros ph vs Hr Hrec.
    destruct (applyProjection_spec repo ns run snaps ph vs tr out [ev (DGetNamespace ns) (Ok n); ev (DGetBackup ns run) x] Hr) as [Hg Hset].
    - exists n. split; [left|done].
    - eapply recordedAt_more; [done|]. set_solver.
    - split; [|intros y Hy; eapply settledGroup_more; [by apply Hset|set_solver]].
      intros e [-> | [->|He]%elem_of_cons]%elem_of_cons; [done|done|]. eapply groundedIn_more; [by apply Hg|]. set_solver. }
  destruct x as [b|err].
  - destruct (negb (isProjection b) && negb (isTerminalBackupPhase (b_phase b))) eqn:Eb.
    + walk H. apply andb_true_iff in Eb as [E1%negb_true_iff E2%negb_true_iff]. split.
      * by intros e [-> | ->%list_elem_of_singleton]%elem_of_cons.
      * intros y [= <-]. right; left. exists b. split; [right; left|done].
    + eapply Hap; [exact H|]. right. exists b. split; [left|]. split; [|done].
      apply andb_false_iff in Eb as [E%negb_false_iff|E%negb_false_iff]; auto.
  - destruct (IsNotFound err) eqn:Ee.
    + eapply Hap; [exact H|]. left. exists err. split; [left|done].
    + walk H. split; [by intros e [-> | ->%list_elem_of_singleton]%elem_of_cons|done].
Qed.

(** *** All groups *)

Notation group := ((string * string) * list Snapshot)%type.

Definition named (g : group) : bool := negb (fst (fst g) =? "").

Lemma projectOne_spec repo t g tr t' :
  runs (projectOne SortFunc repo t g) tr t' ->
  (forall e : act, e ∈ tr -> named g = true /\ groundedIn repo (fst g) (snd g) tr (ev_action e))
  /\ (pt_failures t' = [] -> pt_failures t = [] /\ (named g = true -> exists x, settledGroup repo (fst g) tr x))
  /\ exists p o f, (pt_projected t' = int32 (pt_projected t + p) \/ p = 0 /\ pt_projected t' = pt_projected t)%Z
       /\ (pt_orphans t' = int32 (pt_orphans t + o) \/ o = 0 /\ pt_orphans t' = pt_orphans t)%Z
       /\ length (pt_failures t') = length (pt_failures t) + f
       /\ (0 <= p)%Z /\ (0 <= o)%Z /\ (p + o + Z.of_nat f)%Z = (if named g then 1 else 0)%Z.
Proof.
  destruct g as [[ns run] snaps]. unfold projectOne, named. cbn [fst snd]. destruct (ns =? "") eqn:Ens; cbn [negb].
  { intros [-> ->]. split; [by intros e ?%not_elem_of_nil|]. split; [done|]. exists 0%Z, 0%Z, 0. rewrite Nat.add_0_r. by split_and!; auto. }
  intros H. walk H. walk H. rewrite app_nil_r. apply projectGroup_spec in R as [Hg Hs]. split; [auto|].
  destruct x as [[]|e].
  - split; [intros ?; split; [done|]; intros _; eexists; by apply Hs|]. exists 1%Z, 0%Z, 0. cbn. rewrite Nat.add_0_r. split_and!; auto; lia.
  - split; [intros ?; split; [done|]; intros _; eexists; by apply Hs|]. exists 0%Z, 1%Z, 0. cbn. rewrite Nat.add_0_r. split_and!; auto; lia.
  - cbn. split; [intros E; by destruct (pt_failures t)|]. exists 0%Z, 0%Z, 1. rewrite length_app. cbn. split_and!; auto; lia.
Qed.

(** Every request is grounded in a group; without a failure every group is settled; and
    each group is counted once. *)
Lemma projectAll_spec repo l t tr t' :
  runs (foldM (projectOne SortFunc repo) t l) tr t' ->
  (forall e : act, e ∈ tr -> exists g, g ∈ l /\ named g = true /\ groundedIn repo (fst g) (snd g) tr (ev_action e))
  /\ (pt_failures t' = [] -> pt_failures t = [] /\ forall g, g ∈ l -> named g = true -> exists x, settledGroup repo (fst g) tr x)
  /\ ((0 <= pt_projected t)%Z -> (0 <= pt_orphans t)%Z ->
      (pt_projected t + pt_orphans t + Z.of_nat (length l) < 2 ^ 31)%Z ->
      (0 <= pt_projected t' /\ 0 <= pt_orphans t'
       /\ pt_projected t' + pt_orphans t' + Z.of_nat (length (pt_failures t'))
          = pt_projected t + pt_orphans t + Z.of_nat (length (pt_failures t)) + Z.of_nat (length (List.filter named l)))%Z).
Proof.
  revert t tr. induction l as [|g l IH]; intros t tr H.
  { destruct H as [-> ->]. split; [by intros e ?%not_elem_of_nil|]. split; [intros ?; split; [done|by intros g ?%not_elem_of_nil]|]. cbn. lia. }
  apply foldM_cons in H as (tr1 & tr2 & t1 & -> & H1 & H2). apply projectOne_spec in H1 as (Hg1 & Hs1 & p & o & f & Hp & Ho & Hf & Hp0 & Ho0 & Hsum).
  apply IH in H2 as (Hg2 & Hs2 & Hn2). split_and!.
  - intros e [He|He]%elem_of_app.
    + exists g. destruct (Hg1 e He) as [Hn Hg]. split; [left|]. split; [done|]. eapply groundedIn_more; [exact Hg|]. set_solver.
    + destruct (Hg2 e He) as (g' & Hg' & Hn & Hg). exists g'. split; [by right|]. split; [done|]. eapply groundedIn_more; [exact Hg|]. set_solver.
  - intros E. destruct (Hs2 E) as [E1 Hall]. destruct (Hs1 E1) as [E0 Hone]. split; [done|]. intros g' [->|Hg']%elem_of_cons Hn.
    + destruct (Hone Hn) as [x Hx]. exists x. eapply settledGroup_more; [exact Hx|]. set_solver.
    + destruct (Hall g' Hg' Hn) as [x Hx]. exists x. eapply settledGroup_more; [exact Hx|]. set_solver.
  - intros H0p H0o Hb. cbn [length] in Hb.
    assert (pt_projected t1 = pt_projected t + p)%Z as Ep
      by (destruct Hp as [-> | [-> ->]]; [apply int32_id; unfold in_int32; destruct (named g); lia|lia]).
    assert (pt_orphans t1 = pt_orphans t + o)%Z as Eo
      by (destruct Ho as [-> | [-> ->]]; [apply int32_id; unfold in_int32; destruct (named g); lia|lia]).
    destruct Hn2 as (Ha & Hb2 & Hc); [lia|lia|destruct (named g); lia|]. split; [done|]. split; [done|]. cbn [List.filter].
    destruct (named g); cbn [length]; lia.
Qed.

(** *** The collection *)

Lemma removeProjections_spec locationName keys bs tr out :
  runs (removeProjections locationName keys bs) tr out ->
  (forall e : act, e ∈ tr -> match ev_action e with
     | DDelete ns n => exists b, b ∈ bs /\ staleProjection locationName keys b = true /\ ns = b_namespace b /\ n = b_name b
     | DEvent _ _ => True
     | _ => False end)
  /\ (out = None -> forall b, b ∈ bs -> staleProjection locationName keys b = true ->
        exists w, ev (DDelete (b_namespace b) (b_name b)) w ∈ tr /\ match w with Some e => IsNotFound e = true | None => True end).
Proof.
  revert tr. induction bs as [|b bs IH]; intros tr H; cbn [removeProjections] in H.
  { destruct H as [-> ->]. by split; [intros e ?%not_elem_of_nil|intros _ b ?%not_elem_of_nil]. }
  destruct (staleProjection locationName keys b) eqn:Es; cbn [negb] in H.
  2: { apply IH in H as [H1 H2]. split.
       - intros e He. specialize (H1 e He). destruct (ev_action e); try done. destruct H1 as (c & Hc & Hr). exists c. split; [by right|done].
       - intros E c [->|Hc]%elem_of_cons Hst; [by rewrite Es in Hst|by apply H2]. }
  walk H. destruct (match x with Some e => _ | None => _ end) as [err|] eqn:Ex.
  { walk H. split; [|done]. intros e ->%list_elem_of_singleton. exists b. split; [left|done]. }
  walk H. apply IH in H as [H1 H2]. split.
  - intros e [-> | [->|He]%elem_of_cons]%elem_of_cons; [exists b; split; [left|done]|done|].
    specialize (H1 e He). destruct (ev_action e); try done. destruct H1 as (c & Hc & Hr). exists c. split; [by right|done].
  - intros E c [->|Hc]%elem_of_cons Hst.
    + exists x. split; [left|]. destruct x as [err|]; [|done]. by destruct (IsNotFound err).
    + destruct (H2 E c Hc Hst) as (w & Hw & Hr). exists w. split; [do 2 right; exact Hw|done].
Qed.

(** *** Whole passes *)

(** The listing the pass took from the tracker. *)
Definition consumes (name : string) (repo : inventoriedRepository) (res : inventoryResult) (tr : list act) : Prop :=
  ev (DGet name) (Ok repo) ∈ tr /\ br_Initialized (ir_Repository repo) = true
  /\ ev (DTake (ir_Name repo)) (inventoryReady res) ∈ tr /\ iv_err res = None.

(** The requests that change something beyond the pass's own reports. *)
Definition touches (o : discovery_action) : Prop :=
  match o with DApply _ | DApplyStatus _ _ _ _ | DDelete _ _ => True | DStatus _ s => is_LastDiscoverySuccess s = Some true | _ => False end.

Lemma touches_or (o : discovery_action) : touches o \/ ~ touches o.
Proof. destruct o; cbn; try tauto. match goal with |- ?P \/ _ => destruct (decide P); auto end. Qed.

Lemma reconcile_consumes name tr o (e : act) :
  runs (reconcile name) tr o -> e ∈ tr -> touches (ev_action e) ->
  exists repo res interval t0 t1, tr = (t0 ++ t1)%list /\ consumes name repo res t0
    /\ runs (consumeInventory SortFunc range repo res interval) t1 o /\ e ∈ t1.
Proof.
  intros H He Ht. unfold reconcileDiscovery in H. walk H. apply elem_of_cons in He as [->|He]; [done|].
  destruct x as [repo|err]; [|destruct H as [-> _]; by apply not_elem_of_nil in He].
  destruct (br_Initialized (ir_Repository repo)) eqn:Ei; cbn [negb] in H; [|destruct H as [-> _]; by apply not_elem_of_nil in He].
  walk H. unfold discoverySettings in R. walk R. destruct R as [-> Hx]. apply elem_of_cons in He as [->|He]; [done|].
  destruct x as [[[] interval]|err]; [|destruct H as [-> _]; by apply not_elem_of_nil in He..].
  walk H. apply elem_of_cons in He as [->|He]; [done|]. destruct x as [| |res].
  - walk H. destruct H as [-> _]. by apply list_elem_of_singleton in He as ->.
  - destruct H as [-> _]. by apply not_elem_of_nil in He.
  - destruct (iv_err res) as [err|] eqn:Eerr.
    + walk H. apply elem_of_cons in He as [->|He]; [done|]. walk H. destruct H as [-> _]. rewrite app_nil_r in He.
      unfold recordDiscoveryOutcome in R. destruct (match _ with Some _ => _ | None => _ end); [destruct R as [-> _]; by apply not_elem_of_nil in He|].
      walk R. destruct R as [-> _]. by apply list_elem_of_singleton in He as ->.
    + match goal with |- context [consumeInventory] => idtac end. eexists repo, res, interval, [_; _; _], _. split; [reflexivity|].
      split; [|by split]. split; [left|]. split; [done|]. split; [right; right; left|done].
Qed.

(** The parts of a pass over a listing. *)
Lemma consumeInventory_parts repo res interval tr o :
  runs (consumeInventory SortFunc range repo res interval) tr o ->
  let groups := GroupByNamespaceRun (iv_snaps res) in
  exists t bs ta tb w tc,
    runs (foldM (projectOne SortFunc repo) (mkPassTally [] 0 0) (range _ groups)) ta t
    /\ let success := match pt_failures t with [] => match bs with Some (_, None) => true | _ => false end | _ => false end in
       tr = (ta ++ tb ++ ev (DStatus (ir_Name repo)
              (inventoried (iv_snaps res) (iv_at res) (mkCensus (pt_projected t) (pt_orphans t) success))) w :: tc)%list
    /\ match bs with
       | None => exists e, tb = [ev (DListOrigin OriginCluster) (Err e)]
       | Some (bs, gc) => exists tb', tb = ev (DListOrigin OriginCluster) (Ok bs) :: tb'
                            /\ runs (removeProjections (ir_Name repo) (repoKeys groups) bs) tb' gc
       end
    /\ forall e, e ∈ tc -> match ev_action e with DEvent _ _ | DRetain _ _ _ => True | _ => False end.
Proof.
  intros H groups. unfold consumeInventory in H. walk H. walk H.
  assert (exists bs : option (list Backup * option gerr), match bs with
            | None => (exists e, t0 = [ev (DListOrigin OriginCluster) (Err e)]) /\ exists e, x0 = Some e
            | Some (bs, gc) => (exists tb', t0 = ev (DListOrigin OriginCluster) (Ok bs) :: tb'
                                  /\ runs (removeProjections (ir_Name repo) (repoKeys groups) bs) tb' gc) /\ x0 = gc
            end) as [bs Hbs].
  { unfold gcProjections in R0. walk R0. destruct x1 as [bs|err].
    - exists (Some (bs, x0)). split; [|done]. by eexists.
    - destruct R0 as [-> ->]. exists None. split; by eexists. }
  walk H. unfold updateInventoryStatus in R1. walk R1. destruct R1 as [-> ->]. rewrite app_nil_r.
  exists x, bs, t, t0, x2.
  assert (exists success, success = match (pt_failures x ++ match x0 with Some e => [e] | None => [] end)%list with [] => true | _ => false end
            /\ success = match pt_failures x with [] => match bs with Some (_, None) => true | _ => false end | _ => false end) as (success & E1 & E2).
  { eexists. split; [reflexivity|]. destruct (pt_failures x); [|done]. destruct bs as [[bs gc]|]; [destruct Hbs as [_ ->]|destruct Hbs as [_ [e ->]]; done].
    by destruct gc. }
  exists tr0. split; [exact R|]. split; [by rewrite <-E1, E2|]. split.
  - destruct bs as [[bs gc]|]; apply Hbs.
  - intros e He. destruct x2 as [err|]; cbn [option_map] in H; [destruct H as [-> _]; by apply not_elem_of_nil in He|].
    destruct (pt_failures x ++ _)%list; [destruct H as [-> _]; by apply not_elem_of_nil in He|]. walk H. unfold reportPartialPass in R1.
    walk R1. walk R1. destruct R1 as [-> _]. destruct H as [-> _]. rewrite app_nil_r in He.
    by apply elem_of_cons in He as [-> | ->%list_elem_of_singleton].
Qed.

Lemma range_elem {A} (m : gmap (string * string) A) k x : (k, x) ∈ range A m <-> m !! k = Some x.
Proof. by rewrite range_perm, elem_of_map_to_list. Qed.

(** The namespaced groups are the keys of the collection. *)
Lemma named_groups (groups : gmap (string * string) (list Snapshot)) :
  length (List.filter named (range _ groups)) = size (repoKeys groups).
Proof.
  rewrite (Permutation_length (filter_perm named _ _ (range_perm _ groups))). unfold repoKeys.
  assert (filter (fun key : string * string => fst key <> "") (dom groups)
          = list_to_set (map fst (List.filter named (map_to_list groups)))) as ->.
  { apply set_eq. intros k. rewrite elem_of_filter, elem_of_dom, elem_of_list_to_set, (list_elem_of_In (map _ _) k), in_map_iff. split.
    - intros [Hk [x Hx]]. exists (k, x). split; [done|]. apply filter_In. split; [by apply list_elem_of_In, elem_of_map_to_list|].
      by apply negb_true_iff, String.eqb_neq.
    - intros ([k' x] & <- & Hin). apply filter_In in Hin as [Hin Hn]. apply list_elem_of_In, elem_of_map_to_list in Hin.
      split; [by apply negb_true_iff, String.eqb_neq in Hn|by exists x]. }
  rewrite size_list_to_set, length_map; [done|]. apply NoDup_map_filter, NoDup_fst_map_to_list.
Qed.

(** C22. Discovery writes on evidence.  A pass projects only a group of the listing it took
    that succeeded, into a namespace it found alive, over nothing, a projection or an
    execution that it read as over; the status it applies keeps the phase of a report
    that is over and merges the volumes into those reported.  It deletes only objects it
    read as projections of this repository whose group is not in the listing. *)
Theorem discovery_writes_on_evidence name tr o (e : act) :
  runs (reconcile name) tr o -> e ∈ tr ->
  match ev_action e with
  | DApply p =>
      exists repo res ns run snaps, consumes name repo res tr /\ GroupByNamespaceRun (iv_snaps res) !! (ns, run) = Some snaps
        /\ ns <> "" /\ p = projectionOf repo (ns, run) /\ live ns tr /\ exists phase volumes, recordedAt ns run phase volumes tr
  | DApplyStatus ns run phase' volumes' =>
      exists repo res snaps, consumes name repo res tr /\ GroupByNamespaceRun (iv_snaps res) !! (ns, run) = Some snaps
        /\ ns <> "" /\ live ns tr
        /\ exists phase volumes, recordedAt ns run phase volumes tr /\ phase' = projectedPhase phase
             /\ volumes' = MergeProjectedVolumes SortFunc volumes (VolumesFromSnapshots SortFunc snaps)
  | DDelete ns n =>
      exists repo res bs b, consumes name repo res tr /\ ev (DListOrigin OriginCluster) (Ok bs) ∈ tr /\ b ∈ bs
        /\ ns = b_namespace b /\ n = b_name b /\ isProjection b = true /\ sp_LocationName (b_spec b) = ir_Name repo
        /\ (ns = "" \/ GroupByNamespaceRun (iv_snaps res) !! (ns, n) = None)
  | _ => True
  end.
Proof.
  intros H He. destruct (touches_or (ev_action e)) as [Ht|Ht].
  2: { by destruct (ev_action e). }
  destruct (reconcile_consumes _ _ _ _ H He Ht) as (repo & res & interval & t0 & t1 & -> & (Hg & Hi & Hk & Herr) & Hr & He1).
  apply consumeInventory_parts in Hr as (t & bs & ta & tb & w & tc & Hall & -> & Hbs & Htc).
  apply projectAll_spec in Hall as (Hground & _ & _).
  assert (consumes name repo res (t0 ++ ta ++ tb ++ ev (DStatus (ir_Name repo)
            (inventoried (iv_snaps res) (iv_at res) (mkCensus (pt_projected t) (pt_orphans t)
               match pt_failures t with [] => match bs with Some (_, None) => true | _ => false end | _ => false end))) w :: tc)) as Hc.
  { split; [apply elem_of_app; by left|]. split; [done|]. split; [apply elem_of_app; by left|done]. }
  revert Hc. match goal with |- consumes _ _ _ ?tr -> _ => set (all := tr) end. intros Hc.
  assert (e ∈ ta \/ e ∈ tb \/ ev_action e = DStatus (ir_Name repo) (inventoried (iv_snaps res) (iv_at res) (mkCensus (pt_projected t) (pt_orphans t)
               match pt_failures t with [] => match bs with Some (_, None) => true | _ => false end | _ => false end))) as [Hta|[Htb|Hst]].
  { rewrite !elem_of_app, elem_of_cons in He1. destruct He1 as [|[|[->|Hi1]]]; auto. specialize (Htc _ Hi1). by destruct (ev_action e). }
  - destruct (Hground e Hta) as ([[ns run] snaps] & Hin & Hn & Hgr). cbn [fst snd] in Hgr. apply range_elem in Hin.
    unfold named in Hn. cbn in Hn. apply negb_true_iff, String.eqb_neq in Hn.
    apply (groundedIn_more _ _ _ _ all) in Hgr; [|unfold all; set_solver]. destruct (ev_action e); try done; cbn in Hgr.
    + destruct Hgr as (-> & Hl & ph & vs & Hrec). exists repo, res, ns, run, snaps. split_and!; try done. by exists ph, vs.
    + destruct Hgr as ([= -> ->] & Hl & Hrec). exists repo, res, snaps. by split_and!.
  - destruct bs as [[bs gc]|]; [|destruct Hbs as [err ->]; by apply list_elem_of_singleton in Htb as ->].
    destruct Hbs as (tb' & -> & Hrm). apply elem_of_cons in Htb as [->|Htb]; [done|].
    apply removeProjections_spec in Hrm as [Hd _]. specialize (Hd e Htb). destruct (ev_action e); try done.
    destruct Hd as (b & Hb & Hstale & -> & ->). exists repo, res, bs, b. split; [done|]. split; [unfold all; set_solver|].
    unfold staleProjection in Hstale. apply andb_true_iff in Hstale as [[Hp Hl%String.eqb_eq]%andb_true_iff Hk'%negb_true_iff%bool_decide_eq_false].
    split_and!; try done. destruct (decide (b_namespace b = "")) as [|Hne]; [by left|right].
    apply eq_None_not_Some. intros Hs. apply Hk'. unfold repoKeys. apply elem_of_filter. split; [done|]. by apply elem_of_dom.
  - by rewrite Hst.
Qed.

(** A success says that the Backups are current.  When a pass records that discovery
    succeeded, the record carries the listing it took and the time of that listing; every
    group of a namespace in it is a Backup that was just projected, or of a run still at
    work or a namespace on its way out, or has no namespace; every projection the listing
    no longer backs was deleted; and the groups were counted once each. *)
Theorem discovery_success_is_current name tr o n s w :
  runs (reconcile name) tr o -> ev (DStatus n s) w ∈ tr -> is_LastDiscoverySuccess s = Some true ->
  exists repo res bs, consumes name repo res tr /\ n = ir_Name repo
    /\ is_LastDiscoveryTime s = Some (iv_at res) /\ is_SnapshotCount s = int32 (Z.of_nat (length (iv_snaps res)))
    /\ (forall ns run snaps, GroupByNamespaceRun (iv_snaps res) !! (ns, run) = Some snaps -> ns <> "" ->
          exists x, settledGroup repo (ns, run) tr x)
    /\ ev (DListOrigin OriginCluster) (Ok bs) ∈ tr
    /\ (forall b, b ∈ bs -> staleProjection (ir_Name repo) (repoKeys (GroupByNamespaceRun (iv_snaps res))) b = true ->
          exists w, ev (DDelete (b_namespace b) (b_name b)) w ∈ tr /\ match w with Some e => IsNotFound e = true | None => True end)
    /\ ((Z.of_nat (size (GroupByNamespaceRun (iv_snaps res))) < 2 ^ 31)%Z ->
          (is_ProjectedBackups s + is_OrphanSnapshots s)%Z = Z.of_nat (size (repoKeys (GroupByNamespaceRun (iv_snaps res))))).
Proof.
  intros H He Hs. destruct (reconcile_consumes _ _ _ _ H He Hs) as (repo & res & interval & t0 & t1 & -> & (Hg & Hi & Hk & Herr) & Hr & He1).
  apply consumeInventory_parts in Hr as (t & bs & ta & tb & w' & tc & Hall & -> & Hbs & Htc).
  apply projectAll_spec in Hall as (Hground & Hsettled & Hcount).
  assert (s = inventoried (iv_snaps res) (iv_at res) (mkCensus (pt_projected t) (pt_orphans t)
               match pt_failures t with [] => match bs with Some (_, None) => true | _ => false end | _ => false end) /\ n = ir_Name repo) as [Es ->].
  { rewrite !elem_of_app, elem_of_cons in He1. destruct He1 as [Hx|[Hx|[Hx|Hx]]].
    - by destruct (Hground _ Hx) as (g & _ & _ & Hf).
    - destruct bs as [[bs gc]|]; [|destruct Hbs as [err ->]; by apply list_elem_of_singleton in Hx].
      destruct Hbs as (tb' & -> & Hrm). apply elem_of_cons in Hx as [Hx|Hx]; [done|]. by apply removeProjections_spec in Hrm as [Hd _]; specialize (Hd _ Hx).
    - pose proof (f_equal ev_action Hx) as [= -> ->]. done.
    - by specialize (Htc _ Hx). }
  assert (pt_failures t = [] /\ exists bs0, bs = Some (bs0, None)) as [Ef [bs0 ->]].
  { rewrite Es in Hs. cbn in Hs. destruct (pt_failures t); [|done]. split; [done|]. destruct bs as [[bs0 [|]]|]; try done. by eexists. }
  destruct Hbs as (tb' & -> & Hrm). apply removeProjections_spec in Hrm as [_ Hdel]. destruct (Hsettled Ef) as [_ Hgroups].
  exists repo, res, bs0. split_and!.
  - split_and!; [apply elem_of_app; by left|done|apply elem_of_app; by left|done].
  - done.
  - by rewrite Es.
  - by rewrite Es.
  - intros ns run snaps Hgr Hn. destruct (Hgroups ((ns, run), snaps)) as [x Hx]; [by apply range_elem|by apply negb_true_iff, String.eqb_neq|].
    exists x. eapply settledGroup_more; [exact Hx|]. set_solver.
  - rewrite !elem_of_app. do 2 right. do 2 left.
  - intros b Hb Hst. destruct (Hdel eq_refl b Hb Hst) as (w0 & Hw & Hr0). exists w0. split; [|done].
    rewrite !elem_of_app. do 2 right. left. right. exact Hw.
  - intros Hbound. rewrite Es. cbn [inventoried is_ProjectedBackups is_OrphanSnapshots dc_projected dc_orphans].
    assert (length (range _ (GroupByNamespaceRun (iv_snaps res))) = size (GroupByNamespaceRun (iv_snaps res))) as El
      by (rewrite range_perm; by rewrite length_map_to_list).
    destruct Hcount as (_ & _ & Hc); [done|done|cbn; lia|]. rewrite Ef in Hc. cbn in Hc.
    rewrite <-named_groups. lia.
Qed.
End Passes.

(** ** The tracker and its goroutines *)

(** The tracker with the listings under way. *)
Record inventories := mkInventories { nv_tracker : inventoryTracker; nv_running : list string }.

Inductive inventory_step : inventories -> inventories -> Prop :=
| istep_take s n : inventory_step s (mkInventories (snd (takeInventory (nv_tracker s) n)) (nv_running s))
| istep_start s n t (b : bool) :
    startInventory (nv_tracker s) n = (b, t) ->
    inventory_step s (mkInventories t (if b then n :: nv_running s else nv_running s))
| istep_finish s n l1 l2 snaps err now :
    nv_running s = (l1 ++ n :: l2)%list ->
    inventory_step s (mkInventories (finishInventory (nv_tracker s) n snaps err now) (l1 ++ l2))
| istep_retain s n res maxAge now :
    inventory_step s (mkInventories (snd (retain (nv_tracker s) n res maxAge now)) (nv_running s))
| istep_wake s n l :
    it_wake (nv_tracker s) = n :: l ->
    inventory_step s (mkInventories (mkInventoryTracker (it_inFlight (nv_tracker s)) (it_results (nv_tracker s)) l) (nv_running s)).

(** One listing per repository is under way at most, and the tracker knows which are;
    the wake channel never holds more than its buffer. *)
Lemma one_listing_per_repository s :
  rtc inventory_step (mkInventories newInventoryTracker []) s ->
  NoDup (nv_running s) /\ (forall n, n ∈ nv_running s <-> n ∈ it_inFlight (nv_tracker s)) /\ length (it_wake (nv_tracker s)) <= inventoryBuffer.
Proof.
  intros H. remember (mkInventories newInventoryTracker []) as s0 eqn:E0.
  assert (NoDup (nv_running s0) /\ (forall n, n ∈ nv_running s0 <-> n ∈ it_inFlight (nv_tracker s0)) /\ length (it_wake (nv_tracker s0)) <= inventoryBuffer) as H0
    by (subst s0; split_and!; [constructor|set_solver|cbn; unfold inventoryBuffer; lia]).
  clear E0. induction H as [|s1 s2 s3 Hstep _ IH]; [done|]. apply IH. clear IH s3. destruct H0 as (Hn & Hr & Hw).
  destruct Hstep as [s n|s n t b E|s n l1 l2 snaps err now E|s n res maxAge now|s n l E]; cbn.
  - unfold takeInventory. destruct (it_results (nv_tracker s) !! n); by split_and!.
  - unfold startInventory in E. case_bool_decide as Hi; injection E as <- <-; cbn; [by split_and!|]. split_and!; [|set_solver|done].
    apply NoDup_cons. split; [|done]. by rewrite Hr.
  - rewrite E in Hn, Hr. apply NoDup_app in Hn as (Hn1 & Hd & [Hnn Hn2]%NoDup_cons). split_and!.
    + apply NoDup_app. split_and!; [done| |done]. intros x Hx Hx2. apply (Hd x Hx). by right.
    + intros m. rewrite elem_of_difference, <-Hr, !elem_of_app, elem_of_cons, elem_of_singleton. split.
      * intros [Hm|Hm]; (split; [tauto|]); intros ->; [apply (Hd n Hm); left|done].
      * tauto.
    + destruct (_ <=? 63)%nat eqn:El; [|exact Hw]. apply Nat.leb_le in El. rewrite length_app. cbn. unfold inventoryBuffer. lia.
  - unfold retain. destruct (_ <=? _)%Z; [by split_and!|]. destruct (_ || _); by split_and!.
  - split_and!; [done|done|]. rewrite E in Hw. cbn in *. lia.
Qed.

(** ** Witnesses *)

#[local] Notation ev o x := (Ev (I := discoveryI) o x).

#[local] Existing Instance MapConditionStore.

Definition wit_dv (pvc id : string) (phase reason : string) (bytes : Z) : VolumeStatus :=
  mkVolumeStatus pvc id bytes bytes phase "" reason None None.

(** A run that skipped one claim and whose other one was listed again. *)
Lemma merge_keeps_the_report_witness :
  let out := MergeProjectedVolumes isort [wit_dv "logs" "" VolumePhaseSkipped "CSISnapshotUnsupported" 0; wit_dv "data" "1a" VolumePhaseCompleted "" 7]
               [wit_dv "data" "2b" VolumePhaseCompleted "" 0] in
  out = [wit_dv "data" "2b" VolumePhaseCompleted "" 7; wit_dv "logs" "" VolumePhaseSkipped "CSISnapshotUnsupported" 0]
  /\ exists id, set_snapshotID id (wit_dv "logs" "" VolumePhaseSkipped "CSISnapshotUnsupported" 0) ∈ out.
Proof.
  split; [vm_compute; reflexivity|].
  destruct (merge_keeps_the_report isort isort_perm isort_sorted_in
              [wit_dv "logs" "" VolumePhaseSkipped "CSISnapshotUnsupported" 0; wit_dv "data" "1a" VolumePhaseCompleted "" 7]
              [wit_dv "data" "2b" VolumePhaseCompleted "" 0] [wit_dv "data" "2b" VolumePhaseCompleted "" 0]) as (_ & H & _).
  - apply (bool_decide_unpack _). vm_compute. exact I.
  - apply (bool_decide_unpack _). vm_compute. exact I.
  - done.
  - apply H; [left|right; discriminate].
Defined.

Definition wit_dsnap (id ns run pvc : string) (t : Z) : Snapshot :=
  mkSnapshot id t "cid" [] [TagBase; Tag TagKeyKind KindData; Tag TagKeyNamespace ns; Tag TagKeyPVC pvc; Tag TagKeyRun run] None.

Definition wit_drange (A : Type) (m : gmap (string * string) A) : list ((string * string) * A) := map_to_list m.

Definition wit_dbackup (location phase : string) (annotations : labels) (vols : list VolumeStatus) (name : string) : @Backup MapConditionStore :=
  @mkBackup MapConditionStore "team" name 1 1 false ∅ annotations [] (mkBackupSpec "" kindClusterBackupLocation location None)
    (@mkBackupStatus MapConditionStore phase None None None vols [] 0 ∅).

(** A repository with one listing waiting. *)
Definition wit_dserver (snaps : list Snapshot) (existing : result (@Backup MapConditionStore)) (listed : list (@Backup MapConditionStore))
    : server (@discoveryI MapConditionStore) :=
  fun _ o =>
    match o return discovery_answer o with
    | DGet name => Ok (mkInventoried (mkBackupRepository name ∅ None true "s3:bucket/repo") (mkInventoryStatus 0 0 None 0 0 None))
    | DGetLocation _ => Ok (mkDiscoverySpec None 0)
    | DTake _ => inventoryReady (mkInventoryResult snaps None hour)
    | DStart _ | DEvent _ _ => tt
    | DRetain _ _ _ => true
    | DGetNamespace ns => if ns =? "gone" then Err (mkErr ENotFound "not found") else Ok (mkNamespaceObject false false)
    | DGetBackup _ _ => existing
    | DListOrigin _ => Ok listed
    | DApply _ | DApplyStatus _ _ _ _ | DDelete _ _ | DStatus _ _ => None
    end.

Notation wit_dpass snaps existing listed :=
  (exec (wit_dserver snaps existing listed) (reconcileDiscovery (CS := MapConditionStore) isort wit_drange "loc") []).

(** A projection is refreshed, another one has lost its snapshots. *)
Definition wit_projected : labels := <[AnnotationProjected := AnnotationProjectedValue]> ∅.
Definition wit_dtrace : list (event (@discoveryI MapConditionStore)) :=
  fst (wit_dpass [wit_dsnap "1a" "team" "nightly" "data" 5; wit_dsnap "2b" "gone" "nightly" "data" 5] (Err (mkErr ENotFound "not found"))
         [wit_dbackup "loc" BackupPhaseCompleted wit_projected [] "nightly"; wit_dbackup "loc" BackupPhaseCompleted wit_projected [] "older";
          wit_dbackup "other" BackupPhaseCompleted wit_projected [] "elsewhere"]).

Lemma discovery_writes_on_evidence_witness :
  exists bs (b : @Backup MapConditionStore), ev (DListOrigin OriginCluster) (Ok bs) ∈ wit_dtrace /\ b ∈ bs /\ b_name b = "older" /\ isProjection b = true.
Proof.
  assert (ev (DDelete "team" "older") None ∈ wit_dtrace) as Hin by (apply (list_elem_of_lookup_2 _ 9); vm_compute; reflexivity).
  pose proof (discovery_writes_on_evidence isort wit_drange (fun A m => reflexivity _) "loc" wit_dtrace _ _
                (exec_runs (wit_dserver _ _ _) (reconcileDiscovery isort wit_drange "loc") []) Hin) as (repo & res & bs & b & _ & Hl & Hb & _ & Hn & Hp & _).
  exists bs, b. by split_and!.
Defined.

Lemma discovery_success_is_current_witness :
  exists repo res, consumes "loc" repo res wit_dtrace
    /\ forall ns run snaps, GroupByNamespaceRun (iv_snaps res) !! (ns, run) = Some snaps -> ns <> "" -> exists x, settledGroup repo (ns, run) wit_dtrace x.
Proof.
  assert (ev (DStatus "loc" (mkInventoryStatus 2 2 (Some hour) 1 1 (Some true))) None ∈ wit_dtrace) as Hin
    by (apply (list_elem_of_lookup_2 _ 11); vm_compute; reflexivity).
  destruct (discovery_success_is_current isort wit_drange (fun A m => reflexivity _) "loc" wit_dtrace _ _ _ _
              (exec_runs (wit_dserver _ _ _) (reconcileDiscovery isort wit_drange "loc") []) Hin) as (repo & res & bs & Hc & _ & _ & _ & Hg & _).
  - reflexivity.
  - exists repo, res. by split.
Defined.

(** ** Two snapshots of one claim, two repositories with one coordinate *)

(** A mover that ran twice leaves two snapshots of a claim.  The volumes are sorted by
    the claim alone, so the sort settles nothing between the two: a stable one keeps the
    one listed first, the older, where a restore takes the newer. *)
Example projection_names_the_older_snapshot :
  let snaps := [wit_dsnap "older" "team" "nightly" "data" 5; wit_dsnap "newer" "team" "nightly" "data" 6] in
  map SnapshotID (MergeProjectedVolumes isort [] (VolumesFromSnapshots isort snaps)) = ["older"]
  /\ option_map s_ID (dataSnapshotsByPVC snaps !! "data") = Some "newer".
Proof. split; vm_compute; reflexivity. Qed.

(** A finished Backup of another repository at the coordinate of a group: its
    [locationRef] is forced to this one, and the volumes that only the other repository
    holds are dropped from its report. *)
Example projection_takes_over_a_stranger :
  let b := wit_dbackup "other" BackupPhaseCompleted ∅ [wit_dv "data" "1a" VolumePhaseCompleted "" 7] "nightly" in
  let tr := fst (wit_dpass [wit_dsnap "2b" "team" "nightly" "logs" 5] (Ok b) []) in
  omap (fun e : event (@discoveryI MapConditionStore) =>
          match ev_action e with
          | DApply p => Some (pj_LocationName p, [])
          | DApplyStatus _ _ _ vs => Some ("", map Pvc vs)
          | _ => None
          end) tr = [("loc", []); ("", ["logs"])].
Proof. vm_compute. reflexivity. Qed.

(** A listing taken in the middle of a run and consumed after its end: the claim that was
    still uploading then reads as forgotten and leaves the report; the next listing
    brings it back without its bytes. *)
Example early_listing_drops_a_volume :
  let report := [wit_dv "data" "1a" VolumePhaseCompleted "" 7; wit_dv "logs" "2b" VolumePhaseCompleted "" 9] in
  let early := [wit_dsnap "1a" "team" "nightly" "data" 5] in
  let late := (early ++ [wit_dsnap "2b" "team" "nightly" "logs" 6])%list in
  let merge vols snaps := MergeProjectedVolumes isort vols (VolumesFromSnapshots isort snaps) in
  merge report early = [wit_dv "data" "1a" VolumePhaseCompleted "" 7]
  /\ merge (merge report early) late = [wit_dv "data" "1a" VolumePhaseCompleted "" 7; wit_dv "logs" "2b" VolumePhaseCompleted "" 0]
  /\ merge report late = report.
Proof. split_and!; vm_compute; reflexivity. Qed.
