(* ===== verification/DiscoveryLister.v ===== *)
(** * DiscoveryLister: the listing of a repository by a Job
    (internal/controller: discovery_lister.go; internal/mover: moverArgs)

    One [restic snapshots] Job under a fixed name, with a Secret of the same name beside
    it: both are created or taken over as they are found, the Job is awaited, and the
    array is cut out of the log of a pod that succeeded.  The wait has no bound of its
    own; its fuel is the number of polls and ends with the context. *)

From Stdlib Require Import Ascii String.
From S2P Require Import Prelude GoText Cluster Selectors Names Status VolumeMachine Restic.
From S2P Require Import Backup.
From S2P Require Import Location.
From S2P Require Import MaintenanceJob.
From S2P Require Import Program.

#[local] Open Scope string_scope.
#[local] Notation length := List.length.

Definition discoveryJobBackoffLimit : Z := 2.
Definition discoveryJobTTLSeconds : Z := 600.
Definition discoveryJobPollInterval : Z := (2 * second)%Z.
Definition discoveryJobDeadline : Z := (5 * minute)%Z.
Definition mover_OpSnapshots : string := "snapshots".
Definition kekIdentityDataKey : string := "identity".

Definition discoveryResourceName (repoName : string) : string := repoName ++ "-discovery".

Definition discoveryJobLabels : labels :=
  <["app.kubernetes.io/name" := "crystal-mover"]>
    (<["app.kubernetes.io/managed-by" := "crystal-backup"]> (<["app.kubernetes.io/component" := "discovery"]> ∅)).

(** ** The argv of a mover *)

Definition backendOptions (connections : option Z) (repoURL : string) : list string :=
  match connections with
  | Some n => if HasPrefix repoURL SchemeS3 then ["-o"; "s3.connections=" ++ Itoa n] else []
  | None => []
  end.

Definition moverArgs (operation : string) (connections : option Z) (repoURL : string) (resticArgs : list string) : list string :=
  (["--operation"; operation; "--"] ++ backendOptions connections repoURL ++ resticArgs)%list.

(** ** The array in a log *)

Fixpoint indexByte (c : ascii) (s : string) : option nat :=
  match s with
  | "" => None
  | String a s => if Ascii.eqb a c then Some 0 else option_map S (indexByte c s)
  end.

Fixpoint lastIndexByte (c : ascii) (s : string) : option nat :=
  match s with
  | "" => None
  | String a s => match lastIndexByte c s with
                  | Some i => Some (S i)
                  | None => if Ascii.eqb a c then Some 0 else None
                  end
  end.

Definition extractJSONArray (log : string) : string :=
  match indexByte "[" log, lastIndexByte "]" log with
  | Some first, Some last => if (last <? first)%nat then log else substring first (last + 1 - first) log
  | _, _ => log
  end.

Fixpoint succeededPod (pods : list Pod) : option Pod :=
  match pods with
  | [] => None
  | p :: pods =>
      match p_containers p with
      | c :: _ => match cs_terminated c with
                  | Some t => if (t_exit t =? 0)%Z then Some p else succeededPod pods
                  | None => succeededPod pods
                  end
      | [] => succeededPod pods
      end
  end.

Record listingJob := mkListingJob {
  lj_Name : string;
  lj_Args : list string;
  lj_RepoURL : string;
  lj_SecretName : string;
  lj_BackoffLimit : Z;
  lj_TTLSeconds : Z;
  lj_Labels : labels;
  lj_Owner : string                       (* a plain owner reference, not a controller's *)
}.

Record listingSecret := mkListingSecret {
  ls_Name : string; ls_Labels : labels; ls_Password : string; ls_AccessKey : string; ls_SecretKey : string; ls_Controller : string
}.

Section Lister.
Context `{CS : ConditionStore}.

(** ** Requests *)

Inductive list_action :=
| LGetLocation (ns name : string)
| LGetClusterLocation (name : string)
| LUserPassword (ns name ref : string)        (* keys.EnsureUserPassword *)
| LGetKEKRef (name : string)                  (* the cluster location again, for its KEK reference *)
| LEnsureDEK (identity location : string)     (* keys.EnsureDEK *)
| LSecretValue (ns name dataKey : string)     (* Secrets.GetValue *)
| LCreateSecret (s : listingSecret)
| LCreateJob (j : listingJob)
| LGetJobArgs (name : string)                 (* the args of the first container, if it has one *)
| LGetJob (name : string)
| LSelect                                     (* select: the context's error, or a tick *)
| LListPods (job : string)
| LReadLog (pod : string)
| LDeleteJob (name : string)
| LDeleteSecret (name : string).

(** A location comes with its [spec.s3.connections]. *)
Definition list_answer (o : list_action) : Type :=
  match o with
  | LGetLocation _ _ => result (BackupLocation * option Z)
  | LGetClusterLocation _ => result (ClusterBackupLocation * option Z)
  | LUserPassword _ _ _ | LGetKEKRef _ | LEnsureDEK _ _ | LSecretValue _ _ _ | LReadLog _ => result string
  | LGetJobArgs _ => result (option (list string))
  | LGetJob _ => result Job
  | LListPods _ => result (list Pod)
  | LCreateSecret _ | LCreateJob _ | LSelect | LDeleteJob _ | LDeleteSecret _ => option gerr
  end.

Definition listI : interface := mkInterface list_action list_answer.
Notation listP := (prog listI).
Definition lask (o : list_action) : listP (list_answer o) := call (I := listI) o.

Variable OperatorNamespace : string.
(** [keys.NewAgeWrapper], which refuses an identity that is none, and [json.Unmarshal] of
    a listing. *)
Variable NewAgeWrapper : string -> option gerr.
Variable Unmarshal : string -> result (list Snapshot).

(** ** Access *)

Definition resolveBinding (repo : BackupRepository) : listP (result (locationBinding * option Z)) :=
  let ns := lget (br_Labels repo) LabelNamespace in
  let name := lget (br_Labels repo) LabelLocation in
  let pair (b : result locationBinding) (connections : option Z) := match b with Ok b => Ok (b, connections) | Err e => Err e end in
  let unread : result ClusterBackupLocation := Err (mkErr ENotFound "") in
  if negb (ns =? "") && negb (name =? "") then
    let! loc := lask (LGetLocation ns name) in
    Done (match loc with
          | Err e => Err e
          | Ok (loc, connections) => pair (resolveLocationBinding (fun _ _ => Ok loc) (fun _ => unread) repo OperatorNamespace) connections
          end)
  else
    match br_Controller repo with
    | Some (kind, owner) =>
        if negb (kind =? kindClusterBackupLocation) then
          Done (pair (resolveLocationBinding (fun _ _ => Err (mkErr ENotFound "")) (fun _ => unread) repo OperatorNamespace) None)
        else
          let! cbl := lask (LGetClusterLocation owner) in
          Done (match cbl with
                | Err e => Err e
                | Ok (cbl, connections) =>
                    pair (resolveLocationBinding (fun _ _ => Err (mkErr ENotFound "")) (fun _ => Ok cbl) repo OperatorNamespace) connections
                end)
    | None => Done (pair (resolveLocationBinding (fun _ _ => Err (mkErr ENotFound "")) (fun _ => unread) repo OperatorNamespace) None)
    end.

Definition listerDEK (location : string) : listP (result string) :=
  let! kek := lask (LGetKEKRef location) in
  match kek with
  | Err e => Done (Err (wrap_err ("get ClusterBackupLocation " ++ location) e))
  | Ok kek =>
      let! identity := lask (LSecretValue OperatorNamespace kek kekIdentityDataKey) in
      match identity with
      | Err e => Done (Err (wrap_err ("read cluster KEK secret " ++ OperatorNamespace ++ "/" ++ kek) e))
      | Ok identity =>
          match NewAgeWrapper identity with
          | Some e => Done (Err (wrap_err ("parse cluster KEK secret " ++ OperatorNamespace ++ "/" ++ kek) e))
          | None =>
              let! dek := lask (LEnsureDEK identity location) in
              Done (match dek with Ok dek => Ok dek | Err e => Err (wrap_err ("ensure platform DEK for location " ++ location) e) end)
          end
      end
  end.

Definition resolveAccess (repo : BackupRepository) : listP (result (locationBinding * option Z * string)) :=
  let! binding := resolveBinding repo in
  match binding with
  | Err e => Done (Err (wrap_err ("resolve owning location for repository " ++ br_Name repo) e))
  | Ok (b, connections) =>
      if Namespaced b then
        let! password := lask (LUserPassword (lb_Namespace b) (lb_Name b) (lb_PasswordSecretRef b)) in
        Done (match password with
              | Ok password => Ok (b, connections, password)
              | Err e => Err (wrap_err ("resolve the repository password for " ++ Describe b) e)
              end)
      else
        let! dek := listerDEK (lb_Name b) in
        Done (match dek with Ok dek => Ok (b, connections, dek) | Err e => Err e end)
  end.

(** ** The Secret and the Job *)

Definition ensureCredsSecret (repo : BackupRepository) (name password : string) (b : locationBinding) : listP (option gerr) :=
  let at_ := lb_CredsNamespace b ++ "/" ++ lb_CredsSecret b in
  let! accessKey := lask (LSecretValue (lb_CredsNamespace b) (lb_CredsSecret b) "AWS_ACCESS_KEY_ID") in
  match accessKey with
  | Err e => Done (Some (wrap_err ("read S3 access key from secret " ++ at_) e))
  | Ok accessKey =>
      let! secretKey := lask (LSecretValue (lb_CredsNamespace b) (lb_CredsSecret b) "AWS_SECRET_ACCESS_KEY") in
      match secretKey with
      | Err e => Done (Some (wrap_err ("read S3 secret key from secret " ++ at_) e))
      | Ok secretKey =>
          let! err := lask (LCreateSecret (mkListingSecret name discoveryJobLabels password accessKey secretKey (br_Name repo))) in
          Done (match err with
                | Some e => if IsAlreadyExists e then None
                            else Some (wrap_err ("create discovery creds secret " ++ OperatorNamespace ++ "/" ++ name) e)
                | None => None
                end)
      end
  end.

(** Best effort. *)
Definition cleanupListing (name : string) : listP () :=
  let! _ := lask (LDeleteJob name) in
  let! _ := lask (LDeleteSecret name) in
  Done tt.

Definition snapshotsJob (repo : BackupRepository) (name : string) (resticArgs : list string) (connections : option Z) : listingJob :=
  mkListingJob name (moverArgs mover_OpSnapshots connections (br_RepositoryURL repo) resticArgs) (br_RepositoryURL repo) name
    discoveryJobBackoffLimit discoveryJobTTLSeconds discoveryJobLabels (br_Name repo).

Definition ensureSnapshotsJob (repo : BackupRepository) (name : string) (resticArgs : list string) (connections : option Z)
    : listP (option gerr) :=
  let job := snapshotsJob repo name resticArgs connections in
  let at_ := OperatorNamespace ++ "/" ++ name in
  let! err := lask (LCreateJob job) in
  match err with
  | None => Done None
  | Some e =>
      if negb (IsAlreadyExists e) then Done (Some (wrap_err ("create discovery job " ++ at_) e))
      else
        let! existing := lask (LGetJobArgs name) in
        match existing with
        | Err e => Done (Some (wrap_err ("inspect existing discovery job " ++ at_) e))
        | Ok args =>
            if match args with Some args => bool_decide (args = lj_Args job) | None => false end then Done None
            else
              let! _ := cleanupListing name in
              Done (Some (errorf ("discovery job " ++ at_ ++ " carried stale arguments and was superseded; retrying")))
        end
  end.

(** ** The wait and the log *)

Definition listingDone (job : Job) : bool := (1 <=? j_succeeded job)%Z || jobConditionTrue job JobComplete.
Definition listingFailed (job : Job) : bool := jobConditionTrue job JobFailed || (discoveryJobBackoffLimit <? j_failed job)%Z.

Fixpoint waitForListing (fuel : nat) (jobName : string) : listP outcome :=
  match fuel with
  | O => Done None
  | S fuel =>
      let at_ := OperatorNamespace ++ "/" ++ jobName in
      let again :=
        let! err := lask LSelect in
        match err with
        | Some e => Done (failure (wrap_err ("discovery job " ++ at_ ++ " did not complete") e))
        | None => waitForListing fuel jobName
        end in
      let! job := lask (LGetJob jobName) in
      match job with
      | Err e => if IsNotFound e then again else Done (failure (wrap_err ("get discovery job " ++ at_) e))
      | Ok job =>
          if listingDone job then Done success
          else if listingFailed job then
            Done (failure (errorf ("discovery job " ++ at_ ++ " failed (failed pods=" ++ Itoa (j_failed job) ++ ", backoffLimit="
                                     ++ Itoa discoveryJobBackoffLimit ++ ")")))
          else again
      end
  end.

Definition readPodLog (jobName : string) : listP (result string) :=
  let! pods := lask (LListPods jobName) in
  match pods with
  | Err e => Done (Err (wrap_err ("list discovery pods for job " ++ jobName) e))
  | Ok pods =>
      match succeededPod pods with
      | None => Done (Err (errorf ("no succeeded pod for discovery job " ++ OperatorNamespace ++ "/" ++ jobName)))
      | Some pod =>
          let! log := lask (LReadLog (p_name pod)) in
          Done (match log with
                | Ok log => Ok log
                | Err e => Err (wrap_err ("read logs of discovery pod " ++ OperatorNamespace ++ "/" ++ p_name pod) e)
                end)
      end
  end.

Definition ParseSnapshots (data : string) : result (list Snapshot) :=
  match Unmarshal data with Ok snaps => Ok snaps | Err e => Err (wrap_err "restic: parsing snapshots JSON" e) end.

(** ** The listing *)

(** [None] out of fuel. *)
Definition listSnapshots (fuel : nat) (repo : BackupRepository) (jobName : string) (resticArgs : list string)
    : listP (option (result (list Snapshot))) :=
  if br_RepositoryURL repo =? "" then Done (Some (Err (errorf ("BackupRepository " ++ br_Name repo ++ " has no status.repositoryURL yet"))))
  else
    let! access := resolveAccess repo in
    match access with
    | Err e => Done (Some (Err e))
    | Ok (b, connections, password) =>
        let! err := ensureCredsSecret repo jobName password b in
        match err with
        | Some e => Done (Some (Err e))
        | None =>
            let! err := ensureSnapshotsJob repo jobName resticArgs connections in
            match err with
            | Some e => Done (Some (Err e))
            | None =>
                let! waited := waitForListing fuel jobName in
                match waited with
                | None => Done None
                | Some (Some e) => Done (Some (Err e))
                | Some None =>
                    let! log := readPodLog jobName in
                    match log with
                    | Err e => Done (Some (Err e))
                    | Ok log =>
                        match ParseSnapshots (extractJSONArray log) with
                        | Err e => Done (Some (Err (wrap_err ("parse snapshots inventory for repository " ++ br_Name repo) e)))
                        | Ok snaps => let! _ := cleanupListing jobName in Done (Some (Ok snaps))
                        end
                    end
                end
            end
        end
    end.

Definition List_ (fuel : nat) (repo : BackupRepository) : listP (option (result (list Snapshot))) :=
  listSnapshots fuel repo (discoveryResourceName (br_Name repo)) SnapshotsArgs.

Definition ListFiltered (fuel : nat) (repo : BackupRepository) (jobName : string) (filterTags : list string)
    : listP (option (result (list Snapshot))) :=
  listSnapshots fuel repo jobName (SnapshotsFilterArgs filterTags).
End Lister.

(** ** The array *)

Lemma string_app a s t : String a s ++ t = String a (s ++ t).
Proof. done. Qed.

Lemma indexByte_app c s t : indexByte c s = None -> indexByte c (s ++ String c t) = Some (slen s).
Proof.
  induction s as [|a s IH].
  - intros _. change ("" ++ String c t) with (String c t). cbn [indexByte]. by rewrite Ascii.eqb_refl.
  - rewrite string_app. cbn [indexByte]. destruct (Ascii.eqb a c); [done|]. destruct (indexByte c s); [done|]. intros _. by rewrite IH.
Qed.

Lemma lastIndexByte_app c s t : lastIndexByte c t = None -> lastIndexByte c (s ++ String c t) = Some (slen s).
Proof.
  intros Ht. induction s as [|a s IH].
  - change ("" ++ String c t) with (String c t). cbn [lastIndexByte]. by rewrite Ht, Ascii.eqb_refl.
  - rewrite string_app. cbn [lastIndexByte]. by rewrite IH.
Qed.

Lemma substring_app a b c : substring (slen a) (slen b) (a ++ b ++ c) = b.
Proof.
  induction a as [|x a IH]; [|exact IH]. change ("" ++ b ++ c) with (b ++ c). change (slen "") with 0.
  induction b as [|x b IH]; [by destruct c|]. rewrite string_app. change (slen (String x b)) with (S (slen b)). cbn [substring]. by rewrite IH.
Qed.

(** An array that is printed whole is found, whatever came before its first bracket and
    after its last. *)
Lemma extractJSONArray_finds before body after :
  indexByte "[" before = None -> lastIndexByte "]" after = None ->
  extractJSONArray (before ++ ("[" ++ body ++ "]") ++ after) = "[" ++ body ++ "]".
Proof.
  intros Hb Ha. set (log := before ++ ("[" ++ body ++ "]") ++ after).
  assert (log = before ++ String "[" (body ++ String "]" after)) as E1
    by (unfold log; f_equal; change ("[" ++ body ++ "]") with (String "[" (body ++ "]")); by rewrite string_app, sapp_assoc).
  assert (log = (before ++ String "[" body) ++ String "]" after) as E2 by (rewrite E1, sapp_assoc; by rewrite string_app).
  unfold extractJSONArray. rewrite E1 at 1. rewrite indexByte_app by done. rewrite E2 at 1. rewrite lastIndexByte_app by done.
  rewrite slen_append. change (slen (String "[" body)) with (S (slen body)).
  destruct (Nat.ltb_spec (slen before + S (slen body)) (slen before)); [lia|].
  replace (slen before + S (slen body) + 1 - slen before) with (slen ("[" ++ body ++ "]"))
    by (change ("[" ++ body ++ "]") with (String "[" (body ++ "]")); change (slen (String "[" (body ++ "]"))) with (S (slen (body ++ "]")));
        rewrite slen_append; change (slen "]") with 1; lia).
  apply substring_app.
Qed.

(** ** What a listing does *)

Section Listings.
Context `{CS : ConditionStore}.
Context (OperatorNamespace : string) (NewAgeWrapper : string -> option gerr) (Unmarshal : string -> result (list Snapshot)).

Notation act := (event listI).
Notation ev o x := (Ev (I := listI) o x).
Notation listing := (listSnapshots OperatorNamespace NewAgeWrapper Unmarshal).

Lemma lask_runs o tr x : runs (lask o) tr x <-> tr = [ev o x].
Proof. apply (runs_call (I := listI)). Qed.

Ltac walk H := walk_with ltac:(fun R => apply lask_runs in R) H.

(** The requests that delete, and those of the steps before. *)
Definition removes (o : list_action) : bool := match o with LDeleteJob _ | LDeleteSecret _ => true | _ => false end.
Definition keeps (o : list_action) : Prop := removes o = false.

Lemma resolveBinding_keeps repo : only (I := listI) keeps (resolveBinding OperatorNamespace repo).
Proof.
  unfold resolveBinding. cbv zeta. destruct (negb _ && negb _); [by apply only_bind; [by apply only_call|]|].
  destruct (br_Controller repo) as [[kind owner]|]; [|done]. destruct (negb _); [done|]. by apply only_bind; [by apply only_call|].
Qed.

Lemma resolveAccess_keeps repo : only (I := listI) keeps (resolveAccess OperatorNamespace NewAgeWrapper repo).
Proof.
  unfold resolveAccess. apply only_bind; [apply resolveBinding_keeps|]. intros [[b c]|e]; [|done].
  destruct (Namespaced b); [by apply only_bind; [by apply only_call|]|]. apply only_bind; [|by intros [|]].
  unfold listerDEK. apply only_bind; [by apply only_call|]. intros [kek|e]; [|done]. apply only_bind; [by apply only_call|].
  intros [identity|e]; [|done]. destruct (NewAgeWrapper identity); [done|]. by apply only_bind; [by apply only_call|].
Qed.

Lemma ensureCredsSecret_keeps repo name password b : only (I := listI) keeps (ensureCredsSecret OperatorNamespace repo name password b).
Proof.
  unfold ensureCredsSecret. cbv zeta. apply only_bind; [by apply only_call|]. intros [ak|e]; [|done]. apply only_bind; [by apply only_call|].
  intros [sk|e]; [|done]. by apply only_bind; [by apply only_call|].
Qed.

Lemma waitForListing_keeps fuel name : only (I := listI) keeps (waitForListing OperatorNamespace fuel name).
Proof.
  induction fuel as [|fuel IH]; [done|]. cbn [waitForListing]. apply only_bind; [by apply only_call|].
  assert (only (I := listI) keeps (let! err := lask LSelect in match err with
            | Some e => Done (failure (wrap_err ("discovery job " ++ (OperatorNamespace ++ "/" ++ name) ++ " did not complete") e))
            | None => waitForListing OperatorNamespace fuel name end)) as Hagain
    by (apply only_bind; [by apply only_call|]; by intros [|]).
  intros [job|e]; [|by destruct (IsNotFound e)]. destruct (listingDone job); [done|]. by destruct (listingFailed job).
Qed.

Lemma readPodLog_keeps name : only (I := listI) keeps (readPodLog OperatorNamespace name).
Proof.
  unfold readPodLog. apply only_bind; [by apply only_call|]. intros [pods|e]; [|done]. destruct (succeededPod pods); [|done].
  by apply only_bind; [by apply only_call|].
Qed.

Lemma cleanup_runs name tr x : runs (cleanupListing name) tr x -> exists w1 w2, tr = [ev (LDeleteJob name) w1; ev (LDeleteSecret name) w2].
Proof. intros H. unfold cleanupListing in H. walk H. walk H. destruct H as [-> _]. by eexists _, _. Qed.

Lemma waitForListing_done fuel name tr :
  runs (waitForListing OperatorNamespace fuel name) tr success -> exists job, ev (LGetJob name) (Ok job) ∈ tr /\ listingDone job = true.
Proof.
  revert tr. induction fuel as [|fuel IH]; intros tr H; cbn [waitForListing] in H; [by destruct H|]. walk H.
  assert (forall t, runs (let! err := lask LSelect in match err with
            | Some e => Done (failure (wrap_err ("discovery job " ++ (OperatorNamespace ++ "/" ++ name) ++ " did not complete") e))
            | None => waitForListing OperatorNamespace fuel name end) t success ->
          exists job, ev (LGetJob name) (Ok job) ∈ ev (LGetJob name) x :: t /\ listingDone job = true) as Hagain.
  { intros t Ht. walk Ht. destruct x0 as [e|]; [by destruct Ht|]. apply IH in Ht as (job & Hj & Hd). exists job. split; [|done].
    do 2 right. exact Hj. }
  destruct x as [job|e]; [|destruct (IsNotFound e); [by apply Hagain|by destruct H]].
  destruct (listingDone job) eqn:Ed; [exists job; split; [left|done]|]. destruct (listingFailed job); [by destruct H|by apply Hagain].
Qed.

(** The Secret and the Job a listing rests on: created, or found under the name; a Job
    that was found has the same argv. *)
Definition secretInPlace (repo : BackupRepository) (name password : string) (b : locationBinding) (tr : list act) : Prop :=
  exists accessKey secretKey w,
    ev (LSecretValue (lb_CredsNamespace b) (lb_CredsSecret b) "AWS_ACCESS_KEY_ID") (Ok accessKey) ∈ tr
    /\ ev (LSecretValue (lb_CredsNamespace b) (lb_CredsSecret b) "AWS_SECRET_ACCESS_KEY") (Ok secretKey) ∈ tr
    /\ ev (LCreateSecret (mkListingSecret name discoveryJobLabels password accessKey secretKey (br_Name repo))) w ∈ tr
    /\ match w with Some e => IsAlreadyExists e = true | None => True end.

Definition jobInPlace (repo : BackupRepository) (name : string) (resticArgs : list string) (connections : option Z) (tr : list act) : Prop :=
  let job := snapshotsJob repo name resticArgs connections in
  ev (LCreateJob job) None ∈ tr
  \/ exists e, ev (LCreateJob job) (Some e) ∈ tr /\ IsAlreadyExists e = true /\ ev (LGetJobArgs name) (Ok (Some (lj_Args job))) ∈ tr.

Lemma ensureCredsSecret_spec repo name password b tr :
  runs (ensureCredsSecret OperatorNamespace repo name password b) tr None -> secretInPlace repo name password b tr.
Proof.
  intros H. unfold ensureCredsSecret in H. cbv zeta in H. walk H. destruct x as [ak|e]; [|by destruct H]. walk H.
  destruct x as [sk|e]; [|by destruct H]. walk H. destruct H as [-> E]. exists ak, sk, x. split_and!; [left|right; left|right; right; left|].
  destruct x as [e|]; [|done]. by destruct (IsAlreadyExists e).
Qed.

Lemma secretInPlace_more repo name password b tr tr' : secretInPlace repo name password b tr -> tr ⊆ tr' -> secretInPlace repo name password b tr'.
Proof. intros (ak & sk & w & H1 & H2 & H3 & H4) Hs. exists ak, sk, w. auto. Qed.

Lemma jobInPlace_more repo name args connections tr tr' : jobInPlace repo name args connections tr -> tr ⊆ tr' -> jobInPlace repo name args connections tr'.
Proof. intros [H|(e & H1 & H2 & H3)] Hs; [left; auto|right; exists e; auto]. Qed.

Lemma readPodLog_spec name tr log :
  runs (readPodLog OperatorNamespace name) tr (Ok log) ->
  exists pods pod, ev (LListPods name) (Ok pods) ∈ tr /\ succeededPod pods = Some pod /\ ev (LReadLog (p_name pod)) (Ok log) ∈ tr.
Proof.
  intros H. unfold readPodLog in H. walk H. destruct x as [pods|e]; [|by destruct H]. destruct (succeededPod pods) as [pod|] eqn:Epod; [|by destruct H].
  walk H. destruct H as [-> E]. destruct x as [log'|e]; [|done]. injection E as <-. exists pods, pod. split_and!; [left|done|right; left].
Qed.

(** Either the Job is in place, or the listing gives up: without deleting anything, or
    because the Job it found has another argv. *)
Lemma ensureSnapshotsJob_spec repo name resticArgs connections tr err :
  runs (ensureSnapshotsJob OperatorNamespace repo name resticArgs connections) tr err ->
  (err = None /\ jobInPlace repo name resticArgs connections tr /\ Forall (fun e : act => keeps (ev_action e)) tr)
  \/ (err <> None /\ (Forall (fun e : act => keeps (ev_action e)) tr
        \/ exists args, ev (LGetJobArgs name) (Ok args) ∈ tr /\ args <> Some (lj_Args (snapshotsJob repo name resticArgs connections)))).
Proof.
  intros H. unfold ensureSnapshotsJob in H. cbv zeta in H. walk H. destruct x as [e|].
  2: { walk H. left. split; [done|]. split; [left; left|by repeat constructor]. }
  destruct (IsAlreadyExists e) eqn:Ee; cbn [negb] in H; [|walk H; right; split; [done|left; by repeat constructor]].
  walk H. destruct x as [args|e2]; [|walk H; right; split; [done|left; by repeat constructor]].
  destruct args as [args|].
  - case_bool_decide as Ea.
    + walk H. left. split; [done|]. split; [|by repeat constructor]. right. exists e. split; [left|]. split; [done|]. right; left.
    + walk H. destruct H as [-> ->]. right. split; [done|]. right. exists (Some args). split; [right; left|congruence].
  - walk H. destruct H as [-> ->]. right. split; [done|]. right. exists None. split; [right; left|done].
Qed.

Definition accessIn (repo : BackupRepository) (b : locationBinding) (connections : option Z) (password : string) (tr : list act) : Prop :=
  exists t, runs (resolveAccess OperatorNamespace NewAgeWrapper repo) t (Ok (b, connections, password)) /\ t ⊆ tr.

(** What a listing returns is what a finished Job of its own name and argv printed: the
    repository's URL is known, the Secret was created under the credentials of the
    repository's own location or found in place, the Job was created or found with the
    very argv, it was read as done, and the array was cut out of the log of a pod that
    exited with 0.  The Job and its Secret are deleted then, as the last requests; and a
    listing that fails deletes them only when it found a Job with another argv. *)
Theorem listing_reads_its_own_job fuel repo name resticArgs tr r :
  runs (listing fuel repo name resticArgs) tr (Some r) ->
  match r with
  | Ok snaps =>
      br_RepositoryURL repo <> ""
      /\ exists b connections password job pods pod log pre w1 w2,
           tr = (pre ++ [ev (LDeleteJob name) w1; ev (LDeleteSecret name) w2])%list
           /\ Forall (fun e : act => keeps (ev_action e)) pre
           /\ accessIn repo b connections password pre
           /\ secretInPlace repo name password b pre /\ jobInPlace repo name resticArgs connections pre
           /\ ev (LGetJob name) (Ok job) ∈ pre /\ listingDone job = true
           /\ ev (LListPods name) (Ok pods) ∈ pre /\ succeededPod pods = Some pod
           /\ ev (LReadLog (p_name pod)) (Ok log) ∈ pre /\ Unmarshal (extractJSONArray log) = Ok snaps
  | Err _ =>
      Forall (fun e : act => keeps (ev_action e)) tr
      \/ exists b connections password args, accessIn repo b connections password tr
           /\ ev (LGetJobArgs name) (Ok args) ∈ tr /\ args <> Some (lj_Args (snapshotsJob repo name resticArgs connections))
  end.
Proof.
  intros H. unfold listSnapshots in H. destruct (br_RepositoryURL repo =? "") eqn:Eu.
  { destruct H as [-> [= ->]]. left. constructor. }
  apply String.eqb_neq in Eu. walk H. pose proof (only_runs _ _ _ _ (resolveAccess_keeps repo) R) as K1.
  destruct x as [[[b connections] password]|e]; [|destruct H as [-> [= ->]]; left; by rewrite app_nil_r].
  assert (forall t', t ⊆ t' -> accessIn repo b connections password t') as Hacc by (intros t' Ht; by exists t).
  walk H. pose proof (only_runs _ _ _ _ (ensureCredsSecret_keeps _ _ _ _) R0) as K2.
  destruct x as [e|]; [destruct H as [-> [= ->]]; left; rewrite !Forall_app; by split_and!|].
  apply ensureCredsSecret_spec in R0 as Hsec. walk H.
  apply ensureSnapshotsJob_spec in R1 as [(-> & Hjob & K3)|(Hne & [K3|(args & Ha & Hd)])].
  2: { destruct x as [e|]; [|done]. destruct H as [-> [= ->]]. left. rewrite !Forall_app. by split_and!. }
  2: { destruct x as [e|]; [|done]. destruct H as [-> [= ->]]. right. exists b, connections, password, args. split; [|split; [|done]].
       - apply Hacc. set_solver.
       - rewrite !elem_of_app. auto. }
  walk H. pose proof (only_runs _ _ _ _ (waitForListing_keeps _ _) R1) as K4.
  destruct x as [[e|]|]; [|..|by destruct H].
  { destruct H as [-> [= ->]]. left. rewrite !Forall_app. by split_and!. }
  apply waitForListing_done in R1 as (job & Hj & Hdone). walk H. pose proof (only_runs _ _ _ _ (readPodLog_keeps _) R1) as K5.
  assert (Forall (fun e : act => keeps (ev_action e)) (t ++ t0 ++ t1 ++ t2 ++ t3)%list) as Hk by (rewrite !Forall_app; by split_and!).
  destruct x as [log|e]; [|destruct H as [-> [= ->]]; left; by rewrite app_nil_r].
  apply readPodLog_spec in R1 as (pods & pod & Hpods & Hpod & Hlog).
  unfold ParseSnapshots in H. destruct (Unmarshal (extractJSONArray log)) as [snaps|e] eqn:Ep.
  2: { destruct H as [-> [= ->]]. left. by rewrite app_nil_r. }
  walk H. destruct H as [-> [= ->]]. apply cleanup_runs in R1 as (w1 & w2 & ->). split; [done|].
  exists b, connections, password, job, pods, pod, log, (t ++ t0 ++ t1 ++ t2 ++ t3)%list, w1, w2.
  split; [by rewrite app_nil_r, <-!app_assoc|]. split; [done|]. split; [apply Hacc; set_solver|].
  split; [eapply secretInPlace_more; [exact Hsec|set_solver]|]. split; [eapply jobInPlace_more; [exact Hjob|set_solver]|].
  rewrite !elem_of_app. split_and!; auto 10.
Qed.
(** *** The listing returns *)

(** The context is past its deadline from the [n]-th request on. *)
Definition expiresAt (n : nat) (tr : list act) : Prop :=
  forall pre x post, tr = (pre ++ ev LSelect x :: post)%list -> n <= length pre -> x <> None.

Lemma waitForListing_ends fuel name n pre tr post :
  runs (waitForListing OperatorNamespace fuel name) tr None -> expiresAt n (pre ++ tr ++ post) -> n < fuel + length pre -> 1 <= fuel -> False.
Proof.
  revert pre tr. induction fuel as [|fuel IH]; intros pre tr H He Hn Hf; [lia|]. cbn [waitForListing] in H. walk H.
  assert (forall t, runs (let! err := lask LSelect in match err with
            | Some e => Done (failure (wrap_err ("discovery job " ++ (OperatorNamespace ++ "/" ++ name) ++ " did not complete") e))
            | None => waitForListing OperatorNamespace fuel name end) t None ->
          expiresAt n (pre ++ (ev (LGetJob name) x :: t) ++ post) -> False) as Hagain.
  { intros t Ht He'. walk Ht. destruct x0 as [e|]; [by destruct Ht|].
    assert (length pre + 1 < n) as Hlt.
    { apply Nat.nle_gt. intros Hle. apply (He' (pre ++ [ev (LGetJob name) x])%list None (tr ++ post)%list); [by rewrite <-!app_assoc| |done].
      rewrite length_app. cbn. lia. }
    apply (IH (pre ++ [ev (LGetJob name) x; ev LSelect None])%list tr Ht); [by rewrite <-!app_assoc in *|rewrite length_app; cbn; lia|lia]. }
  destruct x as [job|e]; [|destruct (IsNotFound e); [by eapply Hagain|by destruct H]].
  destruct (listingDone job); [by destruct H|]. destruct (listingFailed job); [by destruct H|by eapply Hagain].
Qed.

(** A listing returns: with the context past its deadline from the [n]-th request on,
    [n] + 1 polls are enough. *)
Theorem listing_returns fuel n repo name resticArgs tr r :
  runs (listing fuel repo name resticArgs) tr r -> expiresAt n tr -> n < fuel -> r <> None.
Proof.
  intros H He Hn ->. unfold listSnapshots in H. destruct (br_RepositoryURL repo =? ""); [by destruct H|]. walk H.
  destruct x as [[[b connections] password]|e]; [|by destruct H]. walk H. destruct x as [e|]; [by destruct H|].
  walk H. destruct x as [e|]; [by destruct H|]. walk H. destruct x as [[e|]|].
  - by destruct H.
  - walk H. destruct x as [log|e]; [|by destruct H]. destruct (ParseSnapshots _ _); [|by destruct H]. walk H. by destruct H.
  - destruct H as [-> _]. apply (waitForListing_ends fuel name n (t ++ t0 ++ t1)%list t2 []); [done| |rewrite !length_app; lia|lia].
    by rewrite <-!app_assoc.
Qed.
End Listings.

(** ** Witnesses *)

#[local] Notation ev o x := (Ev (I := listI) o x).

#[local] Existing Instance MapConditionStore.

Definition wit_lrepo : BackupRepository := mkBackupRepository "loc" ∅ (Some (kindClusterBackupLocation, "loc")) true "s3:bucket/repo".
Definition wit_lsnap : Snapshot := mkSnapshot "1a" 5 "cid" [] [TagBase] None.
Definition wit_lunmarshal (s : string) : result (list Snapshot) := if s =? "[snapshot]" then Ok [wit_lsnap] else Err (errorf "not JSON").
Definition wit_lpod : Pod := mkPod "p" "" "Succeeded" "" "" 0 [mkContainerStatus false (Some (mkTerminated 0 "" "")) false].

(** A cluster where the Job appears after one poll; the Secret and the Job may be in
    the way. *)
Definition wit_lserver (job : Job) (inTheWay : option (list string)) : server (@listI MapConditionStore) :=
  fun past o =>
    let created : option gerr := match inTheWay with Some _ => Some (mkErr EAlreadyExists "exists") | None => None end in
    match o return list_answer o with
    | LGetLocation _ _ => Err (mkErr ENotFound "not found")
    | LGetClusterLocation name => Ok (mkClusterBackupLocation name "creds" false "cid" false (mkRetention 0 0 0 0 0 0), Some 4%Z)
    | LUserPassword _ _ _ | LGetKEKRef _ | LEnsureDEK _ _ | LSecretValue _ _ _ => Ok "secret"
    | LCreateSecret _ => created
    | LCreateJob _ => created
    | LGetJobArgs _ => Ok inTheWay
    | LGetJob _ => if existsb (fun e : event (@listI MapConditionStore) => match ev_action e with LSelect => true | _ => false end) past
                   then Ok job else Err (mkErr ENotFound "not found")
    | LSelect => if (20 <=? length past)%nat then Some (errorf "context deadline exceeded") else None
    | LListPods _ => Ok [wit_lpod]
    | LReadLog _ => Ok "warning: retrying [snapshot] bye"
    | LDeleteJob _ | LDeleteSecret _ => None
    end.

Notation wit_listing job inTheWay :=
  (exec (wit_lserver job inTheWay) (List_ (CS := MapConditionStore) "ops" (fun _ => None) wit_lunmarshal 30 wit_lrepo) []).
Definition wit_ldone : Job := mkJob "loc-discovery" ∅ 0 None 1 0 [].

Lemma listing_reads_its_own_job_witness :
  snd (wit_listing wit_ldone None) = Some (Ok [wit_lsnap])
  /\ exists job, ev (LGetJob "loc-discovery") (Ok job) ∈ fst (wit_listing wit_ldone None) /\ listingDone job = true.
Proof.
  split; [vm_compute; reflexivity|].
  assert (runs (listSnapshots "ops" (fun _ => None) wit_lunmarshal 30 wit_lrepo "loc-discovery" SnapshotsArgs)
            (fst (wit_listing wit_ldone None)) (Some (Ok [wit_lsnap]))) as H.
  { assert (snd (wit_listing wit_ldone None) = Some (Ok [wit_lsnap])) as <- by (vm_compute; reflexivity). exact (exec_runs (wit_lserver _ _) _ []). }
  destruct (listing_reads_its_own_job _ _ _ _ _ _ _ _ _ H) as (_ & b & c & p & job & pods & pod & log & pre & w1 & w2 & -> & _ & _ & _ & _ & Hj & Hd & _).
  exists job. split; [|exact Hd]. apply elem_of_app. by left.
Defined.

Lemma listing_returns_witness : snd (wit_listing (mkJob "loc-discovery" ∅ 0 None 0 0 []) None) <> None.
Proof.
  apply (listing_returns "ops" (fun _ => None) wit_lunmarshal 30 29 wit_lrepo "loc-discovery" SnapshotsArgs
           (fst (wit_listing (mkJob "loc-discovery" ∅ 0 None 0 0 []) None))); [exact (exec_runs (wit_lserver _ _) _ [])| |lia].
  intros pre x post E Hl. apply (f_equal length) in E. rewrite length_app in E. cbn [length] in E.
  assert (length (fst (wit_listing (mkJob "loc-discovery" ∅ 0 None 0 0 []) None)) <= 29) by (apply Nat.leb_le; vm_compute; reflexivity). lia.
Defined.

(** ** What a failed listing leaves behind *)

(** A Job that failed is not deleted, and its labels keep it from the reaper, which asks
    for the label of a claim. *)
Example failed_listing_is_taken_over :
  let failed := mkJob "loc-discovery" ∅ 0 None 0 3 [mkJobCondition JobFailed true] in
  let args := lj_Args (snapshotsJob wit_lrepo "loc-discovery" SnapshotsArgs (Some 4%Z)) in
  let deletes (tr : list (event (@listI MapConditionStore))) := List.filter (fun e : event (@listI MapConditionStore) => removes (ev_action e)) tr in
  let gives_up (r : option (result (list Snapshot))) := match r with Some (Err _) => true | _ => false end in
  gives_up (snd (wit_listing failed None)) = true /\ deletes (fst (wit_listing failed None)) = []
  /\ gives_up (snd (wit_listing failed (Some args))) = true /\ deletes (fst (wit_listing failed (Some args))) = []
  /\ discoveryJobLabels !! LabelPVC = None.
Proof. split_and!; vm_compute; reflexivity. Qed.

(** A Secret in the way is taken as it is: the listing goes on, and succeeds, without
    having written the credentials it has just read. *)
Definition refused (e : event (@listI MapConditionStore)) : bool :=
  match ev_action e as o return list_answer o -> bool with
  | LCreateSecret _ => fun w => match w with Some e => IsAlreadyExists e | None => false end
  | LCreateJob _ => fun w => match w with Some e => IsAlreadyExists e | None => false end
  | _ => fun _ => true
  end (ev_answer e).

Example rotated_credentials_are_not_written :
  let args := lj_Args (snapshotsJob wit_lrepo "loc-discovery" SnapshotsArgs (Some 4%Z)) in
  snd (wit_listing wit_ldone (Some args)) = Some (Ok [wit_lsnap]) /\ forallb refused (fst (wit_listing wit_ldone (Some args))) = true.
Proof. split; vm_compute; reflexivity. Qed.
