(* ===== verification/Keys.v ===== *)
(** * Keys: the passwords of repositories
    (internal/keys: keys.go, dek.go, userkey.go)

    The platform key of a cluster location, kept as a ciphertext in one Secret, and the
    password of a namespaced one, kept in the tenant's namespace.  Both are minted once:
    whoever creates the Secret first decides, and everybody else reads it back. *)

From Stdlib Require Import Ascii String.
From S2P Require Import Prelude GoText Cluster Names.
From S2P Require Import Location.
From S2P Require Import Program.

#[local] Open Scope string_scope.
#[local] Notation length := List.length.

Definition dekSecretNamePrefix : string := "crystal-dek-".
Definition DEKSecretKey : string := "dek".
Definition UserPasswordSecretKey : string := "restic-password".
Definition dekEntropyBytes : nat := 32.
Definition keyLabels : labels := <["app.kubernetes.io/managed-by" := "crystal-backup"]> (<["app.kubernetes.io/name" := "crystal-backup"]> ∅).

Definition DEKSecretName (locationName : string) : string := dekSecretNamePrefix ++ locationName.

(** ** base64.StdEncoding *)

Definition base64Char (n : N) : ascii :=
  match String.get (N.to_nat n) "ABCDEFGHIJKLMNOPQRSTUVWXYZabcdefghijklmnopqrstuvwxyz0123456789+/" with Some c => c | None => "A" end.

Definition base64Quad (a b c : N) : list ascii :=
  let n := (a * 65536 + b * 256 + c)%N in map base64Char [n / 262144; n / 4096 mod 64; n / 64 mod 64; n mod 64]%N.

Fixpoint EncodeToString (raw : list ascii) : list ascii :=
  match raw with
  | [] => []
  | [a] => (firstn 2 (base64Quad (N_of_ascii a) 0 0) ++ ["="; "="])%list%char
  | [a; b] => (firstn 3 (base64Quad (N_of_ascii a) (N_of_ascii b) 0) ++ ["="])%list%char
  | a :: b :: c :: raw => (base64Quad (N_of_ascii a) (N_of_ascii b) (N_of_ascii c) ++ EncodeToString raw)%list
  end.

(** ** Secrets *)

(** The data of a Secret. *)
Notation secretData := (gmap string string).
Record keySecret := mkKeySecret { ke_Labels : labels; ke_Data : secretData }.

Inductive key_action :=
| KGet (ns name : string)
| KCreate (ns name : string) (s : keySecret)
| KRandom (n : nat)                       (* io.ReadFull(rand.Reader, ...) *)
| KWrap (plaintext : string).             (* the Wrapper's, which is randomised *)

Definition key_answer (o : key_action) : Type :=
  match o with
  | KGet _ _ => result keySecret
  | KCreate _ _ _ => option gerr
  | KRandom _ => result (list ascii)
  | KWrap _ => result string
  end.

Definition keyI : interface := mkInterface key_action key_answer.
Notation keyP := (prog keyI).
Definition kask (o : key_action) : keyP (key_answer o) := call (I := keyI) o.

Section Keys.
Variable operatorNamespace : string.
(** The Wrapper's [Unwrap]. *)
Variable Unwrap : string -> result string.

Definition GenerateDEK : keyP (result string) :=
  let! raw := kask (KRandom dekEntropyBytes) in
  Done (match raw with
        | Err e => Err (wrap_err ("keys: read " ++ Itoa (Z.of_nat dekEntropyBytes) ++ " bytes of DEK entropy") e)
        | Ok raw => Ok (string_of_list_ascii (EncodeToString raw))
        end).

(** ** The platform key *)

Definition unwrapDEK (s : keySecret) (name : string) : result string :=
  match ke_Data s !! DEKSecretKey with
  | Some wrapped =>
      if wrapped =? "" then Err (errorf ("keys: DEK secret " ++ name ++ " is missing data key"))
      else match Unwrap wrapped with
           | Ok pt => Ok pt
           | Err e => Err (wrap_err ("keys: unwrap DEK from secret " ++ name) e)
           end
  | None => Err (errorf ("keys: DEK secret " ++ name ++ " is missing data key"))
  end.

Definition EnsureDEK (locationName : string) : keyP (result string) :=
  let name := DEKSecretName locationName in
  let at_ := operatorNamespace ++ "/" ++ name in
  let! existing := kask (KGet operatorNamespace name) in
  match existing with
  | Ok s => Done (unwrapDEK s name)
  | Err e =>
      if negb (IsNotFound e) then Done (Err (wrap_err ("keys: get DEK secret " ++ at_) e))
      else
        let! dek := GenerateDEK in
        match dek with
        | Err e => Done (Err e)
        | Ok dek =>
            let! wrapped := kask (KWrap dek) in
            match wrapped with
            | Err e => Done (Err (wrap_err ("keys: wrap DEK for secret " ++ name) e))
            | Ok wrapped =>
                let! err := kask (KCreate operatorNamespace name (mkKeySecret keyLabels (<[DEKSecretKey := wrapped]> ∅))) in
                match err with
                | None => Done (Ok dek)
                | Some e =>
                    if IsAlreadyExists e then
                      let! winner := kask (KGet operatorNamespace name) in
                      Done (match winner with
                            | Ok s => unwrapDEK s name
                            | Err e => Err (wrap_err ("keys: re-get DEK secret " ++ at_ ++ " after create race") e)
                            end)
                    else Done (Err (wrap_err ("keys: create DEK secret " ++ at_) e))
                end
            end
        end
  end.

Definition WrappedDEK (locationName : string) : keyP (result (option string)) :=
  let name := DEKSecretName locationName in
  let! s := kask (KGet operatorNamespace name) in
  Done (match s with
        | Err e => if IsNotFound e then Ok None else Err (wrap_err ("keys: get DEK secret " ++ operatorNamespace ++ "/" ++ name) e)
        | Ok s =>
            match ke_Data s !! DEKSecretKey with
            | Some wrapped => if wrapped =? "" then Err (errorf ("keys: DEK secret " ++ name ++ " is missing data key")) else Ok (Some wrapped)
            | None => Err (errorf ("keys: DEK secret " ++ name ++ " is missing data key"))
            end
        end).

Definition AdoptWrappedDEK (locationName wrapped : string) : keyP (option gerr) :=
  let name := DEKSecretName locationName in
  match Unwrap wrapped with
  | Err e => Done (Some (wrap_err ("keys: recovered wrapped DEK for " ++ name ++ " does not unwrap under the current KEK") e))
  | Ok _ =>
      let! err := kask (KCreate operatorNamespace name (mkKeySecret keyLabels (<[DEKSecretKey := wrapped]> ∅))) in
      match err with
      | None => Done None
      | Some e =>
          if IsAlreadyExists e then
            let! existing := WrappedDEK locationName in
            Done (match existing with
                  | Err e => Some e
                  | Ok (Some existing) =>
                      if existing =? wrapped then None
                      else Some (errorf ("keys: DEK secret " ++ name ++ " already exists with different content; refusing to overwrite (one DEK for life)"))
                  | Ok None => Some (errorf ("keys: DEK secret " ++ name ++ " already exists with different content; refusing to overwrite (one DEK for life)"))
                  end)
          else Done (Some (wrap_err ("keys: create recovered DEK secret " ++ operatorNamespace ++ "/" ++ name) e))
      end
  end.

(** ** The password of a tenant *)

Definition passwordFrom (s : keySecret) (namespace name : string) : result string :=
  match ke_Data s !! UserPasswordSecretKey with
  | Some password => if password =? "" then Err (errorf ("keys: repository password secret " ++ namespace ++ "/" ++ name ++ " is missing data key"))
                     else Ok password
  | None => Err (errorf ("keys: repository password secret " ++ namespace ++ "/" ++ name ++ " is missing data key"))
  end.

Definition readPassword (namespace name : string) : keyP (result string) :=
  let! s := kask (KGet namespace name) in
  Done (match s with
        | Ok s => passwordFrom s namespace name
        | Err e => Err (wrap_err ("keys: get referenced repository password secret " ++ namespace ++ "/" ++ name) e)
        end).

Definition EnsureUserPassword (namespace locationName refName : string) : keyP (result string) :=
  if negb (refName =? "") then readPassword namespace refName
  else
    let name := UserPasswordSecretName locationName in
    let at_ := namespace ++ "/" ++ name in
    let! existing := kask (KGet namespace name) in
    match existing with
    | Ok s => Done (passwordFrom s namespace name)
    | Err e =>
        if negb (IsNotFound e) then Done (Err (wrap_err ("keys: get repository password secret " ++ at_) e))
        else
          let! password := GenerateDEK in
          match password with
          | Err e => Done (Err e)
          | Ok password =>
              let! err := kask (KCreate namespace name (mkKeySecret keyLabels (<[UserPasswordSecretKey := password]> ∅))) in
              match err with
              | None => Done (Ok password)
              | Some e =>
                  if IsAlreadyExists e then
                    let! winner := kask (KGet namespace name) in
                    Done (match winner with
                          | Ok s => passwordFrom s namespace name
                          | Err e => Err (wrap_err ("keys: re-get repository password secret " ++ at_ ++ " after create race") e)
                          end)
                  else Done (Err (wrap_err ("keys: create repository password secret " ++ at_) e))
              end
          end
    end.

(** ** Any number of them at once *)

(** A call under way: what it was asked for, and what it still does. *)
Inductive keyCall := CallDEK (location : string) | CallAdopt (location wrapped : string) | CallUser (namespace location : string).

Definition startCall (c : keyCall) : keyP (result string) :=
  match c with
  | CallDEK l => EnsureDEK l
  | CallAdopt l wrapped => let! err := AdoptWrappedDEK l wrapped in Done (match err with Some e => Err e | None => Unwrap wrapped end)
  | CallUser ns l => EnsureUserPassword ns l ""
  end.

Notation secrets := (gmap (string * string) keySecret).

(** What the server may answer, and the Secrets afterwards.  A read may fail, or miss a
    Secret that a cache has not seen; what it returns is what was created.  A create
    takes effect only where nothing is, but its answer may be lost. *)
Definition key_answers (m : secrets) (o : key_action) : key_answer o -> secrets -> Prop :=
  match o return key_answer o -> secrets -> Prop with
  | KGet ns name => fun x m' => m' = m /\ match x with Ok s => m !! (ns, name) = Some s | Err _ => True end
  | KCreate ns name s => fun x m' =>
      m !! (ns, name) = None /\ m' = <[(ns, name) := s]> m \/ m' = m /\ x <> None
  | KRandom n => fun x m' => m' = m /\ match x with Ok raw => length raw = n | Err _ => True end
  | KWrap plaintext => fun x m' => m' = m /\ match x with Ok ct => ct <> "" /\ Unwrap ct = Ok plaintext | Err _ => True end
  end.

Record keySystem := mkKeySystem {
  ks_secrets : secrets;
  ks_running : list (keyCall * keyP (result string));
  ks_returned : list (keyCall * string)                    (* the keys that calls returned *)
}.

Inductive key_step : keySystem -> keySystem -> Prop :=
| kstep_begin s c : key_step s (mkKeySystem (ks_secrets s) ((c, startCall c) :: ks_running s) (ks_returned s))
| kstep_request s l1 l2 c (o : key_action) k (x : key_answer o) m' :
    ks_running s = (l1 ++ (c, Do (I := keyI) o k) :: l2)%list -> key_answers (ks_secrets s) o x m' ->
    key_step s (mkKeySystem m' (l1 ++ (c, k x) :: l2) (ks_returned s))
| kstep_end s l1 l2 c r :
    ks_running s = (l1 ++ (c, Done r) :: l2)%list ->
    key_step s (mkKeySystem (ks_secrets s) (l1 ++ l2) (match r with Ok d => (c, d) :: ks_returned s | Err _ => ks_returned s end))
| kstep_foreign s ns name sec :
    ks_secrets s !! (ns, name) = None ->
    key_step s (mkKeySystem (<[(ns, name) := sec]> (ks_secrets s)) (ks_running s) (ks_returned s)).

(** ** One key for life *)

(** The key that the Secret of a call holds. *)
Definition slot (c : keyCall) : string * string :=
  match c with CallDEK l | CallAdopt l _ => (operatorNamespace, DEKSecretName l) | CallUser ns l => (ns, UserPasswordSecretName l) end.

Definition keyIn (c : keyCall) (s : keySecret) : result string :=
  match c with
  | CallDEK l | CallAdopt l _ => unwrapDEK s (DEKSecretName l)
  | CallUser ns l => passwordFrom s ns (UserPasswordSecretName l)
  end.

Definition stored (m : secrets) (c : keyCall) (d : string) : Prop := exists s, m !! slot c = Some s /\ keyIn c s = Ok d.

(** A program that returns only what its Secret holds, whatever happens meanwhile. *)
Fixpoint earns (m : secrets) (c : keyCall) (p : keyP (result string)) : Prop :=
  match p with
  | Done r => forall d, r = Ok d -> stored m c d
  | Do o k => forall m1 x m2, m ⊆ m1 -> key_answers m1 o x m2 -> earns m2 c (k x)
  end.

Lemma key_answers_grow m o x m' : key_answers m o x m' -> m ⊆ m'.
Proof.
  destruct o; cbn; [by intros [-> _]| |by intros [-> _]..]. intros [[Hn ->]|[-> _]]; [by apply insert_subseteq|done].
Qed.

Lemma earns_grow m m' c p : earns m c p -> m ⊆ m' -> earns m' c p.
Proof.
  destruct p as [r|o k]; cbn.
  - intros H Hs d Hd. destruct (H d Hd) as (s & Hl & Hk). exists s. split; [|done]. by eapply lookup_weaken.
  - intros H Hs m1 x m2 Hm. apply H. by etrans.
Qed.

(** A generated password: forty-four printable characters. *)
Lemma base64_length raw : length (EncodeToString raw) = 4 * ((length raw + 2) / 3).
Proof.
  enough (forall n raw, length raw <= n -> length (EncodeToString raw) = 4 * ((length raw + 2) / 3)) as H by (by eapply H).
  clear raw. induction n as [|n IH]; intros raw Hn; [by destruct raw; [|cbn in Hn; lia]|].
  destruct raw as [|a [|b [|c raw]]]; [done..|]. cbn [EncodeToString length]. rewrite length_app, IH by (cbn in Hn; lia).
  replace (S (S (S (length raw))) + 2) with (length raw + 2 + 1 * 3) by lia. rewrite Nat.div_add by lia. change (length (base64Quad _ _ _)) with 4. lia.
Qed.

Lemma password_nonempty raw : length raw = dekEntropyBytes -> string_of_list_ascii (EncodeToString raw) <> "".
Proof. intros H E. pose proof (base64_length raw) as Hl. rewrite H in Hl. by destruct (EncodeToString raw). Qed.

(** [Unwrap] authenticates: nothing is no ciphertext. *)
Context (Unwrap_empty : forall pt, Unwrap "" <> Ok pt).

Lemma startCall_earns m c : earns m c (startCall c).
Proof.
  assert (forall m1 s d, m1 !! slot c = Some s -> keyIn c s = Ok d -> stored m1 c d) as Hst by (intros m1 s d H1 H2; by exists s).
  destruct c as [l|l w|ns l]; cbn [startCall].
  - intros m1 x m2 _ [-> Hx]. destruct x as [s|e]; [intros d; by apply Hst|]. cbn. destruct (negb (IsNotFound e)); [done|].
    intros m3 raw m4 _ [-> _]. destruct raw as [raw|e1]; [|done]. cbn. intros m5 ct m6 _ [-> Hct]. destruct ct as [ct|e1]; [|done].
    intros m7 err m8 _ Herr. destruct err as [e1|]; [destruct (IsAlreadyExists e1); [|done]|].
    + intros m9 y m10 _ [-> Hy]. destruct y as [s|e2]; [intros d; by apply Hst|done].
    + intros d [= <-]. destruct Herr as [[Hn ->]|[_ ?]]; [|done]. eapply Hst; [by apply lookup_insert_eq|]. cbn. unfold unwrapDEK.
      cbn [ke_Data]. rewrite lookup_insert_eq. destruct Hct as [Hne ->]. by destruct (String.eqb_spec ct "").
  - unfold AdoptWrappedDEK. destruct (Unwrap w) as [pt|e] eqn:Ew; [|done]. cbn. intros m1 err m2 _ Herr. destruct err as [e|].
    + destruct (IsAlreadyExists e); [|done]. intros m3 x m4 _ [-> Hx]. destruct x as [s|e1]; cbn; [|by destruct (IsNotFound e1)].
      destruct (ke_Data s !! DEKSecretKey) as [existing|] eqn:Es; [|done]. destruct (existing =? "") eqn:Ee; [done|].
      destruct (String.eqb_spec existing w) as [->|]; [|done]. intros d Hd. eapply Hst; [exact Hx|]. cbn. unfold unwrapDEK. by rewrite Es, Ee, Ew.
    + intros d Hd. destruct Herr as [[Hn ->]|[_ ?]]; [|done]. eapply Hst; [by apply lookup_insert_eq|]. cbn. unfold unwrapDEK.
      cbn [ke_Data]. rewrite lookup_insert_eq. destruct (String.eqb_spec w "") as [->|]; [by destruct (Unwrap_empty pt)|]. by rewrite Ew.
  - unfold EnsureUserPassword. cbn. intros m1 x m2 _ [-> Hx]. destruct x as [s|e]; [intros d; by apply Hst|]. destruct (negb (IsNotFound e)); [done|].
    cbn. intros m3 raw m4 _ [-> Hraw]. destruct raw as [raw|e1]; [|done]. cbn. intros m5 err m6 _ Herr.
    destruct err as [e1|]; [destruct (IsAlreadyExists e1); [|done]|].
    + intros m7 y m8 _ [-> Hy]. destruct y as [s|e2]; [intros d; by apply Hst|done].
    + intros d [= <-]. destruct Herr as [[Hn ->]|[_ ?]]; [|done]. eapply Hst; [by apply lookup_insert_eq|]. cbn. unfold passwordFrom.
      cbn [ke_Data]. rewrite lookup_insert_eq. destruct (String.eqb_spec (string_of_list_ascii (EncodeToString raw)) "") as [E|]; [|done].
      by apply password_nonempty in E.
Qed.

Definition keysInitially (m : secrets) : keySystem := mkKeySystem m [] [].

(** Every call under way will return what is stored, and every key returned is. *)
Definition sound (s : keySystem) : Prop :=
  (forall c p, (c, p) ∈ ks_running s -> earns (ks_secrets s) c p) /\ forall c d, (c, d) ∈ ks_returned s -> stored (ks_secrets s) c d.

Lemma stored_grow m m' c d : stored m c d -> m ⊆ m' -> stored m' c d.
Proof. intros (s & Hl & Hk) Hs. exists s. split; [|done]. by eapply lookup_weaken. Qed.

Lemma sound_step s s' : sound s -> key_step s s' -> sound s' /\ ks_secrets s ⊆ ks_secrets s'.
Proof.
  intros [Hp Hr] Hstep. destruct Hstep as [s c|s l1 l2 c o k x m' E Ha|s l1 l2 c r E|s ns name sec Hn]; cbn.
  - split; [|done]. split; [|done]. intros c' p [[= -> ->]|Hin]%elem_of_cons; [apply startCall_earns|by apply Hp].
  - pose proof (key_answers_grow _ _ _ _ Ha) as Hg. split; [|done]. split.
    + intros c' p Hin. cbn [ks_running] in Hin. rewrite elem_of_app, elem_of_cons in Hin. destruct Hin as [Hin|[[= -> ->]|Hin]].
      * eapply earns_grow; [|exact Hg]. apply Hp. rewrite E. apply elem_of_app. by left.
      * assert (earns (ks_secrets s) c (Do (I := keyI) o k)) as He by (apply Hp; rewrite E; apply elem_of_app; right; left).
        exact (He _ _ _ (reflexivity _) Ha).
      * eapply earns_grow; [|exact Hg]. apply Hp. rewrite E. apply elem_of_app. right; by right.
    + intros c' d Hin. eapply stored_grow; [by apply Hr|done].
  - split; [|done]. assert (earns (ks_secrets s) c (Done r)) as He by (apply Hp; rewrite E; apply elem_of_app; right; left). split.
    + intros c' p Hin. apply Hp. rewrite E. apply elem_of_app in Hin as [Hin|Hin]; apply elem_of_app; [by left|right; by right].
    + destruct r as [d|e]; [|done]. intros c' d' [[= -> ->]|Hin]%elem_of_cons; [by apply He|by apply Hr].
  - assert (ks_secrets s ⊆ <[(ns, name) := sec]> (ks_secrets s)) as Hg by by apply insert_subseteq. split; [|done]. split.
    + intros c' p Hin. eapply earns_grow; [by apply Hp|done].
    + intros c' d Hin. eapply stored_grow; [by apply Hr|done].
Qed.

Lemma sound_reachable m s : rtc key_step (keysInitially m) s -> sound s.
Proof.
  intros H. remember (keysInitially m) as s0 eqn:E. assert (sound s0) as H0 by (subst; split; intros ? ? ?%not_elem_of_nil; done). clear E.
  induction H as [|s1 s2 s3 Hstep _ IH]; [done|]. apply IH. by eapply sound_step.
Qed.

(** C15. A repository has one key for its whole life.  However many calls mint, read back or
    adopt the key of a location at once, with reads that fail or lag, creates whose
    answer is lost and Secrets that others bring, every key any of them ever returns for
    that location is the one its Secret holds: all of them are the same, and a recovered
    ciphertext that is adopted is the key from then on. *)
Theorem one_key_for_life m s c1 c2 d1 d2 :
  rtc key_step (keysInitially m) s -> (c1, d1) ∈ ks_returned s -> (c2, d2) ∈ ks_returned s ->
  match c1, c2 with
  | (CallDEK l1 | CallAdopt l1 _), (CallDEK l2 | CallAdopt l2 _) => l1 = l2
  | CallUser ns1 l1, CallUser ns2 l2 => ns1 = ns2 /\ l1 = l2
  | _, _ => False
  end ->
  d1 = d2 /\ stored (ks_secrets s) c1 d1
  /\ forall s', rtc key_step s s' -> stored (ks_secrets s') c1 d1.
Proof.
  intros H H1 H2 Hc. pose proof (sound_reachable _ _ H) as Hs. pose proof Hs as [_ Hr].
  destruct (Hr _ _ H1) as (s1 & L1 & K1), (Hr _ _ H2) as (s2 & L2 & K2). split_and!.
  - assert (slot c1 = slot c2 /\ forall x, keyIn c1 x = keyIn c2 x) as [Es Ek]
      by (destruct c1, c2; try done; cbn in Hc; [by subst..|destruct Hc as [-> ->]; done]).
    rewrite Es in L1. rewrite Ek in K1. congruence.
  - by apply Hr.
  - intros s' Hs'. assert (stored (ks_secrets s) c1 d1) as Hst by by apply Hr. clear - Hs Hs' Hst Unwrap_empty.
    induction Hs' as [|s1 s2 s3 Hstep _ IH]; [done|]. destruct (sound_step _ _ Hs Hstep) as [Hs2 Hg]. apply IH; [done|]. by eapply stored_grow.
Qed.
End Keys.

(** ** Two calls race *)

Definition wit_unwrap (ct : string) : result string := match ct with String _ pt => Ok pt | "" => Err (errorf "no header") end.
Definition wit_raw (c : ascii) : list ascii := repeat c 32.
Definition wit_key (raw : list ascii) : string := string_of_list_ascii (EncodeToString raw).
Definition wit_secret (raw : list ascii) : keySecret := mkKeySecret keyLabels (<[DEKSecretKey := String "x" (wit_key raw)]> ∅).

Example wit_key_bytes : wit_key (wit_raw "f") = "ZmZmZmZmZmZmZmZmZmZmZmZmZmZmZmZmZmZmZmZmZmY=".
Proof. vm_compute. reflexivity. Qed.

#[local] Notation call_ := (CallDEK "loc").
#[local] Notation dek_ := (EnsureDEK "ops" wit_unwrap "loc").

(** A request of the call after those of [l1]. *)
Ltac request l1 o x := eapply rtc_l; [eapply (kstep_request "ops" wit_unwrap _ l1 _ call_ o _ x _); [reflexivity|]|].

Ltac norm := cbn [ks_secrets ks_running ks_returned app].

(** Both find nothing, both mint, one creates and the other is told so. *)
Lemma wit_key_race (raw_a raw_b : list ascii) :
  length raw_a = 32 -> length raw_b = 32 ->
  exists s, rtc (key_step "ops" wit_unwrap) (keysInitially ∅) s /\ ks_returned s = [(call_, wit_key raw_b); (call_, wit_key raw_b)].
Proof.
  intros Ha Hb. eexists. split.
  - eapply rtc_l; [eapply (kstep_begin "ops" wit_unwrap _ call_)|]; norm. eapply rtc_l; [eapply (kstep_begin "ops" wit_unwrap _ call_)|]; norm.
    request (@nil (keyCall * prog keyI (result string))) (KGet "ops" "crystal-dek-loc") (Err (mkErr ENotFound "") : result keySecret); [by split|].
    eapply rtc_l; [eapply (kstep_request "ops" wit_unwrap _ [_] [] call_ (KGet "ops" "crystal-dek-loc") _ (Err (mkErr ENotFound "") : result keySecret) _);
                   [reflexivity|by split]|]; norm.
    request (@nil (keyCall * prog keyI (result string))) (KRandom 32) (Ok (raw_a) : result (list ascii)); [by split|].
    eapply rtc_l; [eapply (kstep_request "ops" wit_unwrap _ [_] [] call_ (KRandom 32) _ (Ok (raw_b) : result (list ascii)) _);
                   [reflexivity|by split]|]; norm.
    request (@nil (keyCall * prog keyI (result string))) (KWrap (wit_key raw_a)) (Ok (String "x" (wit_key raw_a)) : result string); [by split|].
    eapply rtc_l; [eapply (kstep_request "ops" wit_unwrap _ [_] [] call_ (KWrap (wit_key raw_b)) _ (Ok (String "x" (wit_key raw_b)) : result string) _);
                   [reflexivity|by split]|]; norm.
    eapply rtc_l; [eapply (kstep_request "ops" wit_unwrap _ [_] [] call_ (KCreate "ops" "crystal-dek-loc" (wit_secret raw_b)) _ (None : option gerr) _);
                   [reflexivity|by left]|]; norm.
    request (@nil (keyCall * prog keyI (result string))) (KCreate "ops" "crystal-dek-loc" (wit_secret raw_a))
      (Some (mkErr EAlreadyExists "") : option gerr); [by right|].
    request (@nil (keyCall * prog keyI (result string))) (KGet "ops" "crystal-dek-loc") (Ok (wit_secret raw_b) : result keySecret); [by split|].
    eapply rtc_l; [eapply (kstep_end "ops" wit_unwrap _ [] [_] call_ (Ok (wit_key raw_b))); reflexivity|]; norm.
    eapply rtc_l; [eapply (kstep_end "ops" wit_unwrap _ [] [] call_ (Ok (wit_key raw_b))); reflexivity|]; norm.
    apply rtc_refl.
  - reflexivity.
Qed.

Lemma one_key_for_life_witness :
  wit_key (wit_raw "a") <> wit_key (wit_raw "b")
  /\ exists s, (call_, wit_key (wit_raw "b")) ∈ ks_returned s /\ stored "ops" wit_unwrap (ks_secrets s) call_ (wit_key (wit_raw "b")).
Proof.
  split; [by vm_compute|]. destruct (wit_key_race (wit_raw "a") (wit_raw "b") eq_refl eq_refl) as (s & Hs & Hr). exists s.
  assert ((call_, wit_key (wit_raw "b")) ∈ ks_returned s) as Hin by (rewrite Hr; left). split; [exact Hin|].
  destruct (one_key_for_life "ops" wit_unwrap ltac:(discriminate) ∅ s call_ call_ (wit_key (wit_raw "b")) (wit_key (wit_raw "b")) Hs Hin Hin eq_refl) as (_ & H & _).
  exact H.
Defined.
