(* ===== verification/RepositoryInit.v ===== *)
(** * RepositoryInit: the controller of BackupRepositories and the initialisation it drives
    (internal/controller/backuprepository_controller.go)

    A pass fills in the identity of the repository, makes sure of its password, and
    admits one [restic init] to the repository's queue; a worker of the queue runs it.
    Both are programs over [initI]; [init_step] interleaves the passes of all
    repositories with the workers, the queue's shutdown and restarts of the process. *)

From Stdlib Require Import Ascii String.
From S2P Require Import Prelude GoText Cluster Selectors Names Status VolumeMachine Restic.
From S2P Require Import Backup.
From S2P Require Import Location.
From S2P Require Import MaintenanceJob.
From S2P Require Import DiscoveryLister.
From S2P Require Import Program.

#[local] Open Scope string_scope.
#[local] Notation length := List.length.

Definition ConditionInitialized : string := "Initialized".
Definition FinalizerRepository : string := "crystalbackup.io/repository".
Definition initInFlightRequeueInterval : Z := (10 * second)%Z.
Definition initFailedRequeueInterval : Z := (30 * second)%Z.
Definition initJobBackoffLimit : Z := 2.
Definition initJobTTLSeconds : Z := 3600.
Definition initJobDeadline : Z := (10 * minute)%Z.
Definition mover_OpInit : string := "init".

Definition initResourceName (repoName : string) : string := repoName ++ "-init".

Definition initJobLabels : labels :=
  <["app.kubernetes.io/name" := "crystal-mover"]>
    (<["app.kubernetes.io/managed-by" := "crystal-backup"]> (<["app.kubernetes.io/component" := "repo-init"]> ∅)).

Section Controller.
Context `{CS : ConditionStore}.

(** ** Objects *)

Record initStatus := mkInitStatus {
  is_Initialized : bool;
  is_Location : string * string;            (* kind and name *)
  is_Scope : string;
  is_OwnerNamespace : string;
  is_Mode : string;
  is_RepositoryURL : string;
  is_KeySlots : list string;
  is_Conditions : conditions
}.

Record initRepository := mkInitRepository {
  ir_Name : string;
  ir_Labels : labels;
  ir_Controller : option (string * string);
  ir_Generation : Z;
  ir_Deleting : bool;
  ir_Finalizers : list string;
  ir_Status : initStatus
}.

Definition asRepository (r : initRepository) : BackupRepository :=
  mkBackupRepository (ir_Name r) (ir_Labels r) (ir_Controller r) (is_Initialized (ir_Status r)) (is_RepositoryURL (ir_Status r)).

Definition set_ir_status (s : initStatus) (r : initRepository) : initRepository :=
  mkInitRepository (ir_Name r) (ir_Labels r) (ir_Controller r) (ir_Generation r) (ir_Deleting r) (ir_Finalizers r) s.
Definition set_ir_finalizers (fs : list string) (r : initRepository) : initRepository :=
  mkInitRepository (ir_Name r) (ir_Labels r) (ir_Controller r) (ir_Generation r) (ir_Deleting r) fs (ir_Status r).
Definition set_ir_condition (condType st reason message : string) (r : initRepository) : initRepository :=
  let s := ir_Status r in
  set_ir_status
    (mkInitStatus (is_Initialized s) (is_Location s) (is_Scope s) (is_OwnerNamespace s) (is_Mode s) (is_RepositoryURL s)
       (is_KeySlots s) (SetCondition (is_Conditions s) condType st reason message (ir_Generation r))) r.
Definition set_ir_initialized (r : initRepository) : initRepository :=
  let s := ir_Status r in
  set_ir_status
    (mkInitStatus true (is_Location s) (is_Scope s) (is_OwnerNamespace s) (is_Mode s) (is_RepositoryURL s) (is_KeySlots s)
       (is_Conditions s)) r.
Definition set_ir_keySlots (slots : list string) (r : initRepository) : initRepository :=
  let s := ir_Status r in
  set_ir_status
    (mkInitStatus (is_Initialized s) (is_Location s) (is_Scope s) (is_OwnerNamespace s) (is_Mode s) (is_RepositoryURL s) slots
       (is_Conditions s)) r.

(** The two conditions, with one reason. *)
Definition set_both (st reason initialized ready : string) (r : initRepository) : initRepository :=
  set_ir_condition ConditionReady st reason ready (set_ir_condition ConditionInitialized st reason initialized r).

(** What the controller reads of a location beside its binding. *)
Record storage := mkStorage {
  st_Endpoint : string;
  st_Bucket : string;
  st_Prefix : string;
  st_Connections : option Z;
  st_Mode : string
}.

(** What the queued closure captures. *)
Record initRequest := mkInitRequest {
  iq_Owner : initRepository;
  iq_RepoURL : string;
  iq_Password : string;
  iq_CredsSecret : string;
  iq_Connections : option Z;
  iq_CredsNamespace : string
}.

Inductive propagation := Foreground | Background.

(** ** Requests *)

Inductive init_action :=
| IGet (name : string)
| IUpdate (repo : initRepository)             (* Update, of the finalizers *)
| IStatus (repo : initRepository)             (* Status().Update *)
| IGetLocation (ns name : string)
| IGetClusterLocation (name : string)
| IGetKEKRef (name : string)                  (* the cluster location again, for its KEK reference *)
| IUserPassword (ns name ref : string)        (* keys.EnsureUserPassword *)
| IEnsureDEK (identity location : string)     (* keys.EnsureDEK *)
| ISecretValue (ns name dataKey : string)     (* Secrets.GetValue *)
| IInflight (name : string)                   (* the map, under its lock *)
| ITrack (name : string) (h : nat)
| IUntrack (name : string)
| IForget (name : string)                     (* the same deletion, by [finalize] *)
| IEnqueue (name : string) (q : initRequest)  (* Queue.Enqueue, whose handles are numbers *)
| IPoll (h : nat)                             (* select on [Done], and [Err] *)
| IEvent (reason : string)
| ICreateSecret (s : listingSecret)
| ICreateJob (j : listingJob)
| IGetJob (name : string)
| ISelect                                     (* the context's error, or a tick *)
| IDeleteJob (name : string) (p : propagation)
| IDeleteSecret (name : string).

Definition init_answer (o : init_action) : Type :=
  match o with
  | IGet _ => result initRepository
  | IGetLocation _ _ => result (BackupLocation * storage)
  | IGetClusterLocation _ => result (ClusterBackupLocation * storage)
  | IGetKEKRef _ | IUserPassword _ _ _ | IEnsureDEK _ _ | ISecretValue _ _ _ => result string
  | IInflight _ => option nat
  | ITrack _ _ | IUntrack _ | IForget _ | IEvent _ => unit
  | IEnqueue _ _ => result nat
  | IPoll _ => option (option gerr)
  | IGetJob _ => result Job
  | IUpdate _ | IStatus _ | ICreateSecret _ | ICreateJob _ | ISelect | IDeleteJob _ _ | IDeleteSecret _ => option gerr
  end.

Definition initI : interface := mkInterface init_action init_answer.
Notation initP := (prog initI).
Definition iask (o : init_action) : initP (init_answer o) := call (I := initI) o.

Variable OperatorNamespace : string.
Variable NewAgeWrapper : string -> option gerr.

(** A requeue; [None] is [Requeue: true]. *)
Notation requeue := (option Z).

(** ** The status writes *)

Definition persist (repo : initRepository) (after : requeue) : initP (result requeue) :=
  let! err := iask (IStatus repo) in
  Done (match err with
        | Some e => Err (wrap_err ("update status for BackupRepository " ++ ir_Name repo) e)
        | None => Ok after
        end).

Definition setInitBlocked (repo : initRepository) (reason message : string) : initRepository :=
  set_both ConditionFalse reason message message repo.

(** ** The binding and the password *)

Definition initBinding (repo : initRepository) : initP (result (locationBinding * storage)) :=
  let br := asRepository repo in
  let ns := lget (br_Labels br) LabelNamespace in
  let name := lget (br_Labels br) LabelLocation in
  let absent {A} : result A := Err (mkErr ENotFound "") in
  let bind getLocation getCluster := resolveLocationBinding getLocation getCluster br OperatorNamespace in
  let unresolved : result (locationBinding * storage) := match bind (fun _ _ => absent) (fun _ => absent) with Err e => Err e | Ok _ => absent end in
  if negb (ns =? "") && negb (name =? "") then
    let! loc := iask (IGetLocation ns name) in
    Done (match loc with
          | Err e => Err e
          | Ok (loc, st) => match bind (fun _ _ => Ok loc) (fun _ => absent) with Ok b => Ok (b, st) | Err e => Err e end
          end)
  else
    match br_Controller br with
    | Some (kind, owner) =>
        if negb (kind =? kindClusterBackupLocation) then Done unresolved
        else
          let! cbl := iask (IGetClusterLocation owner) in
          Done (match cbl with
                | Err e => Err e
                | Ok (cbl, st) => match bind (fun _ _ => absent) (fun _ => Ok cbl) with Ok b => Ok (b, st) | Err e => Err e end
                end)
    | None => Done unresolved
    end.

(** [resolvePlatformDEK]: the key, or a reason and an error. *)
Definition platformDEK (location kek : string) : initP (string + string * gerr) :=
  let! identity := iask (ISecretValue OperatorNamespace kek kekIdentityDataKey) in
  match identity with
  | Err e => Done (inr ("KEKUnavailable", wrap_err ("read cluster KEK secret " ++ OperatorNamespace ++ "/" ++ kek) e))
  | Ok identity =>
      match NewAgeWrapper identity with
      | Some e => Done (inr ("KEKInvalid", wrap_err ("parse cluster KEK secret " ++ OperatorNamespace ++ "/" ++ kek) e))
      | None =>
          let! dek := iask (IEnsureDEK identity location) in
          Done (match dek with
                | Ok dek => inl dek
                | Err e => inr ("DEKUnavailable", wrap_err ("ensure platform DEK for location " ++ location) e)
                end)
      end
  end.

(** The password, or the repository with what blocks it. *)
Definition ensureRepositoryPassword (repo : initRepository) (b : locationBinding) : initP (string + initRepository) :=
  if Namespaced b then
    let! password := iask (IUserPassword (lb_Namespace b) (lb_Name b) (lb_PasswordSecretRef b)) in
    Done (match password with
          | Ok password => inl password
          | Err e => inr (setInitBlocked repo "PasswordUnavailable" (err_text e))
          end)
  else
    let! kek := iask (IGetKEKRef (lb_Name b)) in
    match kek with
    | Err e => Done (inr (setInitBlocked repo "NoOwningLocation"
                            ("get ClusterBackupLocation " ++ lb_Name b ++ ": " ++ err_text e)))
    | Ok kek =>
        let! dek := platformDEK (lb_Name b) kek in
        Done (match dek with
              | inl dek => inl dek
              | inr (reason, e) => inr (setInitBlocked repo reason (err_text e))
              end)
    end.

(** ** The drive *)

Definition deleteInitJob (name : string) (p : propagation) : initP () :=
  let! _ := iask (IDeleteJob (initResourceName name) p) in Done tt.
Definition deleteInitCredsSecret (name : string) : initP () :=
  let! _ := iask (IDeleteSecret (initResourceName name)) in Done tt.

Definition initializing (initialized ready : string) (repo : initRepository) : initRepository :=
  set_both ConditionFalse "Initializing" initialized ready repo.

Definition admitInit (repo : initRepository) (b : locationBinding) (st : storage) (password : string) : initP (result requeue) :=
  let! handle := iask (IEnqueue (ir_Name repo)
                         (mkInitRequest repo (is_RepositoryURL (ir_Status repo)) password (lb_CredsSecret b) (st_Connections st)
                            (lb_CredsNamespace b))) in
  match handle with
  | Err _ =>
      persist (set_ir_condition ConditionInitialized ConditionFalse "Initializing"
                 "init not yet enqueued (queue stopping); retrying" repo) (Some initInFlightRequeueInterval)
  | Ok h =>
      let! _ := iask (ITrack (ir_Name repo) h) in
      persist (initializing "restic init enqueued on the repository's exclusive queue" "repository is initializing" repo)
        (Some initInFlightRequeueInterval)
  end.

Definition initFailed (repo : initRepository) (e : gerr) : initP (result requeue) :=
  let! r := persist (set_ir_condition ConditionReady ConditionFalse "InitFailed" "repository init failed"
                       (set_ir_condition ConditionInitialized ConditionFalse "InitFailed"
                          ("restic init failed: " ++ err_text e) repo)) (Some initFailedRequeueInterval) in
  match r with
  | Err e => Done (Err e)
  | Ok after => let! _ := deleteInitJob (ir_Name repo) Foreground in Done (Ok after)
  end.

Definition initSucceeded (repo : initRepository) : initP (result requeue) :=
  let! r := persist (set_ir_condition ConditionReady ConditionTrue "Ready" "repository is initialized and its key material is present"
                       (set_ir_condition ConditionInitialized ConditionTrue "Initialized" "shared repository initialized"
                          (set_ir_initialized repo))) (Some periodicRequeueInterval) in
  match r with
  | Err e => Done (Err e)
  | Ok after =>
      let! _ := iask (IEvent "Initialized") in
      let! _ := deleteInitJob (ir_Name repo) Background in
      let! _ := deleteInitCredsSecret (ir_Name repo) in
      Done (Ok after)
  end.

Definition driveInit (repo : initRepository) (b : locationBinding) (st : storage) (password : string) : initP (result requeue) :=
  let! h := iask (IInflight (ir_Name repo)) in
  match h with
  | None => admitInit repo b st password
  | Some h =>
      let! done := iask (IPoll h) in
      match done with
      | None => persist (initializing "restic init in progress on the repository's exclusive queue" "repository is initializing" repo)
                  (Some initInFlightRequeueInterval)
      | Some err =>
          let! _ := iask (IUntrack (ir_Name repo)) in
          match err with
          | Some e => initFailed repo e
          | None => initSucceeded repo
          end
      end
  end.

(** ** Reconcile *)

Definition finalizeRepository (repo : initRepository) : initP (result requeue) :=
  if negb (existsb (String.eqb FinalizerRepository) (ir_Finalizers repo)) then Done (Ok (Some 0%Z))
  else
    let! _ := iask (IForget (ir_Name repo)) in
    let! _ := iask (IEvent "Finalizing") in
    let! err := iask (IUpdate (set_ir_finalizers
                                 (List.filter (fun f => negb (f =? FinalizerRepository)) (ir_Finalizers repo)) repo)) in
    Done (match err with
          | Some e => Err (wrap_err ("remove finalizer from BackupRepository " ++ ir_Name repo) e)
          | None => Ok (Some 0%Z)
          end).

Definition identify (repo : initRepository) (b : locationBinding) (st : storage) : initRepository :=
  set_ir_status
    (mkInitStatus (is_Initialized (ir_Status repo)) (lb_Kind b, lb_Name b) (Scope b) (lb_Namespace b) (st_Mode st)
       (RepoURL (st_Endpoint st) (st_Bucket st) (st_Prefix st) (lb_ClusterID b)) (is_KeySlots (ir_Status repo))
       (is_Conditions (ir_Status repo))) repo.

Definition reconcileBound (repo : initRepository) (b : locationBinding) (st : storage) : initP (result requeue) :=
  let repo := identify repo b st in
  let! password := ensureRepositoryPassword repo b in
  match password with
  | inr blocked => persist blocked (Some shortRequeueInterval)
  | inl password =>
      let repo := set_ir_keySlots (KeySlots b) repo in
      if is_Initialized (ir_Status repo) then
        persist (set_ir_condition ConditionReady ConditionTrue "Ready" "repository is initialized and its key material is present"
                   (set_ir_condition ConditionInitialized ConditionTrue "Initialized" "shared repository is initialized" repo))
          (Some periodicRequeueInterval)
      else driveInit repo b st password
  end.

Definition reconcileRepository (name : string) : initP (result requeue) :=
  let! got := iask (IGet name) in
  match got with
  | Err e => Done (if IsNotFound e then Ok (Some 0%Z) else Err (wrap_err ("get BackupRepository " ++ name) e))
  | Ok repo =>
      if ir_Deleting repo then finalizeRepository repo
      else if negb (existsb (String.eqb FinalizerRepository) (ir_Finalizers repo)) then
        let! err := iask (IUpdate (set_ir_finalizers (ir_Finalizers repo ++ [FinalizerRepository]) repo)) in
        Done (match err with
              | Some e => Err (wrap_err ("add finalizer to BackupRepository " ++ ir_Name repo) e)
              | None => Ok None
              end)
      else
        let! binding := initBinding repo in
        match binding with
        | Err e =>
            if IsNotFound e then
              persist (set_both ConditionFalse "NoOwningLocation" "owning location not found; nothing to initialize"
                         "owning location not found" repo) (Some shortRequeueInterval)
            else Done (Err (wrap_err ("resolve owning location for BackupRepository " ++ ir_Name repo) e))
        | Ok (b, st) =>
            if lb_ClusterID b =? "" then
              persist (set_both ConditionFalse "NoClusterID" "the owning location has not resolved its cluster ID yet; waiting"
                         "the owning location has not resolved its cluster ID yet" repo) (Some shortRequeueInterval)
            else reconcileBound repo b st
        end
  end.

(** ** The operation of the worker *)

Definition initDone (job : Job) : bool := (1 <=? j_succeeded job)%Z || jobConditionTrue job JobComplete.
Definition initJobFailed (job : Job) : bool := jobConditionTrue job JobFailed || (initJobBackoffLimit <? j_failed job)%Z.

Fixpoint waitForInitJob (fuel : nat) (jobName : string) : initP outcome :=
  match fuel with
  | O => Done None
  | S fuel =>
      let at_ := OperatorNamespace ++ "/" ++ jobName in
      let! job := iask (IGetJob jobName) in
      match job with
      | Err e => Done (failure (wrap_err ("get init job " ++ at_) e))
      | Ok job =>
          if initDone job then Done success
          else if initJobFailed job then
            Done (failure (errorf ("init job " ++ at_ ++ " failed (failed pods=" ++ Itoa (j_failed job) ++ ", backoffLimit="
                                     ++ Itoa initJobBackoffLimit ++ ")")))
          else
            let! err := iask ISelect in
            match err with
            | Some e => Done (failure (wrap_err ("init job " ++ at_ ++ " did not complete") e))
            | None => waitForInitJob fuel jobName
            end
      end
  end.

Definition initJob (q : initRequest) : listingJob :=
  let name := initResourceName (ir_Name (iq_Owner q)) in
  mkListingJob name (moverArgs mover_OpInit (iq_Connections q) (iq_RepoURL q) ["init"]) (iq_RepoURL q) name
    initJobBackoffLimit initJobTTLSeconds initJobLabels (ir_Name (iq_Owner q)).

Definition runInit (fuel : nat) (q : initRequest) : initP outcome :=
  let name := initResourceName (ir_Name (iq_Owner q)) in
  let at_ := iq_CredsNamespace q ++ "/" ++ iq_CredsSecret q in
  let! accessKey := iask (ISecretValue (iq_CredsNamespace q) (iq_CredsSecret q) "AWS_ACCESS_KEY_ID") in
  match accessKey with
  | Err e => Done (failure (wrap_err ("read S3 access key from secret " ++ at_) e))
  | Ok accessKey =>
      let! secretKey := iask (ISecretValue (iq_CredsNamespace q) (iq_CredsSecret q) "AWS_SECRET_ACCESS_KEY") in
      match secretKey with
      | Err e => Done (failure (wrap_err ("read S3 secret key from secret " ++ at_) e))
      | Ok secretKey =>
          let! err := iask (ICreateSecret (mkListingSecret name initJobLabels (iq_Password q) accessKey secretKey (ir_Name (iq_Owner q)))) in
          match match err with Some e => if IsAlreadyExists e then None else Some e | None => None end with
          | Some e => Done (failure (wrap_err ("create init creds secret " ++ OperatorNamespace ++ "/" ++ name) e))
          | None =>
              let! err := iask (ICreateJob (initJob q)) in
              match match err with Some e => if IsAlreadyExists e then None else Some e | None => None end with
              | Some e => Done (failure (wrap_err ("create init job " ++ OperatorNamespace ++ "/" ++ name) e))
              | None => waitForInitJob fuel name
              end
          end
      end
  end.

(** ** The passes, the queue and its workers together *)

(** An operation of the queue: waiting, run by the worker, or resolved. *)
Inductive opState := OpQueued | OpRunning (p : initP outcome) | OpEnded (err : option gerr).
Record initOp := mkInitOp { io_Repo : string; io_Request : initRequest; io_State : opState }.

Record initSystem := mkInitSystem {
  sy_inflight : gmap string nat;                        (* r.inflight *)
  sy_ops : gmap nat initOp;                             (* by handle, since the process started *)
  sy_passes : gmap string (initP (result requeue));     (* one per key at most *)
  sy_dropped : gset nat;                                (* the handles a [finalize] forgot *)
  sy_log : list (event initI)                           (* everything asked, newest first *)
}.

Definition init_start : initSystem := mkInitSystem ∅ ∅ ∅ ∅ [].

Definition ended (op : initOp) : bool := match io_State op with OpEnded _ => true | _ => false end.
Definition poll (ops : gmap nat initOp) (h : nat) : option (option gerr) :=
  match ops !! h with Some (mkInitOp _ _ (OpEnded err)) => Some err | _ => None end.

(** What the map and the queue answer, and their state afterwards; anything else may
    answer anything, except that a Get gives the object of the name asked for. *)
Definition init_answers (s : initSystem) (o : init_action)
    : init_answer o -> gmap string nat -> gmap nat initOp -> gset nat -> Prop :=
  match o return init_answer o -> gmap string nat -> gmap nat initOp -> gset nat -> Prop with
  | IInflight n => fun x f q d => x = sy_inflight s !! n /\ f = sy_inflight s /\ q = sy_ops s /\ d = sy_dropped s
  | ITrack n h => fun _ f q d => f = <[n := h]> (sy_inflight s) /\ q = sy_ops s /\ d = sy_dropped s
  | IUntrack n => fun _ f q d => f = base.delete n (sy_inflight s) /\ q = sy_ops s /\ d = sy_dropped s
  | IForget n => fun _ f q d => f = base.delete n (sy_inflight s) /\ q = sy_ops s
      /\ d = match sy_inflight s !! n with Some h => {[h]} ∪ sy_dropped s | None => sy_dropped s end
  | IEnqueue n r => fun x f q d => f = sy_inflight s /\ d = sy_dropped s
      /\ match x with
         | Ok h => sy_ops s !! h = None /\ q = <[h := mkInitOp n r OpQueued]> (sy_ops s)
         | Err _ => q = sy_ops s
         end
  | IPoll h => fun x f q d => x = poll (sy_ops s) h /\ f = sy_inflight s /\ q = sy_ops s /\ d = sy_dropped s
  | IGet n => fun x f q d => f = sy_inflight s /\ q = sy_ops s /\ d = sy_dropped s
      /\ match x with Ok repo => ir_Name repo = n | Err _ => True end
  | _ => fun _ f q d => f = sy_inflight s /\ q = sy_ops s /\ d = sy_dropped s
  end.

Definition set_op (h : nat) (op : initOp) (st : opState) (s : initSystem) : initSystem :=
  mkInitSystem (sy_inflight s) (<[h := mkInitOp (io_Repo op) (io_Request op) st]> (sy_ops s)) (sy_passes s) (sy_dropped s) (sy_log s).
Definition logged (e : event initI) (s : initSystem) : initSystem :=
  mkInitSystem (sy_inflight s) (sy_ops s) (sy_passes s) (sy_dropped s) (e :: sy_log s).

(** A worker starts an operation only when no other of its repository runs: the queue's
    own exclusion.  Stopping the queue resolves what waits in it. *)
Inductive init_step : initSystem -> initSystem -> Prop :=
| istep_begin s name :
    sy_passes s !! name = None ->
    init_step s (mkInitSystem (sy_inflight s) (sy_ops s) (<[name := reconcileRepository name]> (sy_passes s)) (sy_dropped s) (sy_log s))
| istep_request s name (o : init_action) k (x : init_answer o) f q d :
    sy_passes s !! name = Some (Do (I := initI) o k) -> init_answers s o x f q d ->
    init_step s (mkInitSystem f q (<[name := k x]> (sy_passes s)) d (Ev (I := initI) o x :: sy_log s))
| istep_end s name r :
    sy_passes s !! name = Some (Done r) ->
    init_step s (mkInitSystem (sy_inflight s) (sy_ops s) (base.delete name (sy_passes s)) (sy_dropped s) (sy_log s))
| istep_start s h op fuel :
    sy_ops s !! h = Some op -> io_State op = OpQueued ->
    (forall h' op' p, sy_ops s !! h' = Some op' -> io_Repo op' = io_Repo op -> io_State op' <> OpRunning p) ->
    init_step s (set_op h op (OpRunning (runInit fuel (io_Request op))) s)
| istep_cancelled s h op e :
    sy_ops s !! h = Some op -> io_State op = OpQueued -> init_step s (set_op h op (OpEnded (Some e)) s)
| istep_work s h op (o : init_action) k (x : init_answer o) :
    sy_ops s !! h = Some op -> io_State op = OpRunning (Do (I := initI) o k) ->
    init_step s (logged (Ev (I := initI) o x) (set_op h op (OpRunning (k x)) s))
| istep_resolve s h op err :
    sy_ops s !! h = Some op -> io_State op = OpRunning (Done (Some err)) -> init_step s (set_op h op (OpEnded err) s)
| istep_restart s : init_step s (mkInitSystem ∅ ∅ ∅ ∅ (sy_log s)).

Definition init_reachable : initSystem -> Prop := rtc init_step init_start.
End Controller.

(** ** The passes *)

Section Proofs.
Context `{CS : ConditionStore}.
Context (OperatorNamespace : string) (NewAgeWrapper : string -> option gerr).

Notation act := (event initI).
Notation ev o x := (Ev (I := initI) o x).
Notation initP := (prog initI).
Notation requeue := (option Z).
Notation pass := (reconcileRepository OperatorNamespace NewAgeWrapper).
Notation istep := (init_step OperatorNamespace NewAgeWrapper).

Lemma iask_runs o tr x : runs (iask o) tr x <-> tr = [ev o x].
Proof. apply (runs_call (I := initI)). Qed.

(** That the initialisation of a repository was seen to be done: its Job complete, or
    its status saying so. *)
Definition jobSeen (n : string) (log : list act) : Prop :=
  exists job, ev (IGetJob (initResourceName n)) (Ok job) ∈ log /\ initDone job = true.
Definition initSeen (n : string) (log : list act) : Prop :=
  jobSeen n log \/ exists repo, ev (IGet n) (Ok repo) ∈ log /\ is_Initialized (ir_Status repo) = true.

(** What a pass knows: nothing; that the repository is initialised; that it tracks no
    operation; that it has just queued one; which one it tracks; how that one ended. *)
Inductive iphase := PUnknown | PSeen | PFree | PFresh (h : nat) | PTracked (h : nat) | PEnded (h : nat) (err : option gerr).

Definition readPhase (x : result initRepository) : iphase :=
  match x with Ok repo => if is_Initialized (ir_Status repo) then PSeen else PUnknown | Err _ => PUnknown end.

Definition iallows (n : string) (ph : iphase) (o : init_action) : (init_answer o -> iphase -> Prop) -> Prop :=
  match o return (init_answer o -> iphase -> Prop) -> Prop with
  | IGet m => fun K => m = n /\ ph = PUnknown /\ forall x, match x with Ok repo => ir_Name repo = n | Err _ => True end -> K x (readPhase x)
  | IStatus repo => fun K => (is_Initialized (ir_Status repo) = true <-> ph = PSeen) /\ ir_Name repo = n /\ forall x, K x ph
  | IInflight m => fun K => m = n /\ ph = PUnknown /\ forall x, K x (match x with None => PFree | Some h => PTracked h end)
  | IEnqueue m q => fun K => m = n /\ ir_Name (iq_Owner q) = n /\ ph = PFree
      /\ forall x, K x (match x with Ok h => PFresh h | Err _ => PFree end)
  | ITrack m h => fun K => m = n /\ ph = PFresh h /\ forall x, K x PUnknown
  | IPoll h => fun K => ph = PTracked h /\ forall x, K x (match x with Some err => PEnded h err | None => ph end)
  | IUntrack m => fun K => m = n /\ exists h err, ph = PEnded h err
      /\ forall x, K x (match err with None => PSeen | Some _ => PUnknown end)
  | IForget m => fun K => m = n /\ (ph = PUnknown \/ ph = PSeen) /\ forall x, K x ph
  | _ => fun K => forall x, K x ph
  end.

Fixpoint iwp {A} (n : string) (ph : iphase) (p : initP A) (Q : A -> iphase -> Prop) : Prop :=
  match p with
  | Done a => Q a ph
  | Do o k => iallows n ph o (fun x ph => iwp n ph (k x) Q)
  end.

Lemma iallows_mono n ph o (K K' : init_answer o -> iphase -> Prop) :
  (forall x ph, K x ph -> K' x ph) -> iallows n ph o K -> iallows n ph o K'.
Proof. destruct o; cbn; intros H; naive_solver. Qed.

Lemma iwp_mono {A} n ph (p : initP A) (Q Q' : A -> iphase -> Prop) :
  (forall a ph, Q a ph -> Q' a ph) -> iwp n ph p Q -> iwp n ph p Q'.
Proof.
  intros H. revert ph. induction p as [a|o k IH]; intros ph; cbn; [apply H|].
  apply iallows_mono. intros x ph'. apply IH.
Qed.

Lemma iwp_bind {A B} n ph (p : initP A) (f : A -> initP B) Q :
  iwp n ph p (fun a ph => iwp n ph (f a) Q) -> iwp n ph (prog_bind p f) Q.
Proof.
  revert ph. induction p as [a|o k IH]; intros ph; cbn; [done|]. apply iallows_mono. intros x ph'. apply IH.
Qed.

(** A program that asks nothing of the map, the queue or the status. *)
Definition aloof (o : init_action) : Prop :=
  match o with
  | IGet _ | IStatus _ | IInflight _ | IEnqueue _ _ | ITrack _ _ | IPoll _ | IUntrack _ | IForget _ => False
  | _ => True
  end.

Lemma iwp_aloof {A B} n ph (p : initP A) (f : A -> initP B) Q :
  only (I := initI) aloof p -> (forall a, iwp n ph (f a) Q) -> iwp n ph (prog_bind p f) Q.
Proof.
  intros Hp Hf. apply iwp_bind. induction p as [a|o k IH]; cbn; [apply Hf|]. destruct Hp as [Ho Hk].
  destruct o; try done; cbn; intros x; by apply IH.
Qed.

Definition settledPhase (ph : iphase) : Prop := match ph with PFresh _ => False | _ => True end.

Lemma persist_wp n ph repo after (Q : result requeue -> iphase -> Prop) :
  (is_Initialized (ir_Status repo) = true <-> ph = PSeen) -> ir_Name repo = n -> (forall r, Q r ph) -> iwp n ph (persist repo after) Q.
Proof. intros Hi Hn HQ. cbn. split_and!; [done..|]. intros [e|]; apply HQ. Qed.

Lemma initBinding_aloof repo : only (I := initI) aloof (initBinding OperatorNamespace repo).
Proof.
  unfold initBinding. cbv zeta. destruct (negb _ && negb _); [by apply only_bind; [by apply only_call|]|].
  destruct (br_Controller _) as [[kind owner]|]; [|done]. destruct (negb _); [done|]. by apply only_bind; [by apply only_call|].
Qed.

Lemma ensureRepositoryPassword_aloof repo b :
  only (I := initI) aloof (ensureRepositoryPassword OperatorNamespace NewAgeWrapper repo b).
Proof.
  unfold ensureRepositoryPassword, platformDEK. destruct (Namespaced b); [by apply only_bind; [by apply only_call|]|].
  apply only_bind; [by apply only_call|]. intros [kek|e]; [|done]. apply only_bind; [|done].
  apply only_bind; [by apply only_call|]. intros [identity|e]; [|done]. destruct (NewAgeWrapper identity); [done|].
  by apply only_bind; [by apply only_call|].
Qed.

(** The repository that a blocked password comes back with. *)
Lemma ensureRepositoryPassword_wp n ph repo b (Q : string + initRepository -> iphase -> Prop) :
  (forall password, Q (inl password) ph) -> (forall reason message, Q (inr (setInitBlocked repo reason message)) ph) ->
  iwp n ph (ensureRepositoryPassword OperatorNamespace NewAgeWrapper repo b) Q.
Proof.
  intros Hl Hr. unfold ensureRepositoryPassword, platformDEK. destruct (Namespaced b).
  - cbn. intros [password|e]; [apply Hl|apply Hr].
  - cbn. intros [kek|e]; [|apply Hr]. cbn. intros [identity|e]; [|apply Hr]. destruct (NewAgeWrapper identity); [apply Hr|].
    cbn. intros [dek|e]; [apply Hl|apply Hr].
Qed.

Ltac persisted := apply persist_wp; [cbn; first [done|congruence|intuition congruence]|done|done].

Lemma driveInit_wp n repo b st password :
  ir_Name repo = n -> is_Initialized (ir_Status repo) = false ->
  iwp n PUnknown (driveInit repo b st password) (fun _ ph => settledPhase ph).
Proof.
  intros Hn Hi. unfold driveInit. cbn [prog_bind iask call iwp iallows]. split_and!; [done..|].
  intros [h|]; cbn [prog_bind iask call iwp iallows].
  - split; [done|]. intros [err|]; [|persisted]. cbn [prog_bind iask call iwp iallows]. split; [done|]. exists h, err.
    split; [done|]. intros _. destruct err as [e|].
    + unfold initFailed. apply iwp_bind, persist_wp; [cbn; by rewrite Hi|done|]. intros [after|e']; [|done]. by cbn.
    + unfold initSucceeded. apply iwp_bind, persist_wp; [done..|]. intros [after|e']; [|done]. by cbn.
  - unfold admitInit. cbn [prog_bind iask call iwp iallows]. split_and!; [done..|]. intros [h|e]; [|persisted].
    cbn [prog_bind iask call iwp iallows]. split_and!; [done..|]. intros _. persisted.
Qed.

Lemma reconcileBound_wp n repo b st :
  ir_Name repo = n ->
  iwp n (readPhase (Ok repo)) (reconcileBound OperatorNamespace NewAgeWrapper repo b st) (fun _ ph => settledPhase ph).
Proof.
  intros Hn. unfold reconcileBound. apply iwp_bind. cbn [readPhase].
  apply ensureRepositoryPassword_wp.
  - intros password. cbn [is_Initialized set_ir_keySlots identify ir_Status set_ir_status].
    destruct (is_Initialized (ir_Status repo)) eqn:Hi; [persisted|]. by apply driveInit_wp.
  - intros reason message. apply persist_wp; [cbn; by destruct (is_Initialized _)|done|by destruct (is_Initialized _)].
Qed.

Lemma reconcileRepository_wp n : iwp n PUnknown (pass n) (fun _ ph => settledPhase ph).
Proof.
  unfold reconcileRepository. cbn [prog_bind iask call iwp iallows]. split_and!; [done..|].
  intros [repo|e] Hn; [|done]. pose proof (reconcileBound_wp n repo) as Hb. set (ph := readPhase (Ok repo)) in *.
  assert (is_Initialized (ir_Status repo) = true <-> ph = PSeen) as Hph by (unfold ph; cbn; by destruct (is_Initialized _)).
  assert (ph = PUnknown \/ ph = PSeen) as Hset by (unfold ph; cbn; destruct (is_Initialized _); auto).
  assert (settledPhase ph) as Hend by by destruct Hset as [-> | ->].
  destruct (ir_Deleting repo).
  { unfold finalizeRepository. destruct (negb _); [done|]. by cbn. }
  destruct (negb _); [by cbn|]. apply iwp_aloof; [apply initBinding_aloof|]. intros [[b st]|e].
  - destruct (lb_ClusterID b =? ""); [by apply persist_wp|by apply Hb].
  - destruct (IsNotFound e); [by apply persist_wp|done].
Qed.

(** ** The worker *)

Lemma waitForInitJob_aloof fuel job : only (I := initI) aloof (waitForInitJob OperatorNamespace fuel job).
Proof.
  induction fuel as [|fuel IH]; [done|]. cbn [waitForInitJob]. apply only_bind; [by apply only_call|]. intros [j|e]; [|done].
  destruct (initDone j); [done|]. destruct (initJobFailed j); [done|]. apply only_bind; [by apply only_call|]. by intros [e|].
Qed.

Lemma runInit_aloof fuel q : only (I := initI) aloof (runInit OperatorNamespace fuel q).
Proof.
  unfold runInit. cbv zeta. apply only_bind; [by apply only_call|]. intros [ak|e]; [|done].
  apply only_bind; [by apply only_call|]. intros [sk|e]; [|done]. apply only_bind; [by apply only_call|]. intros err.
  destruct (match err with Some _ => _ | None => _ end); [done|]. apply only_bind; [by apply only_call|]. intros err'.
  destruct (match err' with Some _ => _ | None => _ end); [done|]. apply waitForInitJob_aloof.
Qed.

(** The context is past its deadline from the [n]-th request on. *)
Definition initExpires (n : nat) (tr : list act) : Prop :=
  forall pre x post, tr = (pre ++ ev ISelect x :: post)%list -> n <= length pre -> x <> None.

Lemma waitForInitJob_ends fuel name n pre tr :
  runs (waitForInitJob OperatorNamespace fuel name) tr None -> initExpires n (pre ++ tr) -> n < fuel + length pre -> 1 <= fuel -> False.
Proof.
  revert pre tr. induction fuel as [|fuel IH]; intros pre tr H He Hn Hf; [lia|]. cbn [waitForInitJob] in H.
  apply runs_bind in H as (t1 & t2 & x & -> & H1%iask_runs & H). subst t1. destruct x as [j|e]; [|by destruct H].
  destruct (initDone j); [by destruct H|]. destruct (initJobFailed j); [by destruct H|].
  apply runs_bind in H as (t3 & t4 & x & -> & H3%iask_runs & H). subst t3. destruct x as [e|]; [by destruct H|].
  assert (length pre + 1 < n) as Hlt.
  { apply Nat.nle_gt. intros Hle. apply (He (pre ++ [ev (IGetJob name) (Ok j)])%list None t4); [by rewrite <-!app_assoc| |done].
    rewrite length_app. cbn. lia. }
  apply (IH (pre ++ [ev (IGetJob name) (Ok j); ev ISelect None])%list t4 H); [by rewrite <-app_assoc|rewrite length_app; cbn; lia|lia].
Qed.

(** An initialisation returns: with its context past the deadline from the [n]-th request
    on, [n] + 1 polls are enough. *)
Theorem runInit_returns fuel n q tr r :
  runs (runInit OperatorNamespace fuel q) tr r -> initExpires n tr -> n < fuel -> r <> None.
Proof.
  intros H He Hn ->. unfold runInit in H. cbv zeta in H.
  apply runs_bind in H as (t1 & t2 & x & -> & H1%iask_runs & H). subst t1. destruct x as [ak|e]; [|by destruct H].
  apply runs_bind in H as (t1 & t3 & x & -> & H1%iask_runs & H). subst t1. destruct x as [sk|e]; [|by destruct H].
  apply runs_bind in H as (t1 & t4 & e1 & -> & H1%iask_runs & H). subst t1. destruct (match e1 with Some _ => _ | None => _ end); [by destruct H|].
  apply runs_bind in H as (t1 & t5 & e2 & -> & H1%iask_runs & H). subst t1. destruct (match e2 with Some _ => _ | None => _ end); [by destruct H|].
  rewrite !app_assoc in He. eapply waitForInitJob_ends; [exact H|exact He|lia|lia].
Qed.

Lemma waitForInitJob_seen fuel job tr :
  runs (waitForInitJob OperatorNamespace fuel job) tr success ->
  exists pre j, tr = (pre ++ [ev (IGetJob job) (Ok j)])%list /\ initDone j = true.
Proof.
  revert tr. induction fuel as [|fuel IH]; intros tr; cbn [waitForInitJob]; [by intros [_ ?]|].
  intros (t1 & t2 & x & -> & H1%iask_runs & H)%runs_bind. subst t1. destruct x as [j|e]; [|by destruct H].
  destruct (initDone j) eqn:Hd; [destruct H as [-> _]; by exists [], j|]. destruct (initJobFailed j); [by destruct H|].
  apply runs_bind in H as (t3 & t4 & x & -> & H3%iask_runs & H). subst t3. destruct x; [by destruct H|].
  destruct (IH _ H) as (pre & j' & -> & Hd'). by exists (ev (IGetJob job) (Ok j) :: ev ISelect None :: pre), j'.
Qed.

(** A Create that went through, or found the object there. *)
Definition present (err : option gerr) : Prop := match err with None => True | Some e => IsAlreadyExists e = true end.

(** A successful operation read both credentials where the location keeps them, put the
    Secret and the Job of the repository in place or found them there, and saw that Job
    complete. *)
Lemma runInit_success fuel q tr :
  runs (runInit OperatorNamespace fuel q) tr success ->
  let name := initResourceName (ir_Name (iq_Owner q)) in
  exists ak sk e1 e2 pre job,
    tr = ([ev (ISecretValue (iq_CredsNamespace q) (iq_CredsSecret q) "AWS_ACCESS_KEY_ID") (Ok ak);
           ev (ISecretValue (iq_CredsNamespace q) (iq_CredsSecret q) "AWS_SECRET_ACCESS_KEY") (Ok sk);
           ev (ICreateSecret (mkListingSecret name initJobLabels (iq_Password q) ak sk (ir_Name (iq_Owner q)))) e1;
           ev (ICreateJob (initJob q)) e2] ++ pre ++ [ev (IGetJob name) (Ok job)])%list
    /\ present e1 /\ present e2 /\ initDone job = true.
Proof.
  cbv zeta. unfold runInit. cbv zeta. intros (t1 & t2 & x & -> & H1%iask_runs & H)%runs_bind. subst t1. destruct x as [ak|e]; [|by destruct H].
  apply runs_bind in H as (t1 & t3 & x & -> & H1%iask_runs & H). subst t1. destruct x as [sk|e]; [|by destruct H].
  apply runs_bind in H as (t1 & t4 & e1 & -> & H1%iask_runs & H). subst t1.
  assert (forall {A} (err : option gerr) (f : gerr -> initP A) (p : initP A) tr r, runs (match match err with Some e => if IsAlreadyExists e then None else Some e | None => None end with
    Some e => f e | None => p end) tr r -> (exists e, runs (f e) tr r) \/ present err /\ runs p tr r) as Hor.
  { intros A [e|] f p u r; [|by right]. cbn. destruct (IsAlreadyExists e); [by right|]. left. by exists e. }
  apply Hor in H as [(e & _ & ?)|[Hp1 H]]; [done|].
  apply runs_bind in H as (t1 & t5 & e2 & -> & H1%iask_runs & H). subst t1.
  apply Hor in H as [(e & _ & ?)|[Hp2 H]]; [done|].
  apply waitForInitJob_seen in H as (pre & j & -> & Hd). by exists ak, sk, e1, e2, pre, j.
Qed.

(** ** The invariant *)

Definition owns (n : string) (h : nat) (s : initSystem) : Prop := exists op, sy_ops s !! h = Some op /\ io_Repo op = n.

(** An operation that waits or runs, and that no [finalize] has let go. *)
Definition live (n : string) (h : nat) (s : initSystem) : Prop :=
  exists op, sy_ops s !! h = Some op /\ io_Repo op = n /\ ended op = false /\ h ∉ sy_dropped s.

Definition tracked (n : string) (s : initSystem) : Prop :=
  (forall h, live n h s -> sy_inflight s !! n = Some h) /\ (forall h, sy_inflight s !! n = Some h -> owns n h s).

Definition iconsistent (n : string) (ph : iphase) (s : initSystem) : Prop :=
  match ph with
  | PUnknown => tracked n s
  | PSeen => tracked n s /\ initSeen n (sy_log s)
  | PFree => tracked n s /\ sy_inflight s !! n = None
  | PFresh h => sy_inflight s !! n = None /\ owns n h s /\ forall h', live n h' s -> h' = h
  | PTracked h => tracked n s /\ sy_inflight s !! n = Some h
  | PEnded h err => tracked n s /\ sy_inflight s !! n = Some h
      /\ exists op, sy_ops s !! h = Some op /\ io_Repo op = n /\ io_State op = OpEnded err
  end.

Definition ifits (n : string) (ph : iphase) (s : initSystem) : Prop :=
  match sy_passes s !! n with
  | None => settledPhase ph
  | Some p => iwp n ph p (fun _ ph => settledPhase ph)
  end.

(** What is known of an operation: it works for its own repository, it leaves the map,
    the queue and the statuses alone, and it ends well only with its Job complete. *)
Definition soundOp (log : list act) (op : initOp) : Prop :=
  ir_Name (iq_Owner (io_Request op)) = io_Repo op /\
  match io_State op with
  | OpQueued | OpEnded (Some _) => True
  | OpRunning p => only (I := initI) aloof p /\ forall tr, runs p tr success -> jobSeen (io_Repo op) (rev tr ++ log)
  | OpEnded None => jobSeen (io_Repo op) log
  end.

(** Every status that was written saying "initialised" was written on evidence. *)
Fixpoint soundLog (log : list act) : Prop :=
  match log with
  | [] => True
  | e :: log =>
      match ev_action e with
      | IStatus repo => is_Initialized (ir_Status repo) = true -> initSeen (ir_Name repo) log
      | _ => True
      end /\ soundLog log
  end.

Definition iinv (s : initSystem) : Prop :=
  (forall n, exists ph, ifits n ph s /\ iconsistent n ph s)
  /\ (forall h op, sy_ops s !! h = Some op -> soundOp (sy_log s) op)
  /\ soundLog (sy_log s).

Lemma jobSeen_app n l log : jobSeen n log -> jobSeen n (l ++ log).
Proof. intros (job & H & Hd). exists job. split; [|done]. apply elem_of_app. by right. Qed.

Lemma initSeen_cons n e log : initSeen n log -> initSeen n (e :: log).
Proof.
  intros [H|(repo & H & Hi)]; [left; by apply (jobSeen_app n [e])|]. right. exists repo. split; [by right|done].
Qed.

Lemma soundOp_cons e log op : soundOp log op -> soundOp (e :: log) op.
Proof.
  intros [Hn H]. split; [done|]. destruct (io_State op) as [|p|[err|]]; [done| |done|by apply (jobSeen_app _ [e])].
  destruct H as [Ho H]. split; [done|]. intros tr Hr. destruct (H tr Hr) as (job & Hin & Hd). exists job. split; [|done].
  apply elem_of_app in Hin as [Hin|Hin]; apply elem_of_app; [by left|right; by right].
Qed.

(** A repository sees only its own entry of the map and its own operations. *)
Lemma iconsistent_same n ph s s' :
  sy_inflight s' !! n = sy_inflight s !! n ->
  (forall h, owns n h s -> owns n h s') -> (forall h, live n h s' -> live n h s) ->
  (forall h op err, sy_ops s !! h = Some op -> io_Repo op = n -> io_State op = OpEnded err ->
     exists op', sy_ops s' !! h = Some op' /\ io_Repo op' = n /\ io_State op' = OpEnded err) ->
  (initSeen n (sy_log s) -> initSeen n (sy_log s')) ->
  iconsistent n ph s -> iconsistent n ph s'.
Proof.
  intros Ef Ho Hl He Hs. assert (tracked n s -> tracked n s') as Ht.
  { intros [H1 H2]. split; intros h; rewrite Ef; [intros H%Hl; by apply H1|intros H; by apply Ho, H2]. }
  destruct ph as [| | |h|h|h err]; cbn; rewrite ?Ef; [naive_solver..|].
  intros (H & Hf & op & Hop & Hr & Hst). split_and!; [by apply Ht|done|by eapply He].
Qed.

Lemma iinv_start : iinv init_start.
Proof.
  split_and!; [|intros h op; cbn; by rewrite lookup_empty|done]. intros n. exists PUnknown.
  split; [unfold ifits; cbn; by rewrite lookup_empty|].
  split; [intros h (op & H & _); cbn in H; by rewrite lookup_empty in H|intros h; cbn; by rewrite lookup_empty].
Qed.

(** The parts of a state that a pass does not change for the repositories of others, and
    that only grow. *)
Lemma answers_foreign n m ph s o (x : init_answer o) f q d K :
  iallows n ph o K -> init_answers s o x f q d -> m <> n ->
  f !! m = sy_inflight s !! m /\ (forall h op, q !! h = Some op -> io_Repo op = m -> sy_ops s !! h = Some op).
Proof.
  intros Ha Hx Hm. destruct o; cbn in Ha, Hx; try (destruct_and?; by subst).
  - destruct Ha as (-> & _). destruct Hx as (-> & -> & _). by rewrite lookup_insert_ne.
  - destruct Ha as (-> & _). destruct Hx as (-> & -> & _). by rewrite lookup_delete_ne.
  - destruct Ha as (-> & _). destruct Hx as (-> & -> & _). by rewrite lookup_delete_ne.
  - destruct Ha as (-> & _). destruct Hx as (-> & _ & Hx). split; [done|]. destruct x as [h|e]; [|by subst].
    destruct Hx as [_ ->]. intros h' op. destruct (decide (h' = h)) as [->|Hh].
    + rewrite lookup_insert_eq. intros [= <-]. cbn. congruence.
    + by rewrite lookup_insert_ne.
Qed.

Lemma answers_grow s o (x : init_answer o) f q d :
  init_answers s o x f q d -> (forall h op, sy_ops s !! h = Some op -> q !! h = Some op) /\ sy_dropped s ⊆ d.
Proof.
  intros Hx. destruct o; cbn in Hx; try (destruct_and?; by subst).
  - destruct Hx as (_ & -> & ->). split; [done|]. case_match; set_solver.
  - destruct Hx as (_ & -> & Hx). split; [|done]. destruct x as [h|e]; [|by subst]. destruct Hx as [Hh ->].
    intros h' op H. rewrite lookup_insert_ne; congruence.
Qed.

Lemma live_back m s s' :
  (forall h op, sy_ops s' !! h = Some op -> io_Repo op = m -> sy_ops s !! h = Some op) -> sy_dropped s ⊆ sy_dropped s' ->
  forall h, live m h s' -> live m h s.
Proof. intros Hq Hd h (op & Hop & Hr & He & Hn). exists op. split_and!; [by apply Hq|done..|set_solver]. Qed.

Lemma poll_spec q h err : poll q h = Some err -> exists op, q !! h = Some op /\ io_State op = OpEnded err.
Proof. unfold poll. destruct (q !! h) as [[r i [|p|e]]|]; try done. intros [= ->]. eexists. by split. Qed.

(** A request of a pass, in the repository it is for. *)
Lemma request_own n ph s o (x : init_answer o) f q d passes K :
  iallows n ph o K -> init_answers s o x f q d -> iconsistent n ph s ->
  (forall h op, sy_ops s !! h = Some op -> soundOp (sy_log s) op) ->
  exists ph', K x ph' /\ iconsistent n ph' (mkInitSystem f q passes d (ev o x :: sy_log s)).
Proof.
  intros Ha Hx Hc Hops. set (s' := mkInitSystem f q passes d (ev o x :: sy_log s)).
  assert (initSeen n (sy_log s) -> initSeen n (sy_log s')) as Hlog by apply initSeen_cons.
  assert (f = sy_inflight s -> q = sy_ops s -> d = sy_dropped s -> forall ph, iconsistent n ph s -> iconsistent n ph s') as Hsame.
  { intros -> -> -> ph' H. eapply iconsistent_same; [..|exact Hlog|exact H]; [done..|]. eauto. }
  assert (f = sy_inflight s -> q = sy_ops s -> d = sy_dropped s -> K x ph -> exists ph', K x ph' /\ iconsistent n ph' s') as Hkeep by eauto.
  destruct o; cbn in Ha, Hx; try (destruct Hx as (Hf & Hq & Hd); by apply Hkeep, Ha).
  - destruct Ha as (-> & -> & Ha). destruct Hx as (Hf & Hq & Hd & Hname). exists (readPhase x). split; [by apply Ha|].
    pose proof (Hsame Hf Hq Hd _ Hc) as Ht. cbn [readPhase]. destruct x as [repo|e]; [|done]. cbn [readPhase].
    destruct (is_Initialized (ir_Status repo)) eqn:Hi; [|done]. split; [done|]. right. exists repo. split; [left|done].
  - destruct Ha as (-> & -> & Ha). destruct Hx as (Hx & Hf & Hq & Hd). eexists. split; [apply Ha|].
    destruct x as [h|]; apply Hsame; done.
  - destruct Ha as (-> & -> & Ha). destruct Hx as (Hf & Hq & Hd). exists PUnknown. split; [apply Ha|].
    destruct Hc as (Hnone & Hown & Honly). split.
    + intros h' Hl. cbn. rewrite Hf, lookup_insert_eq. f_equal. symmetry. apply Honly. revert Hl. apply live_back; cbn; by subst.
    + intros h'. cbn. rewrite Hf, lookup_insert_eq. intros [= <-]. unfold owns. cbn. by rewrite Hq.
  - destruct Ha as (-> & h & err & -> & Ha). destruct Hx as (Hf & Hq & Hd). eexists. split; [apply Ha|].
    destruct Hc as ([Hl Ho] & Hin & op & Hop & Hr & He).
    assert (tracked n s') as Ht.
    { split.
      - intros h' Hl'. assert (live n h' s) as Hl0 by (revert Hl'; apply live_back; cbn; by subst). apply Hl in Hl0.
        assert (h' = h) as -> by congruence. destruct Hl' as (op' & Hop' & _ & He' & _). cbn in Hop'. rewrite Hq, Hop in Hop'.
        injection Hop' as <-. unfold ended in He'. by rewrite He in He'.
      - intros h'. cbn. by rewrite Hf, lookup_delete_eq. }
    destruct err as [e|]; [done|]. split; [done|]. left. apply (jobSeen_app _ [_]). destruct (Hops _ _ Hop) as [_ Hs].
    rewrite He, Hr in Hs. done.
  - destruct Ha as (-> & Hset & Ha). destruct Hx as (Hf & Hq & Hd). exists ph. split; [apply Ha|].
    assert (tracked n s) as [Hl Ho] by (destruct Hset as [-> | ->]; [done|by destruct Hc]).
    assert (tracked n s') as Ht.
    { split.
      - intros h' Hl'. assert (live n h' s) as Hl0 by (revert Hl'; apply live_back; cbn; [by subst|rewrite Hd; case_match; set_solver]).
        apply Hl in Hl0. destruct Hl' as (_ & _ & _ & _ & Hn). cbn in Hn. rewrite Hd, Hl0 in Hn. set_solver.
      - intros h'. cbn. by rewrite Hf, lookup_delete_eq. }
    destruct Hset as [-> | ->]; [done|]. split; [done|]. apply Hlog. by destruct Hc.
  - destruct Ha as (-> & _ & -> & Ha). destruct Hx as (Hf & Hd & Hx). eexists. split; [apply Ha|].
    destruct x as [h|e]; [|by apply Hsame]. destruct Hx as [Hfresh Hq]. destruct Hc as [[Hl Ho] Hnone]. split_and!.
    + cbn. by rewrite Hf.
    + eexists. cbn. rewrite Hq, lookup_insert_eq. by split.
    + intros h' (op & Hop & Hr & He & Hnd). destruct (decide (h' = h)) as [|Hne]; [done|]. cbn in Hop.
      rewrite Hq, lookup_insert_ne in Hop by done. assert (live n h' s) as H%Hl by (exists op; cbn in Hnd; by subst). congruence.
  - destruct Ha as (-> & Ha). destruct Hx as (Hx & Hf & Hq & Hd). destruct x as [err|]; [|apply Hkeep; [done..|exact (Ha None)]].
    exists (PEnded h err). split; [apply Ha|]. pose proof (Hsame Hf Hq Hd (PTracked h) Hc) as [Ht Hin]. split_and!; [done..|].
    symmetry in Hx. apply poll_spec in Hx as (op & Hop & He). exists op. cbn. rewrite Hq. split_and!; [done| |done].
    destruct Hc as [[_ Ho] Hc]. destruct (Ho _ Hc) as (op' & Hop' & Hr). congruence.
Qed.

Lemma init_request_inv s name (o : init_action) k (x : init_answer o) f q d :
  sy_passes s !! name = Some (Do (I := initI) o k) -> init_answers s o x f q d -> iinv s ->
  iinv (mkInitSystem f q (<[name := k x]> (sy_passes s)) d (ev o x :: sy_log s)).
Proof.
  intros Hp Hx (Hn & Hops & Hlog). destruct (Hn name) as (ph & Hf & Hc). unfold ifits in Hf. rewrite Hp in Hf. cbn in Hf.
  destruct (answers_grow _ _ _ _ _ _ Hx) as [Hgrow Hdrop]. split_and!.
  - intros m. destruct (decide (m = name)) as [->|Hm].
    + edestruct (request_own name ph s o x f q d (<[name := k x]> (sy_passes s))) as (ph' & HK & Hc'); [done..|].
      exists ph'. split; [|done]. unfold ifits. cbn. rewrite lookup_insert_eq. exact HK.
    + destruct (Hn m) as (phm & Hfm & Hcm). exists phm. split; [unfold ifits in *; cbn; by rewrite lookup_insert_ne|].
      destruct (answers_foreign _ _ _ _ _ _ _ _ _ _ Hf Hx Hm) as [Ef Hback]. eapply iconsistent_same; [exact Ef|..|exact Hcm].
      * intros h (op & Hop & Hr). exists op. split; [by apply Hgrow|done].
      * by apply live_back.
      * intros h op err Hop Hr He. exists op. split_and!; [by apply Hgrow|done..].
      * apply initSeen_cons.
  - intros h op Hop. apply soundOp_cons. destruct (sy_ops s !! h) as [op0|] eqn:Eo.
    + pose proof (Hgrow _ _ Eo) as E. cbn in Hop. rewrite E in Hop. injection Hop as <-. by eapply Hops.
    + destruct o; cbn in Hf, Hx, Hop; try (exfalso; destruct_and?; subst; congruence).
      destruct Hf as (-> & Hown & _). destruct Hx as (_ & _ & Hx). destruct x as [h'|e]; [|exfalso; congruence].
      destruct Hx as [_ ->]. destruct (decide (h = h')) as [->|Hne]; [|rewrite lookup_insert_ne in Hop; congruence].
      rewrite lookup_insert_eq in Hop. injection Hop as <-. by split.
  - split; [|done]. destruct o; try done. cbn in Hf |- *. destruct Hf as (Hph & Hname & _). intros Hi. apply Hph in Hi. subst ph.
    destruct Hc as [_ Hc]. by rewrite Hname.
Qed.

Lemma set_op_inv s h op st :
  sy_ops s !! h = Some op -> ended op = false -> soundOp (sy_log s) (mkInitOp (io_Repo op) (io_Request op) st) -> iinv s ->
  iinv (set_op h op st s).
Proof.
  intros Hop He Hs (Hn & Hops & Hlog). split_and!; [| |done].
  - intros n. destruct (Hn n) as (ph & Hf & Hc). exists ph. split; [exact Hf|]. apply (iconsistent_same n ph s); [done|..|exact Hc]; cbn.
    + intros h' (op' & Hop' & Hr). unfold owns. cbn. destruct (decide (h' = h)) as [->|Hne].
      * rewrite lookup_insert_eq. eexists. split; [done|]. cbn. congruence.
      * rewrite lookup_insert_ne by done. by exists op'.
    + intros h' (op' & Hop' & Hr & He' & Hd). cbn in *. destruct (decide (h' = h)) as [->|Hne].
      * rewrite lookup_insert_eq in Hop'. injection Hop' as <-. by exists op.
      * rewrite lookup_insert_ne in Hop' by done. by exists op'.
    + intros h' op' err Hop' Hr He'. assert (h' <> h).
      { intros ->. rewrite Hop in Hop'. injection Hop' as ->. unfold ended in He. by rewrite He' in He. }
      exists op'. by rewrite lookup_insert_ne.
    + done.
  - intros h' op'. cbn. destruct (decide (h' = h)) as [->|Hne].
    + rewrite lookup_insert_eq. by intros [= <-].
    + rewrite lookup_insert_ne by done. apply Hops.
Qed.

Lemma logged_inv (e : act) (s : initSystem) : aloof (ev_action e) -> iinv s -> iinv (logged e s).
Proof.
  intros Ha (Hn & Hops & Hlog). split_and!.
  - intros n. destruct (Hn n) as (ph & Hf & Hc). exists ph. split; [exact Hf|].
    apply (iconsistent_same n ph s); [..|exact Hc]; cbn; [done..| |apply initSeen_cons]. eauto.
  - intros h op Hop. apply soundOp_cons. by eapply Hops.
  - split; [|done]. by destruct (ev_action e).
Qed.

Lemma istep_inv s s' : istep s s' -> iinv s -> iinv s'.
Proof.
  intros Hs Hi. destruct Hs as [s name Hp|s name o k x f q d Hp Hx|s name r Hp|s h op fuel Hop Hst _|s h op e Hop Hst|s h op o k x Hop Hst|s h op err Hop Hst|s].
  - destruct Hi as (Hn & Hops & Hlog). split_and!; [|done..]. intros m. destruct (Hn m) as (ph & Hf & Hc).
    destruct (decide (m = name)) as [->|Hm].
    + unfold ifits in Hf. rewrite Hp in Hf. exists PUnknown.
      split; [unfold ifits; cbn; rewrite lookup_insert_eq; apply reconcileRepository_wp|].
      destruct ph; cbn in *; naive_solver.
    + exists ph. split; [|exact Hc]. unfold ifits in *. cbn. by rewrite lookup_insert_ne.
  - by apply init_request_inv.
  - destruct Hi as (Hn & Hops & Hlog). split_and!; [|done..]. intros m. destruct (Hn m) as (ph & Hf & Hc). exists ph. split; [|exact Hc].
    unfold ifits in *. cbn. destruct (decide (m = name)) as [->|Hm]; [rewrite lookup_delete_eq; by rewrite Hp in Hf|by rewrite lookup_delete_ne].
  - destruct Hi as (Hn & Hops & Hlog). apply set_op_inv; [done|unfold ended; by rewrite Hst| |done].
    destruct (Hops _ _ Hop) as [Hname _]. split; [done|]. split; [apply runInit_aloof|].
    intros tr Hr. apply runInit_success in Hr as (ak & sk & e1 & e2 & pre & job & -> & _ & _ & Hd). cbn [io_Repo]. exists job. split; [|done].
    cbn in Hname. rewrite Hname. apply elem_of_app. left. apply list_elem_of_In, in_rev. rewrite rev_involutive. apply list_elem_of_In. set_solver.
  - destruct Hi as (Hn & Hops & Hlog). apply set_op_inv; [done|unfold ended; by rewrite Hst| |done].
    by destruct (Hops _ _ Hop).
  - assert (iinv s) as (_ & Hops & _) by done. destruct (Hops _ _ Hop) as [Hname Hr]. rewrite Hst in Hr. destruct Hr as [[Ho Hk] Hr].
    change (iinv (set_op h op (OpRunning (k x)) (logged (ev o x) s))).
    apply set_op_inv; [done|unfold ended; by rewrite Hst| |by apply logged_inv].
    split; [done|]. split; [apply Hk|]. intros tr Htr. cbn.
    destruct (Hr (ev o x :: tr)) as (job & Hin & Hd); [by exists x, tr|]. exists job. split; [|done].
    cbn [rev] in Hin. by rewrite <-app_assoc in Hin.
  - destruct Hi as (Hn & Hops & Hlog). apply set_op_inv; [done|unfold ended; by rewrite Hst| |done].
    destruct (Hops _ _ Hop) as [Hname Hr]. rewrite Hst in Hr. split; [done|]. cbn. destruct err as [e|]; [done|].
    destruct Hr as [_ Hr]. exact (Hr [] (conj eq_refl eq_refl)).
  - destruct Hi as (_ & _ & Hlog). split_and!; [|intros h op; cbn; by rewrite lookup_empty|done]. intros n. exists PUnknown.
    split; [unfold ifits; cbn; by rewrite lookup_empty|].
    split; [intros h (op & H & _); cbn in H; by rewrite lookup_empty in H|intros h; cbn; by rewrite lookup_empty].
Qed.

Lemma init_reachable_inv s : init_reachable OperatorNamespace NewAgeWrapper s -> iinv s.
Proof. revert s. apply (rtc_ind_r iinv init_start); [apply iinv_start|]. intros s s2 _ Hs Hi. by eapply istep_inv. Qed.

Lemma soundLog_at log post repo x pre :
  soundLog log -> log = (post ++ ev (IStatus repo) x :: pre)%list -> is_Initialized (ir_Status repo) = true -> initSeen (ir_Name repo) pre.
Proof.
  revert log. induction post as [|e post IH]; intros log Hs ->; cbn in Hs; [by destruct Hs|]. destruct Hs as [_ Hs]. by eapply IH.
Qed.

(** ** Theorems *)

(** C13. Whatever the passes, the workers, the shutdown of the queue and restarts do between
    each other's requests: a status that says a repository is initialised is written
    only after its init Job was read as complete, or over a status that said so. *)
Theorem initialized_on_evidence (s : initSystem) post repo x pre :
  init_reachable OperatorNamespace NewAgeWrapper s ->
  sy_log s = (post ++ ev (IStatus repo) x :: pre)%list -> is_Initialized (ir_Status repo) = true ->
  (exists job, ev (IGetJob (initResourceName (ir_Name repo))) (Ok job) ∈ pre /\ initDone job = true)
  \/ (exists read, ev (IGet (ir_Name repo)) (Ok read) ∈ pre /\ is_Initialized (ir_Status read) = true).
Proof. intros (_ & _ & Hl)%init_reachable_inv E Hi. exact (soundLog_at _ _ _ _ _ Hl E Hi). Qed.

(** C14. In the same interleavings a repository has at most one initialisation that waits or
    runs, except for those that a [finalize] has let go, and the map still knows it
    unless the pass that queued it has yet to write it down. *)
Theorem one_initialization_queued (s : initSystem) :
  init_reachable OperatorNamespace NewAgeWrapper s ->
  forall n h1 h2, live n h1 s -> live n h2 s ->
    h1 = h2 /\ (sy_inflight s !! n = Some h1 \/ sy_inflight s !! n = None /\ sy_passes s !! n <> None).
Proof.
  intros (Hn & _ & _)%init_reachable_inv n h1 h2 H1 H2. destruct (Hn n) as (ph & Hf & Hc).
  assert (tracked n s \/ exists h, ph = PFresh h) as [[Ht _]|(h & ->)] by (destruct ph; cbn in Hc; naive_solver).
  - apply Ht in H1, H2. split; [congruence|by left].
  - destruct Hc as (Hnone & _ & Honly). split; [by rewrite (Honly _ H1), (Honly _ H2)|]. right. split; [done|].
    unfold ifits in Hf. intros E. by rewrite E in Hf.
Qed.
End Proofs.

(** ** Witnesses *)

#[local] Existing Instance MapConditionStore.
#[local] Notation ev o x := (Ev (I := initI) o x).

Definition wit_ilocation : BackupLocation :=
  mkBackupLocation "team" "offsite" 1 false [FinalizerLocation] "h:9000" "creds" false "prod" None (mkRetention 0 0 0 0 0 0) "prod" "" "" ∅.
Definition wit_istorage : storage := mkStorage "h:9000" "b" "" (Some 4%Z) "Standard".
Definition wit_irepo (initialized : bool) : initRepository :=
  mkInitRepository "team--offsite" (repositoryBackLinkLabels "team" "offsite") None 1 false [FinalizerRepository]
    (mkInitStatus initialized ("", "") "" "" "" "" [] ∅).
Definition wit_ijob (succeeded failed : Z) : Job := mkJob "team--offsite-init" ∅ 0 None succeeded failed [].

Notation wit_istep := (init_step "ops" (fun _ => None)).
Notation wit_pass := (reconcileRepository "ops" (fun _ => None)).

(** The next request of a pass, and of a worker. *)
Lemma istep_ask s name (p : prog initI (result (option Z))) :
  sy_passes s !! name = Some p ->
  match p with
  | Do o k => forall x f q d, init_answers s o x f q d ->
      wit_istep s (mkInitSystem f q (<[name := k x]> (sy_passes s)) d (ev o x :: sy_log s))
  | Done _ => wit_istep s (mkInitSystem (sy_inflight s) (sy_ops s) (base.delete name (sy_passes s)) (sy_dropped s) (sy_log s))
  end.
Proof. intros H. destruct p as [|o k]; [by eapply istep_end|]. intros x f q d Hx. by apply istep_request. Qed.

Ltac asks x :=
  eapply rtc_l;
  [ lazymatch goal with |- init_step _ _ ?s _ =>
      let H := fresh in pose proof (istep_ask s "team--offsite" _ (lookup_insert_eq _ _ _)) as H; cbn in H;
      eapply (H x); cbn; repeat split; reflexivity end
  | cbn ].

(** A repository that a pass queues the initialisation of. *)
Lemma wit_init_queued :
  exists s, init_reachable "ops" (fun _ => None) s /\ live "team--offsite" 0 s /\ sy_inflight s !! "team--offsite" = Some 0.
Proof.
  eexists. split.
  - unfold init_reachable. eapply rtc_l; [apply (istep_begin _ _ _ "team--offsite"); reflexivity|]. cbn.
    asks (Ok (wit_irepo false)). asks (Ok (wit_ilocation, wit_istorage)). asks (Ok "key"). asks (@None nat). asks (Ok 0). asks tt.
    apply rtc_refl.
  - split; [|reflexivity]. eexists. cbn. split; [reflexivity|]. split_and!; [done..|set_solver].
Qed.

Lemma one_initialization_queued_witness :
  exists s, live "team--offsite" 0 s /\ init_reachable "ops" (fun _ => None) s
    /\ (sy_inflight s !! "team--offsite" = Some 0 \/ sy_inflight s !! "team--offsite" = None /\ sy_passes s !! "team--offsite" <> None).
Proof.
  destruct wit_init_queued as (s & Hs & Hl & _). exists s. split; [exact Hl|]. split; [exact Hs|].
  exact (proj2 (one_initialization_queued "ops" (fun _ => None) s Hs "team--offsite" 0 0 Hl Hl)).
Defined.

(** The next request of the worker of the first operation. *)
Lemma istep_worker s op (p : prog initI outcome) :
  sy_ops s !! 0 = Some op -> io_State op = OpRunning p ->
  match p with
  | Do o k => forall x, wit_istep s (logged (ev o x) (set_op 0 op (OpRunning (k x)) s))
  | Done (Some err) => wit_istep s (set_op 0 op (OpEnded err) s)
  | Done None => True
  end.
Proof. intros H Hs. destruct p as [[err|]|o k]; [by eapply istep_resolve|done|]. intros x. by eapply istep_work. Qed.

Ltac works x :=
  eapply rtc_l;
  [ lazymatch goal with |- init_step _ _ ?s _ =>
      let H := fresh in pose proof (istep_worker s _ _ (lookup_insert_eq _ _ _) eq_refl) as H; cbn in H; exact (H x) end
  | cbn ].
Ltac ends name := eapply rtc_l; [eapply (istep_end _ _ _ name); apply lookup_insert_eq|cbn].

Lemma wit_initialized :
  exists s repo x pre, init_reachable "ops" (fun _ => None) s /\ sy_log s = ([] ++ ev (IStatus repo) x :: pre)%list
    /\ is_Initialized (ir_Status repo) = true /\ ir_Name repo = "team--offsite"
    /\ forallb (fun e : event initI => match ev_action e as o return init_answer o -> bool with
                                       | IGet _ => fun r => match r with Ok read => negb (is_Initialized (ir_Status read)) | Err _ => true end
                                       | _ => fun _ => true end (ev_answer e)) pre = true.
Proof.
  eexists _, _, _, _. split.
  - unfold init_reachable. eapply rtc_l; [apply (istep_begin _ _ _ "team--offsite"); reflexivity|]. cbn.
    asks (Ok (wit_irepo false)). asks (Ok (wit_ilocation, wit_istorage)). asks (Ok "key"). asks (@None nat). asks (Ok 0). asks tt.
    asks (@None gerr). ends "team--offsite".
    eapply rtc_l; [eapply (istep_start _ _ _ 0 _ 3); [apply lookup_insert_eq|reflexivity|]|].
    { intros h' op' p. cbn. rewrite lookup_insert_Some, lookup_empty. by intros [[_ <-]|[_ ?]]. }
    cbn. unfold runInit, set_op. cbn.
    works (Ok "AKIA"). works (Ok "wJal"). works (@None gerr). works (@None gerr). works (Ok (wit_ijob 1 0)).
    eapply rtc_l; [eapply istep_resolve; [apply lookup_insert_eq|reflexivity]|]. cbn.
    eapply rtc_l; [apply (istep_begin _ _ _ "team--offsite"); reflexivity|]. cbn.
    asks (Ok (wit_irepo false)). asks (Ok (wit_ilocation, wit_istorage)). asks (Ok "key"). asks (Some 0). asks (Some (@None gerr)).
    asks tt. asks (@None gerr). apply rtc_refl.
  - split; [reflexivity|]. split; [reflexivity|]. split; [reflexivity|]. vm_compute. reflexivity.
Qed.

Lemma initialized_on_evidence_witness :
  exists s repo x pre, sy_log s = ([] ++ ev (IStatus repo) x :: pre)%list /\ ir_Name repo = "team--offsite"
    /\ init_reachable "ops" (fun _ => None) s
    /\ exists job, ev (IGetJob "team--offsite-init") (Ok job) ∈ pre /\ initDone job = true.
Proof.
  destruct wit_initialized as (s & repo & x & pre & Hs & E & Hi & Hn & Hf). exists s, repo, x, pre.
  split; [exact E|]. split; [exact Hn|]. split; [exact Hs|].
  destruct (initialized_on_evidence "ops" (fun _ => None) s [] repo x pre Hs E Hi) as [H|(read & Hr & Hir)].
  - rewrite Hn in H. exact H.
  - exfalso. rewrite forallb_forall in Hf. apply list_elem_of_In in Hr. specialize (Hf _ Hr). cbn in Hf. rewrite Hir in Hf. discriminate.
Defined.

(** ** What a failure leaves behind *)

Definition wit_irequest : initRequest := mkInitRequest (wit_irepo false) "s3:h:9000/b/prod" "key" "creds" (Some 4%Z) "team".

(** A cluster with credentials to read; the Secret may be in the way, and the Job not yet
    visible. *)
Definition wit_iserver (secretThere visible : bool) : server (@initI MapConditionStore) :=
  fun _ o =>
    match o return init_answer o with
    | IGet _ => Ok (wit_irepo false)
    | IGetLocation _ _ => Ok (wit_ilocation, wit_istorage)
    | IGetClusterLocation _ => Err (mkErr ENotFound "")
    | IGetKEKRef _ | IUserPassword _ _ _ | IEnsureDEK _ _ => Ok "key"
    | ISecretValue _ _ _ => Ok "rotated"
    | IInflight _ => Some 0
    | ITrack _ _ | IUntrack _ | IForget _ | IEvent _ => tt
    | IEnqueue _ _ => Ok 0
    | IPoll _ => Some (Some (errorf "failed"))
    | IGetJob _ => if visible then Ok (wit_ijob 1 0) else Err (mkErr ENotFound "not in the cache")
    | ICreateSecret _ => if secretThere then Some (mkErr EAlreadyExists "exists") else None
    | ISelect => None
    | IUpdate _ | IStatus _ | ICreateJob _ | IDeleteJob _ _ | IDeleteSecret _ => None
    end.

Definition deletionsIn (tr : list (event (@initI MapConditionStore))) : list init_action :=
  List.filter (fun o => match o with IDeleteJob _ _ | IDeleteSecret _ => true | _ => false end) (map (fun e => ev_action e) tr).

(** A failed initialisation gives up its Job and keeps its Secret: the next one finds that
    Secret in the way and goes on with it, whatever the credentials are by then. *)
Example rotated_credentials_never_reach_init :
  deletionsIn (fst (exec (wit_iserver true true) (wit_pass "team--offsite") [])) = [IDeleteJob "team--offsite-init" Foreground]
  /\ snd (exec (wit_iserver true true) (runInit "ops" 3 wit_irequest) []) = success.
Proof. split; vm_compute; reflexivity. Qed.

(** A Job that the cache has not seen yet fails the operation that created it, and the
    pass that records the failure deletes it while it runs. *)
Example unseen_job_is_a_failure :
  (exists e, snd (exec (wit_iserver false false) (runInit "ops" 3 wit_irequest) []) = failure e /\ IsNotFound e = true)
  /\ deletionsIn (fst (exec (wit_iserver false false) (wit_pass "team--offsite") [])) = [IDeleteJob "team--offsite-init" Foreground].
Proof. split; [eexists; split; vm_compute; reflexivity|vm_compute; reflexivity]. Qed.
