(* ===== verification/ClusterLocation.v ===== *)
(** * ClusterLocation: the controller of ClusterBackupLocations and the escrow of their keys
    (internal/controller: clusterbackuplocation_controller.go,
    clusterbackuplocation_escrow.go; internal/escrow/escrow.go)

    A pass checks a location, mirrors its wrapped key to the bucket or recovers it from
    there, provisions its repository and says whether it is ready.  The calls of
    [Keys] it makes are embedded: its interface is theirs next to its own. *)

From Stdlib Require Import Ascii String.
From S2P Require Import Prelude GoText Cluster Selectors Names Status VolumeMachine Restic.
From S2P Require Import Backup.
From S2P Require Import Location.
From S2P Require Import DiscoveryLister.
From S2P Require Import Keys.
From S2P Require Import RepositoryInit.
From S2P Require Import Program.

#[local] Open Scope string_scope.
#[local] Notation length := List.length.

Definition ConditionMultipleDefaults : string := "MultipleDefaults".
Definition ConditionRetentionIgnored : string := "RetentionIgnored".
Definition ConditionDEKEscrowed : string := "DEKEscrowed".
Definition reasonKEKUnavailable : string := "KEKUnavailable".
Definition reasonKEKInvalid : string := "KEKInvalid".
Definition metaSegment : string := ".crystal-meta".
Definition objectSuffix : string := "wrapped-dek.age".
Definition maxObjectSize : nat := 64 * 1024.

Definition ObjectKey (prefix clusterID : string) : string :=
  let p := TrimByte "/" prefix in
  String.concat "/" ((if p =? "" then [] else [p]) ++ [(clusterID ++ metaSegment)%string; objectSuffix])%list.

Section Controller.
Context `{CS : ConditionStore}.

(** ** Objects *)

Record clusterLocation := mkClusterLocation {
  kl_Name : string;
  kl_Generation : Z;
  kl_Deleting : bool;
  kl_Finalizers : list string;
  kl_Default : bool;
  kl_Immutable : bool;
  kl_Retention : RetentionSpec;
  kl_KEKSecret : string;
  kl_CredsSecret : string;
  kl_Endpoint : string;
  kl_Prefix : string;
  kl_ClusterID : string;
  kl_RepositoryRef : string;              (* status *)
  kl_Phase : string;
  kl_Conditions : conditions
}.

Definition set_kl_status (ref phase : string) (cs : conditions) (l : clusterLocation) : clusterLocation :=
  mkClusterLocation (kl_Name l) (kl_Generation l) (kl_Deleting l) (kl_Finalizers l) (kl_Default l) (kl_Immutable l) (kl_Retention l)
    (kl_KEKSecret l) (kl_CredsSecret l) (kl_Endpoint l) (kl_Prefix l) (kl_ClusterID l) ref phase cs.
Definition set_kl_finalizers (fs : list string) (l : clusterLocation) : clusterLocation :=
  mkClusterLocation (kl_Name l) (kl_Generation l) (kl_Deleting l) fs (kl_Default l) (kl_Immutable l) (kl_Retention l)
    (kl_KEKSecret l) (kl_CredsSecret l) (kl_Endpoint l) (kl_Prefix l) (kl_ClusterID l) (kl_RepositoryRef l) (kl_Phase l) (kl_Conditions l).
Definition set_kl_condition (condType st reason message : string) (l : clusterLocation) : clusterLocation :=
  set_kl_status (kl_RepositoryRef l) (kl_Phase l) (SetCondition (kl_Conditions l) condType st reason message (kl_Generation l)) l.
Definition set_kl_phase (p : string) (l : clusterLocation) : clusterLocation := set_kl_status (kl_RepositoryRef l) p (kl_Conditions l) l.
Definition set_kl_ref (ref : string) (l : clusterLocation) : clusterLocation := set_kl_status ref (kl_Phase l) (kl_Conditions l) l.

(** ** Requests *)

Inductive loc_action :=
| KLGet (name : string)
| KLUpdate (l : clusterLocation)                (* Update, of the finalizers *)
| KLStatus (l : clusterLocation)                (* Status().Update *)
| KLList                                        (* the locations: name and spec.default *)
| KLSecretValue (ns name dataKey : string)
| KLReachable (endpoint : string)               (* Prober.Reachable *)
| KLCreateRepo (name owner : string)
| KLGetRepo (name : string)                     (* its status.initialized *)
| KLEvent (reason : string)
| KLStore (accessKey secretKey : string)        (* the EscrowFactory *)
| KLStat (key : string)                         (* StatObject; ENotFound for NoSuchKey *)
| KLGetObject (key : string)                    (* GetObject, of which one byte more than the limit is read *)
| KLPutObject (key data : string).

Definition loc_answer (o : loc_action) : Type :=
  match o with
  | KLGet _ => result clusterLocation
  | KLList => result (list (string * bool))
  | KLSecretValue _ _ _ | KLGetObject _ => result string
  | KLGetRepo _ => result bool
  | KLEvent _ => unit
  | KLUpdate _ | KLStatus _ | KLReachable _ | KLCreateRepo _ _ | KLStore _ _ | KLStat _ | KLPutObject _ _ => option gerr
  end.

Definition locI : interface := mkInterface loc_action loc_answer.
Notation allI := (sumI keyI locI).
Notation locP := (prog allI).
Definition kreq (o : loc_action) : locP (loc_answer o) := callR (I := keyI) (J := locI) o.

Variable OperatorNamespace : string.
(** Whether the escrow is wired. *)
Variable hasEscrow : bool.
(** [keys.NewAgeWrapper], and the Unwrap of the Wrapper it makes of an identity. *)
Variable NewAgeWrapper : string -> option gerr.
Variable Unwrap : string -> string -> result string.

Notation requeue := (option Z).

(** ** The escrow's objects *)

Definition Fetch (prefix clusterID : string) : locP (result (option string)) :=
  let key := ObjectKey prefix clusterID in
  let! err := kreq (KLStat key) in
  match err with
  | Some e => Done (if IsNotFound e then Ok None else Err (wrap_err ("escrow: stat " ++ key) e))
  | None =>
      let! data := kreq (KLGetObject key) in
      Done (match data with
            | Err e => Err (wrap_err ("escrow: get " ++ key) e)
            | Ok data =>
                if (String.length data =? 0)%nat || (maxObjectSize <? String.length data)%nat
                then Err (errorf ("escrow: object " ++ key ++ " has implausible size for a wrapped DEK"))
                else Ok (Some data)
            end)
  end.

Definition Put (prefix clusterID wrapped : string) : locP (option gerr) :=
  let key := ObjectKey prefix clusterID in
  let! err := kreq (KLPutObject key wrapped) in
  Done (option_map (wrap_err ("escrow: put " ++ key)) err).

(** ** The escrow of the key *)

Definition setEscrowed (l : clusterLocation) (st reason message : string) : clusterLocation :=
  set_kl_condition ConditionDEKEscrowed st reason message l.

(** Whether the repository must wait, and the location with its condition. *)
Notation verdict := (bool * clusterLocation)%type.
Definition block (l : clusterLocation) (reason message : string) : verdict := (true, setEscrowed l ConditionFalse reason message).

Record escrowConflict := mkEscrowConflict { ec_Reason : string; ec_Message : string; ec_Event : string }.

(** The bucket holds other bytes than the cluster: [None] when both are one key. *)
Definition conflictOf (identity escrowed wrapped : string) : option escrowConflict :=
  match Unwrap identity escrowed, Unwrap identity wrapped with
  | Err _, _ =>
      Some (mkEscrowConflict "EscrowUnreadableUnderKEK"
              ("the bucket escrow object does not decrypt under this cluster's KEK — the KEK may not be "
                 ++ "the one that wrapped it; refusing to overwrite (03-security §4)") "DEKEscrowUnreadableUnderKEK")
  | Ok _, Err _ =>
      Some (mkEscrowConflict "ClusterDEKUnreadableUnderKEK"
              ("the in-cluster wrapped DEK does not decrypt under this cluster's KEK, so it cannot be "
                 ++ "compared with the bucket escrow; the bucket copy is left untouched") "DEKClusterUnreadableUnderKEK")
  | Ok bucketPlain, Ok clusterPlain =>
      if bucketPlain =? clusterPlain then None
      else Some (mkEscrowConflict "EscrowConflict"
                   ("the bucket escrow holds a DIFFERENT wrapped DEK than the cluster; refusing to overwrite — "
                      ++ "resolve manually (03-security §4)") "DEKEscrowConflict")
  end.

(** [bytes.Equal] of what was found and the Secret's. *)
Definition mirrors (found : option string) (wrapped : string) : bool :=
  match found with Some escrowed => escrowed =? wrapped | None => false end.

Definition mirrorDEK (l : clusterLocation) (wrapped : string) (found : option string) : locP verdict :=
  let mirrored := (false, setEscrowed l ConditionTrue "Escrowed" "the bucket escrow mirrors the wrapped DEK") in
  if mirrors found wrapped then Done mirrored
  else
    let! err := Put (kl_Prefix l) (kl_ClusterID l) wrapped in
    match err with
    | Some e => let! _ := kreq (KLEvent "DEKEscrowWriteFailed") in
                Done (false, setEscrowed l ConditionFalse "EscrowWriteFailed" (clampMessage (err_text e)))
    | None => let! _ := kreq (KLEvent "DEKEscrowed") in Done mirrored
    end.

Definition escrowPresent (l : clusterLocation) (identity wrapped : string) : locP verdict :=
  let! found := Fetch (kl_Prefix l) (kl_ClusterID l) in
  match found with
  | Err e =>
      Done (false, setEscrowed l ConditionFalse "EscrowUnverifiable"
                     ("cannot read the bucket escrow to confirm it mirrors the in-cluster DEK, which is present and in use; "
                        ++ "backups are unaffected and bare-cluster DR cannot be verified until this clears: " ++ clampMessage (err_text e)))
  | Ok found =>
      let conflict := match found with
                      | Some escrowed => if escrowed =? wrapped then None else conflictOf identity escrowed wrapped
                      | None => None
                      end in
      match conflict with
      | Some c => let! _ := kreq (KLEvent (ec_Event c)) in Done (block l (ec_Reason c) (ec_Message c))
      | None => mirrorDEK l wrapped found
      end
  end.

Definition escrowMissing (l : clusterLocation) (identity : string) : locP verdict :=
  let! found := Fetch (kl_Prefix l) (kl_ClusterID l) in
  match found with
  | Err e => Done (block l "EscrowUnreachable" (clampMessage (err_text e)))
  | Ok None =>
      Done (false, setEscrowed l ConditionFalse "AwaitingFirstDEK"
                     "no DEK exists yet; the first repository use mints it and the next pass escrows it")
  | Ok (Some escrowed) =>
      let! err := inject (J := locI) (AdoptWrappedDEK OperatorNamespace (Unwrap identity) (kl_Name l) escrowed) in
      match err with
      | Some e => let! _ := kreq (KLEvent "DEKRecoveryFailed") in Done (block l "RecoveryFailed" (clampMessage (err_text e)))
      | None =>
          let! _ := kreq (KLEvent "DEKRecovered") in
          Done (false, setEscrowed l ConditionTrue "Recovered" "the wrapped DEK was recovered from the bucket escrow")
      end
  end.

Definition reconcileDEKEscrow (l : clusterLocation) : locP verdict :=
  let noCreds := block l "CredentialsUnavailable" "cannot read the location's S3 credentials for the escrow" in
  if negb hasEscrow then Done (false, l)
  else
    let! accessKey := kreq (KLSecretValue OperatorNamespace (kl_CredsSecret l) "AWS_ACCESS_KEY_ID") in
    match accessKey with
    | Err _ => Done noCreds
    | Ok accessKey =>
        let! secretKey := kreq (KLSecretValue OperatorNamespace (kl_CredsSecret l) "AWS_SECRET_ACCESS_KEY") in
        match secretKey with
        | Err _ => Done noCreds
        | Ok secretKey =>
            let! err := kreq (KLStore accessKey secretKey) in
            match err with
            | Some e => Done (block l "EscrowClientError" ("cannot build the S3 client for the escrow: " ++ clampMessage (err_text e)))
            | None =>
                let! identity := kreq (KLSecretValue OperatorNamespace (kl_KEKSecret l) kekIdentityDataKey) in
                match identity with
                | Err _ => Done (block l reasonKEKUnavailable "cannot read the cluster KEK for the escrow")
                | Ok identity =>
                    match NewAgeWrapper identity with
                    | Some _ => Done (block l reasonKEKInvalid "cannot parse the cluster KEK for the escrow")
                    | None =>
                        let! wrapped := inject (J := locI) (WrappedDEK OperatorNamespace (kl_Name l)) in
                        match wrapped with
                        | Err e => Done (block l "DEKUnreadable" (clampMessage (err_text e)))
                        | Ok (Some wrapped) => escrowPresent l identity wrapped
                        | Ok None => escrowMissing l identity
                        end
                    end
                end
            end
        end
    end.

(** ** The other checks *)

Definition evaluateMultipleDefaults (l : clusterLocation) : locP (result (bool * clusterLocation)) :=
  let! items := kreq KLList in
  Done (match items with
        | Err e => Err (wrap_err "list ClusterBackupLocations" e)
        | Ok items =>
            let defaultNames := map fst (List.filter snd items) in
            if negb (kl_Default l) then
              Ok (false, set_kl_condition ConditionMultipleDefaults ConditionFalse "NotDefault" "this location is not marked default" l)
            else if (1 <? length defaultNames)%nat then
              Ok (true, set_kl_condition ConditionMultipleDefaults ConditionTrue "MultipleDefaults"
                          (Itoa (Z.of_nat (length defaultNames)) ++ " ClusterBackupLocations are marked default: "
                             ++ String.concat ", " defaultNames) l)
            else
              Ok (false, set_kl_condition ConditionMultipleDefaults ConditionFalse "SingleDefault"
                           "this is the only default ClusterBackupLocation" l)
        end).

Definition retentionRequested (r : RetentionSpec) : bool :=
  existsb (fun n => (0 <? n)%Z) [KeepLast r; KeepHourly r; KeepDaily r; KeepWeekly r; KeepMonthly r; KeepYearly r].

Definition reconcileRetentionAdvisory (l : clusterLocation) : locP clusterLocation :=
  if kl_Immutable l && retentionRequested (kl_Retention l) then
    let wasIgnored := IsConditionTrue (kl_Conditions l) ConditionRetentionIgnored in
    let l := set_kl_condition ConditionRetentionIgnored ConditionTrue "ImmutableLocation"
               "spec.retention keep* is ignored on an Immutable location (object-lock governs expiry)" l in
    if wasIgnored then Done l else let! _ := kreq (KLEvent "RetentionIgnored") in Done l
  else
    Done (set_kl_condition ConditionRetentionIgnored ConditionFalse "RetentionActive"
            "retention (if any) is applied by a restic forget after each successful backup" l).

Definition validateEncryption (l : clusterLocation) : locP (bool * clusterLocation) :=
  let at_ := OperatorNamespace ++ "/" ++ kl_KEKSecret l in
  let! identity := kreq (KLSecretValue OperatorNamespace (kl_KEKSecret l) kekIdentityDataKey) in
  Done (match identity with
        | Err e => (false, set_kl_condition ConditionEncryptionValid ConditionFalse "KEKMissing"
                             ("read cluster KEK secret " ++ at_ ++ ": " ++ err_text e) l)
        | Ok identity =>
            match NewAgeWrapper identity with
            | Some e => (false, set_kl_condition ConditionEncryptionValid ConditionFalse reasonKEKInvalid
                                  ("parse cluster KEK secret " ++ at_ ++ ": " ++ err_text e) l)
            | None => (true, set_kl_condition ConditionEncryptionValid ConditionTrue "KEKValid"
                               "cluster KEK identity parsed successfully" l)
            end
        end).

Definition checkReachability (l : clusterLocation) : locP (bool * clusterLocation) :=
  let! err := kreq (KLReachable (kl_Endpoint l)) in
  Done (match err with
        | Some e => (false, set_kl_condition ConditionReachable ConditionFalse "Unreachable"
                              ("probe " ++ kl_Endpoint l ++ ": " ++ err_text e) l)
        | None => (true, set_kl_condition ConditionReachable ConditionTrue "Reachable"
                           ("endpoint " ++ kl_Endpoint l ++ " responded") l)
        end).

Definition ensureRepository (l : clusterLocation) : locP (result clusterLocation) :=
  let! err := kreq (KLCreateRepo (kl_Name l) (kl_Name l)) in
  Done (match err with
        | Some e => if IsAlreadyExists e then Ok (set_kl_ref (kl_Name l) l)
                    else Err (wrap_err ("create BackupRepository " ++ kl_Name l) e)
        | None => Ok (set_kl_ref (kl_Name l) l)
        end).

Definition repositoryInitialized (l : clusterLocation) : locP (result bool) :=
  if kl_RepositoryRef l =? "" then Done (Ok false)
  else
    let! repo := kreq (KLGetRepo (kl_RepositoryRef l)) in
    Done (match repo with
          | Ok initialized => Ok initialized
          | Err e => if IsNotFound e then Ok false
                     else Err (wrap_err ("get BackupRepository " ++ kl_RepositoryRef l ++ " for ClusterBackupLocation " ++ kl_Name l) e)
          end).

(** ** Reconcile *)

Definition writeStatus (l : clusterLocation) (after : requeue) : locP (result requeue) :=
  let! err := kreq (KLStatus l) in
  Done (match err with
        | Some e => Err (wrap_err ("update status for ClusterBackupLocation " ++ kl_Name l) e)
        | None => Ok after
        end).

Definition degraded (l : clusterLocation) (reason message : string) : locP (result requeue) :=
  writeStatus (set_kl_phase locationPhaseDegraded (set_kl_condition ConditionReady ConditionFalse reason message l)) (Some shortRequeueInterval).

Definition finalizeClusterLocation (l : clusterLocation) : locP (result requeue) :=
  if negb (existsb (String.eqb FinalizerLocation) (kl_Finalizers l)) then Done (Ok (Some 0%Z))
  else
    let! _ := kreq (KLEvent "Finalizing") in
    let! err := kreq (KLUpdate (set_kl_finalizers (List.filter (fun f => negb (f =? FinalizerLocation)) (kl_Finalizers l)) l)) in
    Done (match err with
          | Some e => Err (wrap_err ("remove finalizer from ClusterBackupLocation " ++ kl_Name l) e)
          | None => Ok (Some 0%Z)
          end).

(** The roll-up of a pass that got to its end. *)
Definition rollUp (l : clusterLocation) (multipleDefaults repoInitialized : bool) : clusterLocation * requeue :=
  let reachable := IsConditionTrue (kl_Conditions l) ConditionReachable in
  let encryptionValid := IsConditionTrue (kl_Conditions l) ConditionEncryptionValid in
  let provisioned := negb (kl_RepositoryRef l =? "") in
  if reachable && encryptionValid && provisioned && repoInitialized && negb multipleDefaults then
    (set_kl_phase "Ready" (set_kl_condition ConditionReady ConditionTrue "Ready"
       "location is reachable, encryption is valid, and the repository is initialized and ready to accept backups" l),
     Some periodicRequeueInterval)
  else if multipleDefaults then
    (set_kl_phase "Degraded: multiple default ClusterBackupLocations"
       (set_kl_condition ConditionReady ConditionFalse "MultipleDefaults"
          "this location conflicts with another default ClusterBackupLocation" l), Some periodicRequeueInterval)
  else if reachable && encryptionValid && provisioned && negb repoInitialized then
    (set_kl_phase locationPhaseInitializing
       (set_kl_condition ConditionReady ConditionFalse "RepositoryInitializing"
          ("repository provisioned; initialization is still in progress — see BackupRepository " ++ quoted (kl_RepositoryRef l)
             ++ " (condition Initialized) for its progress") l), Some shortRequeueInterval)
  else
    (set_kl_phase locationPhaseDegraded (set_kl_condition ConditionReady ConditionFalse "NotReady" "location is not ready" l),
     Some periodicRequeueInterval).

(** From the repository on. *)
Definition provision (l : clusterLocation) (multipleDefaults : bool) : locP (result requeue) :=
  let! ensured := ensureRepository l in
  match ensured with
  | Err e =>
      let! _ := kreq (KLStatus l) in
      Done (Err (wrap_err ("ensure BackupRepository for ClusterBackupLocation " ++ kl_Name l) e))
  | Ok l =>
      let! initialized := repositoryInitialized l in
      match initialized with
      | Err e => Done (Err e)
      | Ok initialized => let '(l, after) := rollUp l multipleDefaults initialized in writeStatus l after
      end
  end.

Definition validateLocation (l : clusterLocation) : locP (result requeue) :=
  let! defaults := evaluateMultipleDefaults l in
  match defaults with
  | Err e => Done (Err (wrap_err ("evaluate MultipleDefaults for ClusterBackupLocation " ++ kl_Name l) e))
  | Ok (multipleDefaults, l) =>
      let! l := reconcileRetentionAdvisory l in
      let! encryption := validateEncryption l in
      let l := snd encryption in
      if negb (fst encryption) then degraded l "EncryptionInvalid" "cluster encryption is not valid; see condition EncryptionValid"
      else
        let! reachability := checkReachability l in
        let l := snd reachability in
        if negb (fst reachability) then degraded l "Unreachable" "object storage endpoint is not reachable; see condition Reachable"
        else
          let! escrow := reconcileDEKEscrow l in
          let l := snd escrow in
          if fst escrow then
            degraded l "DEKEscrowUnresolved"
              ("the wrapped-DEK escrow question is unresolved, so the repository is not provisioned: minting a DEK "
                 ++ "now could fork it away from a recoverable one. See condition DEKEscrowed for which case this is "
                 ++ "and whether it clears on its own")
          else provision l multipleDefaults
  end.

Definition reconcileClusterLocation (name : string) : locP (result requeue) :=
  let! got := kreq (KLGet name) in
  match got with
  | Err e => Done (if IsNotFound e then Ok (Some 0%Z) else Err (wrap_err ("get ClusterBackupLocation " ++ name) e))
  | Ok l =>
      if kl_Deleting l then finalizeClusterLocation l
      else if negb (existsb (String.eqb FinalizerLocation) (kl_Finalizers l)) then
        let! err := kreq (KLUpdate (set_kl_finalizers (kl_Finalizers l ++ [FinalizerLocation]) l)) in
        Done (match err with
              | Some e => Err (wrap_err ("add finalizer to ClusterBackupLocation " ++ kl_Name l) e)
              | None => Ok None
              end)
      else validateLocation l
  end.
End Controller.

(** ** What a pass does *)

Section Proofs.
Context `{CS : ConditionStore}.
Context (OperatorNamespace : string) (hasEscrow : bool) (NewAgeWrapper : string -> option gerr) (Unwrap : string -> string -> result string).

Notation allI := (sumI keyI locI).
Notation act := (event allI).
Notation lev o x := (Ev (I := allI) (inr o) x).
Notation kev o x := (Ev (I := allI) (inl o) x).
Notation escrow := (reconcileDEKEscrow OperatorNamespace hasEscrow NewAgeWrapper Unwrap).
Notation pass := (reconcileClusterLocation OperatorNamespace hasEscrow NewAgeWrapper Unwrap).

Lemma kreq_runs o tr x : runs (kreq o) tr x <-> tr = [lev o x].
Proof. apply (runs_callR (I := keyI) (J := locI)). Qed.

Ltac walk H := walk_with ltac:(fun R => apply kreq_runs in R) H.

(** What the requests so far have found out about the key of a location. *)
Definition secretHolds (name w : string) (tr : list act) : Prop :=
  exists s, kev (KGet OperatorNamespace (DEKSecretName name)) (Ok s) ∈ tr /\ ke_Data s !! DEKSecretKey = Some w /\ w <> "".
Definition secretAbsent (name : string) (tr : list act) : Prop :=
  exists e, kev (KGet OperatorNamespace (DEKSecretName name)) (Err e) ∈ tr /\ IsNotFound e = true.
Definition plausible (w : string) : bool := negb ((String.length w =? 0)%nat || (maxObjectSize <? String.length w)%nat).
Definition bucketHolds (l : clusterLocation) (w : string) (tr : list act) : Prop :=
  lev (KLGetObject (ObjectKey (kl_Prefix l) (kl_ClusterID l))) (Ok w) ∈ tr /\ plausible w = true.
Definition bucketAbsent (l : clusterLocation) (tr : list act) : Prop :=
  exists e, lev (KLStat (ObjectKey (kl_Prefix l) (kl_ClusterID l))) (Some e) ∈ tr /\ IsNotFound e = true.
Definition adopted (name w : string) (tr : list act) : Prop :=
  kev (KCreate OperatorNamespace (DEKSecretName name) (mkKeySecret keyLabels (<[DEKSecretKey := w]> ∅))) None ∈ tr \/ secretHolds name w tr.

Definition sameKey (identity w w' : string) : Prop := exists pt, Unwrap identity w = Ok pt /\ Unwrap identity w' = Ok pt.

(** The question of the key is settled: the cluster has one that the bucket is not known
    to contradict, or nobody has one, or the bucket's is now the cluster's. *)
Definition settledKey (l : clusterLocation) (identity : string) (tr : list act) : Prop :=
  (exists w, secretHolds (kl_Name l) w tr /\ forall w', bucketHolds l w' tr -> w' = w \/ sameKey identity w' w)
  \/ secretAbsent (kl_Name l) tr
     /\ (bucketAbsent l tr \/ exists w pt, bucketHolds l w tr /\ Unwrap identity w = Ok pt /\ adopted (kl_Name l) w tr).

(** The requests that the escrow makes. *)
Definition escrowing (o : action allI) : Prop :=
  match o with
  | inl _ | inr (KLSecretValue _ _ _) | inr (KLEvent _) | inr (KLStore _ _) | inr (KLStat _) | inr (KLGetObject _) | inr (KLPutObject _ _) => True
  | _ => False
  end.
Definition reading (o : action allI) : Prop := match o with inr (KLGetObject _) | inr (KLPutObject _ _) => False | _ => True end.

Definition objectIn (e : act) : option (result string) := match e with Ev (inr (KLGetObject _)) x => Some x | _ => None end.

Lemma Fetch_spec l tr r :
  runs (Fetch (kl_Prefix l) (kl_ClusterID l)) tr r ->
  (forall w, bucketHolds l w tr <-> r = Ok (Some w)) /\ (r = Ok None -> bucketAbsent l tr)
  /\ Forall (fun e : act => escrowing (ev_action e)) tr /\ Forall (fun e : act => forall key w, ev_action e <> inr (KLPutObject key w)) tr.
Proof.
  unfold Fetch. cbv zeta. intros H. walk H. destruct x as [e|].
  - destruct H as [-> ->]. split_and!; [|..|by repeat constructor|by repeat constructor].
    + intros w. split; [|by destruct (IsNotFound e)]. intros [Hin _]. set_solver.
    + intros Hr. exists e. split; [left|]. by destruct (IsNotFound e).
  - walk H. destruct H as [-> ->]. split_and!; [|..|by repeat constructor|by repeat constructor].
    + intros w. unfold bucketHolds, plausible. split.
      * intros [Hin Hp]. assert (x = Ok w) as ->.
        { cbn [app] in Hin. apply elem_of_cons in Hin as [Hin|Hin]; [by apply (f_equal objectIn) in Hin|]. apply list_elem_of_singleton in Hin. apply (f_equal objectIn) in Hin. by injection Hin as <-. }
        by apply negb_true_iff in Hp as ->.
      * destruct x as [data|e]; [|done]. destruct (_ || _) eqn:E; [done|]. intros [= <-]. split; [right; left|]. by rewrite E.
    + intros Hr. destruct x as [data|e]; [|done]. by destruct (_ || _).
Qed.

Lemma WrappedDEK_spec name tr r :
  runs (inject (J := locI) (WrappedDEK OperatorNamespace name)) tr r ->
  Forall (fun e : act => reading (ev_action e) /\ escrowing (ev_action e)) tr
  /\ match r with Ok (Some w) => secretHolds name w tr | Ok None => secretAbsent name tr | Err _ => True end.
Proof.
  intros (tr' & -> & H)%runs_inject. unfold WrappedDEK in H. cbv zeta in H.
  apply runs_bind in H as (t1 & t2 & x & -> & H1 & [-> ->]). apply (runs_call (I := keyI)) in H1. subst t1. split; [by repeat constructor|].
  destruct x as [s|e].
  - destruct (ke_Data s !! DEKSecretKey) as [w|] eqn:E; [|done]. destruct (String.eqb_spec w ""); [done|]. exists s. split_and!; [left|done..].
  - destruct (IsNotFound e) eqn:E; [|done]. exists e. split; [left|done].
Qed.

Lemma Adopt_spec identity name w tr r :
  runs (inject (J := locI) (AdoptWrappedDEK OperatorNamespace (Unwrap identity) name w)) tr r ->
  Forall (fun e : act => reading (ev_action e) /\ escrowing (ev_action e)) tr
  /\ (r = None -> adopted name w tr /\ exists pt, Unwrap identity w = Ok pt).
Proof.
  intros (tr' & -> & H)%runs_inject. unfold AdoptWrappedDEK in H. cbv zeta in H. destruct (Unwrap identity w) as [pt|e] eqn:Eu; [|by destruct H as [-> ->]].
  apply runs_bind in H as (t1 & t2 & x & -> & H1 & H). apply (runs_call (I := keyI)) in H1. subst t1. destruct x as [e|].
  - destruct (IsAlreadyExists e); [|destruct H as [-> ->]; split; [by repeat constructor|done]].
    apply runs_bind in H as (t1 & t3 & x & -> & H1 & [-> ->]).
    assert (runs (inject (J := locI) (WrappedDEK OperatorNamespace name)) (map (evL locI) t1) x) as [Hk Hw]%WrappedDEK_spec
      by (apply runs_inject; by exists t1).
    rewrite !map_app, app_nil_r. split; [constructor; [by split|done]|]. destruct x as [[w'|]|e']; [|done..].
    destruct (String.eqb_spec w' w) as [->|]; [|done]. intros _. split; [|by eexists]. right. destruct Hw as (s & Hin & Hs). exists s.
    split; [|done]. apply elem_of_app. by right.
  - destruct H as [-> ->]. split; [by repeat constructor|]. intros _. split; [|by eexists]. left. left.
Qed.

(** ** The writes of the bucket *)

(** A write of the bucket, after what was asked before it, that loses no key. *)
Definition harmless (l : clusterLocation) (key w : string) (seen : list act) : Prop :=
  key = ObjectKey (kl_Prefix l) (kl_ClusterID l) /\ secretHolds (kl_Name l) w seen
  /\ (bucketAbsent l seen
      \/ exists identity w', lev (KLSecretValue OperatorNamespace (kl_KEKSecret l) kekIdentityDataKey) (Ok identity) ∈ seen
           /\ bucketHolds l w' seen /\ sameKey identity w' w).

Definition puts (l : clusterLocation) (seen tr : list act) : Prop :=
  forall pre key w x post, tr = (pre ++ lev (KLPutObject key w) x :: post)%list -> harmless l key w (seen ++ pre).

Definition notPut (e : act) : Prop := forall key w, ev_action e <> inr (KLPutObject key w).

Lemma puts_none l seen tr : Forall notPut tr -> puts l seen tr.
Proof. intros H pre key w x post ->. apply Forall_app in H as [_ H]. inversion H as [|e t He _]; subst. by destruct (He key w). Qed.

Lemma puts_app l seen t1 t2 : puts l seen t1 -> puts l (seen ++ t1) t2 -> puts l seen (t1 ++ t2).
Proof.
  intros H1 H2 pre key w x post E. apply app_eq_app in E as (t & [[-> E]|[-> E]]).
  - destruct t as [|e t]; cbn in E.
    + subst t2. specialize (H2 [] key w x post eq_refl). by rewrite !app_nil_r in *.
    + injection E as <- ->. by eapply H1.
  - subst t2. rewrite app_assoc. by eapply H2.
Qed.

Lemma puts_cons l seen e tr : notPut e -> puts l (seen ++ [e]) tr -> puts l seen (e :: tr).
Proof. intros He H. apply (puts_app l seen [e] tr); [apply puts_none; by constructor|done]. Qed.

Lemma puts_one l seen key w x : harmless l key w seen -> puts l seen [lev (KLPutObject key w) x].
Proof.
  intros H pre key' w' x' post E. destruct pre as [|e pre]; [|by destruct pre].
  apply (f_equal head) in E. cbn in E. apply (f_equal (option_map (fun e : act => ev_action e))) in E. cbn in E. injection E as <- <-. by rewrite app_nil_r.
Qed.

Lemma quiet_notPut e : reading (ev_action e) -> notPut e.
Proof. intros H key w E. by rewrite E in H. Qed.

(** The location, but for its conditions. *)
Definition retagged (l l' : clusterLocation) : Prop := exists cs, l' = set_kl_status (kl_RepositoryRef l) (kl_Phase l) cs l.

Lemma retagged_set l condType st reason message : retagged l (set_kl_condition condType st reason message l).
Proof. by eexists. Qed.

Lemma secretHolds_mono name w tr tr' : tr ⊆ tr' -> secretHolds name w tr -> secretHolds name w tr'.
Proof. intros Ht (s & H & Hs). exists s. split; [by apply Ht|done]. Qed.

(** The end of a pass over the escrow: what it is allowed to say, what it may have written. *)
Definition concluded (l : clusterLocation) (identity : string) (seen tr : list act) (v : bool * clusterLocation) : Prop :=
  Forall (fun e : act => escrowing (ev_action e)) tr /\ retagged l (snd v)
  /\ (fst v = false -> settledKey l identity (seen ++ tr)) /\ puts l seen tr.

Definition noObject (tr : list act) : Prop := Forall (fun e : act => objectIn e = None) tr.

Lemma bucketHolds_app l w t1 t2 : bucketHolds l w (t1 ++ t2) <-> bucketHolds l w t1 \/ bucketHolds l w t2.
Proof. unfold bucketHolds. rewrite elem_of_app. tauto. Qed.

Lemma bucketHolds_none l w tr : noObject tr -> ~ bucketHolds l w tr.
Proof. intros H [Hin _]. unfold noObject in H. rewrite Forall_forall in H. by specialize (H _ Hin). Qed.

Lemma bucketHolds_seen l w seen tr : noObject seen -> bucketHolds l w (seen ++ tr) -> bucketHolds l w tr.
Proof. intros Hn [H|H]%bucketHolds_app; [by destruct (bucketHolds_none l w seen Hn)|done]. Qed.

Lemma mirrorDEK_spec l identity w found seen tr v :
  runs (mirrorDEK l w found) tr v -> secretHolds (kl_Name l) w seen ->
  (forall w', bucketHolds l w' seen <-> found = Some w') -> (found = None -> bucketAbsent l seen) ->
  (forall w', found = Some w' -> w' <> w -> sameKey identity w' w) ->
  lev (KLSecretValue OperatorNamespace (kl_KEKSecret l) kekIdentityDataKey) (Ok identity) ∈ seen ->
  concluded l identity seen tr v.
Proof.
  intros H Hs Hb Ha Hk Hid. assert (forall tr, noObject tr -> settledKey l identity (seen ++ tr)) as Hset.
  { intros t Hn. left. exists w. split; [eapply secretHolds_mono; [|exact Hs]; set_solver|].
    intros w' [E%Hb|Hin]%bucketHolds_app; [|by destruct (bucketHolds_none l w' t Hn)].
    destruct (decide (w' = w)); [by left|right; by apply Hk]. }
  unfold mirrorDEK in H. cbv zeta in H. destruct (mirrors found w) eqn:Em.
  { destruct H as [-> ->]. split_and!; [constructor|apply retagged_set|intros _; apply Hset; constructor|by apply puts_none]. }
  assert (forall x, puts l seen [lev (KLPutObject (ObjectKey (kl_Prefix l) (kl_ClusterID l)) w) x]) as Hput.
  { intros x. apply puts_one. split_and!; [done|done|]. destruct found as [w'|]; [right|left; by apply Ha].
    cbn in Em. apply String.eqb_neq in Em. exists identity, w'. split_and!; [done|by apply Hb|by apply Hk]. }
  walk H. unfold Put in R. cbv zeta in R. walk R. destruct R as [-> ->].
  destruct x0 as [e|]; cbn [option_map] in H; walk H; destruct H as [-> ->]; cbn [app];
    (split_and!; [by repeat constructor|apply retagged_set|intros _; apply Hset; by repeat constructor|]);
    (apply (puts_app l seen [_] [_]); [apply Hput|apply puts_none; by repeat constructor]).
Qed.

Lemma concluded_more l identity seen t1 t2 v :
  Forall (fun e : act => escrowing (ev_action e)) t1 -> puts l seen t1 -> concluded l identity (seen ++ t1) t2 v -> concluded l identity seen (t1 ++ t2) v.
Proof.
  intros He Hp (He2 & Hr & Hs & Hp2). split_and!; [by apply Forall_app|done|intros Hv; rewrite app_assoc; by apply Hs|by apply puts_app].
Qed.

(** A verdict that blocks, or that leaves what was settled, after nothing but an event. *)
Lemma concluded_event l identity seen e v tr :
  runs (let! _ := kreq (KLEvent e) in Done v) tr v -> retagged l (snd v) -> (fst v = false -> settledKey l identity (seen ++ tr)) ->
  concluded l identity seen tr v.
Proof. intros H Hr Hs. walk H. destruct H as [-> _]. split_and!; [by repeat constructor|done|done|apply puts_none; by repeat constructor]. Qed.

Lemma concluded_now l identity seen v :
  retagged l (snd v) -> (fst v = false -> settledKey l identity seen) -> concluded l identity seen [] v.
Proof. intros Hr Hs. split_and!; [constructor|done|by rewrite app_nil_r|by apply puts_none]. Qed.

Lemma settledKey_sub l identity t t' :
  settledKey l identity t -> t ⊆ t' -> (forall w, bucketHolds l w t' -> bucketHolds l w t) -> settledKey l identity t'.
Proof.
  intros [(w & Hs & Hw)|[(e & Ha & Hn) H]] Hsub Hback; [left|right].
  - exists w. split; [by eapply secretHolds_mono|]. intros w' H%Hback. by apply Hw.
  - split; [exists e; split; [by apply Hsub|done]|]. destruct H as [(e' & H & Hn')|(w & pt & [H Hp] & Hu & Had)]; [left|right].
    + exists e'. split; [by apply Hsub|done].
    + exists w, pt. split_and!; [split; [by apply Hsub|done]|done|]. destruct Had as [Hc|Hs]; [left; by apply Hsub|right; by eapply secretHolds_mono].
Qed.

Lemma settledKey_mono l identity seen tr : settledKey l identity seen -> noObject tr -> settledKey l identity (seen ++ tr).
Proof.
  intros H Hno. eapply settledKey_sub; [exact H|set_solver|]. intros w [Hw|Hw]%bucketHolds_app; [done|by destruct (bucketHolds_none l w tr Hno)].
Qed.

Lemma escrowPresent_spec l identity w seen tr v :
  runs (escrowPresent Unwrap l identity w) tr v -> noObject seen -> secretHolds (kl_Name l) w seen ->
  lev (KLSecretValue OperatorNamespace (kl_KEKSecret l) kekIdentityDataKey) (Ok identity) ∈ seen ->
  concluded l identity seen tr v.
Proof.
  intros H Hno Hs Hid. unfold escrowPresent in H. walk H. apply Fetch_spec in R as (Hb & Ha & He & Hnp).
  apply concluded_more; [done|by apply puts_none|].
  assert (secretHolds (kl_Name l) w (seen ++ t)) as Hs' by (eapply secretHolds_mono; [|exact Hs]; set_solver).
  assert (forall w', bucketHolds l w' (seen ++ t) <-> x = Ok (Some w')) as Hb'.
  { intros w'. rewrite <-Hb. split; [by apply bucketHolds_seen|]. intros Hh. apply bucketHolds_app. by right. }
  destruct x as [found|e].
  - set (conflict := match found with Some escrowed => if escrowed =? w then None else conflictOf Unwrap identity escrowed w | None => None end) in H.
    destruct conflict as [c|] eqn:Ec.
    + assert (v = block l (ec_Reason c) (ec_Message c)) as -> by (walk H; by destruct H as [_ ->]).
      eapply concluded_event; [exact H|apply retagged_set|done].
    + apply (mirrorDEK_spec l identity w found); [done|done|..|set_solver].
      * intros w'. rewrite Hb'. naive_solver.
      * intros ->. destruct (Ha eq_refl) as (e & Hin & Hn). exists e. split; [set_solver|done].
      * intros w' -> Hne. subst conflict. destruct (String.eqb_spec w' w); [done|]. unfold conflictOf in Ec.
        destruct (Unwrap identity w') as [p1|e1] eqn:E1; [|done]. destruct (Unwrap identity w) as [p2|e2] eqn:E2; [|done].
        destruct (String.eqb_spec p1 p2) as [->|]; [|done]. by exists p2.
  - destruct H as [-> ->]. apply concluded_now; [apply retagged_set|]. intros _. left. exists w. split; [done|]. intros w' Hw'. by apply Hb' in Hw'.
Qed.

Lemma escrowMissing_spec l identity seen tr v :
  runs (escrowMissing OperatorNamespace Unwrap l identity) tr v -> secretAbsent (kl_Name l) seen -> concluded l identity seen tr v.
Proof.
  intros H Hs. unfold escrowMissing in H. walk H. apply Fetch_spec in R as (Hb & Ha & He & Hnp).
  apply concluded_more; [done|by apply puts_none|].
  assert (secretAbsent (kl_Name l) (seen ++ t)) as Hs' by (destruct Hs as (e & Hin & Hn); exists e; split; [set_solver|done]).
  destruct x as [[w|]|e].
  - walk H. apply Adopt_spec in R as [Hk Hadopt].
    assert (Forall (fun e : act => escrowing (ev_action e)) t0) as Hk1 by (eapply Forall_impl; [exact Hk|]; naive_solver).
    assert (Forall notPut t0) as Hk2 by (eapply Forall_impl; [exact Hk|]; intros e [Hr _]; by apply quiet_notPut).
    apply concluded_more; [done|by apply puts_none|]. destruct x as [e|].
    + assert (v = block l "RecoveryFailed" (clampMessage (err_text e))) as -> by (walk H; by destruct H as [_ ->]).
      eapply concluded_event; [exact H|apply retagged_set|done].
    + assert (v = (false, setEscrowed l ConditionTrue "Recovered" "the wrapped DEK was recovered from the bucket escrow")) as ->
        by (walk H; by destruct H as [_ ->]).
      eapply concluded_event; [exact H|apply retagged_set|]. intros _. destruct (Hadopt eq_refl) as [Had (pt & Hpt)].
      walk H. destruct H as [-> _]. apply settledKey_mono; [|by repeat constructor]. right.
      destruct Hs' as (e & Hin & Hn). split; [exists e; split; [set_solver|done]|]. right. exists w, pt.
      assert (bucketHolds l w t) as Hw by by apply Hb. split_and!; [|done|].
      * apply bucketHolds_app. left. apply bucketHolds_app. by right.
      * destruct Had as [Hc|Hc]; [left; set_solver|right; eapply secretHolds_mono; [|exact Hc]; set_solver].
  - destruct H as [-> ->]. apply concluded_now; [apply retagged_set|]. intros _. right. split; [done|]. left.
    destruct (Ha eq_refl) as (e & Hin & Hn). exists e. split; [set_solver|done].
  - destruct H as [-> ->]. apply concluded_now; [apply retagged_set|done].
Qed.

(** The escrow of a location that has one, from the credentials to the verdict. *)
Lemma escrow_spec l tr v :
  runs (escrow l) tr v ->
  Forall (fun e : act => escrowing (ev_action e)) tr /\ retagged l (snd v) /\ puts l [] tr
  /\ (fst v = false -> hasEscrow = false \/ exists identity,
        lev (KLSecretValue OperatorNamespace (kl_KEKSecret l) kekIdentityDataKey) (Ok identity) ∈ tr
        /\ NewAgeWrapper identity = None /\ settledKey l identity tr).
Proof.
  assert (forall reason message, retagged l (snd (block l reason message))) as Hblock by (intros; apply retagged_set).
  intros H. unfold reconcileDEKEscrow in H. cbv zeta in H. destruct hasEscrow; cbn [negb] in H.
  2: { destruct H as [-> ->]. split_and!; [constructor| |by apply puts_none|by left]. exists (kl_Conditions l). by destruct l. }
  assert (forall tr, Forall (fun e : act => escrowing (ev_action e)) tr -> Forall notPut tr -> forall reason message, v = block l reason message ->
    Forall (fun e : act => escrowing (ev_action e)) tr /\ retagged l (snd v) /\ puts l [] tr
    /\ (fst v = false -> true = false \/ exists identity, lev (KLSecretValue OperatorNamespace (kl_KEKSecret l) kekIdentityDataKey) (Ok identity) ∈ tr
        /\ NewAgeWrapper identity = None /\ settledKey l identity tr)) as Hblocked.
  { intros u H1 H2 reason message ->. split_and!; [done|apply Hblock|by apply puts_none|done]. }
  walk H. destruct x as [ak|e]; [|destruct H as [-> ->]; eapply Hblocked; [by repeat constructor..|done]].
  walk H. destruct x as [sk|e]; [|destruct H as [-> ->]; eapply Hblocked; [by repeat constructor..|done]].
  walk H. destruct x as [e|]; [destruct H as [-> ->]; eapply Hblocked; [by repeat constructor..|done]|].
  walk H. destruct x as [identity|e]; [|destruct H as [-> ->]; eapply Hblocked; [by repeat constructor..|done]].
  destruct (NewAgeWrapper identity) as [e|] eqn:Ei; [destruct H as [-> ->]; eapply Hblocked; [by repeat constructor..|done]|].
  walk H. apply WrappedDEK_spec in R as [Hk Hx].
  assert (Forall (fun e : act => escrowing (ev_action e)) t) as Hk1 by (eapply Forall_impl; [exact Hk|]; naive_solver).
  assert (Forall notPut t) as Hk2 by (eapply Forall_impl; [exact Hk|]; intros e [Hr _]; by apply quiet_notPut).
  assert (noObject t) as Hk3 by (eapply Forall_impl; [exact Hk|]; by intros [[o|[]] y] [Hr _]).
  set (seen := ([lev (KLSecretValue OperatorNamespace (kl_CredsSecret l) "AWS_ACCESS_KEY_ID") (Ok ak);
                 lev (KLSecretValue OperatorNamespace (kl_CredsSecret l) "AWS_SECRET_ACCESS_KEY") (Ok sk); lev (KLStore ak sk) None;
                 lev (KLSecretValue OperatorNamespace (kl_KEKSecret l) kekIdentityDataKey) (Ok identity)] ++ t)%list).
  assert (Forall (fun e : act => escrowing (ev_action e)) seen) as Hs1 by (by apply Forall_app; split; [repeat constructor|]).
  assert (Forall notPut seen) as Hs2 by (by apply Forall_app; split; [repeat constructor|]).
  assert (noObject seen) as Hs3 by (by apply Forall_app; split; [repeat constructor|]).
  assert (lev (KLSecretValue OperatorNamespace (kl_KEKSecret l) kekIdentityDataKey) (Ok identity) ∈ seen) as Hid by set_solver.
  assert (forall u, concluded l identity seen u v ->
    Forall (fun e : act => escrowing (ev_action e)) (seen ++ u) /\ retagged l (snd v) /\ puts l [] (seen ++ u)
    /\ (fst v = false -> true = false \/ exists identity, lev (KLSecretValue OperatorNamespace (kl_KEKSecret l) kekIdentityDataKey) (Ok identity) ∈ (seen ++ u)%list
        /\ NewAgeWrapper identity = None /\ settledKey l identity (seen ++ u))) as Hend.
  { intros u (H1 & H2 & H3 & H4). split_and!; [by apply Forall_app|done|apply puts_app; [by apply puts_none|done]|].
    intros Hv. right. exists identity. split_and!; [set_solver|done|by apply H3]. }
  destruct x as [[w|]|e].
  - apply (Hend tr0). apply (escrowPresent_spec l identity w); [done|done| |done]. eapply secretHolds_mono; [|exact Hx]. set_solver.
  - apply (Hend tr0). apply escrowMissing_spec; [done|]. destruct Hx as (e & Hin & Hn). exists e. split; [set_solver|done].
  - destruct H as [-> ->]. change (([_; _; _; _] ++ t)%list) with seen. rewrite app_nil_r. by eapply Hblocked.
Qed.

(** ** The pass *)

(** Neither the escrow's business nor the repository's. *)
Definition plainReq (o : action allI) : Prop :=
  match o with inl _ | inr (KLCreateRepo _ _) | inr (KLGetObject _) | inr (KLPutObject _ _) => False | inr _ => True end.
Notation plain := (fun e : act => plainReq (ev_action e)).

Definition creates (e : act) : Prop := exists n owner, ev_action e = inr (KLCreateRepo n owner).

Lemma plain_facts tr : Forall plain tr -> noObject tr /\ Forall notPut tr /\ Forall (fun e => ~ creates e) tr.
Proof.
  intros H. split_and!; eapply Forall_impl; try exact H; intros [o x]; cbn.
  - by destruct o as [o|[]].
  - intros Ho key w E. cbn in E. by rewrite E in Ho.
  - intros Ho (n & owner & E). cbn in E. by rewrite E in Ho.
Qed.

Lemma retagged_refl l : retagged l l.
Proof. exists (kl_Conditions l). by destruct l. Qed.

Lemma retagged_trans l1 l2 l3 : retagged l1 l2 -> retagged l2 l3 -> retagged l1 l3.
Proof. intros [c1 ->] [c2 ->]. by exists c2. Qed.

Lemma plain_persist l after tr r : runs (writeStatus l after) tr r -> Forall plain tr.
Proof. unfold writeStatus. intros H. walk H. destruct H as [-> _]. by repeat constructor. Qed.

(** The checks before the escrow leave the location as it was, but for its conditions. *)
Lemma evaluateMultipleDefaults_spec l tr r :
  runs (evaluateMultipleDefaults l) tr r -> Forall plain tr /\ match r with Ok (_, l') => retagged l l' | Err _ => True end.
Proof.
  unfold evaluateMultipleDefaults. intros H. walk H. destruct H as [-> ->]. split; [by repeat constructor|].
  destruct x as [items|e]; [|done]. destruct (negb _); [apply retagged_set|]. destruct (_ <? _)%nat; apply retagged_set.
Qed.

Lemma reconcileRetentionAdvisory_spec l tr l' : runs (reconcileRetentionAdvisory l) tr l' -> Forall plain tr /\ retagged l l'.
Proof.
  unfold reconcileRetentionAdvisory. cbv zeta. destruct (_ && _); [|intros [-> ->]; split; [constructor|apply retagged_set]].
  destruct (IsConditionTrue _ _); [intros [-> ->]; split; [constructor|apply retagged_set]|].
  intros H. walk H. destruct H as [-> ->]. split; [by repeat constructor|apply retagged_set].
Qed.

Lemma validateEncryption_spec l tr r :
  runs (validateEncryption OperatorNamespace NewAgeWrapper l) tr r ->
  Forall plain tr /\ retagged l (snd r)
  /\ (fst r = true -> exists identity, lev (KLSecretValue OperatorNamespace (kl_KEKSecret l) kekIdentityDataKey) (Ok identity) ∈ tr /\ NewAgeWrapper identity = None).
Proof.
  unfold validateEncryption. cbv zeta. intros H. walk H. destruct H as [-> ->]. destruct x as [identity|e].
  2: { split_and!; [by repeat constructor|apply retagged_set|done]. }
  destruct (NewAgeWrapper identity) eqn:E; (split_and!; [by repeat constructor|apply retagged_set|]); [done|]. intros _. exists identity. split; [left|done].
Qed.

Lemma checkReachability_spec l tr r :
  runs (checkReachability l) tr r -> Forall plain tr /\ retagged l (snd r) /\ (fst r = true -> lev (KLReachable (kl_Endpoint l)) None ∈ tr).
Proof.
  unfold checkReachability. intros H. walk H. destruct H as [-> ->]. destruct x as [e|]; (split_and!; [by repeat constructor|apply retagged_set|]); [done|].
  intros _. left.
Qed.

(** A provisioning asks for the repository first. *)
Lemma provision_shape l multipleDefaults tr r :
  runs (provision l multipleDefaults) tr r ->
  exists x rest, tr = lev (KLCreateRepo (kl_Name l) (kl_Name l)) x :: rest /\ Forall plain rest.
Proof.
  unfold provision, ensureRepository. intros H. walk H. walk R. destruct R as [-> ->]. cbn [app]. exists x0.
  assert (forall e tr r, runs (let! _ := kreq (KLStatus l) in Done (Err e : result (option Z))) tr r -> Forall plain tr) as Herr.
  { intros e u r' Hu. walk Hu. destruct Hu as [-> _]. by repeat constructor. }
  assert (forall l, runs (let! initialized := repositoryInitialized l in match initialized with Err e => Done (Err e) | Ok initialized =>
      let '(l, after) := rollUp l multipleDefaults initialized in writeStatus l after end) tr0 r -> Forall plain tr0) as Hok.
  { intros l' Hu. unfold repositoryInitialized in Hu. walk Hu. assert (Forall plain t) as Ht.
    { destruct (_ =? _); [by destruct R as [-> _]|]. walk R. destruct R as [-> _]. by repeat constructor. }
    apply Forall_app. split; [done|]. destruct x as [i|e]; [|by destruct Hu as [-> _]]. destruct (rollUp l' multipleDefaults i) as [l2 after].
    by eapply plain_persist. }
  eexists. split; [reflexivity|]. destruct x0 as [e|]; [destruct (IsAlreadyExists e)|]; [by eapply Hok|by eapply Herr|by eapply Hok].
Qed.

(** A pass that gets to the escrow: what precedes it, the escrow, and what follows. *)
Lemma validateLocation_shape l tr r :
  runs (validateLocation OperatorNamespace hasEscrow NewAgeWrapper Unwrap l) tr r ->
  Forall plain tr
  \/ exists pre t post v l1, tr = (pre ++ t ++ post)%list /\ Forall plain pre /\ retagged l l1 /\ runs (escrow l1) t v
       /\ (Forall plain post \/ fst v = false /\ exists multipleDefaults, runs (provision (snd v) multipleDefaults) post r).
Proof.
  unfold validateLocation. intros H. walk H. apply evaluateMultipleDefaults_spec in R as [Hp1 Ht1].
  destruct x as [[md l1]|e]; [|destruct H as [-> _]; left; by apply Forall_app].
  walk H. apply reconcileRetentionAdvisory_spec in R as [Hp2 Ht2]. walk H. apply validateEncryption_spec in R as (Hp3 & Ht3 & _).
  destruct x0 as [valid l3]. cbn [fst snd] in *. destruct valid; cbn [negb] in H.
  2: { left. apply plain_persist in H. by rewrite !Forall_app. }
  walk H. apply checkReachability_spec in R as (Hp4 & Ht4 & _). destruct x0 as [reachable l4]. cbn [fst snd] in *. destruct reachable; cbn [negb] in H.
  2: { left. apply plain_persist in H. by rewrite !Forall_app. }
  apply runs_bind in H as (t3 & t4 & v & -> & R & H). right. exists (t ++ t0 ++ t1 ++ t2)%list, t3, t4, v, l4. split_and!; [by rewrite <-!app_assoc|by rewrite !Forall_app| |done|].
  - eapply retagged_trans; [exact Ht1|]. eapply retagged_trans; [exact Ht2|]. by eapply retagged_trans.
  - destruct v as [b l5]. cbn [fst snd] in *. destruct b; [left; by apply plain_persist in H|right]. split; [done|]. by exists md.
Qed.

Lemma pass_shape name tr r :
  runs (pass name) tr r ->
  Forall plain tr
  \/ exists l rest, tr = lev (KLGet name) (Ok l) :: rest /\ kl_Deleting l = false
       /\ runs (validateLocation OperatorNamespace hasEscrow NewAgeWrapper Unwrap l) rest r.
Proof.
  unfold reconcileClusterLocation. intros H. walk H. destruct x as [l|e]; [|destruct H as [-> _]; left; by repeat constructor].
  destruct (kl_Deleting l) eqn:Ed.
  { left. cbn [app]. constructor; [done|]. unfold finalizeClusterLocation in H. destruct (negb _); [by destruct H as [-> _]|].
    walk H. walk H. destruct H as [-> _]. by repeat constructor. }
  destruct (negb _); [left; walk H; destruct H as [-> _]; by repeat constructor|]. right. by exists l, tr0.
Qed.

(** ** Theorems *)

(** C16. A repository is provisioned only when the question of its key is settled by what the
    same pass has read: the cluster has the key and the bucket is not known to hold
    another, or neither has one, or the bucket's was adopted under the cluster's KEK. *)
Theorem provisioning_waits_for_the_key name tr r pre n owner x post :
  runs (pass name) tr r -> tr = (pre ++ lev (KLCreateRepo n owner) x :: post)%list ->
  exists l, lev (KLGet name) (Ok l) ∈ pre /\ kl_Deleting l = false /\ n = kl_Name l /\ owner = kl_Name l
    /\ (hasEscrow = false \/ exists identity,
          lev (KLSecretValue OperatorNamespace (kl_KEKSecret l) kekIdentityDataKey) (Ok identity) ∈ pre
          /\ NewAgeWrapper identity = None /\ settledKey l identity pre).
Proof.
  intros H E. assert (forall tr, Forall (fun e => ~ creates e) tr -> lev (KLCreateRepo n owner) x ∉ tr) as Hnone.
  { intros u Hu Hin. rewrite Forall_forall in Hu. apply (Hu _ Hin). by eexists _, _. }
  assert (lev (KLCreateRepo n owner) x ∈ tr) as Hin by (rewrite E; set_solver).
  apply pass_shape in H as [(_ & _ & Hc)%plain_facts|(l & rest & -> & Hd & H)]; [by destruct (Hnone _ Hc)|].
  apply validateLocation_shape in H as [(_ & _ & Hc)%plain_facts|(pre1 & t & post1 & v & l1 & -> & Hp & Hl & He & H)].
  { destruct (Hnone (lev (KLGet name) (Ok l) :: rest)); [|done]. constructor; [|done]. by intros (? & ? & ?). }
  destruct (escrow_spec _ _ _ He) as (Hesc & Hl2 & _ & Hsettled).
  apply plain_facts in Hp as (Hp1 & _ & Hp3).
  assert (Forall (fun e => ~ creates e) t) as Ht3.
  { eapply Forall_impl; [exact Hesc|]. intros e He1 (a & b & Ee). cbv beta in He1. by rewrite Ee in He1. }
  destruct H as [(_ & _ & Hc)%plain_facts|(Hv & md & H)].
  { destruct (Hnone (lev (KLGet name) (Ok l) :: pre1 ++ t ++ post1)); [|done]. constructor; [by intros (? & ? & ?)|].
    rewrite !Forall_app. done. }
  apply provision_shape in H as (y & rest & -> & Hrest). apply plain_facts in Hrest as (_ & _ & Hrest).
  assert (pre = (lev (KLGet name) (Ok l) :: pre1 ++ t)%list /\ Some (lev (KLCreateRepo n owner) x) = Some (lev (KLCreateRepo (kl_Name (snd v)) (kl_Name (snd v))) y)) as [-> Ee].
  { replace (lev (KLGet name) (Ok l) :: pre1 ++ t ++ lev (KLCreateRepo (kl_Name (snd v)) (kl_Name (snd v))) y :: rest)%list
      with ((lev (KLGet name) (Ok l) :: pre1 ++ t) ++ lev (KLCreateRepo (kl_Name (snd v)) (kl_Name (snd v))) y :: rest)%list in E by (cbn; by rewrite <-app_assoc).
    assert (Forall (fun e => ~ creates e) (lev (KLGet name) (Ok l) :: pre1 ++ t)) as Hc by (constructor; [by intros (? & ? & ?)|by rewrite Forall_app]).
    apply app_eq_app in E as (u & [[E1 E2]|[E1 E2]]).
    - destruct u as [|e u]; cbn [app] in E2; [by apply (f_equal head) in E2; rewrite app_nil_r in E1|]. injection E2 as <- _.
      exfalso. apply (Hnone _ Hc). rewrite E1. set_solver.
    - destruct u as [|e u]; cbn [app] in E2; [by apply (f_equal head) in E2; rewrite app_nil_r in E1|]. injection E2 as _ E2.
      exfalso. apply (Hnone rest Hrest). rewrite E2. set_solver. }
  apply (f_equal (option_map (fun e : act => ev_action e))) in Ee. cbn in Ee. injection Ee as -> ->.
  destruct Hl as [c1 ->]. destruct Hl2 as [c2 Hv2]. rewrite Hv2. exists l. split_and!; [set_solver|done..|].
  destruct (Hsettled Hv) as [Hne|(identity & Hid & Hw & Hs)]; [by left|right]. exists identity.
  split_and!; [set_solver|done|]. eapply settledKey_sub; [exact Hs|set_solver|].
  intros w Hb. change (bucketHolds l w ([lev (KLGet name) (Ok l)] ++ (pre1 ++ t))) in Hb. apply bucketHolds_app in Hb as [Hb|Hb].
  - by destruct (bucketHolds_none l w [lev (KLGet name) (Ok l)]); [repeat constructor|].
  - by apply bucketHolds_seen in Hb.
Qed.

(** C17. A write of the bucket loses no key: it writes what the cluster's Secret holds, over
    nothing, or over a ciphertext of the same key under the cluster's KEK. *)
Theorem escrow_keeps_the_key name tr r pre key w x post :
  runs (pass name) tr r -> tr = (pre ++ lev (KLPutObject key w) x :: post)%list ->
  exists l, lev (KLGet name) (Ok l) ∈ pre /\ key = ObjectKey (kl_Prefix l) (kl_ClusterID l) /\ secretHolds (kl_Name l) w pre
    /\ (bucketAbsent l pre
        \/ exists identity w', lev (KLSecretValue OperatorNamespace (kl_KEKSecret l) kekIdentityDataKey) (Ok identity) ∈ pre
             /\ bucketHolds l w' pre /\ sameKey identity w' w).
Proof.
  intros H E. assert (forall tr, Forall notPut tr -> lev (KLPutObject key w) x ∉ tr) as Hnone.
  { intros u Hu Hin. rewrite Forall_forall in Hu. by apply (Hu _ Hin key w). }
  assert (lev (KLPutObject key w) x ∈ tr) as Hin by (rewrite E; set_solver).
  apply pass_shape in H as [(_ & Hc & _)%plain_facts|(l & rest & -> & Hd & H)]; [by destruct (Hnone _ Hc)|].
  apply validateLocation_shape in H as [(_ & Hc & _)%plain_facts|(pre1 & t & post1 & v & l1 & -> & Hp & [c ->] & He & H)].
  { destruct (Hnone (lev (KLGet name) (Ok l) :: rest)); [|done]. by constructor. }
  apply plain_facts in Hp as (_ & Hp & _). apply escrow_spec in He as (_ & _ & Hputs & _).
  assert (Forall notPut post1) as Hpost.
  { destruct H as [(_ & Hc & _)%plain_facts|(_ & md & H)]; [done|]. apply provision_shape in H as (y & u & -> & (_ & Hu & _)%plain_facts). by constructor. }
  assert (puts l [] (lev (KLGet name) (Ok l) :: pre1 ++ t ++ post1)) as Hall.
  { apply puts_cons; [done|]. apply puts_app; [by apply puts_none|]. apply puts_app; [|by apply puts_none].
    intros pre2 key2 w2 x2 post2 E2. destruct (Hputs pre2 key2 w2 x2 post2 E2) as (Hk & Hs & Hb). split; [done|]. split.
    - eapply secretHolds_mono; [|exact Hs]. set_solver.
    - destruct Hb as [(e & Hi & Hn)|(identity & w' & Hi & [Hb Hpl] & Hsame)]; [left|right].
      + exists e. split; [set_solver|done].
      + exists identity, w'. split_and!; [set_solver|split; [set_solver|done]|done]. }
  destruct (Hall pre key w x post E) as (Hk & Hs & Hb). exists l. split; [|by split_and!].
  destruct pre as [|e pre]; [cbn in E; apply (f_equal (fun l => option_map (fun e : act => ev_action e) (head l))) in E; discriminate|].
  injection E as <- _. left.
Qed.

(** ** Readiness *)

Definition statusIn (e : act) : option clusterLocation := match e with Ev (inr (KLStatus l)) _ => Some l | _ => None end.

Lemma writeStatus_runs l after tr r : runs (writeStatus l after) tr r -> omap statusIn tr = [l].
Proof. unfold writeStatus. intros H. walk H. by destruct H as [-> _]. Qed.

Lemma escrowing_statuses tr : Forall (fun e : act => escrowing (ev_action e)) tr -> omap statusIn tr = [].
Proof. induction 1 as [|[[o|o] x] tr He _ IH]; cbn; [done|done|]. by destruct o. Qed.

Lemma rollUp_ready l multipleDefaults initialized :
  kl_Phase (fst (rollUp l multipleDefaults initialized)) = "Ready" ->
  initialized = true /\ multipleDefaults = false /\ kl_RepositoryRef l <> "".
Proof.
  unfold rollUp. destruct (String.eqb_spec (kl_RepositoryRef l) ""); cbn [negb]; rewrite ?andb_false_r;
    destruct initialized, multipleDefaults; rewrite ?andb_false_r; cbn; try done; repeat (case_match; cbn; try done).
Qed.

Ltac unwritten H Hin := destruct H as [-> _]; cbn in Hin; by apply elem_of_nil in Hin.

Lemma provision_ready l multipleDefaults tr after l' :
  runs (provision l multipleDefaults) tr (Ok after) -> l' ∈ omap statusIn tr -> kl_Phase l' = "Ready" ->
  lev (KLGetRepo (kl_Name l)) (Ok true) ∈ tr /\ multipleDefaults = false.
Proof.
  unfold provision, ensureRepository. intros H Hin Hready. apply runs_bind in H as (t1 & t2 & x & -> & R & H). walk R. destruct R as [-> ->].
  assert (runs (let! initialized := repositoryInitialized (set_kl_ref (kl_Name l) l) in match initialized with Err e => Done (Err e) | Ok initialized =>
      let '(l, after) := rollUp (set_kl_ref (kl_Name l) l) multipleDefaults initialized in writeStatus l after end) t2 (Ok after)) as Hu.
  { destruct x0 as [e|]; [destruct (IsAlreadyExists e)|]; [done| |done]. walk H. by destruct H. }
  clear H. unfold repositoryInitialized in Hu. cbn [kl_RepositoryRef set_kl_ref set_kl_status] in Hu.
  apply runs_bind in Hu as (t3 & t4 & y & -> & R & H). rewrite !omap_app in Hin. cbn [app omap list_omap statusIn] in Hin.
  assert (omap statusIn t3 = []) as E3 by (destruct (_ =? ""); [by destruct R as [-> _]|]; walk R; by destruct R as [-> _]).
  rewrite E3 in Hin. destruct y as [i|e]; [|by destruct H].
  destruct (rollUp (set_kl_ref (kl_Name l) l) multipleDefaults i) as [l2 after2] eqn:Er. apply writeStatus_runs in H. rewrite H in Hin.
  apply list_elem_of_singleton in Hin. subst l'. destruct (rollUp_ready (set_kl_ref (kl_Name l) l) multipleDefaults i) as (-> & -> & Hne); [by rewrite Er|].
  cbn in Hne. destruct (String.eqb_spec (kl_Name l) ""); [done|]. split; [|done].
  walk R. destruct R as [-> E]. destruct x as [b|e]; [injection E as <-; set_solver|]. by destruct (IsNotFound e).
Qed.

(** A pass that ends in order and calls the location ready has reached its endpoint, parsed
    its KEK, seen its repository initialised and counted no second default. *)
Theorem ready_is_earned name tr after l' :
  runs (pass name) tr (Ok after) -> l' ∈ omap statusIn tr -> kl_Phase l' = "Ready" ->
  exists l items identity, lev (KLGet name) (Ok l) ∈ tr /\ lev KLList (Ok items) ∈ tr
    /\ (kl_Default l = true -> length (List.filter snd items) <= 1)
    /\ lev (KLReachable (kl_Endpoint l)) None ∈ tr
    /\ lev (KLSecretValue OperatorNamespace (kl_KEKSecret l) kekIdentityDataKey) (Ok identity) ∈ tr /\ NewAgeWrapper identity = None
    /\ lev (KLGetRepo (kl_Name l)) (Ok true) ∈ tr.
Proof.
  unfold reconcileClusterLocation. intros H Hin Hready. walk H. destruct x as [l|e]; [|unwritten H Hin].
  destruct (kl_Deleting l).
  { unfold finalizeClusterLocation in H. destruct (negb _); [unwritten H Hin|]. walk H. walk H. unwritten H Hin. }
  destruct (negb _); [walk H; unwritten H Hin|]. cbn [app omap list_omap statusIn] in Hin. unfold validateLocation in H.
  walk H. assert (exists items, lev KLList (Ok items) ∈ t /\ omap statusIn t = [] /\ exists md l1, x = Ok (md, l1) /\ retagged l l1
      /\ (md = false -> kl_Default l = true -> length (List.filter snd items) <= 1)) as (items & Hl & Ht0 & md & l1 & -> & Hr1 & Hmd).
  { unfold evaluateMultipleDefaults in R. walk R. destruct R as [-> ->]. destruct x0 as [items|e]; [|by destruct H]. exists items.
    split; [left|]. split; [done|]. destruct (kl_Default l); cbn [negb]; [|eexists _, _; split_and!; [done|apply retagged_set|done]].
    rewrite length_map. destruct (Nat.ltb_spec 1 (length (List.filter snd items)));
      (eexists _, _; split_and!; [done|apply retagged_set|]); [done|lia]. }
  cbn match in H. walk H. assert (omap statusIn t0 = []) as Ht1.
  { unfold reconcileRetentionAdvisory in R0. cbv zeta in R0. destruct (_ && _); [|by destruct R0 as [-> _]].
    destruct (IsConditionTrue _ _); [by destruct R0 as [-> _]|]. walk R0. by destruct R0 as [-> _]. }
  apply reconcileRetentionAdvisory_spec in R0 as [_ Hr2]. walk H. assert (omap statusIn t1 = []) as Ht2.
  { unfold validateEncryption in R0. cbv zeta in R0. walk R0. by destruct R0 as [-> _]. }
  apply validateEncryption_spec in R0 as (_ & Hr3 & Hkek). rewrite !omap_app, Ht0, Ht1, Ht2 in Hin. cbn [app] in Hin.
  destruct x0 as [valid l3]. cbn [fst snd] in *. destruct valid; cbn [negb] in H.
  2: { apply writeStatus_runs in H. rewrite H in Hin. apply list_elem_of_singleton in Hin. by subst l'. }
  walk H. assert (omap statusIn t2 = []) as Ht3 by (unfold checkReachability in R0; walk R0; by destruct R0 as [-> _]).
  apply checkReachability_spec in R0 as (_ & Hr4 & Hreach). rewrite omap_app, Ht3 in Hin. cbn [app] in Hin.
  destruct x0 as [reachable l4]. cbn [fst snd] in *. destruct reachable; cbn [negb] in H.
  2: { apply writeStatus_runs in H. rewrite H in Hin. apply list_elem_of_singleton in Hin. by subst l'. }
  apply runs_bind in H as (t3 & t4 & v & -> & R9 & H). apply escrow_spec in R9 as (Hesc & Hr5 & _ & _).
  rewrite omap_app, (escrowing_statuses _ Hesc) in Hin. cbn [app] in Hin. destruct v as [b l5]. cbn [fst snd] in *. destruct b.
  { apply writeStatus_runs in H. rewrite H in Hin. apply list_elem_of_singleton in Hin. by subst l'. }
  assert (retagged l l5) as [c Hl5].
  { eapply retagged_trans; [exact Hr1|]. eapply retagged_trans; [exact Hr2|]. eapply retagged_trans; [exact Hr3|]. by eapply retagged_trans. }
  assert (retagged l l3) as [c3 Hl3] by (eapply retagged_trans; [exact Hr1|]; by eapply retagged_trans).
  assert (retagged l x) as [c2 Hx] by by eapply retagged_trans.
  subst l5 x l3. destruct (Hkek eq_refl) as (identity & Hi & Hw). specialize (Hreach eq_refl).
  apply (provision_ready _ _ _ _ l') in H; [|done..]. destruct H as (Hrepo & ->). cbn in Hrepo. exists l, items, identity.
  split_and!; [set_solver|set_solver|by apply Hmd|set_solver|set_solver|done|set_solver].
Qed.
End Proofs.

(** ** Witnesses *)

#[local] Existing Instance MapConditionStore.
#[local] Notation lev o x := (Ev (I := sumI keyI locI) (inr o) x).

(** A ciphertext is its plaintext behind the letter of the KEK. *)
Definition wit_open (identity ct : string) : result string :=
  match ct with String a pt => if String a "" =? identity then Ok pt else Err (errorf "no identity matched") | "" => Err (errorf "empty") end.

Definition wit_cloc (name : string) (ready : bool) : clusterLocation :=
  mkClusterLocation name 1 false [FinalizerLocation] true false (mkRetention 0 0 0 0 0 0) "kek" "creds" "h:9000" "" "prod"
    "" (if ready then "Ready" else "") ∅.

(** A cluster with or without the Secret of the key, the bucket's object and the
    credentials, and what becomes of a Create of the repository. *)
Record wit_world := mkWitWorld { ww_secret : option string; ww_object : option string; ww_creds : bool; ww_create : option gerr; ww_loc : clusterLocation }.

Definition wit_kserver (w : wit_world) (o : key_action) : key_answer o :=
  match o return key_answer o with
  | KGet _ _ => match ww_secret w with Some ct => Ok (mkKeySecret ∅ {[DEKSecretKey := ct]}) | None => Err (mkErr ENotFound "") end
  | KCreate _ _ _ => None
  | KRandom n => Ok (repeat "000"%char n)
  | KWrap pt => Ok ("K" ++ pt)
  end.

Definition wit_cserver (w : wit_world) : server (sumI keyI (@locI MapConditionStore)) :=
  fun _ o =>
    match o return answer (sumI keyI locI) o with
    | inl o => wit_kserver w o
    | inr o =>
        match o return loc_answer o with
        | KLGet _ => Ok (ww_loc w)
        | KLList => Ok [("loc", true)]
        | KLSecretValue _ name _ => if name =? "kek" then Ok "K" else if ww_creds w then Ok "secret" else Err (mkErr ENotFound "")
        | KLGetRepo _ => Ok true
        | KLEvent _ => tt
        | KLStat _ => match ww_object w with Some _ => None | None => Some (mkErr ENotFound "NoSuchKey") end
        | KLGetObject _ => match ww_object w with Some ct => Ok ct | None => Err (mkErr ENotFound "NoSuchKey") end
        | KLCreateRepo _ _ => ww_create w
        | KLUpdate _ | KLStatus _ | KLReachable _ | KLStore _ _ | KLPutObject _ _ => None
        end
    end.

Notation wit_cpass w := (exec (wit_cserver w) (reconcileClusterLocation "ops" true (fun _ => None) wit_open "loc") []).

(** A bare cluster whose bucket has the key. *)
Definition wit_recovery : wit_world := mkWitWorld None (Some "Ksecret") true None (wit_cloc "loc" false).
(** A KEK-rotation: two ciphertexts of one key.  (The toy ciphertexts differ in their tail,
    which the toy [Unwrap] below ignores.) *)
Definition wit_open' (identity ct : string) : result string :=
  match wit_open identity ct with Ok pt => Ok (substring 0 3 pt) | Err e => Err e end.
Definition wit_rotation : wit_world := mkWitWorld (Some "Kkey2") (Some "Kkey1") true None (wit_cloc "loc" false).
Notation wit_rpass := (exec (wit_cserver wit_rotation) (reconcileClusterLocation "ops" true (fun _ => None) wit_open' "loc") []).

Lemma provisioning_waits_for_the_key_witness :
  exists pre, lev (KLCreateRepo "loc" "loc") None ∈ fst (wit_cpass wit_recovery) /\ pre = take 13 (fst (wit_cpass wit_recovery))
    /\ exists l identity, lev (KLGet "loc") (Ok l) ∈ pre /\ settledKey "ops" wit_open l identity pre.
Proof.
  exists (take 13 (fst (wit_cpass wit_recovery))).
  assert (fst (wit_cpass wit_recovery) !! 13 = Some (lev (KLCreateRepo "loc" "loc") None)) as H by (vm_compute; reflexivity).
  split; [by eapply list_elem_of_lookup_2|]. split; [reflexivity|].
  destruct (provisioning_waits_for_the_key "ops" true (fun _ => None) wit_open "loc" _ _ (take 13 (fst (wit_cpass wit_recovery))) "loc" "loc" None
              (drop 14 (fst (wit_cpass wit_recovery))) (exec_runs (wit_cserver wit_recovery) _ []))
    as (l & Hl & _ & _ & _ & [E|(identity & _ & _ & Hs)]).
  - symmetry. by apply take_drop_middle.
  - discriminate.
  - exists l, identity. split; [exact Hl|exact Hs].
Defined.

Lemma escrow_keeps_the_key_witness :
  exists pre, lev (KLPutObject "prod.crystal-meta/wrapped-dek.age" "Kkey2") None ∈ fst wit_rpass /\ pre = take 11 (fst wit_rpass)
    /\ exists l, lev (KLGet "loc") (Ok l) ∈ pre /\ secretHolds "ops" (kl_Name l) "Kkey2" pre.
Proof.
  exists (take 11 (fst wit_rpass)).
  assert (fst wit_rpass !! 11 = Some (lev (KLPutObject "prod.crystal-meta/wrapped-dek.age" "Kkey2") None)) as H by (vm_compute; reflexivity).
  split; [by eapply list_elem_of_lookup_2|]. split; [reflexivity|].
  destruct (escrow_keeps_the_key "ops" true (fun _ => None) wit_open' "loc" _ _ (take 11 (fst wit_rpass)) "prod.crystal-meta/wrapped-dek.age" "Kkey2" None
              (drop 12 (fst wit_rpass)) (exec_runs (wit_cserver wit_rotation) _ [])) as (l & Hl & _ & Hs & _).
  - symmetry. by apply take_drop_middle.
  - exists l. split; [exact Hl|exact Hs].
Defined.

(** ** Where the guards end *)

Definition isCreate (e : event (sumI keyI (@locI MapConditionStore))) : bool := match ev_action e with inr (KLCreateRepo _ _) => true | _ => false end.
Definition mints (e : event (@initI MapConditionStore)) : bool := match ev_action e with IEnsureDEK _ _ => true | _ => false end.

(** A repository of the cluster plane, initialised long ago, and the cluster it is on. *)
Definition wit_survivor : initRepository :=
  mkInitRepository "loc" ∅ (Some (kindClusterBackupLocation, "loc")) 1 false [FinalizerRepository] (mkInitStatus true ("", "") "" "" "" "" [] ∅).
Definition wit_survivor_server : server (@initI MapConditionStore) :=
  fun past o =>
    match o return init_answer o with
    | IGet _ => Ok wit_survivor
    | IGetClusterLocation _ => Ok (mkClusterBackupLocation "loc" "creds" false "prod" true (mkRetention 0 0 0 0 0 0), wit_istorage)
    | o => wit_iserver false true past o
    end.

(** A restored cluster whose credentials are still missing: the escrow blocks the location
    and nothing is provisioned; but the repository that is already there is reconciled
    all the same, asks for its key, and a key is minted over the one in the bucket. *)
Example blocked_escrow_does_not_stop_a_mint :
  let w := mkWitWorld None (Some "Ksecret") false None (wit_cloc "loc" false) in
  existsb isCreate (fst (wit_cpass w)) = false
  /\ map kl_Phase (omap statusIn (fst (wit_cpass w))) = [locationPhaseDegraded]
  /\ existsb mints (fst (exec wit_survivor_server (reconcileRepository "ops" (fun _ => None) "loc") [])) = true
  /\ existsb (fun e : event keyI => match ev_action e with KCreate _ _ _ => true | _ => false end)
       (fst (exec (I := keyI) (fun _ => wit_kserver w) (EnsureDEK "ops" (wit_open "K") "loc") [])) = true.
Proof. split_and!; vm_compute; reflexivity. Qed.

(** The name of a tenant's repository is free to a cluster location: the repository that
    is there is taken for its own, and the location becomes ready on it. *)
Example location_takes_over_a_repository :
  let w := mkWitWorld (Some "Ksecret") (Some "Ksecret") true (Some (mkErr EAlreadyExists "")) (wit_cloc "team--offsite" false) in
  map (fun l => (kl_Phase l, kl_RepositoryRef l)) (omap statusIn (fst (wit_cpass w))) = [("Ready", namespacedRepositoryName "team" "offsite")].
Proof. vm_compute; reflexivity. Qed.

(** A pass that cannot provision the repository reports an error and writes a status that
    still says what it said before. *)
Example failed_provision_stays_ready :
  let w := mkWitWorld (Some "Ksecret") (Some "Ksecret") true (Some (errorf "admission denied")) (wit_cloc "loc" true) in
  map kl_Phase (omap statusIn (fst (wit_cpass w))) = ["Ready"] /\ (exists e, snd (wit_cpass w) = Err e).
Proof. split; [vm_compute; reflexivity|]. eexists. vm_compute. reflexivity. Qed.
