(* ===== verification/ExternalSync.v ===== *)
(** * ExternalSync: copies of one repository in another
    (internal/controller: external_sync.go, clusterbackupexternalsync_controller.go,
    backupexternalsync_controller.go; the sync half of internal/mover/mover.go)

    A pass resolves the two ends of a sync, decides whether a copy is due, admits it to a
    queue, and once it has ended measures both repositories and, in Mirror mode, forgets
    at the destination what is gone at the source.  The two planes share everything but
    the resolution of their ends. *)

From Stdlib Require Import Ascii String.
From S2P Require Import Prelude GoText Cluster Selectors Names Status VolumeMachine Restic RepoQueue.
From S2P Require Import Backup Schedule ScheduleController.
From S2P Require Import Calendar.
From S2P Require Import Location.
From S2P Require Import MaintenanceJob.
From S2P Require Import DiscoveryLister.
From S2P Require Import Program.

#[local] Open Scope string_scope.
#[local] Notation length := List.length.

Definition syncPhasePending : string := "Pending".
Definition syncPhaseRunning : string := "Running".
Definition syncPhaseCompleted : string := "Completed".
Definition syncPhasePartiallyFailed : string := "PartiallyFailed".
Definition syncPhaseFailed : string := "Failed".
Definition conditionSyncComplete : string := "SyncComplete".
Definition syncRequeueInterval : Z := (15 * second)%Z.
Definition syncMinRequeue : Z := (30 * second)%Z.
Definition syncMaxRequeue : Z := (10 * minute)%Z.
Definition syncJobBackoffLimit : Z := 1.
Definition syncJobTTLSeconds : Z := 600.
Definition syncJobPrefixCluster : string := "cbes".
Definition syncJobPrefixNamespaced : string := "bes".
Definition ExternalSyncModeMirror : string := "Mirror".
Definition ExternalSyncModeAppendOnly : string := "AppendOnly".
Definition mover_OpSync : string := "sync".
Definition SyncRemoteSource : string := "src".
Definition SyncRemoteDest : string := "dst".

(** ** Ends *)

(** What a sync reads of an [S3Spec] beside the binding. *)
Record syncStorage := mkSyncStorage {
  ss_Endpoint : string;
  ss_Bucket : string;
  ss_Prefix : string;
  ss_Region : string;
  ss_Connections : option Z
}.

Record syncEndpoint := mkSyncEndpoint {
  se_Remote : string;
  se_Binding : locationBinding;
  se_S3 : syncStorage;
  se_Repo : option BackupRepository;
  se_Password : string
}.

Record syncRun := mkSyncRun {
  sr_Source : syncEndpoint;
  sr_Dest : syncEndpoint;
  sr_Namespaces : list string;
  sr_Mode : string
}.

(** [run.Dest.Repo] and the like, which [syncEndpointReady] has seen. *)
Definition endRepo (e : syncEndpoint) : BackupRepository := default (mkBackupRepository "" ∅ None false "") (se_Repo e).

(** [strings.ToUpper], on the two remotes' names, which are plain letters. *)
Definition upperLetter (a : ascii) : ascii :=
  let n := nat_of_ascii a in if (97 <=? n)%nat && (n <=? 122)%nat then ascii_of_nat (n - 32) else a.
Definition ToUpper (s : string) : string := string_of_list_ascii (map upperLetter (list_ascii_of_string s)).

Definition RcloneRemoteEnv (remote key : string) : string := "RCLONE_CONFIG_" ++ ToUpper remote ++ "_" ++ key.

Definition RcloneRepoURL (remote bucket prefix clusterID : string) : string :=
  let path := String.concat "/" ((bucket :: if prefix =? "" then [] else [prefix]) ++ [clusterID])%list in
  "rclone:" ++ remote ++ ":" ++ TrimByte "/" (collapse (slen path) path).

Definition SyncCredentialKeys : list string :=
  [RcloneRemoteEnv SyncRemoteSource "ACCESS_KEY_ID"; RcloneRemoteEnv SyncRemoteSource "SECRET_ACCESS_KEY";
   RcloneRemoteEnv SyncRemoteDest "ACCESS_KEY_ID"; RcloneRemoteEnv SyncRemoteDest "SECRET_ACCESS_KEY"].

Definition endpointURL (e : syncEndpoint) : string :=
  RcloneRepoURL (se_Remote e) (ss_Bucket (se_S3 e)) (ss_Prefix (se_S3 e)) (lb_ClusterID (se_Binding e)).

Definition rcloneConfigEnv (e : syncEndpoint) : list (string * string) :=
  let s3 := se_S3 e in
  ([(RcloneRemoteEnv (se_Remote e) "TYPE", "s3"); (RcloneRemoteEnv (se_Remote e) "PROVIDER", "Other");
    (RcloneRemoteEnv (se_Remote e) "ENDPOINT", ss_Endpoint s3); (RcloneRemoteEnv (se_Remote e) "FORCE_PATH_STYLE", "true");
    (RcloneRemoteEnv (se_Remote e) "NO_CHECK_BUCKET", "true")]
   ++ if ss_Region s3 =? "" then [] else [(RcloneRemoteEnv (se_Remote e) "REGION", ss_Region s3)])%list.

Definition effectiveSyncMode (requested : string) (dest : locationBinding) : string * bool :=
  if lb_Immutable dest && negb (requested =? ExternalSyncModeAppendOnly) then (ExternalSyncModeAppendOnly, true)
  else if requested =? "" then (ExternalSyncModeMirror, false) else (requested, false).

Definition syncResourceName (prefix name step : string) : string := prefix ++ "-" ++ name ++ "-" ++ step.
Definition syncQueueKey (destRepo : string) : string := "sync/" ++ destRepo.
Definition syncJobLabels : labels :=
  <["app.kubernetes.io/name" := "crystal-mover"]>
    (<["app.kubernetes.io/managed-by" := "crystal-backup"]> (<["app.kubernetes.io/component" := "sync"]> ∅)).

Definition syncEndpointReady (e : syncEndpoint) (side : string) : option (string * string) :=
  let at_ := Describe (se_Binding e) in
  if negb (match se_Repo e with Some repo => br_Initialized repo | None => false end) then
    Some ("RepositoryNotReady", "the " ++ side ++ " repository behind " ++ at_ ++ " is not initialized yet")
  else if lb_ClusterID (se_Binding e) =? "" then
    Some ("WaitingForClusterID", "the " ++ side ++ " location " ++ at_ ++ " has no effective cluster ID yet")
  else if ss_Bucket (se_S3 e) =? "" then Some ("IncompleteLocation", "the " ++ side ++ " location " ++ at_ ++ " declares no bucket")
  else if se_Password e =? "" then
    Some ("KeyUnavailable", "the " ++ side ++ " repository password for " ++ at_ ++ " could not be resolved")
  else None.

Definition sameEndpoint (source dest : syncEndpoint) : bool :=
  match se_Repo source, se_Repo dest with
  | Some a, Some b =>
      if br_Name a =? br_Name b then true
      else negb (br_RepositoryURL a =? "") && (br_RepositoryURL a =? br_RepositoryURL b)
  | _, _ => false
  end.

Definition syncScopeDescription (namespaces : list string) : string :=
  match namespaces with [] => "the whole repository" | _ => "namespace(s) " ++ String.concat ", " namespaces end.

(** ** The Job of a copy *)

(** The request of a copy, whose ends are both remotes. *)
Record syncJobRequest := mkSyncJobRequest {
  sj_Name : string;
  sj_Image : string;
  sj_ResticArgs : list string;
  sj_RepoURL : string;                       (* the destination *)
  sj_SecretName : string;
  sj_FromPasswordFile : bool;
  sj_CredentialKeys : list string;
  sj_ExtraEnv : list (string * string);
  sj_BackoffLimit : Z;
  sj_TTLSeconds : Z;
  sj_Labels : labels
}.

Definition buildSyncJobRequest (syncImage name : string) (run : syncRun) : syncJobRequest :=
  mkSyncJobRequest name syncImage (SyncArgs (sr_Namespaces run)) (endpointURL (sr_Dest run)) name true SyncCredentialKeys
    ([("RESTIC_FROM_REPOSITORY", endpointURL (sr_Source run)); ("RCLONE_CONFIG", "/dev/null")]
       ++ rcloneConfigEnv (sr_Source run) ++ rcloneConfigEnv (sr_Dest run))%list
    syncJobBackoffLimit syncJobTTLSeconds syncJobLabels.

(** ** Inventories *)

(** A snapshot with its [original]. *)
Notation syncSnapshot := (Snapshot * string)%type.

Record syncInventory := mkSyncInventory { IDs : list string; Origins : gmap string string }.

Definition snapshotInSyncScope (s : Snapshot) (namespaces : list string) : bool :=
  match namespaces with
  | [] => true
  | _ => match TagValue (s_Tags s) TagKeyNamespace with
         | Some ns => existsb (String.eqb ns) namespaces
         | None => false
         end
  end.

Definition addToInventory (inv : syncInventory) (s : syncSnapshot) : syncInventory :=
  mkSyncInventory (IDs inv ++ [s_ID (fst s)])%list
    (if snd s =? "" then Origins inv else <[s_ID (fst s) := snd s]> (Origins inv)).

Definition inventoryOf (namespaces : list string) (snaps : list syncSnapshot) : syncInventory :=
  fold_left addToInventory (List.filter (fun s => snapshotInSyncScope (fst s) namespaces) snaps) (mkSyncInventory [] ∅).

Record syncProgress := mkSyncProgress { sp_Copied : Z; sp_Lag : Z; sp_Extra : list string }.

(** The loop of [compareSync] over [dest.Origins], whose order Go leaves open. *)
Definition compareStep (sourceIDs : gset string) (acc : gset string * list string) (d : string * string) : gset string * list string :=
  if bool_decide (snd d ∈ sourceIDs) then ({[snd d]} ∪ fst acc, snd acc) else (fst acc, (snd acc ++ [fst d])%list).

Definition compareIn (order : list (string * string)) (source : syncInventory) : syncProgress :=
  let sourceIDs : gset string := list_to_set (IDs source) in
  let '(copiedOrigins, extra) := fold_left (compareStep sourceIDs) order (∅, []) in
  let copied := int32 (Z.of_nat (size copiedOrigins)) in
  mkSyncProgress copied (Z.max (int32 (int32 (Z.of_nat (size sourceIDs)) - copied)) 0) (sort_strings extra).

Definition compareSync (source dest : syncInventory) : syncProgress := compareIn (map_to_list (Origins dest)) source.

Definition mirrorForgetArgs (snapshotIDs : list string) : list string := "forget" :: snapshotIDs.

(** ** Schedules *)

Record syncActivation := mkSyncActivation { ac_Due : bool; ac_NextFire : Z; ac_Wait : Z; ac_Err : option gerr }.

Section Activation.
(** schedule.Parse, over the cron library. *)
Variable Parse : string -> string -> result Schedule.

Definition syncSchedule (expr timezone : string) (lastSuccess : option Z) (now : Z) : syncActivation :=
  if expr =? "" then mkSyncActivation (match lastSuccess with None => true | Some _ => false end) zero_time 0 None
  else
    match Parse expr timezone with
    | Err e => mkSyncActivation false zero_time 0 (Some e)
    | Ok cronSched =>
        let next := Next cronSched now in
        match lastSuccess with
        | None => mkSyncActivation true next (time_sub next now) None
        | Some last =>
            mkSyncActivation (match DueTick cronSched last now None with Some _ => true | None => false end) next (time_sub next now) None
        end
    end.
End Activation.

Section Controller.
Context `{CS : ConditionStore}.

(** ** Objects *)

Record syncStatus := mkSyncStatus {
  st_Phase : string;
  st_LastSuccessTime : option Z;
  st_SnapshotsCopied : Z;
  st_LagSnapshots : Z;
  st_Conditions : conditions
}.

(** An external sync of either plane: the namespace of a [ClusterBackupExternalSync] is
    empty, and only its selection may be there. *)
Record externalSync := mkExternalSync {
  es_Namespace : string;
  es_Name : string;
  es_Generation : Z;
  es_Paused : bool;
  es_Schedule : string;
  es_Timezone : string;
  es_Mode : string;
  es_Source : string;
  es_Dest : string;
  es_Selection : option nsselector.NamespaceSelector;
  es_Status : syncStatus
}.

Definition set_es_status (st : syncStatus) (o : externalSync) : externalSync :=
  mkExternalSync (es_Namespace o) (es_Name o) (es_Generation o) (es_Paused o) (es_Schedule o) (es_Timezone o) (es_Mode o)
    (es_Source o) (es_Dest o) (es_Selection o) st.

Definition set_sync_phase (p : string) (st : syncStatus) : syncStatus :=
  mkSyncStatus p (st_LastSuccessTime st) (st_SnapshotsCopied st) (st_LagSnapshots st) (st_Conditions st).
Definition set_sync_conditions (cs : conditions) (st : syncStatus) : syncStatus :=
  mkSyncStatus (st_Phase st) (st_LastSuccessTime st) (st_SnapshotsCopied st) (st_LagSnapshots st) cs.

Definition setSyncCondition (gen : Z) (s reason message : string) (st : syncStatus) : syncStatus :=
  set_sync_conditions
    (SetCondition (SetCondition (st_Conditions st) ConditionReady s reason message gen) conditionSyncComplete s reason message gen) st.

Definition applySyncProgress (gen : Z) (progress : syncProgress) (now : Z) (message : string) (st : syncStatus) : syncStatus :=
  setSyncCondition gen ConditionTrue "Synced" message
    (mkSyncStatus syncPhaseCompleted (Some now) (sp_Copied progress) (sp_Lag progress) (st_Conditions st)).

(** A copy under way: the handle of the queue, the run it is of, when it was admitted, and
    whether it is done and only its accounting is not. *)
Record syncInflight := mkSyncInflight { sf_Handle : nat; sf_Run : syncRun; sf_StartedAt : Z; sf_Copied : bool }.

Definition set_sf_copied (f : syncInflight) : syncInflight := mkSyncInflight (sf_Handle f) (sf_Run f) (sf_StartedAt f) true.

(** ** Requests *)

Inductive sync_action :=
| SGet (ns name : string)
| SStatus (o : externalSync)                                   (* Status().Update *)
| SGetClusterLocation (name : string)                          (* with what a sync needs of it *)
| SGetLocation (ns name : string)
| SGetRepo (name : string)
| SPlatformDEK (location : string)                             (* resolvePlatformDEKCommon: the key, or a reason and a message *)
| SUserPassword (ns name ref : string)
| SListNamespaces
| SInflight (key : string)                                     (* the map, by critical section *)
| STrack (key : string) (f : syncInflight)
| SMarkCopied (key : string)
| SDrop (key : string)
| SEnqueueCopy (lane jobName : string) (run : syncRun)         (* Queue.Enqueue of OpSync *)
| SPoll (h : nat)                                              (* select on [Done], and [Err] *)
| SListFiltered (repo : BackupRepository) (jobName : string)   (* Lister.ListFiltered, with no filter *)
| SEnqueueForget (repoName : string) (q : op_request)          (* Queue.Enqueue of OpForget *)
| SAwait (h : nat)                                             (* select: the handle's error, or the context's *)
| SNow
| SEvent (reason : string).

Definition sync_answer (o : sync_action) : Type :=
  match o with
  | SGet _ _ => result externalSync
  | SGetClusterLocation _ => result (ClusterBackupLocation * syncStorage)
  | SGetLocation _ _ => result (BackupLocation * syncStorage)
  | SGetRepo _ => result BackupRepository
  | SPlatformDEK _ => string + string * string
  | SUserPassword _ _ _ => result string
  | SListNamespaces => result (list nsselector.Namespace)
  | SInflight _ => option syncInflight
  | STrack _ _ | SMarkCopied _ | SDrop _ | SEvent _ => unit
  | SEnqueueCopy _ _ _ | SEnqueueForget _ _ => result nat
  | SPoll _ => option (option gerr)
  | SListFiltered _ _ => result (list syncSnapshot)
  | SStatus _ | SAwait _ => option gerr
  | SNow => Z
  end.

Definition syncI : interface := mkInterface sync_action sync_answer.
Notation syncP := (prog syncI).
Definition sreq (o : sync_action) : syncP (sync_answer o) := call (I := syncI) o.

Variable OperatorNamespace : string.
Variable Parse : string -> string -> result Schedule.
(** apimachinery's selectors and the regexp library, as [nsselector] uses them. *)
Variable LabelSelectorAsSelector : LabelSelector -> result (labels -> bool).
Variable CompileRegexp : string -> result (string -> bool).
(** [equality.Semantic.DeepEqual] on statuses. *)
Variable statusEqual : syncStatus -> syncStatus -> bool.

(** What a pass ends with: the status in memory, and the result or the error. *)
Notation ending := (syncStatus * result Z)%type.

(** ** The driver *)

Definition inventorySide (repo : BackupRepository) (jobName : string) (namespaces : list string) : syncP (result syncInventory) :=
  let! snaps := sreq (SListFiltered repo jobName) in
  Done (match snaps with Ok snaps => Ok (inventoryOf namespaces snaps) | Err e => Err e end).

Definition enqueueSyncCopy (jobName : string) (run : syncRun) : syncP (result nat) :=
  sreq (SEnqueueCopy (syncQueueKey (br_Name (endRepo (sr_Dest run)))) jobName run).

Definition enqueueMirrorForget (jobName : string) (run : syncRun) (snapshotIDs : list string) : syncP (result nat) :=
  let dest := sr_Dest run in
  sreq (SEnqueueForget (br_Name (endRepo dest))
          (mkOpRequest jobName mover_OpForget (mirrorForgetArgs snapshotIDs) (br_RepositoryURL (endRepo dest)) (se_Password dest)
             (lb_CredsSecret (se_Binding dest)) (lb_CredsNamespace (se_Binding dest)) (ss_Connections (se_S3 dest)))).

Definition mirrorForget (run : syncRun) (jobPrefix name : string) (extra : list string) : syncP (option gerr) :=
  let! handle := enqueueMirrorForget (syncResourceName jobPrefix name "mirror-forget") run extra in
  match handle with Err e => Done (Some e) | Ok h => sreq (SAwait h) end.

Definition partial (gen : Z) (st : syncStatus) (message : string) : syncP ending :=
  let! _ := sreq (SEvent "SyncPartiallyFailed") in
  Done (setSyncCondition gen ConditionFalse "PartiallyFailed" message (set_sync_phase syncPhasePartiallyFailed st), Ok syncRequeueInterval).

Definition syncCompleted (gen : Z) (run : syncRun) (st : syncStatus) (progress : syncProgress) : syncP ending :=
  let message := Itoa (sp_Copied progress) ++ " snapshot(s) at the destination, " ++ Itoa (sp_Lag progress) ++ " still to copy ("
                   ++ syncScopeDescription (sr_Namespaces run) ++ ", mode " ++ sr_Mode run ++ ")" in
  let! now := sreq SNow in
  let! _ := sreq (SEvent "SyncCompleted") in
  Done (applySyncProgress gen progress now message st, Ok 0%Z).

Definition settle (gen : Z) (run : syncRun) (st : syncStatus) (jobPrefix name : string) : syncP ending :=
  let! source := inventorySide (endRepo (sr_Source run)) (syncResourceName jobPrefix name "src-inv") (sr_Namespaces run) in
  match source with
  | Err e => partial gen st ("the copy succeeded but the source inventory failed: " ++ err_text e)
  | Ok source =>
      let! dest := inventorySide (endRepo (sr_Dest run)) (syncResourceName jobPrefix name "dst-inv") (sr_Namespaces run) in
      match dest with
      | Err e => partial gen st ("the copy succeeded but the destination inventory failed: " ++ err_text e)
      | Ok dest =>
          let progress := compareSync source dest in
          if (sr_Mode run =? ExternalSyncModeMirror) && (0 <? length (sp_Extra progress))%nat then
            let! err := mirrorForget run jobPrefix name (sp_Extra progress) in
            match err with
            | Some e =>
                partial gen st ("copied " ++ Itoa (sp_Copied progress) ++ " snapshot(s); " ++ Itoa (Z.of_nat (length (sp_Extra progress)))
                  ++ " extra snapshot(s) at the destination could not be forgotten "
                  ++ "(the destination holds more than the source, never less): " ++ err_text e)
            | None => let! _ := sreq (SEvent "MirrorPruned") in syncCompleted gen run st progress
            end
          else syncCompleted gen run st progress
      end
  end.

Definition finishSync (gen : Z) (key : string) (f : syncInflight) (st : syncStatus) (jobPrefix name : string) : syncP ending :=
  let! res := settle gen (sf_Run f) st jobPrefix name in
  let ended := match snd res with Ok _ => st_Phase (fst res) =? syncPhaseCompleted | Err _ => false end in
  if ended then let! _ := sreq (SDrop key) in Done res else Done res.

Definition startCopy (gen : Z) (key : string) (run : syncRun) (st : syncStatus) (jobPrefix name : string) : syncP ending :=
  let! handle := enqueueSyncCopy (syncResourceName jobPrefix name "copy") run in
  match handle with
  | Err _ => Done (st, Ok syncRequeueInterval)
  | Ok h =>
      let! now := sreq SNow in
      let! _ := sreq (STrack key (mkSyncInflight h run now false)) in
      let! _ := sreq (SEvent "SyncStarted") in
      Done (setSyncCondition gen ConditionFalse "Copying"
              ("copying " ++ syncScopeDescription (sr_Namespaces run) ++ " from " ++ Describe (se_Binding (sr_Source run)) ++ " to "
                 ++ Describe (se_Binding (sr_Dest run))) (set_sync_phase syncPhaseRunning st), Ok syncRequeueInterval)
  end.

Definition driveSync (gen : Z) (key : string) (run : option syncRun) (st : syncStatus) (jobPrefix name : string) : syncP ending :=
  let! f := sreq (SInflight key) in
  match f with
  | None => match run with
            | None => Done (st, Ok syncRequeueInterval)
            | Some run => startCopy gen key run st jobPrefix name
            end
  | Some f =>
      if sf_Copied f then finishSync gen key f st jobPrefix name
      else
        let! done := sreq (SPoll (sf_Handle f)) in
        match done with
        | None => Done (st, Ok syncRequeueInterval)
        | Some (Some e) =>
            let! _ := sreq (SDrop key) in
            let! _ := sreq (SEvent "SyncFailed") in
            Done (setSyncCondition gen ConditionFalse "SyncFailed" (err_text e) (set_sync_phase syncPhaseFailed st), Ok syncRequeueInterval)
        | Some None => let! _ := sreq (SMarkCopied key) in finishSync gen key (set_sf_copied f) st jobPrefix name
        end
  end.

(** ** The two ends *)

(** An end, or what the pass ends with. *)
Notation resolved := (syncEndpoint + ending)%type.

Definition parkSync (gen : Z) (st : syncStatus) (reason message : string) : ending :=
  (setSyncCondition gen ConditionFalse reason message (set_sync_phase syncPhasePending st), Ok syncRequeueInterval).

Definition checkEndpoint (gen : Z) (st : syncStatus) (e : syncEndpoint) (side : string) : resolved :=
  match syncEndpointReady e side with
  | Some (reason, message) => inr (parkSync gen st reason message)
  | None => inl e
  end.

(** The repository of a location: none when it does not exist yet. *)
Definition readRepository (name : string) : syncP (result (option BackupRepository)) :=
  let! repo := sreq (SGetRepo name) in
  Done (match repo with
        | Ok repo => Ok (Some repo)
        | Err e => if IsNotFound e then Ok None else Err (wrap_err ("get BackupRepository " ++ name) e)
        end).

Definition clusterEndpoint (gen : Z) (st : syncStatus) (name remote side : string) : syncP resolved :=
  let! loc := sreq (SGetClusterLocation name) in
  match loc with
  | Err e =>
      Done (inr (if IsNotFound e
                 then parkSync gen st "LocationNotFound" ("the " ++ side ++ " ClusterBackupLocation " ++ quoted name ++ " does not exist")
                 else (st, Err (wrap_err ("get ClusterBackupLocation " ++ name) e))))
  | Ok (loc, s3) =>
      let binding := bindingFromClusterLocation loc OperatorNamespace in
      let! repo := readRepository (cl_Name loc) in
      match repo with
      | Err e => Done (inr (st, Err e))
      | Ok repo =>
          let! dek := sreq (SPlatformDEK (cl_Name loc)) in
          Done (match dek with
                | inl dek => checkEndpoint gen st (mkSyncEndpoint remote binding s3 repo dek) side
                | inr (reason, message) => inr (parkSync gen st reason (side ++ " location " ++ Describe binding ++ ": " ++ message))
                end)
      end
  end.

Definition namespaceEndpoint (gen : Z) (st : syncStatus) (namespace name remote side : string) : syncP resolved :=
  let! loc := sreq (SGetLocation namespace name) in
  match loc with
  | Err e =>
      Done (inr (if IsNotFound e
                 then parkSync gen st "LocationNotFound"
                        ("the " ++ side ++ " BackupLocation " ++ quoted name ++ " does not exist in namespace " ++ quoted namespace)
                 else (st, Err (wrap_err ("get BackupLocation " ++ namespace ++ "/" ++ name) e))))
  | Ok (loc, s3) =>
      let binding := bindingFromNamespacedLocation loc in
      let! repo := readRepository (namespacedRepositoryName namespace (bl_Name loc)) in
      match repo with
      | Err e => Done (inr (st, Err e))
      | Ok repo =>
          let! password := sreq (SUserPassword namespace (bl_Name loc) (lb_PasswordSecretRef binding)) in
          Done (match password with
                | Ok password => checkEndpoint gen st (mkSyncEndpoint remote binding s3 repo password) side
                | Err e => inr (parkSync gen st "KeyUnavailable" (side ++ " location " ++ Describe binding ++ ": " ++ err_text e))
                end)
      end
  end.

(** *** The run *)

Definition sameRepository (gen : Z) (st : syncStatus) (source dest : syncEndpoint) : ending :=
  (setSyncCondition gen ConditionFalse "SameRepository"
     ("source " ++ Describe (se_Binding source) ++ " and destination " ++ Describe (se_Binding dest)
        ++ " resolve to the same repository " ++ quoted (br_Name (endRepo source)) ++ "; a sync must have two")
     (set_sync_phase syncPhaseFailed st), Ok 0%Z).

(** [resolveSelection]: no namespaces is the whole repository. *)
Definition resolveSelection (o : externalSync) : syncP (result (list string)) :=
  match es_Selection o with
  | None => Done (Ok [])
  | Some sel =>
      let! namespaces := sreq SListNamespaces in
      Done (match namespaces with
            | Err e => Err (wrap_err "list namespaces to resolve the selection" e)
            | Ok namespaces =>
                match nsselector.Match LabelSelectorAsSelector CompileRegexp namespaces sel with
                | Err e => Err e
                | Ok [] => Err (errorf "spec.selection.namespaces matched no namespace; refusing to fall back to a whole-repository sync")
                | Ok matched => Ok matched
                end
            end)
  end.

Definition moded (mode : string) (source dest : syncEndpoint) (namespaces : list string) : syncP (syncRun + ending) :=
  let '(mode, forced) := effectiveSyncMode mode (se_Binding dest) in
  let! _ := if forced then sreq (SEvent "ModeForced") else Done tt in
  Done (inl (mkSyncRun source dest namespaces mode)).

Definition clusterRun (o : externalSync) : syncP (syncRun + ending) :=
  let gen := es_Generation o in
  let st := es_Status o in
  let! source := clusterEndpoint gen st (es_Source o) SyncRemoteSource "source" in
  match source with
  | inr stop => Done (inr stop)
  | inl source =>
      let! dest := clusterEndpoint gen st (es_Dest o) SyncRemoteDest "destination" in
      match dest with
      | inr stop => Done (inr stop)
      | inl dest =>
          if sameEndpoint source dest then Done (inr (sameRepository gen st source dest))
          else
            let! namespaces := resolveSelection o in
            match namespaces with
            | Err e => Done (inr (setSyncCondition gen ConditionFalse "InvalidSelection" (err_text e) (set_sync_phase syncPhaseFailed st), Ok 0%Z))
            | Ok namespaces => moded (es_Mode o) source dest namespaces
            end
      end
  end.

Definition namespaceRun (o : externalSync) : syncP (syncRun + ending) :=
  let gen := es_Generation o in
  let st := es_Status o in
  let! source := namespaceEndpoint gen st (es_Namespace o) (es_Source o) SyncRemoteSource "source" in
  match source with
  | inr stop => Done (inr stop)
  | inl source =>
      let! dest := namespaceEndpoint gen st (es_Namespace o) (es_Dest o) SyncRemoteDest "destination" in
      match dest with
      | inr stop => Done (inr stop)
      | inl dest =>
          if sameEndpoint source dest then Done (inr (sameRepository gen st source dest))
          else moded (es_Mode o) source dest []
      end
  end.

(** ** The pass *)

Definition idleSyncResult (gen : Z) (st : syncStatus) (act : syncActivation) (expr : string) : ending :=
  if expr =? "" then
    (set_sync_conditions (SetCondition (st_Conditions st) ConditionReady ConditionTrue "Completed"
       "on-demand sync completed; set spec.schedule to repeat it" gen) st, Ok 0%Z)
  else
    (set_sync_conditions (SetCondition (st_Conditions st) ConditionReady ConditionTrue "Scheduled"
       ("sync scheduled; next copy at " ++ FormatRFC3339 (ac_NextFire act)) gen) st,
     Ok (clampDuration (ac_Wait act) syncMinRequeue syncMaxRequeue)).

Definition commitSyncStatus (o : externalSync) (pass : ending) (describe : string) : syncP (result Z) :=
  let '(after, res) := pass in
  match res with
  | Err e =>
      if statusEqual (es_Status o) after then Done (Err e)
      else
        let! uErr := sreq (SStatus (set_es_status after o)) in
        Done (Err (match uErr with
                   | None => e
                   | Some u => default e (join_errors [e; wrap_err ("persist status for " ++ describe ++ " on an errored pass") u])
                   end))
  | Ok res =>
      let! uErr := sreq (SStatus (set_es_status after o)) in
      Done (match uErr with Some u => Err (wrap_err ("update status for " ++ describe) u) | None => Ok res end)
  end.

(** The pass of either plane, which differ in the key, the prefix and [resolveRun]. *)
Definition syncPass (key jobPrefix : string) (resolveRun : externalSync -> syncP (syncRun + ending)) (o : externalSync)
    : syncP ending :=
  let gen := es_Generation o in
  let st := es_Status o in
  let! f := sreq (SInflight key) in
  match f with
  | Some _ => driveSync gen key None st jobPrefix (es_Name o)
  | None =>
      if es_Paused o then
        Done (setSyncCondition gen ConditionFalse "Paused" "sync is paused; no new copy is started" (set_sync_phase syncPhasePending st),
              Ok 0%Z)
      else
        let! run := resolveRun o in
        match run with
        | inr stop => Done stop
        | inl run =>
            let! now := sreq SNow in
            let act := syncSchedule Parse (es_Schedule o) (es_Timezone o) (st_LastSuccessTime st) now in
            match ac_Err act with
            | Some e =>
                Done (setSyncCondition gen ConditionFalse "InvalidSchedule" (err_text e) (set_sync_phase syncPhaseFailed st), Ok 0%Z)
            | None =>
                if negb (ac_Due act) then Done (idleSyncResult gen st act (es_Schedule o))
                else driveSync gen key (Some run) st jobPrefix (es_Name o)
            end
        end
  end.

Definition reconcileClusterSync (name : string) : syncP (result Z) :=
  let! got := sreq (SGet "" name) in
  match got with
  | Err e => Done (if IsNotFound e then Ok 0%Z else Err e)
  | Ok cs =>
      let! pass := syncPass ("cbes/" ++ es_Name cs) syncJobPrefixCluster clusterRun cs in
      commitSyncStatus cs pass ("ClusterBackupExternalSync " ++ es_Name cs)
  end.

Definition reconcileNamespacedSync (ns name : string) : syncP (result Z) :=
  let! got := sreq (SGet ns name) in
  match got with
  | Err e => Done (if IsNotFound e then Ok 0%Z else Err e)
  | Ok bs =>
      let! pass := syncPass ("bes/" ++ es_Namespace bs ++ "/" ++ es_Name bs) syncJobPrefixNamespaced namespaceRun bs in
      commitSyncStatus bs pass ("BackupExternalSync " ++ es_Namespace bs ++ "/" ++ es_Name bs)
  end.
End Controller.

(** ** The copy *)

(** What the copy asks beside the requests of a maintenance operation: the Secret of two
    repositories, and a Job of two remotes. *)
Inductive copy_action :=
| CCreateSecret (name : string) (data : list (string * string))
| CCreateJob (req : syncJobRequest).

Definition copyI : interface := mkInterface copy_action (fun _ => option gerr).
Notation copyP := (prog (sumI opI copyI)).

Section Copy.
Variable OperatorNamespace : string.

Definition creq (o : copy_action) : copyP (option gerr) := callR (I := opI) (J := copyI) o.
Definition cask (o : op_action) : copyP (op_answer o) := inject (ask o).

(** The values of one end's own credentials, under the names of its remote. *)
Definition readRemote (e : syncEndpoint) : copyP (result (list (string * string))) :=
  let ns := lb_CredsNamespace (se_Binding e) in
  let secret := lb_CredsSecret (se_Binding e) in
  let at_ := Describe (se_Binding e) ++ " from secret " ++ ns ++ "/" ++ secret in
  let! accessKey := cask (JReadSecret ns secret "AWS_ACCESS_KEY_ID") in
  match accessKey with
  | Err err => Done (Err (wrap_err ("read S3 access key for " ++ at_) err))
  | Ok accessKey =>
      let! secretKey := cask (JReadSecret ns secret "AWS_SECRET_ACCESS_KEY") in
      Done (match secretKey with
            | Err err => Err (wrap_err ("read S3 secret key for " ++ at_) err)
            | Ok secretKey => Ok [(RcloneRemoteEnv (se_Remote e) "ACCESS_KEY_ID", accessKey);
                                  (RcloneRemoteEnv (se_Remote e) "SECRET_ACCESS_KEY", secretKey)]
            end)
  end.

Definition ensureSyncCredsSecret (name : string) (run : syncRun) : copyP (option gerr) :=
  let! src := readRemote (sr_Source run) in
  match src with
  | Err e => Done (Some e)
  | Ok src =>
      let! dst := readRemote (sr_Dest run) in
      match dst with
      | Err e => Done (Some e)
      | Ok dst =>
          let! err := creq (CCreateSecret name
            ([("restic-password", se_Password (sr_Dest run)); ("restic-from-password", se_Password (sr_Source run))] ++ src ++ dst)%list) in
          Done (match err with
                | Some e => if IsAlreadyExists e then None
                            else Some (wrap_err ("create sync creds secret " ++ OperatorNamespace ++ "/" ++ name) e)
                | None => None
                end)
      end
  end.

(** [createMaintenanceJob], on the Job of a copy. *)
Fixpoint createSyncJob (fuel : nat) (req : syncJobRequest) : copyP outcome :=
  match fuel with
  | O => Done None
  | S fuel =>
      let path := jobPath OperatorNamespace (sj_Name req) in
      let! err := creq (CCreateJob req) in
      match err with
      | None => Done success
      | Some e =>
          if negb (IsAlreadyExists e) then Done (failure (wrap_err ("create " ++ mover_OpSync ++ " job " ++ path) e))
          else
            let! existing := cask (JGet (sj_Name req)) in
            match existing with
            | Err e =>
                if IsNotFound e then createSyncJob fuel req
                else Done (failure (wrap_err ("inspect existing " ++ mover_OpSync ++ " job " ++ path) e))
            | Ok existing =>
                match j_deletion existing with
                | None => Done success
                | Some _ =>
                    let! expired := cask JSelect in
                    match expired with
                    | Some e => Done (failure (wrap_err ("waiting for the previous " ++ mover_OpSync ++ " job " ++ path
                                                          ++ " to finish deleting") e))
                    | None => createSyncJob fuel req
                    end
                end
            end
      end
  end.

Definition copyBody (fuel : nat) (syncImage name : string) (run : syncRun) : copyP outcome :=
  let! err := ensureSyncCredsSecret name run in
  match err with
  | Some e => Done (failure e)
  | None =>
      let! created := createSyncJob fuel (buildSyncJobRequest syncImage name run) in
      match created with
      | Some None => inject (waitForMaintenanceJob OperatorNamespace fuel name zero_time)
      | _ => Done created
      end
  end.

Definition runSyncCopy (fuel : nat) (syncImage name : string) (run : syncRun) : copyP outcome :=
  let! r := copyBody fuel syncImage name run in
  let! _ := inject (deleteMaintenanceResources name) in
  Done r.
End Copy.

(** ** The measure *)

(** What the counts of a sync mean, in one step each. *)
Definition trueProgress (source dest : syncInventory) : syncProgress :=
  let there : gset string := list_to_set (IDs source) in
  let copies : gset string := map_img (Origins dest) in
  let copied := int32 (Z.of_nat (size (there ∩ copies))) in
  mkSyncProgress copied (Z.max (int32 (int32 (Z.of_nat (size there)) - copied)) 0)
    (sort_strings (elements (dom (filter (fun kv => kv.2 ∉ there) (Origins dest))))).

Lemma fold_compareStep (there : gset string) order c ex :
  fold_left (compareStep there) order (c, ex)
  = (c ∪ (there ∩ list_to_set order.*2), (ex ++ (filter (fun kv => kv.2 ∉ there) order).*1)%list).
Proof.
  revert c ex. induction order as [|[d o] order IH]; intros c ex; cbn [fold_left].
  - cbn. f_equal; [set_solver|by rewrite app_nil_r].
  - unfold compareStep at 2. cbn [fst snd]. rewrite filter_cons. cbn [snd]. case_bool_decide as Ho.
    + rewrite IH, decide_False by (intros H; by apply H). f_equal. cbn. set_solver.
    + rewrite IH, decide_True by done. f_equal; [cbn; set_solver|]. cbn. by rewrite <-app_assoc.
Qed.

Lemma compareIn_measured order source dest :
  order ≡ₚ map_to_list (Origins dest) -> compareIn order source = trueProgress source dest.
Proof.
  intros Hp. unfold compareIn, trueProgress. rewrite fold_compareStep. cbn [app].
  assert (list_to_set order.*2 = (map_img (Origins dest) : gset string)) as ->.
  { unfold map_img, map_to_set. apply set_eq. intros x. rewrite !elem_of_list_to_set, Hp. apply reflexivity. }
  rewrite union_empty_l_L. f_equal. apply sort_strings_proper. rewrite Hp.
  apply NoDup_Permutation.
  - pose proof (NoDup_fst_map_to_list (Origins dest)) as Hn. eapply sublist_NoDup; [exact Hn|]. apply fmap_sublist, sublist_filter.
  - apply NoDup_elements.
  - intros x. rewrite elem_of_elements, elem_of_dom, list_elem_of_fmap. split.
    + intros ([k o] & -> & [Ho Hin]%list_elem_of_filter). apply elem_of_map_to_list in Hin. exists o.
      by apply map_lookup_filter_Some.
    + intros [o [Hl Ho]%map_lookup_filter_Some]. exists (x, o). split; [done|]. apply list_elem_of_filter. split; [done|].
      by apply elem_of_map_to_list.
Qed.

(** In whatever order the loop over the destination's copies goes, it counts the source
    snapshots that are there as copies and those that are not, and its extras are exactly
    the copies whose original is gone: what was backed up at the destination itself is
    never one of them. *)
Theorem compareSync_measures order source dest :
  order ≡ₚ map_to_list (Origins dest) ->
  compareIn order source = trueProgress source dest /\ compareSync source dest = trueProgress source dest.
Proof. intros Hp. split; [by apply compareIn_measured|by apply (compareIn_measured _ _ dest)]. Qed.

(** *** Inventories *)

Definition inScope (namespaces : list string) (snaps : list syncSnapshot) (id : string) : Prop :=
  exists s, s ∈ snaps /\ snapshotInSyncScope (fst s) namespaces = true /\ s_ID (fst s) = id.

(** A copy in scope whose original is not at the source any more. *)
Definition goneAtSource (namespaces : list string) (src dst : list syncSnapshot) (id : string) : Prop :=
  exists d, d ∈ dst /\ snapshotInSyncScope (fst d) namespaces = true /\ s_ID (fst d) = id /\ snd d <> "" /\ ~ inScope namespaces src (snd d).

Lemma inventory_IDs ns snaps id : id ∈ IDs (inventoryOf ns snaps) <-> inScope ns snaps id.
Proof.
  unfold inventoryOf, inScope. setoid_rewrite list_elem_of_In. 
  assert (forall l inv, In id (IDs (fold_left addToInventory l inv)) <-> In id (IDs inv) \/ exists s, In s l /\ s_ID (fst s) = id) as H.
  { intros l. induction l as [|s l IH]; intros inv; cbn [fold_left]; [naive_solver|]. rewrite IH. cbn. rewrite in_app_iff. cbn. naive_solver. }
  rewrite H. cbn. setoid_rewrite filter_In. naive_solver.
Qed.

Lemma inventory_Origins ns snaps id o :
  Origins (inventoryOf ns snaps) !! id = Some o ->
  exists d, d ∈ snaps /\ snapshotInSyncScope (fst d) ns = true /\ s_ID (fst d) = id /\ snd d = o /\ o <> "".
Proof.
  unfold inventoryOf.
  assert (forall l inv, Origins (fold_left addToInventory l inv) !! id = Some o -> Origins inv !! id = Some o
    \/ exists d, In d l /\ s_ID (fst d) = id /\ snd d = o /\ o <> "") as H.
  { intros l. induction l as [|s l IH]; intros inv; cbn [fold_left]; [auto|]. intros [Hi|Hd]%IH; [|naive_solver].
    cbn in Hi. destruct (snd s =? "") eqn:E; [auto|]. apply lookup_insert_Some in Hi as [[Hk Hv]|[_ Hi]]; [|auto].
    right. exists s. apply String.eqb_neq in E. subst. by split; [left|]. }
  intros [Hi|(d & [Hd Hs]%filter_In & Hr)]%H; [done|]. exists d. split; [by apply list_elem_of_In|done].
Qed.

Lemma extra_gone ns src dst id :
  id ∈ sp_Extra (compareSync (inventoryOf ns src) (inventoryOf ns dst)) -> goneAtSource ns src dst id.
Proof.
  unfold compareSync. rewrite (compareIn_measured _ _ (inventoryOf ns dst)) by done. cbn. rewrite sort_strings_perm, elem_of_elements, elem_of_dom.
  intros [o [(d & Hd & Hsc & Hid & <- & Hne)%inventory_Origins Ho]%map_lookup_filter_Some].
  exists d. split_and!; [done..|]. cbn in Ho. by rewrite elem_of_list_to_set, inventory_IDs in Ho.
Qed.

(** ** What a pass does *)

Section Proofs.
Context `{CS : ConditionStore}.
Context (OperatorNamespace : string) (Parse : string -> string -> result Schedule).
Context (LabelSelectorAsSelector : LabelSelector -> result (labels -> bool)) (CompileRegexp : string -> result (string -> bool)).
Context (statusEqual : syncStatus -> syncStatus -> bool).

Notation act := (event syncI).
Notation ev o x := (Ev (I := syncI) o x).
Notation ending := (syncStatus * result Z)%type.
Notation clusterPass := (reconcileClusterSync OperatorNamespace Parse LabelSelectorAsSelector CompileRegexp statusEqual).
Notation namespacedPass := (reconcileNamespacedSync Parse statusEqual).

Lemma sreq_runs o tr x : runs (sreq o) tr x -> tr = [ev o x].
Proof. apply (runs_call (I := syncI)). Qed.

Ltac walk H := walk_with ltac:(fun R => apply sreq_runs in R) H.

(** The pass of either plane for the object of a name: no namespace, the cluster's. *)
Definition syncRuns (ns name : string) (tr : list act) (r : result Z) : Prop :=
  (ns = "" /\ runs (clusterPass name) tr r) \/ runs (namespacedPass ns name) tr r.

(** A run whose copy is done, to the knowledge of the pass. *)
Definition copyDone (tr : list act) (run : syncRun) : Prop :=
  exists key f, ev (SInflight key) (Some f) ∈ tr /\ sf_Run f = run /\ (sf_Copied f = true \/ ev (SPoll (sf_Handle f)) (Some None) ∈ tr).

(** The two listings of a run. *)
Definition listed (tr : list act) (run : syncRun) (src dst : list syncSnapshot) : Prop :=
  exists n1 n2, ev (SListFiltered (endRepo (sr_Source run)) n1) (Ok src) ∈ tr /\ ev (SListFiltered (endRepo (sr_Dest run)) n2) (Ok dst) ∈ tr.

Definition progressOf (run : syncRun) (src dst : list syncSnapshot) : syncProgress :=
  compareSync (inventoryOf (sr_Namespaces run) src) (inventoryOf (sr_Namespaces run) dst).

(** The removal a run asks for. *)
Definition forgetting (run : syncRun) (q : op_request) (ids : list string) : Prop :=
  q = mkOpRequest (rq_Name q) mover_OpForget ("forget" :: ids) (br_RepositoryURL (endRepo (sr_Dest run))) (se_Password (sr_Dest run))
        (lb_CredsSecret (se_Binding (sr_Dest run))) (lb_CredsNamespace (se_Binding (sr_Dest run))) (ss_Connections (se_S3 (sr_Dest run))).

(** A request that neither starts a copy nor removes anything, nor writes a status or
    what is in flight. *)
Definition plainSync (o : sync_action) : Prop :=
  match o with
  | SEnqueueCopy _ _ _ | SEnqueueForget _ _ | SStatus _ | STrack _ _ | SMarkCopied _ | SDrop _ => False
  | _ => True
  end.
Notation plain := (fun e : act => plainSync (ev_action e)).

(** The numbers are those of before. *)
Definition sameNumbers (st st' : syncStatus) : Prop :=
  st_LastSuccessTime st' = st_LastSuccessTime st /\ st_SnapshotsCopied st' = st_SnapshotsCopied st /\ st_LagSnapshots st' = st_LagSnapshots st
  /\ (st_Phase st' = syncPhaseCompleted -> st_Phase st = syncPhaseCompleted).

(** The numbers are those of the two listings, and nothing is left to remove. *)
Definition counted (tr : list act) (run : syncRun) (st' : syncStatus) : Prop :=
  exists src dst now, listed tr run src dst /\ ev SNow now ∈ tr /\ st_LastSuccessTime st' = Some now
    /\ st_SnapshotsCopied st' = sp_Copied (progressOf run src dst) /\ st_LagSnapshots st' = sp_Lag (progressOf run src dst)
    /\ (sr_Mode run = ExternalSyncModeMirror -> sp_Extra (progressOf run src dst) <> [] ->
        exists repoName q h, ev (SEnqueueForget repoName q) (Ok h) ∈ tr /\ forgetting run q (sp_Extra (progressOf run src dst))
          /\ ev (SAwait h) None ∈ tr).

(** What the settlement of a run did. *)
Record settled (run : syncRun) (tr : list act) (st : syncStatus) (e : ending) : Prop := mkSettled {
  settled_forgets : forall repoName q x, ev (SEnqueueForget repoName q) x ∈ tr ->
    sr_Mode run = ExternalSyncModeMirror /\ repoName = br_Name (endRepo (sr_Dest run))
    /\ exists src dst, listed tr run src dst /\ sp_Extra (progressOf run src dst) <> [] /\ forgetting run q (sp_Extra (progressOf run src dst));
  settled_only : forall f, f ∈ tr -> plainSync (ev_action f) \/ exists repoName q, ev_action f = SEnqueueForget repoName q;
  settled_numbers : sameNumbers st (fst e) \/ counted tr run (fst e);
  settled_result : exists d, snd e = Ok d
}.

Lemma partial_settled gen st message tr e :
  runs (partial gen st message) tr e -> tr = [ev (SEvent "SyncPartiallyFailed") tt] /\ sameNumbers st (fst e) /\ exists d, snd e = Ok d.
Proof. intros H. unfold partial in H. walk H. destruct x. walk H. cbn. split; [done|]. split; [|eauto]. by repeat split. Qed.

Lemma syncCompleted_settled gen run st progress tr e :
  runs (syncCompleted gen run st progress) tr e ->
  exists now, tr = [ev SNow now; ev (SEvent "SyncCompleted") tt] /\ st_LastSuccessTime (fst e) = Some now
    /\ st_SnapshotsCopied (fst e) = sp_Copied progress /\ st_LagSnapshots (fst e) = sp_Lag progress /\ exists d, snd e = Ok d.
Proof. intros H. unfold syncCompleted in H. walk H. walk H. destruct x0. walk H. exists x. cbn. eauto 10. Qed.

Lemma inventorySide_runs repo jobName ns tr inv :
  runs (inventorySide repo jobName ns) tr inv ->
  exists snaps, tr = [ev (SListFiltered repo jobName) snaps] /\ inv = match snaps with Ok snaps => Ok (inventoryOf ns snaps) | Err e => Err e end.
Proof. intros H. unfold inventorySide in H. walk H. walk H. by exists x. Qed.

Lemma mirrorForget_runs run p n extra tr err :
  runs (mirrorForget run p n extra) tr err ->
  exists q x, forgetting run q extra /\ 
    match x with
    | Ok h => tr = [ev (SEnqueueForget (br_Name (endRepo (sr_Dest run))) q) x; ev (SAwait h) err]
    | Err e => tr = [ev (SEnqueueForget (br_Name (endRepo (sr_Dest run))) q) x] /\ err = Some e
    end.
Proof.
  intros H. unfold mirrorForget, enqueueMirrorForget in H. walk H. eexists _, x. split; [|destruct x as [h|e]; [|by walk H]].
  - done.
  - apply sreq_runs in H. by rewrite H.
Qed.

(** A settlement that removed nothing. *)
Lemma settled_plain run tr st e :
  Forall plain tr -> sameNumbers st (fst e) \/ counted tr run (fst e) -> (exists d, snd e = Ok d) -> settled run tr st e.
Proof.
  rewrite Forall_forall. intros Hp Hn Hr. split; [|by left; apply Hp|done..]. intros repoName q x Hin. by apply Hp in Hin.
Qed.

Lemma settle_settled gen run st p n tr e : runs (settle gen run st p n) tr e -> settled run tr st e.
Proof.
  intros H. unfold settle in H. walk H. apply inventorySide_runs in R as (src & -> & ->). destruct src as [src|err].
  2: { apply partial_settled in H as (-> & Hn & Hr). apply settled_plain; [by repeat constructor|by left|done]. }
  walk H. apply inventorySide_runs in R as (dst & -> & ->). destruct dst as [dst|err].
  2: { apply partial_settled in H as (-> & Hn & Hr). apply settled_plain; [by repeat constructor|by left|done]. }
  fold (progressOf run src dst) in H.
  set (l1 := ev (SListFiltered _ _) (Ok src)) in *. set (l2 := ev (SListFiltered _ _) (Ok dst)) in *.
  assert (forall t, listed ([l1] ++ [l2] ++ t) run src dst) as Hl by (intros t; eexists _, _; split; [left|right; left]).
  destruct ((sr_Mode run =? ExternalSyncModeMirror) && _) eqn:Em.
  - apply andb_true_iff in Em as [Em%String.eqb_eq Ex%Nat.ltb_lt].
    assert (sp_Extra (progressOf run src dst) <> []) as Hx by (intros E; rewrite E in Ex; cbn in Ex; lia).
    walk H. apply mirrorForget_runs in R as (q & x1 & Hq & R).
    set (fg := ev (SEnqueueForget _ q) x1) in *.
    assert (forall u repoName q' x', ev (SEnqueueForget repoName q') x' ∈ u -> u = [fg] \/ (exists h, u = [fg; ev (SAwait h) x]) ->
      repoName = br_Name (endRepo (sr_Dest run)) /\ q' = q) as Hf.
    { intros u rn q' x' Hin [->|[h ->]].
      - apply list_elem_of_singleton in Hin. apply (f_equal (fun e : act => ev_action e)) in Hin. cbn in Hin. by injection Hin.
      - apply elem_of_cons in Hin as [Hin|Hin%list_elem_of_singleton]; apply (f_equal (fun e : act => ev_action e)) in Hin; cbn in Hin;
          [by injection Hin|done]. }
    assert (t = [fg] \/ exists h, t = [fg; ev (SAwait h) x]) as Ht.
    { destruct x1 as [h|e1]; [by right; exists h|by left; destruct R]. }
    assert (forall t2, Forall plain t2 -> sameNumbers st (fst e) \/ counted ([l1] ++ [l2] ++ t ++ t2) run (fst e) ->
      (exists d, snd e = Ok d) -> settled run ([l1] ++ [l2] ++ t ++ t2) st e) as Hs.
    { intros t2 Hp Hn Hr. rewrite Forall_forall in Hp. split; [| |done..].
      - intros rn q' x' Hin. assert (ev (SEnqueueForget rn q') x' ∈ t) as Hin'.
        { rewrite !elem_of_app, !list_elem_of_singleton in Hin.
          destruct Hin as [Hin|[Hin|[Hin|Hin]]]; [by apply (f_equal (fun e : act => ev_action e)) in Hin..|done|].
          by apply Hp in Hin. }
        destruct (Hf t rn q' x' Hin' Ht) as [-> ->]. split; [done|]. split; [done|]. exists src, dst. by split_and!.
      - intros f. rewrite !elem_of_app, !list_elem_of_singleton. intros [->|[->|[Hin|Hin]]]; [by left..| |by left; apply Hp].
        destruct Ht as [->|[h ->]]; [apply list_elem_of_singleton in Hin as ->; right; by eexists _, _|].
        apply elem_of_cons in Hin as [->|Hin%list_elem_of_singleton]; [right; by eexists _, _|subst f; by left]. }
    destruct x as [err|].
    + apply partial_settled in H as (-> & Hn & Hr). apply Hs; [by repeat constructor|by left|done].
    + walk H. destruct x. apply syncCompleted_settled in H as (now & -> & H1 & H2 & H3 & Hr).
      apply Hs; [by repeat constructor| |done]. right. exists src, dst, now. split_and!; [apply Hl|set_solver|done..|].
      intros _ _. destruct x1 as [h|e1]; [|by destruct R]. exists (br_Name (endRepo (sr_Dest run))), q, h. rewrite R.
      split_and!; [|done|]; set_solver.
  - apply syncCompleted_settled in H as (now & -> & H1 & H2 & H3 & Hr). apply settled_plain; [by repeat constructor| |done].
    right. exists src, dst, now. split_and!; [apply Hl|set_solver|done..|]. intros Hm Hx. exfalso.
    rewrite Hm in Em. cbn in Em. apply Hx. by destruct (sp_Extra _).
Qed.

(** *** A pass *)

(** The removals of a trace are those of a copy that is done. *)
Definition forgetsOnEvidence (tr : list act) : Prop :=
  forall repoName q x, ev (SEnqueueForget repoName q) x ∈ tr ->
  exists run src dst, copyDone tr run /\ listed tr run src dst /\ sr_Mode run = ExternalSyncModeMirror
    /\ repoName = br_Name (endRepo (sr_Dest run)) /\ sp_Extra (progressOf run src dst) <> []
    /\ forgetting run q (sp_Extra (progressOf run src dst)).

Definition numbersOnEvidence (tr : list act) (st st' : syncStatus) : Prop :=
  sameNumbers st st' \/ exists run, copyDone tr run /\ counted tr run st'.

Lemma listed_weaken tr tr' run src dst : tr ⊆ tr' -> listed tr run src dst -> listed tr' run src dst.
Proof. intros Hs (n1 & n2 & H1 & H2). exists n1, n2. auto. Qed.

Lemma copyDone_mono tr tr' run : tr ⊆ tr' -> copyDone tr run -> copyDone tr' run.
Proof. intros Hs (key & f & H1 & H2 & H3). exists key, f. naive_solver. Qed.

Lemma counted_mono tr tr' run st' : tr ⊆ tr' -> counted tr run st' -> counted tr' run st'.
Proof.
  intros Hs (src & dst & now & Hl & Hn & H1 & H2 & H3 & Hf). exists src, dst, now.
  split_and!; [by eapply listed_weaken|auto|done..|]. intros Hm Hx. destruct (Hf Hm Hx) as (rn & q & h & Ha & Hb & Hc).
  exists rn, q, h. auto.
Qed.

Lemma forgets_plain tr : Forall plain tr -> forgetsOnEvidence tr.
Proof. rewrite Forall_forall. intros H rn q x Hin. by apply H in Hin. Qed.

Lemma forgetsOnEvidence_around tr1 tr tr2 :
  (forall rn q x, ev (SEnqueueForget rn q) x ∈ tr1 ++ tr2 -> False)%list -> forgetsOnEvidence tr -> forgetsOnEvidence (tr1 ++ tr ++ tr2)%list.
Proof.
  intros Hn H rn q x Hin. assert (ev (SEnqueueForget rn q) x ∈ tr) as Hin'.
  { rewrite !elem_of_app in Hin. specialize (Hn rn q x). rewrite elem_of_app in Hn. naive_solver. }
  destruct (H rn q x Hin') as (run & src & dst & Hc & Hl & Hr). exists run, src, dst.
  split_and!; [eapply copyDone_mono; [|done]; set_solver|eapply listed_weaken; [|done]; set_solver|naive_solver..].
Qed.

Lemma numbers_around tr1 tr tr2 st st' : numbersOnEvidence tr st st' -> numbersOnEvidence (tr1 ++ tr ++ tr2)%list st st'.
Proof.
  intros [H|(run & Hc & Hn)]; [by left|]. right. exists run.
  split; [eapply copyDone_mono; [|done]; set_solver|eapply counted_mono; [|done]; set_solver].
Qed.

Definition isForget (o : sync_action) : bool := match o with SEnqueueForget _ _ => true | _ => false end.
Definition isCopy (o : sync_action) : bool := match o with SEnqueueCopy _ _ _ => true | _ => false end.
Definition isStatus (o : sync_action) : bool := match o with SStatus _ => true | _ => false end.
Definition isInflight (o : sync_action) : bool := match o with SInflight _ => true | _ => false end.
Notation lacks bad tr := (Forall (fun e : act => bad (ev_action e) = false) tr).
Notation lacking bad := (fun o => bad o = false).

Lemma lacks_forget tr rn q x : lacks isForget tr -> ev (SEnqueueForget rn q) x ∈ tr -> False.
Proof. rewrite Forall_forall. by intros H Hin%H. Qed.

Lemma settle_asks bad gen run st p n :
  (forall r j, bad (SListFiltered r j) = false) -> (forall r q, bad (SEnqueueForget r q) = false) -> (forall h, bad (SAwait h) = false) ->
  bad SNow = false -> (forall m, bad (SEvent m) = false) -> only (I := syncI) (lacking bad) (settle gen run st p n).
Proof.
  intros H1 H2 H3 H4 H5. unfold settle, inventorySide, partial, syncCompleted, mirrorForget, enqueueMirrorForget, sreq.
  asks_only ltac:(solve [auto]).
Qed.

Lemma driveSync_asks_no_status gen key run st p n : only (I := syncI) (lacking isStatus) (driveSync gen key run st p n).
Proof.
  unfold driveSync, finishSync, startCopy, enqueueSyncCopy, sreq.
  asks_only ltac:(first [apply settle_asks; solve [auto]|reflexivity]).
Qed.

(** The requests of the resolution of a run. *)
Definition resolving (o : sync_action) : Prop := plainSync o /\ isInflight o = false.

Lemma clusterRun_resolving o :
  only (I := syncI) resolving (clusterRun OperatorNamespace LabelSelectorAsSelector CompileRegexp o).
Proof.
  unfold clusterRun, clusterEndpoint, readRepository, resolveSelection, moded, sreq.
  asks_only ltac:(idtac; match goal with |- resolving _ => by split end).
Qed.

Lemma namespaceRun_resolving o : only (I := syncI) resolving (namespaceRun o).
Proof.
  unfold namespaceRun, namespaceEndpoint, readRepository, moded, sreq.
  asks_only ltac:(idtac; match goal with |- resolving _ => by split end).
Qed.

(** Nothing was removed but on the evidence of the trace, and the numbers are its. *)
Definition evident (tr : list act) (st : syncStatus) (e : ending) : Prop :=
  forgetsOnEvidence tr /\ numbersOnEvidence tr st (fst e).

Lemma evident_around tr1 tr tr2 st e :
  lacks isForget tr1 -> lacks isForget tr2 -> evident tr st e -> evident (tr1 ++ tr ++ tr2)%list st e.
Proof.
  intros H1 H2 [Hf Hn]. split; [|by apply numbers_around]. apply forgetsOnEvidence_around; [|done].
  intros rn q x [Hin|Hin]%elem_of_app; [exact (lacks_forget _ _ _ _ H1 Hin)|exact (lacks_forget _ _ _ _ H2 Hin)].
Qed.

Lemma evident_still tr st e : Forall plain tr -> sameNumbers st (fst e) -> evident tr st e.
Proof. intros Hp Hn. split; [by apply forgets_plain|by left]. Qed.

Lemma finish_evident pre gen key f st p n tr e :
  copyDone pre (sf_Run f) -> lacks isForget pre -> runs (finishSync gen key f st p n) tr e -> evident (pre ++ tr)%list st e.
Proof.
  intros Hc Hp H. unfold finishSync in H. apply runs_bind in H as (tr1 & tr2 & e1 & -> & H1 & H2).
  apply settle_settled in H1 as [Hf _ Hn _].
  assert (e = e1 /\ lacks isForget tr2) as [-> H3].
  { destruct (match snd e1 with Ok _ => _ | Err _ => _ end); [|by destruct H2 as [-> ->]].
    walk H2. walk H2. split; [done|by repeat constructor]. }
  rewrite <-(app_nil_r (pre ++ tr1 ++ tr2)%list), <-!app_assoc.
  assert (evident (pre ++ tr1)%list st e1) as He.
  { split.
    - intros rn q x [Hin|Hin]%elem_of_app; [exfalso; exact (lacks_forget _ _ _ _ Hp Hin)|].
      destruct (Hf rn q x Hin) as (Hm & Hr & src & dst & Hl & Hx & Hq). exists (sf_Run f), src, dst.
      split_and!; [eapply copyDone_mono; [|done]; set_solver|eapply listed_weaken; [|done]; set_solver|done..].
    - destruct Hn as [Hn|Hn]; [by left|right]. exists (sf_Run f).
      split; [eapply copyDone_mono; [|done]; set_solver|eapply counted_mono; [|done]; set_solver]. }
  apply (evident_around [] _ tr2) in He; [|done..]. by rewrite app_nil_r, <-app_assoc in *.
Qed.

Lemma drive_evident gen key run st p n tr e : runs (driveSync gen key run st p n) tr e -> evident tr st e.
Proof.
  intros H. unfold driveSync in H. walk H. destruct x as [f|].
  2: { destruct run as [run|]; [|walk H; apply evident_still; by repeat constructor]. unfold startCopy, enqueueSyncCopy in H.
       walk H. destruct x as [h|err]; [|walk H; split; [|by left]; intros rn q x Hin; exfalso; eapply lacks_forget; [|done]; by repeat constructor].
       walk H. walk H. walk H. walk H. split; [|left; by repeat split].
       intros rn q x' Hin. exfalso. eapply lacks_forget; [|done]. by repeat constructor. }
  destruct (sf_Copied f) eqn:Ec.
  - eapply finish_evident; [|by repeat constructor|exact H]. exists key, f. split; [left|]. by split; [|left].
  - walk H. destruct x as [[err|]|].
    + walk H. walk H. walk H. split; [|left; by repeat split]. intros rn q x' Hin. exfalso. eapply lacks_forget; [|done]. by repeat constructor.
    + walk H. destruct x. rewrite app_assoc, (app_assoc _ _ tr1) || idtac.
      match type of H with runs _ ?t _ => apply (finish_evident ([ev (SInflight key) (Some f)] ++ [ev (SPoll (sf_Handle f)) (Some None)]
        ++ [ev (SMarkCopied key) tt])%list) in H end; [by rewrite <-!app_assoc in H| |by repeat constructor].
      exists key, f. split; [left|]. split; [done|]. right. right. left.
    + walk H. apply evident_still; by repeat constructor.
Qed.

(** *** The resolution *)

Definition runnable (run : syncRun) : Prop :=
  syncEndpointReady (sr_Source run) "source" = None /\ syncEndpointReady (sr_Dest run) "destination" = None
  /\ sameEndpoint (sr_Source run) (sr_Dest run) = false
  /\ (lb_Immutable (se_Binding (sr_Dest run)) = true -> sr_Mode run = ExternalSyncModeAppendOnly).

(** A run within the selection of the object, which never widens to the whole repository. *)
Definition scopedTo (o : externalSync) (tr : list act) (run : syncRun) : Prop :=
  match es_Selection o with
  | None => sr_Namespaces run = []
  | Some sel => exists nss, ev SListNamespaces (Ok nss) ∈ tr
      /\ nsselector.Match LabelSelectorAsSelector CompileRegexp nss sel = Ok (sr_Namespaces run) /\ sr_Namespaces run <> []
  end.

(** What the resolution of an end leaves: an end that can be used, or the numbers as they were. *)
Definition endResolved (st : syncStatus) (side : string) (r : syncEndpoint + ending) : Prop :=
  match r with inl e => syncEndpointReady e side = None | inr stop => sameNumbers st (fst stop) end.

Lemma checkEndpoint_resolved gen st e side : endResolved st side (checkEndpoint gen st e side).
Proof. unfold checkEndpoint. destruct (syncEndpointReady e side) as [[reason message]|] eqn:E; [by repeat split|done]. Qed.

Lemma clusterEndpoint_resolved gen st name remote side tr r :
  runs (clusterEndpoint OperatorNamespace gen st name remote side) tr r -> endResolved st side r.
Proof.
  intros H. unfold clusterEndpoint, readRepository in H. walk H. destruct x as [[loc s3]|e].
  2: { walk H. destruct (IsNotFound e); by repeat split. }
  walk H. destruct x as [repo|e]; [|walk H; by repeat split]. walk H. walk H.
  destruct x as [dek|[reason message]]; [apply checkEndpoint_resolved|by repeat split].
Qed.

Lemma namespaceEndpoint_resolved gen st ns name remote side tr r :
  runs (namespaceEndpoint gen st ns name remote side) tr r -> endResolved st side r.
Proof.
  intros H. unfold namespaceEndpoint, readRepository in H. walk H. destruct x as [[loc s3]|e].
  2: { walk H. destruct (IsNotFound e); by repeat split. }
  walk H. destruct x as [repo|e]; [|walk H; by repeat split]. walk H. walk H.
  destruct x as [pw|e]; [apply checkEndpoint_resolved|by repeat split].
Qed.

Lemma moded_runs mode source dest nss tr r :
  syncEndpointReady source "source" = None -> syncEndpointReady dest "destination" = None -> sameEndpoint source dest = false ->
  runs (moded (CS := CS) mode source dest nss) tr r -> exists run, r = inl run /\ runnable run /\ sr_Namespaces run = nss.
Proof.
  intros H1 H2 H3 H. unfold moded in H. destruct (effectiveSyncMode mode (se_Binding dest)) as [m forced] eqn:E. walk H. walk H.
  eexists. split; [done|]. split; [|done]. split_and!; [done..|]. cbn. intros Hi. revert E. unfold effectiveSyncMode. rewrite Hi. cbn.
  destruct (mode =? ExternalSyncModeAppendOnly) eqn:Em; cbn; [|by intros [= <- _]]. apply String.eqb_eq in Em as ->. by intros [= <- _].
Qed.

(** What the resolution of a run leaves. *)
Definition runResolved (o : externalSync) (r : syncRun + ending) : Prop :=
  match r with inl run => runnable run | inr stop => sameNumbers (es_Status o) (fst stop) end.

Lemma clusterRun_resolved o tr r :
  runs (clusterRun OperatorNamespace LabelSelectorAsSelector CompileRegexp o) tr r ->
  runResolved o r /\ forall run, r = inl run -> scopedTo o tr run.
Proof.
  intros H. unfold clusterRun in H. walk H. apply clusterEndpoint_resolved in R. destruct x as [source|stop]; [|walk H; by split].
  walk H. apply clusterEndpoint_resolved in R0. destruct x as [dest|stop]; [|walk H; by split].
  destruct (sameEndpoint source dest) eqn:Es; [walk H; by split|].
  walk H. destruct x as [nss|e]; [|walk H; by split].
  apply moded_runs in H as (run & -> & Hr & Hn); [|done..]. split; [done|]. intros ? [= <-]. unfold scopedTo. unfold resolveSelection in R1.
  destruct (es_Selection o) as [sel|]; [|destruct R1 as [_ [= ->]]; done].
  walk R1. destruct R1 as [-> R1]. destruct x as [all|e]; [|done]. exists all.
  destruct (nsselector.Match _ _ _ _) as [[|n l]|e]; [done| |done]. injection R1 as ->. rewrite Hn.
  split_and!; [set_solver|done..].
Qed.

Lemma namespaceRun_resolved o tr r : runs (namespaceRun o) tr r -> runResolved o r.
Proof.
  intros H. unfold namespaceRun in H. walk H. apply namespaceEndpoint_resolved in R. destruct x as [source|stop]; [|by walk H].
  walk H. apply namespaceEndpoint_resolved in R0. destruct x as [dest|stop]; [|by walk H].
  destruct (sameEndpoint source dest) eqn:Es; [by walk H|].
  by apply moded_runs in H as (run & -> & Hr & Hn).
Qed.

(** *** The theorems *)

(** The pass of a plane whose run is resolved by [resolveRun]. *)
Lemma syncPass_evident key p resolveRun o tr e :
  only (I := syncI) resolving (resolveRun o) -> (forall tr r, runs (resolveRun o) tr r -> runResolved o r) ->
  runs (syncPass Parse key p resolveRun o) tr e -> evident tr (es_Status o) e.
Proof.
  intros Ho Hr H. unfold syncPass in H. walk H. destruct x as [f|].
  { apply drive_evident in H. rewrite <-(app_nil_r (_ ++ _)%list), <-app_assoc. apply evident_around; [by repeat constructor..|done]. }
  destruct (es_Paused o); [walk H; apply evident_still; by repeat constructor|].
  walk H. pose proof (only_runs _ _ _ _ Ho R) as Hp.
  assert (Forall plain t) as Hp1 by (eapply Forall_impl; [exact Hp|]; by intros ? []).
  assert (lacks isForget t) as Hp2 by (eapply Forall_impl; [exact Hp1|]; intros [[] ?]; done).
  apply Hr in R. destruct x as [run|stop].
  2: { walk H. apply evident_still; [|done]. rewrite app_nil_r. by constructor. }
  walk H. destruct (ac_Err _) as [err|].
  { walk H. apply evident_still; [|by repeat split]. constructor; [done|]. rewrite app_nil_r. apply Forall_app. by repeat constructor. }
  destruct (negb _).
  - walk H. apply evident_still; [|unfold idleSyncResult; by destruct (es_Schedule o =? "")].
    constructor; [done|]. rewrite app_nil_r. apply Forall_app. by repeat constructor.
  - apply drive_evident in H. apply (evident_around ([ev (SInflight key) None] ++ t ++ [ev SNow x])%list _ []) in H; [| |constructor].
    2: { apply Forall_app. split; [by repeat constructor|]. apply Forall_app. split; [done|by repeat constructor]. }
    by rewrite app_nil_r, <-!app_assoc in H.
Qed.

(** The two planes, as one. *)
(** The name under which the tracker knows an object of either plane. *)
Definition trackedAs (ns : string) (o : externalSync) (key : string) : Prop :=
  (ns = "" /\ key = ("cbes/" ++ es_Name o)%string) \/ key = ("bes/" ++ es_Namespace o ++ "/" ++ es_Name o)%string.

Lemma syncRuns_inv ns name tr r :
  syncRuns ns name tr r ->
  (exists e, tr = [ev (SGet ns name) (Err e)])
  \/ exists o tr1 tr2 e key p resolveRun d,
      tr = (ev (SGet ns name) (Ok o) :: tr1 ++ tr2)%list /\ runs (syncPass Parse key p resolveRun o) tr1 e
      /\ runs (commitSyncStatus statusEqual o e d) tr2 r
      /\ only (I := syncI) resolving (resolveRun o) /\ (forall tr r, runs (resolveRun o) tr r -> runResolved o r)
      /\ (forall u run, runs (resolveRun o) u (inl run) -> scopedTo o u run \/ runs (namespacedPass ns name) tr r)
      /\ trackedAs ns o key.
Proof.
  intros [[-> H]|H]; [|pose proof H as Hnp]; [unfold reconcileClusterSync in H|unfold reconcileNamespacedSync in H]; walk H;
    (destruct x as [o|err]; [right|left; walk H; by eexists]); walk H; cbn [app].
  - eexists o, _, _, x, _, _, _, _. split_and!; [done|exact R|exact H|apply clusterRun_resolving|..].
    + intros u r0 Hr. by apply clusterRun_resolved in Hr as [? _].
    + intros u run Hr. left. apply clusterRun_resolved in Hr as [_ Hs]. by apply Hs.
    + by left.
  - eexists o, _, _, x, _, _, _, _. split_and!; [done|exact R|exact H|apply namespaceRun_resolving|..].
    + intros u r0 Hr. by apply namespaceRun_resolved in Hr.
    + intros u run Hr. by right.
    + by right.
Qed.

(** The commitment writes the status of the pass, and asks for nothing else. *)
Lemma commit_runs o e d tr r :
  runs (commitSyncStatus statusEqual o e d) tr r -> tr = [] \/ exists x, tr = [ev (SStatus (set_es_status (fst e) o)) x].
Proof.
  intros H. unfold commitSyncStatus in H. destruct e as [st [res|err]]; [walk H; walk H; right; by eexists|].
  destruct (statusEqual _ _); [walk H; by left|]. walk H. walk H. right. by eexists.
Qed.

Lemma syncRuns_evident ns name tr r :
  syncRuns ns name tr r ->
  forgetsOnEvidence tr
  /\ forall o' x, ev (SStatus o') x ∈ tr -> exists o, ev (SGet ns name) (Ok o) ∈ tr /\ numbersOnEvidence tr (es_Status o) (es_Status o').
Proof.
  intros [[e ->]|(o & tr1 & tr2 & e & key & p & rr & d & -> & H1 & H2 & Ho & Hr & _ & _)]%syncRuns_inv.
  - split; [intros rn q x Hin; exfalso; eapply lacks_forget; [|exact Hin]; by repeat constructor|].
    intros o' x Hin%list_elem_of_singleton. by apply (f_equal (fun e : act => ev_action e)) in Hin.
  - assert (lacks isStatus tr1) as Hns.
    { assert (only (I := syncI) (lacking isStatus) (rr o)) as Hs by (by eapply only_impl; [|exact Ho]; intros [] [? ?]).
      apply (only_runs (I := syncI) (lacking isStatus) (syncPass Parse key p rr o) tr1 e); [|exact H1]. unfold syncPass, sreq.
      asks_only ltac:(first [match goal with |- only _ (driveSync _ _ _ _ _ _) => apply driveSync_asks_no_status end|exact Hs|reflexivity]). }
    apply (syncPass_evident _ _ _ _ _ _ Ho Hr) in H1. apply commit_runs in H2.
    apply (evident_around [ev (SGet ns name) (Ok o)] _ tr2) in H1 as [Hf Hn]; [|by repeat constructor|destruct H2 as [->|[x ->]]; by repeat constructor].
    cbn [app] in *. split; [done|]. intros o' x Hin. exists o. split; [left|].
    rewrite elem_of_cons, elem_of_app in Hin. destruct Hin as [Hin|[Hin|Hin]].
    + by apply (f_equal (fun e : act => ev_action e)) in Hin.
    + rewrite Forall_forall in Hns. by apply Hns in Hin.
    + destruct H2 as [->|[y ->]]; [by apply elem_of_nil in Hin|]. apply list_elem_of_singleton in Hin.
      apply (f_equal (fun e : act => match ev_action e with SStatus o => es_Status o | _ => es_Status o' end)) in Hin. cbn in Hin.
      by rewrite Hin.
Qed.

(** C18. Nothing is forgotten at a destination but in Mirror mode, after a copy known to be
    done, with both repositories listed in that very pass: by the ID of copies, each within
    the scope of the run, that were found at its destination and whose original was not found
    at its source. *)
Theorem mirror_forgets_only_what_is_gone ns name tr r repoName q x :
  syncRuns ns name tr r -> ev (SEnqueueForget repoName q) x ∈ tr ->
  exists run src dst ids, copyDone tr run /\ listed tr run src dst /\ sr_Mode run = ExternalSyncModeMirror
    /\ repoName = br_Name (endRepo (sr_Dest run)) /\ forgetting run q ids /\ ids <> []
    /\ forall id, id ∈ ids -> goneAtSource (sr_Namespaces run) src dst id.
Proof.
  intros [Hf _]%syncRuns_evident (run & src & dst & Hc & Hl & Hm & Hr & Hx & Hq)%Hf.
  exists run, src, dst, (sp_Extra (progressOf run src dst)). split_and!; [done..|]. intros id. apply extra_gone.
Qed.

(** C19. A status that a pass writes says of the last success, of what is copied and of what
    is left what the object said before, or what the two listings of that pass show of a run
    whose copy is done; it turns to Completed with them only, and in Mirror mode only once the
    copies whose originals are gone have been forgotten. *)
Theorem synced_numbers_are_measured ns name tr r o' x :
  syncRuns ns name tr r -> ev (SStatus o') x ∈ tr ->
  exists o, ev (SGet ns name) (Ok o) ∈ tr
    /\ (sameNumbers (es_Status o) (es_Status o') \/ exists run, copyDone tr run /\ counted tr run (es_Status o')).
Proof. intros [_ Hn]%syncRuns_evident. apply Hn. Qed.

(** Nothing is in flight. *)
Definition idle (tr : list act) : Prop := forall k f, ev (SInflight k) (Some f) ∉ tr.

(** The tracker was asked right before, and knew of nothing. *)
Definition askedBefore (key : string) (e : act) (tr : list act) : Prop :=
  exists pre post, tr = (pre ++ ev (SInflight key) None :: e :: post)%list.

Lemma askedBefore_app key e tr1 tr tr2 : askedBefore key e tr -> askedBefore key e (tr1 ++ tr ++ tr2).
Proof. intros (pre & post & ->). exists (tr1 ++ pre)%list, (post ++ tr2)%list. by rewrite <-!app_assoc. Qed.

Lemma lacks_copy tr lane job run x : lacks isCopy tr -> ev (SEnqueueCopy lane job run) x ∈ tr -> False.
Proof. rewrite Forall_forall. by intros H Hin%H. Qed.

Lemma lacks_idle tr : lacks isInflight tr -> idle tr.
Proof. rewrite Forall_forall. by intros H k f Hin%H. Qed.

Lemma idle_app tr1 tr2 : idle (tr1 ++ tr2) <-> idle tr1 /\ idle tr2.
Proof. unfold idle. setoid_rewrite elem_of_app. naive_solver. Qed.

Lemma idle_none key : idle [ev (SInflight key) None].
Proof.
  intros k f Hin%list_elem_of_singleton.
  by apply (f_equal (fun e : act => match e with Ev (SInflight _) (Some _) => true | _ => false end)) in Hin.
Qed.

Lemma startCopy_runs gen key run st p n tr e :
  runs (startCopy gen key run st p n) tr e ->
  lacks isInflight tr /\ forall lane job r x, ev (SEnqueueCopy lane job r) x ∈ tr ->
    r = run /\ lane = syncQueueKey (br_Name (endRepo (sr_Dest run))) /\ exists post, tr = (ev (SEnqueueCopy lane job r) x :: post)%list.
Proof.
  intros H. unfold startCopy, enqueueSyncCopy in H. walk H. destruct x as [h|err]; repeat walk H.
  all: split; [by repeat constructor|]; intros lane job r x' Hin; apply elem_of_cons in Hin as [Hin|Hin];
    [rewrite Hin; apply (f_equal (fun e : act => ev_action e)) in Hin; cbn in Hin; injection Hin as -> _ ->; (split_and!; [done|done|by eexists])|].
  all: exfalso; eapply lacks_copy; [|exact Hin]; by repeat constructor.
Qed.

Lemma driveSync_starts gen key run st p n tr e lane job r x :
  runs (driveSync gen key run st p n) tr e -> ev (SEnqueueCopy lane job r) x ∈ tr ->
  idle tr /\ run = Some r /\ lane = syncQueueKey (br_Name (endRepo (sr_Dest r))) /\ askedBefore key (ev (SEnqueueCopy lane job r) x) tr.
Proof.
  intros H Hin. unfold driveSync in H. walk H. destruct x0 as [f|].
  - exfalso. eapply lacks_copy; [|exact Hin]. constructor; [done|].
    match type of H with runs ?q _ _ => apply (only_runs (I := syncI) (lacking isCopy) q _ e); [|exact H] end.
    unfold finishSync, sreq. asks_only ltac:(first [apply settle_asks; solve [auto]|reflexivity]).
  - destruct run as [run|]; [|walk H; exfalso; eapply lacks_copy; [|exact Hin]; by repeat constructor].
    apply startCopy_runs in H as [Hi Hc]. apply elem_of_cons in Hin as [Hin|Hin];
      [by apply (f_equal (fun e : act => ev_action e)) in Hin|].
    destruct (Hc _ _ _ _ Hin) as (-> & -> & post & Hpost). split_and!; [|done|done|].
    + apply idle_app. split; [apply idle_none|by apply lacks_idle].
    + exists [], post. by rewrite Hpost.
Qed.

(** The copy of a pass, by its plane's way to resolve a run. *)
Lemma syncPass_starts key p resolveRun o tr e lane job run x :
  only (I := syncI) resolving (resolveRun o) ->
  runs (syncPass Parse key p resolveRun o) tr e -> ev (SEnqueueCopy lane job run) x ∈ tr ->
  es_Paused o = false /\ idle tr
  /\ (exists now, ev SNow now ∈ tr
      /\ ac_Due (syncSchedule Parse (es_Schedule o) (es_Timezone o) (st_LastSuccessTime (es_Status o)) now) = true)
  /\ lane = syncQueueKey (br_Name (endRepo (sr_Dest run))) /\ (exists u, u ⊆ tr /\ runs (resolveRun o) u (inl run))
  /\ askedBefore key (ev (SEnqueueCopy lane job run) x) tr.
Proof.
  intros Ho H Hin. unfold syncPass in H. walk H. destruct x0 as [f|].
  { apply elem_of_cons in Hin as [Hin|Hin]; [by apply (f_equal (fun e : act => ev_action e)) in Hin|].
    by destruct (driveSync_starts _ _ _ _ _ _ _ _ _ _ _ _ H Hin) as (_ & ? & _). }
  destruct (es_Paused o); [walk H; exfalso; eapply lacks_copy; [|exact Hin]; by repeat constructor|].
  walk H. pose proof (only_runs _ _ _ _ Ho R) as Hp. split; [done|].
  assert (lacks isCopy t /\ lacks isInflight t) as [Hc Hi].
  { split; (eapply Forall_impl; [exact Hp|]); intros [[] ?] [? ?]; done. }
  match type of H with runs _ ?u _ => assert (ev (SEnqueueCopy lane job run) x ∈ u) as Hin1 end.
  { rewrite !elem_of_app, list_elem_of_singleton in Hin. destruct Hin as [Hin|[Hin|Hin]]; [|exfalso; by eapply lacks_copy|done].
    by apply (f_equal (fun e : act => ev_action e)) in Hin. }
  clear Hin. destruct x0 as [run0|stop]; [|walk H; by apply elem_of_nil in Hin1].
  walk H. destruct (ac_Err _) as [err|].
  { walk H. apply list_elem_of_singleton in Hin1. by apply (f_equal (fun e : act => ev_action e)) in Hin1. }
  destruct (ac_Due _) eqn:Ed; cbn [negb] in H.
  2: { walk H. apply list_elem_of_singleton in Hin1. by apply (f_equal (fun e : act => ev_action e)) in Hin1. }
  apply elem_of_cons in Hin1 as [Hin|Hin]; [by apply (f_equal (fun e : act => ev_action e)) in Hin|].
  destruct (driveSync_starts _ _ _ _ _ _ _ _ _ _ _ _ H Hin) as (Hid & [= ->] & -> & Hbe). split_and!; [| |done| |].
  - apply idle_app. split; [apply idle_none|]. apply idle_app. split; [by apply lacks_idle|]. apply idle_app.
    split; [apply lacks_idle; by repeat constructor|done].
  - eexists. split; [|exact Ed]. set_solver.
  - exists t. split; [set_solver|done].
  - match type of H with runs _ ?u _ => match goal with |- askedBefore _ _ ?w =>
      replace w with ([ev (SInflight key) None] ++ t ++ [ev SNow x0] ++ u ++ [])%list by by rewrite app_nil_r end end.
    rewrite (app_assoc _ t), (app_assoc _ [_]). by apply askedBefore_app.
Qed.

(** C20. A copy is queued only for an object that was read in that pass, is not paused,
    and is due by its cron expression, its last success and the time the pass read; the request
    right before the copy asks the tracker for this very object, whose answer is that nothing
    is in flight, and no question to the tracker in the pass was answered otherwise. The copy is on the
    lane of its destination, between two repositories that are ready and are not the same, and
    never in Mirror mode to an immutable location. A copy of the cluster's plane takes the
    whole repository only when the object has no selection; with one it takes the
    namespaces which the selection matched in the list that was read, and those are not none. *)
Theorem copy_starts_when_due ns name tr r lane job run x :
  syncRuns ns name tr r -> ev (SEnqueueCopy lane job run) x ∈ tr ->
  exists o now key, ev (SGet ns name) (Ok o) ∈ tr /\ es_Paused o = false /\ idle tr /\ ev SNow now ∈ tr
    /\ ac_Due (syncSchedule Parse (es_Schedule o) (es_Timezone o) (st_LastSuccessTime (es_Status o)) now) = true
    /\ trackedAs ns o key /\ askedBefore key (ev (SEnqueueCopy lane job run) x) tr
    /\ lane = syncQueueKey (br_Name (endRepo (sr_Dest run))) /\ runnable run
    /\ (scopedTo o tr run \/ runs (namespacedPass ns name) tr r).
Proof.
  intros [[e ->]|(o & tr1 & tr2 & e & key & p & rr & d & -> & H1 & H2 & Ho & Hr & Hs & Hk)]%syncRuns_inv Hin.
  { apply list_elem_of_singleton in Hin. by apply (f_equal (fun e : act => ev_action e)) in Hin. }
  apply commit_runs in H2. assert (idle tr2 /\ lacks isCopy tr2) as [Hi2 Hc2].
  { destruct H2 as [->|[y ->]]; (split; [apply lacks_idle|]); by repeat constructor. }
  assert (ev (SEnqueueCopy lane job run) x ∈ tr1) as Hin1.
  { rewrite elem_of_cons, elem_of_app in Hin. destruct Hin as [Hin|[Hin|Hin]]; [|done|exfalso; by eapply lacks_copy].
    by apply (f_equal (fun e : act => ev_action e)) in Hin. }
  destruct (syncPass_starts _ _ _ _ _ _ _ _ _ _ Ho H1 Hin1) as (Hp & Hid & (now & Hn & Hd) & Hl & (u & Hu & Hru) & Hb).
  exists o, now, key. pose proof (Hr _ _ Hru) as Hrun. pose proof (Hs _ _ Hru) as Hsc.
  split_and!; [left|done| |set_solver|done|done| |done|done|].
  - change (idle ([ev (SGet ns name) (Ok o)] ++ tr1 ++ tr2)%list). rewrite !idle_app. split_and!; [|done..].
    apply lacks_idle. by repeat constructor.
  - by apply (askedBefore_app _ _ [ev (SGet ns name) (Ok o)] tr1 tr2).
  - destruct Hsc as [Hsc|Hsc]; [left|by right]. unfold scopedTo in *. destruct (es_Selection o); [|done].
    destruct Hsc as (nss & Hin' & Hm). exists nss. split; [set_solver|done].
Qed.
End Proofs.

(** ** The copy and its accounts *)

Section CopyProofs.
Context (OperatorNamespace : string).

Notation cevent := (event (sumI opI copyI)).
Notation asked o x := (evL copyI (Ev (I := opI) o x)).
Notation wrote o x := (Ev (I := sumI opI copyI) (inr o) x).

Lemma cask_runs o tr x : runs (cask o) tr x -> tr = [asked o x].
Proof. intros (tr' & -> & H)%(runs_inject (J := copyI)). apply (runs_call (I := opI)) in H as ->. done. Qed.

Lemma creq_runs o tr x : runs (creq o) tr x -> tr = [wrote o x].
Proof. intros H. by apply (runs_callR (I := opI) (J := copyI)) in H. Qed.

Ltac walk H := walk_with ltac:(fun R => first [apply cask_runs in R|apply creq_runs in R]) H.

(** The account of an end, as it was read for it. *)
Definition accountOf (e : syncEndpoint) (tr : list cevent) (data : list (string * string)) : Prop :=
  exists accessKey secretKey,
    asked (JReadSecret (lb_CredsNamespace (se_Binding e)) (lb_CredsSecret (se_Binding e)) "AWS_ACCESS_KEY_ID") (Ok accessKey) ∈ tr
    /\ asked (JReadSecret (lb_CredsNamespace (se_Binding e)) (lb_CredsSecret (se_Binding e)) "AWS_SECRET_ACCESS_KEY") (Ok secretKey) ∈ tr
    /\ data = [(RcloneRemoteEnv (se_Remote e) "ACCESS_KEY_ID", accessKey); (RcloneRemoteEnv (se_Remote e) "SECRET_ACCESS_KEY", secretKey)].

Lemma accountOf_mono e tr tr' data : tr ⊆ tr' -> accountOf e tr data -> accountOf e tr' data.
Proof. intros Hs (a & b & H1 & H2 & H3). exists a, b. auto. Qed.

Definition noSecret (e : cevent) : Prop := forall name data, ev_action e <> inr (CCreateSecret name data).

Lemma readRemote_account e tr r :
  runs (readRemote e) tr r -> Forall noSecret tr /\ match r with Ok data => accountOf e tr data | Err _ => True end.
Proof.
  intros H. unfold readRemote in H. walk H. destruct x as [ak|err]; [|walk H; by repeat constructor].
  walk H. walk H. split; [by repeat constructor|]. destruct x as [sk|err]; [|done]. exists ak, sk. split_and!; [left|right; left|done].
Qed.

(** The Secret of a copy holds the two passwords of its ends, the destination's under the
    plain name, and for the remote of each end the account read where that end's own
    credentials are. *)
Theorem copy_keeps_accounts_apart name run tr r n data x :
  runs (ensureSyncCredsSecret OperatorNamespace name run) tr r -> wrote (CCreateSecret n data) x ∈ tr ->
  n = name /\ exists src dst, accountOf (sr_Source run) tr src /\ accountOf (sr_Dest run) tr dst
    /\ data = (("restic-password", se_Password (sr_Dest run)) :: ("restic-from-password", se_Password (sr_Source run)) :: src ++ dst)%list.
Proof.
  intros H Hin. assert (forall t, Forall noSecret t -> wrote (CCreateSecret n data) x ∈ t -> False) as Hno.
  { intros t. rewrite Forall_forall. intros Hf Hi%Hf. by apply (Hi n data). }
  unfold ensureSyncCredsSecret in H. walk H. apply readRemote_account in R as [N1 A1]. rewrite elem_of_app in Hin.
  destruct Hin as [Hin|Hin]; [by apply Hno in Hin|]. destruct x0 as [src|e]; [|walk H; by apply elem_of_nil in Hin].
  walk H. apply readRemote_account in R as [N2 A2]. rewrite elem_of_app in Hin.
  destruct Hin as [Hin|Hin]; [by apply Hno in Hin|]. destruct x0 as [dst|e]; [|walk H; by apply elem_of_nil in Hin].
  walk H. walk H. apply list_elem_of_singleton in Hin. apply (f_equal (fun e : cevent => ev_action e)) in Hin. cbn in Hin.
  injection Hin as -> ->. split; [done|]. exists src, dst. split_and!; [eapply accountOf_mono; [|done]; set_solver..|done].
Qed.
End CopyProofs.

(** ** On concrete syncs *)

Definition wit_srepo (name : string) : BackupRepository := mkBackupRepository name ∅ None true ("s3:h:9000/" ++ name).
Definition wit_sstorage : syncStorage := mkSyncStorage "h:9000" "bucket" "" "" None.
Definition wit_send (remote name : string) : syncEndpoint :=
  mkSyncEndpoint remote (bindingFromClusterLocation (mkClusterBackupLocation name "creds" false "prod" false wit_retention) "ops") wit_sstorage
    (Some (wit_srepo name)) "key".
Definition wit_srun : syncRun := mkSyncRun (wit_send SyncRemoteSource "main") (wit_send SyncRemoteDest "alt") [] ExternalSyncModeMirror.

Definition wit_ssync (ns : string) : @externalSync MapConditionStore :=
  @mkExternalSync MapConditionStore ns "offsite" 1 false "" "" "" "main" "alt" None (@mkSyncStatus MapConditionStore "" None 0 0 ∅).

Definition wit_ssnap (id original : string) : syncSnapshot := (mkSnapshot id 5 "cid" [] [TagBase] None, original).

(** A server with one sync, whose copy may be in flight, done and to be accounted for, and
    with what the two repositories hold. *)
Definition wit_sserver (inflight : option syncInflight) (copied : option gerr) (src dst : list syncSnapshot)
    : server (@syncI MapConditionStore) :=
  fun _ o =>
    match o return sync_answer o with
    | SGet ns _ => Ok (wit_ssync ns)
    | SGetClusterLocation name => Ok (mkClusterBackupLocation name "creds" false "prod" false wit_retention, wit_sstorage)
    | SGetLocation _ _ => Err (mkErr ENotFound "")
    | SGetRepo name => Ok (wit_srepo name)
    | SPlatformDEK _ => inl "key"
    | SUserPassword _ _ _ => Ok "key"
    | SListNamespaces => Ok []
    | SInflight _ => inflight
    | STrack _ _ | SMarkCopied _ | SDrop _ | SEvent _ => tt
    | SEnqueueCopy _ _ _ => Ok 0
    | SEnqueueForget _ _ => Ok 1
    | SPoll _ => Some copied
    | SListFiltered repo _ => Ok (if br_Name repo =? "main" then src else dst)
    | SStatus _ | SAwait _ => None
    | SNow => 100%Z
    end.

Definition wit_spass (inflight : option syncInflight) (copied : option gerr) (src dst : list syncSnapshot) :=
  exec (wit_sserver inflight copied src dst)
    (reconcileClusterSync "ops" (fun _ _ => Err (errorf "")) (fun _ => Err (errorf "")) (fun _ => Err (errorf "")) (fun _ _ => false) "offsite") [].

Lemma wit_spass_runs inflight copied src dst :
  syncRuns "ops" (fun _ _ => Err (errorf "")) (fun _ => Err (errorf "")) (fun _ => Err (errorf "")) (fun _ _ => false) "" "offsite"
    (fst (wit_spass inflight copied src dst)) (snd (wit_spass inflight copied src dst)).
Proof. left. split; [reflexivity|]. unfold wit_spass. apply exec_runs. Qed.

Definition wit_sflight : syncInflight := mkSyncInflight 0 wit_srun 50 false.
Definition wit_ssource : list syncSnapshot := [wit_ssnap "s1" ""; wit_ssnap "s2" ""].
Definition wit_sdest : list syncSnapshot := [wit_ssnap "d1" "s1"; wit_ssnap "d0" "s0"; wit_ssnap "n0" ""].

Definition forgottenIn (tr : list (event (@syncI MapConditionStore))) : list (list string) :=
  omap (fun e : event (@syncI MapConditionStore) => match ev_action e with SEnqueueForget _ q => Some (rq_ResticArgs q) | _ => None end) tr.
Definition countsIn (tr : list (event (@syncI MapConditionStore))) : list (string * Z * Z) :=
  omap (fun e : event (@syncI MapConditionStore) => match ev_action e with SStatus o => let st := es_Status o in Some (st_Phase st, st_SnapshotsCopied st, st_LagSnapshots st) | _ => None end) tr.

(** The copy whose original is gone is forgotten; the native snapshot is not. *)
Example mirror_pass :
  forgottenIn (fst (wit_spass (Some wit_sflight) None wit_ssource wit_sdest)) = [["forget"; "d0"]]
  /\ countsIn (fst (wit_spass (Some wit_sflight) None wit_ssource wit_sdest)) = [("Completed", 1%Z, 1%Z)].
Proof. split; vm_compute; reflexivity. Qed.

(** A copy of another source's is a copy whose original is gone: of two Mirror syncs into
    one destination, each forgets what the other copies. *)
Example two_sources_forget_each_other :
  forgottenIn (fst (wit_spass (Some wit_sflight) None wit_ssource [wit_ssnap "d1" "s1"; wit_ssnap "e1" "t1"])) = [["forget"; "e1"]].
Proof. vm_compute; reflexivity. Qed.

Definition jobsIn (tr : list (event (@syncI MapConditionStore))) : list string :=
  omap (fun e : event (@syncI MapConditionStore) => match ev_action e with SListFiltered _ n => Some n | SEnqueueCopy _ n _ => Some n | _ => None end) tr.

(** Two tenants' syncs of one name use the same Jobs, by name, in the operator's namespace;
    and a Job of that name that is alive is taken for the copy, whoever's it is. *)
Example tenants_share_their_jobs :
  let jobs ns := jobsIn (fst (exec (wit_sserver (Some wit_sflight) None wit_ssource wit_sdest)
    (reconcileNamespacedSync (fun _ _ => Err (errorf "")) (fun _ _ => false) ns "offsite") [])) in
  jobs "team" = ["bes-offsite-src-inv"; "bes-offsite-dst-inv"] /\ jobs "rival" = jobs "team".
Proof. split; vm_compute; reflexivity. Qed.

(** A copy that failed is started again by the next pass: nothing of the failure is kept
    but the phase, and a sync that has not succeeded is due. *)
Example failed_copy_is_due_again :
  countsIn (fst (wit_spass (Some wit_sflight) (Some (errorf "down")) [] [])) = [("Failed", 0%Z, 0%Z)]
  /\ snd (wit_spass (Some wit_sflight) (Some (errorf "down")) [] []) = Ok (15 * second)%Z
  /\ jobsIn (fst (wit_spass None None [] [])) = ["cbes-offsite-copy"].
Proof. split_and!; vm_compute; reflexivity. Qed.

(** ** Witnesses *)

Notation sevent o x := (Ev (I := @syncI MapConditionStore) o x).

Lemma compareSync_measures_witness :
  let dest := inventoryOf [] wit_sdest in
  [("d0", "s0"); ("d1", "s1")] ≡ₚ map_to_list (Origins dest)
  /\ compareIn [("d0", "s0"); ("d1", "s1")] (inventoryOf [] wit_ssource) = mkSyncProgress 1 1 ["d0"].
Proof.
  assert ([("d0", "s0"); ("d1", "s1")] ≡ₚ map_to_list (Origins (inventoryOf [] wit_sdest))) as Hp.
  { vm_compute. first [reflexivity|apply Permutation_swap]. }
  split; [exact Hp|]. rewrite (proj1 (compareSync_measures _ (inventoryOf [] wit_ssource) (inventoryOf [] wit_sdest) Hp)).
  vm_compute. reflexivity.
Defined.

Definition wit_sforget : op_request :=
  mkOpRequest "cbes-offsite-mirror-forget" mover_OpForget ["forget"; "d0"] "s3:h:9000/alt" "key" "creds" "ops" None.

Definition wit_smirror := wit_spass (Some wit_sflight) None wit_ssource wit_sdest.

Lemma mirror_forgets_only_what_is_gone_witness :
  sevent (SEnqueueForget "alt" wit_sforget) (Ok 1) ∈ fst wit_smirror
  /\ exists run src dst ids, copyDone (fst wit_smirror) run /\ listed (fst wit_smirror) run src dst /\ forgetting run wit_sforget ids
    /\ ids <> [] /\ forall id, id ∈ ids -> goneAtSource (sr_Namespaces run) src dst id.
Proof.
  assert (sevent (SEnqueueForget "alt" wit_sforget) (Ok 1) ∈ fst wit_smirror) as Hin.
  { apply (list_elem_of_lookup_2 _ 7). vm_compute. reflexivity. }
  split; [exact Hin|].
  destruct (mirror_forgets_only_what_is_gone _ _ _ _ _ _ _ _ _ _ _ _ (wit_spass_runs _ _ _ _) Hin)
    as (run & src & dst & ids & H1 & H2 & _ & _ & H3 & H4 & H5).
  exists run, src, dst, ids. split_and!; [exact H1|exact H2|exact H3|exact H4|exact H5].
Defined.

(** What the last status of a pass is, and the copy it starts. *)
Definition wit_sstatus : @externalSync MapConditionStore :=
  default (wit_ssync "") (head (omap (fun e : event (@syncI MapConditionStore) => match ev_action e with SStatus o => Some o | _ => None end) (fst wit_smirror))).
Definition wit_sfresh := wit_spass None None [] [].

Definition untried (e : event (@syncI MapConditionStore)) : bool :=
  match e with Ev (SGet _ _) (Ok o) => negb (st_Phase (es_Status o) =? syncPhaseCompleted) | _ => true end.

Lemma synced_numbers_are_measured_witness :
  sevent (SStatus wit_sstatus) None ∈ fst wit_smirror /\ st_Phase (es_Status wit_sstatus) = syncPhaseCompleted
    /\ exists run, copyDone (fst wit_smirror) run /\ counted (fst wit_smirror) run (es_Status wit_sstatus).
Proof.
  assert (sevent (SStatus wit_sstatus) None ∈ fst wit_smirror) as Hin.
  { apply (list_elem_of_lookup_2 _ 13). vm_compute. reflexivity. }
  assert (st_Phase (es_Status wit_sstatus) = syncPhaseCompleted) as Hp by (vm_compute; reflexivity).
  assert (forallb untried (fst wit_smirror) = true) as Hu by (vm_compute; reflexivity).
  split; [exact Hin|]. split; [exact Hp|].
  destruct (synced_numbers_are_measured _ _ _ _ _ _ _ _ _ _ _ (wit_spass_runs _ _ _ _) Hin) as (o0 & Ho & [Hs|H]); [exfalso|exact H].
  destruct Hs as (_ & _ & _ & Hs). apply Hs in Hp. rewrite forallb_forall in Hu. apply list_elem_of_In in Ho. apply Hu in Ho.
  cbn [untried] in Ho. rewrite Hp in Ho. discriminate.
Defined.

Lemma copy_starts_when_due_witness :
  sevent (SEnqueueCopy "sync/alt" "cbes-offsite-copy" wit_srun) (Ok 0) ∈ fst wit_sfresh
    /\ idle (fst wit_sfresh) /\ runnable wit_srun.
Proof.
  assert (sevent (SEnqueueCopy "sync/alt" "cbes-offsite-copy" wit_srun) (Ok 0) ∈ fst wit_sfresh) as Hin.
  { apply (list_elem_of_lookup_2 _ 10). vm_compute. reflexivity. }
  split; [exact Hin|].
  destruct (copy_starts_when_due _ _ _ _ _ _ _ _ _ _ _ _ _ (wit_spass_runs _ _ _ _) Hin) as (o & now & key & _ & _ & Hi & _ & _ & _ & _ & _ & Hr & _).
  split; [exact Hi|exact Hr].
Defined.
