(* ===== verification/MoverJob.v ===== *)
(** * MoverJob: from a request to the Job of a mover
    (internal/mover: job.go, profiles.go, placement.go)

    [BuildJob] turns a request into the Job that runs it: the container's arguments, its
    environment, its volumes, what it may do and where it may run.  The sizing comes of a
    table of profiles, built in and overridden from a file; the placement comes of another
    file.  Both files are read once, when the operator starts, and a faulty one stops it. *)

From Stdlib Require Import Ascii String.
From Stdlib Require SpecFloat.
From S2P Require Import Prelude GoText Cluster Selectors Names Restic.
From S2P Require Import Location.
From S2P Require Import MaintenanceJob.
From S2P Require Import DiscoveryLister.
From S2P Require Import ExternalSync.
From S2P Require Import Program.

#[local] Open Scope string_scope.
#[local] Notation length := List.length.

(** ** Operations *)

Definition OpBackup : string := "backup".
Definition OpRestore : string := "restore".
Definition OpInit : string := "init".
Definition OpForget : string := "forget".
Definition OpPrune : string := "prune".
Definition OpCheck : string := "check".
Definition OpSnapshots : string := "snapshots".
Definition OpUnlock : string := "unlock".
Definition OpManifestsBackup : string := "manifests-backup".
Definition OpManifestsRestore : string := "manifests-restore".
Definition OpSync : string := "sync".
Definition OpClusterManifestsBackup : string := "cluster-manifests-backup".
Definition OpClusterManifestsRestore : string := "cluster-manifests-restore".

(** ** Quantities *)

(** apimachinery's resource.Quantity. *)
Class Quantities := {
  quantity : Type;
  ParseQuantity : string -> result quantity;
  quantityValue : quantity -> Z;                     (* Value, rounded up *)
  quantityCmp : quantity -> quantity -> comparison;
  quantitySign : quantity -> Z;
  quantityString : quantity -> string
}.

(** [float64(v)], [x * y] and [int64(x)] of Go, which is IEEE 754's binary64. *)
Definition float64 (v : Z) : SpecFloat.spec_float := SpecFloat.binary_normalize 53 1024 v 0 false.
Definition float_mul : SpecFloat.spec_float -> SpecFloat.spec_float -> SpecFloat.spec_float := SpecFloat.SFmul 53 1024.
Definition float_div : SpecFloat.spec_float -> SpecFloat.spec_float -> SpecFloat.spec_float := SpecFloat.SFdiv 53 1024.
Definition float_trunc (x : SpecFloat.spec_float) : Z :=
  match x with
  | SpecFloat.S754_finite s m e =>
      let n := if (0 <=? e)%Z then (Z.pos m * 2 ^ e)%Z else (Z.pos m / 2 ^ (- e))%Z in
      if s then (- n)%Z else n
  | _ => 0%Z
  end.

(** The double nearest to 0.8. *)
Definition goMemLimitFraction : SpecFloat.spec_float := SpecFloat.S754_finite false 7205759403792794 (-53).

Section MoverJob.
Context `{Q : Quantities}.

(** ** Profiles *)

Record profileSpec := mkProfileSpec {
  class : string;
  cpuRequest : string;
  memoryRequest : string;
  cpuLimit : string;
  memoryLimit : string;
  cacheSizeLimit : string
}.

Definition defaultCacheSizeLimit : string := "20Gi".
Definition classData : profileSpec := mkProfileSpec "data" "200m" "256Mi" "" "4Gi" defaultCacheSizeLimit.
Definition classRepoHeavy : profileSpec := mkProfileSpec "repo-heavy" "500m" "1Gi" "" "8Gi" defaultCacheSizeLimit.
Definition classRepoLight : profileSpec := mkProfileSpec "repo-light" "50m" "128Mi" "" "1Gi" defaultCacheSizeLimit.
Definition classManifests : profileSpec := mkProfileSpec "manifests" "100m" "256Mi" "" "2Gi" defaultCacheSizeLimit.

Definition builtinSpecs : gmap string profileSpec :=
  list_to_map [(OpBackup, classData); (OpRestore, classData);
    (OpPrune, classRepoHeavy); (OpCheck, classRepoHeavy); (OpSync, classRepoHeavy);
    (OpInit, classRepoLight); (OpForget, classRepoLight); (OpSnapshots, classRepoLight); (OpUnlock, classRepoLight);
    (OpManifestsBackup, classManifests); (OpManifestsRestore, classManifests);
    (OpClusterManifestsBackup, classManifests); (OpClusterManifestsRestore, classManifests)].

Definition DefaultProfileKey : string := "default".
Definition unboundedQuantity : string := "0".

(** A [corev1.ResourceList] with the two resources there are here. *)
Record resources := mkResources { res_CPU : option quantity; res_Memory : option quantity }.
Record Profile := mkProfile { Requests : resources; Limits : resources; CacheSizeLimit : option quantity }.

Notation mib := (1048576)%Z (only parsing).

Definition goMemLimitFloor : Z := (256 * mib)%Z.

(** The comparison with the floor is of two whole quantities. *)
Definition GoMemLimit (p : Profile) : string :=
  match res_Memory (Limits p) with
  | None => ""
  | Some limit =>
      let n := float_trunc (float_div (float_mul (float64 (quantityValue limit)) goMemLimitFraction) (float64 mib)) in
      if (n <=? 0)%Z then ""
      else if (n * mib <? goMemLimitFloor)%Z then ""
      else Itoa n ++ "MiB"
  end.

Definition optionalQuantity (value field : string) : result (option quantity) :=
  if (value =? "") || (value =? unboundedQuantity) then Ok None
  else
    match ParseQuantity value with
    | Err e => Err (wrap_err (field ++ ": " ++ quoted value ++ " is not a valid quantity") e)
    | Ok q => if (quantitySign q <? 0)%Z then Err (errorf (field ++ ": " ++ quoted value ++ " is negative")) else Ok (Some q)
    end.

#[local] Open Scope result_scope.

Definition resourceList (cpu memory half : string) : result resources :=
  let? cpu := optionalQuantity cpu (half ++ ".cpu") in
  let? memory := optionalQuantity memory (half ++ ".memory") in
  Ok (mkResources cpu memory).

(** The iteration of [resolve]'s loop for one resource. *)
Definition withinLimit (name : string) (request limit : option quantity) : result unit :=
  match request, limit with
  | Some r, Some l =>
      match quantityCmp r l with
      | Gt => Err (errorf ("requests." ++ name ++ " (" ++ quantityString r ++ ") exceeds limits." ++ name ++ " (" ++ quantityString l ++ ")"))
      | _ => Ok tt
      end
  | _, _ => Ok tt
  end.

Definition resolveSpec (s : profileSpec) : result Profile :=
  let? requests := resourceList (cpuRequest s) (memoryRequest s) "requests" in
  let? limits := resourceList (cpuLimit s) (memoryLimit s) "limits" in
  let? _ := withinLimit "cpu" (res_CPU requests) (res_CPU limits) in
  let? _ := withinLimit "memory" (res_Memory requests) (res_Memory limits) in
  let? cache := optionalQuantity (cacheSizeLimit s) "cacheSizeLimit" in
  Ok (mkProfile requests limits cache).

#[local] Close Scope result_scope.

Record ResourceOverride := mkResourceOverride { ro_CPU : string; ro_Memory : string }.
Record ProfileOverride := mkProfileOverride {
  po_Requests : option ResourceOverride;
  po_Limits : option ResourceOverride;
  po_CacheSizeLimit : string
}.

Definition orKeep (given kept : string) : string := if given =? "" then kept else given.
Definition overrideOf (o : option ResourceOverride) : ResourceOverride := default (mkResourceOverride "" "") o.

Definition apply_override (s : profileSpec) (o : ProfileOverride) : profileSpec :=
  mkProfileSpec (class s)
    (orKeep (ro_CPU (overrideOf (po_Requests o))) (cpuRequest s)) (orKeep (ro_Memory (overrideOf (po_Requests o))) (memoryRequest s))
    (orKeep (ro_CPU (overrideOf (po_Limits o))) (cpuLimit s)) (orKeep (ro_Memory (overrideOf (po_Limits o))) (memoryLimit s))
    (orKeep (po_CacheSizeLimit o) (cacheSizeLimit s)).

Notation Profiles := (gmap string Profile).
Notation overrides := (gmap string ProfileOverride).

(** [if o, ok := overrides[key]; ok { merged = merged.apply(o) }]. *)
Definition applyFrom (o : overrides) (key : string) (s : profileSpec) : profileSpec :=
  match o !! key with Some o => apply_override s o | None => s end.

Definition mergedSpec (o : overrides) (op : string) (s : profileSpec) : profileSpec :=
  applyFrom o op (applyFrom o DefaultProfileKey s).

Definition operationNames : list string := sort_strings (map fst (map_to_list builtinSpecs)).

(** The first loop of [LoadProfiles], over the keys in the order Go visits them. *)
Fixpoint checkKeys (keys : list string) : option gerr :=
  match keys with
  | [] => None
  | key :: keys =>
      if key =? DefaultProfileKey then checkKeys keys
      else match builtinSpecs !! key with
           | Some _ => checkKeys keys
           | None => Some (errorf ("mover profile " ++ quoted key ++ " names no operation; valid keys are " ++ DefaultProfileKey
                                     ++ " and " ++ String.concat ", " operationNames))
           end
  end.

(** The second, over the built-in table. *)
Fixpoint resolveAll (o : overrides) (specs : list (string * profileSpec)) (out : Profiles) : result Profiles :=
  match specs with
  | [] => Ok out
  | (op, spec) :: specs =>
      match resolveSpec (mergedSpec o op spec) with
      | Err e => Err (wrap_err ("mover profile " ++ quoted op) e)
      | Ok profile => resolveAll o specs (<[op := profile]> out)
      end
  end.

(** [LoadProfiles], once the file is parsed; both orders are Go's choice. *)
Definition LoadProfiles (parsed : result overrides) (keys : list string) (specs : list (string * profileSpec)) : result Profiles :=
  match parsed with
  | Err e => Err (wrap_err "parse mover profiles" e)
  | Ok o => match checkKeys keys with Some e => Err e | None => resolveAll o specs ∅ end
  end.

(** [Profiles.For]; [None] is the panic on a malformed built-in. *)
Definition profileFor (p : Profiles) (op : string) : option Profile :=
  match p !! op with
  | Some resolved => Some resolved
  | None => match resolveSpec (default classRepoLight (builtinSpecs !! op)) with Ok p => Some p | Err _ => None end
  end.

(** ** Placement *)

Record Toleration := mkToleration {
  tol_Key : string;
  tol_Operator : string;
  tol_Value : string;
  tol_Effect : string;
  tol_Seconds : option Z
}.
Record NodeSelectorRequirement := mkNodeSelectorRequirement { nr_Key : string; nr_Operator : string; nr_Values : list string }.
Record NodeSelectorTerm := mkNodeSelectorTerm { nt_MatchExpressions : list NodeSelectorRequirement; nt_MatchFields : list NodeSelectorRequirement }.
Record NodeAffinity := mkNodeAffinity {
  na_Required : option (list NodeSelectorTerm);
  na_Preferred : list (Z * NodeSelectorTerm)            (* with its weight *)
}.

(** Affinities between pods, which nothing here looks into. *)
Context {podAffinity podAntiAffinity : Type}.
(** apimachinery's validation: what is wrong with a label's name or value. *)
Variables IsQualifiedName IsValidLabelValue : string -> list string.

Record Affinity := mkAffinity {
  af_Node : option NodeAffinity;
  af_Pod : option podAffinity;
  af_PodAnti : option podAntiAffinity
}.
Record Placement := mkPlacement {
  pl_NodeSelector : labels;
  pl_Tolerations : list Toleration;
  pl_Affinity : option Affinity
}.

Definition placementIsZero (p : Placement) : bool :=
  bool_decide (pl_NodeSelector p = ∅) && (length (pl_Tolerations p) =? 0)%nat && match pl_Affinity p with None => true | Some _ => false end.

(** [forJob]: the three fields a Job of this placement carries. *)
Definition forJob (p : Placement) (pinned : bool) : labels * list Toleration * option Affinity :=
  if pinned then (∅, pl_Tolerations p, None) else (pl_NodeSelector p, pl_Tolerations p, pl_Affinity p).

Definition normalize (p : Placement) : Placement :=
  mkPlacement (pl_NodeSelector p) (pl_Tolerations p)
    (match pl_Affinity p with Some (mkAffinity None None None) => None | a => a end).

Definition complaints (prefix : string) (errs : list string) : option gerr :=
  match errs with [] => None | _ => Some (errorf (prefix ++ ": " ++ String.concat "; " errs)) end.

(** The first error of a list of checks. *)
Fixpoint firstError {A} (check : nat -> A -> option gerr) (i : nat) (l : list A) : option gerr :=
  match l with
  | [] => None
  | x :: l => match check i x with Some e => Some e | None => firstError check (S i) l end
  end.

Definition or_else (a b : option gerr) : option gerr := match a with Some e => Some e | None => b end.

Definition at_index (prefix suffix : string) (i : nat) (e : option gerr) : option gerr :=
  match e with Some e => Some (wrap_err (prefix ++ "[" ++ Itoa (Z.of_nat i) ++ "]" ++ suffix) e) | None => None end.

Definition validateRequirement (r : NodeSelectorRequirement) : option gerr :=
  let op := nr_Operator r in
  let n := length (nr_Values r) in
  or_else
    (if (op =? "In") || (op =? "NotIn") then
       if (n =? 0)%nat then Some (errorf ("operator " ++ quoted op ++ " requires at least one value")) else None
     else if (op =? "Exists") || (op =? "DoesNotExist") then
       if (0 <? n)%nat then Some (errorf ("operator " ++ quoted op ++ " takes no values, but " ++ Itoa (Z.of_nat n) ++ " were given")) else None
     else if (op =? "Gt") || (op =? "Lt") then
       match nr_Values r with
       | [v] => match ParseInt v with
                | Some _ => None
                | None => Some (errorf ("operator " ++ quoted op ++ " compares integers, but the value is " ++ quoted v))
                end
       | _ => Some (errorf ("operator " ++ quoted op ++ " takes exactly one value, but " ++ Itoa (Z.of_nat n) ++ " were given"))
       end
     else Some (errorf ("operator " ++ quoted op ++ " is not one of In, NotIn, Exists, DoesNotExist, Gt, Lt")))
    (complaints ("key " ++ quoted (nr_Key r)) (IsQualifiedName (nr_Key r))).

Definition validateTerm (term : NodeSelectorTerm) : option gerr :=
  or_else (firstError (fun i r => at_index "matchExpressions" "" i (validateRequirement r)) 0 (nt_MatchExpressions term))
    (or_else (firstError (fun i r => at_index "matchFields" "" i (validateRequirement r)) 0 (nt_MatchFields term))
      (if (length (nt_MatchExpressions term) =? 0)%nat && (length (nt_MatchFields term) =? 0)%nat
       then Some (errorf "has neither matchExpressions nor matchFields; an empty term matches no node") else None)).

Definition validateNodeAffinity (na : NodeAffinity) : option gerr :=
  let required := "requiredDuringSchedulingIgnoredDuringExecution" in
  let preferred := "preferredDuringSchedulingIgnoredDuringExecution" in
  or_else
    (match na_Required na with
     | None => None
     | Some terms =>
         if (length terms =? 0)%nat
         then Some (errorf (required ++ " has no nodeSelectorTerms; an empty term list matches NO node, so every mover would be unschedulable"))
         else firstError (fun i t => at_index (required ++ ".nodeSelectorTerms") "" i (validateTerm t)) 0 terms
     end)
    (firstError (fun i '(weight, preference) =>
       if ((weight <? 1) || (100 <? weight))%Z
       then Some (errorf (preferred ++ "[" ++ Itoa (Z.of_nat i) ++ "]: weight " ++ Itoa weight ++ " is outside 1..100"))
       else at_index preferred ".preference" i (validateTerm preference)) 0 (na_Preferred na)).

Definition tolerationEffects : list string := ["NoSchedule"; "PreferNoSchedule"; "NoExecute"].

Definition validateToleration (t : Toleration) : option gerr :=
  let op := tol_Operator t in
  or_else
    (if (op =? "") || (op =? "Equal") then
       if (tol_Key t =? "") && negb (tol_Value t =? "")
       then Some (errorf ("an empty key with operator " ++ quoted "Equal" ++ " matches nothing; use operator Exists to tolerate every taint"))
       else None
     else if op =? "Exists" then
       if negb (tol_Value t =? "")
       then Some (errorf ("operator Exists takes no value, but value is " ++ quoted (tol_Value t)
                            ++ " — the API server rejects this, so it would fail on the first mover Job rather than here"))
       else None
     else Some (errorf ("operator " ++ quoted op ++ " is not one of " ++ quoted "Equal" ++ ", " ++ quoted "Exists"
                          ++ " (or empty, which means " ++ quoted "Equal" ++ ")")))
  (or_else (if tol_Key t =? "" then None else complaints ("key " ++ quoted (tol_Key t)) (IsQualifiedName (tol_Key t)))
  (or_else (if negb (tol_Effect t =? "") && negb (existsb (String.eqb (tol_Effect t)) tolerationEffects)
            then Some (errorf ("effect " ++ quoted (tol_Effect t) ++ " is not one of [" ++ String.concat " " tolerationEffects
                                 ++ "] (or empty, which tolerates every effect)"))
            else None)
           (match tol_Seconds t with
            | Some _ => if tol_Effect t =? "NoExecute" then None
                        else Some (errorf ("tolerationSeconds only applies to effect " ++ quoted "NoExecute" ++ ", but effect is " ++ quoted (tol_Effect t)))
            | None => None
            end))).

(** The labels in the order Go visits them. *)
Definition validateSelector (entries : list (string * string)) : option gerr :=
  firstError (fun _ '(key, value) =>
    or_else (complaints ("mover placement nodeSelector key " ++ quoted key) (IsQualifiedName key))
            (complaints ("mover placement nodeSelector " ++ quoted key ++ " value " ++ quoted value) (IsValidLabelValue value)))
    0 entries.

Definition validatePlacement (entries : list (string * string)) (p : Placement) : option gerr :=
  or_else (validateSelector entries)
  (or_else (firstError (fun i t => at_index "mover placement tolerations" "" i (validateToleration t)) 0 (pl_Tolerations p))
           (match pl_Affinity p with
            | Some a => match af_Node a with
                        | Some na => option_map (wrap_err "mover placement affinity.nodeAffinity") (validateNodeAffinity na)
                        | None => None
                        end
            | None => None
            end)).

(** [LoadPlacement], once the file is parsed. *)
Definition LoadPlacement (parsed : result Placement) (entries : list (string * string)) : result Placement :=
  match parsed with
  | Err e => Err (wrap_err "parse mover placement" e)
  | Ok p => match validatePlacement entries p with Some e => Err e | None => Ok (normalize p) end
  end.

(** ** The Job *)

Record PVCMount := mkPVCMount { pvc_ClaimName : string; pvc_MountPath : string; pvc_ReadWrite : bool }.

Record moverRequest := mkMoverRequest {
  mr_Name : string;
  mr_Namespace : string;
  mr_Image : string;
  mr_Operation : string;
  mr_ResticArgs : list string;
  mr_RepoURL : string;
  mr_SecretName : string;
  mr_PVC : option PVCMount;
  mr_Labels : labels;
  mr_BackoffLimit : Z;
  mr_TTLSeconds : Z;
  mr_ExtraEnv : list (string * string);
  mr_TraceEnv : gmap string string;
  mr_CredentialKeys : list string;
  mr_FromPasswordFile : bool;
  mr_Profiles : Profiles;
  mr_SpreadOverLabels : labels;
  mr_NodeName : string;
  mr_Placement : Placement;
  mr_ServiceAccountName : string;
  mr_ManifestsVolume : bool;
  mr_ManifestsMountPath : string;
  mr_S3Connections : option Z
}.

Inductive envSource :=
| FromValue (v : string)
| FromSecret (secret key : string).                     (* a required secretKeyRef *)
Definition envVar : Type := string * envSource.

Inductive volumeSource :=
| SecretVolume (secret : string)
| EmptyDir (sizeLimit : option quantity)
| ClaimVolume (claim : string) (readOnly : bool).

Record volumeMount := mkVolumeMount { vm_Name : string; vm_Path : string; vm_ReadOnly : bool }.

Record container := mkContainer {
  ct_Name : string;
  ct_Image : string;
  ct_Command : list string;
  ct_Args : list string;
  ct_Env : list envVar;
  ct_Mounts : list volumeMount;
  ct_Requests : resources;
  ct_Limits : resources;
  ct_RunAsUser : Z;
  ct_RunAsGroup : Z;
  ct_AllowPrivilegeEscalation : bool;
  ct_ReadOnlyRootFilesystem : bool;
  ct_CapDrop : list string;
  ct_CapAdd : list string;
  ct_SeccompProfile : string;
  ct_TerminationMessagePath : string;
  ct_TerminationMessagePolicy : string
}.

(** A soft constraint over the nodes, which counts the pods of these labels. *)
Record spread := mkSpread { sc_MaxSkew : Z; sc_TopologyKey : string; sc_WhenUnsatisfiable : string; sc_Labels : labels }.

Record moverJob := mkMoverJob {
  mj_Name : string;
  mj_Namespace : string;
  mj_Labels : labels;
  mj_BackoffLimit : Z;
  mj_TTL : option Z;
  mj_PodLabels : labels;
  mj_RestartPolicy : string;
  mj_ServiceAccountName : string;
  mj_AutomountToken : bool;
  mj_SeccompProfile : string;
  mj_Spread : list spread;
  mj_NodeName : string;
  mj_NodeSelector : labels;
  mj_Tolerations : list Toleration;
  mj_Affinity : option Affinity;
  mj_Container : container;
  mj_Volumes : list (string * volumeSource)
}.

Definition NoTTL : Z := -1.
Definition ttlSeconds (ttl : Z) : option Z := if (ttl =? NoTTL)%Z then None else Some ttl.

Definition SecretMountPath : string := "/crystal/secret".
Definition SecretKeyResticPassword : string := "restic-password".
Definition SecretKeyResticFromPassword : string := "restic-from-password".
Definition ResticPasswordFilePath : string := SecretMountPath ++ "/" ++ SecretKeyResticPassword.
Definition ResticFromPasswordFilePath : string := SecretMountPath ++ "/" ++ SecretKeyResticFromPassword.
Definition SecretKeyAWSAccessKeyID : string := "AWS_ACCESS_KEY_ID".
Definition SecretKeyAWSSecretAccessKey : string := "AWS_SECRET_ACCESS_KEY".
Definition CacheDir : string := "/crystal/cache".
Definition tmpDir : string := "/tmp".
Definition defaultManifestsMount : string := "/manifests".
Definition LabelAppName : string := "app.kubernetes.io/name".
Definition AppName : string := "crystal-mover".

Definition moverLabels (l : labels) : labels := <[LabelAppName := AppName]> l.

(** [moverArgs], of the request's fields. *)
Definition requestArgs (req : moverRequest) : list string :=
  moverArgs (mr_Operation req) (mr_S3Connections req) (mr_RepoURL req) (mr_ResticArgs req).

Definition moverCapabilities (req : moverRequest) : list string :=
  if mr_Operation req =? OpRestore then ["CHOWN"; "DAC_OVERRIDE"; "FOWNER"; "MKNOD"; "SETFCAP"]
  else match mr_PVC req with Some _ => ["DAC_OVERRIDE"] | None => [] end.

Definition spreadConstraints (l : labels) : list spread :=
  if bool_decide (l = ∅) then [] else [mkSpread 1 "kubernetes.io/hostname" "ScheduleAnyway" l].

Definition credentialKeys (req : moverRequest) : list string :=
  match mr_CredentialKeys req with [] => [SecretKeyAWSAccessKeyID; SecretKeyAWSSecretAccessKey] | ks => ks end.

Definition secretEnv (secretName key : string) : envVar := (key, FromSecret secretName key).

Definition SortedEnvKeys (env : gmap string string) : list string := sort_strings (map fst (map_to_list env)).

Definition moverEnv (req : moverRequest) (profile : Profile) : list envVar :=
  ([("RESTIC_REPOSITORY", FromValue (mr_RepoURL req)); ("RESTIC_PASSWORD_FILE", FromValue ResticPasswordFilePath);
    ("RESTIC_CACHE_DIR", FromValue CacheDir); ("TMPDIR", FromValue tmpDir)]
   ++ (if mr_FromPasswordFile req then [("RESTIC_FROM_PASSWORD_FILE", FromValue ResticFromPasswordFilePath)] else [])
   ++ map (secretEnv (mr_SecretName req)) (credentialKeys req)
   ++ (if GoMemLimit profile =? "" then [] else [("GOMEMLIMIT", FromValue (GoMemLimit profile))])
   ++ map (fun name => (name, FromValue (default "" (mr_TraceEnv req !! name)))) (SortedEnvKeys (mr_TraceEnv req))
   ++ map (fun kv => (fst kv, FromValue (snd kv))) (mr_ExtraEnv req))%list.

(** The volumes and their mounts, in pairs as the source appends them. *)
Definition moverVolumes (req : moverRequest) (profile : Profile) : list (string * volumeSource) * list volumeMount :=
  let volumes := [("mover-secret", SecretVolume (mr_SecretName req)); ("restic-cache", EmptyDir (CacheSizeLimit profile)); ("tmp", EmptyDir None)] in
  let mounts := [mkVolumeMount "mover-secret" SecretMountPath true; mkVolumeMount "restic-cache" CacheDir false; mkVolumeMount "tmp" tmpDir false] in
  let '(volumes, mounts) :=
    if mr_ManifestsVolume req then
      let mountPath := if mr_ManifestsMountPath req =? "" then defaultManifestsMount else mr_ManifestsMountPath req in
      ((volumes ++ [("manifests", EmptyDir None)])%list, (mounts ++ [mkVolumeMount "manifests" mountPath false])%list)
    else (volumes, mounts) in
  match mr_PVC req with
  | Some pvc =>
      let readOnly := negb (pvc_ReadWrite pvc) in
      ((volumes ++ [("data-source", ClaimVolume (pvc_ClaimName pvc) readOnly)])%list,
       (mounts ++ [mkVolumeMount "data-source" (pvc_MountPath pvc) readOnly])%list)
  | None => (volumes, mounts)
  end.

(** [BuildJob], of a request whose operation has a profile. *)
Definition buildWith (req : moverRequest) (profile : Profile) : moverJob :=
  let '(volumes, mounts) := moverVolumes req profile in
  let '(nodeSelector, tolerations, affinity) := forJob (mr_Placement req) (negb (mr_NodeName req =? "")) in
  mkMoverJob (mr_Name req) (mr_Namespace req) (moverLabels (mr_Labels req)) (mr_BackoffLimit req) (ttlSeconds (mr_TTLSeconds req))
    (moverLabels (mr_Labels req)) "Never" (mr_ServiceAccountName req) (negb (mr_ServiceAccountName req =? "")) "RuntimeDefault"
    (spreadConstraints (mr_SpreadOverLabels req)) (mr_NodeName req) nodeSelector tolerations affinity
    (mkContainer "mover" (mr_Image req) ["/usr/bin/crystal-mover"] (requestArgs req) (moverEnv req profile) mounts
       (Requests profile) (Limits profile) 0 0 false true ["ALL"] (moverCapabilities req) "RuntimeDefault"
       "/dev/termination-log" "File")
    volumes.

Definition BuildJob (req : moverRequest) : option moverJob :=
  match profileFor (mr_Profiles req) (mr_Operation req) with
  | Some profile => Some (buildWith req profile)
  | None => None
  end.
End MoverJob.

(** ** Profiles: what a table promises *)

Section Facts.
Context `{Q : Quantities}.

Notation Profiles := (gmap string Profile).
Notation overrides := (gmap string ProfileOverride).

(** No request is above its limit. *)
Definition withinLimits (p : Profile) : Prop :=
  forall r l, (res_CPU (Requests p) = Some r /\ res_CPU (Limits p) = Some l)
    \/ (res_Memory (Requests p) = Some r /\ res_Memory (Limits p) = Some l) -> quantityCmp r l <> Gt.

Lemma withinLimit_ok name request limit x :
  withinLimit name request limit = Ok x -> forall r l, request = Some r -> limit = Some l -> quantityCmp r l <> Gt.
Proof. intros H r l -> ->. cbn in H. by destruct (quantityCmp r l). Qed.

Lemma resolveSpec_within s p : resolveSpec s = Ok p -> withinLimits p.
Proof.
  unfold resolveSpec. destruct (resourceList _ _ "requests") as [req|] eqn:?; [|done]. cbn.
  destruct (resourceList _ _ "limits") as [lim|] eqn:?; [|done]. cbn.
  destruct (withinLimit "cpu" _ _) as [u|] eqn:E1; [|done]. cbn. destruct (withinLimit "memory" _ _) as [v|] eqn:E2; [|done]. cbn.
  destruct (optionalQuantity _ _); [|done]. cbn. intros [= <-] r l [[Hr Hl]|[Hr Hl]].
  - exact (withinLimit_ok _ _ _ _ E1 _ _ Hr Hl).
  - exact (withinLimit_ok _ _ _ _ E2 _ _ Hr Hl).
Qed.

Lemma checkKeys_spec keys :
  checkKeys keys = None <-> Forall (fun key => key = DefaultProfileKey \/ is_Some (builtinSpecs !! key)) keys.
Proof.
  induction keys as [|key keys IH]; cbn -[builtinSpecs]; [by split; [constructor|]|]. rewrite Forall_cons, <-IH.
  destruct (key =? DefaultProfileKey) eqn:E.
  - apply String.eqb_eq in E. naive_solver.
  - apply String.eqb_neq in E. destruct (builtinSpecs !! key) eqn:Eb; [naive_solver|].
    split; [done|]. intros [[?|[? ?]] _]; [done|]. congruence.
Qed.

Lemma checkKeys_some keys e :
  checkKeys keys = Some e -> exists key, key ∈ keys /\ key <> DefaultProfileKey /\ builtinSpecs !! key = None.
Proof.
  induction keys as [|key keys IH]; cbn -[builtinSpecs]; [done|]. destruct (key =? DefaultProfileKey) eqn:E.
  - intros (k & Hin & H)%IH. exists k. split; [by right|done].
  - apply String.eqb_neq in E. destruct (builtinSpecs !! key) eqn:Eb.
    + intros (k & Hin & H)%IH. exists k. split; [by right|done].
    + intros _. exists key. split; [left|done].
Qed.

Lemma resolveAll_ok o specs out out' :
  NoDup (map fst specs) -> resolveAll o specs out = Ok out' ->
  (forall op s, (op, s) ∈ specs -> exists p, out' !! op = Some p /\ resolveSpec (mergedSpec o op s) = Ok p)
  /\ (forall op, op ∉ map fst specs -> out' !! op = out !! op).
Proof.
  revert out. induction specs as [|[op s] specs IH]; intros out; cbn.
  { intros _ [= ->]. split; [|done]. intros op s H. by apply elem_of_nil in H. }
  intros [Hn Hd]%NoDup_cons H. destruct (resolveSpec (mergedSpec o op s)) as [p|e] eqn:Er; [|done].
  destruct (IH _ Hd H) as [H1 H2]. split.
  - intros op' s' [[= -> ->]|Hin]%elem_of_cons; [|by apply H1]. exists p. split; [|done].
    rewrite H2 by done. apply lookup_insert_eq.
  - intros op' [Hne Hout]%not_elem_of_cons. rewrite H2 by done. by apply lookup_insert_ne.
Qed.

Lemma resolveAll_err o specs out e :
  resolveAll o specs out = Err e -> exists op s e', (op, s) ∈ specs /\ resolveSpec (mergedSpec o op s) = Err e'.
Proof.
  revert out. induction specs as [|[op s] specs IH]; intros out; cbn; [done|].
  destruct (resolveSpec (mergedSpec o op s)) as [p|e'] eqn:Er.
  - intros (op' & s' & e'' & Hin & H)%IH. exists op', s', e''. split; [by right|done].
  - intros _. exists op, s, e'. split; [left|done].
Qed.

(** The value of a field: the operation's own, the default's, or the built-in one. *)
Definition chosen (own dflt builtin : string) : string := orKeep own (orKeep dflt builtin).

Definition memoryLimitOf (o : overrides) (key : string) : string :=
  match o !! key with Some o => ro_Memory (overrideOf (po_Limits o)) | None => "" end.

Lemma merged_memoryLimit o op s :
  memoryLimit (mergedSpec o op s) = chosen (memoryLimitOf o op) (memoryLimitOf o DefaultProfileKey) (memoryLimit s).
Proof. unfold mergedSpec, applyFrom, memoryLimitOf, chosen. destruct (o !! op), (o !! DefaultProfileKey); done. Qed.

(** In whatever order Go visits the two maps, a file is accepted exactly when its keys are
    operations or the default and every built-in profile with its overrides is one that can
    be; the table then holds these profiles and no others, with no request above its limit. *)
Theorem LoadProfiles_spec o keys specs :
  keys ≡ₚ map fst (map_to_list o) -> specs ≡ₚ map_to_list builtinSpecs ->
  match LoadProfiles (Ok o) keys specs with
  | Ok out => (forall key, is_Some (o !! key) -> key = DefaultProfileKey \/ is_Some (builtinSpecs !! key))
      /\ (forall op, match builtinSpecs !! op with
                     | Some s => exists p, out !! op = Some p /\ resolveSpec (mergedSpec o op s) = Ok p /\ withinLimits p
                     | None => out !! op = None
                     end)
  | Err _ => (exists key, is_Some (o !! key) /\ key <> DefaultProfileKey /\ builtinSpecs !! key = None)
      \/ exists op s e, builtinSpecs !! op = Some s /\ resolveSpec (mergedSpec o op s) = Err e
  end.
Proof.
  intros Hk Hs. unfold LoadProfiles.
  assert (forall key, key ∈ keys <-> is_Some (o !! key)) as Hkeys.
  { intros key. rewrite Hk. change (map fst (map_to_list o)) with ((map_to_list o).*1). rewrite list_elem_of_fmap. split.
    - intros ([k v] & -> & Hin%elem_of_map_to_list). by exists v.
    - intros [v Hv]. exists (key, v). split; [done|]. by apply elem_of_map_to_list. }
  assert (forall op s, (op, s) ∈ specs <-> builtinSpecs !! op = Some s) as Hspecs by (intros; rewrite Hs; apply elem_of_map_to_list).
  destruct (checkKeys keys) as [e|] eqn:Ek.
  - left. apply checkKeys_some in Ek as (key & Hin & Hne & Hb). exists key. by rewrite <-Hkeys.
  - rewrite checkKeys_spec, Forall_forall in Ek. destruct (resolveAll o specs ∅) as [out|e] eqn:Er.
    2: { right. apply resolveAll_err in Er as (op & s & e' & Hin & H). exists op, s, e'. by rewrite <-Hspecs. }
    assert (NoDup (map fst specs)) as Hn.
    { change (map fst specs) with (specs.*1). rewrite Hs. apply NoDup_fst_map_to_list. }
    destruct (resolveAll_ok _ _ _ _ Hn Er) as [H1 H2]. split; [intros key Hkey; by apply Ek, Hkeys|].
    intros op. destruct (builtinSpecs !! op) as [s|] eqn:Eb.
    + apply Hspecs in Eb. destruct (H1 _ _ Eb) as (p & Hp & Hr). exists p. split_and!; [done..|by eapply resolveSpec_within].
    + rewrite H2; [done|]. change (map fst specs) with (specs.*1). rewrite list_elem_of_fmap. intros ([k s] & -> & Hin).
      apply Hspecs in Hin. cbn [fst] in Eb. by rewrite Hin in Eb.
Qed.

(** *** Placement *)

Section Placement.
Context {podAffinity podAntiAffinity : Type} (IsQualifiedName IsValidLabelValue : string -> list string).

Lemma or_else_None a b : or_else a b = None <-> a = None /\ b = None.
Proof. destruct a; naive_solver. Qed.

Lemma firstError_None {A} (check : nat -> A -> option gerr) i l :
  firstError check i l = None <-> forall j x, l !! j = Some x -> check (i + j) x = None.
Proof.
  revert i. induction l as [|x l IH]; intros i; cbn; [done|]. destruct (check i x) as [e|] eqn:E.
  - split; [done|]. intros H. specialize (H 0 x eq_refl). rewrite Nat.add_0_r in H. congruence.
  - rewrite IH. split.
    + intros H [|j] y Hj; [injection Hj as <-; by rewrite Nat.add_0_r|]. rewrite <-Nat.add_succ_comm. by apply H.
    + intros H j y Hj. rewrite Nat.add_succ_comm. by apply H.
Qed.

Lemma at_index_None prefix suffix i e : at_index prefix suffix i e = None <-> e = None.
Proof. by destruct e. Qed.

(** A requirement on a node's labels that the API server takes. *)
Definition sound (r : NodeSelectorRequirement) : Prop :=
  IsQualifiedName (nr_Key r) = []
  /\ match nr_Values r with
     | [] => nr_Operator r = "Exists" \/ nr_Operator r = "DoesNotExist"
     | [v] => nr_Operator r = "In" \/ nr_Operator r = "NotIn"
              \/ ((nr_Operator r = "Gt" \/ nr_Operator r = "Lt") /\ is_Some (ParseInt v))
     | _ => nr_Operator r = "In" \/ nr_Operator r = "NotIn"
     end.

Lemma complaints_None prefix errs : complaints prefix errs = None <-> errs = [].
Proof. by destruct errs. Qed.

Lemma validateRequirement_sound r : validateRequirement IsQualifiedName r = None <-> sound r.
Proof.
  unfold validateRequirement, sound. rewrite or_else_None, complaints_None, (and_comm _ (_ = [])).
  apply and_iff_compat_l. destruct r as [key op vs]. cbn [nr_Key nr_Operator nr_Values].
  destruct (op =? "In") eqn:E1; [apply String.eqb_eq in E1 as ->; destruct vs as [|v [|w vs]]; cbn; naive_solver|].
  destruct (op =? "NotIn") eqn:E2; [apply String.eqb_eq in E2 as ->; destruct vs as [|v [|w vs]]; cbn; naive_solver|].
  destruct (op =? "Exists") eqn:E3; [apply String.eqb_eq in E3 as ->; destruct vs as [|v [|w vs]]; cbn; naive_solver|].
  destruct (op =? "DoesNotExist") eqn:E4; [apply String.eqb_eq in E4 as ->; destruct vs as [|v [|w vs]]; cbn; naive_solver|].
  destruct (op =? "Gt") eqn:E5; [apply String.eqb_eq in E5 as ->; destruct vs as [|v [|w vs]]; cbn; [naive_solver| |naive_solver]|].
  { destruct (ParseInt v); [|naive_solver]. split; [|done]. right. right. eauto. }
  destruct (op =? "Lt") eqn:E6; [apply String.eqb_eq in E6 as ->; destruct vs as [|v [|w vs]]; cbn; [naive_solver| |naive_solver]|].
  { destruct (ParseInt v); [|naive_solver]. split; [|done]. right. right. eauto. }
  apply String.eqb_neq in E1, E2, E3, E4, E5, E6. cbn. destruct vs as [|v [|w vs]]; naive_solver.
Qed.

Definition soundTerm (t : NodeSelectorTerm) : Prop :=
  Forall sound (nt_MatchExpressions t ++ nt_MatchFields t) /\ (nt_MatchExpressions t ++ nt_MatchFields t)%list <> [].

Lemma validateTerm_sound t : validateTerm IsQualifiedName t = None <-> soundTerm t.
Proof.
  unfold validateTerm, soundTerm. rewrite !or_else_None, !firstError_None. setoid_rewrite at_index_None.
  setoid_rewrite validateRequirement_sound. rewrite Forall_app, !Forall_lookup.
  destruct t as [es fs]. cbn [nt_MatchExpressions nt_MatchFields]. destruct es as [|e es], fs as [|f fs]; cbn [length Nat.eqb andb app]; naive_solver.
Qed.

(** A node affinity that a pod can be scheduled with: terms that are required are there and
    say something, and a preference has a weight in range. *)
Definition soundNodeAffinity (na : NodeAffinity) : Prop :=
  (forall terms, na_Required na = Some terms -> terms <> [] /\ Forall soundTerm terms)
  /\ Forall (fun p => (1 <= fst p <= 100)%Z /\ soundTerm (snd p)) (na_Preferred na).

Lemma validateNodeAffinity_sound na : validateNodeAffinity IsQualifiedName na = None <-> soundNodeAffinity na.
Proof.
  unfold validateNodeAffinity, soundNodeAffinity. rewrite or_else_None. f_equiv.
  - destruct (na_Required na) as [terms|]; [|naive_solver]. destruct terms as [|t terms]; cbn [length Nat.eqb]; [naive_solver|].
    rewrite firstError_None. setoid_rewrite at_index_None. setoid_rewrite validateTerm_sound. rewrite <-(Forall_lookup soundTerm). naive_solver.
  - rewrite firstError_None, Forall_lookup. apply forall_proper. intros j. apply forall_proper. intros [w t]. cbn [fst snd].
    destruct ((w <? 1)%Z || (100 <? w)%Z) eqn:E.
    + split; [|intros H Hj; exfalso; destruct (H Hj) as [? _]; lia]. intros H Hj. by specialize (H Hj).
    + rewrite at_index_None, validateTerm_sound. assert (1 <= w <= 100)%Z by lia. naive_solver.
Qed.

(** A placement that is loaded has node affinities a pod can be scheduled with, and on a
    Job that names its node, nothing that could have the kubelet refuse it. *)
Theorem LoadPlacement_schedulable parsed entries (p : @Placement podAffinity podAntiAffinity) a :
  LoadPlacement IsQualifiedName IsValidLabelValue parsed entries = Ok p ->
  pl_Affinity p = Some a ->
  (forall na, af_Node a = Some na -> soundNodeAffinity na) /\ ~ (af_Node a = None /\ af_Pod a = None /\ af_PodAnti a = None).
Proof.
  unfold LoadPlacement. destruct parsed as [q|e]; [|done]. destruct (validatePlacement _ _ _ _) eqn:Ev; [done|]. intros [= <-].
  unfold validatePlacement in Ev. rewrite !or_else_None in Ev. destruct Ev as (_ & _ & Ev). cbn.
  destruct (pl_Affinity q) as [[n pod anti]|]; [|done]. cbn in Ev. intros Ha.
  assert (a = mkAffinity n pod anti /\ ~ (n = None /\ pod = None /\ anti = None)) as [-> Hne].
  { destruct n, pod, anti; naive_solver. }
  split; [|done]. cbn. intros na ->. apply validateNodeAffinity_sound. by destruct (validateNodeAffinity _ _).
Qed.
End Placement.
End Facts.

(** ** The pods of the operator's Jobs *)

Section Pods.
Context `{Q : Quantities} {podAffinity podAntiAffinity : Type}.
Context (OperatorNamespace MoverImage : string) (profiles : gmap string Profile) (placement : @Placement podAffinity podAntiAffinity).

Notation request := (@moverRequest Q podAffinity podAntiAffinity).
Notation job := (@moverJob Q podAffinity podAntiAffinity).

(** The request of a copy, with what the operator gives every mover. *)
Definition copyRequest (r : syncJobRequest) : request :=
  mkMoverRequest (sj_Name r) OperatorNamespace (sj_Image r) OpSync (sj_ResticArgs r) (sj_RepoURL r) (sj_SecretName r) None
    (sj_Labels r) (sj_BackoffLimit r) (sj_TTLSeconds r) (sj_ExtraEnv r) ∅ (sj_CredentialKeys r) (sj_FromPasswordFile r) profiles ∅ ""
    placement "" false "" None.

(** And that of a maintenance operation. *)
Definition maintenanceRequest (r : JobRequest) : request :=
  mkMoverRequest (jr_Name r) OperatorNamespace MoverImage (jr_Operation r) (jr_ResticArgs r) (jr_RepoURL r) (jr_SecretName r) None
    (jr_Labels r) (jr_BackoffLimit r) (jr_TTLSeconds r) [] ∅ [] false profiles ∅ "" placement "" false "" (jr_S3Connections r).

(** The data of the Secret of a mover that speaks to one repository. *)
Definition moverSecretData (dek accessKey secretKey : string) : list (string * string) :=
  [(SecretKeyResticPassword, dek); (SecretKeyAWSAccessKeyID, accessKey); (SecretKeyAWSSecretAccessKey, secretKey)].

(** The Secret of a name holds what a pod needs of it. *)
Definition provides (name : string) (data : list (string * string)) (j : job) : Prop :=
  (forall var secret key, (var, FromSecret secret key) ∈ ct_Env (mj_Container j) -> secret = name /\ var = key /\ key ∈ map fst data)
  /\ (forall var path, (var, FromValue path) ∈ ct_Env (mj_Container j) -> var = "RESTIC_PASSWORD_FILE" \/ var = "RESTIC_FROM_PASSWORD_FILE" ->
      exists key, key ∈ map fst data /\ path = SecretMountPath ++ "/" ++ key)
  /\ (exists volume, (volume, SecretVolume name) ∈ mj_Volumes j /\ mkVolumeMount volume SecretMountPath true ∈ ct_Mounts (mj_Container j)).

(** The variables that name the files of the passwords. *)
Definition passwordFile (var : string) : bool := (var =? "RESTIC_PASSWORD_FILE") || (var =? "RESTIC_FROM_PASSWORD_FILE").

(** What is by reference in a mover's environment is a credential key of the request. *)
Lemma moverEnv_secret (req : request) profile var secret key :
  (var, FromSecret secret key) ∈ moverEnv req profile -> secret = mr_SecretName req /\ var = key /\ key ∈ credentialKeys req.
Proof.
  unfold moverEnv. rewrite !elem_of_app. intros Hin. destruct Hin as [Hin|[Hin|[Hin|[Hin|[Hin|Hin]]]]].
  - rewrite !elem_of_cons, elem_of_nil in Hin. naive_solver.
  - destruct (mr_FromPasswordFile req); [apply list_elem_of_singleton in Hin|apply elem_of_nil in Hin]; done.
  - apply list_elem_of_fmap in Hin as (k & [= -> -> ->] & Hk). done.
  - destruct (_ =? ""); [apply elem_of_nil in Hin|apply list_elem_of_singleton in Hin]; done.
  - by apply list_elem_of_fmap in Hin as (k & [= ] & Hk).
  - by apply list_elem_of_fmap in Hin as (k & [= ] & Hk).
Qed.

(** The password files, unless the request brings variables of their names. *)
Lemma moverEnv_password (req : request) profile var path :
  mr_TraceEnv req = ∅ -> (forall kv, kv ∈ mr_ExtraEnv req -> passwordFile (fst kv) = false) -> passwordFile var = true ->
  (forall key, key ∈ credentialKeys req -> passwordFile key = false) ->
  (var, FromValue path) ∈ moverEnv req profile ->
  path = ResticPasswordFilePath \/ (mr_FromPasswordFile req = true /\ path = ResticFromPasswordFilePath).
Proof.
  intros Ht He Hv Hc. unfold moverEnv. rewrite Ht, !elem_of_app. intros Hin. destruct Hin as [Hin|[Hin|[Hin|[Hin|[Hin|Hin]]]]].
  - repeat (apply elem_of_cons in Hin as [[= -> ->]|Hin]; [first [discriminate Hv|by left]|]). by apply elem_of_nil in Hin.
  - destruct (mr_FromPasswordFile req); [apply list_elem_of_singleton in Hin as [= -> ->]; by right|by apply elem_of_nil in Hin].
  - by apply list_elem_of_fmap in Hin as (k & [= ] & Hk).
  - destruct (_ =? ""); [by apply elem_of_nil in Hin|apply list_elem_of_singleton in Hin as [= -> ->]; discriminate Hv].
  - cbn in Hin. by apply elem_of_nil in Hin.
  - apply list_elem_of_fmap in Hin as (k & [= -> ->] & Hk). by rewrite (He k Hk) in Hv.
Qed.

Lemma BuildJob_parts (req : request) j :
  BuildJob req = Some j -> exists profile, ct_Env (mj_Container j) = moverEnv req profile
    /\ ct_Args (mj_Container j) = requestArgs req /\ mj_Volumes j = fst (moverVolumes req profile) /\ ct_Mounts (mj_Container j) = snd (moverVolumes req profile).
Proof.
  unfold BuildJob. destruct (profileFor _ _) as [profile|]; [|done]. intros [= <-]. exists profile. unfold buildWith.
  destruct (moverVolumes req profile) as [vs ms]. by destruct (forJob _ _) as [[ns tols] aff].
Qed.

Lemma moverVolumes_secret (req : request) profile :
  ("mover-secret", SecretVolume (mr_SecretName req)) ∈ fst (moverVolumes req profile)
  /\ mkVolumeMount "mover-secret" SecretMountPath true ∈ snd (moverVolumes req profile).
Proof. unfold moverVolumes. destruct (mr_ManifestsVolume req), (mr_PVC req); cbn; split; left. Qed.

(** A Job whose Secret holds its credential keys and its passwords finds all it needs. *)
Lemma BuildJob_provided (req : request) j data :
  BuildJob req = Some j -> mr_TraceEnv req = ∅ -> (forall kv, kv ∈ mr_ExtraEnv req -> passwordFile (fst kv) = false) ->
  (forall key, key ∈ credentialKeys req -> passwordFile key = false /\ key ∈ map fst data) ->
  SecretKeyResticPassword ∈ map fst data -> (mr_FromPasswordFile req = true -> SecretKeyResticFromPassword ∈ map fst data) ->
  provides (mr_SecretName req) data j.
Proof.
  intros (profile & Henv & _ & Hv & Hm)%BuildJob_parts Ht He Hc Hp Hf. unfold provides. rewrite Henv, Hv, Hm. split_and!.
  - intros var secret key (-> & -> & Hk)%moverEnv_secret. split_and!; [done..|]. by apply Hc.
  - intros var path Hin Hvar. destruct (moverEnv_password req profile var path) as [-> | [Hfr ->]]; try done.
    + unfold passwordFile. destruct Hvar as [-> | ->]; done.
    + intros key Hk. by apply Hc.
    + exists SecretKeyResticPassword. by split.
    + exists SecretKeyResticFromPassword. split; [by apply Hf|done].
  - exists "mover-secret". apply moverVolumes_secret.
Qed.

Lemma RcloneRemoteEnv_head remote key : String.prefix "RCLONE_CONFIG_" (RcloneRemoteEnv remote key) = true.
Proof. unfold RcloneRemoteEnv. generalize (ToUpper remote ++ "_" ++ key). intros s. cbn. by destruct s. Qed.

(** The environment a copy brings along is RESTIC_FROM_REPOSITORY and rclone's. *)
Lemma copyEnv_names image name run kv :
  kv ∈ sj_ExtraEnv (buildSyncJobRequest image name run) ->
  fst kv = "RESTIC_FROM_REPOSITORY" \/ fst kv = "RCLONE_CONFIG" \/ String.prefix "RCLONE_CONFIG_" (fst kv) = true.
Proof.
  assert (forall e kv, kv ∈ rcloneConfigEnv e -> String.prefix "RCLONE_CONFIG_" (fst kv) = true) as Hr.
  { intros e kv'. unfold rcloneConfigEnv. rewrite elem_of_app. destruct (_ =? ""); rewrite ?elem_of_cons, ?elem_of_nil.
    all: intros Hin; repeat match goal with H : _ \/ _ |- _ => destruct H | H : False |- _ => destruct H end; subst kv'; apply RcloneRemoteEnv_head. }
  cbn [sj_ExtraEnv buildSyncJobRequest]. rewrite !elem_of_app, !elem_of_cons, elem_of_nil.
  intros [[-> | [-> | []]] | [H%Hr | H%Hr]]; cbn; auto.
Qed.

Lemma prefix_not_password var : String.prefix "RCLONE_CONFIG_" var = true -> passwordFile var = false.
Proof.
  unfold passwordFile. intros H. destruct (var =? "RESTIC_PASSWORD_FILE") eqn:E1; [apply String.eqb_eq in E1 as ->; discriminate H|].
  destruct (var =? "RESTIC_FROM_PASSWORD_FILE") eqn:E2; [apply String.eqb_eq in E2 as ->; discriminate H|done].
Qed.

(** C21. The pod of a copy finds in the Secret written for it every key it references and
    every password file it is told of, the Secret mounted where the files are looked for;
    restic is given the copy's own arguments and no option of a backend it does not speak. *)
Theorem copy_pod_is_provided image name run tr r n data x j :
  se_Remote (sr_Source run) = SyncRemoteSource -> se_Remote (sr_Dest run) = SyncRemoteDest ->
  runs (ensureSyncCredsSecret OperatorNamespace name run) tr r ->
  Ev (I := sumI opI copyI) (inr (CCreateSecret n data)) x ∈ tr ->
  BuildJob (copyRequest (buildSyncJobRequest image name run)) = Some j ->
  provides n data j /\ ct_Args (mj_Container j) = ("--operation" :: "sync" :: "--" :: SyncArgs (sr_Namespaces run))%list.
Proof.
  intros Hs Hd Hr Hin Hj. destruct (copy_keeps_accounts_apart _ _ _ _ _ _ _ _ Hr Hin) as (-> & src & dst & Ha & Hb & ->).
  destruct Ha as (a1 & s1 & _ & _ & ->), Hb as (a2 & s2 & _ & _ & ->). rewrite Hs, Hd. split.
  - apply (BuildJob_provided (copyRequest (buildSyncJobRequest image name run))); [done|done| | | |].
    + intros kv Hkv. apply (copyEnv_names image name run) in Hkv as [E|[E|E]]; [by rewrite E|by rewrite E|by apply prefix_not_password].
    + intros key Hk. cbn in Hk. repeat (apply elem_of_cons in Hk as [->|Hk]; [split; [done|set_solver]|]). by apply elem_of_nil in Hk.
    + cbn. left.
    + intros _. cbn. right. left.
  - destruct (BuildJob_parts _ _ Hj) as (profile & _ & -> & _). done.
Qed.

(** So does the pod of a maintenance operation. *)
Theorem maintenance_pod_is_provided q dek accessKey secretKey j :
  BuildJob (maintenanceRequest (jobRequest q)) = Some j -> provides (rq_Name q) (moverSecretData dek accessKey secretKey) j.
Proof.
  intros Hj. apply (BuildJob_provided (maintenanceRequest (jobRequest q))); [done|done| | | |done].
  - intros kv Hkv. by apply elem_of_nil in Hkv.
  - intros key Hk. cbn in Hk. repeat (apply elem_of_cons in Hk as [->|Hk]; [split; [done|set_solver]|]). by apply elem_of_nil in Hk.
  - left.
Qed.
End Pods.

(** ** On concrete requests *)

(** Quantities in thousandths, read off a table of the texts that occur. *)
Definition wit_parse (s : string) : result Z :=
  match List.find (fun kv => fst kv =? s)
          [("200m", 200); ("500m", 500); ("50m", 50); ("100m", 100); ("128Mi", 128 * 1048576000); ("256Mi", 256 * 1048576000);
           ("300Mi", 300 * 1048576000); ("1Gi", 1024 * 1048576000); ("2Gi", 2048 * 1048576000); ("4Gi", 4096 * 1048576000);
           ("8Gi", 8192 * 1048576000); ("20Gi", 20480 * 1048576000)]%Z with
  | Some kv => Ok (snd kv)
  | None => Err (errorf "quantities must match the regular expression")
  end.

#[local] Instance wit_quantities : Quantities :=
  {| quantity := Z; ParseQuantity := wit_parse; quantityValue := fun q => ((q + 999) / 1000)%Z; quantityCmp := Z.compare;
     quantitySign := Z.sgn; quantityString := Itoa |}.

Definition limitOf (op : string) (o : gmap string ProfileOverride) : result string :=
  match LoadProfiles (Ok o) (map fst (map_to_list o)) (map_to_list builtinSpecs) with
  | Ok out => match profileFor out op with Some p => Ok (GoMemLimit p) | None => Err (errorf "panic") end
  | Err e => Err e
  end.

Definition wit_override (memory : string) : ProfileOverride := mkProfileOverride None (Some (mkResourceOverride "" memory)) "".

(** The heap a mover is told of: four fifths of its limit, none without a limit, none
    where a fifth less is too tight; an operation's own override before the default's. *)
Example memory_limits :
  map (fun o => limitOf OpForget o) [∅; {["default" := wit_override "2Gi"]}; {["default" := wit_override "2Gi"; OpForget := wit_override "0"]};
    {[OpForget := wit_override "300Mi"]}]
  = [Ok "819MiB"; Ok "1638MiB"; Ok ""; Ok ""].
Proof. vm_compute. reflexivity. Qed.

(** A limit under the built-in request is refused when the operator starts, as is a key
    that is no operation. *)
Example refused_profiles :
  (exists e, limitOf OpPrune {[OpPrune := wit_override "256Mi"]} = Err e) /\ (exists e, limitOf OpPrune {["purge" := wit_override "2Gi"]} = Err e).
Proof. split; eexists; vm_compute; reflexivity. Qed.

Definition wit_placement : @Placement unit unit :=
  mkPlacement {["pool" := "backup"]} [mkToleration "pool" "Equal" "backup" "NoExecute" None] None.

Definition wit_mrequest (node : string) (pvc : option PVCMount) : @moverRequest _ unit unit :=
  mkMoverRequest "job" "ops" "image" OpRestore ["restore"] "s3:h:9000/b" "secret" pvc ∅ 1 NoTTL [] ∅ [] false ∅ ∅ node wit_placement "" false "" (Some 8%Z).

(** A restore pinned to a node keeps its tolerations and drops what the kubelet would
    refuse it for; its claim is writable, and its option is for the backend it speaks. *)
Example pinned_restore :
  (fun j => (mj_NodeSelector j, length (mj_Tolerations j), map fst (mj_Volumes j), ct_Args (mj_Container j)))
    <$> BuildJob (wit_mrequest "node1" (Some (mkPVCMount "claim" "/restore" true)))
  = Some (∅, 1, ["mover-secret"; "restic-cache"; "tmp"; "data-source"],
          ["--operation"; "restore"; "--"; "-o"; "s3.connections=8"; "restore"]).
Proof. vm_compute. reflexivity. Qed.

Definition isOk {A} (r : result A) : bool := match r with Ok _ => true | Err _ => false end.

Lemma LoadProfiles_spec_witness :
  exists out, LoadProfiles (Ok {[OpForget := wit_override "2Gi"]}) [OpForget] (map_to_list builtinSpecs) = Ok out
    /\ exists p, out !! OpForget = Some p /\ withinLimits p.
Proof.
  pose proof (LoadProfiles_spec {[OpForget := wit_override "2Gi"]} [OpForget] (map_to_list builtinSpecs)) as H.
  assert ([OpForget] ≡ₚ map fst (map_to_list ({[OpForget := wit_override "2Gi"]} : gmap string ProfileOverride))) as Hk
    by (vm_compute; reflexivity).
  specialize (H Hk (Permutation_refl _)). assert (isOk (LoadProfiles (Ok {[OpForget := wit_override "2Gi"]}) [OpForget] (map_to_list builtinSpecs)) = true) as Hok
    by (vm_compute; reflexivity).
  destruct (LoadProfiles _ _ _) as [out|e]; [|discriminate Hok].
  exists out. split; [reflexivity|]. destruct H as [_ H]. specialize (H OpForget).
  assert (builtinSpecs !! OpForget = Some classRepoLight) as Hb by (vm_compute; reflexivity). rewrite Hb in H.
  destruct H as (p & Hp & _ & Hw). exists p. split; [exact Hp|exact Hw].
Defined.

Definition wit_preferring : @Placement unit unit :=
  mkPlacement ∅ [] (Some (mkAffinity (Some (mkNodeAffinity None [(10%Z, mkNodeSelectorTerm [mkNodeSelectorRequirement "pool" "Exists" []] [])])) None None)).

Lemma LoadPlacement_schedulable_witness :
  LoadPlacement (fun _ => []) (fun _ => []) (Ok wit_preferring) [] = Ok wit_preferring
  /\ exists a, pl_Affinity wit_preferring = Some a /\ forall na, af_Node a = Some na -> soundNodeAffinity (fun _ => []) na.
Proof.
  assert (LoadPlacement (fun _ => []) (fun _ => []) (Ok wit_preferring) [] = Ok wit_preferring) as H by reflexivity.
  split; [exact H|]. eexists. split; [reflexivity|].
  exact (proj1 (LoadPlacement_schedulable (fun _ => []) (fun _ => []) (Ok wit_preferring) [] wit_preferring _ H eq_refl)).
Defined.

Definition wit_cserver : server (sumI opI copyI) :=
  fun _ o =>
    match o return answer (sumI opI copyI) o with
    | inl o =>
        match o return op_answer o with
        | JReadSecret _ _ _ => Ok "value"
        | JListMovers => Ok []
        | JGet _ => Err (mkErr ENotFound "")
        | JNow => 0%Z
        | JListPods _ => Ok []
        | JCreateSecret _ _ _ _ | JDrainSelect | JSelect | JCreate _ | JDeleteJob _ | JDeleteSecret _ => None
        end
    | inr _ => None
    end.

Definition wit_cdata : list (string * string) :=
  [("restic-password", "key"); ("restic-from-password", "key"); ("RCLONE_CONFIG_SRC_ACCESS_KEY_ID", "value");
   ("RCLONE_CONFIG_SRC_SECRET_ACCESS_KEY", "value"); ("RCLONE_CONFIG_DST_ACCESS_KEY_ID", "value"); ("RCLONE_CONFIG_DST_SECRET_ACCESS_KEY", "value")].

Lemma copy_pod_is_provided_witness :
  exists j, BuildJob (copyRequest "ops" ∅ wit_placement (buildSyncJobRequest "image" "cbes-offsite-copy" wit_srun)) = Some j
    /\ provides "cbes-offsite-copy" wit_cdata j.
Proof.
  assert (bool_decide (is_Some (BuildJob (copyRequest "ops" ∅ wit_placement (buildSyncJobRequest "image" "cbes-offsite-copy" wit_srun)))) = true) as Hs
    by (vm_compute; reflexivity).
  destruct (BuildJob _) as [j|] eqn:E in Hs |- *; [|discriminate Hs].
  exists j. split; [reflexivity|].
  assert (Ev (I := sumI opI copyI) (inr (CCreateSecret "cbes-offsite-copy" wit_cdata)) None
    ∈ fst (exec wit_cserver (ensureSyncCredsSecret "ops" "cbes-offsite-copy" wit_srun) [])) as Hin.
  { apply (list_elem_of_lookup_2 _ 4). vm_compute. reflexivity. }
  exact (proj1 (copy_pod_is_provided "ops" ∅ wit_placement "image" "cbes-offsite-copy" wit_srun _ _ _ _ _ j eq_refl eq_refl
    (exec_runs wit_cserver (ensureSyncCredsSecret "ops" "cbes-offsite-copy" wit_srun) []) Hin E)).
Defined.
